(* ===== verification/_CoqProject ===== *)
-Q . S2P
Prelude.v
Mem.v
LogFmt.v
Log.v
GlobalPtr.v
Root.v
MemMan.v
Object.v
SMap.v
NvsStore.v
Store.v
NvsInst.v
NvsRun.v
FileStore.v
StoreCtor.v
TimingStore.v
StoreManager.v
DeltaStore.v
CrcTables.v
Crc.v
Blocks.v
Md5.v
Sha1.v
Sha2.v
Sha256.v
Sha512.v
Sha3.v
XxHash.v
Bloom.v
Axmap.v
AxmapSpec.v
Smalloc.v
SmallocHeap.v
Lfsr.v
LfsrSpec.v
Rbtree.v
RbInsert.v
RbErase.v
RbWalk.v
PlatHist.v
Fifo.v
IouQueue.v
IoEngine.v
IoSync.v
IoLife.v
IoLifeInv.v
IoLifeRun.v
IoLifeSys.v
IoLifeRuns.v
Threads.v
Gettime.v
FioMutex.v
Flist.v
FlistSort.v
FlistRun.v
FileHash.v
FileLock.v
NetCmd.v
Pattern.v
PatParse.v
Rand.v
RandFloat.v
IouOffset.v
IouMap.v
IouSort.v
IouZone.v
IouSeq.v
VerifySum.v
Verify.v
IoHist.v
IoHistSpec.v
IoHistRun.v
