(* ===== verification/Prelude.v ===== *)
(** Verification of the nvs tree: NVStream, a versioned object store over a log
    in persistent memory (src/nvstream), and the data verification of the fio
    benchmark kept beside it (src/fio).

    * The programs and their parts

    NVStream keeps the versions of named objects in one log file per process.
    A producer registers memory blocks as objects ([create_obj]) and appends
    snapshots of them to its log ([put], [put_all]); a consumer walks the log of
    the producer for a version of a key ([get], [get_with_malloc]).  Below the
    store are the memory manager, which creates and finds the log of an id, the
    root heap, a table of log ids shared by all processes under a mutex, the log
    itself, and libpmem.  Which store a program gets is chosen at compile time
    behind the interface Store: the log structured NVSStore, the DeltaStore, which
    logs only the pages that page faults have marked as modified, the FileStore,
    with a file per version, or the NullStore, each with or without the
    TimingStore around it; StoreManager::GetInstance makes the one instance.

    fio's verify step stamps every block it writes with a header, a checksum
    and, if asked, a pattern or random data that can be regenerated from a seed,
    and checks them when the block is read back.  The random maps of a job (which
    blocks it has touched, and in which order it goes through them) are a layered
    bitmap or a shift register; what threads and processes share comes from an
    allocator of its own.  The writes of a job are kept in a history, a red-black
    tree by file and offset, from which the verification takes what to read back.
    What a job reads or writes next is drawn at random (over a map of the blocks it
    has touched, from the shift register, or by zones) or follows the last I/O; the
    unit that carries it goes through an engine and comes back to the pool.  Threads
    and processes meet in a mutex, in a table of open files, in locks of file names
    and in the commands of a network protocol.

    * The files, in dependency order

    - Prelude.v: machine integers, the outcome monad of C and C++ code (return,
      exit, undefined behaviour, out of fuel), bytes and C strings, the tactics
      and hint databases of the development.
    - Mem.v: byte memory as a finite map; libpmem as a view and a history of
      stores and drains, with the images a crash may leave (third-party/nvml,
      libpmem/pmem.c).
    - LogFmt.v, Log.v: the on-media format and class Log (src/nvstream/src/sheap/
      log.h, log.cc): append, appendv, appendmv, persist, walk, the constructor.
      The abstract log is a list of entries; [log_inv] relates it to memory.
    - GlobalPtr.v: include/nvs/global_ptr.h over a type class of pool ids.
    - Root.v: src/sheap/root.cc and layout.h, and the heap formatter.
    - MemMan.v: src/sheap/memory_manager.cc; CreateLog and FindLog as sequential
      code, and CreateLog of any number of processes as a step relation.
    - Object.v: src/kvstore/object.cc, with the page bits and delta chunks.
    - SMap.v, NvsStore.v: std::map as a sorted association list, and class
      NVSStore (src/kvstore/nvs_store.cc) over a log and a heap of blocks.
    - Store.v: include/nvs/store.h as a type class, with the laws a client relies
      on as a second class, and what follows for clients.  NvsInst.v: NVSStore
      as an instance of both.  NvsRun.v: NVSStore against a specification of whole
      runs.
    - FileStore.v: src/kvstore/file_store.cc, an instance of both classes.
    - StoreCtor.v: the constructors of NVSStore and DeltaStore (store ids, the log
      of the process).
    - TimingStore.v: src/kvstore/timing_store.h over any store, and null_store.h.
    - StoreManager.v: src/kvstore/store_manager.cc, GetInstance as steps of threads.
    - DeltaStore.v: src/kvstore/delta_store.cc, with page protection and the fault
      handler.
    - CrcTables.v, Crc.v: src/fio/crc/crc7.c, crc16.c, crc32.c, crc32c.c, crc64.c.
    - Blocks.v: what the hashes share: checked copies, words, absorbing a message
      block by block.  Md5.v, Sha1.v, Sha2.v, Sha256.v, Sha512.v, Sha3.v, XxHash.v:
      the hashes of src/fio/crc.  Bloom.v: lib/bloom.c with jhash, murmur3 and fnv.
    - Axmap.v, AxmapSpec.v: lib/axmap.c, the layered bitmap of random offsets.
    - Smalloc.v, SmallocHeap.v: smalloc.c, the shared memory allocator, and the heap
      it implements.
    - Lfsr.v, LfsrSpec.v: lib/lfsr.c, the shift register that enumerates blocks.
    - Rbtree.v: lib/rbtree.c and rbtree.h, with nodes by address; the cells of a tree
      in memory, contexts, and what a rotation does to them.  RbInsert.v, RbErase.v:
      rebalancing after insertion and removal.  RbWalk.v: rb_first, rb_next, and what
      the functions promise.
    - PlatHist.v: the latency buckets of stat.c.  Fifo.v: fifo.c.  IouQueue.v:
      io_u_queue.c and io_u_queue.h.
    - IoEngine.v: the unit of an I/O, the interface of an engine as a type class, and
      the null engine.  IoSync.v: the engines psync and vsync.  IoLife.v: the pool of
      units, submission, completion, requeueing, quiescing, the references of files
      (io_u.c, ioengines.c, backend.c, filesetup.c).  IoLifeInv.v, IoLifeRun.v: where
      each unit is, and that every function keeps it.  IoLifeSys.v: any order of the
      steps of the main thread and the verifying threads.  IoLifeRuns.v: concrete runs.
    - Threads.v: counts over a list of threads of which one moves.  Gettime.v: the time
      arithmetic of gettime.c and time.c.  FioMutex.v: mutex.c as steps of threads.
    - Flist.v: flist.h, with entries by address.  FlistSort.v: lib/flist_sort.c.
      FlistRun.v: what the lists and their sort promise.
    - FileHash.v: filehash.c and the registry of allocated names of filesetup.c.
      FileLock.v: filelock.c as steps of threads.  NetCmd.v: the frames and fragments of
      commands of server.c.
    - Pattern.v: lib/pattern.c, the use of patterns.  PatParse.v: their parser, with
      lib/strntol.c.  Rand.v: lib/rand.c and rand.h.  RandFloat.v: the
      floating point part of rand.h, doubles as whole numbers rounded to 53 bits.
    - IouOffset.v: the offset and length of the next I/O, io_u.c from last_block to
      fill_io_u, and the set-up of random maps in filesetup.c; the state is the
      record [gen], what these functions change of the thread and of the file.
      IouMap.v: random jobs with a map or the shift register.  IouSort.v: the sorted
      batches of a verification.  IouZone.v: zones, with their table (options.c).
      IouSeq.v: sequential jobs.
    - VerifySum.v: the fill and verify functions of every checksum kind of
      verify.c, and the type class [Checksum] they implement.
    - Verify.v: verify.c: headers, blocks, the loops over a buffer.
    - IoHist.v: the history of writes: log_io_piece, unlog_io_piece, trim_io_piece and
      prune_io_piece_log of iolog.c, get_next_verify of verify.c, trim.c, and the
      completion of an I/O in io_u.c.  IoHistSpec.v: the abstract history, a sorted list
      of pieces, and its relation to the tree ([hist_ok]).  IoHistRun.v: every operation
      against it, and whole runs.

    State is passed explicitly.  NVStream code is in the monad [M] of the prelude,
    with one constructor per way a call can end, and so are the tree and the
    history of fio; the other fio code returns [option],
    where no value stands for an access outside a buffer, a failed assertion or
    no return.  Integers are [Z] with the wrap of their width written out; memory
    is little endian.  The uninitialised memory that reaches a result is an
    argument of the definitions.

    * What the theorems show

    - Log: appendv is atomic and durable under crashes at any point of the stores and
      drains it issues; append, walk and the constructor
      implement the abstract log on every branch, errors included; appendmv is
      appendv of the concatenation.  append loses data and can write outside the
      log.
    - Root heap and memory manager: the table is a set of ids; CreateLog and
      FindLog on every branch; under every interleaving of processes inside
      CreateLog at most one of them makes the log of an id, and the table and the
      files stay consistent.  RootHeap::Close lacks its return statement, which is
      undefined behaviour; what it does is the type class [FallOff] of Root.v, and
      the theorems about its callers assume [FallOffReturns].
    - NVSStore: put, put_all, create_obj, get and get_with_malloc on every branch;
      any sequence of calls gives the answers of a store of versioned records, in
      which the oldest record of a name (cut to 19 characters) and version wins and
      the last object of a snapshot is lost.  An empty log makes get_with_malloc
      read an uninitialised variable.
    - Stores: a client of the interface that overwrites its objects and puts
      versions of them reads every version back, on any store with the laws;
      NVSStore and FileStore have them, and TimingStore preserves them.  FileStore:
      every branch of put; its snapshots are not found by get.  Constructors: the
      id of a store is parsed as it is printed, and its log is opened or created.
      TimingStore gives the results of the store it wraps, except for get_store_id,
      which is undefined, and counts its calls.
      GetInstance constructs one store for all threads and returns in all of them.
      DeltaStore: the faults of a program's stores mark every modified page but
      the first of an object, and the deltas of a put of up to five chunks rebuild
      the object from its previous version; changes of the first page are lost.
    - Axmap: the layered bitmap implements a set of bit numbers, for bits below its
      size and free ranges inside it; the test of the bit number past the last one
      reads outside the map, and ranges that are not free are miscounted.
    - Smalloc: allocations are zeroed, aligned, apart from each other and keep what
      is stored in them until they are freed; no assertion or red zone check fails.
      One search can shift by more than the width of a word, and one can miss a
      free range.
    - Lfsr: every number below the size comes exactly once, for every seed and
      spin, because the registers of the table have full period (by the prime
      factors of 2^n - 1) and the extra step after a cycle moves to a new coset.
      After a reset this holds without spin only.
    - Red-black tree: insertion and removal keep the tree in order and balanced and
      touch no other memory; a walk visits the nodes in order.
    - I/O history, kept in the tree: a logged write replaces exactly the pieces it
      overlaps; a job verifies the writes that no later one overlaps, in order, each
      once; every state that issued, completed, short and failed writes,
      verifications, trims and prunings reach is well formed, with the exceptions of
      [legal] in IoHistRun.v, which the program also reaches: a write that fails after a later one has overlapped it
      corrupts the tree, one that was to be trimmed leaves a dangling pointer, and a
      piece whose file cannot be opened fails an assertion when it is trimmed.
    - I/O units: over any engine that keeps its contract (null and psync do, vsync
      does not) every unit is in one place, the depth and the references of files are
      exact, and no assertion fails; over an engine that gives units back every wait
      is bounded.  Both are for steps that are legal in IoLifeSys.v; the runs of
      IoLifeRuns.v show what the others lead to.
    - Mutex: threads that use it as a lock exclude each other and no wake-up is lost;
      as a counting semaphore it loses one.  File table: a map from names to files
      and a list of names.  File locks: no name is held twice, all locks come back.
    - Network protocol: commands arrive complete and in order over any partial
      sends and receives; bursts of up to sixteen bits are noticed, except in the
      checksum of an empty payload.
    - Lists: any number of linked lists under insertion, removal, splicing and the
      stable in-place merge sort are lists.  Queues: the byte queue is a bounded first-in
      first-out queue; so is the ring of requeued units while it is not full, and
      over-filling it can go unnoticed.
    - Latency histogram: buckets are in range, in order and within 1/128 of what they
      count, below 2^31 ns; above it the code shifts into the sign bit.
    - Offsets: random jobs with a map or the register get every block of a file
      exactly once per pass, through init_random_map, fill_io_u and the marking of the
      map; verification batches come sorted; zones have entries in proportion to
      their percentages, and a block is the drawn one of the drawn zone; sequential jobs go through the file in
      order.  The wrap of jobs with holes and of zones, the sort of far apart blocks,
      the 64 bit generator at the end of its range and a register that cannot be set
      up are shown to go wrong.
    - CRCs: the tables give the CRC of the polynomial for every buffer, and detect
      every error burst up to their width.  Hashes: for every way to cut a message
      into packets the contexts give the digest of the standard's compression or
      permutation over the padded message (for sha256 and sha512, of what the code
      computes instead, which the theorems state).
    - Patterns, random data: spreading and comparing are exact; the parser gives the
      bytes of the pattern it reads, for patterns without empty parts and within its
      look-ahead; filling returns and stores a function of the seed, except where the
      code loops for ever.
    - Verify: what populate_verify_io_u writes verify_io_u accepts, for every kind,
      block size and header offset, with at least 128 bytes of data for sha512,
      patterns without formats and buffers not filled before; a burst in the data of the last block is
      reported; without verify_fatal only the last block is; the check for zero
      blocks is exact.

    * Fuel

    Loops that are not structural take fuel, and the definitions that call them
    pass enough of it: walks of a log one more than the number of the smallest
    entries it can hold, loops over a buffer its length plus one, the levels of a
    bitmap 32 (a 32 bit count divided by 64 each time), its ranges their number of
    bits plus one, the search of the allocator 33 rounds per word of its bitmap,
    a call of the shift register a whole period (2^n for a register of n bits; the
    theorems are for n up to 48, sizes below 2^48), loops over a red-black tree and
    restarts of the sorting of a piece the number of nodes in memory, the merges of
    lists the number of entries in memory, with 21 levels of runs, walks of a bucket
    the number of nodes in memory plus one, the fragments of a command the number of
    events of the connection plus one when it is received and its length plus one when
    it is sent, the parser of patterns the room plus one.  The loop that draws a block
    size until it fits takes fuel as an argument (no theorem is about it), and so do
    quiescing and waiting, with theorems for the number of units plus one.  The
    theorems state that the call returns, not only what it returns if it does.

    * What is not modelled

    Logging; what TimingStore::stats prints; the dump of failed blocks and
    the state files of verify.c; the block infos of the statistics that a
    failed write updates, replayed and compressed I/O logs; the parsers of options
    other than patterns and zones; the handlers of network commands and the lists of
    expected replies; clock sources; rwlocks; the engines other than null, psync and
    vsync, and submission by a work queue;
    the choice of the direction and of the file of an I/O, rates, the distributions
    computed with pow and log, percentiles and the output of statistics; the
    unmapping of the allocator's pools at exit; the rest of fio,
    filebench, miniAMR, mmapbench, GTC, CM1 and nvml. *)
From Stdlib Require Export ZArith Lia.
From coqutil Require Export Byte Word.LittleEndianList.
From stdpp Require Export base numbers strings gmap list_numbers.
From stdpp Require Export list.

Declare Scope nvs_scope.
Delimit Scope nvs_scope with nvs.
#[global] Open Scope Z_scope.

(** * Hint databases and tactics of the development *)

(** [nvslen]: rewriting of list lengths; [nvsmem]: memory reads over writes;
    [nvs]: resolution hints for ranges and well-formedness. *)
Create Rewrite HintDb nvslen.
Create Rewrite HintDb nvsmem.
Create HintDb nvs.

#[export] Hint Rewrite @length_app @length_take @length_drop @length_replicate
  @length_fmap @length_insert @length_seqZ @length_le_split @length_nil
  @length_cons : nvslen.

(** Normalise list lengths everywhere, then linear arithmetic. *)
Ltac len := autorewrite with nvslen in *; simpl length in *; try lia.

(** Case split on every boolean [if] of the goal, the guards turned into
    propositions. *)
Ltac bcases :=
  repeat match goal with
  | H : (_ <? _) = true |- _ => apply Z.ltb_lt in H
  | H : (_ <? _) = false |- _ => apply Z.ltb_ge in H
  | H : (_ <=? _) = true |- _ => apply Z.leb_le in H
  | H : (_ <=? _) = false |- _ => apply Z.leb_gt in H
  | H : (_ =? _) = true |- _ => apply Z.eqb_eq in H
  | H : (_ =? _) = false |- _ => apply Z.eqb_neq in H
  | H : (_ && _)%bool = true |- _ => apply andb_true_iff in H; destruct H
  | H : negb _ = true |- _ => apply negb_true_iff in H
  | H : negb _ = false |- _ => apply negb_false_iff in H
  end.
Ltac bsplit :=
  repeat match goal with
  | |- context [if ?b then _ else _] =>
      lazymatch type of b with bool => destruct b eqn:?; bcases end
  end.

(** * Machine integers: unsigned widths as [Z] with the wrap written out *)

Definition u8 (z : Z) : Z := z mod 2 ^ 8.
Definition u16 (z : Z) : Z := z mod 2 ^ 16.
Definition u32 (z : Z) : Z := z mod 2 ^ 32.
Definition u64 (z : Z) : Z := z mod 2 ^ 64.

Arguments u8 : simpl never.
Arguments u16 : simpl never.
Arguments u32 : simpl never.
Arguments u64 : simpl never.

(** The values of an unsigned [w]-bit integer. *)
Definition fits (w z : Z) : Prop := 0 <= z < 2 ^ w.

#[global] Instance fits_dec w z : Decision (fits w z).
Proof. unfold fits. apply _. Defined.

Lemma u8_fits z : fits 8 (u8 z).
Proof. apply Z.mod_pos_bound. reflexivity. Qed.
Lemma u16_fits z : fits 16 (u16 z).
Proof. apply Z.mod_pos_bound. reflexivity. Qed.
Lemma u32_fits z : fits 32 (u32 z).
Proof. apply Z.mod_pos_bound. reflexivity. Qed.
Lemma u64_fits z : fits 64 (u64 z).
Proof. apply Z.mod_pos_bound. reflexivity. Qed.
#[export] Hint Resolve u8_fits u16_fits u32_fits u64_fits : nvs.

Lemma u32_small z : fits 32 z -> u32 z = z.
Proof. apply Z.mod_small. Qed.
Lemma u64_small z : fits 64 z -> u64 z = z.
Proof. apply Z.mod_small. Qed.
Lemma u64_small' z : 0 <= z < 18446744073709551616 -> u64 z = z.
Proof. apply Z.mod_small. Qed.

(** * Outcomes of C/C++ code

    A call either returns with a new state, ends the process ([exit(code)]),
    meets undefined behaviour, or is still running when the fuel of the model
    is used up.  Each constructor carries the state reached. *)
Inductive outcome (S A : Type) : Type :=
  | Ret (a : A) (s : S)
  | Exit (code : Z) (s : S)
  | Undef (s : S)
  | Diverge (s : S).
Arguments Ret {S A} a s.
Arguments Exit {S A} code s.
Arguments Undef {S A} s.
Arguments Diverge {S A} s.

Definition M (S A : Type) : Type := S -> outcome S A.

#[global] Instance M_ret S : MRet (M S) := fun A a s => Ret a s.
#[global] Instance M_bind S : MBind (M S) := fun A B k m s =>
  match m s with
  | Ret a s' => k a s'
  | Exit c s' => Exit c s'
  | Undef s' => Undef s'
  | Diverge s' => Diverge s'
  end.

Definition get_st {S} : M S S := fun s => Ret s s.
Definition put_st {S} (s' : S) : M S unit := fun _ => Ret tt s'.
Definition modify {S} (f : S -> S) : M S unit := fun s => Ret tt (f s).
Definition exit_ {S A} (code : Z) : M S A := fun s => Exit code s.
Definition undef {S A} : M S A := fun s => Undef s.
(** An access that is defined only under [b]. *)
Definition guard_ub {S} (b : bool) : M S unit := fun s => if b then Ret tt s else Undef s.

(** Run a computation on a component [T] of a larger state [S]. *)
Definition zoom {S T A} (get : S -> T) (set : T -> S -> S) (m : M T A) : M S A :=
  fun s => match m (get s) with
           | Ret a t => Ret a (set t s)
           | Exit c t => Exit c (set t s)
           | Undef t => Undef (set t s)
           | Diverge t => Diverge (set t s)
           end.

(** Unfolding the monad in proofs. *)
Ltac munfold := unfold mbind, M_bind, mret, M_ret, get_st, put_st, modify, exit_,
  undef, guard_ub, zoom in *.

(** Rewriting a bind whose first part is known. *)
Lemma bind_Ret {S A B} (m : M S A) (k : A -> M S B) s a s' :
  m s = Ret a s' -> (m ≫= k) s = k a s'.
Proof. intros H. unfold mbind, M_bind. by rewrite H. Qed.
Lemma bind_Exit {S A B} (m : M S A) (k : A -> M S B) s c s' :
  m s = Exit c s' -> (m ≫= k) s = Exit c s'.
Proof. intros H. unfold mbind, M_bind. by rewrite H. Qed.
Lemma bind_Undef {S A B} (m : M S A) (k : A -> M S B) s s' :
  m s = Undef s' -> (m ≫= k) s = Undef s'.
Proof. intros H. unfold mbind, M_bind. by rewrite H. Qed.

(** Execute the first step of a bind with a lemma or by computation. *)
Tactic Notation "mstep" := erewrite bind_Ret by reflexivity.
Tactic Notation "mstep" uconstr(L) :=
  erewrite bind_Ret by (apply L; simpl; autorewrite with nvslen; lia).

(** A computation that leaves a part [f] of the state as it is. *)
Definition keeps {S A T} (f : S -> T) (m : M S A) : Prop :=
  forall s a s', m s = Ret a s' -> f s' = f s.

Lemma keeps_bind {S A B T} (f : S -> T) (m : M S A) (k : A -> M S B) :
  keeps f m -> (forall a, keeps f (k a)) -> keeps f (m ≫= k).
Proof.
  intros Hm Hk s b s'. unfold mbind, M_bind. destruct (m s) as [a s1| | |] eqn:E; try done.
  intros H. rewrite (Hk a s1 b s' H). by apply (Hm s a).
Qed.

Lemma keeps_if {S A T} (f : S -> T) (c : bool) (m1 m2 : M S A) :
  keeps f m1 -> keeps f m2 -> keeps f (if c then m1 else m2).
Proof. by destruct c. Qed.

Lemma keeps_ret {S A T} (f : S -> T) (a : A) : keeps (S := S) f (mret a).
Proof. by intros s b s' [= _ <-]. Qed.

Lemma keeps_exit {S A T} (f : S -> T) c : keeps (S := S) (A := A) f (exit_ c).
Proof. done. Qed.
#[export] Hint Resolve keeps_bind keeps_if keeps_ret keeps_exit : nvs.

(** * Bytes and C strings *)

#[global] Instance byte_eq_dec : EqDecision byte := Byte.byte_eq_dec.
#[global] Instance byte_inhabited : Inhabited byte := populate Byte.x00.

Definition NUL : byte := Byte.x00.

#[global] Instance byte_countable : Countable byte.
Proof.
  apply (inj_countable' (fun b => Byte.to_N b)
    (fun n => match Byte.of_N n with Some b => b | None => NUL end)).
  intros b. by rewrite Byte.of_to_N.
Defined.
#[global] Instance bytes_countable : Countable (list byte) | 0 := list_countable.

Abbreviation bytes := (list byte).

(** [std::string::c_str] read as a C string: up to the first NUL. *)
Fixpoint c_str (s : bytes) : bytes :=
  match s with
  | [] => []
  | b :: s' => if decide (b = NUL) then [] else b :: c_str s'
  end.

(** The bytes [snprintf(dst, n, "%s", s)] stores at [dst], for [n > 0]. *)
Definition snprintf_s (n : nat) (s : bytes) : bytes := take (n - 1) (c_str s) ++ [NUL].

(** [strncmp(a, b, n) == 0]; [None] when a byte outside an operand is read. *)
Fixpoint strncmp_eq (a b : bytes) (n : nat) : option bool :=
  match n with
  | O => Some true
  | S n' =>
      match a, b with
      | x :: a', y :: b' =>
          if decide (x = y) then
            if decide (x = NUL) then Some true else strncmp_eq a' b' n'
          else Some false
      | _, _ => None
      end
  end.

Definition no_nul (s : bytes) : Prop := Forall (fun b => b <> NUL) s.

#[global] Instance no_nul_dec s : Decision (no_nul s).
Proof. unfold no_nul. apply _. Defined.

Lemma c_str_no_nul s : no_nul (c_str s).
Proof. induction s as [|b s IH]; simpl; [constructor|]. case_decide; constructor; auto. Qed.

Lemma c_str_id s : no_nul s -> c_str s = s.
Proof.
  induction 1 as [|b s Hb _ IH]; simpl; [done|].
  rewrite decide_False by done. by rewrite IH.
Qed.

Lemma length_snprintf_s n s : (0 < n)%nat -> (length (snprintf_s n s) <= n)%nat.
Proof. unfold snprintf_s. intros. len. Qed.

(** Comparing two NUL-terminated buffers: equality of the strings they hold,
    whatever follows the terminators. *)
Lemma strncmp_eq_terminated (n : nat) (s t u v : bytes) :
  no_nul s -> no_nul t -> (length s < n)%nat -> (length t < n)%nat ->
  strncmp_eq (s ++ NUL :: u) (t ++ NUL :: v) n = Some (bool_decide (s = t)).
Proof.
  intros Hs. revert n t. induction Hs as [|x s Hx Hs IH]; intros n t Ht Hls Hlt.
  - destruct n; [simpl in *; lia|]. destruct Ht as [|y t Hy Ht]; simpl; [done|].
    rewrite decide_False by done. done.
  - destruct n; [simpl in *; lia|]. destruct Ht as [|y t Hy Ht]; simpl.
    + rewrite decide_False by done. done.
    + destruct (decide (x = y)) as [->|Hne].
      * rewrite decide_False by done. simpl in *. rewrite IH by (done || lia).
        f_equal. apply bool_decide_ext. naive_solver.
      * f_equal. symmetry. apply bool_decide_eq_false. naive_solver.
Qed.

(** * List lemmas shared by the components *)

Lemma sum_list_Z_app (l k : list Z) :
  foldr Z.add 0 (l ++ k) = foldr Z.add 0 l + foldr Z.add 0 k.
Proof. induction l as [|x l IH]; simpl; [lia|]. rewrite IH. lia. Qed.
