(* ===== verification/Mem.v ===== *)
(** Byte-addressed memory regions and the persistent-memory primitives.

    [mem] is the content of a mapped region, zero where nothing was stored.
    [pmem] is a region of persistent memory as the libpmem calls of
    src/nvstream/src/sheap/log.cc see it: the current view and the history of
    stores and drains, from which the contents a crash can leave are defined. *)
From S2P Require Import Prelude.

Abbreviation mem := (gmap Z byte).

(** * Reading and writing byte ranges *)

Definition mget (m : mem) (a : Z) : byte := default NUL (m !! a).

Fixpoint mwrite (m : mem) (a : Z) (bs : bytes) : mem :=
  match bs with
  | [] => m
  | b :: bs' => mwrite (<[a := b]> m) (a + 1) bs'
  end.

Definition mread (m : mem) (a n : Z) : bytes := (fun i => mget m (a + i)) <$> seqZ 0 n.

(** Little-endian words, as the x86 build stores them. *)
Definition rd64 (m : mem) (a : Z) : Z := le_combine (mread m a 8).
Definition rd32 (m : mem) (a : Z) : Z := le_combine (mread m a 4).
Definition le64 (v : Z) : bytes := le_split 8 v.
Definition le32 (v : Z) : bytes := le_split 4 v.

Arguments mread : simpl never.
Arguments rd64 : simpl never.
Arguments rd32 : simpl never.
Arguments le64 : simpl never.
Arguments le32 : simpl never.

Lemma length_mread m a n : length (mread m a n) = Z.to_nat n.
Proof. unfold mread. len. Qed.
#[export] Hint Rewrite length_mread : nvslen.

Lemma length_le64 v : length (le64 v) = 8%nat.
Proof. apply length_le_split. Qed.
Lemma length_le32 v : length (le32 v) = 4%nat.
Proof. apply length_le_split. Qed.
#[export] Hint Rewrite length_le64 length_le32 : nvslen.

Lemma mget_mwrite bs m a i :
  mget (mwrite m a bs) i =
  if decide (a <= i < a + Z.of_nat (length bs)) then bs !!! Z.to_nat (i - a) else mget m i.
Proof.
  revert m a. induction bs as [|b bs IH]; intros m a; simpl.
  - rewrite decide_False by lia. done.
  - rewrite IH. clear IH. unfold mget.
    destruct (decide (i = a)) as [->|Hne].
    + rewrite decide_False, decide_True by lia.
      rewrite lookup_insert_eq. by replace (a - a) with 0 by lia.
    + rewrite lookup_insert_ne by done.
      destruct (decide (a + 1 <= i < a + 1 + Z.of_nat (length bs))).
      * rewrite decide_True by lia.
        replace (Z.to_nat (i - a)) with (S (Z.to_nat (i - (a + 1)))) by lia. done.
      * rewrite decide_False by lia. done.
Qed.

Lemma mread_ext m m' a a' n :
  (forall i, 0 <= i < n -> mget m (a + i) = mget m' (a' + i)) ->
  mread m a n = mread m' a' n.
Proof.
  intros H. unfold mread. apply list_fmap_ext. intros k i [-> Hi]%lookup_seqZ.
  apply H. lia.
Qed.

Lemma lookup_mread m a n (i : nat) :
  (Z.of_nat i < n) -> mread m a n !! i = Some (mget m (a + Z.of_nat i)).
Proof. intros. unfold mread. rewrite list_lookup_fmap, lookup_seqZ_lt by done. done. Qed.

Lemma mread_mwrite_same m a bs : mread (mwrite m a bs) a (Z.of_nat (length bs)) = bs.
Proof.
  apply list_eq_same_length with (n := length bs); [done | len |].
  intros i x y Hi Hx Hy. rewrite lookup_mread in Hx by lia.
  rewrite mget_mwrite, decide_True in Hx by lia.
  replace (a + Z.of_nat i - a) with (Z.of_nat i) in Hx by lia.
  rewrite Nat2Z.id in Hx. apply list_lookup_total_correct in Hy. congruence.
Qed.

Lemma mread_mwrite_same' m a bs n :
  n = Z.of_nat (length bs) -> mread (mwrite m a bs) a n = bs.
Proof. intros ->. apply mread_mwrite_same. Qed.

Lemma mread_mwrite_disj m a bs b n :
  (b + n <= a \/ a + Z.of_nat (length bs) <= b) ->
  mread (mwrite m a bs) b n = mread m b n.
Proof.
  intros H. apply mread_ext. intros i Hi. rewrite mget_mwrite, decide_False by lia. done.
Qed.

Lemma rd64_mwrite_disj m a bs b :
  (b + 8 <= a \/ a + Z.of_nat (length bs) <= b) -> rd64 (mwrite m a bs) b = rd64 m b.
Proof. intros. unfold rd64. by rewrite mread_mwrite_disj. Qed.

Lemma mread_app m a n k :
  0 <= n -> 0 <= k -> mread m a (n + k) = mread m a n ++ mread m (a + n) k.
Proof.
  intros Hn Hk. unfold mread. rewrite seqZ_app, fmap_app by done. f_equal.
  rewrite Z.add_0_l, <- (Z.add_0_r n) at 1. rewrite <- fmap_add_seqZ, <- list_fmap_compose.
  apply list_fmap_ext. intros ? i _. simpl. f_equal. lia.
Qed.

Lemma mread_0 m a : mread m a 0 = [].
Proof. done. Qed.

Lemma mwrite_app m a xs ys :
  mwrite m a (xs ++ ys) = mwrite (mwrite m a xs) (a + Z.of_nat (length xs)) ys.
Proof.
  revert m a. induction xs as [|x xs IH]; intros m a; simpl.
  - by rewrite Z.add_0_r.
  - rewrite IH. f_equal. lia.
Qed.

Arguments mwrite : simpl never.

Lemma rd64_le64 m a v : fits 64 v -> rd64 (mwrite m a (le64 v)) a = v.
Proof.
  intros Hv. unfold rd64. rewrite mread_mwrite_same' by len.
  unfold le64. rewrite le_combine_split. by apply Z.mod_small.
Qed.

Lemma rd64_fits m a : fits 64 (rd64 m a).
Proof. unfold rd64, fits. pose proof (le_combine_bound (mread m a 8)) as H. rewrite length_mread in H. exact H. Qed.
#[export] Hint Resolve rd64_fits : nvs.

(** A list stored at [a], as a predicate on the region. *)
Definition at_ (m : mem) (a : Z) (bs : bytes) : Prop :=
  mread m a (Z.of_nat (length bs)) = bs.

#[global] Instance at_dec m a bs : Decision (at_ m a bs).
Proof. unfold at_. apply _. Defined.

Lemma at_nil m a : at_ m a [].
Proof. done. Qed.

Lemma at_app m a xs ys :
  at_ m a (xs ++ ys) <-> at_ m a xs /\ at_ m (a + Z.of_nat (length xs)) ys.
Proof.
  unfold at_. rewrite length_app, Nat2Z.inj_add, mread_app by lia. split.
  - intros H. apply app_inj_1 in H; [done | len].
  - intros [H1 H2]. by rewrite H1, H2.
Qed.

Lemma at_mwrite m a bs : at_ (mwrite m a bs) a bs.
Proof. apply mread_mwrite_same. Qed.

Lemma at_mwrite_disj m a bs b xs :
  (b + Z.of_nat (length xs) <= a \/ a + Z.of_nat (length bs) <= b) ->
  at_ m b xs -> at_ (mwrite m a bs) b xs.
Proof. unfold at_. intros. by rewrite mread_mwrite_disj. Qed.

Lemma at_rd64 m a v : fits 64 v -> at_ m a (le64 v) -> rd64 m a = v.
Proof.
  unfold at_, rd64. rewrite length_le64. change (Z.of_nat 8) with 8. intros Hv ->.
  unfold le64. rewrite le_combine_split. by apply Z.mod_small.
Qed.

#[export] Hint Resolve at_nil at_mwrite : nvs.

(** Restate the address of an [at_] hypothesis. *)
Ltac at_norm H k :=
  lazymatch type of H with at_ _ ?x _ => replace x with k in H by lia end.

(** * Persistent memory

    libpmem (src/nvstream/third-party/nvml/src/libpmem/pmem.c): a nodrain copy
    is visible at once and durable after the next drain. *)

Inductive pmem_op : Type :=
  | PStore (a : Z) (bs : bytes)
  | PDrain.

Record pmem : Type := mkPmem {
  pview : mem;             (* what loads return *)
  phist : list pmem_op     (* stores and drains issued since the mapping *)
}.

Definition pmem_memcpy_nodrain (a : Z) (bs : bytes) (p : pmem) : pmem :=
  mkPmem (mwrite (pview p) a bs) (phist p ++ [PStore a bs]).

Definition pmem_drain (p : pmem) : pmem := mkPmem (pview p) (phist p ++ [PDrain]).

Definition pmem_memcpy_persist (a : Z) (bs : bytes) (p : pmem) : pmem :=
  pmem_drain (pmem_memcpy_nodrain a bs p).

(** What is durable, and the stores still in flight, after a history. *)
Definition apply_stores (m : mem) (l : list (Z * bytes)) : mem :=
  foldl (fun m st => mwrite m st.1 st.2) m l.

Definition settle1 (d : mem * list (Z * bytes)) (op : pmem_op) : mem * list (Z * bytes) :=
  match op with
  | PStore a bs => (d.1, d.2 ++ [(a, bs)])
  | PDrain => (apply_stores d.1 d.2, [])
  end.

Definition settle (d : mem * list (Z * bytes)) (ops : list pmem_op) : mem * list (Z * bytes) :=
  foldl settle1 d ops.

(** [m] can be found after a crash with [d] durable and in flight: each
    aligned 8-byte word (the unit the platform writes atomically) holds its
    durable value or the value after some of the in-flight stores. *)
Definition crash_image (d : mem * list (Z * bytes)) (m : mem) : Prop :=
  forall w, (8 | w) ->
  exists k, mread m w 8 = mread (apply_stores d.1 (take k d.2)) w 8.

(** [m] can be found after a crash at some point of the history [ops], the
    region being [base] and durable before it. *)
Definition crash_during (base : mem) (ops : list pmem_op) (m : mem) : Prop :=
  exists ops1 ops2, ops = ops1 ++ ops2 /\ crash_image (settle (base, []) ops1) m.

(** ** Lemmas on crash images *)

(** A byte of a crash image is the byte of some prefix of the in-flight
    stores. *)
Lemma crash_image_byte d m i :
  crash_image d m -> exists k, mget m i = mget (apply_stores d.1 (take k d.2)) i.
Proof.
  intros H. destruct (H (8 * (i / 8))) as [k Hk]; [by apply Z.divide_factor_l|].
  exists k. pose proof (Z.mod_pos_bound i 8 ltac:(lia)).
  assert (i = 8 * (i / 8) + Z.of_nat (Z.to_nat (i mod 8))) as Hi.
  { rewrite Z2Nat.id by lia. apply Z.div_mod. lia. }
  apply (f_equal (fun l => l !! Z.to_nat (i mod 8))) in Hk.
  rewrite !lookup_mread in Hk by lia. rewrite <- !Hi in Hk. congruence.
Qed.

(** Addresses no in-flight store covers keep their durable byte. *)
Definition outside (i : Z) (st : Z * bytes) : Prop :=
  i < st.1 \/ st.1 + Z.of_nat (length st.2) <= i.

Lemma apply_stores_outside l m i :
  Forall (outside i) l -> mget (apply_stores m l) i = mget m i.
Proof.
  unfold apply_stores. revert m. induction l as [|st l IH]; intros m Hl; simpl; [done|].
  apply Forall_cons in Hl as [Hst Hl]. rewrite IH by done.
  rewrite mget_mwrite, decide_False; [done|]. unfold outside in Hst. lia.
Qed.

Lemma crash_image_outside d m i :
  crash_image d m -> Forall (outside i) d.2 -> mget m i = mget d.1 i.
Proof.
  intros H Hout. destruct (crash_image_byte d m i H) as [k ->].
  apply apply_stores_outside. by apply Forall_take.
Qed.

Lemma settle_app d ops1 ops2 : settle d (ops1 ++ ops2) = settle (settle d ops1) ops2.
Proof. apply foldl_app. Qed.

Lemma apply_stores_app m l1 l2 :
  apply_stores m (l1 ++ l2) = apply_stores (apply_stores m l1) l2.
Proof. apply foldl_app. Qed.

(** Stores without a drain only grow the in-flight list. *)
Lemma settle_stores d l :
  settle d ((fun st => PStore st.1 st.2) <$> l) = (d.1, d.2 ++ l).
Proof.
  revert d. induction l as [|[a bs] l IH]; intros [m f]; simpl.
  - by rewrite app_nil_r.
  - unfold settle in *. simpl. rewrite IH. simpl. by rewrite <- app_assoc.
Qed.
