(* ===== verification/LogFmt.v ===== *)
(** The on-log data layout of src/nvstream/src/sheap/log.h: the log header
    [lhdr_t] and the entry header [lehdr_t], with the padding the x86-64 ABI
    puts between their members, and the reading of them back from a region. *)
From S2P Require Import Prelude Mem.

Definition WORD_LENGTH : Z := 8.
Definition COMMIT_FLAG : Z := 123456.
Definition MAGIC_NUMBER : Z := 555555.
Definition KEY_LEN : Z := 20.

Inductive HdrType : Type := single | multiple | delta.

Definition HdrType_code (t : HdrType) : Z :=
  match t with single => 0 | multiple => 1 | delta => 2 end.

Inductive ErrorCode : Type :=
  | NO_ERROR | DUPLICATE_KEY | ELEM_NOT_FOUND | STORE_NOT_FOUND | KEY_NOT_EXIST
  | HEAP_NOT_EXIST | ID_IN_USE | LOG_EXIST | OPEN_FAILED | PMEM_ERROR
  | ID_NOT_FOUND | ID_FOUND | NOT_ENOUGH_SPACE.

(** The integer a C++ enumerator converts to. *)
Definition ErrorCode_code (e : ErrorCode) : Z :=
  match e with
  | NO_ERROR => 0 | DUPLICATE_KEY => 1 | ELEM_NOT_FOUND => 2 | STORE_NOT_FOUND => 3
  | KEY_NOT_EXIST => 4 | HEAP_NOT_EXIST => 5 | ID_IN_USE => 6 | LOG_EXIST => 7
  | OPEN_FAILED => 8 | PMEM_ERROR => 9 | ID_NOT_FOUND => 10 | ID_FOUND => 11
  | NOT_ENOUGH_SPACE => 12
  end.

#[global] Instance ErrorCode_eq_dec : EqDecision ErrorCode.
Proof. solve_decision. Defined.

(** * lhdr_t *)

Record lhdr_t : Type := mk_lhdr {
  magic_number : Z;
  lh_len : Z;
  head : Z;
  tail : Z
}.

Definition sizeof_lhdr : Z := 32.

Definition lhdr_bytes (h : lhdr_t) : bytes :=
  le64 (magic_number h) ++ le64 (lh_len h) ++ le64 (head h) ++ le64 (tail h).

Definition read_lhdr (m : mem) : lhdr_t :=
  mk_lhdr (rd64 m 0) (rd64 m 8) (rd64 m 16) (rd64 m 24).

(** Offset of the [tail] member. *)
Definition tail_off : Z := 24.

(** * lehdr_t *)

Record ledelta_t : Type := mk_ledelta { ld_start : Z; ld_len : Z }.

(** A value of the struct: its members and its padding.  An uninitialised
    variable is an arbitrary value. *)
Record lehdr_t : Type := mk_lehdr {
  kname : bytes;          (* char[20] *)
  le_pad1 : bytes;        (* 4 bytes before the 8-aligned [version] *)
  version : Z;
  len : Z;
  type : Z;               (* enum, 4 bytes *)
  le_pad2 : bytes;
  delta_len : Z;
  deltas : list ledelta_t (* [5] *)
}.

Definition sizeof_lehdr : Z := 136.
Definition MAX_DELTAS : nat := 5.

Definition ledelta_bytes (d : ledelta_t) : bytes := le64 (ld_start d) ++ le64 (ld_len d).

Definition lehdr_bytes (h : lehdr_t) : bytes :=
  kname h ++ le_pad1 h ++ le64 (version h) ++ le64 (len h) ++ le32 (type h) ++
  le_pad2 h ++ le64 (delta_len h) ++ (deltas h ≫= ledelta_bytes).

Definition read_ledelta (m : mem) (a : Z) : ledelta_t := mk_ledelta (rd64 m a) (rd64 m (a + 8)).

Definition read_lehdr (m : mem) (a : Z) : lehdr_t :=
  mk_lehdr (mread m a 20) (mread m (a + 20) 4) (rd64 m (a + 24)) (rd64 m (a + 32))
    (rd32 m (a + 40)) (mread m (a + 44) 4) (rd64 m (a + 48))
    ((fun i => read_ledelta m (a + 56 + 16 * i)) <$> [0; 1; 2; 3; 4]).

(** The values a variable of the struct type can hold. *)
Record lehdr_wf (h : lehdr_t) : Prop := {
  wf_kname : length (kname h) = 20%nat;
  wf_pad1 : length (le_pad1 h) = 4%nat;
  wf_version : fits 64 (version h);
  wf_len : fits 64 (len h);
  wf_type : fits 32 (type h);
  wf_pad2 : length (le_pad2 h) = 4%nat;
  wf_delta_len : fits 64 (delta_len h);
  wf_deltas_len : length (deltas h) = MAX_DELTAS;
  wf_deltas : Forall (fun d => fits 64 (ld_start d) /\ fits 64 (ld_len d)) (deltas h)
}.

(** The assignment [snprintf(h.kname, KEY_LEN, "%s", name)]: the bytes after
    the terminator keep their content. *)
Definition set_kname (name : bytes) (h : lehdr_t) : lehdr_t :=
  let s := snprintf_s 20 name in
  mk_lehdr (s ++ drop (length s) (kname h)) (le_pad1 h) (version h) (len h) (type h)
    (le_pad2 h) (delta_len h) (deltas h).
Definition set_version (v : Z) (h : lehdr_t) : lehdr_t :=
  mk_lehdr (kname h) (le_pad1 h) v (len h) (type h) (le_pad2 h) (delta_len h) (deltas h).
Definition set_len (v : Z) (h : lehdr_t) : lehdr_t :=
  mk_lehdr (kname h) (le_pad1 h) (version h) v (type h) (le_pad2 h) (delta_len h) (deltas h).
Definition set_type (t : HdrType) (h : lehdr_t) : lehdr_t :=
  mk_lehdr (kname h) (le_pad1 h) (version h) (len h) (HdrType_code t) (le_pad2 h)
    (delta_len h) (deltas h).
Definition set_delta_len (v : Z) (h : lehdr_t) : lehdr_t :=
  mk_lehdr (kname h) (le_pad1 h) (version h) (len h) (type h) (le_pad2 h) v (deltas h).
Definition set_delta (i : nat) (d : ledelta_t) (h : lehdr_t) : lehdr_t :=
  mk_lehdr (kname h) (le_pad1 h) (version h) (len h) (type h) (le_pad2 h) (delta_len h)
    (<[i := d]> (deltas h)).

(** * Lemmas *)

Lemma length_lhdr_bytes h : length (lhdr_bytes h) = 32%nat.
Proof. unfold lhdr_bytes. len. Qed.

Lemma at_rd32 m a v : fits 32 v -> at_ m a (le32 v) -> rd32 m a = v.
Proof.
  unfold at_, rd32. rewrite length_le32. change (Z.of_nat 4) with 4. intros Hv ->.
  unfold le32. rewrite le_combine_split. by apply Z.mod_small.
Qed.

Lemma length_deltas_bytes (l : list ledelta_t) :
  length (l ≫= ledelta_bytes) = (16 * length l)%nat.
Proof.
  induction l as [|d l IH]; [done|].
  rewrite bind_cons, length_app, IH. unfold ledelta_bytes. len.
Qed.

Lemma length_lehdr_bytes h : lehdr_wf h -> length (lehdr_bytes h) = 136%nat.
Proof.
  intros []. unfold lehdr_bytes, MAX_DELTAS in *.
  rewrite !length_app, length_deltas_bytes. len.
Qed.

Lemma read_lhdr_at m h :
  fits 64 (magic_number h) -> fits 64 (lh_len h) -> fits 64 (head h) -> fits 64 (tail h) ->
  at_ m 0 (lhdr_bytes h) -> read_lhdr m = h.
Proof.
  intros H1 H2 H3 H4. unfold lhdr_bytes. rewrite !at_app, !length_le64.
  intros (A1 & A2 & A3 & A4). destruct h as [a b c d]. unfold read_lhdr.
  simpl in *. f_equal; by apply at_rd64.
Qed.

Lemma read_ledeltas_at l m a :
  Forall (fun d => fits 64 (ld_start d) /\ fits 64 (ld_len d)) l ->
  at_ m a (l ≫= ledelta_bytes) ->
  forall i d, l !! i = Some d -> read_ledelta m (a + 16 * Z.of_nat i) = d.
Proof.
  intros Hf. revert a. induction Hf as [|d l [Hd1 Hd2] Hf IH]; intros a Hat i d' Hi; [done|].
  rewrite bind_cons in Hat. apply at_app in Hat as [Hd Hl].
  unfold ledelta_bytes in Hd, Hl. rewrite length_app, !length_le64 in Hl.
  destruct i as [|i]; simpl in Hi.
  - injection Hi as <-. apply at_app in Hd as [A1 A2]. rewrite length_le64 in A2.
    unfold read_ledelta. destruct d as [s n]; simpl in *.
    rewrite Z.add_0_r. f_equal; by apply at_rd64.
  - replace (a + 16 * Z.of_nat (S i)) with (a + Z.of_nat (8 + 8) + 16 * Z.of_nat i) by lia.
    by apply IH.
Qed.

(** Reading an entry header back from where it was stored. *)
Lemma read_lehdr_at m a h : lehdr_wf h -> at_ m a (lehdr_bytes h) -> read_lehdr m a = h.
Proof.
  intros [W1 W2 W3 W4 W5 W6 W7 W8 W9]. unfold lehdr_bytes.
  rewrite !at_app, !length_le64, length_le32, W1, W2, W6.
  intros (A1 & A2 & A3 & A4 & A5 & A6 & A7 & A8).
  destruct h as [kn p1 v l t p2 dl ds]; simpl in *.
  unfold read_lehdr. unfold MAX_DELTAS in W8.
  at_norm A2 (a + 20). at_norm A3 (a + 24). at_norm A4 (a + 32). at_norm A5 (a + 40).
  at_norm A6 (a + 44). at_norm A7 (a + 48). at_norm A8 (a + 56).
  unfold at_ in A1, A2, A6. rewrite W1 in A1. rewrite W2 in A2. rewrite W6 in A6.
  f_equal; try (by apply at_rd64); try (by apply at_rd32); try done.
  pose proof (read_ledeltas_at ds m (a + 56) W9 A8) as R.
  do 6 (destruct ds as [|? ds]; simpl in W8; try lia). simpl.
  pose proof (R 0%nat _ eq_refl). pose proof (R 1%nat _ eq_refl).
  pose proof (R 2%nat _ eq_refl). pose proof (R 3%nat _ eq_refl).
  pose proof (R 4%nat _ eq_refl). subst. done.
Qed.

Lemma set_kname_wf name h : lehdr_wf h -> lehdr_wf (set_kname name h).
Proof.
  intros []. constructor; simpl; try done.
  pose proof (length_snprintf_s 20 name ltac:(lia)). len.
Qed.
Lemma set_version_wf v h : fits 64 v -> lehdr_wf h -> lehdr_wf (set_version v h).
Proof. intros ? []. by constructor. Qed.
Lemma set_len_wf v h : fits 64 v -> lehdr_wf h -> lehdr_wf (set_len v h).
Proof. intros ? []. by constructor. Qed.
Lemma set_type_wf t h : lehdr_wf h -> lehdr_wf (set_type t h).
Proof. intros []. constructor; try done. by destruct t. Qed.
Lemma set_delta_len_wf v h : fits 64 v -> lehdr_wf h -> lehdr_wf (set_delta_len v h).
Proof. intros ? []. by constructor. Qed.
#[export] Hint Resolve set_kname_wf set_version_wf set_len_wf set_type_wf set_delta_len_wf : nvs.
