(* ===== verification/Log.v ===== *)
(** The persistent log of src/nvstream/src/sheap/log.cc (class [Log]).

    [Log] is the soft state of an opened log, [LogSt] that state with the
    mapped region.  The constructor works on the files of the base directory.
    The abstract log is a list of entries; [log_inv] relates the two, and the
    theorems show that the operations implement appending to and walking that
    list, also when a crash interrupts an append. *)
From S2P Require Import Prelude Mem LogFmt.

(** * State *)

Record Log : Type := mkLog {
  log_id : Z;
  logPath : bytes;
  mapped_len : Z;
  log_size : Z;
  start_offset : Z;
  end_offset : Z;
  write_offset : Z
}.

Record LogSt : Type := mkLogSt { lsoft : Log; lpm : pmem }.

Definition set_write_offset (w : Z) (l : Log) : Log :=
  mkLog (log_id l) (logPath l) (mapped_len l) (log_size l) (start_offset l) (end_offset l) w.

(** * Primitive steps on the mapped region *)

(** [pmem_memcpy_nodrain(&pmemaddr[a], bs, |bs|)]; a copy that leaves the
    mapping is undefined. *)
Definition store_nodrain (a : Z) (bs : bytes) : M LogSt unit := fun s =>
  if (0 <=? a) && (a + Z.of_nat (length bs) <=? mapped_len (lsoft s))
  then Ret tt (mkLogSt (lsoft s) (pmem_memcpy_nodrain a bs (lpm s)))
  else Undef s.

Definition drain : M LogSt unit := fun s =>
  Ret tt (mkLogSt (lsoft s) (pmem_drain (lpm s))).

Definition advance (n : Z) : M LogSt unit := fun s =>
  Ret tt (mkLogSt (set_write_offset (u64 (write_offset (lsoft s) + n)) (lsoft s)) (lpm s)).

Definition cur : M LogSt Log := fun s => Ret (lsoft s) s.

(** * Log::persist *)

Definition persist : M LogSt unit :=
  drain;;
  l ← cur; store_nodrain (write_offset l) (le64 COMMIT_FLAG);;
  l ← cur; store_nodrain (write_offset l) (le64 COMMIT_FLAG);;
  drain;;
  advance WORD_LENGTH;;
  l ← cur; store_nodrain tail_off (le64 (write_offset l));;
  drain.

(** * Log::append *)

Definition append (data : bytes) : M LogSt ErrorCode :=
  l ← cur;
  if end_offset l <=? write_offset l then exit_ 1 else
  if u64 (end_offset l - write_offset l) <? Z.of_nat (length data) then exit_ 1 else
  store_nodrain (write_offset l) data;;
  persist;;
  mret NO_ERROR.

(** * Log::appendv *)

(** The feasibility sum over the io vector, in [uint64_t]. *)
Definition iov_total (iovs : list bytes) : Z :=
  foldl (fun tot v => u64 (tot + Z.of_nat (length v))) 0 iovs.

Fixpoint copy_iovs (iovs : list bytes) : M LogSt unit :=
  match iovs with
  | [] => mret tt
  | v :: iovs' =>
      l ← cur; store_nodrain (write_offset l) v;;
      advance (Z.of_nat (length v));;
      copy_iovs iovs'
  end.

Definition appendv (iovs : list bytes) : M LogSt ErrorCode :=
  l ← cur;
  if end_offset l <=? write_offset l then exit_ 1 else
  let tot_cnt := u64 (iov_total iovs + WORD_LENGTH) in
  if u64 (end_offset l - write_offset l) <? tot_cnt then exit_ 1 else
  copy_iovs iovs;;
  persist;;
  mret NO_ERROR.

(** * Log::appendmv *)

Definition iovpp_total (iovpp : list (list bytes)) : Z :=
  foldl (fun tot iovs => foldl (fun tot v => u64 (tot + Z.of_nat (length v))) tot iovs) 0 iovpp.

Fixpoint copy_iovpp (iovpp : list (list bytes)) : M LogSt unit :=
  match iovpp with
  | [] => mret tt
  | iovs :: iovpp' => copy_iovs iovs;; copy_iovpp iovpp'
  end.

Definition appendmv (iovpp : list (list bytes)) : M LogSt ErrorCode :=
  l ← cur;
  if end_offset l <=? write_offset l then exit_ 1 else
  let tot_cnt := u64 (iovpp_total iovpp + WORD_LENGTH) in
  if u64 (end_offset l - write_offset l) <? tot_cnt then exit_ 1 else
  copy_iovpp iovpp;;
  persist;;
  mret NO_ERROR.

(** * Log::walk

    The callback gets the address and the length member of each entry header
    and the caller's argument, and returns the C [int]; zero stops the walk.
    Every round that does not wrap around advances by at least 144 bytes. *)
Section Walk.
Context {W : Type}.
Variable ml : Z.           (* mapped length *)
Variable m : mem.
Variable process_chunk : Z -> Z -> M W Z.

Fixpoint walk_loop (fuel : nat) (tmp_offset tl : Z) : M W ErrorCode :=
  match fuel with
  | O => fun w => Diverge w
  | S fuel' =>
      if tmp_offset <? tl then
        guard_ub (tmp_offset + sizeof_lehdr <=? ml);;
        r ← process_chunk tmp_offset (len (read_lehdr m tmp_offset));
        if r =? 0 then mret NO_ERROR
        else walk_loop fuel'
               (u64 (tmp_offset + (sizeof_lehdr + len (read_lehdr m tmp_offset) + WORD_LENGTH))) tl
      else mret NO_ERROR
  end.

Definition walk_fuel (hd tl : Z) : nat := S (S (Z.to_nat ((tl - hd) / 144))).

Definition walk : M W ErrorCode :=
  let hdr := read_lhdr m in
  if tail hdr <=? head hdr then mret ID_NOT_FOUND
  else walk_loop (walk_fuel (head hdr) (tail hdr)) (head hdr) (tail hdr).
End Walk.

(** * Mapping files: pmem_map_file and Log::Log *)

Record file : Type := mkFile { fsize : Z; fpm : pmem }.
Abbreviation files := (gmap bytes file).

(** A process that dies in [assert] ends with SIGABRT. *)
Definition abort_ {S A} : M S A := fun s => Exit 134 s.

(** [pmem_map_file] on a regular file, with the flags
    PMEM_FILE_CREATE | PMEM_FILE_EXCL ([create]) or none; [os_ok path len] says
    that the system calls (open, posix_fallocate, mmap) have the resources they
    need.  A file that was created is deleted again on an error. *)
Definition pmem_map_file (os_ok : bytes -> Z -> bool) (path : bytes) (ln : Z)
    (create : bool) : M files (option Z) := fun fs =>
  if create && (2 ^ 63 <=? ln) then Ret None fs else
  if negb (ln =? 0) && negb create then Ret None fs else
  if (ln =? 0) && create then Ret None fs else
  match fs !! path with
  | Some f =>
      if create then Ret None fs else
      if negb (os_ok path ln) then Ret None fs else
      Ret (Some (fsize f)) fs
  | None =>
      if negb create then Ret None fs else
      if negb (os_ok path ln) then Ret None fs else
      Ret (Some ln) (<[path := mkFile ln (mkPmem ∅ [])]> fs)
  end.

(** The first touch of every page of a new log: [pmemaddr[k] = 0]. *)
Fixpoint touch_loop (fuel : nat) (k : Z) : M LogSt unit :=
  match fuel with
  | O => mret tt
  | S fuel' =>
      l ← cur;
      if k <? end_offset l then
        store_nodrain k [NUL];; touch_loop fuel' (k + 4096)
      else mret tt
  end.

Definition Log_create (path : bytes) (lsize lid ml : Z) : M LogSt unit :=
  let start := sizeof_lhdr in
  modify (fun s => mkLogSt (mkLog lid path ml lsize start (u64 (ml - 1)) start) (lpm s));;
  store_nodrain 0 (lhdr_bytes (mk_lhdr MAGIC_NUMBER ml sizeof_lhdr start));;
  drain;;
  touch_loop (Z.to_nat (ml / 4096 + 1)) start.

Definition Log_open (path : bytes) (lsize lid ml : Z) : M LogSt unit :=
  guard_ub (sizeof_lhdr <=? ml);;
  s ← get_st;
  let hdr := read_lhdr (pview (lpm s)) in
  if negb (magic_number hdr =? MAGIC_NUMBER) then exit_ 1 else
  if negb (lh_len hdr =? ml) then abort_ else
  put_st (mkLogSt (mkLog lid path ml lsize (head hdr) (u64 (ml - 1)) (tail hdr)) (lpm s)).

(** Run a step of a log on the content of its file. *)
Definition on_file (path : bytes) (l0 : Log) (k : M LogSt unit) : M files Log := fun fs =>
  match fs !! path with
  | None => Undef fs
  | Some f =>
      let wr := fun s : LogSt => <[path := mkFile (fsize f) (lpm s)]> fs in
      match k (mkLogSt l0 (fpm f)) with
      | Ret _ s => Ret (lsoft s) (wr s)
      | Exit c s => Exit c (wr s)
      | Undef s => Undef (wr s)
      | Diverge s => Diverge (wr s)
      end
  end.

Definition Log_ctor (os_ok : bytes -> Z -> bool) (path : bytes) (lsize lid : Z) : M files Log :=
  r ← pmem_map_file os_ok path lsize true;
  match r with
  | Some ml => on_file path (mkLog lid path ml lsize 0 0 0) (Log_create path lsize lid ml)
  | None =>
      r ← pmem_map_file os_ok path lsize false;
      match r with
      | Some ml => on_file path (mkLog lid path ml lsize 0 0 0) (Log_open path lsize lid ml)
      | None => exit_ 1
      end
  end.

(** * Lemmas: what the operations do to the region *)

Lemma u64_add_l a b : u64 (u64 a + b) = u64 (a + b).
Proof. unfold u64. by rewrite Z.add_mod_idemp_l. Qed.

Lemma iov_total_from (iovs : list bytes) t :
  foldl (fun tot v => u64 (tot + Z.of_nat (length v))) (u64 t) iovs =
  u64 (t + Z.of_nat (length (List.concat iovs))).
Proof.
  revert t. induction iovs as [|v iovs IH]; intros t; simpl.
  - by rewrite Z.add_0_r.
  - rewrite u64_add_l, IH. f_equal. rewrite length_app. lia.
Qed.

(** The feasibility sum is the length of the concatenated vector, wrapped. *)
Lemma iov_total_length iovs : iov_total iovs = u64 (Z.of_nat (length (List.concat iovs))).
Proof. unfold iov_total. apply (iov_total_from iovs 0). Qed.

Lemma iovpp_total_concat iovpp : iovpp_total iovpp = iov_total (List.concat iovpp).
Proof.
  unfold iovpp_total, iov_total. generalize 0. induction iovpp as [|v l IH]; intros t; simpl; [done|].
  by rewrite IH, foldl_app.
Qed.

Lemma store_nodrain_ok a bs l m h :
  0 <= a -> a + Z.of_nat (length bs) <= mapped_len l ->
  store_nodrain a bs (mkLogSt l (mkPmem m h)) =
  Ret tt (mkLogSt l (mkPmem (mwrite m a bs) (h ++ [PStore a bs]))).
Proof.
  intros H1 H2. unfold store_nodrain. cbn [lsoft].
  by rewrite (proj2 (Z.leb_le 0 a)), (proj2 (Z.leb_le _ _)) by lia.
Qed.

Lemma drain_run l m h :
  drain (mkLogSt l (mkPmem m h)) = Ret tt (mkLogSt l (mkPmem m (h ++ [PDrain]))).
Proof. done. Qed.

Lemma cur_run s : cur s = Ret (lsoft s) s.
Proof. done. Qed.

Lemma advance_run n l p :
  0 <= write_offset l + n < 2 ^ 64 ->
  advance n (mkLogSt l p) = Ret tt (mkLogSt (set_write_offset (write_offset l + n) l) p).
Proof. intros. unfold advance. cbn [lsoft lpm]. by rewrite u64_small. Qed.

Lemma copy_iovs_app l1 l2 s :
  copy_iovs (l1 ++ l2) s = (copy_iovs l1;; copy_iovs l2) s.
Proof.
  revert s. induction l1 as [|v l1 IH]; intros s; [done|].
  cbn [app copy_iovs]. unfold cur, store_nodrain, advance. munfold. simpl. bsplit; [|done].
  rewrite IH. done.
Qed.

Lemma copy_iovpp_concat iovpp s : copy_iovpp iovpp s = copy_iovs (List.concat iovpp) s.
Proof.
  revert s. induction iovpp as [|v l IH]; intros s; [done|].
  simpl. rewrite copy_iovs_app. munfold. destruct (copy_iovs v s); try done.
Qed.

(** The stores issued by the copy loop. *)
Fixpoint iov_stores (w : Z) (iovs : list bytes) : list (Z * bytes) :=
  match iovs with
  | [] => []
  | v :: iovs' => (w, v) :: iov_stores (w + Z.of_nat (length v)) iovs'
  end.

Definition to_op (st : Z * bytes) : pmem_op := PStore st.1 st.2.

Lemma iov_stores_apply iovs m w : apply_stores m (iov_stores w iovs) = mwrite m w (List.concat iovs).
Proof.
  unfold apply_stores. revert m w. induction iovs as [|v iovs IH]; intros m w; simpl; [done|].
  by rewrite IH, mwrite_app.
Qed.

Lemma iov_stores_bounds iovs w :
  Forall (fun st => w <= st.1 /\ st.1 + Z.of_nat (length st.2) <= w + Z.of_nat (length (List.concat iovs)))
    (iov_stores w iovs).
Proof.
  revert w. induction iovs as [|v iovs IH]; intros w; simpl; constructor.
  - simpl. rewrite length_app. lia.
  - eapply Forall_impl; [apply IH|]. simpl. intros st. rewrite length_app. lia.
Qed.

Lemma copy_iovs_run iovs l m h :
  0 <= write_offset l ->
  write_offset l + Z.of_nat (length (List.concat iovs)) <= mapped_len l < 2 ^ 63 ->
  copy_iovs iovs (mkLogSt l (mkPmem m h)) =
  Ret tt (mkLogSt (set_write_offset (write_offset l + Z.of_nat (length (List.concat iovs))) l)
            (mkPmem (mwrite m (write_offset l) (List.concat iovs))
               (h ++ (to_op <$> iov_stores (write_offset l) iovs)))).
Proof.
  revert l m h. induction iovs as [|v iovs IH]; intros l m h H0 Hb.
  - simpl. rewrite app_nil_r, Z.add_0_r. by destruct l.
  - cbn [copy_iovs List.concat] in *. rewrite length_app in Hb.
    mstep cur_run. mstep store_nodrain_ok. mstep advance_run.
    rewrite IH by (simpl; lia). simpl.
    rewrite mwrite_app, <- app_assoc, length_app, Nat2Z.inj_add, Z.add_assoc. done.
Qed.

Definition commit_ops (w : Z) : list pmem_op :=
  [PDrain; PStore w (le64 COMMIT_FLAG); PStore w (le64 COMMIT_FLAG); PDrain;
   PStore tail_off (le64 (w + 8)); PDrain].

Lemma persist_run l m h :
  32 <= write_offset l -> write_offset l + 8 <= mapped_len l < 2 ^ 63 ->
  persist (mkLogSt l (mkPmem m h)) =
  Ret tt (mkLogSt (set_write_offset (write_offset l + 8) l)
            (mkPmem (mwrite (mwrite (mwrite m (write_offset l) (le64 COMMIT_FLAG))
                        (write_offset l) (le64 COMMIT_FLAG)) tail_off (le64 (write_offset l + 8)))
               (h ++ commit_ops (write_offset l)))).
Proof.
  intros Hw Hb. unfold persist, WORD_LENGTH, tail_off.
  mstep drain_run. mstep cur_run. mstep store_nodrain_ok.
  mstep cur_run. mstep store_nodrain_ok.
  mstep drain_run. mstep advance_run. mstep cur_run. cbn [lsoft write_offset set_write_offset].
  mstep store_nodrain_ok. rewrite drain_run. by rewrite <- !app_assoc.
Qed.

(** The appended region: payload, commit flag, tail. *)
Definition appended (m : mem) (w : Z) (bs : bytes) : mem :=
  let w' := w + Z.of_nat (length bs) in
  mwrite (mwrite (mwrite (mwrite m w bs) w' (le64 COMMIT_FLAG)) w' (le64 COMMIT_FLAG))
    tail_off (le64 (w' + 8)).

Definition append_ops (w : Z) (iovs : list bytes) : list pmem_op :=
  (to_op <$> iov_stores w iovs) ++ commit_ops (w + Z.of_nat (length (List.concat iovs))).

(** The soft state of a log that is open and consistent with its mapping. *)
Record soft_ok (l : Log) : Prop := {
  so_mapped : 33 <= mapped_len l < 2 ^ 63;
  so_end : end_offset l = mapped_len l - 1;
  so_write : 32 <= write_offset l <= mapped_len l
}.

(** There is room for [n] bytes and the commit flag. *)
Definition room (l : Log) (n : Z) : bool := n + WORD_LENGTH <=? end_offset l - write_offset l.

Lemma appendv_room l m h iovs :
  soft_ok l -> Z.of_nat (length (List.concat iovs)) + 8 < 2 ^ 64 ->
  room l (Z.of_nat (length (List.concat iovs))) = true ->
  appendv iovs (mkLogSt l (mkPmem m h)) =
  Ret NO_ERROR
    (mkLogSt (set_write_offset (write_offset l + Z.of_nat (length (List.concat iovs)) + 8) l)
       (mkPmem (appended m (write_offset l) (List.concat iovs))
          (h ++ append_ops (write_offset l) iovs))).
Proof.
  intros [Hm He Hw] Hn Hroom. unfold room, WORD_LENGTH in Hroom. bcases.
  unfold appendv, WORD_LENGTH. mstep cur_run. cbn [lsoft].
  rewrite (proj2 (Z.leb_gt _ _)) by lia.
  rewrite iov_total_length, u64_add_l, !u64_small' by lia.
  rewrite (proj2 (Z.ltb_ge _ _)) by lia.
  mstep copy_iovs_run. mstep persist_run.
  rewrite <- app_assoc. done.
Qed.

Lemma appendv_full l p iovs :
  soft_ok l -> Z.of_nat (length (List.concat iovs)) + 8 < 2 ^ 64 ->
  room l (Z.of_nat (length (List.concat iovs))) = false ->
  appendv iovs (mkLogSt l p) = Exit 1 (mkLogSt l p).
Proof.
  intros [Hm He Hw] Hn Hroom. unfold room, WORD_LENGTH in Hroom. bcases.
  unfold appendv, WORD_LENGTH. mstep cur_run. cbn [lsoft].
  destruct (end_offset l <=? write_offset l) eqn:E; [done|]. bcases.
  rewrite iov_total_length, u64_add_l, !u64_small' by lia.
  by rewrite (proj2 (Z.ltb_lt _ _)) by lia.
Qed.

(** * The abstract log *)

Record entry : Type := mkEntry { e_hdr : lehdr_t; e_data : bytes }.

Definition entry_bytes (e : entry) : bytes :=
  lehdr_bytes (e_hdr e) ++ e_data e ++ le64 COMMIT_FLAG.

Record entry_wf (e : entry) : Prop := {
  ew_hdr : lehdr_wf (e_hdr e);
  ew_len : len (e_hdr e) = Z.of_nat (length (e_data e))
}.

Definition entry_size (e : entry) : Z := 136 + Z.of_nat (length (e_data e)) + 8.

Definition log_bytes (es : list entry) : bytes := List.concat (entry_bytes <$> es).

(** The region [m], mapped with length [ml], holds the entries [es]. *)
Record log_repr (ml : Z) (m : mem) (es : list entry) : Prop := {
  lr_magic : magic_number (read_lhdr m) = MAGIC_NUMBER;
  lr_len : lh_len (read_lhdr m) = ml;
  lr_head : head (read_lhdr m) = 32;
  lr_tail : tail (read_lhdr m) = 32 + Z.of_nat (length (log_bytes es));
  lr_bound : 32 + Z.of_nat (length (log_bytes es)) <= ml < 2 ^ 63;
  lr_at : at_ m 32 (log_bytes es);
  lr_wf : Forall entry_wf es
}.

(** What an append leaves alone: the end of the log. *)
Definition log_end (s : LogSt) : Z := end_offset (lsoft s).

Lemma keeps_store_nodrain a bs : keeps log_end (store_nodrain a bs).
Proof. intros s u s'. unfold store_nodrain. bsplit; [|done]. by intros [= _ <-]. Qed.
Lemma keeps_drain : keeps log_end drain.
Proof. by intros s u s' [= _ <-]. Qed.
Lemma keeps_advance n : keeps log_end (advance n).
Proof. by intros s u s' [= _ <-]. Qed.
Lemma keeps_cur : keeps log_end cur.
Proof. by intros s u s' [= _ <-]. Qed.
#[local] Hint Resolve keeps_store_nodrain keeps_drain keeps_advance keeps_cur : nvs.

Lemma keeps_copy_iovs iovs : keeps log_end (copy_iovs iovs).
Proof. induction iovs as [|v iovs IH]; simpl; auto 10 with nvs. Qed.
#[local] Hint Resolve keeps_copy_iovs : nvs.

Lemma keeps_appendv iovs : keeps log_end (appendv iovs).
Proof. unfold appendv, persist. cbv zeta. auto 20 with nvs. Qed.

(** The open log [s] holds the entries [es]. *)
Record log_inv (s : LogSt) (es : list entry) : Prop := {
  li_soft : soft_ok (lsoft s);
  li_repr : log_repr (mapped_len (lsoft s)) (pview (lpm s)) es;
  li_write : write_offset (lsoft s) = 32 + Z.of_nat (length (log_bytes es))
}.

Lemma length_entry_bytes e : entry_wf e -> Z.of_nat (length (entry_bytes e)) = entry_size e.
Proof.
  intros [Hh Hl]. unfold entry_bytes, entry_size.
  rewrite !length_app, length_lehdr_bytes, length_le64 by done. lia.
Qed.

Lemma log_bytes_app es es' : log_bytes (es ++ es') = log_bytes es ++ log_bytes es'.
Proof. unfold log_bytes. by rewrite fmap_app, concat_app. Qed.

Lemma log_bytes_one e : log_bytes [e] = entry_bytes e.
Proof. unfold log_bytes. simpl. apply app_nil_r. Qed.

Lemma log_bytes_cons e es : log_bytes (e :: es) = entry_bytes e ++ log_bytes es.
Proof. done. Qed.

(** The header fields other than [tail] do not move under an append. *)
Lemma appended_header m w bs :
  32 <= w -> w + Z.of_nat (length bs) + 8 < 2 ^ 64 ->
  read_lhdr (appended m w bs) =
  mk_lhdr (magic_number (read_lhdr m)) (lh_len (read_lhdr m)) (head (read_lhdr m))
    (w + Z.of_nat (length bs) + 8).
Proof.
  intros Hw Hb. unfold read_lhdr, appended, tail_off. simpl.
  rewrite rd64_le64 by (unfold fits; lia).
  rewrite !rd64_mwrite_disj by (rewrite ?length_le64; lia). done.
Qed.

Lemma appended_at m w bs :
  32 <= w -> at_ (appended m w bs) w (bs ++ le64 COMMIT_FLAG).
Proof.
  intros Hw. unfold appended. rewrite at_app. split.
  - repeat (apply at_mwrite_disj; [rewrite ?length_le64; unfold tail_off; lia|]).
    apply at_mwrite.
  - apply at_mwrite_disj; [rewrite !length_le64; unfold tail_off; lia|]. apply at_mwrite.
Qed.

Lemma appended_old m w bs a xs :
  32 <= a -> a + Z.of_nat (length xs) <= w -> at_ m a xs -> at_ (appended m w bs) a xs.
Proof.
  intros Ha Hw H. unfold appended.
  repeat (apply at_mwrite_disj; [rewrite ?length_le64; unfold tail_off; lia|]). done.
Qed.

(** Appending the bytes of an entry to a region that holds [es]. *)
Lemma log_repr_append ml m es e bs :
  log_repr ml m es -> entry_wf e -> bs ++ le64 COMMIT_FLAG = entry_bytes e ->
  let w := 32 + Z.of_nat (length (log_bytes es)) in
  w + Z.of_nat (length bs) + 8 <= ml ->
  log_repr ml (appended m w bs) (es ++ [e]).
Proof.
  intros [R1 R2 R3 R4 R5 R6 R7] He Hbs w Hroom.
  assert (length (entry_bytes e) = (length bs + 8)%nat) as Hlen.
  { rewrite <- Hbs, length_app, length_le64. done. }
  assert (Z.of_nat (length (log_bytes (es ++ [e]))) =
          Z.of_nat (length (log_bytes es)) + Z.of_nat (length bs) + 8) as Htot.
  { rewrite log_bytes_app, log_bytes_one, length_app, Hlen. lia. }
  pose proof (appended_header m w bs ltac:(unfold w; lia) ltac:(unfold w; lia)) as Hh.
  constructor; rewrite ?Hh; simpl; try done; try (unfold w; lia).
  - rewrite log_bytes_app, log_bytes_one, at_app. split.
    + apply appended_old; unfold w; (lia || done).
    + rewrite <- Hbs. apply appended_at. unfold w. lia.
  - apply Forall_app. split; [done|]. by constructor.
Qed.

(** Appending through [appendv]: the abstract log grows by the entry. *)
Lemma appendv_inv s es iovs e :
  log_inv s es -> entry_wf e -> List.concat iovs = lehdr_bytes (e_hdr e) ++ e_data e ->
  Z.of_nat (length (e_data e)) < 2 ^ 63 ->
  if room (lsoft s) (136 + Z.of_nat (length (e_data e)))
  then exists s', appendv iovs s = Ret NO_ERROR s' /\ log_inv s' (es ++ [e]) /\
       phist (lpm s') = phist (lpm s) ++ append_ops (write_offset (lsoft s)) iovs /\
       pview (lpm s') = appended (pview (lpm s)) (write_offset (lsoft s)) (List.concat iovs)
  else appendv iovs s = Exit 1 s.
Proof.
  intros [Hs Hr Hw] He Hc Hd. destruct s as [l [m h]]; simpl in *.
  assert (Z.of_nat (length (List.concat iovs)) = 136 + Z.of_nat (length (e_data e))) as Hlen.
  { rewrite Hc, length_app, length_lehdr_bytes by apply He. lia. }
  rewrite <- Hlen. destruct (room l _) eqn:Hroom.
  - eexists. rewrite appendv_room by (done || lia). split; [done|]. simpl. split; [|done].
    unfold room, WORD_LENGTH in Hroom. bcases. destruct Hs as [S1 S2 S3].
    assert (Z.of_nat (length (log_bytes (es ++ [e]))) =
            Z.of_nat (length (log_bytes es)) + entry_size e) as Htot.
    { rewrite log_bytes_app, log_bytes_one, length_app, Nat2Z.inj_add.
      by rewrite length_entry_bytes. }
    unfold entry_size in Htot. constructor; simpl.
    + constructor; simpl; lia.
    + rewrite Hw. apply log_repr_append; try done.
      * by rewrite Hc, <- app_assoc.
      * lia.
    + lia.
  - by apply appendv_full; (done || lia).
Qed.

(** * Walking the abstract log *)

Fixpoint walk_entries {W} (cb : Z -> Z -> M W Z) (off : Z) (es : list entry) : M W ErrorCode :=
  match es with
  | [] => mret NO_ERROR
  | e :: es' =>
      r ← cb off (len (e_hdr e));
      if r =? 0 then mret NO_ERROR else walk_entries cb (off + entry_size e) es'
  end.

Lemma read_lehdr_entry m off e :
  entry_wf e -> at_ m off (entry_bytes e) -> read_lehdr m off = e_hdr e.
Proof. intros [Hh _] Hat. apply at_app in Hat as [Hat _]. by apply read_lehdr_at. Qed.

Lemma walk_loop_entries {W} ml m (cb : Z -> Z -> M W Z) es off fuel w :
  0 <= off -> off + Z.of_nat (length (log_bytes es)) <= ml < 2 ^ 63 ->
  at_ m off (log_bytes es) -> Forall entry_wf es -> (length es < fuel)%nat ->
  walk_loop ml m cb fuel off (off + Z.of_nat (length (log_bytes es))) w =
  walk_entries cb off es w.
Proof.
  intros H0 Hb Hat Hwf. revert off fuel w H0 Hb Hat.
  induction Hwf as [|e es He Hwf IH]; intros off fuel w H0 Hb Hat Hf.
  - destruct fuel; [lia|]. simpl. rewrite Z.add_0_r, Z.ltb_irrefl. done.
  - destruct fuel as [|fuel]; [simpl in Hf; lia|].
    rewrite log_bytes_cons, length_app, Nat2Z.inj_add, length_entry_bytes in * by done.
    apply at_app in Hat as [Hat1 Hat2]. rewrite length_entry_bytes in Hat2 by done.
    cbn [walk_loop walk_entries]. unfold entry_size in *.
    rewrite (proj2 (Z.ltb_lt _ _)) by lia.
    unfold sizeof_lehdr. rewrite (proj2 (Z.leb_le _ _)) by lia.
    rewrite (read_lehdr_entry m off e He Hat1), (ew_len e He).
    munfold. destruct (cb off _ w) as [r w'| | |]; try done.
    destruct (r =? 0); [done|]. unfold WORD_LENGTH. rewrite u64_small' by lia.
    rewrite <- IH with (fuel := fuel) by (simpl in Hf; (lia || done)).
    f_equal. lia.
Qed.

Lemma log_bytes_count es :
  Forall entry_wf es -> 144 * Z.of_nat (length es) <= Z.of_nat (length (log_bytes es)).
Proof.
  induction 1 as [|e es He _ IH]; [done|].
  rewrite log_bytes_cons, length_app, Nat2Z.inj_add, length_entry_bytes by done.
  unfold entry_size. simpl length. lia.
Qed.

(** A walk over a region that holds [es] visits the entries in order, ends,
    and reports an empty log. *)
Lemma walk_run {W} ml m (cb : Z -> Z -> M W Z) es w :
  log_repr ml m es ->
  walk ml m cb w =
  match es with [] => Ret ID_NOT_FOUND w | _ => walk_entries cb 32 es w end.
Proof.
  intros [R1 R2 R3 R4 R5 R6 R7]. unfold walk. rewrite R3, R4.
  pose proof (log_bytes_count es R7) as Hc. destruct es as [|e es].
  - simpl. done.
  - rewrite (proj2 (Z.leb_gt _ _)) by (simpl length in Hc; lia).
    apply walk_loop_entries; try (done || lia). unfold walk_fuel.
    set (n := Z.of_nat (length (log_bytes (e :: es)))) in *.
    replace (32 + n - 32) with n by lia.
    assert (Z.of_nat (length (e :: es)) <= n / 144) as Hq.
    { apply Z.div_le_lower_bound; lia. }
    lia.
Qed.

(** * Crashes during an append *)

(** [log_repr] depends on the bytes of the header and the entries only. *)
Lemma log_repr_agree ml m m' es :
  (forall i, 0 <= i < 32 + Z.of_nat (length (log_bytes es)) -> mget m' i = mget m i) ->
  log_repr ml m es -> log_repr ml m' es.
Proof.
  intros H [R1 R2 R3 R4 R5 R6 R7].
  assert (read_lhdr m' = read_lhdr m) as Hh.
  { unfold read_lhdr, rd64. f_equal; f_equal; apply mread_ext; intros; apply H; lia. }
  constructor; rewrite ?Hh; try done.
  unfold at_ in *. rewrite <- R6 at 2. apply mread_ext. intros. apply H. lia.
Qed.

Definition agree_below (w : Z) (m m' : mem) : Prop :=
  forall i, 0 <= i < w -> mget m' i = mget m i.

(** Stores at or above the old tail leave the old log readable. *)
Lemma crash_old ml b d es m :
  let w := 32 + Z.of_nat (length (log_bytes es)) in
  log_repr ml b es -> agree_below w b d.1 -> Forall (fun st => w <= st.1) d.2 ->
  crash_image d m -> log_repr ml m es.
Proof.
  intros w Hr Ha Hf Hc. apply (log_repr_agree ml b); [|done]. intros i Hi.
  rewrite (crash_image_outside d m i Hc); [by apply Ha|].
  eapply Forall_impl; [exact Hf|]. simpl. intros st Hst. left. unfold w in Hst. lia.
Qed.

(** With only the tail word in flight, the crash image is the region before or
    after the tail update. *)
Lemma crash_tail x t m :
  crash_image (x, [(tail_off, le64 t)]) m ->
  (forall i, mget m i = mget x i) \/ (forall i, mget m i = mget (mwrite x tail_off (le64 t)) i).
Proof.
  intros Hc. unfold tail_off in *.
  assert (forall i, ~ (24 <= i < 32) -> mget m i = mget x i) as Hout.
  { intros i Hi. apply (crash_image_outside _ _ i Hc). constructor; [|constructor].
    unfold outside. simpl. lia. }
  destruct (Hc 24) as [k Hk]; [by exists 3|]. simpl in Hk.
  assert (forall y i, mread m 24 8 = mread y 24 8 -> 24 <= i < 32 -> mget m i = mget y i) as Hin.
  { intros y i Hy Hi. apply (f_equal (fun l => l !! Z.to_nat (i - 24))) in Hy.
    rewrite !lookup_mread in Hy by lia.
    replace (24 + Z.of_nat (Z.to_nat (i - 24))) with i in Hy by lia. congruence. }
  destruct k as [|k]; [left|right]; intros i.
  - destruct (decide (24 <= i < 32)); [by apply Hin|by apply Hout].
  - simpl in Hk. rewrite take_nil in Hk. simpl in Hk.
    destruct (decide (24 <= i < 32)); [by apply Hin|]. rewrite Hout by done.
    rewrite mget_mwrite, length_le64, decide_False by lia. done.
Qed.

Lemma agree_below_mwrite w b m a bs : w <= a -> agree_below w b m -> agree_below w b (mwrite m a bs).
Proof. intros Ha H i Hi. rewrite mget_mwrite, decide_False by lia. by apply H. Qed.

Lemma agree_below_stores w b m l :
  Forall (fun st => w <= st.1) l -> agree_below w b m -> agree_below w b (apply_stores m l).
Proof.
  unfold apply_stores. intros Hl. revert m.
  induction Hl as [|st l Hst Hl IH]; intros m H; simpl; [done|].
  apply IH. by apply agree_below_mwrite.
Qed.

(** The prefixes of the operations of an append. *)
Lemma append_ops_prefix w iovs ops1 ops2 :
  append_ops w iovs = ops1 ++ ops2 ->
  (exists k, ops1 = to_op <$> take k (iov_stores w iovs)) \/
  (exists j, (j <= 6)%nat /\
     ops1 = (to_op <$> iov_stores w iovs) ++
            take j (commit_ops (w + Z.of_nat (length (List.concat iovs))))).
Proof.
  unfold append_ops. set (st := to_op <$> _). set (co := commit_ops _). intros H.
  assert (ops1 = take (length ops1) (st ++ co)) as Ht.
  { rewrite H, take_app_length. done. }
  rewrite take_app in Ht. destruct (decide (length ops1 <= length st)%nat) as [Hl|Hl].
  - left. exists (length ops1). rewrite Ht at 1.
    replace (length ops1 - length st)%nat with 0%nat by lia. rewrite take_0, app_nil_r.
    unfold st. by rewrite fmap_take.
  - right. exists (length ops1 - length st)%nat. split.
    + apply (f_equal length) in H. rewrite !length_app in H. unfold co in H. simpl in H. lia.
    + rewrite Ht at 1. f_equal. apply take_ge. lia.
Qed.

(** The commit phase: over the durable region [b0] the stores [d] are in flight
    when it starts. *)
Lemma crash_commit ml b0 b w n es e bs d m j :
  w = 32 + Z.of_nat (length (log_bytes es)) -> n = Z.of_nat (length bs) ->
  log_repr ml b es -> agree_below w b b0 -> entry_wf e -> bs ++ le64 COMMIT_FLAG = entry_bytes e -> w + n + 8 <= ml ->
  Forall (fun st => w <= st.1) d -> apply_stores b0 d = mwrite b w bs ->
  (j <= 6)%nat -> crash_image (settle (b0, d) (take j (commit_ops (w + n)))) m ->
  log_repr ml m es \/ log_repr ml m (es ++ [e]).
Proof.
  intros -> -> Hr Hb0 He Hbs Hb Hst Happ Hj Hcr.
  set (w := 32 + _) in *. set (n := Z.of_nat (length bs)) in *.
  set (x := mwrite (mwrite (mwrite b w bs) (w + n) (le64 COMMIT_FLAG)) (w + n) (le64 COMMIT_FLAG)).
  assert (agree_below w b x) as Hx by (repeat apply agree_below_mwrite; (done || lia)).
  assert (forall m', (forall i, mget m' i = mget (appended b w bs) i) -> log_repr ml m' (es ++ [e]))
    as Hnew.
  { intros m' H'. apply (log_repr_agree ml (appended b w bs)); [by intros; apply H'|].
    by apply log_repr_append. }
  assert (forall d, agree_below w b d.1 -> Forall (fun st => w <= st.1) d.2 ->
            crash_image d m -> log_repr ml m es) as Hold.
  { intros d' H1 H2 H3. by apply (crash_old ml b d' es m). }
  destruct j as [|[|[|[|[|[|[|]]]]]]]; [..|lia];
    unfold apply_stores in Happ; cbn -[le64] in Hcr; rewrite ?Happ in Hcr.
  - left. by apply Hold in Hcr.
  - left. apply Hold in Hcr; [done| |constructor]. by apply agree_below_mwrite.
  - left. apply Hold in Hcr; [done|by apply agree_below_mwrite|].
    repeat constructor; simpl; lia.
  - left. apply Hold in Hcr; [done|by apply agree_below_mwrite|].
    repeat constructor; simpl; lia.
  - left. apply Hold in Hcr; [done|done|constructor].
  - apply crash_tail in Hcr as [H|H]; [left|right; by apply Hnew].
    apply (log_repr_agree ml b); [|done]. intros i Hi. rewrite H. by apply Hx.
  - right. apply Hnew. intros i. by rewrite (crash_image_outside _ _ i Hcr) by constructor.
Qed.

(** Whatever the point of the crash, the log that is found holds the old
    entries or the old entries and the new one.  Before the append [d0] is
    durable and [fl], at or above the tail, is in flight. *)
Lemma append_crash_atomic ml d0 fl b es e iovs m ops1 ops2 :
  let w := 32 + Z.of_nat (length (log_bytes es)) in
  log_repr ml b es -> apply_stores d0 fl = b -> Forall (fun st => w <= st.1) fl ->
  entry_wf e -> List.concat iovs = lehdr_bytes (e_hdr e) ++ e_data e ->
  w + Z.of_nat (length (List.concat iovs)) + 8 <= ml ->
  append_ops w iovs = ops1 ++ ops2 -> crash_image (settle (d0, fl) ops1) m ->
  log_repr ml m es \/ log_repr ml m (es ++ [e]).
Proof.
  intros w Hr Hv Hfl He Hc Hb Hops Hcr.
  assert (Forall (fun st => w <= st.1) (iov_stores w iovs)) as Hst.
  { eapply Forall_impl; [apply iov_stores_bounds|]. simpl. intros st. lia. }
  assert (agree_below w b d0) as Hbb.
  { intros i Hi. rewrite <- Hv. symmetry. by apply (agree_below_stores w d0 d0 fl). }
  set (n := Z.of_nat (length (List.concat iovs))) in *.
  pose proof (iov_stores_apply iovs b w) as Happ.
  apply append_ops_prefix in Hops as [[k ->]|(j & Hj & ->)].
  - left. unfold to_op in Hcr. rewrite settle_stores in Hcr.
    apply (crash_old ml b _ es m Hr) in Hcr; [done|done|]. simpl.
    apply Forall_app. split; [done|]. by apply Forall_take.
  - unfold to_op in Hcr. rewrite settle_app, settle_stores in Hcr. simpl in Hcr.
    fold n in Hcr. apply (crash_commit ml d0 b w n es e (List.concat iovs) _ m j) in Hcr; try done.
    + by rewrite Hc, <- app_assoc.
    + by apply Forall_app.
    + by rewrite apply_stores_app, Hv.
Qed.

(** The log is durable: of the stores since the region was mapped with the
    content [base], those in flight are at or above the write offset. *)
Definition log_durable (base : mem) (s : LogSt) : Prop :=
  exists d0 fl, settle (base, []) (phist (lpm s)) = (d0, fl) /\
    apply_stores d0 fl = pview (lpm s) /\
    Forall (fun st => write_offset (lsoft s) <= st.1) fl.

(** The crash from the invariant of an open log. *)
Lemma append_crash_repr base s es iovs e m ops1 ops2 :
  log_inv s es -> log_durable base s ->
  entry_wf e -> List.concat iovs = lehdr_bytes (e_hdr e) ++ e_data e ->
  room (lsoft s) (136 + Z.of_nat (length (e_data e))) = true ->
  append_ops (write_offset (lsoft s)) iovs = ops1 ++ ops2 ->
  crash_image (settle (base, []) (phist (lpm s) ++ ops1)) m ->
  exists es', log_repr (mapped_len (lsoft s)) m es' /\ (es' = es \/ es' = es ++ [e]).
Proof.
  intros [Hs Hr Hw] (d0 & fl & Hset & Hv & Hfl) He Hc Hroom Hops Hcr. rewrite Hw in *.
  rewrite settle_app, Hset in Hcr.
  destruct Hs as [S1 S2 S3]. unfold room, WORD_LENGTH in Hroom. bcases.
  apply (append_crash_atomic (mapped_len (lsoft s)) d0 fl (pview (lpm s)) es e iovs m ops1 ops2)
    in Hcr as [H|H]; eauto.
  rewrite Hc, length_app, length_lehdr_bytes by apply He. lia.
Qed.

(** Nothing is left in flight after the operations of an append. *)
Lemma settle_append_ops d0 fl w iovs :
  settle (d0, fl) (append_ops w iovs) =
  (appended (apply_stores d0 fl) w (List.concat iovs), []).
Proof.
  unfold append_ops, to_op. rewrite settle_app, settle_stores.
  pose proof (iov_stores_apply iovs (apply_stores d0 fl) w) as H.
  rewrite <- apply_stores_app in H. unfold settle, commit_ops. cbn -[le64 apply_stores].
  rewrite H. done.
Qed.

(** * Creating and reopening a log *)

Lemma touch_loop_run fuel k l p :
  32 <= k -> end_offset l < mapped_len l -> 
  exists p' st, touch_loop fuel k (mkLogSt l p) = Ret tt (mkLogSt l p') /\
    agree_below 32 (pview p) (pview p') /\
    phist p' = phist p ++ (to_op <$> st) /\ pview p' = apply_stores (pview p) st /\
    Forall (fun x => 32 <= x.1) st.
Proof.
  revert k p. induction fuel as [|fuel IH]; intros k [m h] Hk He.
  - exists (mkPmem m h), []. simpl. by rewrite app_nil_r.
  - cbn [touch_loop]. mstep cur_run. cbn [lsoft].
    destruct (k <? end_offset l) eqn:E;
      [|by exists (mkPmem m h), []; simpl; rewrite app_nil_r]. bcases.
    mstep store_nodrain_ok. 
    destruct (IH (k + 4096) (mkPmem (mwrite m k [NUL]) (h ++ [PStore k [NUL]])) ltac:(lia) He)
      as (p' & st & -> & Hp & Hh & Hv & Hst).
    exists p', ((k, [NUL]) :: st). split; [done|]. split_and!.
    + intros i Hi. rewrite (Hp i Hi). simpl. by rewrite mget_mwrite, decide_False by (simpl; lia).
    + rewrite Hh. simpl. by rewrite <- app_assoc.
    + by rewrite Hv.
    + by constructor.
Qed.

Lemma Log_create_run path lsize lid ml l0 m :
  33 <= ml < 2 ^ 63 -> mapped_len l0 = ml ->
  exists l p, Log_create path lsize lid ml (mkLogSt l0 (mkPmem m [])) = Ret tt (mkLogSt l p) /\
    (log_inv (mkLogSt l p) [] /\ log_durable m (mkLogSt l p)) /\
    log_id l = lid /\ logPath l = path /\ mapped_len l = ml.
Proof.
  intros Hml Hl0. unfold Log_create. mstep.
  cbn [lpm lsoft]. rewrite u64_small' by lia.
  set (l := mkLog _ _ _ _ _ _ _). set (hb := lhdr_bytes _).
  assert (length hb = 32%nat) as Hhb by apply length_lhdr_bytes.
  erewrite bind_Ret by (apply store_nodrain_ok; [lia | rewrite Hhb; simpl; lia]).
  mstep drain_run.
  destruct (touch_loop_run (Z.to_nat (ml / 4096 + 1)) sizeof_lhdr l
    (mkPmem (mwrite m 0 hb) (([] ++ [PStore 0 hb]) ++ [PDrain]))) as (p & st & -> & Hp & Hh & Hv & Hst);
    [done | simpl; lia|].
  exists l, p. split; [done|]. split; [|done]. split; cycle 1.
  { exists (mwrite m 0 hb), st. cbn [lpm]. rewrite Hh, Hv. unfold to_op.
    by rewrite settle_app, settle_stores. }
  assert (read_lhdr (mwrite m 0 hb) = mk_lhdr MAGIC_NUMBER ml sizeof_lhdr sizeof_lhdr) as Hr.
  { apply read_lhdr_at; try apply at_mwrite; unfold fits; simpl; try lia; done. }
  subst l. constructor; simpl; [constructor; unfold sizeof_lhdr; simpl; lia | | done].
  apply (log_repr_agree ml (mwrite m 0 hb)); [by intros; apply Hp|].
  constructor; rewrite ?Hr; simpl; try done. lia.
Qed.

Lemma Log_open_run path lsize lid ml l0 p es :
  33 <= ml -> log_repr ml (pview p) es ->
  exists l, Log_open path lsize lid ml (mkLogSt l0 p) = Ret tt (mkLogSt l p) /\
    log_inv (mkLogSt l p) es /\ log_id l = lid /\ logPath l = path /\ mapped_len l = ml.
Proof.
  intros Hml Hr. pose proof Hr as [R1 R2 R3 R4 R5 R6 R7].
  unfold Log_open, sizeof_lhdr. rewrite (proj2 (Z.leb_le _ _)) by lia.
  mstep. mstep. cbn [lpm]. rewrite R1, R2, R3, R4, Z.eqb_refl, Z.eqb_refl, u64_small' by lia.
  eexists. split; [done|]. split; [|done].
  constructor; simpl; [constructor; simpl; lia | done | done].
Qed.

Lemma Log_ctor_exists_aux (os_ok : bytes -> Z -> bool) (path : bytes) (lsize lid : Z) (fs : files) f :
  fs !! path = Some f -> lsize <> 0 -> Log_ctor os_ok path lsize lid fs = Exit 1 fs.
Proof.
  intros Hfs Hsz. unfold Log_ctor, pmem_map_file. munfold.
  rewrite (proj2 (Z.eqb_neq _ _)) by done. simpl.
  destruct (2 ^ 63 <=? lsize); simpl; [done|]. by rewrite Hfs.
Qed.

Lemma Log_ctor_new_aux (os_ok : bytes -> Z -> bool) (path : bytes) (lsize lid : Z) (fs : files) :
  fs !! path = None -> os_ok path lsize = true -> 33 <= lsize < 2 ^ 63 ->
  exists l f, Log_ctor os_ok path lsize lid fs = Ret l (<[path := f]> fs) /\
    fsize f = lsize /\
    (log_inv (mkLogSt l (fpm f)) [] /\ log_durable ∅ (mkLogSt l (fpm f))) /\
    log_id l = lid /\ logPath l = path /\ mapped_len l = lsize.
Proof.
  intros Hfs Hos Hsz. unfold Log_ctor, pmem_map_file.
  rewrite (proj2 (Z.leb_gt _ _)), (proj2 (Z.eqb_neq _ _)) by lia. munfold. simpl.
  rewrite Hfs, Hos. simpl. unfold on_file. rewrite lookup_insert_eq. simpl.
  destruct (Log_create_run path lsize lid lsize (mkLog lid path lsize lsize 0 0 0) ∅)
    as (l & p & -> & Hinv & Hid & Hpath & Hml); [lia | done|].
  exists l, (mkFile lsize p). rewrite insert_insert_eq. done.
Qed.

Lemma Log_ctor_open_aux (os_ok : bytes -> Z -> bool) (path : bytes) (lid : Z) (fs : files) f es :
  fs !! path = Some f -> os_ok path 0 = true -> 33 <= fsize f ->
  log_repr (fsize f) (pview (fpm f)) es ->
  exists l, Log_ctor os_ok path 0 lid fs = Ret l fs /\
    log_inv (mkLogSt l (fpm f)) es /\ log_id l = lid /\ logPath l = path /\ mapped_len l = fsize f.
Proof.
  intros Hfs Hos Hsz Hr. unfold Log_ctor, pmem_map_file. munfold. simpl.
  rewrite Hfs, Hos. simpl. unfold on_file. rewrite Hfs.
  destruct (Log_open_run path 0 lid (fsize f) (mkLog lid path (fsize f) 0 0 0 0) (fpm f) es Hsz Hr)
    as (l & -> & Hinv & Hid & Hpath & Hml).
  exists l. destruct f as [n p]. rewrite insert_id by done. done.
Qed.

(** * Theorems on the log *)

Section LogTheorems.
Context (os_ok : bytes -> Z -> bool).

(** A new log.  For a path with no file and a length between 33 bytes and
    2^63, [Log::Log] creates the file, and the log it returns holds the empty
    list of entries: header written and durable, offsets set, pages touched. *)
Theorem Log_ctor_creates (path : bytes) (lsize lid : Z) (fs : files) :
  fs !! path = None -> os_ok path lsize = true -> 33 <= lsize < 2 ^ 63 ->
  exists l f, Log_ctor os_ok path lsize lid fs = Ret l (<[path := f]> fs) /\
    fsize f = lsize /\
    (log_inv (mkLogSt l (fpm f)) [] /\ log_durable ∅ (mkLogSt l (fpm f))) /\
    log_id l = lid /\ logPath l = path /\ mapped_len l = lsize.
Proof.
  apply Log_ctor_new_aux.
Qed.

(** Recovery.  Opening the file of a log (length argument 0, as FindLog
    does) rebuilds the soft state from the header: the log opened holds
    exactly the entries of the file, and the file is not changed. *)
Theorem Log_ctor_reopens (path : bytes) (lid : Z) (fs : files) f es :
  fs !! path = Some f -> os_ok path 0 = true -> 33 <= fsize f ->
  log_repr (fsize f) (pview (fpm f)) es ->
  exists l, Log_ctor os_ok path 0 lid fs = Ret l fs /\
    log_inv (mkLogSt l (fpm f)) es /\ log_id l = lid /\ logPath l = path /\ mapped_len l = fsize f.
Proof.
  apply Log_ctor_open_aux.
Qed.

(** A log is never created over an existing file.  With a non-zero
    length and a file already at the path, the exclusive creation fails, the
    second mapping is refused because of the length, and the process ends
    with status 1; no file changes. *)
Theorem Log_ctor_existing_exits (path : bytes) (lsize lid : Z) (fs : files) f :
  fs !! path = Some f -> lsize <> 0 ->
  Log_ctor os_ok path lsize lid fs = Exit 1 fs.
Proof.
  apply Log_ctor_exists_aux.
Qed.

(** C1: crash atomicity and durability of [Log::appendv].  Let the log be
    durable before the call: of everything stored since the region was mapped,
    only stores at or above the write offset are still in flight (those of the
    page touching of a new log; none after an append).  The call either ends
    the process without having issued a store, or returns NO_ERROR with the
    entry appended, and then nothing is in flight any more.  In the second
    case, cut the stores and drains that the call issued (the part by which it
    extends the history of the mapping) at any point, and let the crash leave
    any content that the 8-byte words in flight there allow: opening the file
    afterwards succeeds and finds the entries the log had before the call, or
    those and the new entry; nothing else. *)
Theorem appendv_crash_recovers (path : bytes) (lid : Z) (s : LogSt) (es : list entry)
    (iovs : list bytes) (e : entry) (base : mem) :
  log_inv s es -> log_durable base s ->
  entry_wf e -> List.concat iovs = lehdr_bytes (e_hdr e) ++ e_data e ->
  Z.of_nat (length (e_data e)) < 2 ^ 63 -> os_ok path 0 = true ->
  match appendv iovs s with
  | Ret c s' =>
      c = NO_ERROR /\ log_inv s' (es ++ [e]) /\
      settle (base, []) (phist (lpm s')) = (pview (lpm s'), []) /\
      exists ops, phist (lpm s') = phist (lpm s) ++ ops /\
        forall ops1 ops2 (m : mem) (fs : files),
          ops = ops1 ++ ops2 ->
          crash_image (settle (base, []) (phist (lpm s) ++ ops1)) m ->
          fs !! path = Some (mkFile (mapped_len (lsoft s)) (mkPmem m [])) ->
          exists l es', Log_ctor os_ok path 0 lid fs = Ret l fs /\
            log_inv (mkLogSt l (mkPmem m [])) es' /\ (es' = es \/ es' = es ++ [e])
  | Exit c s' => s' = s
  | _ => False
  end.
Proof.
  intros Hi Hdur He Hc Hd Hos. pose proof (appendv_inv s es iovs e Hi He Hc Hd) as H.
  destruct (room _ _) eqn:Hroom; [|by rewrite H].
  destruct H as (s' & Hs' & Hi' & Hh & Hv). rewrite Hs'. do 2 (split; [done|]). split.
  { destruct Hdur as (d0 & fl & Hset & Happ & _).
    by rewrite Hh, settle_app, Hset, Hv, settle_append_ops, Happ. }
  exists (append_ops (write_offset (lsoft s)) iovs). split; [done|].
  intros ops1 ops2 m fs Hops Hcr Hfs.
  destruct (append_crash_repr base s es iovs e m ops1 ops2) as (es' & Hr' & Hes'); try done.
  pose proof (so_mapped _ (li_soft _ _ Hi)) as Hml.
  destruct (Log_ctor_open_aux os_ok path lid fs _ es' Hfs Hos) as (l & Hl & Hl' & _);
    [simpl; lia | done|]. eauto.
Qed.
End LogTheorems.

(** C2: [Log::appendv] implements appending to the abstract log.  On a log that
    holds [es], an io vector whose bytes are an entry header and its data
    either finds room, and then the call returns NO_ERROR with the log holding
    [es] and the entry, or finds none, and then the process ends with status 1
    and the log is untouched.  No store leaves the mapping. *)
Theorem appendv_refines s es iovs e :
  log_inv s es -> entry_wf e -> List.concat iovs = lehdr_bytes (e_hdr e) ++ e_data e ->
  Z.of_nat (length (e_data e)) < 2 ^ 63 ->
  if room (lsoft s) (136 + Z.of_nat (length (e_data e)))
  then exists s', appendv iovs s = Ret NO_ERROR s' /\ log_inv s' (es ++ [e])
  else appendv iovs s = Exit 1 s.
Proof.
  intros Hi He Hc Hd. pose proof (appendv_inv s es iovs e Hi He Hc Hd) as H.
  destruct (room _ _); [|done]. destruct H as (s' & H1 & H2 & _). eauto.
Qed.

(** Appending several vectors at once ([Log::appendmv]) is appending their
    concatenation ([Log::appendv]), in every state and on every branch. *)
Theorem appendmv_is_appendv iovpp s : appendmv iovpp s = appendv (List.concat iovpp) s.
Proof.
  unfold appendmv, appendv. mstep cur_run. mstep cur_run. rewrite iovpp_total_concat.
  destruct (_ <=? _); [done|]. destruct (_ <? _); [done|].
  unfold mbind, M_bind. by rewrite copy_iovpp_concat.
Qed.

(** C3: [Log::walk] on a log that holds [es] calls the callback on the entries
    in append order, at their addresses and with their lengths, until it
    returns 0; it reports ID_NOT_FOUND for the empty log; and it ends. *)
Theorem walk_refines {W} ml m (cb : Z -> Z -> M W Z) es w :
  log_repr ml m es ->
  walk ml m cb w =
  match es with [] => Ret ID_NOT_FOUND w | _ => walk_entries cb 32 es w end.
Proof. apply walk_run. Qed.

(** [Log::append] loses data.  It does not advance past the data it copies,
    so the commit flag is stored over the first eight bytes of the data and the
    log grows by eight bytes only. *)
Theorem append_overwrites_data s es data :
  log_inv s es -> 8 <= Z.of_nat (length data) <= end_offset (lsoft s) - write_offset (lsoft s) ->
  exists s', append data s = Ret NO_ERROR s' /\
    at_ (pview (lpm s')) (write_offset (lsoft s)) (le64 COMMIT_FLAG) /\
    tail (read_lhdr (pview (lpm s'))) = write_offset (lsoft s) + 8 /\
    write_offset (lsoft s') = write_offset (lsoft s) + 8.
Proof.
  intros [[S1 S2 S3] Hr Hw] Hd. destruct s as [l [m h]]; simpl in *.
  unfold append. mstep cur_run. cbn [lsoft].
  rewrite (proj2 (Z.leb_gt _ _)) by lia. rewrite u64_small' by lia.
  rewrite (proj2 (Z.ltb_ge _ _)) by lia. mstep store_nodrain_ok. mstep persist_run.
  eexists. split; [done|]. cbn [lsoft lpm pview write_offset set_write_offset]. split_and!.
  - apply at_mwrite_disj; [unfold tail_off; simpl; lia|]. apply at_mwrite.
  - unfold read_lhdr, tail_off. cbn [tail]. apply rd64_le64. unfold fits. lia.
  - done.
Qed.

(** [Log::append] checks room for the data but not for the commit flag:
    with fewer than eight bytes left in the mapping the call passes the checks
    and then writes outside it. *)
Theorem append_commit_out_of_bounds s es data :
  log_inv s es -> 1 <= Z.of_nat (length data) <= end_offset (lsoft s) - write_offset (lsoft s) ->
  mapped_len (lsoft s) < write_offset (lsoft s) + 8 ->
  exists s', append data s = Undef s'.
Proof.
  intros [[S1 S2 S3] Hr Hw] Hd Hm. destruct s as [l [m h]]; simpl in *.
  unfold append. mstep cur_run. cbn [lsoft].
  rewrite (proj2 (Z.leb_gt _ _)) by lia. rewrite u64_small' by lia.
  rewrite (proj2 (Z.ltb_ge _ _)) by lia. mstep store_nodrain_ok.
  eexists. apply bind_Undef. unfold persist. mstep drain_run. mstep cur_run.
  apply bind_Undef. unfold store_nodrain. rewrite length_le64. cbn [lsoft].
  rewrite (proj2 (Z.leb_gt _ (mapped_len l))) by lia. by rewrite andb_false_r.
Qed.

(** * The theorems at concrete inputs *)

Definition demo_path : bytes := [Byte.x61].

(** A new log of 1000 bytes. *)
Definition demo_ctor : outcome files Log := Log_ctor (fun _ _ => true) demo_path 1000 1 ∅.

Definition demo_log : LogSt :=
  match demo_ctor with
  | Ret l fs => match fs !! demo_path with
                | Some f => mkLogSt l (fpm f)
                | None => mkLogSt l (mkPmem ∅ [])
                end
  | _ => mkLogSt (mkLog 0 [] 0 0 0 0 0) (mkPmem ∅ [])
  end.

(** The header an uninitialised variable may hold, and an entry of 3 bytes. *)
Definition demo_garbage : lehdr_t :=
  mk_lehdr (replicate 20 Byte.xff) (replicate 4 Byte.xaa) 7 7 7 (replicate 4 Byte.xaa) 7
    (replicate 5 (mk_ledelta 7 7)).

Lemma demo_garbage_wf : lehdr_wf demo_garbage.
Proof.
  constructor; try reflexivity; try (split; [discriminate|reflexivity]).
  repeat constructor; (discriminate || reflexivity).
Qed.

Definition demo_entry : entry :=
  mkEntry (set_type single (set_len 3 (set_kname [Byte.x6b] (set_version 1 demo_garbage))))
    [Byte.x01; Byte.x02; Byte.x03].

Lemma demo_entry_wf : entry_wf demo_entry.
Proof.
  constructor; [|reflexivity].
  apply set_type_wf, set_len_wf, set_kname_wf, set_version_wf, demo_garbage_wf;
    (split; [discriminate|reflexivity]).
Qed.

Lemma demo_log_inv : log_inv demo_log [].
Proof.
  constructor; [constructor; vm_compute; (split; discriminate || reflexivity) || reflexivity | |
    vm_compute; reflexivity].
  constructor; try (vm_compute; reflexivity); [vm_compute; split; (discriminate || reflexivity)|].
  constructor.
Qed.

Lemma Log_ctor_creates_witness :
  exists l f, Log_ctor (fun _ _ => true) demo_path 1000 1 ∅ = Ret l (<[demo_path := f]> ∅) /\
    fsize f = 1000 /\ (log_inv (mkLogSt l (fpm f)) [] /\ log_durable ∅ (mkLogSt l (fpm f))) /\
    log_id l = 1 /\ logPath l = demo_path /\ mapped_len l = 1000.
Proof. apply Log_ctor_creates; [reflexivity | reflexivity | lia]. Defined.

Definition demo_iovs : list bytes := [lehdr_bytes (e_hdr demo_entry); e_data demo_entry].

(** The demo log after the append of the demo entry. *)
Definition demo_log1 : LogSt :=
  match appendv demo_iovs demo_log with Ret _ s => s | _ => demo_log end.

Lemma demo_log1_inv : log_inv demo_log1 [demo_entry].
Proof.
  pose proof (appendv_inv demo_log [] demo_iovs demo_entry demo_log_inv demo_entry_wf) as H.
  change (room (lsoft demo_log) (136 + Z.of_nat (length (e_data demo_entry)))) with true in H.
  destruct H as (s' & Hs & Hi & _); [done | done|]. unfold demo_log1. by rewrite Hs.
Qed.

Definition demo_fs1 : files := {[demo_path := mkFile 1000 (lpm demo_log1)]}.

Lemma Log_ctor_reopens_witness :
  exists l, Log_ctor (fun _ _ => true) demo_path 0 1 demo_fs1 = Ret l demo_fs1 /\
    log_inv (mkLogSt l (lpm demo_log1)) [demo_entry] /\ log_id l = 1 /\
    logPath l = demo_path /\ mapped_len l = 1000.
Proof.
  apply (Log_ctor_reopens (fun _ _ => true) demo_path 1 demo_fs1 (mkFile 1000 (lpm demo_log1)));
    [reflexivity | reflexivity | simpl; lia|].
  exact (li_repr _ _ demo_log1_inv).
Defined.

Lemma Log_ctor_existing_exits_witness :
  Log_ctor (fun _ _ => true) demo_path 1000 1 demo_fs1 = Exit 1 demo_fs1.
Proof.
  apply (Log_ctor_existing_exits _ _ _ _ _ (mkFile 1000 (lpm demo_log1)));
    [reflexivity | discriminate].
Defined.

Lemma demo_log1_run : appendv demo_iovs demo_log = Ret NO_ERROR demo_log1.
Proof.
  pose proof (appendv_inv demo_log [] demo_iovs demo_entry demo_log_inv demo_entry_wf) as H.
  change (room (lsoft demo_log) (136 + Z.of_nat (length (e_data demo_entry)))) with true in H.
  destruct H as (s' & Hs & _); [done | done|]. unfold demo_log1. by rewrite Hs.
Qed.

Lemma demo_log_durable : log_durable ∅ demo_log.
Proof.
  unfold demo_log, demo_ctor.
  destruct (Log_ctor_new_aux (fun _ _ => true) demo_path 1000 1 ∅ (lookup_empty _) eq_refl ltac:(lia))
    as (l & f & -> & _ & [_ Hd] & _).
  by rewrite lookup_insert_eq.
Qed.

(** The demo append to the log just created.  A crash before any of its stores
    is durable leaves the old region, a crash after the last drain leaves the
    new one; both can be opened. *)
Lemma appendv_crash_recovers_witness :
  appendv demo_iovs demo_log = Ret NO_ERROR demo_log1 /\
  forall m,
  crash_image (settle (∅, []) (phist (lpm demo_log))) m \/ m = pview (lpm demo_log1) ->
  let fs := {[demo_path := mkFile 1000 (mkPmem m [])]} in
  exists l es', Log_ctor (fun _ _ => true) demo_path 0 1 fs = Ret l fs /\
    log_inv (mkLogSt l (mkPmem m [])) es' /\ (es' = [] \/ es' = [] ++ [demo_entry]).
Proof.
  split; [exact demo_log1_run|]. intros m Hm fs.
  pose proof (appendv_crash_recovers (fun _ _ => true) demo_path 1 demo_log [] demo_iovs demo_entry
    ∅ demo_log_inv demo_log_durable demo_entry_wf eq_refl eq_refl eq_refl) as H.
  rewrite demo_log1_run in H. destruct H as (_ & _ & Hset & ops & Hops & H).
  destruct Hm as [Hm | ->].
  - apply (H [] ops); [reflexivity | by rewrite app_nil_r | apply lookup_singleton_eq].
  - apply (H ops []); [by rewrite app_nil_r | | apply lookup_singleton_eq].
    rewrite <- Hops, Hset. intros w _. exists 0%nat. reflexivity.
Defined.

Lemma appendv_refines_witness :
  exists s', appendv demo_iovs demo_log = Ret NO_ERROR s' /\ log_inv s' ([] ++ [demo_entry]).
Proof.
  exact (appendv_refines demo_log [] demo_iovs demo_entry demo_log_inv demo_entry_wf eq_refl eq_refl).
Defined.

Lemma walk_refines_witness :
  walk 1000 (pview (lpm demo_log1)) (fun off n => fun w : list (Z * Z) => Ret 1 ((off, n) :: w)) [] =
  Ret NO_ERROR [(32, 3)].
Proof. rewrite (walk_refines _ _ _ [demo_entry]); [reflexivity | exact (li_repr _ _ demo_log1_inv)]. Defined.

Lemma append_overwrites_data_witness :
  exists s', append (replicate 12 Byte.x41) demo_log = Ret NO_ERROR s' /\
    at_ (pview (lpm s')) (write_offset (lsoft demo_log)) (le64 COMMIT_FLAG) /\
    tail (read_lhdr (pview (lpm s'))) = write_offset (lsoft demo_log) + 8 /\
    write_offset (lsoft s') = write_offset (lsoft demo_log) + 8.
Proof.
  apply (append_overwrites_data demo_log [] (replicate 12 Byte.x41) demo_log_inv).
  vm_compute. split; discriminate.
Defined.

(** A log with fewer than eight bytes left. *)
Definition tiny_log : LogSt :=
  mkLogSt (mkLog 1 demo_path 38 38 32 37 32)
    (mkPmem (mwrite ∅ 0 (lhdr_bytes (mk_lhdr MAGIC_NUMBER 38 32 32))) []).

Lemma tiny_log_inv : log_inv tiny_log [].
Proof.
  constructor; [constructor; vm_compute; (split; discriminate || reflexivity) || reflexivity | |
    vm_compute; reflexivity].
  constructor; try (vm_compute; reflexivity); [vm_compute; split; (discriminate || reflexivity)|].
  constructor.
Qed.

Lemma append_commit_out_of_bounds_witness : exists s', append [Byte.x41] tiny_log = Undef s'.
Proof.
  apply (append_commit_out_of_bounds tiny_log [] [Byte.x41] tiny_log_inv);
    [vm_compute; split; discriminate | vm_compute; reflexivity].
Defined.
