(* ===== verification/GlobalPtr.v ===== *)
(** Global pointers, src/nvstream/include/nvs/global_ptr.h: a log id and an
    offset packed into one 64-bit word ([GlobalPtrClass]). *)
From S2P Require Import Prelude.

Section GlobalPtrClass.
(** The template parameters: the pool-id class, read through [GetLogId] and
    built from an 8-bit id, and the widths of the two fields. *)
Context {PoolIdT : Type} (GetLogId : PoolIdT -> Z) (mkPoolId : Z -> PoolIdT).
Context (OffsetTSize : Z).

Definition kLogIdShift : Z := OffsetTSize.

Definition EncodeGlobalPtr (pool_id : PoolIdT) (offset : Z) : Z :=
  u64 (u64 (Z.shiftl (GetLogId pool_id) kLogIdShift) + offset).

Definition DecodePoolId (global_ptr : Z) : PoolIdT :=
  mkPoolId (u8 (Z.shiftr global_ptr kLogIdShift)).

Definition DecodeOffset (global_ptr : Z) : Z :=
  Z.land (u64 (u64 (Z.shiftl 1 OffsetTSize) - 1)) global_ptr.

Definition IsValidOffset (offset : Z) : bool := negb (offset =? 0).

Hypothesis mkPoolId_inv : forall p, mkPoolId (u8 (GetLogId p)) = p.
Hypothesis GetLogId_u8 : forall p, fits 8 (GetLogId p).

Lemma shift_fits id : 0 <= OffsetTSize <= 56 -> fits 8 id ->
  0 <= Z.shiftl id OffsetTSize <= 2 ^ 64 - 2 ^ OffsetTSize.
Proof.
  intros Hs [H0 H1]. rewrite Z.shiftl_mul_pow2 by lia.
  assert (2 ^ OffsetTSize <= 2 ^ 56) by (apply Z.pow_le_mono_r; lia).
  assert (0 < 2 ^ OffsetTSize) by (apply Z.pow_pos_nonneg; lia).
  change (2 ^ 64) with (256 * 2 ^ 56). change (2 ^ 8) with 256 in H1. nia.
Qed.

Lemma encode_value p off :
  0 <= OffsetTSize <= 56 -> fits OffsetTSize off ->
  EncodeGlobalPtr p off = GetLogId p * 2 ^ OffsetTSize + off.
Proof.
  intros Hs Ho. pose proof (shift_fits (GetLogId p) Hs (GetLogId_u8 p)) as Hb.
  unfold EncodeGlobalPtr, kLogIdShift, fits in *.
  assert (0 < 2 ^ OffsetTSize) by (apply Z.pow_pos_nonneg; lia).
  rewrite (u64_small (Z.shiftl _ _)) by (unfold fits; lia).
  rewrite u64_small by (unfold fits; lia). by rewrite Z.shiftl_mul_pow2 by lia.
Qed.

Lemma decode_offset_mask g : 0 <= OffsetTSize <= 56 -> DecodeOffset g = g mod 2 ^ OffsetTSize.
Proof.
  intros Hs. unfold DecodeOffset.
  assert (2 ^ OffsetTSize <= 2 ^ 56) by (apply Z.pow_le_mono_r; lia).
  assert (0 < 2 ^ OffsetTSize) by (apply Z.pow_pos_nonneg; lia).
  rewrite Z.shiftl_1_l, !u64_small' by (rewrite ?u64_small'; lia).
  rewrite Z.sub_1_r, <- Z.ones_equiv, Z.land_comm. apply Z.land_ones. lia.
Qed.

(** Decoding an encoded pointer gives back the log id and the offset, for
    every id and every offset of the offset field's width. *)
Theorem global_ptr_roundtrip p off :
  0 <= OffsetTSize <= 56 -> fits OffsetTSize off ->
  DecodePoolId (EncodeGlobalPtr p off) = p /\ DecodeOffset (EncodeGlobalPtr p off) = off.
Proof.
  intros Hs Ho. rewrite decode_offset_mask, encode_value by done.
  unfold DecodePoolId, kLogIdShift. rewrite Z.shiftr_div_pow2 by lia.
  unfold fits in Ho. assert (0 < 2 ^ OffsetTSize) by (apply Z.pow_pos_nonneg; lia).
  rewrite Z.div_add_l, (Z.div_small off), Z.add_0_r by lia. split; [apply mkPoolId_inv|].
  rewrite Z.add_comm, Z.mod_add by lia. by apply Z.mod_small.
Qed.
End GlobalPtrClass.

Lemma u8_idem z : u8 (u8 z) = u8 z.
Proof. unfold u8. apply Zmod_mod. Qed.

(** The pool id as the 8-bit value of a [uint8_t]. *)
Record u8val : Type := mk_u8 { u8_val : Z; u8_ok : bool_decide (fits 8 u8_val) }.

Lemma u8val_eq (a b : u8val) : u8_val a = u8_val b -> a = b.
Proof. destruct a, b. simpl. intros ->. f_equal. apply proof_irrel. Qed.

Definition to_u8 (z : Z) : u8val := mk_u8 (u8 z) (bool_decide_pack _ (u8_fits z)).

Lemma global_ptr_roundtrip_witness :
  DecodePoolId to_u8 56 (EncodeGlobalPtr u8_val 56 (to_u8 200) 123456789) = to_u8 200 /\
  DecodeOffset 56 (EncodeGlobalPtr u8_val 56 (to_u8 200) 123456789) = 123456789.
Proof.
  apply (global_ptr_roundtrip u8_val to_u8 56).
  - intros [v Hv]. apply u8val_eq. simpl. rewrite u8_idem. apply Z.mod_small.
    exact (bool_decide_unpack _ Hv).
  - intros [v Hv]. exact (bool_decide_unpack _ Hv).
  - lia.
  - vm_compute. split; [discriminate | reflexivity].
Defined.
