(* ===== verification/Root.v ===== *)
(** The root heap, src/nvstream/src/sheap/root.cc over
    src/nvstream/src/sheap/layout.h: the persistent table of the logs that
    exist, guarded by a mutex in shared memory. *)
From S2P Require Import Prelude LogFmt.

Definition MAX_LOGS : Z := 256.

(** [struct nvs_root]. *)
Record nvs_root : Type := mkRoot {
  rlength : Z;             (* int: how many logs *)
  rlog_id : list Z         (* int[256] *)
}.

(** The root file ([None]: it cannot be opened) and the shared mutex. *)
Record RootSt : Type := mkRootSt { rfile : option nvs_root; rlocked : bool }.

(** Taking a mutex that is held blocks for ever, the holder being this caller
    or a process that died with it. *)
Definition mtx_lock : M RootSt unit := fun s =>
  if rlocked s then Diverge s else Ret tt (mkRootSt (rfile s) true).
Definition mtx_unlock : M RootSt unit := fun s => Ret tt (mkRootSt (rfile s) false).

(** RootHeap::Open, giving the root object. *)
Definition Open : M RootSt nvs_root := fun s =>
  match rfile s with Some r => Ret r s | None => Exit 1 s end.

(** RootHeap::Close is declared to return an ErrorCode and ends without a return
    statement, which is undefined in C++.  What the compiled function does there
    is not in the source: [falls_off_returns] says whether it returns to its
    callers all the same, who ignore the value. *)
Class FallOff : Type := { falls_off_returns : bool }.

Section RootHeap.
Context {FO : FallOff}.

(** RootHeap::Close. *)
Definition Close : M RootSt unit := if falls_off_returns then mret tt else undef.

(** [log_id[i]], inside the array only. *)
Definition rd_log_id (r : nvs_root) (i : Z) : M RootSt Z := fun s =>
  if (0 <=? i) && (i <? MAX_LOGS) then Ret (nth (Z.to_nat i) (rlog_id r) 0) s else Undef s.

(** RootHeap::addLog. *)
Definition addLog (id : Z) : M RootSt ErrorCode :=
  mtx_lock;;
  r ← Open;
  guard_ub ((0 <=? rlength r) && (rlength r <? MAX_LOGS));;
  modify (fun s => mkRootSt (Some (mkRoot (rlength r)
                                    (<[Z.to_nat (rlength r) := id]> (rlog_id r)))) (rlocked s));;
  r ← Open;
  modify (fun s => mkRootSt (Some (mkRoot (rlength r + 1) (rlog_id r))) (rlocked s));;
  Close;;
  mtx_unlock;;
  mret NO_ERROR.

(** The loop of RootHeap::isLogExist from index [i], [n] rounds left. *)
Fixpoint find_loop (n : nat) (r : nvs_root) (id i : Z) : M RootSt bool :=
  match n with
  | O => mret false
  | S n' =>
      v ← rd_log_id r i;
      if v =? id then mret true else find_loop n' r id (i + 1)
  end.

(** RootHeap::isLogExist. *)
Definition isLogExist (id : Z) : M RootSt bool :=
  mtx_lock;;
  r ← Open;
  b ← find_loop (Z.to_nat (rlength r)) r id 0;
  Close;;
  mtx_unlock;;
  mret b.

End RootHeap.

(** heapFormatter: a new root, on a machine that has none.  The array holds
    what the pool holds. *)
Definition format_root (arr : list Z) (s : RootSt) : ErrorCode * RootSt :=
  match rfile s with
  | Some _ => (PMEM_ERROR, s)
  | None => (NO_ERROR, mkRootSt (Some (mkRoot 0 arr)) (rlocked s))
  end.

(** * Invariant: the registered ids *)

Definition root_ids (r : nvs_root) : list Z := take (Z.to_nat (rlength r)) (rlog_id r).

Record root_wf (r : nvs_root) : Prop := {
  rw_array : length (rlog_id r) = 256%nat;
  rw_length : 0 <= rlength r <= 256;
  rw_ids : Forall (fits 8) (root_ids r);
  rw_nodup : NoDup (root_ids r)
}.

(** At most 256 distinct 8-bit ids: a table without duplicates that misses one
    has room for it. *)
Lemma ids_bounded (l : list Z) : Forall (fits 8) l -> NoDup l -> (length l <= 256)%nat.
Proof.
  intros Hf Hd. replace 256%nat with (length (seqZ 0 256)) by done.
  apply submseteq_length, NoDup_submseteq; [done|]. intros x Hx.
  rewrite Forall_forall in Hf. apply Hf in Hx. apply elem_of_seqZ. exact Hx.
Qed.

Lemma root_has_room r id : root_wf r -> fits 8 id -> id ∉ root_ids r -> rlength r < 256.
Proof.
  intros [Ha Hl Hi Hd] Hid Hnew.
  pose proof (ids_bounded (id :: root_ids r)) as H. unfold root_ids in *.
  simpl length in H. rewrite length_take in H. enough (S (Z.to_nat (rlength r)) <= 256)%nat by lia.
  rewrite <- (Nat.min_l (Z.to_nat (rlength r)) (length (rlog_id r))) by lia.
  apply H; [by constructor|]. by constructor.
Qed.

Lemma find_loop_run n r id i s :
  0 <= i -> i + Z.of_nat n <= 256 -> length (rlog_id r) = 256%nat ->
  find_loop n r id i s = Ret (bool_decide (id ∈ take n (drop (Z.to_nat i) (rlog_id r)))) s.
Proof.
  revert i s. induction n as [|n IH]; intros i s Hi Hn Hl; simpl.
  - done.
  - unfold rd_log_id, MAX_LOGS. munfold.
    rewrite (proj2 (Z.leb_le _ _)), (proj2 (Z.ltb_lt _ _)) by lia. simpl.
    destruct (lookup_lt_is_Some_2 (rlog_id r) (Z.to_nat i)) as [v Hv]; [lia|].
    rewrite (drop_S _ _ _ Hv), firstn_cons, (nth_lookup_Some _ _ _ _ Hv).
    destruct (v =? id) eqn:E; bcases.
    + subst. rewrite bool_decide_true; [done|]. by left.
    + rewrite IH by lia. replace (Z.to_nat (i + 1)) with (S (Z.to_nat i)) by lia.
      f_equal. apply bool_decide_ext. rewrite elem_of_cons. naive_solver.
Qed.

(** The theorems on the root heap are about programs in which Close returns. *)
Class FallOffReturns {FO : FallOff} : Prop := falls_off : falls_off_returns = true.

(** Otherwise every lookup that gets the mutex is undefined. *)
Lemma isLogExist_undefined (FO : FallOff) id r :
  falls_off_returns = false -> root_wf r ->
  exists s', isLogExist id (mkRootSt (Some r) false) = Undef s'.
Proof.
  intros Hf [Ha Hl Hi Hd]. unfold isLogExist, Close. rewrite Hf. munfold. simpl.
  rewrite find_loop_run by lia. by eexists.
Qed.

Section RootTheorems.
Context {FO : FallOff} {FR : FallOffReturns}.

Lemma Close_run s : Close s = Ret tt s.
Proof. unfold Close. by rewrite falls_off. Qed.

Lemma isLogExist_run id r :
  root_wf r ->
  isLogExist id (mkRootSt (Some r) false) =
  Ret (bool_decide (id ∈ root_ids r)) (mkRootSt (Some r) false).
Proof.
  intros [Ha Hl Hi Hd]. unfold isLogExist. mstep. mstep. unfold mbind at 1, M_bind.
  rewrite find_loop_run by lia. unfold mbind at 1, M_bind. rewrite Close_run. munfold. simpl. done.
Qed.

Definition root_add (id : Z) (r : nvs_root) : nvs_root :=
  mkRoot (rlength r + 1) (<[Z.to_nat (rlength r) := id]> (rlog_id r)).

Lemma root_add_ids id r : root_wf r -> rlength r < 256 -> root_ids (root_add id r) = root_ids r ++ [id].
Proof.
  intros [Ha Hl Hi Hd] Hr. unfold root_ids, root_add. simpl.
  replace (Z.to_nat (rlength r + 1)) with (S (Z.to_nat (rlength r))) by lia.
  rewrite (take_S_r _ _ id) by (apply list_lookup_insert_eq; lia).
  by rewrite take_insert_ge by lia.
Qed.

Lemma addLog_run id r :
  root_wf r -> fits 8 id -> id ∉ root_ids r ->
  addLog id (mkRootSt (Some r) false) = Ret NO_ERROR (mkRootSt (Some (root_add id r)) false) /\
  root_wf (root_add id r) /\ root_ids (root_add id r) = root_ids r ++ [id].
Proof.
  intros Hwf Hid Hnew. pose proof (root_has_room r id Hwf Hid Hnew) as Hroom.
  pose proof (root_add_ids id r Hwf Hroom) as Hids. destruct Hwf as [Ha Hl Hi Hd].
  split_and!; [| |done].
  - unfold addLog, MAX_LOGS. mstep. mstep.
    rewrite (proj2 (Z.leb_le _ _)), (proj2 (Z.ltb_lt _ _)) by lia. simpl. munfold. simpl.
    by rewrite Close_run.
  - constructor; [simpl; len | simpl; lia | |]; rewrite Hids.
    + apply Forall_app. split; [done|]. by constructor.
    + apply NoDup_app. split_and!; [done | |apply NoDup_singleton].
      intros x Hx ->%list_elem_of_singleton. done.
Qed.

(** RootHeap keeps a set of log ids.  On a well-formed table,
    [isLogExist] answers membership; registering a new id appends it, leaves
    the others, keeps the table well formed and never writes past the 256
    slots; both release the mutex. *)
Theorem root_refines_set id r :
  root_wf r -> fits 8 id ->
  isLogExist id (mkRootSt (Some r) false) =
    Ret (bool_decide (id ∈ root_ids r)) (mkRootSt (Some r) false) /\
  (id ∉ root_ids r ->
   exists r', addLog id (mkRootSt (Some r) false) = Ret NO_ERROR (mkRootSt (Some r') false) /\
     root_wf r' /\ root_ids r' = root_ids r ++ [id]).
Proof.
  intros Hwf Hid. split; [by apply isLogExist_run|]. intros Hnew.
  exists (root_add id r). by apply addLog_run.
Qed.

End RootTheorems.

(** A compiler whose functions return when they fall off their end. *)
Definition returning : FallOff := {| falls_off_returns := true |}.
Lemma returning_returns : @FallOffReturns returning.
Proof. reflexivity. Qed.
#[local] Existing Instances returning returning_returns.

Lemma root_refines_set_witness :
  let r := mkRoot 2 (3 :: 5 :: replicate 254 0) in
  isLogExist 7 (mkRootSt (Some r) false) =
    Ret (bool_decide (7 ∈ root_ids r)) (mkRootSt (Some r) false) /\
  (7 ∉ root_ids r ->
   exists r', addLog 7 (mkRootSt (Some r) false) = Ret NO_ERROR (mkRootSt (Some r') false) /\
     root_wf r' /\ root_ids r' = root_ids r ++ [7]).
Proof.
  apply root_refines_set; [|split; [lia | reflexivity]].
  constructor; [reflexivity | simpl; lia | |].
  - repeat constructor; (discriminate || reflexivity).
  - unfold root_ids. simpl. apply (bool_decide_unpack _). vm_compute. exact I.
Defined.
