(* ===== verification/MemMan.v ===== *)
(** The memory manager, src/nvstream/src/sheap/memory_manager.cc
    ([MemoryManager::Impl_]): log ids to logs, through the root heap, the soft
    map of this process and the log files; and the race of several processes
    that create logs. *)
From S2P Require Import Prelude Mem LogFmt Log Root.
From stdpp Require Import pretty.
#[local] Open Scope Z_scope.

Definition str (s : string) : bytes := String.list_byte_of_string s.

Definition rootHeapPath : bytes := str "/dev/shm/unity_NVS_ROOT".

(** [rootHeapPath + std::to_string(id)]. *)
Definition to_string (n : Z) : bytes := str (pretty (Z.to_N n)).
Definition log_path (id : Z) : bytes := rootHeapPath ++ to_string id.

(** The state a process sees: the manager, its [Log] objects (a [Log*] is an
    index), and the machine's root heap and files. *)
Record MMSt : Type := mkMM {
  is_ready_ : bool;
  root_heap_ : RootSt;
  idToLogMap : gmap Z nat;
  log_objs : list Log;
  mm_files : files
}.

Definition set_root (r : RootSt) (s : MMSt) : MMSt :=
  mkMM (is_ready_ s) r (idToLogMap s) (log_objs s) (mm_files s).
Definition set_files (f : files) (s : MMSt) : MMSt :=
  mkMM (is_ready_ s) (root_heap_ s) (idToLogMap s) (log_objs s) f.

Definition on_root {A} (m : M RootSt A) : M MMSt A := zoom root_heap_ set_root m.
Definition on_files {A} (m : M files A) : M MMSt A := zoom mm_files set_files m.

Definition assert_ready : M MMSt unit := fun s => if is_ready_ s then Ret tt s else Exit 134 s.

(** [new Log(...)]: the object is put at a fresh address. *)
Definition new_log (l : Log) : M MMSt nat := fun s =>
  Ret (length (log_objs s))
    (mkMM (is_ready_ s) (root_heap_ s) (idToLogMap s) (log_objs s ++ [l]) (mm_files s)).

Section Impl.
Context {FO : FallOff} (os_ok : bytes -> Z -> bool).

Definition Init : M MMSt ErrorCode := fun s =>
  Ret NO_ERROR (mkMM true (root_heap_ s) (idToLogMap s) (log_objs s) (mm_files s)).
Definition Final : M MMSt ErrorCode := fun s =>
  Ret NO_ERROR (mkMM false (root_heap_ s) (idToLogMap s) (log_objs s) (mm_files s)).

(** Enter the log into the soft map unless the id is there. *)
Definition map_log (id : Z) (p : nat) : M MMSt unit := fun s =>
  match idToLogMap s !! id with
  | None => Ret tt (mkMM (is_ready_ s) (root_heap_ s) (<[id := p]> (idToLogMap s))
                      (log_objs s) (mm_files s))
  | Some _ => Ret tt s
  end.

Definition CreateLog (id size : Z) : M MMSt ErrorCode :=
  assert_ready;;
  found ← on_root (isLogExist id);
  if (found : bool) then mret ID_IN_USE else
  on_root mtx_lock;;
  l ← on_files (Log_ctor os_ok (log_path id) size id);
  p ← new_log l;
  on_root mtx_unlock;;
  map_log id p;;
  ret ← on_root (addLog id);
  mret ret.

(** FindLog(id, &log): the error code, and the pointer where one is set. *)
Definition FindLog (id : Z) : M MMSt (ErrorCode * option nat) :=
  assert_ready;;
  s ← get_st;
  match idToLogMap s !! id with
  | Some p => mret (NO_ERROR, Some p)
  | None =>
      found ← on_root (isLogExist id);
      if negb (found : bool) then mret (ID_NOT_FOUND, None) else
      l ← on_files (Log_ctor os_ok (log_path id) 0 id);
      p ← new_log l;
      mret (NO_ERROR, Some p)
  end.

(** FindLog(id): the pointer or NULL. *)
Definition FindLog_ptr (id : Z) : M MMSt (option nat) :=
  assert_ready;;
  if negb (0 <? id) then abort_ else
  '(ret, p) ← FindLog id;
  if decide (ret = NO_ERROR) then mret p else mret None.
End Impl.

(** * Log paths *)

Lemma str_inj s t : str s = str t -> s = t.
Proof.
  intros H. rewrite <- (String.string_of_list_byte_of_string s).
  rewrite <- (String.string_of_list_byte_of_string t). unfold str in H. by rewrite H.
Qed.

Lemma log_path_inj a b : 0 <= a -> 0 <= b -> log_path a = log_path b -> a = b.
Proof.
  intros Ha Hb H. unfold log_path, to_string in H. apply app_inv_head in H.
  apply str_inj in H. apply (inj pretty) in H. lia.
Qed.

(** * The invariant of the machine and of one process

    Every registered id has a file that holds a log; the soft map of the
    process points to logs of registered ids. *)
Record mm_inv (s : MMSt) : Prop := {
  mi_ready : is_ready_ s = true;
  mi_unlocked : rlocked (root_heap_ s) = false;
  mi_root : exists r, rfile (root_heap_ s) = Some r /\ root_wf r /\
      (forall id, id ∈ root_ids r ->
         exists f es, mm_files s !! log_path id = Some f /\ 33 <= fsize f /\
                      log_repr (fsize f) (pview (fpm f)) es) /\
      (forall id p, idToLogMap s !! id = Some p -> id ∈ root_ids r)
}.

Definition registered (s : MMSt) (id : Z) : Prop :=
  exists r, rfile (root_heap_ s) = Some r /\ id ∈ root_ids r.

(** * Lemmas *)

Lemma on_root_Ret {A} (m : M RootSt A) s a r :
  m (root_heap_ s) = Ret a r -> on_root m s = Ret a (set_root r s).
Proof. intros H. unfold on_root, zoom. by rewrite H. Qed.

Lemma on_files_Ret {A} (m : M files A) s a f :
  m (mm_files s) = Ret a f -> on_files m s = Ret a (set_files f s).
Proof. intros H. unfold on_files, zoom. by rewrite H. Qed.

Lemma on_files_Exit {A} (m : M files A) s c f :
  m (mm_files s) = Exit c f -> on_files m s = Exit c (set_files f s).
Proof. intros H. unfold on_files, zoom. by rewrite H. Qed.

(** A state with an unlocked root table [r]. *)
Definition with_root (r : nvs_root) (im : gmap Z nat) (lo : list Log) (fs : files) : MMSt :=
  mkMM true (mkRootSt (Some r) false) im lo fs.

Lemma mm_inv_shape s : mm_inv s -> exists r im lo fs, s = with_root r im lo fs /\ root_wf r.
Proof.
  intros [H1 H2 (r & H3 & Hr & _)]. destruct s as [b [rf lk] im lo fs]; simpl in *. subst.
  by exists r, im, lo, fs.
Qed.

Section CreateFind.
Context {FO : FallOff} {FR : FallOffReturns} (os_ok : bytes -> Z -> bool).

Lemma isLogExist_on r im lo fs id :
  root_wf r ->
  on_root (isLogExist id) (with_root r im lo fs) =
  Ret (bool_decide (id ∈ root_ids r)) (with_root r im lo fs).
Proof.
  intros Hr. erewrite on_root_Ret by (simpl; by apply isLogExist_run). done.
Qed.

Lemma CreateLog_in_use r im lo fs id size :
  root_wf r -> id ∈ root_ids r ->
  CreateLog os_ok id size (with_root r im lo fs) = Ret ID_IN_USE (with_root r im lo fs).
Proof.
  intros Hr Hin. unfold CreateLog. mstep.
  erewrite bind_Ret by by apply isLogExist_on. by rewrite bool_decide_true.
Qed.

Lemma CreateLog_stale r im lo (fs : files) id size f :
  root_wf r -> id ∉ root_ids r -> fs !! log_path id = Some f -> size <> 0 ->
  CreateLog os_ok id size (with_root r im lo fs) =
  Exit 1 (mkMM true (mkRootSt (Some r) true) im lo fs).
Proof.
  intros Hr Hin Hf Hsz. unfold CreateLog. mstep.
  erewrite bind_Ret by by apply isLogExist_on. rewrite bool_decide_false by done.
  mstep. erewrite bind_Exit; [|apply on_files_Exit; simpl; by eapply Log_ctor_exists_aux]. done.
Qed.

(** Creating a log under a free id and path. *)
Lemma CreateLog_fresh r im lo (fs : files) id size :
  root_wf r -> fits 8 id -> id ∉ root_ids r -> im !! id = None ->
  fs !! log_path id = None -> os_ok (log_path id) size = true -> 33 <= size < 2 ^ 63 ->
  exists l f, CreateLog os_ok id size (with_root r im lo fs) =
    Ret NO_ERROR (with_root (root_add id r) (<[id := length lo]> im) (lo ++ [l])
                    (<[log_path id := f]> fs)) /\
    fsize f = size /\ log_inv (mkLogSt l (fpm f)) [] /\ mapped_len l = fsize f.
Proof.
  intros Hr Hid Hin Him Hf Hos Hsz.
  destruct (Log_ctor_new_aux os_ok (log_path id) size id fs Hf Hos Hsz)
    as (l & f & Hl & Hsize & [Hinv _] & _ & _ & Hml).
  exists l, f. split; [|by rewrite Hsize]. unfold CreateLog. mstep.
  erewrite bind_Ret by by apply isLogExist_on. rewrite bool_decide_false by done.
  mstep. erewrite bind_Ret; [|apply on_files_Ret; simpl; exact Hl]. mstep. mstep.
  erewrite bind_Ret; [|unfold map_log; simpl; rewrite Him; reflexivity].
  destruct (addLog_run id r Hr Hid Hin) as [Ha _].
  erewrite bind_Ret; [|apply on_root_Ret; simpl; exact Ha]. done.
Qed.

(** The machine stays consistent when a new log file is registered. *)
Lemma mm_inv_add r im lo (fs : files) id l f :
  mm_inv (with_root r im lo fs) -> root_wf r -> fits 8 id -> id ∉ root_ids r ->
  fs !! log_path id = None -> 33 <= fsize f -> log_inv (mkLogSt l (fpm f)) [] ->
  mapped_len l = fsize f ->
  mm_inv (with_root (root_add id r) (<[id := length lo]> im) (lo ++ [l]) (<[log_path id := f]> fs)).
Proof.
  intros [_ _ (r' & Hr' & _ & Hfiles & Hmap)] Hr Hid Hnew Hnone Hsz Hl Hml.
  injection Hr' as <-. simpl in *. destruct (addLog_run id r Hr Hid Hnew) as (_ & Hwf' & Hids').
  constructor; [done | done|]. exists (root_add id r). split_and!; [done | done | |]; simpl.
  - intros j. rewrite Hids', elem_of_app, list_elem_of_singleton. intros [Hj | ->].
    + destruct (decide (log_path j = log_path id)) as [Heq|Hne].
      { destruct (Hfiles j Hj) as (f' & es & Hf' & _). congruence. }
      rewrite lookup_insert_ne by done. by apply Hfiles.
    + rewrite lookup_insert_eq. exists f, []. split; [done|]. split; [lia|].
      rewrite <- Hml. exact (li_repr _ _ Hl).
  - intros j p. rewrite Hids', elem_of_app, list_elem_of_singleton.
    destruct (decide (id = j)) as [->|Hne]; [auto|].
    rewrite lookup_insert_ne by done. intros Hp%Hmap. auto.
Qed.

Lemma FindLog_mapped r (im : gmap Z nat) lo fs id p :
  im !! id = Some p ->
  FindLog os_ok id (with_root r im lo fs) = Ret (NO_ERROR, Some p) (with_root r im lo fs).
Proof. intros Hp. unfold FindLog. mstep. mstep. simpl. by rewrite Hp. Qed.

Lemma FindLog_opens r (im : gmap Z nat) lo fs id f es :
  root_wf r -> im !! id = None -> id ∈ root_ids r -> os_ok (log_path id) 0 = true ->
  fs !! log_path id = Some f -> 33 <= fsize f -> log_repr (fsize f) (pview (fpm f)) es ->
  exists l, log_inv (mkLogSt l (fpm f)) es /\
    FindLog os_ok id (with_root r im lo fs) =
    Ret (NO_ERROR, Some (length lo)) (with_root r im (lo ++ [l]) fs).
Proof.
  intros Hr Hnone Hin Hos Hf Hsz Hrep.
  destruct (Log_ctor_open_aux os_ok (log_path id) id fs f es Hf Hos Hsz Hrep) as (l & Hl & Hi & _).
  exists l. split; [done|]. unfold FindLog. mstep. mstep. simpl. rewrite Hnone.
  erewrite bind_Ret by by apply isLogExist_on. rewrite bool_decide_true by done. simpl.
  erewrite bind_Ret; [|apply on_files_Ret; simpl; exact Hl]. done.
Qed.

Lemma FindLog_absent r (im : gmap Z nat) lo fs id :
  root_wf r -> im !! id = None -> id ∉ root_ids r ->
  FindLog os_ok id (with_root r im lo fs) = Ret (ID_NOT_FOUND, None) (with_root r im lo fs).
Proof.
  intros Hr Hnone Hin. unfold FindLog. mstep. mstep. simpl. rewrite Hnone.
  erewrite bind_Ret by by apply isLogExist_on. by rewrite bool_decide_false.
Qed.

(** CreateLog, every branch.  On a consistent machine: a registered id is
    refused with ID_IN_USE and nothing changes; a free id whose path has no
    file gets a new, empty log, registered and entered in the soft map, and
    the machine stays consistent; a free id with a leftover file ends the
    process with the root mutex still locked. *)
Theorem CreateLog_spec s id size :
  mm_inv s -> fits 8 id -> 33 <= size < 2 ^ 63 -> os_ok (log_path id) size = true ->
  (registered s id -> CreateLog os_ok id size s = Ret ID_IN_USE s) /\
  (~ registered s id -> mm_files s !! log_path id = None ->
   exists s' p l f, CreateLog os_ok id size s = Ret NO_ERROR s' /\ mm_inv s' /\
     registered s' id /\ (forall j, registered s j -> registered s' j) /\
     idToLogMap s' !! id = Some p /\ log_objs s' !! p = Some l /\
     mm_files s' !! log_path id = Some f /\ log_inv (mkLogSt l (fpm f)) []) /\
  (~ registered s id -> is_Some (mm_files s !! log_path id) ->
   exists s', CreateLog os_ok id size s = Exit 1 s' /\ rlocked (root_heap_ s') = true).
Proof.
  intros Hinv Hid Hsz Hos. pose proof (mm_inv_shape s Hinv) as (r & im & lo & fs & -> & Hr).
  pose proof Hinv as [_ _ (r' & Hr' & _ & _ & Hmap)]. injection Hr' as <-. simpl in *.
  assert (forall j, registered (with_root r im lo fs) j <-> j ∈ root_ids r) as Hreg.
  { intros j. split; [intros (? & [= <-] & ?); done | by exists r]. }
  rewrite Hreg. split_and!.
  - by apply CreateLog_in_use.
  - intros Hnew Hnone.
    assert (im !! id = None) as Him.
    { destruct (im !! id) eqn:E; [|done]. by apply Hmap in E. }
    destruct (CreateLog_fresh r im lo fs id size) as (l & f & Hc & Hsize & Hl & Hml); try done.
    destruct (addLog_run id r Hr Hid Hnew) as (_ & Hwf' & Hids').
    exists (with_root (root_add id r) (<[id := length lo]> im) (lo ++ [l])
              (<[log_path id := f]> fs)), (length lo), l, f.
    split; [done|]. split; [apply mm_inv_add; (done || lia) | split_and!].
    + exists (root_add id r). split; [done|]. rewrite Hids'. set_solver.
    + intros j Hj%Hreg. exists (root_add id r). split; [done|]. rewrite Hids'. set_solver.
    + simpl. apply lookup_insert_eq.
    + simpl. by rewrite lookup_app_r, Nat.sub_diag by lia.
    + simpl. apply lookup_insert_eq.
    + done.
  - intros Hnew [f Hf]. eexists. split; [eapply CreateLog_stale; (done || lia)|]. done.
Qed.
End CreateFind.

Section Find.
Context {FO : FallOff} {FR : FallOffReturns} (os_ok : bytes -> Z -> bool).

(** FindLog, every branch.  An id of the soft map gives its log; a
    registered id that is not in the map opens the file and finds the entries
    it holds, in a new [Log] object that is not entered in the map; an id
    that is not registered gives ID_NOT_FOUND.  Files and root do not change. *)
Theorem FindLog_spec s id :
  mm_inv s -> fits 8 id -> os_ok (log_path id) 0 = true ->
  (forall p, idToLogMap s !! id = Some p ->
     FindLog os_ok id s = Ret (NO_ERROR, Some p) s) /\
  (idToLogMap s !! id = None -> registered s id ->
   (forall f es, mm_files s !! log_path id = Some f ->
     33 <= fsize f -> log_repr (fsize f) (pview (fpm f)) es ->
     exists l, log_inv (mkLogSt l (fpm f)) es /\
       FindLog os_ok id s =
       Ret (NO_ERROR, Some (length (log_objs s)))
         (mkMM true (root_heap_ s) (idToLogMap s) (log_objs s ++ [l]) (mm_files s)))) /\
  (idToLogMap s !! id = None -> ~ registered s id ->
   FindLog os_ok id s = Ret (ID_NOT_FOUND, None) s).
Proof.
  intros Hinv Hid Hos. pose proof (mm_inv_shape s Hinv) as (r & im & lo & fs & -> & Hr).
  assert (registered (with_root r im lo fs) id <-> id ∈ root_ids r) as Hreg.
  { split; [intros (? & [= <-] & ?); done | by exists r]. }
  rewrite Hreg. split_and!.
  - intros p Hp. by apply FindLog_mapped.
  - intros Hnone Hin f es Hf Hsz Hrep. by apply FindLog_opens.
  - intros Hnone Hin. by apply FindLog_absent.
Qed.
End Find.

(** * Several processes creating logs

    CreateLog takes the root mutex three times: to look the id up, to make the
    file, and to register.  Other processes run between these.  A process is at
    one of the points below; the root table and the files are shared. *)
Inductive pc : Type :=
  | Idle
  | Checked (id : Z)    (* isLogExist returned false *)
  | Created (id : Z)    (* the log file was made *)
  | Returned (e : ErrorCode)
  | Dead                (* the process ended *)
  | Crashed.            (* its behaviour is undefined *)

(** The machine; [smade] lists the ids whose log file was made, in order. *)
Record sys : Type := mkSys { procs : gmap nat pc; sroot : RootSt; sfiles : files; smade : list Z }.

Definition shared : Type := RootSt * files.
Definition on_sroot {A} (m : M RootSt A) : M shared A := zoom fst (fun r s => (r, s.2)) m.
Definition on_sfiles {A} (m : M files A) : M shared A := zoom snd (fun f s => (s.1, f)) m.

Section Race.
Context {FO : FallOff} (os_ok : bytes -> Z -> bool) (size : Z).

(** What CreateLog does to the shared state from one point to the next; [id]
    is the argument of a call that starts. *)
Definition piece (c : pc) (id : Z) : M shared pc :=
  match c with
  | Idle => found ← on_sroot (isLogExist id); mret (if (found : bool) then Returned ID_IN_USE else Checked id)
  | Checked id =>
      on_sroot mtx_lock;;
      on_sfiles (Log_ctor os_ok (log_path id) size id);;
      on_sroot mtx_unlock;;
      mret (Created id)
  | Created id => e ← on_sroot (addLog id); mret (Returned e)
  | Returned _ => mret Idle
  | Dead => mret Dead
  | Crashed => mret Crashed
  end.

Definition made (c : pc) (l : list Z) : list Z := match c with Created id => l ++ [id] | _ => l end.

(** A process takes a piece, ends in it or meets undefined behaviour in it; one
    that waits for the mutex takes no step. *)
Inductive step : sys -> sys -> Prop :=
  | step_run P R F G p c id c' R' F' :
      P !! p = Some c -> fits 8 id -> piece c id (R, F) = Ret c' (R', F') ->
      step (mkSys P R F G) (mkSys (<[p := c']> P) R' F' (made c' G))
  | step_exit P R F G p c id k R' F' :
      P !! p = Some c -> fits 8 id -> piece c id (R, F) = Exit k (R', F') ->
      step (mkSys P R F G) (mkSys (<[p := Dead]> P) R' F' G)
  | step_undefined P R F G p c id R' F' :
      P !! p = Some c -> fits 8 id -> piece c id (R, F) = Undef (R', F') ->
      step (mkSys P R F G) (mkSys (<[p := Crashed]> P) R' F' G).

(** ** The pieces are CreateLog *)

(** The pieces of a call, one after the other. *)
Definition pieces_of (id : Z) : M shared ErrorCode :=
  c ← piece Idle id;
  match c with
  | Checked _ =>
      c ← piece c id;
      c ← piece c id;
      mret (match c with Returned e => e | _ => NO_ERROR end)
  | Returned e => mret e
  | _ => mret NO_ERROR
  end.

(** What an outcome of the manager leaves to the other processes. *)
Definition shared_of {A} (o : outcome MMSt A) : outcome shared A :=
  let sh s := (root_heap_ s, mm_files s) in
  match o with
  | Ret a s => Ret a (sh s)
  | Exit c s => Exit c (sh s)
  | Undef s => Undef (sh s)
  | Diverge s => Diverge (sh s)
  end.

(** A call of CreateLog that is not interrupted does to the table, the mutex
    and the files what its pieces do, and returns the same. *)
Theorem CreateLog_pieces id (s : MMSt) :
  is_ready_ s = true ->
  shared_of (CreateLog os_ok id size s) = pieces_of id (root_heap_ s, mm_files s).
Proof.
  intros Hr. unfold CreateLog, pieces_of, assert_ready, on_root, on_files, new_log, map_log, piece,
    on_sroot, on_sfiles, zoom. munfold. rewrite Hr. simpl.
  destruct (isLogExist id (root_heap_ s)) as [[] R| | |]; simpl; try done.
  destruct (mtx_lock R) as [[] R1| | |]; simpl; try done.
  destruct (Log_ctor os_ok (log_path id) size id (mm_files s)) as [l F| | |]; simpl; try done.
  destruct (idToLogMap s !! id); simpl; by destruct (addLog id _).
Qed.

(** ** The invariant *)

(** The table has no duplicates; registered ids, ids about to be registered and
    ids whose file was made have files; no two processes are about to register
    the same id, nor an id of the table; no file was made twice; nothing
    undefined has happened. *)
Record race_inv (s : sys) : Prop := {
  ri_root : exists r, rfile (sroot s) = Some r /\ root_wf r /\
    (forall id, id ∈ root_ids r -> is_Some (sfiles s !! log_path id)) /\
    (forall p id, procs s !! p = Some (Created id) ->
       fits 8 id /\ (id ∉ root_ids r) /\ is_Some (sfiles s !! log_path id));
  ri_checked : forall p id, procs s !! p = Some (Checked id) -> fits 8 id;
  ri_distinct : forall p q id, procs s !! p = Some (Created id) ->
    procs s !! q = Some (Created id) -> p = q;
  ri_made : NoDup (smade s) /\ forall id, id ∈ smade s -> is_Some (sfiles s !! log_path id);
  ri_defined : forall p, procs s !! p <> Some Crashed
}.

(** What a construction with a non-zero length does to the files. *)
Definition final_files {A} (o : outcome files A) : files :=
  match o with Ret _ f | Exit _ f | Undef f | Diverge f => f end.

Lemma Log_ctor_files (path : bytes) (id : Z) (F : files) q :
  is_Some (F !! q) -> is_Some (final_files (Log_ctor os_ok path size id F) !! q).
Proof.
  intros Hq. unfold Log_ctor, pmem_map_file. munfold.
  repeat (case_match; simplify_eq; try done; simpl in *); unfold on_file in *;
    repeat (case_match; simplify_eq; try done; simpl in *);
    repeat (destruct (decide (path = q)) as [->|]; simplify_map_eq; try done).
Qed.

Context {FR : FallOffReturns} (Hsize : 33 <= size < 2 ^ 63).

(** A construction makes the file, or ends the process. *)
Lemma Log_ctor_outcome (path : bytes) (id : Z) (F : files) :
  (exists l F', Log_ctor os_ok path size id F = Ret l F' /\ F !! path = None /\ is_Some (F' !! path)) \/
  (exists F', Log_ctor os_ok path size id F = Exit 1 F').
Proof using Hsize.
  destruct (F !! path) as [f|] eqn:E.
  { right. exists F. apply (Log_ctor_exists_aux os_ok path size id F f E). lia. }
  destruct (os_ok path size) eqn:Ho.
  - left. destruct (Log_ctor_new_aux os_ok path size id F E Ho Hsize) as (l & f & Hl & _).
    eexists l, _. split; [exact Hl|]. split; [done|]. by rewrite lookup_insert_eq.
  - right. exists F. unfold Log_ctor, pmem_map_file. munfold.
    rewrite (proj2 (Z.leb_gt _ _)), (proj2 (Z.eqb_neq _ _)) by lia. simpl. by rewrite E, Ho.
Qed.

Lemma isLogExist_out id R r :
  rfile R = Some r -> root_wf r ->
  isLogExist id R = Diverge R \/ isLogExist id R = Ret (bool_decide (id ∈ root_ids r)) R.
Proof.
  intros Hr Hwf. destruct R as [rf [|]]; simpl in Hr; subst; [by left|]. right. by rewrite isLogExist_run.
Qed.

Lemma addLog_out id R r :
  rfile R = Some r -> root_wf r -> fits 8 id -> id ∉ root_ids r ->
  addLog id R = Diverge R \/ addLog id R = Ret NO_ERROR (mkRootSt (Some (root_add id r)) false).
Proof.
  intros Hr Hwf Hid Hnew. destruct R as [rf [|]]; simpl in Hr; subst; [by left|]. right.
  by destruct (addLog_run id r Hwf Hid Hnew) as [-> _].
Qed.

(** Moving one process to a point that is not [Created]. *)
Lemma race_inv_move P R F G p c :
  race_inv (mkSys P R F G) -> (forall id, c <> Created id) -> (forall id, c = Checked id -> fits 8 id) ->
  c <> Crashed -> forall R', rfile R' = rfile R -> race_inv (mkSys (<[p := c]> P) R' F G).
Proof.
  intros [(r & Hr & Hwf & Hf & Hc) Hk Hd Hm Hu] Hnc Hfit Hcr R' HR'. simpl in *. constructor; simpl.
  - exists r. rewrite HR'. split_and!; [done | done | done|]. intros q id.
    destruct (decide (p = q)) as [<-|]; simplify_map_eq; [naive_solver | eauto].
  - intros q id. destruct (decide (p = q)) as [<-|]; simplify_map_eq; [naive_solver | eauto].
  - intros q q' id. destruct (decide (p = q)) as [<-|], (decide (p = q')) as [<-|];
      simplify_map_eq; naive_solver.
  - done.
  - intros q. destruct (decide (p = q)) as [<-|]; simplify_map_eq; [naive_solver | eauto].
Qed.

Lemma race_inv_files P R F F' G :
  (forall q, is_Some (F !! q) -> is_Some (F' !! q)) ->
  race_inv (mkSys P R F G) -> race_inv (mkSys P R F' G).
Proof.
  intros HF [(r & Hr & Hwf & Hf & Hc) Hk Hd [Hm1 Hm2] Hu]. simpl in *.
  constructor; [|done|done|split; [done|]; intros id Hid; by apply HF, Hm2|done].
  exists r. split_and!; [done | done | by intros id Hid; apply HF, Hf|].
  intros p id Hp. destruct (Hc p id Hp) as (H1 & H2 & H3). auto.
Qed.

(** A process makes the file of an id. *)
Lemma race_inv_create P R F G p id R' F' :
  race_inv (mkSys P R F G) -> P !! p = Some (Checked id) -> rfile R' = rfile R ->
  F !! log_path id = None -> is_Some (F' !! log_path id) ->
  (forall q, is_Some (F !! q) -> is_Some (F' !! q)) ->
  race_inv (mkSys (<[p := Created id]> P) R' F' (G ++ [id])).
Proof.
  intros [(r & Hr & Hwf & Hf & Hc) Hk Hd [Hm1 Hm2] Hu] HP HR Hnone Hsome Hmono. simpl in *.
  constructor; simpl.
  - exists r. rewrite HR. split_and!; [done | done | by intros j Hj; apply Hmono, Hf|].
    intros q j. destruct (decide (p = q)) as [<-|]; simplify_map_eq.
    2: { intros Hq. destruct (Hc q j Hq) as (H1 & H2 & H3). auto. }
    intros [= <-]. split_and!; [by eapply Hk | | done]. intros [? Hx]%Hf. congruence.
  - intros q j. destruct (decide (p = q)) as [<-|]; simplify_map_eq; [done | eauto].
  - intros q q' j. destruct (decide (p = q)) as [<-|], (decide (p = q')) as [<-|];
      simplify_map_eq; try done; [| |by eauto].
    + intros [= <-] Hq'. destruct (Hc _ _ Hq') as (_ & _ & [? Hx]). congruence.
    + intros Hq [= <-]. destruct (Hc _ _ Hq) as (_ & _ & [? Hx]). congruence.
  - split.
    + apply NoDup_app. split_and!; [done | | apply NoDup_singleton].
      intros j Hj ->%list_elem_of_singleton. destruct (Hm2 _ Hj) as [? Hx]. congruence.
    + intros j [Hj| ->%list_elem_of_singleton]%elem_of_app; [by apply Hmono, Hm2 | done].
  - intros q. destruct (decide (p = q)) as [<-|]; simplify_map_eq; eauto.
Qed.

(** A process registers its id. *)
Lemma race_inv_register P R F G p id r :
  race_inv (mkSys P R F G) -> P !! p = Some (Created id) -> rfile R = Some r -> root_wf r ->
  fits 8 id -> id ∉ root_ids r ->
  race_inv (mkSys (<[p := Returned NO_ERROR]> P) (mkRootSt (Some (root_add id r)) false) F G).
Proof.
  intros [(r' & Hr' & _ & Hf & Hc) Hk Hd Hm Hu] HP Hr Hwf Hid Hnew. simpl in *.
  assert (r' = r) as -> by congruence.
  destruct (addLog_run id r Hwf Hid Hnew) as (_ & Hwf' & Hids').
  destruct (Hc p id HP) as (_ & _ & Hfile). constructor; simpl.
  - exists (root_add id r). rewrite Hids'. split_and!; [done | done | |].
    + intros j [Hj| ->%list_elem_of_singleton]%elem_of_app; eauto.
    + intros q j. destruct (decide (p = q)) as [<-|]; simplify_map_eq; [done|].
      intros Hq. destruct (Hc _ _ Hq) as (H1 & H2 & H3). split_and!; [done| |done].
      rewrite elem_of_app, list_elem_of_singleton. intros [?| ->]; [done|].
      by destruct (Hd p q id).
  - intros q j. destruct (decide (p = q)) as [<-|]; simplify_map_eq; [done | eauto].
  - intros q q' j. destruct (decide (p = q)) as [<-|], (decide (p = q')) as [<-|];
      simplify_map_eq; try done; eauto.
  - done.
  - intros q. destruct (decide (p = q)) as [<-|]; simplify_map_eq; eauto.
Qed.

(** What the pieces do in a state of the invariant: nothing undefined. *)
Lemma piece_inv P R F G p c id :
  race_inv (mkSys P R F G) -> P !! p = Some c -> fits 8 id ->
  match piece c id (R, F) with
  | Ret c' (R', F') => race_inv (mkSys (<[p := c']> P) R' F' (made c' G))
  | Exit _ (R', F') => race_inv (mkSys (<[p := Dead]> P) R' F' G)
  | Undef _ => False
  | Diverge _ => True
  end.
Proof using FR Hsize.
  intros Hinv HP Hid. pose proof (ri_root _ Hinv) as (r & Hr & Hwf & Hf & Hc). simpl in Hr, Hf, Hc.
  destruct c as [|id'|id'|e| |]; cbn [piece]; unfold on_sroot, on_sfiles, zoom; munfold; cbn [fst snd].
  - destruct (isLogExist_out id R r Hr Hwf) as [-> | ->]; [done|].
    destruct (bool_decide _); simpl; eapply race_inv_move; naive_solver.
  - unfold mtx_lock. destruct (rlocked R) eqn:Hlk; [done|]. simpl.
    pose proof (Log_ctor_files (log_path id') id' F) as Hmono.
    destruct (Log_ctor_outcome (log_path id') id' F) as [(l & F' & E & Hnone & Hsome)|(F' & E)]; rewrite E in *; simpl in *.
    + by eapply race_inv_create.
    + apply (race_inv_files _ _ F); [done|]. eapply race_inv_move; naive_solver.
  - destruct (Hc p id' HP) as (Hid' & Hnew & Hfile).
    destruct (addLog_out id' R r Hr Hwf Hid' Hnew) as [-> | ->]; [done|]. simpl.
    by eapply race_inv_register.
  - eapply race_inv_move; naive_solver.
  - eapply race_inv_move; naive_solver.
  - by destruct (ri_defined _ Hinv p).
Qed.

Lemma step_inv s s' : race_inv s -> step s s' -> race_inv s'.
Proof using FR Hsize.
  intros Hinv Hstep.
  destruct Hstep as [P R F G p c id c' R' F' HP Hid He | P R F G p c id k R' F' HP Hid He
    | P R F G p c id R' F' HP Hid He]; pose proof (piece_inv P R F G p c id Hinv HP Hid) as H;
    by rewrite He in H.
Qed.

End Race.

(** * The theorems at concrete inputs *)

#[local] Existing Instances returning returning_returns.

Definition root0 : nvs_root := mkRoot 0 (replicate 256 0).
Definition root1 : nvs_root := mkRoot 1 (1 :: replicate 255 0).

Lemma root0_wf : root_wf root0.
Proof. constructor; [done | simpl; lia | constructor | constructor]. Qed.

Lemma root1_wf : root_wf root1.
Proof.
  constructor; [done | simpl; lia | |]; unfold root_ids; simpl.
  - repeat constructor; (discriminate || reflexivity).
  - apply NoDup_singleton.
Qed.

(** A machine with an empty root; a machine with log 1, holding one entry. *)
Definition machine0 : MMSt := with_root root0 ∅ [] ∅.
Definition machine1 : MMSt := with_root root1 ∅ [] {[log_path 1 := mkFile 1000 (lpm demo_log1)]}.

Lemma machine0_inv : mm_inv machine0.
Proof.
  constructor; [done | done|]. exists root0. split_and!; [done | apply root0_wf | |].
  - intros id H. by apply not_elem_of_nil in H.
  - intros id p H. simpl in H. by rewrite lookup_empty in H.
Qed.

Lemma machine1_inv : mm_inv machine1.
Proof.
  constructor; [done | done|]. exists root1. split_and!; [done | apply root1_wf | |].
  - intros id H. unfold root_ids in H. simpl in H. apply list_elem_of_singleton in H as ->.
    exists (mkFile 1000 (lpm demo_log1)), [demo_entry]. split_and!; [done | simpl; lia|].
    exact (li_repr _ _ demo_log1_inv).
  - intros id p H. simpl in H. by rewrite lookup_empty in H.
Qed.

Lemma CreateLog_spec_witness :
  exists s' p l f, CreateLog (fun _ _ => true) 1 1000 machine0 = Ret NO_ERROR s' /\ mm_inv s' /\
    registered s' 1 /\ (forall j, registered machine0 j -> registered s' j) /\
    idToLogMap s' !! 1 = Some p /\ log_objs s' !! p = Some l /\
    mm_files s' !! log_path 1 = Some f /\ log_inv (mkLogSt l (fpm f)) [].
Proof.
  apply (CreateLog_spec (fun _ _ => true) machine0 1 1000).
  - exact machine0_inv.
  - split; [lia | reflexivity].
  - lia.
  - reflexivity.
  - intros (r & [= <-] & H). by apply not_elem_of_nil in H.
  - reflexivity.
Defined.

Lemma FindLog_spec_witness :
  exists l, log_inv (mkLogSt l (lpm demo_log1)) [demo_entry] /\
    FindLog (fun _ _ => true) 1 machine1 =
    Ret (NO_ERROR, Some (length (log_objs machine1)))
      (mkMM true (root_heap_ machine1) (idToLogMap machine1) (log_objs machine1 ++ [l])
         (mm_files machine1)).
Proof.
  refine (proj1 (proj2 (FindLog_spec (fun _ _ => true) machine1 1 machine1_inv _ _)) _ _
    (mkFile 1000 (lpm demo_log1)) [demo_entry] _ _ _).
  - split; [lia | reflexivity].
  - reflexivity.
  - reflexivity.
  - exists root1. split; [reflexivity|]. apply list_elem_of_singleton. reflexivity.
  - reflexivity.
  - simpl. lia.
  - exact (li_repr _ _ demo_log1_inv).
Defined.

(** Two processes race for id 1: both look it up, the first makes the file. *)
Definition race0 : sys := mkSys {[0%nat := Idle; 1%nat := Idle]} (mkRootSt (Some root0) false) ∅ [].
Definition race1 : sys :=
  mkSys {[0%nat := Checked 1; 1%nat := Idle]} (mkRootSt (Some root0) false) ∅ [].
Definition race2 : sys :=
  mkSys {[0%nat := Checked 1; 1%nat := Checked 1]} (mkRootSt (Some root0) false) ∅ [].
Definition race3 : sys :=
  mkSys {[0%nat := Created 1; 1%nat := Checked 1]} (mkRootSt (Some root0) false)
    (final_files (Log_ctor (fun _ _ => true) (log_path 1) 1000 1 ∅)) [1].

Lemma race0_inv : race_inv race0.
Proof.
  assert (forall q c, procs race0 !! q = Some c -> c = Idle) as Hidle.
  { intros q c. simpl. rewrite lookup_insert, lookup_singleton. by repeat case_decide; intros [= <-]. }
  constructor.
  - exists root0. split_and!; [done | apply root0_wf | |].
    + intros id H. by apply not_elem_of_nil in H.
    + intros p id H. by apply Hidle in H.
  - intros p id H. by apply Hidle in H.
  - intros p q id H. by apply Hidle in H.
  - split; [constructor|]. intros id H. by apply not_elem_of_nil in H.
  - intros p H. by apply Hidle in H.
Qed.

Lemma race3_run : rtc (step (fun _ _ => true) 1000) race0 race3.
Proof.
  apply (rtc_l _ _ race1); [|apply (rtc_l _ _ race2); [|apply rtc_once]].
  - exact (step_run _ _ (procs race0) (sroot race0) (sfiles race0) [] 0%nat Idle 1 (Checked 1)
      (sroot race0) ∅ eq_refl (u8_fits 1) eq_refl).
  - exact (step_run _ _ (procs race1) (sroot race1) (sfiles race1) [] 1%nat Idle 1 (Checked 1)
      (sroot race1) ∅ eq_refl (u8_fits 1) eq_refl).
  - exact (step_run (fun _ _ => true) 1000 (procs race2) (sroot race2) (sfiles race2) [] 0%nat (Checked 1) 1 (Created 1)
      (sroot race2) (sfiles race3) eq_refl (u8_fits 1) eq_refl).
Qed.

