(* ===== verification/Object.v ===== *)
(** Objects of the key-value store, src/nvstream/src/kvstore/object.h and
    object.cc: the metadata of a volatile buffer, with the bit vector of
    modified pages and its run-length view used by the delta store. *)
From S2P Require Import Prelude Mem.

Definition PAGE_SIZE : Z := 4096.

Record delta_t : Type := mkDelta { d_start : Z; d_len : Z }.

(** [delta_t::operator<]. *)
Definition delta_lt (a b : delta_t) : bool := d_len a <? d_len b.

Record Object : Type := mkObject {
  o_name : bytes;
  o_size : Z;
  o_version : Z;
  o_ptr : Z;
  o_bitset : list bool;
  o_aligned_size : Z
}.

(** [(size + PAGE_SIZE-1) & ~(PAGE_SIZE-1)] in [uint64_t]. *)
Definition page_align (size : Z) : Z := Z.land (u64 (size + (PAGE_SIZE - 1))) (u64 (Z.lnot (PAGE_SIZE - 1))).

(** Object::Object; [delta_build] is the _DELTA_STORE configuration. *)
Definition new_Object (delta_build : bool) (name : bytes) (size version ptr : Z) : Object :=
  if delta_build then
    let a := page_align size in
    mkObject name size version ptr (replicate (Z.to_nat (a / PAGE_SIZE)) true) a
  else mkObject name size version ptr [] 0.

Definition setVersion (v : Z) (o : Object) : Object :=
  mkObject (o_name o) (o_size o) v (o_ptr o) (o_bitset o) (o_aligned_size o).

Definition set_bitset (b : list bool) (o : Object) : Object :=
  mkObject (o_name o) (o_size o) (o_version o) (o_ptr o) b (o_aligned_size o).

(** Object::set_modified_bit. *)
Definition set_modified_bit (page_index : Z) (o : Object) : Object :=
  if (0 <? page_index) && (page_index <? Z.of_nat (length (o_bitset o)))
  then set_bitset (<[Z.to_nat page_index := true]> (o_bitset o)) o
  else o.

(** Object::reset_bit_vector. *)
Definition reset_bit_vector (o : Object) : Object :=
  set_bitset ((fun _ => false) <$> o_bitset o) o.

(** * Object::get_delta_chunks *)

(** The loop state: inside a written region, its first page and page count, and
    the vector so far.  [start_offset] and [len] start indeterminate. *)
Record gdc : Type := mkGdc { g_status : bool; g_start : Z; g_len : Z; g_out : list delta_t }.

Definition gdc_step (bits : list bool) (size : Z) (g : gdc) (i : nat) : gdc :=
  let b := nth i bits false in
  let g :=
    if b then
      if negb (g_status g) then mkGdc true (Z.of_nat i) 1 (g_out g)
      else mkGdc (g_status g) (g_start g) (u64 (g_len g + 1)) (g_out g)
    else g in
  if negb b || (i =? length bits - 1)%nat then
    if g_status g then
      let start := u64 (g_start g * PAGE_SIZE) in
      let len := if negb b then u64 (g_len g * PAGE_SIZE) else u64 (size - start) in
      mkGdc false (g_start g) (g_len g) (g_out g ++ [mkDelta start len])
    else g
  else g.

Definition get_delta_chunks (start0 len0 : Z) (o : Object) : list delta_t :=
  g_out (foldl (gdc_step (o_bitset o) (o_size o)) (mkGdc false start0 len0 [])
           (seq 0 (length (o_bitset o)))).

(** * Well-formed objects of the delta build *)

Record delta_obj_wf (o : Object) : Prop := {
  dw_size : 0 <= o_size o < 2 ^ 62;
  dw_pages : Z.of_nat (length (o_bitset o)) * PAGE_SIZE = o_aligned_size o;
  dw_aligned : o_size o <= o_aligned_size o < o_size o + PAGE_SIZE
}.

Lemma page_align_spec size :
  0 <= size < 2 ^ 62 ->
  page_align size = (size + 4095) / 4096 * 4096 /\ size <= page_align size < size + 4096.
Proof.
  intros H. assert (page_align size = (size + 4095) / 4096 * 4096) as E.
  { unfold page_align, PAGE_SIZE. rewrite u64_small' by lia.
    change (u64 (Z.lnot (4096 - 1))) with (Z.shiftl (Z.ones 52) 12).
    replace (size + (4096 - 1)) with (size + 4095) by lia.
    rewrite <- (Z.lor_ldiff_and (size + 4095) (Z.ones 12)) at 1.
    rewrite Z.land_lor_distr_l.
    replace (Z.land (Z.land (size + 4095) (Z.ones 12)) (Z.shiftl (Z.ones 52) 12)) with 0.
    2: { rewrite <- Z.land_assoc. change (Z.land (Z.ones 12) (Z.shiftl (Z.ones 52) 12)) with 0.
         by rewrite Z.land_0_r. }
    rewrite Z.lor_0_r, Z.ldiff_ones_r by lia.
    rewrite <- Z.shiftl_land, Z.land_ones, Z.mod_small.
    - rewrite Z.shiftl_mul_pow2, Z.shiftr_div_pow2 by lia. done.
    - rewrite Z.shiftr_div_pow2 by lia. split; [apply Z.div_pos; lia|].
      apply Z.div_lt_upper_bound; lia.
    - lia. }
  rewrite E. split; [done|]. pose proof (Z.div_mod (size + 4095) 4096 ltac:(lia)).
  pose proof (Z.mod_pos_bound (size + 4095) 4096 ltac:(lia)). lia.
Qed.

Lemma new_Object_wf name size v p :
  0 <= size < 2 ^ 62 -> delta_obj_wf (new_Object true name size v p).
Proof.
  intros H. destruct (page_align_spec size H) as [E1 E2].
  constructor; simpl; [done | | unfold PAGE_SIZE; lia].
  rewrite length_replicate, Z2Nat.id by (apply Z.div_pos; unfold PAGE_SIZE; lia).
  rewrite E1. unfold PAGE_SIZE. rewrite Z.div_mul by lia. done.
Qed.

Lemma set_modified_bit_wf i o : delta_obj_wf o -> delta_obj_wf (set_modified_bit i o).
Proof.
  intros []. unfold set_modified_bit. bsplit; [|done]. constructor; simpl; try done.
  by rewrite length_insert.
Qed.

Lemma reset_bit_vector_wf o : delta_obj_wf o -> delta_obj_wf (reset_bit_vector o).
Proof. intros []. constructor; simpl; try done. by rewrite length_fmap. Qed.
#[export] Hint Resolve new_Object_wf set_modified_bit_wf reset_bit_vector_wf : nvs.

(** * The chunks are the modified bytes *)

Definition covers (c : delta_t) (o : Z) : Prop := d_start c <= o < d_start c + d_len c.
Definition covered (cs : list delta_t) (o : Z) : Prop := Exists (fun c => covers c o) cs.

(** The bit of page [j]. *)
Definition page_bit (bits : list bool) (j : Z) : bool := nth (Z.to_nat j) bits false.

(** In order, without overlap, and below [lim]. *)
Fixpoint ordered_below (lim : Z) (cs : list delta_t) : Prop :=
  match cs with
  | [] => True
  | c :: cs' => 0 <= d_start c /\ 0 <= d_len c /\ d_start c + d_len c <= lim /\
                Forall (fun d => d_start c + d_len c <= d_start d) cs' /\ ordered_below lim cs'
  end.

Lemma ordered_below_snoc lim lim' cs c :
  ordered_below lim cs -> 0 <= lim <= d_start c -> 0 <= d_len c -> d_start c + d_len c <= lim' ->
  lim <= lim' -> ordered_below lim' (cs ++ [c]).
Proof.
  intros Hcs Hc Hl Hl' Hlim. induction cs as [|d cs IH]; simpl in *; [split_and!; (done || lia)|].
  destruct Hcs as (H1 & H2 & H3 & H4 & H5). split_and!; try lia; auto.
  apply Forall_app. split; [done|]. constructor; [lia | done].
Qed.

Lemma ordered_below_mono lim lim' cs : ordered_below lim cs -> lim <= lim' -> ordered_below lim' cs.
Proof. intros H Hl. induction cs as [|c cs IH]; simpl in *; [done|]. intuition lia. Qed.

Lemma covered_snoc cs c o : covered (cs ++ [c]) o <-> covered cs o \/ covers c o.
Proof.
  unfold covered. rewrite Exists_app, Exists_cons, Exists_nil. tauto.
Qed.

Definition g_lim (k : Z) (g : gdc) : Z := if g_status g then g_start g else k.

Record gdc_inv (bits : list bool) (size k : Z) (g : gdc) : Prop := {
  gi_region : g_status g = true ->
    0 <= g_start g < k /\ g_len g = k - g_start g /\ k < Z.of_nat (length bits) /\
    (forall j, g_start g <= j < k -> page_bit bits j = true);
  gi_cover : forall o, 0 <= o ->
    covered (g_out g) o <-> o < size /\ o / 4096 < g_lim k g /\ page_bit bits (o / 4096) = true;
  gi_order : ordered_below (Z.min size (g_lim k g * 4096)) (g_out g)
}.

(** The last page is partly used, the others are full. *)
Definition pages_of (size : Z) (n : Z) : Prop := n * 4096 - 4096 < size <= n * 4096.

Lemma page_range o e : o / 4096 < e <-> o < e * 4096.
Proof.
  pose proof (Z.div_mod o 4096 ltac:(lia)). pose proof (Z.mod_pos_bound o 4096 ltac:(lia)). lia.
Qed.

Section ChunkStep.
Context (bits : list bool) (size : Z).
Let n := Z.of_nat (length bits).
Hypothesis Hsize : 0 <= size < 2 ^ 62.
Hypothesis Hpages : pages_of size n.

(** Closing a region of pages [start, e): the chunk covers exactly them, up to
    the end of the data. *)
Lemma close_region k g start e c a b :
  gdc_inv bits size k g -> g_lim k g = start -> 0 <= start < e -> e <= n ->
  (forall j, start <= j < e -> page_bit bits j = true) ->
  (forall j, e <= j < k + 1 -> page_bit bits j = false) -> e <= k + 1 ->
  d_start c = start * 4096 -> d_start c + d_len c = Z.min size (e * 4096) ->
  gdc_inv bits size (k + 1) (mkGdc false a b (g_out g ++ [c])).
Proof.
  intros [Hr Hc Ho] Hlim Hs He Hset Hclr Hk Hst Hend. rewrite Hlim in *.
  unfold pages_of in Hpages. constructor; [done | |]; simpl.
  - intros o H0. rewrite covered_snoc, Hc by done. unfold covers, g_lim. simpl.
    rewrite Hst. replace (start * 4096 + d_len c) with (Z.min size (e * 4096)) by lia.
    rewrite !page_range. split.
    + intros [(H1 & H2 & H3)|H]; [split_and!; (done || lia)|].
      split_and!; [lia | lia|]. apply Hset. pose proof (page_range o e).
      pose proof (page_range o start). lia.
    + intros (H1 & H2 & H3). destruct (Z.lt_ge_cases o (start * 4096)); [left; done|right].
      destruct (Z.lt_ge_cases o (e * 4096)); [lia|]. exfalso.
      rewrite Hclr in H3; [done|]. pose proof (page_range o e).
      pose proof (page_range o (k + 1)). lia.
  - unfold g_lim. simpl. eapply ordered_below_snoc; [exact Ho | lia | lia | lia | lia].
Qed.

(** Nothing closes: the limit moves over pages that are clear. *)
Lemma skip_page k g :
  gdc_inv bits size k g -> g_status g = false -> page_bit bits k = false -> 0 <= k ->
  gdc_inv bits size (k + 1) g.
Proof.
  intros [Hr Hc Ho] Hst Hb Hk. unfold g_lim in *. constructor; unfold g_lim; rewrite Hst in *;
    [done | |].
  - intros o H0. rewrite Hc by done. split; [intuition lia|]. intros (H1 & H2 & H3).
    split_and!; try done. destruct (Z.eq_dec (o / 4096) k); [congruence | lia].
  - eapply ordered_below_mono; [exact Ho|]. lia.
Qed.

Lemma gdc_step_inv (k : nat) g :
  (k < length bits)%nat -> gdc_inv bits size (Z.of_nat k) g ->
  gdc_inv bits size (Z.of_nat k + 1) (gdc_step bits size g k).
Proof.
  intros Hk Hinv. pose proof Hinv as [Hr Hc Ho]. unfold gdc_step, PAGE_SIZE.
  change (nth k bits false) with (nth k bits false).
  assert (nth k bits false = page_bit bits (Z.of_nat k)) as -> by (unfold page_bit; by rewrite Nat2Z.id).
  unfold pages_of in Hpages. destruct (page_bit bits (Z.of_nat k)) eqn:Hb; simpl.
  - destruct (g_status g) eqn:Hst; simpl.
    + destruct (Hr eq_refl) as (R1 & R2 & R3 & R4). rewrite R2.
      assert (forall j, g_start g <= j < Z.of_nat k + 1 -> page_bit bits j = true) as Hset.
      { intros j Hj. destruct (Z.eq_dec j (Z.of_nat k)) as [->|]; [done|]. apply R4. lia. }
      destruct (k =? length bits - 1)%nat eqn:El.
      * apply Nat.eqb_eq in El. rewrite !u64_small' by (rewrite ?u64_small' by lia; lia).
        apply (close_region (Z.of_nat k) g (g_start g) (Z.of_nat k + 1)); simpl; try done;
          unfold g_lim; rewrite ?Hst; try done; try lia.
      * apply Nat.eqb_neq in El. rewrite u64_small' by lia. constructor; simpl.
        -- intros _. split_and!; (done || lia).
        -- intros o H0. rewrite Hc by done. unfold g_lim. by rewrite Hst.
        -- unfold g_lim in *. simpl. by rewrite Hst in Ho.
    + assert (g_lim (Z.of_nat k) g = Z.of_nat k) as Hlim by (unfold g_lim; by rewrite Hst).
      destruct (k =? length bits - 1)%nat eqn:El.
      * apply Nat.eqb_eq in El. rewrite !u64_small' by (rewrite ?u64_small' by lia; lia).
        apply (close_region (Z.of_nat k) (mkGdc false (Z.of_nat k) 1 (g_out g))
                 (Z.of_nat k) (Z.of_nat k + 1)); simpl; try done; try lia.
        -- constructor; simpl; [done | |]; unfold g_lim in *; simpl; by rewrite Hst in *.
        -- intros j Hj. by replace j with (Z.of_nat k) by lia.
      * apply Nat.eqb_neq in El. constructor; simpl.
        -- intros _. split_and!; try lia. intros j Hj. by replace j with (Z.of_nat k) by lia.
        -- intros o H0. rewrite Hc by done. unfold g_lim. simpl. by rewrite Hst.
        -- unfold g_lim in *. simpl. by rewrite Hst in Ho.
  - destruct (g_status g) eqn:Hst.
    + destruct (Hr eq_refl) as (R1 & R2 & R3 & R4). rewrite R2.
      rewrite !u64_small' by lia.
      apply (close_region (Z.of_nat k) g (g_start g) (Z.of_nat k)); simpl; try done;
        unfold g_lim; rewrite ?Hst; try done; try lia.
      intros j Hj. by replace j with (Z.of_nat k) by lia.
    + apply skip_page; (done || lia).
Qed.

Lemma gdc_loop_inv (k : nat) start0 len0 :
  (k <= length bits)%nat ->
  gdc_inv bits size (Z.of_nat k)
    (foldl (gdc_step bits size) (mkGdc false start0 len0 []) (seq 0 k)).
Proof.
  induction k as [|k IH]; intros Hk.
  - simpl. constructor; simpl; [done | | done]. intros o H0. unfold covered.
    rewrite Exists_nil. unfold g_lim. simpl. rewrite page_range. lia.
  - rewrite seq_S, foldl_app. simpl. rewrite Nat2Z.inj_succ. unfold Z.succ.
    apply gdc_step_inv; [lia|]. apply IH. lia.
Qed.
End ChunkStep.

Lemma get_delta_chunks_cover o start0 len0 :
  delta_obj_wf o ->
  ordered_below (o_size o) (get_delta_chunks start0 len0 o) /\
  (forall b, 0 <= b < o_size o ->
     covered (get_delta_chunks start0 len0 o) b <-> page_bit (o_bitset o) (b / PAGE_SIZE) = true).
Proof.
  intros [H1 H2 H3]. unfold PAGE_SIZE in *.
  assert (pages_of (o_size o) (Z.of_nat (length (o_bitset o)))) as Hp.
  { unfold pages_of. lia. }
  pose proof (gdc_loop_inv (o_bitset o) (o_size o) H1 Hp (length (o_bitset o)) start0 len0
                ltac:(lia)) as [Hr Hc Ho].
  unfold get_delta_chunks. set (g := foldl _ _ _) in *.
  assert (g_status g = false) as Hst.
  { destruct (g_status g); [|done]. destruct (Hr eq_refl) as (? & ? & ? & ?). lia. }
  unfold g_lim in *. rewrite Hst in *. unfold pages_of in Hp. split.
  - eapply ordered_below_mono; [exact Ho|]. lia.
  - intros b Hb. rewrite Hc by lia. split; [naive_solver|]. intros Hbit.
    split_and!; [lia | | done]. rewrite page_range. lia.
Qed.

(** Object::get_delta_chunks returns exactly the modified bytes.  The chunks
    are in order, do not overlap and stay inside the object; a byte of the
    object is in a chunk if and only if the bit of its page is set. *)
Theorem delta_chunks_exact o start0 len0 :
  delta_obj_wf o ->
  ordered_below (o_size o) (get_delta_chunks start0 len0 o) /\
  (forall b, 0 <= b < o_size o ->
     covered (get_delta_chunks start0 len0 o) b <-> page_bit (o_bitset o) (b / PAGE_SIZE) = true).
Proof. apply get_delta_chunks_cover. Qed.

Lemma delta_chunks_exact_witness :
  let o := set_modified_bit 2 (reset_bit_vector (new_Object true [] 10000 1 4096)) in
  ordered_below 10000 (get_delta_chunks 0 0 o) /\
  (forall b, 0 <= b < o_size o ->
     covered (get_delta_chunks 0 0 o) b <-> page_bit (o_bitset o) (b / PAGE_SIZE) = true).
Proof.
  apply (delta_chunks_exact (set_modified_bit 2 (reset_bit_vector (new_Object true [] 10000 1 4096)))).
  apply set_modified_bit_wf, reset_bit_vector_wf, new_Object_wf. lia.
Defined.
