(* ===== verification/SMap.v ===== *)
(** [std::map<std::string, V>] as the stores use it: an association list in key
    order, with find, insertion through [operator[]], erase and iteration. *)
From S2P Require Import Prelude.

Section SMap.
Context {V : Type}.

(** [std::string::operator<]: lexicographic on unsigned bytes. *)
Fixpoint key_lt (a b : bytes) : bool :=
  match a, b with
  | _, [] => false
  | [], _ :: _ => true
  | x :: a', y :: b' =>
      if byte.unsigned x <? byte.unsigned y then true
      else if byte.unsigned y <? byte.unsigned x then false else key_lt a' b'
  end.

Fixpoint sm_find (k : bytes) (l : list (bytes * V)) : option V :=
  match l with
  | [] => None
  | (k', v) :: l' => if decide (k = k') then Some v else sm_find k l'
  end.

(** [m[k] = v]. *)
Fixpoint sm_set (k : bytes) (v : V) (l : list (bytes * V)) : list (bytes * V) :=
  match l with
  | [] => [(k, v)]
  | (k', v') :: l' =>
      if decide (k = k') then (k, v) :: l'
      else if key_lt k k' then (k, v) :: l
      else (k', v') :: sm_set k v l'
  end.

Fixpoint sm_erase (k : bytes) (l : list (bytes * V)) : list (bytes * V) :=
  match l with
  | [] => []
  | (k', v) :: l' => if decide (k = k') then l' else (k', v) :: sm_erase k l'
  end.

(** Iteration visits the keys in increasing order. *)
Fixpoint sm_sorted (l : list (bytes * V)) : Prop :=
  match l with
  | [] => True
  | (k, _) :: l' => Forall (fun kv => key_lt k kv.1 = true) l' /\ sm_sorted l'
  end.

Lemma key_lt_irrefl a : key_lt a a = false.
Proof. induction a as [|x a IH]; simpl; [done|]. by rewrite Z.ltb_irrefl. Qed.

Lemma key_lt_trans a b c : key_lt a b = true -> key_lt b c = true -> key_lt a c = true.
Proof.
  revert b c. induction a as [|x a IH]; intros [|y b] [|z c]; simpl; try done.
  repeat (case_match; bcases); try done; try lia. eauto.
Qed.

Lemma key_lt_total a b : a <> b -> key_lt a b = false -> key_lt b a = true.
Proof.
  revert b. induction a as [|x a IH]; intros [|y b]; simpl; try done.
  intros Hne. repeat (case_match; bcases); try done; try lia.
  apply IH. intros ->. assert (x = y) by (apply byte.unsigned_inj; lia). by subst.
Qed.

Lemma sm_find_set_eq k v l : sm_find k (sm_set k v l) = Some v.
Proof.
  induction l as [|[k' v'] l IH]; simpl; [by rewrite decide_True|].
  destruct (decide (k = k')) as [->|Hne]; simpl; [by rewrite decide_True|].
  destruct (key_lt k k'); simpl; [by rewrite decide_True|]. by rewrite decide_False.
Qed.

Lemma sm_find_set_ne k j v l : k <> j -> sm_find j (sm_set k v l) = sm_find j l.
Proof.
  intros Hne. induction l as [|[k' v'] l IH]; simpl; [by rewrite decide_False|].
  destruct (decide (k = k')) as [->|]; simpl; [by rewrite !decide_False by done|].
  destruct (key_lt k k'); simpl; [by rewrite (decide_False (P := j = k)) by done|].
  by rewrite IH.
Qed.

Lemma sm_set_Forall (P : bytes * V -> Prop) k v l : P (k, v) -> Forall P l -> Forall P (sm_set k v l).
Proof.
  intros Hp. induction 1 as [|[k' v'] l Hk Hl IH]; simpl; [by repeat constructor|].
  destruct (decide (k = k')); [by constructor|]. destruct (key_lt k k'); repeat constructor; done.
Qed.

Lemma sm_set_sorted k v l : sm_sorted l -> sm_sorted (sm_set k v l).
Proof.
  induction l as [|[k' v'] l IH]; simpl; [done|]. intros [Hf Hs].
  destruct (decide (k = k')) as [->|Hne]; [done|]. destruct (key_lt k k') eqn:E; simpl.
  - split; [|done]. constructor; [done|]. eapply Forall_impl; [exact Hf|].
    intros kv. by apply key_lt_trans.
  - split; [|auto]. apply sm_set_Forall; [|done]. by apply key_lt_total.
Qed.

Lemma sm_erase_Forall (P : bytes * V -> Prop) k l : Forall P l -> Forall P (sm_erase k l).
Proof.
  induction 1 as [|[k' v'] l Hk Hl IH]; simpl; [done|]. destruct (decide (k = k')); [done|].
  by constructor.
Qed.

Lemma sm_erase_sorted k l : sm_sorted l -> sm_sorted (sm_erase k l).
Proof.
  induction l as [|[k' v'] l IH]; simpl; [done|]. intros [Hf Hs].
  destruct (decide (k = k')); [done|]. simpl. split; [by apply sm_erase_Forall | auto].
Qed.

Lemma sm_find_erase_eq k l : sm_sorted l -> sm_find k (sm_erase k l) = None.
Proof.
  induction l as [|[k' v'] l IH]; simpl; [done|]. intros [Hf Hs].
  destruct (decide (k = k')) as [->|Hne]; simpl; [|by rewrite decide_False by done; auto].
  clear IH Hs. induction Hf as [|[k v] l Hlt _ IH]; simpl; [done|].
  rewrite decide_False; [done|]. intros ->. simpl in Hlt. by rewrite key_lt_irrefl in Hlt.
Qed.

Lemma sm_find_erase_ne k j l : k <> j -> sm_find j (sm_erase k l) = sm_find j l.
Proof.
  intros Hne. induction l as [|[k' v'] l IH]; simpl; [done|].
  destruct (decide (k = k')) as [->|]; simpl; [by rewrite decide_False by done|]. by rewrite IH.
Qed.

Lemma sm_find_elem k v l : sm_find k l = Some v -> (k, v) ∈ l.
Proof.
  induction l as [|[k' v'] l IH]; simpl; [done|].
  destruct (decide (k = k')) as [->|]; [intros [= ->]; left|right; auto].
Qed.

(** In a sorted map every pair of the list is found. *)
Lemma sm_elem_find k v l : sm_sorted l -> (k, v) ∈ l -> sm_find k l = Some v.
Proof.
  induction l as [|[k' v'] l IH]; simpl; [by intros _ ?%not_elem_of_nil|].
  intros [Hf Hs] [[= -> ->]|Hin]%elem_of_cons; [by rewrite decide_True|].
  rewrite decide_False; [auto|]. intros ->.
  rewrite Forall_forall in Hf. apply Hf in Hin. simpl in Hin. by rewrite key_lt_irrefl in Hin.
Qed.
End SMap.

(** Map over the values, keys kept. *)
Definition sm_map {V W} (f : V -> W) (l : list (bytes * V)) : list (bytes * W) :=
  (fun kv => (kv.1, f kv.2)) <$> l.

Lemma sm_find_map {V W} (f : V -> W) k l : sm_find k (sm_map f l) = f <$> sm_find k l.
Proof.
  induction l as [|[k' v'] l IH]; simpl; [done|]. by destruct (decide (k = k')).
Qed.

Lemma sm_map_sorted {V W} (f : V -> W) l : sm_sorted l -> sm_sorted (sm_map f l).
Proof.
  induction l as [|[k v] l IH]; simpl; [done|]. intros [Hf Hs]. split; [|auto].
  unfold sm_map. by rewrite Forall_fmap.
Qed.
