(* ===== verification/NvsStore.v ===== *)
(** The log-structured store, src/nvstream/src/kvstore/nvs_store.cc (class
    [NVSStore]): volatile objects, their snapshots appended to the process log,
    and reads that walk the log.

    [malloc] is an argument of the operations that call it: the address it
    returns (not in use) and the content of the new block; an uninitialised
    struct is an arbitrary value. *)
From S2P Require Import Prelude Mem LogFmt Log Object SMap.

(** The blocks of the C heap, by address. *)
Abbreviation cheap := (gmap Z bytes).

Record NVSStore : Type := mkStore {
  storeId : bytes;
  log : Log;
  objectMap : list (bytes * Object);
  addrMap : gmap Z bytes
}.

Record StoreSt : Type := mkStoreSt { store : NVSStore; spm : pmem; heap : cheap }.

Definition upd_maps (om : list (bytes * Object)) (am : gmap Z bytes) (s : StoreSt) : StoreSt :=
  mkStoreSt (mkStore (storeId (store s)) (log (store s)) om am) (spm s) (heap s).

Definition upd_objects (om : list (bytes * Object)) (s : StoreSt) : StoreSt :=
  upd_maps om (addrMap (store s)) s.

Definition upd_heap (h : cheap) (s : StoreSt) : StoreSt := mkStoreSt (store s) (spm s) h.

Definition get_log (s : StoreSt) : LogSt := mkLogSt (log (store s)) (spm s).
Definition set_log (l : LogSt) (s : StoreSt) : StoreSt :=
  mkStoreSt (mkStore (storeId (store s)) (lsoft l) (objectMap (store s)) (addrMap (store s)))
    (lpm l) (heap s).
Definition on_log {A} (m : M LogSt A) : M StoreSt A := zoom get_log set_log m.

(** [malloc(size)] returning block [p] with content [init]. *)
Definition malloc_ (p : Z) (init : bytes) : M StoreSt Z := fun s =>
  Ret p (upd_heap (<[p := init]> (heap s)) s).

(** The first [n] bytes of the block at [p]. *)
Definition rd_block (p n : Z) : M StoreSt bytes := fun s =>
  match heap s !! p with
  | Some b => if n <=? Z.of_nat (length b) then Ret (take (Z.to_nat n) b) s else Undef s
  | None => Undef s
  end.

(** [memcpy(p, bs, |bs|)] into the block at [p]. *)
Definition wr_block (p : Z) (bs : bytes) : M StoreSt unit := fun s =>
  match heap s !! p with
  | Some b => if (length bs <=? length b)%nat
              then Ret tt (upd_heap (<[p := bs ++ drop (length bs) b]> (heap s)) s)
              else Undef s
  | None => Undef s
  end.

(** * create_obj, free_obj *)

Definition create_obj (delta_build : bool) (key : bytes) (size : Z) (p : Z) (init : bytes) :
    M StoreSt (ErrorCode * Z) :=
  tmp_ptr ← malloc_ p init;
  let obj := new_Object delta_build key size 0 tmp_ptr in
  s ← get_st;
  match sm_find key (objectMap (store s)) with
  | None =>
      let obj := setVersion 0 obj in
      put_st (upd_maps (sm_set key obj (objectMap (store s)))
                (<[tmp_ptr := key]> (addrMap (store s))) s);;
      mret (NO_ERROR, tmp_ptr)
  | Some _ => exit_ 1
  end.

(** [free_obj] erases both map entries and then reads the erased iterator. *)
Definition free_obj (obj_addr : Z) : M StoreSt ErrorCode :=
  s ← get_st;
  match addrMap (store s) !! obj_addr with
  | None => exit_ 1
  | Some key =>
      match sm_find key (objectMap (store s)) with
      | None => exit_ 1
      | Some _ =>
          put_st (upd_maps (sm_erase key (objectMap (store s)))
                    (delete obj_addr (addrMap (store s))) s);;
          undef
      end
  end.

(** * put, put_all *)

(** The header of a [single] entry, over the uninitialised struct [g]. *)
Definition single_hdr (g : lehdr_t) (v : Z) (o : Object) : lehdr_t :=
  set_type single (set_len (o_size o) (set_kname (o_name o) (set_version v g))).

Definition put (g : lehdr_t) (key : bytes) (v : Z) : M StoreSt Z :=
  s ← get_st;
  match sm_find key (objectMap (store s)) with
  | Some obj =>
      let l_entry := single_hdr g v obj in
      d ← rd_block (o_ptr obj) (o_size obj);
      r ← on_log (appendv [lehdr_bytes l_entry; d]);
      if decide (r <> NO_ERROR) then exit_ 1 else
      modify (fun s => upd_objects (sm_set key (setVersion v obj) (objectMap (store s))) s);;
      mret (ErrorCode_code NO_ERROR)
  | None => mret (ErrorCode_code ELEM_NOT_FOUND)
  end.

(** The io vector of a snapshot: header and data of each object; [i] is the
    position of the header in the [l_entry] array [gs]. *)
Fixpoint snapshot_iovs (gs : nat -> lehdr_t) (i : nat) (objs : list (bytes * Object))
    (tot_cnt : Z) : M StoreSt (list bytes * Z) :=
  match objs with
  | [] => mret ([], tot_cnt)
  | (_, obj) :: objs' =>
      let h := single_hdr (gs i) (u64 (o_version obj + 1)) obj in
      d ← rd_block (o_ptr obj) (o_size obj);
      r ← snapshot_iovs gs (S i) objs' (u64 (tot_cnt + (sizeof_lehdr + o_size obj)));
      mret (lehdr_bytes h :: d :: r.1, r.2)
  end.

Definition batch_hdr (g : lehdr_t) (tot_cnt : Z) : lehdr_t :=
  set_len tot_cnt (set_type multiple (set_version 0 g)).

Definition put_all (gs : nat -> lehdr_t) : M StoreSt Z :=
  s ← get_st;
  r ← snapshot_iovs gs 1 (objectMap (store s)) 0;
  let tot_cnt := r.2 in
  let total_size := u64 (tot_cnt + sizeof_lehdr) in
  e ← on_log (appendv (lehdr_bytes (batch_hdr (gs O) tot_cnt) :: r.1));
  if decide (e <> NO_ERROR) then mret (ErrorCode_code PMEM_ERROR) else
  modify (fun s => upd_objects
    (sm_map (fun o => setVersion (u64 (o_version o + 1)) o) (objectMap (store s))) s);;
  mret total_size.

(** * process_chunks, get, get_with_malloc *)

Record walkentry : Type := mkWalk {
  we_len : Z;
  we_datap : Z;            (* offset of the data in the log *)
  we_version : Z;
  we_key : bytes;          (* char[20] *)
  we_err : ErrorCode
}.

Definition we_found (h : lehdr_t) (data : Z) (w : walkentry) : walkentry :=
  mkWalk (len h) data (we_version w) (we_key w) NO_ERROR.
Definition we_set_err (e : ErrorCode) (w : walkentry) : walkentry :=
  mkWalk (we_len w) (we_datap w) (we_version w) (we_key w) e.

(** [!strncmp(h->kname, key, KEY_LEN) && h->version == version]. *)
Definition hdr_match (h : lehdr_t) (w : walkentry) : option bool :=
  match strncmp_eq (kname h) (we_key w) 20 with
  | None => None
  | Some eq => Some (eq && (version h =? we_version w))
  end.

Section Process.
Variable ml : Z.
Variable m : mem.

(** The loop over the entries of a batch at [i_buf]; the current header is at
    [cur], [i_index] is the offset of the next. *)
Fixpoint batch_loop (fuel : nat) (i_buf cur i_index total : Z) : M walkentry Z :=
  match fuel with
  | O => fun w => Diverge w
  | S fuel' => fun w =>
      if i_index <? total then
        match hdr_match (read_lehdr m cur) w with
        | None => Undef w
        | Some true => Ret 0 (we_found (read_lehdr m cur) (cur + sizeof_lehdr) w)
        | Some false =>
            let nxt := i_buf + i_index in
            if nxt + sizeof_lehdr <=? ml then
              batch_loop fuel' i_buf nxt
                (u64 (i_index + (sizeof_lehdr + len (read_lehdr m nxt)))) total w
            else Undef w
        end
      else Ret 1 w
  end.

Definition batch_fuel (total : Z) : nat := S (S (Z.to_nat (total / 136))).

(** A single entry: stop with the data when it is the one looked for. *)
Definition check_single (h : lehdr_t) (data : Z) : M walkentry Z := fun w =>
  match hdr_match h w with
  | None => Undef w
  | Some true => Ret 0 (we_found h data w)
  | Some false => Ret 1 w
  end.

Definition process_chunks (buf _len : Z) : M walkentry Z :=
  modify (we_set_err ID_NOT_FOUND);;
  let lehdr := read_lehdr m buf in
  if type lehdr =? HdrType_code single then
    check_single lehdr (buf + sizeof_lehdr)
  else if type lehdr =? HdrType_code multiple then
    let i_buf := buf + sizeof_lehdr in
    guard_ub (i_buf + sizeof_lehdr <=? ml);;
    batch_loop (batch_fuel (len lehdr)) i_buf i_buf
      (u64 (sizeof_lehdr + len (read_lehdr m i_buf))) (len lehdr)
  else if type lehdr =? HdrType_code delta then undef
  else exit_ 1.
End Process.

(** The search key: the uninitialised [wentry] with version and key set. *)
Definition search_for (w0 : walkentry) (key : bytes) (v : Z) : walkentry :=
  let s := snprintf_s 20 key in
  mkWalk (we_len w0) (we_datap w0) v (s ++ drop (length s) (we_key w0)) (we_err w0).

(** Walk the log of the store with [process_chunks]. *)
Definition run_walk (w : walkentry) : M StoreSt (ErrorCode * walkentry) := fun s =>
  match walk (mapped_len (log (store s))) (pview (spm s))
          (process_chunks (mapped_len (log (store s))) (pview (spm s))) w with
  | Ret e w' => Ret (e, w') s
  | Exit c _ => Exit c s
  | Undef _ => Undef s
  | Diverge _ => Diverge s
  end.

(** [wentry.len] bytes at [wentry.datap]. *)
Definition rd_log (a n : Z) : M StoreSt bytes := fun s =>
  if (0 <=? a) && (0 <=? n) && (a + n <=? mapped_len (log (store s)))
  then Ret (mread (pview (spm s)) a n) s else Undef s.

Definition get (w0 : walkentry) (key : bytes) (v : Z) (obj_addr : Z) : M StoreSt ErrorCode :=
  r ← run_walk (search_for w0 key v);
  if decide (r.1 <> NO_ERROR) then mret ID_NOT_FOUND else
  if decide (we_err r.2 <> NO_ERROR) then mret ID_NOT_FOUND else
  d ← rd_log (we_datap r.2) (we_len r.2);
  wr_block obj_addr d;;
  mret NO_ERROR.

Definition get_with_malloc (delta_build : bool) (w0 : walkentry) (key : bytes) (v : Z)
    (p : Z) (init : bytes) : M StoreSt (ErrorCode * option Z) :=
  r ← run_walk (search_for w0 key v);
  if decide (we_err r.2 <> NO_ERROR) then mret (ID_NOT_FOUND, None) else
  s ← get_st;
  obj ← match sm_find key (objectMap (store s)) with
        | Some obj => mret obj
        | None => tmp_ptr ← malloc_ p init;
                  mret (new_Object delta_build key (we_len r.2) v tmp_ptr)
        end;
  let obj := setVersion v obj in
  modify (fun s => upd_objects (sm_set key obj (objectMap (store s))) s);;
  d ← rd_log (we_datap r.2) (we_len r.2);
  wr_block (o_ptr obj) d;;
  mret (NO_ERROR, Some (o_ptr obj)).

(** * The abstract log of a store *)

(** A record: header and data.  An entry holds one, or a snapshot of several
    under a header of its own. *)
Abbreviation rcd := (lehdr_t * bytes)%type.

Inductive lentry : Type :=
  | LSingle (r : rcd)
  | LBatch (h0 : lehdr_t) (inner : list rcd).

Definition rcd_bytes (r : rcd) : bytes := lehdr_bytes r.1 ++ r.2.
Definition inner_bytes (l : list rcd) : bytes := List.concat (rcd_bytes <$> l).

Definition to_entry (e : lentry) : entry :=
  match e with
  | LSingle r => mkEntry r.1 r.2
  | LBatch h0 inner => mkEntry h0 (inner_bytes inner)
  end.

Record rcd_wf (r : rcd) : Prop := {
  rc_hdr : lehdr_wf r.1;
  rc_name : (length (c_str (kname r.1)) < 20)%nat;
  rc_len : len r.1 = Z.of_nat (length r.2);
  rc_type : type r.1 = HdrType_code single
}.

Definition lentry_wf (e : lentry) : Prop :=
  match e with
  | LSingle r => rcd_wf r
  | LBatch h0 inner =>
      lehdr_wf h0 /\ type h0 = HdrType_code multiple /\
      len h0 = Z.of_nat (length (inner_bytes inner)) /\ Forall rcd_wf inner /\ inner <> []
  end.

(** What a header or a search key keeps of a name: 19 characters. *)
Definition key20 (key : bytes) : bytes := take 19 (c_str key).

Definition rcd_match (key : bytes) (v : Z) (r : rcd) : bool :=
  bool_decide (c_str (kname r.1) = key20 key) && (version r.1 =? v).

Fixpoint rcd_find (key : bytes) (v : Z) (l : list rcd) : option bytes :=
  match l with
  | [] => None
  | r :: l' => if rcd_match key v r then Some r.2 else rcd_find key v l'
  end.

(** All but the last element. *)
Fixpoint but_last {A} (l : list A) : list A :=
  match l with
  | [] => []
  | x :: l' => match l' with [] => [] | _ => x :: but_last l' end
  end.

(** What the store's search finds in an entry: in a snapshot it looks at every
    record but the last. *)
Definition entry_find (key : bytes) (v : Z) (e : lentry) : option bytes :=
  match e with
  | LSingle r => rcd_find key v [r]
  | LBatch _ inner => rcd_find key v (but_last inner)
  end.

Fixpoint log_find (key : bytes) (v : Z) (es : list lentry) : option bytes :=
  match es with
  | [] => None
  | e :: es' => match entry_find key v e with Some d => Some d | None => log_find key v es' end
  end.

(** ** Matching names *)

(** A search value for [key] and [v]. *)
Definition searching (key : bytes) (v : Z) (w : walkentry) : Prop :=
  we_version w = v /\ exists rest, we_key w = key20 key ++ NUL :: rest.

Lemma searching_search_for w0 key v : searching key v (search_for w0 key v).
Proof.
  split; [done|]. unfold search_for, snprintf_s. simpl.
  exists (drop (length (take 19 (c_str key) ++ [NUL])) (we_key w0)).
  unfold key20. by rewrite <- app_assoc.
Qed.

Lemma key20_no_nul key : no_nul (key20 key).
Proof. unfold key20, no_nul. apply Forall_take, c_str_no_nul. Qed.

Lemma length_key20 key : (length (key20 key) < 20)%nat.
Proof. unfold key20. rewrite length_take. lia. Qed.

(** A buffer whose string ends before the buffer does. *)
Lemma c_str_split (b : bytes) :
  (length (c_str b) < length b)%nat -> exists rest, b = c_str b ++ NUL :: rest.
Proof.
  induction b as [|x b IH]; simpl; [lia|]. case_decide as E.
  - intros _. subst. by exists b.
  - simpl. intros H. destruct IH as [rest Hr]; [lia|]. exists rest. by rewrite Hr at 1.
Qed.

Lemma hdr_match_spec r key v w :
  rcd_wf r -> searching key v w -> hdr_match r.1 w = Some (rcd_match key v r).
Proof.
  intros [Hh Hn _ _] [Hv [rest Hk]]. unfold hdr_match, rcd_match.
  destruct (c_str_split (kname r.1)) as [tl Htl]; [rewrite (wf_kname _ Hh); lia|].
  rewrite Hk, Hv. rewrite Htl at 1.
  rewrite strncmp_eq_terminated; [done | apply c_str_no_nul | apply key20_no_nul | done |].
  apply length_key20.
Qed.

(** ** Reading records *)

Lemma length_rcd_bytes r : rcd_wf r -> Z.of_nat (length (rcd_bytes r)) = 136 + len r.1.
Proof.
  intros [Hh _ Hl _]. unfold rcd_bytes. rewrite length_app, length_lehdr_bytes, Hl by done. lia.
Qed.

Lemma inner_bytes_cons r l : inner_bytes (r :: l) = rcd_bytes r ++ inner_bytes l.
Proof. done. Qed.

Lemma rcd_at m a r :
  rcd_wf r -> at_ m a (rcd_bytes r) -> read_lehdr m a = r.1 /\ at_ m (a + 136) r.2.
Proof.
  intros Hr Hat. apply at_app in Hat as [H1 H2].
  rewrite length_lehdr_bytes in H2 by apply Hr. split; [|done].
  by apply read_lehdr_at; [apply Hr|].
Qed.

(** The result of a search step: found at a readable place, or not found. *)
Definition found_at (ml : Z) (m : mem) (w : walkentry) (res : outcome walkentry Z)
    (o : option bytes) : Prop :=
  match o with
  | Some d => exists a, res = Ret 0 (mkWalk (Z.of_nat (length d)) a (we_version w) (we_key w) NO_ERROR)
               /\ at_ m a d /\ 0 <= a /\ a + Z.of_nat (length d) <= ml
  | None => res = Ret 1 w
  end.

Lemma batch_loop_spec ml m key v w i_buf l r cur fuel :
  ml < 2 ^ 63 -> 0 <= i_buf <= cur -> searching key v w ->
  Forall rcd_wf (r :: l) -> at_ m cur (inner_bytes (r :: l)) ->
  cur + Z.of_nat (length (inner_bytes (r :: l))) <= ml -> (length l < fuel)%nat ->
  let i_index := cur - i_buf + 136 + len r.1 in
  found_at ml m w
    (batch_loop ml m fuel i_buf cur i_index (i_index + Z.of_nat (length (inner_bytes l))) w)
    (rcd_find key v (but_last (r :: l))).
Proof.
  intros Hml Hbuf Hw. revert r cur fuel Hbuf.
  induction l as [|r' l IH]; intros r cur fuel Hbuf Hwf Hat Hb Hf; simpl.
  - destruct fuel; [lia|]. simpl. by rewrite Z.add_0_r, Z.ltb_irrefl.
  - destruct fuel as [|fuel]; [lia|].
    apply Forall_cons in Hwf as [Hr Hwf]. pose proof Hwf as [Hr' _]%Forall_cons.
    rewrite inner_bytes_cons in Hat. apply at_app in Hat as [Hat1 Hat2].
    rewrite length_rcd_bytes in Hat2 by done.
    pose proof (rcd_at m cur r Hr Hat1) as [Hread Hdata].
    pose proof (length_rcd_bytes r Hr) as Hlr. pose proof (length_rcd_bytes r' Hr') as Hlr'.
    pose proof (rc_len _ Hr) as Hl. pose proof (rc_len _ Hr') as Hl'.
    rewrite !inner_bytes_cons, !length_app in Hb. rewrite inner_bytes_cons, length_app.
    cbn [batch_loop]. rewrite (proj2 (Z.ltb_lt _ _)) by lia.
    rewrite Hread, (hdr_match_spec r key v w Hr Hw).
    destruct (rcd_match key v r) eqn:Em.
    + simpl. exists (cur + sizeof_lehdr). unfold we_found. rewrite Hl. unfold sizeof_lehdr.
      split_and!; (done || lia).
    + unfold sizeof_lehdr. rewrite (proj2 (Z.leb_le _ _)) by lia.
      replace (i_buf + (cur - i_buf + 136 + len r.1)) with (cur + (136 + len r.1)) by lia.
      rewrite inner_bytes_cons in Hat2. pose proof Hat2 as [Hat2' _]%at_app.
      destruct (rcd_at m _ r' Hr' Hat2') as [-> _].
      rewrite u64_small' by lia.
      specialize (IH r' (cur + (136 + len r.1)) fuel ltac:(lia) Hwf Hat2).
      rewrite inner_bytes_cons, length_app in IH.
      replace (cur - i_buf + 136 + len r.1 + Z.of_nat (length (rcd_bytes r') + length (inner_bytes l)))
        with (cur + (136 + len r.1) - i_buf + 136 + len r'.1 + Z.of_nat (length (inner_bytes l))) by lia.
      replace (cur - i_buf + 136 + len r.1 + (136 + len r'.1))
        with (cur + (136 + len r.1) - i_buf + 136 + len r'.1) by lia.
      simpl in Hf. apply IH; lia.
Qed.

Lemma inner_bytes_count l :
  Forall rcd_wf l -> 136 * Z.of_nat (length l) <= Z.of_nat (length (inner_bytes l)).
Proof.
  induction 1 as [|r l Hr _ IH]; [done|].
  rewrite inner_bytes_cons, length_app, Nat2Z.inj_add, length_rcd_bytes by done.
  pose proof (rc_len _ Hr). simpl length. lia.
Qed.

Lemma searching_err key v e w : searching key v w -> searching key v (we_set_err e w).
Proof. done. Qed.

(** ** One entry *)
Lemma process_chunks_spec ml m key v w off l e :
  ml < 2 ^ 63 -> 0 <= off -> searching key v w -> lentry_wf e ->
  at_ m off (entry_bytes (to_entry e)) -> off + entry_size (to_entry e) <= ml ->
  found_at ml m (we_set_err ID_NOT_FOUND w) (process_chunks ml m off l w) (entry_find key v e).
Proof.
  intros Hml Hoff Hw Hwf Hat Hb. unfold process_chunks. mstep.
  set (w1 := we_set_err ID_NOT_FOUND w).
  assert (searching key v w1) as Hw1 by done.
  unfold entry_bytes in Hat. destruct e as [r|h0 inner]; cbn [to_entry e_hdr e_data] in *.
  - apply at_app in Hat as [H1 H2]. rewrite length_lehdr_bytes in H2 by apply Hwf.
    apply at_app in H2 as [H2 _]. rewrite (read_lehdr_at m off r.1) by (done || apply Hwf).
    rewrite (rc_type _ Hwf), Z.eqb_refl. unfold check_single. simpl.
    rewrite (hdr_match_spec r key v w1 Hwf Hw1). destruct (rcd_match key v r); [|done].
    exists (off + sizeof_lehdr). unfold we_found. rewrite (rc_len _ Hwf). unfold sizeof_lehdr.
    unfold entry_size in Hb. simpl in Hb. split_and!; (done || lia).
  - destruct Hwf as (Hh0 & Ht & Hl & Hin & Hne).
    apply at_app in Hat as [H1 H2]. rewrite length_lehdr_bytes in H2 by done.
    apply at_app in H2 as [H2 _]. rewrite (read_lehdr_at m off h0) by done.
    change (Z.of_nat 136) with 136 in H2.
    rewrite Ht, Hl, Z.eqb_refl.
    change (HdrType_code multiple =? HdrType_code single) with false. cbv iota zeta.
    destruct inner as [|r inner]; [done|].
    pose proof Hin as [Hr Hin']%Forall_cons. unfold entry_size in Hb. simpl in Hb.
    rewrite inner_bytes_cons in H2. pose proof H2 as [H3 _]%at_app.
    destruct (rcd_at m _ r Hr H3) as [Hread _].
    rewrite inner_bytes_cons in Hb |- *. rewrite length_app in Hb |- *.
    pose proof (length_rcd_bytes r Hr) as Hlr. pose proof (rc_len _ Hr) as Hlen.
    pose proof (inner_bytes_count inner Hin') as Hcnt.
    unfold sizeof_lehdr. rewrite (proj2 (Z.leb_le _ _)) by lia. mstep.
    rewrite Hread, u64_small' by lia.
    pose proof (batch_loop_spec ml m key v w1 (off + 136) inner r (off + 136)
      (batch_fuel (Z.of_nat (length (rcd_bytes r) + length (inner_bytes inner))))
      Hml ltac:(lia) Hw1 Hin H2) as IH.
    rewrite inner_bytes_cons, length_app in IH. simpl in IH.
    replace (off + 136 - (off + 136) + 136 + len r.1) with (136 + len r.1) in IH by lia.
    replace (136 + len r.1 + Z.of_nat (length (inner_bytes inner))) with
      (Z.of_nat (length (rcd_bytes r) + length (inner_bytes inner))) in IH by lia.
    apply IH; [lia|]. unfold batch_fuel.
    assert (Z.of_nat (length inner) <=
            Z.of_nat (length (rcd_bytes r) + length (inner_bytes inner)) / 136).
    { apply Z.div_le_lower_bound; lia. }
    lia.
Qed.

(** ** The whole log *)
Definition walk_result (ml : Z) (m : mem) (key : bytes) (v : Z) (w : walkentry)
    (res : outcome walkentry ErrorCode) (o : option bytes) : Prop :=
  exists w', res = Ret NO_ERROR w' /\
  match o with
  | Some d => we_err w' = NO_ERROR /\ we_len w' = Z.of_nat (length d) /\
              at_ m (we_datap w') d /\ 0 <= we_datap w' /\
              we_datap w' + Z.of_nat (length d) <= ml
  | None => we_err w' = ID_NOT_FOUND
  end.

Lemma walk_entries_search ml m key v es off w :
  ml < 2 ^ 63 -> 0 <= off -> searching key v w -> Forall lentry_wf es ->
  Forall entry_wf (to_entry <$> es) -> (es = [] -> we_err w = ID_NOT_FOUND) ->
  at_ m off (log_bytes (to_entry <$> es)) ->
  off + Z.of_nat (length (log_bytes (to_entry <$> es))) <= ml ->
  walk_result ml m key v w (walk_entries (process_chunks ml m) off (to_entry <$> es) w)
    (log_find key v es).
Proof.
  intros Hml. revert off w. induction es as [|e es IH]; intros off w Hoff Hw Hwf Hew Hnil Hat Hb.
  - exists w. split; [done|]. by apply Hnil.
  - apply Forall_cons in Hwf as [He Hwf]. rewrite fmap_cons in *.
    apply Forall_cons in Hew as [Hee Hew]. rewrite log_bytes_cons in Hat, Hb.
    rewrite length_app, Nat2Z.inj_add, length_entry_bytes in Hb by done.
    apply at_app in Hat as [Hat1 Hat2]. rewrite length_entry_bytes in Hat2 by done.
    cbn [walk_entries log_find].
    assert (0 <= entry_size (to_entry e)) by (unfold entry_size; lia).
    pose proof (process_chunks_spec ml m key v w off (len (e_hdr (to_entry e))) e Hml Hoff Hw He Hat1
      ltac:(lia)) as Hp.
    unfold mbind, M_bind. destruct (entry_find key v e) as [d|]; simpl in Hp.
    + destruct Hp as (a & -> & H1 & H2 & H3). simpl. eexists. split; [done|]. done.
    + rewrite Hp. simpl. apply IH; try done; lia.
Qed.

(** The log of a store, seen as a list of entries. *)
Record store_inv (s : StoreSt) (es : list lentry) : Prop := {
  si_log : log_inv (get_log s) (to_entry <$> es);
  si_wf : Forall lentry_wf es;
  si_sorted : sm_sorted (objectMap (store s));
  si_objs : forall k o, sm_find k (objectMap (store s)) = Some o ->
    o_name o = k /\ 0 <= o_size o < 2 ^ 62 /\
    exists b, heap s !! o_ptr o = Some b /\ Z.of_nat (length b) = o_size o
}.

Lemma run_walk_spec s es key v w0 :
  store_inv s es -> es <> [] ->
  exists w', run_walk (search_for w0 key v) s = Ret (NO_ERROR, w') s /\
  match log_find key v es with
  | Some d => we_err w' = NO_ERROR /\ we_len w' = Z.of_nat (length d) /\
              rd_log (we_datap w') (we_len w') s = Ret d s
  | None => we_err w' = ID_NOT_FOUND
  end.
Proof.
  intros [[_ Hr _] Hwf _ _] Hne. unfold run_walk. simpl in Hr.
  rewrite (walk_run _ _ _ _ _ Hr). destruct es as [|e es]; [done|]. simpl fmap.
  destruct Hr as [_ _ _ _ R5 R6 R7].
  destruct (walk_entries_search (mapped_len (log (store s))) (pview (spm s)) key v (e :: es) 32
    (search_for w0 key v)) as (w' & Hres & Hw'); try done; try lia.
  { apply searching_search_for. }
  exists w'. simpl fmap in Hres. rewrite Hres. split; [done|].
  destruct (log_find key v (e :: es)) as [d|]; [|done].
  destruct Hw' as (H1 & H2 & H3 & H4 & H5). split_and!; [done | done|].
  unfold rd_log. rewrite H2. rewrite !(proj2 (Z.leb_le _ _)) by lia. simpl. by rewrite H3.
Qed.

(** * The headers the store writes *)

Lemma c_str_app (s rest : bytes) : no_nul s -> c_str (s ++ NUL :: rest) = s.
Proof.
  induction 1 as [|x s Hx _ IH]; simpl; [done|].
  rewrite decide_False by done. by rewrite IH.
Qed.

Lemma set_kname_str name h : c_str (kname (set_kname name h)) = key20 name.
Proof.
  unfold set_kname, snprintf_s. simpl. rewrite <- app_assoc. simpl.
  apply c_str_app, key20_no_nul.
Qed.

Lemma single_hdr_wf g v o d :
  lehdr_wf g -> fits 64 v -> 0 <= o_size o < 2 ^ 62 -> Z.of_nat (length d) = o_size o ->
  rcd_wf (single_hdr g v o, d).
Proof.
  intros Hg Hv Ho Hd. constructor; simpl.
  - apply set_type_wf, set_len_wf, set_kname_wf, set_version_wf; try done. unfold fits. lia.
  - change (c_str _) with (c_str (kname (set_kname (o_name o) (set_version v g)))).
    rewrite set_kname_str. apply length_key20.
  - done.
  - done.
Qed.

Lemma single_hdr_match g v o d key v' :
  rcd_match key v' (single_hdr g v o, d) = bool_decide (key20 (o_name o) = key20 key) && (v =? v').
Proof.
  unfold rcd_match. simpl.
  change (c_str _) with (c_str (kname (set_kname (o_name o) (set_version v g)))).
  by rewrite set_kname_str.
Qed.

Lemma rcd_entry_wf r : rcd_wf r -> entry_wf (to_entry (LSingle r)).
Proof. intros []. by constructor. Qed.

(** * put *)

Definition put_entry (g : lehdr_t) (v : Z) (o : Object) (d : bytes) : lentry :=
  LSingle (single_hdr g v o, d).

Lemma on_log_Ret {A} (m : M LogSt A) s a l :
  m (get_log s) = Ret a l -> on_log m s = Ret a (set_log l s).
Proof. intros H. unfold on_log, zoom. by rewrite H. Qed.

Lemma on_log_Exit {A} (m : M LogSt A) s c l :
  m (get_log s) = Exit c l -> on_log m s = Exit c (set_log l s).
Proof. intros H. unfold on_log, zoom. by rewrite H. Qed.

Lemma set_log_id s : set_log (get_log s) s = s.
Proof. by destruct s as [[]]. Qed.

Lemma rd_block_full s p b :
  heap s !! p = Some b -> rd_block p (Z.of_nat (length b)) s = Ret b s.
Proof.
  intros H. unfold rd_block. rewrite H, (proj2 (Z.leb_le _ _)) by lia.
  by rewrite Nat2Z.id, take_ge.
Qed.

(** The state after a successful append and an update of the object map that
    keeps names, sizes and blocks. *)
Lemma store_inv_append s es e l om :
  store_inv s es -> lentry_wf e -> log_inv l ((to_entry <$> es) ++ [to_entry e]) ->
  sm_sorted om ->
  (forall k o', sm_find k om = Some o' ->
     exists o, sm_find k (objectMap (store s)) = Some o /\
       o_name o' = o_name o /\ o_size o' = o_size o /\ o_ptr o' = o_ptr o) ->
  store_inv (upd_objects om (set_log l s)) (es ++ [e]).
Proof.
  intros [H1 H2 H3 H4] He Hl Hs Hom. constructor; simpl.
  - rewrite fmap_app. destruct l. exact Hl.
  - apply Forall_app. split; [done|]. by constructor.
  - done.
  - intros k o' Hk. destruct (Hom k o' Hk) as (o & Ho & -> & -> & ->). by apply H4.
Qed.

Lemma put_run s es g key v o d :
  store_inv s es -> sm_find key (objectMap (store s)) = Some o -> heap s !! o_ptr o = Some d ->
  lehdr_wf g -> fits 64 v ->
  if room (log (store s)) (136 + o_size o)
  then exists s', put g key v s = Ret 0 s' /\ store_inv s' (es ++ [put_entry g v o d]) /\
       heap s' = heap s /\
       objectMap (store s') = sm_set key (setVersion v o) (objectMap (store s))
  else put g key v s = Exit 1 s.
Proof.
  intros Hinv Ho Hd Hg Hv. pose proof Hinv as [Hl Hwf Hs Hobj].
  destruct (Hobj key o Ho) as (Hn & Hsz & b & Hb & Hlen).
  assert (b = d) as -> by congruence.
  assert (lentry_wf (put_entry g v o d)) as He by by apply single_hdr_wf.
  pose proof (rcd_entry_wf _ He) as Hee.
  pose proof (appendv_inv (get_log s) (to_entry <$> es)
    [lehdr_bytes (single_hdr g v o); d] _ Hl Hee) as Ha.
  simpl in Ha. rewrite app_nil_r in Ha. specialize (Ha eq_refl ltac:(lia)). rewrite Hlen in Ha.
  unfold put. mstep. rewrite Ho.
  rewrite <- Hlen. erewrite bind_Ret by by apply rd_block_full. rewrite Hlen.
  destruct (room (log (store s)) (136 + o_size o)).
  - destruct Ha as (l & Hrun & Hli & _).
    erewrite bind_Ret by (apply on_log_Ret; exact Hrun). simpl.
    eexists. split; [reflexivity|]. split; [|done].
    apply (store_inv_append s es (put_entry g v o d) l); try done.
    + by apply sm_set_sorted.
    + intros k o'. destruct (decide (key = k)) as [<-|Hne].
      * simpl. rewrite sm_find_set_eq. intros [= <-]. eauto.
      * simpl. rewrite sm_find_set_ne by done. eauto.
  - erewrite bind_Exit by (apply on_log_Exit; exact Ha). by rewrite set_log_id.
Qed.

(** * get *)

Lemma get_run s es w0 key v addr b :
  store_inv s es -> heap s !! addr = Some b ->
  match log_find key v es with
  | Some d => (length d <= length b)%nat ->
      get w0 key v addr s = Ret NO_ERROR (upd_heap (<[addr := d ++ drop (length d) b]> (heap s)) s)
  | None => get w0 key v addr s = Ret ID_NOT_FOUND s
  end.
Proof.
  intros Hinv Hb. destruct (decide (es = [])) as [->|Hne].
  - simpl. unfold get, run_walk. pose proof (li_repr _ _ (si_log _ _ Hinv)) as Hr. simpl in Hr.
    munfold. by rewrite (walk_run _ _ _ _ _ Hr).
  - destruct (run_walk_spec s es key v w0 Hinv Hne) as (w' & Hw & Hf).
    unfold get. erewrite bind_Ret by exact Hw. simpl.
    destruct (log_find key v es) as [d|].
    + destruct Hf as (H1 & H2 & H3). intros Hlen. rewrite H1. simpl.
      erewrite bind_Ret by exact H3. unfold wr_block. munfold. rewrite Hb.
      by rewrite (proj2 (Nat.leb_le _ _)) by lia.
    + by rewrite Hf.
Qed.

(** * put_all *)

Definition block_of (s : StoreSt) (o : Object) : bytes := default [] (heap s !! o_ptr o).

(** The records of a snapshot. *)
Fixpoint snapshot_rcds (s : StoreSt) (gs : nat -> lehdr_t) (i : nat) (objs : list (bytes * Object)) :
    list rcd :=
  match objs with
  | [] => []
  | (_, o) :: objs' =>
      (single_hdr (gs i) (u64 (o_version o + 1)) o, block_of s o) :: snapshot_rcds s gs (S i) objs'
  end.

Lemma snapshot_iovs_run s gs objs i tot :
  Forall (fun ko => exists b, heap s !! o_ptr ko.2 = Some b /\ Z.of_nat (length b) = o_size ko.2 /\
                    0 <= o_size ko.2 < 2 ^ 62) objs ->
  (forall j, lehdr_wf (gs j)) ->
  Forall rcd_wf (snapshot_rcds s gs i objs) /\
  exists iovs, snapshot_iovs gs i objs (u64 tot) s =
    Ret (iovs, u64 (tot + Z.of_nat (length (inner_bytes (snapshot_rcds s gs i objs))))) s /\
    List.concat iovs = inner_bytes (snapshot_rcds s gs i objs).
Proof.
  intros Hobj Hgs. revert i tot. induction Hobj as [|[k o] objs (b & Hb & Hlen & Hsz) _ IH];
    intros i tot.
  - split; [constructor|]. exists []. simpl. by rewrite Z.add_0_r.
  - simpl in Hb, Hlen, Hsz. set (h := single_hdr (gs i) (u64 (o_version o + 1)) o).
    assert (rcd_wf (h, b)) as Hr by (apply single_hdr_wf; auto with nvs).
    destruct (IH (S i) (tot + (sizeof_lehdr + o_size o))) as (Hwf & iovs & Hrun & Hcat).
    simpl snapshot_rcds. unfold block_of at 1 2 3. rewrite Hb. simpl default. fold h.
    split; [by constructor|]. exists (lehdr_bytes h :: b :: iovs).
    cbn [snapshot_iovs]. fold h. rewrite <- Hlen.
    erewrite bind_Ret by by apply rd_block_full. rewrite Hlen.
    rewrite u64_add_l. erewrite bind_Ret by exact Hrun. split.
    + rewrite inner_bytes_cons, length_app, Nat2Z.inj_add, (length_rcd_bytes _ Hr).
      unfold sizeof_lehdr. cbn [fst snd]. unfold mret, M_ret. simpl len. by rewrite !Z.add_assoc.
    + simpl. rewrite inner_bytes_cons, Hcat. unfold rcd_bytes. simpl. by rewrite app_assoc.
Qed.

Definition snapshot_entry (s : StoreSt) (gs : nat -> lehdr_t) : lentry :=
  let rs := snapshot_rcds s gs 1 (objectMap (store s)) in
  LBatch (batch_hdr (gs O) (Z.of_nat (length (inner_bytes rs)))) rs.

Definition snapshot_size (s : StoreSt) (gs : nat -> lehdr_t) : Z :=
  Z.of_nat (length (inner_bytes (snapshot_rcds s gs 1 (objectMap (store s))))).

Lemma store_inv_objs s es :
  store_inv s es ->
  Forall (fun ko => exists b, heap s !! o_ptr ko.2 = Some b /\ Z.of_nat (length b) = o_size ko.2 /\
                    0 <= o_size ko.2 < 2 ^ 62) (objectMap (store s)).
Proof.
  intros [_ _ Hs Hobj]. apply Forall_forall. intros [k o] Hin.
  apply sm_elem_find in Hin; [|done]. destruct (Hobj k o Hin) as (_ & Hsz & b & Hb & Hl). eauto.
Qed.

Lemma put_all_run s es gs :
  store_inv s es -> objectMap (store s) <> [] -> (forall j, lehdr_wf (gs j)) ->
  snapshot_size s gs < 2 ^ 63 ->
  if room (log (store s)) (136 + snapshot_size s gs)
  then exists s', put_all gs s = Ret (snapshot_size s gs + 136) s' /\
       store_inv s' (es ++ [snapshot_entry s gs]) /\ heap s' = heap s /\
       objectMap (store s') =
         sm_map (fun o => setVersion (u64 (o_version o + 1)) o) (objectMap (store s))
  else put_all gs s = Exit 1 s.
Proof.
  intros Hinv Hne Hgs Hsz. pose proof Hinv as [Hl Hwf Hs Hobj].
  destruct (snapshot_iovs_run s gs (objectMap (store s)) 1 0 (store_inv_objs s es Hinv) Hgs)
    as (Hrs & iovs & Hrun & Hcat).
  assert (lentry_wf (snapshot_entry s gs)) as He.
  { unfold snapshot_entry. split_and!; [| done | done | done|].
    - apply set_len_wf; [unfold fits; unfold snapshot_size in Hsz; lia|].
      apply set_type_wf, set_version_wf; [split; [lia | done]|]. apply Hgs.
    - by destruct (objectMap (store s)) as [|[]]. }
  assert (entry_wf (to_entry (snapshot_entry s gs))) as Hee.
  { destruct He as (H1 & _ & H2 & _). by constructor. }
  unfold snapshot_size in *. set (n := Z.of_nat (length _)) in *.
  pose proof (appendv_inv (get_log s) (to_entry <$> es)
    (lehdr_bytes (batch_hdr (gs O) n) :: iovs) _ Hl Hee) as Ha.
  simpl in Ha. rewrite Hcat in Ha. specialize (Ha eq_refl Hsz). fold n in Ha.
  unfold put_all. mstep. change 0 with (u64 0). erewrite bind_Ret by exact Hrun.
  cbn [fst snd]. rewrite Z.add_0_l. fold n. rewrite (u64_small' n) by lia.
  destruct (room (log (store s)) (136 + n)).
  - destruct Ha as (l & Hap & Hli & _).
    erewrite bind_Ret by (apply on_log_Ret; exact Hap). simpl.
    eexists. unfold sizeof_lehdr. rewrite u64_small' by lia. split; [reflexivity|]. split; [|done].
    apply (store_inv_append s es (snapshot_entry s gs) l); try done.
    + by apply sm_map_sorted.
    + intros k o'. simpl. rewrite sm_find_map. destruct (sm_find k _) as [o|]; [|done].
      simpl. intros [= <-]. by exists o.
  - erewrite bind_Exit by (apply on_log_Exit; exact Ha). by rewrite set_log_id.
Qed.

(** ** Searching a log that grew *)

Lemma log_find_app key v es e :
  log_find key v es = None -> log_find key v (es ++ [e]) = entry_find key v e.
Proof.
  induction es as [|e' es IH]; simpl; [by destruct (entry_find key v e)|].
  destruct (entry_find key v e'); [done|]. done.
Qed.

Lemma log_find_app_old key v es e d :
  log_find key v es = Some d -> log_find key v (es ++ [e]) = Some d.
Proof.
  induction es as [|e' es IH]; simpl; [done|]. destruct (entry_find key v e'); [done|]. done.
Qed.

Lemma snapshot_rcds_but_last s gs i objs :
  but_last (snapshot_rcds s gs i objs) = snapshot_rcds s gs i (but_last objs).
Proof.
  revert i. induction objs as [|[k o] objs IH]; intros i; [done|]. simpl.
  destruct objs as [|[k' o'] objs]; [done|]. simpl in *. by rewrite <- IH.
Qed.

(** The names the log keeps tell the objects of the store apart. *)
Definition names_distinct (om : list (bytes * Object)) : Prop :=
  forall k o k' o', (k, o) ∈ om -> (k', o') ∈ om -> key20 (o_name o) = key20 k' -> k = k'.

Lemma but_last_incl {A} (x : A) l : x ∈ but_last l -> x ∈ l.
Proof.
  induction l as [|y l IH]; simpl; [done|]. destruct l as [|z l]; [by intros ?%not_elem_of_nil|].
  intros [->|H]%elem_of_cons; [left | right; auto].
Qed.

Lemma snapshot_find s gs i objs k o :
  NoDup objs.*1 ->
  (forall k1 o1, (k1, o1) ∈ objs -> key20 (o_name o1) = key20 k -> k1 = k) ->
  (k, o) ∈ objs -> key20 (o_name o) = key20 k ->
  rcd_find k (u64 (o_version o + 1)) (snapshot_rcds s gs i objs) = Some (block_of s o).
Proof.
  revert i. induction objs as [|[k' o'] objs IH]; intros i Hnd Hdist Hin Hname.
  { by apply not_elem_of_nil in Hin. }
  rewrite fmap_cons in Hnd. apply NoDup_cons in Hnd as [Hni Hnd]. simpl.
  rewrite single_hdr_match. destruct (decide (k' = k)) as [->|Hne].
  - apply elem_of_cons in Hin as [[= <-]|Hin].
    + by rewrite bool_decide_true, Z.eqb_refl by done.
    + exfalso. apply Hni. simpl. apply (list_elem_of_fmap_2 fst) in Hin. done.
  - rewrite bool_decide_false; [|intros H; apply Hne; by apply (Hdist k' o'); [left|]].
    simpl. apply elem_of_cons in Hin as [[= -> ->]|Hin]; [done|].
    apply IH; try done. intros k1 o1 H1. apply Hdist. by right.
Qed.

Lemma snapshot_find_none s gs i objs k v :
  (forall k1 o1, (k1, o1) ∈ objs -> key20 (o_name o1) = key20 k -> k1 = k) ->
  k ∉ objs.*1 -> rcd_find k v (snapshot_rcds s gs i objs) = None.
Proof.
  revert i. induction objs as [|[k' o'] objs IH]; intros i Hdist Hni; [done|].
  rewrite fmap_cons in Hni. apply not_elem_of_cons in Hni as [Hne Hni]. simpl in Hne |- *.
  rewrite single_hdr_match, bool_decide_false.
  - apply IH; [|done]. intros k1 o1 H1. apply Hdist. by right.
  - intros H. apply Hne. symmetry. by apply (Hdist k' o'); [left|].
Qed.

Lemma sm_sorted_nodup {V} (l : list (bytes * V)) : sm_sorted l -> NoDup l.*1.
Proof.
  induction l as [|[k v] l IH]; simpl; [constructor|]. intros [Hf Hs]. constructor; [|auto].
  intros ([k' v'] & -> & Hin)%list_elem_of_fmap. rewrite Forall_forall in Hf. apply Hf in Hin.
  simpl in Hin. by rewrite key_lt_irrefl in Hin.
Qed.

(** ** Records as a program sees them *)

(** A name as the log keeps it (19 characters), a version and the data. *)
Definition srecord : Type := bytes * Z * bytes.

Fixpoint recs_find (key : bytes) (v : Z) (l : list srecord) : option bytes :=
  match l with
  | [] => None
  | (n, w, d) :: l' =>
      if bool_decide (n = key20 key) && (w =? v) then Some d else recs_find key v l'
  end.

(** The records of the objects [objs] of a snapshot. *)
Definition snapshot_recs (s : StoreSt) (objs : list (bytes * Object)) : list srecord :=
  (fun ko => (key20 ko.1, u64 (o_version ko.2 + 1), block_of s ko.2)) <$> objs.

(** The first of two searches that finds something. *)
Definition first_of (x y : option bytes) : option bytes :=
  match x with Some d => Some d | None => y end.

Lemma recs_find_app key v l1 l2 :
  recs_find key v (l1 ++ l2) = first_of (recs_find key v l1) (recs_find key v l2).
Proof. induction l1 as [|[[n w] d] l1 IH]; simpl; [done|]. by case_match. Qed.

Lemma log_find_snoc key v es e :
  log_find key v (es ++ [e]) = first_of (log_find key v es) (entry_find key v e).
Proof.
  induction es as [|e' es IH]; simpl; [by destruct (entry_find _ _ _)|].
  by destruct (entry_find key v e').
Qed.

Lemma put_entry_find key v g w o d :
  entry_find key v (put_entry g w o d) = recs_find key v [(key20 (o_name o), w, d)].
Proof. simpl. by rewrite single_hdr_match. Qed.

Lemma snapshot_rcds_find s gs i objs key v :
  Forall (fun ko => o_name ko.2 = ko.1) objs ->
  rcd_find key v (snapshot_rcds s gs i objs) = recs_find key v (snapshot_recs s objs).
Proof.
  intros H. revert i. induction H as [|[k o] objs Hk _ IH]; intros i; [done|].
  simpl in *. by rewrite single_hdr_match, Hk, IH.
Qed.

Lemma snapshot_entry_find s es gs key v :
  store_inv s es ->
  entry_find key v (snapshot_entry s gs) =
  recs_find key v (snapshot_recs s (but_last (objectMap (store s)))).
Proof.
  intros Hinv. simpl. rewrite snapshot_rcds_but_last. apply snapshot_rcds_find.
  apply Forall_forall. intros [k o] Hin%but_last_incl.
  apply sm_elem_find in Hin; [|apply Hinv]. by apply (si_objs _ _ Hinv).
Qed.

(** What [get] does when the search gives [r]: the data goes to the start of a
    buffer that is large enough, or nothing changes. *)
Definition get_yields (r : option bytes) (w0 : walkentry) (key : bytes) (v addr : Z)
    (s : StoreSt) : Prop :=
  forall b, heap s !! addr = Some b ->
  match r with
  | Some d => (length d <= length b)%nat ->
      get w0 key v addr s = Ret NO_ERROR (upd_heap (<[addr := d ++ drop (length d) b]> (heap s)) s)
  | None => get w0 key v addr s = Ret ID_NOT_FOUND s
  end.

Lemma get_yields_find s es w0 key v addr :
  store_inv s es -> get_yields (log_find key v es) w0 key v addr s.
Proof. intros Hinv b Hb. by apply (get_run s es). Qed.

(** * Theorems on the store *)

(** NVSStore::create_obj.  A new key is bound to an object of version 0 over
    the allocated block, which is also entered in the address map; the other
    objects, the log and the store invariant are kept.  A key that is taken
    ends the process. *)
Theorem create_obj_spec s es db key size p init :
  store_inv s es -> heap s !! p = None -> Z.of_nat (length init) = size -> size < 2 ^ 62 ->
  match sm_find key (objectMap (store s)) with
  | None => exists s', create_obj db key size p init s = Ret (NO_ERROR, p) s' /\
      store_inv s' es /\ sm_find key (objectMap (store s')) = Some (new_Object db key size 0 p) /\
      (forall k, k <> key -> sm_find k (objectMap (store s')) = sm_find k (objectMap (store s))) /\
      addrMap (store s') !! p = Some key /\ heap s' !! p = Some init
  | Some _ => exists s', create_obj db key size p init s = Exit 1 s'
  end.
Proof.
  intros [H1 H2 H3 H4] Hp Hlen Hsz. unfold create_obj. mstep. mstep. simpl.
  destruct (sm_find key (objectMap (store s))) as [o|] eqn:E; [by eexists|].
  eexists. split; [reflexivity|]. split; [constructor; simpl; [exact H1 | done | |] | split_and!]; simpl.
  - by apply sm_set_sorted.
  - intros k o. destruct (decide (key = k)) as [<-|Hne].
    + rewrite sm_find_set_eq. intros [= <-].
      destruct db; simpl; (split_and!; [done | lia | done | exists init; by rewrite lookup_insert_eq]).
    + rewrite sm_find_set_ne by done. intros Hk. destruct (H4 k o Hk) as (N & S & b & Hb & Hl).
      split_and!; try (done || lia). exists b. split; [|done].
      rewrite lookup_insert_ne; [done|]. congruence.
  - rewrite sm_find_set_eq. by destruct db.
  - intros k Hk. by rewrite sm_find_set_ne by done.
  - apply lookup_insert_eq.
  - apply lookup_insert_eq.
Qed.

(** NVSStore::put, every branch.  With room in the log the call returns 0
    and the log ends with the object's record under the version, the object
    takes the version and nothing else changes; without room the process ends
    with status 1; an unknown key returns ELEM_NOT_FOUND. *)
Theorem put_spec s es g key v :
  store_inv s es -> lehdr_wf g -> fits 64 v ->
  match sm_find key (objectMap (store s)) with
  | None => put g key v s = Ret (ErrorCode_code ELEM_NOT_FOUND) s
  | Some o =>
      if room (log (store s)) (136 + o_size o)
      then exists s', put g key v s = Ret 0 s' /\
           store_inv s' (es ++ [put_entry g v o (block_of s o)]) /\ heap s' = heap s /\
           objectMap (store s') = sm_set key (setVersion v o) (objectMap (store s))
      else put g key v s = Exit 1 s
  end.
Proof.
  intros Hinv Hg Hv. destruct (sm_find key (objectMap (store s))) as [o|] eqn:Ho.
  - destruct (si_objs _ _ Hinv key o Ho) as (_ & _ & b & Hb & _).
    unfold block_of. rewrite Hb. by apply put_run.
  - unfold put. mstep. by rewrite Ho.
Qed.

(** C5: NVSStore::get implements the search of the abstract log.  It copies the
    data of the first record with the version and with the name up to 19
    characters into the caller's buffer, or returns ID_NOT_FOUND and changes
    nothing; on well-formed logs it always ends and reads inside the mapping. *)
Theorem get_refines s es w0 key v addr b :
  store_inv s es -> heap s !! addr = Some b ->
  match log_find key v es with
  | Some d => (length d <= length b)%nat ->
      get w0 key v addr s = Ret NO_ERROR (upd_heap (<[addr := d ++ drop (length d) b]> (heap s)) s)
  | None => get w0 key v addr s = Ret ID_NOT_FOUND s
  end.
Proof. apply get_run. Qed.

(** C4: what [put] does to later reads.  The put of an object with content [d]
    under version [v], with room in the log, makes [get] of every key and
    version give: the record the log already had for that name and version (the
    oldest wins), else [d] when the version is [v] and the name agrees with the
    key in its first 19 characters, else ID_NOT_FOUND.  So the bytes put are
    the bytes got exactly when the log had no record of the name and version
    before.  Without room the process ends and nothing has changed. *)
Theorem put_get_roundtrip s es g key v o d :
  store_inv s es -> sm_find key (objectMap (store s)) = Some o -> heap s !! o_ptr o = Some d ->
  lehdr_wf g -> fits 64 v ->
  if room (log (store s)) (136 + o_size o)
  then exists s', put g key v s = Ret 0 s' /\ heap s' = heap s /\
    forall key' v' w0 addr,
      get_yields (first_of (log_find key' v' es)
                    (if bool_decide (key20 key = key20 key') && (v =? v') then Some d else None))
        w0 key' v' addr s'
  else put g key v s = Exit 1 s.
Proof.
  intros Hinv Ho Hd Hg Hv. pose proof (put_run s es g key v o d Hinv Ho Hd Hg Hv) as H.
  destruct (room _ _); [|done]. destruct H as (s' & Hput & Hinv' & Hh & _).
  exists s'. do 2 (split; [done|]). intros key' v' w0 addr.
  pose proof (get_yields_find s' _ w0 key' v' addr Hinv') as Hget.
  rewrite log_find_snoc, put_entry_find in Hget. simpl in Hget.
  by rewrite (proj1 (si_objs _ _ Hinv key o Ho)) in Hget.
Qed.

(** The log keeps 19 characters of a name.  A value put under one key is
    what [get] returns for every other key with the same first 19 characters. *)
Theorem long_keys_collide s es g key key' v o d w0 addr b :
  store_inv s es -> sm_find key (objectMap (store s)) = Some o -> heap s !! o_ptr o = Some d ->
  lehdr_wf g -> fits 64 v -> room (log (store s)) (136 + o_size o) = true ->
  key' <> key -> key20 key = key20 key' ->
  log_find key' v es = None -> heap s !! addr = Some b -> (length d <= length b)%nat ->
  exists s' s'', put g key v s = Ret 0 s' /\ get w0 key' v addr s' = Ret NO_ERROR s'' /\
    heap s'' = <[addr := d ++ drop (length d) b]> (heap s).
Proof.
  intros Hinv Ho Hd Hg Hv Hroom _ Hk Hnew Hb Hlen.
  pose proof (put_run s es g key v o d Hinv Ho Hd Hg Hv) as H. rewrite Hroom in H.
  destruct H as (s' & Hput & Hinv' & Hh & _).
  destruct (si_objs _ _ Hinv key o Ho) as (Hn & _).
  pose proof (get_run s' _ w0 key' v addr b Hinv' ltac:(by rewrite Hh)) as Hget.
  rewrite (log_find_app _ _ _ _ Hnew) in Hget. simpl in Hget.
  rewrite single_hdr_match, Hn, bool_decide_true, Z.eqb_refl in Hget by done. simpl in Hget.
  eexists s', _. split; [done|]. split; [by apply Hget|]. simpl. by rewrite Hh.
Qed.

(** C6: NVSStore::put_all takes a snapshot.  With room in the log it returns the
    bytes written and the version of every object goes up by one (modulo
    2^64).  [get] of any key and version then gives: the record the log already
    had for that name and version, else the content at the snapshot of the
    first object in key order, the last object left out, whose name agrees
    with the key in its first 19 characters and whose new version it is, else
    ID_NOT_FOUND.  So an object whose name and new version are not in the log
    and whose 19 characters are its own is read back unless it is the last, and
    the last is lost.  Without room the process ends and nothing has changed. *)
Theorem put_all_get s es gs :
  store_inv s es -> objectMap (store s) <> [] -> (forall j, lehdr_wf (gs j)) ->
  snapshot_size s gs < 2 ^ 63 ->
  if room (log (store s)) (136 + snapshot_size s gs)
  then exists s', put_all gs s = Ret (snapshot_size s gs + 136) s' /\ heap s' = heap s /\
    (forall k, sm_find k (objectMap (store s')) =
       (fun o => setVersion (u64 (o_version o + 1)) o) <$> sm_find k (objectMap (store s))) /\
    forall key v w0 addr,
      get_yields (first_of (log_find key v es)
                    (recs_find key v (snapshot_recs s (but_last (objectMap (store s))))))
        w0 key v addr s'
  else put_all gs s = Exit 1 s.
Proof.
  intros Hinv Hne Hgs Hsz. pose proof (put_all_run s es gs Hinv Hne Hgs Hsz) as H.
  destruct (room _ _); [|done]. destruct H as (s' & Hput & Hinv' & Hh & Hom).
  exists s'. do 2 (split; [done|]). split; [intros k; rewrite Hom; apply sm_find_map|].
  intros key v w0 addr. pose proof (get_yields_find s' _ w0 key v addr Hinv') as Hget.
  by rewrite log_find_snoc, (snapshot_entry_find s es) in Hget.
Qed.

(** The snapshot of a store whose objects the log tells apart. *)
Section Snapshot.
Context (s : StoreSt) (es : list lentry) (gs : nat -> lehdr_t).
Hypothesis Hinv : store_inv s es.
Hypothesis Hgs : forall j, lehdr_wf (gs j).
Hypothesis Hsize : snapshot_size s gs < 2 ^ 63.
Hypothesis Hroom : room (log (store s)) (136 + snapshot_size s gs) = true.
Hypothesis Hnames : names_distinct (objectMap (store s)).

Lemma snapshot_name k o : (k, o) ∈ objectMap (store s) -> o_name o = k.
Proof. intros H. apply sm_elem_find in H; [|apply Hinv]. by apply (si_objs _ _ Hinv). Qed.

Lemma snapshot_distinct k o (l : list (bytes * Object)) :
  (k, o) ∈ objectMap (store s) -> (forall x, x ∈ l -> x ∈ objectMap (store s)) ->
  forall k1 o1, (k1, o1) ∈ l -> key20 (o_name o1) = key20 k -> k1 = k.
Proof. intros Hin Hl k1 o1 H1 Hk. by apply (Hnames k1 o1 k o); [apply Hl| |]. Qed.

(** Every object but the last in key order can be read back under its new
    version with its content at the time of the snapshot. *)
Theorem put_all_readable k o w0 addr b :
  (k, o) ∈ but_last (objectMap (store s)) ->
  log_find k (u64 (o_version o + 1)) es = None ->
  heap s !! addr = Some b -> (length (block_of s o) <= length b)%nat ->
  exists s' s'', put_all gs s = Ret (snapshot_size s gs + 136) s' /\
    sm_find k (objectMap (store s')) = Some (setVersion (u64 (o_version o + 1)) o) /\
    get w0 k (u64 (o_version o + 1)) addr s' = Ret NO_ERROR s'' /\
    heap s'' = <[addr := block_of s o ++ drop (length (block_of s o)) b]> (heap s).
Proof.
  intros Hin Hnew Hb Hlen. pose proof (but_last_incl _ _ Hin) as Hin'.
  assert (objectMap (store s) <> []) as Hne by by eapply elem_of_not_nil.
  pose proof (put_all_run s es gs Hinv Hne Hgs Hsize) as H. rewrite Hroom in H.
  destruct H as (s' & Hput & Hinv' & Hh & Hom).
  pose proof (get_run s' _ w0 k (u64 (o_version o + 1)) addr b Hinv' ltac:(by rewrite Hh)) as Hget.
  rewrite (log_find_app _ _ _ _ Hnew) in Hget. simpl in Hget.
  rewrite snapshot_rcds_but_last, (snapshot_find s gs 1 _ k o) in Hget; try done.
  - eexists s', _. split; [done|]. split; [|split; [by apply Hget | simpl; by rewrite Hh]].
    rewrite Hom, sm_find_map, (sm_elem_find k o); [done | apply Hinv | done].
  - pose proof (sm_sorted_nodup _ (si_sorted _ _ Hinv)) as Hnd. revert Hnd.
    generalize (objectMap (store s)). clear. intros l.
    induction l as [|x l IH]; simpl; [done|]. destruct l as [|y l]; [constructor|].
    intros [Hx Hl]%NoDup_cons. rewrite fmap_cons. constructor; [|auto].
    intros (z & Hz & Hin)%list_elem_of_fmap. apply Hx. apply but_last_incl in Hin.
    rewrite Hz. by apply list_elem_of_fmap_2.
  - apply (snapshot_distinct k o); [done|]. intros x. apply but_last_incl.
  - by rewrite (snapshot_name k o).
Qed.

(** The last object of a snapshot cannot be read back.  The loop over the
    batch stops when the offset after the current record reaches the batch's
    length, which is before the last record is compared, so [get] of the last
    key's new version returns ID_NOT_FOUND although put_all wrote it. *)
Theorem put_all_last_lost init k o w0 addr b :
  objectMap (store s) = init ++ [(k, o)] ->
  log_find k (u64 (o_version o + 1)) es = None -> heap s !! addr = Some b ->
  exists s', put_all gs s = Ret (snapshot_size s gs + 136) s' /\
    sm_find k (objectMap (store s')) = Some (setVersion (u64 (o_version o + 1)) o) /\
    get w0 k (u64 (o_version o + 1)) addr s' = Ret ID_NOT_FOUND s'.
Proof.
  intros Hom Hnew Hb.
  assert ((k, o) ∈ objectMap (store s)) as Hin' by (rewrite Hom; set_solver).
  assert (objectMap (store s) <> []) as Hne by by eapply elem_of_not_nil.
  pose proof (put_all_run s es gs Hinv Hne Hgs Hsize) as H. rewrite Hroom in H.
  destruct H as (s' & Hput & Hinv' & Hh & Hom').
  exists s'. split; [done|]. split.
  { rewrite Hom', sm_find_map, (sm_elem_find k o); [done | apply Hinv | done]. }
  pose proof (get_run s' _ w0 k (u64 (o_version o + 1)) addr b Hinv' ltac:(by rewrite Hh)) as Hget.
  rewrite (log_find_app _ _ _ _ Hnew) in Hget. simpl in Hget.
  assert (but_last (objectMap (store s)) = init) as Hbl.
  { rewrite Hom. clear. induction init as [|x init IH]; [done|]. simpl. rewrite IH.
    by destruct init. }
  rewrite snapshot_rcds_but_last, snapshot_find_none in Hget; [done | |].
  - apply (snapshot_distinct k o); [done|]. intros x. apply but_last_incl.
  - rewrite Hbl. pose proof (sm_sorted_nodup _ (si_sorted _ _ Hinv)) as Hnd.
    rewrite Hom, fmap_app in Hnd. apply NoDup_app in Hnd as (_ & Hd & _).
    intros Hk. apply (Hd k Hk). by left.
Qed.
End Snapshot.

(** NVSStore::get_with_malloc on a consumer that has no object for the key:
    when the log has the version, a block is allocated, the data is copied into
    it and the new object is bound to the key under that version. *)
Theorem get_with_malloc_new s es db w0 key v p init d :
  store_inv s es -> es <> [] -> sm_find key (objectMap (store s)) = None ->
  log_find key v es = Some d -> length init = length d ->
  exists s', get_with_malloc db w0 key v p init s = Ret (NO_ERROR, Some p) s' /\
    heap s' !! p = Some d /\
    (exists o, sm_find key (objectMap (store s')) = Some o /\ o_version o = v /\ o_ptr o = p /\
               o_size o = Z.of_nat (length d)).
Proof.
  intros Hinv Hne Hk Hf Hlen.
  destruct (run_walk_spec s es key v w0 Hinv Hne) as (w' & Hw & Hres). rewrite Hf in Hres.
  destruct Hres as (H1 & H2 & H3). unfold get_with_malloc. erewrite bind_Ret by exact Hw.
  cbn [snd]. rewrite H1, decide_False by (intros []; done). mstep. rewrite Hk.
  mstep. cbv beta zeta. mstep.
  assert (forall om h, rd_log (we_datap w') (we_len w')
            (upd_objects om (upd_heap h s)) = Ret d (upd_objects om (upd_heap h s))) as Hrd.
  { intros om h. unfold rd_log in *. simpl. destruct (_ && _); [|done].
    injection H3 as ->. done. }
  erewrite bind_Ret by apply Hrd. unfold wr_block, mbind, M_bind. simpl.
  replace (o_ptr (new_Object db key (we_len w') v p)) with p by by destruct db.
  rewrite lookup_insert_eq, Hlen, Nat.leb_refl.
  eexists. split; [reflexivity|]. simpl. split.
  - rewrite lookup_insert_eq. f_equal. rewrite drop_ge by lia. apply app_nil_r.
  - eexists. split; [apply sm_find_set_eq|]. rewrite H2. by destruct db.
Qed.

(** NVSStore::get_with_malloc ignores the result of the walk.  On an empty
    log no entry is visited and the search result is what the uninitialised
    [wentry] held: with an error code other than NO_ERROR there the call returns
    ID_NOT_FOUND, with NO_ERROR and a stray data pointer it reads outside the
    log. *)
Theorem get_with_malloc_uninitialised s db w0 key v p init :
  store_inv s [] ->
  (we_err w0 <> NO_ERROR ->
   get_with_malloc db w0 key v p init s = Ret (ID_NOT_FOUND, None) s) /\
  (we_err w0 = NO_ERROR -> mapped_len (log (store s)) < we_datap w0 -> 0 <= we_len w0 ->
   exists s', get_with_malloc db w0 key v p init s = Undef s').
Proof.
  intros Hinv. pose proof (li_repr _ _ (si_log _ _ Hinv)) as Hr. simpl in Hr.
  assert (run_walk (search_for w0 key v) s = Ret (ID_NOT_FOUND, search_for w0 key v) s) as Hw.
  { unfold run_walk. by rewrite (walk_run _ _ _ _ _ Hr). }
  unfold get_with_malloc. rewrite (bind_Ret _ _ _ _ _ Hw). cbn [snd search_for we_err].
  split; intros Herr.
  - by rewrite decide_True.
  - intros Hout Hlen. rewrite decide_False by (intros H; by apply H). mstep.
    assert (forall s', log (store s') = log (store s) ->
              rd_log (we_datap w0) (we_len w0) s' = Undef s') as Hrd.
    { intros s' El. unfold rd_log. rewrite El.
      rewrite (proj2 (Z.leb_gt (_ + _) _)) by lia. by rewrite andb_false_r. }
    destruct (sm_find key (objectMap (store s))); mstep; cbv beta zeta; mstep;
      eexists; apply bind_Undef, Hrd; done.
Qed.

(** NVSStore::free_obj never returns.  An address that is not an object's
    ends the process; for the address of an object both map entries are erased
    and the erased iterator is then dereferenced. *)
Theorem free_obj_never_returns s addr :
  (exists c s', free_obj addr s = Exit c s') \/ (exists s', free_obj addr s = Undef s').
Proof.
  unfold free_obj. mstep. destruct (addrMap (store s) !! addr) as [k|]; [|by left; eexists _, _].
  destruct (sm_find k (objectMap (store s))); [|by left; eexists _, _]. right. by eexists.
Qed.

(** * The theorems at concrete inputs *)

Definition key_a : bytes := [Byte.x61].
Definition key_b : bytes := [Byte.x62].
Definition data_a : bytes := [Byte.x01; Byte.x02; Byte.x03].
Definition data_b : bytes := [Byte.x04; Byte.x05].
Definition obj_a : Object := new_Object false key_a 3 0 100.
Definition obj_b : Object := new_Object false key_b 2 0 200.

(** Two objects and a free buffer at 300, over an empty log of 1000 bytes. *)
Definition demo_store : StoreSt :=
  mkStoreSt (mkStore [] (lsoft demo_log) [(key_a, obj_a); (key_b, obj_b)]
               {[100 := key_a; 200 := key_b]})
    (lpm demo_log) {[100 := data_a; 200 := data_b; 300 := replicate 4 NUL]}.

Definition demo_wentry : walkentry := mkWalk 0 0 0 (replicate 20 Byte.xcc) NO_ERROR.

Lemma demo_store_inv : store_inv demo_store [].
Proof.
  constructor; [exact demo_log_inv | constructor | by repeat constructor |].
  intros k o. simpl. destruct (decide (k = key_a)) as [->|]; [intros [= <-]|].
  { split_and!; try done. by exists data_a. }
  destruct (decide (k = key_b)) as [->|]; [intros [= <-]|done].
  split_and!; try done. by exists data_b.
Qed.

Lemma create_obj_spec_witness :
  exists s', create_obj false [Byte.x63] 4 400 (replicate 4 NUL) demo_store = Ret (NO_ERROR, 400) s' /\
    store_inv s' [] /\
    sm_find [Byte.x63] (objectMap (store s')) = Some (new_Object false [Byte.x63] 4 0 400) /\
    (forall k, k <> [Byte.x63] ->
       sm_find k (objectMap (store s')) = sm_find k (objectMap (store demo_store))) /\
    addrMap (store s') !! 400 = Some [Byte.x63] /\ heap s' !! 400 = Some (replicate 4 NUL).
Proof.
  exact (create_obj_spec demo_store [] false [Byte.x63] 4 400 (replicate 4 NUL) demo_store_inv
    eq_refl eq_refl eq_refl).
Defined.

Lemma put_spec_witness :
  exists s', put demo_garbage key_a 1 demo_store = Ret 0 s' /\
    store_inv s' ([] ++ [put_entry demo_garbage 1 obj_a (block_of demo_store obj_a)]) /\
    heap s' = heap demo_store /\
    objectMap (store s') = sm_set key_a (setVersion 1 obj_a) (objectMap (store demo_store)).
Proof.
  exact (put_spec demo_store [] demo_garbage key_a 1 demo_store_inv demo_garbage_wf (u64_fits 1)).
Defined.

Lemma get_refines_witness :
  get demo_wentry key_a 1 300 demo_store = Ret ID_NOT_FOUND demo_store.
Proof.
  exact (get_refines demo_store [] demo_wentry key_a 1 300 (replicate 4 NUL) demo_store_inv eq_refl).
Defined.

Lemma put_get_roundtrip_witness :
  exists s', put demo_garbage key_a 1 demo_store = Ret 0 s' /\
    get demo_wentry key_a 1 300 s' =
      Ret NO_ERROR (upd_heap (<[300 := data_a ++ [NUL]]> (heap s')) s') /\
    get demo_wentry key_b 1 300 s' = Ret ID_NOT_FOUND s'.
Proof.
  pose proof (put_get_roundtrip demo_store [] demo_garbage key_a 1 obj_a data_a demo_store_inv
    eq_refl eq_refl demo_garbage_wf (u64_fits 1)) as H.
  change (room (log (store demo_store)) (136 + o_size obj_a)) with true in H.
  destruct H as (s' & Hput & Hh & H). exists s'. split; [exact Hput|].
  assert (heap s' !! 300 = Some (replicate 4 NUL)) as Hb by (rewrite Hh; reflexivity). split.
  - exact (H key_a 1 demo_wentry 300 _ Hb ltac:(simpl; lia)).
  - exact (H key_b 1 demo_wentry 300 _ Hb).
Defined.

(** A store with an object whose key has 20 characters. *)
Definition key_long : bytes := replicate 20 Byte.x61.
Definition key_longer : bytes := replicate 21 Byte.x61.

Definition long_store : StoreSt :=
  mkStoreSt (mkStore [] (lsoft demo_log) [(key_long, new_Object false key_long 3 0 100)]
               {[100 := key_long]})
    (lpm demo_log) {[100 := data_a; 300 := replicate 4 NUL]}.

Lemma long_store_inv : store_inv long_store [].
Proof.
  constructor; [exact demo_log_inv | constructor | by repeat constructor |].
  intros k o. simpl. destruct (decide (k = key_long)) as [->|]; [intros [= <-]|done].
  split_and!; try done. by exists data_a.
Qed.

Lemma long_keys_collide_witness :
  exists s' s'', put demo_garbage key_long 1 long_store = Ret 0 s' /\
    get demo_wentry key_longer 1 300 s' = Ret NO_ERROR s'' /\
    heap s'' = <[300 := data_a ++ drop (length data_a) (replicate 4 NUL)]> (heap long_store).
Proof.
  apply (long_keys_collide long_store [] demo_garbage key_long key_longer 1
           (new_Object false key_long 3 0 100) data_a demo_wentry 300);
    try reflexivity; [exact long_store_inv | exact demo_garbage_wf | exact (u64_fits 1)
                     | discriminate | simpl; lia].
Defined.

Lemma demo_names : names_distinct (objectMap (store demo_store)).
Proof.
  intros k o k' o' H1 H2. simpl in *.
  repeat (apply elem_of_cons in H1 as [[= -> ->]|H1]); try (by apply not_elem_of_nil in H1);
  repeat (apply elem_of_cons in H2 as [[= -> ->]|H2]); try (by apply not_elem_of_nil in H2); done.
Qed.

(** The first of the two objects is read back, the second is lost. *)
Lemma put_all_get_witness :
  exists s', put_all (fun _ => demo_garbage) demo_store = Ret 413 s' /\
    sm_find key_b (objectMap (store s')) = Some (setVersion 1 obj_b) /\
    get demo_wentry key_a 1 300 s' =
      Ret NO_ERROR (upd_heap (<[300 := data_a ++ [NUL]]> (heap s')) s') /\
    get demo_wentry key_b 1 300 s' = Ret ID_NOT_FOUND s'.
Proof.
  pose proof (put_all_get demo_store [] (fun _ => demo_garbage) demo_store_inv ltac:(discriminate)
    (fun _ => demo_garbage_wf) eq_refl) as H.
  change (room (log (store demo_store)) (136 + snapshot_size demo_store (fun _ => demo_garbage)))
    with true in H.
  destruct H as (s' & Hput & Hh & Hom & H). exists s'. split; [exact Hput|].
  assert (heap s' !! 300 = Some (replicate 4 NUL)) as Hb by (rewrite Hh; reflexivity).
  split; [exact (Hom key_b)|]. split.
  - exact (H key_a 1 demo_wentry 300 _ Hb ltac:(vm_compute; lia)).
  - exact (H key_b 1 demo_wentry 300 _ Hb).
Defined.

Lemma put_all_readable_witness :
  exists s' s'', put_all (fun _ => demo_garbage) demo_store = Ret 413 s' /\
    sm_find key_a (objectMap (store s')) = Some (setVersion 1 obj_a) /\
    get demo_wentry key_a 1 300 s' = Ret NO_ERROR s'' /\
    heap s'' = <[300 := data_a ++ drop (length data_a) (replicate 4 NUL)]> (heap demo_store).
Proof.
  apply (put_all_readable demo_store [] (fun _ => demo_garbage) demo_store_inv (fun _ => demo_garbage_wf)
           eq_refl eq_refl demo_names key_a obj_a demo_wentry 300);
    try reflexivity; [left | vm_compute; lia].
Defined.

Lemma put_all_last_lost_witness :
  exists s', put_all (fun _ => demo_garbage) demo_store = Ret 413 s' /\
    sm_find key_b (objectMap (store s')) = Some (setVersion 1 obj_b) /\
    get demo_wentry key_b 1 300 s' = Ret ID_NOT_FOUND s'.
Proof.
  apply (put_all_last_lost demo_store [] (fun _ => demo_garbage) demo_store_inv
           (fun _ => demo_garbage_wf) eq_refl eq_refl demo_names [(key_a, obj_a)] key_b obj_b
           demo_wentry 300 (replicate 4 NUL)); reflexivity.
Defined.

(** A consumer: the log the producer wrote, no objects. *)
Definition consumer : StoreSt :=
  match put demo_garbage key_a 1 demo_store with
  | Ret _ s => mkStoreSt (mkStore [] (log (store s)) [] ∅) (spm s) ∅
  | _ => demo_store
  end.

Definition demo_put : lentry := put_entry demo_garbage 1 obj_a data_a.

Lemma consumer_inv : store_inv consumer [demo_put].
Proof.
  pose proof (put_run demo_store [] demo_garbage key_a 1 obj_a data_a demo_store_inv eq_refl eq_refl
    demo_garbage_wf (u64_fits 1)) as H.
  change (room (log (store demo_store)) (136 + o_size obj_a)) with true in H.
  destruct H as (s' & Hs & Hinv & _). unfold consumer. rewrite Hs.
  constructor; [apply (si_log _ _ Hinv) | apply (si_wf _ _ Hinv) | constructor | done].
Qed.

Lemma get_with_malloc_new_witness :
  exists s', get_with_malloc false demo_wentry key_a 1 500 (replicate 3 NUL) consumer
               = Ret (NO_ERROR, Some 500) s' /\
    heap s' !! 500 = Some data_a /\
    (exists o, sm_find key_a (objectMap (store s')) = Some o /\ o_version o = 1 /\ o_ptr o = 500 /\
               o_size o = 3).
Proof.
  exact (get_with_malloc_new consumer [demo_put] false demo_wentry key_a 1 500 (replicate 3 NUL) data_a
           consumer_inv ltac:(discriminate) eq_refl eq_refl eq_refl).
Defined.

Lemma get_with_malloc_uninitialised_witness :
  get_with_malloc false (we_set_err ID_NOT_FOUND demo_wentry) key_a 1 500 [] demo_store
    = Ret (ID_NOT_FOUND, None) demo_store /\
  (exists s', get_with_malloc false (mkWalk 1 9999 0 [] NO_ERROR) key_a 1 500 [] demo_store = Undef s').
Proof.
  split.
  - apply (get_with_malloc_uninitialised demo_store false (we_set_err ID_NOT_FOUND demo_wentry)
      key_a 1 500 [] demo_store_inv). discriminate.
  - apply (get_with_malloc_uninitialised demo_store false (mkWalk 1 9999 0 [] NO_ERROR)
      key_a 1 500 [] demo_store_inv); [reflexivity | vm_compute; reflexivity | simpl; lia].
Defined.
