(* ===== verification/Store.v ===== *)
(** The store interface, src/nvstream/include/nvs/store.h: the virtual methods
    as a class of operations over a state, what a store promises to a program
    that puts versions of its objects and reads them back, and the theorem of
    such a program, proved against the promise alone.

    Every call takes an environment of type [E]: what the machine answers during
    the call (the block [malloc] returns, indeterminate locals, open files,
    clock values).  Each store has its own [E]. *)
From S2P Require Import Prelude Mem LogFmt Object SMap NvsStore.

Class Store (S E : Type) : Type := {
  v_create_obj : E -> bytes -> Z -> M S (ErrorCode * option Z);
  v_free_obj : Z -> M S ErrorCode;
  v_put : E -> bytes -> Z -> M S Z;
  v_put_all : E -> M S Z;
  v_get : E -> bytes -> Z -> Z -> M S ErrorCode;
  v_get_with_malloc : E -> bytes -> Z -> M S (ErrorCode * option Z);
  v_get_store_id : M S bytes
}.

(** * The C heap of a store *)

(** [malloc] returning block [p] with content [init]. *)
Definition h_malloc (p : Z) (init : bytes) : M cheap Z := fun h => Ret p (<[p := init]> h).

(** The first [n] bytes of the block at [p]. *)
Definition h_read (p n : Z) : M cheap bytes := fun h =>
  match h !! p with
  | Some b => if n <=? Z.of_nat (length b) then Ret (take (Z.to_nat n) b) h else Undef h
  | None => Undef h
  end.

(** Bytes copied to offset [off] of the block at [p]. *)
Definition h_write_at (p off : Z) (bs : bytes) : M cheap unit := fun h =>
  match h !! p with
  | Some b => if (0 <=? off) && (off + Z.of_nat (length bs) <=? Z.of_nat (length b))
              then Ret tt (<[p := take (Z.to_nat off) b ++ bs ++
                                  drop (Z.to_nat off + length bs) b]> h)
              else Undef h
  | None => Undef h
  end.

Definition h_write (p : Z) (bs : bytes) : M cheap unit := h_write_at p 0 bs.

(** [free(p)]: the block must be one of the heap. *)
Definition h_free (p : Z) : M cheap unit := fun h =>
  match h !! p with Some _ => Ret tt (delete p h) | None => Undef h end.

Lemma h_read_full (h : cheap) p b :
  h !! p = Some b -> h_read p (Z.of_nat (length b)) h = Ret b h.
Proof.
  intros H. unfold h_read. rewrite H, (proj2 (Z.leb_le _ _)) by lia.
  by rewrite Nat2Z.id, take_ge.
Qed.

Lemma h_write_run (h : cheap) p b bs :
  h !! p = Some b -> (length bs <= length b)%nat ->
  h_write p bs h = Ret tt (<[p := bs ++ drop (length bs) b]> h).
Proof.
  intros H Hl. unfold h_write, h_write_at. rewrite H. simpl.
  by rewrite (proj2 (Z.leb_le _ _)) by lia.
Qed.

(** * What a store promises

    [vs_holds s key v] is the data kept under a key and version, [vs_object]
    the block of a key's object, [vs_poke] a store of the program into one of
    its blocks, [vs_room] that the machine has room for the puts of a list,
    [vs_can_get] that it lets the store read the medium.  Two names clash when the medium keeps them under one name. *)
Class VersionedStore (S E : Type) `{!Store S E} : Type := {
  vs_inv : S -> Prop;
  vs_heap : S -> cheap;
  vs_object : S -> bytes -> option Z;
  vs_holds : S -> bytes -> Z -> option bytes;
  vs_poke : Z -> bytes -> S -> S;
  vs_room : S -> list (E * bytes * Z) -> Prop;
  vs_clash : bytes -> Z -> bytes -> Z -> Prop;
  vs_can_get : S -> E -> bytes -> Z -> Prop;
  vs_put_law e key v l s p d :
    vs_inv s -> vs_object s key = Some p -> vs_heap s !! p = Some d ->
    vs_holds s key v = None -> vs_room s ((e, key, v) :: l) ->
    exists r s', v_put e key v s = Ret r s' /\ vs_inv s' /\ vs_heap s' = vs_heap s /\
      (forall k, vs_object s' k = vs_object s k) /\ vs_holds s' key v = Some d /\
      (forall k w, ~ vs_clash key v k w -> vs_holds s' k w = vs_holds s k w) /\ vs_room s' l;
  vs_get_law e key v addr s b :
    vs_inv s -> vs_can_get s e key v -> vs_heap s !! addr = Some b ->
    match vs_holds s key v with
    | Some d => (length d <= length b)%nat ->
        exists s', v_get e key v addr s = Ret NO_ERROR s' /\
          vs_heap s' = <[addr := d ++ drop (length d) b]> (vs_heap s)
    | None => exists c s', c <> NO_ERROR /\ v_get e key v addr s = Ret c s' /\ vs_heap s' = vs_heap s
    end;
  vs_poke_law p bs d l s :
    vs_inv s -> vs_heap s !! p = Some d -> length bs = length d ->
    vs_inv (vs_poke p bs s) /\ vs_heap (vs_poke p bs s) = <[p := bs]> (vs_heap s) /\
    (forall k, vs_object (vs_poke p bs s) k = vs_object s k) /\
    (forall k w, vs_holds (vs_poke p bs s) k w = vs_holds s k w) /\
    (vs_room s l -> vs_room (vs_poke p bs s) l)
}.

(** * A program over the interface *)

(** The program overwrites the buffer of an object, or puts a version of it. *)
Inductive act (E : Type) : Type :=
  | AWrite (key bs : bytes)
  | APut (e : E) (key : bytes) (v : Z).
Arguments AWrite {E} key bs.
Arguments APut {E} e key v.

Definition puts {E} (l : list (act E)) : list (E * bytes * Z) :=
  omap (fun a => match a with APut e k v => Some (e, k, v) | AWrite _ _ => None end) l.

(** The abstract store: the current content of every object and the versions
    put so far. *)
Record vkv : Type := mkVkv { cur_of : gmap bytes bytes; hist : list (bytes * Z * bytes) }.

Definition spec_act {E} (a : vkv) (x : act E) : vkv :=
  match x with
  | AWrite k bs => mkVkv (<[k := bs]> (cur_of a)) (hist a)
  | APut _ k v => mkVkv (cur_of a) (hist a ++ [(k, v, default [] (cur_of a !! k))])
  end.

(** The writes and puts name objects the program has, and writes fill them. *)
Fixpoint acts_ok {E} (a : vkv) (l : list (act E)) : Prop :=
  match l with
  | [] => True
  | x :: l' =>
      match x with
      | AWrite k bs => exists d, cur_of a !! k = Some d /\ length bs = length d
      | APut _ k _ => is_Some (cur_of a !! k)
      end /\ acts_ok (spec_act a x) l'
  end.

Section Client.
Context {S E : Type} `{VersionedStore S E}.

Definition run_act (x : act E) : M S unit :=
  match x with
  | AWrite k bs => fun s => match vs_object s k with
                            | Some p => Ret tt (vs_poke p bs s)
                            | None => Undef s
                            end
  | APut e k v => v_put e k v;; mret tt
  end.

Fixpoint run_acts (l : list (act E)) : M S unit :=
  match l with
  | [] => mret tt
  | x :: l' => run_act x;; run_acts l'
  end.

(** No put of the list clashes with an earlier one. *)
Fixpoint separate (l : list (bytes * Z)) : Prop :=
  match l with
  | [] => True
  | (k, v) :: l' =>
      Forall (fun kv => ~ vs_clash k v kv.1 kv.2 /\ ~ vs_clash kv.1 kv.2 k v) l' /\ separate l'
  end.

Definition put_names (l : list (act E)) : list (bytes * Z) := (fun x => (x.1.2, x.2)) <$> puts l.

(** The concrete store [s] has the current contents and the history of [a]. *)
Record sim (s : S) (a : vkv) : Prop := {
  sm_inv : vs_inv s;
  sm_cur : forall k d, cur_of a !! k = Some d ->
    exists p, vs_object s k = Some p /\ vs_heap s !! p = Some d;
  sm_apart : forall k k' p, is_Some (cur_of a !! k) -> is_Some (cur_of a !! k') ->
    vs_object s k = Some p -> vs_object s k' = Some p -> k = k';
  sm_hist : forall k v d, (k, v, d) ∈ hist a -> vs_holds s k v = Some d
}.

(** Every name of the list is new to the store, apart from the others and from
    the history. *)
Record fresh_for (s : S) (a : vkv) (l : list (bytes * Z)) : Prop := {
  ff_new : Forall (fun kv => vs_holds s kv.1 kv.2 = None) l;
  ff_sep : separate l;
  ff_hist : forall k v d, (k, v, d) ∈ hist a -> Forall (fun kv => ~ vs_clash kv.1 kv.2 k v) l
}.

Lemma sim_write s a k bs d p :
  sim s a -> cur_of a !! k = Some d -> length bs = length d -> vs_object s k = Some p ->
  sim (vs_poke p bs s) (spec_act (E := E) a (AWrite k bs)).
Proof.
  intros [Hinv Hcur Hap Hh] Hk Hl Hp.
  destruct (Hcur k d Hk) as (p' & Hp' & Hd). assert (p' = p) as -> by congruence.
  destruct (vs_poke_law p bs d [] s Hinv Hd Hl) as (H1 & H2 & H3 & H4 & _).
  constructor; simpl; [done | | |].
  - intros k' d'. destruct (decide (k = k')) as [<-|Hne].
    + rewrite lookup_insert_eq. intros [= <-]. exists p. rewrite H3, H2. by rewrite lookup_insert_eq.
    + rewrite lookup_insert_ne by done. intros Hk'. destruct (Hcur k' d' Hk') as (q & Hq & Hd').
      exists q. rewrite H3, H2. split; [done|]. rewrite lookup_insert_ne; [done|].
      intros <-. apply Hne. by apply (Hap k k' p).
  - intros k1 k2 q. rewrite !H3, !lookup_insert_is_Some. intros [<-|[_ ?]] [<-|[_ ?]]; eauto.
  - intros k' v d' Hin. rewrite H4. by apply Hh.
Qed.

Lemma fresh_for_poke s a l p bs k d :
  vs_inv s -> vs_heap s !! p = Some d -> length bs = length d -> fresh_for s a l ->
  fresh_for (vs_poke p bs s) (spec_act (E := E) a (AWrite k bs)) l.
Proof.
  intros Hi Hp Hl [F1 F2 F3]. constructor; [|done | done].
  eapply Forall_impl; [exact F1|]. intros [k' v'] Hn. simpl in *.
  destruct (vs_poke_law p bs d [] s Hi Hp Hl) as (_ & _ & _ & -> & _). done.
Qed.

(** After a put the store simulates the longer history and the rest of the
    list is still fresh. *)
Lemma sim_put s a e k v l names :
  sim s a -> is_Some (cur_of a !! k) -> fresh_for s a ((k, v) :: names) ->
  vs_room s ((e, k, v) :: l) ->
  exists s', run_act (APut e k v) s = Ret tt s' /\ sim s' (spec_act a (APut e k v)) /\
    fresh_for s' (spec_act a (APut e k v)) names /\ vs_room s' l.
Proof.
  intros [Hinv Hcur Hap Hh] [d Hd] [F1 F2 F3] Hroom.
  apply Forall_cons in F1 as [Hnew F1]. destruct F2 as [Fs F2]. simpl in Hnew.
  destruct (Hcur k d Hd) as (p & Hp & Hb).
  destruct (vs_put_law e k v l s p d) as (r & s' & Hrun & I1 & I2 & I3 & I4 & I5 & I6); try done.
  exists s'. split; [unfold run_act; by erewrite bind_Ret by exact Hrun|].
  split; [|split; [|done]].
  - constructor; simpl; [done | | |].
    + intros k' d' Hk'. rewrite I2, I3. by apply Hcur.
    + intros k1 k2 q. rewrite !I3. apply Hap.
    + intros k' v' d'. rewrite elem_of_app, list_elem_of_singleton. intros [Hin|[= -> -> ->]].
      * rewrite I5; [by apply Hh|]. specialize (F3 k' v' d' Hin).
        by apply Forall_cons in F3 as [F3 _].
      * by rewrite Hd.
  - constructor; simpl; [|done|].
    + rewrite Forall_forall in F1, Fs. apply Forall_forall. intros [k' v'] Hin.
      simpl. rewrite I5; [by apply (F1 (k', v'))|]. by apply (Fs (k', v')).
    + intros k' v' d'. rewrite elem_of_app, list_elem_of_singleton. intros [Hin|[= -> -> _]].
      * specialize (F3 k' v' d' Hin). by apply Forall_cons in F3 as [_ F3].
      * eapply Forall_impl; [exact Fs|]. by intros kv [_ Hx].
Qed.

Lemma run_acts_sim l : forall s a,
  sim s a -> acts_ok a l -> fresh_for s a (put_names l) -> vs_room s (puts l) ->
  exists s', run_acts l s = Ret tt s' /\ sim s' (foldl spec_act a l).
Proof.
  induction l as [|x l IH]; intros s a Hs Hok Hf Hr; [by exists s|].
  destruct Hok as [Hx Hok]. simpl. destruct x as [k bs|e k v].
  - destruct Hx as (d & Hd & Hl). destruct (sm_cur _ _ Hs k d Hd) as (p & Hp & Hb).
    pose proof (sm_inv _ _ Hs) as Hi.
    destruct (IH (vs_poke p bs s) (spec_act (E := E) a (AWrite k bs))) as (s' & Hrun & Hs').
    + by eapply sim_write.
    + done.
    + by eapply fresh_for_poke.
    + by eapply (vs_poke_law p bs d (puts l) s).
    + exists s'. split; [|done]. unfold mbind at 1, M_bind at 1. simpl. by rewrite Hp.
  - destruct (sim_put s a e k v (puts l) (put_names l) Hs Hx Hf Hr)
      as (s1 & Hrun1 & Hs1 & Hf1 & Hr1).
    destruct (IH s1 _ Hs1 Hok Hf1 Hr1) as (s' & Hrun & Hs').
    exists s'. split; [|done]. by erewrite bind_Ret by exact Hrun1.
Qed.

(** A store of the interface keeps every version.  A program that
    overwrites the buffers of its objects and puts versions of them, under
    names that do not clash, runs to the end on any store that keeps the
    promise, and then [get] of any (key, version) it has put returns the
    content the object had at that put, whatever was written since. *)
Theorem versions_readable l s a :
  sim s a -> acts_ok a l -> fresh_for s a (put_names l) -> vs_room s (puts l) ->
  exists s', run_acts l s = Ret tt s' /\
    forall e k v d addr b, (k, v, d) ∈ hist (foldl spec_act a l) ->
      vs_can_get s' e k v -> vs_heap s' !! addr = Some b -> (length d <= length b)%nat ->
      exists s'', v_get e k v addr s' = Ret NO_ERROR s'' /\
        vs_heap s'' = <[addr := d ++ drop (length d) b]> (vs_heap s').
Proof.
  intros Hs Hok Hf Hr. destruct (run_acts_sim l s a Hs Hok Hf Hr) as (s' & Hrun & Hs').
  exists s'. split; [done|]. intros e k v d addr b Hin Hc Hb Hlen.
  pose proof (vs_get_law e k v addr s' b (sm_inv _ _ Hs') Hc Hb) as Hg.
  rewrite (sm_hist _ _ Hs' k v d Hin) in Hg. by apply Hg.
Qed.
End Client.
