(* ===== verification/NvsInst.v ===== *)
(** [NVSStore] behind the store interface: its operations as an instance of
    [Store], its log search as the data it holds, and the promise of
    [VersionedStore] discharged by the lemmas of NvsStore.  Also its
    constructor, which finds or creates the process log through the memory
    manager (src/nvstream/src/kvstore/nvs_store.cc). *)
From S2P Require Import Prelude Mem LogFmt Log Object SMap NvsStore Store.

Record NvsEnv : Type := mkNvsEnv {
  ne_hdrs : nat -> lehdr_t;      (* indeterminate log headers *)
  ne_went : walkentry;           (* an indeterminate [walkentry] *)
  ne_ptr : Z;
  ne_init : bytes
}.

#[global] Instance NVSStore_Store : Store StoreSt NvsEnv := {|
  v_create_obj e k size := r ← create_obj false k size (ne_ptr e) (ne_init e); mret (r.1, Some r.2);
  v_free_obj := free_obj;
  v_put e := put (ne_hdrs e 0);
  v_put_all e := put_all (ne_hdrs e);
  v_get e := get (ne_went e);
  v_get_with_malloc e k v := get_with_malloc false (ne_went e) k v (ne_ptr e) (ne_init e);
  v_get_store_id := fun s => Ret (storeId (store s)) s
|}.

(** * What the log holds *)

Definition no_went : walkentry := mkWalk 0 0 0 [] NO_ERROR.

(** The data a walk of the log finds. *)
Definition held (s : StoreSt) (key : bytes) (v : Z) : option bytes :=
  match run_walk (search_for no_went key v) s with
  | Ret (NO_ERROR, w) _ =>
      if decide (we_err w = NO_ERROR) then
        match rd_log (we_datap w) (we_len w) s with Ret d _ => Some d | _ => None end
      else None
  | _ => None
  end.

Lemma held_find s es key v : store_inv s es -> held s key v = log_find key v es.
Proof.
  intros Hinv. unfold held. destruct (decide (es = [])) as [->|Hne].
  - pose proof (li_repr _ _ (si_log _ _ Hinv)) as Hr. simpl in Hr. unfold run_walk.
    by rewrite (walk_run _ _ _ _ _ Hr).
  - destruct (run_walk_spec s es key v no_went Hinv Hne) as (w' & -> & Hf).
    destruct (log_find key v es) as [d|].
    + destruct Hf as (He & _ & ->). by rewrite decide_True by done.
    + by rewrite decide_False by (rewrite Hf; done).
Qed.

(** * Room for a list of puts *)

Definition obj_size (s : StoreSt) (key : bytes) : Z :=
  match sm_find key (objectMap (store s)) with Some o => o_size o | None => 0 end.

Definition puts_need (s : StoreSt) (l : list (NvsEnv * bytes * Z)) : Z :=
  foldr (fun x n => 136 + obj_size s x.1.2 + 8 + n) 0 l.

Record nvs_room (s : StoreSt) (l : list (NvsEnv * bytes * Z)) : Prop := {
  nr_env : Forall (fun x => lehdr_wf (ne_hdrs x.1.1 0) /\ fits 64 x.2) l;
  nr_size : puts_need s l <= end_offset (log (store s)) - write_offset (log (store s));
  nr_pos : forall k, 0 <= obj_size s k
}.

Lemma puts_need_ext s s' l :
  (forall k, obj_size s' k = obj_size s k) -> puts_need s' l = puts_need s l.
Proof. intros H. induction l as [|x l IH]; simpl; [done|]. by rewrite IH, H. Qed.

Lemma puts_need_pos s l : (forall k, 0 <= obj_size s k) -> 0 <= puts_need s l.
Proof. intros H. induction l as [|x l IH]; simpl; [done|]. specialize (H x.1.2). lia. Qed.

Definition nvs_object (s : StoreSt) (k : bytes) : option Z := o_ptr <$> sm_find k (objectMap (store s)).

Definition nvs_inv (s : StoreSt) : Prop := exists es, store_inv s es.

Definition nvs_clash (k : bytes) (v : Z) (k' : bytes) (v' : Z) : Prop := key20 k = key20 k' /\ v = v'.

(** Neither reading the heap nor appending moves the end of the log. *)
Lemma keeps_rd_block p n : keeps (fun s => log_end (get_log s)) (rd_block p n).
Proof. intros s a s'. unfold rd_block. case_match; [|done]. bsplit; [|done]. by intros [= _ <-]. Qed.

Lemma keeps_on_log_appendv iovs : keeps (fun s => log_end (get_log s)) (on_log (appendv iovs)).
Proof.
  intros s a s'. unfold on_log, zoom. destruct (appendv _ (get_log s)) eqn:E; try done.
  intros [= <- <-]. by rewrite <- (keeps_appendv _ _ _ _ E).
Qed.

Lemma put_keeps_end g key v : keeps (fun s => log_end (get_log s)) (put g key v).
Proof.
  unfold put. apply keeps_bind; [by intros s a s' [= _ <-]|]. intros s0.
  destruct (sm_find _ _); [|apply keeps_ret]. cbv zeta.
  apply keeps_bind; [apply keeps_rd_block|]. intros d.
  apply keeps_bind; [apply keeps_on_log_appendv|]. intros r.
  destruct (decide _); [apply keeps_exit|].
  apply keeps_bind; [by intros s a s' [= _ <-]|]. intros []. apply keeps_ret.
Qed.

Lemma snapshot_iovs_keeps_end gs objs i tot :
  keeps (fun s => log_end (get_log s)) (snapshot_iovs gs i objs tot).
Proof.
  revert i tot. induction objs as [|[k o] objs IH]; intros i tot; cbn [snapshot_iovs];
    [apply keeps_ret|]. cbv zeta.
  apply keeps_bind; [apply keeps_rd_block|]. intros d.
  apply keeps_bind; [apply IH|]. intros r. apply keeps_ret.
Qed.

Lemma put_all_keeps_end gs : keeps (fun s => log_end (get_log s)) (put_all gs).
Proof.
  unfold put_all. apply keeps_bind; [by intros s a s' [= _ <-]|]. intros s0.
  apply keeps_bind; [apply snapshot_iovs_keeps_end|]. intros r. cbv zeta.
  apply keeps_bind; [apply keeps_on_log_appendv|]. intros e.
  destruct (decide _); [apply keeps_ret|].
  apply keeps_bind; [by intros s a s' [= _ <-]|]. intros []. apply keeps_ret.
Qed.

(** The write offset after an append, from the two log invariants. *)
Lemma append_moves_offset s s' es e :
  store_inv s es -> store_inv s' (es ++ [e]) ->
  write_offset (log (store s')) = write_offset (log (store s)) + entry_size (to_entry e).
Proof.
  intros Hi Hi'. pose proof (li_write _ _ (si_log _ _ Hi)) as H1.
  pose proof (li_write _ _ (si_log _ _ Hi')) as H2. simpl in H1, H2. rewrite H1, H2.
  rewrite fmap_app. unfold log_bytes. rewrite fmap_app, concat_app, length_app. simpl.
  rewrite app_nil_r.
  assert (entry_wf (to_entry e)) as He.
  { pose proof (lr_wf _ _ _ (li_repr _ _ (si_log _ _ Hi'))) as Hw.
    rewrite fmap_app in Hw. apply Forall_app in Hw as [_ Hw]. by apply Forall_cons in Hw as [Hw _]. }
  pose proof (length_entry_bytes _ He) as Hb. lia.
Qed.

Lemma nvs_put_law e key v l s p d :
  nvs_inv s -> nvs_object s key = Some p -> heap s !! p = Some d ->
  held s key v = None -> nvs_room s ((e, key, v) :: l) ->
  exists r s', put (ne_hdrs e 0) key v s = Ret r s' /\ nvs_inv s' /\ heap s' = heap s /\
    (forall k, nvs_object s' k = nvs_object s k) /\ held s' key v = Some d /\
    (forall k w, ~ nvs_clash key v k w -> held s' k w = held s k w) /\ nvs_room s' l.
Proof.
  intros [es Hinv] Hp Hd Hnew [Henv Hsz Hpos]. apply Forall_cons in Henv as [[Hg Hv] Henv].
  simpl in Hg, Hv, Hsz. unfold nvs_object in Hp.
  destruct (sm_find key _) as [o|] eqn:Eo; [|done]. injection Hp as <-.
  destruct (si_objs _ _ Hinv key o Eo) as (Hn & Ho & b & Hb & Hl).
  assert (b = d) as -> by congruence. assert (obj_size s key = o_size o) as Eos.
  { unfold obj_size. by rewrite Eo. }
  pose proof (puts_need_pos s l Hpos) as Hnp.
  pose proof (put_run s es (ne_hdrs e 0) key v o d Hinv Eo Hd Hg Hv) as Hrun.
  unfold room in Hrun. rewrite (proj2 (Z.leb_le _ _)) in Hrun by (unfold WORD_LENGTH; lia).
  destruct Hrun as (s' & Hput & Hinv' & Hh & Hom).
  assert (forall k, nvs_object s' k = nvs_object s k /\ obj_size s' k = obj_size s k) as Hobj.
  { intros k. unfold nvs_object, obj_size. rewrite Hom. destruct (decide (key = k)) as [<-|Hne].
    - by rewrite sm_find_set_eq, Eo.
    - by rewrite sm_find_set_ne. }
  exists 0, s'. split; [done|]. split; [by eexists|]. split; [done|]. split; [apply Hobj|].
  assert (forall k w, entry_find k w (put_entry (ne_hdrs e 0) v o d) =
    if bool_decide (key20 key = key20 k) && (v =? w) then Some d else None) as Hfind.
  { intros k w. by rewrite put_entry_find, Hn. }
  rewrite (held_find s es) in Hnew by done. split; [|split].
  - rewrite (held_find s' _ _ _ Hinv'), log_find_snoc, Hnew, Hfind.
    by rewrite bool_decide_true, Z.eqb_refl by done.
  - intros k w Hc. rewrite (held_find s' _ _ _ Hinv'), (held_find s es) by done.
    rewrite log_find_snoc, Hfind. destruct (log_find k w es); [done|].
    bsplit; [|done]. destruct Hc. split; [by eapply bool_decide_eq_true_1 | done].
  - pose proof (put_keeps_end _ _ _ _ _ _ Hput) as Hend. unfold log_end in Hend. simpl in Hend.
    pose proof (append_moves_offset s s' es _ Hinv Hinv') as Hw.
    unfold entry_size in Hw. simpl in Hw.
    constructor; [done | | intros k; by rewrite (proj2 (Hobj k))].
    rewrite (puts_need_ext s s'), Hend, Hw by apply Hobj. lia.
Qed.

Lemma nvs_get_law e key v addr s b :
  nvs_inv s -> True -> heap s !! addr = Some b ->
  match held s key v with
  | Some d => (length d <= length b)%nat ->
      exists s', get (ne_went e) key v addr s = Ret NO_ERROR s' /\
        heap s' = <[addr := d ++ drop (length d) b]> (heap s)
  | None => exists c s', c <> NO_ERROR /\ get (ne_went e) key v addr s = Ret c s' /\ heap s' = heap s
  end.
Proof.
  intros [es Hinv] _ Hb. rewrite (held_find s es) by done.
  pose proof (get_run s es (ne_went e) key v addr b Hinv Hb) as Hg.
  destruct (log_find key v es) as [d|]; [|by exists ID_NOT_FOUND, s].
  intros Hl. eexists. by rewrite Hg by done.
Qed.

Lemma nvs_poke_law p bs d l s :
  nvs_inv s -> heap s !! p = Some d -> length bs = length d ->
  let s' := upd_heap (<[p := bs]> (heap s)) s in
  nvs_inv s' /\ heap s' = <[p := bs]> (heap s) /\ (forall k, nvs_object s' k = nvs_object s k) /\
  (forall k w, held s' k w = held s k w) /\ (nvs_room s l -> nvs_room s' l).
Proof.
  intros [es [H1 H2 H3 H4]] Hp Hl s'.
  assert (store_inv s' es) as Hi.
  { constructor; try done. intros k o Hk. destruct (H4 k o Hk) as (N & Z & b & Hb & Hlb).
    split_and!; try (done || lia). simpl. destruct (decide (p = o_ptr o)) as [->|Hne].
    - exists bs. rewrite lookup_insert_eq. split; [done|]. congruence.
    - exists b. by rewrite lookup_insert_ne. }
  split; [by exists es|]. split; [done|]. split; [done|]. split.
  - intros k w. rewrite (held_find s' es) by done. symmetry. by apply held_find.
  - intros [R1 R2 R3]. by constructor.
Qed.

#[global] Instance NVSStore_Versioned : @VersionedStore StoreSt NvsEnv NVSStore_Store :=
  Build_VersionedStore StoreSt NvsEnv NVSStore_Store nvs_inv heap nvs_object held
    (fun p bs s => upd_heap (<[p := bs]> (heap s)) s) nvs_room nvs_clash
    (fun _ _ _ _ => True) nvs_put_law nvs_get_law nvs_poke_law.
