(* ===== verification/NvsRun.v ===== *)
(** The whole of [NVSStore] as one abstract object: any sequence of calls of
    create_obj, put, put_all and get (src/nvstream/src/kvstore/nvs_store.cc),
    mixed with stores of the program into its blocks, gives the answers of a
    specification that knows objects, records and the room left, and no log,
    headers or offsets. *)
From S2P Require Import Prelude Mem LogFmt Log Object SMap NvsStore Store NvsInst.

(** * The calls *)

(** What the machine answers during a call comes with it: the block [malloc]
    returns with its content, and the indeterminate locals. *)
Inductive ncall : Type :=
  | NStore (p : Z) (bs : bytes)                        (* the program fills a block *)
  | NCreate (key : bytes) (size p : Z) (init : bytes)
  | NPut (g : lehdr_t) (key : bytes) (v : Z)
  | NPutAll (gs : nat -> lehdr_t)
  | NGet (w0 : walkentry) (key : bytes) (v addr : Z).

Inductive nans : Type :=
  | ANone
  | ACreated (e : ErrorCode) (p : Z)
  | ACount (n : Z)
  | ACode (e : ErrorCode).

(** A store of the program: a block of its own, within its length. *)
Definition fill_block (p : Z) (bs : bytes) : M StoreSt unit := fun s =>
  match heap s !! p with
  | Some b => if decide (length bs = length b) then Ret tt (upd_heap (<[p := bs]> (heap s)) s)
              else Undef s
  | None => Undef s
  end.

Definition run_ncall (c : ncall) : M StoreSt nans :=
  match c with
  | NStore p bs => fill_block p bs;; mret ANone
  | NCreate key size p init => r ← create_obj false key size p init; mret (ACreated r.1 r.2)
  | NPut g key v => r ← put g key v; mret (ACount r)
  | NPutAll gs => r ← put_all gs; mret (ACount r)
  | NGet w0 key v addr => r ← get w0 key v addr; mret (ACode r)
  end.

Fixpoint run_ncalls (l : list ncall) : M StoreSt (list nans) :=
  match l with
  | [] => mret []
  | c :: l' => a ← run_ncall c; r ← run_ncalls l'; mret (a :: r)
  end.

(** * The specification *)

Record nspec : Type := mkNspec {
  sp_objs : list (bytes * Object);    (* the objects, in key order *)
  sp_heap : cheap;
  sp_recs : list srecord;              (* the records get can find, oldest first *)
  sp_free : Z                         (* bytes the log has left *)
}.

Definition sp_block (a : nspec) (o : Object) : bytes := default [] (sp_heap a !! o_ptr o).

(** The bytes of a snapshot: a header and the data of every object. *)
Definition sp_snapshot_size (a : nspec) : Z :=
  foldr (fun ko n => 136 + o_size ko.2 + n) 0 (sp_objs a).

Definition bump (o : Object) : Object := setVersion (u64 (o_version o + 1)) o.

(** [None]: the process ends with status 1. *)
Definition spec_ncall (a : nspec) (c : ncall) : option (nans * nspec) :=
  match c with
  | NStore p bs => Some (ANone, mkNspec (sp_objs a) (<[p := bs]> (sp_heap a)) (sp_recs a) (sp_free a))
  | NCreate key size p init =>
      match sm_find key (sp_objs a) with
      | Some _ => None
      | None => Some (ACreated NO_ERROR p,
          mkNspec (sm_set key (new_Object false key size 0 p) (sp_objs a))
            (<[p := init]> (sp_heap a)) (sp_recs a) (sp_free a))
      end
  | NPut _ key v =>
      match sm_find key (sp_objs a) with
      | None => Some (ACount (ErrorCode_code ELEM_NOT_FOUND), a)
      | Some o =>
          if 136 + o_size o + 8 <=? sp_free a then
            Some (ACount 0,
              mkNspec (sm_set key (setVersion v o) (sp_objs a)) (sp_heap a)
                (sp_recs a ++ [(key20 key, v, sp_block a o)]) (sp_free a - (136 + o_size o + 8)))
          else None
      end
  | NPutAll _ =>
      let n := sp_snapshot_size a in
      if 136 + n + 8 <=? sp_free a then
        Some (ACount (n + 136),
          mkNspec (sm_map bump (sp_objs a)) (sp_heap a)
            (sp_recs a ++ ((fun ko => (key20 ko.1, u64 (o_version ko.2 + 1), sp_block a ko.2)) <$>
                           but_last (sp_objs a)))
            (sp_free a - (136 + n + 8)))
      else None
  | NGet _ key v addr =>
      match recs_find key v (sp_recs a) with
      | None => Some (ACode ID_NOT_FOUND, a)
      | Some d =>
          Some (ACode NO_ERROR,
            mkNspec (sp_objs a)
              (<[addr := d ++ drop (length d) (default [] (sp_heap a !! addr))]> (sp_heap a))
              (sp_recs a) (sp_free a))
      end
  end.

(** The duties of the caller and of [malloc]: blocks are filled to their
    length, a new block is not one of the heap and has the size asked for (below
    2^62), versions are 64 bit numbers, a snapshot has an object and is below
    2^63 bytes, a read goes to a block that is large enough. *)
Definition ncall_ok (a : nspec) (c : ncall) : Prop :=
  match c with
  | NStore p bs => exists b, sp_heap a !! p = Some b /\ length bs = length b
  | NCreate key size p init =>
      sp_heap a !! p = None /\ Z.of_nat (length init) = size /\ size < 2 ^ 62
  | NPut g key v => lehdr_wf g /\ fits 64 v
  | NPutAll gs => sp_objs a <> [] /\ (forall j, lehdr_wf (gs j)) /\ sp_snapshot_size a < 2 ^ 63
  | NGet w0 key v addr =>
      exists b, sp_heap a !! addr = Some b /\
        forall d, recs_find key v (sp_recs a) = Some d -> (length d <= length b)%nat
  end.

Fixpoint ncalls_ok (a : nspec) (l : list ncall) : Prop :=
  match l with
  | [] => True
  | c :: l' => ncall_ok a c /\
      match spec_ncall a c with Some (_, a') => ncalls_ok a' l' | None => True end
  end.

Fixpoint spec_ncalls (a : nspec) (l : list ncall) : option (list nans * nspec) :=
  match l with
  | [] => Some ([], a)
  | c :: l' =>
      match spec_ncall a c with
      | Some (x, a') =>
          match spec_ncalls a' l' with Some (xs, a'') => Some (x :: xs, a'') | None => None end
      | None => None
      end
  end.

(** * The store implements it *)

Record nrel (s : StoreSt) (a : nspec) (es : list lentry) : Prop := {
  nl_inv : store_inv s es;
  nl_objs : sp_objs a = objectMap (store s);
  nl_heap : sp_heap a = heap s;
  nl_recs : forall k v, log_find k v es = recs_find k v (sp_recs a);
  nl_free : sp_free a = end_offset (log (store s)) - write_offset (log (store s))
}.

Lemma room_free s a es n :
  nrel s a es -> room (log (store s)) n = (n + 8 <=? sp_free a).
Proof. intros H. by rewrite (nl_free _ _ _ H). Qed.

Lemma sp_snapshot_size_eq s a es gs :
  nrel s a es -> (forall j, lehdr_wf (gs j)) -> snapshot_size s gs = sp_snapshot_size a.
Proof.
  intros [Hinv Ho _ _ _] Hgs. unfold snapshot_size, sp_snapshot_size. rewrite Ho.
  pose proof (store_inv_objs s es Hinv) as Hobj. clear Ho. generalize 1%nat.
  induction (objectMap (store s)) as [|[k o] objs IH]; intros i; [done|].
  destruct (snapshot_iovs_run s gs _ i 0 Hobj Hgs) as (Hwf & _).
  apply Forall_cons in Hobj as [(b & Hb & Hl & _) Hobj]. simpl in *.
  apply Forall_cons in Hwf as [Hr _].
  rewrite inner_bytes_cons, length_app, Nat2Z.inj_add, (length_rcd_bytes _ Hr), (IH Hobj). done.
Qed.

(** A store of the program into a block. *)
Lemma fill_block_refines s a es p bs b :
  nrel s a es -> heap s !! p = Some b -> length bs = length b ->
  exists s', fill_block p bs s = Ret tt s' /\
    nrel s' (mkNspec (sp_objs a) (<[p := bs]> (sp_heap a)) (sp_recs a) (sp_free a)) es.
Proof.
  intros [[H1 H2 H3 H4] Ho Hh Hr Hf] Hb Hl. unfold fill_block. rewrite Hb, decide_True by done.
  eexists. split; [done|]. constructor; simpl; try done; [|by rewrite Hh].
  constructor; try done. intros k o Hk. destruct (H4 k o Hk) as (N & Hz & b' & Hb' & Hl').
  split_and!; try (done || lia). simpl. destruct (decide (p = o_ptr o)) as [->|Hne].
  - exists bs. rewrite lookup_insert_eq. split; [done|]. congruence.
  - exists b'. by rewrite lookup_insert_ne.
Qed.

(** Reading into a block keeps every invariant: the block keeps its length. *)
Lemma nrel_read s a es addr b d :
  nrel s a es -> heap s !! addr = Some b -> (length d <= length b)%nat ->
  nrel (upd_heap (<[addr := d ++ drop (length d) b]> (heap s)) s)
    (mkNspec (sp_objs a) (<[addr := d ++ drop (length d) b]> (sp_heap a)) (sp_recs a) (sp_free a)) es.
Proof.
  intros Hrel Hb Hl.
  destruct (fill_block_refines s a es addr (d ++ drop (length d) b) b Hrel Hb) as (s' & Hs & H).
  { rewrite length_app, length_drop. lia. }
  unfold fill_block in Hs. rewrite Hb, decide_True in Hs by (rewrite length_app, length_drop; lia).
  by injection Hs as <-.
Qed.

Lemma create_refines s a es key size p init :
  nrel s a es -> ncall_ok a (NCreate key size p init) ->
  match spec_ncall a (NCreate key size p init) with
  | Some (x, a') => exists s', run_ncall (NCreate key size p init) s = Ret x s' /\ nrel s' a' es
  | None => exists s', run_ncall (NCreate key size p init) s = Exit 1 s'
  end.
Proof.
  intros [Hinv Ho Hh Hr Hf] (Hp & Hl & Hs). rewrite Hh in Hp. cbn [run_ncall spec_ncall]. rewrite Ho.
  unfold create_obj. munfold. simpl.
  destruct (sm_find key (objectMap (store s))) as [o|] eqn:E; [by eexists|].
  eexists. split; [reflexivity|]. destruct Hinv as [H1 H2 H3 H4].
  constructor; simpl; try done; [|by rewrite Hh].
  constructor; simpl; [exact H1 | done | by apply sm_set_sorted |].
  intros k o. destruct (decide (key = k)) as [<-|Hne].
  - rewrite sm_find_set_eq. intros [= <-]. simpl.
    split_and!; [done | lia | done | exists init; by rewrite lookup_insert_eq].
  - rewrite sm_find_set_ne by done. intros Hk. destruct (H4 k o Hk) as (N & Hz & b & Hb & Hlb).
    split_and!; try (done || lia). exists b. split; [|done].
    rewrite lookup_insert_ne; [done|]. congruence.
Qed.

Lemma put_refines s a es g key v :
  nrel s a es -> ncall_ok a (NPut g key v) ->
  match spec_ncall a (NPut g key v) with
  | Some (x, a') => exists s' es', run_ncall (NPut g key v) s = Ret x s' /\ nrel s' a' es'
  | None => exists s', run_ncall (NPut g key v) s = Exit 1 s'
  end.
Proof.
  intros Hrel [Hg Hv]. pose proof Hrel as [Hinv Ho Hh Hr Hf]. cbn [run_ncall spec_ncall].
  rewrite Ho. destruct (sm_find key (objectMap (store s))) as [o|] eqn:E; cycle 1.
  { exists s, es. split; [|done]. unfold put. munfold. by rewrite E. }
  destruct (si_objs _ _ Hinv key o E) as (Hn & Hsz & b & Hb & Hl).
  pose proof (put_run s es g key v o b Hinv E Hb Hg Hv) as H.
  rewrite (room_free s a es) in H by done.
  destruct (_ <=? sp_free a); [|exists s; by apply bind_Exit].
  destruct H as (s' & Hput & Hinv' & Hh' & Hom).
  exists s', (es ++ [put_entry g v o b]). split; [by erewrite bind_Ret by exact Hput|].
  pose proof (put_keeps_end _ _ _ _ _ _ Hput) as Hend. unfold log_end in Hend. simpl in Hend.
  pose proof (append_moves_offset s s' es _ Hinv Hinv') as Hw. unfold entry_size in Hw. simpl in Hw.
  constructor; simpl; [done | by rewrite Hom | by rewrite Hh' | | lia].
  intros k w. rewrite log_find_snoc, put_entry_find, recs_find_app, Hr, Hn.
  unfold sp_block. by rewrite Hh, Hb.
Qed.

Lemma put_all_refines s a es gs :
  nrel s a es -> ncall_ok a (NPutAll gs) ->
  match spec_ncall a (NPutAll gs) with
  | Some (x, a') => exists s' es', run_ncall (NPutAll gs) s = Ret x s' /\ nrel s' a' es'
  | None => exists s', run_ncall (NPutAll gs) s = Exit 1 s'
  end.
Proof.
  intros Hrel (Hne & Hgs & Hsz). pose proof Hrel as [Hinv Ho Hh Hr Hf]. cbn [run_ncall spec_ncall].
  rewrite Ho in Hne. pose proof (sp_snapshot_size_eq s a es gs Hrel Hgs) as Hsize.
  rewrite <- Hsize in *. pose proof (put_all_run s es gs Hinv Hne Hgs Hsz) as H.
  rewrite (room_free s a es) in H by done. cbv zeta.
  destruct (_ <=? sp_free a); [|exists s; by apply bind_Exit].
  destruct H as (s' & Hput & Hinv' & Hh' & Hom).
  exists s', (es ++ [snapshot_entry s gs]). split; [by erewrite bind_Ret by exact Hput|].
  pose proof (put_all_keeps_end _ _ _ _ Hput) as Hend. unfold log_end in Hend. simpl in Hend.
  pose proof (append_moves_offset s s' es _ Hinv Hinv') as Hw. unfold entry_size in Hw. simpl in Hw.
  unfold snapshot_size in *. constructor; simpl; [done | by rewrite Hom, Ho | by rewrite Hh' | | lia].
  intros k w. rewrite log_find_snoc, (snapshot_entry_find s es) by done. rewrite recs_find_app, Hr, Ho.
  do 2 f_equal. unfold snapshot_recs, sp_block, block_of. by rewrite Hh.
Qed.

Lemma get_ncall_refines s a es w0 key v addr :
  nrel s a es -> ncall_ok a (NGet w0 key v addr) ->
  match spec_ncall a (NGet w0 key v addr) with
  | Some (x, a') => exists s', run_ncall (NGet w0 key v addr) s = Ret x s' /\ nrel s' a' es
  | None => False
  end.
Proof.
  intros Hrel (b & Hb & Hlen). pose proof Hrel as [Hinv Ho Hh Hr Hf]. cbn [run_ncall spec_ncall].
  rewrite Hh in Hb |- *. pose proof (get_run s es w0 key v addr b Hinv Hb) as H. rewrite Hr in H.
  destruct (recs_find key v (sp_recs a)) as [d|].
  - specialize (H (Hlen d eq_refl)). eexists. split; [by erewrite bind_Ret by exact H|].
    rewrite Hb. cbn [default]. rewrite <- Hh at 2. by apply nrel_read; [| |apply Hlen].
  - exists s. split; [by erewrite bind_Ret by exact H|done].
Qed.

Lemma ncall_refines s a es c :
  nrel s a es -> ncall_ok a c ->
  match spec_ncall a c with
  | Some (x, a') => exists s' es', run_ncall c s = Ret x s' /\ nrel s' a' es'
  | None => exists s', run_ncall c s = Exit 1 s'
  end.
Proof.
  intros Hrel Hok. destruct c as [p bs|key size p init|g key v|gs|w0 key v addr].
  - destruct Hok as (b & Hb & Hl). rewrite (nl_heap _ _ _ Hrel) in Hb.
    destruct (fill_block_refines s a es p bs b Hrel Hb Hl) as (s' & Hs & H).
    exists s', es. split; [|done]. cbn [run_ncall]. by erewrite bind_Ret by exact Hs.
  - pose proof (create_refines s a es key size p init Hrel Hok) as H.
    destruct (spec_ncall _ _) as [[x a']|]; [|done]. destruct H as (s' & H). by exists s', es.
  - by apply (put_refines s a es).
  - by apply (put_all_refines s a es).
  - pose proof (get_ncall_refines s a es w0 key v addr Hrel Hok) as H.
    destruct (spec_ncall _ _) as [[x a']|]; [|done]. destruct H as (s' & H). by exists s', es.
Qed.

(** C7: NVSStore is a store of versions.  From any state of the store and its
    abstraction (the objects, the blocks, the records that can be found and the
    bytes the log has left), any sequence of legal calls of create_obj, put,
    put_all and get, mixed with stores of the program into its blocks, returns
    exactly the answers of the specification and leaves the abstraction of
    what it says: put adds a record with the content the object has then, a
    snapshot adds one for each object but the last, get finds the oldest record
    of the first 19 characters of the name and the version and returns the
    bytes it had whatever was stored into the block since, and an unknown key
    or version is an error code.  The process ends exactly when the
    specification says so: a put or snapshot without room, or a key created
    twice. *)
Theorem nvs_store_refines (l : list ncall) s a es :
  nrel s a es -> ncalls_ok a l ->
  match spec_ncalls a l with
  | Some (xs, a') => exists s' es', run_ncalls l s = Ret xs s' /\ nrel s' a' es'
  | None => exists s', run_ncalls l s = Exit 1 s'
  end.
Proof.
  revert s a es. induction l as [|c l IH]; intros s a es Hrel Hok; cbn [spec_ncalls run_ncalls].
  { by exists s, es. }
  destruct Hok as [Hc Hok]. pose proof (ncall_refines s a es c Hrel Hc) as H.
  destruct (spec_ncall a c) as [[x a1]|]; cycle 1.
  { destruct H as (s' & H). exists s'. by apply bind_Exit. }
  destruct H as (s1 & es1 & Hs1 & Hrel1). specialize (IH s1 a1 es1 Hrel1 Hok).
  erewrite bind_Ret by exact Hs1. destruct (spec_ncalls a1 l) as [[xs a']|].
  - destruct IH as (s' & es' & Hs' & Hrel'). exists s', es'. by erewrite bind_Ret by exact Hs'.
  - destruct IH as (s' & Hs'). exists s'. by apply bind_Exit.
Qed.

(** * The theorem at a concrete input *)

(** Two versions of an object, its block overwritten in between and after;
    version 1 put again; a snapshot; a key of the same name that is not
    there. *)
Definition demo_ncalls : list ncall :=
  [NPut demo_garbage key_a 1; NStore 100 [Byte.x0a; Byte.x0b; Byte.x0c];
   NPut demo_garbage key_a 2; NStore 100 [Byte.x0d; Byte.x0e; Byte.x0f];
   NPut demo_garbage key_a 1; NGet demo_wentry key_a 1 300; NGet demo_wentry key_a 2 300;
   NGet demo_wentry key_b 7 300; NPut demo_garbage [Byte.x7a] 1].

Definition demo_nspec : nspec :=
  mkNspec (objectMap (store demo_store)) (heap demo_store) []
    (end_offset (log (store demo_store)) - write_offset (log (store demo_store))).

Lemma demo_nrel : nrel demo_store demo_nspec [].
Proof. constructor; [exact demo_store_inv | done | done | done | done]. Qed.

Definition demo_answers : list nans :=
  [ACount 0; ANone; ACount 0; ANone; ACount 0; ACode NO_ERROR; ACode NO_ERROR;
   ACode ID_NOT_FOUND; ACount (ErrorCode_code ELEM_NOT_FOUND)].

Definition demo_nspec' : nspec :=
  match spec_ncalls demo_nspec demo_ncalls with Some (_, a) => a | None => demo_nspec end.

Lemma demo_spec_run :
  spec_ncalls demo_nspec demo_ncalls = Some (demo_answers, demo_nspec') /\
  sp_heap demo_nspec' !! 300 = Some [Byte.x0a; Byte.x0b; Byte.x0c; NUL].
Proof.
  unfold demo_nspec'. split; [|by vm_compute].
  destruct (spec_ncalls demo_nspec demo_ncalls) as [[xs a]|] eqn:E.
  - assert (fst <$> spec_ncalls demo_nspec demo_ncalls = Some demo_answers) as H by by vm_compute.
    rewrite E in H. by injection H as ->.
  - by vm_compute in E.
Qed.

(** One call of a list at a time: its duties, then the state after it. *)
Ltac duties :=
  first [ split; [exact demo_garbage_wf | unfold fits; lia]
        | by eexists; split; [reflexivity|]
        | eexists; split; [reflexivity|]; intros d; vm_compute; intros [= <-]; lia ].
Ltac check_ncalls :=
  cbn [ncalls_ok];
  lazymatch goal with
  | |- True => exact I
  | |- _ =>
      split; [duties|];
      lazymatch goal with |- context [spec_ncall ?a ?c] =>
        let r := eval vm_compute in (spec_ncall a c) in
        replace (spec_ncall a c) with r by by vm_compute
      end; cbv iota beta; check_ncalls
  end.

Lemma demo_ncalls_ok : ncalls_ok demo_nspec demo_ncalls.
Proof. unfold demo_ncalls. check_ncalls. Qed.

(** The first version, put again after the block had changed, still reads as it
    was first put; the last read gives the second version. *)
Lemma nvs_store_refines_witness :
  exists s' es', run_ncalls demo_ncalls demo_store = Ret demo_answers s' /\
    nrel s' demo_nspec' es' /\ heap s' !! 300 = Some [Byte.x0a; Byte.x0b; Byte.x0c; NUL].
Proof.
  pose proof (nvs_store_refines demo_ncalls demo_store demo_nspec [] demo_nrel demo_ncalls_ok) as H.
  rewrite (proj1 demo_spec_run) in H. destruct H as (s' & es' & Hrun & Hrel).
  exists s', es'. split; [exact Hrun|]. split; [exact Hrel|].
  rewrite <- (nl_heap _ _ _ Hrel). exact (proj2 demo_spec_run).
Defined.
