(* ===== verification/FileStore.v ===== *)
(** The file store, src/nvstream/src/kvstore/file_store.cc (class [FileStore]):
    every version of an object is a file of its own.  The files of the machine
    are a map from paths to contents; what the system answers during a call
    (does [fopen] succeed, how many bytes a file takes, what [malloc] returns)
    is the environment of the call. *)
From S2P Require Import Prelude Mem LogFmt Log MemMan Object SMap NvsStore Store.
From stdpp Require Import pretty.
#[local] Open Scope Z_scope.

(** The builds of file_store.h. *)
Inductive fs_build : Type := TMPFS | PMFS | NO_FS.

Definition ROOT_FILE_PATH (b : fs_build) : bytes :=
  match b with
  | TMPFS => str "/dev/shm/unity"
  | PMFS => str "/mnt/pmfs/unity"
  | NO_FS => str "INVALID"
  end.

(** [boost::trim_right] in the classic locale. *)
Definition is_space (b : byte) : bool :=
  bool_decide (b ∈ [Byte.x20; Byte.x09; Byte.x0a; Byte.x0b; Byte.x0c; Byte.x0d]).

Fixpoint trim_right (s : bytes) : bytes :=
  match s with
  | [] => []
  | b :: s' => match trim_right s' with
               | [] => if is_space b then [] else [b]
               | t => b :: t
               end
  end.

Record FileStore : Type := mkFileStore {
  fs_objectMap : list (bytes * Object);
  fs_addrMap : gmap Z bytes;
  fs_storeId : bytes
}.

Record FileSt : Type := mkFileSt {
  fstore : FileStore;
  fs_files : gmap bytes bytes;
  fs_dirs : gset bytes;
  fs_heap : cheap
}.

Record FileEnv : Type := mkFileEnv {
  fe_fopen : bytes -> bool;
  fe_space : bytes -> nat;
  fe_ptr : Z;
  fe_init : bytes
}.

Definition set_fobjects (om : list (bytes * Object)) (s : FileSt) : FileSt :=
  mkFileSt (mkFileStore om (fs_addrMap (fstore s)) (fs_storeId (fstore s)))
    (fs_files s) (fs_dirs s) (fs_heap s).
Definition set_faddrs (am : gmap Z bytes) (s : FileSt) : FileSt :=
  mkFileSt (mkFileStore (fs_objectMap (fstore s)) am (fs_storeId (fstore s)))
    (fs_files s) (fs_dirs s) (fs_heap s).
Definition set_ffiles (fs : gmap bytes bytes) (s : FileSt) : FileSt :=
  mkFileSt (fstore s) fs (fs_dirs s) (fs_heap s).
Definition set_fheap (h : cheap) (s : FileSt) : FileSt :=
  mkFileSt (fstore s) (fs_files s) (fs_dirs s) h.

Definition on_fheap {A} (m : M cheap A) : M FileSt A := zoom fs_heap set_fheap m.

(** The path of the directory of the store, and a file name in it. *)
Definition SLASH : bytes := str "/".
Definition store_dir (b : fs_build) (storeId : bytes) : bytes := ROOT_FILE_PATH b ++ SLASH ++ storeId.

Definition file_name (b : fs_build) (storeId key : bytes) (v : Z) : bytes :=
  store_dir b storeId ++ SLASH ++ key ++ to_string v.

Definition snap_name (b : fs_build) (storeId key : bytes) (v : Z) : bytes :=
  store_dir b storeId ++ SLASH ++ key ++ str "_" ++ to_string v.

Section FileStore.
Context (build : fs_build).

(** FileStore::FileStore; [mkdirs] is the answer of
    [boost::filesystem::create_directories], [None] when it throws. *)
Definition FileStore_ctor (mkdirs : bytes -> option bool) (storeId : bytes) : M FileSt unit :=
  let fsPath := store_dir build storeId in
  s ← get_st;
  let st := mkFileStore [] ∅ storeId in
  if bool_decide (fsPath ∈ fs_dirs s)
  then put_st (mkFileSt st (fs_files s) (fs_dirs s) (fs_heap s))
  else match mkdirs fsPath with
       | None => abort_
       | Some false => exit_ 1
       | Some true => put_st (mkFileSt st (fs_files s) ({[fsPath]} ∪ fs_dirs s) (fs_heap s))
       end.

(** Open [path] for writing, write the object, check the count, close. *)
Definition write_file (e : FileEnv) (path : bytes) (obj : Object) : M FileSt Z :=
  let path := c_str path in
  if negb (fe_fopen e path) then exit_ 1 else
  d ← on_fheap (h_read (o_ptr obj) (o_size obj));
  let tsize := Nat.min (length d) (fe_space e path) in
  modify (fun s => set_ffiles (<[path := take tsize d]> (fs_files s)) s);;
  if negb (Z.of_nat tsize =? o_size obj) then abort_ else
  mret (Z.of_nat tsize).

Definition put (e : FileEnv) (key : bytes) (v : Z) : M FileSt Z :=
  let key := trim_right key in
  s ← get_st;
  match sm_find key (fs_objectMap (fstore s)) with
  | Some obj => write_file e (file_name build (fs_storeId (fstore s)) key v) obj
  | None => mret (ErrorCode_code ELEM_NOT_FOUND)
  end.

(** The loop of [put_all] over the map. *)
Fixpoint put_all_loop (e : FileEnv) (objs : list (bytes * Object)) (total_size : Z) : M FileSt Z :=
  match objs with
  | [] => mret total_size
  | (key, obj) :: objs' =>
      let version := u64 (o_version obj + 1) in
      s ← get_st;
      tsize ← write_file e (snap_name build (fs_storeId (fstore s)) key version) obj;
      modify (fun s => set_fobjects
        (sm_set key (setVersion version obj) (fs_objectMap (fstore s))) s);;
      put_all_loop e objs' (u64 (total_size + tsize))
  end.

Definition put_all (e : FileEnv) : M FileSt Z :=
  s ← get_st;
  put_all_loop e (fs_objectMap (fstore s)) 0.

(** The content of the file to read, or [None] for an error of [file_size] or
    [fopen]. *)
Definition open_version (e : FileEnv) (key : bytes) (v : Z) : M FileSt (option bytes) :=
  s ← get_st;
  let path := c_str (file_name build (fs_storeId (fstore s)) key v) in
  match fs_files s !! path with
  | None => mret None
  | Some d => if fe_fopen e path then mret (Some d) else mret None
  end.

Definition get (e : FileEnv) (key : bytes) (v : Z) (addr : Z) : M FileSt ErrorCode :=
  let key := trim_right key in
  f ← open_version e key v;
  match f with
  | None => mret ELEM_NOT_FOUND
  | Some d => on_fheap (h_write addr d);; mret NO_ERROR
  end.

Definition get_with_malloc (e : FileEnv) (key : bytes) (v : Z) : M FileSt (ErrorCode * option Z) :=
  let key := trim_right key in
  f ← open_version e key v;
  match f with
  | None => mret (ELEM_NOT_FOUND, None)
  | Some d =>
      s ← get_st;
      obj ← match sm_find key (fs_objectMap (fstore s)) with
            | Some obj => mret obj
            | None => tmp_ptr ← on_fheap (h_malloc (fe_ptr e) (fe_init e));
                      mret (new_Object false key (Z.of_nat (length d)) v tmp_ptr)
            end;
      let obj := setVersion v obj in
      modify (fun s => set_fobjects (sm_set key obj (fs_objectMap (fstore s))) s);;
      on_fheap (h_write (o_ptr obj) d);;
      mret (NO_ERROR, Some (o_ptr obj))
  end.

Definition create_obj (e : FileEnv) (key : bytes) (size : Z) : M FileSt (ErrorCode * option Z) :=
  let key := trim_right key in
  tmp_ptr ← on_fheap (h_malloc (fe_ptr e) (fe_init e));
  let obj := new_Object false key size 0 tmp_ptr in
  s ← get_st;
  match sm_find key (fs_objectMap (fstore s)) with
  | None => put_st (set_fobjects (sm_set key obj (fs_objectMap (fstore s))) s);;
            mret (NO_ERROR, Some tmp_ptr)
  | Some _ => exit_ 1
  end.

(** [free_obj] erases both entries and then reads the erased iterator. *)
Definition free_obj (obj_addr : Z) : M FileSt ErrorCode :=
  s ← get_st;
  match fs_addrMap (fstore s) !! obj_addr with
  | None => exit_ 1
  | Some key =>
      match sm_find key (fs_objectMap (fstore s)) with
      | None => exit_ 1
      | Some _ =>
          modify (set_fobjects (sm_erase key (fs_objectMap (fstore s))));;
          modify (set_faddrs (delete obj_addr (fs_addrMap (fstore s))));;
          undef
      end
  end.

Definition get_store_id : M FileSt bytes := fun s => Ret (fs_storeId (fstore s)) s.

#[global] Instance FileStore_Store : Store FileSt FileEnv := {|
  v_create_obj := create_obj;
  v_free_obj := free_obj;
  v_put := put;
  v_put_all := put_all;
  v_get := get;
  v_get_with_malloc := get_with_malloc;
  v_get_store_id := get_store_id
|}.
End FileStore.

(** * Names *)

Lemma trim_right_idem s : trim_right (trim_right s) = trim_right s.
Proof.
  induction s as [|b s IH]; simpl; [done|].
  destruct (trim_right s) as [|c t] eqn:E; [|by cbn [trim_right] in *; rewrite IH].
  destruct (is_space b) eqn:Eb; simpl; [done|]. by rewrite Eb.
Qed.

Lemma c_str_app_no_nul a s : no_nul a -> c_str (a ++ s) = a ++ c_str s.
Proof.
  induction 1 as [|x a Hx _ IH]; simpl; [done|]. rewrite decide_False by done. by rewrite IH.
Qed.

Lemma no_nul_app a b : no_nul a -> no_nul b -> no_nul (a ++ b).
Proof. intros. by apply Forall_app. Qed.

Lemma store_dir_no_nul b id : no_nul id -> no_nul (store_dir b id ++ SLASH).
Proof.
  intros H. repeat apply no_nul_app; try done;
    [destruct b|..]; unfold no_nul, SLASH, str; simpl; repeat constructor; discriminate.
Qed.

(** The part of a path that depends on the key and the version. *)
Definition leaf (key : bytes) (v : Z) : bytes := c_str (key ++ to_string v).

Lemma file_name_leaf b id key v :
  no_nul id -> c_str (file_name b id key v) = (store_dir b id ++ SLASH) ++ leaf key v.
Proof.
  intros H. unfold file_name, leaf. rewrite app_assoc.
  by rewrite c_str_app_no_nul by by apply store_dir_no_nul.
Qed.

Lemma file_name_inj b id k v k' v' :
  no_nul id -> c_str (file_name b id k v) = c_str (file_name b id k' v') -> leaf k v = leaf k' v'.
Proof. intros H. rewrite !file_name_leaf by done. by intros ?%app_inv_head. Qed.

(** The characters of a printed number are digits. *)
Lemma pretty_digits n (P : Ascii.ascii -> Prop) :
  (forall m, (m < 10)%N -> P (pretty_N_char m)) ->
  forall acc, Forall P (String.list_ascii_of_string acc) ->
  Forall P (String.list_ascii_of_string (pretty_N_go n acc)).
Proof.
  intros HP. induction n as [n IH] using (well_founded_induction N.lt_wf_0). intros acc Ha.
  destruct (decide (n = 0%N)) as [->|Hn]; [by rewrite pretty_N_go_0|].
  rewrite pretty_N_go_step by lia. apply IH.
  - apply N.div_lt; lia.
  - simpl. constructor; [|done]. apply HP, N.mod_lt. lia.
Qed.

Lemma to_string_Forall (P : byte -> Prop) v :
  (forall m, (m < 10)%N -> P (Ascii.byte_of_ascii (pretty_N_char m))) -> Forall P (to_string v).
Proof.
  intros HP. unfold to_string, str, String.list_byte_of_string.
  apply (Forall_fmap (A := Ascii.ascii) (B := byte)).
  unfold pretty, pretty_N. destruct (decide _); [repeat constructor; by apply (HP 0%N)|].
  by apply pretty_digits.
Qed.

Lemma digit_cases (P : N -> Prop) :
  P 0%N -> P 1%N -> P 2%N -> P 3%N -> P 4%N -> P 5%N -> P 6%N -> P 7%N -> P 8%N -> P 9%N ->
  forall m, (m < 10)%N -> P m.
Proof.
  intros. assert (m = 0 \/ m = 1 \/ m = 2 \/ m = 3 \/ m = 4 \/ m = 5 \/ m = 6 \/ m = 7 \/ m = 8 \/ m = 9)%N
    as E by lia. by repeat destruct E as [-> | E]; subst.
Qed.

Lemma to_string_no_nul v : no_nul (to_string v).
Proof. apply to_string_Forall. by apply digit_cases. Qed.

Definition UNDERSCORE : byte := Byte.x5f.

Lemma to_string_no_underscore v : UNDERSCORE ∉ to_string v.
Proof.
  assert (Forall (fun b => b <> UNDERSCORE) (to_string v)) as H.
  { apply to_string_Forall. by apply digit_cases. }
  rewrite Forall_forall in H. intros Hin. by apply (H _ Hin).
Qed.

(** A name is split at its last underscore in one way. *)
Lemma last_underscore_inj a d a' d' :
  UNDERSCORE ∉ d -> UNDERSCORE ∉ d' -> a ++ UNDERSCORE :: d = a' ++ UNDERSCORE :: d' ->
  a = a' /\ d = d'.
Proof.
  intros Hd Hd'. revert a'. induction a as [|x a IH]; intros [|x' a'] H; simpl in H.
  - by injection H as ->.
  - injection H as <- ->. destruct Hd. apply elem_of_app. right. left.
  - injection H as -> <-. destruct Hd'. apply elem_of_app. right. left.
  - injection H as -> H. by destruct (IH a' H) as [-> ->].
Qed.

Lemma snap_name_value b id k v :
  no_nul id -> no_nul k ->
  c_str (snap_name b id k v) = (store_dir b id ++ SLASH) ++ k ++ UNDERSCORE :: to_string v.
Proof.
  intros Hid Hk. unfold snap_name. rewrite app_assoc.
  change (str "_") with [UNDERSCORE].
  rewrite c_str_app_no_nul by by apply store_dir_no_nul. f_equal.
  apply c_str_id. apply no_nul_app; [done|]. constructor; [discriminate | apply to_string_no_nul].
Qed.

Lemma snap_name_inj b id k v k' v' :
  no_nul id -> no_nul k -> no_nul k' ->
  c_str (snap_name b id k v) = c_str (snap_name b id k' v') -> k = k'.
Proof.
  intros Hid Hk Hk'. rewrite !snap_name_value by done. intros H%app_inv_head.
  by apply last_underscore_inj in H as [-> _]; try apply to_string_no_underscore.
Qed.

(** The file of a version and the file of a snapshot have different names when
    the key has no underscore. *)
Lemma version_not_snap b id k v k' v' :
  no_nul id -> no_nul k -> no_nul k' -> UNDERSCORE ∉ k ->
  c_str (file_name b id k v) <> c_str (snap_name b id k' v').
Proof.
  intros Hid Hk Hk' Hu. rewrite snap_name_value, file_name_leaf by done. intros H%app_inv_head.
  unfold leaf in H. rewrite c_str_id in H by (apply no_nul_app; [done | apply to_string_no_nul]).
  assert (UNDERSCORE ∈ k ++ to_string v) as Hin.
  { rewrite H. apply elem_of_app. right. left. }
  apply elem_of_app in Hin as [Hin|Hin]; [done|]. by apply to_string_no_underscore in Hin.
Qed.

(** * The invariant of the store *)

Record file_inv (s : FileSt) : Prop := {
  fi_id : no_nul (fs_storeId (fstore s));
  fi_sorted : sm_sorted (fs_objectMap (fstore s));
  fi_addr : fs_addrMap (fstore s) = ∅;
  fi_objs : forall k o, sm_find k (fs_objectMap (fstore s)) = Some o ->
    trim_right k = k /\ o_name o = k /\
    exists b, fs_heap s !! o_ptr o = Some b /\ Z.of_nat (length b) = o_size o
}.

Lemma on_fheap_Ret {A} (m : M cheap A) s a h :
  m (fs_heap s) = Ret a h -> on_fheap m s = Ret a (set_fheap h s).
Proof. intros H. unfold on_fheap, zoom. by rewrite H. Qed.

Lemma set_fheap_id s : set_fheap (fs_heap s) s = s.
Proof. by destruct s as [[]]. Qed.

Lemma write_file_run e path o d s :
  fs_heap s !! o_ptr o = Some d -> Z.of_nat (length d) = o_size o ->
  write_file e path o s =
  let path := c_str path in
  if fe_fopen e path then
    let s' := set_ffiles (<[path := take (fe_space e path) d]> (fs_files s)) s in
    if (length d <=? fe_space e path)%nat then Ret (o_size o) s' else Exit 134 s'
  else Exit 1 s.
Proof.
  intros Hd Hl. unfold write_file. cbv zeta. destruct (fe_fopen e (c_str path)) eqn:Eo; [|done].
  change (negb true) with false. cbv iota. rewrite <- Hl.
  erewrite bind_Ret by (apply on_fheap_Ret, h_read_full; exact Hd). rewrite set_fheap_id.
  mstep. destruct (Nat.leb_spec (length d) (fe_space e (c_str path))) as [Hle|Hgt].
  - rewrite Nat.min_l, Z.eqb_refl by lia. simpl.
    by rewrite !take_ge by lia.
  - rewrite Nat.min_r by lia. rewrite (proj2 (Z.eqb_neq _ _)) by lia. done.
Qed.

(** Files other than the one written. *)
Definition other_files_kept (s s' : FileSt) (path : bytes) : Prop :=
  forall q, q <> path -> fs_files s' !! q = fs_files s !! q.

(** * The file store keeps the promise of the interface *)

Section Laws.
Context (build : fs_build).

Definition path_of (s : FileSt) (key : bytes) (v : Z) : bytes :=
  c_str (file_name build (fs_storeId (fstore s)) (trim_right key) v).

Definition file_room (s : FileSt) (l : list (FileEnv * bytes * Z)) : Prop :=
  Forall (fun x => fe_fopen x.1.1 (path_of s x.1.2 x.2) = true /\
    forall o, sm_find (trim_right x.1.2) (fs_objectMap (fstore s)) = Some o ->
      o_size o <= Z.of_nat (fe_space x.1.1 (path_of s x.1.2 x.2))) l.

Definition file_object (s : FileSt) (k : bytes) : option Z :=
  o_ptr <$> sm_find (trim_right k) (fs_objectMap (fstore s)).

Lemma file_inv_files s fs : file_inv s -> file_inv (set_ffiles fs s).
Proof. by intros []. Qed.

Lemma file_put_law e key v l s p d :
  file_inv s -> file_object s key = Some p -> fs_heap s !! p = Some d ->
  file_room s ((e, key, v) :: l) ->
  exists r s', put build e key v s = Ret r s' /\ file_inv s' /\ fs_heap s' = fs_heap s /\
    (forall k, file_object s' k = file_object s k) /\
    fs_files s' !! path_of s' key v = Some d /\
    (forall k w, leaf (trim_right key) v <> leaf (trim_right k) w ->
       fs_files s' !! path_of s' k w = fs_files s !! path_of s k w) /\ file_room s' l.
Proof.
  intros Hinv Hp Hd [[Hopen Hsp] Hroom]%Forall_cons. unfold file_object in Hp.
  destruct (sm_find _ _) as [o|] eqn:Eo; [|done]. injection Hp as <-.
  destruct (fi_objs _ Hinv _ o Eo) as (_ & _ & b & Hb & Hl).
  assert (b = d) as -> by congruence. specialize (Hsp o eq_refl). simpl in Hopen, Hsp.
  eexists _, _. split.
  { unfold put. mstep. rewrite Eo, (write_file_run _ _ _ d) by done. cbv zeta.
    fold (path_of s key v). rewrite Hopen, (proj2 (Nat.leb_le _ _)) by lia.
    by rewrite take_ge by lia. }
  split; [by apply file_inv_files|]. split; [done|]. split; [done|].
  split; [apply lookup_insert_eq|]. split; [|done].
  intros k w Hne. apply lookup_insert_ne. intros Heq. apply Hne.
  by apply (file_name_inj build (fs_storeId (fstore s))); [apply Hinv|].
Qed.

Lemma open_version_run e key v s :
  open_version build e (trim_right key) v s =
  Ret (if fe_fopen e (path_of s key v) then fs_files s !! path_of s key v else None) s.
Proof.
  unfold open_version. mstep. fold (path_of s key v).
  destruct (fs_files s !! path_of s key v); by destruct (fe_fopen e _).
Qed.

Lemma file_get_law e key v addr s b :
  fe_fopen e (path_of s key v) = true -> fs_heap s !! addr = Some b ->
  match fs_files s !! path_of s key v with
  | Some d => (length d <= length b)%nat ->
      exists s', get build e key v addr s = Ret NO_ERROR s' /\
        fs_heap s' = <[addr := d ++ drop (length d) b]> (fs_heap s)
  | None => exists c s', c <> NO_ERROR /\ get build e key v addr s = Ret c s' /\ fs_heap s' = fs_heap s
  end.
Proof.
  intros Ho Hb. unfold get. cbv zeta. erewrite bind_Ret by apply open_version_run.
  rewrite Ho. destruct (fs_files s !! path_of s key v) as [d|]; [|by exists ELEM_NOT_FOUND, s].
  intros Hl. eexists. erewrite bind_Ret by by apply on_fheap_Ret, h_write_run. done.
Qed.

Lemma file_inv_poke s p bs d :
  file_inv s -> fs_heap s !! p = Some d -> length bs = length d ->
  file_inv (set_fheap (<[p := bs]> (fs_heap s)) s).
Proof.
  intros [H1 H2 H3 H4] Hp Hl. constructor; try done. simpl. intros k o Hk.
  destruct (H4 k o Hk) as (T & N & b & Hb & Hlb). split; [done|]. split; [done|].
  destruct (decide (p = o_ptr o)) as [->|Hne].
  - exists bs. rewrite lookup_insert_eq. split; [done|]. congruence.
  - exists b. by rewrite lookup_insert_ne.
Qed.

Lemma file_poke_law p bs d l s :
  file_inv s -> fs_heap s !! p = Some d -> length bs = length d ->
  let s' := set_fheap (<[p := bs]> (fs_heap s)) s in
  file_inv s' /\ fs_heap s' = <[p := bs]> (fs_heap s) /\
  (forall k, file_object s' k = file_object s k) /\
  (forall k w, fs_files s' !! path_of s' k w = fs_files s !! path_of s k w) /\
  (file_room s l -> file_room s' l).
Proof. intros Hi Hp Hl. split; [by eapply file_inv_poke | done]. Qed.

#[global] Instance FileStore_Versioned : @VersionedStore FileSt FileEnv (FileStore_Store build) :=
  Build_VersionedStore FileSt FileEnv (FileStore_Store build) file_inv fs_heap file_object
    (fun s k v => fs_files s !! path_of s k v)
    (fun p bs s => set_fheap (<[p := bs]> (fs_heap s)) s)
    file_room
    (fun k v k' v' => leaf (trim_right k) v = leaf (trim_right k') v')
    (fun s e k v => fe_fopen e (path_of s k v) = true)
    (fun e key v l s p d Hi Hp Hd _ Hr => file_put_law e key v l s p d Hi Hp Hd Hr)
    (fun e key v addr s b _ Ho Hb => file_get_law e key v addr s b Ho Hb)
    file_poke_law.
End Laws.

Section Theorems.
Context (build : fs_build).

(** FileStore::put, every branch.  An unknown key returns ELEM_NOT_FOUND;
    a file that cannot be opened ends the process with status 1; a short write
    fails the assertion and leaves the truncated file; otherwise the file of
    the (trimmed) key and version holds exactly the object's bytes, the size is
    returned, and the objects with their versions and all other files are as
    before. *)
Theorem file_put_spec e key v s :
  file_inv s ->
  match sm_find (trim_right key) (fs_objectMap (fstore s)) with
  | None => put build e key v s = Ret (ErrorCode_code ELEM_NOT_FOUND) s
  | Some o => exists d path,
      fs_heap s !! o_ptr o = Some d /\
      path = c_str (file_name build (fs_storeId (fstore s)) (trim_right key) v) /\
      let s' := set_ffiles (<[path := take (fe_space e path) d]> (fs_files s)) s in
      put build e key v s =
      if fe_fopen e path
      then if (length d <=? fe_space e path)%nat then Ret (o_size o) s' else Exit 134 s'
      else Exit 1 s
  end.
Proof.
  intros [_ _ _ Ho]. destruct (sm_find _ _) as [o|] eqn:E.
  - destruct (Ho _ o E) as (_ & _ & d & Hd & Hl). eexists d, _. split; [done|]. split; [done|].
    unfold put. mstep. rewrite E. by apply write_file_run.
  - unfold put. mstep. by rewrite E.
Qed.

(** * put_all *)

Definition bump (o : Object) : Object := setVersion (u64 (o_version o + 1)) o.

Definition snap_path (s : FileSt) (k : bytes) (o : Object) : bytes :=
  c_str (snap_name build (fs_storeId (fstore s)) k (u64 (o_version o + 1))).

(** The machine lets every file of the snapshot be written. *)
Definition snap_ok (e : FileEnv) (s : FileSt) (objs : list (bytes * Object)) : Prop :=
  Forall (fun ko => fe_fopen e (snap_path s ko.1 ko.2) = true /\
                    o_size ko.2 <= Z.of_nat (fe_space e (snap_path s ko.1 ko.2))) objs.

Definition fblock (s : FileSt) (o : Object) : bytes := default [] (fs_heap s !! o_ptr o).

Definition snap_files (s : FileSt) (objs : list (bytes * Object)) (fs : gmap bytes bytes) :
    gmap bytes bytes :=
  foldl (fun fs ko => <[snap_path s ko.1 ko.2 := fblock s ko.2]> fs) fs objs.

Definition snap_objects (objs om : list (bytes * Object)) : list (bytes * Object) :=
  foldl (fun om ko => sm_set ko.1 (bump ko.2) om) om objs.

Definition snap_total (objs : list (bytes * Object)) (tot : Z) : Z :=
  foldl (fun t ko => u64 (t + o_size ko.2)) tot objs.

Lemma put_all_loop_run e objs : forall s tot,
  snap_ok e s objs ->
  Forall (fun ko => exists b, fs_heap s !! o_ptr ko.2 = Some b /\
                              Z.of_nat (length b) = o_size ko.2) objs ->
  put_all_loop build e objs tot s =
  Ret (snap_total objs tot)
    (set_fobjects (snap_objects objs (fs_objectMap (fstore s)))
       (set_ffiles (snap_files s objs (fs_files s)) s)).
Proof.
  induction objs as [|[k o] objs IH]; intros s tot Hok Hb; [by destruct s as [[]]|].
  apply Forall_cons in Hok as [[Ho Hsp] Hok]. apply Forall_cons in Hb as [(d & Hd & Hl) Hb].
  simpl in Ho, Hsp, Hd, Hl. simpl put_all_loop. mstep.
  erewrite bind_Ret; [|rewrite (write_file_run _ _ _ d) by done; cbv zeta;
    fold (snap_path s k o); rewrite Ho, (proj2 (Nat.leb_le _ _)) by lia; reflexivity].
  mstep. rewrite take_ge by lia. rewrite IH by done.
  unfold snap_files, fblock. simpl. by rewrite Hd.
Qed.

Lemma snap_files_other s objs q : forall fs,
  Forall (fun ko => q <> snap_path s ko.1 ko.2) objs -> snap_files s objs fs !! q = fs !! q.
Proof.
  induction objs as [|[k o] objs IH]; intros fs Hq; [done|].
  apply Forall_cons in Hq as [Hq Hqs]. simpl. rewrite IH by done. by apply lookup_insert_ne.
Qed.


Lemma snap_files_own s objs k o fs :
  no_nul (fs_storeId (fstore s)) -> Forall (fun ko => no_nul ko.1) objs -> NoDup objs.*1 ->
  (k, o) ∈ objs -> snap_files s objs fs !! snap_path s k o = Some (fblock s o).
Proof.
  intros Hid. revert fs. induction objs as [|[k' o'] objs IH]; intros fs Hn Hd Hin;
    [by apply not_elem_of_nil in Hin|].
  apply Forall_cons in Hn as [Hk' Hn]. simpl in Hd. apply NoDup_cons in Hd as [Hk Hd].
  apply elem_of_cons in Hin as [[= <- <-]|Hin].
  - simpl. rewrite snap_files_other; [apply lookup_insert_eq|].
    rewrite Forall_forall in Hn. apply Forall_forall. intros [k2 o2] H2 Heq. simpl in Heq.
    apply snap_name_inj in Heq as <-; [|done | done | by apply (Hn (k2, o2))].
    apply Hk. by apply (list_elem_of_fmap_2 fst objs (k, o2)).
  - simpl. by apply IH.
Qed.

Lemma snap_objects_find objs : forall om k o,
  NoDup objs.*1 -> (k, o) ∈ objs -> sm_find k (snap_objects objs om) = Some (bump o).
Proof.
  assert (forall objs om k, k ∉ objs.*1 -> sm_find k (snap_objects objs om) = sm_find k om) as Hother.
  { clear. induction objs as [|[k' o'] objs IH]; intros om k Hk; [done|].
    apply not_elem_of_cons in Hk as [Hne Hk]. simpl in *. rewrite IH by done.
    by apply sm_find_set_ne. }
  induction objs as [|[k' o'] objs IH]; intros om k o Hd Hin; [by apply not_elem_of_nil in Hin|].
  simpl in Hd. apply NoDup_cons in Hd as [Hk Hd]. simpl.
  apply elem_of_cons in Hin as [[= -> ->]|Hin]; [|by apply IH].
  rewrite Hother by done. apply sm_find_set_eq.
Qed.

(** A snapshot of the file store cannot be read back.  put_all writes the
    file [key_version] of every object, bumps the versions and returns the
    total size, but get and get_with_malloc open [keyversion]: for a key
    without underscore, reading the version the snapshot has just written gives
    ELEM_NOT_FOUND. *)
Theorem file_snapshot_lost e e' s k o addr :
  file_inv s -> snap_ok e s (fs_objectMap (fstore s)) ->
  Forall (fun ko => no_nul ko.1) (fs_objectMap (fstore s)) ->
  sm_find k (fs_objectMap (fstore s)) = Some o -> UNDERSCORE ∉ k ->
  fs_files s !! path_of build s k (u64 (o_version o + 1)) = None ->
  exists s', put_all build e s = Ret (snap_total (fs_objectMap (fstore s)) 0) s' /\
    fs_files s' !! snap_path s k o = Some (fblock s o) /\
    sm_find k (fs_objectMap (fstore s')) = Some (bump o) /\
    get build e' k (o_version (bump o)) addr s' = Ret ELEM_NOT_FOUND s' /\
    get_with_malloc build e' k (o_version (bump o)) s' = Ret (ELEM_NOT_FOUND, None) s'.
Proof.
  intros [Hid Hsort Ha Hobj] Hok Hnul Hk Hu Hnone.
  assert (NoDup (fs_objectMap (fstore s)).*1) as Hnd by by apply sm_sorted_nodup.
  assert ((k, o) ∈ fs_objectMap (fstore s)) as Hin by by apply sm_find_elem.
  destruct (Hobj k o Hk) as (Htrim & _ & _).
  assert (no_nul k) as Hkn by (rewrite Forall_forall in Hnul; by apply (Hnul (k, o))).
  eexists. split.
  { unfold put_all. mstep. apply put_all_loop_run; [done|]. apply Forall_forall.
    intros [k' o'] Hin'. apply sm_elem_find in Hin'; [|done]. by apply Hobj in Hin' as (_ & _ & ?). }
  split; [by apply snap_files_own|]. split; [by apply snap_objects_find|].
  assert (forall s', s' = set_fobjects (snap_objects (fs_objectMap (fstore s))
            (fs_objectMap (fstore s)))
            (set_ffiles (snap_files s (fs_objectMap (fstore s)) (fs_files s)) s) ->
          fs_files s' !! path_of build s' k (o_version (bump o)) = None) as Hlost.
  { intros s' ->. simpl. rewrite snap_files_other; [done|]. apply Forall_forall.
    intros [k' o'] Hin'. unfold path_of, snap_path. simpl. rewrite Htrim.
    apply version_not_snap; try done. rewrite Forall_forall in Hnul. by apply (Hnul (k', o')). }
  unfold get, get_with_malloc. cbv zeta.
  split; erewrite bind_Ret by apply open_version_run; rewrite Hlost by done; by destruct (fe_fopen _ _).
Qed.

(** free_obj ends the process: create_obj never enters an object into the
    address map it looks in. *)
Lemma file_free_obj_exits s addr : file_inv s -> free_obj addr s = Exit 1 s.
Proof. intros [_ _ Ha _]. unfold free_obj. mstep. by rewrite Ha. Qed.

(** create_obj keeps the invariant; a key that is taken ends the process. *)
Lemma file_create_obj_inv e key size s :
  file_inv s -> fs_heap s !! fe_ptr e = None -> Z.of_nat (length (fe_init e)) = size ->
  match sm_find (trim_right key) (fs_objectMap (fstore s)) with
  | None => exists s', create_obj e key size s = Ret (NO_ERROR, Some (fe_ptr e)) s' /\ file_inv s' /\
      sm_find (trim_right key) (fs_objectMap (fstore s')) =
        Some (new_Object false (trim_right key) size 0 (fe_ptr e)) /\ fs_files s' = fs_files s
  | Some _ => exists s', create_obj e key size s = Exit 1 s'
  end.
Proof.
  intros [H1 H2 H3 H4] Hp Hl. unfold create_obj. cbv zeta. mstep. mstep. simpl.
  destruct (sm_find _ _) as [o|] eqn:E; [by eexists|].
  eexists. split; [reflexivity|]. split; [constructor|]; simpl; try done.
  - by apply sm_set_sorted.
  - intros k o. destruct (decide (trim_right key = k)) as [<-|Hne].
    + rewrite sm_find_set_eq. intros [= <-]. split; [apply trim_right_idem|]. split; [done|].
      exists (fe_init e). by rewrite lookup_insert_eq.
    + rewrite sm_find_set_ne by done. intros Hk. destruct (H4 k o Hk) as (T & N & b & Hb & Hlb).
      split; [done|]. split; [done|]. exists b. split; [|done].
      rewrite lookup_insert_ne; [done|]. congruence.
  - split; [|done]. apply sm_find_set_eq.
Qed.
End Theorems.

(** * The theorems at concrete inputs *)

Definition file_env : FileEnv := mkFileEnv (fun _ => true) (fun _ => 100%nat) 400 [].

(** Two objects and a free buffer at 300. *)
Definition demo_files : FileSt :=
  mkFileSt (mkFileStore [(key_a, obj_a); (key_b, obj_b)] ∅ (str "s1")) ∅ ∅
    {[100 := data_a; 200 := data_b; 300 := replicate 4 NUL]}.

Lemma demo_files_inv : file_inv demo_files.
Proof.
  constructor; [repeat constructor; discriminate | by repeat constructor | done |].
  intros k o. simpl. destruct (decide (k = key_a)) as [->|]; [intros [= <-]|].
  { split; [done|]. split; [done|]. by exists data_a. }
  destruct (decide (k = key_b)) as [->|]; [intros [= <-]|done].
  split; [done|]. split; [done|]. by exists data_b.
Qed.

Lemma file_put_spec_witness :
  exists d path, fs_heap demo_files !! 100 = Some d /\
    path = c_str (file_name TMPFS (str "s1") (trim_right (key_a ++ [Byte.x20])) 3) /\
    let s' := set_ffiles (<[path := take 100 d]> ∅) demo_files in
    put TMPFS file_env (key_a ++ [Byte.x20]) 3 demo_files =
    if (length d <=? 100)%nat then Ret 3 s' else Exit 134 s'.
Proof. exact (file_put_spec TMPFS file_env (key_a ++ [Byte.x20]) 3 demo_files demo_files_inv). Defined.

Lemma file_snapshot_lost_witness :
  exists s', put_all TMPFS file_env demo_files = Ret 5 s' /\
    fs_files s' !! snap_path TMPFS demo_files key_a obj_a = Some data_a /\
    sm_find key_a (fs_objectMap (fstore s')) = Some (bump obj_a) /\
    get TMPFS file_env key_a 1 300 s' = Ret ELEM_NOT_FOUND s' /\
    get_with_malloc TMPFS file_env key_a 1 s' = Ret (ELEM_NOT_FOUND, None) s'.
Proof.
  refine (file_snapshot_lost TMPFS file_env file_env demo_files key_a obj_a 300 demo_files_inv _ _
    eq_refl _ eq_refl).
  - repeat constructor; vm_compute; discriminate.
  - repeat constructor; discriminate.
  - intros H. apply list_elem_of_singleton in H. discriminate.
Defined.

(** A program on the file store: put version 1 of [a], overwrite it, put
    version 2, and read version 1. *)
Definition demo_acts : list (act FileEnv) :=
  [APut file_env key_a 1; AWrite key_a [Byte.x07; Byte.x08; Byte.x09]; APut file_env key_a 2].

Definition demo_vkv : vkv := mkVkv {[key_a := data_a]} [].

Lemma versions_readable_witness :
  exists s', run_acts (H := FileStore_Versioned TMPFS) demo_acts demo_files = Ret tt s' /\
    forall e k v d addr b, (k, v, d) ∈ [(key_a, 1, data_a); (key_a, 2, [Byte.x07; Byte.x08; Byte.x09])] ->
      fe_fopen e (path_of TMPFS s' k v) = true ->
      fs_heap s' !! addr = Some b -> (length d <= length b)%nat ->
      exists s'', get TMPFS e k v addr s' = Ret NO_ERROR s'' /\
        fs_heap s'' = <[addr := d ++ drop (length d) b]> (fs_heap s').
Proof.
  apply (versions_readable (H := FileStore_Versioned TMPFS) demo_acts demo_files demo_vkv).
  - constructor; simpl.
    + exact demo_files_inv.
    + intros k d Hk. apply lookup_singleton_Some in Hk as [<- <-]. by exists 100.
    + intros k k' p [d Hk] [d' Hk'] _ _. apply lookup_singleton_Some in Hk as [<- _].
      by apply lookup_singleton_Some in Hk' as [<- _].
    + intros k v d Hin. by apply not_elem_of_nil in Hin.
  - vm_compute. split; [by eexists|]. split; [by eexists|]. split; [by eexists | done].
  - constructor; simpl.
    + repeat constructor.
    + split; [|split; [constructor | done]]. repeat constructor; vm_compute; discriminate.
    + intros k v d Hin. by apply not_elem_of_nil in Hin.
  - repeat constructor; intros o [= <-]; vm_compute; discriminate.
Defined.
