(* ===== verification/StoreCtor.v ===== *)
(** The constructors of the log stores, NVSStore::NVSStore
    (src/nvstream/src/kvstore/nvs_store.cc) and DeltaStore::DeltaStore
    (delta_store.cc): the log id is parsed from the store id [heap/log], and the
    process log is found, or created and then found, through the memory
    manager. *)
From S2P Require Import Prelude Mem LogFmt Log Root MemMan Object SMap NvsStore Store FileStore.
From stdpp Require Import pretty.
#[local] Open Scope Z_scope.

(** * Parsing the store id *)

(** [std::string::find("/")]. *)
Fixpoint find_slash (s : bytes) : option nat :=
  match s with
  | [] => None
  | b :: s' => if decide (b = Byte.x2f) then Some O else S <$> find_slash s'
  end.

Definition digit_of (b : byte) : option Z :=
  let d := byte.unsigned b - 48 in
  if (0 <=? d) && (d <=? 9) then Some d else None.

(** The longest prefix of digits: its value, and whether there is a digit. *)
Fixpoint digits (s : bytes) (acc : Z) : Z :=
  match s with
  | [] => acc
  | b :: s' => match digit_of b with Some d => digits s' (acc * 10 + d) | None => acc end
  end.

Definition starts_digit (s : bytes) : bool :=
  match s with b :: _ => bool_decide (is_Some (digit_of b)) | [] => false end.

Fixpoint skip_space (s : bytes) : bytes :=
  match s with
  | b :: s' => if is_space b then skip_space s' else s
  | [] => []
  end.

(** [std::stoi], base ten; [None] where it throws [invalid_argument] or
    [out_of_range]. *)
Definition stoi (s : bytes) : option Z :=
  let s := skip_space s in
  let '(sign, s) := match s with
                    | Byte.x2d :: s' => (-1, s')
                    | Byte.x2b :: s' => (1, s')
                    | _ => (1, s)
                    end in
  if starts_digit s then
    let n := sign * digits s 0 in
    if (- 2 ^ 31 <=? n) && (n <? 2 ^ 31) then Some n else None
  else None.

(** [storeId.substr(storeId.find("/") + 1)]; without a slash [npos + 1] is 0. *)
Definition log_id_str (storeId : bytes) : bytes :=
  match find_slash storeId with Some i => drop (S i) storeId | None => storeId end.

(** The conversion to the 8-bit [LogId]. *)
Definition log_id_of (storeId : bytes) : option Z := u8 <$> stoi (log_id_str storeId).

(** * The process log *)

Definition NVS_LOG_SIZE : Z := 100 * 1024 * 1024.
Definition DELTA_LOG_SIZE : Z := 500 * 1024 * 1024.

Section Ctor.
Context {FO : FallOff} (os_ok : bytes -> Z -> bool).

(** The body of both constructors: the log the store keeps.  An exception of
    [stoi] is not caught. *)
Definition open_process_log (log_size : Z) (storeId : bytes) : M MMSt (option nat) :=
  match log_id_of storeId with
  | None => abort_
  | Some logId =>
      '(ret, p) ← FindLog os_ok logId;
      if decide (ret = ID_NOT_FOUND) then
        ret ← CreateLog os_ok logId log_size;
        if decide (ret <> NO_ERROR) then exit_ 1 else
        '(ret, p) ← FindLog os_ok logId;
        if decide (ret <> NO_ERROR) then exit_ 1 else mret p
      else mret p
  end.

Definition NVSStore_ctor : bytes -> M MMSt (option nat) := open_process_log NVS_LOG_SIZE.
End Ctor.

(** * Theorems *)

Lemma digits_pretty n : forall acc,
  digits (str (pretty_N_go n acc)) 0 = digits (str acc) (Z.of_N n).
Proof.
  induction n as [n IH] using (well_founded_induction N.lt_wf_0). intros acc.
  destruct (decide (n = 0%N)) as [->|Hn]; [by rewrite pretty_N_go_0|].
  rewrite pretty_N_go_step by lia. rewrite IH by (apply N.div_lt; lia).
  change (str (String.String ?c ?a)) with (Ascii.byte_of_ascii c :: str a).
  assert (forall m, (m < 10)%N -> digit_of (Ascii.byte_of_ascii (pretty_N_char m)) = Some (Z.of_N m))
    as Hd by by apply digit_cases.
  simpl digits. rewrite Hd by (apply N.mod_lt; lia). f_equal.
  rewrite N2Z.inj_div, N2Z.inj_mod. rewrite (Z.div_mod (Z.of_N n) (Z.of_N 10)) at 3 by lia.
  change (Z.of_N 10) with 10. lia.
Qed.

Lemma to_string_digits n : 0 <= n -> digits (to_string n) 0 = n.
Proof.
  intros Hn. unfold to_string, pretty, pretty_N. destruct (decide _) as [E|E].
  - vm_compute. lia.
  - rewrite digits_pretty. simpl. lia.
Qed.

Lemma to_string_nonempty n : 0 <= n -> to_string n <> [].
Proof.
  intros Hn H. pose proof (to_string_digits n Hn) as Hd. rewrite H in Hd. simpl in Hd. by subst.
Qed.

Lemma stoi_to_string n : 0 <= n < 2 ^ 31 -> stoi (to_string n) = Some n.
Proof.
  intros Hn.
  assert (Forall (fun b => is_space b = false /\ b <> Byte.x2d /\ b <> Byte.x2b /\
                           is_Some (digit_of b)) (to_string n)) as Hf.
  { apply to_string_Forall. apply digit_cases; (split_and!; [done | done | done | by eexists]). }
  pose proof (to_string_digits n (proj1 Hn)) as Hv. pose proof (to_string_nonempty n (proj1 Hn)) as Hne.
  destruct (to_string n) as [|b s] eqn:E; [done|]. apply Forall_cons in Hf as [(H1 & H2 & H3 & H4) _].
  unfold stoi. simpl skip_space. rewrite H1.
  replace (match b with Byte.x2d => (-1, s) | Byte.x2b => (1, s) | _ => (1, b :: s) end)
    with (1, b :: s) by (destruct b; done).
  unfold starts_digit. rewrite bool_decide_true by done. rewrite Hv, Z.mul_1_l.
  by rewrite (proj2 (Z.leb_le _ _)), (proj2 (Z.ltb_lt _ _)) by lia.
Qed.

Lemma find_slash_app h s : Byte.x2f ∉ h -> find_slash (h ++ Byte.x2f :: s) = Some (length h).
Proof.
  induction h as [|b h IH]; intros Hn; [done|]. apply not_elem_of_cons in Hn as [Hb Hh].
  simpl. rewrite decide_False by congruence. by rewrite IH.
Qed.

(** The store id is printed and parsed back.  For a heap name without slash
    the id [heap/n] gives log id [n] modulo 256, so ids below 256 are distinct
    and every larger one is some other process's log. *)
Theorem store_id_roundtrip heap n :
  Byte.x2f ∉ heap -> 0 <= n < 2 ^ 31 -> log_id_of (heap ++ SLASH ++ to_string n) = Some (n mod 256).
Proof.
  intros Hh Hn. unfold log_id_of, log_id_str. change (SLASH ++ ?x) with (Byte.x2f :: x).
  rewrite find_slash_app by done.
  replace (drop (S (length heap)) (heap ++ Byte.x2f :: to_string n)) with (to_string n).
  - by rewrite stoi_to_string.
  - rewrite drop_app_ge by lia. by replace (S (length heap) - length heap)%nat with 1%nat by lia.
Qed.

Section CtorSpec.
Context {FO : FallOff} {FR : FallOffReturns} (os_ok : bytes -> Z -> bool) (log_size : Z) (sid : bytes).

(** What the constructor hands to the store: pointer [p] to an open log with
    the entries [es] of the file of the log id. *)
Definition has_log (id : Z) (s : MMSt) (p : nat) (es : list entry) : Prop :=
  mm_inv s /\ registered s id /\
  exists l f, log_objs s !! p = Some l /\ mm_files s !! log_path id = Some f /\
    log_inv (mkLogSt l (fpm f)) es.

(** The constructor of NVSStore and DeltaStore, every branch.  With an id
    the process has mapped it takes that log; with an id another process has
    registered it opens the file and sees the entries there; a new id gets a
    fresh empty log of the configured size, registered; a leftover file under
    an unregistered id ends the process; a store id whose log part does not
    parse aborts it. *)
Theorem open_process_log_spec s :
  mm_inv s -> 33 <= log_size < 2 ^ 63 -> (forall path n, os_ok path n = true) ->
  match log_id_of sid with
  | None => open_process_log os_ok log_size sid s = Exit 134 s
  | Some id =>
     (forall p, idToLogMap s !! id = Some p -> open_process_log os_ok log_size sid s = Ret (Some p) s) /\
     (idToLogMap s !! id = None -> registered s id ->
      exists s' p es, open_process_log os_ok log_size sid s = Ret (Some p) s' /\ has_log id s' p es /\
        mm_files s' = mm_files s) /\
     (~ registered s id -> mm_files s !! log_path id = None ->
      exists s' p, open_process_log os_ok log_size sid s = Ret (Some p) s' /\ has_log id s' p [] /\
        idToLogMap s' !! id = Some p) /\
     (~ registered s id -> is_Some (mm_files s !! log_path id) ->
      exists s', open_process_log os_ok log_size sid s = Exit 1 s')
  end.
Proof.
  intros Hinv Hsz Hos. unfold open_process_log. destruct (log_id_of sid) as [id|] eqn:Ei; [|done].
  assert (fits 8 id) as Hid.
  { unfold log_id_of in Ei. destruct (stoi _); [|done]. injection Ei as <-. apply u8_fits. }
  pose proof (mm_inv_shape s Hinv) as (r & im & lo & fs & -> & Hr).
  pose proof Hinv as [_ _ (r' & Hr' & _ & Hfiles & Hmap)]. injection Hr' as <-. simpl in *.
  assert (registered (with_root r im lo fs) id <-> id ∈ root_ids r) as Hreg.
  { split; [intros (? & [= <-] & ?); done | by exists r]. }
  rewrite Hreg. split_and!.
  - intros p Hp. erewrite bind_Ret by by apply FindLog_mapped. done.
  - intros Hnone Hin. destruct (Hfiles id Hin) as (f & es & Hf & Hfs & Hrep).
    destruct (FindLog_opens os_ok r im lo fs id f es) as (l & Hl & Hrun); try done.
    eexists _, _, es. split; [erewrite bind_Ret by exact Hrun; reflexivity|].
    split; [split_and!|done].
    + constructor; [done | done|]. by exists r.
    + by exists r.
    + exists l, f. split_and!; try done. simpl. by rewrite lookup_app_r, Nat.sub_diag by lia.
  - intros Hnew Hnf. assert (im !! id = None) as Him.
    { destruct (im !! id) eqn:E; [|done]. by apply Hmap in E. }
    destruct (CreateLog_fresh os_ok r im lo fs id log_size) as (l & f & Hc & Hsize & Hl & Hml); try done.
    destruct (addLog_run id r Hr Hid Hnew) as (_ & Hwf' & Hids').
    eexists _, _. split.
    { erewrite bind_Ret by by apply FindLog_absent. simpl.
      erewrite bind_Ret by exact Hc. simpl.
      erewrite bind_Ret by (apply FindLog_mapped; apply lookup_insert_eq). simpl. reflexivity. }
    split; [split_and!|apply lookup_insert_eq].
    + apply mm_inv_add; (done || lia).
    + exists (root_add id r). split; [done|]. rewrite Hids'. set_solver.
    + exists l, f. split_and!; [|apply lookup_insert_eq|done]. simpl.
      by rewrite lookup_app_r, Nat.sub_diag by lia.
  - intros Hnew [f Hf]. assert (im !! id = None) as Him.
    { destruct (im !! id) eqn:E; [|done]. by apply Hmap in E. }
    eexists. erewrite bind_Ret by by apply FindLog_absent. simpl.
    erewrite bind_Exit by (eapply CreateLog_stale; (done || lia)). reflexivity.
Qed.
End CtorSpec.

(** * The theorems at concrete inputs *)

#[local] Existing Instances returning returning_returns.

Lemma store_id_roundtrip_witness :
  log_id_of (str "heap" ++ SLASH ++ to_string 300) = Some (300 mod 256).
Proof.
  apply store_id_roundtrip; [|lia]. intros H. repeat (apply elem_of_cons in H as [H|H]; [done|]).
  by apply not_elem_of_nil in H.
Defined.

Lemma open_process_log_spec_witness :
  (exists s' p, open_process_log (fun _ _ => true) NVS_LOG_SIZE (str "h/7") machine0 = Ret (Some p) s' /\
     has_log 7 s' p [] /\ idToLogMap s' !! 7 = Some p) /\
  exists s' p es, open_process_log (fun _ _ => true) NVS_LOG_SIZE (str "h/1") machine1 = Ret (Some p) s' /\
     has_log 1 s' p es /\ mm_files s' = mm_files machine1.
Proof.
  split.
  - apply (open_process_log_spec (fun _ _ => true) NVS_LOG_SIZE (str "h/7") machine0 machine0_inv).
    + unfold NVS_LOG_SIZE. lia.
    + done.
    + intros (r & [= <-] & H). by apply not_elem_of_nil in H.
    + reflexivity.
  - apply (open_process_log_spec (fun _ _ => true) NVS_LOG_SIZE (str "h/1") machine1 machine1_inv).
    + unfold NVS_LOG_SIZE. lia.
    + done.
    + reflexivity.
    + exists root1. split; [done|]. by left.
Defined.
