(* ===== verification/TimingStore.v ===== *)
(** The timing wrapper, src/nvstream/src/kvstore/timing_store.h: a store that
    forwards every call to the store it wraps and measures it.  It is modelled
    over any instance of the interface; the environment of a call adds the two
    values [rdtsc] returns around it.  Also the store that does nothing,
    null_store.h. *)
From S2P Require Import Prelude Mem LogFmt Log MemMan Object SMap NvsStore Store FileStore StoreCtor.

Record TimingStore : Type := mkTiming {
  get_start : Z; get_end : Z; get_total : Z; get_niterations : Z;
  put_start : Z; put_end : Z; put_total : Z; put_niterations : Z;
  putall_start : Z; putall_end : Z; putall_total : Z; putall_niterations : Z;
  app_start : Z; snap_time : Z; app_end : Z;
  vmap : list (bytes * Z);
  nmap : list (bytes * Z);
  plist : list Z;
  tlist : list Z;
  slist : list Z;
  total_size : Z
}.

Record TimingSt (S : Type) : Type := mkTimingSt { tm : TimingStore; inner : S }.
Arguments mkTimingSt {S} tm inner.
Arguments tm {S} t.
Arguments inner {S} t.

Record TimingEnv (E : Type) : Type := mkTimingEnv { te_t0 : Z; te_t1 : Z; te_in : E }.
Arguments te_t0 {E} t.
Arguments te_t1 {E} t.
Arguments te_in {E} t.

(** TimingStore::TimingStore; [g] holds the members the constructor does not
    set. *)
Definition TimingStore_ctor (g : TimingStore) (now : Z) : TimingStore :=
  mkTiming (get_start g) (get_end g) 0 0 (put_start g) (put_end g) 0 0
    (putall_start g) (putall_end g) 0 0 now 0 (app_end g) [] [] [] [] [] 0.

(** The measurements each method records. *)
Definition rec_get (t0 t1 : Z) (t : TimingStore) : TimingStore :=
  mkTiming t0 t1 (u64 (get_total t + u64 (t1 - t0))) (u64 (get_niterations t + 1))
    (put_start t) (put_end t) (put_total t) (put_niterations t)
    (putall_start t) (putall_end t) (putall_total t) (putall_niterations t)
    (app_start t) (snap_time t) (app_end t) (vmap t) (nmap t) (plist t) (tlist t) (slist t)
    (total_size t).

Definition rec_put (t0 t1 : Z) (t : TimingStore) : TimingStore :=
  mkTiming (get_start t) (get_end t) (get_total t) (get_niterations t)
    t0 t1 (u64 (put_total t + u64 (t1 - t0))) (u64 (put_niterations t + 1))
    (putall_start t) (putall_end t) (putall_total t) (putall_niterations t)
    (app_start t) (snap_time t) (app_end t) (vmap t) (nmap t) (plist t) (tlist t) (slist t)
    (total_size t).

(** The time since the last snapshot, or since the start for the first. *)
Definition iter_time (t1 : Z) (t : TimingStore) : Z :=
  if snap_time t =? 0 then u64 (t1 - app_start t) else u64 (t1 - snap_time t).

Definition rec_put_all (t0 t1 ret : Z) (t : TimingStore) : TimingStore :=
  let temp := u64 (t1 - t0) in
  mkTiming (get_start t) (get_end t) (get_total t) (get_niterations t)
    (put_start t) (put_end t) (put_total t) (put_niterations t)
    t0 t1 (u64 (putall_total t + temp)) (u64 (putall_niterations t + 1))
    (app_start t) t1 (app_end t) (vmap t) (nmap t)
    (plist t ++ [temp]) (tlist t ++ [iter_time t1 t]) (slist t ++ [ret]) (total_size t).

(** [m[key]] reads zero where the key is new. *)
Definition at_key (key : bytes) (m : list (bytes * Z)) : Z := default 0 (sm_find key m).

Definition rec_get_with_malloc (t0 t1 : Z) (key : bytes) (t : TimingStore) : TimingStore :=
  let get_tmp := u64 (t1 - t0) in
  let '(vm, nm) :=
    match sm_find key (vmap t) with
    | Some _ => (sm_set key (u64 (at_key key (vmap t) + get_tmp)) (vmap t),
                 sm_set key (u64 (at_key key (nmap t) + 1)) (nmap t))
    | None => (sm_set key get_tmp (vmap t), sm_set key 1 (nmap t))
    end in
  mkTiming t0 t1 (get_total t) (get_niterations t)
    (put_start t) (put_end t) (put_total t) (put_niterations t)
    (putall_start t) (putall_end t) (putall_total t) (putall_niterations t)
    (app_start t) (snap_time t) (app_end t) vm nm (plist t) (tlist t) (slist t) (total_size t).

Definition rec_create (size : Z) (t : TimingStore) : TimingStore :=
  mkTiming (get_start t) (get_end t) (get_total t) (get_niterations t)
    (put_start t) (put_end t) (put_total t) (put_niterations t)
    (putall_start t) (putall_end t) (putall_total t) (putall_niterations t)
    (app_start t) (snap_time t) (app_end t) (vmap t) (nmap t) (plist t) (tlist t) (slist t)
    (u64 (total_size t + size)).

Definition rec_end (now : Z) (t : TimingStore) : TimingStore :=
  mkTiming (get_start t) (get_end t) (get_total t) (get_niterations t)
    (put_start t) (put_end t) (put_total t) (put_niterations t)
    (putall_start t) (putall_end t) (putall_total t) (putall_niterations t)
    (app_start t) (snap_time t) now (vmap t) (nmap t) (plist t) (tlist t) (slist t) (total_size t).

Section Timing.
Context {S E : Type} `{!Store S E}.

Definition forward {A} (m : M S A) : M (TimingSt S) A :=
  zoom inner (fun s t => mkTimingSt (tm t) s) m.

Definition record (f : TimingStore -> TimingStore) : M (TimingSt S) unit :=
  modify (fun t => mkTimingSt (f (tm t)) (inner t)).

Definition t_get (e : TimingEnv E) (key : bytes) (v addr : Z) : M (TimingSt S) ErrorCode :=
  ret ← forward (v_get (te_in e) key v addr);
  record (rec_get (te_t0 e) (te_t1 e));;
  mret ret.

Definition t_get_with_malloc (e : TimingEnv E) (key : bytes) (v : Z) :
    M (TimingSt S) (ErrorCode * option Z) :=
  let key := trim_right key in
  ret ← forward (v_get_with_malloc (te_in e) key v);
  record (rec_get_with_malloc (te_t0 e) (te_t1 e) key);;
  mret ret.

Definition t_create_obj (e : TimingEnv E) (key : bytes) (size : Z) :
    M (TimingSt S) (ErrorCode * option Z) :=
  let key := trim_right key in
  ret ← forward (v_create_obj (te_in e) key size);
  record (rec_create size);;
  mret ret.

Definition t_free_obj (obj_addr : Z) : M (TimingSt S) ErrorCode :=
  ret ← forward (v_free_obj obj_addr); mret ret.

Definition t_put (e : TimingEnv E) (key : bytes) (v : Z) : M (TimingSt S) Z :=
  ret ← forward (v_put (te_in e) key v);
  record (rec_put (te_t0 e) (te_t1 e));;
  mret ret.

Definition t_put_all (e : TimingEnv E) : M (TimingSt S) Z :=
  ret ← forward (v_put_all (te_in e));
  record (rec_put_all (te_t0 e) (te_t1 e) ret);;
  mret ret.

(** The std::string of a null pointer. *)
Definition t_get_store_id : M (TimingSt S) bytes := undef.

#[global] Instance TimingStore_Store : Store (TimingSt S) (TimingEnv E) := {|
  v_create_obj := t_create_obj;
  v_free_obj := t_free_obj;
  v_put := t_put;
  v_put_all := t_put_all;
  v_get := t_get;
  v_get_with_malloc := t_get_with_malloc;
  v_get_store_id := t_get_store_id
|}.

(** ** TimingStore::stats *)

(** The loop over both maps: it ends when one of them does, or with exit(-1)
    when the keys differ. *)
Fixpoint stats_loop (vm nm : list (bytes * Z)) : M (TimingSt S) unit :=
  match vm, nm with
  | (k, _) :: vm', (k', _) :: nm' => if decide (k <> k') then exit_ (-1) else stats_loop vm' nm'
  | _, _ => mret tt
  end.

(** [stats] up to what it prints: the number in the name of the file written. *)
Definition stats (now : Z) : M (TimingSt S) Z :=
  record (rec_end now);;
  storeId ← forward v_get_store_id;
  match stoi (log_id_str storeId) with
  | None => abort_
  | Some logId =>
      t ← get_st;
      stats_loop (vmap (tm t)) (nmap (tm t));;
      mret (u64 logId)
  end.
End Timing.

(** * Sequences of calls on a store *)

Inductive call : Type :=
  | CCreate (key : bytes) (size : Z)
  | CFree (addr : Z)
  | CPut (key : bytes) (v : Z)
  | CPutAll
  | CGet (key : bytes) (v addr : Z)
  | CGetMalloc (key : bytes) (v : Z)
  | CStoreId.

Inductive answer : Type :=
  | RErr (e : ErrorCode)
  | RPtr (e : ErrorCode) (p : option Z)
  | RSize (n : Z)
  | RId (id : bytes).

Section Calls.
Context {S E : Type} `{!Store S E}.

Definition run_call (e : E) (c : call) : M S answer :=
  match c with
  | CCreate k n => r ← v_create_obj e k n; mret (RPtr r.1 r.2)
  | CFree p => r ← v_free_obj p; mret (RErr r)
  | CPut k v => r ← v_put e k v; mret (RSize r)
  | CPutAll => r ← v_put_all e; mret (RSize r)
  | CGet k v p => r ← v_get e k v p; mret (RErr r)
  | CGetMalloc k v => r ← v_get_with_malloc e k v; mret (RPtr r.1 r.2)
  | CStoreId => r ← v_get_store_id; mret (RId r)
  end.

Fixpoint run_calls (l : list (E * call)) : M S (list answer) :=
  match l with
  | [] => mret []
  | (e, c) :: l' => r ← run_call e c; rs ← run_calls l'; mret (r :: rs)
  end.
End Calls.

(** The call the wrapper makes: creation and reads with allocation trim the key. *)
Definition trim_call (c : call) : call :=
  match c with
  | CCreate k n => CCreate (trim_right k) n
  | CGetMalloc k v => CGetMalloc (trim_right k) v
  | _ => c
  end.

(** The calls up to the first get_store_id, and whether there is one. *)
Definition is_store_id (c : call) : bool := match c with CStoreId => true | _ => false end.

Fixpoint before_id {E} (l : list (E * call)) : list (E * call) :=
  match l with
  | [] => []
  | (e, c) :: l' => if is_store_id c then [] else (e, c) :: before_id l'
  end.

Definition asks_id {E} (l : list (E * call)) : bool := existsb (fun ec => is_store_id ec.2) l.

(** The same calls made to the wrapped store itself. *)
Definition direct {E} (l : list (TimingEnv E * call)) : list (E * call) :=
  (fun ec => (te_in ec.1, trim_call ec.2)) <$> l.

Section Transparent.
Context {S E : Type} `{!Store S E}.

(** An outcome without the measurements. *)
Definition erase {A} (o : outcome (TimingSt S) A) : outcome S A :=
  match o with
  | Ret a t => Ret a (inner t)
  | Exit c t => Exit c (inner t)
  | Undef t => Undef (inner t)
  | Diverge t => Diverge (inner t)
  end.

Definition erases {A} (m' : M (TimingSt S) A) (m : M S A) : Prop :=
  forall t, erase (m' t) = m (inner t).

Lemma erases_forward {A} (m : M S A) : erases (forward m) m.
Proof. intros [t s]. unfold forward, zoom. simpl. by destruct (m s). Qed.

Lemma erases_record f : erases (record f) (mret tt).
Proof. done. Qed.

Lemma erases_ret {A} (a : A) : erases (mret a) (mret a).
Proof. done. Qed.

Lemma erases_bind {A B} (m' : M (TimingSt S) A) m (k' : A -> M (TimingSt S) B) k :
  erases m' m -> (forall a, erases (k' a) (k a)) -> erases (m' ≫= k') (m ≫= k).
Proof.
  intros Hm Hk t. unfold mbind, M_bind. specialize (Hm t). destruct (m' t); simpl in Hm; rewrite <- Hm;
    try done. apply Hk.
Qed.
#[local] Hint Resolve erases_forward erases_record erases_ret erases_bind : nvs.

(** A forwarded call followed by a measurement is the call. *)
Lemma erases_measured {A} (m : M S A) (f : A -> TimingStore -> TimingStore) :
  erases (ret ← forward m; record (f ret);; mret ret) m.
Proof.
  intros t. pose proof (erases_forward m t) as H. unfold mbind, M_bind.
  destruct (forward m t); simpl in H; rewrite <- H; done.
Qed.

Lemma erases_call e c :
  is_store_id c = false -> erases (run_call e c) (run_call (te_in e) (trim_call c)).
Proof.
  destruct c; intros Hid; try done; simpl; apply erases_bind; intros; try apply erases_ret.
  - exact (erases_measured _ (fun _ => rec_create size)).
  - intros t. pose proof (erases_forward (v_free_obj addr) t) as H. unfold t_free_obj, mbind, M_bind.
    destruct (forward (v_free_obj addr) t); simpl in H; rewrite <- H; done.
  - exact (erases_measured _ (fun _ => rec_put (te_t0 e) (te_t1 e))).
  - exact (erases_measured _ (rec_put_all (te_t0 e) (te_t1 e))).
  - exact (erases_measured _ (fun _ => rec_get (te_t0 e) (te_t1 e))).
  - exact (erases_measured _ (fun _ => rec_get_with_malloc (te_t0 e) (te_t1 e) (trim_right key))).
Qed.


(** ** What the wrapper records *)

Definition is_get (c : call) : bool := match c with CGet _ _ _ => true | _ => false end.
Definition is_put (c : call) : bool := match c with CPut _ _ => true | _ => false end.

Definition sizes (cs : list call) (rs : list answer) : list Z :=
  omap (fun cr => match cr with (CPutAll, RSize n) => Some n | _ => None end) (zip cs rs).

(** The two maps of [stats] have the same keys, in order. *)
Definition maps_agree (t : TimingStore) : Prop := (vmap t).*1 = (nmap t).*1.

Lemma sm_set_keys k v v' (l l' : list (bytes * Z)) :
  l.*1 = l'.*1 -> (sm_set k v l).*1 = (sm_set k v' l').*1.
Proof.
  revert l'. induction l as [|[j x] l IH]; intros [|[j' x'] l'] H; try done.
  simpl in H. injection H as <- H. simpl. destruct (decide (k = j)); [by simpl; rewrite H|].
  destruct (key_lt k j); simpl; [by rewrite H|]. f_equal. by apply IH.
Qed.

Lemma maps_agree_get_with_malloc t0 t1 key t :
  maps_agree t -> maps_agree (rec_get_with_malloc t0 t1 key t).
Proof.
  intros H. unfold rec_get_with_malloc, maps_agree in *.
  destruct (sm_find key (vmap t)); simpl; by apply sm_set_keys.
Qed.

Lemma stats_loop_run vm : forall nm (t : TimingSt S),
  vm.*1 = nm.*1 -> stats_loop vm nm t = Ret tt t.
Proof.
  induction vm as [|[k v] vm IH]; intros [|[k' v'] nm] t H; try done.
  simpl in H. injection H as -> H. simpl. rewrite decide_False by naive_solver. by apply IH.
Qed.

(** The measurements after one call that returns. *)
Record recorded (t : TimingStore) (c : call) (r : answer) (t' : TimingStore) : Prop := {
  rc_gets : get_niterations t' = u64 (get_niterations t + Z.b2z (is_get c));
  rc_puts : put_niterations t' = u64 (put_niterations t + Z.b2z (is_put c));
  rc_sizes : slist t' = slist t ++ sizes [c] [r];
  rc_lists : length (plist t) = length (slist t) -> length (plist t') = length (slist t');
  rc_maps : maps_agree t -> maps_agree t'
}.

Lemma forward_Ret {A} (m : M S A) t a t' :
  forward m t = Ret a t' -> tm t' = tm t.
Proof. unfold forward, zoom. destruct (m (inner t)); try done. by intros [= <- <-]. Qed.

Lemma measured_Ret {A} (m : M S A) (f : A -> TimingStore -> TimingStore) t a t' :
  (ret ← forward m; record (f ret);; mret ret) t = Ret a t' -> tm t' = f a (tm t).
Proof.
  unfold mbind, M_bind. destruct (forward m t) eqn:F; try done.
  apply forward_Ret in F. intros [= <- <-]. simpl. by rewrite F.
Qed.

Lemma bind_mret_Ret {A B} (m : M (TimingSt S) A) (g : A -> B) t b t' :
  (r ← m; mret (g r)) t = Ret b t' -> exists a, m t = Ret a t' /\ b = g a.
Proof.
  unfold mbind, M_bind. destruct (m t) as [a t1| | |]; try done. intros [= <- <-]. by exists a.
Qed.

Lemma run_call_recorded e c t r t' :
  run_call e c t = Ret r t' -> fits 64 (get_niterations (tm t)) -> fits 64 (put_niterations (tm t)) ->
  recorded (tm t) c r (tm t').
Proof.
  intros H Hg Hp. destruct c; simpl in H; apply bind_mret_Ret in H as (a & H & ->); [simpl..|done].
  - apply (measured_Ret _ (fun _ => rec_create size)) in H as ->.
    constructor; simpl; rewrite ?Z.add_0_r, ?u64_small, ?app_nil_r by done; done.
  - apply bind_mret_Ret in H as (b & H & ->). apply forward_Ret in H as ->.
    constructor; simpl; rewrite ?Z.add_0_r, ?u64_small, ?app_nil_r by done; done.
  - apply (measured_Ret _ (fun _ => rec_put (te_t0 e) (te_t1 e))) in H as ->.
    constructor; simpl; rewrite ?Z.add_0_r, ?(u64_small (get_niterations _)), ?app_nil_r by done; done.
  - apply (measured_Ret _ (rec_put_all (te_t0 e) (te_t1 e))) in H as ->.
    constructor; simpl; rewrite ?Z.add_0_r, ?u64_small by done; try done.
    rewrite !length_app. simpl. lia.
  - apply (measured_Ret _ (fun _ => rec_get (te_t0 e) (te_t1 e))) in H as ->.
    constructor; simpl; rewrite ?Z.add_0_r, ?(u64_small (put_niterations _)), ?app_nil_r by done; done.
  - apply (measured_Ret _ (fun _ => rec_get_with_malloc (te_t0 e) (te_t1 e) (trim_right key))) in H as ->.
    constructor; try (unfold rec_get_with_malloc; destruct (sm_find _ _); simpl;
      rewrite ?Z.add_0_r, ?u64_small, ?app_nil_r by done; done).
    apply maps_agree_get_with_malloc.
Qed.

Definition count (P : call -> bool) (l : list (TimingEnv E * call)) : Z :=
  Z.of_nat (length (filter (fun ec => P ec.2 = true) l)).

Lemma count_cons P e c l : count P ((e, c) :: l) = Z.b2z (P c) + count P l.
Proof.
  unfold count. rewrite filter_cons. destruct (decide _) as [Hc|Hc]; simpl in Hc.
  - rewrite Hc. simpl length. simpl Z.b2z. lia.
  - destruct (P c); done.
Qed.

Lemma run_calls_recorded l : forall t rs t',
  run_calls l t = Ret rs t' -> fits 64 (get_niterations (tm t)) -> fits 64 (put_niterations (tm t)) ->
  get_niterations (tm t') = u64 (get_niterations (tm t) + count is_get l) /\
  put_niterations (tm t') = u64 (put_niterations (tm t) + count is_put l) /\
  slist (tm t') = slist (tm t) ++ sizes l.*2 rs /\
  (length (plist (tm t)) = length (slist (tm t)) -> length (plist (tm t')) = length (slist (tm t'))) /\
  (maps_agree (tm t) -> maps_agree (tm t')).
Proof.
  induction l as [|[e c] l IH]; intros t rs t' H Hg Hp.
  { injection H as <- <-. unfold count. simpl. rewrite !Z.add_0_r, !u64_small, app_nil_r by done. done. }
  simpl in H. unfold mbind at 1, M_bind at 1 in H. destruct (run_call e c t) as [r t1| | |] eqn:Hc; try done.
  unfold mbind, M_bind in H. destruct (run_calls l t1) as [rs' t2| | |] eqn:Hl; try done.
  injection H as <- <-. destruct (run_call_recorded e c t r t1 Hc Hg Hp) as [R1 R2 R3 R4 R5].
  destruct (IH t1 rs' t2 Hl) as (I1 & I2 & I3 & I4 & I5);
    [rewrite R1; apply u64_fits | rewrite R2; apply u64_fits|].
  rewrite !count_cons, I1, I2, R1, R2, !u64_add_l, <- !Z.add_assoc.
  split; [done|]. split; [done|]. split; [|split; auto].
  rewrite I3, R3, <- app_assoc. by destruct c, r.
Qed.

(** The statistics count the calls.  After any sequence of calls that
    return, a fresh TimingStore has the number of gets and puts modulo 2^64,
    one snapshot size per put_all, equal to what it returned, and as many
    snapshot times; and the loop of stats over the two per-variable maps never
    meets the mismatch that ends the process. *)
Theorem timing_counts g now l s rs t' now' :
  run_calls l (mkTimingSt (TimingStore_ctor g now) s) = Ret rs t' ->
  get_niterations (tm t') = u64 (count is_get l) /\
  put_niterations (tm t') = u64 (count is_put l) /\
  slist (tm t') = sizes l.*2 rs /\ length (plist (tm t')) = length (slist (tm t')) /\
  forall sid s' n, v_get_store_id (inner t') = Ret sid s' -> stoi (log_id_str sid) = Some n ->
    stats now' t' = Ret (u64 n) (mkTimingSt (rec_end now' (tm t')) s').
Proof.
  intros H. apply run_calls_recorded in H as (H1 & H2 & H3 & H4 & H5); try done.
  simpl in *. rewrite H1, H2, H3. split_and!; try done; [by rewrite <- H3; apply H4|].
  intros sid s' n Hid Hn. unfold stats. mstep. unfold forward at 1, zoom.
  unfold mbind at 1, M_bind at 1. simpl. rewrite Hid, Hn. mstep.
  erewrite bind_Ret by (apply stats_loop_run; by apply H5). done.
Qed.
End Transparent.

(** * The wrapper keeps the promise of the wrapped store *)

Section Laws.
Context {S E : Type} {St : Store S E} (V : VersionedStore S E).

Definition inner_put (x : TimingEnv E * bytes * Z) : E * bytes * Z := (te_in x.1.1, x.1.2, x.2).

Lemma timing_put_law e key v l (t : TimingSt S) p d :
  vs_inv (inner t) -> vs_object (inner t) key = Some p -> vs_heap (inner t) !! p = Some d ->
  vs_holds (inner t) key v = None -> vs_room (inner t) (inner_put <$> (e, key, v) :: l) ->
  exists r t', t_put e key v t = Ret r t' /\ vs_inv (inner t') /\
    vs_heap (inner t') = vs_heap (inner t) /\
    (forall k, vs_object (inner t') k = vs_object (inner t) k) /\
    vs_holds (inner t') key v = Some d /\
    (forall k w, ~ vs_clash key v k w -> vs_holds (inner t') k w = vs_holds (inner t) k w) /\
    vs_room (inner t') (inner_put <$> l).
Proof.
  intros Hi Hp Hd Hn Hr. simpl in Hr.
  destruct (vs_put_law (te_in e) key v (inner_put <$> l) (inner t) p d) as (r & s' & Hrun & H);
    try done.
  exists r, (mkTimingSt (rec_put (te_t0 e) (te_t1 e) (tm t)) s'). split; [|done].
  unfold t_put, forward, zoom. munfold. by rewrite Hrun.
Qed.

Lemma timing_get_law e key v addr (t : TimingSt S) b :
  vs_inv (inner t) -> vs_can_get (inner t) (te_in e) key v -> vs_heap (inner t) !! addr = Some b ->
  match vs_holds (inner t) key v with
  | Some d => (length d <= length b)%nat ->
      exists t', t_get e key v addr t = Ret NO_ERROR t' /\
        vs_heap (inner t') = <[addr := d ++ drop (length d) b]> (vs_heap (inner t))
  | None => exists c t', c <> NO_ERROR /\ t_get e key v addr t = Ret c t' /\
      vs_heap (inner t') = vs_heap (inner t)
  end.
Proof.
  intros Hi Hc Hb. pose proof (vs_get_law (te_in e) key v addr (inner t) b Hi Hc Hb) as Hg.
  unfold t_get, forward, zoom. munfold. destruct (vs_holds (inner t) key v) as [d|].
  - intros Hl. destruct (Hg Hl) as (s' & -> & Hh). by eexists.
  - destruct Hg as (c & s' & Hne & -> & Hh). by eexists c, _.
Qed.

#[global] Instance TimingStore_Versioned : VersionedStore (TimingSt S) (TimingEnv E) :=
  Build_VersionedStore (TimingSt S) (TimingEnv E) TimingStore_Store
    (fun t => vs_inv (inner t)) (fun t => vs_heap (inner t)) (fun t => vs_object (inner t))
    (fun t => vs_holds (inner t)) (fun p bs t => mkTimingSt (tm t) (vs_poke p bs (inner t)))
    (fun t l => vs_room (inner t) (inner_put <$> l)) vs_clash
    (fun t e => vs_can_get (inner t) (te_in e))
    timing_put_law timing_get_law
    (fun p bs d l t => vs_poke_law p bs d (inner_put <$> l) (inner t)).
End Laws.

(** * NullStore *)

Record NullStore : Type := mkNull { null_storeId : bytes; null_heap : cheap }.

Definition on_nheap {A} (m : M cheap A) : M NullStore A :=
  zoom null_heap (fun h s => mkNull (null_storeId s) h) m.

#[global] Instance NullStore_Store : Store NullStore (Z * bytes) := {|
  v_create_obj e _ _ := p ← on_nheap (h_malloc e.1 e.2); mret (NO_ERROR, Some p);
  v_free_obj p := on_nheap (h_free p);; mret NO_ERROR;
  v_put _ _ _ := mret 0;
  v_put_all _ := mret 0;
  v_get _ _ _ _ := mret NO_ERROR;
  v_get_with_malloc _ _ _ := mret (NO_ERROR, None);
  v_get_store_id := fun s => Ret (null_storeId s) s
|}.

(** The null store reports success for every version and gives no data: the
    caller's pointer stays unset. *)
Lemma null_get_with_malloc e k v (s : NullStore) :
  v_get_with_malloc e k v s = Ret (NO_ERROR, None) s.
Proof. done. Qed.

(** * The theorems at concrete inputs *)

Definition tick {E} (a b : Z) (e : E) : TimingEnv E := mkTimingEnv E a b e.

Definition null0 : NullStore := mkNull (str "h/3") ∅.
Definition garbage_timing : TimingStore :=
  mkTiming 9 9 9 9 9 9 9 9 9 9 9 9 9 9 9 [] [] [] [] [] 9.

Definition demo_calls : list (TimingEnv (Z * bytes) * call) :=
  [(tick 1 2 (100, [NUL]), CCreate (key_a ++ [Byte.x20]) 1);
   (tick 3 7 (0, []), CGetMalloc key_a 1);
   (tick 8 9 (0, []), CGet key_a 1 100);
   (tick 11 12 (0, []), CPutAll)].

Definition demo_timing0 : TimingSt NullStore := mkTimingSt (TimingStore_ctor garbage_timing 0) null0.
Definition demo_timing1 : TimingSt NullStore :=
  match run_calls demo_calls demo_timing0 with Ret _ t => t | _ => demo_timing0 end.

Lemma timing_counts_witness :
  get_niterations (tm demo_timing1) = u64 (count is_get demo_calls) /\
  put_niterations (tm demo_timing1) = u64 (count is_put demo_calls) /\
  slist (tm demo_timing1) = [0] /\
  length (plist (tm demo_timing1)) = length (slist (tm demo_timing1)) /\
  forall sid s' n, v_get_store_id (inner demo_timing1) = Ret sid s' -> stoi (log_id_str sid) = Some n ->
    stats 20 demo_timing1 = Ret (u64 n) (mkTimingSt (rec_end 20 (tm demo_timing1)) s').
Proof.
  apply (timing_counts garbage_timing 0 demo_calls null0
    [RPtr NO_ERROR (Some 100); RPtr NO_ERROR None; RErr NO_ERROR; RSize 0] demo_timing1 20).
  vm_compute. reflexivity.
Defined.
