(* ===== verification/StoreManager.v ===== *)
(** The singleton accessors, StoreManager::GetInstance
    (src/nvstream/src/kvstore/store_manager.cc) and MemoryManager::GetInstance
    (src/nvstream/src/sheap/memory_manager.cc): double-checked locking, as the
    steps of any number of threads on the shared pointer and mutex.  Loads and
    stores of the atomic pointer are taken in a total order (the fences of the
    code make the object visible before its pointer).  A pointer is the index
    of the object among those constructed. *)
From S2P Require Import Prelude.
From stdpp Require Import relations.
#[local] Open Scope nat_scope.

(** The control points of GetInstance. *)
Inductive gpc : Type :=
  | GStart                    (* before the first load *)
  | GWant                     (* loaded null: at the lock_guard *)
  | GLocked                   (* holds the mutex: before the second load *)
  | GBuild                    (* loaded null again: before the constructor *)
  | GBuilt (p : nat)          (* constructed: before the store to instance_ *)
  | GUnlock (p : nat)         (* at the end of the lock_guard's scope *)
  | GDone (p : nat).          (* returned p *)

Record gstate : Type := mkG {
  instance_ : option nat;
  mutex_ : option nat;
  built : list bytes;         (* the arguments of the constructor calls *)
  threads : list gpc;
  exited : bool               (* a constructor ended the process *)
}.

Section GetInstance.
(** The argument of each thread, and whether the constructor returns for an
    argument or ends the process. *)
Context (path : nat -> bytes) (ctor_ok : bytes -> bool).

Definition set_pc (i : nat) (c : gpc) (s : gstate) : gstate :=
  mkG (instance_ s) (mutex_ s) (built s) (<[i := c]> (threads s)) (exited s).

(** The next step of thread [i]; [None] when it is blocked, done or not there. *)
Definition gstep (i : nat) (s : gstate) : option gstate :=
  if exited s then None else
  match threads s !! i with
  | None => None
  | Some GStart =>
      match instance_ s with
      | None => Some (set_pc i GWant s)
      | Some p => Some (set_pc i (GDone p) s)
      end
  | Some GWant =>
      match mutex_ s with
      | None => Some (mkG (instance_ s) (Some i) (built s) (<[i := GLocked]> (threads s)) (exited s))
      | Some _ => None
      end
  | Some GLocked =>
      match instance_ s with
      | None => Some (set_pc i GBuild s)
      | Some p => Some (set_pc i (GUnlock p) s)
      end
  | Some GBuild =>
      if ctor_ok (path i)
      then Some (mkG (instance_ s) (mutex_ s) (built s ++ [path i])
                   (<[i := GBuilt (length (built s))]> (threads s)) (exited s))
      else Some (mkG (instance_ s) (mutex_ s) (built s) (threads s) true)
  | Some (GBuilt p) =>
      Some (mkG (Some p) (mutex_ s) (built s) (<[i := GUnlock p]> (threads s)) (exited s))
  | Some (GUnlock p) =>
      Some (mkG (instance_ s) None (built s) (<[i := GDone p]> (threads s)) (exited s))
  | Some (GDone _) => None
  end.

Definition step (s s' : gstate) : Prop := exists i, gstep i s = Some s'.

Definition init (n : nat) : gstate := mkG None None [] (replicate n GStart) false.

(** * The invariant *)

Definition in_cs (c : gpc) : bool :=
  match c with GLocked | GBuild | GBuilt _ | GUnlock _ => true | _ => false end.

(** What the shared state looks like from a thread at point [c]. *)
Definition pc_ok (s : gstate) (c : gpc) : Prop :=
  match c with
  | GBuild => instance_ s = None /\ built s = []
  | GBuilt p => instance_ s = None /\ p = 0 /\ length (built s) = 1
  | GUnlock p | GDone p => instance_ s = Some p
  | _ => True
  end.

Record ginv (s : gstate) : Prop := {
  gi_cs : forall i c, threads s !! i = Some c -> in_cs c = true -> mutex_ s = Some i;
  gi_owner : forall i, mutex_ s = Some i -> exists c, threads s !! i = Some c /\ in_cs c = true;
  gi_pc : forall i c, threads s !! i = Some c -> pc_ok s c;
  gi_ptr : forall p, instance_ s = Some p -> p = 0 /\ length (built s) = 1;
  gi_none : instance_ s = None -> built s = [] \/ exists i, threads s !! i = Some (GBuilt 0)
}.

Lemma init_inv n : ginv (init n).
Proof.
  constructor; simpl; try done; try (by left).
  - intros i c. rewrite lookup_replicate. by intros [-> _].
  - intros i c. rewrite lookup_replicate. by intros [-> _].
Qed.

(** Only one thread is in the critical section. *)
Lemma ginv_excl s i j c d :
  ginv s -> threads s !! i = Some c -> threads s !! j = Some d -> in_cs c = true -> in_cs d = true ->
  i = j.
Proof. intros [Hcs _ _ _ _] Hi Hj Hc Hd. pose proof (Hcs i c Hi Hc). pose proof (Hcs j d Hj Hd). congruence. Qed.

Lemma insert_cases (l : list gpc) i j c d :
  <[i := c]> l !! j = Some d -> (j = i /\ d = c) \/ (j <> i /\ l !! j = Some d).
Proof. rewrite list_lookup_insert_Some. naive_solver. Qed.

(** A thread that stays on its side of the mutex and changes nothing shared. *)
Lemma ginv_local s i c c' :
  ginv s -> threads s !! i = Some c -> in_cs c' = in_cs c -> pc_ok s c' -> (forall p, c <> GBuilt p) ->
  ginv (set_pc i c' s).
Proof.
  intros [H1 H2 H3 H4 H5] Hi Hcs Hpc Hb.
  assert (i < length (threads s)) as Hlt by by apply lookup_lt_Some in Hi.
  constructor; simpl; [| | | done |].
  - intros j d [[-> ->]|[Hne Hj]]%insert_cases Hd; [|by eapply H1]. apply (H1 i c Hi). congruence.
  - intros j Hm. destruct (H2 j Hm) as (d & Hd & Hin). destruct (decide (j = i)) as [->|Hne].
    + exists c'. rewrite list_lookup_insert_eq by done. split; [done|]. congruence.
    + exists d. by rewrite list_lookup_insert_ne.
  - intros j d [[-> ->]|[Hne Hj]]%insert_cases; [done|]. exact (H3 j d Hj).
  - intros Hn. destruct (H5 Hn) as [?|(j & Hj)]; [by left|]. right. exists j.
    rewrite list_lookup_insert_ne; [done|]. intros ->. rewrite Hi in Hj. injection Hj as ->.
    by apply (Hb 0).
Qed.

Lemma ginv_lock s i :
  ginv s -> threads s !! i = Some GWant -> mutex_ s = None ->
  ginv (mkG (instance_ s) (Some i) (built s) (<[i := GLocked]> (threads s)) (exited s)).
Proof.
  intros [H1 H2 H3 H4 H5] Hi Hm.
  assert (i < length (threads s)) as Hlt by by apply lookup_lt_Some in Hi.
  constructor; simpl; [| | | done |].
  - intros j d [[-> ->]|[Hne Hj]]%insert_cases Hd; [done|]. by rewrite (H1 j d Hj Hd) in Hm.
  - intros j [= <-]. exists GLocked. by rewrite list_lookup_insert_eq.
  - intros j d [[-> ->]|[Hne Hj]]%insert_cases; [done|]. exact (H3 j d Hj).
  - intros Hn. destruct (H5 Hn) as [?|(j & Hj)]; [by left|]. by rewrite (H1 j _ Hj) in Hm.
Qed.

(** The point of another thread says nothing of an owner's change. *)
Lemma outside_cs s i j c d :
  ginv s -> threads s !! i = Some c -> in_cs c = true -> threads s !! j = Some d -> j <> i ->
  in_cs d = false.
Proof.
  intros Hinv Hi Hc Hj Hne. destruct (in_cs d) eqn:E; [|done].
  destruct Hne. by apply (ginv_excl s j i d c).
Qed.

Lemma ginv_build s i :
  ginv s -> threads s !! i = Some GBuild ->
  ginv (mkG (instance_ s) (mutex_ s) (built s ++ [path i])
          (<[i := GBuilt (length (built s))]> (threads s)) (exited s)).
Proof.
  intros Hinv Hi. pose proof Hinv as [H1 H2 H3 H4 H5].
  assert (i < length (threads s)) as Hlt by by apply lookup_lt_Some in Hi.
  destruct (H3 i _ Hi) as [Hn Hb]. rewrite Hb, Hn. simpl.
  constructor; simpl; [| | | done |].
  - intros j d [[-> ->]|[Hne Hj]]%insert_cases Hd; [by apply (H1 i GBuild)|by eapply H1].
  - intros j Hm. destruct (H2 j Hm) as (d & Hd & Hin).
    assert (j = i) as -> by by apply (ginv_excl s j i d GBuild).
    eexists. by rewrite list_lookup_insert_eq.
  - intros j d [[-> ->]|[Hne Hj]]%insert_cases; [done|].
    pose proof (outside_cs s i j _ d Hinv Hi eq_refl Hj Hne) as Ho.
    destruct d; try done. pose proof (H3 j _ Hj) as Hp. simpl in *. congruence.
  - intros _. right. exists i. by rewrite list_lookup_insert_eq.
Qed.

Lemma ginv_store s i p :
  ginv s -> threads s !! i = Some (GBuilt p) ->
  ginv (mkG (Some p) (mutex_ s) (built s) (<[i := GUnlock p]> (threads s)) (exited s)).
Proof.
  intros Hinv Hi. pose proof Hinv as [H1 H2 H3 H4 H5].
  assert (i < length (threads s)) as Hlt by by apply lookup_lt_Some in Hi.
  destruct (H3 i _ Hi) as (Hn & -> & Hb).
  constructor; simpl; [| | | |done].
  - intros j d [[-> ->]|[Hne Hj]]%insert_cases Hd; [by apply (H1 i _ Hi)|by eapply H1].
  - intros j Hm. destruct (H2 j Hm) as (d & Hd & Hin).
    assert (j = i) as -> by by apply (ginv_excl s j i d (GBuilt 0)).
    eexists. by rewrite list_lookup_insert_eq.
  - intros j d [[-> ->]|[Hne Hj]]%insert_cases; [done|].
    pose proof (outside_cs s i j _ d Hinv Hi eq_refl Hj Hne) as Ho.
    destruct d; try done. pose proof (H3 j _ Hj) as Hp. simpl in *. congruence.
  - by intros q [= <-].
Qed.

Lemma ginv_unlock s i p :
  ginv s -> threads s !! i = Some (GUnlock p) ->
  ginv (mkG (instance_ s) None (built s) (<[i := GDone p]> (threads s)) (exited s)).
Proof.
  intros Hinv Hi. pose proof Hinv as [H1 H2 H3 H4 H5].
  constructor; simpl; [|done | |done |].
  - intros j d [[-> ->]|[Hne Hj]]%insert_cases Hd; [done|].
    by rewrite (outside_cs s i j _ d Hinv Hi eq_refl Hj Hne) in Hd.
  - intros j d [[-> ->]|[Hne Hj]]%insert_cases; [exact (H3 i _ Hi)|exact (H3 j d Hj)].
  - intros Hn. pose proof (H3 i _ Hi) as Hp. simpl in Hp. congruence.
Qed.

Lemma gstep_inv s s' : ginv s -> step s s' -> ginv s'.
Proof.
  intros Hinv [i H]. unfold gstep in H. destruct (exited s) eqn:Ex; [done|].
  destruct (threads s !! i) as [c|] eqn:Hi; [|done].
  destruct c; try done.
  - destruct (instance_ s) as [p|] eqn:Hp; injection H as <-;
      by apply (ginv_local s i GStart).
  - destruct (mutex_ s) eqn:Hm; [done|]. injection H as <-. rewrite <- Ex. by apply ginv_lock.
  - destruct (instance_ s) as [p|] eqn:Hp; injection H as <-; apply (ginv_local s i GLocked); try done.
    split; [done|]. destruct (gi_none _ Hinv Hp) as [?|(j & Hj)]; [done|].
    assert (j = i) as -> by by apply (ginv_excl s j i (GBuilt 0) GLocked). congruence.
  - destruct (ctor_ok (path i)); injection H as <-; rewrite <- ?Ex; [by apply ginv_build|].
    by destruct Hinv.
  - injection H as <-. rewrite <- Ex. by apply ginv_store.
  - injection H as <-. rewrite <- Ex. by apply ginv_unlock.
Qed.

Lemma reachable_inv n s : rtc step (init n) s -> ginv s.
Proof.
  intros H. pose proof (init_inv n) as Hinv. revert Hinv.
  induction H as [|s1 s2 s3 Hs _ IH]; [done|]. intros Hinv. by apply IH, (gstep_inv s1).
Qed.

(** C33: one store, for all threads.  However the threads of a process interleave
    in GetInstance, at most one store is constructed, at most one thread is
    between the lock and the unlock, and all calls that return give the same
    pointer, which is the store constructed. *)
Theorem singleton_once n s :
  rtc step (init n) s ->
  length (built s) <= 1 /\
  (forall i j c d, threads s !! i = Some c -> threads s !! j = Some d ->
     in_cs c = true -> in_cs d = true -> i = j) /\
  (forall i p, threads s !! i = Some (GDone p) -> p = 0 /\ instance_ s = Some p /\ is_Some (built s !! p)).
Proof.
  intros Hr. pose proof (reachable_inv n s Hr) as Hinv. split_and!.
  - destruct (instance_ s) as [p|] eqn:E; [by rewrite (proj2 (gi_ptr _ Hinv p E))|].
    destruct (gi_none _ Hinv E) as [-> |(i & Hi)]; [simpl; lia|].
    destruct (gi_pc _ Hinv i _ Hi) as (_ & _ & ->). lia.
  - intros i j c d Hi Hj. by apply (ginv_excl s).
  - intros i p Hi. pose proof (gi_pc _ Hinv i _ Hi) as Hp. simpl in Hp.
    destruct (gi_ptr _ Hinv p Hp) as [-> Hb]. split_and!; try done.
    apply lookup_lt_is_Some. lia.
Qed.

(** * Every schedule ends *)

Definition weight (c : gpc) : nat :=
  match c with
  | GStart => 6 | GWant => 5 | GLocked => 4 | GBuild => 3 | GBuilt _ => 2 | GUnlock _ => 1 | GDone _ => 0
  end.

Definition remaining (s : gstate) : nat :=
  sum_list_with weight (threads s) + (if exited s then 0 else 1).

Lemma sum_insert (l : list gpc) i c c' :
  l !! i = Some c ->
  sum_list_with weight (<[i := c']> l) + weight c = sum_list_with weight l + weight c'.
Proof.
  revert i. induction l as [|x l IH]; intros [|i] H; simpl in *; [done..| |].
  - injection H as ->. lia.
  - specialize (IH i H). lia.
Qed.

Lemma step_remaining s s' : step s s' -> remaining s' < remaining s.
Proof.
  intros [i H]. unfold gstep in H. destruct (exited s) eqn:Ex; [done|].
  destruct (threads s !! i) as [c|] eqn:Hi; [|done]. unfold remaining. rewrite Ex.
  pose proof (sum_insert (threads s) i c) as Hs.
  destruct c; try done; repeat case_match; simplify_eq; simpl; rewrite ?Ex;
    try match goal with |- context [<[i := ?c']> (threads s)] => specialize (Hs c' Hi); simpl in Hs end;
    lia.
Qed.

Lemma step_threads s s' : step s s' -> length (threads s') = length (threads s).
Proof.
  intros [i H]. unfold gstep in H.
  repeat case_match; simplify_eq; simpl; by rewrite ?length_insert.
Qed.

(** A process that has not exited and has a thread that has not returned can
    take a step. *)
Lemma progress s i c :
  ginv s -> exited s = false -> threads s !! i = Some c -> (forall p, c <> GDone p) ->
  exists s', step s s'.
Proof.
  intros Hinv Hx Hi Hd.
  assert (forall j d, threads s !! j = Some d -> in_cs d = true -> exists s', step s s') as Hgo.
  { intros j d Hj Hc. unfold step, gstep. destruct d; try done;
      [destruct (instance_ s) eqn:E | destruct (ctor_ok (path j)) eqn:E | |];
      eexists; exists j; rewrite Hx, Hj, ?E; reflexivity. }
  destruct c; try by eapply Hgo.
  - unfold step, gstep. destruct (instance_ s) eqn:E; eexists; exists i; rewrite Hx, Hi, ?E; reflexivity.
  - destruct (mutex_ s) as [j|] eqn:Hm.
    + destruct (gi_owner _ Hinv j Hm) as (d & Hj & Hc). by apply (Hgo j d).
    + unfold step, gstep. eexists. exists i. rewrite Hx, Hi, ?Hm. reflexivity.
  - by destruct (Hd p).
Qed.

Lemma nsteps_remaining k s s' : nsteps step k s s' -> k + remaining s' <= remaining s.
Proof.
  induction 1 as [|k s1 s2 s3 H _ IH]; [lia|]. apply step_remaining in H. lia.
Qed.

Lemma nsteps_threads k s s' : nsteps step k s s' -> length (threads s') = length (threads s).
Proof. induction 1 as [|k s1 s2 s3 H _ IH]; [done|]. apply step_threads in H. congruence. Qed.

(** C34: GetInstance returns in every thread.  No schedule of [n] threads has
    more than 6n+1 steps, and one that cannot go on has let every thread return
    the one store, unless a constructor has ended the process: there is no
    deadlock and no thread waits forever. *)
Theorem singleton_live n k s :
  nsteps step k (init n) s ->
  k <= 6 * n + 1 /\
  ((forall s', ~ step s s') -> exited s = true \/ forall i, i < n -> threads s !! i = Some (GDone 0)).
Proof.
  intros Hk. split.
  - apply nsteps_remaining in Hk. unfold remaining in Hk. simpl in Hk.
    assert (forall m, sum_list_with weight (replicate m GStart) = 6 * m) as Hm.
    { intros m. induction m as [|m IH]; [done|]. simpl replicate. simpl sum_list_with. rewrite IH. lia. }
    rewrite Hm in Hk. lia.
  - intros Hstuck. destruct (exited s) eqn:Hx; [by left|]. right. intros i Hi.
    pose proof (nsteps_threads _ _ _ Hk) as Hlen. simpl in Hlen. rewrite length_replicate in Hlen.
    assert (rtc step (init n) s) as Hr by (eapply rtc_nsteps_2; exact Hk).
    pose proof (reachable_inv n s Hr) as Hinv.
    destruct (lookup_lt_is_Some_2 (threads s) i) as [c Hc]; [lia|].
    assert ((exists p, c = GDone p) \/ forall p, c <> GDone p) as [[p ->]|Hd]
      by (destruct c; naive_solver).
    + rewrite Hc. do 2 f_equal. by apply (gi_ptr _ Hinv p), (gi_pc _ Hinv i _ Hc).
    + destruct (progress s i c Hinv Hx Hc Hd) as [s' Hs']. by destruct (Hstuck s').
Qed.
End GetInstance.

(** * The theorems at concrete inputs *)

(** Run a schedule, skipping the threads that cannot move. *)
Fixpoint run_schedule (path : nat -> bytes) (l : list nat) (s : gstate) : gstate * nat :=
  match l with
  | [] => (s, 0)
  | i :: l' =>
      match gstep path (fun _ => true) i s with
      | Some s' => let r := run_schedule path l' s' in (r.1, S r.2)
      | None => run_schedule path l' s
      end
  end.

Lemma run_schedule_nsteps path l s :
  nsteps (step path (fun _ => true)) (run_schedule path l s).2 s (run_schedule path l s).1.
Proof.
  revert s. induction l as [|i l IH]; intros s; simpl; [constructor|].
  destruct (gstep _ _ i s) as [s'|] eqn:E; [|apply IH]. simpl.
  econstructor; [by exists i | apply IH].
Qed.

(** Three threads that all see null; the second gets the lock first. *)
Definition race : list nat := [0; 1; 2; 1; 0; 1; 2; 1; 1; 1; 0; 0; 0; 2; 2; 2].
Definition paths (i : nat) : bytes := [Byte.x61].
Definition race_end : gstate := (run_schedule paths race (init 3)).1.

Lemma singleton_once_witness :
  threads race_end = [GDone 0; GDone 0; GDone 0] /\ length (built race_end) <= 1.
Proof.
  split; [vm_compute; reflexivity|].
  apply (singleton_once paths (fun _ => true) 3 race_end).
  apply (rtc_nsteps_2 (run_schedule paths race (init 3)).2), run_schedule_nsteps.
Defined.

Lemma singleton_live_witness : (run_schedule paths race (init 3)).2 <= 6 * 3 + 1.
Proof.
  apply (singleton_live paths (fun _ => true) 3 _ race_end). apply run_schedule_nsteps.
Defined.
