(* ===== verification/DeltaStore.v ===== *)
(** The delta store, src/nvstream/src/kvstore/delta_store.cc (class
    [DeltaStore]): after the first put only the pages written since are logged.
    Writes are noticed through write-protected pages and the SIGSEGV handler.

    The state adds the set of write-protected pages (by page number) to the
    objects, the log and the C heap.  The environment of a call holds what
    posix_memalign or malloc returns and the indeterminate locals. *)
From S2P Require Import Prelude Mem LogFmt Log Object SMap NvsStore Store.

Record DeltaStore : Type := mkDS {
  ds_storeId : bytes;
  ds_log : Log;
  ds_objectMap : list (bytes * Object);
  ds_addrMap : gmap Z bytes
}.

Record DeltaSt : Type := mkDSt {
  dstore : DeltaStore;
  d_pm : pmem;
  d_heap : cheap;
  d_prot : gset Z
}.

(** [struct walkentry] with its delta members. *)
Record dwalk : Type := mkDwalk {
  dw_base : walkentry;
  dw_delta_len : Z;
  dw_deltas : list ledelta_t
}.

Record DeltaEnv : Type := mkDeltaEnv {
  de_alloc : option Z;              (* the block allocated, or a failure *)
  de_wild : Z;                      (* the indeterminate pointer left by a failure *)
  de_init : bytes;
  de_hdrs : nat -> lehdr_t;
  de_start0 : Z;
  de_len0 : Z;
  de_went : dwalk
}.

Definition set_dobjects (om : list (bytes * Object)) (s : DeltaSt) : DeltaSt :=
  mkDSt (mkDS (ds_storeId (dstore s)) (ds_log (dstore s)) om (ds_addrMap (dstore s)))
    (d_pm s) (d_heap s) (d_prot s).
Definition set_daddrs (am : gmap Z bytes) (s : DeltaSt) : DeltaSt :=
  mkDSt (mkDS (ds_storeId (dstore s)) (ds_log (dstore s)) (ds_objectMap (dstore s)) am)
    (d_pm s) (d_heap s) (d_prot s).
Definition set_dheap (h : cheap) (s : DeltaSt) : DeltaSt := mkDSt (dstore s) (d_pm s) h (d_prot s).
Definition set_prot (pr : gset Z) (s : DeltaSt) : DeltaSt := mkDSt (dstore s) (d_pm s) (d_heap s) pr.

Definition get_dlog (s : DeltaSt) : LogSt := mkLogSt (ds_log (dstore s)) (d_pm s).
Definition set_dlog (l : LogSt) (s : DeltaSt) : DeltaSt :=
  mkDSt (mkDS (ds_storeId (dstore s)) (lsoft l) (ds_objectMap (dstore s)) (ds_addrMap (dstore s)))
    (lpm l) (d_heap s) (d_prot s).

Definition on_dlog {A} (m : M LogSt A) : M DeltaSt A := zoom get_dlog set_dlog m.
Definition on_dheap {A} (m : M cheap A) : M DeltaSt A := zoom d_heap set_dheap m.

(** [n] bytes at offset [off] of the block at [p]. *)
Definition h_read_at (p off n : Z) : M cheap bytes := fun h =>
  match h !! p with
  | Some b => if (0 <=? off) && (0 <=? n) && (off + n <=? Z.of_nat (length b))
              then Ret (take (Z.to_nat n) (drop (Z.to_nat off) b)) h else Undef h
  | None => Undef h
  end.

(** * Page protection (src/nvstream/src/common/util.h) *)

Definition page_no (a : Z) : Z := a / PAGE_SIZE.

(** The pages of [n] bytes at the aligned address [a]. *)
Definition pages (a n : Z) : gset Z := list_to_set (seqZ (page_no a) ((n + (PAGE_SIZE - 1)) / PAGE_SIZE)).

(** [mprotect] of an address that is not page aligned fails and changes
    nothing; the helpers only log that. *)
Definition enable_write_protection (a n : Z) : M DeltaSt unit := fun s =>
  if a mod PAGE_SIZE =? 0 then Ret tt (set_prot (d_prot s ∪ pages a n) s) else Ret tt s.

Definition disable_protection (a n : Z) : M DeltaSt unit := fun s =>
  if a mod PAGE_SIZE =? 0 then Ret tt (set_prot (d_prot s ∖ pages a n) s) else Ret tt s.

(** The handler in force before: it is called through [sa_handler]. *)
Definition call_oldhandler : M DeltaSt unit := undef.

(** The object map is searched in key order for the object of the address. *)
Fixpoint handler_loop (si_addr : Z) (objs : list (bytes * Object)) : M DeltaSt unit :=
  match objs with
  | [] => call_oldhandler
  | (key, obj) :: objs' =>
      let offset := u64 (si_addr - o_ptr obj) in
      if (0 <=? offset) && (offset <=? o_aligned_size obj) then
        disable_protection (Z.land si_addr (Z.lnot (PAGE_SIZE - 1))) PAGE_SIZE;;
        let page_index := Z.shiftr offset 12 in
        modify (fun s => set_dobjects
          (sm_set key (set_modified_bit page_index obj) (ds_objectMap (dstore s))) s)
      else handler_loop si_addr objs'
  end.

Definition delta_handler (si_addr : Z) : M DeltaSt unit :=
  if si_addr =? 0 then mret tt else
  s ← get_st; handler_loop si_addr (ds_objectMap (dstore s)).

(** A store that faults again after the handler has run. *)
Definition fault_loop : M DeltaSt unit := fun s => Diverge s.

(** The program stores a byte at offset [off] of the block at [p]: a protected
    page faults, the handler runs and the store is tried again. *)
Definition app_store (p off : Z) (b : byte) : M DeltaSt unit :=
  s ← get_st;
  (if bool_decide (page_no (p + off) ∈ d_prot s) then delta_handler (p + off) else mret tt);;
  s ← get_st;
  if bool_decide (page_no (p + off) ∈ d_prot s) then fault_loop
  else on_dheap (h_write_at p off [b]).

(** * create_obj, free_obj *)

Definition create_obj (e : DeltaEnv) (key : bytes) (size : Z) : M DeltaSt (ErrorCode * option Z) :=
  tmp_ptr ← match de_alloc e with
            | Some p => on_dheap (h_malloc p (de_init e))
            | None => mret (de_wild e)
            end;
  s ← get_st;
  match sm_find key (ds_objectMap (dstore s)) with
  | None =>
      let obj := setVersion 0 (new_Object true key size 0 tmp_ptr) in
      put_st (set_dobjects (sm_set key obj (ds_objectMap (dstore s))) s);;
      mret (NO_ERROR, Some tmp_ptr)
  | Some _ => exit_ 1
  end.

Definition free_obj (obj_addr : Z) : M DeltaSt ErrorCode :=
  s ← get_st;
  match ds_addrMap (dstore s) !! obj_addr with
  | None => exit_ 1
  | Some key =>
      match sm_find key (ds_objectMap (dstore s)) with
      | None => exit_ 1
      | Some _ =>
          modify (set_dobjects (sm_erase key (ds_objectMap (dstore s))));;
          modify (set_daddrs (delete obj_addr (ds_addrMap (dstore s))));;
          undef
      end
  end.

(** * put, put_all *)

(** The loop over the delta chunks: io vectors, delta table of the header from
    index [i] on, and the sum of the lengths.  The table has five places. *)
Fixpoint delta_iovs (p : Z) (i : nat) (dc : list delta_t) (l_entry : lehdr_t) (delta_len : Z) :
    M DeltaSt (list bytes * lehdr_t * Z) :=
  match dc with
  | [] => mret ([], l_entry, delta_len)
  | d :: dc' =>
      guard_ub (i <? MAX_DELTAS)%nat;;
      bs ← on_dheap (h_read_at p (d_start d) (d_len d));
      r ← delta_iovs p (S i) dc' (set_delta i (mk_ledelta (d_start d) (d_len d)) l_entry)
            (u64 (delta_len + d_len d));
      mret (bs :: r.1.1, r.1.2, r.2)
  end.

Definition delta_hdr (v : Z) (obj : Object) (delta_len : Z) (h : lehdr_t) : lehdr_t :=
  set_type delta (set_delta_len delta_len (set_len (o_size obj) (set_kname (o_name obj)
    (set_version v h)))).

(** Header and chunks of one object, and the number of delta bytes. *)
Definition object_iovs (e : DeltaEnv) (g : lehdr_t) (v : Z) (obj : Object) :
    M DeltaSt (list bytes * Z) :=
  let dc := get_delta_chunks (de_start0 e) (de_len0 e) obj in
  r ← delta_iovs (o_ptr obj) 0 dc g 0;
  mret (lehdr_bytes (delta_hdr v obj r.2 r.1.2) :: r.1.1, r.2).

(** The soft state after a commit: version, write protection, clean bits. *)
Definition committed (v : Z) (obj : Object) : Object := reset_bit_vector (setVersion v obj).

Definition commit_obj (key : bytes) (v : Z) (obj : Object) : M DeltaSt unit :=
  enable_write_protection (o_ptr obj) (o_aligned_size obj);;
  modify (fun s => set_dobjects (sm_set key (committed v obj) (ds_objectMap (dstore s))) s).

Definition put (e : DeltaEnv) (key : bytes) (v : Z) : M DeltaSt Z :=
  s ← get_st;
  match sm_find key (ds_objectMap (dstore s)) with
  | Some obj =>
      r ← object_iovs e (de_hdrs e 0) v obj;
      let total_size := u64 (r.2 + sizeof_lehdr) in
      err ← on_dlog (appendv r.1);
      if decide (err <> NO_ERROR) then mret (ErrorCode_code PMEM_ERROR) else
      commit_obj key v obj;;
      mret total_size
  | None => mret (ErrorCode_code ELEM_NOT_FOUND)
  end.

Fixpoint all_iovs (e : DeltaEnv) (i : nat) (objs : list (bytes * Object)) (tot_cnt : Z) :
    M DeltaSt (list (list bytes) * Z) :=
  match objs with
  | [] => mret ([], tot_cnt)
  | (_, obj) :: objs' =>
      r ← object_iovs e (de_hdrs e i) (u64 (o_version obj + 1)) obj;
      rs ← all_iovs e (S i) objs' (u64 (tot_cnt + u64 (r.2 + sizeof_lehdr)));
      mret (r.1 :: rs.1, rs.2)
  end.

Fixpoint commit_all (objs : list (bytes * Object)) : M DeltaSt unit :=
  match objs with
  | [] => mret tt
  | (key, obj) :: objs' => commit_obj key (u64 (o_version obj + 1)) obj;; commit_all objs'
  end.

Definition put_all (e : DeltaEnv) : M DeltaSt Z :=
  s ← get_st;
  let objs := ds_objectMap (dstore s) in
  r ← all_iovs e 1 objs 0;
  let tot_cnt := r.2 in
  let h0 := set_len tot_cnt (set_type multiple (set_version 0 (de_hdrs e 0))) in
  let total_size := u64 (tot_cnt + sizeof_lehdr) in
  err ← on_dlog (appendmv ([lehdr_bytes h0] :: r.1));
  if decide (err <> NO_ERROR) then mret (ErrorCode_code PMEM_ERROR) else
  commit_all objs;;
  mret total_size.

(** * process_chunks, get, get_with_malloc *)

Definition dw_set_err (err : ErrorCode) (w : dwalk) : dwalk :=
  mkDwalk (we_set_err err (dw_base w)) (dw_delta_len w) (dw_deltas w).

Definition dw_found (h : lehdr_t) (data : Z) (w : dwalk) : dwalk :=
  mkDwalk (we_found h data (dw_base w)) (delta_len h) (deltas h).

Definition check_single (hdr : lehdr_t) (data : Z) : M dwalk Z := fun w =>
  match hdr_match hdr (dw_base w) with
  | None => Undef w
  | Some true => Ret 0 (dw_found hdr data w)
  | Some false => Ret 1 w
  end.

(** The branches for batches and deltas log an error and then leave the
    function without a value. *)
Definition process_chunks (m : mem) (buf _len : Z) : M dwalk Z :=
  modify (dw_set_err ID_NOT_FOUND);;
  let hdr := read_lehdr m buf in
  if type hdr =? HdrType_code single then
    check_single hdr (buf + sizeof_lehdr)
  else if type hdr =? HdrType_code multiple then undef
  else if type hdr =? HdrType_code delta then undef
  else exit_ 1.

(** [get] logs an error and has no return statement. *)
Definition get (key : bytes) (v obj_addr : Z) : M DeltaSt ErrorCode := undef.

Definition rd_dlog (a n : Z) : M DeltaSt bytes := fun s =>
  if (0 <=? a) && (0 <=? n) && (a + n <=? mapped_len (ds_log (dstore s)))
  then Ret (mread (pview (d_pm s)) a n) s else Undef s.

(** [delta_memcpy]: the loop runs to [delta_len], the number of delta bytes, and
    indexes the table of five deltas with it. *)
Fixpoint delta_memcpy (dst src : Z) (ds : list ledelta_t) (i delta_len src_offset : Z) :
    M DeltaSt unit :=
  if i <? delta_len then
    match ds with
    | [] => undef
    | d :: ds' =>
        bs ← rd_dlog (src + src_offset) (ld_len d);
        on_dheap (h_write_at dst (ld_start d) bs);;
        delta_memcpy dst src ds' (i + 1) delta_len (u64 (src_offset + ld_len d))
    end
  else mret tt.

Definition run_dwalk (w : dwalk) : M DeltaSt (ErrorCode * dwalk) := fun s =>
  match walk (mapped_len (ds_log (dstore s))) (pview (d_pm s)) (process_chunks (pview (d_pm s))) w with
  | Ret e w' => Ret (e, w') s
  | Exit c _ => Exit c s
  | Undef _ => Undef s
  | Diverge _ => Diverge s
  end.

Definition get_with_malloc (e : DeltaEnv) (key : bytes) (v : Z) : M DeltaSt (ErrorCode * option Z) :=
  r ← run_dwalk (mkDwalk (search_for (dw_base (de_went e)) key v) (dw_delta_len (de_went e))
                   (dw_deltas (de_went e)));
  let w := r.2 in
  if decide (we_err (dw_base w) <> NO_ERROR) then mret (ID_NOT_FOUND, None) else
  s ← get_st;
  match sm_find key (ds_objectMap (dstore s)) with
  | Some obj =>
      delta_memcpy (o_ptr obj) (we_datap (dw_base w)) (dw_deltas w) 0 (dw_delta_len w) 0;;
      modify (fun s => set_dobjects (sm_set key (setVersion v obj) (ds_objectMap (dstore s))) s);;
      mret (NO_ERROR, Some (o_ptr obj))
  | None =>
      tmp_ptr ← match de_alloc e with
                | Some p => on_dheap (h_malloc p (de_init e))
                | None => mret 0
                end;
      modify (fun s => set_dobjects
        (sm_set key (new_Object true key (we_len (dw_base w)) v tmp_ptr) (ds_objectMap (dstore s))) s);;
      mret (NO_ERROR, None)
  end.

#[global] Instance DeltaStore_Store : Store DeltaSt DeltaEnv := {|
  v_create_obj := create_obj;
  v_free_obj := free_obj;
  v_put := put;
  v_put_all := put_all;
  v_get _ := get;
  v_get_with_malloc := get_with_malloc;
  v_get_store_id := fun s => Ret (ds_storeId (dstore s)) s
|}.

(** * Tracking the writes *)

Record delta_inv (s : DeltaSt) : Prop := {
  di_sorted : sm_sorted (ds_objectMap (dstore s));
  di_objs : forall k o, sm_find k (ds_objectMap (dstore s)) = Some o ->
    delta_obj_wf o /\ o_name o = k /\ o_ptr o mod PAGE_SIZE = 0 /\ 0 < o_ptr o /\
    o_ptr o + o_aligned_size o < 2 ^ 64 /\
    exists b, d_heap s !! o_ptr o = Some b /\ Z.of_nat (length b) = o_aligned_size o;
  di_apart : forall k k' o o', sm_find k (ds_objectMap (dstore s)) = Some o ->
    sm_find k' (ds_objectMap (dstore s)) = Some o' -> k <> k' ->
    o_ptr o + o_aligned_size o < o_ptr o' \/ o_ptr o' + o_aligned_size o' < o_ptr o
}.

Lemma page_start a : Z.land a (Z.lnot (PAGE_SIZE - 1)) = page_no a * PAGE_SIZE.
Proof.
  unfold page_no, PAGE_SIZE. change (4096 - 1) with (Z.ones 12).
  rewrite <- Z.ldiff_land, Z.ldiff_ones_r by lia.
  by rewrite Z.shiftl_mul_pow2, Z.shiftr_div_pow2 by lia.
Qed.

Lemma pages_one n : pages (n * PAGE_SIZE) PAGE_SIZE = {[n]}.
Proof.
  unfold pages, page_no, PAGE_SIZE. rewrite Z.div_mul by lia.
  change ((4096 + (4096 - 1)) / 4096) with 1. unfold seqZ. simpl. rewrite Z.add_0_l. set_solver.
Qed.

Lemma elem_of_pages a n p :
  a mod PAGE_SIZE = 0 -> n mod PAGE_SIZE = 0 -> 0 <= n ->
  p ∈ pages a n <-> page_no a <= p < page_no a + page_no n.
Proof.
  intros Ha Hn H0. unfold pages, page_no, PAGE_SIZE in *. rewrite elem_of_list_to_set, elem_of_seqZ.
  replace ((n + (4096 - 1)) / 4096) with (n / 4096); [done|].
  apply Z.mod_divide in Hn as [c ->]; [|lia]. rewrite Z.div_mul by lia.
  replace (c * 4096 + (4096 - 1)) with (4095 + c * 4096) by lia. by rewrite Z.div_add by lia.
Qed.

(** The state after the handler has dealt with a write to [a] in object [o]. *)
Definition handled (k : bytes) (o : Object) (a : Z) (s : DeltaSt) : DeltaSt :=
  set_dobjects (sm_set k (set_modified_bit (page_no (a - o_ptr o)) o) (ds_objectMap (dstore s)))
    (set_prot (d_prot s ∖ {[page_no a]}) s).

Lemma handler_loop_run a k o objs s :
  sm_sorted objs -> sm_find k objs = Some o ->
  o_ptr o <= a < o_ptr o + o_aligned_size o -> o_ptr o + o_aligned_size o < 2 ^ 64 -> 0 < o_ptr o ->
  (forall k' o', sm_find k' objs = Some o' -> k' <> k ->
     0 < o_ptr o' /\ o_ptr o' + o_aligned_size o' < 2 ^ 64 /\ 0 <= o_aligned_size o' /\
     (a < o_ptr o' \/ o_ptr o' + o_aligned_size o' < a)) ->
  handler_loop a objs s = Ret tt (handled k o a s).
Proof.
  intros Hs Hk Ha Ho Hp Hot. induction objs as [|[k' o'] objs IH]; [done|].
  simpl in Hk. simpl handler_loop. cbv zeta. destruct (decide (k = k')) as [<-|Hne].
  - injection Hk as ->. rewrite u64_small' by lia.
    rewrite !(proj2 (Z.leb_le _ _)) by lia. simpl andb. cbv iota.
    rewrite page_start. unfold disable_protection, PAGE_SIZE. munfold.
    rewrite Z.mod_mul, Z.eqb_refl by lia. fold PAGE_SIZE. rewrite pages_one.
    unfold handled, page_no. by rewrite Z.shiftr_div_pow2 by lia.
  - destruct (Hot k' o') as (H1 & H2 & H3 & H4); [simpl; by rewrite decide_True | done|].
    assert ((u64 (a - o_ptr o') <=? o_aligned_size o') = false) as ->.
    { apply Z.leb_gt. destruct H4 as [H4|H4].
      - unfold u64. replace (a - o_ptr o') with (a - o_ptr o' + 2 ^ 64 + (-1) * 2 ^ 64) by lia.
        rewrite Z_mod_plus_full, Z.mod_small by lia. lia.
      - rewrite u64_small' by lia. lia. }
    rewrite andb_false_r. apply IH; [apply Hs | done|].
    intros k2 o2 H2' Hne2. apply (Hot k2 o2); [|done]. simpl. rewrite decide_False; [done|]. intros ->.
    destruct Hs as [Hs _]. rewrite Forall_forall in Hs. apply sm_find_elem, Hs in H2'. simpl in H2'.
    by rewrite key_lt_irrefl in H2'.
Qed.

Lemma delta_handler_run s a k o :
  delta_inv s -> sm_find k (ds_objectMap (dstore s)) = Some o ->
  o_ptr o <= a < o_ptr o + o_aligned_size o ->
  delta_handler a s = Ret tt (handled k o a s).
Proof.
  intros [Hs Ho Hap] Hk Ha. destruct (Ho k o Hk) as (_ & _ & _ & Hp & Hlt & _).
  unfold delta_handler. rewrite (proj2 (Z.eqb_neq _ _)) by lia. mstep.
  apply handler_loop_run; try done. intros k' o' Hk' Hne.
  destruct (Ho k' o' Hk') as ([_ _ Hal] & _ & _ & Hp' & Hlt' & b & _ & Hb).
  split_and!; try lia. destruct (Hap k k' o o' Hk Hk' ltac:(done)); lia.
Qed.

(** ** What the tracking promises

    [base k] is the content of object [k] at its last put.  A page whose bit is
    clear is write protected and its bytes are those of the base. *)
Definition byte_at (b : bytes) (j : Z) : option byte := b !! Z.to_nat j.

Definition tracked (s : DeltaSt) (base : bytes -> bytes) : Prop :=
  forall k o b, sm_find k (ds_objectMap (dstore s)) = Some o -> d_heap s !! o_ptr o = Some b ->
  forall j, 0 <= j < o_aligned_size o -> page_bit (o_bitset o) (page_no j) = false ->
    page_no (o_ptr o + j) ∈ d_prot s /\ byte_at b j = byte_at (base k) j.

Lemma page_no_add p j : p mod PAGE_SIZE = 0 -> page_no (p + j) = page_no p + page_no j.
Proof.
  unfold page_no, PAGE_SIZE. intros H. apply Z.mod_divide in H as [c ->]; [|lia].
  rewrite Z.div_mul by lia. rewrite Z.add_comm, Z.div_add by lia. lia.
Qed.

(** Two objects share no page. *)
Lemma pages_apart s k k' o o' j j' :
  delta_inv s -> sm_find k (ds_objectMap (dstore s)) = Some o ->
  sm_find k' (ds_objectMap (dstore s)) = Some o' -> k <> k' ->
  0 <= j < o_aligned_size o -> 0 <= j' < o_aligned_size o' ->
  page_no (o_ptr o + j) <> page_no (o_ptr o' + j').
Proof.
  intros [_ Ho Hap] Hk Hk' Hne Hj Hj'.
  destruct (Ho k o Hk) as ([_ Hpg _] & _ & Hm & _). destruct (Ho k' o' Hk') as ([_ Hpg' _] & _ & Hm' & _).
  assert (forall p n : Z, p mod PAGE_SIZE = 0 -> exists c, p + n * PAGE_SIZE = c * PAGE_SIZE /\ p = (c - n) * PAGE_SIZE) as Hc.
  { intros p n [c ->]%Z.mod_divide; [|unfold PAGE_SIZE; lia]. exists (c + n). lia. }
  destruct (Hc _ (Z.of_nat (length (o_bitset o))) Hm) as (c & E1 & E2).
  destruct (Hc _ (Z.of_nat (length (o_bitset o'))) Hm') as (c' & E1' & E2').
  rewrite Hpg in E1. rewrite Hpg' in E1'. unfold page_no, PAGE_SIZE in *.
  pose proof (Z.div_mod (o_ptr o + j) 4096 ltac:(lia)). pose proof (Z.mod_pos_bound (o_ptr o + j) 4096 ltac:(lia)).
  pose proof (Z.div_mod (o_ptr o' + j') 4096 ltac:(lia)). pose proof (Z.mod_pos_bound (o_ptr o' + j') 4096 ltac:(lia)).
  intros Heq. destruct (Hap k k' o o' Hk Hk' Hne); lia.
Qed.

(** ** A store by the program *)

Lemma modified_bits i o j :
  page_bit (o_bitset (set_modified_bit i o)) j = false -> page_bit (o_bitset o) j = false.
Proof.
  unfold set_modified_bit, page_bit. bsplit; [|done]. simpl.
  rewrite !nth_lookup. destruct (decide (Z.to_nat i = Z.to_nat j)) as [E|Hne].
  - rewrite <- E. rewrite list_lookup_insert_eq by lia. done.
  - by rewrite list_lookup_insert_ne.
Qed.

Lemma modified_bit_set i o :
  0 < i < Z.of_nat (length (o_bitset o)) -> page_bit (o_bitset (set_modified_bit i o)) i = true.
Proof.
  intros Hi. unfold set_modified_bit, page_bit. rewrite !(proj2 (Z.ltb_lt _ _)) by lia. simpl.
  rewrite nth_lookup, list_lookup_insert_eq by lia. done.
Qed.

Lemma set_modified_bit_fields i o :
  o_ptr (set_modified_bit i o) = o_ptr o /\ o_size (set_modified_bit i o) = o_size o /\
  o_aligned_size (set_modified_bit i o) = o_aligned_size o /\ o_name (set_modified_bit i o) = o_name o.
Proof. unfold set_modified_bit. by bsplit. Qed.

(** Replacing an object by one over the same block. *)
Lemma delta_inv_set s k o o' pr :
  delta_inv s -> sm_find k (ds_objectMap (dstore s)) = Some o -> delta_obj_wf o' ->
  o_ptr o' = o_ptr o -> o_aligned_size o' = o_aligned_size o -> o_name o' = o_name o ->
  delta_inv (set_dobjects (sm_set k o' (ds_objectMap (dstore s))) (set_prot pr s)).
Proof.
  intros [H1 H2 H3] Hk Hwf Hp Ha Hn. destruct (H2 k o Hk) as (W & N & M1 & P & L & B).
  constructor; simpl.
  - by apply sm_set_sorted.
  - intros j oj. destruct (decide (k = j)) as [<-|Hne].
    + rewrite sm_find_set_eq. intros [= <-]. rewrite Hp, Ha, Hn. split_and!; try done; lia.
    + rewrite sm_find_set_ne by done. apply H2.
  - intros j1 j2 o1 o2.
    destruct (decide (k = j1)) as [<-|Hne1], (decide (k = j2)) as [<-|Hne2];
      rewrite ?sm_find_set_eq, ?(sm_find_set_ne k) by done; try done.
    + intros [= <-] Hj2 Hne. rewrite Hp, Ha. by apply (H3 k j2).
    + intros Hj1 [= <-] Hne. rewrite Hp, Ha. by apply (H3 j1 k).
    + apply H3.
Qed.

Lemma handled_inv s a k o :
  delta_inv s -> sm_find k (ds_objectMap (dstore s)) = Some o -> delta_inv (handled k o a s).
Proof.
  intros Hinv Hk. destruct (set_modified_bit_fields (page_no (a - o_ptr o)) o) as (E1 & E2 & E3 & E4).
  apply (delta_inv_set s k o); try done. apply set_modified_bit_wf. by apply (di_objs _ Hinv k o Hk).
Qed.

(** The page of the write leaves the protected set only when its bit is set. *)
Lemma handled_tracked s base k o off :
  delta_inv s -> tracked s base -> sm_find k (ds_objectMap (dstore s)) = Some o ->
  PAGE_SIZE <= off < o_aligned_size o -> tracked (handled k o (o_ptr o + off) s) base.
Proof.
  intros Hinv Ht Hk Hoff. destruct (di_objs _ Hinv k o Hk) as ([_ Hpg _] & _ & Hm & _).
  assert (o_ptr o + off - o_ptr o = off) as Eoff by lia.
  assert (0 < page_no off < Z.of_nat (length (o_bitset o))) as Hpage.
  { unfold page_no, PAGE_SIZE in *. split; [apply Z.div_str_pos; lia | apply Z.div_lt_upper_bound; lia]. }
  intros k' o' b Hk' Hb j Hj Hbit. unfold handled in Hk', Hb. simpl in Hk', Hb.
  unfold handled. simpl d_prot. rewrite elem_of_difference, not_elem_of_singleton.
  destruct (decide (k = k')) as [<-|Hne].
  - rewrite sm_find_set_eq in Hk'. injection Hk' as <-. rewrite Eoff in *.
    destruct (set_modified_bit_fields (page_no off) o) as (E1 & _ & E3 & _). rewrite E1, E3 in *.
    destruct (Ht k o b Hk Hb j Hj) as [Hpr Hbyte]; [by eapply modified_bits|].
    split; [|done]. split; [done|]. rewrite !page_no_add by done. intros Heq.
    assert (page_no j = page_no off) as Ej by lia. rewrite Ej in Hbit.
    by rewrite modified_bit_set in Hbit.
  - rewrite sm_find_set_ne in Hk' by done. destruct (Ht k' o' b Hk' Hb j Hj Hbit) as [Hpr Hbyte].
    split; [|done]. split; [done|].
    apply (pages_apart s k' k); try done. unfold PAGE_SIZE in *. lia.
Qed.

(** A byte of a block replaced. *)
Definition poke_byte (b : bytes) (off : Z) (x : byte) : bytes :=
  take (Z.to_nat off) b ++ [x] ++ drop (Z.to_nat off + 1) b.

Lemma poke_byte_insert b off x :
  0 <= off < Z.of_nat (length b) -> poke_byte b off x = <[Z.to_nat off := x]> b.
Proof.
  intros H. unfold poke_byte. rewrite insert_take_drop by lia. simpl.
  by replace (Z.to_nat off + 1)%nat with (S (Z.to_nat off)) by lia.
Qed.

(** The page of the write is writable after the handler. *)
Definition faulted (k : bytes) (o : Object) (off : Z) (s : DeltaSt) : DeltaSt :=
  if bool_decide (page_no (o_ptr o + off) ∈ d_prot s) then handled k o (o_ptr o + off) s else s.

Lemma app_store_run s k o off x b :
  delta_inv s -> sm_find k (ds_objectMap (dstore s)) = Some o -> 0 <= off < o_aligned_size o ->
  d_heap s !! o_ptr o = Some b ->
  app_store (o_ptr o) off x s =
  Ret tt (set_dheap (<[o_ptr o := poke_byte b off x]> (d_heap s)) (faulted k o off s)).
Proof.
  intros Hinv Hk Hoff Hb. destruct (di_objs _ Hinv k o Hk) as (_ & _ & _ & _ & _ & b' & Hb' & Hl).
  assert (b' = b) as -> by congruence.
  unfold app_store. mstep. unfold faulted. destruct (bool_decide (page_no (o_ptr o + off) ∈ d_prot s)) eqn:E.
  - erewrite bind_Ret by (apply (delta_handler_run s _ k o); try done; lia).
    mstep. rewrite bool_decide_false by (unfold handled; simpl; set_solver).
    unfold on_dheap, zoom, h_write_at. simpl. rewrite Hb.
    by rewrite (proj2 (Z.leb_le _ _)), (proj2 (Z.leb_le _ _)) by lia.
  - mstep. mstep. rewrite E. unfold on_dheap, zoom, h_write_at. rewrite Hb. simpl length.
    by rewrite (proj2 (Z.leb_le _ _)), (proj2 (Z.leb_le _ _)) by lia.
Qed.

Lemma delta_inv_heap s p b b' :
  delta_inv s -> d_heap s !! p = Some b -> length b' = length b ->
  delta_inv (set_dheap (<[p := b']> (d_heap s)) s).
Proof.
  intros [H1 H2 H3] Hp Hl. constructor; try done. simpl. intros k o Hk.
  destruct (H2 k o Hk) as (W & N & Mo & P & L & c & Hc & Hlc). split_and!; try done.
  destruct (decide (p = o_ptr o)) as [->|Hne].
  - exists b'. rewrite lookup_insert_eq. split; [done|]. rewrite Hl. congruence.
  - exists c. by rewrite lookup_insert_ne.
Qed.

(** Distinct objects have distinct blocks. *)
Lemma blocks_apart s k k' o o' :
  delta_inv s -> sm_find k (ds_objectMap (dstore s)) = Some o ->
  sm_find k' (ds_objectMap (dstore s)) = Some o' -> o_ptr o = o_ptr o' -> k = k'.
Proof.
  intros [_ Ho Hap] Hk Hk' Hp. destruct (decide (k = k')) as [?|Hne]; [done|].
  destruct (Ho k o Hk) as (_ & _ & _ & _ & _ & b & _ & Hb).
  destruct (Ho k' o' Hk') as (_ & _ & _ & _ & _ & b' & _ & Hb').
  destruct (Hap k k' o o' Hk Hk' Hne); lia.
Qed.

(** The block of each object. *)
Definition layout (s : DeltaSt) (k : bytes) : option (Z * Z * Z) :=
  (fun o => (o_ptr o, o_size o, o_aligned_size o)) <$> sm_find k (ds_objectMap (dstore s)).

Lemma faulted_ok s base k o off :
  delta_inv s -> tracked s base -> sm_find k (ds_objectMap (dstore s)) = Some o ->
  PAGE_SIZE <= off < o_aligned_size o ->
  delta_inv (faulted k o off s) /\ tracked (faulted k o off s) base /\
  (forall k', layout (faulted k o off s) k' = layout s k') /\
  exists o', sm_find k (ds_objectMap (dstore (faulted k o off s))) = Some o' /\ o_ptr o' = o_ptr o /\
    page_bit (o_bitset o') (page_no off) = true.
Proof.
  intros Hinv Ht Hk Hoff. destruct (di_objs _ Hinv k o Hk) as ([_ Hpg _] & _ & _ & _ & _ & b & Hb & Hl).
  unfold faulted. case_bool_decide as E.
  - split; [by apply handled_inv|]. split; [by apply handled_tracked|]. unfold layout, handled. simpl.
    destruct (set_modified_bit_fields (page_no (o_ptr o + off - o_ptr o)) o) as (E1 & E2 & E3 & _).
    split.
    + intros k'. destruct (decide (k = k')) as [<-|Hne].
      * rewrite sm_find_set_eq, Hk. simpl. by rewrite E1, E2, E3.
      * by rewrite sm_find_set_ne.
    + eexists. rewrite sm_find_set_eq. split; [done|]. split; [done|].
      replace (o_ptr o + off - o_ptr o) with off by lia. apply modified_bit_set.
      unfold page_no, PAGE_SIZE in *. split; [apply Z.div_str_pos; lia | apply Z.div_lt_upper_bound; lia].
  - split_and!; try done. exists o. split; [done|]. split; [done|].
    destruct (page_bit (o_bitset o) (page_no off)) eqn:Ebit; [done|].
    unfold PAGE_SIZE in *. destruct (Ht k o b Hk Hb off ltac:(lia) Ebit) as [Hpr _]. done.
Qed.

(** A store outside the first page is tracked. *)
Lemma app_store_tracked s base k o off x b :
  delta_inv s -> tracked s base -> sm_find k (ds_objectMap (dstore s)) = Some o ->
  d_heap s !! o_ptr o = Some b -> PAGE_SIZE <= off < o_aligned_size o ->
  exists s', app_store (o_ptr o) off x s = Ret tt s' /\
    d_heap s' = <[o_ptr o := <[Z.to_nat off := x]> b]> (d_heap s) /\
    delta_inv s' /\ tracked s' base /\ get_dlog s' = get_dlog s /\ (forall k', layout s' k' = layout s k').
Proof.
  intros Hinv Ht Hk Hb Hoff. assert (0 <= off < o_aligned_size o) as Hoff' by (unfold PAGE_SIZE in *; lia).
  destruct (di_objs _ Hinv k o Hk) as (_ & _ & _ & _ & _ & b' & Hb' & Hl).
  assert (b' = b) as -> by congruence.
  destruct (faulted_ok s base k o off Hinv Ht Hk Hoff) as (Hi1 & Ht1 & Hlay & o1 & Hk1 & Hp1 & Hbit1).
  assert (d_heap (faulted k o off s) = d_heap s) as Hh by (unfold faulted; by case_bool_decide).
  assert (get_dlog (faulted k o off s) = get_dlog s) as Hlog by (unfold faulted; by case_bool_decide).
  eexists. split; [by apply app_store_run|]. rewrite poke_byte_insert by lia.
  split; [done|]. split; [|split; [|split; [exact Hlog | exact Hlay]]].
  - rewrite <- Hh. apply (delta_inv_heap _ _ b); [done | by rewrite Hh | by rewrite length_insert].
  - intros k' o' c Hk' Hc j Hj Hbit. simpl in Hk', Hc. simpl d_prot.
    destruct (decide (o_ptr o = o_ptr o')) as [Hp|Hp].
    + assert (k = k') as <- by (apply (blocks_apart _ k k' o1 o' Hi1 Hk1 Hk'); congruence).
      assert (o' = o1) as -> by congruence. rewrite <- Hp, lookup_insert_eq in Hc. injection Hc as <-.
      destruct (Ht1 k o1 b Hk1 ltac:(rewrite Hh; congruence) j Hj Hbit) as [Hpr Hby].
      split; [done|]. unfold byte_at. rewrite list_lookup_insert_ne; [done|].
      intros Heq. assert (j = off) as -> by (unfold PAGE_SIZE in *; lia). congruence.
    + rewrite lookup_insert_ne in Hc by done. rewrite <- Hh in Hc. by apply (Ht1 k' o' c).
Qed.

(** A run of stores into objects, by key. *)
Fixpoint app_stores (l : list (bytes * Z * byte)) : M DeltaSt unit :=
  match l with
  | [] => mret tt
  | (k, off, x) :: l' =>
      s ← get_st;
      match sm_find k (ds_objectMap (dstore s)) with
      | Some o => app_store (o_ptr o) off x;; app_stores l'
      | None => undef
      end
  end.

Definition store_ok (s : DeltaSt) (st : bytes * Z * byte) : Prop :=
  exists lay, layout s st.1.1 = Some lay /\ PAGE_SIZE <= st.1.2 < lay.2.

Lemma app_stores_tracked l : forall s base,
  delta_inv s -> tracked s base -> Forall (store_ok s) l ->
  exists s', app_stores l s = Ret tt s' /\ delta_inv s' /\ tracked s' base /\
    get_dlog s' = get_dlog s /\ (forall k, layout s' k = layout s k).
Proof.
  induction l as [|[[k off] x] l IH]; intros s base Hinv Ht Hok; [by exists s|].
  apply Forall_cons in Hok as [(lay & Hlay & Hoff) Hok]. simpl in Hlay, Hoff.
  unfold layout in Hlay. destruct (sm_find k (ds_objectMap (dstore s))) as [o|] eqn:Hk; [|done].
  injection Hlay as <-. simpl in Hoff.
  destruct (di_objs _ Hinv k o Hk) as (_ & _ & _ & _ & _ & b & Hb & _).
  destruct (app_store_tracked s base k o off x b Hinv Ht Hk Hb Hoff) as (s1 & H1 & _ & Hi1 & Ht1 & Hg1 & Hl1).
  destruct (IH s1 base Hi1 Ht1) as (s' & Hrun & Hi' & Ht' & Hg' & Hl').
  { eapply Forall_impl; [exact Hok|]. intros st (lay & Hlay & Ho). exists lay. by rewrite Hl1. }
  exists s'. split; [|split_and!; try done; [congruence | intros j; by rewrite Hl']].
  simpl. mstep. rewrite Hk. by erewrite bind_Ret by exact H1.
Qed.

(** * The deltas of a put rebuild the object *)

(** What a reader of the log has to do with an entry: copy the chunks to their
    places until the delta bytes are used up. *)
Definition patch (b : bytes) (start : Z) (d : bytes) : bytes :=
  take (Z.to_nat start) b ++ d ++ drop (Z.to_nat start + length d) b.

Fixpoint apply_deltas (ds : list ledelta_t) (n : Z) (data b : bytes) : bytes :=
  if n <=? 0 then b else
  match ds with
  | [] => b
  | d :: ds' =>
      apply_deltas ds' (n - ld_len d) (drop (Z.to_nat (ld_len d)) data)
        (patch b (ld_start d) (take (Z.to_nat (ld_len d)) data))
  end.

Definition slice (b : bytes) (d : delta_t) : bytes :=
  take (Z.to_nat (d_len d)) (drop (Z.to_nat (d_start d)) b).

Definition to_led (d : delta_t) : ledelta_t := mk_ledelta (d_start d) (d_len d).

Definition in_block (n : Z) (d : delta_t) : Prop :=
  0 <= d_start d /\ 0 <= d_len d /\ d_start d + d_len d <= n.

Definition total_len (dc : list delta_t) : Z := foldr (fun d n => d_len d + n) 0 dc.

Lemma length_slice b d : in_block (Z.of_nat (length b)) d -> length (slice b d) = Z.to_nat (d_len d).
Proof. intros (H1 & H2 & H3). unfold slice. rewrite length_take, length_drop. lia. Qed.

Lemma length_patch b start d :
  0 <= start -> start + Z.of_nat (length d) <= Z.of_nat (length b) -> length (patch b start d) = length b.
Proof. intros H1 H2. unfold patch. rewrite !length_app, length_take, length_drop. lia. Qed.

Lemma patch_lookup b c d (j : nat) :
  in_block (Z.of_nat (length b)) d -> in_block (Z.of_nat (length c)) d ->
  patch b (d_start d) (slice c d) !! j =
  if decide (covers d (Z.of_nat j)) then c !! j else b !! j.
Proof.
  intros Hb Hc. pose proof (length_slice c d Hc) as Hl. destruct Hb as (B1 & B2 & B3).
  destruct Hc as (C1 & C2 & C3). unfold patch. rewrite Hl. unfold covers.
  destruct (decide _) as [Hin|Hin].
  - rewrite lookup_app_r by (rewrite length_take; lia). rewrite length_take.
    rewrite lookup_app_l by (rewrite Hl; lia). unfold slice.
    rewrite lookup_take_lt, lookup_drop by lia. f_equal. lia.
  - destruct (decide (Z.of_nat j < d_start d)) as [Hlt|Hge].
    + rewrite lookup_app_l by (rewrite length_take; lia). by rewrite lookup_take_lt by lia.
    + rewrite lookup_app_r by (rewrite length_take; lia). rewrite length_take.
      rewrite lookup_app_r by (rewrite Hl; lia). rewrite Hl, lookup_drop. f_equal. lia.
Qed.

Lemma total_len_pos dc : Forall (fun d => 0 <= d_len d) dc -> 0 <= total_len dc.
Proof. induction 1; simpl; lia. Qed.

Lemma total_len_zero dc d :
  Forall (fun d => 0 <= d_len d) dc -> total_len dc <= 0 -> d ∈ dc -> d_len d = 0.
Proof.
  induction 1 as [|c dc Hc Hdc IH]; simpl; [by intros _ ?%not_elem_of_nil|].
  pose proof (total_len_pos dc Hdc). intros Hn [-> |Hin]%elem_of_cons; [lia|]. apply IH; [lia | done].
Qed.

Lemma apply_deltas_lookup c rest tail dc : forall b (j : nat),
  length b = length c -> Forall (in_block (Z.of_nat (length c))) dc ->
  (covered dc (Z.of_nat j) ->
   apply_deltas ((to_led <$> dc) ++ rest) (total_len dc) (List.concat (slice c <$> dc) ++ tail) b !! j
   = c !! j) /\
  (~ covered dc (Z.of_nat j) ->
   apply_deltas ((to_led <$> dc) ++ rest) (total_len dc) (List.concat (slice c <$> dc) ++ tail) b !! j
   = b !! j).
Proof.
  induction dc as [|d dc IH]; intros b j Hlen Hin.
  { split; [by intros ?%Exists_nil|]. intros _. simpl. by destruct rest. }
  assert (Forall (fun d => 0 <= d_len d) (d :: dc)) as Hpos.
  { eapply Forall_impl; [exact Hin|]. by intros x (_ & ? & _). }
  pose proof Hin as [Hd Hdc]%Forall_cons.
  cbn [fmap list_fmap app apply_deltas total_len foldr]. fold (total_len dc).
  destruct (d_len d + total_len dc <=? 0) eqn:E; bcases.
  { split; [|done]. intros Hc. apply Exists_exists in Hc as (x & Hx & H1 & H2).
    rewrite (total_len_zero (d :: dc) x Hpos E Hx) in H2. lia. }
  simpl List.concat. simpl ld_len. simpl ld_start. rewrite <- app_assoc.
  rewrite take_app_length', drop_app_length' by by rewrite length_slice.
  replace (d_len d + total_len dc - d_len d) with (total_len dc) by lia.
  assert (in_block (Z.of_nat (length b)) d) as Hdb by by rewrite Hlen.
  destruct (IH (patch b (d_start d) (slice c d)) j) as [IH1 IH2]; [|done|].
  { rewrite length_patch; [done|apply Hd|]. rewrite length_slice by done. destruct Hdb as (? & ? & ?). lia. }
  assert (Decision (covered dc (Z.of_nat j))) as Hdec.
  { unfold covered. apply Exists_dec. intros x. unfold covers. apply _. }
  unfold covered in *. rewrite Exists_cons. split.
  - intros Hc. destruct (decide (Exists (fun c0 => covers c0 (Z.of_nat j)) dc)) as [Hy|Hn]; [by apply IH1|].
    rewrite IH2 by done. rewrite patch_lookup by done. rewrite decide_True; [done|]. tauto.
  - intros Hc. rewrite IH2 by tauto. rewrite patch_lookup by done. by rewrite decide_False by tauto.
Qed.

(** ** The io vectors and the header of a put *)

Fixpoint set_deltas (i : nat) (dc : list delta_t) (h : lehdr_t) : lehdr_t :=
  match dc with
  | [] => h
  | d :: dc' => set_deltas (S i) dc' (set_delta i (to_led d) h)
  end.

Definition sum_u64 (n : Z) (dc : list delta_t) : Z := foldl (fun n d => u64 (n + d_len d)) n dc.

Lemma delta_iovs_run p b dc : forall i h n s,
  d_heap s !! p = Some b -> Forall (in_block (Z.of_nat (length b))) dc -> (i + length dc <= 5)%nat ->
  delta_iovs p i dc h n s = Ret (slice b <$> dc, set_deltas i dc h, sum_u64 n dc) s.
Proof.
  induction dc as [|d dc IH]; intros i h n s Hb Hin Hi; [done|].
  apply Forall_cons in Hin as [(D1 & D2 & D3) Hin]. simpl length in Hi. simpl delta_iovs.
  unfold guard_ub at 1. unfold mbind at 1, M_bind at 1.
  rewrite (proj2 (Nat.ltb_lt _ _)) by (unfold MAX_DELTAS; lia).
  erewrite bind_Ret.
  2: { unfold on_dheap, zoom, h_read_at. rewrite Hb.
       rewrite !(proj2 (Z.leb_le _ _)) by lia. simpl. reflexivity. }
  replace (set_dheap (d_heap s) s) with s by by destruct s.
  erewrite bind_Ret by (apply IH; (done || lia)). done.
Qed.

(** The chunks of an object as the data of a header: where they lie, and that
    their lengths do not overflow. *)
Lemma ordered_in_block lim dc : ordered_below lim dc -> Forall (in_block lim) dc.
Proof.
  induction dc as [|d dc IH]; simpl; [constructor|]. intros (H1 & H2 & H3 & _ & H5).
  constructor; [done | auto].
Qed.

Lemma ordered_total lim dc : forall lo,
  ordered_below lim dc -> Forall (fun d => lo <= d_start d) dc -> lo <= lim -> total_len dc <= lim - lo.
Proof.
  induction dc as [|d dc IH]; intros lo Ho Hlo Hl; simpl; [lia|].
  destruct Ho as (H1 & H2 & H3 & H4 & H5). apply Forall_cons in Hlo as [Hd _].
  specialize (IH (d_start d + d_len d) H5 H4 ltac:(lia)). lia.
Qed.

Lemma sum_u64_total dc : forall n,
  0 <= n -> Forall (fun d => 0 <= d_len d) dc -> n + total_len dc < 2 ^ 64 ->
  sum_u64 n dc = n + total_len dc.
Proof.
  induction dc as [|d dc IH]; intros n Hn Hp Hb; simpl in *; [lia|].
  apply Forall_cons in Hp as [Hd Hp]. pose proof (total_len_pos dc Hp).
  rewrite u64_small' by lia. unfold sum_u64 in IH. rewrite IH by (done || lia). lia.
Qed.

Lemma length_slices b dc :
  Forall (in_block (Z.of_nat (length b))) dc ->
  Z.of_nat (length (List.concat (slice b <$> dc))) = total_len dc.
Proof.
  induction 1 as [|d dc Hd Hdc IH]; [done|]. rewrite fmap_cons. cbn [List.concat].
  rewrite length_app, length_slice, Nat2Z.inj_add, IH by done.
  destruct Hd as (? & ? & ?). simpl. lia.
Qed.

Lemma set_delta_wf i d h :
  fits 64 (ld_start d) -> fits 64 (ld_len d) -> lehdr_wf h -> lehdr_wf (set_delta i d h).
Proof.
  intros H1 H2 []. constructor; simpl; try done; [by rewrite length_insert|].
  by apply Forall_insert.
Qed.

Lemma set_deltas_wf lim dc : forall i h,
  Forall (in_block lim) dc -> lim < 2 ^ 64 -> lehdr_wf h -> lehdr_wf (set_deltas i dc h).
Proof.
  induction dc as [|d dc IH]; intros i h Hin Hl Hh; [done|].
  apply Forall_cons in Hin as [(D1 & D2 & D3) Hin]. simpl. apply IH; try done.
  apply set_delta_wf; unfold fits; simpl; try lia. done.
Qed.

Lemma set_deltas_table dc : forall i h,
  (i + length dc <= length (deltas h))%nat ->
  deltas (set_deltas i dc h) = take i (deltas h) ++ (to_led <$> dc) ++ drop (i + length dc) (deltas h).
Proof.
  induction dc as [|d dc IH]; intros i h Hi; simpl.
  { rewrite Nat.add_0_r. by rewrite take_drop. }
  simpl in Hi. rewrite IH by (simpl; rewrite length_insert; lia). simpl.
  rewrite (take_S_r _ i (to_led d)) by (apply list_lookup_insert_eq; lia).
  rewrite take_insert_ge, drop_insert_lt by lia. rewrite <- app_assoc.
  by replace (i + S (length dc))%nat with (S i + length dc)%nat by lia.
Qed.

(** ** The committed object *)

Lemma committed_fields v o :
  o_ptr (committed v o) = o_ptr o /\ o_aligned_size (committed v o) = o_aligned_size o /\
  o_name (committed v o) = o_name o /\ o_size (committed v o) = o_size o.
Proof. done. Qed.

Lemma committed_wf v o : delta_obj_wf o -> delta_obj_wf (committed v o).
Proof. intros [H1 H2 H3]. apply reset_bit_vector_wf. by constructor. Qed.

Lemma commit_obj_run key v o s :
  o_ptr o mod PAGE_SIZE = 0 ->
  commit_obj key v o s =
  Ret tt (set_dobjects (sm_set key (committed v o) (ds_objectMap (dstore s)))
            (set_prot (d_prot s ∪ pages (o_ptr o) (o_aligned_size o)) s)).
Proof.
  intros Hm. unfold commit_obj, enable_write_protection. munfold. by rewrite Hm.
Qed.

Definition rebase (base : bytes -> bytes) (k : bytes) (b : bytes) : bytes -> bytes :=
  fun j => if decide (j = k) then b else base j.

(** A committed object is tracked from its current content on. *)
Lemma committed_tracked s base key v o b :
  delta_inv s -> tracked s base -> sm_find key (ds_objectMap (dstore s)) = Some o ->
  d_heap s !! o_ptr o = Some b ->
  tracked (set_dobjects (sm_set key (committed v o) (ds_objectMap (dstore s)))
            (set_prot (d_prot s ∪ pages (o_ptr o) (o_aligned_size o)) s)) (rebase base key b).
Proof.
  intros Hinv Ht Hk Hb k o' b' Hk' Hb' j Hj Hbit. simpl in *. unfold rebase.
  destruct (decide (key = k)) as [<-|Hne].
  - rewrite sm_find_set_eq in Hk'. injection Hk' as <-. simpl in Hb', Hj |- *.
    rewrite decide_True by done. assert (b' = b) as -> by congruence. split; [|done].
    destruct (di_objs _ Hinv key o Hk) as ([_ Hpg _] & _ & Hm & _).
    apply elem_of_union. right. apply elem_of_pages; [done | | lia |].
    + rewrite <- Hpg. apply Z.mod_mul. done.
    + rewrite page_no_add by done. rewrite <- Hpg in Hj |- *. unfold page_no, PAGE_SIZE in *.
      rewrite Z.div_mul by lia. pose proof (Z.div_pos j 4096 ltac:(lia) ltac:(lia)).
      pose proof (Z.div_lt_upper_bound j 4096 (Z.of_nat (length (o_bitset o))) ltac:(lia) ltac:(lia)). lia.
  - rewrite sm_find_set_ne in Hk' by done. rewrite decide_False by done.
    destruct (Ht k o' b' Hk' Hb' j Hj Hbit) as [Hp Hy]. split; [set_solver | done].
Qed.

(** ** put *)

Definition chunks (e : DeltaEnv) (o : Object) : list delta_t :=
  get_delta_chunks (de_start0 e) (de_len0 e) o.

Definition put_hdr (e : DeltaEnv) (v : Z) (o : Object) : lehdr_t :=
  delta_hdr v o (total_len (chunks e o)) (set_deltas 0 (chunks e o) (de_hdrs e 0)).

Lemma chunks_ok e o (b : bytes) :
  delta_obj_wf o -> Z.of_nat (length b) = o_aligned_size o ->
  Forall (in_block (o_size o)) (chunks e o) /\ Forall (in_block (Z.of_nat (length b))) (chunks e o) /\
  Forall (fun d => 0 <= d_len d) (chunks e o) /\ 0 <= total_len (chunks e o) <= o_size o.
Proof.
  intros Hwf Hl. destruct (get_delta_chunks_cover o (de_start0 e) (de_len0 e) Hwf) as [Ho _].
  destruct Hwf as [W1 W2 W3]. pose proof (ordered_in_block _ _ Ho) as Hi.
  assert (Forall (fun d => 0 <= d_len d) (chunks e o)) as Hp.
  { eapply Forall_impl; [exact Hi|]. by intros d (_ & ? & _). }
  split_and!; try done.
  - eapply Forall_impl; [exact Hi|]. intros d (? & ? & ?). unfold in_block. lia.
  - by apply total_len_pos.
  - pose proof (ordered_total _ _ 0 Ho) as Ht. unfold chunks. rewrite Z.sub_0_r in Ht. apply Ht; [|lia].
    eapply Forall_impl; [exact Hi|]. by intros d (? & _).
Qed.

Lemma put_hdr_wf e v o (b : bytes) :
  delta_obj_wf o -> Z.of_nat (length b) = o_aligned_size o -> lehdr_wf (de_hdrs e 0) -> fits 64 v ->
  lehdr_wf (put_hdr e v o).
Proof.
  intros Hwf Hl Hg Hv. destruct (chunks_ok e o b Hwf Hl) as (H1 & _ & _ & H4). destruct Hwf as [W1 _ _].
  unfold put_hdr, delta_hdr.
  apply set_type_wf, set_delta_len_wf, set_len_wf, set_kname_wf, set_version_wf, (set_deltas_wf (o_size o));
    unfold fits in *; try done; lia.
Qed.

Lemma delta_put_run e key v s o b :
  delta_inv s -> soft_ok (ds_log (dstore s)) -> sm_find key (ds_objectMap (dstore s)) = Some o ->
  d_heap s !! o_ptr o = Some b -> lehdr_wf (de_hdrs e 0) -> fits 64 v ->
  (length (chunks e o) <= 5)%nat -> room (ds_log (dstore s)) (136 + total_len (chunks e o)) = true ->
  exists s', put e key v s = Ret (136 + total_len (chunks e o)) s' /\ delta_inv s' /\
    (forall base, tracked s base -> tracked s' (rebase base key b)) /\
    pview (d_pm s') = appended (pview (d_pm s)) (write_offset (ds_log (dstore s)))
      (lehdr_bytes (put_hdr e v o) ++ List.concat (slice b <$> chunks e o)) /\
    mapped_len (ds_log (dstore s')) = mapped_len (ds_log (dstore s)) /\
    write_offset (ds_log (dstore s')) =
      write_offset (ds_log (dstore s)) + 136 + total_len (chunks e o) + 8 /\
    sm_find key (ds_objectMap (dstore s')) = Some (committed v o) /\ d_heap s' = d_heap s.
Proof.
  intros Hinv Hsoft Hk Hb Hg Hv Hlen Hroom.
  destruct (di_objs _ Hinv key o Hk) as (Hwf & Hn & Hm & Hp & Hlt & b' & Hb' & Hl).
  assert (b' = b) as -> by congruence.
  destruct (chunks_ok e o b Hwf Hl) as (C1 & C2 & C3 & C4). pose proof Hwf as [W1 _ _].
  pose proof (put_hdr_wf e v o b Hwf Hl Hg Hv) as Hhw.
  pose proof (length_slices b (chunks e o) C2) as Hsl.
  assert (Z.of_nat (length (List.concat (lehdr_bytes (put_hdr e v o) :: (slice b <$> chunks e o)))) =
          136 + total_len (chunks e o)) as Hio.
  { cbn [List.concat]. rewrite length_app, length_lehdr_bytes by done. lia. }
  pose proof (appendv_room (ds_log (dstore s)) (pview (d_pm s)) (phist (d_pm s))
    (lehdr_bytes (put_hdr e v o) :: (slice b <$> chunks e o)) Hsoft ltac:(rewrite Hio; lia)) as Happ.
  rewrite Hio in Happ. specialize (Happ Hroom).
  assert (mkPmem (pview (d_pm s)) (phist (d_pm s)) = d_pm s) as Epm by by destruct (d_pm s).
  rewrite Epm in Happ.
  pose proof (so_write _ Hsoft) as Hw.
  eexists. split.
  - unfold put. mstep. rewrite Hk. unfold object_iovs.
    erewrite bind_Ret.
    2: { cbv zeta. fold (chunks e o). erewrite bind_Ret by (apply delta_iovs_run; done). reflexivity. }
    cbn [fst snd]. fold (chunks e o).
    rewrite (sum_u64_total (chunks e o) 0) by (done || lia). rewrite Z.add_0_l.
    fold (put_hdr e v o). erewrite bind_Ret.
    2: { unfold on_dlog, zoom, get_dlog. rewrite Happ. reflexivity. }
    simpl. erewrite bind_Ret by by apply commit_obj_run.
    unfold sizeof_lehdr. rewrite u64_small' by lia. rewrite (Z.add_comm (total_len _)). reflexivity.
  - split_and!.
    + apply (delta_inv_set _ key o); try done; [by destruct Hinv | by apply committed_wf].
    + intros base Ht. by apply (committed_tracked _ base key v o b); [destruct Hinv| | |].
    + done.
    + done.
    + simpl. lia.
    + simpl. apply sm_find_set_eq.
    + done.
Qed.

(** The entry a put has appended, read back. *)
Lemma put_entry_at e v o b m w :
  delta_obj_wf o -> Z.of_nat (length b) = o_aligned_size o -> lehdr_wf (de_hdrs e 0) -> fits 64 v ->
  32 <= w ->
  let m' := appended m w (lehdr_bytes (put_hdr e v o) ++ List.concat (slice b <$> chunks e o)) in
  read_lehdr m' w = put_hdr e v o /\
  mread m' (w + 136) (total_len (chunks e o)) = List.concat (slice b <$> chunks e o).
Proof.
  intros Hwf Hl Hg Hv Hw m'. pose proof (put_hdr_wf e v o b Hwf Hl Hg Hv) as Hh.
  destruct (chunks_ok e o b Hwf Hl) as (_ & C2 & _ & _). pose proof (length_slices b _ C2) as Hsl.
  pose proof (appended_at m w (lehdr_bytes (put_hdr e v o) ++ List.concat (slice b <$> chunks e o)) Hw) as Hat.
  apply at_app in Hat as [Hat _]. apply at_app in Hat as [Hat1 Hat2].
  rewrite length_lehdr_bytes in Hat2 by done. change (Z.of_nat 136) with 136 in Hat2.
  split; [by apply read_lehdr_at|]. rewrite <- Hsl. exact Hat2.
Qed.

(** C8: the deltas of a put rebuild the object, within the limits of the format.
    The objects are page aligned and have a gap between them ([delta_inv]).
    While the program stores to them outside their first pages (a store into a
    first page is not noticed), every store returns and is noticed through the
    page faults.  When the modified pages of an object then form at most five
    chunks, the entry fits into the log and the content at the previous put had
    the length of the block, the next put of the object appends an entry whose
    chunks, copied over that content, give the current content, whatever was
    stored in between; and tracking goes on from there. *)
Theorem delta_put_reconstructs e key v l s base :
  delta_inv s -> soft_ok (ds_log (dstore s)) -> tracked s base -> Forall (store_ok s) l ->
  lehdr_wf (de_hdrs e 0) -> fits 64 v ->
  exists s1, app_stores l s = Ret tt s1 /\
  forall o b, sm_find key (ds_objectMap (dstore s1)) = Some o -> d_heap s1 !! o_ptr o = Some b ->
    length (base key) = length b -> (length (chunks e o) <= 5)%nat ->
    room (ds_log (dstore s)) (136 + total_len (chunks e o)) = true ->
    exists s2, put e key v s1 = Ret (136 + total_len (chunks e o)) s2 /\
      let w := write_offset (ds_log (dstore s)) in
      let h := read_lehdr (pview (d_pm s2)) w in
      version h = v /\ type h = HdrType_code delta /\ len h = o_size o /\
      take (Z.to_nat (o_size o)) (apply_deltas (deltas h) (delta_len h)
        (mread (pview (d_pm s2)) (w + 136) (delta_len h)) (base key)) = take (Z.to_nat (o_size o)) b /\
      delta_inv s2 /\ tracked s2 (rebase base key b).
Proof.
  intros Hinv Hsoft Ht Hok Hg Hv.
  destruct (app_stores_tracked l s base Hinv Ht Hok) as (s1 & Hrun & Hi1 & Ht1 & Hlog & _).
  exists s1. split; [done|]. intros o b Hk Hb Hlen Hc Hroom.
  assert (ds_log (dstore s1) = ds_log (dstore s)) as El by by injection Hlog.
  destruct (di_objs _ Hi1 key o Hk) as (Hwf & _ & _ & _ & _ & b' & Hb' & Hl).
  assert (b' = b) as -> by congruence.
  rewrite <- El in Hsoft, Hroom |- *.
  destruct (delta_put_run e key v s1 o b) as (s2 & Hput & Hi2 & Ht2 & Hview & _); try done.
  exists s2. split; [done|]. cbv zeta. rewrite Hview.
  destruct (put_entry_at e v o b (pview (d_pm s1)) (write_offset (ds_log (dstore s1))) Hwf Hl Hg Hv)
    as [-> Hdata]; [by apply (so_write _ Hsoft)|].
  split; [done|]. split; [done|]. split; [done|]. split; [|by auto].
  destruct (chunks_ok e o b Hwf Hl) as (_ & C2 & _ & C4).
  simpl delta_len. rewrite Hdata. simpl deltas.
  rewrite set_deltas_table by (rewrite (wf_deltas_len _ Hg); unfold MAX_DELTAS; lia). rewrite take_0.
  simpl app. apply list_eq. intros j.
  destruct (decide (j < Z.to_nat (o_size o))%nat) as [Hj|Hj].
  2: { rewrite !lookup_take_ge by lia. done. }
  rewrite !lookup_take_lt by lia.
  destruct (apply_deltas_lookup b (drop (length (chunks e o)) (deltas (de_hdrs e 0))) []
    (chunks e o) (base key) j Hlen C2) as [A1 A2]. rewrite app_nil_r in A1, A2.
  destruct (get_delta_chunks_cover o (de_start0 e) (de_len0 e) Hwf) as [_ Hcov].
  specialize (Hcov (Z.of_nat j) ltac:(lia)).
  destruct (page_bit (o_bitset o) (Z.of_nat j / PAGE_SIZE)) eqn:Ebit.
  - apply A1. by apply Hcov.
  - rewrite A2 by (intros H; by apply Hcov in H).
    destruct Hwf as [_ _ Hal].
    destruct (Ht1 key o b Hk Hb (Z.of_nat j) ltac:(lia) Ebit) as [_ Hy].
    unfold byte_at in Hy. by rewrite Nat2Z.id in Hy.
Qed.

(** * What the delta store loses *)

Lemma clean_no_chunks bits size : forall l g,
  Forall (fun i => nth i bits false = false) l -> g_status g = false ->
  foldl (gdc_step bits size) g l = g.
Proof.
  induction l as [|i l IH]; intros g Hb Hg; [done|]. apply Forall_cons in Hb as [Hi Hb].
  simpl. replace (gdc_step bits size g i) with g; [by apply IH|].
  unfold gdc_step. rewrite Hi. simpl. by rewrite Hg.
Qed.

Lemma clean_chunks e o : (forall j, page_bit (o_bitset o) j = false) -> chunks e o = [].
Proof.
  intros H. unfold chunks, get_delta_chunks. rewrite clean_no_chunks; [done| |done].
  apply Forall_forall. intros i _. specialize (H (Z.of_nat i)). unfold page_bit in H.
  by rewrite Nat2Z.id in H.
Qed.

Lemma first_page_bit o : set_modified_bit 0 o = o.
Proof. done. Qed.

(** A store to the first page of an object is lost.  After a put has cleaned
    the object, a store to its first 4096 bytes returns (the handler lifts the
    protection) but set_modified_bit ignores page 0; the next put returns
    success and logs a header and no data, although the content has changed. *)
Theorem delta_first_page_lost e key v s o b off x :
  delta_inv s -> soft_ok (ds_log (dstore s)) -> sm_find key (ds_objectMap (dstore s)) = Some o ->
  d_heap s !! o_ptr o = Some b -> (forall j, page_bit (o_bitset o) j = false) ->
  0 <= off < PAGE_SIZE -> off < o_aligned_size o -> lehdr_wf (de_hdrs e 0) -> fits 64 v ->
  room (ds_log (dstore s)) 136 = true ->
  exists s1 s2, app_store (o_ptr o) off x s = Ret tt s1 /\
    d_heap s1 !! o_ptr o = Some (<[Z.to_nat off := x]> b) /\
    put e key v s1 = Ret 136 s2 /\
    write_offset (ds_log (dstore s2)) = write_offset (ds_log (dstore s)) + 136 + 8 /\
    delta_len (read_lehdr (pview (d_pm s2)) (write_offset (ds_log (dstore s)))) = 0.
Proof.
  intros Hinv Hsoft Hk Hb Hclean Hoff Hoa Hg Hv Hroom.
  destruct (di_objs _ Hinv key o Hk) as (Hwf & _ & _ & _ & _ & b' & Hb' & Hl).
  assert (b' = b) as -> by congruence.
  pose proof (app_store_run s key o off x b Hinv Hk ltac:(lia) Hb) as Hrun.
  rewrite poke_byte_insert in Hrun by lia.
  set (s1 := set_dheap _ _) in Hrun.
  assert (d_heap s1 !! o_ptr o = Some (<[Z.to_nat off := x]> b)) as Hb1 by apply lookup_insert_eq.
  assert (ds_log (dstore s1) = ds_log (dstore s)) as El.
  { unfold s1, faulted. by case_bool_decide. }
  assert (sm_find key (ds_objectMap (dstore s1)) = Some o) as Hk1.
  { unfold s1, faulted. case_bool_decide; [|done]. simpl.
    replace (o_ptr o + off - o_ptr o) with off by lia.
    replace (page_no off) with 0 by (unfold page_no, PAGE_SIZE in *; by rewrite Z.div_small by lia).
    rewrite sm_find_set_eq. by rewrite first_page_bit. }
  assert (delta_inv s1) as Hi1.
  { unfold s1. assert (d_heap (faulted key o off s) = d_heap s) as Hh.
    { unfold faulted. by case_bool_decide. }
    rewrite <- Hh. apply (delta_inv_heap _ _ b); [|by rewrite Hh | by rewrite length_insert].
    unfold faulted. case_bool_decide; [by apply handled_inv | done]. }
  pose proof (clean_chunks e o Hclean) as Hc.
  destruct (delta_put_run e key v s1 o (<[Z.to_nat off := x]> b)) as (s2 & Hput & _ & _ & Hview & _ & Hwo & _);
    rewrite ?El, ?Hc; try done; [simpl; lia|].
  rewrite Hc in Hput, Hwo. rewrite El in Hwo, Hview. exists s1, s2. split_and!; try done.
  - rewrite Hwo. simpl. lia.
  - rewrite Hview. destruct (put_entry_at e v o (<[Z.to_nat off := x]> b) (pview (d_pm s1))
      (write_offset (ds_log (dstore s))) Hwf) as [-> _]; try done.
    + by rewrite length_insert.
    + by apply (so_write _ Hsoft).
    + simpl. by rewrite Hc.
Qed.

(** A walk that meets a delta entry first has no defined result. *)
Lemma walk_delta_first s w :
  head (read_lhdr (pview (d_pm s))) = 32 -> 32 < tail (read_lhdr (pview (d_pm s))) ->
  168 <= mapped_len (ds_log (dstore s)) ->
  type (read_lehdr (pview (d_pm s)) 32) = HdrType_code delta ->
  run_dwalk w s = Undef s.
Proof.
  intros Hh Ht Hm Hty. unfold run_dwalk, walk. rewrite Hh.
  rewrite (proj2 (Z.leb_gt _ _)) by lia. unfold walk_fuel. cbn [walk_loop].
  rewrite (proj2 (Z.ltb_lt _ _)) by lia. unfold guard_ub at 1. unfold mbind at 1, M_bind at 1.
  unfold sizeof_lehdr. rewrite (proj2 (Z.leb_le _ _)) by lia.
  unfold process_chunks. cbv zeta. rewrite Hty. munfold. simpl. done.
Qed.

(** The delta store cannot read its own log.  After the first put on an empty
    log, get_with_malloc of any key and version reaches the branch of
    process_chunks for delta entries, which leaves the function without a
    value; get has no return statement at all. *)
Theorem delta_read_undefined e key v s o b e' key' v' addr :
  delta_inv s -> log_inv (get_dlog s) [] -> sm_find key (ds_objectMap (dstore s)) = Some o ->
  d_heap s !! o_ptr o = Some b -> lehdr_wf (de_hdrs e 0) -> fits 64 v ->
  (length (chunks e o) <= 5)%nat -> room (ds_log (dstore s)) (136 + total_len (chunks e o)) = true ->
  exists s', put e key v s = Ret (136 + total_len (chunks e o)) s' /\
    get_with_malloc e' key' v' s' = Undef s' /\ get key' v' addr s' = Undef s'.
Proof.
  intros Hinv [Hsoft Hrep Hw] Hk Hb Hg Hv Hc Hroom. simpl in Hw, Hsoft, Hrep.
  change (32 + Z.of_nat 0) with 32 in Hw.
  destruct (di_objs _ Hinv key o Hk) as (Hwf & _ & _ & _ & _ & b' & Hb' & Hl).
  assert (b' = b) as -> by congruence.
  destruct (delta_put_run e key v s o b) as (s' & Hput & _ & _ & Hview & Hml & _ & _); try done.
  destruct (chunks_ok e o b Hwf Hl) as (_ & C2 & _ & C4).
  pose proof (put_hdr_wf e v o b Hwf Hl Hg Hv) as Hhw.
  pose proof (length_slices b _ C2) as Hsl. pose proof Hwf as [W1 W2 W3].
  unfold room, WORD_LENGTH in Hroom. bcases. pose proof (so_end _ Hsoft). pose proof (so_mapped _ Hsoft).
  rewrite Hw in Hview, Hroom.
  destruct (put_entry_at e v o b (pview (d_pm s)) 32 Hwf Hl Hg Hv) as [Hhdr _]; [lia|].
  assert (Z.of_nat (length (lehdr_bytes (put_hdr e v o) ++ List.concat (slice b <$> chunks e o))) =
    136 + total_len (chunks e o)) as Hlen.
  { rewrite length_app, length_lehdr_bytes by done. lia. }
  exists s'. split; [done|]. split; [|done]. unfold get_with_malloc.
  erewrite bind_Undef; [done|]. apply walk_delta_first.
  - rewrite Hview, appended_header by (rewrite ?Hlen; lia). simpl. apply Hrep.
  - rewrite Hview, appended_header by (rewrite ?Hlen; lia). simpl. rewrite Hlen. lia.
  - rewrite Hml. lia.
  - rewrite Hview, Hhdr. done.
Qed.

(** * The theorems at concrete inputs *)

Definition delta_env : DeltaEnv :=
  mkDeltaEnv None 0 [] (fun _ => demo_garbage) 0 0 (mkDwalk demo_wentry 0 []).

(** An object of 4100 bytes on two pages at 8192, as a put leaves it. *)
Definition delta_obj : Object := reset_bit_vector (new_Object true key_a 4100 1 8192).
Definition delta_block : bytes := replicate 8192 NUL.

Definition demo_delta : DeltaSt :=
  mkDSt (mkDS [] (lsoft demo_log) [(key_a, delta_obj)] ∅) (lpm demo_log) {[8192 := delta_block]} {[2; 3]}.

Definition demo_base : bytes -> bytes := fun _ => delta_block.

Lemma demo_delta_find k o :
  sm_find k (ds_objectMap (dstore demo_delta)) = Some o -> k = key_a /\ o = delta_obj.
Proof. simpl. destruct (decide (k = key_a)) as [->|]; [by intros [= <-] | done]. Qed.

Lemma demo_delta_inv : delta_inv demo_delta.
Proof.
  constructor; [by repeat constructor | |].
  - intros k o [-> ->]%demo_delta_find. split; [apply reset_bit_vector_wf, new_Object_wf; lia|].
    split_and!; try (vm_compute; reflexivity). by exists delta_block.
  - intros k k' o o' [-> ->]%demo_delta_find [-> ->]%demo_delta_find. done.
Qed.

Lemma demo_delta_clean j : page_bit (o_bitset delta_obj) j = false.
Proof.
  unfold page_bit. change (o_bitset delta_obj) with [false; false].
  destruct (Z.to_nat j) as [|[|[|n]]]; done.
Qed.

Lemma demo_delta_tracked : tracked demo_delta demo_base.
Proof.
  intros k o b [-> ->]%demo_delta_find Hb j Hj _. change (o_ptr delta_obj) with 8192 in *.
  change (o_aligned_size delta_obj) with 8192 in Hj. simpl in Hb. injection Hb as <-. split; [|done].
  simpl. rewrite page_no_add by done. change (page_no 8192) with 2.
  assert (page_no j = 0 \/ page_no j = 1) as [-> | ->]; [|set_solver..].
  unfold page_no, PAGE_SIZE in *. pose proof (Z.div_pos j 4096 ltac:(lia) ltac:(lia)).
  pose proof (Z.div_lt_upper_bound j 4096 2 ltac:(lia) ltac:(lia)). lia.
Qed.

Lemma demo_soft : soft_ok (lsoft demo_log).
Proof. apply demo_log_inv. Qed.

Lemma delta_put_reconstructs_witness :
  exists s1, app_stores [(key_a, 4097, Byte.x01)] demo_delta = Ret tt s1 /\
  forall o b, sm_find key_a (ds_objectMap (dstore s1)) = Some o -> d_heap s1 !! o_ptr o = Some b ->
    length delta_block = length b -> (length (chunks delta_env o) <= 5)%nat ->
    room (lsoft demo_log) (136 + total_len (chunks delta_env o)) = true ->
    exists s2, put delta_env key_a 2 s1 = Ret (136 + total_len (chunks delta_env o)) s2 /\
      let w := write_offset (lsoft demo_log) in
      let h := read_lehdr (pview (d_pm s2)) w in
      version h = 2 /\ type h = HdrType_code delta /\ len h = o_size o /\
      take (Z.to_nat (o_size o)) (apply_deltas (deltas h) (delta_len h)
        (mread (pview (d_pm s2)) (w + 136) (delta_len h)) delta_block) = take (Z.to_nat (o_size o)) b /\
      delta_inv s2 /\ tracked s2 (rebase demo_base key_a b).
Proof.
  apply (delta_put_reconstructs delta_env key_a 2 [(key_a, 4097, Byte.x01)] demo_delta demo_base).
  - exact demo_delta_inv.
  - exact demo_soft.
  - exact demo_delta_tracked.
  - repeat constructor. exists (8192, 4100, 8192). split; [reflexivity|]. unfold PAGE_SIZE. simpl. lia.
  - exact demo_garbage_wf.
  - split; [lia | reflexivity].
Defined.

(** The inner hypotheses of the previous statement hold in this run. *)
Lemma demo_delta_run :
  match app_stores [(key_a, 4097, Byte.x01)] demo_delta with
  | Ret _ s1 => match sm_find key_a (ds_objectMap (dstore s1)) with
                | Some o => (length (chunks delta_env o) <=? 5)%nat &&
                            room (lsoft demo_log) (136 + total_len (chunks delta_env o)) &&
                            (total_len (chunks delta_env o) =? 4)
                | None => false
                end
  | _ => false
  end = true.
Proof. vm_compute. reflexivity. Qed.

Lemma delta_first_page_lost_witness :
  exists s1 s2, app_store 8192 7 Byte.x01 demo_delta = Ret tt s1 /\
    d_heap s1 !! 8192 = Some (<[Z.to_nat 7 := Byte.x01]> delta_block) /\
    put delta_env key_a 2 s1 = Ret 136 s2 /\
    write_offset (ds_log (dstore s2)) = write_offset (lsoft demo_log) + 136 + 8 /\
    delta_len (read_lehdr (pview (d_pm s2)) (write_offset (lsoft demo_log))) = 0.
Proof.
  apply (delta_first_page_lost delta_env key_a 2 demo_delta delta_obj delta_block 7 Byte.x01).
  - exact demo_delta_inv.
  - exact demo_soft.
  - reflexivity.
  - reflexivity.
  - exact demo_delta_clean.
  - unfold PAGE_SIZE. lia.
  - reflexivity.
  - exact demo_garbage_wf.
  - split; [lia | reflexivity].
  - vm_compute. reflexivity.
Defined.

Lemma delta_read_undefined_witness :
  exists s', put delta_env key_a 2 demo_delta = Ret (136 + total_len (chunks delta_env delta_obj)) s' /\
    get_with_malloc delta_env key_b 9 s' = Undef s' /\ get key_b 9 0 s' = Undef s'.
Proof.
  apply (delta_read_undefined delta_env key_a 2 demo_delta delta_obj delta_block delta_env key_b 9 0).
  - exact demo_delta_inv.
  - exact demo_log_inv.
  - reflexivity.
  - reflexivity.
  - exact demo_garbage_wf.
  - split; [lia | reflexivity].
  - vm_compute. lia.
  - vm_compute. reflexivity.
Defined.
