(* ===== verification/Crc.v ===== *)
(** The checksums of src/fio/crc that fio's verify step uses: crc7.c, crc16.c,
    crc32.c, crc32c.c (software version) and crc64.c, each one table lookup per
    byte, against the bit-serial definition of a CRC by its polynomial.

    A buffer is the list of its bytes; a lookup outside a table has no value. *)
From Stdlib Require Import Btauto.
From S2P Require Import Prelude CrcTables.

(** The value of a byte, [unsigned char]. *)
Abbreviation ub := byte.unsigned.

Definition table_at (t : list Z) (i : Z) : option Z :=
  if 0 <=? i then t !! Z.to_nat i else None.

(** [while (len--) crc = step(crc, *buffer++)]. *)
Fixpoint crc_loop (step : Z -> Z -> option Z) (crc : Z) (buffer : bytes) : option Z :=
  match buffer with
  | [] => Some crc
  | b :: buffer' => crc' ← step crc (ub b); crc_loop step crc' buffer'
  end.

Definition crc7_byte (crc data : Z) : option Z :=
  table_at crc7_syndrome_table (Z.lxor (Z.shiftl crc 1) data).

Definition fio_crc7 (buffer : bytes) : option Z := crc_loop crc7_byte 0 buffer.

Definition crc16_byte (crc data : Z) : option Z :=
  t ← table_at crc16_table (Z.land (Z.lxor crc data) 0xff);
  Some (Z.lxor (Z.shiftr crc 8) t).

Definition fio_crc16 (buffer : bytes) : option Z := crc_loop crc16_byte 0 buffer.

Definition crc32_byte (crc data : Z) : option Z :=
  t ← table_at crctab (Z.land (Z.lxor (Z.shiftr crc 24) data) 0xFF);
  Some (Z.lxor (u32 (Z.shiftl crc 8)) t).

Definition fio_crc32 (buffer : bytes) : option Z := crc_loop crc32_byte 0 buffer.

Definition crc32c_byte (crc data : Z) : option Z :=
  t ← table_at crc32c_table (Z.land (Z.lxor crc data) 0xFF);
  Some (Z.lxor t (Z.shiftr crc 8)).

Definition crc32c_sw (data : bytes) : option Z := crc_loop crc32c_byte (u32 (Z.lnot 0)) data.

Definition crc64_byte (crc data : Z) : option Z :=
  t ← table_at crctab64 (Z.land (Z.lxor crc data) 0xff);
  Some (Z.lxor t (Z.shiftr crc 8)).

Definition fio_crc64 (buffer : bytes) : option Z := crc_loop crc64_byte 0 buffer.

(** * The definition of a CRC: a feedback shift register over the message bits *)

(** Most significant bit first. *)
Definition msb_bit (w poly c : Z) (d : bool) : Z :=
  Z.lxor (Z.land (Z.shiftl c 1) (Z.ones w)) (if xorb (Z.testbit c (w - 1)) d then poly else 0).

(** Least significant bit first (reflected polynomial). *)
Definition lsb_bit (poly c : Z) (d : bool) : Z :=
  Z.lxor (Z.shiftr c 1) (if xorb (Z.testbit c 0) d then poly else 0).

Definition bits_msb (b : Z) : list bool := (fun i => Z.testbit b (7 - i)) <$> seqZ 0 8.
Definition bits_lsb (b : Z) : list bool := (fun i => Z.testbit b i) <$> seqZ 0 8.

Definition message_bits (bits : Z -> list bool) (buffer : bytes) : list bool :=
  List.concat ((fun b => bits (ub b)) <$> buffer).

Definition crc_msb (w poly init : Z) (buffer : bytes) : Z :=
  foldl (msb_bit w poly) init (message_bits bits_msb buffer).
Definition crc_lsb (poly init : Z) (buffer : bytes) : Z :=
  foldl (lsb_bit poly) init (message_bits bits_lsb buffer).

Example crc_check_values :
  let s := byte.of_Z <$> [49; 50; 51; 52; 53; 54; 55; 56; 57] in
  fio_crc7 s = Some 0x75 /\ fio_crc16 s = Some 0xBB3D /\ fio_crc32 s = Some 0x89a1897f /\
  crc32c_sw s = Some (Z.lxor 0xE3069283 0xffffffff).
Proof. vm_compute. done. Qed.

(** * Linearity *)

(** A register whose step is linear over exclusive or. *)
Class LinearStep (step : Z -> bool -> Z) : Prop :=
  step_xor : forall c1 c2 d1 d2,
    step (Z.lxor c1 c2) (xorb d1 d2) = Z.lxor (step c1 d1) (step c2 d2).

Ltac xor_bits :=
  apply Z.bits_inj'; intros ? ?;
  rewrite ?Z.lxor_spec, ?Z.land_spec, ?Z.shiftr_spec, ?Z.shiftl_spec, ?Z.bits_0 by lia;
  rewrite ?Z.lxor_spec.

#[global] Instance msb_bit_linear w poly : LinearStep (msb_bit w poly).
Proof.
  intros c1 c2 d1 d2. unfold msb_bit. rewrite Z.lxor_spec.
  destruct (Z.testbit c1 (w - 1)), (Z.testbit c2 (w - 1)), d1, d2; xor_bits; simpl; btauto.
Qed.

#[global] Instance lsb_bit_linear poly : LinearStep (lsb_bit poly).
Proof.
  intros c1 c2 d1 d2. unfold lsb_bit. rewrite Z.lxor_spec.
  destruct (Z.testbit c1 0), (Z.testbit c2 0), d1, d2; xor_bits; simpl; btauto.
Qed.

Lemma feed_linear step `{!LinearStep step} z1 z2 c1 c2 :
  length z1 = length z2 ->
  foldl step (Z.lxor c1 c2) (zip_with xorb z1 z2) = Z.lxor (foldl step c1 z1) (foldl step c2 z2).
Proof.
  revert z2 c1 c2. induction z1 as [|d1 z1 IH]; intros [|d2 z2] c1 c2; try done.
  intros [= Hl]. simpl. rewrite step_xor. by apply IH.
Qed.

Lemma bits_xor (f : Z -> Z) b1 b2 (l : list Z) :
  (fun i => Z.testbit (Z.lxor b1 b2) (f i)) <$> l =
  zip_with xorb ((fun i => Z.testbit b1 (f i)) <$> l) ((fun i => Z.testbit b2 (f i)) <$> l).
Proof. induction l; csimpl; [done|]. by rewrite Z.lxor_spec, IHl. Qed.

Lemma feed_byte_linear step `{!LinearStep step} (f : Z -> Z) b1 b2 c1 c2 :
  let bits := fun b => (fun i => Z.testbit b (f i)) <$> seqZ 0 8 in
  foldl step (Z.lxor c1 c2) (bits (Z.lxor b1 b2)) =
  Z.lxor (foldl step c1 (bits b1)) (foldl step c2 (bits b2)).
Proof. cbv zeta beta. rewrite bits_xor. apply feed_linear; [done|]. by rewrite !length_fmap. Qed.

(** * One table lookup is eight steps of the register *)

Definition byte_range : list Z := seqZ 0 256.

Lemma byte_range_spec (P : Z -> bool) b :
  forallb P byte_range = true -> 0 <= b < 256 -> P b = true.
Proof.
  intros H Hb. apply (proj1 (forallb_forall P byte_range) H).
  apply list_elem_of_In, elem_of_seqZ. lia.
Qed.

(** The table of a reflected CRC, entry by entry: state [i] and no input gives
    the entry, and a byte equal to the state cancels it. *)
Definition lsb_table_ok (poly : Z) (t : list Z) : bool :=
  forallb (fun i =>
    bool_decide (table_at t i = Some (foldl (lsb_bit poly) i (bits_lsb 0))) &&
    (foldl (lsb_bit poly) i (bits_lsb i) =? 0)) byte_range.

Lemma lsb_shift_out poly h : foldl (lsb_bit poly) (Z.shiftl h 8) (bits_lsb 0) = h.
Proof.
  change (bits_lsb 0) with (replicate 8 false). cbn [replicate foldl].
  assert (forall a k, 0 <= k -> a = k + 1 ->
    lsb_bit poly (Z.shiftl h a) false = Z.shiftl h k) as Hk.
  { intros a k Hk ->. unfold lsb_bit. rewrite Z.shiftl_spec_low by lia. simpl.
    rewrite Z.lxor_0_r, Z.shiftr_shiftl_l by lia. f_equal. lia. }
  rewrite (Hk 8 7), (Hk 7 6), (Hk 6 5), (Hk 5 4), (Hk 4 3), (Hk 3 2), (Hk 2 1), (Hk 1 0) by lia.
  apply Z.shiftl_0_r.
Qed.

Lemma lsb_byte_table poly t c b :
  lsb_table_ok poly t = true -> 0 <= b < 256 ->
  exists v, table_at t (Z.land (Z.lxor c b) 255) = Some v /\
            foldl (lsb_bit poly) c (bits_lsb b) = Z.lxor v (Z.shiftr c 8).
Proof.
  intros Ht Hb. set (low := Z.land c 255).
  assert (forall x, 0 <= Z.land x 255 < 256) as Hland.
  { intros x. change 255 with (Z.ones 8). rewrite Z.land_ones by lia. apply Z.mod_pos_bound. lia. }
  assert (Z.land (Z.lxor c b) 255 = Z.lxor low b) as Hi.
  { unfold low. replace b with (Z.land b 255) at 2.
    - xor_bits. btauto.
    - change 255 with (Z.ones 8). rewrite Z.land_ones by lia. by apply Z.mod_small. }
  pose proof (byte_range_spec _ (Z.land (Z.lxor c b) 255) Ht (Hland _)) as H1. cbv beta in H1.
  pose proof (byte_range_spec _ b Ht Hb) as H2. cbv beta in H2.
  apply andb_true_iff in H1 as [H1%bool_decide_eq_true _]. apply andb_true_iff in H2 as [_ H2%Z.eqb_eq].
  eexists. split; [exact H1|]. rewrite Hi.
  replace c with (Z.lxor (Z.shiftl (Z.shiftr c 8) 8) low) at 1.
  2:{ unfold low. change 255 with (Z.ones 8). rewrite <- Z.ldiff_ones_r by lia. xor_bits.
      rewrite Z.ldiff_spec. btauto. }
  replace b with (Z.lxor 0 b) at 1 by apply Z.lxor_0_l.
  unfold bits_lsb. rewrite (feed_byte_linear _ (fun i => i)). fold (bits_lsb 0) (bits_lsb b).
  rewrite lsb_shift_out, Z.lxor_comm. f_equal.
  replace low with (Z.lxor (Z.lxor low b) b) at 1 by by rewrite Z.lxor_assoc, Z.lxor_nilpotent, Z.lxor_0_r.
  replace b with (Z.lxor 0 b) at 3 by apply Z.lxor_0_l.
  unfold bits_lsb. rewrite (feed_byte_linear _ (fun i => i)). fold (bits_lsb b).
  by rewrite H2, Z.lxor_0_r.
Qed.

(** The table of a CRC of width [w], most significant bit first: the state has
    [i] in its top byte. *)
Definition msb_table_ok (w poly : Z) (t : list Z) : bool :=
  forallb (fun i =>
    bool_decide (table_at t i = Some (foldl (msb_bit w poly) (Z.shiftl i (w - 8)) (bits_msb 0))) &&
    (foldl (msb_bit w poly) (Z.shiftl i (w - 8)) (bits_msb i) =? 0)) byte_range.

Lemma testbit_small n z : 0 <= z < 2 ^ n -> Z.testbit z n = false.
Proof.
  intros [Hz Hn]. destruct (decide (z = 0)) as [->|]; [apply Z.bits_0|].
  apply Z.bits_above_log2; [done|]. apply Z.log2_lt_pow2; lia.
Qed.

Lemma msb_shift_up w poly low :
  8 <= w -> 0 <= low < 2 ^ (w - 8) ->
  foldl (msb_bit w poly) low (bits_msb 0) = Z.shiftl low 8.
Proof.
  intros Hw Hlow. change (bits_msb 0) with (replicate 8 false). cbn [replicate foldl].
  assert (forall k a, 0 <= k < 8 -> a = k + 1 ->
    msb_bit w poly (Z.shiftl low k) false = Z.shiftl low a) as Hk.
  { intros k a Hk ->. unfold msb_bit.
    assert (0 <= Z.shiftl low k < 2 ^ (w - 1)) as Hb.
    { rewrite Z.shiftl_mul_pow2 by lia.
      assert (2 ^ (w - 1) = 2 ^ (w - 8) * 2 ^ 7) as E by (rewrite <- Z.pow_add_r by lia; f_equal; lia).
      assert (2 ^ k <= 2 ^ 7) by (apply Z.pow_le_mono_r; lia). rewrite E. nia. }
    rewrite (testbit_small (w - 1)) by lia.
    simpl. rewrite Z.lxor_0_r, Z.shiftl_shiftl, Z.land_ones by lia. apply Z.mod_small.
    assert (2 ^ w = 2 * 2 ^ (w - 1)) as -> by (rewrite <- Z.pow_succ_r by lia; f_equal; lia).
    replace (Z.shiftl low (k + 1)) with (Z.shiftl low k * 2); [lia|].
    rewrite !Z.shiftl_mul_pow2, Z.pow_add_r by lia. lia. }
  rewrite <- (Z.shiftl_0_r low) at 1.
  rewrite (Hk 0 1), (Hk 1 2), (Hk 2 3), (Hk 3 4), (Hk 4 5), (Hk 5 6), (Hk 6 7), (Hk 7 8) by lia.
  done.
Qed.

Lemma msb_byte_table w poly t c b :
  8 <= w -> msb_table_ok w poly t = true -> 0 <= b < 256 -> 0 <= c < 2 ^ w ->
  exists v, table_at t (Z.land (Z.lxor (Z.shiftr c (w - 8)) b) 255) = Some v /\
            foldl (msb_bit w poly) c (bits_msb b) = Z.lxor (Z.land (Z.shiftl c 8) (Z.ones w)) v.
Proof.
  intros Hw Ht Hb Hc. set (top := Z.shiftr c (w - 8)). set (low := Z.land c (Z.ones (w - 8))).
  assert (0 <= top < 256) as Htop.
  { unfold top. rewrite Z.shiftr_div_pow2 by lia.
    assert (2 ^ w = 256 * 2 ^ (w - 8)) as E.
    { change 256 with (2 ^ 8). rewrite <- Z.pow_add_r by lia. f_equal. lia. }
    split; [apply Z.div_pos; lia|]. apply Z.div_lt_upper_bound; lia. }
  assert (Z.land (Z.lxor top b) 255 = Z.lxor top b) as Hi.
  { replace b with (Z.land b 255) at 2; [replace top with (Z.land top 255) at 2; [xor_bits; btauto|]|];
      change 255 with (Z.ones 8); rewrite Z.land_ones by lia; by apply Z.mod_small. }
  assert (0 <= Z.lxor top b < 256) as Hr.
  { rewrite <- Hi. change 255 with (Z.ones 8). rewrite Z.land_ones by lia. apply Z.mod_pos_bound. lia. }
  rewrite Hi. pose proof (byte_range_spec _ _ Ht Hr) as H1. cbv beta in H1.
  pose proof (byte_range_spec _ b Ht Hb) as H2. cbv beta in H2.
  apply andb_true_iff in H1 as [H1%bool_decide_eq_true _]. apply andb_true_iff in H2 as [_ H2%Z.eqb_eq].
  eexists. split; [exact H1|].
  assert (0 <= low < 2 ^ (w - 8)) as Hlow.
  { unfold low. rewrite Z.land_ones by lia. apply Z.mod_pos_bound. lia. }
  replace c with (Z.lxor low (Z.shiftl top (w - 8))) at 1.
  2:{ unfold low, top. rewrite <- Z.ldiff_ones_r by lia. xor_bits. rewrite Z.ldiff_spec. btauto. }
  replace b with (Z.lxor 0 b) at 1 by apply Z.lxor_0_l.
  unfold bits_msb. rewrite (feed_byte_linear _ (fun i => 7 - i)). fold (bits_msb 0) (bits_msb b).
  rewrite msb_shift_up by done. f_equal.
  - unfold low. apply Z.bits_inj'. intros n Hn. rewrite Z.land_spec.
    destruct (decide (n < 8)); [by rewrite !Z.shiftl_spec_low|].
    rewrite !Z.shiftl_spec, Z.land_spec by lia. f_equal.
    destruct (decide (n < w)).
    + rewrite !Z.ones_spec_low by lia. done.
    + rewrite !Z.ones_spec_high by lia. done.
  - replace top with (Z.lxor (Z.lxor top b) b) at 1
      by by rewrite Z.lxor_assoc, Z.lxor_nilpotent, Z.lxor_0_r.
    rewrite Z.shiftl_lxor. replace b with (Z.lxor 0 b) at 3 by apply Z.lxor_0_l.
    unfold bits_msb. rewrite (feed_byte_linear _ (fun i => 7 - i)). fold (bits_msb b).
    by rewrite H2, Z.lxor_0_r.
Qed.

(** * The byte loops *)

Lemma crc_loop_ok (step : Z -> Z -> option Z) (bitstep : Z -> bool -> Z) bits (Inv : Z -> Prop) :
  (forall c b, Inv c -> 0 <= b < 256 ->
     step c b = Some (foldl bitstep c (bits b)) /\ Inv (foldl bitstep c (bits b))) ->
  forall buffer c, Inv c ->
    crc_loop step c buffer = Some (foldl bitstep c (message_bits bits buffer)).
Proof.
  intros Hstep. induction buffer as [|b buffer IH]; intros c Hc; [done|].
  destruct (Hstep c (ub b) Hc) as [E HI]; [pose proof (byte.unsigned_range b); lia|].
  simpl. rewrite E. simpl. rewrite (IH _ HI). unfold message_bits. rewrite fmap_cons. simpl.
  by rewrite foldl_app.
Qed.

Lemma lsb_loop_ok step poly t buffer c :
  lsb_table_ok poly t = true ->
  (forall c b v, table_at t (Z.land (Z.lxor c b) 255) = Some v ->
     step c b = Some (Z.lxor v (Z.shiftr c 8))) ->
  crc_loop step c buffer = Some (crc_lsb poly c buffer).
Proof.
  intros Ht Hs. apply (crc_loop_ok _ _ _ (fun _ => True)); [|done].
  intros c' b _ Hb. split; [|done].
  destruct (lsb_byte_table poly t c' b Ht Hb) as (v & Hv & ->). by apply Hs.
Qed.

Lemma lxor_range w a b : 0 <= w -> 0 <= a < 2 ^ w -> 0 <= b < 2 ^ w -> 0 <= Z.lxor a b < 2 ^ w.
Proof.
  intros Hw Ha Hb. replace (Z.lxor a b) with (Z.land (Z.lxor a b) (Z.ones w)).
  - rewrite Z.land_ones by done. apply Z.mod_pos_bound. lia.
  - rewrite <- (Z.mod_small a (2 ^ w)) at 2 by lia. rewrite <- (Z.mod_small b (2 ^ w)) at 2 by lia.
    rewrite <- !Z.land_ones by done. xor_bits. btauto.
Qed.

Lemma msb_bit_range w poly c d :
  0 <= w -> 0 <= poly < 2 ^ w -> 0 <= msb_bit w poly c d < 2 ^ w.
Proof.
  intros Hw Hp. unfold msb_bit. apply lxor_range; [done| |].
  - rewrite Z.land_ones by done. apply Z.mod_pos_bound. lia.
  - destruct (xorb _ _); [done | lia].
Qed.

Lemma msb_feed_range w poly bits c :
  0 <= w -> 0 <= poly < 2 ^ w -> 0 <= c < 2 ^ w -> 0 <= foldl (msb_bit w poly) c bits < 2 ^ w.
Proof.
  intros Hw Hp. revert c. induction bits as [|d bits IH]; intros c Hc; [done|].
  apply IH. by apply msb_bit_range.
Qed.

Lemma crc32_byte_ok c b :
  0 <= c < 2 ^ 32 -> 0 <= b < 256 ->
  crc32_byte c b = Some (foldl (msb_bit 32 0x04C11DB7) c (bits_msb b)).
Proof.
  intros Hc Hb.
  assert (msb_table_ok 32 0x04C11DB7 crctab = true) as Ht by by vm_compute.
  destruct (msb_byte_table 32 0x04C11DB7 crctab c b ltac:(lia) Ht Hb Hc) as (v & Hv & ->).
  unfold crc32_byte. change 0xFF with 255. change (32 - 8) with 24 in Hv. rewrite Hv. simpl.
  unfold u32. by rewrite <- Z.land_ones.
Qed.

(** All of the 128 states and 256 bytes. *)
Lemma crc7_byte_ok c b :
  0 <= c < 2 ^ 7 -> 0 <= b < 256 ->
  crc7_byte c b = Some (foldl (msb_bit 7 0x09) c (bits_msb b)).
Proof.
  intros Hc Hb.
  assert (forallb (fun b => forallb (fun c => (128 <=? c) ||
    bool_decide (crc7_byte c b = Some (foldl (msb_bit 7 0x09) c (bits_msb b)))) byte_range)
    byte_range = true) as H by by vm_compute.
  pose proof (byte_range_spec _ b H Hb) as H1. cbv beta in H1.
  pose proof (byte_range_spec _ c H1 ltac:(lia)) as H2. cbv beta in H2.
  apply orb_true_iff in H2 as [H2%Z.leb_le|H2%bool_decide_eq_true]; [lia | done].
Qed.

Lemma crc_tables_run buffer :
  fio_crc7 buffer = Some (crc_msb 7 0x09 0 buffer) /\
  fio_crc16 buffer = Some (crc_lsb 0xA001 0 buffer) /\
  fio_crc32 buffer = Some (crc_msb 32 0x04C11DB7 0 buffer) /\
  crc32c_sw buffer = Some (crc_lsb 0x82F63B78 0xFFFFFFFF buffer) /\
  fio_crc64 buffer = Some (crc_lsb 0x95AC9329AC4BC9B5 0 buffer).
Proof.
  split_and!.
  - apply (crc_loop_ok _ _ _ (fun c => 0 <= c < 2 ^ 7)); [|lia].
    intros c b Hc Hb. split; [by apply crc7_byte_ok | by apply msb_feed_range].
  - apply (lsb_loop_ok _ _ crc16_table); [by vm_compute|].
    intros c b v Hv. unfold crc16_byte. rewrite Hv. simpl. by rewrite Z.lxor_comm.
  - apply (crc_loop_ok _ _ _ (fun c => 0 <= c < 2 ^ 32)); [|lia].
    intros c b Hc Hb. split; [by apply crc32_byte_ok | by apply msb_feed_range].
  - apply (lsb_loop_ok _ _ crc32c_table); [by vm_compute|].
    intros c b v Hv. unfold crc32c_byte. by rewrite Hv.
  - apply (lsb_loop_ok _ _ crctab64); [by vm_compute|].
    intros c b v Hv. unfold crc64_byte. by rewrite Hv.
Qed.


(** * Error bursts *)

(** If the register ends in 0 after [z], the part of the state that [z] cannot
    reach was 0. *)
Lemma msb_zero_back w poly z c i :
  1 <= w -> 0 <= poly < 2 ^ w -> Z.testbit poly 0 = true -> 0 <= c < 2 ^ w ->
  foldl (msb_bit w poly) c z = 0 -> 0 <= i < w - Z.of_nat (length z) -> Z.testbit c i = false.
Proof.
  intros Hw Hp Hodd. revert c i. induction z as [|d z IH]; intros c i Hc Hz Hi.
  - simpl in Hz. subst. apply Z.bits_0.
  - simpl in Hz, Hi. pose proof (msb_bit_range w poly c d ltac:(lia) Hp) as Hr.
    pose proof (IH _ 0 Hr Hz ltac:(lia)) as H0. pose proof (IH _ (i + 1) Hr Hz ltac:(lia)) as H1.
    unfold msb_bit in H0, H1. rewrite Z.lxor_spec, Z.land_spec in H0, H1.
    rewrite Z.shiftl_spec_low in H0 by lia.
    destruct (xorb _ d); [by rewrite Hodd in H0|].
    rewrite Z.bits_0, xorb_false_r, Z.ones_spec_low, andb_true_r, Z.shiftl_spec in H1 by lia.
    by replace (i + 1 - 1) with i in H1 by lia.
Qed.

Lemma msb_burst_nonzero w poly z :
  1 <= w -> 0 <= poly < 2 ^ w -> Z.testbit poly 0 = true -> Z.of_nat (length z) <= w ->
  In true z -> foldl (msb_bit w poly) 0 z <> 0.
Proof.
  intros Hw Hp Hodd. induction z as [|d z IH]; simpl; [done|]. intros Hl Hin.
  assert (msb_bit w poly 0 d = if d then poly else 0) as ->.
  { unfold msb_bit. rewrite Z.bits_0, Z.shiftl_0_l, Z.land_0_l, Z.lxor_0_l, xorb_false_l. done. }
  destruct d.
  - intros Hz. pose proof (msb_zero_back w poly z poly 0 Hw Hp Hodd Hp Hz ltac:(lia)). congruence.
  - destruct Hin as [|Hin]; [done|]. apply IH; [lia | done].
Qed.

Lemma lsb_zero_back poly w z c i :
  1 <= w -> 0 <= poly < 2 ^ w -> Z.testbit poly (w - 1) = true -> 0 <= c < 2 ^ w ->
  foldl (lsb_bit poly) c z = 0 -> Z.of_nat (length z) <= i < w -> Z.testbit c i = false.
Proof.
  intros Hw Hp Htop. revert c i. induction z as [|d z IH]; intros c i Hc Hz Hi.
  - simpl in Hz. subst. apply Z.bits_0.
  - simpl in Hz, Hi.
    assert (0 <= Z.shiftr c 1 < 2 ^ w) as Hs.
    { rewrite Z.shiftr_div_pow2 by lia. split; [apply Z.div_pos; lia|].
      apply Z.div_lt_upper_bound; lia. }
    assert (0 <= lsb_bit poly c d < 2 ^ w) as Hr.
    { unfold lsb_bit. apply lxor_range; [lia|done|]. destruct (xorb _ _); [done|lia]. }
    pose proof (IH _ (w - 1) Hr Hz ltac:(lia)) as H0. pose proof (IH _ (i - 1) Hr Hz ltac:(lia)) as H1.
    unfold lsb_bit in H0, H1. rewrite Z.lxor_spec, Z.shiftr_spec in H0, H1 by lia.
    replace (w - 1 + 1) with w in H0 by lia. rewrite (testbit_small w c Hc) in H0.
    destruct (xorb _ d); [by rewrite Htop in H0|].
    rewrite Z.bits_0, xorb_false_r in H1. by replace (i - 1 + 1) with i in H1 by lia.
Qed.

Lemma lsb_burst_nonzero poly w z :
  1 <= w -> 0 <= poly < 2 ^ w -> Z.testbit poly (w - 1) = true -> Z.of_nat (length z) <= w ->
  In true z -> foldl (lsb_bit poly) 0 z <> 0.
Proof.
  intros Hw Hp Htop. induction z as [|d z IH]; simpl; [done|]. intros Hl Hin.
  assert (lsb_bit poly 0 d = if d then poly else 0) as ->.
  { unfold lsb_bit. by rewrite Z.bits_0, Z.shiftr_0_l, Z.lxor_0_l, xorb_false_l. }
  destruct d.
  - intros Hz. pose proof (lsb_zero_back poly w z poly (w - 1) Hw Hp Htop Hp Hz ltac:(lia)). congruence.
  - destruct Hin as [|Hin]; [done|]. apply IH; [lia | done].
Qed.

(** A register of [w] bits that keeps a non-zero state non-zero without input and
    a non-zero burst of at most [w] bits non-zero tells apart two messages that
    differ in such a burst. *)
Record good_register (w : Z) (step : Z -> bool -> Z) : Prop := {
  gr_range : forall c d, 0 <= c < 2 ^ w -> 0 <= step c d < 2 ^ w;
  gr_keep : forall c, 0 <= c < 2 ^ w -> step c false = 0 -> c = 0;
  gr_burst : forall z, Z.of_nat (length z) <= w -> In true z -> foldl step 0 z <> 0
}.

Section Burst.
Context (w : Z) (step : Z -> bool -> Z) `{!LinearStep step}.
Hypothesis Hw : 0 <= w.
Hypothesis Hgood : good_register w step.

Lemma feed_range z c : 0 <= c < 2 ^ w -> 0 <= foldl step c z < 2 ^ w.
Proof. revert c. induction z as [|d z IH]; intros c Hc; [done|]. apply IH, Hgood, Hc. Qed.

Lemma feed_inj z c1 c2 :
  0 <= c1 < 2 ^ w -> 0 <= c2 < 2 ^ w -> foldl step c1 z = foldl step c2 z -> c1 = c2.
Proof.
  revert c1 c2. induction z as [|d z IH]; intros c1 c2 H1 H2 E; [done|].
  apply IH in E; [|by apply Hgood..]. apply Z.lxor_eq.
  apply Hgood; [by apply lxor_range|].
  rewrite <- (xorb_nilpotent d), step_xor, E. apply Z.lxor_nilpotent.
Qed.

Lemma burst_detected p x y s c :
  0 <= c < 2 ^ w -> length x = length y -> Z.of_nat (length x) <= w -> x <> y ->
  foldl step c (p ++ x ++ s) <> foldl step c (p ++ y ++ s).
Proof.
  intros Hc Hl Hx Hne. rewrite !foldl_app. intros E%feed_inj; [|by repeat apply feed_range..].
  set (c' := foldl step c p) in *.
  assert (foldl step 0 (zip_with xorb x y) = 0) as Hz.
  { rewrite <- (Z.lxor_nilpotent c') at 1. rewrite feed_linear by done. rewrite E. apply Z.lxor_nilpotent. }
  revert Hz. apply Hgood; [rewrite length_zip_with; lia|].
  clear -Hl Hne. revert y Hl Hne. induction x as [|a x IH]; intros [|b y] Hl Hne; try done.
  simpl. destruct (decide (a = b)) as [->|Hab].
  - right. apply IH; [by injection Hl | congruence].
  - left. by destruct a, b.
Qed.
End Burst.

Lemma msb_good w poly :
  1 <= w -> 0 <= poly < 2 ^ w -> Z.testbit poly 0 = true -> good_register w (msb_bit w poly).
Proof.
  intros Hw Hp Hodd. constructor.
  - intros c d _. by apply msb_bit_range; [lia|].
  - intros c Hc Hz. apply Z.bits_inj_0. intros i.
    destruct (decide (i < 0)); [by apply Z.testbit_neg_r|].
    destruct (decide (i < w)) as [Hi|Hi].
    + assert (forall j, Z.testbit (msb_bit w poly c false) j = false) as HH
        by (intros j; by rewrite Hz, Z.bits_0).
      pose proof (HH 0) as H0. pose proof (HH (i + 1)) as H1.
      unfold msb_bit in H0, H1. rewrite Z.lxor_spec, Z.land_spec in H0, H1.
      rewrite Z.shiftl_spec_low in H0 by lia.
      destruct (Z.testbit c (w - 1)) eqn:Et; [by rewrite xorb_false_r, Hodd in H0|].
      destruct (decide (i = w - 1)) as [->|]; [done|].
      rewrite Z.bits_0, xorb_false_r, Z.ones_spec_low, andb_true_r, Z.shiftl_spec in H1 by lia.
      by replace (i + 1 - 1) with i in H1 by lia.
    + apply testbit_small. split; [lia|]. assert (2 ^ w <= 2 ^ i) by (apply Z.pow_le_mono_r; lia). lia.
  - intros z. by apply msb_burst_nonzero.
Qed.

Lemma lsb_good w poly :
  1 <= w -> 0 <= poly < 2 ^ w -> Z.testbit poly (w - 1) = true -> good_register w (lsb_bit poly).
Proof.
  intros Hw Hp Htop.
  assert (forall c, 0 <= c < 2 ^ w -> 0 <= Z.shiftr c 1 < 2 ^ w) as Hs.
  { intros c Hc. rewrite Z.shiftr_div_pow2 by lia. split; [apply Z.div_pos; lia|].
    apply Z.div_lt_upper_bound; lia. }
  constructor.
  - intros c d Hc. unfold lsb_bit. apply lxor_range; [lia | by apply Hs |].
    destruct (xorb _ _); [done|lia].
  - intros c Hc Hz. apply Z.bits_inj_0. intros i.
    destruct (decide (i < 0)); [by apply Z.testbit_neg_r|].
    assert (forall j, Z.testbit (lsb_bit poly c false) j = false) as HH
      by (intros j; by rewrite Hz, Z.bits_0).
    pose proof (HH (w - 1)) as H0. pose proof (HH (i - 1)) as H1.
    unfold lsb_bit in H0, H1. rewrite Z.lxor_spec in H0, H1.
    rewrite Z.shiftr_spec in H0 by lia. replace (w - 1 + 1) with w in H0 by lia.
    rewrite (testbit_small w c Hc) in H0.
    destruct (Z.testbit c 0) eqn:Et; [by simpl in H0; rewrite Htop in H0|].
    destruct (decide (i = 0)) as [->|]; [done|].
    rewrite Z.shiftr_spec in H1 by lia. replace (i - 1 + 1) with i in H1 by lia.
    by rewrite Z.bits_0, xorb_false_r in H1.
  - intros z. by apply lsb_burst_nonzero.
Qed.

(** C39: the table driven checksums are the CRCs of their polynomials.  For every
    buffer, every table index is inside its table and the byte loops of fio_crc7,
    fio_crc16, fio_crc32, crc32c_sw and fio_crc64 return what the bit-serial
    register of the polynomial returns. *)
Theorem crc_tables_exact buffer :
  fio_crc7 buffer = Some (crc_msb 7 0x09 0 buffer) /\
  fio_crc16 buffer = Some (crc_lsb 0xA001 0 buffer) /\
  fio_crc32 buffer = Some (crc_msb 32 0x04C11DB7 0 buffer) /\
  crc32c_sw buffer = Some (crc_lsb 0x82F63B78 0xFFFFFFFF buffer) /\
  fio_crc64 buffer = Some (crc_lsb 0x95AC9329AC4BC9B5 0 buffer).
Proof. apply crc_tables_run. Qed.

(** Two messages that differ in a burst have different checksums. *)
Lemma crc_bursts_run buf1 buf2 (p x y s : list bool) :
  x <> y -> length x = length y ->
  (message_bits bits_msb buf1 = p ++ x ++ s -> message_bits bits_msb buf2 = p ++ y ++ s ->
   ((length x <= 7)%nat -> fio_crc7 buf1 <> fio_crc7 buf2) /\
   ((length x <= 32)%nat -> fio_crc32 buf1 <> fio_crc32 buf2)) /\
  (message_bits bits_lsb buf1 = p ++ x ++ s -> message_bits bits_lsb buf2 = p ++ y ++ s ->
   ((length x <= 16)%nat -> fio_crc16 buf1 <> fio_crc16 buf2) /\
   ((length x <= 32)%nat -> crc32c_sw buf1 <> crc32c_sw buf2) /\
   ((length x <= 64)%nat -> fio_crc64 buf1 <> fio_crc64 buf2)).
Proof.
  intros Hne Hl.
  destruct (crc_tables_run buf1) as (-> & -> & -> & -> & ->).
  destruct (crc_tables_run buf2) as (-> & -> & -> & -> & ->).
  unfold crc_msb, crc_lsb.
  split; intros -> ->; split_and!; intros Hx [= E]; revert E.
  - apply (burst_detected 7 _); try done; try lia. by apply msb_good.
  - apply (burst_detected 32 _); try done; try lia. by apply msb_good.
  - apply (burst_detected 16 _); try done; try lia. by apply lsb_good.
  - apply (burst_detected 32 _); try done; try lia. by apply lsb_good.
  - apply (burst_detected 64 _); try done; try lia. by apply lsb_good.
Qed.

(** The checksums detect every error burst up to their width.  Two buffers
    whose bits (most significant first for crc7 and crc32, least significant
    first for crc16, crc32c and crc64) differ only inside a window of at most the
    width of the checksum have different checksums, so fio's verify never accepts
    such a corruption. *)
Theorem crc_detects_bursts buf1 buf2 (p x y s : list bool) :
  x <> y -> length x = length y ->
  (message_bits bits_msb buf1 = p ++ x ++ s -> message_bits bits_msb buf2 = p ++ y ++ s ->
   ((length x <= 7)%nat -> fio_crc7 buf1 <> fio_crc7 buf2) /\
   ((length x <= 32)%nat -> fio_crc32 buf1 <> fio_crc32 buf2)) /\
  (message_bits bits_lsb buf1 = p ++ x ++ s -> message_bits bits_lsb buf2 = p ++ y ++ s ->
   ((length x <= 16)%nat -> fio_crc16 buf1 <> fio_crc16 buf2) /\
   ((length x <= 32)%nat -> crc32c_sw buf1 <> crc32c_sw buf2) /\
   ((length x <= 64)%nat -> fio_crc64 buf1 <> fio_crc64 buf2)).
Proof. apply crc_bursts_run. Qed.

Lemma crc_detects_bursts_witness :
  fio_crc32 [Byte.x10; Byte.x20] <> fio_crc32 [Byte.x10; Byte.x21] /\
  fio_crc64 [Byte.x10; Byte.x20] <> fio_crc64 [Byte.x10; Byte.x21].
Proof.
  split.
  - apply (crc_detects_bursts [Byte.x10; Byte.x20] [Byte.x10; Byte.x21]
      (bits_msb 0x10) (bits_msb 0x20) (bits_msb 0x21) []); (reflexivity || discriminate || simpl; lia).
  - apply (crc_detects_bursts [Byte.x10; Byte.x20] [Byte.x10; Byte.x21]
      (bits_lsb 0x10) (bits_lsb 0x20) (bits_lsb 0x21) []); (reflexivity || discriminate || simpl; lia).
Defined.
