(* ===== verification/Blocks.v ===== *)
(** Shared by the hashes of src/fio/crc: buffers with checked copies, words of
    32 and 64 bits, and the absorption of a message block by block. *)
From S2P Require Import Prelude.

(** * Buffers *)

(** [memcpy(buf + off, src, |src|)]; no value when it leaves the buffer. *)
Definition copy_to (buf : bytes) (off : Z) (src : bytes) : option bytes :=
  if (0 <=? off) && (off + Z.of_nat (length src) <=? Z.of_nat (length buf))
  then Some (take (Z.to_nat off) buf ++ src ++ drop (Z.to_nat off + length src) buf)
  else None.

(** The [n] bytes at [data + off]. *)
Definition copy_from (data : bytes) (off n : Z) : option bytes :=
  if (0 <=? off) && (0 <=? n) && (off + n <=? Z.of_nat (length data))
  then Some (take (Z.to_nat n) (drop (Z.to_nat off) data)) else None.

Lemma copy_to_prefix (p j src : bytes) :
  (length src <= length j)%nat ->
  copy_to (p ++ j) (Z.of_nat (length p)) src = Some (p ++ src ++ drop (length src) j).
Proof.
  intros H. unfold copy_to. rewrite length_app.
  rewrite (proj2 (Z.leb_le 0 _)), (proj2 (Z.leb_le _ _)) by lia. simpl.
  rewrite Nat2Z.id, take_app_length, drop_app_ge by lia. do 4 f_equal. lia.
Qed.

Lemma copy_from_ok (data : bytes) (k n : nat) :
  (k + n <= length data)%nat ->
  copy_from data (Z.of_nat k) (Z.of_nat n) = Some (take n (drop k data)).
Proof.
  intros H. unfold copy_from. rewrite !(proj2 (Z.leb_le _ _)) by lia. simpl.
  by rewrite !Nat2Z.id.
Qed.

Lemma copy_from_eq (data : bytes) off n (k l : nat) :
  off = Z.of_nat k -> n = Z.of_nat l -> (k + l <= length data)%nat ->
  copy_from data off n = Some (take l (drop k data)).
Proof. intros -> ->. apply copy_from_ok. Qed.

Lemma copy_to_0 (buf src : bytes) :
  (length src <= length buf)%nat -> copy_to buf 0 src = Some (src ++ drop (length src) buf).
Proof. apply (copy_to_prefix []). Qed.

Lemma copy_to_eq (buf p j src : bytes) off :
  buf = p ++ j -> off = Z.of_nat (length p) -> (length src <= length j)%nat ->
  copy_to buf off src = Some (p ++ src ++ drop (length src) j).
Proof. intros -> ->. apply copy_to_prefix. Qed.

(** The buffer with [bs] at [ptr]: what [copy_to] leaves. *)
Definition splice (buf : bytes) (ptr : nat) (bs : bytes) : bytes :=
  take ptr buf ++ bs ++ drop (ptr + length bs) buf.

Lemma copy_to_splice (buf : bytes) off (ptr : nat) (bs : bytes) :
  off = Z.of_nat ptr -> (ptr + length bs <= length buf)%nat -> copy_to buf off bs = Some (splice buf ptr bs).
Proof.
  intros -> H. unfold copy_to, splice. rewrite !(proj2 (Z.leb_le _ _)) by lia. simpl.
  by rewrite !Nat2Z.id.
Qed.

Lemma length_splice (buf : bytes) ptr (bs : bytes) :
  (ptr + length bs <= length buf)%nat -> length (splice buf ptr bs) = length buf.
Proof. intros H. unfold splice. len. Qed.

Lemma splice_nil (buf : bytes) ptr : splice buf ptr [] = buf.
Proof. unfold splice. simpl. by rewrite Nat.add_0_r, take_drop. Qed.

(** Adjacent stores are one store. *)
Lemma splice_splice (buf : bytes) ptr (a b : bytes) :
  (ptr + length a + length b <= length buf)%nat ->
  splice (splice buf ptr a) (ptr + length a) b = splice buf ptr (a ++ b).
Proof.
  intros H. unfold splice. rewrite length_app, (app_assoc (take ptr buf) a).
  rewrite take_app_le, take_ge by len. rewrite drop_app_ge by len. rewrite drop_drop.
  rewrite <- !app_assoc. do 4 f_equal. len.
Qed.

Lemma drop_splice (buf : bytes) ptr (a : bytes) :
  (ptr <= length buf)%nat -> drop ptr (splice buf ptr a) = a ++ drop (ptr + length a) buf.
Proof. intros H. unfold splice. rewrite drop_app_ge by len. by rewrite length_take, Nat.min_l, Nat.sub_diag, drop_0 by lia. Qed.

Lemma take_splice (buf : bytes) ptr (a : bytes) k :
  (k <= ptr <= length buf)%nat -> take k (splice buf ptr a) = take k buf.
Proof. intros H. unfold splice. rewrite take_app_le by len. by rewrite take_take, Nat.min_l by lia. Qed.

(** Accesses inside the middle part of a buffer. *)
Lemma copy_from_mid (a b c : bytes) off n (k l : nat) :
  off = Z.of_nat (length a + k) -> n = Z.of_nat l -> (k + l <= length b)%nat ->
  copy_from (a ++ b ++ c) off n = Some (take l (drop k b)).
Proof.
  intros -> -> H. rewrite copy_from_ok by len. f_equal.
  rewrite drop_app_add', drop_app_le, take_app_le by len. done.
Qed.

Lemma copy_to_mid (a b c : bytes) off (k : nat) (src : bytes) :
  off = Z.of_nat (length a + k) -> (k + length src <= length b)%nat ->
  copy_to (a ++ b ++ c) off src = Some (a ++ splice b k src ++ c).
Proof.
  intros -> H. rewrite (copy_to_splice _ _ (length a + k)) by len. f_equal. unfold splice.
  rewrite take_app_add', take_app_le by len. rewrite <- Nat.add_assoc, drop_app_add', drop_app_le by len.
  by rewrite <- !app_assoc.
Qed.

(** Run the first step of an option computation. *)
Ltac obind := cbn [mbind option_bind].

(** * Words *)

Definition add32 (a b : Z) : Z := u32 (a + b).
Definition mul32 (a b : Z) : Z := u32 (a * b).
Definition not32 (a : Z) : Z := u32 (Z.lnot a).
Definition rotl32 (x r : Z) : Z := Z.lor (u32 (Z.shiftl x r)) (Z.shiftr x (32 - r)).
Definition ror32 (x r : Z) : Z := Z.lor (Z.shiftr x r) (u32 (Z.shiftl x (32 - r))).
Definition add64 (a b : Z) : Z := u64 (a + b).
Definition not64 (a : Z) : Z := u64 (Z.lnot a).
Definition rotl64 (x r : Z) : Z := Z.lor (u64 (Z.shiftl x r)) (Z.shiftr x (64 - r)).
Definition ror64 (x r : Z) : Z := Z.lor (Z.shiftr x r) (u64 (Z.shiftl x (64 - r))).

(** Words of [k] bytes in a buffer, little and big endian. *)
Definition le_word (k : nat) (b : bytes) (i : Z) : Z :=
  le_combine (take k (drop (k * Z.to_nat i) b)).
Definition be_word (k : nat) (b : bytes) (i : Z) : Z :=
  le_combine (rev (take k (drop (k * Z.to_nat i) b))).

Definition be32 (v : Z) : bytes := rev (le_split 4 v).

(** * Absorbing a message block by block *)

Section Blocks.
Context {St : Type} (n : nat) (f : St -> bytes -> St).
Hypothesis Hn : (0 < n)%nat.
Implicit Types m d : bytes.

Fixpoint chunks (k : nat) (m : bytes) : list bytes :=
  match k with
  | O => []
  | S k' => take n m :: chunks k' (drop n m)
  end.

Definition blocks (m : bytes) : list bytes := chunks (length m / n) m.
Definition rest (m : bytes) : bytes := drop (length m / n * n) m.
Definition absorb (st : St) (m : bytes) : St := foldl f st (blocks m).

Lemma blocks_short m : (length m < n)%nat -> blocks m = [] /\ rest m = m.
Proof. intros H. unfold blocks, rest. by rewrite Nat.div_small. Qed.

Lemma div_step m : (n <= length m)%nat -> (length m / n = 1 + length (drop n m) / n)%nat.
Proof.
  intros H. rewrite length_drop. replace (length m) with (1 * n + (length m - n))%nat at 1 by lia.
  rewrite Nat.div_add_l by lia. lia.
Qed.

Lemma blocks_step m :
  (n <= length m)%nat -> blocks m = take n m :: blocks (drop n m) /\ rest m = rest (drop n m).
Proof.
  intros H. unfold blocks, rest. rewrite (div_step m H). simpl. split; [done|].
  by rewrite drop_drop.
Qed.

Lemma absorb_short st m : (length m < n)%nat -> absorb st m = st /\ rest m = m.
Proof. intros H. unfold absorb. by destruct (blocks_short m H) as [-> ->]. Qed.

Lemma absorb_step st m :
  (n <= length m)%nat -> absorb st m = absorb (f st (take n m)) (drop n m) /\ rest m = rest (drop n m).
Proof. intros H. unfold absorb. by destruct (blocks_step m H) as [-> ->]. Qed.

(** Induction over whole blocks. *)
Lemma block_ind (P : bytes -> Prop) :
  (forall m, (length m < n)%nat -> P m) ->
  (forall m, (n <= length m)%nat -> P (drop n m) -> P m) -> forall m, P m.
Proof.
  intros Hs Hstep m. remember (length m) as k eqn:Hk. revert m Hk.
  induction (lt_wf k) as [k _ IH]. intros m ->.
  destruct (decide (length m < n)%nat); [by apply Hs|].
  apply Hstep; [lia|]. apply (IH (length (drop n m))); [rewrite length_drop; lia | done].
Qed.

Lemma length_rest m : (length (rest m) = length m mod n)%nat.
Proof.
  unfold rest. rewrite length_drop. pose proof (Nat.div_mod (length m) n ltac:(lia)). lia.
Qed.

Lemma rest_lt m : (length (rest m) < n)%nat.
Proof. rewrite length_rest. apply Nat.mod_upper_bound. lia. Qed.

Lemma absorb_app st m d :
  absorb st (m ++ d) = absorb (absorb st m) (rest m ++ d) /\ rest (m ++ d) = rest (rest m ++ d).
Proof.
  revert st. induction m as [m Hm|m Hm IH] using block_ind; intros st.
  - by destruct (absorb_short st m Hm) as [-> ->].
  - destruct (absorb_step st (m ++ d)) as [-> ->]; [rewrite length_app; lia|].
    destruct (absorb_step st m Hm) as [-> ->].
    rewrite take_app_le, drop_app_le by lia. apply IH.
Qed.

(** Feeding a packet that does not complete the pending block, and one that
    does. *)
Lemma absorb_pending st m d :
  (length (rest m) + length d < n)%nat ->
  absorb st (m ++ d) = absorb st m /\ rest (m ++ d) = rest m ++ d.
Proof.
  intros H. destruct (absorb_app st m d) as [-> ->]. apply absorb_short. by rewrite length_app.
Qed.

Lemma absorb_complete st m d (k : nat) :
  (length (rest m) + k = n)%nat -> (k <= length d)%nat ->
  absorb st (m ++ d) = absorb (f (absorb st m) (rest m ++ take k d)) (drop k d) /\
  rest (m ++ d) = rest (drop k d).
Proof.
  intros Hk Hd. destruct (absorb_app st m d) as [-> ->].
  destruct (absorb_step (absorb st m) (rest m ++ d)) as [-> ->]; [rewrite length_app; lia|].
  rewrite take_app_ge, drop_app_ge by lia.
  by replace (n - length (rest m))%nat with k by lia.
Qed.

(** A message of exactly one more block. *)
Lemma absorb_block st m : length m = n -> absorb st m = f st m.
Proof.
  intros H. destruct (absorb_step st m) as [-> _]; [lia|]. rewrite take_ge, drop_ge by lia.
  by destruct (absorb_short (f st m) []) as [-> _].
Qed.
End Blocks.

Lemma foldl_ext_in {A B} (f g : A -> B -> A) (l : list B) a :
  (forall x b, In b l -> f x b = g x b) -> foldl f a l = foldl g a l.
Proof.
  revert a. induction l as [|b l IH]; intros a H; [done|]. simpl.
  rewrite H by by left. apply IH. intros x b' Hb. apply H. by right.
Qed.

(** * Shared arithmetic *)

Lemma land_63 x : Z.land x 0x3f = x mod 64.
Proof. change 0x3f with (Z.ones 6). by rewrite Z.land_ones. Qed.

Lemma u64_mod_pow2 x k : 0 <= k <= 64 -> u64 x mod 2 ^ k = x mod 2 ^ k.
Proof.
  intros Hk. unfold u64. apply Z.mod_mod_divide.
  exists (2 ^ (64 - k)). rewrite <- Z.pow_add_r by lia. f_equal. lia.
Qed.

Lemma u32_mod_pow2 x k : 0 <= k <= 32 -> u32 x mod 2 ^ k = x mod 2 ^ k.
Proof.
  intros Hk. unfold u32. apply Z.mod_mod_divide.
  exists (2 ^ (32 - k)). rewrite <- Z.pow_add_r by lia. f_equal. lia.
Qed.

Lemma le_split_u32 x : le_split 4 (u32 x) = le_split 4 x.
Proof. symmetry. apply (le_split_mod x 4). Qed.

Lemma le_split_u64 x : le_split 8 (u64 x) = le_split 8 x.
Proof. symmetry. apply (le_split_mod x 8). Qed.

Lemma le_split_8 x : le_split 8 x = le_split 4 x ++ le_split 4 (Z.shiftr x 32).
Proof. simpl. by rewrite !Z.shiftr_shiftr by lia. Qed.

(** * Sums of words *)

Lemma add32_assoc a b c : add32 a (add32 b c) = add32 (add32 a b) c.
Proof. unfold add32, u32. rewrite Zplus_mod_idemp_r, Zplus_mod_idemp_l. f_equal. lia. Qed.

Lemma add32_comm a b : add32 a b = add32 b a.
Proof. unfold add32. f_equal. lia. Qed.

Lemma add32_u32_r a b : add32 a (u32 b) = add32 a b.
Proof. unfold add32, u32. by rewrite Zplus_mod_idemp_r. Qed.

Lemma add64_assoc a b c : add64 a (add64 b c) = add64 (add64 a b) c.
Proof. unfold add64, u64. rewrite Zplus_mod_idemp_r, Zplus_mod_idemp_l. f_equal. lia. Qed.

Lemma add64_comm a b : add64 a b = add64 b a.
Proof. unfold add64. f_equal. lia. Qed.

(** Equality of bitwise expressions, bit by bit. *)
Ltac bitwise :=
  apply Z.bits_inj; intros ?;
  rewrite ?Z.lxor_spec, ?Z.land_spec, ?Z.lor_spec, ?Z.ldiff_spec, ?Z.bits_0, ?Z.lxor_spec, ?Z.land_spec,
    ?Z.lor_spec;
  repeat match goal with |- context [Z.testbit ?x ?n] => destruct (Z.testbit x n) end; try reflexivity.

(** * Message schedules: a list of words, each computed from those before it *)

Section Schedule.
Variable next : nat -> list Z -> Z.

Fixpoint schedule (n : nat) : list Z :=
  match n with
  | O => []
  | S n' => let W := schedule n' in W ++ [next n' W]
  end.

Definition sched_word (i : nat) : Z := nth i (schedule (S i)) 0.

Lemma length_schedule n : length (schedule n) = n.
Proof. induction n; [done|]. cbn [schedule]. cbv zeta. rewrite length_app, IHn. simpl. lia. Qed.

Lemma nth_schedule n i : (i < n)%nat -> nth i (schedule n) 0 = sched_word i.
Proof.
  induction n as [|n IH]; intros Hi; [lia|]. destruct (decide (i = n)) as [->|]; [done|].
  cbn [schedule]. cbv zeta. rewrite app_nth1 by (rewrite length_schedule; lia). apply IH. lia.
Qed.

Lemma sched_word_next i : sched_word i = next i (schedule i).
Proof.
  unfold sched_word. cbn [schedule]. cbv zeta. rewrite app_nth2 by (rewrite length_schedule; lia).
  by rewrite length_schedule, Nat.sub_diag.
Qed.
End Schedule.
