(* ===== verification/Md5.v ===== *)
(** The MD5 of src/fio/crc/md5.c: the context a caller feeds with packets and the
    digest it leaves, against the digest of the padded message of RFC 1321.

    The machine is little endian, as the code needs (it reads the block as
    words without swapping). *)
From S2P Require Import Prelude Blocks.

Abbreviation md5_hash := (Z * Z * Z * Z)%type.

Definition F1 (x y z : Z) : Z := Z.lxor z (Z.land x (Z.lxor y z)).
Definition F2 (x y z : Z) : Z := F1 z x y.
Definition F3 (x y z : Z) : Z := Z.lxor (Z.lxor x y) z.
Definition F4 (x y z : Z) : Z := Z.lxor y (Z.lor x (not32 z)).

Definition MD5STEP (f : Z -> Z -> Z -> Z) (w x y z inp s : Z) : Z :=
  let w := add32 w (add32 (f x y z) inp) in
  add32 (rotl32 w s) x.

Definition md5_transform (hash : md5_hash) (block : bytes) : md5_hash :=
  let in_ := le_word 4 block in
  let '(h0, h1, h2, h3) := hash in
  let a := h0 in let b := h1 in let c := h2 in let d := h3 in
  let a := MD5STEP F1 a b c d (add32 (in_ 0) 0xd76aa478) 7 in
  let d := MD5STEP F1 d a b c (add32 (in_ 1) 0xe8c7b756) 12 in
  let c := MD5STEP F1 c d a b (add32 (in_ 2) 0x242070db) 17 in
  let b := MD5STEP F1 b c d a (add32 (in_ 3) 0xc1bdceee) 22 in
  let a := MD5STEP F1 a b c d (add32 (in_ 4) 0xf57c0faf) 7 in
  let d := MD5STEP F1 d a b c (add32 (in_ 5) 0x4787c62a) 12 in
  let c := MD5STEP F1 c d a b (add32 (in_ 6) 0xa8304613) 17 in
  let b := MD5STEP F1 b c d a (add32 (in_ 7) 0xfd469501) 22 in
  let a := MD5STEP F1 a b c d (add32 (in_ 8) 0x698098d8) 7 in
  let d := MD5STEP F1 d a b c (add32 (in_ 9) 0x8b44f7af) 12 in
  let c := MD5STEP F1 c d a b (add32 (in_ 10) 0xffff5bb1) 17 in
  let b := MD5STEP F1 b c d a (add32 (in_ 11) 0x895cd7be) 22 in
  let a := MD5STEP F1 a b c d (add32 (in_ 12) 0x6b901122) 7 in
  let d := MD5STEP F1 d a b c (add32 (in_ 13) 0xfd987193) 12 in
  let c := MD5STEP F1 c d a b (add32 (in_ 14) 0xa679438e) 17 in
  let b := MD5STEP F1 b c d a (add32 (in_ 15) 0x49b40821) 22 in
  let a := MD5STEP F2 a b c d (add32 (in_ 1) 0xf61e2562) 5 in
  let d := MD5STEP F2 d a b c (add32 (in_ 6) 0xc040b340) 9 in
  let c := MD5STEP F2 c d a b (add32 (in_ 11) 0x265e5a51) 14 in
  let b := MD5STEP F2 b c d a (add32 (in_ 0) 0xe9b6c7aa) 20 in
  let a := MD5STEP F2 a b c d (add32 (in_ 5) 0xd62f105d) 5 in
  let d := MD5STEP F2 d a b c (add32 (in_ 10) 0x02441453) 9 in
  let c := MD5STEP F2 c d a b (add32 (in_ 15) 0xd8a1e681) 14 in
  let b := MD5STEP F2 b c d a (add32 (in_ 4) 0xe7d3fbc8) 20 in
  let a := MD5STEP F2 a b c d (add32 (in_ 9) 0x21e1cde6) 5 in
  let d := MD5STEP F2 d a b c (add32 (in_ 14) 0xc33707d6) 9 in
  let c := MD5STEP F2 c d a b (add32 (in_ 3) 0xf4d50d87) 14 in
  let b := MD5STEP F2 b c d a (add32 (in_ 8) 0x455a14ed) 20 in
  let a := MD5STEP F2 a b c d (add32 (in_ 13) 0xa9e3e905) 5 in
  let d := MD5STEP F2 d a b c (add32 (in_ 2) 0xfcefa3f8) 9 in
  let c := MD5STEP F2 c d a b (add32 (in_ 7) 0x676f02d9) 14 in
  let b := MD5STEP F2 b c d a (add32 (in_ 12) 0x8d2a4c8a) 20 in
  let a := MD5STEP F3 a b c d (add32 (in_ 5) 0xfffa3942) 4 in
  let d := MD5STEP F3 d a b c (add32 (in_ 8) 0x8771f681) 11 in
  let c := MD5STEP F3 c d a b (add32 (in_ 11) 0x6d9d6122) 16 in
  let b := MD5STEP F3 b c d a (add32 (in_ 14) 0xfde5380c) 23 in
  let a := MD5STEP F3 a b c d (add32 (in_ 1) 0xa4beea44) 4 in
  let d := MD5STEP F3 d a b c (add32 (in_ 4) 0x4bdecfa9) 11 in
  let c := MD5STEP F3 c d a b (add32 (in_ 7) 0xf6bb4b60) 16 in
  let b := MD5STEP F3 b c d a (add32 (in_ 10) 0xbebfbc70) 23 in
  let a := MD5STEP F3 a b c d (add32 (in_ 13) 0x289b7ec6) 4 in
  let d := MD5STEP F3 d a b c (add32 (in_ 0) 0xeaa127fa) 11 in
  let c := MD5STEP F3 c d a b (add32 (in_ 3) 0xd4ef3085) 16 in
  let b := MD5STEP F3 b c d a (add32 (in_ 6) 0x04881d05) 23 in
  let a := MD5STEP F3 a b c d (add32 (in_ 9) 0xd9d4d039) 4 in
  let d := MD5STEP F3 d a b c (add32 (in_ 12) 0xe6db99e5) 11 in
  let c := MD5STEP F3 c d a b (add32 (in_ 15) 0x1fa27cf8) 16 in
  let b := MD5STEP F3 b c d a (add32 (in_ 2) 0xc4ac5665) 23 in
  let a := MD5STEP F4 a b c d (add32 (in_ 0) 0xf4292244) 6 in
  let d := MD5STEP F4 d a b c (add32 (in_ 7) 0x432aff97) 10 in
  let c := MD5STEP F4 c d a b (add32 (in_ 14) 0xab9423a7) 15 in
  let b := MD5STEP F4 b c d a (add32 (in_ 5) 0xfc93a039) 21 in
  let a := MD5STEP F4 a b c d (add32 (in_ 12) 0x655b59c3) 6 in
  let d := MD5STEP F4 d a b c (add32 (in_ 3) 0x8f0ccc92) 10 in
  let c := MD5STEP F4 c d a b (add32 (in_ 10) 0xffeff47d) 15 in
  let b := MD5STEP F4 b c d a (add32 (in_ 1) 0x85845dd1) 21 in
  let a := MD5STEP F4 a b c d (add32 (in_ 8) 0x6fa87e4f) 6 in
  let d := MD5STEP F4 d a b c (add32 (in_ 15) 0xfe2ce6e0) 10 in
  let c := MD5STEP F4 c d a b (add32 (in_ 6) 0xa3014314) 15 in
  let b := MD5STEP F4 b c d a (add32 (in_ 13) 0x4e0811a1) 21 in
  let a := MD5STEP F4 a b c d (add32 (in_ 4) 0xf7537e82) 6 in
  let d := MD5STEP F4 d a b c (add32 (in_ 11) 0xbd3af235) 10 in
  let c := MD5STEP F4 c d a b (add32 (in_ 2) 0x2ad7d2bb) 15 in
  let b := MD5STEP F4 b c d a (add32 (in_ 9) 0xeb86d391) 21 in
  (add32 h0 a, add32 h1 b, add32 h2 c, add32 h3 d).

Record fio_md5_ctx : Type := mkMd5 {
  hash : md5_hash;
  block : bytes;          (* uint32_t block[16] *)
  byte_count : Z
}.

(** [fio_md5_init] sets the hash only. *)
Definition fio_md5_init (mctx : fio_md5_ctx) : fio_md5_ctx :=
  mkMd5 (0x67452301, 0xefcdab89, 0x98badcfe, 0x10325476) (block mctx) (byte_count mctx).

(** [while (len >= 64)] of the update: the hash and the block, the position in
    the data and what is left of it. *)
Fixpoint md5_blocks (fuel : nat) (h : md5_hash) (blk data : bytes) (pos len : Z) :
    option (md5_hash * bytes * Z * Z) :=
  match fuel with
  | O => None
  | S fuel' =>
      if 64 <=? len then
        src ← copy_from data pos 64;
        blk ← copy_to blk 0 src;
        md5_blocks fuel' (md5_transform h blk) blk data (pos + 64) (len - 64)
      else Some (h, blk, pos, len)
  end.

(** The caller passes the length of the data as an [unsigned int]. *)
Definition fio_md5_update (mctx : fio_md5_ctx) (data : bytes) : option fio_md5_ctx :=
  let len := u32 (Z.of_nat (length data)) in
  let avail := 64 - Z.land (byte_count mctx) 0x3f in
  let byte_count := u64 (byte_count mctx + len) in
  if len <? avail then
    blk ← copy_to (block mctx) (64 - avail) data;
    Some (mkMd5 (hash mctx) blk byte_count)
  else
    src ← copy_from data 0 avail;
    blk ← copy_to (block mctx) (64 - avail) src;
    r ← md5_blocks (S (length data)) (md5_transform (hash mctx) blk) blk data avail (len - avail);
    let '(h, blk, pos, len) := r in
    src ← copy_from data pos len;
    blk ← copy_to blk 0 src;
    Some (mkMd5 h blk byte_count).

Definition fio_md5_final (mctx : fio_md5_ctx) : option fio_md5_ctx :=
  let offset := Z.land (byte_count mctx) 0x3f in
  let padding := 56 - (offset + 1) in
  blk ← copy_to (block mctx) offset [Byte.x80];
  r ← (if padding <? 0 then
         blk ← copy_to blk (offset + 1) (replicate (Z.to_nat (padding + 8)) Byte.x00);
         Some (md5_transform (hash mctx) blk, blk, 0, 56)
       else Some (hash mctx, blk, offset + 1, padding));
  let '(h, blk, p, padding) := r in
  blk ← copy_to blk p (replicate (Z.to_nat padding) Byte.x00);
  blk ← copy_to blk 56 (le_split 4 (u32 (Z.shiftl (byte_count mctx) 3)));
  blk ← copy_to blk 60 (le_split 4 (u32 (Z.shiftr (byte_count mctx) 29)));
  Some (mkMd5 (md5_transform h blk) blk (byte_count mctx)).

(** Feeding a list of packets. *)
Fixpoint md5_updates (mctx : fio_md5_ctx) (packets : list bytes) : option fio_md5_ctx :=
  match packets with
  | [] => Some mctx
  | d :: packets' => mctx ← fio_md5_update mctx d; md5_updates mctx packets'
  end.

Definition md5_fresh (blk : bytes) : fio_md5_ctx := fio_md5_init (mkMd5 (0, 0, 0, 0) blk 0).

Definition md5_digest (ctx : option fio_md5_ctx) : option bytes :=
  c ← ctx;
  let '(a, b, c, d) := hash c in
  Some (le_split 4 a ++ le_split 4 b ++ le_split 4 c ++ le_split 4 d).

(** MD5 of the string abc, RFC 1321 A.5, in two packets. *)
Example md5_abc :
  md5_digest (ctx ← md5_updates (md5_fresh (replicate 64 Byte.xff)) [[Byte.x61]; [Byte.x62; Byte.x63]];
              fio_md5_final ctx) =
  Some (byte.of_Z <$> [0x90; 0x01; 0x50; 0x98; 0x3c; 0xd2; 0x4f; 0xb0; 0xd6; 0x96; 0x3f; 0x7d;
                       0x28; 0xe1; 0x7f; 0x72]).
Proof. vm_compute. reflexivity. Qed.

(** * The context represents the message fed so far *)

Definition md5_iv : md5_hash := (0x67452301, 0xefcdab89, 0x98badcfe, 0x10325476).

Abbreviation md5_absorb := (absorb 64 md5_transform).

Record md5_repr (c : fio_md5_ctx) (m : bytes) : Prop := {
  mr_hash : hash c = md5_absorb md5_iv m;
  mr_block : exists j, block c = rest 64 m ++ j;
  mr_size : length (block c) = 64%nat;
  mr_count : byte_count c = u64 (Z.of_nat (length m))
}.

Lemma md5_fresh_repr blk : length blk = 64%nat -> md5_repr (md5_fresh blk) [].
Proof. intros H. constructor; simpl; try done. by exists blk. Qed.

Lemma md5_offset c m :
  md5_repr c m -> Z.land (byte_count c) 0x3f = Z.of_nat (length (rest 64 m)).
Proof.
  intros Hr. rewrite (mr_count _ _ Hr), land_63. change 64 with (2 ^ 6).
  rewrite u64_mod_pow2 by lia. rewrite length_rest by lia. by rewrite Nat2Z.inj_mod.
Qed.

Lemma md5_blocks_run data k h blk fuel :
  (k <= length data)%nat -> length blk = 64%nat -> (length data < fuel + k)%nat ->
  exists blk' k', length blk' = 64%nat /\ (k' <= length data)%nat /\
    drop k' data = rest 64 (drop k data) /\
    md5_blocks fuel h blk data (Z.of_nat k) (Z.of_nat (length data - k)) =
    Some (md5_absorb h (drop k data), blk', Z.of_nat k', Z.of_nat (length data - k')).
Proof.
  revert k h blk. induction fuel as [|fuel IH]; intros k h blk Hk Hb Hf; [lia|]. simpl.
  destruct (Z.leb_spec 64 (Z.of_nat (length data - k))) as [Hge|Hlt].
  - rewrite (copy_from_eq data _ _ k 64) by lia. obind.
    rewrite copy_to_0 by (rewrite length_take, length_drop; lia). obind.
    rewrite (drop_ge blk), app_nil_r by (rewrite length_take, length_drop; lia).
    destruct (absorb_step 64 md5_transform ltac:(lia) h (drop k data)) as [-> ->];
      [rewrite length_drop; lia|]. rewrite drop_drop.
    replace (Z.of_nat k + 64) with (Z.of_nat (k + 64)) by lia.
    replace (Z.of_nat (length data - k) - 64) with (Z.of_nat (length data - (k + 64))) by lia.
    apply IH; [lia | rewrite length_take, length_drop; lia | lia].
  - exists blk, k. destruct (absorb_short 64 md5_transform h (drop k data)) as [-> ->];
      [rewrite length_drop; lia|]. done.
Qed.

Lemma md5_update_repr c m d :
  md5_repr c m -> Z.of_nat (length d) < 2 ^ 32 ->
  exists c', fio_md5_update c d = Some c' /\ md5_repr c' (m ++ d).
Proof.
  intros Hr Hd. pose proof (md5_offset c m Hr) as Ho.
  destruct Hr as [Hh [j Hj] Hs Hc]. unfold fio_md5_update. rewrite Ho, u32_small by (split; lia).
  pose proof (rest_lt 64 ltac:(lia) m) as Hlt.
  assert (length j = 64 - length (rest 64 m))%nat as Hlj by (rewrite Hj, length_app in Hs; lia).
  assert (u64 (byte_count c + Z.of_nat (length d)) = u64 (Z.of_nat (length (m ++ d)))) as Hcnt.
  { rewrite Hc, length_app. unfold u64. rewrite Zplus_mod_idemp_l. f_equal. lia. }
  replace (64 - (64 - Z.of_nat (length (rest 64 m)))) with (Z.of_nat (length (rest 64 m))) by lia.
  rewrite Hj. destruct (Z.ltb_spec (Z.of_nat (length d)) (64 - Z.of_nat (length (rest 64 m)))) as [Hl|Hl].
  - rewrite copy_to_prefix by lia. obind. eexists. split; [done|].
    destruct (absorb_pending 64 md5_transform ltac:(lia) md5_iv m d) as [E1 E2]; [lia|].
    constructor; simpl; [congruence | | len | done].
    exists (drop (length d) j). by rewrite E2, <- app_assoc.
  - set (av := (64 - length (rest 64 m))%nat).
    replace (64 - Z.of_nat (length (rest 64 m))) with (Z.of_nat av) by lia.
    rewrite (copy_from_eq d _ _ 0 av), drop_0 by lia. obind.
    rewrite copy_to_prefix by (rewrite length_take; lia). obind.
    rewrite (drop_ge j), app_nil_r by (rewrite length_take; lia).
    set (blk := rest 64 m ++ take av d).
    assert (length blk = 64%nat) as Hblk by (unfold blk; len).
    replace (Z.of_nat (length d) - Z.of_nat av) with (Z.of_nat (length d - av)) by lia.
    destruct (md5_blocks_run d av (md5_transform (hash c) blk) blk (S (length d)))
      as (blk' & k' & Hb' & Hk' & Hdrop & ->); [lia | done | lia|]. obind.
    rewrite copy_from_ok by lia. obind. rewrite take_ge by (rewrite length_drop; lia).
    pose proof (rest_lt 64 ltac:(lia) (drop av d)) as Hlt'. rewrite <- Hdrop in Hlt'.
    rewrite copy_to_0 by lia. obind. eexists. split; [done|].
    destruct (absorb_complete 64 md5_transform ltac:(lia) md5_iv m d av) as [E1 E2]; [lia..|].
    constructor; simpl; [by rewrite E1, Hh | | len | done].
    rewrite E2, Hdrop. by eexists.
Qed.

Lemma md5_updates_repr packets c m :
  md5_repr c m -> Forall (fun d : bytes => Z.of_nat (length d) < 2 ^ 32) packets ->
  exists c', md5_updates c packets = Some c' /\ md5_repr c' (m ++ List.concat packets).
Proof.
  revert c m. induction packets as [|d packets IH]; intros c m Hr Hp.
  - exists c. split; [done|]. by rewrite app_nil_r.
  - apply Forall_cons in Hp as [Hd Hp]. destruct (md5_update_repr c m d Hr Hd) as (c1 & E1 & H1).
    destruct (IH c1 (m ++ d) H1 Hp) as (c2 & E2 & H2). exists c2. simpl. rewrite E1. simpl.
    split; [done|]. by rewrite app_assoc.
Qed.

(** * The digest *)

(** The padding of RFC 1321: a 1 bit, zeros up to 56 modulo 64, and the length in
    bits modulo 2^64. *)
Definition md5_pad (m : bytes) : bytes :=
  Byte.x80 :: replicate (Z.to_nat ((55 - Z.of_nat (length m)) mod 64)) Byte.x00
    ++ le_split 8 (8 * Z.of_nat (length m)).

Lemma md5_length_bytes c m :
  md5_repr c m ->
  le_split 4 (u32 (Z.shiftl (byte_count c) 3)) ++ le_split 4 (u32 (Z.shiftr (byte_count c) 29)) =
  le_split 8 (8 * Z.of_nat (length m)).
Proof.
  intros [_ _ _ Hc]. rewrite Hc, !le_split_u32. symmetry.
  rewrite <- (le_split_u64 (8 * _)).
  replace (u64 (8 * Z.of_nat (length m))) with (u64 (Z.shiftl (u64 (Z.of_nat (length m))) 3)).
  2:{ unfold u64. rewrite Z.shiftl_mul_pow2 by lia. rewrite Zmult_mod_idemp_l. f_equal. lia. }
  rewrite le_split_u64, le_split_8, Z.shiftr_shiftl_r by lia. done.
Qed.

(** The last block: zeros up to byte 56, then the length. *)
Lemma md5_last_block {A} (blk p : bytes) (off k : nat) l1 l2 (g : bytes -> option A) :
  length blk = 64%nat -> (exists j, blk = p ++ j) -> length p = off -> (off + k = 56)%nat ->
  length l1 = 4%nat -> length l2 = 4%nat ->
  (blk ← copy_to blk (Z.of_nat off) (replicate k Byte.x00);
   blk ← copy_to blk 56 l1; blk ← copy_to blk 60 l2; g blk) =
  g (p ++ replicate k Byte.x00 ++ l1 ++ l2).
Proof.
  intros Hb [j ->] Hp Hk H1 H2. rewrite length_app in Hb.
  rewrite (copy_to_eq _ p j) by (done || lia || len). obind.
  rewrite length_replicate. set (z := replicate k Byte.x00).
  assert (length z = k) as Hz by apply length_replicate.
  rewrite (copy_to_eq _ (p ++ z) (drop k j)); [ | by rewrite <- !app_assoc | len | len]. obind.
  rewrite (copy_to_eq _ ((p ++ z) ++ l1) (drop (length l1) (drop k j)));
    [ | by rewrite <- !app_assoc | len | len]. obind.
  rewrite (drop_ge (drop _ _)) by len. by rewrite app_nil_r, <- !app_assoc.
Qed.

Lemma md5_final_digest c m :
  md5_repr c m ->
  exists c', fio_md5_final c = Some c' /\ hash c' = md5_absorb md5_iv (m ++ md5_pad m).
Proof.
  intros Hr. pose proof (md5_offset c m Hr) as Ho. pose proof (md5_length_bytes c m Hr) as Hlen.
  destruct Hr as [Hh [j Hj] Hs Hc]. unfold fio_md5_final. rewrite Ho.
  pose proof (rest_lt 64 ltac:(lia) m) as Hlt. pose proof (length_rest 64 ltac:(lia) m) as Hmod.
  destruct (absorb_app 64 md5_transform ltac:(lia) md5_iv m (md5_pad m)) as [-> _].
  set (r := rest 64 m) in *. rewrite <- Hh.
  assert (length j = 64 - length r)%nat as Hlj by (rewrite Hj, length_app in Hs; lia).
  rewrite (copy_to_eq _ r j) by (done || simpl; lia). obind. simpl length.
  assert ((55 - Z.of_nat (length m)) mod 64 = (55 - Z.of_nat (length r)) mod 64) as Hz.
  { rewrite Hmod, Nat2Z.inj_mod. change (Z.of_nat 64) with 64.
    by rewrite Zminus_mod_idemp_r. }
  unfold md5_pad. rewrite Hz, <- Hlen.
  pose proof (length_le_split 4 (u32 (byte_count c ≪ 3))) as Hl1.
  pose proof (length_le_split 4 (u32 (byte_count c ≫ 29))) as Hl2.
  revert Hl1 Hl2. generalize (le_split 4 (u32 (byte_count c ≪ 3))) as l1.
  generalize (le_split 4 (u32 (byte_count c ≫ 29))) as l2. intros l2 l1 Hl1 Hl2.
  destruct (Z.ltb_spec (56 - (Z.of_nat (length r) + 1)) 0) as [Hneg|Hpos].
  - set (k := Z.to_nat (56 - (Z.of_nat (length r) + 1) + 8)).
    rewrite (copy_to_eq _ (r ++ [Byte.x80]) (drop 1 j));
      [ | by rewrite <- !app_assoc | len | unfold k; len]. obind.
    rewrite (drop_ge (drop 1 j)), app_nil_r by (unfold k; len).
    set (b1 := (r ++ [Byte.x80]) ++ replicate k Byte.x00).
    assert (length b1 = 64%nat) as Hb1 by (unfold b1, k; len).
    rewrite (md5_last_block b1 [] 0 56) by (done || eauto).
    eexists. split; [done|]. simpl hash.
    set (tl := [] ++ replicate 56 Byte.x00 ++ l1 ++ l2).
    assert (length tl = 64%nat) as Htl by (unfold tl; len).
    assert (r ++ Byte.x80 :: replicate (Z.to_nat ((55 - Z.of_nat (length r)) mod 64)) Byte.x00 ++ l1 ++ l2
            = b1 ++ tl) as ->.
    { assert (Z.to_nat ((55 - Z.of_nat (length r)) mod 64) = (k + 56)%nat) as ->.
      { rewrite <- (Z.mod_add _ 1), Z.mod_small by lia. unfold k. lia. }
      unfold b1, tl. by rewrite replicate_add, <- !app_assoc. }
    destruct (absorb_step 64 md5_transform ltac:(lia) (hash c) (b1 ++ tl)) as [-> _]; [len|].
    rewrite take_app_length', drop_app_length' by done.
    by rewrite absorb_block by lia.
  - obind. replace (Z.of_nat (length r) + 1) with (Z.of_nat (length r + 1)) by lia.
    rewrite (md5_last_block _ (r ++ [Byte.x80])) by
      (try (len; fail); try done; exists (drop 1 j); by rewrite <- app_assoc).
    eexists. split; [done|]. simpl hash.
    assert (r ++ Byte.x80 :: replicate (Z.to_nat ((55 - Z.of_nat (length r)) mod 64)) Byte.x00 ++ l1 ++ l2
      = (r ++ [Byte.x80]) ++ replicate (Z.to_nat (56 - Z.of_nat (length r + 1))) Byte.x00 ++ l1 ++ l2) as ->.
    { assert (Z.to_nat ((55 - Z.of_nat (length r)) mod 64) =
              Z.to_nat (56 - Z.of_nat (length r + 1))) as -> by (rewrite Z.mod_small by lia; lia).
      by rewrite <- !app_assoc. }
    set (b1 := (r ++ [Byte.x80]) ++ _).
    assert (length b1 = 64%nat) as Hb1 by (unfold b1; len).
    by rewrite absorb_block by lia.
Qed.

(** The MD5 context computes the digest of the padded message, however the
    message is cut into packets.  From a context with a zeroed count and any
    block content, fio_md5_init, fio_md5_update on each packet and fio_md5_final
    stay inside the block and the data and leave the hash of the message padded
    as RFC 1321 says. *)
Theorem md5_stream blk packets :
  length blk = 64%nat -> Forall (fun d : bytes => Z.of_nat (length d) < 2 ^ 32) packets ->
  let m := List.concat packets in
  exists c', (c ← md5_updates (md5_fresh blk) packets; fio_md5_final c) = Some c' /\
    hash c' = absorb 64 md5_transform md5_iv (m ++ md5_pad m).
Proof.
  intros Hb Hp m.
  destruct (md5_updates_repr packets _ [] (md5_fresh_repr blk Hb) Hp) as (c & -> & Hr).
  apply (md5_final_digest c m Hr).
Qed.

Lemma md5_stream_witness :
  let packets := [[Byte.x61]; []; [Byte.x62; Byte.x63]] in
  let m := List.concat packets in
  exists c', (c ← md5_updates (md5_fresh (replicate 64 Byte.xff)) packets; fio_md5_final c) = Some c' /\
    hash c' = absorb 64 md5_transform md5_iv (m ++ md5_pad m).
Proof.
  apply (md5_stream (replicate 64 Byte.xff) [[Byte.x61]; []; [Byte.x62; Byte.x63]]);
    [reflexivity | repeat constructor].
Defined.
