(* ===== verification/Sha1.v ===== *)
(** The SHA-1 of src/fio/crc/sha1.c: the unrolled block function with its rolling
    16 word array against the schedule of FIPS 180, and the context fed with
    packets against the hash of the padded message. *)
From S2P Require Import Prelude Blocks.

Abbreviation sha1_H := (Z * Z * Z * Z * Z)%type.

(** * The block function as the code unrolls it *)

(** [W(x)] and [setW(x, val)] on the 16 words of [array]. *)
Definition Wget (array : list Z) (x : Z) : Z := nth (Z.to_nat (Z.land x 15)) array 0.
Definition setW (array : list Z) (x val : Z) : list Z := <[Z.to_nat (Z.land x 15) := val]> array.

Definition SHA_SRC (data : bytes) (array : list Z) (t : Z) : Z := be_word 4 data t.
Definition SHA_MIX (array : list Z) (t : Z) : Z :=
  rotl32 (Z.lxor (Z.lxor (Z.lxor (Wget array (t + 13)) (Wget array (t + 8))) (Wget array (t + 2)))
            (Wget array t)) 1.

(** [SHA_ROUND]: the new array and the new values of the variables passed as [B]
    and [E]. *)
Definition SHA_ROUND (t TEMP fn constant A B E : Z) (array : list Z) : list Z * Z * Z :=
  (setW array t TEMP,
   ror32 B 2,
   add32 E (add32 (add32 (add32 TEMP (rotl32 A 5)) fn) constant)).

Definition T_0_15 (data : bytes) (t A B C D E : Z) (array : list Z) : list Z * Z * Z :=
  SHA_ROUND t (SHA_SRC data array t) (Z.lxor (Z.land (Z.lxor C D) B) D) 0x5a827999 A B E array.
Definition T_16_19 (data : bytes) (t A B C D E : Z) (array : list Z) : list Z * Z * Z :=
  SHA_ROUND t (SHA_MIX array t) (Z.lxor (Z.land (Z.lxor C D) B) D) 0x5a827999 A B E array.
Definition T_20_39 (data : bytes) (t A B C D E : Z) (array : list Z) : list Z * Z * Z :=
  SHA_ROUND t (SHA_MIX array t) (Z.lxor (Z.lxor B C) D) 0x6ed9eba1 A B E array.
Definition T_40_59 (data : bytes) (t A B C D E : Z) (array : list Z) : list Z * Z * Z :=
  SHA_ROUND t (SHA_MIX array t) (add32 (Z.land B C) (Z.land D (Z.lxor B C))) 0x8f1bbcdc A B E array.
Definition T_60_79 (data : bytes) (t A B C D E : Z) (array : list Z) : list Z * Z * Z :=
  SHA_ROUND t (SHA_MIX array t) (Z.lxor (Z.lxor B C) D) 0xca62c1d6 A B E array.

(** [array0] is the uninitialised array of the frame. *)
Definition blk_SHA1Block (array0 : list Z) (H : sha1_H) (data : bytes) : sha1_H :=
  let '(H0, H1, H2, H3, H4) := H in
  let array := array0 in
  let A := H0 in let B := H1 in let C := H2 in let D := H3 in let E := H4 in
  let '(array, B, E) := T_0_15 data 0 A B C D E array in
  let '(array, A, D) := T_0_15 data 1 E A B C D array in
  let '(array, E, C) := T_0_15 data 2 D E A B C array in
  let '(array, D, B) := T_0_15 data 3 C D E A B array in
  let '(array, C, A) := T_0_15 data 4 B C D E A array in
  let '(array, B, E) := T_0_15 data 5 A B C D E array in
  let '(array, A, D) := T_0_15 data 6 E A B C D array in
  let '(array, E, C) := T_0_15 data 7 D E A B C array in
  let '(array, D, B) := T_0_15 data 8 C D E A B array in
  let '(array, C, A) := T_0_15 data 9 B C D E A array in
  let '(array, B, E) := T_0_15 data 10 A B C D E array in
  let '(array, A, D) := T_0_15 data 11 E A B C D array in
  let '(array, E, C) := T_0_15 data 12 D E A B C array in
  let '(array, D, B) := T_0_15 data 13 C D E A B array in
  let '(array, C, A) := T_0_15 data 14 B C D E A array in
  let '(array, B, E) := T_0_15 data 15 A B C D E array in
  let '(array, A, D) := T_16_19 data 16 E A B C D array in
  let '(array, E, C) := T_16_19 data 17 D E A B C array in
  let '(array, D, B) := T_16_19 data 18 C D E A B array in
  let '(array, C, A) := T_16_19 data 19 B C D E A array in
  let '(array, B, E) := T_20_39 data 20 A B C D E array in
  let '(array, A, D) := T_20_39 data 21 E A B C D array in
  let '(array, E, C) := T_20_39 data 22 D E A B C array in
  let '(array, D, B) := T_20_39 data 23 C D E A B array in
  let '(array, C, A) := T_20_39 data 24 B C D E A array in
  let '(array, B, E) := T_20_39 data 25 A B C D E array in
  let '(array, A, D) := T_20_39 data 26 E A B C D array in
  let '(array, E, C) := T_20_39 data 27 D E A B C array in
  let '(array, D, B) := T_20_39 data 28 C D E A B array in
  let '(array, C, A) := T_20_39 data 29 B C D E A array in
  let '(array, B, E) := T_20_39 data 30 A B C D E array in
  let '(array, A, D) := T_20_39 data 31 E A B C D array in
  let '(array, E, C) := T_20_39 data 32 D E A B C array in
  let '(array, D, B) := T_20_39 data 33 C D E A B array in
  let '(array, C, A) := T_20_39 data 34 B C D E A array in
  let '(array, B, E) := T_20_39 data 35 A B C D E array in
  let '(array, A, D) := T_20_39 data 36 E A B C D array in
  let '(array, E, C) := T_20_39 data 37 D E A B C array in
  let '(array, D, B) := T_20_39 data 38 C D E A B array in
  let '(array, C, A) := T_20_39 data 39 B C D E A array in
  let '(array, B, E) := T_40_59 data 40 A B C D E array in
  let '(array, A, D) := T_40_59 data 41 E A B C D array in
  let '(array, E, C) := T_40_59 data 42 D E A B C array in
  let '(array, D, B) := T_40_59 data 43 C D E A B array in
  let '(array, C, A) := T_40_59 data 44 B C D E A array in
  let '(array, B, E) := T_40_59 data 45 A B C D E array in
  let '(array, A, D) := T_40_59 data 46 E A B C D array in
  let '(array, E, C) := T_40_59 data 47 D E A B C array in
  let '(array, D, B) := T_40_59 data 48 C D E A B array in
  let '(array, C, A) := T_40_59 data 49 B C D E A array in
  let '(array, B, E) := T_40_59 data 50 A B C D E array in
  let '(array, A, D) := T_40_59 data 51 E A B C D array in
  let '(array, E, C) := T_40_59 data 52 D E A B C array in
  let '(array, D, B) := T_40_59 data 53 C D E A B array in
  let '(array, C, A) := T_40_59 data 54 B C D E A array in
  let '(array, B, E) := T_40_59 data 55 A B C D E array in
  let '(array, A, D) := T_40_59 data 56 E A B C D array in
  let '(array, E, C) := T_40_59 data 57 D E A B C array in
  let '(array, D, B) := T_40_59 data 58 C D E A B array in
  let '(array, C, A) := T_40_59 data 59 B C D E A array in
  let '(array, B, E) := T_60_79 data 60 A B C D E array in
  let '(array, A, D) := T_60_79 data 61 E A B C D array in
  let '(array, E, C) := T_60_79 data 62 D E A B C array in
  let '(array, D, B) := T_60_79 data 63 C D E A B array in
  let '(array, C, A) := T_60_79 data 64 B C D E A array in
  let '(array, B, E) := T_60_79 data 65 A B C D E array in
  let '(array, A, D) := T_60_79 data 66 E A B C D array in
  let '(array, E, C) := T_60_79 data 67 D E A B C array in
  let '(array, D, B) := T_60_79 data 68 C D E A B array in
  let '(array, C, A) := T_60_79 data 69 B C D E A array in
  let '(array, B, E) := T_60_79 data 70 A B C D E array in
  let '(array, A, D) := T_60_79 data 71 E A B C D array in
  let '(array, E, C) := T_60_79 data 72 D E A B C array in
  let '(array, D, B) := T_60_79 data 73 C D E A B array in
  let '(array, C, A) := T_60_79 data 74 B C D E A array in
  let '(array, B, E) := T_60_79 data 75 A B C D E array in
  let '(array, A, D) := T_60_79 data 76 E A B C D array in
  let '(array, E, C) := T_60_79 data 77 D E A B C array in
  let '(array, D, B) := T_60_79 data 78 C D E A B array in
  let '(array, C, A) := T_60_79 data 79 B C D E A array in
  (add32 H0 A, add32 H1 B, add32 H2 C, add32 H3 D, add32 H4 E).

(** * FIPS 180-4, section 6.1.2 *)

Definition sha1_next (data : bytes) (t : nat) (W : list Z) : Z :=
  if (t <? 16)%nat then be_word 4 data (Z.of_nat t)
  else rotl32 (Z.lxor (Z.lxor (Z.lxor (nth (t - 3) W 0) (nth (t - 8) W 0)) (nth (t - 14) W 0))
                 (nth (t - 16) W 0)) 1.

Definition sha1_f (t : nat) (b c d : Z) : Z :=
  if (t <? 20)%nat then Z.lxor (Z.land b c) (Z.ldiff d b)
  else if (t <? 40)%nat then Z.lxor (Z.lxor b c) d
  else if (t <? 60)%nat then Z.lxor (Z.lxor (Z.land b c) (Z.land b d)) (Z.land c d)
  else Z.lxor (Z.lxor b c) d.

Definition sha1_K (t : nat) : Z :=
  if (t <? 20)%nat then 0x5a827999 else if (t <? 40)%nat then 0x6ed9eba1
  else if (t <? 60)%nat then 0x8f1bbcdc else 0xca62c1d6.

Definition sha1_round (W : Z) (t : nat) (s : sha1_H) : sha1_H :=
  let '(a, b, c, d, e) := s in
  (add32 (add32 (add32 (add32 (rotl32 a 5) (sha1_f t b c d)) e) (sha1_K t)) W, a, rotl32 b 30, c, d).

Fixpoint sha1_rounds (data : bytes) (n : nat) (s : sha1_H) : sha1_H :=
  match n with
  | O => s
  | S n' => sha1_round (sched_word (sha1_next data) n') n' (sha1_rounds data n' s)
  end.

Definition sha1_compress (H : sha1_H) (data : bytes) : sha1_H :=
  let '(H0, H1, H2, H3, H4) := H in
  let '(a, b, c, d, e) := sha1_rounds data 80 H in
  (add32 H0 a, add32 H1 b, add32 H2 c, add32 H3 d, add32 H4 e).

(** The rolling array holds the last 16 words of the schedule. *)
Record roll (data : bytes) (t : nat) (array : list Z) : Prop := {
  roll_len : length array = 16%nat;
  roll_word : forall i, (i < t <= i + 16)%nat ->
    Wget array (Z.of_nat i) = sched_word (sha1_next data) i
}.

Lemma land_15 i : Z.to_nat (Z.land (Z.of_nat i) 15) = (i mod 16)%nat.
Proof.
  change 15 with (Z.ones 4). rewrite Z.land_ones by lia. change (2 ^ 4) with (Z.of_nat 16).
  by rewrite <- Nat2Z.inj_mod, Nat2Z.id.
Qed.

Lemma roll_set data t array :
  roll data t array ->
  roll data (S t) (setW array (Z.of_nat t) (sched_word (sha1_next data) t)).
Proof.
  intros [Hl Hw]. constructor; [by unfold setW; rewrite length_insert|].
  intros i Hi. unfold Wget, setW. rewrite !land_15.
  pose proof (Nat.mod_upper_bound i 16 ltac:(lia)).
  rewrite !nth_lookup. destruct (decide (i = t)) as [->|Hne].
  - by rewrite list_lookup_insert_eq by lia.
  - rewrite list_lookup_insert_ne.
    + specialize (Hw i ltac:(lia)). unfold Wget in Hw. by rewrite land_15, nth_lookup in Hw.
    + intros E. pose proof (Nat.div_mod i 16 ltac:(lia)). pose proof (Nat.div_mod t 16 ltac:(lia)). nia.
Qed.

Lemma Wget_wrap array a b :
  Z.land a 15 = Z.land b 15 -> Wget array a = Wget array b.
Proof. unfold Wget. by intros ->. Qed.

Lemma SHA_MIX_next data t array :
  roll data t array -> (16 <= t)%nat -> SHA_MIX array (Z.of_nat t) = sched_word (sha1_next data) t.
Proof.
  intros [_ Hw] Ht. rewrite sched_word_next. unfold sha1_next, SHA_MIX.
  rewrite (proj2 (Nat.ltb_ge _ _)) by lia. fold (sha1_next data).
  rewrite !nth_schedule by lia.
  assert (forall d (k : nat), d = 16 - Z.of_nat k -> (0 < k <= 16)%nat ->
    Wget array (Z.of_nat t + d) = sched_word (sha1_next data) (t - k)) as Hk.
  { intros d k -> Hk. rewrite <- (Hw (t - k)%nat) by lia. apply Wget_wrap.
    change 15 with (Z.ones 4). rewrite !Z.land_ones by lia.
    replace (Z.of_nat t + (16 - Z.of_nat k)) with (Z.of_nat (t - k) + 1 * 2 ^ 4) by lia.
    by rewrite Z.mod_add. }
  rewrite (Hk 13 3%nat), (Hk 8 8%nat), (Hk 2 14%nat) by lia.
  replace (Wget array (Z.of_nat t)) with (sched_word (sha1_next data) (t - 16)); [done|].
  rewrite <- (Hk 0 16%nat) by lia. f_equal. lia.
Qed.

(** One unrolled round is one round of the standard. *)
Definition round_ok (T : bytes -> Z -> Z -> Z -> Z -> Z -> Z -> list Z -> list Z * Z * Z)
    (lo hi : nat) : Prop :=
  forall data s0 (t : nat) A B C D E array, (lo <= t < hi)%nat -> roll data t array ->
    sha1_rounds data t s0 = (A, B, C, D, E) ->
    let '(array', B', E') := T data (Z.of_nat t) A B C D E array in
    roll data (S t) array' /\ sha1_rounds data (S t) s0 = (E', A, B', C, D).

Lemma SHA_ROUND_ok data s0 (t : nat) TEMP fn k A B C D E array :
  roll data t array -> sha1_rounds data t s0 = (A, B, C, D, E) ->
  TEMP = sched_word (sha1_next data) t -> u32 fn = u32 (sha1_f t B C D) -> k = sha1_K t ->
  let '(array', B', E') := SHA_ROUND (Z.of_nat t) TEMP fn k A B E array in
  roll data (S t) array' /\ sha1_rounds data (S t) s0 = (E', A, B', C, D).
Proof.
  intros Hr Hs -> Hf ->. unfold SHA_ROUND. split; [by apply roll_set|].
  cbn [sha1_rounds]. rewrite Hs. unfold sha1_round.
  assert (ror32 B 2 = rotl32 B 30) as -> by (unfold ror32, rotl32; apply Z.lor_comm).
  do 4 f_equal. set (W := sched_word _ _). set (f := sha1_f t B C D) in *.
  generalize dependent f. generalize (rotl32 A 5) (sha1_K t). intros r k f Hf.
  unfold add32, u32 in *. change (2 ^ 32) with 4294967296 in *.
  Z.to_euclidean_division_equations. lia.
Qed.

Lemma T_0_15_ok : round_ok T_0_15 0 16.
Proof.
  intros data s0 t A B C D E array Ht Hr Hs. apply (SHA_ROUND_ok data s0); try done.
  - rewrite sched_word_next. unfold sha1_next, SHA_SRC. by rewrite (proj2 (Nat.ltb_lt _ _)) by lia.
  - unfold sha1_f. rewrite (proj2 (Nat.ltb_lt _ _)) by lia. f_equal. bitwise.
  - unfold sha1_K. by rewrite (proj2 (Nat.ltb_lt _ _)) by lia.
Qed.

Lemma T_16_19_ok : round_ok T_16_19 16 20.
Proof.
  intros data s0 t A B C D E array Ht Hr Hs. apply (SHA_ROUND_ok data s0); try done.
  - by apply SHA_MIX_next; [|lia].
  - unfold sha1_f. rewrite (proj2 (Nat.ltb_lt _ _)) by lia. f_equal. bitwise.
  - unfold sha1_K. by rewrite (proj2 (Nat.ltb_lt _ _)) by lia.
Qed.

Lemma T_20_39_ok : round_ok T_20_39 20 40.
Proof.
  intros data s0 t A B C D E array Ht Hr Hs. apply (SHA_ROUND_ok data s0); try done;
    [by apply SHA_MIX_next; [|lia] | unfold sha1_f | unfold sha1_K];
    by rewrite (proj2 (Nat.ltb_ge t 20)), (proj2 (Nat.ltb_lt t 40)) by lia.
Qed.

Lemma T_40_59_ok : round_ok T_40_59 40 60.
Proof.
  intros data s0 t A B C D E array Ht Hr Hs. apply (SHA_ROUND_ok data s0); try done;
    [by apply SHA_MIX_next; [|lia] | unfold sha1_f | unfold sha1_K];
    rewrite (proj2 (Nat.ltb_ge t 20)), (proj2 (Nat.ltb_ge t 40)), (proj2 (Nat.ltb_lt t 60)) by lia;
    [|done].
  unfold add32. rewrite Z.add_nocarry_lxor by bitwise. unfold u32. rewrite Z.mod_mod by lia.
  f_equal. bitwise.
Qed.

Lemma T_60_79_ok : round_ok T_60_79 60 80.
Proof.
  intros data s0 t A B C D E array Ht Hr Hs. apply (SHA_ROUND_ok data s0); try done;
    [by apply SHA_MIX_next; [|lia] | unfold sha1_f | unfold sha1_K];
    by rewrite (proj2 (Nat.ltb_ge t 20)), (proj2 (Nat.ltb_ge t 40)), (proj2 (Nat.ltb_ge t 60)) by lia.
Qed.

(** The next unrolled round of the goal, by the lemma of its macro. *)
Ltac sha1_step T Tok :=
  match goal with
  | Hr : roll ?data ?t ?arr, Hs : sha1_rounds ?data ?t ?s0 = (?A, ?B, ?C, ?D, ?E)
    |- context [T ?data _ ?A ?B ?C ?D ?E ?arr] =>
      let H := fresh in
      pose proof (Tok data s0 t A B C D E arr ltac:(lia) Hr Hs) as H;
      simpl Z.of_nat in H; clear Hr Hs;
      destruct (T data _ A B C D E arr) as [[? ?] ?]; destruct H
  end.

Lemma blk_SHA1Block_compress array0 H data :
  length array0 = 16%nat -> blk_SHA1Block array0 H data = sha1_compress H data.
Proof.
  intros Hl. destruct H as [[[[H0 H1] H2] H3] H4]. unfold blk_SHA1Block, sha1_compress. cbv zeta.
  assert (roll data 0 array0) as Hr by (constructor; [done | lia]).
  assert (sha1_rounds data 0 (H0, H1, H2, H3, H4) = (H0, H1, H2, H3, H4)) as Hs by done.
  do 16 sha1_step T_0_15 T_0_15_ok.
  do 4 sha1_step T_16_19 T_16_19_ok.
  do 20 sha1_step T_20_39 T_20_39_ok.
  do 20 sha1_step T_40_59 T_40_59_ok.
  do 20 sha1_step T_60_79 T_60_79_ok.
  match goal with Hs : sha1_rounds _ 80 _ = _ |- _ => by rewrite Hs end.
Qed.

(** * The context *)

Record fio_sha1_ctx : Type := mkSha1 {
  sha1_h : sha1_H;
  sha1_W : bytes;            (* unsigned int W[16] *)
  sha1_size : Z
}.

Definition sha1_iv : sha1_H := (0x67452301, 0xefcdab89, 0x98badcfe, 0x10325476, 0xc3d2e1f0).

Definition fio_sha1_init (ctx : fio_sha1_ctx) : fio_sha1_ctx := mkSha1 sha1_iv (sha1_W ctx) 0.

Section Context_.
Variable array0 : list Z.
Hypothesis Harray0 : length array0 = 16%nat.

(** [while (len >= 64)] over the data. *)
Fixpoint sha1_blocks (fuel : nat) (h : sha1_H) (data : bytes) (pos len : Z) :
    option (sha1_H * Z * Z) :=
  match fuel with
  | O => None
  | S fuel' =>
      if 64 <=? len then
        src ← copy_from data pos 64;
        sha1_blocks fuel' (blk_SHA1Block array0 h src) data (pos + 64) (len - 64)
      else Some (h, pos, len)
  end.

(** The end of the update, from [while (len >= 64)] on. *)
Definition sha1_tail (h : sha1_H) (W data : bytes) (pos len size : Z) : option fio_sha1_ctx :=
  r ← sha1_blocks (S (length data)) h data pos len;
  let '(h, pos, len) := r in
  if len =? 0 then Some (mkSha1 h W size) else
  src ← copy_from data pos len;
  W ← copy_to W 0 src;
  Some (mkSha1 h W size).

Definition fio_sha1_update (ctx : fio_sha1_ctx) (data : bytes) : option fio_sha1_ctx :=
  let len := u64 (Z.of_nat (length data)) in
  let lenW := Z.land (sha1_size ctx) 63 in
  let size := u64 (sha1_size ctx + len) in
  if lenW =? 0 then sha1_tail (sha1_h ctx) (sha1_W ctx) data 0 len size
  else
    let left := 64 - lenW in
    let left := if len <? left then len else left in
    src ← copy_from data 0 left;
    W ← copy_to (sha1_W ctx) lenW src;
    let lenW := Z.land (lenW + left) 63 in
    if negb (lenW =? 0) then Some (mkSha1 (sha1_h ctx) W size)
    else sha1_tail (blk_SHA1Block array0 (sha1_h ctx) W) W data left (len - left) size.

Definition sha1_padding : bytes := Byte.x80 :: replicate 63 Byte.x00.

Definition fio_sha1_final (ctx : fio_sha1_ctx) : option fio_sha1_ctx :=
  let padlen := be32 (u32 (Z.shiftr (sha1_size ctx) 29)) ++ be32 (u32 (Z.shiftl (sha1_size ctx) 3)) in
  let i := Z.land (sha1_size ctx) 63 in
  p ← copy_from sha1_padding 0 (1 + Z.land 63 (55 - i));
  ctx ← fio_sha1_update ctx p;
  fio_sha1_update ctx padlen.

Fixpoint sha1_updates (ctx : fio_sha1_ctx) (packets : list bytes) : option fio_sha1_ctx :=
  match packets with
  | [] => Some ctx
  | d :: packets' => ctx ← fio_sha1_update ctx d; sha1_updates ctx packets'
  end.

(** ** The context represents the message fed so far *)

Abbreviation sha1_absorb := (absorb 64 sha1_compress).

Record sha1_repr (c : fio_sha1_ctx) (m : bytes) : Prop := {
  s1_hash : sha1_h c = sha1_absorb sha1_iv m;
  s1_W : exists j, sha1_W c = rest 64 m ++ j;
  s1_len : length (sha1_W c) = 64%nat;
  s1_size : sha1_size c = u64 (Z.of_nat (length m))
}.

Lemma sha1_init_repr c : length (sha1_W c) = 64%nat -> sha1_repr (fio_sha1_init c) [].
Proof. intros H. constructor; simpl; try done. by eexists. Qed.

Lemma sha1_offset c m :
  sha1_repr c m -> Z.land (sha1_size c) 63 = Z.of_nat (length (rest 64 m)).
Proof.
  intros Hr. rewrite (s1_size _ _ Hr), land_63. change 64 with (2 ^ 6).
  rewrite u64_mod_pow2 by lia. rewrite length_rest by lia. by rewrite Nat2Z.inj_mod.
Qed.

Lemma sha1_blocks_run data k h fuel :
  (k <= length data)%nat -> (length data < fuel + k)%nat ->
  exists k', (k' <= length data)%nat /\ drop k' data = rest 64 (drop k data) /\
    sha1_blocks fuel h data (Z.of_nat k) (Z.of_nat (length data - k)) =
    Some (sha1_absorb h (drop k data), Z.of_nat k', Z.of_nat (length data - k')).
Proof.
  revert k h. induction fuel as [|fuel IH]; intros k h Hk Hf; [lia|]. cbn [sha1_blocks].
  destruct (Z.leb_spec 64 (Z.of_nat (length data - k))) as [Hge|Hlt].
  - rewrite (copy_from_eq data _ _ k 64) by lia. obind.
    destruct (absorb_step 64 sha1_compress ltac:(lia) h (drop k data)) as [-> ->]; [len|].
    rewrite drop_drop, blk_SHA1Block_compress by done.
    replace (Z.of_nat k + 64) with (Z.of_nat (k + 64)) by lia.
    replace (Z.of_nat (length data - k) - 64) with (Z.of_nat (length data - (k + 64))) by lia.
    apply IH; lia.
  - exists k. by destruct (absorb_short 64 sha1_compress h (drop k data)) as [-> ->]; [len|].
Qed.

Lemma sha1_tail_run h W data (k : nat) size :
  (k <= length data)%nat -> length W = 64%nat ->
  exists W', sha1_tail h W data (Z.of_nat k) (Z.of_nat (length data - k)) size =
      Some (mkSha1 (sha1_absorb h (drop k data)) W' size) /\
    length W' = 64%nat /\ exists j, W' = rest 64 (drop k data) ++ j.
Proof.
  intros Hk HW. unfold sha1_tail.
  destruct (sha1_blocks_run data k h (S (length data))) as (k' & Hk' & Hd & ->); [lia..|]. obind.
  pose proof (rest_lt 64 ltac:(lia) (drop k data)) as Hlt. rewrite <- Hd in *.
  destruct (Z.eqb_spec (Z.of_nat (length data - k')) 0) as [E|E].
  - exists W. split; [done|]. split; [done|]. exists W. by rewrite drop_ge by lia.
  - rewrite copy_from_ok by lia. obind. rewrite take_ge by len.
    rewrite copy_to_0 by lia. obind. eexists. split; [done|]. split; [len | by eexists].
Qed.

Lemma sha1_update_repr c m d :
  sha1_repr c m -> Z.of_nat (length d) < 2 ^ 64 ->
  exists c', fio_sha1_update c d = Some c' /\ sha1_repr c' (m ++ d).
Proof.
  intros Hr Hd. pose proof (sha1_offset c m Hr) as Ho.
  destruct Hr as [Hh [j Hj] Hs Hc]. unfold fio_sha1_update. rewrite Ho, (u64_small (Z.of_nat (length d))) by (split; lia).
  pose proof (rest_lt 64 ltac:(lia) m) as Hlt.
  assert (length j = 64 - length (rest 64 m))%nat as Hlj by (rewrite Hj, length_app in Hs; lia).
  assert (u64 (sha1_size c + Z.of_nat (length d)) = u64 (Z.of_nat (length (m ++ d)))) as Hcnt.
  { rewrite Hc, length_app. unfold u64. rewrite Zplus_mod_idemp_l. f_equal. lia. }
  rewrite Hcnt. destruct (Z.eqb_spec (Z.of_nat (length (rest 64 m))) 0) as [E0|E0].
  - destruct (absorb_app 64 sha1_compress ltac:(lia) sha1_iv m d) as [E1 E2].
    assert (rest 64 m = []) as Hnil by (apply nil_length_inv; lia).
    rewrite Hnil in E1, E2. simpl in E1, E2.
    destruct (sha1_tail_run (sha1_h c) (sha1_W c) d 0 (u64 (Z.of_nat (length (m ++ d)))))
      as (W' & Ht & HW' & j' & Hj'); [lia | done|].
    rewrite Nat.sub_0_r in Ht. change (Z.of_nat 0) with 0 in Ht. rewrite Ht.
    eexists. split; [done|]. rewrite drop_0 in *.
    constructor; simpl; [by rewrite E1, Hh | rewrite E2; by eexists | done | done].
  - destruct (Z.ltb_spec (Z.of_nat (length d)) (64 - Z.of_nat (length (rest 64 m)))) as [Hl|Hl].
    + rewrite (copy_from_eq d _ _ 0 (length d)) by lia. obind. rewrite drop_0, take_ge by lia.
      rewrite Hj, copy_to_prefix by lia. obind.
      rewrite land_63, Z.mod_small, (proj2 (Z.eqb_neq _ _)) by lia. simpl negb. cbv iota.
      eexists. split; [done|].
      destruct (absorb_pending 64 sha1_compress ltac:(lia) sha1_iv m d) as [E1 E2]; [lia|].
      constructor; simpl; [congruence | | len | done].
      exists (drop (length d) j). by rewrite E2, <- app_assoc.
    + set (av := (64 - length (rest 64 m))%nat).
      replace (64 - Z.of_nat (length (rest 64 m))) with (Z.of_nat av) by lia.
      rewrite (copy_from_eq d _ _ 0 av), drop_0 by lia. obind.
      rewrite Hj, copy_to_prefix by len. obind. rewrite (drop_ge j), app_nil_r by len.
      replace (Z.of_nat (length (rest 64 m)) + Z.of_nat av) with 64 by lia.
      change (Z.land 64 63) with 0. simpl negb. cbv iota.
      replace (Z.of_nat (length d) - Z.of_nat av) with (Z.of_nat (length d - av)) by lia.
      rewrite blk_SHA1Block_compress by done.
      destruct (sha1_tail_run (sha1_compress (sha1_h c) (rest 64 m ++ take av d)) (rest 64 m ++ take av d) d av
        (u64 (Z.of_nat (length (m ++ d))))) as (W' & -> & HW' & j' & Hj'); [lia | len|].
      eexists. split; [done|].
      destruct (absorb_complete 64 sha1_compress ltac:(lia) sha1_iv m d av) as [E1 E2]; [lia..|].
      constructor; simpl; [by rewrite E1, Hh | rewrite E2; by eexists | done | done].
Qed.

Lemma sha1_updates_repr packets c m :
  sha1_repr c m -> Forall (fun d : bytes => Z.of_nat (length d) < 2 ^ 64) packets ->
  exists c', sha1_updates c packets = Some c' /\ sha1_repr c' (m ++ List.concat packets).
Proof.
  revert c m. induction packets as [|d packets IH]; intros c m Hr Hp.
  - exists c. split; [done|]. by rewrite app_nil_r.
  - apply Forall_cons in Hp as [Hd Hp]. destruct (sha1_update_repr c m d Hr Hd) as (c1 & E1 & H1).
    destruct (IH c1 (m ++ d) H1 Hp) as (c2 & E2 & H2). exists c2. simpl. rewrite E1. simpl.
    split; [done|]. by rewrite app_assoc.
Qed.

(** ** The digest *)

(** The padding of FIPS 180: a 1 bit, zeros, and the length in bits as a 64 bit
    big endian number. *)
Definition sha1_pad (m : bytes) : bytes :=
  Byte.x80 :: replicate (Z.to_nat ((55 - Z.of_nat (length m)) mod 64)) Byte.x00
    ++ rev (le_split 8 (8 * Z.of_nat (length m))).

Lemma sha1_final_digest c m :
  sha1_repr c m ->
  exists c', fio_sha1_final c = Some c' /\ sha1_h c' = sha1_absorb sha1_iv (m ++ sha1_pad m).
Proof.
  intros Hr. pose proof (sha1_offset c m Hr) as Ho. unfold fio_sha1_final. rewrite Ho.
  set (z := Z.to_nat ((55 - Z.of_nat (length m)) mod 64)).
  assert (1 + Z.land 63 (55 - Z.of_nat (length (rest 64 m))) = Z.of_nat (S z)) as ->.
  { rewrite Z.land_comm, land_63, length_rest, Nat2Z.inj_mod by lia. change (Z.of_nat 64) with 64.
    rewrite Zminus_mod_idemp_r. unfold z. pose proof (Z.mod_pos_bound (55 - Z.of_nat (length m)) 64).
    lia. }
  assert (z <= 63)%nat as Hz.
  { unfold z. pose proof (Z.mod_pos_bound (55 - Z.of_nat (length m)) 64). lia. }
  rewrite (copy_from_eq _ _ _ 0 (S z)) by (simpl; lia). obind.
  assert (take (S z) (drop 0 sha1_padding) = Byte.x80 :: replicate z Byte.x00) as ->.
  { unfold sha1_padding. cbn [drop take]. rewrite take_replicate. do 2 f_equal. lia. }
  destruct (sha1_update_repr c m (Byte.x80 :: replicate z Byte.x00) Hr) as (c1 & -> & H1);
    [simpl; rewrite length_replicate; lia|]. obind.
  set (pl := be32 _ ++ be32 _).
  assert (pl = rev (le_split 8 (8 * Z.of_nat (length m)))) as Hpl.
  { unfold pl, be32. rewrite <- rev_app_distr. f_equal. rewrite (s1_size _ _ Hr), !le_split_u32.
    rewrite <- (le_split_u64 (8 * _)).
    replace (u64 (8 * Z.of_nat (length m))) with (u64 (Z.shiftl (u64 (Z.of_nat (length m))) 3)).
    2:{ unfold u64. rewrite Z.shiftl_mul_pow2 by lia. rewrite Zmult_mod_idemp_l. f_equal. lia. }
    rewrite le_split_u64, le_split_8, Z.shiftr_shiftl_r by lia. done. }
  destruct (sha1_update_repr c1 _ pl H1) as (c2 & -> & H2);
    [rewrite Hpl, length_rev, length_le_split; lia|].
  exists c2. split; [done|]. rewrite (s1_hash _ _ H2), Hpl, <- app_assoc. done.
Qed.
End Context_.

(** The SHA-1 context computes the digest FIPS 180 defines, however the
    message is cut into packets.  Whatever the context and the uninitialised array
    of the block function held, fio_sha1_init, fio_sha1_update on each packet and
    fio_sha1_final stay inside the buffers and leave the hash of the padded
    message, with the standard's own message schedule and round function. *)
Theorem sha1_stream array0 c packets :
  length array0 = 16%nat -> length (sha1_W c) = 64%nat ->
  Forall (fun d : bytes => Z.of_nat (length d) < 2 ^ 64) packets ->
  let m := List.concat packets in
  exists c', (c ← sha1_updates array0 (fio_sha1_init c) packets; fio_sha1_final array0 c) = Some c' /\
    sha1_h c' = absorb 64 sha1_compress sha1_iv (m ++ sha1_pad m).
Proof.
  intros Ha Hc Hp m.
  destruct (sha1_updates_repr array0 Ha packets _ [] (sha1_init_repr c Hc) Hp) as (c1 & -> & Hr).
  apply (sha1_final_digest array0 Ha c1 m Hr).
Qed.

Definition sha1_demo : fio_sha1_ctx := mkSha1 (0, 0, 0, 0, 0) (replicate 64 Byte.xee) 77.

(** SHA-1 of the string abc, FIPS 180, in two packets. *)
Example sha1_abc :
  sha1_h <$> (c ← sha1_updates (replicate 16 9) (fio_sha1_init sha1_demo) [[Byte.x61]; [Byte.x62; Byte.x63]];
              fio_sha1_final (replicate 16 9) c) =
  Some (0xa9993e36, 0x4706816a, 0xba3e2571, 0x7850c26c, 0x9cd0d89d).
Proof. vm_compute. reflexivity. Qed.

Lemma sha1_stream_witness :
  let packets := [[Byte.x61]; []; [Byte.x62; Byte.x63]] in
  let m := List.concat packets in
  exists c', (c ← sha1_updates (replicate 16 9) (fio_sha1_init sha1_demo) packets;
              fio_sha1_final (replicate 16 9) c) = Some c' /\
    sha1_h c' = absorb 64 sha1_compress sha1_iv (m ++ sha1_pad m).
Proof.
  apply (sha1_stream (replicate 16 9) sha1_demo [[Byte.x61]; []; [Byte.x62; Byte.x63]]);
    [reflexivity | reflexivity | repeat constructor].
Defined.
