(* ===== verification/Sha2.v ===== *)
(** What the SHA-256 and SHA-512 of src/fio/crc share: the round of the two
    files, over the word operations of each, and its agreement with the round of
    FIPS 180. *)
From S2P Require Import Prelude Blocks.

(** Eight working variables. *)
Abbreviation sha2_regs := (Z * Z * Z * Z * Z * Z * Z * Z)%type.

Definition Ch (x y z : Z) : Z := Z.lxor z (Z.land x (Z.lxor y z)).
Definition Maj (x y z : Z) : Z := Z.lor (Z.land x y) (Z.land z (Z.lor x y)).

(** The functions of the standard. *)
Definition fips_Ch (x y z : Z) : Z := Z.lxor (Z.land x y) (Z.ldiff z x).
Definition fips_Maj (x y z : Z) : Z := Z.lxor (Z.lxor (Z.land x y) (Z.land x z)) (Z.land y z).

Lemma Ch_fips x y z : Ch x y z = fips_Ch x y z.
Proof. unfold Ch, fips_Ch. bitwise. Qed.

Lemma Maj_fips x y z : Maj x y z = fips_Maj x y z.
Proof. unfold Maj, fips_Maj. bitwise. Qed.

Section Sha2.
(** Addition of words and the two functions on the working variables. *)
Variables (add : Z -> Z -> Z) (e0 e1 : Z -> Z).

(** Two lines of the unrolled code: the new values of the variables passed as
    [d] and [h]. *)
Definition sha2_round (a b c d e f g h k w : Z) : Z * Z :=
  let t1 := add (add (add (add h (e1 e)) (Ch e f g)) k) w in
  let t2 := add (e0 a) (Maj a b c) in
  (add d t1, add t1 t2).

(** The standard's round, with the constants [K] and the schedule [W]. *)
Variables (K W : nat -> Z).

Definition fips_round (t : nat) (s : sha2_regs) : sha2_regs :=
  let '(a, b, c, d, e, f, g, h) := s in
  let T1 := add (add (add (add h (e1 e)) (fips_Ch e f g)) (K t)) (W t) in
  let T2 := add (e0 a) (fips_Maj a b c) in
  (add T1 T2, a, b, c, add d T1, e, f, g).

Fixpoint fips_rounds (n : nat) (s : sha2_regs) : sha2_regs :=
  match n with
  | O => s
  | S n' => fips_round n' (fips_rounds n' s)
  end.

Lemma sha2_round_ok s0 t a b c d e f g h k w :
  fips_rounds t s0 = (a, b, c, d, e, f, g, h) -> k = K t -> w = W t ->
  let '(d', h') := sha2_round a b c d e f g h k w in
  fips_rounds (S t) s0 = (h', a, b, c, d', e, f, g).
Proof.
  intros Hs -> ->. unfold sha2_round. cbn [fips_rounds]. rewrite Hs. unfold fips_round.
  by rewrite Ch_fips, Maj_fips.
Qed.
End Sha2.

(** * The round constants

    FIPS 180 defines them: the fractional parts of the cube roots of the first
    primes, cut to the width of a word. *)

(** The largest [r] below [2 ^ bits] with [r ^ 3 <= x], bit by bit. *)
Fixpoint cube_root (bits : nat) (x r : Z) : Z :=
  match bits with
  | O => r
  | S b => let r' := r + 2 ^ Z.of_nat b in cube_root b x (if r' ^ 3 <=? x then r' else r)
  end.

Definition is_prime (p : Z) : bool := forallb (fun d => negb (p mod d =? 0)) (seqZ 2 (p - 2)).
Definition primes_below (n : Z) : list Z := List.filter is_prime (seqZ 2 (n - 2)).

Definition fips_K (w : Z) (bits : nat) (p : Z) : Z := cube_root bits (p * 2 ^ (3 * w)) 0 mod 2 ^ w.
