(* ===== verification/Sha256.v ===== *)
(** The SHA-256 of src/fio/crc/sha256.c: the unrolled transform against FIPS 180,
    and the context fed with packets.  The machine is little endian. *)
From S2P Require Import Prelude Blocks Sha2.

Definition sha256_e0 (x : Z) : Z := Z.lxor (Z.lxor (ror32 x 2) (ror32 x 13)) (ror32 x 22).
Definition sha256_e1 (x : Z) : Z := Z.lxor (Z.lxor (ror32 x 6) (ror32 x 11)) (ror32 x 25).
Definition sha256_s0 (x : Z) : Z := Z.lxor (Z.lxor (ror32 x 7) (ror32 x 18)) (Z.shiftr x 3).
Definition sha256_s1 (x : Z) : Z := Z.lxor (Z.lxor (ror32 x 17) (ror32 x 19)) (Z.shiftr x 10).

Definition LOAD_OP (i : nat) (input : bytes) : Z := be_word 4 input (Z.of_nat i).

Definition BLEND_OP (i : nat) (W : list Z) : Z :=
  add32 (add32 (add32 (sha256_s1 (nth (i - 2) W 0)) (nth (i - 7) W 0)) (sha256_s0 (nth (i - 15) W 0)))
    (nth (i - 16) W 0).

(** The array [W] after the two loops that fill it. *)
Definition sha256_W (input : bytes) : list Z :=
  schedule (fun i W => if (i <? 16)%nat then LOAD_OP i input else BLEND_OP i W) 64.

Definition sha256_transform (state : sha2_regs) (input : bytes) : sha2_regs :=
  let Ws := sha256_W input in
  let W := fun i : Z => nth (Z.to_nat i) Ws 0 in
  let ROUND := sha2_round add32 sha256_e0 sha256_e1 in
  let '(s0, s1, s2, s3, s4, s5, s6, s7) := state in
  let a := s0 in let b := s1 in let c := s2 in let d := s3 in
  let e := s4 in let f := s5 in let g := s6 in let h := s7 in
  let '(d, h) := ROUND a b c d e f g h 0x428a2f98 (W 0) in
  let '(c, g) := ROUND h a b c d e f g 0x71374491 (W 1) in
  let '(b, f) := ROUND g h a b c d e f 0xb5c0fbcf (W 2) in
  let '(a, e) := ROUND f g h a b c d e 0xe9b5dba5 (W 3) in
  let '(h, d) := ROUND e f g h a b c d 0x3956c25b (W 4) in
  let '(g, c) := ROUND d e f g h a b c 0x59f111f1 (W 5) in
  let '(f, b) := ROUND c d e f g h a b 0x923f82a4 (W 6) in
  let '(e, a) := ROUND b c d e f g h a 0xab1c5ed5 (W 7) in
  let '(d, h) := ROUND a b c d e f g h 0xd807aa98 (W 8) in
  let '(c, g) := ROUND h a b c d e f g 0x12835b01 (W 9) in
  let '(b, f) := ROUND g h a b c d e f 0x243185be (W 10) in
  let '(a, e) := ROUND f g h a b c d e 0x550c7dc3 (W 11) in
  let '(h, d) := ROUND e f g h a b c d 0x72be5d74 (W 12) in
  let '(g, c) := ROUND d e f g h a b c 0x80deb1fe (W 13) in
  let '(f, b) := ROUND c d e f g h a b 0x9bdc06a7 (W 14) in
  let '(e, a) := ROUND b c d e f g h a 0xc19bf174 (W 15) in
  let '(d, h) := ROUND a b c d e f g h 0xe49b69c1 (W 16) in
  let '(c, g) := ROUND h a b c d e f g 0xefbe4786 (W 17) in
  let '(b, f) := ROUND g h a b c d e f 0x0fc19dc6 (W 18) in
  let '(a, e) := ROUND f g h a b c d e 0x240ca1cc (W 19) in
  let '(h, d) := ROUND e f g h a b c d 0x2de92c6f (W 20) in
  let '(g, c) := ROUND d e f g h a b c 0x4a7484aa (W 21) in
  let '(f, b) := ROUND c d e f g h a b 0x5cb0a9dc (W 22) in
  let '(e, a) := ROUND b c d e f g h a 0x76f988da (W 23) in
  let '(d, h) := ROUND a b c d e f g h 0x983e5152 (W 24) in
  let '(c, g) := ROUND h a b c d e f g 0xa831c66d (W 25) in
  let '(b, f) := ROUND g h a b c d e f 0xb00327c8 (W 26) in
  let '(a, e) := ROUND f g h a b c d e 0xbf597fc7 (W 27) in
  let '(h, d) := ROUND e f g h a b c d 0xc6e00bf3 (W 28) in
  let '(g, c) := ROUND d e f g h a b c 0xd5a79147 (W 29) in
  let '(f, b) := ROUND c d e f g h a b 0x06ca6351 (W 30) in
  let '(e, a) := ROUND b c d e f g h a 0x14292967 (W 31) in
  let '(d, h) := ROUND a b c d e f g h 0x27b70a85 (W 32) in
  let '(c, g) := ROUND h a b c d e f g 0x2e1b2138 (W 33) in
  let '(b, f) := ROUND g h a b c d e f 0x4d2c6dfc (W 34) in
  let '(a, e) := ROUND f g h a b c d e 0x53380d13 (W 35) in
  let '(h, d) := ROUND e f g h a b c d 0x650a7354 (W 36) in
  let '(g, c) := ROUND d e f g h a b c 0x766a0abb (W 37) in
  let '(f, b) := ROUND c d e f g h a b 0x81c2c92e (W 38) in
  let '(e, a) := ROUND b c d e f g h a 0x92722c85 (W 39) in
  let '(d, h) := ROUND a b c d e f g h 0xa2bfe8a1 (W 40) in
  let '(c, g) := ROUND h a b c d e f g 0xa81a664b (W 41) in
  let '(b, f) := ROUND g h a b c d e f 0xc24b8b70 (W 42) in
  let '(a, e) := ROUND f g h a b c d e 0xc76c51a3 (W 43) in
  let '(h, d) := ROUND e f g h a b c d 0xd192e819 (W 44) in
  let '(g, c) := ROUND d e f g h a b c 0xd6990624 (W 45) in
  let '(f, b) := ROUND c d e f g h a b 0xf40e3585 (W 46) in
  let '(e, a) := ROUND b c d e f g h a 0x106aa070 (W 47) in
  let '(d, h) := ROUND a b c d e f g h 0x19a4c116 (W 48) in
  let '(c, g) := ROUND h a b c d e f g 0x1e376c08 (W 49) in
  let '(b, f) := ROUND g h a b c d e f 0x2748774c (W 50) in
  let '(a, e) := ROUND f g h a b c d e 0x34b0bcb5 (W 51) in
  let '(h, d) := ROUND e f g h a b c d 0x391c0cb3 (W 52) in
  let '(g, c) := ROUND d e f g h a b c 0x4ed8aa4a (W 53) in
  let '(f, b) := ROUND c d e f g h a b 0x5b9cca4f (W 54) in
  let '(e, a) := ROUND b c d e f g h a 0x682e6ff3 (W 55) in
  let '(d, h) := ROUND a b c d e f g h 0x748f82ee (W 56) in
  let '(c, g) := ROUND h a b c d e f g 0x78a5636f (W 57) in
  let '(b, f) := ROUND g h a b c d e f 0x84c87814 (W 58) in
  let '(a, e) := ROUND f g h a b c d e 0x8cc70208 (W 59) in
  let '(h, d) := ROUND e f g h a b c d 0x90befffa (W 60) in
  let '(g, c) := ROUND d e f g h a b c 0xa4506ceb (W 61) in
  let '(f, b) := ROUND c d e f g h a b 0xbef9a3f7 (W 62) in
  let '(e, a) := ROUND b c d e f g h a 0xc67178f2 (W 63) in
  (add32 s0 a, add32 s1 b, add32 s2 c, add32 s3 d, add32 s4 e, add32 s5 f, add32 s6 g, add32 s7 h).

(** * FIPS 180-4, section 6.2.2 *)

Definition sha256_K : list Z := Eval vm_compute in fips_K 32 36 <$> primes_below 312.

Definition sha256_compress (state : sha2_regs) (input : bytes) : sha2_regs :=
  let '(s0, s1, s2, s3, s4, s5, s6, s7) := state in
  let Ws := sha256_W input in
  let '(a, b, c, d, e, f, g, h) :=
    fips_rounds add32 sha256_e0 sha256_e1 (fun t => nth t sha256_K 0) (fun t => nth t Ws 0) 64 state in
  (add32 s0 a, add32 s1 b, add32 s2 c, add32 s3 d, add32 s4 e, add32 s5 f, add32 s6 g, add32 s7 h).

(** The next unrolled round of the goal. *)
Ltac sha2_step :=
  match goal with
  | Hs : fips_rounds ?add ?e0 ?e1 ?K ?W ?t ?s0 = (?a, ?b, ?c, ?d, ?e, ?f, ?g, ?h)
    |- context [sha2_round ?add ?e0 ?e1 ?a ?b ?c ?d ?e ?f ?g ?h ?k ?w] =>
      let H := fresh in
      pose proof (sha2_round_ok add e0 e1 K W s0 t a b c d e f g h k w Hs eq_refl eq_refl) as H;
      clear Hs; destruct (sha2_round add e0 e1 a b c d e f g h k w) as [? ?]
  end.

Lemma sha256_transform_compress state input :
  sha256_transform state input = sha256_compress state input.
Proof.
  destruct state as [[[[[[[s0 s1] s2] s3] s4] s5] s6] s7].
  unfold sha256_transform, sha256_compress. cbv zeta beta.
  generalize (sha256_W input). intros W.
  assert (fips_rounds add32 sha256_e0 sha256_e1 (fun t => nth t sha256_K 0) (fun t => nth t W 0) 0
    (s0, s1, s2, s3, s4, s5, s6, s7) = (s0, s1, s2, s3, s4, s5, s6, s7)) as Hs by done.
  do 64 sha2_step.
  match goal with Hs : fips_rounds _ _ _ _ _ 64 _ = _ |- _ => by rewrite Hs end.
Qed.

(** * The context *)

Record fio_sha256_ctx : Type := mkSha256 {
  sha256_count : Z;           (* uint32_t *)
  sha256_state : sha2_regs;
  sha256_buf : bytes          (* the 64 bytes the caller points to *)
}.

Definition sha256_iv : sha2_regs :=
  (0x6a09e667, 0xbb67ae85, 0x3c6ef372, 0xa54ff53a, 0x510e527f, 0x9b05688c, 0x1f83d9ab, 0x5be0cd19).

Definition fio_sha256_init (sctx : fio_sha256_ctx) : fio_sha256_ctx :=
  mkSha256 0 sha256_iv (sha256_buf sctx).

(** [do { transform; done += 64; src = data + done; } while (done + 63 < len)]:
    the state and the last [done]. *)
Fixpoint sha256_blocks (fuel : nat) (state : sha2_regs) (src data : bytes) (done len : Z) :
    option (sha2_regs * Z) :=
  match fuel with
  | O => None
  | S fuel' =>
      let state := sha256_transform state src in
      let done := u32 (done + 64) in
      if u32 (done + 63) <? len then
        src ← copy_from data done 64;
        sha256_blocks fuel' state src data done len
      else Some (state, done)
  end.

(** The first source of the loop: the buffer completed from the data, or the
    data itself; with it [done] and the buffer. *)
Definition sha256_first (buf : bytes) (partial : Z) (data : bytes) : option (Z * bytes * bytes) :=
  if negb (partial =? 0) then
    let done := u32 (- partial) in
    p ← copy_from data 0 (u32 (done + 64));
    buf ← copy_to buf partial p;
    src ← copy_from buf 0 64;
    Some (done, buf, src)
  else
    src ← copy_from data 0 64;
    Some (0, buf, src).

Definition fio_sha256_update (sctx : fio_sha256_ctx) (data : bytes) : option fio_sha256_ctx :=
  let len := u32 (Z.of_nat (length data)) in
  let partial := Z.land (sha256_count sctx) 0x3f in
  let count := u32 (sha256_count sctx + len) in
  if 63 <? u32 (partial + len) then
    '(done, buf, src) ← sha256_first (sha256_buf sctx) partial data;
    '(state, done) ← sha256_blocks (S (length data)) (sha256_state sctx) src data done len;
    src ← copy_from data done (len - done);
    buf ← copy_to buf 0 src;
    Some (mkSha256 count state buf)
  else
    buf ← copy_to (sha256_buf sctx) partial data;
    Some (mkSha256 count (sha256_state sctx) buf).

Definition sha256_padding : bytes := Byte.x80 :: replicate 63 Byte.x00.

(** [sctx->buf[i] = sctx->state[i]] keeps the low byte of each word. *)
Definition sha256_store (state : sha2_regs) : bytes :=
  let '(s0, s1, s2, s3, s4, s5, s6, s7) := state in
  byte.of_Z <$> [s0; s1; s2; s3; s4; s5; s6; s7].

Definition fio_sha256_final (sctx : fio_sha256_ctx) : option fio_sha256_ctx :=
  let bits := u64 (Z.shiftl (sha256_count sctx) 3) in
  let index := Z.land (sha256_count sctx) 0x3f in
  let pad_len := if index <? 56 then 56 - index else (64 + 56) - index in
  p ← copy_from sha256_padding 0 pad_len;
  sctx ← fio_sha256_update sctx p;
  sctx ← fio_sha256_update sctx (le_split 8 bits);
  buf ← copy_to (sha256_buf sctx) 0 (sha256_store (sha256_state sctx));
  Some (mkSha256 (sha256_count sctx) (sha256_state sctx) buf).

Fixpoint sha256_updates (sctx : fio_sha256_ctx) (packets : list bytes) : option fio_sha256_ctx :=
  match packets with
  | [] => Some sctx
  | d :: packets' => sctx ← fio_sha256_update sctx d; sha256_updates sctx packets'
  end.

(** ** The context represents the message fed so far *)

Abbreviation sha256_absorb := (absorb 64 sha256_compress).

Record sha256_repr (c : fio_sha256_ctx) (m : bytes) : Prop := {
  s2_state : sha256_state c = sha256_absorb sha256_iv m;
  s2_buf : exists j, sha256_buf c = rest 64 m ++ j;
  s2_len : length (sha256_buf c) = 64%nat;
  s2_count : sha256_count c = u32 (Z.of_nat (length m))
}.

Lemma sha256_init_repr c : length (sha256_buf c) = 64%nat -> sha256_repr (fio_sha256_init c) [].
Proof. intros H. constructor; simpl; try done. by eexists. Qed.

Lemma sha256_offset c m :
  sha256_repr c m -> Z.land (sha256_count c) 0x3f = Z.of_nat (length (rest 64 m)).
Proof.
  intros Hr. rewrite (s2_count _ _ Hr), land_63. change 64 with (2 ^ 6).
  rewrite u32_mod_pow2 by lia. rewrite length_rest by lia. by rewrite Nat2Z.inj_mod.
Qed.

(** The loop, entered with the first block in [src] and the data from [k] on
    still to come. *)
Lemma sha256_blocks_run data k st src done fuel :
  (k <= length data)%nat -> (length data < fuel + k)%nat -> Z.of_nat (length data) < 2 ^ 32 - 64 ->
  u32 (done + 64) = Z.of_nat k ->
  exists k', (k' <= length data)%nat /\ drop k' data = rest 64 (drop k data) /\
    sha256_blocks fuel st src data done (Z.of_nat (length data)) =
    Some (sha256_absorb (sha256_compress st src) (drop k data), Z.of_nat k').
Proof.
  revert k st src done. induction fuel as [|fuel IH]; intros k st src done Hk Hf Hd Hdone; [lia|].
  cbn [sha256_blocks]. rewrite Hdone, sha256_transform_compress, (u32_small (Z.of_nat k + 63)) by (split; lia).
  destruct (Z.ltb_spec (Z.of_nat k + 63) (Z.of_nat (length data))) as [Hlt|Hge].
  - rewrite (copy_from_eq data _ _ k 64) by lia. obind.
    destruct (absorb_step 64 sha256_compress ltac:(lia) (sha256_compress st src) (drop k data))
      as [-> ->]; [len|]. rewrite drop_drop.
    apply IH; [lia | lia | done | rewrite u32_small by (split; lia); lia].
  - exists k. by destruct (absorb_short 64 sha256_compress (sha256_compress st src) (drop k data))
      as [-> ->]; [len|].
Qed.

Lemma sha256_first_run (buf r d : bytes) (av : nat) :
  length buf = 64%nat -> (exists j, buf = r ++ j) -> (length r + av = 64)%nat -> (av <= length d)%nat ->
  (0 < av)%nat ->
  exists buf' done, length buf' = 64%nat /\ u32 (done + 64) = Z.of_nat av /\
    sha256_first buf (Z.of_nat (length r)) d = Some (done, buf', r ++ take av d).
Proof.
  intros Hb [j Hj] Hav Hd Hpos. unfold sha256_first.
  assert (length j = av) as Hlj by (rewrite Hj, length_app in Hb; lia).
  destruct (Z.eqb_spec (Z.of_nat (length r)) 0) as [E0|E0]; simpl negb; cbv iota zeta.
  - rewrite (copy_from_eq d _ _ 0 64) by lia. obind. exists buf, 0.
    split; [done|]. replace av with 64%nat by lia. split; [done|].
    rewrite drop_0. assert (r = []) as -> by (apply nil_length_inv; lia). done.
  - assert (u32 (- Z.of_nat (length r)) = 2 ^ 32 - Z.of_nat (length r)) as ->.
    { unfold u32. rewrite <- (Z.mod_add _ 1), Z.mod_small by lia. lia. }
    assert (u32 (2 ^ 32 - Z.of_nat (length r) + 64) = Z.of_nat av) as Hav'.
    { unfold u32. rewrite <- (Z.mod_add _ (-1)), Z.mod_small by lia. lia. }
    rewrite Hav', (copy_from_eq d _ _ 0 av), drop_0 by lia. obind.
    rewrite Hj, copy_to_prefix by len. obind. rewrite (drop_ge j), app_nil_r by len.
    rewrite (copy_from_eq _ _ _ 0 64) by len. obind. rewrite drop_0, (take_ge (r ++ take av d)) by len.
    eexists _, _. split; [|split; [exact Hav' | done]]. len.
Qed.

Lemma sha256_update_repr c m d :
  sha256_repr c m -> Z.of_nat (length d) < 2 ^ 32 - 64 ->
  exists c', fio_sha256_update c d = Some c' /\ sha256_repr c' (m ++ d).
Proof.
  intros Hr Hd. pose proof (sha256_offset c m Hr) as Ho.
  destruct Hr as [Hh [j Hj] Hs Hc]. unfold fio_sha256_update. cbv zeta.
  pose proof (rest_lt 64 ltac:(lia) m) as Hlt.
  rewrite Ho, (u32_small (Z.of_nat (length d))), (u32_small (Z.of_nat (length (rest 64 m)) + _))
    by (split; lia).
  assert (length j = 64 - length (rest 64 m))%nat as Hlj by (rewrite Hj, length_app in Hs; lia).
  assert (u32 (sha256_count c + Z.of_nat (length d)) = u32 (Z.of_nat (length (m ++ d)))) as Hcnt.
  { rewrite Hc, length_app. unfold u32. rewrite Zplus_mod_idemp_l. f_equal. lia. }
  rewrite Hcnt. set (cnt := u32 (Z.of_nat (length (m ++ d)))).
  destruct (Z.ltb_spec 63 (Z.of_nat (length (rest 64 m)) + Z.of_nat (length d))) as [Hl|Hl].
  - set (av := (64 - length (rest 64 m))%nat).
    destruct (absorb_complete 64 sha256_compress ltac:(lia) sha256_iv m d av) as [E1 E2]; [lia..|].
    destruct (sha256_first_run (sha256_buf c) (rest 64 m) d av) as (buf & dn & Hbuf & Hdone & ->);
      [done | by eexists | lia | lia | lia|].
    obind. destruct (sha256_blocks_run d av (sha256_state c) (rest 64 m ++ take av d) dn (S (length d)))
      as (k' & Hk' & Hdrop & ->); [lia | lia | done | done|]. obind.
    replace (Z.of_nat (length d) - Z.of_nat k') with (Z.of_nat (length d - k')) by lia.
    rewrite copy_from_ok by lia. obind. rewrite (take_ge (drop k' d)) by len.
    pose proof (rest_lt 64 ltac:(lia) (drop av d)) as Hlt'. rewrite <- Hdrop in Hlt'.
    rewrite copy_to_0 by lia. obind. eexists. split; [done|].
    constructor; simpl; [by rewrite E1, Hh | rewrite E2, <- Hdrop; by eexists | len | done].
  - rewrite Hj, copy_to_prefix by lia. obind. eexists. split; [done|].
    destruct (absorb_pending 64 sha256_compress ltac:(lia) sha256_iv m d) as [E1 E2]; [lia|].
    constructor; simpl; [congruence | | len | done].
    exists (drop (length d) j). by rewrite E2, <- app_assoc.
Qed.

Lemma sha256_updates_repr packets c m :
  sha256_repr c m -> Forall (fun d : bytes => Z.of_nat (length d) < 2 ^ 32 - 64) packets ->
  exists c', sha256_updates c packets = Some c' /\ sha256_repr c' (m ++ List.concat packets).
Proof.
  revert c m. induction packets as [|d packets IH]; intros c m Hr Hp.
  - exists c. split; [done|]. by rewrite app_nil_r.
  - apply Forall_cons in Hp as [Hd Hp]. destruct (sha256_update_repr c m d Hr Hd) as (c1 & E1 & H1).
    destruct (IH c1 (m ++ d) H1 Hp) as (c2 & E2 & H2). exists c2. simpl. rewrite E1. simpl.
    split; [done|]. by rewrite app_assoc.
Qed.

(** ** The digest *)

(** The padding the code appends: a 1 bit, zeros, and the length in bits in the
    byte order of the machine (the standard has it big endian). *)
Definition sha256_pad (m : bytes) : bytes :=
  Byte.x80 :: replicate (Z.to_nat ((55 - Z.of_nat (length m)) mod 64)) Byte.x00
    ++ le_split 8 (8 * Z.of_nat (length m)).

Lemma sha256_pad_len c m :
  sha256_repr c m -> Z.of_nat (length m) < 2 ^ 32 ->
  let index := Z.land (sha256_count c) 0x3f in
  (if index <? 56 then 56 - index else (64 + 56) - index) = 1 + (55 - Z.of_nat (length m)) mod 64.
Proof.
  intros Hr Hm. simpl. rewrite (s2_count _ _ Hr), land_63, u32_small by (split; lia).
  pose proof (Z.mod_pos_bound (Z.of_nat (length m)) 64).
  pose proof (Z.div_mod (Z.of_nat (length m)) 64). pose proof (Z.mod_pos_bound (55 - Z.of_nat (length m)) 64).
  pose proof (Z.div_mod (55 - Z.of_nat (length m)) 64).
  destruct (Z.ltb_spec (Z.of_nat (length m) mod 64) 56); lia.
Qed.

Lemma sha256_final_digest c m :
  sha256_repr c m -> Z.of_nat (length m) < 2 ^ 32 ->
  exists c', fio_sha256_final c = Some c' /\
    sha256_state c' = sha256_absorb sha256_iv (m ++ sha256_pad m) /\
    take 8 (sha256_buf c') = sha256_store (sha256_state c').
Proof.
  intros Hr Hm. pose proof (sha256_pad_len c m Hr Hm) as Hp. cbv zeta in Hp.
  unfold fio_sha256_final. cbv zeta. rewrite Hp.
  set (z := Z.to_nat ((55 - Z.of_nat (length m)) mod 64)).
  assert (z <= 63)%nat as Hz by (unfold z; pose proof (Z.mod_pos_bound (55 - Z.of_nat (length m)) 64); lia).
  rewrite (copy_from_eq _ _ _ 0 (S z)) by
    (try done; try (simpl; lia); unfold z; pose proof (Z.mod_pos_bound (55 - Z.of_nat (length m)) 64); lia).
  obind. assert (take (S z) (drop 0 sha256_padding) = Byte.x80 :: replicate z Byte.x00) as ->.
  { unfold sha256_padding. cbn [drop take]. rewrite take_replicate. do 2 f_equal. lia. }
  destruct (sha256_update_repr c m (Byte.x80 :: replicate z Byte.x00) Hr) as (c1 & -> & H1);
    [simpl; rewrite length_replicate; lia|]. obind.
  rewrite le_split_u64, (s2_count _ _ Hr), u32_small, Z.shiftl_mul_pow2 by (lia || (split; lia)).
  replace (Z.of_nat (length m) * 2 ^ 3) with (8 * Z.of_nat (length m)) by lia.
  destruct (sha256_update_repr c1 _ (le_split 8 (8 * Z.of_nat (length m))) H1) as (c2 & -> & H2);
    [rewrite length_le_split; lia|]. obind.
  assert (length (sha256_store (sha256_state c2)) = 8%nat) as H8.
  { by destruct (sha256_state c2) as [[[[[[[? ?] ?] ?] ?] ?] ?] ?]. }
  rewrite copy_to_0 by (rewrite (s2_len _ _ H2); lia). obind. eexists. split; [done|]. simpl. split.
  - by rewrite (s2_state _ _ H2), <- app_assoc.
  - rewrite take_app_le by lia. by rewrite take_ge by lia.
Qed.

(** A last packet that completes a partial block leaves that block in the buffer. *)
Lemma sha256_update_fills c m d :
  sha256_repr c m -> (0 < length (rest 64 m))%nat -> (length (rest 64 m) + length d = 64)%nat ->
  exists c', fio_sha256_update c d = Some c' /\ sha256_repr c' (m ++ d) /\ sha256_buf c' = rest 64 m ++ d.
Proof.
  intros Hr H0 Hd. destruct (sha256_update_repr c m d Hr) as (c' & E & Hr'); [lia|].
  exists c'. split; [done|]. split; [done|]. revert E.
  pose proof (sha256_offset c m Hr) as Ho. destruct Hr as [Hh [j Hj] Hs Hc].
  unfold fio_sha256_update. cbv zeta.
  rewrite Ho, (u32_small (Z.of_nat (length d))), (u32_small (Z.of_nat (length (rest 64 m)) + _))
    by (split; lia).
  assert (length j = length d) as Hlj by (rewrite Hj, length_app in Hs; lia).
  rewrite (proj2 (Z.ltb_lt _ _)) by lia. unfold sha256_first.
  rewrite (proj2 (Z.eqb_neq _ _)) by lia. simpl negb. cbv iota zeta.
  assert (u32 (- Z.of_nat (length (rest 64 m))) = 2 ^ 32 - Z.of_nat (length (rest 64 m))) as ->.
  { unfold u32. rewrite <- (Z.mod_add _ 1), Z.mod_small by lia. lia. }
  assert (u32 (2 ^ 32 - Z.of_nat (length (rest 64 m)) + 64) = Z.of_nat (length d)) as Hav.
  { unfold u32. rewrite <- (Z.mod_add _ (-1)), Z.mod_small by lia. lia. }
  rewrite Hav, (copy_from_eq d _ _ 0 (length d)), drop_0, take_ge by lia. obind.
  rewrite Hj, copy_to_prefix by lia. obind. rewrite (drop_ge j), app_nil_r by lia.
  rewrite (copy_from_eq _ _ _ 0 64) by len. obind.
  destruct (sha256_blocks_run d (length d) (sha256_state c) (take 64 (drop 0 (rest 64 m ++ d)))
    (2 ^ 32 - Z.of_nat (length (rest 64 m))) (S (length d))) as (k' & Hk' & Hdrop & ->); [lia..| |].
  { done. }
  obind. rewrite (drop_ge d (length d)) in Hdrop by lia. change (rest 64 []) with (@nil byte) in Hdrop.
  assert (k' = length d) as -> by (apply (f_equal length) in Hdrop; len; lia).
  rewrite Z.sub_diag, (copy_from_eq _ _ _ (length d) 0) by lia. obind.
  rewrite take_0, copy_to_0 by (simpl; lia). obind. intros [= <-]. done.
Qed.

(** The content of the buffer after fio_sha256_final depends on the message only. *)
Lemma sha256_final_buf c m :
  sha256_repr c m -> Z.of_nat (length m) < 2 ^ 32 ->
  exists c', fio_sha256_final c = Some c' /\ length (sha256_buf c') = 64%nat /\
    sha256_buf c' =
      let pad := m ++ Byte.x80 :: replicate (Z.to_nat ((55 - Z.of_nat (length m)) mod 64)) Byte.x00 in
      sha256_store (sha256_absorb sha256_iv (m ++ sha256_pad m)) ++
      drop 8 (rest 64 pad ++ le_split 8 (8 * Z.of_nat (length m))).
Proof.
  intros Hr Hm. pose proof (sha256_pad_len c m Hr Hm) as Hp. cbv zeta in Hp.
  unfold fio_sha256_final. cbv zeta. rewrite Hp.
  set (z := Z.to_nat ((55 - Z.of_nat (length m)) mod 64)).
  pose proof (Z.mod_pos_bound (55 - Z.of_nat (length m)) 64 ltac:(lia)) as Hzb.
  rewrite (copy_from_eq _ _ _ 0 (S z)) by (try done; simpl; lia).
  obind. assert (take (S z) (drop 0 sha256_padding) = Byte.x80 :: replicate z Byte.x00) as ->.
  { unfold sha256_padding. cbn [drop take]. rewrite take_replicate. do 2 f_equal. lia. }
  destruct (sha256_update_repr c m (Byte.x80 :: replicate z Byte.x00) Hr) as (c1 & -> & H1);
    [simpl; rewrite length_replicate; lia|]. obind.
  rewrite le_split_u64, (s2_count _ _ Hr), u32_small, Z.shiftl_mul_pow2 by (lia || (split; lia)).
  replace (Z.of_nat (length m) * 2 ^ 3) with (8 * Z.of_nat (length m)) by lia.
  assert (length (rest 64 (m ++ Byte.x80 :: replicate z Byte.x00)) = 56%nat) as H56.
  { rewrite length_rest by lia. rewrite length_app. cbn [length]. rewrite length_replicate.
    apply Nat2Z.inj. rewrite Nat2Z.inj_mod. pose proof (Z.div_mod (55 - Z.of_nat (length m)) 64).
    symmetry. apply (Z.mod_unique _ _ (- ((55 - Z.of_nat (length m)) / 64))); lia. }
  destruct (sha256_update_fills c1 _ (le_split 8 (8 * Z.of_nat (length m))) H1) as (c2 & -> & H2 & Hb);
    [lia | rewrite length_le_split; lia|]. obind.
  assert (length (sha256_store (sha256_state c2)) = 8%nat) as H8.
  { by destruct (sha256_state c2) as [[[[[[[? ?] ?] ?] ?] ?] ?] ?]. }
  rewrite copy_to_0 by (rewrite (s2_len _ _ H2); lia). obind. eexists. split; [done|].
  cbn [sha256_buf]. split; [rewrite length_app, H8, length_drop, (s2_len _ _ H2); lia|].
  rewrite H8, Hb, (s2_state _ _ H2), <- app_assoc. done.
Qed.

(** The SHA-256 context, whatever the packets.  fio_sha256_init,
    fio_sha256_update on each packet and fio_sha256_final stay inside the
    buffers; the state they leave is the iteration of the compression function of
    FIPS 180 over the message with the code's padding, and the first eight bytes
    of the buffer are the low bytes of its words. *)
Theorem sha256_stream c packets :
  length (sha256_buf c) = 64%nat ->
  Forall (fun d : bytes => Z.of_nat (length d) < 2 ^ 32 - 64) packets ->
  let m := List.concat packets in
  Z.of_nat (length m) < 2 ^ 32 ->
  exists c', (c ← sha256_updates (fio_sha256_init c) packets; fio_sha256_final c) = Some c' /\
    sha256_state c' = absorb 64 sha256_compress sha256_iv (m ++ sha256_pad m) /\
    take 8 (sha256_buf c') = sha256_store (sha256_state c').
Proof.
  intros Hc Hp m Hm.
  destruct (sha256_updates_repr packets _ [] (sha256_init_repr c Hc) Hp) as (c1 & -> & Hr).
  apply (sha256_final_digest c1 m Hr Hm).
Qed.

Definition sha256_demo : fio_sha256_ctx :=
  mkSha256 77 (0, 0, 0, 0, 0, 0, 0, 0) (replicate 64 Byte.xee).

Lemma sha256_stream_witness :
  let packets := [[Byte.x61]; []; [Byte.x62; Byte.x63]] in
  let m := List.concat packets in
  exists c', (c ← sha256_updates (fio_sha256_init sha256_demo) packets; fio_sha256_final c) = Some c' /\
    sha256_state c' = absorb 64 sha256_compress sha256_iv (m ++ sha256_pad m) /\
    take 8 (sha256_buf c') = sha256_store (sha256_state c').
Proof.
  apply (sha256_stream sha256_demo [[Byte.x61]; []; [Byte.x62; Byte.x63]]);
    [reflexivity | repeat constructor | reflexivity].
Defined.

(** The digest of the string abc.  With the big endian length of FIPS 180 the
    compression function gives the standard's value; the length bytes the code
    appends give another state. *)
Example sha256_abc_fips :
  absorb 64 sha256_compress sha256_iv
    ([Byte.x61; Byte.x62; Byte.x63; Byte.x80] ++ replicate 52 Byte.x00 ++ rev (le_split 8 24)) =
  (0xba7816bf, 0x8f01cfea, 0x414140de, 0x5dae2223, 0xb00361a3, 0x96177a9c, 0xb410ff61, 0xf20015ad).
Proof. vm_compute. reflexivity. Qed.

Lemma sha256_abc_differs :
  exists c', (c ← sha256_updates (fio_sha256_init sha256_demo) [[Byte.x61; Byte.x62; Byte.x63]];
              fio_sha256_final c) = Some c' /\
    sha256_state c' <>
      (0xba7816bf, 0x8f01cfea, 0x414140de, 0x5dae2223, 0xb00361a3, 0x96177a9c, 0xb410ff61, 0xf20015ad).
Proof. eexists. split; [vm_compute; reflexivity|]. discriminate. Qed.
