(* ===== verification/Sha512.v ===== *)
(** The SHA-512 of src/fio/crc/sha512.c and its use by fio's verify step
    (src/fio/verify.c, fill_sha512 and verify_io_u_sha512): the transform against
    FIPS 180, the context fed with packets, and what the verify step compares. *)
From S2P Require Import Prelude Blocks Sha2.

Definition sha512_e0 (x : Z) : Z := Z.lxor (Z.lxor (ror64 x 28) (ror64 x 34)) (ror64 x 39).
Definition sha512_e1 (x : Z) : Z := Z.lxor (Z.lxor (ror64 x 14) (ror64 x 18)) (ror64 x 41).
Definition sha512_s0 (x : Z) : Z := Z.lxor (Z.lxor (ror64 x 1) (ror64 x 8)) (Z.shiftr x 7).
Definition sha512_s1 (x : Z) : Z := Z.lxor (Z.lxor (ror64 x 19) (ror64 x 61)) (Z.shiftr x 6).

Definition sha512_K : list Z := [
  0x428a2f98d728ae22; 0x7137449123ef65cd; 0xb5c0fbcfec4d3b2f; 0xe9b5dba58189dbbc;
  0x3956c25bf348b538; 0x59f111f1b605d019; 0x923f82a4af194f9b; 0xab1c5ed5da6d8118;
  0xd807aa98a3030242; 0x12835b0145706fbe; 0x243185be4ee4b28c; 0x550c7dc3d5ffb4e2;
  0x72be5d74f27b896f; 0x80deb1fe3b1696b1; 0x9bdc06a725c71235; 0xc19bf174cf692694;
  0xe49b69c19ef14ad2; 0xefbe4786384f25e3; 0x0fc19dc68b8cd5b5; 0x240ca1cc77ac9c65;
  0x2de92c6f592b0275; 0x4a7484aa6ea6e483; 0x5cb0a9dcbd41fbd4; 0x76f988da831153b5;
  0x983e5152ee66dfab; 0xa831c66d2db43210; 0xb00327c898fb213f; 0xbf597fc7beef0ee4;
  0xc6e00bf33da88fc2; 0xd5a79147930aa725; 0x06ca6351e003826f; 0x142929670a0e6e70;
  0x27b70a8546d22ffc; 0x2e1b21385c26c926; 0x4d2c6dfc5ac42aed; 0x53380d139d95b3df;
  0x650a73548baf63de; 0x766a0abb3c77b2a8; 0x81c2c92e47edaee6; 0x92722c851482353b;
  0xa2bfe8a14cf10364; 0xa81a664bbc423001; 0xc24b8b70d0f89791; 0xc76c51a30654be30;
  0xd192e819d6ef5218; 0xd69906245565a910; 0xf40e35855771202a; 0x106aa07032bbd1b8;
  0x19a4c116b8d2d0c8; 0x1e376c085141ab53; 0x2748774cdf8eeb99; 0x34b0bcb5e19b48a8;
  0x391c0cb3c5c95a63; 0x4ed8aa4ae3418acb; 0x5b9cca4f7763e373; 0x682e6ff3d6b2b8a3;
  0x748f82ee5defb2fc; 0x78a5636f43172f60; 0x84c87814a1f0ab72; 0x8cc702081a6439ec;
  0x90befffa23631e28; 0xa4506cebde82bde9; 0xbef9a3f7b2c67915; 0xc67178f2e372532b;
  0xca273eceea26619c; 0xd186b8c721c0c207; 0xeada7dd6cde0eb1e; 0xf57d4f7fee6ed178;
  0x06f067aa72176fba; 0x0a637dc5a2c898a6; 0x113f9804bef90dae; 0x1b710b35131c471b;
  0x28db77f523047d84; 0x32caab7b40c72493; 0x3c9ebe0a15c9bebc; 0x431d67c49c100d4c;
  0x4cc5d4becb3e42b6; 0x597f299cfc657e2a; 0x5fcb6fab3ad6faec; 0x6c44198c4a475817
].

(** The table of the file is the one the standard defines. *)
Example sha512_K_fips : sha512_K = (fips_K 64 68 <$> primes_below 410).
Proof. vm_compute. reflexivity. Qed.

Definition LOAD_OP64 (i : nat) (input : bytes) : Z := be_word 8 input (Z.of_nat i).

Definition BLEND_OP64 (i : nat) (W : list Z) : Z :=
  add64 (add64 (add64 (sha512_s1 (nth (i - 2) W 0)) (nth (i - 7) W 0)) (sha512_s0 (nth (i - 15) W 0)))
    (nth (i - 16) W 0).

Definition sha512_W (input : bytes) : list Z :=
  schedule (fun i W => if (i <? 16)%nat then LOAD_OP64 i input else BLEND_OP64 i W) 80.

(** The body of the loop [for (i = 0; i < 80; i += 8)]. *)
Definition sha512_eight (Ws : list Z) (regs : sha2_regs) (i : nat) : sha2_regs :=
  let K := fun i : nat => nth i sha512_K 0 in
  let W := fun i : nat => nth i Ws 0 in
  let ROUND := sha2_round add64 sha512_e0 sha512_e1 in
  let '(a, b, c, d, e, f, g, h) := regs in
  let '(d, h) := ROUND a b c d e f g h (K (i + 0)%nat) (W (i + 0)%nat) in
  let '(c, g) := ROUND h a b c d e f g (K (i + 1)%nat) (W (i + 1)%nat) in
  let '(b, f) := ROUND g h a b c d e f (K (i + 2)%nat) (W (i + 2)%nat) in
  let '(a, e) := ROUND f g h a b c d e (K (i + 3)%nat) (W (i + 3)%nat) in
  let '(h, d) := ROUND e f g h a b c d (K (i + 4)%nat) (W (i + 4)%nat) in
  let '(g, c) := ROUND d e f g h a b c (K (i + 5)%nat) (W (i + 5)%nat) in
  let '(f, b) := ROUND c d e f g h a b (K (i + 6)%nat) (W (i + 6)%nat) in
  let '(e, a) := ROUND b c d e f g h a (K (i + 7)%nat) (W (i + 7)%nat) in
  (a, b, c, d, e, f, g, h).

Definition sha512_transform (state : sha2_regs) (input : bytes) : sha2_regs :=
  let Ws := sha512_W input in
  let '(s0, s1, s2, s3, s4, s5, s6, s7) := state in
  let '(a, b, c, d, e, f, g, h) :=
    foldl (sha512_eight Ws) state [0; 8; 16; 24; 32; 40; 48; 56; 64; 72]%nat in
  (add64 s0 a, add64 s1 b, add64 s2 c, add64 s3 d, add64 s4 e, add64 s5 f, add64 s6 g, add64 s7 h).

(** * FIPS 180-4, section 6.4.2 *)

Abbreviation sha512_rounds Ws :=
  (fips_rounds add64 sha512_e0 sha512_e1 (fun i => nth i sha512_K 0) (fun i => nth i Ws 0)).

Definition sha512_compress (state : sha2_regs) (input : bytes) : sha2_regs :=
  let Ws := sha512_W input in
  let '(s0, s1, s2, s3, s4, s5, s6, s7) := state in
  let '(a, b, c, d, e, f, g, h) := sha512_rounds Ws 80 state in
  (add64 s0 a, add64 s1 b, add64 s2 c, add64 s3 d, add64 s4 e, add64 s5 f, add64 s6 g, add64 s7 h).

Lemma sha512_eight_ok Ws s0 i :
  sha512_eight Ws (sha512_rounds Ws i s0) i = sha512_rounds Ws (i + 8) s0.
Proof.
  unfold sha512_eight. cbv zeta beta.
  destruct (sha512_rounds Ws i s0) as [[[[[[[a b] c] d] e] f] g] h] eqn:Hs.
  rewrite <- (Nat.add_0_r i) in Hs.
  assert (forall j, S (i + j) = (i + S j)%nat) as HS by (intros; lia).
  do 8 match goal with
  | Hs : sha512_rounds Ws ?n s0 = (?a, ?b, ?c, ?d, ?e, ?f, ?g, ?h)
    |- context [sha2_round ?add ?e0 ?e1 ?a ?b ?c ?d ?e ?f ?g ?h ?k ?w] =>
      let H := fresh in
      pose proof (sha2_round_ok add e0 e1 _ _ s0 n a b c d e f g h k w Hs eq_refl eq_refl) as H;
      rewrite HS in H; clear Hs; destruct (sha2_round add e0 e1 a b c d e f g h k w) as [? ?]
  end.
  done.
Qed.

Lemma sha512_transform_compress state input :
  sha512_transform state input = sha512_compress state input.
Proof.
  unfold sha512_transform, sha512_compress. cbv zeta. cbn [foldl].
  change state with (sha512_rounds (sha512_W input) 0 state) at 2. rewrite !sha512_eight_ok.
  done.
Qed.

(** * The context *)

Record fio_sha512_ctx : Type := mkSha512 {
  sha512_state : sha2_regs;
  sha512_count : Z * Z * Z * Z;     (* uint32_t count[4] *)
  sha512_buf : bytes                (* the 128 bytes the caller points to *)
}.

Definition sha512_iv : sha2_regs :=
  (0x6a09e667f3bcc908, 0xbb67ae8584caa73b, 0x3c6ef372fe94f82b, 0xa54ff53a5f1d36f1,
   0x510e527fade682d1, 0x9b05688c2b3e6c1f, 0x1f83d9abfb41bd6b, 0x5be0cd19137e2179).

Definition fio_sha512_init (sctx : fio_sha512_ctx) : fio_sha512_ctx :=
  mkSha512 sha512_iv (0, 0, 0, 0) (sha512_buf sctx).

(** The number of bits. *)
Definition sha512_add_count (count : Z * Z * Z * Z) (len : Z) : Z * Z * Z * Z :=
  let '(c0, c1, c2, c3) := count in
  let bits := u32 (Z.shiftl len 3) in
  let c0 := u32 (c0 + bits) in
  if c0 <? bits then
    let c1 := u32 (c1 + 1) in
    let '(c2, c3) :=
      if c1 <? 1 then
        let c2 := u32 (c2 + 1) in
        (c2, if c2 <? 1 then u32 (c3 + 1) else c3)
      else (c2, c3) in
    (c0, u32 (c1 + Z.shiftr len 29), c2, c3)
  else (c0, c1, c2, c3).

(** [for (i = part_len; i + 127 < len; i += 128)]: the state and the last [i]. *)
Fixpoint sha512_blocks (fuel : nat) (state : sha2_regs) (data : bytes) (i len : Z) :
    option (sha2_regs * Z) :=
  match fuel with
  | O => None
  | S fuel' =>
      if u32 (i + 127) <? len then
        src ← copy_from data i 128;
        sha512_blocks fuel' (sha512_transform state src) data (u32 (i + 128)) len
      else Some (state, i)
  end.

Definition fio_sha512_update (sctx : fio_sha512_ctx) (data : bytes) : option fio_sha512_ctx :=
  let len := u32 (Z.of_nat (length data)) in
  let idx := Z.land (Z.shiftr ((sha512_count sctx).1.1.1) 3) 0x7F in
  let count := sha512_add_count (sha512_count sctx) len in
  let part_len := 128 - idx in
  if part_len <=? len then
    src ← copy_from data 0 part_len;
    buf ← copy_to (sha512_buf sctx) idx src;
    '(state, i) ← sha512_blocks (S (length data)) (sha512_transform (sha512_state sctx) buf) data
                    part_len len;
    src ← copy_from data i (len - i);
    buf ← copy_to buf 0 src;
    Some (mkSha512 state count buf)
  else
    buf ← copy_to (sha512_buf sctx) idx data;
    Some (mkSha512 (sha512_state sctx) count buf).

Fixpoint sha512_updates (sctx : fio_sha512_ctx) (packets : list bytes) : option fio_sha512_ctx :=
  match packets with
  | [] => Some sctx
  | d :: packets' => sctx ← fio_sha512_update sctx d; sha512_updates sctx packets'
  end.

(** ** The context represents the message fed so far *)

Abbreviation sha512_absorb := (absorb 128 sha512_compress).

Record sha512_repr (c : fio_sha512_ctx) (m : bytes) : Prop := {
  s5_state : sha512_state c = sha512_absorb sha512_iv m;
  s5_buf : exists j, sha512_buf c = rest 128 m ++ j;
  s5_len : length (sha512_buf c) = 128%nat;
  s5_count : (sha512_count c).1.1.1 = u32 (8 * Z.of_nat (length m))
}.

Lemma sha512_init_repr c : length (sha512_buf c) = 128%nat -> sha512_repr (fio_sha512_init c) [].
Proof. intros H. constructor; simpl; try done. by eexists. Qed.

Lemma sha512_offset c m :
  sha512_repr c m -> Z.land (Z.shiftr ((sha512_count c).1.1.1) 3) 0x7F = Z.of_nat (length (rest 128 m)).
Proof.
  intros Hr. rewrite (s5_count _ _ Hr). change 0x7F with (Z.ones 7).
  rewrite Z.land_ones, Z.shiftr_div_pow2, length_rest, Nat2Z.inj_mod by lia.
  unfold u32. change (2 ^ 32) with (2 ^ 3 * 2 ^ 29). change (2 ^ 7) with (Z.of_nat 128).
  replace (8 * Z.of_nat (length m)) with (2 ^ 3 * Z.of_nat (length m)) by lia.
  rewrite Zmult_mod_distr_l, Z.mul_comm, Z.div_mul by lia.
  apply Z.mod_mod_divide. by exists (2 ^ 22).
Qed.

Lemma sha512_add_count_0 count len :
  0 <= len -> (sha512_add_count count len).1.1.1 = u32 (count.1.1.1 + 8 * len).
Proof.
  intros Hl. destruct count as [[[c0 c1] c2] c3]. simpl.
  assert (u32 (c0 + u32 (Z.shiftl len 3)) = u32 (c0 + 8 * len)) as E.
  { unfold u32. rewrite Zplus_mod_idemp_r, Z.shiftl_mul_pow2 by lia. f_equal. lia. }
  rewrite E. repeat case_match; simpl; simplify_eq; done.
Qed.

Lemma sha512_blocks_run data k st fuel :
  (k <= length data)%nat -> (length data < fuel + k)%nat -> Z.of_nat (length data) < 2 ^ 32 - 128 ->
  exists k', (k' <= length data)%nat /\ drop k' data = rest 128 (drop k data) /\
    sha512_blocks fuel st data (Z.of_nat k) (Z.of_nat (length data)) =
    Some (sha512_absorb st (drop k data), Z.of_nat k').
Proof.
  revert k st. induction fuel as [|fuel IH]; intros k st Hk Hf Hd; [lia|].
  cbn [sha512_blocks]. rewrite (u32_small (Z.of_nat k + 127)) by (split; lia).
  destruct (Z.ltb_spec (Z.of_nat k + 127) (Z.of_nat (length data))) as [Hlt|Hge].
  - rewrite (copy_from_eq data _ _ k 128) by lia. obind.
    rewrite sha512_transform_compress, (u32_small (Z.of_nat k + 128)) by (split; lia).
    destruct (absorb_step 128 sha512_compress ltac:(lia) st (drop k data)) as [-> ->]; [len|].
    rewrite drop_drop. replace (Z.of_nat k + 128) with (Z.of_nat (k + 128)) by lia. apply IH; lia.
  - exists k. by destruct (absorb_short 128 sha512_compress st (drop k data)) as [-> ->]; [len|].
Qed.

(** The update on both branches: the state, the pending bytes, and, when a block
    was completed, the bytes of it that stay behind in the buffer. *)
Lemma sha512_update_run c m d :
  sha512_repr c m -> Z.of_nat (length d) < 2 ^ 32 - 128 ->
  exists c', fio_sha512_update c d = Some c' /\ sha512_repr c' (m ++ d) /\
    ((128 <= length (rest 128 m) + length d)%nat ->
     let blk := rest 128 m ++ take (128 - length (rest 128 m)) d in
     sha512_buf c' = rest 128 (m ++ d) ++ drop (length (rest 128 (m ++ d))) blk).
Proof.
  intros Hr Hd. pose proof (sha512_offset c m Hr) as Ho.
  destruct Hr as [Hh [j Hj] Hs Hc]. unfold fio_sha512_update. cbv zeta.
  pose proof (rest_lt 128 ltac:(lia) m) as Hlt.
  rewrite Ho, (u32_small (Z.of_nat (length d))) by (split; lia).
  assert (length j = 128 - length (rest 128 m))%nat as Hlj by (rewrite Hj, length_app in Hs; lia).
  assert ((sha512_add_count (sha512_count c) (Z.of_nat (length d))).1.1.1 =
          u32 (8 * Z.of_nat (length (m ++ d)))) as Hcnt.
  { rewrite sha512_add_count_0, Hc, length_app by lia. unfold u32. rewrite Zplus_mod_idemp_l.
    f_equal. lia. }
  revert Hcnt. generalize (sha512_add_count (sha512_count c) (Z.of_nat (length d))). intros cnt Hcnt.
  destruct (Z.leb_spec (128 - Z.of_nat (length (rest 128 m))) (Z.of_nat (length d))) as [Hl|Hl].
  - set (av := (128 - length (rest 128 m))%nat).
    destruct (absorb_complete 128 sha512_compress ltac:(lia) sha512_iv m d av) as [E1 E2]; [lia..|].
    replace (128 - Z.of_nat (length (rest 128 m))) with (Z.of_nat av) by lia.
    rewrite (copy_from_eq d _ _ 0 av), drop_0 by lia. obind.
    rewrite Hj, copy_to_prefix by len. obind. rewrite (drop_ge j), app_nil_r by len.
    rewrite sha512_transform_compress.
    destruct (sha512_blocks_run d av (sha512_compress (sha512_state c) (rest 128 m ++ take av d))
      (S (length d))) as (k' & Hk' & Hdrop & ->); [lia | lia | done|]. obind.
    replace (Z.of_nat (length d) - Z.of_nat k') with (Z.of_nat (length d - k')) by lia.
    rewrite copy_from_ok by lia. obind. rewrite (take_ge (drop k' d)) by len.
    pose proof (rest_lt 128 ltac:(lia) (drop av d)) as Hlt'. rewrite <- Hdrop in Hlt'.
    rewrite copy_to_0 by len. obind. eexists. split; [done|]. split.
    + constructor; simpl; [by rewrite E1, Hh | rewrite E2, <- Hdrop; by eexists | len | done].
    + intros _. simpl. by rewrite E2, <- Hdrop.
  - rewrite Hj, copy_to_prefix by lia. obind. eexists. split; [done|].
    destruct (absorb_pending 128 sha512_compress ltac:(lia) sha512_iv m d) as [E1 E2]; [lia|].
    split; [|lia]. constructor; simpl; [congruence | | len | done].
    exists (drop (length d) j). by rewrite E2, <- app_assoc.
Qed.

Lemma sha512_updates_repr packets c m :
  sha512_repr c m -> Forall (fun d : bytes => Z.of_nat (length d) < 2 ^ 32 - 128) packets ->
  exists c', sha512_updates c packets = Some c' /\ sha512_repr c' (m ++ List.concat packets).
Proof.
  revert c m. induction packets as [|d packets IH]; intros c m Hr Hp.
  - exists c. split; [done|]. by rewrite app_nil_r.
  - apply Forall_cons in Hp as [Hd Hp]. destruct (sha512_update_run c m d Hr Hd) as (c1 & E1 & H1 & _).
    destruct (IH c1 (m ++ d) H1 Hp) as (c2 & E2 & H2). exists c2. simpl. rewrite E1. simpl.
    split; [done|]. by rewrite app_assoc.
Qed.

(** The SHA-512 context, whatever the packets: fio_sha512_init and
    fio_sha512_update on each packet stay inside the buffers, leave the iteration
    of the compression function of FIPS 180 over the whole blocks of the message
    in the state, and the bytes after the last whole block at the front of the
    buffer. *)
Theorem sha512_stream c packets :
  length (sha512_buf c) = 128%nat ->
  Forall (fun d : bytes => Z.of_nat (length d) < 2 ^ 32 - 128) packets ->
  let m := List.concat packets in
  exists c' j, sha512_updates (fio_sha512_init c) packets = Some c' /\
    sha512_state c' = absorb 128 sha512_compress sha512_iv m /\ sha512_buf c' = rest 128 m ++ j.
Proof.
  intros Hc Hp m.
  destruct (sha512_updates_repr packets _ [] (sha512_init_repr c Hc) Hp) as (c1 & -> & [H1 [j H2] _ _]).
  by exists c1, j.
Qed.

(** * fio's verify step *)

(** [fill_sha512]: the context's buffer is the checksum field of the header, whose
    content afterwards is what is stored; the initialiser zeroes the rest. *)
Definition sha512_zero (buf : bytes) : fio_sha512_ctx := mkSha512 (0, 0, 0, 0, 0, 0, 0, 0) (0, 0, 0, 0) buf.

Definition fill_sha512 (field p : bytes) : option bytes :=
  sha512_buf <$> fio_sha512_update (fio_sha512_init (sha512_zero field)) p.

(** [verify_io_u_sha512]: [stack] is the uninitialised [uint8_t sha512[128]]; true
    when the checksum is accepted. *)
Definition verify_io_u_sha512 (stack field p : bytes) : option bool :=
  buf ← fill_sha512 stack p;
  Some (bool_decide (take 128 field = take 128 buf)).

Lemma fill_sha512_run field p :
  length field = 128%nat -> (128 <= length p)%nat -> Z.of_nat (length p) < 2 ^ 32 - 128 ->
  fill_sha512 field p = Some (rest 128 p ++ drop (length (rest 128 p)) (take 128 p)).
Proof.
  intros Hf Hp Hl. unfold fill_sha512.
  destruct (sha512_update_run _ [] p (sha512_init_repr (sha512_zero field) Hf) Hl) as (c' & -> & _ & Hb).
  simpl. rewrite Hb by (simpl; lia). done.
Qed.

(** The sha512 verify step does not look at the data between the first 128
    bytes and the last partial block.  fill_sha512 and verify_io_u_sha512 never
    store the hash: the field compared is the context's buffer, that is, bytes of
    the data.  A block whose other bytes changed arbitrarily between the write
    and the read is accepted. *)
Theorem sha512_verify_blind field stack p p' :
  length field = 128%nat -> length stack = 128%nat -> length p = length p' ->
  (128 <= length p)%nat -> Z.of_nat (length p) < 2 ^ 32 - 128 ->
  take 128 p = take 128 p' -> rest 128 p = rest 128 p' ->
  exists f, fill_sha512 field p = Some f /\ verify_io_u_sha512 stack f p' = Some true.
Proof.
  intros Hf Hs Hl H1 H2 Ht Hr. eexists. split; [by apply fill_sha512_run|].
  unfold verify_io_u_sha512. rewrite (fill_sha512_run stack p') by (done || lia). obind.
  by rewrite Ht, Hr, bool_decide_true.
Qed.

Definition sha512_demo : fio_sha512_ctx := sha512_zero (replicate 128 Byte.xee).

Lemma sha512_stream_witness :
  let packets := [[Byte.x61]; []; [Byte.x62; Byte.x63]] in
  let m := List.concat packets in
  exists c' j, sha512_updates (fio_sha512_init sha512_demo) packets = Some c' /\
    sha512_state c' = absorb 128 sha512_compress sha512_iv m /\ sha512_buf c' = rest 128 m ++ j.
Proof.
  apply (sha512_stream sha512_demo [[Byte.x61]; []; [Byte.x62; Byte.x63]]);
    [reflexivity | repeat constructor].
Defined.

(** 256 bytes, the second half all changed. *)
Lemma sha512_verify_blind_witness :
  let p := replicate 256 Byte.x11 in
  let p' := replicate 128 Byte.x11 ++ replicate 128 Byte.x22 in
  p <> p' /\ exists f, fill_sha512 (replicate 128 Byte.x00) p = Some f /\
    verify_io_u_sha512 (replicate 128 Byte.xcc) f p' = Some true.
Proof.
  split; [discriminate|].
  apply (sha512_verify_blind (replicate 128 Byte.x00) (replicate 128 Byte.xcc) (replicate 256 Byte.x11)
    (replicate 128 Byte.x11 ++ replicate 128 Byte.x22)); (reflexivity || simpl; lia).
Defined.

(** SHA-512 of the string abc, padded as the standard says. *)
Example sha512_abc :
  absorb 128 sha512_compress sha512_iv
    ([Byte.x61; Byte.x62; Byte.x63; Byte.x80] ++ replicate 123 Byte.x00 ++ [Byte.x18]) =
  (0xddaf35a193617aba, 0xcc417349ae204131, 0x12e6fa4e89a97ea2, 0x0a9eeee64b55d39a,
   0x2192992a274fc1a8, 0x36ba3c23a3feebbd, 0x454d4423643ce80e, 0x2a9ac94fa54ca49f).
Proof. vm_compute. reflexivity. Qed.
