(* ===== verification/Sha3.v ===== *)
(** The SHA-3 of src/fio/crc/sha3.c: the in-place permutation against the steps
    of FIPS 202, and the context fed with packets against the sponge.  The
    machine is little endian. *)
From S2P Require Import Prelude Blocks.

Definition keccakf_rndc : list Z := [
  0x0000000000000001; 0x0000000000008082; 0x800000000000808a;
  0x8000000080008000; 0x000000000000808b; 0x0000000080000001;
  0x8000000080008081; 0x8000000000008009; 0x000000000000008a;
  0x0000000000000088; 0x0000000080008009; 0x000000008000000a;
  0x000000008000808b; 0x800000000000008b; 0x8000000000008089;
  0x8000000000008003; 0x8000000000008002; 0x8000000000000080;
  0x000000000000800a; 0x800000008000000a; 0x8000000080008081;
  0x8000000000008080; 0x0000000080000001; 0x8000000080008008].

Definition keccakf_rotc : list Z := [
  1;  3;  6;  10; 15; 21; 28; 36; 45; 55; 2;  14;
  27; 41; 56; 8;  25; 43; 62; 18; 39; 61; 20; 44].

Definition keccakf_piln : list nat := [
  10; 7;  11; 17; 18; 3; 5;  16; 8;  21; 24; 4;
  15; 23; 19; 13; 12; 2; 20; 14; 22; 9;  6;  1]%nat.

(** * The permutation, in place on the 25 words *)

(** [a[i]] of an array of words. *)
Definition lane (st : list Z) (i : nat) : Z := nth i st 0.

Definition theta_bc (st : list Z) : list Z :=
  (fun i => Z.lxor (Z.lxor (Z.lxor (Z.lxor (lane st i) (lane st (i + 5))) (lane st (i + 10)))
                      (lane st (i + 15))) (lane st (i + 20)))%nat <$> seq 0 5.

Definition theta (st : list Z) : list Z :=
  let bc := theta_bc st in
  foldl (fun st i =>
    let t := Z.lxor (lane bc ((i + 4) mod 5)) (rotl64 (lane bc ((i + 1) mod 5)) 1) in
    foldl (fun st j => <[j + i := Z.lxor (lane st (j + i)) t]> st) st [0; 5; 10; 15; 20])%nat
    st (seq 0 5).

(** One step of the rotate and permute loop: the array and [t]. *)
Definition rho_pi_step (a : list Z * Z) (i : nat) : list Z * Z :=
  let '(st, t) := a in
  let j := nth i keccakf_piln 0%nat in
  (<[j := rotl64 t (nth i keccakf_rotc 0)]> st, lane st j).

Definition rho_pi (st : list Z) : list Z := (foldl rho_pi_step (st, lane st 1) (seq 0 24)).1.

Definition chi (st : list Z) : list Z :=
  foldl (fun st j =>
    let bc := (fun i => lane st (j + i)) <$> seq 0 5 in
    foldl (fun st i =>
      <[j + i := Z.lxor (lane st (j + i)) (Z.land (not64 (lane bc ((i + 1) mod 5))) (lane bc ((i + 2) mod 5)))]> st)
      st (seq 0 5))%nat
    st [0; 5; 10; 15; 20]%nat.

Definition iota (round : nat) (st : list Z) : list Z :=
  <[0%nat := Z.lxor (lane st 0) (nth round keccakf_rndc 0)]> st.

Definition keccakf (st : list Z) : list Z :=
  foldl (fun st round => iota round (chi (rho_pi (theta st)))) st (seq 0 24).

(** * FIPS 202, section 3.2: the lane of column [x] and row [y] is at [x + 5 y] *)

Definition from_lanes (A : nat -> nat -> Z) : list Z :=
  (fun i => A (i mod 5) (i / 5))%nat <$> seq 0 25.
Definition at_lane (st : list Z) (x y : nat) : Z := lane st (x + 5 * y).

Definition fips_theta (st : list Z) : list Z :=
  let C := fun x => foldl (fun c y => Z.lxor c (at_lane st x y)) (at_lane st x 0) [1; 2; 3; 4]%nat in
  let D := fun x => Z.lxor (C ((x + 4) mod 5)%nat) (rotl64 (C ((x + 1) mod 5)%nat) 1) in
  from_lanes (fun x y => Z.lxor (at_lane st x y) (D x)).

(** The offset of a lane: walk from (1, 0) until it is met at step [t]. *)
Fixpoint rho_offset (fuel t x y x' y' : nat) : Z :=
  match fuel with
  | O => 0
  | S fuel' =>
      if ((x =? x') && (y =? y'))%nat then Z.of_nat ((t + 1) * (t + 2) / 2 mod 64)
      else rho_offset fuel' (S t) x y y' ((2 * x' + 3 * y') mod 5)
  end.

Definition fips_rho (st : list Z) : list Z :=
  from_lanes (fun x y => if ((x =? 0) && (y =? 0))%nat then at_lane st x y
                         else rotl64 (at_lane st x y) (rho_offset 24 0 x y 1 0)).

Definition fips_pi (st : list Z) : list Z := from_lanes (fun x y => at_lane st ((x + 3 * y) mod 5) x).

Definition fips_chi (st : list Z) : list Z :=
  from_lanes (fun x y =>
    Z.lxor (at_lane st x y) (Z.land (not64 (at_lane st ((x + 1) mod 5) y)) (at_lane st ((x + 2) mod 5) y))).

(** The round constants: the bits of a shift register of 8 bits, seven per round,
    put at the positions 2^j - 1. *)
Definition rc_step (R : Z) : Z := Z.lxor (u8 (Z.shiftl R 1)) (if Z.testbit R 7 then 0x71 else 0).

Definition rc_word (R : Z) : Z * Z :=
  foldl (fun a j => let '(R, c) := a in
           let R := rc_step R in
           (R, if Z.testbit R 1 then Z.lxor c (Z.shiftl 1 (2 ^ j - 1)) else c)) (R, 0) (seqZ 0 7).

Fixpoint rc_words (n : nat) (R : Z) : list Z :=
  match n with
  | O => []
  | S n' => let '(R', c) := rc_word R in c :: rc_words n' R'
  end.

Definition fips_iota (round : nat) (st : list Z) : list Z :=
  <[0%nat := Z.lxor (lane st 0) (nth round (rc_words 24 1) 0)]> st.

Definition fips_keccak (st : list Z) : list Z :=
  foldl (fun st round => fips_iota round (fips_chi (fips_pi (fips_rho (fips_theta st))))) st (seq 0 24).

Lemma rndc_fips : keccakf_rndc = rc_words 24 1.
Proof. vm_compute. reflexivity. Qed.

Ltac lanes st H :=
  do 25 (destruct st as [|? st]; [discriminate H|]); destruct st; [|discriminate H].

Lemma theta_fips st : length st = 25%nat -> theta st = fips_theta st.
Proof. intros H. lanes st H. reflexivity. Qed.

Lemma rho_pi_fips st : length st = 25%nat -> rho_pi st = fips_pi (fips_rho st).
Proof. intros H. lanes st H. reflexivity. Qed.

Lemma chi_fips st : length st = 25%nat -> chi st = fips_chi st.
Proof. intros H. lanes st H. reflexivity. Qed.

Lemma iota_fips round st : iota round st = fips_iota round st.
Proof. unfold iota, fips_iota. by rewrite rndc_fips. Qed.

Lemma length_from_lanes A : length (from_lanes A) = 25%nat.
Proof. done. Qed.

Lemma keccakf_fips st : length st = 25%nat -> keccakf st = fips_keccak st.
Proof.
  unfold keccakf, fips_keccak. generalize (seq 0 24). intros rounds. revert st.
  induction rounds as [|r rounds IH]; intros st H; [done|]. cbn [foldl].
  rewrite (theta_fips st H), (rho_pi_fips (fips_theta st)), (chi_fips (fips_pi _)) by done.
  rewrite iota_fips. apply IH. unfold fips_iota. by rewrite length_insert.
Qed.

(** * The context *)

Record fio_sha3_ctx : Type := mkSha3 {
  sha3_st : list Z;          (* uint64_t st[25] *)
  md_len : Z;
  rsiz : Z;
  rsizw : Z;
  partial : Z;
  sha3_buf : bytes;          (* uint8_t buf[144] *)
  sha3_sha : bytes           (* what [sha] points to *)
}.

Definition fio_sha3_init (sctx : fio_sha3_ctx) (digest_sz : Z) : fio_sha3_ctx :=
  let r := 200 - 2 * digest_sz in
  mkSha3 (replicate 25 0) digest_sz r (r / 8) 0 (replicate (length (sha3_buf sctx)) Byte.x00) (sha3_sha sctx).

Definition fio_sha3_224_init (sctx : fio_sha3_ctx) : fio_sha3_ctx := fio_sha3_init sctx (224 / 8).
Definition fio_sha3_256_init (sctx : fio_sha3_ctx) : fio_sha3_ctx := fio_sha3_init sctx (256 / 8).
Definition fio_sha3_384_init (sctx : fio_sha3_ctx) : fio_sha3_ctx := fio_sha3_init sctx (384 / 8).
Definition fio_sha3_512_init (sctx : fio_sha3_ctx) : fio_sha3_ctx := fio_sha3_init sctx (512 / 8).

(** The loop that xors the [rsizw] words of [src] into the state. *)
Definition xor_words (n : nat) (st : list Z) (src : bytes) : list Z :=
  foldl (fun st i => <[i := Z.lxor (lane st i) (le_word 8 src (Z.of_nat i))]> st) st (seq 0 n).

(** Absorb one block of [n] words. *)
Definition sha3_block (n : nat) (st : list Z) (src : bytes) : list Z := keccakf (xor_words n st src).

(** [do { absorb src; done += rsiz; src = data + done; } while (done + (rsiz - 1) < len)]. *)
Fixpoint sha3_blocks (fuel : nat) (rsiz rsizw : Z) (st : list Z) (src data : bytes) (done len : Z) :
    option (list Z * Z) :=
  match fuel with
  | O => None
  | S fuel' =>
      let st := sha3_block (Z.to_nat rsizw) st src in
      let done := u32 (done + rsiz) in
      if u32 (done + (rsiz - 1)) <? len then
        src ← copy_from data done rsiz;
        sha3_blocks fuel' rsiz rsizw st src data done len
      else Some (st, done)
  end.

(** The first source of the loop, with [done] and the buffer. *)
Definition sha3_first (buf : bytes) (rsiz partial : Z) (data : bytes) : option (Z * bytes * bytes) :=
  if negb (partial =? 0) then
    let done := u32 (- partial) in
    p ← copy_from data 0 (u32 (done + rsiz));
    buf ← copy_to buf partial p;
    src ← copy_from buf 0 rsiz;
    Some (done, buf, src)
  else
    src ← copy_from data 0 rsiz;
    Some (0, buf, src).

Definition fio_sha3_update (sctx : fio_sha3_ctx) (data : bytes) : option fio_sha3_ctx :=
  let len := u32 (Z.of_nat (length data)) in
  if rsiz sctx - 1 <? u32 (partial sctx + len) then
    '(done, buf, src) ← sha3_first (sha3_buf sctx) (rsiz sctx) (partial sctx) data;
    '(st, done) ← sha3_blocks (S (length data)) (rsiz sctx) (rsizw sctx) (sha3_st sctx) src data done len;
    src ← copy_from data done (len - done);
    buf ← copy_to buf 0 src;
    Some (mkSha3 st (md_len sctx) (rsiz sctx) (rsizw sctx) (len - done) buf (sha3_sha sctx))
  else
    buf ← copy_to (sha3_buf sctx) (partial sctx) data;
    Some (mkSha3 (sha3_st sctx) (md_len sctx) (rsiz sctx) (rsizw sctx) (u32 (partial sctx + len)) buf
            (sha3_sha sctx)).

(** [buf[rsiz - 1] |= 0x80]. *)
Definition or_last (buf : bytes) (i : Z) : option bytes :=
  b ← copy_from buf i 1;
  copy_to buf i ((fun x => byte.of_Z (Z.lor (byte.unsigned x) 0x80)) <$> b).

Definition fio_sha3_final (sctx : fio_sha3_ctx) : option fio_sha3_ctx :=
  let inlen := partial sctx in
  buf ← copy_to (sha3_buf sctx) inlen [Byte.x06];
  let inlen := inlen + 1 in
  buf ← copy_to buf inlen (replicate (Z.to_nat (rsiz sctx - inlen)) Byte.x00);
  buf ← or_last buf (rsiz sctx - 1);
  let st := sha3_block (Z.to_nat (rsizw sctx)) (sha3_st sctx) buf in
  out ← copy_from (List.concat (le_split 8 <$> st)) 0 (md_len sctx);
  sha ← copy_to (sha3_sha sctx) 0 out;
  Some (mkSha3 st (md_len sctx) (rsiz sctx) (rsizw sctx) (partial sctx) buf sha).

Fixpoint sha3_updates (sctx : fio_sha3_ctx) (packets : list bytes) : option fio_sha3_ctx :=
  match packets with
  | [] => Some sctx
  | d :: packets' => sctx ← fio_sha3_update sctx d; sha3_updates sctx packets'
  end.

Definition sha3_demo : fio_sha3_ctx := mkSha3 [] 0 0 0 0 (replicate 144 Byte.xee) (replicate 64 Byte.xdd).

(** SHA3-256 of the string abc, in two packets. *)
Example sha3_abc :
  (take 32 ∘ sha3_sha) <$> (c ← sha3_updates (fio_sha3_256_init sha3_demo) [[Byte.x61]; [Byte.x62; Byte.x63]];
              fio_sha3_final c) =
  Some (byte.of_Z <$> [0x3a; 0x98; 0x5d; 0xa7; 0x4f; 0xe2; 0x25; 0xb2; 0x04; 0x5c; 0x17; 0x2d; 0x6b; 0xd3; 0x90; 0xbd;
   0x85; 0x5f; 0x08; 0x6e; 0x3e; 0x9d; 0x52; 0x5b; 0x46; 0xbf; 0xe2; 0x45; 0x11; 0x43; 0x15; 0x32]).
Proof. vm_compute. reflexivity. Qed.

(** ** The context represents the message fed so far *)

Abbreviation sha3_absorb n := (absorb n (sha3_block (n / 8))).

Record sha3_repr (n : nat) (c : fio_sha3_ctx) (m : bytes) : Prop := {
  k_st : sha3_st c = sha3_absorb n (replicate 25 0) m;
  k_buf : exists j, sha3_buf c = rest n m ++ j;
  k_len : length (sha3_buf c) = 144%nat;
  k_partial : partial c = Z.of_nat (length (rest n m));
  k_rsiz : rsiz c = Z.of_nat n;
  k_rsizw : rsizw c = Z.of_nat (n / 8)
}.

Section Sponge.
Variable n : nat.
Hypothesis Hn : (0 < n <= 144)%nat.
Let f := sha3_block (n / 8).

Lemma sha3_blocks_run data k st src dn fuel :
  (k <= length data)%nat -> (length data < fuel + k)%nat -> Z.of_nat (length data) < 2 ^ 32 - 144 ->
  u32 (dn + Z.of_nat n) = Z.of_nat k ->
  exists k', (k' <= length data)%nat /\ drop k' data = rest n (drop k data) /\
    sha3_blocks fuel (Z.of_nat n) (Z.of_nat (n / 8)) st src data dn (Z.of_nat (length data)) =
    Some (absorb n f (f st src) (drop k data), Z.of_nat k').
Proof.
  revert k st src dn. induction fuel as [|fuel IH]; intros k st src dn Hk Hf Hd Hdone; [lia|].
  cbn [sha3_blocks]. cbv zeta.
  rewrite Hdone, Nat2Z.id, (u32_small (Z.of_nat k + (Z.of_nat n - 1))) by (split; lia). fold f.
  destruct (Z.ltb_spec (Z.of_nat k + (Z.of_nat n - 1)) (Z.of_nat (length data))) as [Hlt|Hge].
  - rewrite (copy_from_eq data _ _ k n) by lia. obind.
    destruct (absorb_step n f ltac:(lia) (f st src) (drop k data)) as [-> ->]; [len|]. rewrite drop_drop.
    apply IH; [lia | lia | done | rewrite u32_small by (split; lia); lia].
  - exists k. by destruct (absorb_short n f (f st src) (drop k data)) as [-> ->]; [len|].
Qed.

Lemma sha3_first_run (buf r d : bytes) (av : nat) :
  length buf = 144%nat -> (exists j, buf = r ++ j) -> (length r + av = n)%nat -> (av <= length d)%nat ->
  (0 < av)%nat ->
  exists buf' dn, length buf' = 144%nat /\ u32 (dn + Z.of_nat n) = Z.of_nat av /\
    sha3_first buf (Z.of_nat n) (Z.of_nat (length r)) d = Some (dn, buf', r ++ take av d).
Proof.
  intros Hb [j Hj] Hav Hd Hpos. unfold sha3_first.
  assert (length j = 144 - length r)%nat as Hlj by (rewrite Hj, length_app in Hb; lia).
  destruct (Z.eqb_spec (Z.of_nat (length r)) 0) as [E0|E0]; simpl negb; cbv iota zeta.
  - rewrite (copy_from_eq d _ _ 0 n) by lia. obind. exists buf, 0.
    split; [done|]. replace av with n by lia. split; [by rewrite u32_small by (split; lia)|].
    rewrite drop_0. assert (r = []) as -> by (apply nil_length_inv; lia). done.
  - assert (u32 (- Z.of_nat (length r)) = 2 ^ 32 - Z.of_nat (length r)) as ->.
    { unfold u32. rewrite <- (Z.mod_add _ 1), Z.mod_small by lia. lia. }
    assert (u32 (2 ^ 32 - Z.of_nat (length r) + Z.of_nat n) = Z.of_nat av) as Hav'.
    { unfold u32. rewrite <- (Z.mod_add _ (-1)), Z.mod_small by lia. lia. }
    rewrite Hav', (copy_from_eq d _ _ 0 av), drop_0 by lia. obind.
    rewrite Hj, copy_to_prefix by len. obind.
    rewrite (copy_from_eq _ _ _ 0 n) by len. obind. rewrite drop_0, app_assoc, take_app_length' by len.
    eexists _, _. split; [|split; [exact Hav' | done]]. len.
Qed.

Lemma sha3_update_repr c m d :
  sha3_repr n c m -> Z.of_nat (length d) < 2 ^ 32 - 288 ->
  exists c', fio_sha3_update c d = Some c' /\ sha3_repr n c' (m ++ d) /\ md_len c' = md_len c /\
    sha3_sha c' = sha3_sha c.
Proof.
  intros [Hh [j Hj] Hs Hp Hrs Hrw] Hd. unfold fio_sha3_update. cbv zeta.
  pose proof (rest_lt n ltac:(lia) m) as Hlt.
  rewrite Hrs, Hrw, Hp, (u32_small (Z.of_nat (length d))), (u32_small (Z.of_nat (length (rest n m)) + _))
    by (split; lia).
  assert (length j = 144 - length (rest n m))%nat as Hlj by (rewrite Hj, length_app in Hs; lia).
  destruct (Z.ltb_spec (Z.of_nat n - 1) (Z.of_nat (length (rest n m)) + Z.of_nat (length d))) as [Hl|Hl].
  - set (av := (n - length (rest n m))%nat).
    destruct (absorb_complete n f ltac:(lia) (replicate 25 0) m d av) as [E1 E2]; [lia..|].
    destruct (sha3_first_run (sha3_buf c) (rest n m) d av) as (buf & dn & Hbuf & Hdone & ->);
      [done | by eexists | lia | lia | lia|].
    obind. destruct (sha3_blocks_run d av (sha3_st c) (rest n m ++ take av d) dn (S (length d)))
      as (k' & Hk' & Hdrop & ->); [lia | lia | lia | done|]. obind.
    replace (Z.of_nat (length d) - Z.of_nat k') with (Z.of_nat (length d - k')) by lia.
    rewrite copy_from_ok by lia. obind. rewrite (take_ge (drop k' d)) by len.
    pose proof (rest_lt n ltac:(lia) (drop av d)) as Hlt'. rewrite <- Hdrop in Hlt'.
    rewrite copy_to_0 by lia. obind. eexists. split; [done|].
    split; [|done]. constructor; cbn [sha3_st sha3_buf partial rsiz rsizw]; [fold f; by rewrite E1, Hh | rewrite E2, <- Hdrop; by eexists | len |
      rewrite E2, <- Hdrop; len | done | done].
  - rewrite Hj, copy_to_prefix by lia. obind. eexists. split; [done|].
    destruct (absorb_pending n f ltac:(lia) (replicate 25 0) m d) as [E1 E2]; [lia|].
    split; [|done]. constructor; cbn [sha3_st sha3_buf partial rsiz rsizw]; [fold f; by rewrite Hh, E1 | | len | | done | done].
    + exists (drop (length d) j). by rewrite E2, <- app_assoc.
    + rewrite E2. len.
Qed.

Lemma sha3_updates_repr packets c m :
  sha3_repr n c m -> Forall (fun d : bytes => Z.of_nat (length d) < 2 ^ 32 - 288) packets ->
  exists c', sha3_updates c packets = Some c' /\ sha3_repr n c' (m ++ List.concat packets) /\
    md_len c' = md_len c /\ sha3_sha c' = sha3_sha c.
Proof.
  revert c m. induction packets as [|d packets IH]; intros c m Hr Hp.
  - exists c. rewrite app_nil_r. done.
  - apply Forall_cons in Hp as [Hd Hp].
    destruct (sha3_update_repr c m d Hr Hd) as (c1 & E1 & H1 & Hm1 & Hs1).
    destruct (IH c1 (m ++ d) H1 Hp) as (c2 & E2 & H2 & Hm2 & Hs2). exists c2. simpl. rewrite E1. simpl.
    rewrite app_assoc. split_and!; [done | done | congruence | congruence].
Qed.

(** The padding of FIPS 202 for the hash functions: 0110*1. *)
Definition sha3_pad (m : bytes) : bytes :=
  match (n - 1 - length m mod n)%nat with
  | O => [Byte.x86]
  | S z => Byte.x06 :: replicate z Byte.x00 ++ [Byte.x80]
  end.

Lemma sha3_pad_buf {A} buf (r j : bytes) (g : bytes -> option A) :
  length buf = 144%nat -> buf = r ++ j -> (length r < n)%nat -> (length r = length r mod n)%nat ->
  exists j', (b ← copy_to buf (Z.of_nat (length r)) [Byte.x06];
   b ← copy_to b (Z.of_nat (length r) + 1) (replicate (Z.to_nat (Z.of_nat n - (Z.of_nat (length r) + 1))) Byte.x00);
   b ← or_last b (Z.of_nat n - 1); g b) = g (r ++ sha3_pad r ++ j').
Proof.
  intros Hb -> Hr Hmod. rewrite length_app in Hb. rewrite copy_to_prefix by (simpl; lia). obind.
  set (z := Z.to_nat (Z.of_nat n - (Z.of_nat (length r) + 1))). simpl length.
  rewrite (copy_to_eq _ (r ++ [Byte.x06]) (drop 1 j)); [ | by rewrite <- app_assoc | len | unfold z; len].
  obind. rewrite length_replicate. exists (drop z (drop 1 j)). unfold or_last, sha3_pad.
  rewrite <- Hmod. replace (n - 1 - length r)%nat with z by (unfold z; lia).
  destruct z as [|z'] eqn:Ez.
  - rewrite (copy_from_eq _ _ _ (length r) 1) by (try lia; len). obind.
    rewrite <- app_assoc, drop_app_length. simpl. rewrite (copy_to_eq _ r (Byte.x06 :: drop 0 (drop 1 j)));
      [|done | lia | simpl; lia]. done.
  - rewrite replicate_S_end.
    rewrite (copy_from_eq _ _ _ (length r + 1 + z') 1) by (try lia; len). obind.
    assert ((r ++ [Byte.x06]) ++ (replicate z' Byte.x00 ++ [Byte.x00]) ++ drop (S z') (drop 1 j) =
      (r ++ [Byte.x06] ++ replicate z' Byte.x00) ++ [Byte.x00] ++ drop (S z') (drop 1 j)) as ->
      by by rewrite <- !app_assoc.
    rewrite drop_app_length' by len. simpl take. 
    rewrite (copy_to_eq _ (r ++ [Byte.x06] ++ replicate z' Byte.x00) ([Byte.x00] ++ drop (S z') (drop 1 j)));
      [|done | len | len].
    simpl. by rewrite <- !app_assoc.
Qed.

Lemma length_sha3_block st src : length st = 25%nat -> length (f st src) = 25%nat.
Proof.
  intros H. unfold f, sha3_block.
  assert (forall k st, length st = 25%nat -> length (xor_words k st src) = 25%nat) as Hx.
  { intros k. unfold xor_words. generalize (seq 0 k). intros l. induction l as [|i l IH]; intros s Hs; [done|].
    simpl. apply IH. by rewrite length_insert. }
  rewrite keccakf_fips by auto. unfold fips_keccak. change (seq 0 24) with (seq 0 23 ++ [23%nat]).
  rewrite foldl_app. cbn [foldl]. unfold fips_iota. by rewrite length_insert.
Qed.

Lemma length_sha3_absorb st m : length st = 25%nat -> length (absorb n f st m) = 25%nat.
Proof.
  intros H. unfold absorb. revert st H. generalize (blocks n m). intros l.
  induction l as [|b l IH]; intros st H; [done|]. simpl. by apply IH, length_sha3_block.
Qed.
End Sponge.

Lemma xor_words_ext k st (a b : bytes) :
  (forall i, (i < k)%nat -> le_word 8 a (Z.of_nat i) = le_word 8 b (Z.of_nat i)) ->
  xor_words k st a = xor_words k st b.
Proof.
  intros H. unfold xor_words. apply foldl_ext_in. intros s i Hi.
  apply in_seq in Hi. by rewrite H by lia.
Qed.

Lemma xor_words_prefix k st (a b : bytes) :
  (8 * k <= length a)%nat -> xor_words k st (a ++ b) = xor_words k st a.
Proof.
  intros H. apply xor_words_ext. intros i Hi. unfold le_word. rewrite Nat2Z.id.
  rewrite drop_app_le, take_app_le by (rewrite ?length_drop; lia). done.
Qed.

Lemma sha3_block_prefix k st (a b : bytes) :
  (8 * k <= length a)%nat -> sha3_block k st (a ++ b) = sha3_block k st a.
Proof. intros H. unfold sha3_block. by rewrite xor_words_prefix. Qed.

Lemma length_xor_words k st src : length (xor_words k st src) = length st.
Proof.
  unfold xor_words. generalize (seq 0 k). intros l. revert st. induction l as [|i l IH]; intros st; [done|].
  simpl. by rewrite IH, length_insert.
Qed.

Lemma absorb_fips_eq n m st :
  length st = 25%nat ->
  absorb n (sha3_block (n / 8)) st m = absorb n (fun st b => fips_keccak (xor_words (n / 8) st b)) st m.
Proof.
  unfold absorb. generalize (blocks n m). intros l. revert st.
  induction l as [|b l IH]; intros st H; [done|]. simpl.
  rewrite IH by (by apply length_sha3_block). unfold sha3_block.
  by rewrite keccakf_fips by by rewrite length_xor_words.
Qed.

Lemma length_lane_bytes (st : list Z) :
  length (List.concat (le_split 8 <$> st)) = (8 * length st)%nat.
Proof.
  induction st as [|w st IH]; [done|]. rewrite fmap_cons. cbn [List.concat].
  rewrite length_app, length_le_split, IH. simpl. lia.
Qed.

(** The digest of FIPS 202: the first bytes of the state after the padded
    message. *)
Definition sha3_digest (n : nat) (md : nat) (m : bytes) : bytes :=
  take md (List.concat (le_split 8 <$> sha3_absorb n (replicate 25 0) (m ++ sha3_pad n m))).

Lemma sha3_final_digest n c m :
  (0 < n <= 144)%nat -> (n mod 8 = 0)%nat -> sha3_repr n c m -> 0 <= md_len c <= 200 ->
  md_len c <= Z.of_nat (length (sha3_sha c)) ->
  exists c', fio_sha3_final c = Some c' /\
    take (Z.to_nat (md_len c)) (sha3_sha c') = sha3_digest n (Z.to_nat (md_len c)) m.
Proof.
  intros Hn Hn8 [Hh [j Hj] Hs Hp Hrs Hrw] Hmd Hsha. unfold fio_sha3_final. cbv zeta.
  rewrite Hp, Hrs, Hrw, Nat2Z.id.
  pose proof (rest_lt n ltac:(lia) m) as Hlt. pose proof (length_rest n ltac:(lia) m) as Hlr.
  assert (length (rest n m) = length (rest n m) mod n)%nat as Hmod by by rewrite Nat.mod_small by lia.
  destruct (sha3_pad_buf n Hn (sha3_buf c) (rest n m) j (fun buf =>
    let st := sha3_block (n / 8) (sha3_st c) buf in
    out ← copy_from (List.concat (le_split 8 <$> st)) 0 (md_len c);
    sha ← copy_to (sha3_sha c) 0 out;
    Some (mkSha3 st (md_len c) (Z.of_nat n) (Z.of_nat (n / 8)) (Z.of_nat (length (rest n m))) buf sha))
    Hs Hj Hlt Hmod) as [j' Hpad].
  cbv zeta in Hpad. rewrite Hpad. clear Hpad.
  assert (sha3_pad n (rest n m) = sha3_pad n m) as Hpm by (unfold sha3_pad; by rewrite <- Hmod, Hlr).
  assert (length (rest n m ++ sha3_pad n m) = n) as Hblk.
  { rewrite <- Hpm. unfold sha3_pad. rewrite <- Hmod.
    destruct (n - 1 - length (rest n m))%nat eqn:E; len. }
  assert (sha3_block (n / 8) (sha3_st c) (rest n m ++ sha3_pad n (rest n m) ++ j') =
          sha3_absorb n (replicate 25 0) (m ++ sha3_pad n m)) as ->.
  { destruct (absorb_app n (sha3_block (n / 8)) ltac:(lia) (replicate 25 0) m (sha3_pad n m)) as [-> _].
    rewrite absorb_block by lia. rewrite Hh, Hpm, app_assoc. apply sha3_block_prefix.
    pose proof (Nat.div_mod n 8). lia. }
  set (st := sha3_absorb n (replicate 25 0) (m ++ sha3_pad n m)).
  assert (length st = 25%nat) as Hst by (by apply length_sha3_absorb).
  rewrite (copy_from_eq _ _ _ 0 (Z.to_nat (md_len c))) by (rewrite ?length_lane_bytes; lia). obind.
  rewrite drop_0, copy_to_0 by (rewrite length_take; lia). obind. eexists. split; [done|].
  cbn [sha3_sha]. unfold sha3_digest. fold st. rewrite take_app_le by (rewrite length_take, length_lane_bytes; lia).
  by rewrite take_ge by (rewrite length_take; lia).
Qed.

Lemma sha3_init_repr sctx d :
  length (sha3_buf sctx) = 144%nat -> In d [28; 32; 48; 64] ->
  sha3_repr (Z.to_nat (200 - 2 * d)) (fio_sha3_init sctx d) [].
Proof.
  intros Hb Hd. destruct Hd as [<-|[<-|[<-|[<-|[]]]]];
    (constructor; cbn [fio_sha3_init sha3_st sha3_buf partial rsiz rsizw];
     [done | by eexists | by rewrite length_replicate | done | done | done]).
Qed.

(** The SHA-3 contexts compute the digest of FIPS 202, however the message is
    cut into packets.  For the four digest sizes, init, fio_sha3_update on each
    packet and fio_sha3_final stay inside the buffers and store the digest of the
    sponge over the standard's permutation (its steps, rotation offsets and round
    constants computed as FIPS 202 defines them) of the padded message. *)
Theorem sha3_stream sctx d packets :
  length (sha3_buf sctx) = 144%nat -> In d [28; 32; 48; 64] -> (64 <= length (sha3_sha sctx))%nat ->
  Forall (fun p : bytes => Z.of_nat (length p) < 2 ^ 32 - 288) packets ->
  let n := Z.to_nat (200 - 2 * d) in
  let m := List.concat packets in
  let absorb_fips st b := fips_keccak (xor_words (n / 8) st b) in
  exists c', (c ← sha3_updates (fio_sha3_init sctx d) packets; fio_sha3_final c) = Some c' /\
    take (Z.to_nat d) (sha3_sha c') =
    take (Z.to_nat d) (List.concat (le_split 8 <$>
      absorb n absorb_fips (replicate 25 0) (m ++ sha3_pad n m))).
Proof.
  intros Hb Hd Hsha Hp n m absorb_fips.
  assert (0 < n <= 144 /\ n mod 8 = 0)%nat as [Hn Hn8].
  { unfold n. destruct Hd as [<-|[<-|[<-|[<-|[]]]]]; vm_compute; split; lia. }
  destruct (sha3_updates_repr n Hn packets _ [] (sha3_init_repr sctx d Hb Hd) Hp) as (c & -> & Hr & Hm & Hs).
  simpl in Hm, Hs.
  destruct (sha3_final_digest n c m Hn Hn8 Hr) as (c' & Hc' & Hdig);
    [rewrite Hm; destruct Hd as [<-|[<-|[<-|[<-|[]]]]]; lia |
     rewrite Hm, Hs; destruct Hd as [<-|[<-|[<-|[<-|[]]]]]; lia|].
  exists c'. split; [exact Hc'|]. rewrite Hm in Hdig. rewrite Hdig. unfold sha3_digest. do 3 f_equal.
  apply absorb_fips_eq. done.
Qed.

Lemma sha3_stream_witness :
  let packets := [[Byte.x61]; []; [Byte.x62; Byte.x63]] in
  let n := 136%nat in
  let m := List.concat packets in
  let absorb_fips st b := fips_keccak (xor_words (n / 8) st b) in
  exists c', (c ← sha3_updates (fio_sha3_init sha3_demo 32) packets; fio_sha3_final c) = Some c' /\
    take 32 (sha3_sha c') =
    take 32 (List.concat (le_split 8 <$> absorb n absorb_fips (replicate 25 0) (m ++ sha3_pad n m))).
Proof.
  apply (sha3_stream sha3_demo 32 [[Byte.x61]; []; [Byte.x62; Byte.x63]]);
    [reflexivity | right; left; reflexivity | simpl; lia | repeat constructor].
Defined.
