(* ===== verification/XxHash.v ===== *)
(** The XXH32 hash of src/fio/crc/xxhash.c: one shot and fed with packets, on
    machines of either byte order. *)
From S2P Require Import Prelude Blocks.

Definition PRIME32_1 : Z := 2654435761.
Definition PRIME32_2 : Z := 2246822519.
Definition PRIME32_3 : Z := 3266489917.
Definition PRIME32_4 : Z := 668265263.
Definition PRIME32_5 : Z := 374761393.

Inductive XXH_endianess : Type := XXH_bigEndian | XXH_littleEndian.

Definition XXH_swap32 (x : Z) : Z :=
  Z.lor (Z.lor (Z.lor (Z.land (Z.shiftl x 24) 0xff000000) (Z.land (Z.shiftl x 8) 0x00ff0000))
           (Z.land (Z.shiftr x 8) 0x0000ff00)) (Z.land (Z.shiftr x 24) 0x000000ff).

(** [A32(ptr)]: four bytes as a word of the machine. *)
Definition A32 (cpu : XXH_endianess) (b : bytes) : Z :=
  match cpu with XXH_littleEndian => le_combine b | XXH_bigEndian => le_combine (rev b) end.

(** Aligned and unaligned reads give the same word. *)
Definition XXH_readLE32 (endian : XXH_endianess) (ptr : bytes) : Z :=
  match endian with
  | XXH_littleEndian => A32 XXH_littleEndian ptr
  | XXH_bigEndian => XXH_swap32 (A32 XXH_bigEndian ptr)
  end.

(** One lane: [v += read * PRIME32_2; v = rotl(v, 13); v *= PRIME32_1]. *)
Definition xxh_lane (v w : Z) : Z := mul32 (rotl32 (add32 v (mul32 w PRIME32_2)) 13) PRIME32_1.

Abbreviation lanes4 := (Z * Z * Z * Z)%type.

(** The four lanes over 16 bytes. *)
Definition xxh_stripe (endian : XXH_endianess) (v : lanes4) (b : bytes) : lanes4 :=
  let '(v1, v2, v3, v4) := v in
  let rd := fun i : nat => XXH_readLE32 endian (take 4 (drop (4 * i) b)) in
  (xxh_lane v1 (rd 0%nat), xxh_lane v2 (rd 1%nat), xxh_lane v3 (rd 2%nat), xxh_lane v4 (rd 3%nat)).

(** [do { four lanes } while (p <= limit)]. *)
Fixpoint xxh_loop (endian : XXH_endianess) (fuel : nat) (v : lanes4) (input : bytes) (p limit : Z) :
    option (lanes4 * Z) :=
  match fuel with
  | O => None
  | S fuel' =>
      b ← copy_from input p 16;
      let v := xxh_stripe endian v b in
      if p + 16 <=? limit then xxh_loop endian fuel' v input (p + 16) limit else Some (v, p + 16)
  end.

Definition xxh_merge (v : lanes4) : Z :=
  let '(v1, v2, v3, v4) := v in
  add32 (add32 (add32 (rotl32 v1 1) (rotl32 v2 7)) (rotl32 v3 12)) (rotl32 v4 18).

(** [while (p <= bEnd - 4)]. *)
Fixpoint xxh_words (endian : XXH_endianess) (fuel : nat) (h32 : Z) (buf : bytes) (p bEnd : Z) :
    option (Z * Z) :=
  match fuel with
  | O => None
  | S fuel' =>
      if p <=? bEnd - 4 then
        b ← copy_from buf p 4;
        let h32 := add32 h32 (mul32 (XXH_readLE32 endian b) PRIME32_3) in
        xxh_words endian fuel' (mul32 (rotl32 h32 17) PRIME32_4) buf (p + 4) bEnd
      else Some (h32, p)
  end.

(** [while (p < bEnd)]. *)
Fixpoint xxh_bytes (fuel : nat) (h32 : Z) (buf : bytes) (p bEnd : Z) : option Z :=
  match fuel with
  | O => None
  | S fuel' =>
      if p <? bEnd then
        b ← copy_from buf p 1;
        let h32 := add32 h32 (mul32 (le_combine b) PRIME32_5) in
        xxh_bytes fuel' (mul32 (rotl32 h32 11) PRIME32_1) buf (p + 1) bEnd
      else Some h32
  end.

Definition xxh_avalanche (h32 : Z) : Z :=
  let h32 := Z.lxor h32 (Z.shiftr h32 15) in
  let h32 := mul32 h32 PRIME32_2 in
  let h32 := Z.lxor h32 (Z.shiftr h32 13) in
  let h32 := mul32 h32 PRIME32_3 in
  Z.lxor h32 (Z.shiftr h32 16).

(** The end of both digests: the bytes of [buf] from [p] to [bEnd]. *)
Definition xxh_finish (endian : XXH_endianess) (h32 : Z) (buf : bytes) (p bEnd : Z) : option Z :=
  '(h32, p) ← xxh_words endian (S (length buf)) h32 buf p bEnd;
  h32 ← xxh_bytes (S (length buf)) h32 buf p bEnd;
  Some (xxh_avalanche h32).

Definition xxh_seed (seed : Z) : lanes4 :=
  (add32 (add32 seed PRIME32_1) PRIME32_2, add32 seed PRIME32_2, add32 seed 0, u32 (seed - PRIME32_1)).

Definition XXH32_endian_align (input : bytes) (seed : Z) (endian : XXH_endianess) : option Z :=
  let len := Z.of_nat (length input) in
  '(h32, p) ← (if 16 <=? len then
                 '(v, p) ← xxh_loop endian (S (length input)) (xxh_seed seed) input 0 (len - 16);
                 Some (xxh_merge v, p)
               else Some (add32 seed PRIME32_5, 0));
  xxh_finish endian (add32 h32 (u32 len)) input p len.

Definition XXH32 (cpu : XXH_endianess) (input : bytes) (seed : Z) : option Z :=
  match cpu with
  | XXH_littleEndian => XXH32_endian_align input seed XXH_littleEndian
  | XXH_bigEndian => XXH32_endian_align input seed XXH_bigEndian
  end.

(** * The state *)

Record XXH_state32_t : Type := mkXXH {
  total_len : Z;
  xseed : Z;
  xv : lanes4;
  memsize : Z;
  xmemory : bytes           (* char memory[16] *)
}.

(** [XXH32_resetState] keeps the memory. *)
Definition XXH32_resetState (st : XXH_state32_t) (seed : Z) : XXH_state32_t :=
  mkXXH 0 seed (xxh_seed seed) 0 (xmemory st).

(** [XXH32_init]: [mem] is the content of the new block's memory field. *)
Definition XXH32_init (mem : bytes) (seed : Z) : XXH_state32_t :=
  XXH32_resetState (mkXXH 0 0 (0, 0, 0, 0) 0 mem) seed.

(** Data left from the previous update is completed to a block and consumed: the
    lanes, the memory, the position in the input and the new [memsize]. *)
Definition xxh_first (endian : XXH_endianess) (st : XXH_state32_t) (input : bytes) :
    option (lanes4 * bytes * Z * Z) :=
  if negb (memsize st =? 0) then
    src ← copy_from input 0 (16 - memsize st);
    mem ← copy_to (xmemory st) (memsize st) src;
    Some (xxh_stripe endian (xv st) mem, mem, 16 - memsize st, 0)
  else Some (xv st, xmemory st, 0, memsize st).

(** [if (p <= bEnd-16) { do ... while (p <= limit); }]. *)
Definition xxh_whole (endian : XXH_endianess) (v : lanes4) (input : bytes) (p bEnd : Z) :
    option (lanes4 * Z) :=
  if p <=? bEnd - 16 then xxh_loop endian (S (length input)) v input p (bEnd - 16) else Some (v, p).

Definition XXH32_update_endian (st : XXH_state32_t) (input : bytes) (endian : XXH_endianess) :
    option XXH_state32_t :=
  let len := Z.of_nat (length input) in
  let bEnd := len in
  let tl := u64 (total_len st + len) in
  if memsize st + len <? 16 then
    mem ← copy_to (xmemory st) (memsize st) input;
    Some (mkXXH tl (xseed st) (xv st) (memsize st + len) mem)
  else
    '(v, mem, p, ms) ← xxh_first endian st input;
    '(v, p) ← xxh_whole endian v input p bEnd;
    if p <? bEnd then
      src ← copy_from input p (bEnd - p);
      mem ← copy_to mem 0 src;
      Some (mkXXH tl (xseed st) v (bEnd - p) mem)
    else Some (mkXXH tl (xseed st) v ms mem).

Definition XXH32_update (cpu : XXH_endianess) (st : XXH_state32_t) (input : bytes) : option XXH_state32_t :=
  match cpu with
  | XXH_littleEndian => XXH32_update_endian st input XXH_littleEndian
  | XXH_bigEndian => XXH32_update_endian st input XXH_bigEndian
  end.

Definition XXH32_intermediateDigest_endian (st : XXH_state32_t) (endian : XXH_endianess) : option Z :=
  let h32 := if 16 <=? total_len st then xxh_merge (xv st) else add32 (xseed st) PRIME32_5 in
  let h32 := add32 h32 (u32 (total_len st)) in
  xxh_finish endian h32 (xmemory st) 0 (memsize st).

Definition XXH32_intermediateDigest (cpu : XXH_endianess) (st : XXH_state32_t) : option Z :=
  match cpu with
  | XXH_littleEndian => XXH32_intermediateDigest_endian st XXH_littleEndian
  | XXH_bigEndian => XXH32_intermediateDigest_endian st XXH_bigEndian
  end.

(** [XXH32_digest] also frees the state. *)
Definition XXH32_digest (cpu : XXH_endianess) (st : XXH_state32_t) : option Z :=
  XXH32_intermediateDigest cpu st.

Fixpoint XXH32_updates (cpu : XXH_endianess) (st : XXH_state32_t) (packets : list bytes) :
    option XXH_state32_t :=
  match packets with
  | [] => Some st
  | d :: packets' => st ← XXH32_update cpu st d; XXH32_updates cpu st packets'
  end.

(** Published values: the empty string with seed 0, and abc. *)
Example xxh32_values :
  XXH32 XXH_littleEndian [] 0 = Some 0x02CC5D05 /\
  XXH32 XXH_littleEndian [Byte.x61; Byte.x62; Byte.x63] 0 = Some 0x32D153FF.
Proof. vm_compute. done. Qed.

(** * Byte order *)

Lemma swap32_lor a b : XXH_swap32 (Z.lor a b) = Z.lor (XXH_swap32 a) (XXH_swap32 b).
Proof.
  unfold XXH_swap32. rewrite !Z.shiftl_lor, !Z.shiftr_lor. bitwise.
Qed.

Lemma swap32_byte (b : byte) :
  let x := byte.unsigned b in
  XXH_swap32 x = Z.shiftl x 24 /\ XXH_swap32 (Z.shiftl x 8) = Z.shiftl x 16 /\
  XXH_swap32 (Z.shiftl x 16) = Z.shiftl x 8 /\ XXH_swap32 (Z.shiftl x 24) = x.
Proof. destruct b; vm_compute; done. Qed.

Lemma le_combine_4 (a b c d : byte) :
  let u := byte.unsigned in
  le_combine [a; b; c; d] =
  Z.lor (u a) (Z.lor (Z.shiftl (u b) 8) (Z.lor (Z.shiftl (u c) 16) (Z.shiftl (u d) 24))).
Proof.
  intros u. change (le_combine [a; b; c; d]) with
    (Z.lor (u a) (Z.shiftl (Z.lor (u b) (Z.shiftl (Z.lor (u c) (Z.shiftl (Z.lor (u d) 0) 8)) 8)) 8)).
  by rewrite Z.lor_0_r, !Z.shiftl_lor, !Z.shiftl_shiftl by lia.
Qed.

Lemma read_endian e b : length b = 4%nat -> XXH_readLE32 e b = le_combine b.
Proof.
  intros H. destruct e; [|done]. do 4 (destruct b as [|? b]; [discriminate H|]).
  destruct b; [|discriminate H]. cbn [XXH_readLE32 A32 rev app]. rewrite !le_combine_4. cbv zeta.
  rewrite !swap32_lor.
  destruct (swap32_byte b0) as (_ & _ & _ & ->), (swap32_byte b1) as (_ & _ & -> & _),
    (swap32_byte b2) as (_ & -> & _ & _), (swap32_byte b3) as (-> & _ & _ & _).
  generalize (Z.shiftl (byte.unsigned b3) 24), (Z.shiftl (byte.unsigned b2) 16),
    (Z.shiftl (byte.unsigned b1) 8), (byte.unsigned b0). intros w x y z. bitwise.
Qed.

Lemma stripe_endian e v b : length b = 16%nat -> xxh_stripe e v b = xxh_stripe XXH_littleEndian v b.
Proof.
  intros H. unfold xxh_stripe. destruct v as [[[v1 v2] v3] v4]. destruct e; [|done].
  by rewrite !(read_endian XXH_bigEndian) by len.
Qed.

Lemma copy_from_length data off n b : copy_from data off n = Some b -> Z.of_nat (length b) = n.
Proof.
  unfold copy_from. destruct (_ && _) eqn:E; [|done]. intros [= <-]. bcases. len.
Qed.

Lemma loop_endian e fuel v input p limit :
  xxh_loop e fuel v input p limit = xxh_loop XXH_littleEndian fuel v input p limit.
Proof.
  revert v p. induction fuel as [|fuel IH]; intros v p; [done|]. simpl.
  destruct (copy_from input p 16) as [b|] eqn:E; [|done]. apply copy_from_length in E. simpl.
  rewrite (stripe_endian e) by lia. by rewrite IH.
Qed.

Lemma words_endian e fuel h buf p bEnd :
  xxh_words e fuel h buf p bEnd = xxh_words XXH_littleEndian fuel h buf p bEnd.
Proof.
  revert h p. induction fuel as [|fuel IH]; intros h p; [done|]. simpl.
  destruct (p <=? bEnd - 4); [|done].
  destruct (copy_from buf p 4) as [b|] eqn:E; [|done]. apply copy_from_length in E. simpl.
  destruct e; [|done]. rewrite (read_endian XXH_bigEndian) by lia. apply IH.
Qed.

(** * The digests as functions of the message *)

Definition xxh_word_step (h : Z) (b : bytes) : Z :=
  mul32 (rotl32 (add32 h (mul32 (le_combine b) PRIME32_3)) 17) PRIME32_4.
Definition xxh_byte_step (h : Z) (b : byte) : Z :=
  mul32 (rotl32 (add32 h (mul32 (byte.unsigned b) PRIME32_5)) 11) PRIME32_1.

Definition xxh_tail (h : Z) (t : bytes) : Z :=
  xxh_avalanche (foldl xxh_byte_step (absorb 4 xxh_word_step h t) (rest 4 t)).

Definition xxh_ref (seed : Z) (m : bytes) : Z :=
  let h := if 16 <=? Z.of_nat (length m)
           then xxh_merge (absorb 16 (xxh_stripe XXH_littleEndian) (xxh_seed seed) m)
           else add32 seed PRIME32_5 in
  xxh_tail (add32 h (u32 (Z.of_nat (length m)))) (rest 16 m).

Lemma xxh_loop_run e data k v fuel :
  (k + 16 <= length data)%nat -> (length data < fuel + k)%nat ->
  exists k', (k' <= length data)%nat /\ drop k' data = rest 16 (drop k data) /\
    xxh_loop e fuel v data (Z.of_nat k) (Z.of_nat (length data) - 16) =
    Some (absorb 16 (xxh_stripe XXH_littleEndian) v (drop k data), Z.of_nat k').
Proof.
  rewrite loop_endian. set (f := xxh_stripe XXH_littleEndian).
  revert k v. induction fuel as [|fuel IH]; intros k v Hk Hf; [lia|]. cbn [xxh_loop]. fold f.
  rewrite (copy_from_eq data _ _ k 16) by lia. obind. cbv zeta. fold f.
  destruct (absorb_step 16 f ltac:(lia) v (drop k data)) as [-> ->]; [len|]. rewrite drop_drop.
  replace (Z.of_nat k + 16) with (Z.of_nat (k + 16)) by lia.
  destruct (Z.leb_spec (Z.of_nat (k + 16)) (Z.of_nat (length data) - 16)) as [Hle|Hgt].
  - apply IH; lia.
  - exists (k + 16)%nat. destruct (absorb_short 16 f (f v (take 16 (drop k data))) (drop (k + 16) data))
      as [-> ->]; [len|]. split; [lia|done].
Qed.

Section Finish.
Context (buf : bytes) (e : nat).
Hypothesis He : (e <= length buf)%nat.

(** The bytes from [k] to the end [e]. *)
Let slice (k : nat) : bytes := drop k (take e buf).

Lemma copy_from_slice off z k n :
  off = Z.of_nat k -> z = Z.of_nat n -> (k + n <= e)%nat -> copy_from buf off z = Some (take n (slice k)).
Proof.
  intros -> -> H. rewrite copy_from_ok by lia. f_equal. unfold slice.
  rewrite <- (take_drop e buf) at 1. rewrite drop_app_le by len. by rewrite take_app_le by len.
Qed.

Lemma xxh_words_run en k h fuel :
  (k <= e)%nat -> (e < fuel + k)%nat ->
  exists k', (k' <= e)%nat /\ slice k' = rest 4 (slice k) /\
    xxh_words en fuel h buf (Z.of_nat k) (Z.of_nat e) =
    Some (absorb 4 xxh_word_step h (slice k), Z.of_nat k').
Proof.
  rewrite words_endian. revert k h. induction fuel as [|fuel IH]; intros k h Hk Hf; [lia|].
  cbn [xxh_words]. destruct (Z.leb_spec (Z.of_nat k) (Z.of_nat e - 4)) as [Hle|Hgt].
  - rewrite (copy_from_slice _ _ k 4) by lia. obind. cbv zeta.
    destruct (absorb_step 4 xxh_word_step ltac:(lia) h (slice k)) as [-> ->]; [unfold slice; len|].
    replace (drop 4 (slice k)) with (slice (k + 4)) by (unfold slice; by rewrite drop_drop).
    replace (Z.of_nat k + 4) with (Z.of_nat (k + 4)) by lia. apply IH; lia.
  - exists k. destruct (absorb_short 4 xxh_word_step h (slice k)) as [-> ->]; [unfold slice; len|]. done.
Qed.

Lemma xxh_bytes_run k h fuel :
  (k <= e)%nat -> (e < fuel + k)%nat ->
  xxh_bytes fuel h buf (Z.of_nat k) (Z.of_nat e) = Some (foldl xxh_byte_step h (slice k)).
Proof.
  revert k h. induction fuel as [|fuel IH]; intros k h Hk Hf; [lia|]. cbn [xxh_bytes].
  destruct (Z.ltb_spec (Z.of_nat k) (Z.of_nat e)) as [Hlt|Hge].
  - rewrite (copy_from_slice _ _ k 1) by lia. obind. cbv zeta.
    replace (Z.of_nat k + 1) with (Z.of_nat (k + 1)) by lia. rewrite IH by lia.
    assert (slice k = take 1 (slice k) ++ slice (k + 1)) as E
      by (unfold slice; by rewrite <- drop_drop, take_drop).
    rewrite E at 2. rewrite foldl_app. do 2 f_equal.
    destruct (slice k) as [|b l] eqn:Es; [apply (f_equal length) in Es; unfold slice in Es; len|].
    simpl. rewrite take_0. simpl. unfold xxh_byte_step. do 4 f_equal.
    change (le_combine [b]) with (Z.lor (byte.unsigned b) 0). apply Z.lor_0_r.
  - unfold slice. rewrite drop_ge by len. done.
Qed.

Lemma xxh_finish_run en k h :
  (k <= e)%nat -> xxh_finish en h buf (Z.of_nat k) (Z.of_nat e) = Some (xxh_tail h (slice k)).
Proof.
  intros Hk. unfold xxh_finish.
  destruct (xxh_words_run en k h (S (length buf))) as (k' & Hk' & Hs & ->); [lia..|]. obind.
  rewrite xxh_bytes_run by lia. obind. unfold xxh_tail. by rewrite Hs.
Qed.
End Finish.

Lemma XXH32_run cpu m seed :
  XXH32 cpu m seed = Some (xxh_ref seed m).
Proof.
  assert (XXH32 cpu m seed = XXH32_endian_align m seed cpu) as -> by by destruct cpu.
  unfold XXH32_endian_align, xxh_ref. cbv zeta.
  destruct (Z.leb_spec 16 (Z.of_nat (length m))) as [Hge|Hlt].
  - destruct (xxh_loop_run cpu m 0 (xxh_seed seed) (S (length m))) as (k' & Hk' & Hd & E); [lia..|].
    change (Z.of_nat 0) with 0 in E. rewrite E. obind. rewrite drop_0 in *.
    rewrite (xxh_finish_run m (length m)) by lia. by rewrite take_ge, Hd by lia.
  - obind. change 0 with (Z.of_nat 0). rewrite (xxh_finish_run m (length m)) by lia.
    rewrite drop_0, take_ge by lia. by destruct (blocks_short 16 m) as [_ ->]; [lia|].
Qed.

(** * The state represents the message fed so far *)

Abbreviation xxh_absorb := (absorb 16 (xxh_stripe XXH_littleEndian)).

Record xxh_repr (seed : Z) (st : XXH_state32_t) (m : bytes) : Prop := {
  x_v : xv st = xxh_absorb (xxh_seed seed) m;
  x_mem : exists j, xmemory st = rest 16 m ++ j;
  x_len : length (xmemory st) = 16%nat;
  x_size : memsize st = Z.of_nat (length (rest 16 m));
  x_total : total_len st = u64 (Z.of_nat (length m));
  x_seed : xseed st = seed
}.

Lemma xxh_init_repr mem seed : length mem = 16%nat -> xxh_repr seed (XXH32_init mem seed) [].
Proof. intros H. constructor; simpl; try done. by eexists. Qed.

Lemma xxh_first_run cpu seed st m d :
  xxh_repr seed st m -> (16 <= length (rest 16 m) + length d)%nat ->
  exists v mem k, (k <= length d)%nat /\ length mem = 16%nat /\
    xxh_first cpu st d = Some (v, mem, Z.of_nat k, 0) /\
    xxh_absorb (xxh_seed seed) (m ++ d) = xxh_absorb v (drop k d) /\
    rest 16 (m ++ d) = rest 16 (drop k d).
Proof.
  intros [Hv [j Hj] Hl Hs _ _] Hlg. unfold xxh_first. rewrite Hs.
  pose proof (rest_lt 16 ltac:(lia) m) as Hlt. set (f := xxh_stripe XXH_littleEndian).
  assert (length j = 16 - length (rest 16 m))%nat as Hlj by (rewrite Hj, length_app in Hl; lia).
  destruct (Z.eqb_spec (Z.of_nat (length (rest 16 m))) 0) as [E0|E0]; simpl negb; cbv iota.
  - exists (xv st), (xmemory st), 0%nat. rewrite E0, drop_0.
    assert (rest 16 m = []) as Hnil by (apply nil_length_inv; lia).
    destruct (absorb_app 16 f ltac:(lia) (xxh_seed seed) m d) as [-> ->].
    rewrite Hnil, Hv. split; [lia|]. split_and!; done.
  - set (av := (16 - length (rest 16 m))%nat).
    replace (16 - Z.of_nat (length (rest 16 m))) with (Z.of_nat av) by lia.
    rewrite (copy_from_eq d _ _ 0 av), drop_0 by lia. obind.
    rewrite Hj, copy_to_prefix by len. obind. rewrite (drop_ge j), app_nil_r by len.
    destruct (absorb_complete 16 f ltac:(lia) (xxh_seed seed) m d av) as [E1 E2]; [lia..|].
    eexists _, _, av. split; [lia|]. split; [|split; [done|]]; [len|].
    split; [|done]. rewrite E1, Hv, stripe_endian by len. done.
Qed.

Lemma xxh_whole_run cpu v d k :
  (k <= length d)%nat ->
  exists k', (k' <= length d)%nat /\ drop k' d = rest 16 (drop k d) /\
    xxh_whole cpu v d (Z.of_nat k) (Z.of_nat (length d)) = Some (xxh_absorb v (drop k d), Z.of_nat k').
Proof.
  intros Hk. unfold xxh_whole.
  destruct (Z.leb_spec (Z.of_nat k) (Z.of_nat (length d) - 16)) as [Hle|Hgt].
  - apply xxh_loop_run; lia.
  - exists k. by destruct (absorb_short 16 (xxh_stripe XXH_littleEndian) v (drop k d)) as [-> ->]; [len|].
Qed.

Lemma xxh_update_repr cpu seed st m d :
  xxh_repr seed st m -> exists st', XXH32_update cpu st d = Some st' /\ xxh_repr seed st' (m ++ d).
Proof.
  intros Hr0. pose proof Hr0 as [Hv [j Hj] Hl Hs Ht Hsd].
  assert (XXH32_update cpu st d = XXH32_update_endian st d cpu) as -> by by destruct cpu.
  unfold XXH32_update_endian. cbv zeta. rewrite Hs.
  pose proof (rest_lt 16 ltac:(lia) m) as Hlt.
  assert (length j = 16 - length (rest 16 m))%nat as Hlj by (rewrite Hj, length_app in Hl; lia).
  assert (u64 (total_len st + Z.of_nat (length d)) = u64 (Z.of_nat (length (m ++ d)))) as ->.
  { rewrite Ht, length_app. unfold u64. rewrite Zplus_mod_idemp_l. f_equal. lia. }
  destruct (Z.ltb_spec (Z.of_nat (length (rest 16 m)) + Z.of_nat (length d)) 16) as [Hsh|Hlg].
  { rewrite Hj, copy_to_prefix by lia. obind. eexists. split; [done|].
    destruct (absorb_pending 16 (xxh_stripe XXH_littleEndian) ltac:(lia) (xxh_seed seed) m d)
      as [E1 E2]; [lia|].
    constructor; cbn [xv xmemory memsize total_len xseed]; [by rewrite E1 | | len | | done | done].
    - exists (drop (length d) j). by rewrite E2, <- app_assoc.
    - rewrite E2. len. }
  destruct (xxh_first_run cpu seed st m d Hr0) as (v & mem & k & Hk & Hmem & -> & E1 & E2); [lia|]. obind.
  destruct (xxh_whole_run cpu v d k Hk) as (k' & Hk' & Hd' & ->). obind.
  pose proof (rest_lt 16 ltac:(lia) (drop k d)) as Hlt'. rewrite <- Hd' in Hlt'.
  destruct (Z.ltb_spec (Z.of_nat k') (Z.of_nat (length d))) as [Hr|Hr].
  - replace (Z.of_nat (length d) - Z.of_nat k') with (Z.of_nat (length d - k')) by lia.
    rewrite copy_from_ok by lia. obind. rewrite (take_ge (drop k' d)) by len.
    rewrite copy_to_0 by lia. obind. eexists. split; [done|].
    constructor; cbn [xv xmemory memsize total_len xseed];
      [by rewrite E1 | rewrite E2, <- Hd'; by eexists | len | rewrite E2, <- Hd'; len | done | done].
  - eexists. split; [done|]. assert (drop k' d = []) as Hnil by (by apply drop_ge; lia).
    constructor; cbn [xv xmemory memsize total_len xseed];
      [by rewrite E1 | rewrite E2, <- Hd', Hnil; by eexists | done
      | rewrite E2, <- Hd', Hnil; done | done | done].
Qed.

Lemma xxh_updates_repr cpu seed packets st m :
  xxh_repr seed st m ->
  exists st', XXH32_updates cpu st packets = Some st' /\ xxh_repr seed st' (m ++ List.concat packets).
Proof.
  revert st m. induction packets as [|d packets IH]; intros st m Hr.
  - exists st. split; [done|]. by rewrite app_nil_r.
  - destruct (xxh_update_repr cpu seed st m d Hr) as (st1 & E1 & H1).
    destruct (IH st1 (m ++ d) H1) as (st2 & E2 & H2). exists st2. simpl. rewrite E1. simpl.
    split; [done|]. by rewrite app_assoc.
Qed.

Lemma xxh_digest_run cpu seed st m :
  xxh_repr seed st m -> Z.of_nat (length m) < 2 ^ 64 -> XXH32_digest cpu st = Some (xxh_ref seed m).
Proof.
  intros [Hv [j Hj] Hl Hs Ht Hsd] Hm. unfold XXH32_digest.
  assert (XXH32_intermediateDigest cpu st = XXH32_intermediateDigest_endian st cpu) as -> by by destruct cpu.
  unfold XXH32_intermediateDigest_endian, xxh_ref. cbv zeta.
  rewrite Hs, Ht, Hv, Hsd, (u64_small (Z.of_nat (length m))) by (split; lia).
  pose proof (rest_lt 16 ltac:(lia) m). change 0 with (Z.of_nat 0).
  rewrite (xxh_finish_run (xmemory st) (length (rest 16 m))) by lia.
  by rewrite drop_0, Hj, take_app_length.
Qed.

(** XXH32 over packets is XXH32 of their concatenation, on a machine of
    either byte order.  XXH32_init, XXH32_update on each packet and XXH32_digest
    never leave the state's memory or the packets, and return what the one-shot
    XXH32 of a little endian machine returns on the whole message. *)
Theorem xxh32_stream cpu mem seed packets :
  length mem = 16%nat -> Z.of_nat (length (List.concat packets)) < 2 ^ 31 ->
  exists st h, XXH32_updates cpu (XXH32_init mem seed) packets = Some st /\
    XXH32_digest cpu st = Some h /\ XXH32 XXH_littleEndian (List.concat packets) seed = Some h.
Proof.
  intros Hm Hl. destruct (xxh_updates_repr cpu seed packets _ [] (xxh_init_repr mem seed Hm)) as (st & E & Hr).
  exists st, (xxh_ref seed (List.concat packets)). split; [done|]. split.
  - apply (xxh_digest_run cpu seed st (List.concat packets) Hr). lia.
  - apply XXH32_run.
Qed.

Lemma xxh32_stream_witness :
  exists st h, XXH32_updates XXH_bigEndian (XXH32_init (replicate 16 Byte.xff) 1)
      [replicate 9 Byte.x61; replicate 30 Byte.x62] = Some st /\
    XXH32_digest XXH_bigEndian st = Some h /\
    XXH32 XXH_littleEndian (replicate 9 Byte.x61 ++ replicate 30 Byte.x62) 1 = Some h.
Proof.
  apply (xxh32_stream XXH_bigEndian (replicate 16 Byte.xff) 1 [replicate 9 Byte.x61; replicate 30 Byte.x62]);
    reflexivity.
Defined.
