(* ===== verification/Bloom.v ===== *)
(** The bloom filter of src/fio/lib/bloom.c and the hash functions it uses:
    [jhash] of src/fio/hash.h, XXH32, murmurhash3 (src/fio/crc/murmur3.c), the
    software crc32c and fnv (src/fio/crc/fnv.c).  The machine is little endian
    and has no crc32c instruction. *)
From S2P Require Import Prelude Blocks Crc XxHash.

(** [k[i]] of a key. *)
Definition key_at (k : bytes) (i : Z) : option Z := b ← copy_from k i 1; Some (le_combine b).

(** * hash.h: jhash *)

Definition sub32 (a b : Z) : Z := u32 (a - b).

Definition jhash_mix (s : Z * Z * Z) : Z * Z * Z :=
  let '(a, b, c) := s in
  let a := sub32 a c in let a := Z.lxor a (rotl32 c 4) in let c := add32 c b in
  let b := sub32 b a in let b := Z.lxor b (rotl32 a 6) in let a := add32 a c in
  let c := sub32 c b in let c := Z.lxor c (rotl32 b 8) in let b := add32 b a in
  let a := sub32 a c in let a := Z.lxor a (rotl32 c 16) in let c := add32 c b in
  let b := sub32 b a in let b := Z.lxor b (rotl32 a 19) in let a := add32 a c in
  let c := sub32 c b in let c := Z.lxor c (rotl32 b 4) in let b := add32 b a in
  (a, b, c).

Definition jhash_final (s : Z * Z * Z) : Z * Z * Z :=
  let '(a, b, c) := s in
  let c := Z.lxor c b in let c := sub32 c (rotl32 b 14) in
  let a := Z.lxor a c in let a := sub32 a (rotl32 c 11) in
  let b := Z.lxor b a in let b := sub32 b (rotl32 a 25) in
  let c := Z.lxor c b in let c := sub32 c (rotl32 b 16) in
  let a := Z.lxor a c in let a := sub32 a (rotl32 c 4) in
  let b := Z.lxor b a in let b := sub32 b (rotl32 a 14) in
  let c := Z.lxor c b in let c := sub32 c (rotl32 b 24) in
  (a, b, c).

(** [while (length > 12)]: the words, the position and what is left. *)
Fixpoint jhash_loop (fuel : nat) (s : Z * Z * Z) (k : bytes) (p len : Z) :
    option (Z * Z * Z * Z * Z) :=
  match fuel with
  | O => None
  | S fuel' =>
      if 12 <? len then
        x ← key_at k p; y ← key_at k (p + 4); z ← key_at k (p + 8);
        let '(a, b, c) := s in
        jhash_loop fuel' (jhash_mix (add32 a x, add32 b y, add32 c z)) k (p + 12) (len - 12)
      else Some (s, p, len)
  end.

(** The [switch]: the cases from the length down to 1, each adding one byte. *)
Fixpoint jhash_cases (i : nat) (s : Z * Z * Z) (k : bytes) (p : Z) : option (Z * Z * Z) :=
  match i with
  | O => Some s
  | S i' =>
      x ← key_at k (p + Z.of_nat i');
      let '(a, b, c) := s in
      let x := u32 (Z.shiftl x (8 * (Z.of_nat i' mod 4))) in
      jhash_cases i'
        (if (8 <=? i')%nat then (a, b, add32 c x)
         else if (4 <=? i')%nat then (a, add32 b x, c) else (add32 a x, b, c)) k p
  end.

Definition jhash (key : bytes) (initval : Z) : option Z :=
  let len := u32 (Z.of_nat (length key)) in
  let a := add32 (add32 0x61C88647 len) initval in
  '(s, p, rem) ← jhash_loop (S (length key)) (a, a, a) key 0 len;
  s ← jhash_cases (Z.to_nat rem) s key p;
  let '(_, _, c) := (if rem =? 0 then s else jhash_final s) in
  Some c.

(** * murmur3.c *)

Definition fmix32 (h : Z) : Z :=
  let h := Z.lxor h (Z.shiftr h 16) in
  let h := mul32 h 0x85ebca6b in
  let h := Z.lxor h (Z.shiftr h 13) in
  let h := mul32 h 0xc2b2ae35 in
  Z.lxor h (Z.shiftr h 16).

Definition murmur3_tail (data : bytes) (nblocks len c1 c2 h1 : Z) : option Z :=
  let tail := fun i => key_at data (nblocks * 4 + i) in
  let n := Z.land len 3 in
  k1 ← (if n =? 3 then x ← tail 2; Some (u32 (Z.shiftl x 16)) else Some 0);
  k1 ← (if 2 <=? n then x ← tail 1; Some (Z.lxor k1 (u32 (Z.shiftl x 8))) else Some k1);
  h1 ← (if 1 <=? n then
          x ← tail 0;
          let k1 := Z.lxor k1 x in
          let k1 := mul32 k1 c1 in
          let k1 := rotl32 k1 15 in
          let k1 := mul32 k1 c2 in
          Some (Z.lxor h1 k1)
        else Some h1);
  Some (fmix32 (Z.lxor h1 len)).

(** [for (i = -nblocks; i; i++)], [blocks[i]] at [4 * (nblocks + i)]. *)
Fixpoint murmur3_blocks (n : nat) (data : bytes) (nblocks i c1 c2 h1 : Z) : option Z :=
  match n with
  | O => Some h1
  | S n' =>
      b ← copy_from data (nblocks * 4 + 4 * i) 4;
      let k1 := le_combine b in
      let k1 := mul32 k1 c1 in
      let k1 := rotl32 k1 15 in
      let k1 := mul32 k1 c2 in
      let h1 := Z.lxor h1 k1 in
      let h1 := rotl32 h1 13 in
      let h1 := add32 (mul32 h1 5) 0xe6546b64 in
      murmur3_blocks n' data nblocks (i + 1) c1 c2 h1
  end.

Definition murmurhash3 (key : bytes) (seed : Z) : option Z :=
  let len := u32 (Z.of_nat (length key)) in
  let nblocks := len / 4 in
  let c1 := 0xcc9e2d51 in
  let c2 := 0x1b873593 in
  h1 ← murmur3_blocks (Z.to_nat nblocks) key nblocks (- nblocks) c1 c2 seed;
  murmur3_tail key nblocks len c1 c2 h1.

(** * fnv.c *)

Definition FNV_PRIME : Z := 0x100000001b3.

(** [val <<= 8; val |= *ptr8++] over the last bytes. *)
Definition fnv_val (l : bytes) : Z :=
  foldl (fun val b => Z.lor (u64 (Z.shiftl val 8)) (byte.unsigned b)) 0 l.

Fixpoint fnv_loop (fuel : nat) (buf : bytes) (ptr len hval : Z) : option Z :=
  match fuel with
  | O => None
  | S fuel' =>
      if len =? 0 then Some hval else
      let hval := u64 (hval * FNV_PRIME) in
      if 8 <=? len then
        b ← copy_from buf ptr 8;
        fnv_loop fuel' buf (ptr + 8) (len - 8) (Z.lxor hval (le_combine b))
      else
        b ← copy_from buf ptr len;
        Some (Z.lxor hval (fnv_val b))
  end.

Definition fnv (buf : bytes) (hval : Z) : option Z :=
  fnv_loop (S (length buf)) buf 0 (u32 (Z.of_nat (length buf))) hval.

(** * bloom.c *)

Record bloom : Type := mkBloom { nentries : Z; map : list Z }.

Definition BITS_PER_INDEX : Z := 32.
Definition BITS_INDEX_MASK : Z := BITS_PER_INDEX - 1.
Definition BLOOM_SEED : Z := 0x8989.

Definition bloom_crc32c (buf : bytes) (seed : Z) : option Z := crc32c_sw buf.
Definition bloom_fnv (buf : bytes) (seed : Z) : option Z := h ← fnv buf seed; Some (u32 h).

Definition hashes : list (bytes -> Z -> option Z) :=
  [jhash; XXH32 XXH_littleEndian; murmurhash3; bloom_crc32c; bloom_fnv].

(** [calloc] succeeding. *)
Definition bloom_new (entries : Z) : bloom :=
  mkBloom entries (replicate (Z.to_nat (u64 (entries + BITS_PER_INDEX - 1) / BITS_PER_INDEX)) 0).

(** The first loop: the hashes modulo [nentries]. *)
Fixpoint bloom_hashes (fns : list (bytes -> Z -> option Z)) (n : Z) (data : bytes) : option (list Z) :=
  match fns with
  | [] => Some []
  | fn :: fns' =>
      h ← fn data BLOOM_SEED;
      if n =? 0 then None else
      l ← bloom_hashes fns' n data;
      Some (h mod n :: l)
  end.

(** The second loop: the map and [was_set]. *)
Fixpoint bloom_bits (m : list Z) (hash : list Z) (set : bool) (was_set : Z) : option (list Z * Z) :=
  match hash with
  | [] => Some (m, was_set)
  | h :: hash' =>
      let index := Z.to_nat (h / BITS_PER_INDEX) in
      let bit := Z.land h BITS_INDEX_MASK in
      w ← m !! index;
      if negb (Z.land w (Z.shiftl 1 bit) =? 0) then bloom_bits m hash' set (was_set + 1)
      else if set then bloom_bits (<[index := Z.lor w (Z.shiftl 1 bit)]> m) hash' set was_set
      else Some (m, was_set)
  end.

Definition bloom_check (b : bloom) (data : bytes) (set : bool) : option (bool * bloom) :=
  hash ← bloom_hashes hashes (nentries b) data;
  '(m, was_set) ← bloom_bits (map b) hash set 0;
  Some (was_set =? 5, mkBloom (nentries b) m).

(** [bloom_set] passes the bytes of the words. *)
Definition bloom_set (b : bloom) (data : bytes) : option (bool * bloom) := bloom_check b data true.
Definition bloom_string (b : bloom) (data : bytes) (set : bool) : option (bool * bloom) :=
  bloom_check b data set.

(** MurmurHash3 x86 32 of abc with seed 0. *)
Example murmur3_abc : murmurhash3 [Byte.x61; Byte.x62; Byte.x63] 0 = Some 0xB3DD93FA.
Proof. vm_compute. reflexivity. Qed.

(** * The hash functions are total *)

Lemma key_at_ok (k : bytes) (p : Z) :
  0 <= p < Z.of_nat (length k) -> exists x, key_at k p = Some x.
Proof.
  intros H. unfold key_at. rewrite (copy_from_eq k _ _ (Z.to_nat p) 1) by lia. by eexists.
Qed.

Lemma jhash_loop_ok key fuel s p len :
  0 <= p -> p + len = Z.of_nat (length key) -> 0 <= len < Z.of_nat fuel ->
  exists s' p' len', jhash_loop fuel s key p len = Some (s', p', len') /\
    0 <= p' /\ p' + len' = Z.of_nat (length key) /\ 0 <= len' <= 12.
Proof.
  revert s p len. induction fuel as [|fuel IH]; intros s p len Hp Hl Hf; [lia|]. cbn [jhash_loop].
  destruct (Z.ltb_spec 12 len) as [Hlt|Hge].
  - destruct (key_at_ok key p) as [x ->]; [lia|]. destruct (key_at_ok key (p + 4)) as [y ->]; [lia|].
    destruct (key_at_ok key (p + 8)) as [z ->]; [lia|]. obind. destruct s as [[a b] c].
    apply IH; lia.
  - exists s, p, len. split_and!; done || lia.
Qed.

Lemma jhash_cases_ok key i s p :
  0 <= p -> p + Z.of_nat i <= Z.of_nat (length key) -> exists s', jhash_cases i s key p = Some s'.
Proof.
  revert s. induction i as [|i IH]; intros s Hp Hl; [by eexists|]. cbn [jhash_cases].
  destruct (key_at_ok key (p + Z.of_nat i)) as [x ->]; [lia|]. obind. destruct s as [[a b] c].
  apply IH; lia.
Qed.

Lemma jhash_total key initval :
  Z.of_nat (length key) < 2 ^ 32 -> exists h, jhash key initval = Some h.
Proof.
  intros Hk. unfold jhash. cbv zeta. rewrite u32_small by (split; lia).
  match goal with |- context [jhash_loop _ ?s _ _ _] => set (s0 := s) end.
  destruct (jhash_loop_ok key (S (length key)) s0 0 (Z.of_nat (length key)))
    as (s' & p' & l' & -> & Hp' & Hl' & Hr); [lia..|]. obind.
  destruct (jhash_cases_ok key (Z.to_nat l') s' p') as [s'' ->]; [lia..|]. obind.
  destruct (if l' =? 0 then s'' else jhash_final s'') as [[a b] c]. by eexists.
Qed.

Lemma murmur3_blocks_ok data n nblocks i c1 c2 h1 :
  i + Z.of_nat n = 0 -> 0 <= nblocks + i -> nblocks * 4 <= Z.of_nat (length data) ->
  exists h, murmur3_blocks n data nblocks i c1 c2 h1 = Some h.
Proof.
  revert i h1. induction n as [|n IH]; intros i h1 Hi Hn Hl; [by eexists|]. cbn [murmur3_blocks].
  rewrite (copy_from_eq data _ _ (Z.to_nat (nblocks * 4 + 4 * i)) 4) by lia. obind. apply IH; lia.
Qed.

Lemma murmurhash3_total key seed :
  Z.of_nat (length key) < 2 ^ 32 -> exists h, murmurhash3 key seed = Some h.
Proof.
  intros Hk. unfold murmurhash3. cbv zeta. rewrite u32_small by (split; lia).
  pose proof (Z.div_mod (Z.of_nat (length key)) 4 ltac:(lia)) as Hdm.
  pose proof (Z.mod_pos_bound (Z.of_nat (length key)) 4 ltac:(lia)) as Hmod.
  pose proof (Z.div_pos (Z.of_nat (length key)) 4).
  destruct (murmur3_blocks_ok key (Z.to_nat (Z.of_nat (length key) / 4)) (Z.of_nat (length key) / 4)
    (- (Z.of_nat (length key) / 4)) 0xcc9e2d51 0x1b873593 seed) as [h ->]; [lia..|]. obind.
  unfold murmur3_tail. cbv zeta.
  assert (Z.land (Z.of_nat (length key)) 3 = Z.of_nat (length key) mod 4) as ->
    by (change 3 with (Z.ones 2); by rewrite Z.land_ones).
  set (r := Z.of_nat (length key) mod 4) in *. set (q := Z.of_nat (length key) / 4) in *.
  assert (forall i, 0 <= i < r -> exists x, key_at key (q * 4 + i) = Some x) as Hat
    by (intros i Hi; apply key_at_ok; lia).
  destruct (Z.eqb_spec r 3); [destruct (Hat 2) as [? ->]; [lia|]|]; obind;
    (destruct (Z.leb_spec 2 r); [destruct (Hat 1) as [? ->]; [lia|]|]); obind;
    (destruct (Z.leb_spec 1 r); [destruct (Hat 0) as [? ->]; [lia|]|]); obind; by eexists.
Qed.

Lemma fnv_loop_ok buf fuel ptr len h :
  0 <= ptr -> ptr + len = Z.of_nat (length buf) -> 0 <= len < Z.of_nat fuel ->
  exists h', fnv_loop fuel buf ptr len h = Some h'.
Proof.
  revert ptr len h. induction fuel as [|fuel IH]; intros ptr len h Hp Hl Hf; [lia|]. cbn [fnv_loop].
  cbv zeta. destruct (Z.eqb_spec len 0); [by eexists|].
  destruct (Z.leb_spec 8 len).
  - rewrite (copy_from_eq buf _ _ (Z.to_nat ptr) 8) by lia. obind. apply IH; lia.
  - rewrite (copy_from_eq buf _ _ (Z.to_nat ptr) (Z.to_nat len)) by lia. obind. by eexists.
Qed.

Lemma fnv_total buf h : Z.of_nat (length buf) < 2 ^ 32 -> exists h', fnv buf h = Some h'.
Proof. intros H. unfold fnv. rewrite u32_small by (split; lia). apply fnv_loop_ok; lia. Qed.

Lemma bloom_hashes_total n data :
  0 < n -> Z.of_nat (length data) < 2 ^ 31 ->
  exists l, bloom_hashes hashes n data = Some l /\ length l = 5%nat /\ Forall (fun h => 0 <= h < n) l.
Proof.
  intros Hn Hd. cbn [bloom_hashes hashes].
  destruct (jhash_total data BLOOM_SEED) as [h1 ->]; [lia|]. rewrite XXH32_run.
  destruct (murmurhash3_total data BLOOM_SEED) as [h3 ->]; [lia|].
  unfold bloom_crc32c, bloom_fnv. destruct (crc_tables_run data) as (_ & _ & _ & -> & _).
  destruct (fnv_total data BLOOM_SEED) as [h5 ->]; [lia|].
  obind. rewrite (proj2 (Z.eqb_neq n 0)) by lia. obind. eexists. split; [done|]. split; [done|].
  repeat constructor; apply Z.mod_pos_bound; lia.
Qed.

(** * The bits of the filter *)

Definition bit_of (m : list Z) (h : Z) : bool :=
  Z.testbit (nth (Z.to_nat (h / 32)) m 0) (h mod 32).

Lemma mask_test w h : (Z.land w (Z.shiftl 1 (Z.land h BITS_INDEX_MASK)) =? 0) = negb (Z.testbit w (h mod 32)).
Proof.
  change BITS_INDEX_MASK with (Z.ones 5). rewrite Z.land_ones by lia. change (2 ^ 5) with 32.
  pose proof (Z.mod_pos_bound h 32 ltac:(lia)). set (b := h mod 32) in *.
  rewrite Z.shiftl_1_l. destruct (Z.testbit w b) eqn:E; simpl.
  - apply Z.eqb_neq. intros H0. apply (f_equal (fun z => Z.testbit z b)) in H0.
    by rewrite Z.land_spec, Z.pow2_bits_true, E, Z.bits_0 in H0 by lia.
  - apply Z.eqb_eq, Z.bits_inj'. intros i Hi. rewrite Z.land_spec, Z.bits_0.
    destruct (decide (i = b)) as [->|]; [by rewrite E|].
    by rewrite Z.pow2_bits_false, andb_false_r by done.
Qed.

(** Every index below [n] has a word. *)
Definition covers_map (n : Z) (m : list Z) : Prop := n <= 32 * Z.of_nat (length m).

Lemma map_word n m h :
  covers_map n m -> 0 <= h < n ->
  m !! Z.to_nat (h / 32) = Some (nth (Z.to_nat (h / 32)) m 0).
Proof.
  unfold covers_map. intros Hm Hh.
  destruct (lookup_lt_is_Some_2 m (Z.to_nat (h / 32))) as [w Hw].
  { assert (h / 32 < Z.of_nat (length m)) by (apply Z.div_lt_upper_bound; lia).
    pose proof (Z.div_pos h 32). lia. }
  rewrite Hw. f_equal. symmetry. by apply nth_lookup_Some.
Qed.

Lemma bit_of_set m h w h' :
  (Z.to_nat (h / 32) < length m)%nat -> nth (Z.to_nat (h / 32)) m 0 = w -> 0 <= h -> 0 <= h' ->
  bit_of (<[Z.to_nat (h / 32) := Z.lor w (Z.shiftl 1 (Z.land h BITS_INDEX_MASK))]> m) h' =
  bit_of m h' || (h =? h').
Proof.
  intros Hl Hw Hh Hh'. unfold bit_of. change BITS_INDEX_MASK with (Z.ones 5).
  rewrite Z.land_ones by lia. change (2 ^ 5) with 32.
  pose proof (Z.mod_pos_bound h 32 ltac:(lia)). pose proof (Z.mod_pos_bound h' 32 ltac:(lia)).
  pose proof (Z.div_mod h 32 ltac:(lia)). pose proof (Z.div_mod h' 32 ltac:(lia)).
  pose proof (Z.div_pos h 32). pose proof (Z.div_pos h' 32).
  rewrite !nth_lookup. destruct (decide (h / 32 = h' / 32)) as [E|E].
  - rewrite <- E, list_lookup_insert_eq by done. simpl. rewrite nth_lookup in Hw. rewrite Hw.
    rewrite Z.lor_spec, Z.shiftl_1_l. f_equal.
    destruct (Z.eqb_spec h h') as [->|]; [apply Z.pow2_bits_true; lia|].
    apply Z.pow2_bits_false. lia.
  - rewrite list_lookup_insert_ne by lia. rewrite (proj2 (Z.eqb_neq h h')) by congruence.
    by rewrite orb_false_r.
Qed.

Definition all_bits (m : list Z) (hash : list Z) : bool := forallb (bit_of m) hash.

(** A lookup changes nothing and counts the leading bits that are set. *)
Lemma bloom_bits_check n m hash k :
  covers_map n m -> Forall (fun h => 0 <= h < n) hash ->
  exists c, bloom_bits m hash false k = Some (m, k + c) /\ 0 <= c <= Z.of_nat (length hash) /\
    (c = Z.of_nat (length hash) <-> all_bits m hash = true).
Proof.
  intros Hm Hf. revert k. induction Hf as [|h hash Hh Hf IH]; intros k.
  - exists 0. simpl. rewrite Z.add_0_r. done.
  - cbn [bloom_bits]. change BITS_PER_INDEX with 32. rewrite (map_word n) by done. obind.
    rewrite mask_test, negb_involutive. fold (bit_of m h). simpl all_bits. simpl length.
    destruct (bit_of m h) eqn:E; simpl.
    + destruct (IH (k + 1)) as (c & -> & Hc & Hall). exists (c + 1). split; [do 2 f_equal; lia|].
      split; [lia|]. rewrite <- Hall. lia.
    + exists 0. rewrite Z.add_0_r. split; [done|]. split; [lia|]. split; [lia | done].
Qed.

(** An insertion sets the bits, keeps the others, and counts those that were set
    when it came to them. *)
Lemma bloom_bits_set n m hash k :
  covers_map n m -> Forall (fun h => 0 <= h < n) hash ->
  exists m' c, bloom_bits m hash true k = Some (m', k + c) /\ length m' = length m /\
    (forall h, 0 <= h -> bit_of m' h = bit_of m h || bool_decide (h ∈ hash)) /\
    0 <= c <= Z.of_nat (length hash) /\ (c = Z.of_nat (length hash) <-> all_bits m hash = true).
Proof.
  intros Hm Hf. revert m k Hm. induction Hf as [|h hash Hh Hf IH]; intros m k Hm.
  - exists m, 0. rewrite Z.add_0_r. split_and!; try done.
    intros h _. rewrite bool_decide_false by apply not_elem_of_nil. by rewrite orb_false_r.
  - cbn [bloom_bits]. change BITS_PER_INDEX with 32. rewrite (map_word n) by done. obind.
    rewrite mask_test, negb_involutive. fold (bit_of m h). simpl all_bits. simpl length.
    destruct (bit_of m h) eqn:E; simpl.
    + destruct (IH m (k + 1) Hm) as (m' & c & -> & Hl & Hb & Hc & Hall).
      exists m', (c + 1). split; [do 2 f_equal; lia|]. split; [done|]. split; [|split; [lia|rewrite <- Hall; lia]].
      intros h' Hh'. rewrite (Hb h' Hh').
      destruct (decide (h' = h)) as [->|Hne]; [by rewrite E|].
      f_equal. apply bool_decide_ext. rewrite elem_of_cons. naive_solver.
    + set (w := nth (Z.to_nat (h / 32)) m 0).
      set (m1 := <[Z.to_nat (h / 32) := Z.lor w (Z.shiftl 1 (Z.land h BITS_INDEX_MASK))]> m).
      assert (length m1 = length m) as Hl1 by apply length_insert.
      destruct (IH m1 k) as (m' & c & -> & Hl & Hb & Hc & Hall); [by unfold covers_map; rewrite Hl1|].
      exists m', c. split; [done|]. split; [congruence|]. split; [|split; [lia|split; [lia|done]]].
      intros h' Hh'. rewrite (Hb h' Hh'). unfold m1. rewrite bit_of_set; [ | | done | lia | done].
      * rewrite <- orb_assoc. f_equal. destruct (Z.eqb_spec h h') as [->|Hne]; simpl.
        { symmetry. apply bool_decide_true. by left. }
        apply bool_decide_ext. rewrite elem_of_cons. naive_solver.
      * apply lookup_lt_is_Some_1. by rewrite (map_word n) by done.
Qed.

(** * The filter *)

Fixpoint bloom_inserts (b : bloom) (keys : list bytes) : option bloom :=
  match keys with
  | [] => Some b
  | d :: keys' => '(_, b) ← bloom_set b d; bloom_inserts b keys'
  end.

(** The filter of [n] entries holds the bits of the keys in [ds]. *)
Record bloom_inv (n : Z) (b : bloom) (ds : list bytes) : Prop := {
  bi_n : nentries b = n;
  bi_map : covers_map n (map b);
  bi_bits : forall d hash, d ∈ ds -> bloom_hashes hashes n d = Some hash -> all_bits (map b) hash = true
}.

Abbreviation short_key d := (Z.of_nat (length d) < 2 ^ 31).

Lemma bloom_new_inv n : 0 < n < 2 ^ 64 - 31 -> bloom_inv n (bloom_new n) [].
Proof.
  intros Hn. constructor; [done | | by intros ? ? ?%not_elem_of_nil].
  unfold covers_map, bloom_new, map. rewrite length_replicate.
  change BITS_PER_INDEX with 32. rewrite u64_small by (split; lia).
  pose proof (Z.div_mod (n + 32 - 1) 32 ltac:(lia)). pose proof (Z.mod_pos_bound (n + 32 - 1) 32 ltac:(lia)).
  lia.
Qed.

Lemma all_bits_mono m m' hash :
  (forall h, 0 <= h -> bit_of m h = true -> bit_of m' h = true) -> Forall (fun h => 0 <= h) hash ->
  all_bits m hash = true -> all_bits m' hash = true.
Proof.
  intros Hb Hf. induction Hf as [|h hash Hh Hf IH]; [done|]. simpl. rewrite !andb_true_iff.
  intros [H1 H2]. auto.
Qed.

Lemma bloom_hashes_nonneg fns n d hash :
  0 < n -> bloom_hashes fns n d = Some hash -> Forall (fun h => 0 <= h) hash.
Proof.
  intros Hn. revert hash. induction fns as [|fn fns IH]; intros hash; simpl; [by intros [= <-]|].
  destruct (fn d BLOOM_SEED); [|done]. simpl. destruct (n =? 0); [done|].
  destruct (bloom_hashes fns n d) as [l|]; [|done]. intros [= <-]. constructor; [|auto].
  apply Z.mod_pos_bound. lia.
Qed.

Lemma bloom_check_run n b ds d :
  0 < n -> bloom_inv n b ds -> short_key d ->
  exists r b', bloom_check b d false = Some (r, b) /\ bloom_check b d true = Some (r, b') /\
    bloom_inv n b' (d :: ds) /\ (d ∈ ds -> r = true).
Proof.
  intros Hn [Hbn Hbm Hbb] Hd. destruct (bloom_hashes_total n d Hn Hd) as (hash & Hh & Hl & Hf).
  destruct (bloom_bits_check n (map b) hash 0 Hbm Hf) as (c & Hc & Hc5 & Hall).
  destruct (bloom_bits_set n (map b) hash 0 Hbm Hf) as (m' & c' & Hc' & Hl' & Hbit & Hc5' & Hall').
  unfold bloom_check. rewrite Hbn, Hh. obind. rewrite Hc, Hc'. obind. rewrite !Z.add_0_l.
  assert ((c =? 5) = (c' =? 5)) as Hcc.
  { rewrite Hl in *. change (Z.of_nat 5) with 5 in *. apply eq_true_iff_eq.
    rewrite !Z.eqb_eq, Hall, Hall'. done. }
  exists (c =? 5), (mkBloom n m'). rewrite <- Hcc. split_and!; [by destruct b; simpl in *; subst | done | |].
  - constructor; [done | unfold covers_map, map in *; by rewrite Hl' |]. cbn [map].
    intros d' hash' [->|Hin]%elem_of_cons Hh'.
    + assert (hash' = hash) as -> by congruence. apply forallb_forall. intros h Hin.
      apply list_elem_of_In in Hin. rewrite Hbit, (bool_decide_true (h ∈ hash)) by
        (done || by apply (proj1 (Forall_forall _ _) Hf h Hin)). by rewrite orb_true_r.
    + apply (all_bits_mono (map b)); [ | | by apply (Hbb d')].
      * intros h Hh0 Hb. by rewrite Hbit, Hb.
      * by apply (bloom_hashes_nonneg hashes n d').
  - intros Hin. apply Z.eqb_eq. rewrite Hl in Hall. change (Z.of_nat 5) with 5 in Hall.
    apply Hall. by apply (Hbb d).
Qed.

Lemma bloom_inserts_run n b ds keys :
  0 < n -> bloom_inv n b ds -> Forall (fun d : bytes => short_key d) keys ->
  exists b', bloom_inserts b keys = Some b' /\ bloom_inv n b' (reverse keys ++ ds).
Proof.
  intros Hn Hb Hf. revert b ds Hb. induction Hf as [|d keys Hd Hf IH]; intros b ds Hb; [by exists b|].
  destruct (bloom_check_run n b ds d Hn Hb Hd) as (r & b' & _ & E & Hb' & _).
  simpl. unfold bloom_set. rewrite E. simpl. rewrite reverse_cons, <- app_assoc. by apply IH.
Qed.

(** The bloom filter has no false negatives and its insertion answers what a
    lookup answered before it.  After any sequence of insertions into a new
    filter of [n] entries, every operation stays inside the map, a lookup of an
    inserted key is true and changes nothing, and bloom_set returns what
    bloom_string returned for the same key. *)
Theorem bloom_no_false_negatives n keys :
  0 < n < 2 ^ 64 - 31 -> Forall (fun d : bytes => Z.of_nat (length d) < 2 ^ 31) keys ->
  exists b, bloom_inserts (bloom_new n) keys = Some b /\
    (forall d, d ∈ keys -> bloom_string b d false = Some (true, b)) /\
    (forall d : bytes, Z.of_nat (length d) < 2 ^ 31 ->
       exists r b', bloom_string b d false = Some (r, b) /\ bloom_set b d = Some (r, b')).
Proof.
  intros Hn Hk. destruct (bloom_inserts_run n _ [] keys ltac:(lia) (bloom_new_inv n Hn) Hk) as (b & Hb & Hinv).
  exists b. split; [done|]. rewrite app_nil_r in Hinv. split.
  - intros d Hd. assert (short_key d) as Hs by exact (proj1 (Forall_forall _ _) Hk d Hd).
    destruct (bloom_check_run n b _ d ltac:(lia) Hinv Hs) as (r & b' & H1 & _ & _ & Hr).
    unfold bloom_string. rewrite H1, Hr; [done|]. by apply elem_of_reverse.
  - intros d Hs. destruct (bloom_check_run n b _ d ltac:(lia) Hinv Hs) as (r & b' & H1 & H2 & _).
    by exists r, b'.
Qed.

Lemma bloom_no_false_negatives_witness :
  exists b, bloom_inserts (bloom_new 100) [[Byte.x61]; [Byte.x62; Byte.x63]] = Some b /\
    (forall d, d ∈ [[Byte.x61]; [Byte.x62; Byte.x63]] -> bloom_string b d false = Some (true, b)) /\
    (forall d : bytes, Z.of_nat (length d) < 2 ^ 31 ->
       exists r b', bloom_string b d false = Some (r, b) /\ bloom_set b d = Some (r, b')).
Proof.
  apply (bloom_no_false_negatives 100 [[Byte.x61]; [Byte.x62; Byte.x63]]); [lia | repeat constructor].
Defined.

(** Keys longer than 12 bytes: [jhash] looks at one byte of four in all but the
    last block, so these keys collide. *)
Example jhash_ignores_bytes :
  jhash (Byte.x01 :: Byte.x02 :: replicate 12 Byte.x00) 7 =
  jhash (Byte.x01 :: Byte.xff :: replicate 12 Byte.x00) 7.
Proof. vm_compute. reflexivity. Qed.
