(* ===== verification/Axmap.v ===== *)
(** The layered bitmap of src/fio/lib/axmap.c (fio's random map): each level has
    a bit per word of the level below, set when that word is full.  Words are
    64 bits.  [None] is an access outside a map or a failed assertion. *)
From S2P Require Import Prelude.
#[local] Arguments Nat.div : simpl never.
#[local] Arguments Nat.modulo : simpl never.
#[local] Arguments Nat.pow : simpl never.

Definition UNIT_SHIFT : Z := 6.
Definition BLOCKS_PER_UNIT : Z := 64.
Definition BLOCKS_PER_UNIT_MASK : Z := 63.

(** [-1UL] and [-1ULL]. *)
Definition FULL : Z := 2 ^ 64 - 1.

(** src/fio/lib/ffz.h. *)
Definition ffs64 (word : Z) : Z :=
  let r := 0 in
  let '(r, word) := if Z.land word 0xffffffff =? 0 then (r + 32, Z.shiftr word 32) else (r, word) in
  let '(r, word) := if Z.land word 0xffff =? 0 then (r + 16, Z.shiftr word 16) else (r, word) in
  let '(r, word) := if Z.land word 0xff =? 0 then (r + 8, Z.shiftr word 8) else (r, word) in
  let '(r, word) := if Z.land word 0xf =? 0 then (r + 4, Z.shiftr word 4) else (r, word) in
  let '(r, word) := if Z.land word 3 =? 0 then (r + 2, Z.shiftr word 2) else (r, word) in
  if Z.land word 1 =? 0 then r + 1 else r.

Definition ffz (bitmask : Z) : Z := ffs64 (u64 (Z.lnot bitmask)).

(** The table of masks: [n] low bits set, for [n] up to 64. *)
Definition bit_masks : list Z :=
  [0x0; 0x1; 0x3; 0x7; 0xf; 0x1f; 0x3f; 0x7f; 0xff; 0x1ff; 0x3ff; 0x7ff; 0xfff; 0x1fff; 0x3fff;
   0x7fff; 0xffff; 0x1ffff; 0x3ffff; 0x7ffff; 0xfffff; 0x1fffff; 0x3fffff; 0x7fffff; 0xffffff;
   0x1ffffff; 0x3ffffff; 0x7ffffff; 0xfffffff; 0x1fffffff; 0x3fffffff; 0x7fffffff; 0xffffffff;
   0x1ffffffff; 0x3ffffffff; 0x7ffffffff; 0xfffffffff; 0x1fffffffff; 0x3fffffffff;
   0x7fffffffff; 0xffffffffff; 0x1ffffffffff; 0x3ffffffffff; 0x7ffffffffff; 0xfffffffffff;
   0x1fffffffffff; 0x3fffffffffff; 0x7fffffffffff; 0xffffffffffff; 0x1ffffffffffff;
   0x3ffffffffffff; 0x7ffffffffffff; 0xfffffffffffff; 0x1fffffffffffff; 0x3fffffffffffff;
   0x7fffffffffffff; 0xffffffffffffff; 0x1ffffffffffffff; 0x3ffffffffffffff; 0x7ffffffffffffff;
   0xfffffffffffffff; 0x1fffffffffffffff; 0x3fffffffffffffff; 0x7fffffffffffffff;
   0xffffffffffffffff].

Record axmap_level : Type := mkLevel { al_level : Z; al_map : list Z }.
Definition map_size (al : axmap_level) : Z := Z.of_nat (length (al_map al)).

Record axmap : Type := mkAxmap {
  levels : list axmap_level;
  first_free : Z;
  nr_bits : Z
}.
Definition nr_levels (m : axmap) : nat := length (levels m).

Definition firstfree_valid (m : axmap) : bool := negb (first_free m =? FULL).

(** [while (log-- && val) val >>= UNIT_SHIFT]. *)
Fixpoint ulog64 (val : Z) (log : nat) : Z :=
  match log with
  | O => val
  | S log' => if val =? 0 then val else ulog64 (Z.shiftr val UNIT_SHIFT) log'
  end.

Definition reset_level (al : axmap_level) : axmap_level :=
  mkLevel (al_level al) (replicate (length (al_map al)) 0).

Definition axmap_reset (m : axmap) : axmap := mkAxmap (reset_level <$> levels m) 0 (nr_bits m).

(** * axmap_new *)

Definition units (n : Z) : Z := Z.shiftr (u64 (n + BLOCKS_PER_UNIT - 1)) UNIT_SHIFT.

(** The loop that counts the levels; [i] is an [unsigned int]. *)
Fixpoint count_levels (fuel : nat) (i : Z) (n : nat) : nat :=
  match fuel with
  | O => n
  | S fuel' => if 1 <? i
               then count_levels fuel' (Z.shiftr (u32 (i + BLOCKS_PER_UNIT - 1)) UNIT_SHIFT) (S n)
               else n
  end.

Definition levels_needed (n : Z) : nat := count_levels 32 (u32 (units n)) 1.

(** The maps of the levels from [i] on, for [n] bits at this level. *)
Fixpoint new_levels (i : nat) (count : nat) (n : Z) : list axmap_level :=
  match count with
  | O => []
  | S count' =>
      mkLevel (Z.of_nat i) (replicate (Z.to_nat (units n)) 0) :: new_levels (S i) count' (units n)
  end.

(** [axmap_new] where every allocation succeeds. *)
Definition axmap_new (n : Z) : axmap :=
  axmap_reset (mkAxmap (new_levels 0 (levels_needed n) n) 0 n).

(** * The handlers *)

Section Handlers.
Context {D : Type} (func : axmap_level -> Z -> Z -> D -> option (axmap_level * D * bool)).

Definition at_index (index : Z) (al : axmap_level) (d : D) : option (axmap_level * D * bool) :=
  func al (Z.shiftr index UNIT_SHIFT) (Z.land index BLOCKS_PER_UNIT_MASK) d.

Fixpoint handler_from (i : nat) (ls : list axmap_level) (bit_nr : Z) (d : D) :
    option (list axmap_level * D * bool) :=
  match ls with
  | [] => Some ([], d, false)
  | al :: ls' =>
      '(al', d', stop) ← at_index (ulog64 bit_nr i) al d;
      if (stop : bool) then Some (al' :: ls', d', true)
      else '(ls'', d'', r) ← handler_from (S i) ls' bit_nr d'; Some (al' :: ls'', d'', r)
  end.

Definition axmap_handler (m : axmap) (bit_nr : Z) (d : D) : option (axmap * D * bool) :=
  '(ls, d', r) ← handler_from 0 (levels m) bit_nr d;
  Some (mkAxmap ls (first_free m) (nr_bits m), d', r).

(** From the top level down; [k] levels are left. *)
Fixpoint topdown (k : nat) (ls : list axmap_level) (bit_nr : Z) (d : D) :
    option (list axmap_level * D * bool) :=
  match k with
  | O => Some (ls, d, false)
  | S i =>
      al ← ls !! i;
      '(al', d', stop) ← at_index (ulog64 bit_nr i) al d;
      let ls' := <[i := al']> ls in
      if (stop : bool) then Some (ls', d', true) else topdown i ls' bit_nr d'
  end.

Definition axmap_handler_topdown (m : axmap) (bit_nr : Z) (d : D) : option (axmap * D * bool) :=
  '(ls, d', r) ← topdown (nr_levels m) (levels m) bit_nr d;
  Some (mkAxmap ls (first_free m) (nr_bits m), d', r).
End Handlers.

Definition rd_word (al : axmap_level) (offset : Z) : option Z := al_map al !! Z.to_nat offset.
Definition wr_word (al : axmap_level) (offset w : Z) : axmap_level :=
  mkLevel (al_level al) (<[Z.to_nat offset := w]> (al_map al)).

(** [1UL << bit]. *)
Definition bit_of (bit : Z) : Z := u64 (Z.shiftl 1 bit).

(** * Clear *)

Definition axmap_clear_fn (al : axmap_level) (offset bit : Z) (_ : unit) :
    option (axmap_level * unit * bool) :=
  w ← rd_word al offset;
  if Z.land w (bit_of bit) =? 0 then Some (al, tt, true)
  else Some (wr_word al offset (Z.land w (u64 (Z.lnot (bit_of bit)))), tt, false).

Definition axmap_clear (m : axmap) (bit_nr : Z) : option axmap :=
  '(m', _, _) ← axmap_handler axmap_clear_fn m bit_nr tt; Some m'.

(** * Set *)

Record axmap_set_data : Type := mkSet { sd_nr_bits : Z; sd_set_bits : Z }.

(** The loop that takes the bits already set out of the mask. *)
Fixpoint clear_overlap (fuel : nat) (mask overlap n : Z) : option (Z * Z) :=
  if overlap =? 0 then Some (mask, n) else
  match fuel with
  | O => None
  | S fuel' =>
      let clear_mask := u64 (Z.lnot (bit_of (ffz (u64 (Z.lnot overlap))))) in
      clear_overlap fuel' (Z.land mask clear_mask) (Z.land overlap clear_mask) (u32 (n - 1))
  end.

Definition axmap_set_fn (al : axmap_level) (offset bit : Z) (data : axmap_set_data) :
    option (axmap_level * axmap_set_data * bool) :=
  let n := Z.min (sd_nr_bits data) (u32 (BLOCKS_PER_UNIT - bit)) in
  bm ← bit_masks !! Z.to_nat n;
  let mask := u64 (Z.shiftl bm bit) in
  w ← rd_word al offset;
  let overlap := Z.land w mask in
  if overlap =? mask then Some (al, data, true) else
  '(mask, n) ← clear_overlap 64 mask overlap n;
  if mask =? 0 then None else
  if negb (Z.land w mask =? 0) then None else
  let w' := Z.lor w mask in
  let data' := mkSet 1 (if al_level al =? 0 then n else sd_set_bits data) in
  Some (wr_word al offset w', data', negb (w' =? FULL)).

(** The loop of [__axmap_set]. *)
Fixpoint set_loop (fuel : nat) (m : axmap) (bit_nr n : Z) (data : axmap_set_data) (set_bits : Z) :
    option (axmap * Z) :=
  if n =? 0 then Some (m, set_bits) else
  match fuel with
  | O => None
  | S fuel' =>
      '(m', data', _) ← axmap_handler axmap_set_fn m bit_nr data;
      let set_bits := u32 (set_bits + sd_set_bits data') in
      if (sd_set_bits data' =? 0) || negb (sd_set_bits data' =? u32 (BLOCKS_PER_UNIT - n))
      then Some (m', set_bits)
      else let n := u32 (n - sd_set_bits data') in
           set_loop fuel' m' (u64 (bit_nr + sd_set_bits data')) n
             (mkSet n (sd_set_bits data')) set_bits
  end.

Definition drop_first_free (m : axmap) (bit_nr n : Z) : axmap :=
  if (bit_nr <=? first_free m) && (first_free m <? u64 (bit_nr + n))
  then mkAxmap (levels m) FULL (nr_bits m) else m.

(** [__axmap_set]; the result is [data->set_bits]. *)
Definition axmap_set_ (m : axmap) (bit_nr : Z) (data : axmap_set_data) : option (axmap * Z) :=
  let n := sd_nr_bits data in
  let m := drop_first_free m bit_nr n in
  if nr_bits m <? bit_nr then Some (m, sd_set_bits data) else
  let n := if nr_bits m <? u64 (bit_nr + n) then u32 (nr_bits m - bit_nr) else n in
  set_loop (S (Z.to_nat n)) m bit_nr n data 0.

Definition axmap_set (m : axmap) (bit_nr : Z) : option axmap :=
  '(m', _) ← axmap_set_ m bit_nr (mkSet 1 0); Some m'.

Fixpoint set_nr_loop (fuel : nat) (m : axmap) (bit_nr n set_bits : Z) : option (axmap * Z) :=
  match fuel with
  | O => None
  | S fuel' =>
      let max_bits := u32 (BLOCKS_PER_UNIT - Z.land bit_nr BLOCKS_PER_UNIT_MASK) in
      let this_set := if max_bits <? n then max_bits else n in
      '(m', sb) ← axmap_set_ m bit_nr (mkSet this_set 0);
      let set_bits := u32 (set_bits + sb) in
      if negb (sb =? this_set) then Some (m', set_bits) else
      let n := u32 (n - sb) in
      if n =? 0 then Some (m', set_bits) else set_nr_loop fuel' m' (u64 (bit_nr + sb)) n set_bits
  end.

Definition axmap_set_nr (m : axmap) (bit_nr n : Z) : option (axmap * Z) :=
  set_nr_loop (S (Z.to_nat n)) m bit_nr n 0.

(** * Test *)

Definition axmap_isset_fn (al : axmap_level) (offset bit : Z) (_ : unit) :
    option (axmap_level * unit * bool) :=
  w ← rd_word al offset;
  Some (al, tt, negb (Z.land w (bit_of bit) =? 0)).

Definition axmap_isset (m : axmap) (bit_nr : Z) : option bool :=
  if bit_nr <=? nr_bits m
  then '(_, _, r) ← axmap_handler_topdown axmap_isset_fn m bit_nr tt; Some r
  else Some false.

(** * Free bits *)

(** The first word that is not full, from index [j] on. *)
Fixpoint scan_words (ws : list Z) (j : Z) : option (Z * Z) :=
  match ws with
  | [] => None
  | w :: ws' => if w =? FULL then scan_words ws' (j + 1) else Some (j, w)
  end.

(** The loop over levels [k-1], ..., 0. *)
Fixpoint find_loop (k : nat) (ls : list axmap_level) (index ret : Z) : option Z :=
  match k with
  | O => Some ret
  | S i =>
      al ← ls !! i;
      if map_size al <=? index then Some FULL else
      match scan_words (drop (Z.to_nat index) (al_map al)) index with
      | None => find_loop i ls index ret
      | Some (j, w) =>
          let r := u64 (Z.shiftl j UNIT_SHIFT + ffz w) in
          find_loop i ls r r
      end
  end.

Definition axmap_find_first_free (m : axmap) (level : nat) (index : Z) : option Z :=
  ret ← find_loop (S level) (levels m) index FULL;
  Some (if ret <? nr_bits m then ret else FULL).

Definition axmap_first_free (m : axmap) : option (axmap * Z) :=
  if firstfree_valid m then Some (m, first_free m) else
  r ← axmap_find_first_free m (nr_levels m - 1) 0;
  Some (mkAxmap (levels m) r (nr_bits m), r).

Record axmap_next_free_data : Type := mkNext { nd_level : Z; nd_offset : Z; nd_bit : Z }.

Definition axmap_next_free_fn (al : axmap_level) (offset bit : Z) (data : axmap_next_free_data) :
    option (axmap_level * axmap_next_free_data * bool) :=
  bm ← bit_masks !! Z.to_nat (Z.land (u64 (nd_bit data + 1)) BLOCKS_PER_UNIT_MASK);
  let mask := u64 (Z.lnot bm) in
  w ← rd_word al offset;
  if Z.land mask (u64 (Z.lnot w)) =? 0 then Some (al, data, false) else
  if negb (w =? FULL) then Some (al, mkNext (al_level al) offset (nd_bit data), true) else
  Some (al, mkNext (nd_level data) (nd_offset data)
              (u64 (nd_bit data + BLOCKS_PER_UNIT - 1) / BLOCKS_PER_UNIT), false).

Definition axmap_next_free (m : axmap) (bit_nr : Z) : option (axmap * Z) :=
  if firstfree_valid m && (bit_nr <? first_free m) then Some (m, first_free m) else
  '(m', data, found) ← axmap_handler axmap_next_free_fn m bit_nr (mkNext (2 ^ 32 - 1) 0 bit_nr);
  if negb (found : bool) then axmap_first_free m' else
  if nd_level data =? 2 ^ 32 - 1 then None else
  ret ← axmap_find_first_free m' (Z.to_nat (nd_level data)) (nd_offset data);
  if negb (ret =? FULL) then Some (m', ret) else axmap_first_free m'.

(** * Bits of words *)

Lemma fits_high w i : fits 64 w -> 64 <= i -> Z.testbit w i = false.
Proof.
  intros [H0 H1] Hi. destruct (decide (w = 0)) as [->|Hne]; [apply Z.testbit_0_l|].
  apply Z.bits_above_log2; [done|]. apply Z.log2_lt_pow2 in H1; lia.
Qed.

(** Equality of words, bit by bit. *)
Lemma word_ext a b :
  fits 64 a -> fits 64 b -> (forall i, 0 <= i < 64 -> Z.testbit a i = Z.testbit b i) -> a = b.
Proof.
  intros Ha Hb H. apply Z.bits_inj'. intros i Hi. destruct (decide (i < 64)) as [Hlt|Hge].
  - apply H. lia.
  - rewrite !fits_high by (done || lia). done.
Qed.

Lemma FULL_bits i : 0 <= i < 64 -> Z.testbit FULL i = true.
Proof. intros Hi. change FULL with (Z.ones 64). apply Z.ones_spec_low. lia. Qed.

Lemma FULL_fits : fits 64 FULL.
Proof. split; [discriminate | reflexivity]. Qed.

Lemma bit_of_pow bit : 0 <= bit < 64 -> bit_of bit = 2 ^ bit.
Proof.
  intros H. unfold bit_of. rewrite Z.shiftl_1_l. apply u64_small. split.
  - apply Z.pow_nonneg. lia.
  - apply Z.pow_lt_mono_r; lia.
Qed.

Lemma bit_of_spec bit i : 0 <= bit < 64 -> 0 <= i -> Z.testbit (bit_of bit) i = (bit =? i).
Proof. intros H Hi. rewrite bit_of_pow by done. apply Z.pow2_bits_eqb. lia. Qed.

Lemma land_bit_zero w bit : 0 <= bit < 64 -> (Z.land w (bit_of bit) =? 0) = negb (Z.testbit w bit).
Proof.
  intros H. destruct (Z.testbit w bit) eqn:E; simpl.
  - apply Z.eqb_neq. intros Hz. assert (Z.testbit (Z.land w (bit_of bit)) bit = false) as Hf.
    { rewrite Hz. apply Z.testbit_0_l. }
    rewrite Z.land_spec, bit_of_spec, E, Z.eqb_refl in Hf by lia. done.
  - apply Z.eqb_eq. apply Z.bits_inj'. intros i Hi. rewrite Z.land_spec, bit_of_spec, Z.testbit_0_l by lia.
    destruct (Z.eqb_spec bit i) as [->|]; [by rewrite E | apply andb_false_r].
Qed.

Lemma u64_lnot_spec w i : 0 <= i < 64 -> Z.testbit (u64 (Z.lnot w)) i = negb (Z.testbit w i).
Proof. intros H. unfold u64. rewrite Z.mod_pow2_bits_low by lia. by rewrite Z.lnot_spec by lia. Qed.

Lemma land_fits a b : fits 64 a -> fits 64 (Z.land a b).
Proof.
  intros Ha. split.
  - apply Z.land_nonneg. left. apply Ha.
  - destruct (decide (Z.land a b = 0)) as [->|Hne]; [done|].
    apply Z.log2_lt_cancel. rewrite Z.log2_pow2 by lia.
    assert (0 <= Z.land a b) by (apply Z.land_nonneg; left; apply Ha).
    apply Z.nle_gt. intros Hge.
    pose proof (Z.bit_log2 (Z.land a b) ltac:(lia)) as Hb. rewrite Z.land_spec in Hb.
    by rewrite (fits_high a) in Hb.
Qed.

Lemma lor_fits a b : fits 64 a -> fits 64 b -> fits 64 (Z.lor a b).
Proof.
  intros Ha Hb. split; [apply Z.lor_nonneg; split; [apply Ha | apply Hb]|].
  destruct (decide (Z.lor a b = 0)) as [->|Hne]; [done|].
  assert (0 <= Z.lor a b) by (apply Z.lor_nonneg; split; [apply Ha | apply Hb]).
  apply Z.log2_lt_cancel. rewrite Z.log2_pow2 by lia.
  apply Z.nle_gt. intros Hge. pose proof (Z.bit_log2 (Z.lor a b) ltac:(lia)) as Hx.
  rewrite Z.lor_spec in Hx. by rewrite !fits_high in Hx by done.
Qed.
#[export] Hint Resolve land_fits lor_fits FULL_fits u64_fits : nvs.

Lemma bit_of_fits bit : fits 64 (bit_of bit).
Proof. apply u64_fits. Qed.
#[export] Hint Resolve bit_of_fits : nvs.

(** ** ffs64 finds the lowest set bit *)

Definition is_low (w i : Z) : Prop :=
  0 <= i /\ Z.testbit w i = true /\ forall j, 0 <= j < i -> Z.testbit w j = false.

Lemma is_low_fun w i i' : is_low w i -> is_low w i' -> i = i'.
Proof.
  intros (H0 & H1 & H2) (H0' & H1' & H2').
  destruct (Z.lt_trichotomy i i') as [H|[H|H]]; [|done|].
  - by rewrite H2' in H1 by lia.
  - by rewrite H2 in H1' by lia.
Qed.

Lemma is_low_ex w : fits 64 w -> w <> 0 -> exists i, is_low w i /\ i < 64.
Proof.
  intros Hw Hne.
  assert (forall n : nat, (forall i, 0 <= i < Z.of_nat n -> Z.testbit w i = false) \/
            exists i, is_low w i /\ i < Z.of_nat n) as H.
  { induction n as [|n [IH|(i & Hi & Hlt)]]; [left; lia | | right; exists i; split; [done | lia]].
    destruct (Z.testbit w (Z.of_nat n)) eqn:E.
    - right. exists (Z.of_nat n). split; [|lia]. split; [lia|]. split; [done|]. intros j Hj. apply IH. lia.
    - left. intros i Hi. destruct (decide (i = Z.of_nat n)) as [->|]; [done|]. apply IH. lia. }
  destruct (H 64%nat) as [Hz|He]; [|exact He]. destruct Hne.
  apply word_ext; [done | by split|]. intros i Hi. rewrite Hz by lia. by rewrite Z.testbit_0_l.
Qed.

(** One halving step of the search. *)
Lemma ffs_step w i s m (r : Z) :
  m = Z.ones s -> 0 <= s -> is_low w i -> i < 2 * s ->
  let p := if Z.land w m =? 0 then (r + s, Z.shiftr w s) else (r, w) in
  exists i', is_low p.2 i' /\ i' < s /\ p.1 + i' = r + i.
Proof.
  intros -> Hs (H0 & H1 & H2) Hi. destruct (Z.land w (Z.ones s) =? 0) eqn:E; bcases; simpl.
  - assert (s <= i) as Hge.
    { apply Z.nlt_ge. intros Hlt. assert (Z.testbit (Z.land w (Z.ones s)) i = false) as Hf.
      { rewrite E. apply Z.testbit_0_l. }
      by rewrite Z.land_spec, H1, Z.ones_spec_low in Hf by lia. }
    exists (i - s). split; [|lia]. split; [lia|]. split.
    + rewrite Z.shiftr_spec by lia. by replace (i - s + s) with i by lia.
    + intros j Hj. rewrite Z.shiftr_spec by lia. apply H2. lia.
  - exists i. split; [done|]. split; [|done]. apply Z.nle_gt. intros Hge. apply E.
    apply Z.bits_inj'. intros j Hj. rewrite Z.land_spec, Z.testbit_0_l.
    destruct (decide (j < s)).
    + rewrite H2 by lia. done.
    + rewrite Z.ones_spec_high by lia. apply andb_false_r.
Qed.

Lemma ffs64_low w : fits 64 w -> w <> 0 -> is_low w (ffs64 w) /\ 0 <= ffs64 w < 64.
Proof.
  intros Hw Hne. destruct (is_low_ex w Hw Hne) as (i & Hi & Hlt).
  assert (ffs64 w = i) as ->; [|split; [done|]; destruct Hi; lia].
  unfold ffs64.
  destruct (ffs_step w i 32 0xffffffff 0 eq_refl ltac:(lia) Hi ltac:(lia)) as (i1 & L1 & B1 & E1).
  set (p1 := if Z.land w 0xffffffff =? 0 then _ else _) in *. destruct p1 as [r1 w1]. simpl in *.
  destruct (ffs_step w1 i1 16 0xffff r1 eq_refl ltac:(lia) L1 ltac:(lia)) as (i2 & L2 & B2 & E2).
  set (p2 := if Z.land w1 0xffff =? 0 then _ else _) in *. destruct p2 as [r2 w2]. simpl in *.
  destruct (ffs_step w2 i2 8 0xff r2 eq_refl ltac:(lia) L2 ltac:(lia)) as (i3 & L3 & B3 & E3).
  set (p3 := if Z.land w2 0xff =? 0 then _ else _) in *. destruct p3 as [r3 w3]. simpl in *.
  destruct (ffs_step w3 i3 4 0xf r3 eq_refl ltac:(lia) L3 ltac:(lia)) as (i4 & L4 & B4 & E4).
  set (p4 := if Z.land w3 0xf =? 0 then _ else _) in *. destruct p4 as [r4 w4]. simpl in *.
  destruct (ffs_step w4 i4 2 3 r4 eq_refl ltac:(lia) L4 ltac:(lia)) as (i5 & L5 & B5 & E5).
  set (p5 := if Z.land w4 3 =? 0 then _ else _) in *. destruct p5 as [r5 w5]. simpl in *.
  destruct (ffs_step w5 i5 1 1 r5 eq_refl ltac:(lia) L5 ltac:(lia)) as (i6 & L6 & B6 & E6).
  assert (i6 = 0) as -> by (destruct L6; lia).
  destruct (Z.land w5 1 =? 0); simpl in *; lia.
Qed.

Lemma ffz_low w :
  fits 64 w -> w <> FULL -> 0 <= ffz w < 64 /\ Z.testbit w (ffz w) = false /\
  forall j, 0 <= j < ffz w -> Z.testbit w j = true.
Proof.
  intros Hw Hne. unfold ffz. destruct (ffs64_low (u64 (Z.lnot w))) as [(H0 & H1 & H2) H3].
  - apply u64_fits.
  - intros Hz. apply Hne. apply word_ext; [done | apply FULL_fits|]. intros i Hi.
    rewrite FULL_bits by done. assert (Z.testbit (u64 (Z.lnot w)) i = false) as Hf.
    { rewrite Hz. apply Z.testbit_0_l. }
    rewrite u64_lnot_spec in Hf by done. by apply negb_false_iff.
  - split; [done|]. rewrite u64_lnot_spec in H1 by done. split; [by apply negb_true_iff|].
    intros j Hj. specialize (H2 j Hj). rewrite u64_lnot_spec in H2 by lia. by apply negb_false_iff.
Qed.

(** ** Counting bits *)

Definition pop (w : Z) : Z := Z.of_nat (length (filter (fun i => Z.testbit w i = true) (seqZ 0 64))).

Section Filter.
Context {A : Type} (P Q : A -> Prop) `{!forall x, Decision (P x)} `{!forall x, Decision (Q x)}.

Lemma filter_same l :
  (forall y, y ∈ l -> P y <-> Q y) -> length (filter P l) = length (filter Q l).
Proof.
  induction l as [|y l IH]; intros Hag; [done|]. rewrite !filter_cons.
  pose proof (Hag y ltac:(left)) as Hy. specialize (IH ltac:(intros z Hz; apply Hag; by right)).
  destruct (decide (P y)), (decide (Q y)); try tauto; simpl; congruence.
Qed.

Lemma filter_remove x l :
  NoDup l -> x ∈ l -> P x -> ~ Q x -> (forall y, y ∈ l -> y <> x -> P y <-> Q y) ->
  length (filter P l) = S (length (filter Q l)).
Proof.
  intros Hnd Hin Hp Hq Hag. induction Hnd as [|y l Hy Hnd IH]; [by apply not_elem_of_nil in Hin|].
  rewrite !filter_cons. apply elem_of_cons in Hin as [->|Hin].
  - rewrite (decide_True (P := P y)), (decide_False (P := Q y)) by done. simpl. f_equal.
    apply filter_same. intros z Hz. apply Hag; [by right | by intros ->].
  - assert (y <> x) as Hne by by intros ->. pose proof (Hag y ltac:(left) Hne) as Hpq.
    specialize (IH Hin ltac:(intros z Hz; apply Hag; by right)).
    destruct (decide (P y)), (decide (Q y)); try tauto; simpl; congruence.
Qed.
End Filter.

Lemma pop_clear w b :
  0 <= b < 64 -> Z.testbit w b = true -> pop w = pop (Z.land w (u64 (Z.lnot (bit_of b)))) + 1.
Proof.
  intros Hb Hw. unfold pop.
  rewrite (filter_remove _ (fun i => Z.testbit (Z.land w (u64 (Z.lnot (bit_of b)))) i = true) b).
  - lia.
  - apply NoDup_seqZ.
  - apply elem_of_seqZ. lia.
  - done.
  - rewrite Z.land_spec, u64_lnot_spec, bit_of_spec, Z.eqb_refl by lia. by rewrite andb_false_r.
  - intros y Hy Hne. apply elem_of_seqZ in Hy.
    rewrite Z.land_spec, u64_lnot_spec, bit_of_spec, (proj2 (Z.eqb_neq _ _)) by lia. by rewrite andb_true_r.
Qed.

Lemma pop_bounds w : 0 <= pop w <= 64.
Proof.
  unfold pop. split; [lia|]. pose proof (length_filter (fun i => Z.testbit w i = true) (seqZ 0 64)) as H.
  rewrite length_seqZ in H. lia.
Qed.

(** ** The overlap loop *)

Lemma clear_overlap_run fuel : forall mask overlap n,
  fits 64 mask -> fits 64 overlap -> pop overlap <= Z.of_nat fuel -> pop overlap <= n < 2 ^ 32 ->
  exists mask', clear_overlap fuel mask overlap n = Some (mask', n - pop overlap) /\ fits 64 mask' /\
    forall i, 0 <= i < 64 -> Z.testbit mask' i = Z.testbit mask i && negb (Z.testbit overlap i).
Proof.
  induction fuel as [|fuel IH]; intros mask overlap n Hm Ho Hf Hn; simpl;
    destruct (Z.eqb_spec overlap 0) as [->|Hne].
  - exists mask. change (pop 0) with 0. rewrite Z.sub_0_r. split_and!; try done.
    intros i Hi. by rewrite Z.testbit_0_l, andb_true_r.
  - destruct (is_low_ex overlap Ho Hne) as (i & (Hi0 & Hi1 & _) & Hi2).
    pose proof (pop_clear overlap i ltac:(lia) Hi1). pose proof (pop_bounds (Z.land overlap (u64 (Z.lnot (bit_of i))))). lia.
  - exists mask. change (pop 0) with 0. rewrite Z.sub_0_r. split_and!; try done.
    intros i Hi. by rewrite Z.testbit_0_l, andb_true_r.
  - assert (ffz (u64 (Z.lnot overlap)) = ffs64 overlap) as ->.
    { unfold ffz. f_equal. apply word_ext; [apply u64_fits | done|]. intros i Hi.
      by rewrite !u64_lnot_spec, negb_involutive by done. }
    destruct (ffs64_low overlap Ho Hne) as [(_ & Hb & _) Hr]. set (b := ffs64 overlap) in *.
    pose proof (pop_clear overlap b Hr Hb) as Hpop.
    pose proof (pop_bounds (Z.land overlap (u64 (Z.lnot (bit_of b))))) as Hpb.
    rewrite u32_small by (unfold fits; lia).
    destruct (IH (Z.land mask (u64 (Z.lnot (bit_of b)))) (Z.land overlap (u64 (Z.lnot (bit_of b)))) (n - 1))
      as (mask' & Hrun & Hfit & Hbits); auto with nvs; try lia.
    exists mask'. split; [rewrite Hrun; do 2 f_equal; lia|]. split; [done|]. intros i Hi.
    rewrite Hbits, !Z.land_spec, !u64_lnot_spec, bit_of_spec by lia.
    destruct (Z.eqb_spec b i) as [->|].
    + rewrite Hb. simpl. by rewrite !andb_false_r.
    + simpl. by rewrite !andb_true_r.
Qed.

(** ** The masks *)

Lemma bit_masks_ones n : 0 <= n <= 64 -> bit_masks !! Z.to_nat n = Some (Z.ones n).
Proof.
  intros Hn. assert (bit_masks = Z.ones <$> seqZ 0 65) as -> by (vm_compute; reflexivity).
  rewrite list_lookup_fmap, lookup_seqZ_lt by lia. simpl. do 2 f_equal. lia.
Qed.

(** [n] bits from [bit] on. *)
Definition range_mask (bit n : Z) : Z := u64 (Z.shiftl (Z.ones n) bit).

Lemma range_mask_spec bit n i :
  0 <= bit -> 0 <= n -> 0 <= i < 64 ->
  Z.testbit (range_mask bit n) i = (bit <=? i) && (i <? bit + n).
Proof.
  intros Hb Hn Hi. unfold range_mask, u64. rewrite Z.mod_pow2_bits_low by lia.
  rewrite Z.shiftl_spec by lia. destruct (decide (i < bit)) as [Hlt|Hge].
  - rewrite Z.testbit_neg_r by lia. by rewrite (proj2 (Z.leb_gt _ _)) by lia.
  - rewrite (proj2 (Z.leb_le _ _)) by lia. simpl. destruct (decide (i < bit + n)).
    + rewrite Z.ones_spec_low by lia. by rewrite (proj2 (Z.ltb_lt _ _)) by lia.
    + rewrite Z.ones_spec_high by lia. by rewrite (proj2 (Z.ltb_ge _ _)) by lia.
Qed.

Lemma range_mask_fits bit n : fits 64 (range_mask bit n).
Proof. apply u64_fits. Qed.
#[export] Hint Resolve range_mask_fits : nvs.

Lemma pop_range x bit n :
  0 <= n -> (forall i, 0 <= i < 64 -> Z.testbit x i = true -> bit <= i < bit + n) -> pop x <= n.
Proof.
  intros Hn H. unfold pop.
  assert (filter (fun i => Z.testbit x i = true) (seqZ 0 64) ⊆+ seqZ bit n) as Hs.
  { apply NoDup_submseteq; [apply NoDup_filter, NoDup_seqZ|]. intros i Hi.
    apply list_elem_of_filter in Hi as [Hx Hi]. apply elem_of_seqZ in Hi. apply elem_of_seqZ. apply H; [lia | done]. }
  apply submseteq_length in Hs. rewrite length_seqZ in Hs. lia.
Qed.

(** * Levels as sequences of bits *)

Definition wd (ws : list Z) (k : nat) : Z := nth k ws 0.
Definition lbit (ws : list Z) (j : nat) : bool := Z.testbit (wd ws (j / 64)) (Z.of_nat (j mod 64)).

Lemma wd_lookup ws k : (k < length ws)%nat -> ws !! k = Some (wd ws k).
Proof. intros H. unfold wd. destruct (nth_lookup_or_length ws k 0); [done | lia]. Qed.

Lemma wd_fits ws k : Forall (fits 64) ws -> fits 64 (wd ws k).
Proof.
  intros H. unfold wd. rewrite nth_lookup. destruct (ws !! k) as [w|] eqn:E; simpl; [|by split].
  by eapply Forall_lookup_1.
Qed.
#[export] Hint Resolve wd_fits : nvs.

Lemma wd_insert ws k w i :
  (k < length ws)%nat -> wd (<[k := w]> ws) i = if decide (i = k) then w else wd ws i.
Proof.
  intros H. unfold wd. rewrite !nth_lookup. destruct (decide (i = k)) as [->|Hne].
  - by rewrite list_lookup_insert_eq.
  - by rewrite list_lookup_insert_ne.
Qed.

Lemma index_split (j : nat) :
  Z.shiftr (Z.of_nat j) UNIT_SHIFT = Z.of_nat (j / 64) /\
  Z.land (Z.of_nat j) BLOCKS_PER_UNIT_MASK = Z.of_nat (j mod 64).
Proof.
  unfold UNIT_SHIFT, BLOCKS_PER_UNIT_MASK. split.
  - rewrite Z.shiftr_div_pow2 by lia. by rewrite Nat2Z.inj_div.
  - change 63 with (Z.ones 6). rewrite Z.land_ones by lia. by rewrite Nat2Z.inj_mod.
Qed.

Lemma split64 (x y : nat) : (y < 64 -> (x * 64 + y) / 64 = x /\ (x * 64 + y) mod 64 = y)%nat.
Proof.
  intros H. assert ((x * 64 + y) / 64 = x)%nat as E by (rewrite Nat.div_add_l, Nat.div_small by lia; lia).
  split; [done|]. pose proof (Nat.div_mod (x * 64 + y) 64 ltac:(lia)) as Hd. rewrite E in Hd. lia.
Qed.

Lemma mod64 (j : nat) : 0 <= Z.of_nat (j mod 64) < 64.
Proof. pose proof (Nat.mod_upper_bound j 64). lia. Qed.

Section SetFn.
Context (al : axmap_level) (j : nat) (n sb : Z).

Abbreviation off := (j / 64)%nat.
Abbreviation bit := (Z.of_nat (j mod 64)).
Abbreviation w := (wd (al_map al) off).
Abbreviation mask := (range_mask bit n).

Lemma set_fn_run :
  (off < length (al_map al))%nat -> Forall (fits 64) (al_map al) -> 1 <= n <= 64 - bit ->
  at_index axmap_set_fn (Z.of_nat j) al (mkSet n sb) =
  if Z.land w mask =? mask then Some (al, mkSet n sb, true)
  else Some (wr_word al (Z.of_nat off) (Z.lor w mask),
             mkSet 1 (if al_level al =? 0 then n - pop (Z.land w mask) else sb),
             negb (Z.lor w mask =? FULL)).
Proof.
  intros Hoff Hf Hn. pose proof (mod64 j) as Hb. unfold at_index.
  rewrite (proj1 (index_split j)), (proj2 (index_split j)).
  unfold axmap_set_fn, rd_word. simpl sd_nr_bits. unfold BLOCKS_PER_UNIT.
  rewrite u32_small by (unfold fits; lia). rewrite Z.min_l by lia.
  rewrite bit_masks_ones by lia. cbn [mbind option_bind]. cbv beta zeta. fold mask.
  rewrite Nat2Z.id, wd_lookup by done. cbn [mbind option_bind]. cbv beta zeta.
  pose proof (wd_fits (al_map al) off Hf) as Hw.
  destruct (Z.eqb_spec (Z.land w mask) mask) as [E|E]; [done|].
  destruct (clear_overlap_run 64 mask (Z.land w mask) n) as (mask' & Hrun & Hm' & Hbits); auto with nvs.
  { pose proof (pop_bounds (Z.land w mask)). lia. }
  { split; [|lia]. apply (pop_range _ bit); [lia|]. intros i Hi. rewrite Z.land_spec, range_mask_spec by lia.
    intros [_ H]%andb_true_iff. bcases. lia. }
  rewrite Hrun. cbn [mbind option_bind]. cbv beta iota zeta.
  assert (forall i, 0 <= i < 64 -> Z.testbit mask' i = Z.testbit mask i && negb (Z.testbit w i)) as Hb'.
  { intros i Hi. rewrite Hbits, Z.land_spec by done. by destruct (Z.testbit mask i), (Z.testbit w i). }
  assert (Z.land w mask' = 0) as Hz.
  { apply word_ext; [auto with nvs | by split|]. intros i Hi. rewrite Z.land_spec, Hb', Z.testbit_0_l by done.
    by destruct (Z.testbit mask i), (Z.testbit w i). }
  assert (Z.lor w mask' = Z.lor w mask) as Hor.
  { apply word_ext; [auto with nvs..|]. intros i Hi. rewrite !Z.lor_spec, Hb' by done.
    by destruct (Z.testbit mask i), (Z.testbit w i). }
  destruct (Z.eqb_spec mask' 0) as [E'|E'].
  { destruct E. apply word_ext; [auto with nvs..|]. intros i Hi. rewrite Z.land_spec.
    specialize (Hb' i Hi). rewrite E', Z.testbit_0_l in Hb'. by destruct (Z.testbit mask i), (Z.testbit w i). }
  by rewrite Hz, Hor.
Qed.
End SetFn.

(** * The levels *)

(** A bit of the upper level per word of the lower one, set when it is full. *)
Record parent_ok (a b : list Z) : Prop := {
  po_len : length b = ((length a + 63) / 64)%nat;
  po_full : forall k, (k < length a)%nat -> lbit b k = (wd a k =? FULL);
  po_rest : forall k, (length a <= k)%nat -> lbit b k = false
}.

Fixpoint levels_ok (i : Z) (ls : list axmap_level) : Prop :=
  match ls with
  | [] => False
  | al :: ls' =>
      al_level al = i /\ Forall (fits 64) (al_map al) /\
      match ls' with
      | [] => (length (al_map al) <= 1)%nat
      | b :: _ => parent_ok (al_map al) (al_map b) /\ levels_ok (i + 1) ls'
      end
  end.

Definition bottom (ls : list axmap_level) : list Z :=
  match ls with al :: _ => al_map al | [] => [] end.

Lemma ulog64_zero i : ulog64 0 i = 0.
Proof. by destruct i. Qed.

Lemma ulog64_nat i : forall b : nat, ulog64 (Z.of_nat b) i = Z.of_nat (b / 64 ^ i).
Proof.
  induction i as [|i IH]; intros b; simpl ulog64.
  { change (64 ^ 0)%nat with 1%nat. by rewrite Nat.div_1_r. }
  rewrite (proj1 (index_split b)), IH, Nat.Div0.div_div.
  rewrite <- Nat.pow_succ_r'.
  destruct (Z.eqb_spec (Z.of_nat b) 0) as [E|]; [|done].
  assert (b = 0)%nat as -> by lia. rewrite Nat.Div0.div_0_l. done.
Qed.

(** The bottom-up handler on the index at its first level. *)
Fixpoint hrec {D} (func : axmap_level -> Z -> Z -> D -> option (axmap_level * D * bool))
    (ls : list axmap_level) (j : nat) (d : D) : option (list axmap_level * D * bool) :=
  match ls with
  | [] => Some ([], d, false)
  | al :: ls' =>
      '(al', d', stop) ← at_index func (Z.of_nat j) al d;
      if (stop : bool) then Some (al' :: ls', d', true)
      else '(ls'', d'', r) ← hrec func ls' (j / 64) d'; Some (al' :: ls'', d'', r)
  end.

Lemma handler_hrec {D} (func : axmap_level -> Z -> Z -> D -> option (axmap_level * D * bool)) ls :
  forall i (b : nat) d, handler_from func i ls (Z.of_nat b) d = hrec func ls (b / 64 ^ i) d.
Proof.
  induction ls as [|al ls IH]; intros i b d; [done|]. simpl. rewrite ulog64_nat.
  destruct (at_index _ _ _ _) as [[[al' d'] stop]|]; [|done]. simpl. destruct stop; [done|].
  rewrite IH. rewrite Nat.Div0.div_div. by rewrite Nat.pow_succ_r', Nat.mul_comm.
Qed.

Lemma lbit_insert ws k w j :
  (k < length ws)%nat ->
  lbit (<[k := w]> ws) j = if decide (j / 64 = k)%nat then Z.testbit w (Z.of_nat (j mod 64)) else lbit ws j.
Proof. intros H. unfold lbit. rewrite wd_insert by done. by destruct (decide _). Qed.

(** The bits of [n] positions from [j] on, all in one word, in a level. *)
Definition in_range (j : nat) (n : Z) (k : nat) : bool :=
  (Z.of_nat j <=? Z.of_nat k) && (Z.of_nat k <? Z.of_nat j + n).

Lemma same_word (j k : nat) (n : Z) :
  1 <= n <= 64 - Z.of_nat (j mod 64) -> in_range j n k = true -> (k / 64 = j / 64)%nat.
Proof.
  intros Hn H. unfold in_range in H. bcases.
  pose proof (Nat.div_mod j 64 ltac:(lia)). pose proof (Nat.div_mod k 64 ltac:(lia)).
  pose proof (Nat.mod_upper_bound j 64). pose proof (Nat.mod_upper_bound k 64). nia.
Qed.

Lemma range_bit (j k : nat) (n : Z) :
  1 <= n <= 64 - Z.of_nat (j mod 64) -> (k / 64 = j / 64)%nat ->
  Z.testbit (range_mask (Z.of_nat (j mod 64)) n) (Z.of_nat (k mod 64)) = in_range j n k.
Proof.
  intros Hn Hk. pose proof (mod64 j). pose proof (mod64 k). rewrite range_mask_spec by lia.
  unfold in_range. pose proof (Nat.div_mod j 64 ltac:(lia)). pose proof (Nat.div_mod k 64 ltac:(lia)).
  lia.
Qed.

Lemma lbit_or_range ws (j k : nat) n :
  (j / 64 < length ws)%nat -> 1 <= n <= 64 - Z.of_nat (j mod 64) ->
  lbit (<[(j / 64)%nat := Z.lor (wd ws (j / 64)) (range_mask (Z.of_nat (j mod 64)) n)]> ws) k =
  lbit ws k || in_range j n k.
Proof.
  intros Hj Hn. rewrite lbit_insert by done. destruct (decide (k / 64 = j / 64)%nat) as [E|E].
  - rewrite Z.lor_spec, range_bit by done. unfold lbit. by rewrite E.
  - destruct (in_range j n k) eqn:Er; [|by rewrite orb_false_r]. by apply same_word in Er.
Qed.

(** ** Setting bits keeps the levels *)

Definition all_set (ws : list Z) (j : nat) (n : Z) : bool :=
  Z.land (wd ws (j / 64)) (range_mask (Z.of_nat (j mod 64)) n) =? range_mask (Z.of_nat (j mod 64)) n.

(** The number of bits of the range that are set already. *)
Definition overlap_count (ws : list Z) (j : nat) (n : Z) : Z :=
  pop (Z.land (wd ws (j / 64)) (range_mask (Z.of_nat (j mod 64)) n)).

Lemma all_set_range ws j n k :
  1 <= n <= 64 - Z.of_nat (j mod 64) -> all_set ws j n = true -> in_range j n k = true -> lbit ws k = true.
Proof.
  intros Hn H Hk. unfold all_set in H. bcases. pose proof (same_word j k n Hn Hk) as E.
  assert (Z.testbit (Z.land (wd ws (j / 64)) (range_mask (Z.of_nat (j mod 64)) n)) (Z.of_nat (k mod 64)) = true) as Hb.
  { rewrite H, range_bit by done. done. }
  rewrite Z.land_spec in Hb. apply andb_true_iff in Hb as [Hb _]. unfold lbit. by rewrite E.
Qed.

(** What a level says of its parent after its word [k] has become [w']. *)
Lemma parent_not_full a b k w' :
  parent_ok a b -> (k < length a)%nat -> wd a k <> FULL -> w' <> FULL -> parent_ok (<[k := w']> a) b.
Proof.
  intros [H1 H2 H3] Hk Hw Hw'. constructor; rewrite ?length_insert; try done.
  intros i Hi. rewrite wd_insert, H2 by done. destruct (decide (i = k)) as [->|]; [|done].
  by rewrite (proj2 (Z.eqb_neq _ _)), (proj2 (Z.eqb_neq _ _)).
Qed.

Lemma parent_update a b b' k w' :
  parent_ok a b -> (k < length a)%nat -> length b' = length b ->
  (forall i, lbit b' i = if decide (i = k) then w' =? FULL else lbit b i) ->
  parent_ok (<[k := w']> a) b'.
Proof.
  intros [H1 H2 H3] Hk Hl Hb. constructor; rewrite ?length_insert.
  - congruence.
  - intros i Hi. rewrite Hb, wd_insert by done. destruct (decide (i = k)); [done | by apply H2].
  - intros i Hi. rewrite Hb, decide_False by lia. by apply H3.
Qed.

Lemma parent_length a b k : parent_ok a b -> (k < length a)%nat -> (k / 64 < length b)%nat.
Proof.
  intros [H1 _ _] Hk. rewrite H1. apply Nat.Div0.div_lt_upper_bound.
  pose proof (Nat.div_mod (length a + 63) 64 ltac:(lia)).
  pose proof (Nat.mod_upper_bound (length a + 63) 64). lia.
Qed.

Lemma levels_ok_head i al ls :
  levels_ok i (al :: ls) -> al_level al = i /\ Forall (fits 64) (al_map al).
Proof. by intros (H1 & H2 & _). Qed.

Lemma set_levels ls : forall i j n sb,
  levels_ok i ls -> 0 <= i -> (j / 64 < length (bottom ls))%nat -> 1 <= n <= 64 - Z.of_nat (j mod 64) ->
  exists ls' n' r, hrec axmap_set_fn ls j (mkSet n sb) =
    Some (ls', mkSet n' (if negb (i =? 0) || all_set (bottom ls) j n then sb
                         else n - overlap_count (bottom ls) j n), r) /\
    levels_ok i ls' /\ length ls' = length ls /\ length (bottom ls') = length (bottom ls) /\
    forall k, lbit (bottom ls') k = lbit (bottom ls) k || in_range j n k.
Proof.
  induction ls as [|al ls IH]; intros i j n sb Hok Hi Hj Hn; [done|].
  destruct (levels_ok_head _ _ _ Hok) as [Hlev Hf]. simpl in Hj. simpl bottom.
  cbn [hrec]. rewrite set_fn_run by done. fold (all_set (al_map al) j n).
  destruct (all_set (al_map al) j n) eqn:Eall.
  { eexists _, _, _. rewrite orb_true_r. split; [reflexivity|]. split_and!; try done. intros k. simpl.
    destruct (in_range j n k) eqn:Er; [|by rewrite orb_false_r].
    by rewrite (all_set_range _ _ _ _ Hn Eall Er). }
  rewrite orb_false_r. cbn [mbind option_bind]. cbv beta iota. rewrite Hlev.
  fold (overlap_count (al_map al) j n).
  set (w := wd (al_map al) (j / 64)). set (w' := Z.lor w (range_mask (Z.of_nat (j mod 64)) n)).
  set (al' := wr_word al (Z.of_nat (j / 64)) w').
  assert (al_map al' = <[(j / 64)%nat := w']> (al_map al)) as Eal by (unfold al', wr_word; simpl; by rewrite Nat2Z.id).
  assert (fits 64 w') as Hw' by (unfold w', w; auto with nvs).
  assert (Forall (fits 64) (al_map al')) as Hf' by (rewrite Eal; by apply Forall_insert).
  assert (w <> FULL) as Hnf.
  { intros E. unfold all_set in Eall. fold w in Eall. rewrite E in Eall. apply Z.eqb_neq in Eall.
    apply Eall. apply word_ext; [auto with nvs..|]. intros x Hx. rewrite Z.land_spec, FULL_bits by done.
    by destruct (Z.testbit _ _). }
  assert (forall k, lbit (al_map al') k = lbit (al_map al) k || in_range j n k) as Hbits.
  { intros k. rewrite Eal. by apply lbit_or_range. }
  assert ((if i =? 0 then n - overlap_count (al_map al) j n else sb) =
          (if negb (i =? 0) then sb else n - overlap_count (al_map al) j n)) as Esb by by destruct (i =? 0).
  rewrite Esb. destruct (Z.eqb_spec w' FULL) as [EF|EF]; simpl negb; cbv iota.
  2: { eexists _, _, _. split; [reflexivity|].
       split; [|split; [done|]; split; [cbn [bottom]; by rewrite Eal, length_insert | done]].
       destruct Hok as (_ & _ & Hok). split; [done|]. split; [done|].
       destruct ls as [|b ls]; [by rewrite Eal, length_insert|]. destruct Hok as [Hp Hok].
       split; [|done]. rewrite Eal. by apply parent_not_full. }
  destruct ls as [|b ls].
  { eexists _, _, _. split; [reflexivity|].
    split; [|split; [done|]; split; [cbn [bottom]; by rewrite Eal, length_insert | done]].
    destruct Hok as (_ & _ & Hok). split; [done|]. split; [done|]. by rewrite Eal, length_insert. }
  destruct Hok as (_ & _ & Hp & Hok).
  destruct (IH (i + 1) (j / 64)%nat 1 (if negb (i =? 0) then sb else n - overlap_count (al_map al) j n))
    as (ls' & n' & r & Hrun & Hok' & Hlen & Hbl & Hb'); try done; try lia.
  { simpl. by apply (parent_length (al_map al)). }
  { pose proof (mod64 (j / 64)). lia. }
  rewrite Hrun. eexists _, _, _. split.
  { cbn [mbind option_bind]. cbv beta iota.
    rewrite (proj2 (Z.eqb_neq (i + 1) 0)) by lia. simpl negb. rewrite orb_true_l. reflexivity. }
  split; [|split; [simpl in *; congruence|]; split; [cbn [bottom]; by rewrite Eal, length_insert | done]].
  destruct ls' as [|b' ls']; [done|]. split; [done|]. split; [done|]. split; [|done].
  rewrite Eal. simpl in Hbl, Hb'. apply (parent_update _ (al_map b)); try done.
  intros k. rewrite Hb'. destruct (decide (k = j / 64)%nat) as [->|Hne].
  - rewrite EF, Z.eqb_refl. unfold in_range. rewrite Z.leb_refl, (proj2 (Z.ltb_lt _ _)) by lia. apply orb_true_r.
  - unfold in_range. destruct (_ && _) eqn:Er; [|by rewrite orb_false_r]. bcases. lia.
Qed.

(** ** Clearing a bit keeps the levels *)

Lemma clear_word_spec w j (k : nat) :
  Z.testbit (Z.land w (u64 (Z.lnot (bit_of (Z.of_nat (j mod 64)))))) (Z.of_nat (k mod 64)) =
  Z.testbit w (Z.of_nat (k mod 64)) && negb (k mod 64 =? j mod 64)%nat.
Proof.
  rewrite Z.land_spec, u64_lnot_spec, bit_of_spec by (apply mod64 || lia || (pose proof (mod64 k); lia)).
  f_equal. f_equal. destruct (Nat.eqb_spec (k mod 64) (j mod 64)) as [->|]; [apply Z.eqb_refl|].
  apply Z.eqb_neq. lia.
Qed.

Lemma same_bit (j k : nat) : (k / 64 = j / 64 -> k mod 64 = j mod 64 -> k = j)%nat.
Proof. intros H1 H2. rewrite (Nat.div_mod k 64), (Nat.div_mod j 64), H1, H2 by lia. done. Qed.

Lemma lbit_clear ws (j k : nat) :
  (j / 64 < length ws)%nat ->
  lbit (<[(j / 64)%nat := Z.land (wd ws (j / 64)) (u64 (Z.lnot (bit_of (Z.of_nat (j mod 64)))))]> ws) k =
  lbit ws k && negb (k =? j)%nat.
Proof.
  intros Hj. rewrite lbit_insert by done. destruct (decide (k / 64 = j / 64)%nat) as [E|E].
  - rewrite clear_word_spec. unfold lbit. rewrite E. do 2 f_equal.
    destruct (Nat.eqb_spec (k mod 64) (j mod 64)), (Nat.eqb_spec k j); try done; subst; try done.
    by destruct (same_bit j k).
  - destruct (Nat.eqb_spec k j) as [->|]; [done | by rewrite andb_true_r].
Qed.

Lemma clear_fn_run al j :
  (j / 64 < length (al_map al))%nat ->
  at_index axmap_clear_fn (Z.of_nat j) al tt =
  if lbit (al_map al) j
  then Some (wr_word al (Z.of_nat (j / 64))
               (Z.land (wd (al_map al) (j / 64)) (u64 (Z.lnot (bit_of (Z.of_nat (j mod 64)))))), tt, false)
  else Some (al, tt, true).
Proof.
  intros Hj. unfold at_index, axmap_clear_fn, rd_word.
  rewrite (proj1 (index_split j)), (proj2 (index_split j)), Nat2Z.id, wd_lookup by done.
  cbn [mbind option_bind]. cbv beta. rewrite land_bit_zero by apply mod64. unfold lbit.
  by destruct (Z.testbit _ _).
Qed.

Lemma clear_levels ls : forall i j,
  levels_ok i ls -> (j / 64 < length (bottom ls))%nat ->
  exists ls' r, hrec axmap_clear_fn ls j tt = Some (ls', tt, r) /\
    levels_ok i ls' /\ length ls' = length ls /\ length (bottom ls') = length (bottom ls) /\
    forall k, lbit (bottom ls') k = lbit (bottom ls) k && negb (k =? j)%nat.
Proof.
  induction ls as [|al ls IH]; intros i j Hok Hj; [done|].
  destruct (levels_ok_head _ _ _ Hok) as [Hlev Hf]. simpl in Hj. cbn [hrec bottom].
  rewrite clear_fn_run by done. destruct (lbit (al_map al) j) eqn:Eb.
  2: { eexists _, _. split; [reflexivity|]. split_and!; try done. intros k. cbn [bottom].
       destruct (Nat.eqb_spec k j) as [->|]; [by rewrite Eb | by rewrite andb_true_r]. }
  cbn [mbind option_bind]. cbv beta iota.
  set (w' := Z.land _ _). set (al' := wr_word al (Z.of_nat (j / 64)) w').
  assert (al_map al' = <[(j / 64)%nat := w']> (al_map al)) as Eal by (unfold al', wr_word; simpl; by rewrite Nat2Z.id).
  assert (Forall (fits 64) (al_map al')) as Hf' by (rewrite Eal; apply Forall_insert; [done | unfold w'; auto with nvs]).
  assert (forall k, lbit (al_map al') k = lbit (al_map al) k && negb (k =? j)%nat) as Hbits.
  { intros k. rewrite Eal. by apply lbit_clear. }
  assert (w' <> FULL) as Hnf.
  { intros E. specialize (Hbits j). rewrite Eal, lbit_insert, decide_True, E in Hbits by done.
    rewrite FULL_bits, Nat.eqb_refl, andb_false_r in Hbits by apply mod64. done. }
  destruct ls as [|b ls].
  { eexists _, _. split; [reflexivity|].
    split; [|split; [done|]; split; [cbn [bottom]; by rewrite Eal, length_insert | done]].
    destruct Hok as (_ & _ & Hok). split; [done|]. split; [done|]. by rewrite Eal, length_insert. }
  destruct Hok as (_ & _ & Hp & Hok).
  destruct (IH (i + 1) (j / 64)%nat) as (ls' & r & Hrun & Hok' & Hlen & Hbl & Hb'); try done.
  { simpl. by apply (parent_length (al_map al)). }
  rewrite Hrun. eexists _, _. split; [reflexivity|].
  split; [|split; [simpl in *; congruence|]; split; [cbn [bottom]; by rewrite Eal, length_insert | done]].
  destruct ls' as [|b' ls']; [done|]. split; [done|]. split; [done|]. split; [|done].
  rewrite Eal. simpl in Hbl, Hb'. apply (parent_update _ (al_map b)); try done.
  intros k. rewrite Hb', (proj2 (Z.eqb_neq w' FULL)) by done.
  destruct (decide (k = j / 64)%nat) as [->|Hne].
  - by rewrite Nat.eqb_refl, andb_false_r.
  - by rewrite (proj2 (Nat.eqb_neq _ _)), andb_true_r.
Qed.

(** ** A level by its number *)

Lemma levels_lookup ls : forall i k al,
  levels_ok i ls -> ls !! k = Some al -> Forall (fits 64) (al_map al) /\ al_level al = i + Z.of_nat k.
Proof.
  induction ls as [|a ls IH]; intros i k al Hok Hk; [done|].
  destruct k as [|k]; simpl in Hk.
  - destruct (levels_ok_head _ _ _ Hok). simplify_eq. split; [done | lia].
  - destruct Hok as (_ & _ & Hok). destruct ls as [|b ls]; [done|]. destruct Hok as [_ Hok].
    destruct (IH _ _ _ Hok Hk). split; [done | lia].
Qed.

Lemma levels_parent ls : forall i k a b,
  levels_ok i ls -> ls !! k = Some a -> ls !! S k = Some b -> parent_ok (al_map a) (al_map b).
Proof.
  induction ls as [|c ls IH]; intros i k a b Hok Ha Hb; [done|].
  destruct Hok as (_ & _ & Hok). destruct ls as [|d ls]; [by destruct k|].
  destruct Hok as [Hp Hok]. destruct k as [|k]; simpl in *; simplify_eq; [done|].
  by eapply IH.
Qed.

Lemma levels_top ls : forall i al,
  levels_ok i ls -> ls !! (length ls - 1)%nat = Some al -> (length (al_map al) <= 1)%nat.
Proof.
  induction ls as [|c ls IH]; intros i al Hok Ha; [done|].
  destruct Hok as (_ & _ & Hok). destruct ls as [|d ls]; [by simplify_eq/=|].
  destruct Hok as [_ Hok]. apply (IH _ _ Hok).
  replace (length (d :: ls) - 1)%nat with (length ls) by (simpl; lia). exact Ha.
Qed.

Lemma bottom_lookup ls al : ls !! 0%nat = Some al -> bottom ls = al_map al.
Proof. destruct ls; simpl; congruence. Qed.

(** The index of a bit at level [k]. *)
Lemma div_pow_S (b k : nat) : (b / 64 ^ S k = b / 64 ^ k / 64)%nat.
Proof. by rewrite Nat.Div0.div_div, Nat.pow_succ_r', Nat.mul_comm. Qed.

Lemma level_in_bounds i ls (b : nat) :
  levels_ok i ls -> (b / 64 < length (bottom ls))%nat -> forall k al,
  ls !! k = Some al -> (b / 64 ^ k / 64 < length (al_map al))%nat.
Proof.
  intros Hok Hb. induction k as [|k IH]; intros al Hk.
  - change (64 ^ 0)%nat with 1%nat. rewrite Nat.div_1_r. by rewrite <- (bottom_lookup _ _ Hk).
  - destruct (lookup_lt_is_Some_2 ls k) as [a Ha].
    { apply lookup_lt_Some in Hk. lia. }
    rewrite div_pow_S. apply (parent_length (al_map a)); [by eapply levels_parent | by apply IH].
Qed.

(** A bit that is set at level [k] says the bits below it are set. *)
Lemma upper_set i ls (b : nat) :
  levels_ok i ls -> (b / 64 < length (bottom ls))%nat -> forall k al,
  ls !! k = Some al -> lbit (al_map al) (b / 64 ^ k) = true -> lbit (bottom ls) b = true.
Proof.
  intros Hok Hb. induction k as [|k IH]; intros al Hk Hs.
  - rewrite (bottom_lookup _ _ Hk). change (64 ^ 0)%nat with 1%nat in Hs. by rewrite Nat.div_1_r in Hs.
  - destruct (lookup_lt_is_Some_2 ls k) as [a Ha].
    { apply lookup_lt_Some in Hk. lia. }
    apply (IH a Ha). pose proof (levels_parent _ _ _ _ _ Hok Ha Hk) as Hp.
    rewrite div_pow_S, (po_full _ _ Hp) in Hs by by eapply level_in_bounds.
    apply Z.eqb_eq in Hs. unfold lbit. rewrite Hs. apply FULL_bits, mod64.
Qed.

(** ** Testing a bit *)

Lemma isset_fn_run al j :
  (j / 64 < length (al_map al))%nat ->
  at_index axmap_isset_fn (Z.of_nat j) al tt = Some (al, tt, lbit (al_map al) j).
Proof.
  intros Hj. unfold at_index, axmap_isset_fn, rd_word.
  rewrite (proj1 (index_split j)), (proj2 (index_split j)), Nat2Z.id, wd_lookup by done.
  cbn [mbind option_bind]. cbv beta. by rewrite land_bit_zero, negb_involutive by apply mod64.
Qed.

Lemma topdown_step ls (b : nat) k al :
  ls !! k = Some al -> (b / 64 ^ k / 64 < length (al_map al))%nat ->
  topdown axmap_isset_fn (S k) ls (Z.of_nat b) tt =
  if lbit (al_map al) (b / 64 ^ k) then Some (ls, tt, true)
  else topdown axmap_isset_fn k ls (Z.of_nat b) tt.
Proof.
  intros Hal Hin. cbn [topdown]. rewrite Hal. cbn [mbind option_bind]. rewrite ulog64_nat, isset_fn_run by done.
  cbn [mbind option_bind]. cbv beta iota zeta. by rewrite list_insert_id.
Qed.

Lemma topdown_isset i ls (b : nat) k :
  levels_ok i ls -> (b / 64 < length (bottom ls))%nat -> (S k <= length ls)%nat ->
  topdown axmap_isset_fn (S k) ls (Z.of_nat b) tt = Some (ls, tt, lbit (bottom ls) b).
Proof.
  intros Hok Hb. induction k as [|k IH]; intros Hk;
    destruct (lookup_lt_is_Some_2 ls _ Hk) as [al Hal];
    rewrite (topdown_step _ _ _ _ Hal (level_in_bounds _ _ _ Hok Hb _ _ Hal));
    destruct (lbit (al_map al) _) eqn:Eb.
  - by rewrite (upper_set _ _ _ Hok Hb _ _ Hal Eb).
  - change (64 ^ 0)%nat with 1%nat in Eb. rewrite Nat.div_1_r in Eb. by rewrite (bottom_lookup _ _ Hal), Eb.
  - by rewrite (upper_set _ _ _ Hok Hb _ _ Hal Eb).
  - apply IH. lia.
Qed.

(** ** Searching for a free bit *)

Lemma scan_words_spec ws : forall j,
  match scan_words ws j with
  | None => Forall (fun w => w = FULL) ws
  | Some (j', w) => exists k : nat, j' = j + Z.of_nat k /\ ws !! k = Some w /\ w <> FULL /\
                      forall k', (k' < k)%nat -> ws !! k' = Some FULL
  end.
Proof.
  induction ws as [|w ws IH]; intros j; [by constructor|]. cbn [scan_words].
  destruct (Z.eqb_spec w FULL) as [->|Hne].
  - specialize (IH (j + 1)). destruct (scan_words ws (j + 1)) as [[j' w']|]; [|by constructor].
    destruct IH as (k & -> & Hk & Hne & Hlt). exists (S k). split_and!; try done; [lia|].
    intros [|k'] Hk'; [done|]. apply Hlt. lia.
  - exists 0%nat. split_and!; try done; lia.
Qed.

(** Word [x] of a level is the first one that is not full (all are, when [x] is its size). *)
Definition first_nonfull (ws : list Z) (x : nat) : Prop :=
  (x <= length ws)%nat /\ (forall k, (k < x)%nat -> wd ws k = FULL) /\
  ((x < length ws)%nat -> wd ws x <> FULL).

Definition all_full (ws : list Z) : Prop := forall k, (k < length ws)%nat -> wd ws k = FULL.

(** [r] is the first clear bit of a level. *)
Definition first_clear (ws : list Z) (r : nat) : Prop :=
  (r / 64 < length ws)%nat /\ lbit ws r = false /\ forall k, (k < r)%nat -> lbit ws k = true.

Lemma full_bits ws k : wd ws (k / 64) = FULL -> lbit ws k = true.
Proof. intros H. unfold lbit. rewrite H. apply FULL_bits, mod64. Qed.

(** The clear bit that [ffz] finds in word [x]. *)
Lemma word_clear ws (x : nat) :
  Forall (fits 64) ws -> wd ws x <> FULL ->
  exists r : nat, Z.shiftl (Z.of_nat x) UNIT_SHIFT + ffz (wd ws x) = Z.of_nat r /\ (r / 64 = x)%nat /\
    lbit ws r = false /\ forall k, (k < r)%nat -> (k / 64 = x)%nat -> lbit ws k = true.
Proof.
  intros Hf Hne. destruct (ffz_low (wd ws x)) as (Hr & Hc & Hl); auto with nvs.
  exists (x * 64 + Z.to_nat (ffz (wd ws x)))%nat.
  destruct (split64 x (Z.to_nat (ffz (wd ws x))) ltac:(lia)) as [Ediv Emod].
  split_and!; [| done | |].
  - rewrite Z.shiftl_mul_pow2 by (unfold UNIT_SHIFT; lia). unfold UNIT_SHIFT. lia.
  - unfold lbit. rewrite Ediv, Emod, Z2Nat.id by lia. done.
  - intros k Hk E. unfold lbit. rewrite E. apply Hl. pose proof (Nat.div_mod k 64 ltac:(lia)). lia.
Qed.

Lemma first_word_clear ws x r :
  first_nonfull ws x -> (r / 64 = x)%nat -> (x < length ws)%nat -> lbit ws r = false ->
  (forall k, (k < r)%nat -> (k / 64 = x)%nat -> lbit ws k = true) -> first_clear ws r.
Proof.
  intros (_ & Hf & _) Hr Hx Hc Hl. split; [lia|]. split; [done|]. intros k Hk.
  destruct (decide (k / 64 = x)%nat) as [|Hne]; [by apply Hl|]. apply full_bits, Hf.
  pose proof (Nat.Div0.div_le_mono k r 64 ltac:(lia)). lia.
Qed.

(** The first clear bit of a level is the number of its first word below that is not full. *)
Lemma first_clear_below a b r : parent_ok a b -> first_clear b r -> first_nonfull a (Nat.min r (length a)).
Proof.
  intros Hp (_ & Hc & Hl). split; [lia|]. split.
  - intros k Hk. specialize (Hl k ltac:(lia)). rewrite (po_full _ _ Hp) in Hl by lia. by apply Z.eqb_eq.
  - intros Hx. assert (Nat.min r (length a) = r) as -> by lia.
    rewrite (po_full _ _ Hp) in Hc by lia. by apply Z.eqb_neq.
Qed.

Lemma all_full_below a b : parent_ok a b -> all_full b -> all_full a.
Proof.
  intros Hp Hb k Hk. apply Z.eqb_eq. rewrite <- (po_full _ _ Hp) by done.
  apply full_bits, Hb. by apply (parent_length a).
Qed.

Lemma all_full_bottom i ls k al :
  levels_ok i ls -> ls !! k = Some al -> all_full (al_map al) -> all_full (bottom ls).
Proof.
  intros Hok. revert al. induction k as [|k IH]; intros al Hk Hf; [by rewrite (bottom_lookup _ _ Hk)|].
  destruct (lookup_lt_is_Some_2 ls k) as [a Ha]; [apply lookup_lt_Some in Hk; lia|].
  apply (IH a Ha). eapply all_full_below; [|done]. by eapply levels_parent.
Qed.

(** The scan at a level, when the word it starts at is not full. *)
Lemma scan_here al (x : nat) :
  (x < length (al_map al))%nat -> wd (al_map al) x <> FULL ->
  scan_words (drop x (al_map al)) (Z.of_nat x) = Some (Z.of_nat x, wd (al_map al) x).
Proof.
  intros Hx Hne. rewrite (drop_S _ (wd (al_map al) x)) by by apply wd_lookup. cbn [scan_words].
  by rewrite (proj2 (Z.eqb_neq _ _)).
Qed.

(** The step of the search at level [k], from word [x]. *)
Lemma find_step ls k al (x : nat) ret :
  ls !! k = Some al -> (x < length (al_map al))%nat -> wd (al_map al) x <> FULL ->
  find_loop (S k) ls (Z.of_nat x) ret =
  let r := u64 (Z.shiftl (Z.of_nat x) UNIT_SHIFT + ffz (wd (al_map al) x)) in find_loop k ls r r.
Proof.
  intros Hal Hx Hne. cbn [find_loop]. rewrite Hal. cbn [mbind option_bind]. unfold map_size.
  rewrite (proj2 (Z.leb_gt _ _)) by lia. by rewrite Nat2Z.id, scan_here.
Qed.

(** Sizes of levels: every bit number fits 64 bits. *)
Definition small_map (ls : list axmap_level) : Prop := (Z.of_nat (length (bottom ls)) < 2 ^ 57).

Lemma level_small i ls : levels_ok i ls -> small_map ls -> forall k al,
  ls !! k = Some al -> Z.of_nat (length (al_map al)) < 2 ^ 57.
Proof.
  intros Hok Hs. induction k as [|k IH]; intros al Hk.
  - unfold small_map in Hs. by rewrite (bottom_lookup _ _ Hk) in Hs.
  - destruct (lookup_lt_is_Some_2 ls k) as [a Ha]; [apply lookup_lt_Some in Hk; lia|].
    specialize (IH a Ha). rewrite (po_len _ _ (levels_parent _ _ _ _ _ Hok Ha Hk)).
    pose proof (Nat.div_mod (length (al_map a) + 63) 64 ltac:(lia)). lia.
Qed.

Lemma bit_small (r x : nat) n :
  (r / 64 = x)%nat -> (x < n)%nat -> Z.of_nat n < 2 ^ 57 -> u64 (Z.of_nat r) = Z.of_nat r.
Proof.
  intros H1 H2 H3. apply u64_small. split; [lia|].
  pose proof (Nat.div_mod r 64 ltac:(lia)). pose proof (Nat.mod_upper_bound r 64). lia.
Qed.

(** From the first word of level [k] that is not full, the search ends at the
    first clear bit of the bottom level, or finds that there is none. *)
Lemma find_least i ls : levels_ok i ls -> small_map ls -> forall k al x ret,
  ls !! k = Some al -> first_nonfull (al_map al) x ->
  (exists r, find_loop (S k) ls (Z.of_nat x) ret = Some (Z.of_nat r) /\ first_clear (bottom ls) r) \/
  (find_loop (S k) ls (Z.of_nat x) ret = Some FULL /\ all_full (bottom ls)).
Proof.
  intros Hok Hs. induction k as [|k IH]; intros al x ret Hk Hx;
    (destruct (decide (x < length (al_map al))%nat) as [Hlt|Hge];
     [|right; split;
       [cbn [find_loop]; rewrite Hk; cbn [mbind option_bind]; unfold map_size;
        by rewrite (proj2 (Z.leb_le _ _)) by lia
       |eapply all_full_bottom; [done..|]; intros y Hy; destruct Hx as (? & Hm & _); apply Hm; lia]]);
    destruct (levels_lookup _ _ _ _ Hok Hk) as [Hf _];
    (destruct Hx as (Hx0 & Hx1 & Hx2); specialize (Hx2 Hlt));
    rewrite (find_step _ _ _ _ _ Hk Hlt Hx2); cbv zeta;
    destruct (word_clear _ _ Hf Hx2) as (r & -> & Hr & Hc & Hl);
    rewrite (bit_small r x _ Hr Hlt (level_small _ _ Hok Hs _ _ Hk));
    assert (first_clear (al_map al) r) as Hfc by (by apply (first_word_clear _ x)).
  - left. exists r. split; [done|]. by rewrite (bottom_lookup _ _ Hk).
  - destruct (lookup_lt_is_Some_2 ls k) as [a Ha]; [apply lookup_lt_Some in Hk; lia|].
    pose proof (levels_parent _ _ _ _ _ Hok Ha Hk) as Hp.
    destruct (decide (r < length (al_map a))%nat) as [Hra|Hra].
    + apply (IH a); [done|]. replace r with (Nat.min r (length (al_map a))) by lia. by eapply first_clear_below.
    + right. split; [cbn [find_loop]; rewrite Ha; cbn [mbind option_bind]; unfold map_size;
        by rewrite (proj2 (Z.leb_le _ _)) by lia|].
      eapply all_full_bottom; [done..|]. intros y Hy. destruct (first_clear_below _ _ _ Hp Hfc) as (_ & Hm & _).
      apply Hm. lia.
Qed.

(** From any word that is not full the search ends at a clear bit or past the end of a level. *)
Lemma find_clear i ls : levels_ok i ls -> small_map ls -> forall k al x ret,
  ls !! k = Some al -> (x < length (al_map al))%nat -> wd (al_map al) x <> FULL ->
  find_loop (S k) ls (Z.of_nat x) ret = Some FULL \/
  exists r, find_loop (S k) ls (Z.of_nat x) ret = Some (Z.of_nat r) /\ (r / 64 < length (bottom ls))%nat /\
    lbit (bottom ls) r = false.
Proof.
  intros Hok Hs. induction k as [|k IH]; intros al x ret Hk Hlt Hne;
    destruct (levels_lookup _ _ _ _ Hok Hk) as [Hf _];
    rewrite (find_step _ _ _ _ _ Hk Hlt Hne); cbv zeta;
    destruct (word_clear _ _ Hf Hne) as (r & -> & Hr & Hc & _);
    rewrite (bit_small r x _ Hr Hlt (level_small _ _ Hok Hs _ _ Hk)).
  - right. exists r. rewrite (bottom_lookup _ _ Hk). split; [done|]. split; [lia | done].
  - destruct (lookup_lt_is_Some_2 ls k) as [a Ha]; [apply lookup_lt_Some in Hk; lia|].
    destruct (decide (r < length (al_map a))%nat) as [Hra|Hra].
    + apply (IH a); [done..|]. rewrite (po_full _ _ (levels_parent _ _ _ _ _ Hok Ha Hk)) in Hc by done.
      by apply Z.eqb_neq.
    + left. cbn [find_loop]. rewrite Ha. cbn [mbind option_bind]. unfold map_size.
      by rewrite (proj2 (Z.leb_le _ _)) by lia.
Qed.

Lemma scan_full ws j : Forall (fun w => w = FULL) ws -> scan_words ws j = None.
Proof. intros H. revert j. induction H as [|w ws -> _ IH]; intros j; [done|]. apply IH. Qed.

Lemma find_none i ls : levels_ok i ls -> forall k,
  (k <= length ls)%nat -> (forall k' al, (k' < k)%nat -> ls !! k' = Some al -> all_full (al_map al)) ->
  find_loop k ls 0 FULL = Some FULL.
Proof.
  intros Hok. induction k as [|k IH]; intros Hk Hall; [done|].
  destruct (lookup_lt_is_Some_2 ls k Hk) as [al Hal]. cbn [find_loop]. rewrite Hal. cbn [mbind option_bind].
  unfold map_size. destruct (Z.leb_spec (Z.of_nat (length (al_map al))) 0); [done|].
  change (drop (Z.to_nat 0) (al_map al)) with (al_map al). rewrite scan_full.
  - apply IH; [lia|]. intros k' a Hk'. apply Hall. lia.
  - apply Forall_lookup. intros y w Hy. rewrite <- (Hall k al ltac:(lia) Hal y) by (by eapply lookup_lt_Some).
    unfold wd. rewrite nth_lookup. by rewrite Hy.
Qed.

Lemma all_full_levels i ls : levels_ok i ls -> forall k al k' al',
  ls !! k = Some al -> all_full (al_map al) -> (k' <= k)%nat -> ls !! k' = Some al' -> all_full (al_map al').
Proof.
  intros Hok. induction k as [|k IH]; intros al k' al' Hk Hf Hle Hk'.
  - assert (k' = 0)%nat as -> by lia. by simplify_eq.
  - destruct (decide (k' = S k)) as [->|]; [by simplify_eq|].
    destruct (lookup_lt_is_Some_2 ls k) as [a Ha]; [apply lookup_lt_Some in Hk; lia|].
    apply (IH a k'); try done; [|lia]. eapply all_full_below; [|done]. by eapply levels_parent.
Qed.

(** The search from the top level. *)
Lemma find_top i ls :
  levels_ok i ls -> small_map ls -> ls <> [] ->
  (exists r, find_loop (length ls) ls 0 FULL = Some (Z.of_nat r) /\ first_clear (bottom ls) r) \/
  (find_loop (length ls) ls 0 FULL = Some FULL /\ all_full (bottom ls)).
Proof.
  intros Hok Hs Hne. assert (0 < length ls)%nat as Hpos by (destruct ls; [done | simpl; lia]).
  destruct (lookup_lt_is_Some_2 ls (length ls - 1)) as [al Hal]; [lia|].
  pose proof (levels_top _ _ _ Hok Hal) as Htop.
  destruct (decide (wd (al_map al) 0 = FULL)) as [E|E].
  - assert (all_full (al_map al)) as Hf.
    { intros k Hk. by assert (k = 0)%nat as -> by lia. }
    right. split; [|by eapply all_full_bottom]. apply (find_none i); [done | lia|].
    intros k' a Hk' Ha. eapply (all_full_levels i ls Hok); [exact Hal | done | | exact Ha]. lia.
  - replace (length ls) with (S (length ls - 1)) by lia.
    apply (find_least i ls Hok Hs _ _ 0%nat FULL Hal). split; [lia|]. split; [lia | done].
Qed.

(** ** The bottom-up search of the next free bit *)

Lemma next_fn_run al j d :
  (j / 64 < length (al_map al))%nat ->
  exists d' r, at_index axmap_next_free_fn (Z.of_nat j) al d = Some (al, d', r) /\
    (r = true -> nd_level d' = al_level al /\ nd_offset d' = Z.of_nat (j / 64) /\
                 wd (al_map al) (j / 64) <> FULL).
Proof.
  intros Hj. unfold at_index, axmap_next_free_fn, rd_word.
  rewrite (proj1 (index_split j)), Nat2Z.id.
  rewrite bit_masks_ones.
  2: { unfold BLOCKS_PER_UNIT_MASK. change 63 with (Z.ones 6). rewrite Z.land_ones by lia.
       pose proof (Z.mod_pos_bound (u64 (nd_bit d + 1)) (2 ^ 6)). lia. }
  cbn [mbind option_bind]. cbv beta zeta. rewrite wd_lookup by done. cbn [mbind option_bind]. cbv beta.
  destruct (_ =? 0); [by eexists _, _|].
  destruct (Z.eqb_spec (wd (al_map al) (j / 64)) FULL) as [E|E]; cbn [negb]; by eexists _, _.
Qed.

Lemma next_levels ls : forall i j d,
  levels_ok i ls -> (j / 64 < length (bottom ls))%nat ->
  exists d' r, hrec axmap_next_free_fn ls j d = Some (ls, d', r) /\
    (r = true -> exists k al x, nd_level d' = i + Z.of_nat k /\ nd_offset d' = Z.of_nat x /\
       ls !! k = Some al /\ (x < length (al_map al))%nat /\ wd (al_map al) x <> FULL).
Proof.
  induction ls as [|al ls IH]; intros i j d Hok Hj; [done|].
  destruct (levels_ok_head _ _ _ Hok) as [Hlev _]. simpl in Hj. cbn [hrec].
  destruct (next_fn_run al j d Hj) as (d1 & r1 & -> & H1). cbn [mbind option_bind]. cbv beta iota.
  destruct r1.
  { destruct (H1 eq_refl) as (Hl & Ho & Hw). eexists _, _. split; [reflexivity|]. intros _.
    exists 0%nat, al, (j / 64)%nat. split_and!; try done. lia. }
  destruct ls as [|b ls]; [by eexists _, _|].
  destruct Hok as (_ & _ & Hp & Hok).
  destruct (IH (i + 1) (j / 64)%nat d1 Hok) as (d2 & r2 & -> & H2).
  { simpl. by apply (parent_length (al_map al)). }
  eexists _, _. split; [reflexivity|]. intros E. destruct (H2 E) as (k & a & x & Hl & Ho & Hk & Hx & Hw).
  exists (S k), a, x. split_and!; try done. lia.
Qed.
