(* ===== verification/AxmapSpec.v ===== *)
(** The layered bitmap of src/fio/lib/axmap.c as a whole: the invariant of a map,
    what each operation does to its bits, and the refinement of a set of bit
    numbers by [axmap_new], set, clear, range set, test and search. *)
From S2P Require Import Prelude Axmap.
#[local] Arguments Nat.div : simpl never.
#[local] Arguments Nat.modulo : simpl never.
#[local] Arguments Nat.pow : simpl never.

(** * Whole maps *)

(** The level count of [axmap_new] is computed in 32 bits. *)
Definition MAX_BITS : Z := 2 ^ 38 - 2 ^ 12.

Definition bits (m : axmap) (b : Z) : bool := lbit (bottom (levels m)) (Z.to_nat b).

Record shape (m : axmap) : Prop := {
  sh_levels : levels_ok 0 (levels m);
  sh_bits : 0 <= nr_bits m <= MAX_BITS;
  sh_bottom : length (bottom (levels m)) = ((Z.to_nat (nr_bits m) + 63) / 64)%nat;
  sh_count : (length (levels m) <= 33)%nat
}.

(** The cached free bit is free. *)
Definition ff_ok (m : axmap) : Prop :=
  first_free m = FULL \/
  (0 <= first_free m <= nr_bits m /\ (0 < nr_bits m -> first_free m < nr_bits m) /\ bits m (first_free m) = false).

Definition axmap_ok (m : axmap) : Prop := shape m /\ ff_ok m.

Lemma ceil64 (n b : nat) : (b < n -> b / 64 < (n + 63) / 64)%nat.
Proof.
  intros H. pose proof (Nat.div_mod (n + 63) 64 ltac:(lia)). pose proof (Nat.div_mod b 64 ltac:(lia)).
  pose proof (Nat.mod_upper_bound (n + 63) 64). pose proof (Nat.mod_upper_bound b 64). lia.
Qed.

Lemma shape_in m b : shape m -> 0 <= b < nr_bits m -> (Z.to_nat b / 64 < length (bottom (levels m)))%nat.
Proof. intros [_ _ -> _] Hb. apply ceil64. lia. Qed.

Lemma shape_small m : shape m -> small_map (levels m).
Proof.
  intros [_ H1 H2 _]. unfold small_map. rewrite H2. unfold MAX_BITS in H1.
  pose proof (Nat.div_mod (Z.to_nat (nr_bits m) + 63) 64 ltac:(lia)). lia.
Qed.

Lemma shape_nonempty m : shape m -> levels m <> [].
Proof. intros [H _ _ _] E. by rewrite E in H. Qed.

(** ** Creation and reset *)

Lemma zero_lbit n k : lbit (replicate n 0) k = false.
Proof.
  unfold lbit, wd. rewrite nth_lookup. destruct (replicate n 0 !! (k / 64)%nat) as [w|] eqn:E; simpl.
  - apply lookup_replicate in E as [-> _]. apply Z.testbit_0_l.
  - apply Z.testbit_0_l.
Qed.

Lemma zero_wd n k : wd (replicate n 0) k = 0.
Proof.
  unfold wd. rewrite nth_lookup. destruct (replicate n 0 !! k) as [w|] eqn:E; simpl; [|done].
  by apply lookup_replicate in E as [-> _].
Qed.

Lemma zero_parent a b : b = ((a + 63) / 64)%nat -> parent_ok (replicate a 0) (replicate b 0).
Proof.
  intros ->. constructor.
  - by rewrite !length_replicate.
  - intros k _. by rewrite zero_lbit, zero_wd.
  - intros k _. apply zero_lbit.
Qed.

Lemma zero_fits n : Forall (fits 64) (replicate n 0).
Proof. apply Forall_replicate. by split. Qed.
#[local] Hint Resolve zero_fits : nvs.

Lemma reset_levels ls : forall i, levels_ok i ls -> levels_ok i (reset_level <$> ls).
Proof.
  induction ls as [|al ls IH]; intros i Hok; [done|]. destruct Hok as (Hl & _ & Hok).
  split; [done|]. split; [apply zero_fits|]. destruct ls as [|b ls]; simpl.
  - by rewrite length_replicate.
  - destruct Hok as [Hp Hok]. split; [apply zero_parent, Hp | by apply IH].
Qed.

Lemma reset_bottom ls : bottom (reset_level <$> ls) = replicate (length (bottom ls)) 0.
Proof. by destruct ls. Qed.

Lemma reset_ok m : shape m -> axmap_ok (axmap_reset m) /\ forall b, bits (axmap_reset m) b = false.
Proof.
  intros [H1 H2 H3 H4]. assert (forall b, bits (axmap_reset m) b = false) as Hb.
  { intros b. unfold bits, axmap_reset. cbn [levels]. rewrite reset_bottom. apply zero_lbit. }
  split; [|done]. split.
  - constructor; cbn [axmap_reset levels nr_bits]; [by apply reset_levels | done | |].
    + by rewrite reset_bottom, length_replicate.
    + by rewrite length_fmap.
  - right. rewrite Hb. cbn [axmap_reset first_free nr_bits]. split; [lia|]. split; [lia | done].
Qed.

Lemma units_div n : 0 <= n < 2 ^ 63 -> units n = (n + 63) / 64.
Proof.
  intros Hn. unfold units, BLOCKS_PER_UNIT, UNIT_SHIFT. rewrite u64_small by (unfold fits; lia).
  rewrite Z.shiftr_div_pow2 by lia. f_equal. lia.
Qed.

Lemma units_nat n : 0 <= n < 2 ^ 63 -> Z.to_nat (units n) = ((Z.to_nat n + 63) / 64)%nat.
Proof.
  intros Hn. rewrite units_div by done. rewrite Z2Nat.inj_div by lia. f_equal. lia.
Qed.

Lemma count_levels_acc fuel : forall i c, count_levels fuel i (S c) = S (count_levels fuel i c).
Proof. induction fuel as [|fuel IH]; intros i c; [done|]. simpl. destruct (1 <? i); [apply IH | done]. Qed.

Lemma new_levels_ok fuel : forall i n,
  0 <= n < 2 ^ 40 -> units n + 63 < 2 ^ 32 -> units n <= 64 ^ Z.of_nat fuel ->
  levels_ok (Z.of_nat i) (new_levels i (S (count_levels fuel (units n) 0)) n).
Proof.
  induction fuel as [|fuel IH]; intros i n Hn Hu Hf.
  { change (64 ^ Z.of_nat 0) with 1 in Hf. cbn [count_levels new_levels]. split; [done|].
    split; [apply zero_fits|]. cbn [al_map]. rewrite length_replicate. lia. }
  assert (0 <= units n) as H0 by (rewrite units_div by lia; apply Z.div_pos; lia).
  cbn [count_levels]. destruct (Z.ltb_spec 1 (units n)) as [Hgt|Hle].
  - assert (Z.shiftr (u32 (units n + BLOCKS_PER_UNIT - 1)) UNIT_SHIFT = units (units n)) as ->.
    { unfold units at 2, BLOCKS_PER_UNIT. by rewrite u32_small, u64_small by (unfold fits; lia). }
    rewrite count_levels_acc. assert (units (units n) <= units n) as Hdec.
    { rewrite (units_div (units n)) by lia. apply Z.div_le_upper_bound; lia. }
    specialize (IH (S i) (units n) ltac:(lia) ltac:(lia)).
    rewrite Nat2Z.inj_succ in Hf. rewrite Z.pow_succ_r in Hf by lia.
    cbn [new_levels] in IH |- *. split; [done|]. split; [apply zero_fits|]. split.
    + apply zero_parent. rewrite units_nat by lia. done.
    + replace (Z.of_nat i + 1) with (Z.of_nat (S i)) by lia. apply IH.
      rewrite (units_div (units n)) by lia. apply Z.lt_succ_r, Z.div_lt_upper_bound; lia.
  - cbn [new_levels]. split; [done|]. split; [apply zero_fits|]. cbn [al_map]. rewrite length_replicate. lia.
Qed.

Lemma new_bottom i c n : bottom (new_levels i (S c) n) = replicate (Z.to_nat (units n)) 0.
Proof. done. Qed.

Lemma new_levels_length c : forall i n, length (new_levels i c n) = c.
Proof. induction c as [|c IH]; intros i n; [done|]. cbn [new_levels length]. by rewrite IH. Qed.

Lemma count_levels_le fuel : forall i c, (count_levels fuel i c <= c + fuel)%nat.
Proof.
  induction fuel as [|fuel IH]; intros i c; simpl; [lia|]. destruct (1 <? i); [|lia].
  etransitivity; [apply IH | lia].
Qed.

Lemma levels_needed_S n : levels_needed n = S (count_levels 32 (u32 (units n)) 0).
Proof. unfold levels_needed. apply count_levels_acc. Qed.

Lemma new_ok n :
  0 <= n <= MAX_BITS -> axmap_ok (axmap_new n) /\ nr_bits (axmap_new n) = n /\ forall b, bits (axmap_new n) b = false.
Proof.
  intros Hn. unfold MAX_BITS in Hn. assert (0 <= units n <= 2 ^ 32 - 64) as Hu.
  { rewrite units_div by lia. split; [apply Z.div_pos; lia|]. apply Z.lt_succ_r, Z.div_lt_upper_bound; lia. }
  unfold axmap_new. rewrite levels_needed_S, u32_small by (unfold fits; lia).
  set (m := mkAxmap _ 0 n). assert (shape m) as Hsh.
  { constructor; cbn [m levels nr_bits]; [|done | |].
    - apply (new_levels_ok 32 0); [lia | lia|]. etransitivity; [apply Hu|]. by vm_compute.
    - rewrite new_bottom, length_replicate. apply units_nat. lia.
    - rewrite new_levels_length. pose proof (count_levels_le 32 (units n) 0). lia. }
  destruct (reset_ok m Hsh) as [H1 H2]. split; [done|]. split; done.
Qed.

(** ** The operations on a whole map *)

Lemma handler_run {D} (func : axmap_level -> Z -> Z -> D -> option (axmap_level * D * bool)) m b d :
  0 <= b -> axmap_handler func m b d =
  '(ls, d', r) ← hrec func (levels m) (Z.to_nat b) d; Some (mkAxmap ls (first_free m) (nr_bits m), d', r).
Proof.
  intros Hb. unfold axmap_handler. rewrite <- (Z2Nat.id b Hb) at 1. rewrite handler_hrec.
  change (64 ^ 0)%nat with 1%nat. by rewrite Nat.div_1_r.
Qed.

Definition with_levels (m : axmap) (ls : list axmap_level) : axmap := mkAxmap ls (first_free m) (nr_bits m).

Lemma shape_with m ls :
  shape m -> levels_ok 0 ls -> length ls = length (levels m) ->
  length (bottom ls) = length (bottom (levels m)) -> shape (with_levels m ls).
Proof. intros [H1 H2 H3 H4] Hl Hc Hb. constructor; cbn [with_levels levels nr_bits]; [done | done | congruence | lia]. Qed.

Lemma clear_ok m b :
  axmap_ok m -> 0 <= b < nr_bits m -> exists m', axmap_clear m b = Some m' /\ axmap_ok m' /\
    nr_bits m' = nr_bits m /\ forall c, 0 <= c -> bits m' c = bits m c && negb (c =? b).
Proof.
  intros [Hs Hff] Hb.
  destruct (clear_levels (levels m) 0 (Z.to_nat b) (sh_levels _ Hs) (shape_in _ _ Hs Hb))
    as (ls & r & Hrun & Hok & Hcnt & Hlen & Hbits).
  exists (with_levels m ls). unfold axmap_clear. rewrite handler_run, Hrun by lia.
  assert (forall c, 0 <= c -> bits (with_levels m ls) c = bits m c && negb (c =? b)) as Hc.
  { intros c Hc. unfold bits at 1. cbn [with_levels levels]. rewrite Hbits. unfold bits. do 2 f_equal.
    destruct (Nat.eqb_spec (Z.to_nat c) (Z.to_nat b)), (Z.eqb_spec c b); try done; lia. }
  split; [done|]. split; [|done]. split; [by apply shape_with|].
  destruct Hff as [E|(H1 & H2 & H3)]; [by left | right]. cbn [with_levels first_free nr_bits].
  rewrite Hc, H3 by lia. done.
Qed.

(** Bits [b], ..., [b + n - 1]. *)
Definition in_rng (b n c : Z) : bool := (b <=? c) && (c <? b + n).

Lemma in_range_rng b n c : 0 <= b -> 0 <= c -> in_range (Z.to_nat b) n (Z.to_nat c) = in_rng b n c.
Proof. intros. unfold in_range, in_rng. by rewrite !Z2Nat.id. Qed.

(** What [set_levels] says of a map: [n] bits of one word. *)
Lemma set_once m b n sb :
  shape m -> 0 <= b < nr_bits m -> 1 <= n <= 64 - b mod 64 ->
  exists m' n' r, axmap_handler axmap_set_fn m b (mkSet n sb) =
    Some (m', mkSet n' (if all_set (bottom (levels m)) (Z.to_nat b) n then sb
                        else n - overlap_count (bottom (levels m)) (Z.to_nat b) n), r) /\
    shape m' /\ first_free m' = first_free m /\ nr_bits m' = nr_bits m /\
    forall c, 0 <= c -> bits m' c = bits m c || in_rng b n c.
Proof.
  intros Hs Hb Hn.
  assert (Z.of_nat (Z.to_nat b mod 64) = b mod 64) as Emod by (rewrite Nat2Z.inj_mod, Z2Nat.id by lia; done).
  destruct (set_levels (levels m) 0 (Z.to_nat b) n sb (sh_levels _ Hs) ltac:(lia) (shape_in _ _ Hs Hb) ltac:(lia))
    as (ls & n' & r & Hrun & Hok & Hcnt & Hlen & Hbits).
  exists (with_levels m ls), n', r. rewrite handler_run, Hrun by lia. split; [done|].
  split; [by apply shape_with|]. split_and!; try done. intros c Hc. unfold bits. cbn [with_levels levels].
  by rewrite Hbits, in_range_rng by lia.
Qed.

Lemma drop_ff_ok m b n :
  axmap_ok m -> 0 <= b -> 0 <= n -> b + n <= nr_bits m ->
  let m1 := drop_first_free m b n in
  shape m1 /\ levels m1 = levels m /\ nr_bits m1 = nr_bits m /\
  forall m', shape m' -> first_free m' = first_free m1 -> nr_bits m' = nr_bits m ->
    (forall c, 0 <= c -> bits m' c = bits m c || in_rng b n c) -> ff_ok m'.
Proof.
  intros [[Hs1 Hs2 Hs3 Hs4] Hff] Hb Hn Hfit. unfold drop_first_free. unfold MAX_BITS in Hs2.
  rewrite u64_small by (unfold fits; lia). destruct (_ && _) eqn:E; cbn zeta; split_and!; try done;
    intros m' Hs' Hf Hnr Hbits.
  - by left.
  - destruct Hff as [Ef|(H1 & H2 & H3)]; [left; congruence | right]. rewrite Hf, Hnr. split; [done|].
    split; [done|]. rewrite Hbits, H3 by lia. simpl. unfold in_rng. exact E.
Qed.

Lemma overlap_free m b n :
  shape m -> 0 <= b < nr_bits m -> 1 <= n <= 64 - b mod 64 ->
  (forall c, b <= c < b + n -> bits m c = false) ->
  all_set (bottom (levels m)) (Z.to_nat b) n = false /\ overlap_count (bottom (levels m)) (Z.to_nat b) n = 0.
Proof.
  intros Hs Hb Hn Hfree.
  assert (Z.of_nat (Z.to_nat b mod 64) = b mod 64) as Emod by (rewrite Nat2Z.inj_mod, Z2Nat.id by lia; done).
  set (ws := bottom (levels m)). set (j := Z.to_nat b) in *.
  assert (b = Z.of_nat j) as Hj by (unfold j; lia).
  assert (Z.land (wd ws (j / 64)) (range_mask (Z.of_nat (j mod 64)) n) = 0) as Hz.
  { apply word_ext; [apply land_fits, wd_fits | by split|].
    - unfold ws. destruct (levels m) as [|al ls] eqn:E; [by constructor|]. pose proof (sh_levels _ Hs) as H.
      rewrite E in H. apply H.
    - intros i Hi. rewrite Z.land_spec, Z.testbit_0_l, range_mask_spec by lia.
      destruct ((Z.of_nat (j mod 64) <=? i) && (i <? Z.of_nat (j mod 64) + n)) eqn:Er; [|apply andb_false_r].
      rewrite andb_true_r. apply andb_true_iff in Er as [E1%Z.leb_le E2%Z.ltb_lt].
      specialize (Hfree (b - b mod 64 + i) ltac:(lia)). unfold bits, lbit in Hfree. fold ws in Hfree.
      assert (Z.to_nat (b - b mod 64 + i) = (j / 64) * 64 + Z.to_nat i)%nat as Ec.
      { pose proof (Nat.div_mod j 64 ltac:(lia)). lia. }
      destruct (split64 (j / 64) (Z.to_nat i) ltac:(lia)) as [E3 E4].
      by rewrite Ec, E3, E4, Z2Nat.id in Hfree by lia. }
  unfold all_set, overlap_count. rewrite Hz. split; [|done]. apply Z.eqb_neq. intros E.
  assert (Z.testbit (range_mask (Z.of_nat (j mod 64)) n) (Z.of_nat (j mod 64)) = true) as Ht.
  { rewrite range_mask_spec by (pose proof (mod64 j); lia). lia. }
  by rewrite <- E, Z.testbit_0_l in Ht.
Qed.

(** [__axmap_set] on free bits of one word sets them all. *)
Lemma set_free m b n :
  axmap_ok m -> 0 <= b -> b + n <= nr_bits m -> 1 <= n <= 64 - b mod 64 ->
  (forall c, b <= c < b + n -> bits m c = false) ->
  exists m', axmap_set_ m b (mkSet n 0) = Some (m', n) /\ axmap_ok m' /\ nr_bits m' = nr_bits m /\
    forall c, 0 <= c -> bits m' c = bits m c || in_rng b n c.
Proof.
  intros Hok Hb Hfit Hn Hfree. pose proof (sh_bits _ (proj1 Hok)) as Hmax. unfold MAX_BITS in Hmax.
  destruct (drop_ff_ok m b n Hok Hb ltac:(lia) Hfit) as (Hs1 & Hlev & Hnr & Hff).
  unfold axmap_set_. cbn [sd_nr_bits sd_set_bits]. cbv zeta. set (m1 := drop_first_free m b n) in *.
  destruct (set_once m1 b n 0 Hs1 ltac:(lia) Hn) as (m' & n' & r & Hrun & Hs' & Hf' & Hnr' & Hbits').
  destruct (overlap_free m1 b n Hs1 ltac:(lia) Hn) as [Has Hov].
  { intros c Hc. unfold bits. rewrite Hlev. by apply Hfree. }
  rewrite Hnr. rewrite (proj2 (Z.ltb_ge (nr_bits m) b)), u64_small, (proj2 (Z.ltb_ge _ _)) by (unfold fits; lia).
  rewrite Has, Hov, Z.sub_0_r in Hrun. exists m'. assert (forall c, 0 <= c -> bits m' c = bits m c || in_rng b n c) as Hb'.
  { intros c Hc. rewrite Hbits' by done. unfold bits. by rewrite Hlev. }
  split; [|split; [split; [done|]; apply Hff; congruence || done | split; [congruence | done]]].
  cbn [set_loop]. rewrite (proj2 (Z.eqb_neq n 0)) by lia. rewrite Hrun. cbn [mbind option_bind]. cbv beta iota zeta.
  cbn [sd_set_bits]. rewrite (proj2 (Z.eqb_neq n 0)), (u32_small (0 + n)) by (unfold fits; pose proof (Z.mod_pos_bound b 64); lia).
  cbn [orb].
  destruct (negb _); [done|]. replace (u32 (n - n)) with 0 by (by rewrite Z.sub_diag).
  by destruct (Z.to_nat n).
Qed.

(** [__axmap_set] on one bit, set or not. *)
Lemma set_ok m b :
  axmap_ok m -> 0 <= b < nr_bits m -> exists m', axmap_set m b = Some m' /\ axmap_ok m' /\
    nr_bits m' = nr_bits m /\ forall c, 0 <= c -> bits m' c = bits m c || (c =? b).
Proof.
  intros Hok Hb. assert (forall c, in_rng b 1 c = (c =? b)) as Hone by (intros c; unfold in_rng; lia).
  pose proof (Z.mod_pos_bound b 64 ltac:(lia)) as Hm. unfold axmap_set.
  destruct (bits m b) eqn:Eb.
  2: { destruct (set_free m b 1 Hok ltac:(lia) ltac:(lia) ltac:(lia)) as (m' & -> & Hok' & Hnr & Hbits).
       { intros c Hc. by replace c with b by lia. }
       exists m'. split_and!; try done. intros c Hc. by rewrite Hbits, Hone. }
  pose proof (sh_bits _ (proj1 Hok)) as Hmax. unfold MAX_BITS in Hmax.
  destruct (drop_ff_ok m b 1 Hok ltac:(lia) ltac:(lia) ltac:(lia)) as (Hs1 & Hlev & Hnr & Hff).
  unfold axmap_set_. cbn [sd_nr_bits sd_set_bits]. cbv zeta. set (m1 := drop_first_free m b 1) in *.
  destruct (set_once m1 b 1 0 Hs1 ltac:(lia) ltac:(lia)) as (m' & n' & r & Hrun & Hs' & Hf' & Hnr' & Hbits').
  rewrite Hnr. rewrite (proj2 (Z.ltb_ge (nr_bits m) b)), u64_small, (proj2 (Z.ltb_ge _ _)) by (unfold fits; lia).
  assert (all_set (bottom (levels m1)) (Z.to_nat b) 1 = true) as Has.
  { unfold all_set. apply Z.eqb_eq, Z.bits_inj'. intros i Hi. rewrite Z.land_spec.
    destruct (decide (i < 64)) as [Hi'|Hi']; [|by rewrite (fits_high (range_mask _ _)), andb_false_r by (auto with nvs; lia)].
    rewrite range_mask_spec by lia.
    destruct ((Z.of_nat (Z.to_nat b mod 64) <=? i) && (i <? Z.of_nat (Z.to_nat b mod 64) + 1)) eqn:Er;
      [|apply andb_false_r].
    rewrite andb_true_r. apply andb_true_iff in Er as [E1%Z.leb_le E2%Z.ltb_lt].
    replace i with (Z.of_nat (Z.to_nat b mod 64)) by lia. rewrite Hlev. exact Eb. }
  rewrite Has in Hrun. exists m'. cbn [set_loop Z.eqb Z.to_nat]. change (Pos.to_nat 1) with 1%nat.
  cbn [set_loop]. rewrite Hrun. split; [done|].
  assert (forall c, 0 <= c -> bits m' c = bits m c || in_rng b 1 c) as Hb'.
  { intros c Hc. rewrite Hbits' by done. unfold bits. by rewrite Hlev. }
  split; [split; [done|]; apply Hff; congruence || done|]. split; [congruence|].
  intros c Hc. by rewrite Hb', Hone.
Qed.

Lemma isset_run m b : shape m -> 0 <= b < nr_bits m -> axmap_isset m b = Some (bits m b).
Proof.
  intros Hs Hb. unfold axmap_isset. rewrite (proj2 (Z.leb_le _ _)) by lia. unfold axmap_handler_topdown, nr_levels.
  pose proof (shape_nonempty _ Hs) as Hne. destruct (length (levels m)) as [|k] eqn:E; [by apply nil_length_inv in E|].
  rewrite <- (Z2Nat.id b) at 1 by lia.
  rewrite (topdown_isset 0); [done | apply Hs | by apply shape_in | lia].
Qed.

Lemma set_nr_run fuel : forall m b n sb,
  axmap_ok m -> 0 <= b -> 0 < n -> b + n <= nr_bits m -> 0 <= sb -> sb + n < 2 ^ 32 -> (Z.to_nat n < fuel)%nat ->
  (forall c, b <= c < b + n -> bits m c = false) ->
  exists m', set_nr_loop fuel m b n sb = Some (m', sb + n) /\ axmap_ok m' /\ nr_bits m' = nr_bits m /\
    forall c, 0 <= c -> bits m' c = bits m c || in_rng b n c.
Proof.
  induction fuel as [|fuel IH]; intros m b n sb Hok Hb Hn Hfit Hsb Hov Hf Hfree; [lia|].
  pose proof (sh_bits _ (proj1 Hok)) as Hmax. unfold MAX_BITS in Hmax.
  pose proof (Z.mod_pos_bound b 64 ltac:(lia)) as Hm.
  cbn [set_nr_loop]. unfold BLOCKS_PER_UNIT, BLOCKS_PER_UNIT_MASK.
  replace (Z.land b 63) with (b mod 64) by (change 63 with (Z.ones 6); by rewrite Z.land_ones by lia).
  rewrite u32_small by (unfold fits; lia).
  set (k := if 64 - b mod 64 <? n then 64 - b mod 64 else n).
  assert (1 <= k <= n /\ k <= 64 - b mod 64) as [Hk Hk'] by (unfold k; destruct (Z.ltb_spec (64 - b mod 64) n); lia).
  destruct (set_free m b k Hok Hb ltac:(lia) ltac:(lia)) as (m1 & -> & Hok1 & Hnr1 & Hb1).
  { intros c Hc. apply Hfree. lia. }
  cbn [mbind option_bind]. cbv beta iota zeta. rewrite Z.eqb_refl. cbn [negb].
  rewrite !u32_small, u64_small by (unfold fits; lia).
  destruct (Z.eqb_spec (n - k) 0) as [E|E].
  - assert (k = n) as -> by lia. by exists m1.
  - destruct (IH m1 (b + k) (n - k) (sb + k)) as (m2 & Hrun & Hok2 & Hnr2 & Hb2); try done; try lia.
    { intros c Hc. rewrite Hb1, Hfree by lia. unfold in_rng. simpl. lia. }
    exists m2. rewrite Hrun. split; [do 2 f_equal; lia|]. split; [done|]. split; [congruence|].
    intros c Hc. rewrite Hb2, Hb1 by done. rewrite <- orb_assoc. f_equal. unfold in_rng. lia.
Qed.

(** A free bit below the end, or none. *)
Definition free_result (m : axmap) (r : Z) : Prop :=
  (r = FULL /\ forall c, 0 <= c < nr_bits m -> bits m c = true) \/
  (0 <= r < nr_bits m /\ bits m r = false).

Lemma find_first_top m :
  shape m -> exists r, axmap_find_first_free m (nr_levels m - 1) 0 = Some r /\ free_result m r.
Proof.
  intros Hs. pose proof (shape_nonempty _ Hs) as Hne.
  assert (length (levels m) = S (nr_levels m - 1)) as Hl.
  { unfold nr_levels. destruct (levels m); [done | simpl; lia]. }
  pose proof (sh_bits _ Hs) as Hmax. unfold MAX_BITS in Hmax. unfold axmap_find_first_free.
  assert (forall c, 0 <= c < nr_bits m -> (Z.to_nat c / 64 < length (bottom (levels m)))%nat) as Hin
    by (intros c Hc; by apply shape_in).
  destruct (find_top 0 (levels m) (sh_levels _ Hs) (shape_small _ Hs) Hne) as [(r & Hr & Hf & Hc & Hlow)|[Hr Hall]];
    rewrite Hl in Hr; rewrite Hr; cbn [mbind option_bind]; cbv beta; (eexists; split; [reflexivity|]).
  - destruct (Z.ltb_spec (Z.of_nat r) (nr_bits m)) as [Hlt|Hge].
    + right. split; [lia|]. unfold bits. by rewrite Nat2Z.id.
    + left. split; [done|]. intros c Hcc. apply Hlow. lia.
  - rewrite (proj2 (Z.ltb_ge _ _)) by (unfold FULL; lia). left. split; [done|]. intros c Hc.
    apply full_bits, Hall. by apply Hin.
Qed.

(** What a search promises: the map keeps its bits. *)
Definition search_ok (m : axmap) (res : option (axmap * Z)) : Prop :=
  exists m' r, res = Some (m', r) /\ axmap_ok m' /\ nr_bits m' = nr_bits m /\
    levels m' = levels m /\ free_result m r.

Lemma first_free_run m : axmap_ok m -> 0 < nr_bits m -> search_ok m (axmap_first_free m).
Proof.
  intros [Hs Hff] Hpos. unfold axmap_first_free, firstfree_valid.
  destruct (Z.eqb_spec (first_free m) FULL) as [E|E]; cbn [negb].
  - destruct (find_first_top m Hs) as (r & Hr & Hres). rewrite Hr. cbn [mbind option_bind]. cbv beta.
    eexists _, _. split; [reflexivity|]. split; [|done]. split; [by destruct Hs|].
    destruct Hres as [[-> _]|[H1 H2]]; [by left | right]. cbn [first_free nr_bits].
    split; [lia|]. split; [lia | exact H2].
  - exists m, (first_free m). split_and!; try done. destruct Hff as [|(H1 & H2 & H3)]; [done|].
    right. split; [lia | done].
Qed.

Lemma next_free_run m b : axmap_ok m -> 0 <= b < nr_bits m -> search_ok m (axmap_next_free m b).
Proof.
  intros Hok Hb. pose proof Hok as [Hs Hff]. unfold axmap_next_free.
  destruct (firstfree_valid m && (b <? first_free m)) eqn:E.
  { apply andb_true_iff in E as [E _]. unfold firstfree_valid in E. apply negb_true_iff, Z.eqb_neq in E.
    exists m, (first_free m). split_and!; try done. destruct Hff as [|(H1 & H2 & H3)]; [done|].
    right. split; [lia | done]. }
  destruct (next_levels (levels m) 0 (Z.to_nat b) (mkNext (2 ^ 32 - 1) 0 b) (sh_levels _ Hs) (shape_in _ _ Hs Hb))
    as (d & r & Hrun & Hd).
  rewrite handler_run, Hrun by lia. cbn [mbind option_bind]. cbv beta iota.
  replace (mkAxmap (levels m) (first_free m) (nr_bits m)) with m by by destruct m.
  destruct r; cbn [negb]; [|apply first_free_run; [done | lia]].
  destruct (Hd eq_refl) as (k & al & x & Hl & Ho & Hk & Hx & Hw).
  assert (Z.of_nat k < 2 ^ 32 - 1) as Hk32 by (apply lookup_lt_Some in Hk; pose proof (sh_count _ Hs); lia).
  rewrite Hl, (proj2 (Z.eqb_neq _ _)) by lia. rewrite Z.add_0_l, Nat2Z.id, Ho.
  unfold axmap_find_first_free.
  destruct (find_clear 0 (levels m) (sh_levels _ Hs) (shape_small _ Hs) k al x FULL Hk Hx Hw)
    as [-> | (c & -> & Hc1 & Hc2)]; cbn [mbind option_bind]; cbv beta.
  - pose proof (sh_bits _ Hs) as Hmax. unfold MAX_BITS in Hmax.
    rewrite (proj2 (Z.ltb_ge FULL _)) by (unfold FULL; lia). rewrite Z.eqb_refl. cbn [negb]. apply first_free_run; [done | lia].
  - destruct (Z.ltb_spec (Z.of_nat c) (nr_bits m)) as [Hlt|Hge].
    + pose proof (sh_bits _ Hs) as Hmax. unfold MAX_BITS in Hmax.
      rewrite (proj2 (Z.eqb_neq _ _)) by (unfold FULL; lia). cbn [negb].
      exists m, (Z.of_nat c). split_and!; try done. right. split; [lia|]. unfold bits. by rewrite Nat2Z.id.
    + rewrite Z.eqb_refl. apply first_free_run; [done | lia].
Qed.

(** * The specification: a set of bit numbers *)

Inductive op : Type :=
| OReset | OSet (b : Z) | OClear (b : Z) | OSetNr (b k : Z) | OIsset (b : Z) | ONext (b : Z).

(** An operation on a map, with its result as a number. *)
Definition exec (o : op) (m : axmap) : option (axmap * Z) :=
  match o with
  | OReset => Some (axmap_reset m, 0)
  | OSet b => m' ← axmap_set m b; Some (m', 0)
  | OClear b => m' ← axmap_clear m b; Some (m', 0)
  | OSetNr b k => axmap_set_nr m b k
  | OIsset b => r ← axmap_isset m b; Some (m, Z.b2z r)
  | ONext b => axmap_next_free m b
  end.

Fixpoint exec_all (ops : list op) (m : axmap) : option (axmap * list Z) :=
  match ops with
  | [] => Some (m, [])
  | o :: ops' => '(m', r) ← exec o m; '(m'', rs) ← exec_all ops' m'; Some (m'', r :: rs)
  end.

(** What each operation does to the set of bits of a map of [n] bits. *)
Definition effect (o : op) (X : gset Z) : gset Z :=
  match o with
  | OReset => ∅
  | OSet b => {[b]} ∪ X
  | OClear b => X ∖ {[b]}
  | OSetNr b k => list_to_set (seqZ b k) ∪ X
  | OIsset _ | ONext _ => X
  end.

(** The calls the theorem is about.  This restricts the program: it also calls the bitmap with
    ranges that are partly set (mark_random_map), ranges past the end and bit numbers from [n]
    on, where axmap.c miscounts (line 274), sets and counts bits past the end (line 265) or reads
    past the end of a level (line 327): [set_nr_leaves_gap], [set_nr_counts_twice],
    [set_nr_past_end] and [isset_end_out_of_bounds]. *)
Definition legal (n : Z) (o : op) (X : gset Z) : Prop :=
  match o with
  | OReset => True
  | OSet b | OClear b | OIsset b | ONext b => 0 <= b < n
  | OSetNr b k => (0 <= b /\ 0 < k < 2 ^ 32 /\ b + k <= n) /\ list_to_set (seqZ b k) ## X
  end.

Definition answer (n : Z) (o : op) (X : gset Z) (r : Z) : Prop :=
  match o with
  | OReset | OSet _ | OClear _ => r = 0
  | OSetNr _ k => r = k
  | OIsset b => r = Z.b2z (bool_decide (b ∈ X))
  | ONext _ => (0 <= r < n /\ r ∉ X) \/ (r = FULL /\ forall c, 0 <= c < n -> c ∈ X)
  end.

Fixpoint legal_all (n : Z) (ops : list op) (X : gset Z) : Prop :=
  match ops with
  | [] => True
  | o :: ops' => legal n o X /\ legal_all n ops' (effect o X)
  end.

Fixpoint answers (n : Z) (ops : list op) (X : gset Z) (rs : list Z) : Prop :=
  match ops, rs with
  | [], [] => True
  | o :: ops', r :: rs' => answer n o X r /\ answers n ops' (effect o X) rs'
  | _, _ => False
  end.

(** A map of [n] bits represents a set. *)
Record represents (n : Z) (m : axmap) (X : gset Z) : Prop := {
  rp_ok : axmap_ok m;
  rp_bits : nr_bits m = n;
  rp_set : forall b, 0 <= b -> bits m b = bool_decide (b ∈ X)
}.

Lemma new_represents n : 0 <= n <= MAX_BITS -> represents n (axmap_new n) ∅.
Proof.
  intros Hn. destruct (new_ok n Hn) as (H1 & H2 & H3). constructor; [done | done|]. intros b _. by rewrite H3.
Qed.

Lemma represents_in n m X b : represents n m X -> 0 <= b -> bits m b = true <-> b ∈ X.
Proof. intros [_ _ H] Hb. rewrite H by done. apply bool_decide_eq_true. Qed.

Lemma represents_out n m X b : represents n m X -> 0 <= b -> bits m b = false <-> b ∉ X.
Proof. intros [_ _ H] Hb. rewrite H by done. apply bool_decide_eq_false. Qed.

(** A map whose bits are those of [m], changed as a set is. *)
Lemma represents_change n m m' X X' :
  represents n m X -> axmap_ok m' -> nr_bits m' = nr_bits m ->
  (forall b, 0 <= b -> bits m' b = true <-> b ∈ X') -> represents n m' X'.
Proof.
  intros [_ H2 _] Hok Hn Hb. constructor; [done | congruence|]. intros b H. specialize (Hb b H).
  destruct (bits m' b); symmetry; [apply bool_decide_eq_true | apply bool_decide_eq_false];
    [by apply Hb | intros Hx; by apply Hb in Hx].
Qed.

Lemma search_answer n m X b res :
  represents n m X -> search_ok m res ->
  exists m' r, res = Some (m', r) /\ represents n m' X /\ answer n (ONext b) X r.
Proof.
  intros HR (m' & r & -> & Hok & Hn & Hl & Hres). pose proof HR as [_ En _]. exists m', r. split; [done|]. split.
  - apply (represents_change n m m' X X HR Hok Hn). intros c Hc. unfold bits. rewrite Hl.
    by apply (represents_in n).
  - destruct Hres as [[-> Hall]|[Hr Hb]]; [right | left]; rewrite En in *; (split; [done|]).
    + intros c Hc. apply (represents_in n m); [done | lia|]. by apply Hall.
    + apply (represents_out n m); [done | lia | done].
Qed.

(** One operation of the map is one operation of the set. *)
Lemma exec_sim n m X o :
  represents n m X -> legal n o X ->
  exists m' r, exec o m = Some (m', r) /\ represents n m' (effect o X) /\ answer n o X r.
Proof.
  intros HR HL. pose proof HR as [Hok Hn _]. destruct o as [|b|b|b k|b|b]; simpl in HL; cbn [exec effect answer].
  - destruct (reset_ok m (proj1 Hok)) as [H1 H2]. eexists _, _. split; [reflexivity|]. split; [|done].
    apply (represents_change n m _ X ∅ HR H1 eq_refl). intros b _. rewrite H2. split; [done | set_solver].
  - destruct (set_ok m b Hok ltac:(lia)) as (m' & -> & H1 & H2 & H3). eexists _, _. split; [reflexivity|].
    split; [|done]. apply (represents_change n m _ X _ HR H1 H2). intros c Hc.
    rewrite H3, orb_true_iff, Z.eqb_eq, (represents_in n m X) by done. set_solver.
  - destruct (clear_ok m b Hok ltac:(lia)) as (m' & -> & H1 & H2 & H3). eexists _, _. split; [reflexivity|].
    split; [|done]. apply (represents_change n m _ X _ HR H1 H2). intros c Hc.
    rewrite H3, andb_true_iff, negb_true_iff, Z.eqb_neq, (represents_in n m X) by done. set_solver.
  - destruct HL as [(Hb & Hk & Hfit) Hdis].
    destruct (set_nr_run (S (Z.to_nat k)) m b k 0 Hok) as (m' & Hrun & H1 & H2 & H3); try lia.
    { intros c Hc. apply (represents_out n m X); [done | lia|]. intros Hx. apply (Hdis c); [|done].
      apply elem_of_list_to_set, elem_of_seqZ. lia. }
    exists m', k. split; [exact Hrun|]. split; [|done]. apply (represents_change n m _ X _ HR H1 H2).
    intros c Hc. rewrite H3, orb_true_iff, (represents_in n m X) by done.
    rewrite elem_of_union, elem_of_list_to_set, elem_of_seqZ. unfold in_rng. rewrite andb_true_iff, Z.leb_le, Z.ltb_lt. tauto.
  - rewrite isset_run by (apply Hok || lia). eexists _, _. split; [reflexivity|]. split; [done|].
    by rewrite (rp_set _ _ _ HR) by lia.
  - apply (search_answer n m X b); [done|]. apply next_free_run; [done | lia].
Qed.

Lemma exec_all_sim n ops : forall m X,
  represents n m X -> legal_all n ops X ->
  exists m' rs, exec_all ops m = Some (m', rs) /\ answers n ops X rs.
Proof.
  induction ops as [|o ops IH]; intros m X HR HL; [by exists m, []|]. destruct HL as [H1 H2].
  destruct (exec_sim n m X o HR H1) as (m1 & r & Hrun & HR1 & Ha). cbn [exec_all]. rewrite Hrun.
  destruct (IH m1 _ HR1 H2) as (m2 & rs & Hrs & Has). exists m2, (r :: rs).
  cbn [mbind option_bind]. cbv beta iota. by rewrite Hrs.
Qed.

(** C9: the layered bitmap of src/fio/lib/axmap.c implements a set of bit numbers.
    On a map that [axmap_new] made for [n] bits (up to [MAX_BITS]), every sequence
    of reset, set, clear, set of a range that is free and ends below [n], test and search
    for a free bit, all at bit numbers below [n], runs without an access outside a level or a failed assertion, and
    every result is the one of the set: a test tells membership, a range reports
    all its bits as set, and a search returns a number below [n] that is not in
    the set, or [-1] only when all of them are. *)
Theorem axmap_refines n ops :
  0 <= n <= MAX_BITS -> legal_all n ops ∅ ->
  exists m rs, exec_all ops (axmap_new n) = Some (m, rs) /\ answers n ops ∅ rs.
Proof. intros Hn HL. apply exec_all_sim; [by apply new_represents | done]. Qed.

Definition sample_ops : list op :=
  [OSet 3; OSetNr 4 96; OIsset 99; OIsset 100; OClear 50; ONext 3; OReset; OSetNr 0 130; ONext 7].

Lemma axmap_refines_witness :
  legal_all 130 sample_ops ∅ /\
  exists m rs, exec_all sample_ops (axmap_new 130) = Some (m, rs) /\ answers 130 sample_ops ∅ rs.
Proof.
  assert (legal_all 130 sample_ops ∅) as H.
  { cbn [legal_all sample_ops legal]. split_and!; try lia; try done;
      (eapply bool_decide_unpack; vm_compute; exact I). }
  split; [exact H|]. apply axmap_refines; [unfold MAX_BITS; lia | exact H].
Defined.

(** ** The guard of axmap_isset *)

Lemma end_bit_clear m k :
  shape m -> (64 | nr_bits m) -> forall al,
  levels m !! S k = Some al -> lbit (al_map al) (Z.to_nat (nr_bits m) / 64 ^ S k) = false.
Proof.
  intros Hs Hdiv. pose proof (sh_levels _ Hs) as Hok. pose proof (sh_bits _ Hs) as Hb.
  induction k as [|k IH]; intros al Hal;
    (match type of Hal with levels _ !! S ?p = _ => destruct (lookup_lt_is_Some_2 (levels m) p) as [a Ha] end;
     [apply lookup_lt_Some in Hal; lia|]); pose proof (levels_parent _ _ _ _ _ Hok Ha Hal) as Hp.
  - apply (po_rest _ _ Hp). rewrite <- (bottom_lookup _ _ Ha), (sh_bottom _ Hs).
    change (64 ^ 1)%nat with 64%nat. destruct Hdiv as [q Hq]. rewrite Hq.
    rewrite Z2Nat.inj_mul by lia. change (Z.to_nat 64) with 64%nat. rewrite Nat.div_mul by lia.
    destruct (split64 (Z.to_nat q) 63 ltac:(lia)) as [-> _]. done.
  - specialize (IH a Ha). rewrite div_pow_S. set (x := (Z.to_nat (nr_bits m) / 64 ^ S k)%nat) in *.
    destruct (decide (x / 64 < length (al_map a))%nat) as [Hlt|Hge]; [|apply (po_rest _ _ Hp); lia].
    rewrite (po_full _ _ Hp) by done. apply Z.eqb_neq. intros E. by rewrite (full_bits _ _ E) in IH.
Qed.

Lemma isset_end_walk m k :
  shape m -> (64 | nr_bits m) -> (k <= length (levels m))%nat -> (0 < k)%nat ->
  topdown axmap_isset_fn k (levels m) (nr_bits m) tt = None.
Proof.
  intros Hs Hdiv. pose proof (sh_bits _ Hs) as Hb. induction k as [|k IH]; intros Hk H0; [lia|].
  destruct (lookup_lt_is_Some_2 (levels m) k Hk) as [al Hal].
  rewrite <- (Z2Nat.id (nr_bits m)) by lia.
  destruct (decide (Z.to_nat (nr_bits m) / 64 ^ k / 64 < length (al_map al))%nat) as [Hin|Hout].
  - rewrite (topdown_step _ _ _ _ Hal Hin). destruct k as [|k].
    + exfalso. change (64 ^ 0)%nat with 1%nat in Hin. rewrite Nat.div_1_r in Hin.
      rewrite <- (bottom_lookup _ _ Hal), (sh_bottom _ Hs) in Hin. destruct Hdiv as [q Hq]. rewrite Hq in Hin.
      rewrite Z2Nat.inj_mul in Hin by lia. change (Z.to_nat 64) with 64%nat in Hin.
      rewrite Nat.div_mul in Hin by lia. destruct (split64 (Z.to_nat q) 63 ltac:(lia)) as [E _]. lia.
    + rewrite (end_bit_clear m k Hs Hdiv al Hal). rewrite Z2Nat.id by lia. apply IH; lia.
  - cbn [topdown]. rewrite Hal. cbn [mbind option_bind]. rewrite ulog64_nat. unfold at_index, axmap_isset_fn, rd_word.
    rewrite (proj1 (index_split _)), Nat2Z.id, lookup_ge_None_2 by lia. done.
Qed.

Lemma exec_all_shape n ops : forall m X m' rs,
  represents n m X -> legal_all n ops X -> exec_all ops m = Some (m', rs) -> shape m' /\ nr_bits m' = n.
Proof.
  induction ops as [|o ops IH]; intros m X m' rs HR HL Hrun; [simplify_eq/=; by destruct HR as [[] ? _]|].
  destruct HL as [H1 H2]. destruct (exec_sim n m X o HR H1) as (m1 & r & E & HR1 & _).
  cbn [exec_all] in Hrun. rewrite E in Hrun. cbn [mbind option_bind] in Hrun. cbv beta iota in Hrun.
  destruct (exec_all ops m1) as [[m2 rs2]|] eqn:E2; [|done]. simplify_eq/=. by eapply IH.
Qed.

(** The guard of [axmap_isset] admits the bit number [nr_bits].  On a map whose
    number of bits is a multiple of 64, whatever has been set in it, the test of that
    number reads a word past the end of a level. *)
Theorem isset_end_out_of_bounds n ops m rs :
  0 <= n <= MAX_BITS -> (64 | n) -> legal_all n ops ∅ -> exec_all ops (axmap_new n) = Some (m, rs) ->
  axmap_isset m n = None.
Proof.
  intros Hn Hdiv HL Hrun. destruct (exec_all_shape n ops _ _ _ _ (new_represents n Hn) HL Hrun) as [Hs <-].
  unfold axmap_isset. rewrite Z.leb_refl. unfold axmap_handler_topdown, nr_levels.
  rewrite isset_end_walk; [done | done | done | lia|].
  pose proof (shape_nonempty _ Hs). destruct (levels m); [done | simpl; lia].
Qed.

Lemma isset_end_out_of_bounds_witness :
  match exec_all [OSetNr 0 128] (axmap_new 128) with
  | Some (m, _) => axmap_isset m 128 = None
  | None => False
  end.
Proof.
  destruct (exec_all [OSetNr 0 128] (axmap_new 128)) as [[m rs]|] eqn:E; [|vm_compute in E; discriminate].
  apply (isset_end_out_of_bounds 128 [OSetNr 0 128] m rs); [unfold MAX_BITS; lia | by exists 2 | | exact E].
  cbn [legal_all legal]. split_and!; lia || done.
Defined.

(** ** Ranges that are not free *)

(** The bits of a map from 0 on, by [axmap_isset]. *)
Definition issets (m : axmap) (n : Z) : list (option bool) := axmap_isset m <$> seqZ 0 n.

(** Over a range with bit 2 set already, [axmap_set_nr] sets the bits on both sides of it
    and returns their number, 3, although the comment of [axmap_set_fn] says that only
    contiguous regions are set. *)
Lemma set_nr_leaves_gap :
  (m ← axmap_set (axmap_new 64) 2; '(m', r) ← axmap_set_nr m 0 4; Some (r, issets m' 5)) =
  Some (3, [Some true; Some true; Some true; Some true; Some false]).
Proof. vm_compute. reflexivity. Qed.

(** Over 16 bits of 40 that are set already, the test of the loop in [__axmap_set] passes
    and the bits set are counted twice: 48 for a range of 40. *)
Lemma set_nr_counts_twice :
  ('(m, _) ← axmap_set_nr (axmap_new 64) 10 16; '(_, r) ← axmap_set_nr m 0 40; Some r) = Some 48.
Proof. vm_compute. reflexivity. Qed.

(** A range that reaches past the end of the map is set and counted in full, as the bits are
    taken from [data->nr_bits] and not from the clipped [nr_bits]. *)
Lemma set_nr_past_end :
  ('(m, r) ← axmap_set_nr (axmap_new 10) 8 4; Some (r, bits m 11)) = Some (4, true).
Proof. vm_compute. reflexivity. Qed.

(** The comment of [axmap_next_free] asks for the next free bit after the given one; the
    search restarts at the first free bit of the word. *)
Lemma next_free_goes_back :
  (m ← axmap_set (axmap_new 64) 0; m ← axmap_set m 1; m ← axmap_set m 5;
   '(_, r) ← axmap_next_free m 5; Some r) = Some 2.
Proof. vm_compute. reflexivity. Qed.
