(* ===== verification/Smalloc.v ===== *)
(** The shared memory allocator of src/fio/smalloc.c: pools of 32 byte blocks with
    a bitmap of the busy ones, headers and red zones around every allocation.

    A state has the pools, the pool tried first and the memory of the pools'
    block areas.  Every pool operation runs under the pool's mutex from before its
    first access to the bitmap to after its last one, so it is one step here. *)
From S2P Require Import Prelude Mem Axmap.

Definition SMALLOC_BPB : Z := 32.
Definition SMALLOC_BPI : Z := 32.
Definition SMALLOC_BPL : Z := SMALLOC_BPB * SMALLOC_BPI.
Definition INITIAL_SIZE : Z := 16 * 1024 * 1024.
Definition INITIAL_POOLS : nat := 8.
Definition MAX_POOLS : nat := 16.
Definition SMALLOC_PRE_RED : Z := 0xdeadbeef.
Definition SMALLOC_POST_RED : Z := 0x5aa55aa5.
Definition int_mask : Z := 3.

(** [-1U]. *)
Definition ONES32 : Z := 2 ^ 32 - 1.

Record pool : Type := mkPool {
  p_map : Z;                   (* address of the blocks *)
  bitmap : list Z;
  free_blocks : Z;
  nr_blocks : Z;
  next_non_full : Z;
  mmap_size : Z
}.

(** [struct block_hdr]: size at 0, prered at 8, padded to 16 bytes. *)
Definition sizeof_block_hdr : Z := 16.

Record smst : Type := mkSm { mp : list pool; last_pool : Z; s_mem : mem }.

Definition set_bitmap (bm : list Z) (p : pool) : pool :=
  mkPool (p_map p) bm (free_blocks p) (nr_blocks p) (next_non_full p) (mmap_size p).
Definition set_free_blocks (n : Z) (p : pool) : pool :=
  mkPool (p_map p) (bitmap p) n (nr_blocks p) (next_non_full p) (mmap_size p).
Definition set_next_non_full (i : Z) (p : pool) : pool :=
  mkPool (p_map p) (bitmap p) (free_blocks p) (nr_blocks p) i (mmap_size p).
Definition set_pool (k : nat) (p : pool) (s : smst) : smst := mkSm (<[k := p]> (mp s)) (last_pool s) (s_mem s).
Definition set_last_pool (i : Z) (s : smst) : smst := mkSm (mp s) i (s_mem s).
Definition set_mem (m : mem) (s : smst) : smst := mkSm (mp s) (last_pool s) m.

(** A failed assertion. *)
Definition assert_fail {S A} : M S A := exit_ 134.
Definition assert_ {S} (b : bool) : M S unit := if b then mret tt else assert_fail.
Definition no_fuel {S A} : M S A := fun s => Diverge s.

Definition on_bitmap {A} (m : M (list Z) A) : M pool A := zoom bitmap set_bitmap m.

(** An operation on pool [k]. *)
Definition on_pool {A} (k : nat) (m : M pool A) : M smst A := fun s =>
  match mp s !! k with
  | None => Undef s
  | Some p => zoom (fun _ => p) (set_pool k) m s
  end.

Definition pool_size (p : pool) : Z := u32 (nr_blocks p * SMALLOC_BPL).

Definition ptr_valid (p : pool) (ptr : Z) : bool := (p_map p <=? ptr) && (ptr <? p_map p + pool_size p).

Definition size_to_blocks (size : Z) : Z := u64 (size + SMALLOC_BPB - 1) / SMALLOC_BPB.

(** * The bitmap *)

(** The mask of a range inside a word; shifts by 32 or more are undefined. *)
Definition word_mask (this_blocks idx : Z) : option Z :=
  if this_blocks =? SMALLOC_BPI then Some ONES32
  else if (this_blocks <? 32) && (idx <? 32)
       then Some (u32 (Z.shiftl (u32 (Z.shiftl 1 this_blocks) - 1) idx)) else None.

Definition rd_bitmap (i : Z) : M (list Z) Z := fun bm =>
  match bm !! Z.to_nat i with Some w => Ret w bm | None => Undef bm end.

Section Iter.
(** [func] on a word of the bitmap: the word after it and the result; no value
    when its assertion fails. *)
Context (func : Z -> Z -> option (Z * bool)) (nr : Z).

Fixpoint blocks_iter (fuel : nat) (pool_idx idx n : Z) : M (list Z) bool :=
  if n =? 0 then mret true else
  match fuel with
  | O => no_fuel
  | S fuel' =>
      if nr <=? pool_idx then mret false else
      w ← rd_bitmap pool_idx;
      let this_blocks := u32 n in
      let cut := SMALLOC_BPI <? u32 (this_blocks + idx) in
      let this_blocks := if cut then u32 (SMALLOC_BPI - idx) else this_blocks in
      let idx := if cut then u32 (SMALLOC_BPI - this_blocks) else idx in
      match word_mask this_blocks idx with
      | None => undef
      | Some mask =>
          match func w mask with
          | None => assert_fail
          | Some (w', r) =>
              modify (<[Z.to_nat pool_idx := w']>);;
              if negb r then mret false
              else blocks_iter fuel' (u32 (pool_idx + 1)) 0 (u64 (n - this_blocks))
          end
      end
  end.
End Iter.

Definition mask_cmp (map mask : Z) : option (Z * bool) := Some (map, Z.land map mask =? 0).
Definition mask_clear (map mask : Z) : option (Z * bool) :=
  if Z.land map mask =? mask then Some (Z.land map (u32 (Z.lnot mask)), true) else None.
Definition mask_set (map mask : Z) : option (Z * bool) :=
  if Z.land map mask =? 0 then Some (Z.lor map mask, true) else None.

Definition iter_pool (func : Z -> Z -> option (Z * bool)) (pool_idx idx n : Z) : M pool bool :=
  p ← get_st; on_bitmap (blocks_iter func (nr_blocks p) (S (Z.to_nat n)) pool_idx idx n).

Definition blocks_free (pool_idx idx n : Z) : M pool bool := iter_pool mask_cmp pool_idx idx n.
Definition set_blocks (pool_idx idx n : Z) : M pool unit := iter_pool mask_set pool_idx idx n;; mret tt.
Definition clear_blocks (pool_idx idx n : Z) : M pool unit := iter_pool mask_clear pool_idx idx n;; mret tt.

(** An [unsigned int] converted to [int]. *)
Definition s32 (w : Z) : Z := if w <? 2 ^ 31 then w else w - 2 ^ 32.

(** The shift is of a signed number, and the result is extended to 64 bits for
    [ffz]; no value when the assertion fails. *)
Definition find_next_zero (word start : Z) : option Z :=
  if word =? ONES32 then None
  else Some (ffz (u64 (Z.shiftr (s32 word) start)) + start).

(** * Pools *)

(** [add_pool], with the results of mmap and fio_mutex_init. *)
Definition add_pool (alloc_size : Z) (mapped : option Z) (lock : bool) : M smst bool := fun s =>
  if (length (mp s) =? MAX_POOLS)%nat then Ret false s else
  let alloc_size := u32 (alloc_size + 4) in
  let alloc_size := u32 (alloc_size + sizeof_block_hdr) in
  let alloc_size := if alloc_size <? INITIAL_SIZE then INITIAL_SIZE else alloc_size in
  let alloc_size := u32 (Z.land (alloc_size + SMALLOC_BPL - 1) (Z.lnot (SMALLOC_BPL - 1))) in
  let bitmap_blocks := alloc_size / SMALLOC_BPL in
  let alloc_size := u32 (alloc_size + bitmap_blocks * 4) in
  match mapped with
  | None => Ret false s
  | Some ptr =>
      if negb lock then Ret false s else
      Ret true (mkSm (mp s ++ [mkPool ptr (replicate (Z.to_nat bitmap_blocks) 0)
                                 (bitmap_blocks * SMALLOC_BPB) bitmap_blocks 0 alloc_size])
                  (last_pool s) (s_mem s))
  end.

Fixpoint sinit_loop (size : Z) (maps : list (option Z * bool)) (i : nat) : M smst nat :=
  match maps with
  | [] => mret i
  | (mapped, lock) :: maps' =>
      ret ← add_pool size mapped lock;
      if negb (ret : bool) then mret i else sinit_loop size maps' (S i)
  end.

(** [sinit], with what each of its calls of mmap and fio_mutex_init returns (a list
    shorter than eight ends with a failure). *)
Definition sinit (smalloc_pool_size : Z) (maps : list (option Z * bool)) : M smst unit :=
  i ← sinit_loop smalloc_pool_size (take INITIAL_POOLS maps) 0;
  assert_ (negb (i =? 0)%nat).

Definition start_state : smst := mkSm [] 0 ∅.

(** * Memory of the blocks *)

Definition in_blocks (s : smst) (a n : Z) : bool :=
  existsb (fun p => (p_map p <=? a) && (a + n <=? p_map p + nr_blocks p * SMALLOC_BPL)) (mp s).

Definition sm_write (a : Z) (bs : bytes) : M smst unit :=
  s ← get_st;
  guard_ub (in_blocks s a (Z.of_nat (length bs)));;
  modify (set_mem (mwrite (s_mem s) a bs)).

Definition sm_rd64 (a : Z) : M smst Z :=
  s ← get_st; guard_ub (in_blocks s a 8);; mret (rd64 (s_mem s) a).
Definition sm_rd32 (a : Z) : M smst Z :=
  s ← get_st; guard_ub (in_blocks s a 4);; mret (rd32 (s_mem s) a).

(** [PTR_ALIGN]. *)
Definition PTR_ALIGN (ptr mask : Z) : Z := Z.land (u64 (ptr + mask)) (u64 (Z.lnot mask)).

Definition postred_ptr (hdr : Z) : M smst Z :=
  size ← sm_rd64 hdr;
  mret (PTR_ALIGN (u64 (hdr + size - 4)) int_mask).

Definition fill_redzone (hdr : Z) : M smst unit :=
  postred ← postred_ptr hdr;
  sm_write (hdr + 8) (le32 SMALLOC_PRE_RED);;
  sm_write postred (le32 SMALLOC_POST_RED).

Definition sfree_check_redzone (hdr : Z) : M smst unit :=
  postred ← postred_ptr hdr;
  pre ← sm_rd32 (hdr + 8);
  assert_ (pre =? SMALLOC_PRE_RED);;
  post ← sm_rd32 postred;
  assert_ (post =? SMALLOC_POST_RED).

(** * Free *)

Definition clear_range (i idx n : Z) : M pool unit :=
  clear_blocks i idx n;;
  modify (fun p => if i <? next_non_full p then set_next_non_full i p else p);;
  modify (fun p => set_free_blocks (u64 (free_blocks p + n)) p).

Definition sfree_pool (k : nat) (ptr : Z) : M smst unit :=
  if ptr =? 0 then mret tt else
  let ptr := u64 (ptr - sizeof_block_hdr) in
  p ← on_pool k get_st;
  assert_ (ptr_valid p ptr);;
  sfree_check_redzone ptr;;
  let offset := u64 (ptr - p_map p) in
  let i := u32 (offset / SMALLOC_BPL) in
  let idx := u32 (offset mod SMALLOC_BPL / SMALLOC_BPB) in
  size ← sm_rd64 ptr;
  on_pool k (clear_range i idx (size_to_blocks size)).

(** The first pool the pointer is in. *)
Fixpoint find_pool (ptr : Z) (ps : list pool) (i : nat) : option nat :=
  match ps with
  | [] => None
  | p :: ps' => if ptr_valid p ptr then Some i else find_pool ptr ps' (S i)
  end.

Definition sfree (ptr : Z) : M smst unit :=
  if ptr =? 0 then mret tt else
  s ← get_st;
  match find_pool ptr (mp s) 0 with
  | Some k => sfree_pool k ptr
  | None => mret tt
  end.

(** * Allocation *)

(** [while (idx >= SMALLOC_BPI) { i++; idx -= SMALLOC_BPI; }] *)
Fixpoint skip_words (fuel : nat) (i idx : Z) : Z :=
  match fuel with
  | O => i
  | S fuel' => if SMALLOC_BPI <=? idx then skip_words fuel' (u32 (i + 1)) (u32 (idx - SMALLOC_BPI)) else i
  end.

(** The loop of [__smalloc_pool]; the result is [i] and [offset]. *)
Fixpoint scan (fuel : nat) (n i last_idx : Z) : M pool (Z * Z) :=
  p ← get_st;
  if nr_blocks p <=? i then mret (i, ONES32) else
  match fuel with
  | O => no_fuel
  | S fuel' =>
      w ← on_bitmap (rd_bitmap i);
      if w =? ONES32 then
        let i := u32 (i + 1) in
        modify (set_next_non_full i);; scan fuel' n i 0
      else
        match find_next_zero w last_idx with
        | None => assert_fail
        | Some idx =>
            ok ← blocks_free i idx n;
            if negb (ok : bool) then
              let idx := u32 (idx + n) in
              if idx <? SMALLOC_BPI then scan fuel' n i idx
              else scan fuel' n (skip_words (Z.to_nat idx) i idx) 0
            else
              set_blocks i idx n;;
              mret (i, u32 (i * SMALLOC_BPL + u32 (idx * SMALLOC_BPB)))
        end
  end.

Definition scan_fuel (p : pool) : nat := 33 * length (bitmap p).

Definition smalloc_pool_ (size : Z) : M pool (option Z) :=
  p ← get_st;
  let n := size_to_blocks size in
  if free_blocks p <? n then mret None else
  '(i, offset) ← scan (scan_fuel p) n (u32 (next_non_full p)) 0;
  p ← get_st;
  if i <? nr_blocks p then
    modify (fun p => set_free_blocks (u64 (free_blocks p - n)) p);;
    mret (Some (p_map p + offset))
  else mret None.

Definition smalloc_pool (k : nat) (size : Z) : M smst (option Z) :=
  let alloc_size := u64 (size + sizeof_block_hdr) in
  let alloc_size := u64 (alloc_size + 4) in
  let alloc_size := Z.land (u64 (alloc_size + int_mask)) (u64 (Z.lnot int_mask)) in
  r ← on_pool k (smalloc_pool_ alloc_size);
  match r with
  | None => mret None
  | Some ptr =>
      sm_write ptr (le64 alloc_size);;
      fill_redzone ptr;;
      let ptr := ptr + sizeof_block_hdr in
      sm_write ptr (replicate (Z.to_nat size) NUL);;
      mret (Some ptr)
  end.

(** [for (; i < end_pool; i++)]. *)
Fixpoint try_pools (fuel : nat) (size : Z) (i end_pool : nat) : M smst (option Z) :=
  match fuel with
  | O => mret None
  | S fuel' =>
      if (end_pool <=? i)%nat then mret None else
      r ← smalloc_pool i size;
      match r with
      | Some ptr => modify (set_last_pool (Z.of_nat i));; mret (Some ptr)
      | None => try_pools fuel' size (S i) end_pool
      end
  end.

Definition smalloc (size : Z) : M smst (option Z) :=
  if negb (size =? u32 size) then mret None else
  s ← get_st;
  let i := Z.to_nat (last_pool s) in
  let end_pool := length (mp s) in
  r ← try_pools (end_pool - i) size i end_pool;
  match r with
  | Some ptr => mret (Some ptr)
  | None =>
      if last_pool s =? 0 then mret None else
      modify (set_last_pool 0);;
      try_pools i size 0 i
  end.

Definition scalloc (nmemb size : Z) : M smst (option Z) := smalloc (u64 (nmemb * size)).

(** [smalloc_strdup] of the characters of a C string. *)
Definition smalloc_strdup (str : bytes) : M smst (option Z) :=
  r ← smalloc (u64 (Z.of_nat (length str) + 1));
  match r with
  | None => mret None
  | Some ptr => sm_write ptr (str ++ [NUL]);; mret (Some ptr)
  end.

(** * Bits of the bitmap *)

Ltac dlia := Z.div_mod_to_equations; lia.

Lemma ones32_bits i : 0 <= i < 32 -> Z.testbit ONES32 i = true.
Proof. intros Hi. change ONES32 with (Z.ones 32). apply Z.ones_spec_low. lia. Qed.

Lemma fits32_high w i : fits 32 w -> 32 <= i -> Z.testbit w i = false.
Proof.
  intros [H0 H1] Hi. destruct (decide (w = 0)) as [->|Hne]; [apply Z.testbit_0_l|].
  apply Z.bits_above_log2; [done|]. apply Z.log2_lt_pow2 in H1; lia.
Qed.

Lemma word32_ext a b :
  fits 32 a -> fits 32 b -> (forall i, 0 <= i < 32 -> Z.testbit a i = Z.testbit b i) -> a = b.
Proof.
  intros Ha Hb H. apply Z.bits_inj'. intros i Hi. destruct (decide (i < 32)) as [Hlt|Hge].
  - apply H. lia.
  - rewrite !fits32_high by (done || lia). done.
Qed.

Lemma land_fits32 a b : fits 32 a -> fits 32 (Z.land a b).
Proof.
  intros Ha. assert (Z.land a b = u32 (Z.land a b)) as ->; [|apply u32_fits].
  apply Z.bits_inj'. intros i Hi. unfold u32. destruct (decide (i < 32)) as [Hlt|Hge].
  - by rewrite Z.mod_pow2_bits_low by lia.
  - rewrite Z.mod_pow2_bits_high, Z.land_spec, (fits32_high a) by (done || lia). done.
Qed.

Lemma lor_fits32 a b : fits 32 a -> fits 32 b -> fits 32 (Z.lor a b).
Proof.
  intros Ha Hb. assert (Z.lor a b = u32 (Z.lor a b)) as ->; [|apply u32_fits].
  apply Z.bits_inj'. intros i Hi. unfold u32. destruct (decide (i < 32)) as [Hlt|Hge].
  - by rewrite Z.mod_pow2_bits_low by lia.
  - rewrite Z.mod_pow2_bits_high, Z.lor_spec, (fits32_high a), (fits32_high b) by (done || lia). done.
Qed.

(** The mask of [t] bits from [idx] on. *)
Definition span (idx t i : Z) : bool := (idx <=? i) && (i <? idx + t).

Lemma word_mask_spec t idx :
  0 <= idx -> 1 <= t -> idx + t <= 32 ->
  exists mask, word_mask t idx = Some mask /\ fits 32 mask /\
    forall i, 0 <= i < 32 -> Z.testbit mask i = span idx t i.
Proof.
  intros Hi Ht Hs. unfold word_mask, SMALLOC_BPI. destruct (Z.eqb_spec t 32) as [->|Hne].
  - exists ONES32. split; [done|]. split; [split; [discriminate | reflexivity]|]. intros i Hb.
    rewrite ones32_bits by done. unfold span. assert (idx = 0) as -> by lia. lia.
  - rewrite (proj2 (Z.ltb_lt t 32)), (proj2 (Z.ltb_lt idx 32)) by lia. cbn [andb].
    eexists. split; [reflexivity|]. split; [apply u32_fits|]. intros i Hb.
    unfold u32 at 1. rewrite Z.mod_pow2_bits_low by lia. rewrite Z.shiftl_1_l.
    rewrite u32_small by (split; [apply Z.pow_nonneg; lia | apply Z.pow_lt_mono_r; lia]).
    replace (2 ^ t - 1) with (Z.ones t) by (rewrite Z.ones_equiv; lia).
    rewrite Z.shiftl_spec by lia. unfold span. destruct (decide (i < idx)).
    + rewrite Z.testbit_neg_r by lia. lia.
    + destruct (decide (i < idx + t)); [rewrite Z.ones_spec_low by lia | rewrite Z.ones_spec_high by lia]; lia.
Qed.

(** Block [k] is busy. *)
Definition busy (bm : list Z) (k : Z) : bool := Z.testbit (nth (Z.to_nat (k / 32)) bm 0) (k mod 32).

Definition words_ok (bm : list Z) : Prop := Forall (fits 32) bm /\ Z.of_nat (length bm) < 2 ^ 22.

Lemma nth_word bm (i : Z) :
  0 <= i < Z.of_nat (length bm) -> bm !! Z.to_nat i = Some (nth (Z.to_nat i) bm 0).
Proof. intros H. destruct (nth_lookup_or_length bm (Z.to_nat i) 0); [done | lia]. Qed.

Lemma nth_word_fits bm i : Forall (fits 32) bm -> fits 32 (nth i bm 0).
Proof.
  intros H. rewrite nth_lookup. destruct (bm !! i) as [w|] eqn:E; simpl; [|by split].
  by eapply Forall_lookup_1.
Qed.

Lemma busy_insert bm i w k :
  0 <= i < Z.of_nat (length bm) -> 0 <= k ->
  busy (<[Z.to_nat i := w]> bm) k = if decide (k / 32 = i) then Z.testbit w (k mod 32) else busy bm k.
Proof.
  intros Hi Hk. unfold busy. rewrite !nth_lookup. destruct (decide (k / 32 = i)) as [E|E].
  - rewrite E, list_lookup_insert_eq by lia. done.
  - rewrite list_lookup_insert_ne; [done|]. dlia.
Qed.

(** ** One step of blocks_iter *)

Section Step.
Context (func : Z -> Z -> option (Z * bool)) (bm : list Z) (pi idx n : Z).

Lemma iter_step fuel :
  words_ok bm -> 0 <= pi < Z.of_nat (length bm) -> 0 <= idx < 32 -> 0 < n < 2 ^ 30 ->
  let t := Z.min n (32 - idx) in
  exists mask, fits 32 mask /\ (forall i, 0 <= i < 32 -> Z.testbit mask i = span idx t i) /\
    blocks_iter func (Z.of_nat (length bm)) (S fuel) pi idx n bm =
    match func (nth (Z.to_nat pi) bm 0) mask with
    | None => Exit 134 bm
    | Some (w, r) => if (r : bool)
        then blocks_iter func (Z.of_nat (length bm)) fuel (pi + 1) 0 (n - t) (<[Z.to_nat pi := w]> bm)
        else Ret false (<[Z.to_nat pi := w]> bm)
    end.
Proof.
  intros [Hf Hl] Hpi Hidx Hn t.
  destruct (word_mask_spec t idx ltac:(lia) ltac:(lia) ltac:(lia)) as (mask & Hm & Hfit & Hbits).
  exists mask. split; [done|]. split; [done|]. cbn [blocks_iter].
  rewrite (proj2 (Z.eqb_neq n 0)), (proj2 (Z.leb_gt (Z.of_nat (length bm)) pi)) by lia.
  erewrite bind_Ret by (unfold rd_bitmap; rewrite nth_word by lia; reflexivity).
  unfold SMALLOC_BPI. rewrite (u32_small n), (u32_small (n + idx)), (u32_small (32 - idx)) by (unfold fits; lia).
  assert ((if 32 <? n + idx then 32 - idx else n) = t) as -> by (unfold t; destruct (Z.ltb_spec 32 (n + idx)); lia).
  assert ((if 32 <? n + idx then u32 (32 - t) else idx) = idx) as ->.
  { destruct (Z.ltb_spec 32 (n + idx)); [|done]. rewrite u32_small by (unfold fits; lia). unfold t. lia. }
  rewrite Hm. destruct (func (nth (Z.to_nat pi) bm 0) mask) as [[w r]|]; [|done].
  erewrite bind_Ret by reflexivity. rewrite u32_small, u64_small by (unfold fits; lia).
  destruct r; done.
Qed.
End Step.

(** The range of [n] blocks from word [pi], bit [idx] on. *)
Definition in_blk (k0 n k : Z) : bool := (k0 <=? k) && (k <? k0 + n).

(** Membership in a range, split at the first word. *)
Lemma range_split (Q : Z -> Prop) pi idx n :
  0 <= idx < 32 -> 0 < n ->
  let t := Z.min n (32 - idx) in
  (forall k, 32 * pi + idx <= k < 32 * pi + idx + n -> Q k) <->
  (forall i, 0 <= i < 32 -> span idx t i = true -> Q (32 * pi + i)) /\
  (forall k, 32 * (pi + 1) + 0 <= k < 32 * (pi + 1) + 0 + (n - t) -> Q k).
Proof.
  intros Hi Hn t. unfold span. split.
  - intros H. split; intros; apply H; lia.
  - intros [H1 H2] k Hk. destruct (decide (k < 32 * (pi + 1))) as [Hlt|Hge].
    + replace k with (32 * pi + (k - 32 * pi)) by lia. apply H1; lia.
    + apply H2. lia.
Qed.

Lemma busy_word bm pi i :
  0 <= pi -> 0 <= i < 32 -> busy bm (32 * pi + i) = Z.testbit (nth (Z.to_nat pi) bm 0) i.
Proof.
  intros Hp Hi. unfold busy. assert ((32 * pi + i) / 32 = pi) as -> by dlia.
  by assert ((32 * pi + i) mod 32 = i) as -> by dlia.
Qed.

(** ** What the three iterations do *)

Lemma iter_zero func nr fuel pi idx bm : blocks_iter func nr fuel pi idx 0 bm = Ret true bm.
Proof. by destruct fuel. Qed.

Lemma iter_end func bm fuel pi idx n :
  Z.of_nat (length bm) <= pi -> 0 < n ->
  blocks_iter func (Z.of_nat (length bm)) (S fuel) pi idx n bm = Ret false bm.
Proof.
  intros Hp Hn. cbn [blocks_iter]. rewrite (proj2 (Z.eqb_neq n 0)), (proj2 (Z.leb_le _ _)) by lia. done.
Qed.

Lemma land_mask_zero w mask idx t :
  fits 32 w -> (forall i, 0 <= i < 32 -> Z.testbit mask i = span idx t i) ->
  Z.land w mask = 0 <-> (forall i, 0 <= i < 32 -> span idx t i = true -> Z.testbit w i = false).
Proof.
  intros Hw Hm. split.
  - intros Hz i Hi Hs. assert (Z.testbit (Z.land w mask) i = false) as Hb by (rewrite Hz; apply Z.testbit_0_l).
    rewrite Z.land_spec, Hm, Hs, andb_true_r in Hb by done. done.
  - intros H. apply word32_ext; [by apply land_fits32 | by split|]. intros i Hi.
    rewrite Z.land_spec, Hm, Z.testbit_0_l by done. destruct (span idx t i) eqn:E; [by rewrite H | apply andb_false_r].
Qed.

Lemma land_mask_full w mask idx t :
  fits 32 mask -> (forall i, 0 <= i < 32 -> Z.testbit mask i = span idx t i) ->
  (forall i, 0 <= i < 32 -> span idx t i = true -> Z.testbit w i = true) -> Z.land w mask = mask.
Proof.
  intros Hf Hm H. apply word32_ext; [rewrite Z.land_comm; by apply land_fits32 | done|]. intros i Hi.
  rewrite Z.land_spec, Hm by done. destruct (span idx t i) eqn:E; [by rewrite H | apply andb_false_r].
Qed.

(** The test: all blocks of the range exist and are free. *)
Lemma iter_cmp bm fuel : forall pi idx n,
  words_ok bm -> 0 <= pi -> 0 <= idx < 32 -> 0 <= n < 2 ^ 30 -> n <= Z.of_nat fuel ->
  exists b, blocks_iter mask_cmp (Z.of_nat (length bm)) fuel pi idx n bm = Ret b bm /\
    (b = true <-> n = 0 \/
      32 * pi + idx + n <= 32 * Z.of_nat (length bm) /\
      forall k, 32 * pi + idx <= k < 32 * pi + idx + n -> busy bm k = false).
Proof.
  induction fuel as [|fuel IH]; intros pi idx n Hok Hpi Hidx Hn Hf.
  { assert (n = 0) as -> by lia. exists true. split; [done|]. split; [by left | done]. }
  destruct (decide (n = 0)) as [->|Hn0].
  { exists true. split; [apply iter_zero|]. split; [by left | done]. }
  destruct (decide (pi < Z.of_nat (length bm))) as [Hlt|Hge].
  2: { exists false. split; [apply iter_end; lia|]. split; [done | lia]. }
  destruct (iter_step mask_cmp bm pi idx n fuel Hok ltac:(lia) Hidx ltac:(lia)) as (mask & Hfit & Hbits & ->).
  set (t := Z.min n (32 - idx)) in *. cbn [mask_cmp]. rewrite list_insert_id by (apply nth_word; lia).
  pose proof (nth_word_fits bm (Z.to_nat pi) (proj1 Hok)) as Hw.
  pose proof (land_mask_zero _ mask idx t Hw Hbits) as Hz.
  assert ((forall k, 32 * pi + idx <= k < 32 * pi + idx + n -> busy bm k = false) <->
          Z.land (nth (Z.to_nat pi) bm 0) mask = 0 /\
          (forall k, 32 * (pi + 1) + 0 <= k < 32 * (pi + 1) + 0 + (n - t) -> busy bm k = false)) as Hsplit.
  { rewrite Hz, (range_split (fun k => busy bm k = false) pi idx n Hidx ltac:(lia)). fold t.
    split; intros [H1 H2]; (split; [|exact H2]); intros i Hi Hs; specialize (H1 i Hi Hs);
      by rewrite busy_word in * by lia. }
  destruct (Z.eqb_spec (Z.land (nth (Z.to_nat pi) bm 0) mask) 0) as [E|E].
  - destruct (IH (pi + 1) 0 (n - t) Hok ltac:(lia) ltac:(lia) ltac:(lia) ltac:(lia)) as (b & Hrun & Hb).
    exists b. split; [done|]. rewrite Hb, Hsplit. split.
    + intros [H|[H1 H2]]; right; (split; [unfold t in *; lia|]); (split; [done|]); [intros; lia | done].
    + intros [H|(H1 & _ & H2)]; [lia|]. destruct (decide (n - t = 0)); [by left | right].
      split; [unfold t in *; lia | done].
  - exists false. split; [done|]. rewrite Hsplit. split; [done|]. intros [H|(_ & H & _)]; [lia | done].
Qed.

(** Setting or clearing the range: [want] before, [negb want] after. *)
Lemma iter_write (want : bool) (func : Z -> Z -> option (Z * bool)) :
  (forall w mask idx t, fits 32 w -> fits 32 mask ->
     (forall i, 0 <= i < 32 -> Z.testbit mask i = span idx t i) ->
     (forall i, 0 <= i < 32 -> span idx t i = true -> Z.testbit w i = want) ->
     exists w', func w mask = Some (w', true) /\ fits 32 w' /\
       forall i, 0 <= i < 32 -> Z.testbit w' i = if span idx t i then negb want else Z.testbit w i) ->
  forall fuel bm pi idx n,
  words_ok bm -> 0 <= pi -> 0 <= idx < 32 -> 0 <= n < 2 ^ 30 -> n <= Z.of_nat fuel ->
  32 * pi + idx + n <= 32 * Z.of_nat (length bm) ->
  (forall k, 32 * pi + idx <= k < 32 * pi + idx + n -> busy bm k = want) ->
  exists bm', blocks_iter func (Z.of_nat (length bm)) fuel pi idx n bm = Ret true bm' /\
    length bm' = length bm /\ words_ok bm' /\
    forall k, 0 <= k -> busy bm' k = if in_blk (32 * pi + idx) n k then negb want else busy bm k.
Proof.
  intros Hfunc. induction fuel as [|fuel IH]; intros bm pi idx n Hok Hpi Hidx Hn Hf Hfit Hold.
  { assert (n = 0) as -> by lia. exists bm. split; [done|]. split; [done|]. split; [done|]. intros k Hk.
    unfold in_blk. replace ((_ <=? k) && (k <? _)) with false by lia. done. }
  destruct (decide (n = 0)) as [->|Hn0].
  { exists bm. split; [apply iter_zero|]. split; [done|]. split; [done|]. intros k Hk.
    unfold in_blk. replace ((_ <=? k) && (k <? _)) with false by lia. done. }
  destruct (iter_step func bm pi idx n fuel Hok ltac:(lia) Hidx ltac:(lia)) as (mask & Hmf & Hbits & ->).
  set (t := Z.min n (32 - idx)) in *.
  pose proof (range_split (fun k => busy bm k = want) pi idx n Hidx ltac:(lia)) as Hsplit. cbv zeta in Hsplit. fold t in Hsplit.
  apply Hsplit in Hold as [Hold1 Hold2]. clear Hsplit.
  pose proof (nth_word_fits bm (Z.to_nat pi) (proj1 Hok)) as Hw.
  destruct (Hfunc (nth (Z.to_nat pi) bm 0) mask idx t Hw Hmf Hbits) as (w' & -> & Hwf' & Hwb).
  { intros i Hi Hs. rewrite <- busy_word by lia. by apply Hold1. }
  assert (forall k, 0 <= k -> busy (<[Z.to_nat pi := w']> bm) k =
            if in_blk (32 * pi + idx) t k then negb want else busy bm k) as Hb1.
  { intros k Hk. rewrite busy_insert by lia. unfold in_blk. case_decide as E.
    - rewrite Hwb by dlia. unfold busy. rewrite E. unfold span.
      replace ((idx <=? k mod 32) && (k mod 32 <? idx + t)) with ((32 * pi + idx <=? k) && (k <? 32 * pi + idx + t)) by dlia.
      done.
    - replace ((32 * pi + idx <=? k) && (k <? 32 * pi + idx + t)) with false; [done|]. unfold t. symmetry.
      apply andb_false_iff. dlia. }
  assert (length (<[Z.to_nat pi := w']> bm) = length bm) as Hlen by len.
  rewrite <- Hlen. destruct (IH (<[Z.to_nat pi := w']> bm) (pi + 1) 0 (n - t)) as (bm' & Hrun & Hl' & Hok' & Hb'); try lia.
  { destruct Hok. split; [by apply Forall_insert | by rewrite Hlen]. }
  { intros k Hk. rewrite Hb1 by lia. replace (in_blk (32 * pi + idx) t k) with false by (unfold in_blk, t; lia).
    by apply Hold2. }
  exists bm'. split; [done|]. split; [congruence|]. split; [done|]. intros k Hk. rewrite Hb', Hb1 by done.
  unfold in_blk. destruct ((32 * (pi + 1) + 0 <=? k) && _) eqn:E1.
  - by replace ((32 * pi + idx <=? k) && (k <? 32 * pi + idx + n)) with true by (unfold t in *; lia).
  - destruct ((32 * pi + idx <=? k) && (k <? 32 * pi + idx + t)) eqn:E2.
    + by replace ((32 * pi + idx <=? k) && (k <? 32 * pi + idx + n)) with true by (unfold t in *; lia).
    + by replace ((32 * pi + idx <=? k) && (k <? 32 * pi + idx + n)) with false by (unfold t in *; lia).
Qed.

Lemma mask_set_word w mask idx t :
  fits 32 w -> fits 32 mask -> (forall i, 0 <= i < 32 -> Z.testbit mask i = span idx t i) ->
  (forall i, 0 <= i < 32 -> span idx t i = true -> Z.testbit w i = false) ->
  exists w', mask_set w mask = Some (w', true) /\ fits 32 w' /\
    forall i, 0 <= i < 32 -> Z.testbit w' i = if span idx t i then true else Z.testbit w i.
Proof.
  intros Hw Hf Hm H. unfold mask_set. rewrite (proj2 (Z.eqb_eq _ _)) by by apply (land_mask_zero w mask idx t).
  eexists. split; [reflexivity|]. split; [by apply lor_fits32|]. intros i Hi. rewrite Z.lor_spec, Hm by done.
  destruct (span idx t i); [apply orb_true_r | apply orb_false_r].
Qed.

Lemma mask_clear_word w mask idx t :
  fits 32 w -> fits 32 mask -> (forall i, 0 <= i < 32 -> Z.testbit mask i = span idx t i) ->
  (forall i, 0 <= i < 32 -> span idx t i = true -> Z.testbit w i = true) ->
  exists w', mask_clear w mask = Some (w', true) /\ fits 32 w' /\
    forall i, 0 <= i < 32 -> Z.testbit w' i = if span idx t i then false else Z.testbit w i.
Proof.
  intros Hw Hf Hm H. unfold mask_clear. rewrite (proj2 (Z.eqb_eq _ _)) by by apply (land_mask_full w mask idx t).
  eexists. split; [reflexivity|]. split; [by apply land_fits32|]. intros i Hi.
  rewrite Z.land_spec. unfold u32. rewrite Z.mod_pow2_bits_low, Z.lnot_spec, Hm by lia.
  destruct (span idx t i); [apply andb_false_r | apply andb_true_r].
Qed.

(** ** The search for a free block in a word *)

Lemma s32_bits w j :
  fits 32 w -> 0 <= j -> Z.testbit (s32 w) j = if decide (j < 32) then Z.testbit w j else Z.testbit w 31.
Proof.
  intros [H0 H1] Hj. unfold s32. destruct (Z.ltb_spec w (2 ^ 31)) as [Hlt|Hge].
  - case_decide; [done|]. rewrite (fits32_high w) by (done || lia).
    destruct (decide (w = 0)) as [->|]; [by rewrite Z.testbit_0_l|].
    rewrite Z.bits_above_log2; [done | lia|]. apply Z.log2_lt_pow2; lia.
  - case_decide as E.
    + rewrite <- (Z.mod_pow2_bits_low (w - 2 ^ 32) 32) by lia. f_equal.
      rewrite <- (Z.mod_small w (2 ^ 32)) at 2 by lia. rewrite <- (Z_mod_plus_full (w - 2 ^ 32) 1). f_equal. lia.
    + assert (Z.log2 (Z.pred (- (w - 2 ^ 32))) < 31) as Hl.
      { destruct (decide (Z.pred (- (w - 2 ^ 32)) = 0)) as [-> |]; [done|]. apply Z.log2_lt_pow2; lia. }
      rewrite Z.bits_above_log2_neg by lia.
      rewrite <- (Z.mod_small w (2 ^ 32)) by lia. rewrite <- (Z_mod_plus_full w (-1)).
      rewrite Z.mod_pow2_bits_low by lia. replace (w + -1 * 2 ^ 32) with (w - 2 ^ 32) by lia.
      by rewrite Z.bits_above_log2_neg by lia.
Qed.

Lemma word_zero_dec w start :
  0 <= start -> (exists j, start <= j < 32 /\ Z.testbit w j = false) \/
                (forall j, start <= j < 32 -> Z.testbit w j = true).
Proof.
  intros Hs. destruct (decide (Exists (fun j => Z.testbit w j = false) (seqZ start (32 - start)))) as [H|H].
  - left. apply Exists_exists in H as (j & Hj & Hb). apply elem_of_seqZ in Hj. exists j. split; [lia | done].
  - right. intros j Hj. apply not_false_iff_true. intros Hb. apply H. apply Exists_exists. exists j.
    split; [apply elem_of_seqZ; lia | done].
Qed.

Lemma find_next_zero_spec w start :
  fits 32 w -> 0 <= start < 32 -> w <> ONES32 ->
  (exists r, find_next_zero w start = Some r /\ start <= r < 32 /\ Z.testbit w r = false) \/
  (find_next_zero w start = Some (63 + start) /\ 0 < start /\ forall j, start <= j < 32 -> Z.testbit w j = true).
Proof.
  intros Hw Hs Hne. unfold find_next_zero. rewrite (proj2 (Z.eqb_neq _ _)) by done.
  set (x := u64 (Z.shiftr (s32 w) start)).
  assert (forall i, 0 <= i < 64 -> Z.testbit x i =
            if decide (i + start < 32) then Z.testbit w (i + start) else Z.testbit w 31) as Hx.
  { intros i Hi. unfold x, u64. rewrite Z.mod_pow2_bits_low, Z.shiftr_spec by lia. apply s32_bits; [done | lia]. }
  destruct (word_zero_dec w start ltac:(lia)) as [(j & Hj & Hb)|Hall].
  - left. destruct (ffz_low x) as (Hr & Hc & Hl); [apply u64_fits| |].
    { intros E. specialize (Hx (j - start) ltac:(lia)). rewrite E, FULL_bits, decide_True in Hx by lia.
      replace (j - start + start) with j in Hx by lia. congruence. }
    assert (ffz x <= j - start) as Hle.
    { apply Z.nlt_ge. intros Hlt. specialize (Hl (j - start) ltac:(lia)). rewrite Hx, decide_True in Hl by lia.
      replace (j - start + start) with j in Hl by lia. congruence. }
    eexists. split; [reflexivity|]. split; [lia|]. rewrite Hx, decide_True in Hc by lia. done.
  - right. assert (x = FULL) as ->.
    { apply word_ext; [apply u64_fits | apply FULL_fits|]. intros i Hi. rewrite Hx, FULL_bits by done.
      case_decide; apply Hall; lia. }
    split; [done|]. split; [|done]. destruct (decide (start = 0)) as [->|]; [|lia]. destruct Hne.
    apply word32_ext; [done | split; [discriminate | reflexivity]|]. intros i Hi. rewrite ones32_bits by done. by apply Hall.
Qed.

Lemma skip_words_spec fuel : forall i idx,
  0 <= i -> 0 <= idx < 2 ^ 32 -> idx / 32 <= Z.of_nat fuel -> i + idx / 32 < 2 ^ 32 ->
  skip_words fuel i idx = i + idx / 32.
Proof.
  induction fuel as [|fuel IH]; intros i idx Hi Hidx Hf Hov; cbn [skip_words]; [dlia|].
  unfold SMALLOC_BPI. destruct (Z.leb_spec 32 idx) as [Hle|Hlt].
  - rewrite !u32_small by (unfold fits; dlia). rewrite IH by dlia. dlia.
  - dlia.
Qed.

(** ** The loop of __smalloc_pool *)

Record pool_shape (p : pool) : Prop := {
  ps_len : nr_blocks p = Z.of_nat (length (bitmap p));
  ps_words : words_ok (bitmap p)
}.

(** All but the bitmap and the hint. *)
Record same_pool (p p' : pool) : Prop := {
  sp_map : p_map p' = p_map p;
  sp_free : free_blocks p' = free_blocks p;
  sp_nr : nr_blocks p' = nr_blocks p;
  sp_size : mmap_size p' = mmap_size p;
  sp_hint : 0 <= next_non_full p' <= Z.max (next_non_full p) (nr_blocks p)
}.

Lemma same_pool_refl p : 0 <= next_non_full p -> same_pool p p.
Proof. intros. constructor; try done. lia. Qed.

Lemma same_pool_hint p i p' :
  0 <= i <= nr_blocks p -> same_pool (set_next_non_full i p) p' -> same_pool p p'.
Proof. intros Hi [H1 H2 H3 H4 H5]. constructor; try done. cbn [set_next_non_full next_non_full nr_blocks] in *. lia. Qed.

(** A word that is not full but whose bits from some point on are all set: the
    search that starts there shifts by more than the width of the word. *)
Definition trap (p : pool) : Prop :=
  exists i start, 0 <= i < nr_blocks p /\ 0 < start < 32 /\ nth (Z.to_nat i) (bitmap p) 0 <> ONES32 /\
    forall j, start <= j < 32 -> Z.testbit (nth (Z.to_nat i) (bitmap p) 0) j = true.

Inductive scan_result (p : pool) (n : Z) : outcome pool (Z * Z) -> Prop :=
  | scan_found i k0 p' :
      0 <= i < nr_blocks p -> 0 <= k0 -> k0 + n <= 32 * nr_blocks p ->
      (forall k, k0 <= k < k0 + n -> busy (bitmap p) k = false) ->
      same_pool p p' -> pool_shape p' ->
      (forall k, 0 <= k -> busy (bitmap p') k = if in_blk k0 n k then true else busy (bitmap p) k) ->
      scan_result p n (Ret (i, 32 * k0) p')
  | scan_none i off p' :
      nr_blocks p <= i -> same_pool p p' -> bitmap p' = bitmap p -> scan_result p n (Ret (i, off) p')
  | scan_trap p' : 1 < n < 32 -> trap p -> scan_result p n (Undef p').

Lemma scan_result_hint p i n o :
  0 <= i <= nr_blocks p -> scan_result (set_next_non_full i p) n o -> scan_result p n o.
Proof.
  intros Hi H. inversion H; subst.
  - eapply scan_found; try done. by eapply same_pool_hint.
  - eapply scan_none; try done. by eapply same_pool_hint.
  - by apply scan_trap.
Qed.

Lemma set_bitmap_id p : set_bitmap (bitmap p) p = p.
Proof. by destruct p. Qed.

Lemma iter_pool_run func p i idx n b bm :
  pool_shape p ->
  blocks_iter func (Z.of_nat (length (bitmap p))) (S (Z.to_nat n)) i idx n (bitmap p) = Ret b bm ->
  iter_pool func i idx n p = Ret b (set_bitmap bm p).
Proof.
  intros Hs Hrun. unfold iter_pool. erewrite bind_Ret by reflexivity. rewrite (ps_len _ Hs).
  unfold on_bitmap, zoom. by rewrite Hrun.
Qed.

Lemma blocks_free_run p i idx n :
  pool_shape p -> 0 <= i -> 0 <= idx < 32 -> 0 < n < 2 ^ 30 ->
  exists b, blocks_free i idx n p = Ret b p /\
    (b = true <-> 32 * i + idx + n <= 32 * nr_blocks p /\
                  forall k, 32 * i + idx <= k < 32 * i + idx + n -> busy (bitmap p) k = false).
Proof.
  intros Hs Hi Hidx Hn. destruct (iter_cmp (bitmap p) (S (Z.to_nat n)) i idx n) as (b & Hrun & Hb);
    try lia; [apply Hs|].
  exists b. split.
  - unfold blocks_free. rewrite (iter_pool_run _ _ _ _ _ _ _ Hs Hrun). by rewrite set_bitmap_id.
  - rewrite Hb, (ps_len _ Hs). split; [intros [|]; [lia | done] | by right].
Qed.

Lemma set_blocks_run p i idx n :
  pool_shape p -> 0 <= i -> 0 <= idx < 32 -> 0 < n < 2 ^ 30 -> 32 * i + idx + n <= 32 * nr_blocks p ->
  (forall k, 32 * i + idx <= k < 32 * i + idx + n -> busy (bitmap p) k = false) ->
  exists bm, set_blocks i idx n p = Ret tt (set_bitmap bm p) /\ pool_shape (set_bitmap bm p) /\
    forall k, 0 <= k -> busy bm k = if in_blk (32 * i + idx) n k then true else busy (bitmap p) k.
Proof.
  intros Hs Hi Hidx Hn Hfit Hold. rewrite (ps_len _ Hs) in Hfit.
  destruct (iter_write false mask_set mask_set_word (S (Z.to_nat n)) (bitmap p) i idx n)
    as (bm & Hrun & Hl & Hok & Hb); try done; try lia; [apply Hs|].
  exists bm. split; [|split; [|done]].
  - unfold set_blocks. erewrite bind_Ret by by apply (iter_pool_run _ _ _ _ _ _ _ Hs Hrun). done.
  - constructor; [|done]. cbn [set_bitmap nr_blocks bitmap]. rewrite Hl. apply Hs.
Qed.

Lemma clear_blocks_run p i idx n :
  pool_shape p -> 0 <= i -> 0 <= idx < 32 -> 0 < n < 2 ^ 30 -> 32 * i + idx + n <= 32 * nr_blocks p ->
  (forall k, 32 * i + idx <= k < 32 * i + idx + n -> busy (bitmap p) k = true) ->
  exists bm, clear_blocks i idx n p = Ret tt (set_bitmap bm p) /\ pool_shape (set_bitmap bm p) /\
    forall k, 0 <= k -> busy bm k = if in_blk (32 * i + idx) n k then false else busy (bitmap p) k.
Proof.
  intros Hs Hi Hidx Hn Hfit Hold. rewrite (ps_len _ Hs) in Hfit.
  destruct (iter_write true mask_clear mask_clear_word (S (Z.to_nat n)) (bitmap p) i idx n)
    as (bm & Hrun & Hl & Hok & Hb); try done; try lia; [apply Hs|].
  exists bm. split; [|split; [|done]].
  - unfold clear_blocks. erewrite bind_Ret by by apply (iter_pool_run _ _ _ _ _ _ _ Hs Hrun). done.
  - constructor; [|done]. cbn [set_bitmap nr_blocks bitmap]. rewrite Hl. apply Hs.
Qed.

(** A bit index past the word makes the shift of the mask undefined. *)
Lemma blocks_free_trap p i idx n :
  pool_shape p -> 0 <= i < nr_blocks p -> 63 <= idx < 96 -> 0 < n < 2 ^ 30 -> blocks_free i idx n p = Undef p.
Proof.
  intros Hs Hi Hidx Hn. unfold blocks_free, iter_pool. erewrite bind_Ret by reflexivity.
  unfold on_bitmap, zoom. cbn [blocks_iter].
  rewrite (proj2 (Z.eqb_neq n 0)), (proj2 (Z.leb_gt (nr_blocks p) i)) by lia.
  erewrite bind_Ret.
  2: { unfold rd_bitmap. rewrite nth_word by (pose proof (ps_len _ Hs); lia). reflexivity. }
  unfold SMALLOC_BPI. rewrite (u32_small n), (u32_small (n + idx)) by (unfold fits; lia).
  rewrite (proj2 (Z.ltb_lt 32 (n + idx))) by lia.
  assert (u32 (32 - idx) = 2 ^ 32 + 32 - idx) as ->.
  { unfold u32. rewrite <- (Z_mod_plus_full (32 - idx) 1). rewrite Z.mod_small by lia. lia. }
  unfold word_mask, SMALLOC_BPI. rewrite (proj2 (Z.eqb_neq _ _)), (proj2 (Z.ltb_ge _ 32)) by lia. cbn [andb].
  unfold undef. by rewrite set_bitmap_id.
Qed.

Lemma scan_spec n fuel : forall i last p,
  pool_shape p -> 0 <= next_non_full p -> 1 <= n <= 2 ^ 28 -> 0 <= i < 2 ^ 31 -> 0 <= last < 32 ->
  (last = 0 \/ 1 < n < 32) ->
  (i < nr_blocks p -> 33 * (nr_blocks p - i) - last <= Z.of_nat fuel) -> scan_result p n (scan fuel n i last p).
Proof.
  induction fuel as [|fuel IH]; intros i last p Hs Hh Hn Hi Hlast Hln Hf;
    cbn [scan]; mstep;
    destruct (Z.leb_spec (nr_blocks p) i) as [Hge|Hlt];
    try (apply scan_none; [done | by apply same_pool_refl | done]); [lia|].
  pose proof (ps_words _ Hs) as Hok. pose proof (ps_len _ Hs) as Hlen. pose proof (proj2 Hok) as Hmax.
  set (w := nth (Z.to_nat i) (bitmap p) 0).
  assert (on_bitmap (rd_bitmap i) p = Ret w p) as Hrd.
  { unfold on_bitmap, zoom, rd_bitmap. rewrite nth_word by lia. by rewrite set_bitmap_id. }
  rewrite (bind_Ret _ _ _ _ _ Hrd). destruct (Z.eqb_spec w ONES32) as [E|E].
  { rewrite u32_small by (unfold fits; lia). erewrite bind_Ret by reflexivity.
    apply (scan_result_hint p (i + 1)); [lia|]. apply IH; try done; try lia.
    - cbn [set_next_non_full next_non_full]. lia.
    - cbn [set_next_non_full nr_blocks]. lia. }
  destruct (find_next_zero_spec w last (nth_word_fits _ _ (proj1 Hok)) Hlast E)
    as [(idx & -> & Hidx & Hbit)|(-> & Hpos & Hall)].
  2: { erewrite bind_Undef by (apply blocks_free_trap; [done | lia | lia | lia]).
       apply scan_trap; [lia|]. exists i, last. split_and!; done || lia. }
  destruct (blocks_free_run p i idx n Hs ltac:(lia) ltac:(lia) ltac:(lia)) as (ok & Hrun & Hb).
  rewrite (bind_Ret _ _ _ _ _ Hrun). destruct ok; cbn [negb].
  - destruct (proj1 Hb eq_refl) as [Hfit Hfree].
    destruct (set_blocks_run p i idx n Hs ltac:(lia) ltac:(lia) ltac:(lia) Hfit Hfree) as (bm & Hset & Hs' & Hbm).
    rewrite (bind_Ret _ _ _ _ _ Hset).
    assert (u32 (i * SMALLOC_BPL + u32 (idx * SMALLOC_BPB)) = 32 * (32 * i + idx)) as ->.
    { unfold SMALLOC_BPL, SMALLOC_BPB, SMALLOC_BPI. rewrite (u32_small (idx * 32)), u32_small by (unfold fits; lia). lia. }
    eapply scan_found; try done; try lia. constructor; try done. cbn [set_bitmap next_non_full]. lia.
  - assert (n <> 1) as Hn1.
    { intros ->. assert (false = true) as Hc; [|done]. apply Hb. split; [lia|]. intros k Hk.
      replace k with (32 * i + idx) by lia. rewrite busy_word by lia. exact Hbit. }
    rewrite u32_small by (unfold fits; lia). unfold SMALLOC_BPI.
    destruct (Z.ltb_spec (idx + n) 32) as [Hsmall|Hbig].
    + apply IH; try done; lia.
    + rewrite skip_words_spec by dlia. apply IH; try done; try lia; dlia.
Qed.

(** ** Counting free blocks *)

Definition count_free (f : Z -> bool) (N : Z) : Z :=
  Z.of_nat (length (filter (fun k => f k = false) (seqZ 0 N))).

Lemma count_free_ext f g N : (forall k, 0 <= k < N -> f k = g k) -> count_free f N = count_free g N.
Proof.
  intros H. unfold count_free. f_equal. apply filter_same. intros k Hk. apply elem_of_seqZ in Hk. by rewrite H by lia.
Qed.

Lemma count_free_range f N k0 (n : nat) :
  0 <= k0 -> k0 + Z.of_nat n <= N -> (forall k, k0 <= k < k0 + Z.of_nat n -> f k = false) ->
  count_free f N = count_free (fun k => if in_blk k0 (Z.of_nat n) k then true else f k) N + Z.of_nat n.
Proof.
  intros Hk0. induction n as [|n IH]; intros HN Hf.
  - rewrite Z.add_0_r. apply count_free_ext. intros k Hk. unfold in_blk.
    replace (k0 + Z.of_nat 0) with k0 by lia. by replace ((k0 <=? k) && (k <? k0)) with false by lia.
  - rewrite (IH ltac:(lia) ltac:(intros k Hk; apply Hf; lia)). unfold count_free.
    rewrite (filter_remove _ (fun k => (if in_blk k0 (Z.of_nat (S n)) k then true else f k) = false) (k0 + Z.of_nat n)).
    + lia.
    + apply NoDup_seqZ.
    + apply elem_of_seqZ. lia.
    + unfold in_blk. destruct (_ && _) eqn:E; [|apply Hf; lia]. bcases. lia.
    + unfold in_blk. destruct (_ && _) eqn:E; [done|]. apply andb_false_iff in E. destruct E; bcases; lia.
    + intros k Hk Hne. unfold in_blk.
      destruct (Z.leb_spec k0 k), (Z.ltb_spec k (k0 + Z.of_nat (S n))), (Z.ltb_spec k (k0 + Z.of_nat n));
        done || (exfalso; lia).
Qed.

Lemma count_free_bounds f N : 0 <= N -> 0 <= count_free f N <= N.
Proof.
  intros HN. unfold count_free. pose proof (length_filter (fun k => f k = false) (seqZ 0 N)) as H.
  rewrite length_seqZ in H. lia.
Qed.

Lemma count_free_all f N : 0 <= N -> (forall k, f k = false) -> count_free f N = N.
Proof.
  intros HN H. unfold count_free.
  assert (forall l : list Z, filter (fun k => f k = false) l = l) as ->; [|rewrite length_seqZ; lia].
  intros l. induction l as [|k l IH]; [done|]. by rewrite filter_cons_True, IH.
Qed.

(** * The invariant of a pool *)

Record pool_ok (p : pool) : Prop := {
  po_shape : pool_shape p;
  po_map : 0 < p_map p /\ p_map p mod 32 = 0 /\ p_map p + 1024 * nr_blocks p <= 2 ^ 63;
  po_hint : 0 <= next_non_full p <= nr_blocks p;
  po_free : free_blocks p = count_free (busy (bitmap p)) (32 * nr_blocks p)
}.

Lemma pool_nr p : pool_shape p -> 0 <= nr_blocks p < 2 ^ 22.
Proof. intros [-> [_ H]]. lia. Qed.

Inductive alloc_result (p : pool) (n : Z) : outcome pool (option Z) -> Prop :=
  | al_found k0 p' :
      0 <= k0 -> k0 + n <= 32 * nr_blocks p ->
      (forall k, k0 <= k < k0 + n -> busy (bitmap p) k = false) ->
      pool_ok p' -> p_map p' = p_map p -> nr_blocks p' = nr_blocks p ->
      (forall k, 0 <= k -> busy (bitmap p') k = if in_blk k0 n k then true else busy (bitmap p) k) ->
      alloc_result p n (Ret (Some (p_map p + 32 * k0)) p')
  | al_none p' :
      pool_ok p' -> p_map p' = p_map p -> nr_blocks p' = nr_blocks p -> bitmap p' = bitmap p ->
      alloc_result p n (Ret None p')
  | al_trap p' : 1 < n < 32 -> trap p -> alloc_result p n (Undef p').

Lemma smalloc_pool_run p size :
  pool_ok p -> 1 <= size_to_blocks size <= 2 ^ 28 ->
  alloc_result p (size_to_blocks size) (smalloc_pool_ size p).
Proof.
  intros [Hs Hm Hh Hfree] Hn. unfold smalloc_pool_. mstep. set (n := size_to_blocks size) in *.
  pose proof (pool_nr p Hs) as Hnr. pose proof (ps_len _ Hs) as Hlen.
  destruct (Z.ltb_spec (free_blocks p) n) as [Hlt|Hge]; [by apply al_none|].
  rewrite (u32_small (next_non_full p)) by (unfold fits; lia).
  pose proof (scan_spec n (scan_fuel p) (next_non_full p) 0 p Hs ltac:(lia) Hn ltac:(lia) ltac:(lia) ltac:(by left)
    ltac:(unfold scan_fuel; lia)) as Hscan.
  unfold mbind, M_bind. destruct Hscan as [i k0 p' Hi Hk0 Hfit Hold [E1 E2 E3 E4 E5] Hs' Hb|i off p' Hi [E1 E2 E3 E4 E5] Hb|p' H1 H2].
  - cbv beta iota. unfold get_st at 1. rewrite E3, (proj2 (Z.ltb_lt _ _)) by lia. unfold modify, mret, M_ret. rewrite E1.
    apply (al_found p n k0 (set_free_blocks (u64 (free_blocks p' - n)) p')); try done; try lia.
    constructor; [by destruct Hs' | cbn [set_free_blocks p_map nr_blocks]; by rewrite E1, E3 | cbn; lia|].
    cbn [set_free_blocks free_blocks bitmap nr_blocks]. rewrite E2, E3, Hfree.
    rewrite (count_free_range _ _ k0 (Z.to_nat n)) by (rewrite ?Z2Nat.id by lia; done || lia).
    rewrite Z2Nat.id by lia. rewrite (count_free_ext (busy (bitmap p')) (fun k => if in_blk k0 n k then true else busy (bitmap p) k))
      by (intros; apply Hb; lia).
    pose proof (count_free_bounds (fun k => if in_blk k0 n k then true else busy (bitmap p) k) (32 * nr_blocks p)).
    rewrite u64_small by (unfold fits; lia). lia.
  - cbv beta iota. unfold get_st at 1. rewrite E3, (proj2 (Z.ltb_ge _ _)) by lia. unfold mret, M_ret.
    apply al_none; try done. constructor; rewrite ?E1, ?E2, ?E3, ?Hb; try done; [|lia].
    destruct Hs as [S1 S2]. constructor; by rewrite ?E3, ?Hb.
  - by apply al_trap.
Qed.
