(* ===== verification/SmallocHeap.v ===== *)
(** The allocator of src/fio/smalloc.c as a whole: the invariant that relates the
    bitmaps, headers and red zones to a heap of live blocks, the operations on
    it, and the refinement of an abstract heap by every program that uses it. *)
From S2P Require Import Prelude Mem Axmap Smalloc.

(** * The heap *)

(** The bytes and the blocks of an allocation of [size] bytes. *)
Definition asize (size : Z) : Z := (size + 23) / 4 * 4.
Definition nblk (size : Z) : Z := (asize size + 31) / 32.

Lemma asize_bounds size : 0 <= size -> size + 20 <= asize size <= size + 23 /\ asize size mod 4 = 0.
Proof. intros H. unfold asize. dlia. Qed.

Lemma nblk_bounds size : 0 <= size -> asize size <= 32 * nblk size < asize size + 32.
Proof. intros H. unfold nblk. dlia. Qed.

(** Block structure of an allocation at [a]: header, red zones, content. *)
Definition block_mem (m : mem) (a : Z) (c : bytes) : Prop :=
  let size := Z.of_nat (length c) in
  rd64 m (a - 16) = asize size /\ rd32 m (a - 8) = SMALLOC_PRE_RED /\
  rd32 m (a - 16 + asize size - 4) = SMALLOC_POST_RED /\ mread m a size = c.

(** The addresses of an allocation at [a] of [size] bytes. *)
Definition foot (a size x : Z) : Prop := a - 16 <= x < a - 16 + 32 * nblk size.

Definition clen (c : bytes) : Z := Z.of_nat (length c).

(** The block area of a pool. *)
Definition area (p : pool) (x : Z) : Prop := p_map p <= x < p_map p + 1024 * nr_blocks p.

(** Where an allocation lies in a pool. *)
Record placed (p : pool) (a size : Z) : Prop := {
  pl_low : p_map p <= a - 16;
  pl_align : (a - 16 - p_map p) mod 32 = 0;
  pl_high : a - 16 + 32 * nblk size <= p_map p + 1024 * nr_blocks p
}.

Record sm_inv (s : smst) (H : gmap Z bytes) : Prop := {
  si_pools : Forall pool_ok (mp s);
  si_disj : forall j k p q x, mp s !! j = Some p -> mp s !! k = Some q -> area p x -> area q x -> j = k;
  si_last : 0 <= last_pool s <= Z.of_nat (length (mp s));
  si_in : forall a c, H !! a = Some c -> clen c < 2 ^ 32 /\
            exists j p, mp s !! j = Some p /\ placed p a (clen c);
  si_busy : forall j p k, mp s !! j = Some p -> 0 <= k < 32 * nr_blocks p ->
              busy (bitmap p) k = true <->
              exists a c, H !! a = Some c /\ foot a (clen c) (p_map p + 32 * k);
  si_sep : forall a c a' c' x, H !! a = Some c -> H !! a' = Some c' ->
             foot a (clen c) x -> foot a' (clen c') x -> a = a';
  si_mem : forall a c, H !! a = Some c -> block_mem (s_mem s) a c
}.

(** Memories that agree on a range. *)
Definition agree (m m' : mem) (lo hi : Z) : Prop := forall i, lo <= i < hi -> mget m' i = mget m i.

Lemma block_mem_frame m m' a c :
  agree m m' (a - 16) (a - 16 + asize (clen c)) -> block_mem m a c -> block_mem m' a c.
Proof.
  intros Hag (H1 & H2 & H3 & H4). pose proof (asize_bounds (clen c) ltac:(unfold clen; lia)) as [Hs _].
  unfold clen in *. unfold block_mem, rd64, rd32 in *.
  assert (forall b n, a - 16 <= b -> b + n <= a - 16 + asize (Z.of_nat (length c)) -> mread m' b n = mread m b n) as E.
  { intros b n Hb Hn. apply mread_ext. intros i Hi. apply Hag. lia. }
  cbv zeta. rewrite !E by lia. done.
Qed.

Lemma placed_area p a size x :
  pool_ok p -> placed p a size -> foot a size x -> area p x.
Proof. intros Hp [H1 H2 H3] Hf. unfold foot, area in *. lia. Qed.

Lemma nblk_pos size : 0 <= size -> 1 <= nblk size.
Proof. intros H. pose proof (asize_bounds size H). pose proof (nblk_bounds size H). lia. Qed.

Lemma clen_pos c : 0 <= clen c.
Proof. unfold clen. lia. Qed.
#[local] Hint Resolve clen_pos : nvs.

(** An allocation that meets a range of blocks of its pool contains one of them. *)
Lemma placed_meets p a size k0 n x :
  placed p a size -> 0 <= size -> 0 <= k0 -> foot a size x -> p_map p + 32 * k0 <= x < p_map p + 32 * (k0 + n) ->
  exists k, k0 <= k < k0 + n /\ foot a size (p_map p + 32 * k).
Proof.
  intros [H1 H2 H3] Hs Hk Hf Hx. unfold foot in *.
  exists (Z.max k0 ((a - 16 - p_map p) / 32)). split; dlia.
Qed.

(** ** The invariant under a change of one pool *)

Section Change.
Context (s : smst) (H : gmap Z bytes) (k : nat) (p p' : pool).
Hypothesis Hinv : sm_inv s H.
Hypothesis Hk : mp s !! k = Some p.
Hypothesis Hp' : pool_ok p'.
Hypothesis Hmap : p_map p' = p_map p.
Hypothesis Hnr : nr_blocks p' = nr_blocks p.

Lemma area_same x : area p' x <-> area p x.
Proof. unfold area. by rewrite Hmap, Hnr. Qed.

Lemma placed_same a size : placed p' a size <-> placed p a size.
Proof. split; intros [H1 H2 H3]; constructor; rewrite ?Hmap, ?Hnr in *; done. Qed.

(** A pool of the changed list is the pool of the same number, up to its bitmap. *)
Lemma changed_pool j q :
  <[k := p']> (mp s) !! j = Some q ->
  exists q0, mp s !! j = Some q0 /\ p_map q = p_map q0 /\ nr_blocks q = nr_blocks q0 /\
    (j = k /\ q = p' /\ q0 = p \/ j <> k /\ q = q0).
Proof.
  intros Hj. destruct (decide (j = k)) as [->|Hne].
  - rewrite list_lookup_insert_eq in Hj by (by eapply lookup_lt_Some). injection Hj as <-. exists p.
    split_and!; try done. by left.
  - rewrite list_lookup_insert_ne in Hj by done. exists q. split_and!; try done. by right.
Qed.

Lemma changed_pools : Forall pool_ok (<[k := p']> (mp s)).
Proof. apply Forall_insert; [apply Hinv | done]. Qed.

Lemma changed_disj j1 j2 q1 q2 x :
  <[k := p']> (mp s) !! j1 = Some q1 -> <[k := p']> (mp s) !! j2 = Some q2 -> area q1 x -> area q2 x -> j1 = j2.
Proof.
  intros H1 H2 A1 A2. destruct (changed_pool _ _ H1) as (r1 & L1 & E1 & N1 & _).
  destruct (changed_pool _ _ H2) as (r2 & L2 & E2 & N2 & _).
  eapply (si_disj _ _ Hinv _ _ _ _ x L1 L2); unfold area in *; congruence || lia.
Qed.

Lemma changed_in a c :
  H !! a = Some c -> clen c < 2 ^ 32 /\ exists j q, <[k := p']> (mp s) !! j = Some q /\ placed q a (clen c).
Proof.
  intros Ha. destruct (si_in _ _ Hinv a c Ha) as (Hc & j & q & Hj & Hpl). split; [done|].
  destruct (decide (j = k)) as [->|Hne].
  - exists k, p'. rewrite list_lookup_insert_eq by (by eapply lookup_lt_Some). split; [done|].
    apply placed_same. by assert (q = p) as <- by congruence.
  - exists j, q. by rewrite list_lookup_insert_ne.
Qed.

(** Nothing but the hint has changed. *)
Lemma inv_same : bitmap p' = bitmap p -> sm_inv (set_pool k p' s) H.
Proof.
  intros Hb. constructor; cbn [set_pool mp last_pool s_mem].
  - apply changed_pools.
  - apply changed_disj.
  - rewrite length_insert. apply Hinv.
  - apply changed_in.
  - intros j q b Hj Hb'. destruct (changed_pool _ _ Hj) as (q0 & Hj0 & E1 & E2 & Hq).
    rewrite E1. assert (bitmap q = bitmap q0) as -> by (destruct Hq as [(_ & -> & ->)|(_ & ->)]; done).
    apply (si_busy _ _ Hinv j); [done | lia].
  - apply (si_sep _ _ Hinv).
  - apply (si_mem _ _ Hinv).
Qed.

(** The allocation of blocks [k0], ..., [k0 + n - 1] of the pool. *)
Section Alloc.
Context (k0 : Z) (c : bytes) (m : mem).
Let a := p_map p + 32 * k0 + 16.
Let n := nblk (clen c).
Hypothesis Hk0 : 0 <= k0.
Hypothesis Hfit : k0 + n <= 32 * nr_blocks p.
Hypothesis Hfree : forall b, k0 <= b < k0 + n -> busy (bitmap p) b = false.
Hypothesis Hbusy : forall b, 0 <= b -> busy (bitmap p') b = if in_blk k0 n b then true else busy (bitmap p) b.

Lemma alloc_placed : placed p a (clen c).
Proof. constructor; unfold a; fold n; [lia | | lia]. replace (_ - 16 - p_map p) with (32 * k0) by lia. dlia. Qed.

Lemma alloc_foot x : foot a (clen c) x <-> p_map p + 32 * k0 <= x < p_map p + 32 * (k0 + n).
Proof. unfold foot, a, n. lia. Qed.

Lemma alloc_new a' c' x : H !! a' = Some c' -> foot a' (clen c') x -> foot a (clen c) x -> False.
Proof.
  intros Ha' F' F. pose proof (Forall_lookup_1 _ _ _ _ (si_pools _ _ Hinv) Hk) as Hp.
  destruct (si_in _ _ Hinv a' c' Ha') as (_ & j & q & Hj & Hpl).
  pose proof (Forall_lookup_1 _ _ _ _ (si_pools _ _ Hinv) Hj) as Hq.
  assert (j = k) as ->.
  { eapply (si_disj _ _ Hinv j k q p x Hj Hk); [by eapply placed_area|].
    eapply placed_area; [done | apply alloc_placed | done]. }
  assert (q = p) as -> by congruence.
  destruct (placed_meets p a' (clen c') k0 n x Hpl (clen_pos c') Hk0 F' (proj1 (alloc_foot x) F)) as (b & Hb & Fb).
  assert (busy (bitmap p) b = true) as Hbt by (apply (si_busy _ _ Hinv k p b Hk); [lia | by exists a', c']).
  by rewrite Hfree in Hbt.
Qed.

Lemma alloc_fresh : H !! a = None.
Proof.
  destruct (H !! a) as [c0|] eqn:E; [|done]. exfalso. apply (alloc_new a c0 (a - 16) E).
  - unfold foot. pose proof (nblk_pos (clen c0) (clen_pos _)). lia.
  - unfold foot. pose proof (nblk_pos (clen c) (clen_pos _)). lia.
Qed.

Lemma inv_alloc :
  clen c < 2 ^ 32 -> block_mem m a c ->
  (forall x, ~ foot a (clen c) x -> mget m x = mget (s_mem s) x) ->
  sm_inv (mkSm (<[k := p']> (mp s)) (last_pool s) m) (<[a := c]> H).
Proof.
  intros Hc Hmem Hframe. pose proof alloc_fresh as Hnone. constructor; cbn [mp last_pool s_mem].
  - apply changed_pools.
  - apply changed_disj.
  - rewrite length_insert. apply Hinv.
  - intros a' c'. destruct (decide (a' = a)) as [->|Hne].
    + rewrite lookup_insert_eq. intros [= <-]. split; [done|]. exists k, p'.
      rewrite list_lookup_insert_eq by (by eapply lookup_lt_Some). split; [done|]. apply placed_same, alloc_placed.
    + rewrite lookup_insert_ne by done. apply changed_in.
  - intros j q b Hj Hb. destruct (changed_pool _ _ Hj) as (q0 & Hj0 & E1 & E2 & Hq). rewrite E1.
    assert ((exists a' c', <[a := c]> H !! a' = Some c' /\ foot a' (clen c') (p_map q0 + 32 * b)) <->
            foot a (clen c) (p_map q0 + 32 * b) \/ exists a' c', H !! a' = Some c' /\ foot a' (clen c') (p_map q0 + 32 * b)) as ->.
    { split.
      - intros (a' & c' & Ha' & F). destruct (decide (a' = a)) as [->|Hne].
        + rewrite lookup_insert_eq in Ha'. injection Ha' as <-. by left.
        + rewrite lookup_insert_ne in Ha' by done. right. by exists a', c'.
      - intros [F|(a' & c' & Ha' & F)].
        + exists a, c. by rewrite lookup_insert_eq.
        + exists a', c'. by rewrite lookup_insert_ne by congruence. }
    rewrite <- (si_busy _ _ Hinv j q0 b Hj0 ltac:(lia)).
    destruct Hq as [(-> & -> & ->)|(Hne & ->)].
    + rewrite Hbusy by lia. rewrite alloc_foot. unfold in_blk.
      destruct ((k0 <=? b) && (b <? k0 + n)) eqn:Eb; [split; [intros _; left | done]; bcases; lia|].
      split; [by right | intros [Hr|]; [|done]]. apply andb_false_iff in Eb. destruct Eb; bcases; lia.
    + split; [by right | intros [F|]; [|done]]. exfalso. apply Hne. eapply (si_disj _ _ Hinv j k q0 p _ Hj0 Hk).
      * unfold area. instantiate (1 := p_map q0 + 32 * b). lia.
      * eapply placed_area; [|apply alloc_placed | exact F]. by eapply (Forall_lookup_1 _ _ _ _ (si_pools _ _ Hinv)).
  - intros a1 c1 a2 c2 x. destruct (decide (a1 = a)) as [->|N1], (decide (a2 = a)) as [->|N2];
      rewrite ?lookup_insert_eq, ?lookup_insert_ne by done; try done.
    + intros [= <-] H2 F1 F2. destruct (alloc_new a2 c2 x H2 F2 F1).
    + intros H1 [= <-] F1 F2. destruct (alloc_new a1 c1 x H1 F1 F2).
    + apply (si_sep _ _ Hinv).
  - intros a' c'. destruct (decide (a' = a)) as [->|Hne].
    + rewrite lookup_insert_eq. by intros [= <-].
    + rewrite lookup_insert_ne by done. intros Ha'. apply (block_mem_frame (s_mem s)); [|by apply (si_mem _ _ Hinv)].
      intros x Hx. apply Hframe. intros F. apply (alloc_new a' c' x Ha'); [|done].
      unfold foot. pose proof (nblk_bounds (clen c') (clen_pos _)). lia.
Qed.
End Alloc.

(** The release of an allocation of the pool. *)
Lemma inv_free a c :
  H !! a = Some c -> placed p a (clen c) ->
  (forall b, 0 <= b -> busy (bitmap p') b =
     if in_blk ((a - 16 - p_map p) / 32) (nblk (clen c)) b then false else busy (bitmap p) b) ->
  sm_inv (set_pool k p' s) (delete a H).
Proof.
  intros Ha Hpl Hbusy. pose proof (Forall_lookup_1 _ _ _ _ (si_pools _ _ Hinv) Hk) as Hp.
  assert (forall b, foot a (clen c) (p_map p + 32 * b) <-> in_blk ((a - 16 - p_map p) / 32) (nblk (clen c)) b = true) as Hfoot.
  { intros b. destruct Hpl as [P1 P2 P3]. unfold foot, in_blk. rewrite andb_true_iff, Z.leb_le, Z.ltb_lt. dlia. }
  constructor; cbn [set_pool mp last_pool s_mem].
  - apply changed_pools.
  - apply changed_disj.
  - rewrite length_insert. apply Hinv.
  - intros a' c' [_ Ha']%lookup_delete_Some. by apply changed_in.
  - intros j q b Hj Hb. destruct (changed_pool _ _ Hj) as (q0 & Hj0 & E1 & E2 & Hq). rewrite E1.
    assert ((exists a' c', delete a H !! a' = Some c' /\ foot a' (clen c') (p_map q0 + 32 * b)) <->
            busy (bitmap q0) b = true /\ ~ foot a (clen c) (p_map q0 + 32 * b)) as ->.
    { rewrite (si_busy _ _ Hinv j q0 b Hj0 ltac:(lia)). split.
      - intros (a' & c' & [Hne Ha']%lookup_delete_Some & F). split; [by exists a', c'|]. intros F'.
        apply Hne. by apply (si_sep _ _ Hinv a c a' c' _ Ha Ha' F' F).
      - intros ((a' & c' & Ha' & F) & Hn). exists a', c'. rewrite lookup_delete_ne by (intros ->; congruence). done. }
    destruct Hq as [(-> & -> & ->)|(Hne & ->)].
    + rewrite Hbusy, Hfoot by lia. destruct (in_blk _ _ b); [split; [done | by intros [_ []]] | naive_solver].
    + split; [|by intros []]. intros Hbt. split; [done|]. intros F. apply Hne.
      eapply (si_disj _ _ Hinv j k q0 p _ Hj0 Hk); [|by eapply placed_area]. unfold area. lia.
  - intros a1 c1 a2 c2 x [_ H1]%lookup_delete_Some [_ H2]%lookup_delete_Some. by apply (si_sep _ _ Hinv).
  - intros a' c' [_ Ha']%lookup_delete_Some. by apply (si_mem _ _ Hinv).
Qed.
End Change.

(** ** Sizes and addresses *)

Lemma align4 x : fits 64 x -> Z.land x (u64 (Z.lnot 3)) = x / 4 * 4.
Proof.
  intros Hx. assert (Z.land x (u64 (Z.lnot 3)) = Z.ldiff x (Z.ones 2)) as ->.
  { apply Z.bits_inj'. intros i Hi. rewrite Z.land_spec, Z.ldiff_spec. destruct (decide (i < 64)) as [Hlt|Hge].
    - by rewrite u64_lnot_spec by lia.
    - by rewrite (fits_high x) by (done || lia). }
  rewrite Z.ldiff_ones_r by lia. rewrite Z.shiftr_div_pow2, Z.shiftl_mul_pow2 by lia. done.
Qed.

Lemma alloc_size_eq size :
  0 <= size < 2 ^ 32 ->
  Z.land (u64 (u64 (u64 (size + sizeof_block_hdr) + 4) + int_mask)) (u64 (Z.lnot int_mask)) = asize size.
Proof.
  intros Hs. unfold sizeof_block_hdr, int_mask. rewrite align4 by apply u64_fits.
  rewrite (u64_small (size + 16)), (u64_small (size + 16 + 4)), u64_small by (unfold fits; lia).
  unfold asize. do 2 f_equal. lia.
Qed.

Lemma size_to_blocks_eq size : 0 <= size < 2 ^ 32 -> size_to_blocks (asize size) = nblk size.
Proof.
  intros Hs. pose proof (asize_bounds size ltac:(lia)). unfold size_to_blocks, SMALLOC_BPB, nblk.
  rewrite u64_small by (unfold fits; lia). f_equal. lia.
Qed.

Lemma nblk_range size : 0 <= size < 2 ^ 32 -> 1 <= nblk size <= 2 ^ 28.
Proof.
  intros Hs. pose proof (asize_bounds size ltac:(lia)). pose proof (nblk_bounds size ltac:(lia)).
  pose proof (nblk_pos size ltac:(lia)). lia.
Qed.

Lemma in_blocks_area s k p a n :
  mp s !! k = Some p -> p_map p <= a -> a + n <= p_map p + 1024 * nr_blocks p -> in_blocks s a n = true.
Proof.
  intros Hk H1 H2. unfold in_blocks. apply existsb_exists. exists p. split.
  - apply list_elem_of_In. by eapply list_elem_of_lookup_2.
  - unfold SMALLOC_BPL, SMALLOC_BPB, SMALLOC_BPI. apply andb_true_iff. rewrite !Z.leb_le. lia.
Qed.

Lemma postred_eq hdr size :
  0 <= size < 2 ^ 32 -> 0 <= hdr -> hdr mod 32 = 0 -> hdr + asize size <= 2 ^ 63 ->
  PTR_ALIGN (u64 (hdr + asize size - 4)) int_mask = hdr + asize size - 4.
Proof.
  intros Hs Hh Hal Hmax. pose proof (asize_bounds size ltac:(lia)) as [Ha Hm].
  unfold PTR_ALIGN, int_mask. rewrite align4 by apply u64_fits.
  rewrite (u64_small (hdr + asize size - 4)), u64_small by (unfold fits; lia). dlia.
Qed.

(** ** The header, the red zones and the cleared content *)

Definition written (m : mem) (hdr size : Z) : mem :=
  mwrite (mwrite (mwrite (mwrite m hdr (le64 (asize size))) (hdr + 8) (le32 SMALLOC_PRE_RED))
    (hdr + asize size - 4) (le32 SMALLOC_POST_RED)) (hdr + 16) (replicate (Z.to_nat size) NUL).

Lemma rd32_mwrite_disj m a bs b :
  (b + 4 <= a \/ a + Z.of_nat (length bs) <= b) -> rd32 (mwrite m a bs) b = rd32 m b.
Proof. intros. unfold rd32. by rewrite mread_mwrite_disj. Qed.

Lemma rd32_le32 m a v : fits 32 v -> rd32 (mwrite m a (le32 v)) a = v.
Proof.
  intros Hv. unfold rd32. rewrite mread_mwrite_same' by len.
  unfold le32. rewrite le_combine_split. by apply Z.mod_small.
Qed.

Lemma written_block m hdr size :
  0 <= size < 2 ^ 32 -> block_mem (written m hdr size) (hdr + 16) (replicate (Z.to_nat size) NUL).
Proof.
  intros Hs. pose proof (asize_bounds size ltac:(lia)) as [Ha _]. unfold block_mem, written.
  rewrite length_replicate, Z2Nat.id by lia.
  replace (hdr + 16 - 16) with hdr by lia. replace (hdr + 16 - 8) with (hdr + 8) by lia. split_and!.
  - rewrite !rd64_mwrite_disj by (len; lia). apply rd64_le64. unfold fits. lia.
  - rewrite !rd32_mwrite_disj by (len; lia). apply rd32_le32. by split.
  - rewrite rd32_mwrite_disj by (len; lia). apply rd32_le32. by split.
  - apply mread_mwrite_same'. len.
Qed.

Lemma written_frame m hdr size x :
  0 <= size < 2 ^ 32 -> ~ foot (hdr + 16) size x -> mget (written m hdr size) x = mget m x.
Proof.
  intros Hs Hx. pose proof (asize_bounds size ltac:(lia)) as [Ha _]. pose proof (nblk_bounds size ltac:(lia)) as Hn.
  unfold foot in Hx. unfold written. rewrite !mget_mwrite, !decide_False by (len; lia). done.
Qed.

Lemma sm_write_run s a bs :
  in_blocks s a (Z.of_nat (length bs)) = true -> sm_write a bs s = Ret tt (set_mem (mwrite (s_mem s) a bs) s).
Proof. intros H. unfold sm_write. mstep. unfold guard_ub. unfold mbind, M_bind. by rewrite H. Qed.

Lemma sm_rd64_run s a : in_blocks s a 8 = true -> sm_rd64 a s = Ret (rd64 (s_mem s) a) s.
Proof. intros H. unfold sm_rd64. mstep. unfold guard_ub. unfold mbind, M_bind. by rewrite H. Qed.

Lemma sm_rd32_run s a : in_blocks s a 4 = true -> sm_rd32 a s = Ret (rd32 (s_mem s) a) s.
Proof. intros H. unfold sm_rd32. mstep. unfold guard_ub. unfold mbind, M_bind. by rewrite H. Qed.

(** The writes of [smalloc_pool] into the blocks it got. *)
Lemma fill_run s k p hdr size :
  mp s !! k = Some p -> pool_ok p -> 0 <= size < 2 ^ 32 -> placed p (hdr + 16) size ->
  (sm_write hdr (le64 (asize size));; fill_redzone hdr;;
   sm_write (hdr + sizeof_block_hdr) (replicate (Z.to_nat size) NUL);; mret (Some (hdr + sizeof_block_hdr))) s =
  Ret (Some (hdr + 16)) (set_mem (written (s_mem s) hdr size) s).
Proof.
  intros Hk Hp Hs [P1 P2 P3]. replace (hdr + 16 - 16) with hdr in * by lia.
  pose proof (asize_bounds size ltac:(lia)) as [Ha _]. pose proof (nblk_bounds size ltac:(lia)) as Hn.
  pose proof (po_map _ Hp) as (M1 & M2 & M3).
  assert (forall s' b n, mp s' = mp s -> hdr <= b -> b + n <= hdr + asize size -> in_blocks s' b n = true) as Hin.
  { intros s' b n E H1 H2. apply (in_blocks_area s' k p); [congruence | lia | lia]. }
  rewrite (bind_Ret _ _ _ _ _ (sm_write_run s hdr (le64 (asize size)) ltac:(apply Hin; [done | lia | len; lia]))).
  set (s1 := set_mem (mwrite (s_mem s) hdr (le64 (asize size))) s).
  assert (postred_ptr hdr s1 = Ret (hdr + asize size - 4) s1) as Hpost.
  { unfold postred_ptr. rewrite (bind_Ret _ _ _ _ _ (sm_rd64_run s1 hdr ltac:(apply Hin; [done | lia | lia]))).
    cbn [s1 set_mem s_mem]. rewrite rd64_le64 by (unfold fits; lia). rewrite postred_eq by (lia || dlia). done. }
  unfold fill_redzone, sizeof_block_hdr. unfold mbind at 1, M_bind at 1.
  rewrite (bind_Ret _ _ _ _ _ Hpost).
  rewrite (bind_Ret _ _ _ _ _ (sm_write_run s1 (hdr + 8) (le32 SMALLOC_PRE_RED) ltac:(apply Hin; [done | lia | len; lia]))).
  rewrite sm_write_run by (apply Hin; [done | lia | len; lia]).
  erewrite bind_Ret by (apply sm_write_run; apply Hin; [done | lia | len; lia]). done.
Qed.

Inductive smalloc_result (s : smst) (H : gmap Z bytes) (size : Z) : outcome smst (option Z) -> Prop :=
  | sr_some a s' :
      H !! a = None -> length (mp s') = length (mp s) ->
      sm_inv s' (<[a := replicate (Z.to_nat size) NUL]> H) ->
      smalloc_result s H size (Ret (Some a) s')
  | sr_null s' :
      sm_inv s' H -> bitmap <$> mp s' = bitmap <$> mp s -> nr_blocks <$> mp s' = nr_blocks <$> mp s ->
      smalloc_result s H size (Ret None s')
  | sr_trap k p s' :
      mp s !! k = Some p -> trap p -> 1 < nblk size < 32 -> smalloc_result s H size (Undef s').

Lemma smalloc_pool_spec s H k p size :
  sm_inv s H -> mp s !! k = Some p -> 0 <= size < 2 ^ 32 -> smalloc_result s H size (smalloc_pool k size s).
Proof.
  intros Hinv Hk Hs. pose proof (Forall_lookup_1 _ _ _ _ (si_pools _ _ Hinv) Hk) as Hp.
  unfold smalloc_pool. rewrite alloc_size_eq by done.
  pose proof (smalloc_pool_run p (asize size) Hp) as Hres. rewrite size_to_blocks_eq in Hres by done.
  specialize (Hres (nblk_range size Hs)).
  unfold mbind at 1, M_bind at 1. unfold on_pool. rewrite Hk. unfold zoom.
  destruct Hres as [k0 p' Hk0 Hfit Hfree Hp' Em En Hb|p' Hp' Em En Hb|p' Hn Ht].
  - cbv beta iota zeta. pose (c := replicate (Z.to_nat size) NUL).
    assert (clen c = size) as Hc by (unfold clen, c; rewrite length_replicate, Z2Nat.id; lia).
    rewrite <- Hc in Hfit, Hfree, Hb.
    pose proof (alloc_placed p k0 c Hk0 Hfit) as Hpl. rewrite Hc in Hpl.
    rewrite (fill_run _ k p').
    + apply sr_some.
      * by apply (alloc_fresh s H k p Hinv Hk k0 c).
      * cbn [set_pool set_mem mp]. apply length_insert.
      * apply (inv_alloc s H k p p' Hinv Hk Hp' Em En k0 c); try done.
        -- lia.
        -- by apply written_block.
        -- intros x Hx. apply written_frame; [done|]. by rewrite Hc in Hx.
    + cbn [set_pool mp]. rewrite list_lookup_insert_eq by (by eapply lookup_lt_Some). done.
    + done.
    + done.
    + destruct Hpl as [P1 P2 P3]. constructor; rewrite ?Em, ?En; done.
  - cbv beta iota. apply sr_null.
    + by apply (inv_same s H k p p').
    + cbn [set_pool mp]. rewrite list_fmap_insert, Hb. apply list_insert_id. by rewrite list_lookup_fmap, Hk.
    + cbn [set_pool mp]. rewrite list_fmap_insert, En. apply list_insert_id. by rewrite list_lookup_fmap, Hk.
  - cbv beta iota. by apply (sr_trap s H size k p).
Qed.

(** ** The search over the pools *)

Lemma inv_last s H i : sm_inv s H -> 0 <= i <= Z.of_nat (length (mp s)) -> sm_inv (set_last_pool i s) H.
Proof. intros [H1 H2 H3 H4 H5 H6 H7] Hi. by constructor. Qed.

Lemma result_trans s s1 H size o :
  bitmap <$> mp s1 = bitmap <$> mp s -> nr_blocks <$> mp s1 = nr_blocks <$> mp s ->
  smalloc_result s1 H size o -> smalloc_result s H size o.
Proof.
  intros Eb En Hr. destruct Hr as [a s' H1 H2 H3|s' H1 H2 H3|k p s' Hk Ht Hn].
  - apply sr_some; [done | | done]. apply (f_equal length) in Eb. rewrite !length_fmap in Eb. congruence.
  - apply sr_null; congruence.
  - assert ((bitmap <$> mp s1) !! k = Some (bitmap p)) as L1 by by rewrite list_lookup_fmap, Hk.
    assert ((nr_blocks <$> mp s1) !! k = Some (nr_blocks p)) as L2 by by rewrite list_lookup_fmap, Hk.
    rewrite Eb, list_lookup_fmap in L1. rewrite En, list_lookup_fmap in L2.
    destruct (mp s !! k) as [q|] eqn:Eq; [|done]. simpl in L1, L2. injection L1 as L1. injection L2 as L2.
    apply (sr_trap s H size k q); [done | | done]. unfold trap in *. by rewrite L1, L2.
Qed.

Lemma try_pools_spec size H fuel : forall s i end_pool,
  sm_inv s H -> (end_pool <= length (mp s))%nat -> 0 <= size < 2 ^ 32 ->
  smalloc_result s H size (try_pools fuel size i end_pool s).
Proof.
  induction fuel as [|fuel IH]; intros s i end_pool Hinv Hend Hs; cbn [try_pools]; [by apply sr_null|].
  destruct (Nat.leb_spec end_pool i) as [Hle|Hlt]; [by apply sr_null|].
  destruct (lookup_lt_is_Some_2 (mp s) i ltac:(lia)) as [p Hp].
  unfold mbind at 1, M_bind at 1.
  destruct (smalloc_pool_spec s H i p size Hinv Hp Hs) as [a s' H1 H2 H3|s' H1 H2 H3|k q s' H1 H2 H3].
  - cbv beta iota. unfold modify, mbind, M_bind, mret, M_ret. apply sr_some; [done | done|].
    apply inv_last; [done | lia].
  - cbv beta iota. apply (result_trans s s' H size _ H2 H3). apply IH; [done | | done].
    apply (f_equal length) in H2. rewrite !length_fmap in H2. lia.
  - cbv beta iota. by apply (sr_trap s H size k q).
Qed.

Lemma smalloc_spec s H size :
  sm_inv s H -> 0 <= size ->
  size < 2 ^ 32 /\ smalloc_result s H size (smalloc size s) \/ 2 ^ 32 <= size /\ smalloc size s = Ret None s.
Proof.
  intros Hinv Hs. unfold smalloc. destruct (Z.eqb_spec size (u32 size)) as [E|E]; cbn [negb].
  2: { right. split; [|done]. apply Z.nlt_ge. intros Hlt. apply E. symmetry. by apply u32_small. }
  left. assert (size < 2 ^ 32) as Hlt by (rewrite E; apply u32_fits). split; [done|]. mstep.
  set (i := Z.to_nat (last_pool s)). unfold mbind at 1, M_bind at 1.
  pose proof (si_last _ _ Hinv) as Hlast.
  destruct (try_pools_spec size H (length (mp s) - i) s i (length (mp s)) Hinv ltac:(lia) ltac:(lia))
    as [a s' H1 H2 H3|s' H1 H2 H3|k q s' H1 H2 H3]; cbv beta iota.
  - by apply sr_some.
  - destruct (Z.eqb_spec (last_pool s) 0); [by apply sr_null|]. mstep.
    assert (length (mp s') = length (mp s)) as El by (apply (f_equal length) in H2; by rewrite !length_fmap in H2).
    apply (result_trans s (set_last_pool 0 s') H size _ H2 H3).
    apply try_pools_spec; [apply inv_last; [done | lia] | cbn [set_last_pool mp]; lia | lia].
  - by apply (sr_trap s H size k q).
Qed.

(** ** Free *)

Lemma find_pool_spec a ps : forall i j p,
  ps !! j = Some p -> ptr_valid p a = true ->
  exists j' q, find_pool a ps i = Some (i + j')%nat /\ ps !! j' = Some q /\ ptr_valid q a = true.
Proof.
  induction ps as [|q ps IH]; intros i j p Hj Hv; [done|]. cbn [find_pool].
  destruct (ptr_valid q a) eqn:E; [exists 0%nat, q; by rewrite Nat.add_0_r|].
  destruct j as [|j]; simpl in Hj; [congruence|]. destruct (IH (S i) j p Hj Hv) as (j' & r & -> & Hj' & Hr).
  exists (S j'), r. split; [f_equal; lia | done].
Qed.

Lemma ptr_valid_area p a : pool_ok p -> ptr_valid p a = true <-> area p a.
Proof.
  intros Hp. pose proof (pool_nr p (po_shape _ Hp)). unfold ptr_valid, pool_size, area, SMALLOC_BPL, SMALLOC_BPB, SMALLOC_BPI.
  rewrite u32_small by (unfold fits; lia). rewrite andb_true_iff, Z.leb_le, Z.ltb_lt. lia.
Qed.

(** The release of the busy blocks [k0], ..., [k0 + n - 1] of a pool. *)
Lemma clear_range_run p i idx n :
  pool_ok p -> 0 <= i -> 0 <= idx < 32 -> 0 < n < 2 ^ 30 -> 32 * i + idx + n <= 32 * nr_blocks p ->
  (forall k, 32 * i + idx <= k < 32 * i + idx + n -> busy (bitmap p) k = true) ->
  exists p', clear_range i idx n p = Ret tt p' /\ pool_ok p' /\ p_map p' = p_map p /\ nr_blocks p' = nr_blocks p /\
    forall k, 0 <= k -> busy (bitmap p') k = if in_blk (32 * i + idx) n k then false else busy (bitmap p) k.
Proof.
  intros [Hs Hm Hh Hfree] Hi Hidx Hn Hfit Hold.
  destruct (clear_blocks_run p i idx n Hs Hi Hidx Hn Hfit Hold) as (bm & Hrun & Hs' & Hb).
  pose proof (pool_nr p Hs) as Hnr.
  unfold clear_range. rewrite (bind_Ret _ _ _ _ _ Hrun). mstep. eexists. split; [reflexivity|].
  set (p1 := if i <? _ then _ else _).
  assert (p_map p1 = p_map p /\ nr_blocks p1 = nr_blocks p /\ bitmap p1 = bm /\ free_blocks p1 = free_blocks p /\
          0 <= next_non_full p1 <= nr_blocks p) as (E1 & E2 & E3 & E4 & E5).
  { unfold p1. cbn [set_bitmap next_non_full]. destruct (Z.ltb_spec i (next_non_full p)); split_and!; try done; cbn; lia. }
  assert (count_free (busy bm) (32 * nr_blocks p) = free_blocks p + n) as Hcnt.
  { rewrite Hfree, (count_free_range (busy bm) _ (32 * i + idx) (Z.to_nat n)); [|lia | lia|].
    2: { intros k Hk. rewrite Hb by lia. unfold in_blk.
         destruct (Z.leb_spec (32 * i + idx) k), (Z.ltb_spec k (32 * i + idx + n)); done || (exfalso; lia). }
    rewrite Z2Nat.id by lia. f_equal. apply count_free_ext. intros k Hk.
    destruct (in_blk (32 * i + idx) n k) eqn:E; [|by rewrite Hb, E by lia].
    symmetry. apply Hold. unfold in_blk in E. bcases. lia. }
  pose proof (count_free_bounds (busy bm) (32 * nr_blocks p)).
  split; [|cbn [set_free_blocks p_map nr_blocks bitmap]; by rewrite E3].
  constructor; cbn [set_free_blocks p_map nr_blocks bitmap next_non_full free_blocks]; rewrite ?E1, ?E2, ?E3, ?E4.
  - destruct Hs' as [S1 S2]. cbn [set_bitmap nr_blocks bitmap] in S1, S2.
    constructor; cbn [set_free_blocks nr_blocks bitmap]; by rewrite ?E2, ?E3.
  - done.
  - done.
  - rewrite u64_small by (unfold fits; lia). lia.
Qed.

Lemma redzone_run s k p a c :
  mp s !! k = Some p -> pool_ok p -> clen c < 2 ^ 32 -> placed p a (clen c) -> block_mem (s_mem s) a c ->
  sfree_check_redzone (a - 16) s = Ret tt s.
Proof.
  intros Hk Hp Hc [P1 P2 P3] (B1 & B2 & B3 & _). fold (clen c) in *.
  pose proof (asize_bounds (clen c) (clen_pos c)) as [Ha _]. pose proof (nblk_bounds (clen c) (clen_pos c)) as Hn.
  pose proof (clen_pos c). pose proof (po_map _ Hp) as (M1 & M2 & M3).
  assert (forall b n, a - 16 <= b -> b + n <= a - 16 + asize (clen c) -> in_blocks s b n = true) as Hin.
  { intros b n H1 H2. apply (in_blocks_area s k p); [done | lia | lia]. }
  assert (postred_ptr (a - 16) s = Ret (a - 16 + asize (clen c) - 4) s) as Hpost.
  { unfold postred_ptr. rewrite (bind_Ret _ _ _ _ _ (sm_rd64_run s (a - 16) ltac:(apply Hin; lia))).
    rewrite B1, postred_eq by (lia || dlia). done. }
  unfold sfree_check_redzone. rewrite (bind_Ret _ _ _ _ _ Hpost).
  replace (a - 16 + 8) with (a - 8) by lia.
  rewrite (bind_Ret _ _ _ _ _ (sm_rd32_run s (a - 8) ltac:(apply Hin; lia))), B2, Z.eqb_refl. mstep.
  rewrite (bind_Ret _ _ _ _ _ (sm_rd32_run s (a - 16 + asize (clen c) - 4) ltac:(apply Hin; lia))), B3, Z.eqb_refl.
  done.
Qed.

Lemma sfree_run s H a c :
  sm_inv s H -> H !! a = Some c -> exists s', sfree a s = Ret tt s' /\ sm_inv s' (delete a H).
Proof.
  intros Hinv Ha. destruct (si_in _ _ Hinv a c Ha) as (Hc & k & p & Hk & Hpl).
  pose proof (Forall_lookup_1 _ _ _ _ (si_pools _ _ Hinv) Hk) as Hp.
  pose proof (si_mem _ _ Hinv a c Ha) as Hbm. pose proof Hpl as [P1 P2 P3]. pose proof (clen_pos c) as Hc0.
  pose proof (asize_bounds (clen c) Hc0) as [Has _]. pose proof (nblk_bounds (clen c) Hc0) as Hn.
  pose proof (po_map _ Hp) as (M1 & M2 & M3). pose proof (nblk_range (clen c) ltac:(lia)) as Hr.
  pose proof (pool_nr p (po_shape _ Hp)) as Hnr.
  assert (area p a /\ area p (a - 16)) as [A1 A2] by (unfold area; lia).
  unfold sfree. rewrite (proj2 (Z.eqb_neq a 0)) by lia. mstep.
  destruct (find_pool_spec a (mp s) 0 k p Hk) as (j & q & -> & Hj & Hv); [by apply ptr_valid_area|].
  apply ptr_valid_area in Hv; [|by eapply (Forall_lookup_1 _ _ _ _ (si_pools _ _ Hinv))].
  assert (j = k) as -> by (by eapply (si_disj _ _ Hinv j k q p a)). rewrite Nat.add_0_l.
  unfold sfree_pool. rewrite (proj2 (Z.eqb_neq a 0)) by lia.
  unfold sizeof_block_hdr. rewrite u64_small by (unfold fits; lia).
  assert (on_pool k get_st s = Ret p s) as Hget.
  { unfold on_pool. rewrite Hk. unfold zoom, get_st, set_pool. rewrite list_insert_id by done. by destruct s. }
  rewrite (bind_Ret _ _ _ _ _ Hget). rewrite (proj2 (ptr_valid_area p (a - 16) Hp) A2). mstep.
  rewrite (bind_Ret _ _ _ _ _ (redzone_run s k p a c Hk Hp Hc Hpl Hbm)). cbv zeta.
  rewrite (bind_Ret _ _ _ _ _ (sm_rd64_run s (a - 16) ltac:(apply (in_blocks_area s k p); [done | lia | lia]))).
  rewrite (proj1 Hbm). fold (clen c). rewrite size_to_blocks_eq by lia.
  unfold SMALLOC_BPL, SMALLOC_BPB, SMALLOC_BPI. rewrite u64_small by (unfold fits; lia).
  set (off := a - 16 - p_map p) in *.
  rewrite !u32_small by (unfold fits; dlia).
  assert (32 * (off / 32 / 32) + off mod (32 * 32) / 32 = off / 32) as Eoff by dlia.
  replace (off / (32 * 32)) with (off / 32 / 32) by dlia.
  destruct (clear_range_run p (off / 32 / 32) (off mod (32 * 32) / 32) (nblk (clen c)) Hp) as (p' & Hrun & Hp' & E1 & E2 & Hb);
    try (rewrite ?Eoff; dlia).
  { rewrite Eoff. intros b Hb. apply (si_busy _ _ Hinv k p b Hk); [dlia|]. exists a, c. split; [done|].
    unfold foot. dlia. }
  unfold on_pool. rewrite Hk. unfold zoom. rewrite Hrun. eexists. split; [reflexivity|].
  apply (inv_free s H k p p' Hinv Hk Hp' E1 E2 a c Ha Hpl). intros b Hb0. by rewrite Hb, Eoff.
Qed.

(** ** The client's stores *)

Lemma block_mem_store m a c off bs :
  (off + length bs <= length c)%nat -> block_mem m a c ->
  block_mem (mwrite m (a + Z.of_nat off) bs) a (take off c ++ bs ++ drop (off + length bs) c).
Proof.
  intros Hl (H1 & H2 & H3 & H4). pose proof (asize_bounds (Z.of_nat (length c)) ltac:(lia)) as [Ha _].
  assert (length (take off c ++ bs ++ drop (off + length bs) c) = length c) as El by len.
  unfold block_mem. rewrite El. rewrite rd64_mwrite_disj, !rd32_mwrite_disj by lia. split_and!; try done.
  assert (exists r : nat, Z.of_nat (length c) = Z.of_nat off + (Z.of_nat (length bs) + Z.of_nat r)) as [r Er]
    by (exists (length c - off - length bs)%nat; lia).
  rewrite Er, !mread_app by lia. rewrite Er, !mread_app in H4 by lia.
  rewrite mread_mwrite_disj, mread_mwrite_same, mread_mwrite_disj by lia.
  assert (take off c = mread m a (Z.of_nat off)) as -> by (rewrite <- H4; apply take_app_length'; len).
  assert (drop (off + length bs) c = mread m (a + Z.of_nat off + Z.of_nat (length bs)) (Z.of_nat r)) as ->; [|done].
  rewrite <- H4, drop_app_ge by len. apply drop_app_length'. len.
Qed.

(** A change of contents that keeps the addresses and the lengths. *)
Lemma inv_contents s H H' m :
  sm_inv s H ->
  (forall a c', H' !! a = Some c' -> exists c, H !! a = Some c /\ clen c = clen c') ->
  (forall a c, H !! a = Some c -> exists c', H' !! a = Some c' /\ clen c' = clen c) ->
  (forall a c', H' !! a = Some c' -> block_mem m a c') -> sm_inv (set_mem m s) H'.
Proof.
  intros [I1 I2 I3 I4 I5 I6 I7] H1 H2 H3. constructor; cbn [set_mem mp last_pool s_mem]; try done.
  - intros a c' Ha. destruct (H1 a c' Ha) as (c & Hc & <-). by apply I4.
  - intros j p k Hj Hk. rewrite (I5 j p k Hj Hk). split; intros (a & c & Ha & Hf).
    + destruct (H2 a c Ha) as (c' & Hc' & E). exists a, c'. by rewrite E.
    + destruct (H1 a c Ha) as (c' & Hc' & E). exists a, c'. by rewrite E.
  - intros a c a' c' x Ha Ha' Hf Hf'. destruct (H1 a c Ha) as (b & Hb & E), (H1 a' c' Ha') as (b' & Hb' & E').
    rewrite <- E in Hf. rewrite <- E' in Hf'. by apply (I6 a b a' b' x).
Qed.

Lemma store_run s H a c off bs :
  sm_inv s H -> H !! a = Some c -> (off + length bs <= length c)%nat ->
  exists s', sm_write (a + Z.of_nat off) bs s = Ret tt s' /\
    sm_inv s' (<[a := take off c ++ bs ++ drop (off + length bs) c]> H).
Proof.
  intros Hinv Ha Hl. destruct (si_in _ _ Hinv a c Ha) as (Hc & k & p & Hk & [P1 P2 P3]).
  pose proof (asize_bounds (clen c) (clen_pos c)) as [Has _]. pose proof (nblk_bounds (clen c) (clen_pos c)) as Hn.
  eexists. split.
  { apply sm_write_run. apply (in_blocks_area s k p); [done | unfold clen in *; lia | unfold clen in *; lia]. }
  assert (clen (take off c ++ bs ++ drop (off + length bs) c) = clen c) as El by (unfold clen; len).
  apply (inv_contents s H); [done | | |].
  - intros a' c'. destruct (decide (a' = a)) as [->|Hne].
    + rewrite lookup_insert_eq. intros [= <-]. by exists c.
    + rewrite lookup_insert_ne by done. intros Ha'. by exists c'.
  - intros a' c' Ha'. destruct (decide (a' = a)) as [->|Hne].
    + rewrite lookup_insert_eq. eexists. split; [reflexivity|]. congruence.
    + rewrite lookup_insert_ne by done. by exists c'.
  - intros a' c'. destruct (decide (a' = a)) as [->|Hne].
    + rewrite lookup_insert_eq. intros [= <-]. apply block_mem_store; [done|]. by apply (si_mem _ _ Hinv).
    + rewrite lookup_insert_ne by done. intros Ha'. apply (block_mem_frame (s_mem s)); [|by apply (si_mem _ _ Hinv)].
      intros x Hx. rewrite mget_mwrite, decide_False; [done|]. intros Hx'. apply Hne. symmetry.
      apply (si_sep _ _ Hinv a c a' c' x Ha Ha'); unfold foot.
      * unfold clen in *. lia.
      * pose proof (nblk_bounds (clen c') (clen_pos c')). lia.
Qed.

(** ** The first pools *)

(** The rounded size of a pool, its number of words and the size asked of mmap. *)
Definition pool_words (alloc_size : Z) : Z := (Z.max (alloc_size + 20) INITIAL_SIZE + 1023) / 1024.
Definition pool_bytes (alloc_size : Z) : Z := pool_words alloc_size * 1024 + pool_words alloc_size * 4.

Definition new_pool (alloc_size ptr : Z) : pool :=
  let n := pool_words alloc_size in
  mkPool ptr (replicate (Z.to_nat n) 0) (n * SMALLOC_BPB) n 0 (pool_bytes alloc_size).

Lemma pool_words_bounds size : 0 <= size <= 2 ^ 31 -> 0 < pool_words size <= 2 ^ 21 + 1.
Proof. intros H. unfold pool_words, INITIAL_SIZE. dlia. Qed.

Lemma round_up x : 0 <= x -> Z.land (x + 1024 - 1) (Z.lnot (1024 - 1)) = (x + 1023) / 1024 * 1024.
Proof.
  intros Hx. change (1024 - 1) with (Z.ones 10). rewrite <- Z.ldiff_land, Z.ldiff_ones_r by lia.
  rewrite Z.shiftr_div_pow2, Z.shiftl_mul_pow2 by lia. do 2 f_equal. change (2 ^ 10) with 1024. f_equal. lia.
Qed.

Lemma add_pool_run size mapped lock s :
  0 <= size <= 2 ^ 31 -> (length (mp s) < MAX_POOLS)%nat ->
  add_pool size mapped lock s =
  match mapped, lock with
  | Some ptr, true => Ret true (mkSm (mp s ++ [new_pool size ptr]) (last_pool s) (s_mem s))
  | _, _ => Ret false s
  end.
Proof.
  intros Hs Hl. pose proof (pool_words_bounds size Hs) as Hw. unfold add_pool.
  rewrite (proj2 (Nat.eqb_neq _ _)) by lia. unfold sizeof_block_hdr.
  rewrite (u32_small (size + 4)), (u32_small (size + 4 + 16)) by (unfold fits; lia).
  assert ((if size + 4 + 16 <? INITIAL_SIZE then INITIAL_SIZE else size + 4 + 16) = Z.max (size + 20) INITIAL_SIZE) as ->.
  { destruct (Z.ltb_spec (size + 4 + 16) INITIAL_SIZE); lia. }
  change SMALLOC_BPL with 1024. rewrite round_up by (unfold INITIAL_SIZE; lia). fold (pool_words size).
  rewrite (u32_small (pool_words size * 1024)) by (unfold fits; lia). rewrite Z.div_mul by lia.
  rewrite u32_small by (unfold fits; lia). fold (pool_bytes size).
  destruct mapped as [ptr|], lock; done.
Qed.

(** What mmap documents of the mappings it returns: page aligned addresses of
    regions of the size asked for that do not overlap. *)
Record mmap_ok (size : Z) (maps : list (option Z * bool)) : Prop := {
  mm_at : forall i ptr l, maps !! i = Some (Some ptr, l) -> 0 < ptr /\ ptr mod 4096 = 0 /\ ptr + size <= 2 ^ 63;
  mm_apart : forall i j p q l l', i <> j -> maps !! i = Some (Some p, l) -> maps !! j = Some (Some q, l') ->
               p + size <= q \/ q + size <= p
}.

(** The pools made of the leading successful pairs of results. *)
Fixpoint made_pools (size : Z) (maps : list (option Z * bool)) : list pool :=
  match maps with
  | (Some ptr, true) :: maps' => new_pool size ptr :: made_pools size maps'
  | _ => []
  end.

Lemma made_lookup size maps : forall i p,
  made_pools size maps !! i = Some p -> exists ptr, maps !! i = Some (Some ptr, true) /\ p = new_pool size ptr.
Proof.
  induction maps as [|[[ptr|] [|]] maps IH]; intros i p Hi; try done. destruct i as [|i]; simpl in *.
  - exists ptr. by simplify_eq.
  - by apply IH.
Qed.

Lemma sinit_loop_run size maps : forall s i,
  0 <= size <= 2 ^ 31 -> (length (mp s) + length maps <= MAX_POOLS)%nat ->
  sinit_loop size maps i s =
  Ret (i + length (made_pools size maps))%nat (mkSm (mp s ++ made_pools size maps) (last_pool s) (s_mem s)).
Proof.
  induction maps as [|[mapped lock] maps IH]; intros s i Hs Hl; cbn [sinit_loop length] in *.
  { cbn [made_pools length]. rewrite Nat.add_0_r, app_nil_r. by destruct s. }
  unfold mbind, M_bind. rewrite add_pool_run by (done || lia).
  destruct mapped as [ptr|], lock; cbn [negb made_pools length];
    try (rewrite Nat.add_0_r, app_nil_r; by destruct s).
  rewrite IH by (done || (cbn [mp]; len)). cbn [mp last_pool s_mem]. rewrite <- app_assoc. f_equal. lia.
Qed.

Lemma zero_busy n k : busy (replicate n 0) k = false.
Proof.
  unfold busy. rewrite nth_lookup.
  destruct (replicate n 0 !! _) as [w|] eqn:E; simpl; [apply lookup_replicate in E as [-> _]|]; apply Z.testbit_0_l.
Qed.

Lemma new_pool_ok size ptr :
  0 <= size <= 2 ^ 31 -> 0 < ptr -> ptr mod 4096 = 0 -> ptr + pool_bytes size <= 2 ^ 63 -> pool_ok (new_pool size ptr).
Proof.
  intros Hs H1 H2 H3. pose proof (pool_words_bounds size Hs) as Hw. unfold pool_bytes in H3.
  unfold new_pool, SMALLOC_BPB. constructor; cbn.
  - constructor; cbn; [rewrite length_replicate; lia|]. split; [apply Forall_replicate; by split|].
    rewrite length_replicate. lia.
  - split; [done|]. split; [dlia | lia].
  - lia.
  - rewrite count_free_all; [lia | lia|]. intros k. apply zero_busy.
Qed.

Lemma sinit_run size maps :
  0 <= size <= 2 ^ 31 -> mmap_ok (pool_bytes size) maps ->
  exists s, sm_inv s ∅ /\
    sinit size maps start_state =
    match maps with (Some _, true) :: _ => Ret tt s | _ => Exit 134 s end.
Proof.
  intros Hs Hmm. unfold sinit. erewrite bind_Ret.
  2: { apply sinit_loop_run; [done|]. cbn. unfold INITIAL_POOLS, MAX_POOLS. len. }
  rewrite Nat.add_0_l. cbn [start_state mp last_pool s_mem app].
  set (ps := made_pools size (take INITIAL_POOLS maps)).
  exists (mkSm ps 0 ∅). split; [|by destruct maps as [|[[?|] [|]] ?]].
  assert (forall i p, ps !! i = Some p -> exists ptr, maps !! i = Some (Some ptr, true) /\ p = new_pool size ptr) as Hlk.
  { intros i p Hi. destruct (made_lookup _ _ _ _ Hi) as (q & Hq & ->). exists q. split; [|done].
    by apply lookup_take_Some in Hq as [Hq _]. }
  pose proof (pool_words_bounds size Hs) as Hw. constructor; cbn [mp last_pool s_mem].
  - apply Forall_lookup. intros i p Hi. destruct (Hlk i p Hi) as (q & Hq & ->).
    destruct (mm_at _ _ Hmm _ _ _ Hq) as (M1 & M2 & M3). by apply new_pool_ok.
  - intros j k p q x Hj Hk A1 A2. destruct (Hlk j p Hj) as (a & Ha & ->), (Hlk k q Hk) as (b & Hb & ->).
    destruct (decide (j = k)) as [|Hjk]; [done|]. exfalso.
    pose proof (mm_apart _ _ Hmm j k a b _ _ Hjk Ha Hb) as Hap. unfold area, new_pool, pool_bytes in *. cbn in *. lia.
  - lia.
  - by intros a c Ha.
  - intros j p k Hj Hk. destruct (Hlk j p Hj) as (a & Ha & ->). split; [|by intros (? & ? & ? & _)].
    unfold new_pool. cbn [bitmap]. by rewrite zero_busy.
  - by intros a c a' c' x Ha.
  - by intros a c Ha.
Qed.

(** * The specification: a heap of blocks *)

Inductive sop : Type :=
  | SAlloc (size : Z)
  | SFree (ptr : Z)
  | SStore (ptr : Z) (off : nat) (bs : bytes).

Definition do_op (o : sop) : M smst (option Z) :=
  match o with
  | SAlloc size => smalloc size
  | SFree ptr => sfree ptr;; mret None
  | SStore ptr off bs => sm_write (ptr + Z.of_nat off) bs;; mret None
  end.

(** What a client may do: free what it has, store inside it. *)
Definition legal_op (H : gmap Z bytes) (o : sop) : Prop :=
  match o with
  | SAlloc size => 0 <= size
  | SFree ptr => is_Some (H !! ptr)
  | SStore ptr off bs => exists c, H !! ptr = Some c /\ (off + length bs <= length c)%nat
  end.

(** The new block [a] of [size] bytes is apart from all others. *)
Definition apart (H : gmap Z bytes) (a size : Z) : Prop :=
  forall b c, H !! b = Some c -> a + size <= b \/ b + clen c <= a.

Inductive heap_step (H : gmap Z bytes) : sop -> option Z -> gmap Z bytes -> Prop :=
  | hs_alloc size a :
      size < 2 ^ 32 -> H !! a = None -> 0 < a -> a mod 16 = 0 -> apart H a size ->
      heap_step H (SAlloc size) (Some a) (<[a := replicate (Z.to_nat size) NUL]> H)
  | hs_fail size : heap_step H (SAlloc size) None H
  | hs_free ptr : heap_step H (SFree ptr) None (delete ptr H)
  | hs_store ptr off bs c :
      H !! ptr = Some c ->
      heap_step H (SStore ptr off bs) None (<[ptr := take off c ++ bs ++ drop (off + length bs) c]> H).

(** The states of a program that uses the allocator, with the heap it has built. *)
Section Reach.
Context (size : Z) (maps : list (option Z * bool)).

Inductive reach : smst -> gmap Z bytes -> Prop :=
  | reach_init s : sinit size maps start_state = Ret tt s -> reach s ∅
  | reach_step s H o r s' H' :
      reach s H -> legal_op H o -> do_op o s = Ret r s' -> heap_step H o r H' -> reach s' H'.
End Reach.

Lemma inv_apart s H a c :
  sm_inv s H -> H !! a = Some c -> apart (delete a H) a (clen c) /\ 0 < a /\ a mod 16 = 0.
Proof.
  intros Hinv Ha. destruct (si_in _ _ Hinv a c Ha) as (_ & k & p & Hk & [P1 P2 P3]).
  pose proof (Forall_lookup_1 _ _ _ _ (si_pools _ _ Hinv) Hk) as Hp. destruct (po_map _ Hp) as (M1 & M2 & _).
  split; [|split; [lia | dlia]]. intros b c' [Hne Hb]%lookup_delete_Some.
  destruct (Z.le_gt_cases (a + clen c) b) as [|H1]; [by left|].
  destruct (Z.le_gt_cases (b + clen c') a) as [|H2]; [by right|]. exfalso. apply Hne.
  pose proof (asize_bounds (clen c) (clen_pos c)). pose proof (nblk_bounds (clen c) (clen_pos c)).
  pose proof (asize_bounds (clen c') (clen_pos c')). pose proof (nblk_bounds (clen c') (clen_pos c')).
  pose proof (clen_pos c). pose proof (clen_pos c').
  apply (si_sep _ _ Hinv a c b c' (Z.max (a - 16) (b - 16)) Ha Hb); unfold foot; lia.
Qed.

Lemma heap_step_fun H o r H1 H2 : heap_step H o r H1 -> heap_step H o r H2 -> H1 = H2.
Proof. intros S1 S2. inversion S1; subst; inversion S2; subst; try done. congruence. Qed.

(** One operation on a state that represents a heap. *)
Lemma do_op_step s H o :
  sm_inv s H -> legal_op H o ->
  (exists r s' H', do_op o s = Ret r s' /\ heap_step H o r H' /\ sm_inv s' H') \/
  (exists n p s', o = SAlloc n /\ do_op o s = Undef s' /\ 1 < nblk n < 32 /\ p ∈ mp s /\ trap p).
Proof.
  intros Hinv HL. destruct o as [size|ptr|ptr off bs]; cbn [do_op legal_op] in *.
  - destruct (smalloc_spec s H size Hinv HL) as [[Hs Hr]|[Hs Hr]].
    2: { left. exists None, s, H. split; [done|]. split; [constructor | done]. }
    destruct Hr as [a s' H1 H2 H3|s' H1 H2 H3|k p s' H1 H2 H3].
    + left. eexists _, _, _. split; [reflexivity|]. split; [|exact H3].
      destruct (inv_apart s' _ a _ H3 (lookup_insert_eq _ _ _)) as (A1 & A2 & A3).
      rewrite delete_insert_id in A1 by done. unfold clen in A1. rewrite length_replicate, Z2Nat.id in A1 by done.
      by constructor.
    + left. eexists _, _, _. split; [reflexivity|]. split; [constructor | done].
    + right. exists size, p, s'. split_and!; try done; try lia. by eapply list_elem_of_lookup_2.
  - left. destruct HL as [c Hc]. destruct (sfree_run s H ptr c Hinv Hc) as (s' & Hrun & Hi).
    exists None, s', (delete ptr H). split; [by rewrite (bind_Ret _ _ _ _ _ Hrun)|]. split; [constructor | done].
  - left. destruct HL as (c & Hc & Hl). destruct (store_run s H ptr c off bs Hinv Hc Hl) as (s' & Hrun & Hi).
    eexists None, s', _. split; [by rewrite (bind_Ret _ _ _ _ _ Hrun)|]. split; [by econstructor | done].
Qed.

Lemma reach_inv size maps s H :
  0 <= size <= 2 ^ 31 -> mmap_ok (pool_bytes size) maps -> reach size maps s H -> sm_inv s H.
Proof.
  intros Hs Hm Hr. induction Hr as [s Hrun|s H o r s' H' _ IH HL Hrun Hstep].
  - destruct (sinit_run size maps Hs Hm) as (s0 & Hi & E). rewrite E in Hrun.
    destruct maps as [|[[?|] [|]] ?]; try done. by injection Hrun as <-.
  - destruct (do_op_step s H o IH HL) as [(r0 & s0 & H0 & E & Hst & Hi)|(n & p & s0 & _ & E & _)]; [|congruence].
    rewrite E in Hrun. injection Hrun as <- <-. by rewrite (heap_step_fun _ _ _ _ _ Hstep Hst).
Qed.

(** C10: the shared memory allocator of src/fio/smalloc.c implements a heap.  A
    program that, after [sinit], allocates, frees what it has and stores inside
    its blocks always finds the bytes it stored; every operation returns with a
    result of the heap: an allocation is NULL or a fresh zeroed block, aligned to
    16 bytes and apart from all live ones, a free takes away one block and no
    assertion fails.  The one exception is an allocation of 2 to 31 blocks in a
    pool with a word that is not full but whose upper bits are all set: the
    search may then shift by more than the width of a word. *)
Theorem allocator_refines size maps s H :
  0 <= size <= 2 ^ 31 -> mmap_ok (pool_bytes size) maps -> reach size maps s H ->
  (forall a c, H !! a = Some c -> mread (s_mem s) a (clen c) = c) /\
  forall o, legal_op H o ->
    (exists r s' H', do_op o s = Ret r s' /\ heap_step H o r H') \/
    (exists n p s', o = SAlloc n /\ do_op o s = Undef s' /\ 1 < nblk n < 32 /\ p ∈ mp s /\ trap p).
Proof.
  intros Hs Hm Hr. pose proof (reach_inv size maps s H Hs Hm Hr) as Hinv. split.
  - intros a c Ha. by apply (si_mem _ _ Hinv a c Ha).
  - intros o HL. destruct (do_op_step s H o Hinv HL) as [(r & s' & H' & E & Hst & _)|Ht]; [|by right].
    left. by exists r, s', H'.
Qed.

(** ** Examples *)

Definition demo_maps : list (option Z * bool) := (Some 65536, true) :: replicate 7 (None, true).

Lemma demo_maps_ok : mmap_ok (pool_bytes INITIAL_SIZE) demo_maps.
Proof.
  constructor.
  - intros i ptr l Hi. destruct i as [|i]; [injection Hi as <- <-; by vm_compute|].
    apply lookup_replicate in Hi as [[=] _].
  - intros i j p q l l' Hne Hi Hj. destruct i as [|i], j as [|j]; [done | | |];
      (apply lookup_replicate in Hi as [[=] _] || apply lookup_replicate in Hj as [[=] _]).
Qed.

Lemma allocator_refines_witness :
  exists s, reach INITIAL_SIZE demo_maps s ∅ /\
    forall o, legal_op ∅ o ->
    (exists r s' H', do_op o s = Ret r s' /\ heap_step ∅ o r H') \/
    (exists n p s', o = SAlloc n /\ do_op o s = Undef s' /\ 1 < nblk n < 32 /\ p ∈ mp s /\ trap p).
Proof.
  destruct (sinit_run INITIAL_SIZE demo_maps ltac:(unfold INITIAL_SIZE; lia) demo_maps_ok) as (s & _ & E).
  exists s. pose proof (reach_init INITIAL_SIZE demo_maps s E) as Hr. split; [exact Hr|].
  apply (allocator_refines INITIAL_SIZE demo_maps s ∅ ltac:(unfold INITIAL_SIZE; lia) demo_maps_ok Hr).
Defined.

(** A free of an optional pointer. *)
Definition sfree_opt (p : option Z) : M smst unit :=
  match p with Some a => sfree a | None => mret tt end.

(** The shift is reached: 4 blocks and 28 blocks are allocated, the 4 are freed,
    and 5 blocks are asked for.  Block 4 is busy, so the search goes on from bit 5,
    where all bits are set. *)
Lemma smalloc_undefined_shift :
  match (sinit INITIAL_SIZE demo_maps;; p ← smalloc 100; smalloc 860;; sfree_opt p;; smalloc 140) start_state with
  | Undef _ => True
  | _ => False
  end.
Proof. vm_compute. exact I. Qed.

(** The step of the search is the size asked for: in a pool of 64 blocks, of which
    blocks 5 to 14 are busy, 48 blocks are not found although 49 are free in a row. *)
Lemma smalloc_misses_range :
  let p := mkPool 65536 [0x7fe0; 0] 54 2 0 2056 in
  (forall k, 15 <= k < 64 -> busy (bitmap p) k = false) /\ smalloc_pool_ (48 * 32) p = Ret None p.
Proof.
  split; [|vm_compute; reflexivity]. intros k Hk.
  assert (forallb (fun k => negb (busy [0x7fe0; 0] k)) (seqZ 15 49) = true) as H by (vm_compute; reflexivity).
  rewrite forallb_forall in H. specialize (H k). rewrite <- list_elem_of_In in H.
  apply negb_true_iff, H, elem_of_seqZ. lia.
Qed.
