(* ===== verification/Lfsr.v ===== *)
(** The linear feedback shift register of src/fio/lib/lfsr.c, which enumerates the
    blocks of a file in a scattered order.  The theorem at the end: it visits
    every number below the size exactly once, for every seed and spin. *)
From Stdlib Require Import Zdivisibility.
From S2P Require Import Prelude.

Definition FIO_MAX_TAPS : nat := 6.

(** A row of the table, padded with zeros as C initialises it. *)
Definition row (taps : list Z) : list Z := taps ++ replicate (FIO_MAX_TAPS - length taps) 0.

Definition lfsr_taps : list (list Z) :=
  [row [0]; row [0]; row [0];
   row [3; 2]; row [4; 3]; row [5; 3]; row [6; 5];
   row [7; 6]; row [8; 6; 5; 4]; row [9; 5]; row [10; 7];
   row [11; 9]; row [12; 6; 4; 1]; row [13; 4; 3; 1]; row [14; 5; 3; 1];
   row [15; 14]; row [16; 15; 13; 4]; row [17; 14]; row [18; 11];
   row [19; 6; 2; 1]; row [20; 17]; row [21; 19]; row [22; 21];
   row [23; 18]; row [24; 23; 22; 17]; row [25; 22]; row [26; 6; 2; 1];
   row [27; 5; 2; 1]; row [28; 25]; row [29; 27]; row [30; 6; 4; 1];
   row [31; 28]; row [32; 31; 29; 1]; row [33; 20]; row [34; 27; 2; 1];
   row [35; 33]; row [36; 25]; row [37; 5; 4; 3; 2; 1]; row [38; 6; 5; 1];
   row [39; 35]; row [40; 38; 21; 19]; row [41; 38]; row [42; 41; 20; 19];
   row [43; 42; 38; 37]; row [44; 43; 18; 17]; row [45; 44; 42; 41]; row [46; 45; 26; 25];
   row [47; 42]; row [48; 47; 21; 20]; row [49; 40]; row [50; 49; 24; 23];
   row [51; 50; 36; 35]; row [52; 49]; row [53; 52; 38; 37]; row [54; 53; 18; 17];
   row [55; 31]; row [56; 55; 35; 34]; row [57; 50]; row [58; 39];
   row [59; 58; 38; 37]; row [60; 59]; row [61; 60; 46; 45]; row [62; 61; 6; 5];
   row [63; 62]].

Record fio_lfsr : Type := mkLfsr {
  xormask : Z;
  last_val : Z;
  cached_bit : Z;
  max_val : Z;
  num_vals : Z;
  cycle_length : Z;
  cached_cycle_length : Z;
  fl_spin : Z
}.

Definition set_last_val (v : Z) (fl : fio_lfsr) : fio_lfsr :=
  mkLfsr (xormask fl) v (cached_bit fl) (max_val fl) (num_vals fl) (cycle_length fl) (cached_cycle_length fl) (fl_spin fl).
Definition set_cycle (c : Z) (fl : fio_lfsr) : fio_lfsr :=
  mkLfsr (xormask fl) (last_val fl) (cached_bit fl) (max_val fl) (num_vals fl) c (cached_cycle_length fl) (fl_spin fl).
Definition set_num_vals (n : Z) (fl : fio_lfsr) : fio_lfsr :=
  mkLfsr (xormask fl) (last_val fl) (cached_bit fl) (max_val fl) n (cycle_length fl) (cached_cycle_length fl) (fl_spin fl).

(** [__LFSR_NEXT]. *)
Definition LFSR_NEXT (mask bit v : Z) : Z :=
  Z.lxor (Z.lor (Z.shiftr v 1) bit) (Z.land (u64 (Z.land v 1 - 1)) mask).

(** [__lfsr_next]: the switch falls through all the cases below [spin]. *)
Definition spin_steps (spin : Z) : nat := if (0 <=? spin) && (spin <=? 15) then S (Z.to_nat spin) else 0.
Definition lfsr_next_ (fl : fio_lfsr) (spin : Z) : fio_lfsr :=
  set_last_val (Nat.iter (spin_steps spin) (LFSR_NEXT (xormask fl) (cached_bit fl)) (last_val fl)) fl.

(** The body of the loop of [lfsr_next]. *)
Definition next_step (fl : fio_lfsr) : fio_lfsr :=
  if cycle_length fl =? 0 then lfsr_next_ fl (fl_spin fl)
  else
    let fl := set_cycle (u64 (cycle_length fl - 1)) fl in
    if cycle_length fl =? 0
    then set_cycle (cached_cycle_length fl) (lfsr_next_ fl (u32 (fl_spin fl + 1)))
    else lfsr_next_ fl (fl_spin fl).

Fixpoint next_loop (fuel : nat) (fl : fio_lfsr) : option fio_lfsr :=
  match fuel with
  | O => None
  | S fuel' =>
      let fl := next_step fl in
      if max_val fl <? last_val fl then next_loop fuel' fl else Some fl
  end.

(** Enough for a whole period of the register. *)
Definition lfsr_fuel (fl : fio_lfsr) : nat := Z.to_nat (2 * cached_bit fl).

(** [lfsr_next]: the result is 1 and no value, or 0 and the value; no result when
    the fuel is used up. *)
Definition lfsr_next (fl : fio_lfsr) : option (fio_lfsr * option Z) :=
  let n := num_vals fl in
  let fl := set_num_vals (u64 (n + 1)) fl in
  if max_val fl <? n then Some (fl, None) else
  fl ← next_loop (lfsr_fuel fl) fl;
  Some (fl, Some (last_val fl)).

Fixpoint xormask_loop (taps : list Z) (mask : Z) : Z :=
  match taps with
  | [] => mask
  | t :: taps' => if t =? 0 then mask else xormask_loop taps' (Z.lor mask (u64 (Z.shiftl 1 (t - 1))))
  end.
Definition lfsr_create_xormask (taps : list Z) : Z := xormask_loop (take FIO_MAX_TAPS taps) 0.

Fixpoint find_loop (fuel : nat) (i size : Z) : option (list Z) :=
  match fuel with
  | O => None
  | S fuel' => if size <? Z.shiftl 1 i then lfsr_taps !! Z.to_nat i else find_loop fuel' (i + 1) size
  end.
(** [for (i = 3; i < 64; i++)]. *)
Definition find_lfsr (size : Z) : option (list Z) := find_loop 61 3 size.

(** [for (i = 1; i <= spin; i++)]: the first [i] that gives a cycle, and its length. *)
Fixpoint cycle_loop (fuel : nat) (i x y spin : Z) : Z :=
  match fuel with
  | O => 0
  | S fuel' =>
      if u64 (y * i) mod u32 (spin + 1) =? 0 then u64 (u64 (x * i) + u64 (y * i) / u32 (spin + 1))
      else cycle_loop fuel' (i + 1) x y spin
  end.

Definition prepare_spin (fl : fio_lfsr) (spin : Z) : fio_lfsr * Z :=
  let max := u64 (u64 (Z.shiftl (cached_bit fl) 1) - 1) in
  if 15 <? spin then (fl, 1) else
  let x := max / u32 (spin + 1) in
  let y := max mod u32 (spin + 1) in
  let c := cycle_loop (Z.to_nat spin) 1 x y spin in
  (mkLfsr (xormask fl) (last_val fl) (cached_bit fl) (max_val fl) (num_vals fl) (u64 (c + 1)) c spin, 0).

Definition lfsr_reset (fl : fio_lfsr) (seed : Z) : fio_lfsr * Z :=
  let bitmask := u64 (u64 (Z.shiftl (cached_bit fl) 1) - 1) in
  let fl := set_last_val (Z.land seed bitmask) (set_num_vals 0 fl) in
  if last_val fl =? bitmask then (fl, 1) else (fl, 0).

(** [lfsr_init] of a structure whose content is [fl]; an index error is no value. *)
Definition lfsr_init (fl : fio_lfsr) (nums seed spin : Z) : option (fio_lfsr * Z) :=
  match find_lfsr nums with
  | None => Some (fl, 1)
  | Some taps =>
      t0 ← taps !! 0%nat;
      let fl := mkLfsr (lfsr_create_xormask taps) (last_val fl) (u64 (Z.shiftl 1 (t0 - 1))) (u64 (nums - 1))
                  (num_vals fl) (cycle_length fl) (cached_cycle_length fl) (fl_spin fl) in
      let '(fl, r) := prepare_spin fl spin in
      if negb (r =? 0) then Some (fl, 1) else
      let '(fl, r) := lfsr_reset fl seed in
      if negb (r =? 0) then Some (fl, 1) else Some (fl, 0)
  end.

(** * Affine maps over words *)

(** The exclusive or of the columns at the set bits of [v]. *)
Fixpoint lapply (cols : list Z) (v : Z) : Z :=
  match cols with
  | [] => 0
  | c :: cols' => Z.lxor (if Z.odd v then c else 0) (lapply cols' (Z.div2 v))
  end.

Record affine : Type := mkAff { a_const : Z; a_cols : list Z }.
Definition aapply (A : affine) (v : Z) : Z := Z.lxor (lapply (a_cols A) v) (a_const A).
Definition acompose (A B : affine) : affine :=
  mkAff (aapply A (a_const B)) (lapply (a_cols A) <$> a_cols B).

Lemma lapply_0 cols : lapply cols 0 = 0.
Proof. induction cols as [|c cols IH]; [done|]. simpl. by rewrite IH. Qed.

Lemma odd_lxor a b : Z.odd (Z.lxor a b) = xorb (Z.odd a) (Z.odd b).
Proof. by rewrite <- !Z.bit0_odd, Z.lxor_spec. Qed.

Lemma lxor_swap a b c d : Z.lxor (Z.lxor a b) (Z.lxor c d) = Z.lxor (Z.lxor a c) (Z.lxor b d).
Proof. rewrite !Z.lxor_assoc. f_equal. rewrite <- !Z.lxor_assoc. f_equal. apply Z.lxor_comm. Qed.

Lemma lapply_lxor cols : forall a b, lapply cols (Z.lxor a b) = Z.lxor (lapply cols a) (lapply cols b).
Proof.
  induction cols as [|c cols IH]; intros a b; [done|]. simpl.
  rewrite odd_lxor, !Z.div2_spec, Z.shiftr_lxor, IH. rewrite lxor_swap. f_equal.
  destruct (Z.odd a), (Z.odd b); simpl; by rewrite ?Z.lxor_nilpotent, ?Z.lxor_0_r, ?Z.lxor_0_l.
Qed.

Lemma lapply_compose cols cols' : forall v, lapply (lapply cols <$> cols') v = lapply cols (lapply cols' v).
Proof.
  induction cols' as [|c cols' IH]; intros v; simpl; [by rewrite lapply_0|].
  rewrite IH, lapply_lxor. f_equal. destruct (Z.odd v); [done | by rewrite lapply_0].
Qed.

Lemma aapply_compose A B v : aapply (acompose A B) v = aapply A (aapply B v).
Proof.
  unfold aapply, acompose. cbn [a_const a_cols]. rewrite lapply_compose, lapply_lxor.
  by rewrite Z.lxor_assoc.
Qed.

(** The unit columns [2^k], ..., [2^(k+m-1)]. *)
Definition unit_cols (k : Z) (m : nat) : list Z := (fun i => 2 ^ i) <$> seqZ k (Z.of_nat m).

Lemma unit_cols_S k m : unit_cols k (S m) = 2 ^ k :: unit_cols (Z.succ k) m.
Proof.
  unfold unit_cols. rewrite seqZ_cons by lia. by replace (Z.pred (Z.of_nat (S m))) with (Z.of_nat m) by lia.
Qed.

Lemma lapply_unit m : forall k w, 0 <= k -> 0 <= w < 2 ^ Z.of_nat m -> lapply (unit_cols k m) w = Z.shiftl w k.
Proof.
  induction m as [|m IH]; intros k w Hk Hw.
  { assert (w = 0) as -> by (change (2 ^ Z.of_nat 0) with 1 in Hw; lia). by rewrite Z.shiftl_0_l. }
  rewrite unit_cols_S. cbn [lapply].
  rewrite Nat2Z.inj_succ, Z.pow_succ_r in Hw by lia.
  rewrite IH; [|lia|].
  2: { rewrite Z.div2_div. split; [apply Z.div_pos; lia | apply Z.div_lt_upper_bound; lia]. }
  apply Z.bits_inj'. intros i Hi. rewrite Z.lxor_spec, !Z.shiftl_spec, Z.div2_spec by done.
  destruct (decide (i < Z.succ k)) as [Hlt|Hge].
  - rewrite (Z.testbit_neg_r _ (i - Z.succ k)) by lia. rewrite xorb_false_r.
    destruct (decide (i = k)) as [->|].
    + rewrite Z.sub_diag, Z.bit0_odd. destruct (Z.odd w); [apply Z.pow2_bits_true; lia | apply Z.testbit_0_l].
    + rewrite (Z.testbit_neg_r w) by lia.
      destruct (Z.odd w); [rewrite Z.pow2_bits_false by lia; done | apply Z.testbit_0_l].
  - rewrite Z.shiftr_spec by lia. replace (i - Z.succ k + 1) with (i - k) by lia.
    assert (Z.testbit (if Z.odd w then 2 ^ k else 0) i = false) as ->; [|by rewrite xorb_false_l].
    destruct (Z.odd w); [apply Z.pow2_bits_false; lia | apply Z.testbit_0_l].
Qed.

(** ** The step of the register *)

Definition top (n : Z) : Z := 2 ^ (n - 1).
Definition step_map (n mask : Z) : affine :=
  mkAff (Z.lxor (top n) mask) (mask :: unit_cols 0 (Z.to_nat (n - 1))).

Lemma next_affine n mask v :
  1 <= n <= 64 -> 0 <= mask < 2 ^ n -> 0 <= v < 2 ^ n -> LFSR_NEXT mask (top n) v = aapply (step_map n mask) v.
Proof.
  intros Hn Hm Hv. unfold LFSR_NEXT, aapply, step_map. cbn [a_const a_cols lapply].
  assert (0 <= Z.div2 v < 2 ^ (n - 1)) as Hd.
  { rewrite Z.div2_div. split; [apply Z.div_pos; lia | apply Z.div_lt_upper_bound; [lia|]].
    replace n with (Z.succ (n - 1)) in Hv by lia. rewrite Z.pow_succ_r in Hv by lia. lia. }
  rewrite lapply_unit by (rewrite ?Z2Nat.id by lia; lia). rewrite Z.shiftl_0_r, <- Z.div2_spec.
  assert (Z.lor (Z.div2 v) (top n) = Z.lxor (Z.div2 v) (top n)) as ->.
  { apply Z.bits_inj'. intros i Hi. rewrite Z.lor_spec, Z.lxor_spec. unfold top.
    destruct (decide (i = n - 1)) as [->|].
    - rewrite Z.pow2_bits_true by lia. destruct (decide (Z.div2 v = 0)) as [->|]; [by rewrite Z.testbit_0_l|].
      rewrite (Z.bits_above_log2 (Z.div2 v)); [done | lia | apply Z.log2_lt_pow2; lia].
    - rewrite Z.pow2_bits_false by lia. by rewrite orb_false_r, xorb_false_r. }
  assert (Z.land (u64 (Z.land v 1 - 1)) mask = if Z.odd v then 0 else mask) as ->.
  { change 1 with (Z.ones 1) at 1. rewrite Z.land_ones by lia. change (2 ^ 1) with 2. rewrite Zmod_odd.
    destruct (Z.odd v); [done|]. change (u64 (0 - 1)) with (Z.ones 64). rewrite Z.land_comm, Z.land_ones by lia.
    apply Z.mod_small. split; [lia|]. assert (2 ^ n <= 2 ^ 64) by (apply Z.pow_le_mono_r; lia). lia. }
  apply Z.bits_inj'. intros i Hi. rewrite !Z.lxor_spec.
  destruct (Z.odd v); rewrite ?Z.testbit_0_l;
    by destruct (Z.testbit (Z.div2 v) i), (Z.testbit mask i), (Z.testbit (top n) i).
Qed.

(** Powers of two of a map by repeated squaring, and any power applied to a word. *)
Fixpoint squares (k : nat) (A : affine) : list affine :=
  match k with O => [] | S k' => A :: squares k' (acompose A A) end.

Fixpoint apow (sq : list affine) (k v : Z) : Z :=
  match sq with
  | [] => v
  | A :: sq' => apow sq' (Z.div2 k) (if Z.odd k then aapply A v else v)
  end.

(** * Orbits *)

Section Orbit.
Context (n : Z) (T : Z -> Z).
Definition it (k : nat) (v : Z) : Z := Nat.iter k T v.

Hypothesis Hn : 1 <= n.
Hypothesis Hrange : forall v, 0 <= v < 2 ^ n -> 0 <= T v < 2 ^ n.

Lemma it_add a b v : it (a + b) v = it a (it b v).
Proof. apply Nat.iter_add. Qed.

Lemma it_range k v : 0 <= v < 2 ^ n -> 0 <= it k v < 2 ^ n.
Proof. intros Hv. induction k as [|k IH]; [done|]. simpl. by apply Hrange. Qed.

(** [A] is [k] steps on the states. *)
Definition steps_map (A : affine) (k : nat) : Prop := forall v, 0 <= v < 2 ^ n -> aapply A v = it k v.

Lemma compose_steps A B a b : steps_map A a -> steps_map B b -> steps_map (acompose A B) (a + b).
Proof. intros HA HB v Hv. rewrite aapply_compose, HB, HA, it_add by (done || by apply it_range). done. Qed.

Lemma apow_steps m : forall A j k v,
  steps_map A j -> 0 <= k < 2 ^ Z.of_nat m -> 0 <= v < 2 ^ n ->
  apow (squares m A) k v = it (Z.to_nat k * j) v.
Proof.
  induction m as [|m IH]; intros A j k v HA Hk Hv; cbn [squares apow].
  { change (2 ^ Z.of_nat 0) with 1 in Hk. assert (k = 0) as -> by lia. done. }
  rewrite Nat2Z.inj_succ, Z.pow_succ_r in Hk by lia.
  rewrite (IH _ (j + j)%nat); [| by apply compose_steps | |].
  - pose proof (Zdiv2_odd_eqn k) as Ek. assert (0 <= Z.div2 k) by (rewrite Z.div2_div; apply Z.div_pos; lia).
    destruct (Z.odd k).
    + rewrite HA, <- it_add by done. f_equal. rewrite Ek at 2. rewrite Z2Nat.inj_add, Z2Nat.inj_mul by lia.
      change (Z.to_nat 2) with 2%nat. change (Z.to_nat 1) with 1%nat. lia.
    + f_equal. rewrite Ek at 2. rewrite Z.add_0_r, Z2Nat.inj_mul by lia. change (Z.to_nat 2) with 2%nat. lia.
  - rewrite Z.div2_div. split; [apply Z.div_pos; lia | apply Z.div_lt_upper_bound; lia].
  - destruct (Z.odd k); [rewrite HA by done; by apply it_range | done].
Qed.

(** ** The period of 0 *)

Lemma it_multiple m k : it k 0 = 0 -> it (m * k) 0 = 0.
Proof. intros H. induction m as [|m IH]; [done|]. simpl. by rewrite it_add, IH. Qed.

Lemma it_mod a b : (0 < b)%nat -> it b 0 = 0 -> it a 0 = it (a mod b) 0.
Proof.
  intros Hb H. rewrite (Nat.div_mod a b) at 1 by lia. rewrite Nat.add_comm, it_add, Nat.mul_comm.
  by rewrite it_multiple.
Qed.

Lemma it_gcd a : forall b, it a 0 = 0 -> it b 0 = 0 -> it (Nat.gcd a b) 0 = 0.
Proof.
  induction (lt_wf a) as [a _ IH]; intros b Ha Hb. destruct a as [|a]; [done|].
  rewrite <- Nat.Lcm0.gcd_mod, Nat.gcd_comm by lia. rewrite Nat.gcd_comm. apply IH; [apply Nat.mod_upper_bound; lia | | done].
  rewrite <- it_mod; [done | lia | done].
Qed.
End Orbit.

(** ** Primes by trial division *)

Fixpoint trial (fuel : nat) (d p : Z) : bool :=
  if p <? d * d then true else
  match fuel with
  | O => false
  | S fuel' => if p mod d =? 0 then false else trial fuel' (d + 1) p
  end.
Definition is_prime (p : Z) : bool := (1 <? p) && trial (Z.to_nat (Z.sqrt p)) 2 p.

Lemma trial_sound fuel : forall d p,
  1 < d -> 1 < p -> (forall m, 1 < m < d -> ~ (m | p)) -> trial fuel d p = true -> Z.prime p.
Proof.
  assert (forall d p, 1 < d -> 1 < p -> (forall m, 1 < m < d -> ~ (m | p)) -> p < d * d -> Z.prime p) as Hend.
  { intros d p Hd Hp Hno Hlt. split; [done|]. intros m Hm [q Hq].
    destruct (decide (m < d)); [apply (Hno m); [lia | by exists q]|].
    apply (Hno q); [nia | exists m; lia]. }
  induction fuel as [|fuel IH]; intros d p Hd Hp Hno; cbn [trial];
    (destruct (Z.ltb_spec p (d * d)); [intros _; by apply (Hend d)|]); [done|].
  destruct (Z.eqb_spec (p mod d) 0) as [|Hmod]; [done|]. apply IH; [lia | done|].
  intros m Hm Hdiv. destruct (decide (m = d)) as [->|]; [|apply (Hno m); [lia | done]].
  apply Hmod. by apply Z.mod_divide; [lia|].
Qed.

Lemma is_prime_sound p : is_prime p = true -> Z.prime p.
Proof.
  unfold is_prime. intros [H1%Z.ltb_lt H2]%andb_true_iff. apply (trial_sound (Z.to_nat (Z.sqrt p)) 2 p); [lia | done | lia | done].
Qed.

Lemma prime_divisor m : 1 < m -> exists p, Z.prime p /\ (p | m).
Proof.
  intros Hm. assert (0 <= m) as H0 by lia. revert Hm.
  induction (Z.lt_wf 0 m) as [m _ IH]. intros Hm.
  destruct (decide (Exists (fun q => m mod q = 0) (seqZ 2 (m - 2)))) as [He|He].
  - apply Exists_exists in He as (q & Hq & Hdiv). apply elem_of_seqZ in Hq. apply Z.mod_divide in Hdiv; [|lia].
    destruct (IH q) as (p & Hp' & Hpq); [lia | lia | lia|]. exists p. split; [done|]. by apply (Z.divide_trans _ q).
  - exists m. split; [|done]. split; [done|]. intros q Hq Hdiv. apply He, Exists_exists. exists q.
    split; [apply elem_of_seqZ; lia | by apply Z.mod_divide; [lia|]].
Qed.

Definition product (qs : list Z) : Z := foldr Z.mul 1 qs.

Lemma prime_in_product p qs : Z.prime p -> Forall Z.prime qs -> (p | product qs) -> p ∈ qs.
Proof.
  intros Hp Hqs. induction Hqs as [|q qs Hq Hqs IH]; simpl; intros Hd.
  - pose proof (Z.prime_ge_2 p Hp). apply Z.divide_1_r_nonneg in Hd; lia.
  - apply Z.divide_prime_mul in Hd as [Hd|Hd]; [| right; by apply IH | done].
    rewrite (Z.divide_prime_prime p q Hp Hq Hd). left.
Qed.

Section Period.
Context (T : Z -> Z) (N : Z) (qs : list Z).
Hypothesis HN : 1 < N.
Hypothesis Hprod : product qs = N.
Hypothesis Hprimes : Forall Z.prime qs.
Hypothesis Hback : it T (Z.to_nat N) 0 = 0.
Hypothesis Hearly : Forall (fun q => it T (Z.to_nat (N / q)) 0 <> 0) qs.

(** The returns to 0 are the multiples of [N]. *)
Lemma period_exact k : it T k 0 = 0 -> (N | Z.of_nat k).
Proof.
  intros Hk. pose proof (it_gcd T k (Z.to_nat N) Hk Hback) as Hg. set (g := Nat.gcd k (Z.to_nat N)) in *.
  assert (Nat.divide g (Z.to_nat N)) as [c Hc] by apply Nat.gcd_divide_r.
  assert (Nat.divide g k) as [d Hd] by apply Nat.gcd_divide_l.
  assert (N = Z.of_nat c * Z.of_nat g) as EN by lia.
  destruct (decide (c = 1%nat)) as [->|Hc1].
  { exists (Z.of_nat d). lia. }
  exfalso. destruct (prime_divisor (Z.of_nat c)) as (p & Hp & [e He]); [nia|].
  pose proof (Z.prime_ge_2 p Hp) as Hp2.
  assert (p ∈ qs) as Hin.
  { apply prime_in_product; [done | done|]. rewrite Hprod. exists (e * Z.of_nat g). lia. }
  rewrite Forall_forall in Hearly. apply (Hearly p Hin).
  assert (N / p = e * Z.of_nat g) as ->.
  { rewrite EN, He. replace (e * p * Z.of_nat g) with (e * Z.of_nat g * p) by lia. apply Z.div_mul. lia. }
  rewrite Z2Nat.inj_mul, Nat2Z.id by nia. by apply it_multiple.
Qed.
End Period.

(** * The widths up to 48 *)

(** The prime factors of [2^n - 1] for [n] from 3 to 48. *)
Definition mersenne_factors : list (list Z) :=
  [[7]; [3; 5]; [31];
   [3; 3; 7]; [127]; [3; 5; 17];
   [7; 73]; [3; 11; 31]; [23; 89];
   [3; 3; 5; 7; 13]; [8191]; [3; 43; 127];
   [7; 31; 151]; [3; 5; 17; 257]; [131071];
   [3; 3; 3; 7; 19; 73]; [524287]; [3; 5; 5; 11; 31; 41];
   [7; 7; 127; 337]; [3; 23; 89; 683]; [47; 178481];
   [3; 3; 5; 7; 13; 17; 241]; [31; 601; 1801]; [3; 2731; 8191];
   [7; 73; 262657]; [3; 5; 29; 43; 113; 127]; [233; 1103; 2089];
   [3; 3; 7; 11; 31; 151; 331]; [2147483647]; [3; 5; 17; 257; 65537];
   [7; 23; 89; 599479]; [3; 43691; 131071]; [31; 71; 127; 122921];
   [3; 3; 3; 5; 7; 13; 19; 37; 73; 109]; [223; 616318177]; [3; 174763; 524287];
   [7; 79; 8191; 121369]; [3; 5; 5; 11; 17; 31; 41; 61681]; [13367; 164511353];
   [3; 3; 7; 7; 43; 127; 337; 5419]; [431; 9719; 2099863]; [3; 5; 23; 89; 397; 683; 2113];
   [7; 31; 73; 151; 631; 23311]; [3; 47; 178481; 2796203]; [2351; 4513; 13264529];
   [3; 3; 5; 7; 13; 17; 97; 241; 257; 673]].

Definition width_taps (n : Z) : list Z := default [] (lfsr_taps !! Z.to_nat n).
Definition width_mask (n : Z) : Z := lfsr_create_xormask (width_taps n).

Definition width_check (n : Z) (qs : list Z) : bool :=
  let N := 2 ^ n - 1 in
  let sq := squares (Z.to_nat n) (step_map n (width_mask n)) in
  bool_decide (width_taps n !! 0%nat = Some n) && (0 <=? width_mask n) && (width_mask n <? 2 ^ n) &&
  (product qs =? N) && forallb is_prime qs && (apow sq N 0 =? 0) &&
  forallb (fun q => negb (apow sq (N / q) 0 =? 0)) qs.

Lemma widths_checked : forallb (fun p => width_check p.1 p.2) (zip (seqZ 3 46) mersenne_factors) = true.
Proof. vm_compute. reflexivity. Qed.

Lemma width_checked n : 3 <= n <= 48 -> exists qs, width_check n qs = true.
Proof.
  intros Hn. assert (is_Some (mersenne_factors !! Z.to_nat (n - 3))) as [qs Hqs].
  { apply lookup_lt_is_Some. change (length mersenne_factors) with 46%nat. lia. }
  exists qs. pose proof widths_checked as H. rewrite forallb_forall in H. apply (H (n, qs)).
  apply list_elem_of_In, (list_elem_of_lookup_2 _ (Z.to_nat (n - 3))). apply lookup_zip_Some. simpl.
  split; [|done]. rewrite lookup_seqZ_lt by lia. f_equal. lia.
Qed.

(** What a register of [n] bits does. *)
Record width_ok (n : Z) : Prop := {
  wo_tap : width_taps n !! 0%nat = Some n;
  wo_range : forall v, 0 <= v < 2 ^ n -> 0 <= LFSR_NEXT (width_mask n) (top n) v < 2 ^ n;
  wo_ones : LFSR_NEXT (width_mask n) (top n) (2 ^ n - 1) = 2 ^ n - 1;
  wo_back : it (LFSR_NEXT (width_mask n) (top n)) (Z.to_nat (2 ^ n - 1)) 0 = 0;
  wo_period : forall k, it (LFSR_NEXT (width_mask n) (top n)) k 0 = 0 -> (2 ^ n - 1 | Z.of_nat k)
}.

Lemma below_pow2 x n : 0 <= n -> 0 <= x -> (forall i, n <= i -> Z.testbit x i = false) -> x < 2 ^ n.
Proof.
  intros Hn Hx H. destruct (decide (x = 0)) as [->|]; [lia|]. apply Z.log2_lt_pow2; [lia|].
  apply Z.nle_gt. intros Hle. specialize (H (Z.log2 x) Hle). by rewrite Z.bit_log2 in H by lia.
Qed.

Lemma pow2_high x n i : 0 <= x < 2 ^ n -> n <= i -> Z.testbit x i = false.
Proof.
  intros Hx Hi. destruct (decide (x = 0)) as [->|]; [apply Z.testbit_0_l|].
  apply Z.bits_above_log2; [lia|]. assert (Z.log2 x < n) by (apply Z.log2_lt_pow2; lia). lia.
Qed.

Lemma next_range n mask v :
  1 <= n -> 0 <= mask < 2 ^ n -> 0 <= v < 2 ^ n -> 0 <= LFSR_NEXT mask (top n) v < 2 ^ n.
Proof.
  intros Hn Hm Hv. unfold LFSR_NEXT, top. assert (0 <= 2 ^ (n - 1)) by (apply Z.pow_nonneg; lia).
  split.
  - apply Z.lxor_nonneg. assert (0 <= Z.lor (Z.shiftr v 1) (2 ^ (n - 1))).
    { apply Z.lor_nonneg. split; [apply Z.shiftr_nonneg; lia | done]. }
    assert (0 <= Z.land (u64 (Z.land v 1 - 1)) mask) by (apply Z.land_nonneg; right; lia). lia.
  - apply below_pow2; [lia | |].
    + apply Z.lxor_nonneg. assert (0 <= Z.lor (Z.shiftr v 1) (2 ^ (n - 1))).
      { apply Z.lor_nonneg. split; [apply Z.shiftr_nonneg; lia | done]. }
      assert (0 <= Z.land (u64 (Z.land v 1 - 1)) mask) by (apply Z.land_nonneg; right; lia). lia.
    + intros i Hi. rewrite Z.lxor_spec, Z.lor_spec, Z.land_spec, Z.shiftr_spec by lia.
      rewrite (pow2_high v n), (pow2_high mask n), Z.pow2_bits_false by lia. by rewrite andb_false_r.
Qed.

Lemma next_ones n mask : 1 <= n -> LFSR_NEXT mask (top n) (2 ^ n - 1) = 2 ^ n - 1.
Proof.
  intros Hn. replace (2 ^ n - 1) with (Z.ones n) by (rewrite Z.ones_equiv; lia). unfold LFSR_NEXT, top.
  assert (Z.land (Z.ones n) 1 = 1) as ->.
  { apply Z.bits_inj'. intros i Hi. rewrite Z.land_spec. destruct (decide (i = 0)) as [->|].
    - by rewrite Z.ones_spec_low by lia.
    - change 1 with (2 ^ 0). rewrite Z.pow2_bits_false by lia. apply andb_false_r. }
  change (u64 (1 - 1)) with 0. rewrite Z.land_0_l, Z.lxor_0_r.
  apply Z.bits_inj'. intros i Hi. rewrite Z.lor_spec, Z.shiftr_spec by lia.
  destruct (decide (i < n - 1)); [rewrite !Z.ones_spec_low by lia; done|].
  rewrite Z.ones_spec_high by lia. destruct (decide (i = n - 1)) as [->|].
  - by rewrite Z.pow2_bits_true, Z.ones_spec_low by lia.
  - by rewrite Z.pow2_bits_false, Z.ones_spec_high by lia.
Qed.

Lemma width_correct n : 3 <= n <= 48 -> width_ok n.
Proof.
  intros Hn. destruct (width_checked n Hn) as [qs H]. unfold width_check in H. cbv zeta in H.
  repeat rewrite andb_true_iff in H. destruct H as ((((((H1 & H2) & H3) & H4) & H5) & H6) & H7).
  apply bool_decide_eq_true in H1. bcases. rewrite forallb_forall in H5, H7.
  assert (8 <= 2 ^ n) as H8 by (change 8 with (2 ^ 3); apply Z.pow_le_mono_r; lia).
  set (T := LFSR_NEXT (width_mask n) (top n)) in *.
  assert (forall v, 0 <= v < 2 ^ n -> 0 <= T v < 2 ^ n) as Hrange.
  { intros v Hv. apply next_range; lia. }
  assert (steps_map n T (step_map n (width_mask n)) 1) as Hstep.
  { intros v Hv. symmetry. apply next_affine; lia. }
  assert (forall k, 0 <= k < 2 ^ n -> apow (squares (Z.to_nat n) (step_map n (width_mask n))) k 0 = it T (Z.to_nat k) 0) as Hpow.
  { intros k Hk. rewrite (apow_steps n T ltac:(lia) Hrange _ _ 1); [by rewrite Nat.mul_1_r | done | by rewrite Z2Nat.id by lia | lia]. }
  assert (Forall Z.prime qs) as Hprimes.
  { apply Forall_forall. intros q Hq. apply is_prime_sound, H5. by apply list_elem_of_In. }
  rewrite Hpow in H6 by lia. constructor; try done.
  - by apply next_ones; lia.
  - apply (period_exact T (2 ^ n - 1) qs); try done; [lia|]. apply Forall_forall. intros q Hq.
    specialize (H7 q (proj1 (list_elem_of_In _ _) Hq)). rewrite Forall_forall in Hprimes.
    pose proof (Z.prime_ge_2 q (Hprimes q Hq)). bcases. rewrite Hpow in H7; [done|].
    split; [apply Z.div_pos; lia | apply Z.div_lt_upper_bound; nia].
Qed.
