(* ===== verification/LfsrSpec.v ===== *)
(** The enumeration of src/fio/lib/lfsr.c: the values of a whole run are every
    number below the size exactly once, for every seed and every spin. *)
From Stdlib Require Import Zdivisibility.
From S2P Require Import Prelude Lfsr.

(** [m] calls of [lfsr_next], each of which has to give a value. *)
Fixpoint lfsr_calls (m : nat) (fl : fio_lfsr) : option (fio_lfsr * list Z) :=
  match m with
  | O => Some (fl, [])
  | S m' =>
      match lfsr_next fl with
      | Some (fl', Some v) => '(fl'', l) ← lfsr_calls m' fl'; Some (fl'', v :: l)
      | _ => None
      end
  end.

(** * The values of a run *)

(** The values [last_val] takes in the next [j] rounds of the loop. *)
Fixpoint trail (j : nat) (fl : fio_lfsr) : list Z :=
  match j with
  | O => []
  | S j' => last_val (next_step fl) :: trail j' (next_step fl)
  end.

(** The values the caller sees. *)
Definition in_range (m : Z) (l : list Z) : list Z := filter (fun v => v <= m) l.

Lemma next_step_frame fl :
  max_val (next_step fl) = max_val fl /\ num_vals (next_step fl) = num_vals fl /\
  cached_bit (next_step fl) = cached_bit fl.
Proof. unfold next_step. by repeat case_match. Qed.

Lemma next_step_num_vals c fl : next_step (set_num_vals c fl) = set_num_vals c (next_step fl).
Proof. unfold next_step, lfsr_next_. cbn. by repeat case_match. Qed.

Lemma trail_num_vals c j : forall fl, trail j (set_num_vals c fl) = trail j fl.
Proof. induction j as [|j IH]; intros fl; [done|]. cbn [trail]. by rewrite next_step_num_vals, IH. Qed.

(** A round of the loop finds the first value of the trail that is in range. *)
Lemma next_loop_trail j : forall fuel fl x rest,
  (j <= fuel)%nat -> in_range (max_val fl) (trail j fl) = x :: rest ->
  exists j' fl', next_loop fuel fl = Some fl' /\ last_val fl' = x /\ (j' < j)%nat /\
    max_val fl' = max_val fl /\ num_vals fl' = num_vals fl /\ cached_bit fl' = cached_bit fl /\
    in_range (max_val fl') (trail j' fl') = rest.
Proof.
  induction j as [|j IH]; intros fuel fl x rest Hf; [done|]. destruct fuel as [|fuel]; [lia|].
  cbn [trail next_loop]. destruct (next_step_frame fl) as (Em & En & Eb). cbv zeta. rewrite Em.
  unfold in_range. rewrite filter_cons. destruct (Z.ltb_spec (max_val fl) (last_val (next_step fl))).
  - rewrite decide_False by lia. intros H1. rewrite <- Em in H1. fold (in_range (max_val (next_step fl)) (trail j (next_step fl))) in H1.
    destruct (IH fuel (next_step fl) x rest ltac:(lia) H1) as (j' & fl' & ? & ? & ? & ? & ? & ? & ?).
    exists j', fl'. repeat split; try done; try lia; congruence.
  - rewrite decide_True by lia. intros [= <- <-]. exists j, (next_step fl). rewrite Em. repeat split; try done; lia.
Qed.

(** The calls give the values in range of the trail, in its order. *)
Lemma calls_trail m : forall j fl,
  num_vals fl + Z.of_nat m <= max_val fl + 1 < 2 ^ 64 -> 0 <= num_vals fl ->
  (j <= lfsr_fuel fl)%nat -> length (in_range (max_val fl) (trail j fl)) = m ->
  exists fl', lfsr_calls m fl = Some (fl', in_range (max_val fl) (trail j fl)) /\
    num_vals fl' = num_vals fl + Z.of_nat m /\ max_val fl' = max_val fl.
Proof.
  induction m as [|m IH]; intros j fl Hm Hn Hf Hlen.
  { apply nil_length_inv in Hlen. rewrite Hlen. exists fl. split; [done|]. lia. }
  destruct (in_range (max_val fl) (trail j fl)) as [|x rest] eqn:E; [done|].
  cbn [lfsr_calls]. unfold lfsr_next. cbv zeta.
  assert (u64 (num_vals fl + 1) = num_vals fl + 1) as Eu by (apply u64_small; unfold fits; lia). rewrite Eu.
  set (fl1 := set_num_vals (num_vals fl + 1) fl) in *.
  change (max_val fl1) with (max_val fl). destruct (Z.ltb_spec (max_val fl) (num_vals fl)); [lia|].
  destruct (next_loop_trail j (lfsr_fuel fl1) fl1 x rest) as (j' & fl' & E1 & E2 & ? & E3 & E4 & E5 & E6).
  { done. }
  { unfold fl1. rewrite trail_num_vals. exact E. }
  rewrite E1. cbn [mbind option_bind]. rewrite E2.
  change (max_val fl1) with (max_val fl) in E3. change (num_vals fl1) with (num_vals fl + 1) in E4.
  destruct (IH j' fl') as (fl2 & C1 & C2 & C3).
  - rewrite E3, E4. lia.
  - rewrite E4. lia.
  - unfold lfsr_fuel in *. rewrite E5. change (cached_bit fl1) with (cached_bit fl). lia.
  - rewrite E6. cbn in Hlen. lia.
  - rewrite C1, E6. cbn. exists fl2. rewrite E6 in *. repeat split; [lia | congruence].
Qed.

(** * The orbit of a register *)

Section Register.
Context (n : Z).
Hypothesis Hn : 3 <= n <= 48.
Definition step_fn : Z -> Z := LFSR_NEXT (width_mask n) (top n).
Definition period : Z := 2 ^ n - 1.

Lemma period_bounds : 7 <= period < 2 ^ 48.
Proof.
  unfold period. assert (2 ^ 3 <= 2 ^ n) by (apply Z.pow_le_mono_r; lia).
  assert (2 ^ n <= 2 ^ 48) by (apply Z.pow_le_mono_r; lia). lia.
Qed.

Lemma it_back m : it step_fn (m * Z.to_nat period) 0 = 0.
Proof. apply it_multiple. by apply wo_back, width_correct. Qed.

(** Two positions of the orbit of 0 hold the same value only a multiple of the period apart. *)
Lemma orbit_eq a b : it step_fn a 0 = it step_fn b 0 -> (period | Z.of_nat a - Z.of_nat b).
Proof.
  intros H. pose proof period_bounds. set (P := Z.to_nat period).
  assert (it step_fn ((b * P - b) + a) 0 = 0) as Hz.
  { rewrite it_add, H, <- it_add. replace (b * P - b + b)%nat with (b * P)%nat by nia. apply it_back. }
  apply (wo_period n (width_correct n Hn)) in Hz. fold period in Hz.
  replace (Z.of_nat a - Z.of_nat b) with (Z.of_nat (b * P - b + a) - Z.of_nat b * period) by nia.
  apply Z.divide_sub_r; [done | apply Z.divide_factor_r].
Qed.

Lemma orbit_not_ones a : it step_fn a 0 <> period.
Proof.
  intros H. pose proof period_bounds.
  assert (forall k, it step_fn (k + a) 0 = period) as Hk.
  { induction k as [|k IH]; [done|]. cbn [Nat.add]. change (it step_fn (S (k + a)) 0) with (step_fn (it step_fn (k + a) 0)).
    rewrite IH. apply wo_ones, width_correct, Hn. }
  specialize (Hk (a * Z.to_nat period - a)%nat).
  replace (a * Z.to_nat period - a + a)%nat with (a * Z.to_nat period)%nat in Hk by nia.
  rewrite it_back in Hk. lia.
Qed.

Lemma orbit_range a v : 0 <= v < 2 ^ n -> 0 <= it step_fn a v < 2 ^ n.
Proof. apply it_range. intros w Hw. by apply (wo_range n (width_correct n Hn)). Qed.

(** Distinct values below the period, as many as the period, are all of them. *)
Lemma full_range (l : list Z) :
  NoDup l -> (forall v, v ∈ l -> 0 <= v < period) -> length l = Z.to_nat period -> l ≡ₚ seqZ 0 period.
Proof.
  intros Hnd Hin Hlen. apply submseteq_length_Permutation.
  - apply NoDup_submseteq; [done|]. intros v Hv. apply elem_of_seqZ. specialize (Hin v Hv). lia.
  - rewrite length_seqZ, Hlen. lia.
Qed.

Lemma orbit_value a : 0 <= it step_fn a 0 < period.
Proof.
  pose proof period_bounds. pose proof (orbit_not_ones a). pose proof (orbit_range a 0). unfold period in *. lia.
Qed.

(** Every value but all ones is on the orbit of 0. *)
Lemma orbit_all v : 0 <= v < period -> exists a, it step_fn a 0 = v.
Proof.
  intros Hv. pose proof period_bounds.
  assert ((fun a => it step_fn a 0) <$> seq 0 (Z.to_nat period) ≡ₚ seqZ 0 period) as Hp.
  { apply full_range; [| | by rewrite length_fmap, length_seq].
    - apply NoDup_fmap_2_strong; [|apply NoDup_seq]. intros a b Ha Hb [c E]%orbit_eq.
      apply elem_of_seq in Ha, Hb. destruct (decide (c = 0)); nia.
    - intros w (a & -> & _)%list_elem_of_fmap. apply orbit_value. }
  assert (v ∈ seqZ 0 period) as Hi by (apply elem_of_seqZ; lia).
  rewrite <- Hp in Hi. apply list_elem_of_fmap in Hi as (a & -> & _). by exists a.
Qed.

(** Positions that are distinct modulo the period hold, from any legal seed, every value once. *)
Lemma positions_perm v (p : nat -> nat) (l : list nat) :
  0 <= v < period -> NoDup l -> length l = Z.to_nat period ->
  (forall a b, a ∈ l -> b ∈ l -> (period | Z.of_nat (p a) - Z.of_nat (p b)) -> a = b) ->
  (fun a => it step_fn (p a) v) <$> l ≡ₚ seqZ 0 period.
Proof.
  intros [c <-]%orbit_all Hnd Hlen Hp. apply full_range; [| | by rewrite length_fmap].
  - apply NoDup_fmap_2_strong; [|done]. intros a b Ha Hb E. rewrite <- !it_add in E. apply orbit_eq in E.
    apply Hp; [done | done|]. by replace (Z.of_nat (p a) - Z.of_nat (p b)) with
      (Z.of_nat (p a + c) - Z.of_nat (p b + c)) by lia.
  - intros w (a & -> & _)%list_elem_of_fmap. rewrite <- it_add. apply orbit_value.
Qed.

(** * The spin *)

Section Spin.
Context (s : Z).
Hypothesis Hs : 0 <= s <= 15.
Definition common : Z := Z.gcd (s + 1) period.

Lemma common_spec : exists h c, s + 1 = h * common /\ period = c * common /\ 0 < h /\ 0 < c /\ 0 < common /\ Z.gcd h c = 1.
Proof.
  pose proof period_bounds. assert (common <> 0) as Hc.
  { intros [E _]%Z.gcd_eq_0. lia. }
  pose proof (Z.gcd_nonneg (s + 1) period) as H0. fold common in H0.
  destruct (Z.gcd_divide_l (s + 1) period) as [h Eh], (Z.gcd_divide_r (s + 1) period) as [c Ec].
  fold common in Eh, Ec. exists h, c. assert (0 < h) by nia. assert (0 < c) by nia.
  repeat split; try done; try lia. apply (Z.mul_reg_r _ _ common); [lia|].
  rewrite Z.mul_1_l. rewrite <- Z.gcd_mul_mono_r_nonneg, <- Eh, <- Ec by lia. done.
Qed.

(** The length of a cycle: none when the spin and the period have no common factor. *)
Definition cycle_of : Z := if common =? 1 then 0 else period / common.

Lemma cycle_divides i : 0 < i -> (s + 1 | period * i) -> exists h c, s + 1 = h * common /\ period = c * common /\ (h | i) /\ 0 < h /\ 0 < c.
Proof.
  intros Hi [q Hq]. destruct common_spec as (h & c & Eh & Ec & ? & ? & ? & Hg). exists h, c.
  repeat split; try done. apply (Z.gauss h c); [|done]. exists q.
  apply (Z.mul_reg_r _ _ common); [lia|]. rewrite Eh, Ec in Hq. lia.
Qed.

Lemma cycle_first i :
  1 <= i <= s -> (forall j, 1 <= j < i -> ~ (s + 1 | period * j)) -> (s + 1 | period * i) ->
  common <> 1 /\ period * i = cycle_of * (s + 1).
Proof.
  intros Hi Hno Hd. destruct (cycle_divides i ltac:(lia) Hd) as (h & c & Eh & Ec & Hhi & ? & ?).
  assert (h <= i) by (apply Z.divide_pos_le; [lia | done]).
  assert (i = h) as ->.
  { destruct (decide (i = h)); [done|]. exfalso. apply (Hno h); [lia|]. exists c. rewrite Ec, Eh. lia. }
  assert (common <> 1) as Hc1 by (intros E; rewrite E in Eh; lia). split; [done|].
  unfold cycle_of. destruct (Z.eqb_spec common 1); [done|]. rewrite Ec at 2. rewrite Z.div_mul by nia.
  rewrite Ec at 1. rewrite Eh. lia.
Qed.

Lemma cycle_none : (forall j, 1 <= j <= s -> ~ (s + 1 | period * j)) -> common = 1.
Proof.
  intros Hno. destruct common_spec as (h & c & Eh & Ec & ? & ? & ? & _).
  destruct (decide (common = 1)) as [|Hne]; [done|]. exfalso. apply (Hno h); [nia|]. exists c. rewrite Eh, Ec. lia.
Qed.

Lemma residue_divide i : period mod (s + 1) * i mod (s + 1) = 0 <-> (s + 1 | period * i).
Proof.
  pose proof period_bounds. rewrite Z.mul_mod_idemp_l by lia. apply Z.mod_divide. lia.
Qed.

(** The loop of [prepare_spin] finds the length of the cycle. *)
Lemma cycle_loop_spec fuel : forall i,
  1 <= i -> i + Z.of_nat fuel = s + 1 -> (forall j, 1 <= j < i -> ~ (s + 1 | period * j)) ->
  cycle_loop fuel i (period / (s + 1)) (period mod (s + 1)) s = cycle_of.
Proof.
  pose proof period_bounds as Hp. induction fuel as [|fuel IH]; intros i Hi Hf Hno; cbn [cycle_loop].
  { unfold cycle_of. rewrite cycle_none; [done|]. intros j Hj. apply Hno. lia. }
  rewrite (u32_small (s + 1)) by (unfold fits; lia).
  pose proof (Z.mod_pos_bound period (s + 1) ltac:(lia)) as Hy.
  rewrite (u64_small (period mod (s + 1) * i)) by (unfold fits; nia).
  destruct (Z.eqb_spec (period mod (s + 1) * i mod (s + 1)) 0) as [E|E].
  - assert (s + 1 | period * i) as Hd by (by apply residue_divide).
    destruct (cycle_first i ltac:(lia) Hno Hd) as [_ Ec].
    assert (period / (s + 1) * i + period mod (s + 1) * i / (s + 1) = cycle_of) as Eq.
    { apply Z.mod_divide in E; [|lia]. destruct E as [q Eq]. rewrite Eq, Z.div_mul by lia.
      pose proof (Z.div_mod period (s + 1) ltac:(lia)). nia. }
    assert (0 <= period / (s + 1)) by (apply Z.div_pos; lia).
    assert (0 <= period mod (s + 1) * i / (s + 1)) by (apply Z.div_pos; nia).
    assert (0 <= cycle_of < 2 ^ 64) by nia.
    rewrite (u64_small (period / (s + 1) * i)) by (unfold fits; nia). rewrite Eq. by apply u64_small.
  - apply IH; [lia | lia|]. intros j Hj. destruct (decide (j = i)) as [->|]; [|apply Hno; lia].
    by rewrite <- residue_divide.
Qed.

Lemma cycle_of_spec :
  (cycle_of = 0 /\ common = 1) \/ (0 < cycle_of /\ period = cycle_of * common /\ 1 < common /\ s < 15).
Proof.
  destruct common_spec as (h & c & Eh & Ec & ? & ? & ? & _). unfold cycle_of.
  destruct (Z.eqb_spec common 1); [by left|]. right.
  assert (period / common = c) as -> by (rewrite Ec at 1; apply Z.div_mul; lia).
  repeat split; try lia. destruct (decide (s = 15)) as [Es|]; [|lia]. exfalso.
  (* the period is odd, so that 16 has no factor in common with it *)
  assert (common = 1) as E; [|done]. unfold common. rewrite Es. change (15 + 1) with (2 ^ 4). apply Z.coprime_pow_l; [lia|]. pose proof (Z.gcd_nonneg 2 period).
  destruct (Z.gcd_divide_l 2 period) as [a Ea], (Z.gcd_divide_r 2 period) as [b Eb].
  assert (period = 2 * 2 ^ (n - 1) - 1) by (unfold period; rewrite <- Z.pow_succ_r by lia; do 2 f_equal; lia).
  unfold Z.coprime. set (g := Z.gcd 2 period) in *. assert (g <= 2) by (apply Z.divide_pos_le; [lia | by exists a]).
  assert (g = 0 \/ g = 1 \/ g = 2) as [Eg|[Eg|Eg]] by lia; rewrite Eg in *; lia.
Qed.

(** The steps made, and the rounds left in the cycle, after [k] rounds. *)
Definition pos (k : nat) : nat :=
  if cycle_of =? 0 then match k with O => O | S k' => spin_steps (u32 (s + 1)) + S (Z.to_nat s) * k' end
  else S (Z.to_nat s) * k + (k - 1) / Z.to_nat cycle_of.
Definition cyc (k : nat) : Z :=
  match k with
  | O => cycle_of + 1
  | S k' => if cycle_of =? 0 then 0 else cycle_of - Z.of_nat k' mod cycle_of
  end.

(** The steps of coprime length do not meet before the period. *)
Lemma coprime_steps a b :
  common = 1 -> Z.abs (a - b) < period -> (period | (s + 1) * (a - b)) -> a = b.
Proof.
  intros Hc Hlt Hd. unfold common in Hc. rewrite Z.gcd_comm in Hc. apply Z.gauss in Hd; [|done].
  destruct Hd as [q Hq]. destruct (decide (q = 0)); nia.
Qed.

Lemma cycle_steps a b :
  cycle_of <> 0 -> 0 <= a < period -> 0 <= b < period ->
  (period | (s + 1) * (a - b) + (a / cycle_of - b / cycle_of)) -> a = b.
Proof.
  intros Hc Ha Hb Hd. destruct cycle_of_spec as [[? _]|(Hpos & Ep & Hg & _)]; [done|].
  destruct common_spec as (h & c & Eh & Ec & ? & ? & ? & Hcop). assert (c = cycle_of) as -> by nia.
  pose proof (Z.div_mod a cycle_of ltac:(lia)) as Da. pose proof (Z.div_mod b cycle_of ltac:(lia)) as Db.
  pose proof (Z.mod_pos_bound a cycle_of Hpos) as Ra. pose proof (Z.mod_pos_bound b cycle_of Hpos) as Rb.
  assert (0 <= a / cycle_of < common) by (split; [apply Z.div_pos; lia | apply Z.div_lt_upper_bound; lia]).
  assert (0 <= b / cycle_of < common) by (split; [apply Z.div_pos; lia | apply Z.div_lt_upper_bound; lia]).
  set (qa := a / cycle_of) in *. set (qb := b / cycle_of) in *.
  set (ra := a mod cycle_of) in *. set (rb := b mod cycle_of) in *. destruct Hd as [z Hz].
  assert (qa = qb) as Eq.
  { assert (qa - qb = (z * cycle_of - h * (a - b)) * common) as E by nia.
    destruct (decide (z * cycle_of - h * (a - b) = 0)); nia. }
  assert (cycle_of | ra - rb) as [w Hw].
  { apply (Z.gauss cycle_of h); [|by rewrite Z.gcd_comm]. exists z. apply (Z.mul_reg_r _ _ common); [lia|]. nia. }
  assert (w = 0) as Ew by (clear - Hw Ra Rb; nia). rewrite Da, Db, Eq. subst w. lia.
Qed.

Lemma pos_distinct a b :
  (1 <= a <= Z.to_nat period)%nat -> (1 <= b <= Z.to_nat period)%nat ->
  (period | Z.of_nat (pos a) - Z.of_nat (pos b)) -> a = b.
Proof.
  intros Ha Hb. pose proof period_bounds. unfold pos. destruct cycle_of_spec as [[E Hc]|(Hpos & Ep & Hg & _)].
  - rewrite E. cbn [Z.eqb]. destruct a as [|a]; [lia|]. destruct b as [|b]; [lia|]. intros Hd.
    assert (Z.of_nat a = Z.of_nat b) as Eab; [|lia]. apply coprime_steps; [done | lia|].
    set (e := spin_steps _) in Hd.
    by replace (Z.of_nat (e + S (Z.to_nat s) * a) - Z.of_nat (e + S (Z.to_nat s) * b)) with
      ((s + 1) * (Z.of_nat a - Z.of_nat b)) in Hd by nia.
  - destruct (Z.eqb_spec cycle_of 0); [lia|]. intros Hd.
    assert (Z.of_nat (a - 1) = Z.of_nat (b - 1)) as Eab; [|lia]. apply cycle_steps; [done | lia | lia|].
    rewrite !Nat2Z.inj_add, !Nat2Z.inj_mul, !Nat2Z.inj_div, (Z2Nat.id cycle_of) in Hd by lia.
    replace (Z.of_nat (a - 1) - Z.of_nat (b - 1)) with (Z.of_nat a - Z.of_nat b) by lia.
    replace (Z.of_nat (S (Z.to_nat s))) with (s + 1) in Hd by lia.
    match goal with H : (_ | ?x) |- (_ | ?y) => replace y with x by ring end. done.
Qed.

(** The register after [k] rounds from [v]. *)
Context (m c : Z) (v : Z).
Definition state (k : nat) : fio_lfsr :=
  mkLfsr (width_mask n) (it step_fn (pos k) v) (top n) m c (cyc k) cycle_of s.

Lemma spin_steps_small x : 0 <= x <= 15 -> spin_steps x = S (Z.to_nat x).
Proof. intros Hx. unfold spin_steps. destruct (Z.leb_spec 0 x), (Z.leb_spec x 15); try lia. done. Qed.

Lemma next_fields L j p spin :
  lfsr_next_ (mkLfsr (width_mask n) (it step_fn p v) (top n) m c j L s) spin =
  mkLfsr (width_mask n) (it step_fn (spin_steps spin + p) v) (top n) m c j L s.
Proof. unfold lfsr_next_, set_last_val. cbn [xormask last_val cached_bit max_val num_vals cycle_length cached_cycle_length fl_spin]. by rewrite it_add. Qed.

(** A round: plain, the end of a cycle, or within one. *)
Lemma round_cases k :
  (cyc k = 0 /\ cyc (S k) = 0 /\ pos (S k) = (spin_steps s + pos k)%nat) \/
  (cyc k = 1 /\ cyc (S k) = cycle_of /\ pos (S k) = (spin_steps (u32 (s + 1)) + pos k)%nat) \/
  (1 < cyc k <= period + 1 /\ cyc (S k) = cyc k - 1 /\ pos (S k) = (spin_steps s + pos k)%nat).
Proof.
  pose proof period_bounds. rewrite (spin_steps_small s) by lia. unfold cyc, pos.
  destruct cycle_of_spec as [[E Hc]|(Hpos & Ep & Hg & Hs15)].
  - rewrite E. cbn [Z.eqb]. destruct k as [|k]; [right; left; repeat split; lia|]. left. repeat split; lia.
  - destruct (Z.eqb_spec cycle_of 0); [lia|]. right. destruct k as [|k].
    { right. cbn [Nat.sub]. rewrite Z.mod_0_l by lia. repeat split; nia. }
    rewrite (u32_small (s + 1)) by (unfold fits; lia). rewrite (spin_steps_small (s + 1)) by lia.
    replace (S (S k) - 1)%nat with (S k) by lia. replace (S k - 1)%nat with k by lia.
    set (L := Z.to_nat cycle_of). assert (cycle_of = Z.of_nat L) as EL by lia. rewrite !EL, <- !Nat2Z.inj_mod.
    pose proof (Nat.div_mod_eq k L). pose proof (Nat.mod_upper_bound k L ltac:(lia)).
    destruct (decide (k mod L = L - 1)%nat) as [Em|Em].
    + left. assert (S k = L * S (k / L) + 0)%nat as Ek by (rewrite Nat.mul_succ_r; lia).
      assert (S k mod L = 0)%nat as -> by (symmetry; apply (Nat.mod_unique _ _ (S (k / L))); [lia | exact Ek]).
      assert (S k / L = S (k / L))%nat as -> by (symmetry; apply (Nat.div_unique _ _ _ (0)); [lia | exact Ek]).
      repeat split; lia.
    + right. assert (S k = L * (k / L) + S (k mod L))%nat as Ek by lia.
      assert (S k mod L = S (k mod L))%nat as -> by (symmetry; apply (Nat.mod_unique _ _ (k / L)); [lia | exact Ek]).
      assert (S k / L = k / L)%nat as -> by (symmetry; apply (Nat.div_unique _ _ _ (S (k mod L))); [lia | exact Ek]).
      repeat split; nia.
Qed.

Lemma state_next k : next_step (state k) = state (S k).
Proof.
  pose proof period_bounds. unfold next_step, state, set_cycle.
  cbn [xormask last_val cached_bit max_val num_vals cycle_length cached_cycle_length fl_spin].
  destruct (round_cases k) as [(E1 & E2 & E3)|[(E1 & E2 & E3)|(E1 & E2 & E3)]]; rewrite ?E1, E2, E3.
  - apply next_fields.
  - cbn [Z.eqb]. change (u64 (1 - 1)) with 0. cbn [Z.eqb]. by rewrite next_fields.
  - rewrite u64_small by (unfold fits; lia). destruct (Z.eqb_spec (cyc k) 0); [lia|].
    destruct (Z.eqb_spec (cyc k - 1) 0); [lia|]. apply next_fields.
Qed.

Lemma trail_state j : forall k, trail j (state k) = (fun a => it step_fn (pos a) v) <$> seq (S k) j.
Proof. induction j as [|j IH]; intros k; [done|]. cbn [trail seq fmap list_fmap]. by rewrite state_next, IH. Qed.

(** A period of rounds visits every value. *)
Lemma trail_all : 0 <= v < period -> trail (Z.to_nat period) (state 0) ≡ₚ seqZ 0 period.
Proof.
  intros Hv. rewrite trail_state. apply positions_perm; [done | apply NoDup_seq | by rewrite length_seq|].
  intros a b Ha Hb. apply elem_of_seq in Ha, Hb. apply pos_distinct; lia.
Qed.
End Spin.
End Register.

(** * The enumeration *)

(** Filtering a whole period leaves the numbers below the size. *)
Lemma in_range_perm l nums N : 1 <= nums <= N -> l ≡ₚ seqZ 0 N -> in_range (nums - 1) l ≡ₚ seqZ 0 nums.
Proof.
  intros Hn Hl. unfold in_range. rewrite Hl. apply NoDup_Permutation; [apply NoDup_filter, NoDup_seqZ | apply NoDup_seqZ|].
  intros v. rewrite list_elem_of_filter, !elem_of_seqZ. lia.
Qed.

(** A register whose next period of rounds visits every value gives the numbers
    below the size in as many calls, and nothing after them. *)
Lemma calls_enumerate fl n nums :
  3 <= n <= 48 -> 1 <= nums < 2 ^ n -> max_val fl = nums - 1 -> num_vals fl = 0 -> cached_bit fl = top n ->
  trail (Z.to_nat (period n)) fl ≡ₚ seqZ 0 (period n) ->
  exists fl1 l fl2, lfsr_calls (Z.to_nat nums) fl = Some (fl1, l) /\ l ≡ₚ seqZ 0 nums /\
    lfsr_next fl1 = Some (fl2, None).
Proof.
  intros Hn Hnums Em Ec Eb Ht. pose proof (period_bounds n Hn) as Hp.
  assert (in_range (max_val fl) (trail (Z.to_nat (period n)) fl) ≡ₚ seqZ 0 nums) as Hperm.
  { rewrite Em. apply (in_range_perm _ _ (period n)); [unfold period; lia | done]. }
  destruct (calls_trail (Z.to_nat nums) (Z.to_nat (period n)) fl) as (fl1 & E1 & E2 & E3).
  - rewrite Em, Ec. unfold period in Hp. lia.
  - lia.
  - unfold lfsr_fuel. rewrite Eb. unfold top, period. rewrite <- Z.pow_succ_r by lia.
    replace (Z.succ (n - 1)) with n by lia. lia.
  - rewrite Hperm, length_seqZ. lia.
  - eexists fl1, _, _. split; [exact E1|]. split; [done|]. unfold lfsr_next. cbv zeta. cbn [max_val set_num_vals].
    destruct (Z.ltb_spec (max_val fl1) (num_vals fl1)); [done | lia].
Qed.

Lemma find_loop_spec nums fuel : forall i,
  3 <= i -> 49 <= i + Z.of_nat fuel -> i <= 48 -> nums < 2 ^ 48 -> (i = 3 \/ 2 ^ (i - 1) <= nums) ->
  exists n, i <= n <= 48 /\ nums < 2 ^ n /\ (n = 3 \/ 2 ^ (n - 1) <= nums) /\
    find_loop fuel i nums = Some (width_taps n).
Proof.
  induction fuel as [|fuel IH]; intros i Hi Hf H48 Hnums Hlow; [lia|]. cbn [find_loop].
  rewrite Z.shiftl_1_l. destruct (Z.ltb_spec nums (2 ^ i)).
  - exists i. repeat split; try done; try lia. unfold width_taps.
    destruct (lfsr_taps !! Z.to_nat i) as [t|] eqn:E; [done|]. exfalso. apply lookup_ge_None in E.
    change (length lfsr_taps) with 64%nat in E. lia.
  - assert (i <> 48) by (intros ->; lia).
    destruct (IH (i + 1)) as (n & ? & ? & ? & ?); [lia | lia | lia | done | right; by replace (i + 1 - 1) with i by lia|].
    exists n. repeat split; try done; lia.
Qed.

Lemma pow2_double n : 3 <= n <= 48 -> u64 (u64 (Z.shiftl (top n) 1) - 1) = period n.
Proof.
  intros Hn. pose proof (period_bounds n Hn) as Hp. unfold period in *. unfold top.
  rewrite Z.shiftl_mul_pow2 by lia. rewrite <- Z.pow_add_r by lia. replace (n - 1 + 1) with n by lia.
  rewrite (u64_small (2 ^ n)) by (unfold fits; lia). apply u64_small. unfold fits. lia.
Qed.

Lemma land_period n x : 3 <= n <= 48 -> Z.land x (period n) = x mod 2 ^ n.
Proof. intros Hn. unfold period. replace (2 ^ n - 1) with (Z.ones n) by (rewrite Z.ones_equiv; lia). apply Z.land_ones. lia. Qed.

Lemma prepare_spin_ok n fl spin :
  3 <= n <= 48 -> 0 <= spin <= 15 -> cached_bit fl = top n ->
  prepare_spin fl spin = (mkLfsr (xormask fl) (last_val fl) (top n) (max_val fl) (num_vals fl)
    (cycle_of n spin + 1) (cycle_of n spin) spin, 0).
Proof.
  intros Hn Hs Eb. pose proof (period_bounds n Hn). unfold prepare_spin. cbv zeta. rewrite Eb, pow2_double by done.
  destruct (Z.ltb_spec 15 spin); [lia|]. rewrite u32_small by (unfold fits; lia).
  rewrite (cycle_loop_spec n Hn spin Hs) by lia. rewrite u64_small; [done|].
  destruct (cycle_of_spec n Hn spin Hs) as [[-> _]|?]; unfold fits; [lia | nia].
Qed.

(** The result of [lfsr_init]. *)
Lemma init_state fl nums seed spin :
  1 <= nums < 2 ^ 48 -> 0 <= spin ->
  exists n, 3 <= n <= 48 /\ nums < 2 ^ n /\ (n = 3 \/ 2 ^ (n - 1) <= nums) /\
    if decide (15 < spin \/ seed mod 2 ^ n = 2 ^ n - 1) then exists fl0, lfsr_init fl nums seed spin = Some (fl0, 1)
    else lfsr_init fl nums seed spin = Some (state n spin (nums - 1) 0 (seed mod 2 ^ n) 0, 0).
Proof.
  intros Hnums Hspin. destruct (find_loop_spec nums 61 3) as (n & Hn & Hlt & Hlow & E); try lia.
  exists n. repeat split; try done; try lia. unfold lfsr_init, find_lfsr. rewrite E.
  rewrite (wo_tap n (width_correct n Hn)). cbn [mbind option_bind].
  assert (u64 (Z.shiftl 1 (n - 1)) = top n) as ->.
  { pose proof (period_bounds n Hn) as Hp. unfold period in Hp. rewrite Z.shiftl_1_l. apply u64_small. unfold top, fits.
    split; [lia|]. assert (2 ^ (n - 1) <= 2 ^ n) by (apply Z.pow_le_mono_r; lia). lia. }
  rewrite u64_small by (unfold fits; lia).
  destruct (decide (15 < spin)).
  { rewrite decide_True by (by left). unfold prepare_spin. destruct (Z.ltb_spec 15 spin); [|lia]. cbn. by eexists. }
  rewrite (prepare_spin_ok n) by (done || lia). cbn [negb Z.eqb]. unfold lfsr_reset. cbn [cached_bit].
  rewrite pow2_double, land_period by done. cbn [last_val set_last_val]. fold (width_mask n).
  destruct (Z.eqb_spec (seed mod 2 ^ n) (period n)) as [Ee|Ee].
  - rewrite decide_True by (by right). cbn. by eexists.
  - rewrite decide_False by (intros [?|E2]; [lia | exact (Ee E2)]). cbn [negb Z.eqb]. do 2 f_equal. unfold state.
    assert (pos n spin 0 = 0%nat) as -> by (unfold pos; by destruct (cycle_of n spin =? 0); [|rewrite Nat.mul_0_r; apply Nat.Div0.div_0_l]). done.
Qed.

(** A register whose next calls give every number below [nums] once, and then nothing. *)
Definition enumerates (nums : Z) (fl : fio_lfsr) : Prop :=
  exists fl1 l fl2, lfsr_calls (Z.to_nat nums) fl = Some (fl1, l) /\ l ≡ₚ seqZ 0 nums /\ lfsr_next fl1 = Some (fl2, None).

Lemma state_enumerates n nums seed spin :
  3 <= n <= 48 -> 1 <= nums < 2 ^ n -> 0 <= spin <= 15 -> seed mod 2 ^ n <> 2 ^ n - 1 ->
  enumerates nums (state n spin (nums - 1) 0 (seed mod 2 ^ n) 0).
Proof.
  intros Hn Hnums Hs Hseed. apply (calls_enumerate _ n); try done. apply trail_all; [done | done|].
  pose proof (Z.mod_pos_bound seed (2 ^ n) ltac:(lia)). unfold period. lia.
Qed.

(** C11: for any size below 2^48, any seed and any spin, [lfsr_init] fails exactly when
    the spin is above 15 or the seed fills the register with ones; otherwise as
    many calls of [lfsr_next] as the size all return (the loop inside them ends),
    give every number below the size exactly once, and the next call says that
    there are no more. *)
Theorem lfsr_permutation fl nums seed spin :
  1 <= nums < 2 ^ 48 -> 0 <= spin ->
  exists n fl0, 3 <= n <= 48 /\ nums < 2 ^ n /\ (n = 3 \/ 2 ^ (n - 1) <= nums) /\
    if decide (15 < spin \/ seed mod 2 ^ n = 2 ^ n - 1) then lfsr_init fl nums seed spin = Some (fl0, 1)
    else lfsr_init fl nums seed spin = Some (fl0, 0) /\
      exists fl1 l fl2, lfsr_calls (Z.to_nat nums) fl0 = Some (fl1, l) /\ l ≡ₚ seqZ 0 nums /\
        lfsr_next fl1 = Some (fl2, None).
Proof.
  intros Hnums Hspin. destruct (init_state fl nums seed spin Hnums Hspin) as (n & Hn & Hlt & Hlow & H).
  exists n. destruct (decide _) as [Hbad|Hok].
  { destruct H as [fl0 E]. by exists fl0. }
  eexists. split; [done|]. split; [done|]. split; [done|]. split; [exact H|].
  apply (state_enumerates n nums seed spin); [done | lia | | intros E; apply Hok; by right].
  split; [done | apply Z.nlt_ge; intros ?; apply Hok; by left].
Qed.

Definition fl_zero : fio_lfsr := mkLfsr 0 0 0 0 0 0 0 0.

(** The hypotheses of [lfsr_permutation] for nine blocks with a spin whose runs have cycles. *)
Lemma lfsr_permutation_witness :
  exists n fl0, 3 <= n <= 48 /\ 9 < 2 ^ n /\ (n = 3 \/ 2 ^ (n - 1) <= 9) /\
    if decide (15 < 5 \/ 3 mod 2 ^ n = 2 ^ n - 1) then lfsr_init fl_zero 9 3 5 = Some (fl0, 1)
    else lfsr_init fl_zero 9 3 5 = Some (fl0, 0) /\
      exists fl1 l fl2, lfsr_calls (Z.to_nat 9) fl0 = Some (fl1, l) /\ l ≡ₚ seqZ 0 9 /\
        lfsr_next fl1 = Some (fl2, None).
Proof. apply (lfsr_permutation fl_zero 9 3 5); lia. Defined.

(** The run of the witness, value by value. *)
Lemma lfsr_nine_run :
  (match lfsr_init fl_zero 9 3 5 with
   | Some (fl0, 0) => snd <$> lfsr_calls 9 fl0
   | _ => None
   end) = Some [1; 2; 4; 3; 8; 5; 6; 0; 7].
Proof. vm_compute. reflexivity. Qed.

(** ** A second run *)

(** A register of [n] bits without spin, in the middle of a run. *)
Definition plain (n nums : Z) (fl : fio_lfsr) : Prop :=
  xormask fl = width_mask n /\ cached_bit fl = top n /\ max_val fl = nums - 1 /\ fl_spin fl = 0 /\
  cached_cycle_length fl = 0 /\ (cycle_length fl = 0 \/ cycle_length fl = 1).

Lemma plain_step n nums fl : plain n nums fl -> plain n nums (next_step fl).
Proof.
  destruct fl as [x lv b m c cy L s]. unfold plain, next_step.
  cbn [xormask last_val cached_bit max_val num_vals cycle_length cached_cycle_length fl_spin].
  intros (-> & -> & -> & -> & -> & [-> | ->]); cbn; repeat split; by left.
Qed.

Lemma plain_loop n nums fuel : forall fl fl', plain n nums fl -> next_loop fuel fl = Some fl' -> plain n nums fl'.
Proof.
  induction fuel as [|fuel IH]; intros fl fl' Hp; [done|]. cbn [next_loop]. cbv zeta.
  apply plain_step in Hp. destruct (_ <? _); [by apply IH | by intros [= <-]].
Qed.

Lemma plain_calls n nums m : forall fl fl' l, plain n nums fl -> lfsr_calls m fl = Some (fl', l) -> plain n nums fl'.
Proof.
  induction m as [|m IH]; intros fl fl' l Hp; cbn [lfsr_calls]; [by intros [= <- _]|].
  unfold lfsr_next. cbv zeta. destruct (_ <? _); [done|].
  destruct (next_loop _ _) as [fl1|] eqn:E; cbn [mbind option_bind]; [|done].
  apply plain_loop with (n := n) (nums := nums) in E; [|exact Hp].
  destruct (lfsr_calls m fl1) as [[fl2 l2]|] eqn:E2; cbn; [|done]. intros [= <- _]. by apply (IH fl1 _ l2).
Qed.

Lemma cycle_of_0 n : cycle_of n 0 = 0.
Proof. unfold cycle_of, common. by rewrite Z.gcd_1_l. Qed.

Lemma trail_plain n m c v j : forall p,
  trail j (mkLfsr (width_mask n) (it (step_fn n) p v) (top n) m c 0 0 0) =
  (fun a => it (step_fn n) a v) <$> seq (S p) j.
Proof.
  induction j as [|j IH]; intros p; [done|]. cbn [trail seq fmap list_fmap].
  change (next_step _) with (mkLfsr (width_mask n) (it (step_fn n) (S p) v) (top n) m c 0 0 0). by rewrite IH.
Qed.

(** From any legal value a register without spin visits every value in a period of rounds. *)
Lemma plain_all n nums c v cy :
  3 <= n <= 48 -> 0 <= v < period n -> cy = 0 \/ cy = 1 ->
  trail (Z.to_nat (period n)) (mkLfsr (width_mask n) v (top n) (nums - 1) c cy 0 0) ≡ₚ seqZ 0 (period n).
Proof.
  intros Hn Hv [-> | ->].
  - change v with (it (step_fn n) 0 v) at 1. rewrite trail_plain.
    apply (positions_perm n Hn v (fun a => a)); [done | apply NoDup_seq | by rewrite length_seq|].
    intros a b Ha Hb [q Hq]. apply elem_of_seq in Ha, Hb. pose proof (period_bounds n Hn).
    destruct (decide (q = 0)); nia.
  - pose proof (trail_all n Hn 0 ltac:(lia) (nums - 1) c v Hv) as H. unfold state, cyc, pos in H.
    by rewrite cycle_of_0 in H.
Qed.

(** The register [lfsr_init] leaves without spin. *)
Lemma init_plain fl nums seed fl0 :
  1 <= nums < 2 ^ 48 -> lfsr_init fl nums seed 0 = Some (fl0, 0) ->
  exists n, 3 <= n <= 48 /\ nums < 2 ^ n /\ seed mod 2 ^ n <> 2 ^ n - 1 /\ plain n nums fl0 /\ enumerates nums fl0.
Proof.
  intros Hnums Hi. destruct (init_state fl nums seed 0 Hnums ltac:(lia)) as (n & Hn & Hlt & _ & H). exists n.
  destruct (decide _) as [|Hno] in H; [destruct H as [? H]; by rewrite H in Hi|]. rewrite H in Hi. injection Hi as <-.
  assert (seed mod 2 ^ n <> 2 ^ n - 1) by (intros E; apply Hno; by right). repeat (split; [done|]). split.
  - unfold plain, state. cbn. rewrite cycle_of_0. repeat split; by right.
  - by apply state_enumerates; [| lia | | ].
Qed.

(** [lfsr_reset] of a register without spin, at any point of a run. *)
Lemma plain_reset n nums fl seed :
  3 <= n <= 48 -> 1 <= nums < 2 ^ n -> plain n nums fl ->
  (lfsr_reset fl seed).2 = (if decide (seed mod 2 ^ n = 2 ^ n - 1) then 1 else 0) /\
  (seed mod 2 ^ n <> 2 ^ n - 1 -> plain n nums (lfsr_reset fl seed).1 /\ enumerates nums (lfsr_reset fl seed).1).
Proof.
  intros Hn Hnums. destruct fl as [x lv b mx c cy L s]. intros (Ex & Eb & Em & Es & EL & Ecy). cbn in Ex, Eb, Em, Es, EL, Ecy. subst x b mx s L.
  unfold lfsr_reset. cbn [cached_bit]. rewrite pow2_double, land_period by done. cbv zeta.
  cbn [last_val set_last_val set_num_vals xormask cached_bit max_val num_vals cycle_length cached_cycle_length fl_spin].
  pose proof (Z.mod_pos_bound seed (2 ^ n) ltac:(lia)). change (2 ^ n - 1) with (period n).
  destruct (Z.eqb_spec (seed mod 2 ^ n) (period n)) as [E|E]; [by rewrite decide_True|].
  rewrite decide_False by done. split; [done|]. intros _. cbn [fst]. split; [by repeat split|].
  apply (calls_enumerate _ n); try done. apply plain_all; [done | unfold period in *; lia | done].
Qed.

(** Without spin, as fio sets up its random maps, [lfsr_reset] after any number
    of calls starts the enumeration again: it fails exactly when the seed
    fills the register with ones, and otherwise the next calls give every number
    below the size exactly once. *)
Theorem lfsr_reset_permutation fl nums seed fl0 m fl1 l seed' :
  1 <= nums < 2 ^ 48 -> lfsr_init fl nums seed 0 = Some (fl0, 0) -> lfsr_calls m fl0 = Some (fl1, l) ->
  exists n, 3 <= n <= 48 /\ nums < 2 ^ n /\
    (lfsr_reset fl1 seed').2 = (if decide (seed' mod 2 ^ n = 2 ^ n - 1) then 1 else 0) /\
    ((lfsr_reset fl1 seed').2 = 0 ->
     exists fl3 l' fl4, lfsr_calls (Z.to_nat nums) (lfsr_reset fl1 seed').1 = Some (fl3, l') /\
       l' ≡ₚ seqZ 0 nums /\ lfsr_next fl3 = Some (fl4, None)).
Proof.
  intros Hnums Hi Hc. destruct (init_plain fl nums seed fl0 Hnums Hi) as (n & Hn & Hlt & _ & Hp & _).
  exists n. split; [done|]. split; [done|]. apply (plain_calls n nums m _ fl1 l) in Hp; [|done].
  destruct (plain_reset n nums fl1 seed' Hn ltac:(lia) Hp) as [E1 E2]. split; [done|]. rewrite E1.
  destruct (decide _) as [|Hne]; [done|]. intros _. by apply E2.
Qed.

(** The hypotheses of [lfsr_reset_permutation] for nine blocks and a reset after four of them. *)
Lemma lfsr_reset_permutation_witness :
  exists fl0 fl1 l, lfsr_init fl_zero 9 3 0 = Some (fl0, 0) /\ lfsr_calls 4 fl0 = Some (fl1, l) /\
  exists n, 3 <= n <= 48 /\ 9 < 2 ^ n /\
    (lfsr_reset fl1 8).2 = (if decide (8 mod 2 ^ n = 2 ^ n - 1) then 1 else 0) /\
    ((lfsr_reset fl1 8).2 = 0 ->
     exists fl3 l' fl4, lfsr_calls (Z.to_nat 9) (lfsr_reset fl1 8).1 = Some (fl3, l') /\
       l' ≡ₚ seqZ 0 9 /\ lfsr_next fl3 = Some (fl4, None)).
Proof.
  eexists _, _, _. split; [vm_compute; reflexivity|]. split; [vm_compute; reflexivity|].
  refine (lfsr_reset_permutation fl_zero 9 3 _ 4 _ _ 8 _ _ _); [lia | vm_compute; reflexivity | vm_compute; reflexivity].
Defined.

(** [lfsr_reset] leaves the cycle where it was: after a run of eight blocks with a
    spin of 5, the run after a reset gives block 1 twice and block 4 not at all. *)
Lemma reset_keeps_cycle :
  (match lfsr_init fl_zero 8 3 5 with
   | Some (fl0, 0) => '(fl1, _) ← lfsr_calls 8 fl0; snd <$> lfsr_calls 8 (lfsr_reset fl1 3).1
   | _ => None
   end) = Some [1; 5; 6; 7; 0; 3; 1; 2].
Proof. vm_compute. reflexivity. Qed.
