(* ===== verification/Rbtree.v ===== *)
(** The red-black trees of src/fio/lib/rbtree.c: intrusive nodes linked by
    addresses, with the parent and the color packed in one word.  The mirrored
    halves of the functions are one definition over a direction. *)
From S2P Require Import Prelude.

(** * The code *)

Definition RB_RED : Z := 0.
Definition RB_BLACK : Z := 1.

Record rb_node : Type := mkRb { rb_parent_color : Z; rb_right : Z; rb_left : Z }.

(** The nodes by address, and the root pointer. *)
Record rbst : Type := mkRbst { nodes : gmap Z rb_node; rb_root : Z }.

Inductive dir : Type := DL | DR.
Definition opp (d : dir) : dir := match d with DL => DR | DR => DL end.

Definition child (d : dir) (n : rb_node) : Z := match d with DL => rb_left n | DR => rb_right n end.
Definition with_child (d : dir) (p : Z) (n : rb_node) : rb_node :=
  match d with
  | DL => mkRb (rb_parent_color n) (rb_right n) p
  | DR => mkRb (rb_parent_color n) p (rb_left n)
  end.
Definition with_pc (f : Z -> Z) (n : rb_node) : rb_node := mkRb (f (rb_parent_color n)) (rb_right n) (rb_left n).

Definition rd (a : Z) : M rbst rb_node := fun s =>
  match nodes s !! a with Some n => Ret n s | None => Undef s end.
Definition wr (a : Z) (f : rb_node -> rb_node) : M rbst unit := fun s =>
  match nodes s !! a with
  | Some n => Ret tt (mkRbst (<[a := f n]> (nodes s)) (rb_root s))
  | None => Undef s
  end.
Definition get_root : M rbst Z := fun s => Ret (rb_root s) s.
Definition set_root (r : Z) : M rbst unit := fun s => Ret tt (mkRbst (nodes s) r).
Definition get_child (d : dir) (a : Z) : M rbst Z := n ← rd a; mret (child d n).
Definition set_child (d : dir) (a p : Z) : M rbst unit := wr a (with_child d p).
Definition out_of_fuel {A} : M rbst A := fun s => Diverge s.

Definition rb_parent (a : Z) : M rbst Z := n ← rd a; mret (Z.land (rb_parent_color n) (Z.lnot 3)).
Definition rb_color (a : Z) : M rbst Z := n ← rd a; mret (Z.land (rb_parent_color n) 1).
Definition rb_is_red (a : Z) : M rbst bool := c ← rb_color a; mret (c =? 0).
Definition rb_is_black (a : Z) : M rbst bool := c ← rb_color a; mret (negb (c =? 0)).
Definition rb_set_red (a : Z) : M rbst unit := wr a (with_pc (fun pc => Z.land pc (Z.lnot 1))).
Definition rb_set_black (a : Z) : M rbst unit := wr a (with_pc (fun pc => Z.lor pc 1)).
Definition rb_set_parent (a p : Z) : M rbst unit := wr a (with_pc (fun pc => Z.lor (Z.land pc 3) p)).
Definition rb_set_color (a c : Z) : M rbst unit := wr a (with_pc (fun pc => Z.lor (Z.land pc (Z.lnot 1)) c)).

(** [!a || rb_is_black(a)]. *)
Definition null_or_black (a : Z) : M rbst bool := if a =? 0 then mret true else rb_is_black a.

(** [__rb_rotate_left] for [DL], [__rb_rotate_right] for [DR]. *)
Definition rb_rotate (d : dir) (node : Z) : M rbst unit :=
  right ← get_child (opp d) node;
  parent ← rb_parent node;
  c ← get_child d right;
  set_child (opp d) node c;;
  (if negb (c =? 0) then c ← get_child d right; rb_set_parent c node else mret tt);;
  set_child d right node;;
  rb_set_parent right parent;;
  (if negb (parent =? 0) then
     c ← get_child d parent;
     if node =? c then set_child d parent right else set_child (opp d) parent right
   else set_root right);;
  rb_set_parent node right.

(** The branch of [rb_insert_color] for a parent that is the [d] child; the result
    is [node] at the end of the round. *)
Definition insert_side (d : dir) (node parent gparent : Z) : M rbst Z :=
  uncle ← get_child (opp d) gparent;
  red ← (if negb (uncle =? 0) then rb_is_red uncle else mret false);
  if (red : bool) then
    rb_set_black uncle;; rb_set_black parent;; rb_set_red gparent;; mret gparent
  else
    c ← get_child (opp d) parent;
    '(parent, node) ← (if c =? node then rb_rotate d parent;; mret (node, parent) else mret (parent, node));
    rb_set_black parent;; rb_set_red gparent;; rb_rotate (opp d) gparent;; mret node.

Fixpoint insert_loop (fuel : nat) (node : Z) : M rbst unit :=
  parent ← rb_parent node;
  red ← (if negb (parent =? 0) then rb_is_red parent else mret false);
  if negb (red : bool) then mret tt else
  match fuel with
  | O => out_of_fuel
  | S fuel' =>
      gparent ← rb_parent parent;
      l ← get_child DL gparent;
      node ← insert_side (if parent =? l then DL else DR) node parent gparent;
      insert_loop fuel' node
  end.

Definition rb_insert_color (node : Z) : M rbst unit :=
  s ← get_st;
  insert_loop (size (nodes s)) node;;
  r ← get_root;
  rb_set_black r.

(** The rest of a branch of [__rb_erase_color], with a black sibling [other]; the
    result is [node], [parent] and whether the loop is left. *)
Definition erase_tail (d : dir) (parent other : Z) : M rbst (Z * Z * bool) :=
  l ← get_child DL other;
  lb ← null_or_black l;
  both ← (if (lb : bool) then r ← get_child DR other; null_or_black r else mret false);
  if (both : bool) then
    rb_set_red other;;
    let node := parent in
    parent ← rb_parent node;
    mret (node, parent, false)
  else
    far ← get_child (opp d) other;
    b ← null_or_black far;
    other ← (if (b : bool) then
               near ← get_child d other;
               (if negb (near =? 0) then rb_set_black near else mret tt);;
               rb_set_red other;;
               rb_rotate (opp d) other;;
               get_child (opp d) parent
             else mret other);
    c ← rb_color parent;
    rb_set_color other c;;
    rb_set_black parent;;
    far ← get_child (opp d) other;
    (if negb (far =? 0) then rb_set_black far else mret tt);;
    rb_rotate d parent;;
    r ← get_root;
    mret (r, parent, true).

(** The branch for a [node] that is the [d] child. *)
Definition erase_side (d : dir) (parent : Z) : M rbst (Z * Z * bool) :=
  other ← get_child (opp d) parent;
  red ← rb_is_red other;
  other ← (if (red : bool) then
             rb_set_black other;; rb_set_red parent;; rb_rotate d parent;; get_child (opp d) parent
           else mret other);
  erase_tail d parent other.

Fixpoint erase_color_loop (fuel : nat) (node parent : Z) : M rbst Z :=
  b ← null_or_black node;
  r ← get_root;
  if negb ((b : bool) && negb (node =? r)) then mret node else
  match fuel with
  | O => out_of_fuel
  | S fuel' =>
      l ← get_child DL parent;
      '(node, parent, brk) ← erase_side (if l =? node then DL else DR) parent;
      if (brk : bool) then mret node else erase_color_loop fuel' node parent
  end.

(** [__rb_erase_color] *)
Definition rb_erase_color (node parent : Z) : M rbst unit :=
  s ← get_st;
  node ← erase_color_loop (S (size (nodes s))) node parent;
  if negb (node =? 0) then rb_set_black node else mret tt.

(** [while ((left = node->rb_left) != NULL) node = left;] *)
Fixpoint leftmost (fuel : nat) (node : Z) : M rbst Z :=
  l ← get_child DL node;
  if l =? 0 then mret node else
  match fuel with O => out_of_fuel | S fuel' => leftmost fuel' l end.

(** The child of [parent] that is [old], or the root, becomes [new]. *)
Definition replace_child (parent old new : Z) : M rbst unit :=
  if negb (parent =? 0) then
    l ← get_child DL parent;
    if l =? old then set_child DL parent new else set_child DR parent new
  else set_root new.

(** [node], the successor of [old], takes its place: the result is [child], [parent] and
    [color]. *)
Definition erase_move (old node : Z) : M rbst (Z * Z * Z) :=
  c ← get_child DR node;
  parent ← rb_parent node;
  color ← rb_color node;
  (if negb (c =? 0) then rb_set_parent c parent else mret tt);;
  parent ← (if parent =? old then set_child DR parent c;; mret node else set_child DL parent c;; mret parent);
  o ← rd old;
  wr node (fun _ => o);;
  p ← rb_parent old;
  replace_child p old node;;
  l ← get_child DL old;
  rb_set_parent l node;;
  r ← get_child DR old;
  (if negb (r =? 0) then rb_set_parent r node else mret tt);;
  mret (c, parent, color).

(** [rb_erase] of a node with two children up to the label [color]. *)
Definition erase_inner (old : Z) : M rbst (Z * Z * Z) :=
  s ← get_st;
  right ← get_child DR old;
  node ← leftmost (size (nodes s)) right;
  erase_move old node.

Definition erase_outer (node c : Z) : M rbst (Z * Z * Z) :=
  parent ← rb_parent node;
  color ← rb_color node;
  (if negb (c =? 0) then rb_set_parent c parent else mret tt);;
  replace_child parent node c;;
  mret (c, parent, color).

Definition rb_erase (node : Z) : M rbst unit :=
  l ← get_child DL node;
  r ← get_child DR node;
  '(c, parent, color) ←
    (if l =? 0 then erase_outer node r
     else if r =? 0 then erase_outer node l
     else erase_inner node);
  if color =? RB_BLACK then rb_erase_color c parent else mret tt.

Definition rb_first : M rbst Z :=
  s ← get_st;
  n ← get_root;
  if n =? 0 then mret 0 else leftmost (size (nodes s)) n.

(** [while ((parent = rb_parent(node)) && node == parent->rb_right) node = parent;] *)
Fixpoint climb (fuel : nat) (node : Z) : M rbst Z :=
  parent ← rb_parent node;
  up ← (if negb (parent =? 0) then r ← get_child DR parent; mret (node =? r) else mret false);
  if negb (up : bool) then mret parent else
  match fuel with O => out_of_fuel | S fuel' => climb fuel' parent end.

Definition rb_next (node : Z) : M rbst Z :=
  s ← get_st;
  p ← rb_parent node;
  if p =? node then mret 0 else
  r ← get_child DR node;
  if negb (r =? 0) then leftmost (size (nodes s)) r
  else climb (size (nodes s)) node.

(** [rb_link_node] with [rb_link] the [d] link of [parent], or the root pointer. *)
Definition rb_link_node (node parent : Z) (d : dir) : M rbst unit :=
  wr node (fun _ => mkRb parent 0 0);;
  if negb (parent =? 0) then set_child d parent node else set_root node.

(** * Cells *)

Inductive color : Type := Red | Black.
#[global] Instance color_eq_dec : EqDecision color.
Proof. solve_decision. Defined.
Definition colz (c : color) : Z := match c with Red => 0 | Black => 1 end.

(** A node with its word unpacked. *)
Record cell : Type := mkCell { c_par : Z; c_col : color; c_left : Z; c_right : Z }.
Definition enc (c : cell) : rb_node := mkRb (c_par c + colz (c_col c)) (c_right c) (c_left c).

(** Node addresses are aligned and not NULL. *)
Definition valid (a : Z) : Prop := 0 < a /\ a mod 4 = 0.
Definition ptrok (p : Z) : Prop := p = 0 \/ valid p.

Definition cell_ok (x : Z * cell) : Prop := valid x.1 /\ ptrok (c_par x.2).

(** The heap holds the cells of [L], at different addresses. *)
Definition agree (h : gmap Z rb_node) (L : list (Z * cell)) : Prop :=
  NoDup L.*1 /\ Forall (fun x => cell_ok x /\ h !! x.1 = Some (enc x.2)) L.

Definition st (L : list (Z * cell)) (r : Z) (s : rbst) : Prop := agree (nodes s) L /\ rb_root s = r.

(** [m] returns [v] and turns the cells [L] into [L']. *)
Definition runs {A} (m : M rbst A) (L : list (Z * cell)) (r : Z) (v : A) (L' : list (Z * cell)) (r' : Z) : Prop :=
  forall s, st L r s -> exists s', m s = Ret v s' /\ st L' r' s'.

Lemma agree_perm h L L' : L ≡ₚ L' -> agree h L -> agree h L'.
Proof. intros E [H1 H2]. split; by rewrite <- E. Qed.

Lemma runs_perm {A} (m : M rbst A) L r v L' r' L1 L1' :
  L ≡ₚ L1 -> runs m L1 r v L1' r' -> L1' ≡ₚ L' -> runs m L r v L' r'.
Proof.
  intros E H E' s [Ha Hr]. destruct (H s) as (s' & Hm & Ha' & Hr').
  - split; [by apply (agree_perm _ L)|done].
  - exists s'. split; [done|]. split; [by apply (agree_perm _ L1')|done].
Qed.

Lemma runs_pre {A} (m : M rbst A) L r v L' r' L1 : L ≡ₚ L1 -> runs m L1 r v L' r' -> runs m L r v L' r'.
Proof. intros E H. by apply (runs_perm _ _ _ _ _ _ L1 L'). Qed.

Lemma runs_ret {A} (v : A) L r L' r' : L ≡ₚ L' -> r = r' -> runs (mret v) L r v L' r'.
Proof. intros E <- s [Ha Hr]. exists s. split; [done|]. split; [by apply (agree_perm _ L)|done]. Qed.

Lemma runs_bind {A B} (m : M rbst A) (k : A -> M rbst B) L r v L1 r1 w L2 r2 :
  runs m L r v L1 r1 -> runs (k v) L1 r1 w L2 r2 -> runs (m ≫= k) L r w L2 r2.
Proof.
  intros H1 H2 s Hs. destruct (H1 s Hs) as (s1 & E1 & Hs1). destruct (H2 s1 Hs1) as (s2 & E2 & Hs2).
  exists s2. split; [|done]. by rewrite (bind_Ret _ _ _ _ _ E1).
Qed.

(** What the cells of a state say about their addresses. *)
Lemma runs_facts {A} (m : M rbst A) L r v L' r' :
  (NoDup L.*1 -> Forall cell_ok L -> runs m L r v L' r') -> runs m L r v L' r'.
Proof.
  intros H s Hs. pose proof Hs as [[H1 H2] _]. apply H; [done | | done].
  eapply Forall_impl; [exact H2|]. by intros x [? _].
Qed.

Section Ops.
Context (a : Z) (c : cell) (L : list (Z * cell)) (r : Z).

Lemma st_lookup s : st ((a, c) :: L) r s -> nodes s !! a = Some (enc c).
Proof. intros [[_ H] _]. apply Forall_cons in H as [[_ H] _]. done. Qed.

Lemma runs_wr f c' :
  (cell_ok (a, c) -> f (enc c) = enc c' /\ ptrok (c_par c')) -> runs (wr a f) ((a, c) :: L) r tt ((a, c') :: L) r.
Proof.
  intros Hf s Hs. pose proof (st_lookup s Hs) as Hl. destruct Hs as [[Hnd Hall] Hr].
  apply Forall_cons in Hall as [[Hok _] Hall]. destruct (Hf Hok) as [Ef Hp].
  unfold wr. rewrite Hl, Ef. eexists. split; [done|]. split; [|done]. split; [done|]. apply Forall_cons. split.
  - split; [split; [apply Hok | done]|]. cbn. by rewrite lookup_insert_eq.
  - eapply Forall_impl; [apply Forall_forall; intros x Hx; exact (conj Hx (proj1 (Forall_forall _ _) Hall x Hx))|].
    intros x (Hx & Hxok & Hxl). split; [done|]. cbn. rewrite lookup_insert_ne; [done|]. intros E.
    apply NoDup_cons in Hnd as [Hn _]. apply Hn. cbn. rewrite E. by apply list_elem_of_fmap_2.
Qed.

Lemma runs_rd : runs (rd a) ((a, c) :: L) r (enc c) ((a, c) :: L) r.
Proof. intros s Hs. exists s. split; [|done]. unfold rd. by rewrite (st_lookup s Hs). Qed.

Definition ch (d : dir) (c : cell) : Z := match d with DL => c_left c | DR => c_right c end.
Definition upd_ch (d : dir) (p : Z) (c : cell) : cell :=
  match d with
  | DL => mkCell (c_par c) (c_col c) p (c_right c)
  | DR => mkCell (c_par c) (c_col c) (c_left c) p
  end.
Definition upd_par (p : Z) (c : cell) : cell := mkCell p (c_col c) (c_left c) (c_right c).
Definition upd_col (k : color) (c : cell) : cell := mkCell (c_par c) k (c_left c) (c_right c).

Lemma runs_get_child d : runs (get_child d a) ((a, c) :: L) r (ch d c) ((a, c) :: L) r.
Proof. eapply runs_bind; [apply runs_rd|]. replace (ch d c) with (child d (enc c)) by (by destruct d). by apply runs_ret. Qed.

Lemma runs_set_child d p : runs (set_child d a p) ((a, c) :: L) r tt ((a, upd_ch d p c) :: L) r.
Proof. apply runs_wr. intros [_ Hp]. destruct d; (split; [done | exact Hp]). Qed.

(** ** The packed word *)

Lemma par_bits p k : ptrok p -> k = 0 \/ k = 1 -> Z.testbit (p + k) 0 = (k =? 1) /\ Z.testbit (p + k) 1 = false /\ Z.shiftr (p + k) 2 = Z.shiftr p 2 /\ p = Z.shiftl (Z.shiftr p 2) 2.
Proof.
  intros Hp Hk. assert (exists q, p = 4 * q) as [q ->].
  { destruct Hp as [->|[_ Hm]]; [by exists 0|]. exists (p / 4). pose proof (Z.div_mod p 4 ltac:(lia)). lia. }
  rewrite !Z.shiftr_div_pow2, Z.shiftl_mul_pow2 by lia. change (2 ^ 2) with 4.
  rewrite !Z.testbit_eqb by lia. change (2 ^ 0) with 1. change (2 ^ 1) with 2.
  assert ((4 * q + k) / 4 = q) as -> by (symmetry; apply (Z.div_unique _ _ _ k); lia).
  assert (4 * q / 4 = q) as -> by (symmetry; apply (Z.div_unique _ _ _ 0); lia).
  rewrite Z.div_1_r. repeat split; [| | lia].
  - replace (4 * q + k) with (k + 2 * q * 2) by lia. rewrite Z.mod_add by lia. by destruct Hk as [->| ->].
  - replace ((4 * q + k) / 2) with (2 * q) by (apply (Z.div_unique _ _ _ k); lia).
    rewrite Z.mul_comm, Z.mod_mul by lia. done.
Qed.

Lemma word_bits x i : 0 <= i -> Z.testbit x i = if i <? 2 then Z.testbit x i else Z.testbit (Z.shiftr x 2) (i - 2).
Proof. intros Hi. destruct (Z.ltb_spec i 2); [done|]. rewrite Z.shiftr_spec by lia. f_equal. lia. Qed.

Lemma low_bit i : 0 <= i -> i < 2 -> i = 0 \/ i = 1.
Proof. lia. Qed.

Lemma word_eq x y : Z.testbit x 0 = Z.testbit y 0 -> Z.testbit x 1 = Z.testbit y 1 -> Z.shiftr x 2 = Z.shiftr y 2 -> x = y.
Proof.
  intros H0 H1 H2. apply Z.bits_inj'. intros i Hi. rewrite (word_bits x), (word_bits y), H2 by done.
  destruct (Z.ltb_spec i 2); [|done]. by destruct (low_bit i Hi ltac:(done)) as [->| ->].
Qed.

Lemma land_not3 p k : ptrok p -> k = 0 \/ k = 1 -> Z.land (p + k) (Z.lnot 3) = p.
Proof.
  intros Hp Hk. destruct (par_bits p k Hp Hk) as (B0 & B1 & Bs & Ep).
  destruct (par_bits p 0 Hp (or_introl eq_refl)) as (C0 & C1 & _ & _). rewrite Z.add_0_r in C0, C1.
  apply word_eq; rewrite ?Z.land_spec, ?Z.shiftr_land, ?B0, ?B1, ?Bs, ?C0, ?C1.
  - by rewrite andb_false_r.
  - done.
  - change (Z.shiftr (Z.lnot 3) 2) with (-1). by rewrite Z.land_m1_r.
Qed.

Lemma land_1 p k : ptrok p -> k = 0 \/ k = 1 -> Z.land (p + k) 1 = k.
Proof.
  intros Hp Hk. destruct (par_bits p k Hp Hk) as (B0 & B1 & Bs & Ep).
  apply word_eq; rewrite ?Z.land_spec, ?Z.shiftr_land, ?B0, ?B1, ?Bs.
  - by destruct Hk as [->| ->].
  - by destruct Hk as [->| ->].
  - change (Z.shiftr 1 2) with 0. rewrite Z.land_0_r. by destruct Hk as [->| ->].
Qed.

(** A word from its parent and its color bit. *)
Lemma word_make x p k :
  ptrok p -> k = 0 \/ k = 1 -> Z.testbit x 0 = (k =? 1) -> Z.testbit x 1 = false -> Z.shiftr x 2 = Z.shiftr p 2 -> x = p + k.
Proof.
  intros Hp Hk H0 H1 H2. destruct (par_bits p k Hp Hk) as (B0 & B1 & Bs & Ep). apply word_eq; congruence.
Qed.
End Ops.

Lemma colz_bit k : colz k = 0 \/ colz k = 1.
Proof. destruct k; [by left | by right]. Qed.
#[local] Hint Resolve colz_bit : core.

Section PackedOps.
Context (a : Z) (c : cell) (L : list (Z * cell)) (r : Z).

(** A read of the word of [a]. *)
Lemma runs_word {A} (f : Z -> A) v :
  (ptrok (c_par c) -> f (c_par c + colz (c_col c)) = v) ->
  runs (n ← rd a; mret (f (rb_parent_color n))) ((a, c) :: L) r v ((a, c) :: L) r.
Proof.
  intros Hf. apply runs_facts. intros _ [[_ Hp] _]%Forall_cons. eapply runs_bind; [apply runs_rd|].
  cbn [rb_parent_color enc]. rewrite (Hf Hp). by apply runs_ret.
Qed.

Lemma runs_parent : runs (rb_parent a) ((a, c) :: L) r (c_par c) ((a, c) :: L) r.
Proof. apply (runs_word (fun w => Z.land w (Z.lnot 3))). intros Hp. by apply land_not3. Qed.

Lemma runs_color : runs (rb_color a) ((a, c) :: L) r (colz (c_col c)) ((a, c) :: L) r.
Proof. apply (runs_word (fun w => Z.land w 1)). intros Hp. by apply land_1. Qed.

Lemma runs_is_red : runs (rb_is_red a) ((a, c) :: L) r (bool_decide (c_col c = Red)) ((a, c) :: L) r.
Proof. eapply runs_bind; [apply runs_color|]. destruct (c_col c); by apply runs_ret. Qed.

Lemma runs_is_black : runs (rb_is_black a) ((a, c) :: L) r (bool_decide (c_col c = Black)) ((a, c) :: L) r.
Proof. eapply runs_bind; [apply runs_color|]. destruct (c_col c); by apply runs_ret. Qed.

Lemma runs_set_red : runs (rb_set_red a) ((a, c) :: L) r tt ((a, upd_col Red c) :: L) r.
Proof.
  apply runs_wr. intros [_ Hp]. split; [|exact Hp]. unfold with_pc, enc. cbn. f_equal.
  destruct (par_bits (c_par c) _ Hp (colz_bit (c_col c))) as (B0 & B1 & Bs & _).
  apply word_make; [done | by left | | |]; rewrite ?Z.land_spec, ?Z.shiftr_land, ?B0, ?B1, ?Bs.
  - apply andb_false_r.
  - done.
  - change (Z.shiftr (Z.lnot 1) 2) with (-1). by rewrite Z.land_m1_r.
Qed.

Lemma runs_set_black : runs (rb_set_black a) ((a, c) :: L) r tt ((a, upd_col Black c) :: L) r.
Proof.
  apply runs_wr. intros [_ Hp]. split; [|exact Hp]. unfold with_pc, enc. cbn. f_equal.
  destruct (par_bits (c_par c) _ Hp (colz_bit (c_col c))) as (B0 & B1 & Bs & _).
  apply word_make; [done | by right | | |]; rewrite ?Z.lor_spec, ?Z.shiftr_lor, ?B0, ?B1, ?Bs.
  - apply orb_true_r.
  - done.
  - change (Z.shiftr 1 2) with 0. by rewrite Z.lor_0_r.
Qed.

Lemma runs_set_color k : runs (rb_set_color a (colz k)) ((a, c) :: L) r tt ((a, upd_col k c) :: L) r.
Proof.
  apply runs_wr. intros [_ Hp]. split; [|exact Hp]. unfold with_pc, enc. cbn. f_equal.
  destruct (par_bits (c_par c) _ Hp (colz_bit (c_col c))) as (B0 & B1 & Bs & _).
  apply word_make; [done | done | | |]; rewrite ?Z.lor_spec, ?Z.shiftr_lor, ?Z.land_spec, ?Z.shiftr_land, ?B0, ?B1, ?Bs.
  - rewrite andb_false_r. by destruct k.
  - by destruct k.
  - change (Z.shiftr (Z.lnot 1) 2) with (-1). rewrite Z.land_m1_r. destruct k; cbn [colz].
    + by rewrite Z.shiftr_0_l, Z.lor_0_r.
    + change (Z.shiftr 1 2) with 0. by rewrite Z.lor_0_r.
Qed.

Lemma runs_set_parent p : ptrok p -> runs (rb_set_parent a p) ((a, c) :: L) r tt ((a, upd_par p c) :: L) r.
Proof.
  intros Hq. apply runs_wr. intros [_ Hp]. split; [|exact Hq]. unfold with_pc, enc. cbn. f_equal.
  destruct (par_bits (c_par c) _ Hp (colz_bit (c_col c))) as (B0 & B1 & Bs & _).
  destruct (par_bits p 0 Hq (or_introl eq_refl)) as (C0 & C1 & _ & _). rewrite Z.add_0_r in C0, C1.
  apply word_make; [done | done | | |]; rewrite ?Z.lor_spec, ?Z.shiftr_lor, ?Z.land_spec, ?Z.shiftr_land, ?B0, ?B1, ?Bs, ?C0, ?C1.
  - change (Z.testbit 3 0) with true. by rewrite andb_true_r, orb_false_r.
  - done.
  - change (Z.shiftr 3 2) with 0. by rewrite Z.land_0_r, Z.lor_0_l.
Qed.
End PackedOps.

Lemma runs_get_root L r : runs get_root L r r L r.
Proof. intros s Hs. exists s. split; [|done]. unfold get_root. by destruct Hs as [_ ->]. Qed.

Lemma runs_set_root L r r' : runs (set_root r') L r tt L r'.
Proof. intros s [Ha _]. eexists. split; [done|]. by split. Qed.

(** There are at least as many nodes as cells. *)
Lemma agree_size h L : agree h L -> (length L <= size h)%nat.
Proof.
  intros [Hnd Hall]. rewrite <- (size_dom (D := gset Z)), <- (length_fmap fst), <- (size_list_to_set (C := gset Z) L.*1) by done.
  apply subseteq_size. intros a Ha. apply elem_of_list_to_set, list_elem_of_fmap in Ha as (x & -> & Hx).
  apply elem_of_dom. rewrite Forall_forall in Hall. destruct (Hall x Hx) as [_ ->]. done.
Qed.

Lemma runs_fuel {A} (k : nat -> M rbst A) L r v L' r' :
  (forall fuel, (length L <= fuel)%nat -> runs (k fuel) L r v L' r') ->
  runs (s ← get_st; k (size (nodes s))) L r v L' r'.
Proof. intros H s Hs. apply (H (size (nodes s))); [|done]. by apply agree_size, Hs. Qed.


(** * Trees *)

Inductive tree : Type := Leaf | Node (c : color) (l : tree) (a : Z) (r : tree).

Definition ptr (t : tree) : Z := match t with Leaf => 0 | Node _ _ a _ => a end.

(** The cells of a tree below the parent [par]. *)
Fixpoint tcells (par : Z) (t : tree) : list (Z * cell) :=
  match t with
  | Leaf => []
  | Node c l a r => (a, mkCell par c (ptr l) (ptr r)) :: tcells a l ++ tcells a r
  end.

(** A node with its [d] child first. *)
Definition nd (d : dir) (c : color) (x : tree) (a : Z) (y : tree) : tree :=
  match d with DL => Node c x a y | DR => Node c y a x end.

(** A tree with a hole: the hole is the [d] child of [a], [sib] is the other one. *)
Record frame : Type := Fr { f_dir : dir; f_col : color; f_addr : Z; f_sib : tree }.

Fixpoint plug (k : list frame) (t : tree) : tree :=
  match k with [] => t | Fr d c a sib :: k' => plug k' (nd d c t a sib) end.

Definition cptr (k : list frame) : Z := match k with [] => 0 | f :: _ => f_addr f end.

Definition fcell (par : Z) (f : frame) (hole : Z) : Z * cell :=
  (f_addr f, match f_dir f with
             | DL => mkCell par (f_col f) hole (ptr (f_sib f))
             | DR => mkCell par (f_col f) (ptr (f_sib f)) hole
             end).

Fixpoint ccells (k : list frame) (hole : Z) : list (Z * cell) :=
  match k with
  | [] => []
  | f :: k' => fcell (cptr k') f hole :: tcells (f_addr f) (f_sib f) ++ ccells k' (f_addr f)
  end.

(** The root of a plugged tree. *)
Fixpoint croot (k : list frame) (hole : Z) : Z :=
  match k with [] => hole | f :: k' => croot k' (f_addr f) end.

Lemma ptr_nd d c x a y : ptr (nd d c x a y) = a.
Proof. by destruct d. Qed.

Lemma ptr_plug k : forall t, ptr (plug k t) = croot k (ptr t).
Proof. induction k as [|[d c a sib] k IH]; intros t; [done|]. cbn [plug croot f_addr]. by rewrite IH, ptr_nd. Qed.

Lemma cells_plug k : forall t, tcells 0 (plug k t) ≡ₚ tcells (cptr k) t ++ ccells k (ptr t).
Proof.
  induction k as [|[d c a sib] k IH]; intros t; cbn [plug ccells]; [by rewrite app_nil_r|].
  rewrite IH. cbn [cptr f_addr f_sib]. destruct d; cbn [nd tcells ptr fcell f_dir f_col f_sib f_addr]; solve_Permutation.
Qed.

(** [m] returns [v] and turns the tree [T] into [T'], whatever else is in the heap. *)
Definition truns {A} (m : M rbst A) (T : tree) (v : A) (T' : tree) : Prop :=
  forall R, runs m (tcells 0 T ++ R) (ptr T) v (tcells 0 T' ++ R) (ptr T').

Lemma truns_ret {A} (v : A) T : truns (mret v) T v T.
Proof. intros R. by apply runs_ret. Qed.

Lemma truns_bind {A B} (m : M rbst A) (f : A -> M rbst B) T v T1 w T2 :
  truns m T v T1 -> truns (f v) T1 w T2 -> truns (m ≫= f) T w T2.
Proof. intros H1 H2 R. eapply runs_bind; [apply H1 | apply H2]. Qed.

(** An operation on a subtree in its context. *)
Lemma truns_at {A} (m : M rbst A) k t v t' :
  (forall R, runs m (tcells (cptr k) t ++ ccells k (ptr t) ++ R) (croot k (ptr t)) v
                    (tcells (cptr k) t' ++ ccells k (ptr t') ++ R) (croot k (ptr t'))) ->
  truns m (plug k t) v (plug k t').
Proof.
  intros H R. rewrite !ptr_plug. eapply runs_perm; [|apply (H R)|]; rewrite cells_plug; solve_Permutation.
Qed.

(** ** Symbolic execution *)

(** Find the cell of [a] in the explicit part of [L]. *)
Ltac pick a L k :=
  match L with
  | (a, ?c) :: ?L' => k c L'
  | ?x :: ?L' => pick a L' ltac:(fun c R => k c (x :: R))
  | ?L1 ++ ?L2 =>
      first [ pick a L1 ltac:(fun c R => k c (R ++ L2)) | pick a L2 ltac:(fun c R => k c (L1 ++ R)) ]
  end.

Ltac front a :=
  match goal with
  | |- runs _ ?L _ _ _ _ =>
      pick a L ltac:(fun c R => apply (runs_pre _ _ _ _ _ _ ((a, c) :: R)); [solve_Permutation|])
  end.

Lemma keys_neq a c b c' (L R : list (Z * cell)) : NoDup L.*1 -> L ≡ₚ (a, c) :: (b, c') :: R -> a <> b.
Proof. intros H E. rewrite E in H. apply NoDup_cons in H as [H _]. cbn in H. set_solver. Qed.

Lemma keys_ok a c (L R : list (Z * cell)) : Forall cell_ok L -> L ≡ₚ (a, c) :: R -> valid a /\ ptrok (c_par c).
Proof. intros H E. rewrite E in H. by apply Forall_cons in H as [H _]. Qed.

Ltac distinct a b :=
  match goal with
  | HD : NoDup (?L.*1) |- _ =>
      pick a L ltac:(fun c R => pick b R ltac:(fun c' R' =>
        assert (a <> b) by (apply (keys_neq a c b c' L R' HD); solve_Permutation)))
  end.

Ltac isvalid a :=
  match goal with
  | HV : Forall cell_ok ?L |- _ =>
      pick a L ltac:(fun c R =>
        destruct (keys_ok a c L R HV ltac:(solve_Permutation)))
  end.

(** Decide a comparison of addresses. *)
Ltac deqb :=
  match goal with
  | |- context [?x =? ?x] => rewrite (Z.eqb_refl x)
  | |- context [?x =? 0] =>
      isvalid x; rewrite (proj2 (Z.eqb_neq x 0)) by (unfold valid in *; lia)
  | |- context [0 =? ?x] => isvalid x; rewrite (proj2 (Z.eqb_neq 0 x)) by (unfold valid in *; lia)
  | |- context [?x =? ?y] => distinct x y; rewrite (proj2 (Z.eqb_neq x y)) by congruence
  end; cbn [negb andb orb].

(** One operation on an address whose cell is known. *)
Ltac rop :=
  lazymatch goal with
  | |- runs (get_child _ ?a) _ _ _ _ _ => front a; apply runs_get_child
  | |- runs (set_child _ ?a _) _ _ _ _ _ => front a; apply runs_set_child
  | |- runs (rb_parent ?a) _ _ _ _ _ => front a; apply runs_parent
  | |- runs (rb_color ?a) _ _ _ _ _ => front a; apply runs_color
  | |- runs (rb_is_red ?a) _ _ _ _ _ => front a; apply runs_is_red
  | |- runs (rb_is_black ?a) _ _ _ _ _ => front a; apply runs_is_black
  | |- runs (rb_set_red ?a) _ _ _ _ _ => front a; apply runs_set_red
  | |- runs (rb_set_black ?a) _ _ _ _ _ => front a; apply runs_set_black
  | |- runs (rb_set_color ?a _) _ _ _ _ _ => front a; apply runs_set_color
  | |- runs (rb_set_parent ?a _) _ _ _ _ _ => front a; apply runs_set_parent
  | |- runs get_root _ _ _ _ _ => apply runs_get_root
  | |- runs (set_root _) _ _ _ _ _ => apply runs_set_root
  | |- runs (rd ?a) _ _ _ _ _ => front a; apply runs_rd
  | |- runs (mret _) _ _ _ _ _ => by apply runs_ret
  end.

Lemma runs_assoc {A B C} (m : M rbst A) (f : A -> M rbst B) (g : B -> M rbst C) L r v L' r' :
  runs (x ← m; y ← f x; g y) L r v L' r' -> runs (y ← (x ← m; f x); g y) L r v L' r'.
Proof.
  intros H s Hs. destruct (H s Hs) as (s' & Hm & Hs'). exists s'. split; [|done]. revert Hm.
  unfold mbind, M_bind. by destruct (m s).
Qed.

Ltac ptr_ok := match goal with |- ptrok ?p => first [ by left | isvalid p; by right ] end.
Ltac rsimpl := cbn [opp ch upd_ch upd_par upd_col c_par c_col c_left c_right negb ptr tcells app].
Ltac rstep := eapply runs_bind; [rop; try ptr_ok | rsimpl].

(** Run through a function as far as the cells are known. *)
Ltac rgo :=
  rsimpl;
  lazymatch goal with
  | |- runs (mbind _ (mbind _ _)) _ _ _ _ _ => apply runs_assoc; rgo
  | |- runs (mbind _ (if _ then _ else _)) _ _ _ _ _ => deqb; rgo
  | |- runs (if _ then _ else _) _ _ _ _ _ => deqb; rgo
  | |- runs (mbind _ _) _ _ _ _ _ => rstep; rgo
  | |- runs (mret _) _ _ _ _ _ => apply runs_ret; [solve_Permutation | done]
  | |- runs _ _ _ _ _ _ => eapply runs_perm; [reflexivity | rop; try ptr_ok | rsimpl; solve_Permutation]
  | |- _ => idtac
  end.

Lemma rotate_spec d c x a c' y b z k :
  truns (rb_rotate d a) (plug k (nd d c x a (nd d c' y b z))) tt (plug k (nd d c' (nd d c x a y) b z)).
Proof.
  apply truns_at. intros R. apply runs_facts. intros HD HV. unfold rb_rotate.
  destruct d, y as [|cy yl ay yr], k as [|[[|] ck ak [|cs sl sa sr]] k];
    cbn [nd tcells ptr cptr ccells croot] in *; unfold fcell in *; cbn [f_dir f_col f_addr f_sib ptr tcells app] in *; rgo.
Qed.

(** * Operations on trees *)

Lemma rotate_left_spec c x a c' y b z k :
  truns (rb_rotate DL a) (plug k (Node c x a (Node c' y b z))) tt (plug k (Node c' (Node c x a y) b z)).
Proof. apply (rotate_spec DL). Qed.

Lemma rotate_right_spec c x a c' y b z k :
  truns (rb_rotate DR a) (plug k (Node c (Node c' z b y) a x)) tt (plug k (Node c' z b (Node c y a x))).
Proof. apply (rotate_spec DR). Qed.

Section At.
Context (k : list frame) (c : color) (l : tree) (a : Z) (r : tree).

Lemma truns_read {A} (m : M rbst A) v :
  (forall L q, runs m ((a, mkCell (cptr k) c (ptr l) (ptr r)) :: L) q v ((a, mkCell (cptr k) c (ptr l) (ptr r)) :: L) q) ->
  truns m (plug k (Node c l a r)) v (plug k (Node c l a r)).
Proof. intros H. apply truns_at. intros R. apply H. Qed.

Lemma t_child d : truns (get_child d a) (plug k (Node c l a r)) (match d with DL => ptr l | DR => ptr r end) (plug k (Node c l a r)).
Proof. apply truns_read. intros L q. destruct d; apply runs_get_child. Qed.

Lemma t_parent : truns (rb_parent a) (plug k (Node c l a r)) (cptr k) (plug k (Node c l a r)).
Proof. apply truns_read. intros L q. apply runs_parent. Qed.

Lemma t_color : truns (rb_color a) (plug k (Node c l a r)) (colz c) (plug k (Node c l a r)).
Proof. apply truns_read. intros L q. apply runs_color. Qed.

Lemma t_is_red : truns (rb_is_red a) (plug k (Node c l a r)) (bool_decide (c = Red)) (plug k (Node c l a r)).
Proof. apply truns_read. intros L q. apply runs_is_red. Qed.

Lemma t_is_black : truns (rb_is_black a) (plug k (Node c l a r)) (bool_decide (c = Black)) (plug k (Node c l a r)).
Proof. apply truns_read. intros L q. apply runs_is_black. Qed.

Lemma t_set_color k' : truns (rb_set_color a (colz k')) (plug k (Node c l a r)) tt (plug k (Node k' l a r)).
Proof. apply truns_at. intros R. apply runs_set_color. Qed.

Lemma t_set_red : truns (rb_set_red a) (plug k (Node c l a r)) tt (plug k (Node Red l a r)).
Proof. apply truns_at. intros R. apply runs_set_red. Qed.

Lemma t_set_black : truns (rb_set_black a) (plug k (Node c l a r)) tt (plug k (Node Black l a r)).
Proof. apply truns_at. intros R. apply runs_set_black. Qed.
End At.

Lemma t_root T : truns get_root T (ptr T) T.
Proof. intros R. apply runs_get_root. Qed.

(** ** Addresses of a tree *)

Fixpoint addrs (t : tree) : list Z :=
  match t with Leaf => [] | Node _ l a r => a :: addrs l ++ addrs r end.
Fixpoint caddrs (k : list frame) : list Z :=
  match k with [] => [] | f :: k' => f_addr f :: addrs (f_sib f) ++ caddrs k' end.

Lemma keys_tcells t : forall par, (tcells par t).*1 = addrs t.
Proof. induction t as [|c l IHl a r IHr]; intros par; [done|]. cbn. by rewrite fmap_app, IHl, IHr. Qed.

Lemma addrs_plug k : forall t, addrs (plug k t) ≡ₚ addrs t ++ caddrs k.
Proof.
  induction k as [|[d c a sib] k IH]; intros t; cbn [plug caddrs f_addr f_sib]; [by rewrite app_nil_r|].
  rewrite IH. destruct d; cbn [nd addrs]; solve_Permutation.
Qed.

(** The nodes of a tree are at different valid addresses. *)
Definition wf (t : tree) : Prop := NoDup (addrs t) /\ Forall valid (addrs t).

Lemma cells_wf T R : NoDup (tcells 0 T ++ R).*1 -> Forall cell_ok (tcells 0 T ++ R) -> wf T.
Proof.
  intros HD HV. split.
  - rewrite fmap_app, keys_tcells in HD. by apply NoDup_app in HD as [? _].
  - rewrite <- (keys_tcells _ 0). apply Forall_app in HV as [HV _]. apply Forall_fmap.
    eapply Forall_impl; [exact HV|]. by intros x [? _].
Qed.

Lemma truns_facts {A} (m : M rbst A) T v T' : (wf T -> truns m T v T') -> truns m T v T'.
Proof. intros H R. apply runs_facts. intros HD HV. apply H. by apply (cells_wf T R). Qed.

Lemma wf_plug k t : wf (plug k t) -> wf t /\ (forall a, a ∈ addrs t -> a ∉ caddrs k) /\ Forall valid (caddrs k).
Proof.
  intros [H1 H2]. rewrite addrs_plug in H1, H2. apply NoDup_app in H1 as (? & ? & ?). apply Forall_app in H2 as [? ?].
  by repeat split.
Qed.

Lemma wf_addr k c l a r : wf (plug k (Node c l a r)) -> valid a.
Proof. intros [[_ H] _]%wf_plug. by apply Forall_cons in H as [? _]. Qed.

Lemma ptr_in t : ptr t = 0 \/ ptr t ∈ addrs t.
Proof. destruct t; [by left|]. right. cbn. left. Qed.

(** Two children are different nodes. *)
Lemma wf_siblings k c l a r : wf (plug k (Node c l a r)) -> l <> Leaf -> ptr l <> ptr r.
Proof.
  intros [[Hd Hv] _]%wf_plug Hl E. cbn in Hd, Hv. apply NoDup_cons in Hd as [_ Hd]. apply NoDup_app in Hd as (_ & Hd & _).
  apply Forall_cons in Hv as [_ Hv]. apply Forall_app in Hv as [Hv _]. destruct l as [|cl ll al lr]; [done|]. cbn in E.
  destruct (ptr_in r) as [E0|Hr].
  - apply Forall_cons in Hv as [Hv _]. unfold valid in Hv. lia.
  - apply (Hd al); [cbn; left | by rewrite E].
Qed.
