(* ===== verification/RbInsert.v ===== *)
(** Insertion in the red-black trees of src/fio/lib/rbtree.c: balance, order and
    termination of [rb_insert_color]. *)
From S2P Require Import Prelude Rbtree.

(** * Red-black trees *)

Definition is_black (t : tree) : Prop := match t with Node Red _ _ _ => False | _ => True end.

(** No red node has a red child, and every path has [n] black nodes. *)
Inductive rbt : tree -> nat -> Prop :=
  | rbt_leaf : rbt Leaf 0
  | rbt_red l a r n : rbt l n -> rbt r n -> is_black l -> is_black r -> rbt (Node Red l a r) n
  | rbt_black l a r n : rbt l n -> rbt r n -> rbt (Node Black l a r) (S n).

(** A tree as the functions leave it: the root is black. *)
Definition rb_tree (t : tree) : Prop := is_black t /\ exists n, rbt t n.

Fixpoint inorder (t : tree) : list Z :=
  match t with Leaf => [] | Node _ l a r => inorder l ++ a :: inorder r end.

Definition blacken (t : tree) : tree := match t with Leaf => Leaf | Node _ l a r => Node Black l a r end.

Definition top_black (k : list frame) : Prop := match k with Fr _ Black _ _ :: _ => True | _ => False end.

(** A context whose hole takes a tree of black height [n]. *)
Inductive okc : list frame -> nat -> Prop :=
  | okc_nil n : okc [] n
  | okc_black d a s n k : rbt s n -> okc k (S n) -> okc (Fr d Black a s :: k) n
  | okc_red d a s n k : rbt s n -> is_black s -> okc k n -> top_black k -> okc (Fr d Red a s :: k) n.

(** ... and a red tree only below a black node. *)
Definition accepts (k : list frame) (t : tree) : Prop :=
  match k with Fr _ Red _ _ :: _ => is_black t | _ => True end.

Create HintDb rb.
#[export] Hint Constructors rbt okc : rb.

Lemma rbt_nd_black d x a y n : rbt x n -> rbt y n -> rbt (nd d Black x a y) (S n).
Proof. destruct d; cbn [nd]; auto with rb. Qed.
Lemma rbt_nd_red d x a y n : rbt x n -> rbt y n -> is_black x -> is_black y -> rbt (nd d Red x a y) n.
Proof. destruct d; cbn [nd]; auto with rb. Qed.
#[export] Hint Resolve rbt_nd_black rbt_nd_red : rb.

Lemma rbt_blacken t n : rbt t n -> exists m, rbt (blacken t) m.
Proof. intros H. destruct H; cbn; eauto with rb. Qed.

Lemma is_black_blacken t : is_black (blacken t).
Proof. by destruct t. Qed.

Lemma plug_rbt k : forall t n, okc k n -> rbt t n -> accepts k t ->
  (exists m, rbt (plug k t) m) /\ (k <> [] -> is_black (plug k t)).
Proof.
  induction k as [|[d c a s] k IH]; intros t n Hk Ht Ha; [split; [by exists n | done]|].
  inversion Hk as [|? ? ? ? ? Hs Hk'|? ? ? ? ? Hs Hsb Hk' Htop]; subst; cbn [plug].
  - destruct (IH (nd d Black t a s) (S n)) as [H1 H2]; [done | auto with rb | |].
    + destruct k as [|[? [|] ? ?] ?]; [done | by destruct d | done].
    + split; [done|]. intros _. destruct k; [by destruct d | by apply H2].
  - destruct (IH (nd d Red t a s) n) as [H1 H2]; [done | auto with rb | |].
    + by destruct k as [|[? [|] ? ?] ?].
    + split; [done|]. intros _. destruct k; [done | by apply H2].
Qed.

Lemma inorder_plug k : exists before after, forall t, inorder (plug k t) = before ++ inorder t ++ after.
Proof.
  induction k as [|[d c a s] k (b & f & IH)]; [exists [], []; intros t; cbn; by rewrite app_nil_r|].
  destruct d.
  - exists b, (a :: inorder s ++ f). intros t. cbn [plug]. rewrite IH. cbn. by rewrite <- !app_assoc.
  - exists (b ++ inorder s ++ [a]), f. intros t. cbn [plug]. rewrite IH. cbn. by rewrite <- !app_assoc.
Qed.

Lemma inorder_replace k t t' : inorder t = inorder t' -> inorder (plug k t) = inorder (plug k t').
Proof. intros H. destruct (inorder_plug k) as (b & f & E). by rewrite !E, H. Qed.

Lemma inorder_blacken t : inorder (blacken t) = inorder t.
Proof. by destruct t. Qed.

Lemma addrs_inorder t : addrs t ≡ₚ inorder t.
Proof. induction t as [|c l IHl a r IHr]; [done|]. cbn. rewrite IHl, IHr. solve_Permutation. Qed.

(** * Running on trees *)

(** See the tree of a goal from the node at [x]. *)
Ltac find_node x k t kont :=
  match t with
  | Node _ _ x _ => kont k t
  | Node ?c ?l ?y ?r => first [ find_node x (Fr DL c y r :: k) l kont | find_node x (Fr DR c y l :: k) r kont ]
  end.
Ltac focus x :=
  match goal with
  | |- truns ?m (plug ?k ?t) ?v ?T => find_node x k t ltac:(fun k' t' => change (truns m (plug k' t') v T))
  | |- truns ?m ?t ?v ?T => find_node x (@nil frame) t ltac:(fun k' t' => change (truns m (plug k' t') v T))
  end.

Ltac top :=
  cbn [plug nd];
  lazymatch goal with
  | |- truns (mret _) _ _ _ => apply truns_ret
  | |- truns get_root _ _ _ => apply t_root
  | |- truns (get_child _ ?x) _ _ _ => focus x; apply t_child
  | |- truns (rb_parent ?x) _ _ _ => focus x; apply t_parent
  | |- truns (rb_color ?x) _ _ _ => focus x; apply t_color
  | |- truns (rb_is_red ?x) _ _ _ => focus x; apply t_is_red
  | |- truns (rb_is_black ?x) _ _ _ => focus x; apply t_is_black
  | |- truns (rb_set_color ?x _) _ _ _ => focus x; apply t_set_color
  | |- truns (rb_set_red ?x) _ _ _ => focus x; apply t_set_red
  | |- truns (rb_set_black ?x) _ _ _ => focus x; apply t_set_black
  | |- truns (rb_rotate DL ?x) _ _ _ => focus x; apply rotate_left_spec
  | |- truns (rb_rotate DR ?x) _ _ _ => focus x; apply rotate_right_spec
  end.

Lemma truns_assoc {A B C} (m : M rbst A) (f : A -> M rbst B) (g : B -> M rbst C) T v T' :
  truns (x ← m; y ← f x; g y) T v T' -> truns (y ← (x ← m; f x); g y) T v T'.
Proof. intros H R. apply runs_assoc, H. Qed.

Lemma truns_ret_bind {A B} (x : A) (f : A -> M rbst B) T v T' : truns (f x) T v T' -> truns (x ← mret x; f x) T v T'.
Proof. intros H. eapply truns_bind; [apply truns_ret | exact H]. Qed.

Ltac tsimpl :=
  cbn [opp negb cptr f_addr ptr andb colz];
  change (0 =? 0) with true;
  change (bool_decide (Red = Red)) with true; change (bool_decide (Black = Red)) with false;
  change (bool_decide (Black = Black)) with true; change (bool_decide (Red = Black)) with false;
  cbn [negb andb].
Ltac tstep :=
  tsimpl;
  lazymatch goal with
  | |- truns (mbind _ (mbind _ _)) _ _ _ => apply truns_assoc
  | |- truns (mbind _ (mret _)) _ _ _ => apply truns_ret_bind
  | |- truns (mbind _ _) _ _ _ => eapply truns_bind; [top|]
  | |- truns _ _ _ _ => top
  end.

(** * Insertion *)

(** The loop stops below a black parent and at the root. *)
Lemma insert_stop fuel k c l a r :
  match k with [] => True | _ => top_black k end ->
  truns (insert_loop fuel a) (plug k (Node c l a r)) tt (plug k (Node c l a r)).
Proof.
  intros Hk. apply truns_facts. intros Hwf.
  destruct k as [|[d [|] p s] k]; [| done |].
  - destruct fuel; cbn [insert_loop]; repeat tstep.
  - assert (valid p) as [Hp _].
    { apply wf_plug in Hwf as (_ & _ & H). by apply Forall_cons in H as [? _]. }
    assert ((p =? 0) = false) as E by lia.
    destruct fuel; cbn [insert_loop]; (destruct d; cbn [plug nd]; (eapply truns_bind; [focus a; apply t_parent|]);
      cbn [cptr f_addr]; rewrite E; repeat tstep).
Qed.

(** A sibling that is there is not NULL. *)
Lemma wf_sib k d c a t cs sl sa sr : wf (plug (Fr d c a (Node cs sl sa sr) :: k) t) -> (sa =? 0) = false.
Proof.
  intros (_ & _ & H)%wf_plug. cbn in H. apply Forall_cons in H as [_ H]. apply Forall_cons in H as [[? _] _]. lia.
Qed.

Section Side.
Context (k : list frame) (l : tree) (a : Z) (r : tree) (p : Z) (s : tree) (g : Z).

(** A red uncle: recolor and go up. *)
Lemma side_red d1 d2 ul u ur :
  truns (insert_side d2 a p g) (plug (Fr d1 Red p s :: Fr d2 Black g (Node Red ul u ur) :: k) (Node Red l a r)) g
    (plug k (nd d2 Red (nd d1 Black (Node Red l a r) p s) g (Node Black ul u ur))).
Proof.
  apply truns_facts. intros Hwf. unfold insert_side.
  pose proof (wf_sib _ _ _ _ (nd d1 Red (Node Red l a r) p s) _ _ _ _ Hwf) as Eu.
  destruct d1, d2; cbn [plug nd]; tstep; tsimpl; rewrite Eu; repeat tstep.
Qed.

(** A black uncle: one rotation, or two, make the subtree black again. *)
Lemma side_outer d u : is_black u ->
  truns (insert_side d a p g) (plug (Fr d Red p s :: Fr d Black g u :: k) (Node Red l a r)) a
    (plug k (nd d Black (Node Red l a r) p (nd d Red s g u))).
Proof.
  intros Hu. apply truns_facts. intros Hwf. unfold insert_side.
  assert ((ptr s =? a) = false) as Es.
  { apply Z.eqb_neq. intros E. destruct d; cbn [plug nd] in Hwf.
    - apply (wf_siblings (Fr DL Black g u :: k) Red (Node Red l a r) p s Hwf); done.
    - assert (s = Leaf \/ s <> Leaf) as [->|Hs] by (destruct s; [by left | by right]).
      + cbn in E. apply (wf_addr (Fr DR Red p Leaf :: Fr DR Black g u :: k)) in Hwf. unfold valid in Hwf. lia.
      + by apply (wf_siblings (Fr DR Black g u :: k) Red s p (Node Red l a r) Hwf). }
  destruct d; cbn [plug nd]; tstep; tsimpl.
  all: destruct u as [|[|] ul u ur]; [| done |].
  all: tsimpl.
  all: try rewrite (wf_sib k _ _ _ _ _ _ _ _ Hwf).
  all: repeat tstep; tsimpl; rewrite Es; repeat tstep.
Qed.

Lemma side_inner d u : is_black u ->
  truns (insert_side d a p g) (plug (Fr (opp d) Red p s :: Fr d Black g u :: k) (Node Red l a r)) p
    (plug k (match d with
             | DL => Node Black (Node Red s p l) a (Node Red r g u)
             | DR => Node Black (Node Red u g l) a (Node Red r p s)
             end)).
Proof.
  intros Hu. apply truns_facts. intros Hwf. unfold insert_side.
  destruct d; cbn [plug nd opp]; tstep; tsimpl.
  all: destruct u as [|[|] ul u ur]; [| done |].
  all: tsimpl.
  all: try rewrite (wf_sib k _ _ _ _ _ _ _ _ Hwf).
  all: repeat tstep; tsimpl; rewrite ?Z.eqb_refl; repeat tstep.
Qed.
End Side.

(** A round below a red parent. *)
Lemma insert_round fuel k l a r d1 p s d2 g u v T1 T2 :
  let T := plug (Fr d1 Red p s :: Fr d2 Black g u :: k) (Node Red l a r) in
  truns (insert_side d2 a p g) T v T1 -> truns (insert_loop fuel v) T1 tt T2 ->
  truns (insert_loop (S fuel) a) T tt T2.
Proof.
  intros T H1 H2. apply truns_facts. intros Hwf. cbn [insert_loop].
  assert ((p =? 0) = false) as Ep.
  { assert (valid p) as [? _]; [|lia]. destruct d1.
    - exact (wf_addr (Fr d2 Black g u :: k) Red (Node Red l a r) p s Hwf).
    - exact (wf_addr (Fr d2 Black g u :: k) Red s p (Node Red l a r) Hwf). }
  assert (d2 = DR -> (p =? ptr u) = false) as Eu.
  { intros ->. apply Z.eqb_neq. intros E. subst T. cbn [plug nd] in Hwf.
    destruct (decide (ptr u = 0)) as [E0|E0]; [lia|].
    apply (wf_siblings k Black u g (nd d1 Red (Node Red l a r) p s) Hwf); [by intros ->|]. by rewrite ptr_nd. }
  subst T. destruct d1, d2; cbn [plug nd] in *; tstep; tsimpl; rewrite Ep; repeat (tstep; [idtac]); tsimpl;
    rewrite ?Z.eqb_refl, ?Eu by done.
  all: try (eapply truns_bind; [exact H1 | exact H2]).
Qed.

Lemma plug_node k : forall t, t <> Leaf -> plug k t <> Leaf.
Proof. induction k as [|[d c a s] k IH]; intros t Ht; [done|]. cbn [plug]. apply IH. by destruct d. Qed.

(** A tree that is balanced again, up to the color of its root. *)
Definition settled (t : tree) : Prop := t <> Leaf /\ exists n, rbt (blacken t) n.

Lemma plug_settled k t n : okc k n -> rbt t n -> accepts k t -> t <> Leaf -> settled (plug k t).
Proof.
  intros Hk Ht Ha Hl. split; [by apply plug_node|]. destruct (plug_rbt k t n Hk Ht Ha) as [[m Hm] _].
  by apply (rbt_blacken _ m).
Qed.

Lemma accepts_black k t : is_black t -> accepts k t.
Proof. destruct k as [|[? [|] ? ?] ?]; done. Qed.

(** The same nodes in the same order. *)
Ltac inord := cbn [inorder nd opp]; repeat (rewrite <- app_assoc || rewrite <- app_comm_cons); done.

(** The loop ends, and leaves a settled tree with the nodes in the same order. *)
Lemma insert_loop_spec fuel : forall k n l a r,
  (length k <= fuel)%nat -> okc k n -> rbt (Node Red l a r) n ->
  exists T, truns (insert_loop fuel a) (plug k (Node Red l a r)) tt T /\ settled T /\
    inorder T = inorder (plug k (Node Red l a r)).
Proof.
  induction fuel as [fuel IH] using lt_wf_ind. intros k n l a r Hf Hk Ht.
  inversion Hk as [|d p s ? k' Hs Hk'|d1 p s ? k' Hs Hsb Hk' Htop]; subst.
  - eexists. split; [by apply insert_stop|]. split; [|done]. by apply (plug_settled [] _ n).
  - eexists. split; [by apply insert_stop|]. split; [|done]. by apply (plug_settled _ _ n).
  - destruct k' as [|[d2 [|] g u] k]; [done | done |]. inversion Hk' as [|? ? ? ? ? Hu Hk2|]; subst.
    destruct fuel as [|fuel]; [cbn in Hf; lia|].
    inversion Ht as [|? ? ? ? Hl Hr Hbl Hbr|]; subst.
    assert (is_black u \/ exists ul ua ur, u = Node Red ul ua ur) as [Hub|(ul & ua & ur & ->)].
    { destruct u as [|[|] ul ua ur]; [by left | right; eauto | by left]. }
    + (* rotations *)
      assert (d1 = d2 \/ d1 = opp d2) as [->| ->] by (destruct d1, d2; auto).
      * exists (plug k (nd d2 Black (Node Red l a r) p (nd d2 Red s g u))).
        split; [eapply insert_round; [by apply side_outer|]|].
        -- destruct d2; cbn [nd].
           ++ by apply (insert_stop fuel (Fr DL Black p (Node Red s g u) :: k) Red l a r).
           ++ by apply (insert_stop fuel (Fr DR Black p (Node Red u g s) :: k) Red l a r).
        -- split.
           ++ apply (plug_settled _ _ (S n)); [done | by destruct d2; cbn [nd]; auto with rb | apply accepts_black; by destruct d2 | by destruct d2].
           ++ apply (inorder_replace k _ (nd d2 Black (nd d2 Red (Node Red l a r) p s) g u)). destruct d2; inord.
      * exists (plug k (match d2 with
                        | DL => Node Black (Node Red s p l) a (Node Red r g u)
                        | DR => Node Black (Node Red u g l) a (Node Red r p s)
                        end)).
        split; [eapply insert_round; [by apply side_inner|]|].
        -- destruct d2.
           ++ by apply (insert_stop fuel (Fr DL Black a (Node Red r g u) :: k) Red s p l).
           ++ by apply (insert_stop fuel (Fr DR Black a (Node Red u g l) :: k) Red r p s).
        -- split.
           ++ apply (plug_settled _ _ (S n)); [done | by destruct d2; auto with rb | apply accepts_black; by destruct d2 | by destruct d2].
           ++ apply (inorder_replace k _ (nd d2 Black (nd (opp d2) Red (Node Red l a r) p s) g u)). destruct d2; inord.
    + inversion Hu; subst.
      set (P := nd d1 Black (Node Red l a r) p s). assert (rbt P (S n)) as HP by (by apply rbt_nd_black).
      assert (is_black P) as HbP by (by destruct d1).
      destruct (IH fuel ltac:(lia) k (S n) (match d2 with DL => P | DR => Node Black ul ua ur end) g
                 (match d2 with DL => Node Black ul ua ur | DR => P end)) as (T & HT1 & HT2 & HT3).
      * cbn in Hf. lia.
      * done.
      * destruct d2; auto with rb.
      * exists T. split; [|split; [done|]].
        -- eapply insert_round; [apply side_red|]. fold P. by destruct d2.
        -- rewrite HT3. apply (inorder_replace k _ (nd d2 Black (nd d1 Red (Node Red l a r) p s) g (Node Red ul ua ur))).
           destruct d1, d2; unfold P; inord.
Qed.

Lemma length_tcells t : forall par, length (tcells par t) = length (addrs t).
Proof. intros par. by rewrite <- (keys_tcells t par), length_fmap. Qed.

Lemma length_caddrs k : (length k <= length (caddrs k))%nat.
Proof. induction k as [|f k IH]; [done|]. cbn. rewrite length_app. lia. Qed.

Lemma length_frames k t : (length k <= length (addrs (plug k t)))%nat.
Proof. rewrite addrs_plug, length_app. pose proof (length_caddrs k). lia. Qed.

(** A function that takes the number of nodes as fuel. *)
Lemma truns_fuel {A} (f : nat -> M rbst A) T v T' :
  (forall fuel, (length (addrs T) <= fuel)%nat -> truns (f fuel) T v T') ->
  truns (s ← get_st; f (size (nodes s))) T v T'.
Proof.
  intros H R. apply runs_fuel. intros fuel Hf. apply H. rewrite length_app, length_tcells in Hf. lia.
Qed.

(** [rb_insert_color] after a red node was put in place. *)
Lemma insert_color_spec k n l a r :
  okc k n -> rbt (Node Red l a r) n ->
  forall R s, st (tcells 0 (plug k (Node Red l a r)) ++ R) (ptr (plug k (Node Red l a r))) s ->
  exists s' T, rb_insert_color a s = Ret tt s' /\ st (tcells 0 T ++ R) (ptr T) s' /\ rb_tree T /\
    inorder T = inorder (plug k (Node Red l a r)).
Proof.
  intros Hk Ht R s Hs.
  assert (length k <= size (nodes s))%nat as Hf.
  { pose proof (agree_size _ _ (proj1 Hs)) as H. rewrite length_app, length_tcells in H.
    pose proof (length_frames k (Node Red l a r)). lia. }
  destruct (insert_loop_spec (size (nodes s)) k n l a r Hf Hk Ht) as (T & H1 & [Hl [m Hm]] & H3).
  destruct (H1 R s Hs) as (s1 & E1 & Hs1). destruct T as [|c l' a' r']; [done|].
  destruct (t_set_black [] c l' a' r' R s1 Hs1) as (s2 & E2 & Hs2). cbn [plug] in Hs2.
  exists s2, (Node Black l' a' r'). split; [|split; [done|split; [by split; [|exists m]|by rewrite <- H3]]].
  unfold rb_insert_color. mstep. rewrite (bind_Ret _ _ _ _ _ E1). destruct Hs1 as [_ Hr].
  erewrite bind_Ret by reflexivity. rewrite Hr. exact E2.
Qed.

Lemma unplug_rbt k : forall t m, rbt (plug k t) m -> is_black (plug k t) -> exists n, okc k n /\ rbt t n /\ accepts k t.
Proof.
  induction k as [|[d c a s] k IH]; intros t m Hm Hb; [by exists m; repeat split; auto with rb|].
  cbn [plug] in Hm, Hb. destruct (IH _ _ Hm Hb) as (n & Hk & Ht & Ha).
  assert (top_black k \/ c = Black) as Hc.
  { destruct c; [|by right]. left. destruct k as [|[? [|] ? ?] ?]; [cbn in Hb; by destruct d | cbn in Ha; by destruct d | done]. }
  destruct d, c; cbn [nd] in Ht; inversion Ht; subst; (destruct Hc as [Hc|Hc]; [|try done]);
    eexists; repeat split; eauto with rb.
Qed.

(** A node outside the cells becomes one of them. *)
Lemma st_new L r s a n c :
  st L r s -> nodes s !! a = Some n -> valid a -> a ∉ L.*1 -> ptrok (c_par c) ->
  exists s', wr a (fun _ => enc c) s = Ret tt s' /\ st ((a, c) :: L) r s'.
Proof.
  intros [[Hnd Hall] Hr] Hn Hv Ha Hp. unfold wr. rewrite Hn. eexists. split; [done|]. split; [|done].
  split; [by constructor|]. constructor; [split; [by split | by cbn; rewrite lookup_insert_eq]|].
  apply Forall_forall. intros x Hx. rewrite Forall_forall in Hall. destruct (Hall x Hx) as [Hok Hl]. split; [done|].
  cbn. rewrite lookup_insert_ne; [done|]. intros ->. apply Ha. by apply list_elem_of_fmap_2.
Qed.

(** The link of the hole of [k] is the [d] link of its parent. *)
Definition link_dir (k : list frame) (d : dir) : Prop := match k with [] => True | f :: _ => f_dir f = d end.

Lemma link_spec k a n d R s :
  st (tcells 0 (plug k Leaf) ++ R) (ptr (plug k Leaf)) s -> nodes s !! a = Some n -> valid a ->
  a ∉ (tcells 0 (plug k Leaf) ++ R).*1 -> link_dir k d ->
  exists s', rb_link_node a (cptr k) d s = Ret tt s' /\
    st (tcells 0 (plug k (Node Red Leaf a Leaf)) ++ R) (ptr (plug k (Node Red Leaf a Leaf))) s'.
Proof.
  intros Hs Hn Hv Ha Hd.
  assert (k = [] \/ valid (cptr k)) as Hp.
  { destruct k as [|f k]; [by left|]. right. destruct Hs as [[_ Hall] _].
    apply Forall_app in Hall as [Hall _]. rewrite cells_plug in Hall. apply Forall_app in Hall as [_ Hall].
    cbn in Hall. apply Forall_cons in Hall as [[[H _] _] _]. exact H. }
  assert (ptrok (cptr k)) as Hpk by (destruct Hp as [->|?]; [by left | by right]).
  destruct (st_new _ _ _ a n (mkCell (cptr k) Red 0 0) Hs Hn Hv Ha Hpk) as (s1 & E1 & Hs1).
  unfold rb_link_node. change (enc (mkCell (cptr k) Red 0 0)) with (mkRb (cptr k + 0) 0 0) in E1. rewrite Z.add_0_r in E1.
  rewrite (bind_Ret _ _ _ _ _ E1). revert s1 Hs1 E1.
  enough (runs (if negb (cptr k =? 0) then set_child d (cptr k) a else set_root a)
            ((a, mkCell (cptr k) Red 0 0) :: tcells 0 (plug k Leaf) ++ R) (ptr (plug k Leaf)) tt
            (tcells 0 (plug k (Node Red Leaf a Leaf)) ++ R) (ptr (plug k (Node Red Leaf a Leaf)))) as H.
  { intros s1 Hs1 _. by apply H. }
  rewrite !ptr_plug. eapply runs_perm; [by rewrite cells_plug| |by rewrite cells_plug].
  destruct k as [|[d' c p sib] k]; cbn [cptr croot f_addr].
  - change (0 =? 0) with true. cbn. eapply runs_perm; [reflexivity | apply runs_set_root |]. solve_Permutation.
  - cbn [link_dir f_dir] in Hd. subst d'. destruct Hp as [Hp|[Hp _]]; [done|]. cbn in Hp.
    destruct (Z.eqb_spec p 0); [lia|]. cbn [negb ccells]. unfold fcell. cbn [f_dir f_col f_addr f_sib ptr tcells app].
    destruct d; (eapply runs_perm; [reflexivity | front p; apply runs_set_child | cbn; solve_Permutation]).
Qed.

(** Linking a node at a leaf and [rb_insert_color] insert it. *)
Lemma rb_insert_spec k a n d R s :
  st (tcells 0 (plug k Leaf) ++ R) (ptr (plug k Leaf)) s -> rb_tree (plug k Leaf) ->
  nodes s !! a = Some n -> valid a -> a ∉ (tcells 0 (plug k Leaf) ++ R).*1 -> link_dir k d ->
  exists s' T, (rb_link_node a (cptr k) d;; rb_insert_color a) s = Ret tt s' /\
    st (tcells 0 T ++ R) (ptr T) s' /\ rb_tree T /\ inorder T = inorder (plug k (Node Red Leaf a Leaf)).
Proof.
  intros Hs [Hb [m Hm]] Hn Hv Ha Hd. destruct (unplug_rbt k Leaf m Hm Hb) as (n0 & Hk & Ht & _).
  inversion Ht; subst. destruct (link_spec k a n d R s Hs Hn Hv Ha Hd) as (s1 & E1 & Hs1).
  destruct (insert_color_spec k 0 Leaf a Leaf Hk) with (R := R) (s := s1) as (s2 & T & E2 & H2); [by repeat constructor | done|].
  exists s2, T. rewrite (bind_Ret _ _ _ _ _ E1). by split.
Qed.
