(* ===== verification/RbErase.v ===== *)
(** Removal from the red-black trees of src/fio/lib/rbtree.c: balance, order and
    termination of [rb_erase]. *)
From S2P Require Import Prelude Rbtree RbInsert.

#[global] Instance tree_eq_dec : EqDecision tree.
Proof. solve_decision. Defined.

(** * The repair *)

(** The subtree [t] lacks one black node on its paths; a red root makes up for it. *)
Definition deficit (t : tree) (n : nat) : Prop :=
  match t with
  | Node Red l _ r => rbt l n /\ rbt r n
  | _ => rbt t n
  end.

Lemma deficit_rbt t n : rbt t n -> deficit t n.
Proof. intros H. destruct H; cbn; auto with rb. Qed.

Definition blackb (t : tree) : bool := match t with Node Red _ _ _ => false | _ => true end.

Lemma is_blackb t : is_black t -> blackb t = true.
Proof. by destruct t as [|[|] ? ? ?]. Qed.

Lemma t_null_or_black k t : truns (null_or_black (ptr t)) (plug k t) (blackb t) (plug k t).
Proof.
  apply truns_facts. intros Hwf. unfold null_or_black. destruct t as [|c l a r]; [apply truns_ret|]. cbn [ptr].
  pose proof (wf_addr k c l a r Hwf) as [? _]. destruct (Z.eqb_spec a 0); [lia|].
  destruct c; apply t_is_black.
Qed.

(** [if (x) rb_set_black(x)]. *)
Lemma t_set_black_opt k t : truns (if negb (ptr t =? 0) then rb_set_black (ptr t) else mret tt) (plug k t) tt (plug k (blacken t)).
Proof.
  apply truns_facts. intros Hwf. destruct t as [|c l a r]; [apply truns_ret|]. cbn [ptr].
  pose proof (wf_addr k c l a r Hwf) as [? _]. destruct (Z.eqb_spec a 0); [lia|]. apply t_set_black.
Qed.

(** See the tree of a goal from its subtree [x]. *)
Ltac find_sub x k t kont :=
  match t with
  | x => kont k
  | Node ?c ?l ?y ?r => first [ find_sub x (Fr DL c y r :: k) l kont | find_sub x (Fr DR c y l :: k) r kont ]
  end.
Ltac focus_sub x :=
  match goal with
  | |- truns ?m (plug ?k ?t) ?v ?T => find_sub x k t ltac:(fun k' => change (truns m (plug k' x) v T))
  end.

Ltac nstep x := eapply truns_bind; [cbn [plug nd]; focus_sub x; first [apply t_null_or_black | apply t_set_black_opt]|]; cbn [plug nd blackb].

(** The test of both children of the sibling. *)
Lemma t_both {B} (f : bool -> M rbst B) k c l a r v T' :
  truns (f (blackb l && blackb r)) (plug k (Node c l a r)) v T' ->
  truns (l ← get_child DL a; lb ← null_or_black l;
         both ← (if (lb : bool) then r ← get_child DR a; null_or_black r else mret false); f both)
    (plug k (Node c l a r)) v T'.
Proof.
  intros H. tstep. nstep l. destruct (blackb l); [|by apply truns_ret_bind].
  tstep. tstep. nstep r. exact H.
Qed.

Section Tail.
Context (k : list frame) (t : tree) (c : color) (p : Z).

(** The sibling and its children black: the sibling turns red. *)
Lemma tail_recolor d ol oa or :
  is_black ol -> is_black or ->
  truns (erase_tail d p oa) (plug (Fr d c p (Node Black ol oa or) :: k) t) (p, cptr k, false)
    (plug k (nd d c t p (Node Red ol oa or))).
Proof.
  intros Hl%is_blackb Hr%is_blackb. unfold erase_tail.
  destruct d; cbn [plug nd] in *; focus oa; apply t_both; rewrite Hl, Hr; repeat tstep.
Qed.

(** A red far child of the sibling: one rotation. *)
Lemma tail_far d near oa fl fa fr :
  let T := plug k (nd d c (nd d Black t p near) oa (Node Black fl fa fr)) in
  truns (erase_tail d p oa) (plug (Fr d c p (nd d Black near oa (Node Red fl fa fr)) :: k) t) (ptr T, p, true) T.
Proof.
  intros T. unfold erase_tail.
  destruct d; cbn [plug nd] in *; focus oa; apply t_both; cbn [blackb]; rewrite ?andb_false_r; cbn [andb]; tstep;
    nstep (Node Red fl fa fr); do 5 tstep; nstep (Node Red fl fa fr); cbn [blacken]; do 2 tstep; apply truns_ret.
Qed.

(** A red near child and a black far one: two rotations. *)
Lemma tail_near d nl na nr oa far :
  is_black far ->
  let T := plug k (nd d c (nd d Black t p nl) na (nd d Black nr oa far)) in
  truns (erase_tail d p oa) (plug (Fr d c p (nd d Black (nd d Red nl na nr) oa far) :: k) t) (ptr T, p, true) T.
Proof.
  intros Hf%is_blackb T. unfold erase_tail.
  destruct d; cbn [plug nd] in *; focus oa; apply t_both; cbn [blackb]; rewrite ?andb_false_r; cbn [andb]; tstep; nstep far; rewrite Hf; tstep.
  - tstep; cbn [plug nd]; apply truns_assoc; nstep (Node Red nl na nr); cbn [blacken]; do 9 tstep;
      nstep (Node Red nr oa far); cbn [blacken]; do 2 tstep; apply truns_ret.
  - tstep; cbn [plug nd]; apply truns_assoc; nstep (Node Red nr na nl); cbn [blacken]; do 9 tstep;
      nstep (Node Red far oa nr); cbn [blacken]; do 2 tstep; apply truns_ret.
Qed.
End Tail.

(** ** A round of the loop *)

Section Round.
Context (k : list frame) (t : tree) (p : Z) (d : dir).

(** A black sibling. *)
Lemma side_black_sib c ol oa or v T :
  truns (erase_tail d p oa) (plug (Fr d c p (Node Black ol oa or) :: k) t) v T ->
  truns (erase_side d p) (plug (Fr d c p (Node Black ol oa or) :: k) t) v T.
Proof. intros H. unfold erase_side. destruct d; cbn [plug nd] in *; repeat tstep; exact H. Qed.

(** A red sibling: a rotation first. *)
Lemma side_red_sib near oa far v T :
  truns (erase_tail d p (ptr near)) (plug (Fr d Red p near :: Fr d Black oa far :: k) t) v T ->
  truns (erase_side d p) (plug (Fr d Black p (nd d Red near oa far) :: k) t) v T.
Proof. intros H. unfold erase_side. destruct d; cbn [plug nd] in *; repeat tstep; exact H. Qed.
End Round.

Lemma plug_rb_tree k t n : okc k n -> rbt t n -> accepts k t -> k <> [] \/ is_black t -> rb_tree (plug k t).
Proof.
  intros Hk Ht Ha Hb. destruct (plug_rbt k t n Hk Ht Ha) as [Hm Hp]. split; [|done].
  destruct k; [by destruct Hb | by apply Hp].
Qed.

(** What a round gives: a deficit one level up, or a tree that is repaired. *)
Definition moved_up (c : color) (k : list frame) (v : Z * Z * bool) (T : tree) : Prop :=
  exists t n, v = (ptr t, cptr k, false) /\ T = plug k t /\ okc k (S n) /\ deficit t n /\ (c = Red -> blackb t = false).
Definition repaired (v : Z * Z * bool) (T : tree) : Prop := exists q, v = (ptr T, q, true) /\ rb_tree T.

Lemma okc_inv d c p s k n :
  okc (Fr d c p s :: k) n -> rbt s n /\ (c = Red -> is_black s /\ top_black k) /\ okc k (match c with Red => n | Black => S n end).
Proof. intros H. inversion H; subst; repeat split; done. Qed.

(** A node of the color [c] with two black children of height [n] in the place of one of height [n]. *)
Lemma plug_rotated k c x a y n :
  okc k (match c with Red => S n | Black => S (S n) end) -> (c = Red -> top_black k) ->
  rbt x (S n) -> rbt y (S n) -> is_black x -> is_black y -> rb_tree (plug k (Node c x a y)).
Proof.
  intros Hk Ht Hx Hy Hbx Hby. destruct c.
  - specialize (Ht eq_refl). apply (plug_rb_tree k _ (S n)); [done | auto with rb | |].
    + by destruct k as [|[? [|] ? ?] ?].
    + left. by destruct k.
  - apply (plug_rb_tree k _ (S (S n))); [done | auto with rb | by apply accepts_black | by right].
Qed.

Lemma tail_result k t c p d near oa far n :
  rbt t n -> okc (Fr d c p (nd d Black near oa far) :: k) (S n) ->
  let T0 := plug (Fr d c p (nd d Black near oa far) :: k) t in
  exists v T, truns (erase_tail d p oa) T0 v T /\ inorder T = inorder T0 /\ (moved_up c k v T \/ repaired v T).
Proof.
  intros Ht Hk T0. apply okc_inv in Hk as (Ho & Hc & Hk).
  assert (rbt near n /\ rbt far n) as [Hnear Hfar] by (destruct d; inversion Ho; subst; done).
  destruct (blackb far) eqn:Ef; [destruct (blackb near) eqn:En|].
  - assert (is_black near /\ is_black far) as [Hbn Hbf] by (destruct near as [|[|] ? ? ?], far as [|[|] ? ? ?]; done).
    exists (p, cptr k, false), (plug k (nd d c t p (nd d Red near oa far))). split; [|split; [|left]].
    + destruct d; cbn [nd]; by apply tail_recolor.
    + apply (inorder_replace k _ (nd d c t p (nd d Black near oa far))). destruct d; inord.
    + exists (nd d c t p (nd d Red near oa far)), (match c with Red => n | Black => S n end).
      rewrite ptr_nd. repeat split; [by destruct c | destruct c, d; cbn; auto with rb | by intros ->; destruct d].
  - destruct near as [|[|] nl na nr]; [done | | done]. inversion Hnear; subst.
    assert (is_black far) as Hbf by (by destruct far as [|[|] ? ? ?]).
    set (T := plug k (match d with
                      | DL => Node c (Node Black t p nl) na (Node Black nr oa far)
                      | DR => Node c (Node Black far oa nl) na (Node Black nr p t)
                      end)).
    exists (ptr T, p, true), T. split; [|split; [|right; exists p; split; [done|]]].
    + destruct d; [by apply (tail_near k t c p DL nl na nr oa far) | by apply (tail_near k t c p DR nr na nl oa far)].
    + apply (inorder_replace k _ (nd d c t p (nd d Black (Node Red nl na nr) oa far))). destruct d; inord.
    + subst T. destruct d; apply (plug_rotated k c _ _ _ n); auto with rb; try done; intros E; by apply Hc.
  - destruct far as [|[|] fl fa fr]; [done | | done]. inversion Hfar; subst.
    set (T := plug k (nd d c (nd d Black t p near) oa (Node Black fl fa fr))).
    exists (ptr T, p, true), T. split; [|split; [|right; exists p; split; [done|]]].
    + by apply tail_far.
    + apply (inorder_replace k _ (nd d c t p (nd d Black near oa (Node Red fl fa fr)))). destruct d; inord.
    + subst T. destruct d; apply (plug_rotated k c _ _ _ n); auto with rb; try done; intros E; by apply Hc.
Qed.

(** A node as its near and far child. *)
Lemma nd_form d c l a r : exists x y, Node c l a r = nd d c x a y /\ (x = l /\ y = r \/ x = r /\ y = l).
Proof. destruct d; [exists l, r | exists r, l]; split; auto. Qed.

Lemma side_result k t c p d o n :
  rbt t n -> okc (Fr d c p o :: k) (S n) ->
  let T0 := plug (Fr d c p o :: k) t in
  exists v T, truns (erase_side d p) T0 v T /\ inorder T = inorder T0 /\
    ((exists c' k', (length k' <= S (length k))%nat /\ (length k' = S (length k) -> c' = Red) /\ moved_up c' k' v T) \/
     repaired v T).
Proof.
  intros Ht Hk T0. destruct (okc_inv _ _ _ _ _ _ Hk) as (Ho & Hc & Hk'). destruct o as [|[|] ol oa or]; [inversion Ho | |].
  - (* a red sibling *)
    assert (c = Black) as -> by (destruct c; [by destruct (Hc eq_refl) | done]).
    destruct (nd_form d Red ol oa or) as (near & far & En & Hnf).
    assert (rbt near (S n) /\ is_black near /\ rbt far (S n)) as (Hrn & Hbn & Hrf).
    { inversion Ho; subst. by destruct Hnf as [[-> ->]|[-> ->]]. }
    destruct near as [|[|] nl na nr]; [inversion Hrn | done |].
    destruct (nd_form d Black nl na nr) as (x & y & Ex & _).
    destruct (tail_result (Fr d Black oa far :: k) t Red p d x na y n Ht) as (v & T & H1 & H2 & H3).
    { rewrite <- Ex. constructor; [done | done | by constructor | done]. }
    exists v, T. split; [|split].
    + subst T0. rewrite En. apply side_red_sib. rewrite Ex, ptr_nd. exact H1.
    + rewrite H2. subst T0. rewrite En, <- Ex. apply (inorder_replace k). destruct d; inord.
    + destruct H3 as [H3|H3]; [left | by right]. exists Red, (Fr d Black oa far :: k). split; [cbn; lia|]. by split.
  - destruct (nd_form d Black ol oa or) as (near & far & En & _).
    destruct (tail_result k t c p d near oa far n Ht) as (v & T & H1 & H2 & H3); [by rewrite <- En|].
    exists v, T. split; [|split].
    + subst T0. apply side_black_sib. rewrite En. exact H1.
    + rewrite H2. subst T0. by rewrite En.
    + destruct H3 as [H3|H3]; [left | by right]. exists c, k. split; [lia|]. split; [lia | done].
Qed.

(** ** The loop *)

Lemma wf_not_root k t : wf (plug k t) -> k <> [] -> ptr t <> ptr (plug k t).
Proof.
  intros Hwf Hk E. destruct (wf_plug _ _ Hwf) as (Hwt & Hd & Hv).
  assert (forall h, croot k h ∈ caddrs k) as Hin.
  { clear - Hk. intros h. destruct k as [|f k]; [done|]. cbn [croot caddrs]. clear h Hk. revert f. induction k as [|g k IH]; intros f.
    - left.
    - right. apply elem_of_app. right. apply (IH g). }
  rewrite ptr_plug in E. specialize (Hin (ptr t)). rewrite <- E in Hin. destruct (ptr_in t) as [E0|Ht].
  - rewrite Forall_forall in Hv. specialize (Hv _ Hin). unfold valid in Hv. lia.
  - by apply (Hd (ptr t)).
Qed.

(** The loop stops at a red node and at the root. *)
Lemma erase_stop fuel q k t : k = [] \/ blackb t = false ->
  truns (erase_color_loop fuel (ptr t) q) (plug k t) (ptr t) (plug k t).
Proof.
  intros H. assert (negb (blackb t && negb (ptr t =? ptr (plug k t))) = true) as E.
  { destruct H as [->| ->]; [|done]. cbn [plug]. rewrite Z.eqb_refl. by destruct (blackb t). }
  destruct fuel; cbn [erase_color_loop]; (eapply truns_bind; [apply t_null_or_black|]);
    (eapply truns_bind; [apply t_root|]); rewrite E; apply truns_ret.
Qed.

Lemma erase_round fuel d c p o k t v T T2 w :
  let T0 := plug (Fr d c p o :: k) t in
  blackb t = true -> o <> Leaf -> truns (erase_side d p) T0 v T ->
  truns (let '(node, parent, brk) := v in if (brk : bool) then mret node else erase_color_loop fuel node parent) T w T2 ->
  truns (erase_color_loop (S fuel) (ptr t) p) T0 w T2.
Proof.
  intros T0 Hb Ho H1 H2. apply truns_facts. intros Hwf. cbn [erase_color_loop].
  eapply truns_bind; [apply t_null_or_black|]. eapply truns_bind; [apply t_root|]. rewrite Hb.
  pose proof (wf_not_root _ _ Hwf ltac:(done)) as Hne. rewrite (proj2 (Z.eqb_neq _ _) Hne). cbn [negb andb].
  assert (d = DR -> (ptr o =? ptr t) = false) as Eo.
  { intros ->. apply Z.eqb_neq. intros E. subst T0. cbn [plug nd] in Hwf.
    by apply (wf_siblings k c o p t Hwf). }
  subst T0. destruct d; cbn [plug nd] in *; tstep; rewrite ?Z.eqb_refl, ?Eo by done;
    (eapply truns_bind; [exact H1|]); by destruct v as [[? ?] ?].
Qed.

Lemma blacken_black t : is_black t -> blacken t = t.
Proof. by destruct t as [|[|] ? ? ?]. Qed.

Lemma deficit_black t n : blackb t = true -> deficit t n -> rbt t n /\ is_black t.
Proof. by destruct t as [|[|] ? ? ?]. Qed.

(** The loop ends at a node that only has to turn black. *)
Lemma erase_loop_spec fuel : forall k t n,
  okc k (S n) -> deficit t n -> (length k <= fuel)%nat ->
  exists k' t', truns (erase_color_loop fuel (ptr t) (cptr k)) (plug k t) (ptr t') (plug k' t') /\
    rb_tree (plug k' (blacken t')) /\ inorder (plug k' t') = inorder (plug k t).
Proof.
  assert (forall fuel k t n, okc k (S n) -> deficit t n -> k = [] \/ blackb t = false ->
    exists k' t', truns (erase_color_loop fuel (ptr t) (cptr k)) (plug k t) (ptr t') (plug k' t') /\
    rb_tree (plug k' (blacken t')) /\ inorder (plug k' t') = inorder (plug k t)) as Hstop.
  { intros fuel0 k t n Hk Ht Hs. exists k, t. split; [by apply erase_stop|]. split; [|done].
    destruct (blackb t) eqn:Eb.
    - destruct Hs as [->|]; [|done]. destruct (deficit_black t n Eb Ht) as [Hr Hb]. rewrite blacken_black by done.
      split; [done | by exists n].
    - destruct t as [|[|] l a r]; try done. destruct Ht as [Hl Hr].
      apply (plug_rb_tree k _ (S n)); [done | cbn; auto with rb | by apply accepts_black | by right]. }
  induction fuel as [|fuel IH]; intros k t n Hk Ht Hf.
  { destruct k; [|cbn in Hf; lia]. apply (Hstop 0%nat [] t n); auto. }
  destruct (decide (k = [])) as [->|Hne]; [apply (Hstop (S fuel) [] t n); auto|].
  destruct (blackb t) eqn:Eb; [|apply (Hstop (S fuel) k t n); auto].
  destruct k as [|[d c p o] k]; [done|]. destruct (deficit_black t n Eb Ht) as [Hr _].
  assert (o <> Leaf) as Ho by (destruct (okc_inv _ _ _ _ _ _ Hk) as (H & _ & _); intros ->; inversion H).
  destruct (side_result k t c p d o n Hr Hk) as (v & T & H1 & H2 & [(c' & k' & Hl & Hred & Hm)|(q & -> & Hrep)]).
  - destruct Hm as (t' & n' & -> & -> & Hk' & Ht' & Hb').
    assert (exists k2 t2, truns (erase_color_loop fuel (ptr t') (cptr k')) (plug k' t') (ptr t2) (plug k2 t2) /\
      rb_tree (plug k2 (blacken t2)) /\ inorder (plug k2 t2) = inorder (plug k' t')) as (k2 & t2 & G1 & G2 & G3).
    { destruct (decide (length k' = S (length k))) as [El|El].
      - apply (Hstop fuel k' t' n'); [done | done|]. right. by apply Hb', Hred.
      - apply (IH k' t' n'); [done | done|]. cbn in Hf. lia. }
    exists k2, t2. split; [|split; [done | by rewrite G3, H2]]. by eapply erase_round.
  - exists [], T. cbn [plug]. split; [|split; [|done]].
    + eapply erase_round; [done | done | exact H1 | apply truns_ret].
    + rewrite blacken_black by apply Hrep. done.
Qed.

Lemma erase_color_spec k t n R s :
  okc k (S n) -> deficit t n -> st (tcells 0 (plug k t) ++ R) (ptr (plug k t)) s ->
  exists s' T, rb_erase_color (ptr t) (cptr k) s = Ret tt s' /\ st (tcells 0 T ++ R) (ptr T) s' /\ rb_tree T /\
    inorder T = inorder (plug k t).
Proof.
  intros Hk Ht Hs.
  assert (length k <= S (size (nodes s)))%nat as Hf.
  { pose proof (agree_size _ _ (proj1 Hs)) as H. rewrite length_app, length_tcells in H.
    pose proof (length_frames k t). lia. }
  destruct (erase_loop_spec (S (size (nodes s))) k t n Hk Ht Hf) as (k' & t' & H1 & H2 & H3).
  destruct (H1 R s Hs) as (s1 & E1 & Hs1). destruct (t_set_black_opt k' t' R s1 Hs1) as (s2 & E2 & Hs2).
  exists s2, (plug k' (blacken t')). split; [|split; [done|split; [done|]]].
  - unfold rb_erase_color. mstep. by rewrite (bind_Ret _ _ _ _ _ E1).
  - rewrite <- H3. apply inorder_replace, inorder_blacken.
Qed.

(** * Taking a node out *)

Lemma runs_drop {A} (m : M rbst A) L r v x L' r' : runs m L r v (x :: L') r' -> runs m L r v L' r'.
Proof.
  intros H s Hs. destruct (H s Hs) as (s' & E & [Hd Ha] & Hr). exists s'. split; [done|]. split; [|done].
  apply NoDup_cons in Hd as [_ Hd]. apply Forall_cons in Ha as [_ Ha]. by split.
Qed.

(** The hole of a context below a valid address, apart from the sibling. *)
Definition hole_ok (k : list frame) (old : Z) : Prop :=
  match k with [] => True | f :: _ => valid (f_addr f) /\ ptr (f_sib f) <> old end.

Lemma wf_hole k c l a r : wf (plug k (Node c l a r)) -> hole_ok k a.
Proof.
  intros H. destruct k as [|[d ck p sib] k]; [done|]. destruct (wf_plug _ _ H) as (_ & Hd & Hv). cbn in *.
  apply Forall_cons in Hv as [Hp _]. split; [done|]. intros E. destruct (ptr_in sib) as [E0|Hs].
  - pose proof (wf_addr (Fr d ck p sib :: k) c l a r H) as [? _]. lia.
  - apply (Hd a); [left|]. right. apply elem_of_app. left. by rewrite <- E.
Qed.

Lemma hole_ptrok k old : hole_ok k old -> ptrok (cptr k).
Proof. destruct k as [|f k]; [by left|]. intros [? _]. by right. Qed.

Lemma runs_replace k old new L :
  hole_ok k old ->
  runs (replace_child (cptr k) old new) (ccells k old ++ L) (croot k old) tt (ccells k new ++ L) (croot k new).
Proof.
  intros Hk. unfold replace_child. destruct k as [|[d c p sib] k]; cbn [cptr f_addr].
  { change (0 =? 0) with true. apply runs_set_root. }
  destruct Hk as [[Hp _] Hs]. cbn in Hp, Hs. destruct (Z.eqb_spec p 0); [lia|]. cbn [negb ccells croot f_addr]. unfold fcell.
  cbn [f_dir f_col f_addr f_sib app]. eapply runs_bind; [apply runs_get_child|].
  destruct d; cbn [ch c_left c_right].
  - rewrite Z.eqb_refl. apply (runs_set_child p).
  - destruct (Z.eqb_spec (ptr sib) old); [done|]. apply (runs_set_child p).
Qed.

(** [if (t) rb_set_parent(t, p)] *)
Lemma runs_reparent t p q L r :
  ptrok p -> Forall valid (addrs t) ->
  runs (if negb (ptr t =? 0) then rb_set_parent (ptr t) p else mret tt) (tcells q t ++ L) r tt (tcells p t ++ L) r.
Proof.
  intros Hp Hv. destruct t as [|c l a rt]; [by apply runs_ret|]. cbn [ptr]. apply Forall_cons in Hv as [[Ha _] _].
  destruct (Z.eqb_spec a 0); [lia|]. cbn [negb tcells app]. by apply (runs_set_parent a).
Qed.

(** A node with at most one child. *)
Definition only_child (l r t : tree) : Prop := (l = Leaf /\ t = r) \/ (r = Leaf /\ t = l).

Lemma outer_spec k c l a r t R :
  only_child l r t ->
  runs (erase_outer a (ptr t)) (tcells 0 (plug k (Node c l a r)) ++ R) (ptr (plug k (Node c l a r)))
    (ptr t, cptr k, colz c) (tcells 0 (plug k t) ++ R) (ptr (plug k t)).
Proof.
  intros Ht. apply runs_facts. intros HD HV.
  pose proof (cells_wf _ _ HD HV) as Hwf.
  pose proof (wf_hole _ _ _ _ _ Hwf) as Hk. pose proof (hole_ptrok k a Hk) as Hpk.
  rewrite !ptr_plug. cbn [ptr]. set (ac := mkCell (cptr k) c (ptr l) (ptr r)).
  eapply runs_pre with (L1 := (a, ac) :: tcells a t ++ ccells k a ++ R).
  { rewrite cells_plug. destruct Ht as [[-> ->]|[-> ->]]; cbn [tcells ptr]; fold ac; solve_Permutation. }
  apply (runs_drop _ _ _ _ (a, ac)). unfold erase_outer.
  eapply runs_bind; [apply runs_parent|]. eapply runs_bind; [apply runs_color|]. cbn [c_par c_col ac].
  eapply (runs_bind _ _ _ _ tt ((a, ac) :: tcells (cptr k) t ++ ccells k a ++ R)).
  { eapply runs_perm; [|apply (runs_reparent t (cptr k) a ((a, ac) :: ccells k a ++ R)); [done|]|]; [solve_Permutation| |solve_Permutation].
    destruct Hwf as [_ Hv]. rewrite addrs_plug in Hv. apply Forall_app in Hv as [Hv _]. apply Forall_cons in Hv as [_ Hv].
    cbn [addrs] in Hv. apply Forall_app in Hv as [Hvl Hvr]. destruct Ht as [[_ ->]|[_ ->]]; done. }
  eapply runs_bind; [eapply runs_pre with (L1 := ccells k a ++ (a, ac) :: tcells (cptr k) t ++ R); [solve_Permutation|]; by apply runs_replace|].
  apply runs_ret; [|done]. rewrite cells_plug. solve_Permutation.
Qed.

(** ** The successor *)

Fixpoint lmin (t : tree) : Z :=
  match t with Leaf => 0 | Node _ Leaf a _ => a | Node _ l _ _ => lmin l end.

Lemma leftmost_spec t : forall fuel k, t <> Leaf -> (length (addrs t) <= fuel)%nat ->
  truns (leftmost fuel (ptr t)) (plug k t) (lmin t) (plug k t).
Proof.
  induction t as [|c l IHl a r _]; intros fuel k Ht Hf; [done|]. apply truns_facts. intros Hwf.
  cbn in Hf. rewrite length_app in Hf. destruct fuel as [|fuel]; [lia|]. cbn [leftmost ptr].
  eapply truns_bind; [apply t_child|]. destruct l as [|cl ll la lr]; [apply truns_ret|].
  pose proof (wf_addr (Fr DL c a r :: k) cl ll la lr Hwf) as [? _]. cbn [ptr]. destruct (Z.eqb_spec la 0); [lia|].
  change (lmin (Node c (Node cl ll la lr) a r)) with (lmin (Node cl ll la lr)).
  apply (IHl fuel (Fr DL c a r :: k)); [done | lia].
Qed.

Lemma plug_app k1 : forall k2 t, plug (k1 ++ k2) t = plug k2 (plug k1 t).
Proof. induction k1 as [|[d c a s] k1 IH]; intros k2 t; [done|]. cbn [app plug]. apply IH. Qed.

(** The leftmost node and the way to it. *)
Lemma split_min t : t <> Leaf ->
  exists path c r, t = plug path (Node c Leaf (lmin t) r) /\ Forall (fun f => f_dir f = DL) path.
Proof.
  induction t as [|c l IHl a r _]; intros Ht; [done|]. destruct l as [|cl ll la lr].
  { by exists [], c, r. }
  destruct IHl as (path & c' & r' & E & Hp); [done|]. exists (path ++ [Fr DL c a r]), c', r'.
  rewrite plug_app. change (lmin (Node c (Node cl ll la lr) a r)) with (lmin (Node cl ll la lr)). rewrite <- E.
  split; [done|]. apply Forall_app. by split; [|constructor].
Qed.

(** The cells of a part of a context below [par]. *)
Fixpoint pcells (par : Z) (k : list frame) (hole : Z) : list (Z * cell) :=
  match k with
  | [] => []
  | f :: k' => fcell (match k' with [] => par | g :: _ => f_addr g end) f hole ::
                 tcells (f_addr f) (f_sib f) ++ pcells par k' (f_addr f)
  end.

Lemma ccells_app k1 : forall k2 h, ccells (k1 ++ k2) h = pcells (cptr k2) k1 h ++ ccells k2 (croot k1 h).
Proof.
  induction k1 as [|f k1 IH]; intros k2 h; [done|]. cbn [app ccells pcells croot]. rewrite IH, <- app_assoc.
  by destruct k1.
Qed.

Lemma croot_app k1 : forall k2 h, croot (k1 ++ k2) h = croot k2 (croot k1 h).
Proof. induction k1 as [|f k1 IH]; intros k2 h; [done|]. cbn [app croot]. apply IH. Qed.

(** A new child of the bottom of a path. *)
Lemma path_child par c a s q h h' L r :
  runs (set_child DL a h') (pcells par (Fr DL c a s :: q) h ++ L) r tt (pcells par (Fr DL c a s :: q) h' ++ L) r.
Proof. cbn [pcells app]. unfold fcell. apply (runs_set_child a). Qed.

(** A new parent of the top of a path. *)
Lemma path_parent par par' k : forall f h L r, ptrok par' ->
  runs (rb_set_parent (croot (f :: k) h) par') (pcells par (f :: k) h ++ L) r tt (pcells par' (f :: k) h ++ L) r.
Proof.
  induction k as [|g k IH]; intros f h L r Hp.
  - cbn [pcells croot app]. unfold fcell. destruct f as [[|] c a s]; by apply (runs_set_parent a).
  - change (croot (f :: g :: k) h) with (croot (g :: k) (f_addr f)). cbn [pcells].
    set (x := fcell _ f h). set (y := tcells (f_addr f) (f_sib f)).
    eapply runs_perm; [|apply (IH g (f_addr f) (x :: y ++ L) r Hp)|]; cbn [pcells]; solve_Permutation.
Qed.

(** [node] takes over the word and the links of [old]. *)
Lemma runs_copy a ac b bc L r : runs (wr b (fun _ => enc ac)) ((a, ac) :: (b, bc) :: L) r tt ((a, ac) :: (b, ac) :: L) r.
Proof.
  apply runs_facts. intros _ [[_ Hp] _]%Forall_cons.
  eapply runs_perm; [|apply (runs_wr b bc ((a, ac) :: L) r _ ac); intros _; by split|]; solve_Permutation.
Qed.

Section Move.
Context (k : list frame) (c : color) (l : tree) (a : Z) (cm : color) (m : Z) (mr : tree) (R : list (Z * cell)).
Hypothesis Hl : l <> Leaf.
Hypothesis Hk : hole_ok k a.
Hypothesis Ha : valid a.
Hypothesis Hm : valid m.
Hypothesis Hvl : Forall valid (addrs l).
Hypothesis Hvr : Forall valid (addrs mr).
Hypothesis Hne : m <> a.

(** The links of the moved node, from its new place on. *)
Lemma move_links rp (cells1 cells2 : list (Z * cell)) r0 :
  (forall L r, runs (if negb (rp =? 0) then rb_set_parent rp m else mret tt) (cells1 ++ L) r tt (cells2 ++ L) r) ->
  forall (v : Z * Z * Z),
  runs (o ← rd a; wr m (fun _ => o);; p ← rb_parent a; replace_child p a m;; l ← get_child DL a; rb_set_parent l m;;
        r ← get_child DR a; (if negb (r =? 0) then rb_set_parent r m else mret tt);; mret v)
    ((a, mkCell (cptr k) c (ptr l) rp) :: (m, r0) :: tcells a l ++ cells1 ++ ccells k a ++ R) (croot k a) v
    ((m, mkCell (cptr k) c (ptr l) rp) :: tcells m l ++ cells2 ++ ccells k m ++ R) (croot k m).
Proof.
  intros Hrp v. set (ac := mkCell (cptr k) c (ptr l) rp). apply (runs_drop _ _ _ _ (a, ac)).
  eapply runs_bind; [apply runs_rd|]. eapply runs_bind; [apply runs_copy|]. eapply runs_bind; [apply runs_parent|].
  cbn [c_par ac]. eapply runs_bind.
  { eapply runs_pre with (L1 := ccells k a ++ (a, ac) :: (m, ac) :: tcells a l ++ cells1 ++ R); [solve_Permutation|].
    by apply runs_replace. }
  eapply runs_bind; [front a; apply runs_get_child|]. cbn [ch c_left ac].
  eapply (runs_bind _ _ _ _ tt (tcells m l ++ (a, ac) :: (m, ac) :: cells1 ++ ccells k m ++ R)).
  { pose proof (runs_reparent l m a ((a, ac) :: (m, ac) :: cells1 ++ ccells k m ++ R) (croot k m) (or_intror Hm) Hvl) as H.
    destruct l as [|cl ll la lr]; [done|]. cbn [ptr] in H |- *. apply Forall_cons in Hvl as [[? _] _].
    destruct (Z.eqb_spec la 0); [lia|]. cbn [negb] in H. eapply runs_perm; [|exact H|]; solve_Permutation. }
  eapply runs_bind; [front a; apply runs_get_child|]. cbn [ch c_right ac].
  eapply runs_bind.
  { eapply runs_pre with (L1 := cells1 ++ (a, ac) :: (m, ac) :: tcells m l ++ ccells k m ++ R); [solve_Permutation|]. apply Hrp. }
  apply runs_ret; [|done]. solve_Permutation.
Qed.

(** The successor is the right child. *)
Lemma move_right :
  runs (erase_move a m)
    ((m, mkCell a cm 0 (ptr mr)) :: tcells m mr ++ (a, mkCell (cptr k) c (ptr l) m) :: tcells a l ++ ccells k a ++ R)
    (croot k a) (ptr mr, m, colz cm)
    (tcells m mr ++ (m, mkCell (cptr k) c (ptr l) (ptr mr)) :: tcells m l ++ ccells k m ++ R) (croot k m).
Proof.
  unfold erase_move. eapply runs_bind; [apply runs_get_child|]. eapply runs_bind; [apply runs_parent|].
  eapply runs_bind; [apply runs_color|]. cbn [ch c_left c_right c_par c_col].
  eapply runs_bind.
  { eapply runs_pre; [|apply (runs_reparent mr a m ((m, mkCell a cm 0 (ptr mr)) :: (a, mkCell (cptr k) c (ptr l) m) :: tcells a l ++ ccells k a ++ R)); [by right | done]].
    solve_Permutation. }
  rewrite Z.eqb_refl. eapply runs_bind.
  { eapply runs_bind; [front a; apply runs_set_child|]. by apply runs_ret. }
  cbn [upd_ch c_par c_col c_left].
  eapply runs_perm; [|apply (move_links (ptr mr) (tcells a mr) (tcells m mr))|].
  - solve_Permutation.
  - intros L r. apply runs_reparent; [by right | done].
  - solve_Permutation.
Qed.

(** The successor is further down on the left. *)
Lemma move_down cf fa fs q :
  let path := Fr DL cf fa fs :: q in
  fa <> a -> valid fa -> valid (croot path m) ->
  runs (erase_move a m)
    ((m, mkCell fa cm 0 (ptr mr)) :: tcells m mr ++ pcells a path m ++
       (a, mkCell (cptr k) c (ptr l) (croot path m)) :: tcells a l ++ ccells k a ++ R)
    (croot k a) (ptr mr, fa, colz cm)
    (tcells fa mr ++ pcells m path (ptr mr) ++
       (m, mkCell (cptr k) c (ptr l) (croot path m)) :: tcells m l ++ ccells k m ++ R) (croot k m).
Proof.
  intros path Hfa Hvf Hvt.
  unfold erase_move. eapply runs_bind; [apply runs_get_child|]. eapply runs_bind; [apply runs_parent|].
  eapply runs_bind; [apply runs_color|]. cbn [ch c_left c_right c_par c_col].
  eapply runs_bind.
  { eapply runs_pre; [|apply (runs_reparent mr fa m ((m, mkCell fa cm 0 (ptr mr)) :: pcells a path m ++
      (a, mkCell (cptr k) c (ptr l) (croot path m)) :: tcells a l ++ ccells k a ++ R)); [by right | done]].
    solve_Permutation. }
  destruct (Z.eqb_spec fa a); [done|]. eapply runs_bind.
  { eapply runs_bind; [|by apply runs_ret].
    eapply runs_pre; [|apply (path_child a cf fa fs q m (ptr mr) (tcells fa mr ++ (m, mkCell fa cm 0 (ptr mr)) ::
      (a, mkCell (cptr k) c (ptr l) (croot path m)) :: tcells a l ++ ccells k a ++ R))]. fold path. solve_Permutation. }
  fold path. eapply runs_perm; [|apply (move_links (croot path m) (tcells fa mr ++ pcells a path (ptr mr)) (tcells fa mr ++ pcells m path (ptr mr)))|].
  - solve_Permutation.
  - intros L r. destruct (Z.eqb_spec (croot path m) 0); [unfold valid in Hvt; lia|]. cbn [negb].
    eapply runs_perm; [|apply (path_parent a m q (Fr DL cf fa fs) (ptr mr) (tcells fa mr ++ L)); by right|];
      fold path; solve_Permutation.
  - solve_Permutation.
Qed.
End Move.

Lemma inner_spec k c l a r path cm mr R :
  let m := lmin r in
  let k' := path ++ Fr DR c m l :: k in
  l <> Leaf -> r <> Leaf -> r = plug path (Node cm Leaf m mr) -> Forall (fun f => f_dir f = DL) path ->
  runs (erase_inner a) (tcells 0 (plug k (Node c l a r)) ++ R) (ptr (plug k (Node c l a r)))
    (ptr mr, cptr k', colz cm) (tcells 0 (plug k' mr) ++ R) (ptr (plug k' mr)).
Proof.
  intros m k' Hl Hr Er Hp. apply runs_facts. intros HD HV. pose proof (cells_wf _ _ HD HV) as Hwf.
  pose proof (wf_hole _ _ _ _ _ Hwf) as Hk. pose proof (wf_addr _ _ _ _ _ Hwf) as Ha.
  destruct (wf_plug (Fr DR c a l :: k) r Hwf) as ([_ Hvr] & Hd & Hvk).
  cbn in Hvk. apply Forall_cons in Hvk as [_ Hvk]. apply Forall_app in Hvk as [Hvl _].
  assert (forall x, x ∈ addrs r -> x <> a) as Hxa by (intros x Hx ->; apply (Hd a Hx); cbn; left).
  assert (forall x, x ∈ addrs r -> valid x) as Hxv by (by apply Forall_forall).
  assert (Forall valid (addrs mr)) as Hvm.
  { apply Forall_forall. intros x Hx. apply Hxv. rewrite Er, addrs_plug. apply elem_of_app. left. by right. }
  assert (m ∈ addrs r) as Hmr by (rewrite Er, addrs_plug; left).
  unfold erase_inner. apply (runs_fuel (fun fuel => right ← get_child DR a; node ← leftmost fuel right; erase_move a node)).
  intros fuel Hf. rewrite length_app, length_tcells in Hf.
  assert (length (addrs r) <= fuel)%nat as Hfr.
  { pose proof (Permutation_length (addrs_plug (Fr DR c a l :: k) r)) as E. cbn [plug nd] in E. rewrite length_app in E. lia. }
  eapply runs_bind; [apply (t_child k c l a r DR)|]. eapply runs_bind; [apply (leftmost_spec r fuel (Fr DR c a l :: k) Hr Hfr)|].
  fold m. change (plug (Fr DR c a l :: k) r) with (plug k (Node c l a r)).
  assert (plug k (Node c l a r) = plug (path ++ Fr DR c a l :: k) (Node cm Leaf m mr)) as ET.
  { rewrite plug_app, <- Er. done. }
  rewrite ET, !ptr_plug.
  eapply runs_perm; [by rewrite cells_plug, ccells_app | | by rewrite cells_plug; unfold k'; rewrite ccells_app].
  unfold k'. destruct path as [|f q].
  - cbn [app pcells croot cptr f_addr tcells ptr ccells]. unfold fcell. cbn [f_dir f_col f_addr f_sib].
    eapply runs_perm; [|apply (move_right k c l a cm m mr R Hl Hk Ha (Hxv m Hmr) Hvl Hvm)|]; solve_Permutation.
  - apply Forall_cons in Hp as [Hdf Hp]. destruct f as [d cf fa fs]. cbn in Hdf. subst d.
    assert (fa ∈ addrs r) as Hfa.
    { rewrite Er, addrs_plug. apply elem_of_app. right. cbn. left. }
    assert (croot (Fr DL cf fa fs :: q) m ∈ addrs r) as Htop.
    { destruct (ptr_in r) as [E0|Hin].
      - destruct r; [done|]. cbn in E0. specialize (Hxv a0 ltac:(left)). unfold valid in Hxv. lia.
      - rewrite Er in Hin at 1. by rewrite ptr_plug in Hin. }
    rewrite !croot_app. cbn [croot]. fold (croot q fa). rewrite <- !app_assoc. cbn [app cptr f_addr tcells ptr]. cbn [ccells]. unfold fcell at 1 2. cbn [f_dir f_col f_addr f_sib].
    change (croot (Fr DL cf fa fs :: q) (ptr mr)) with (croot (Fr DL cf fa fs :: q) m).
    eapply runs_perm; [|apply (move_down k c l a cm m mr R Hl Hk (Hxv m Hmr) Hvl Hvm cf fa fs q (Hxa _ Hfa) (Hxv _ Hfa) (Hxv _ Htop))|].
    + solve_Permutation.
    + solve_Permutation.
Qed.

(** * Removal *)

Lemma okc_addr path d c a m s k : forall n, okc (path ++ Fr d c a s :: k) n -> okc (path ++ Fr d c m s :: k) n.
Proof.
  induction path as [|[d' c' a' s'] path IH]; intros n H; cbn [app] in *.
  - inversion H; subst; by constructor.
  - inversion H; subst; constructor; try done; [by apply IH.. |]. by destruct path.
Qed.

Lemma inorder_path path : Forall (fun f => f_dir f = DL) path -> exists tl, forall t, inorder (plug path t) = inorder t ++ tl.
Proof.
  induction 1 as [|[d c a s] path Hd _ [tl IH]]; [exists []; intros t; by rewrite app_nil_r|].
  cbn in Hd. subst d. exists (a :: inorder s ++ tl). intros t. cbn [plug nd]. rewrite IH. cbn. by rewrite <- app_assoc.
Qed.

(** After the node was taken out: the repair when it was black. *)
Lemma erase_finish k t c n R s :
  okc k (match c with Red => n | Black => S n end) -> rbt t n -> (c = Red -> is_black t /\ k <> []) ->
  st (tcells 0 (plug k t) ++ R) (ptr (plug k t)) s ->
  exists s' T, (if colz c =? RB_BLACK then rb_erase_color (ptr t) (cptr k) else mret tt) s = Ret tt s' /\
    st (tcells 0 T ++ R) (ptr T) s' /\ rb_tree T /\ inorder T = inorder (plug k t).
Proof.
  intros Hk Ht Hc Hs. destruct c.
  - exists s, (plug k t). split; [done|]. split; [done|]. split; [|done]. destruct (Hc eq_refl) as [Hb Hne].
    apply (plug_rb_tree k t n); [done | done | by apply accepts_black | by left].
  - by apply (erase_color_spec k t n R s); [| apply deficit_rbt |].
Qed.

(** The height below a node that is taken out. *)
Lemma unplug_node k c l a r :
  rb_tree (plug k (Node c l a r)) ->
  exists n, okc k (match c with Red => n | Black => S n end) /\ rbt l n /\ rbt r n /\
    (c = Red -> is_black l /\ is_black r /\ k <> []).
Proof.
  intros [Hb [m Hm]]. destruct (unplug_rbt k _ m Hm Hb) as (n & Hk & Ht & Ha).
  inversion Ht; subst.
  - exists n. split; [done|]. split; [done|]. split; [done|]. intros _. split; [done|]. split; [done|]. by intros ->.
  - by eexists.
Qed.

(** [T'] is [T] without the node [a]. *)
Definition erased (T : tree) (a : Z) (T' : tree) : Prop :=
  rb_tree T' /\ exists before after, inorder T = before ++ a :: after /\ inorder T' = before ++ after.

Section Erase.
Context (k : list frame) (c : color) (l : tree) (a : Z) (r : tree) (R : list (Z * cell)) (s : rbst).
Hypothesis Hs : st (tcells 0 (plug k (Node c l a r)) ++ R) (ptr (plug k (Node c l a r))) s.
Hypothesis Hrb : rb_tree (plug k (Node c l a r)).

Definition erase_end (v : Z * Z * Z) : M rbst unit :=
  let '(c0, parent, color) := v in if color =? RB_BLACK then rb_erase_color c0 parent else mret tt.

Lemma outer_case t : only_child l r t ->
  exists s' T, (erase_outer a (ptr t) ≫= erase_end) s = Ret tt s' /\ st (tcells 0 T ++ R) (ptr T) s' /\ erased (plug k (Node c l a r)) a T.
Proof.
  intros Ht. destruct (outer_spec k c l a r t R Ht s Hs) as (s1 & E1 & Hs1). rewrite (bind_Ret _ _ _ _ _ E1).
  destruct (unplug_node _ _ _ _ _ Hrb) as (n & Hk & Hl & Hr & Hc).
  destruct (erase_finish k t c n R s1 Hk) as (s' & T & E2 & Hs2 & HT & Eio).
  - by destruct Ht as [[_ ->]|[_ ->]].
  - intros Ec. destruct (Hc Ec) as (Hbl & Hbr & Hne). split; [by destruct Ht as [[_ ->]|[_ ->]] | done].
  - done.
  - exists s', T. split; [done|]. split; [done|]. split; [done|]. rewrite Eio. destruct (inorder_plug k) as (b & f & Ek).
    rewrite !Ek. cbn [inorder]. exists (b ++ inorder l), (inorder r ++ f). rewrite <- !app_assoc. cbn.
    split; [done|]. by destruct Ht as [[-> ->]|[-> ->]].
Qed.

Lemma inner_case : l <> Leaf -> r <> Leaf ->
  exists s' T, (erase_inner a ≫= erase_end) s = Ret tt s' /\ st (tcells 0 T ++ R) (ptr T) s' /\ erased (plug k (Node c l a r)) a T.
Proof.
  intros Hl Hr. destruct (split_min r Hr) as (path & cm & mr & Er & Hp). set (m := lmin r) in *.
  destruct (inner_spec k c l a r path cm mr R Hl Hr Er Hp s Hs) as (s1 & E1 & Hs1). fold m in E1, Hs1.
  rewrite (bind_Ret _ _ _ _ _ E1).
  assert (rb_tree (plug (path ++ Fr DR c a l :: k) (Node cm Leaf m mr))) as Hrb' by (by rewrite plug_app, <- Er).
  destruct (unplug_node _ _ _ _ _ Hrb') as (n & Hk & _ & Hmr & Hc).
  destruct (erase_finish (path ++ Fr DR c m l :: k) mr cm n R s1) as (s' & T & E2 & Hs2 & HT & Eio).
  - destruct cm; by apply (okc_addr _ _ _ a).
  - done.
  - intros Ec. destruct (Hc Ec) as (_ & Hb & _). split; [done | by destruct path].
  - done.
  - exists s', T. split; [done|]. split; [done|]. split; [done|]. rewrite Eio, plug_app. cbn [plug nd].
    destruct (inorder_plug k) as (b & f & Ek), (inorder_path path Hp) as [tl Etl]. rewrite !Ek. cbn [inorder].
    exists (b ++ inorder l), (inorder r ++ f). rewrite <- !app_assoc. split; [done|]. cbn.
    rewrite Er, !Etl. cbn. by rewrite <- !app_assoc.
Qed.

Lemma rb_erase_spec : exists s' T, rb_erase a s = Ret tt s' /\ st (tcells 0 T ++ R) (ptr T) s' /\ erased (plug k (Node c l a r)) a T.
Proof.
  assert (wf (plug k (Node c l a r))) as Hwf.
  { destruct Hs as [[HD HA] _]. apply (cells_wf _ R); [done|]. eapply Forall_impl; [exact HA|]. by intros x [? _]. }
  assert (forall q x, wf (plug q x) -> x <> Leaf -> (ptr x =? 0) = false) as Hnz.
  { intros q x Hx Hne. destruct x as [|cx xl xa xr]; [done|]. pose proof (wf_addr q cx xl xa xr Hx) as [? _]. cbn. lia. }
  assert (forall d, get_child d a s = Ret (match d with DL => ptr l | DR => ptr r end) s) as Hch.
  { intros d. unfold get_child, rd. munfold. destruct Hs as [[_ HA] _]. rewrite cells_plug in HA. cbn in HA.
    apply Forall_cons in HA as [[_ HA] _]. cbn in HA. rewrite HA. by destruct d. }
  unfold rb_erase. rewrite (bind_Ret _ _ _ _ _ (Hch DL)), (bind_Ret _ _ _ _ _ (Hch DR)).
  change (exists s' T, ((if ptr l =? 0 then erase_outer a (ptr r) else if ptr r =? 0 then erase_outer a (ptr l)
    else erase_inner a) ≫= erase_end) s = Ret tt s' /\ st (tcells 0 T ++ R) (ptr T) s' /\ erased (plug k (Node c l a r)) a T).
  destruct (decide (l = Leaf)) as [El|El]; [rewrite (f_equal ptr El : ptr l = 0); apply (outer_case r); by left|].
  rewrite (Hnz (Fr DL c a r :: k) l Hwf El).
  destruct (decide (r = Leaf)) as [Er|Er]; [rewrite (f_equal ptr Er : ptr r = 0); apply (outer_case l); by right|].
  rewrite (Hnz (Fr DR c a l :: k) r Hwf Er). by apply inner_case.
Qed.
End Erase.
