(* ===== verification/RbWalk.v ===== *)
(** Walking the red-black trees of src/fio/lib/rbtree.c in order, and what the
    functions promise to their callers. *)
From S2P Require Import Prelude Rbtree RbInsert RbErase.

(** * First and next *)

Lemma lmin_inorder t : lmin t = hd 0 (inorder t).
Proof.
  induction t as [|c l IHl a r _]; [done|]. destruct l as [|cl ll la lr]; [done|].
  change (lmin (Node c (Node cl ll la lr) a r)) with (lmin (Node cl ll la lr)). rewrite IHl. cbn [inorder].
  by destruct (inorder ll).
Qed.

Lemma first_spec T : truns rb_first T (hd 0 (inorder T)) T.
Proof.
  apply truns_facts. intros Hwf.
  apply (truns_fuel (fun fuel => n ← get_root; if n =? 0 then mret 0 else leftmost fuel n)). intros fuel Hf.
  eapply truns_bind; [apply t_root|]. destruct T as [|c l a r]; [apply truns_ret|]. cbn [ptr].
  pose proof (wf_addr [] c l a r Hwf) as [? _]. destruct (Z.eqb_spec a 0); [lia|].
  rewrite <- lmin_inorder. by apply (leftmost_spec (Node c l a r) fuel []).
Qed.

(** The node after the hole of a context. *)
Fixpoint csucc (k : list frame) : Z :=
  match k with
  | [] => 0
  | Fr DL _ a _ :: _ => a
  | Fr DR _ _ _ :: k' => csucc k'
  end.

Lemma inorder_succ k : exists before after, (forall t, inorder (plug k t) = before ++ inorder t ++ after) /\ hd 0 after = csucc k.
Proof.
  induction k as [|[d c a s] k (b & f & IH & Hs)]; [exists [], []; split; [intros t; by rewrite app_nil_r | done]|].
  destruct d; cbn [plug nd csucc].
  - exists b, (a :: inorder s ++ f). split; [|done]. intros t. rewrite IH. cbn. by rewrite <- app_assoc.
  - exists (b ++ inorder s ++ [a]), f. split; [|done]. intros t. rewrite IH. cbn. by rewrite <- !app_assoc.
Qed.

Lemma climb_spec k : forall fuel t, t <> Leaf -> (length k <= fuel)%nat ->
  truns (climb fuel (ptr t)) (plug k t) (csucc k) (plug k t).
Proof.
  induction k as [|[d c p s] k IH]; intros fuel t Ht Hf; apply truns_facts; intros Hwf; (destruct t as [|ct l a r]; [done|]); cbn [ptr].
  { destruct fuel; cbn [climb]; (eapply truns_bind; [apply t_parent|]); cbn; (eapply truns_bind; [apply truns_ret|]); apply truns_ret. }
  destruct (wf_hole _ _ _ _ _ Hwf) as [[Hp _] Hne]. cbn in Hp, Hne. destruct fuel as [|fuel]; [cbn in Hf; lia|]. cbn [climb].
  eapply truns_bind; [apply t_parent|]. cbn [cptr f_addr]. destruct (Z.eqb_spec p 0); [lia|]. cbn [negb].
  destruct d; cbn [plug nd csucc] in *.
  - eapply truns_bind; [eapply truns_bind; [apply (t_child k c (Node ct l a r) p s DR) | apply truns_ret]|].
    rewrite (proj2 (Z.eqb_neq _ _)) by congruence. apply truns_ret.
  - eapply truns_bind; [eapply truns_bind; [apply (t_child k c s p (Node ct l a r) DR) | apply truns_ret]|].
    cbn [ptr]. rewrite Z.eqb_refl. cbn [negb]. apply (IH fuel (Node c s p (Node ct l a r))); [done|]. cbn in Hf. lia.
Qed.

Lemma nodup_split (b : list Z) : forall a f b' f',
  NoDup (b ++ a :: f) -> b ++ a :: f = b' ++ a :: f' -> b = b' /\ f = f'.
Proof.
  induction b as [|x b IH]; intros a f b' f' Hnd E; destruct b' as [|y b']; cbn in E.
  - by injection E.
  - injection E as -> ->. apply NoDup_cons in Hnd as [Hn _]. set_solver.
  - injection E as -> <-. apply NoDup_cons in Hnd as [Hn _]. set_solver.
  - injection E as -> E. apply NoDup_cons in Hnd as [_ Hnd]. destruct (IH a f b' f' Hnd E) as [-> ->]. done.
Qed.

(** Every node of a tree is the focus of some context. *)
Lemma find_focus T a : a ∈ inorder T -> exists k c l r, T = plug k (Node c l a r).
Proof.
  induction T as [|c l IHl b r IHr]; cbn; intros Hin; [set_solver|].
  apply elem_of_app in Hin as [Hin|Hin]; [|apply elem_of_cons in Hin as [->|Hin]].
  - destruct (IHl Hin) as (k & c' & l' & r' & ->). exists (k ++ [Fr DL c b r]), c', l', r'. by rewrite plug_app.
  - by exists [], c, l, r.
  - destruct (IHr Hin) as (k & c' & l' & r' & ->). exists (k ++ [Fr DR c b l]), c', l', r'. by rewrite plug_app.
Qed.

Lemma wf_inorder T : wf T -> NoDup (inorder T).
Proof. intros [H _]. by rewrite addrs_inorder in H. Qed.

(** [rb_next] gives the next node in order, or NULL. *)
Lemma next_spec T a before after : inorder T = before ++ a :: after -> truns (rb_next a) T (hd 0 after) T.
Proof.
  intros E. apply truns_facts. intros Hwf.
  destruct (find_focus T a) as (k & c & l & r & ->); [rewrite E; set_solver|].
  destruct (inorder_succ k) as (b & f & Eio & Hs).
  assert (after = inorder r ++ f) as ->.
  { pose proof (wf_inorder _ Hwf) as Hnd. rewrite Eio in E, Hnd. cbn in E, Hnd. rewrite <- app_assoc in E, Hnd. cbn in E, Hnd.
    rewrite app_assoc in E, Hnd. by destruct (nodup_split _ _ _ _ _ Hnd E). }
  apply (truns_fuel (fun fuel => p ← rb_parent a; if p =? a then mret 0 else
    r ← get_child DR a; if negb (r =? 0) then leftmost fuel r else climb fuel a)). intros fuel Hf.
  eapply truns_bind; [apply t_parent|].
  assert ((cptr k =? a) = false) as ->.
  { apply Z.eqb_neq. intros E2. destruct k as [|g k].
    - pose proof (wf_addr [] _ _ _ _ Hwf) as [? _]. cbn in E2. lia.
    - destruct (wf_plug _ _ Hwf) as (_ & Hd & _). apply (Hd a); [cbn; left|]. cbn in *. rewrite E2. left. }
  eapply truns_bind; [apply t_child|]. rewrite addrs_plug, length_app in Hf. cbn in Hf. rewrite length_app in Hf.
  destruct r as [|cr rl ra rr]; cbn [ptr].
  - change (0 =? 0) with true. cbn [negb inorder app]. rewrite Hs. apply (climb_spec k fuel (Node c l a Leaf)); [done|].
    pose proof (length_caddrs k). lia.
  - pose proof (wf_addr (Fr DR c a l :: k) _ _ _ _ Hwf) as [? _]. destruct (Z.eqb_spec ra 0); [lia|]. cbn [negb].
    assert (hd 0 (inorder (Node cr rl ra rr) ++ f) = lmin (Node cr rl ra rr)) as ->.
    { rewrite lmin_inorder. cbn. by destruct (inorder rl). }
    apply (leftmost_spec (Node cr rl ra rr) fuel (Fr DR c a l :: k)); [done|]. cbn. rewrite length_app. cbn in Hf. rewrite length_app in Hf. lia.
Qed.

(** * The nodes in memory stay where they are *)

Definition kdom {A} (m : M rbst A) : Prop := keeps (fun t => dom (nodes t)) m.

Lemma kdom_bind {A B} (m : M rbst A) (f : A -> M rbst B) : kdom m -> (forall a, kdom (f a)) -> kdom (m ≫= f).
Proof. apply keeps_bind. Qed.

Lemma kdom_rd a : kdom (rd a).
Proof. intros s v s'. unfold rd. destruct (nodes s !! a); [|done]. by intros [= _ <-]. Qed.

Lemma kdom_wr a f : kdom (wr a f).
Proof.
  intros s v s'. unfold wr. destruct (nodes s !! a) as [r|] eqn:E; [|done]. intros [= _ <-]. apply dom_insert_lookup_L. by exists r.
Qed.

Lemma kdom_root : kdom get_root.
Proof. by intros s ? s' [= _ <-]. Qed.
Lemma kdom_set_root r : kdom (set_root r).
Proof. by intros s ? s' [= _ <-]. Qed.
Lemma kdom_ret {A} (v : A) : kdom (mret v).
Proof. apply keeps_ret. Qed.
Lemma kdom_fuel {A} : kdom (out_of_fuel (A := A)).
Proof. done. Qed.
Lemma kdom_st : kdom get_st.
Proof. by intros s ? s' [= _ <-]. Qed.
Create HintDb kdom.
#[local] Hint Resolve kdom_rd kdom_wr kdom_root kdom_set_root kdom_ret kdom_fuel kdom_st : kdom.

Ltac kd :=
  repeat match goal with
  | |- kdom (mbind _ _) => apply kdom_bind; [|intros ?]
  | |- kdom (if ?b then _ else _) => destruct b
  | |- kdom (let '(_, _) := ?x in _) => destruct x
  | |- kdom (match ?x with pair _ _ => _ end) => destruct x
  | |- kdom _ => solve [auto with kdom]
  end.

Lemma kdom_get_child d a : kdom (get_child d a).
Proof. unfold get_child. kd. Qed.
Lemma kdom_set_child d a p : kdom (set_child d a p).
Proof. unfold set_child. kd. Qed.
Lemma kdom_parent a : kdom (rb_parent a).
Proof. unfold rb_parent. kd. Qed.
Lemma kdom_color a : kdom (rb_color a).
Proof. unfold rb_color. kd. Qed.
#[local] Hint Resolve kdom_get_child kdom_set_child kdom_parent kdom_color : kdom.
Lemma kdom_word a : kdom (rb_is_red a) /\ kdom (rb_is_black a) /\ kdom (rb_set_red a) /\ kdom (rb_set_black a) /\
  (forall p, kdom (rb_set_parent a p)) /\ (forall c, kdom (rb_set_color a c)) /\ kdom (null_or_black a).
Proof. unfold null_or_black, rb_is_red, rb_is_black, rb_set_red, rb_set_black, rb_set_parent, rb_set_color. repeat split; intros; kd. Qed.

Lemma kdom_is_red a : kdom (rb_is_red a).
Proof. apply kdom_word. Qed.
Lemma kdom_is_black a : kdom (rb_is_black a).
Proof. apply kdom_word. Qed.
Lemma kdom_set_red a : kdom (rb_set_red a).
Proof. apply kdom_word. Qed.
Lemma kdom_set_black a : kdom (rb_set_black a).
Proof. apply kdom_word. Qed.
Lemma kdom_set_parent a p : kdom (rb_set_parent a p).
Proof. apply kdom_word. Qed.
Lemma kdom_set_color a c : kdom (rb_set_color a c).
Proof. apply kdom_word. Qed.
Lemma kdom_null a : kdom (null_or_black a).
Proof. apply kdom_word. Qed.
#[local] Hint Resolve kdom_is_red kdom_is_black kdom_set_red kdom_set_black kdom_set_parent kdom_set_color kdom_null : kdom.

Lemma kdom_rotate d a : kdom (rb_rotate d a).
Proof. unfold rb_rotate. kd. Qed.
#[local] Hint Resolve kdom_rotate : kdom.

Lemma kdom_insert_loop fuel : forall node, kdom (insert_loop fuel node).
Proof.
  induction fuel as [|fuel IH]; intros node; cbn [insert_loop]; unfold insert_side; kd.
Qed.

Lemma kdom_erase_loop fuel : forall node parent, kdom (erase_color_loop fuel node parent).
Proof.
  induction fuel as [|fuel IH]; intros node parent; cbn [erase_color_loop]; unfold erase_side, erase_tail; kd.
Qed.

Lemma kdom_leftmost fuel : forall node, kdom (leftmost fuel node).
Proof. induction fuel as [|fuel IH]; intros node; cbn [leftmost]; kd. Qed.
#[local] Hint Resolve kdom_insert_loop kdom_erase_loop kdom_leftmost : kdom.

Lemma kdom_insert node : kdom (rb_insert_color node).
Proof. unfold rb_insert_color. kd. Qed.

Lemma kdom_link node parent d : kdom (rb_link_node node parent d).
Proof. unfold rb_link_node. kd. Qed.

Lemma kdom_erase node : kdom (rb_erase node).
Proof. unfold rb_erase, erase_outer, erase_inner, erase_move, replace_child, rb_erase_color. kd. Qed.

(** * What the functions promise *)

(** The heap holds the tree [T], whose root is the root pointer, and the nodes [R]
    beside it. *)
Definition holds (T : tree) (R : list (Z * cell)) (s : rbst) : Prop := st (tcells 0 T ++ R) (ptr T) s.

Fixpoint height (t : tree) : nat :=
  match t with Leaf => 0 | Node _ l _ r => S (Nat.max (height l) (height r)) end.

Lemma rbt_size t n : rbt t n ->
  (2 ^ n <= S (length (inorder t)))%nat /\ (height t <= 2 * n + (if blackb t then 0 else 1))%nat.
Proof.
  induction 1 as [|l a r n Hl [IH1 IH2] Hr [IH3 IH4] Hbl Hbr|l a r n Hl [IH1 IH2] Hr [IH3 IH4]]; [done | |].
  - rewrite (is_blackb l Hbl) in IH2. rewrite (is_blackb r Hbr) in IH4. cbn. rewrite length_app. cbn. lia.
  - cbn [inorder height blackb]. rewrite length_app. cbn [length Nat.pow]. destruct (blackb l), (blackb r); lia.
Qed.

(** The height is logarithmic. *)
Lemma rb_tree_height t : rb_tree t -> (height t <= 2 * Nat.log2 (S (length (inorder t))))%nat.
Proof.
  intros [Hb [n Hn]]. destruct (rbt_size t n Hn) as [H1 H2]. rewrite (is_blackb t Hb) in H2.
  apply Nat.log2_le_pow2 in H1; lia.
Qed.

(** C12: linking a node at any leaf of a red-black tree and [rb_insert_color] insert it
    there: the call returns, the nodes keep their order with the new one in the
    place of the leaf, the tree is a red-black tree again (no red node with a red
    child, the same number of black nodes on every path, so that its height is at
    most twice the logarithm of its size), the parent pointers are right, and
    the other nodes in memory are as before. *)
Theorem rb_insert_correct k a n d R s :
  holds (plug k Leaf) R s -> rb_tree (plug k Leaf) ->
  nodes s !! a = Some n -> valid a -> a ∉ (tcells 0 (plug k Leaf) ++ R).*1 -> link_dir k d ->
  exists s' T before after, (rb_link_node a (cptr k) d;; rb_insert_color a) s = Ret tt s' /\
    holds T R s' /\ rb_tree T /\ (height T <= 2 * Nat.log2 (S (length (inorder T))))%nat /\
    (forall t, inorder (plug k t) = before ++ inorder t ++ after) /\ inorder T = before ++ a :: after.
Proof.
  intros Hs Hrb Hn Hv Ha Hd. destruct (rb_insert_spec k a n d R s Hs Hrb Hn Hv Ha Hd) as (s' & T & E & Hs' & HT & Eio).
  destruct (inorder_plug k) as (b & f & Ek). exists s', T, b, f. rewrite Ek in Eio.
  repeat (split; [first [done | by apply rb_tree_height]|]). exact Eio.
Qed.

(** C13: [rb_erase] of any node of a red-black tree returns, takes exactly this node
    out of the order, leaves a red-black tree, and does not touch the nodes
    outside of it. *)
Theorem rb_erase_correct T a R s :
  holds T R s -> rb_tree T -> a ∈ inorder T ->
  exists s' T' before after, rb_erase a s = Ret tt s' /\ holds T' R s' /\ rb_tree T' /\
    (height T' <= 2 * Nat.log2 (S (length (inorder T'))))%nat /\
    inorder T = before ++ a :: after /\ inorder T' = before ++ after.
Proof.
  intros Hs Hrb (k & c & l & r & ->)%find_focus.
  destruct (rb_erase_spec k c l a r R s Hs Hrb) as (s' & T' & E & Hs' & HT & b & f & E1 & E2).
  exists s', T', b, f. by repeat (split; [first [done | by apply rb_tree_height]|]).
Qed.

(** ** The walk *)

(** [n = rb_first(..); while (n) { ...; n = rb_next(n); }], the nodes that are visited. *)
Fixpoint walk_from (fuel : nat) (n : Z) : M rbst (list Z) :=
  if n =? 0 then mret [] else
  match fuel with
  | O => out_of_fuel
  | S fuel' => m ← rb_next n; l ← walk_from fuel' m; mret (n :: l)
  end.
Definition rb_walk : M rbst (list Z) :=
  s ← get_st;
  n ← rb_first;
  walk_from (size (nodes s)) n.

Lemma walk_from_spec T fuel : forall before after,
  inorder T = before ++ after -> (length after <= fuel)%nat -> truns (walk_from fuel (hd 0 after)) T after T.
Proof.
  induction fuel as [|fuel IH]; intros b f E Hf; (destruct f as [|a f]; [apply truns_ret|]); [cbn in Hf; lia|].
  apply truns_facts. intros Hwf. cbn [walk_from hd].
  assert (valid a) as [Ha _].
  { destruct Hwf as [_ Hv]. rewrite addrs_inorder, E in Hv. apply Forall_app in Hv as [_ Hv]. by apply Forall_cons in Hv as [? _]. }
  destruct (Z.eqb_spec a 0); [lia|]. eapply truns_bind; [by apply (next_spec T a b f)|].
  eapply truns_bind; [apply (IH (b ++ [a]) f); [by rewrite <- app_assoc | cbn in Hf; lia] | apply truns_ret].
Qed.

(** The walk only reads. *)
Definition reads {A} (m : M rbst A) : Prop := keeps (fun t => t) m.

Lemma reads_bind {A B} (m : M rbst A) (f : A -> M rbst B) : reads m -> (forall a, reads (f a)) -> reads (m ≫= f).
Proof. apply keeps_bind. Qed.
Lemma reads_rd a : reads (rd a).
Proof. intros s v s'. unfold rd. destruct (nodes s !! a); [|done]. by intros [= _ <-]. Qed.
Lemma reads_root : reads get_root.
Proof. by intros s ? s' [= _ <-]. Qed.
Lemma reads_st : reads get_st.
Proof. by intros s ? s' [= _ <-]. Qed.
Lemma reads_ret {A} (v : A) : reads (mret v).
Proof. apply keeps_ret. Qed.
Lemma reads_fuel {A} : reads (out_of_fuel (A := A)).
Proof. done. Qed.
Create HintDb reads.
#[local] Hint Resolve reads_rd reads_root reads_st reads_ret reads_fuel : reads.

Ltac rdo :=
  repeat match goal with
  | |- reads (mbind _ _) => apply reads_bind; [|intros ?]
  | |- reads (if ?b then _ else _) => destruct b
  | |- reads _ => solve [auto with reads]
  end.

Lemma reads_leftmost fuel : forall n, reads (leftmost fuel n).
Proof. induction fuel as [|fuel IH]; intros n; cbn [leftmost]; unfold get_child; rdo. Qed.
Lemma reads_climb fuel : forall n, reads (climb fuel n).
Proof. induction fuel as [|fuel IH]; intros n; cbn [climb]; unfold rb_parent, get_child; rdo. Qed.
#[local] Hint Resolve reads_leftmost reads_climb : reads.
Lemma reads_first : reads rb_first.
Proof. unfold rb_first. rdo. Qed.
Lemma reads_next n : reads (rb_next n).
Proof. unfold rb_next, rb_parent, get_child. rdo. Qed.
#[local] Hint Resolve reads_first reads_next : reads.
Lemma reads_walk_from fuel : forall n, reads (walk_from fuel n).
Proof. induction fuel as [|fuel IH]; intros n; cbn [walk_from]; rdo. Qed.
#[local] Hint Resolve reads_walk_from : reads.
Lemma reads_walk : reads rb_walk.
Proof. unfold rb_walk. rdo. Qed.

Lemma truns_reads {A} (m : M rbst A) T v R s : truns m T v T -> reads m -> holds T R s -> m s = Ret v s.
Proof. intros Hm Hr Hs. destruct (Hm R s Hs) as (s' & E & _). by rewrite E, (Hr s v s' E). Qed.

Lemma rb_walk_run T R s : holds T R s -> rb_walk s = Ret (inorder T) s.
Proof.
  apply truns_reads; [|apply reads_walk]. apply (truns_fuel (fun fuel => n ← rb_first; walk_from fuel n)).
  intros fuel Hf. eapply truns_bind; [apply first_spec|]. apply (walk_from_spec T fuel [] (inorder T)); [done|].
  by rewrite <- addrs_inorder.
Qed.

(** [rb_first] returns the first node of a tree in order, [rb_next] the one after its argument
    (NULL at the end), and walking with them ends and visits every node once, in
    order; nothing is written. *)
Theorem rb_walk_correct T R s :
  holds T R s ->
  rb_first s = Ret (hd 0 (inorder T)) s /\
  (forall before a after, inorder T = before ++ a :: after -> rb_next a s = Ret (hd 0 after) s) /\
  rb_walk s = Ret (inorder T) s.
Proof.
  intros Hs. split; [by apply (truns_reads _ T _ R s (first_spec T) reads_first)|]. split; [|by apply (rb_walk_run T R)].
  intros b a f E. by apply (truns_reads _ T _ R s (next_spec T a b f E) (reads_next a)).
Qed.

(** ** Examples *)

Definition demo_tree : tree := Node Black (Node Red Leaf 8 Leaf) 16 Leaf.
Definition demo_rb : rbst := mkRbst (list_to_map [(16, mkRb 1 0 8); (8, mkRb 16 0 0); (24, mkRb 0 0 0)]) 16.
(** The right link of the node at 8. *)
Definition demo_hole : list frame := [Fr DR Red 8 Leaf; Fr DL Black 16 Leaf].

Lemma demo_holds : holds demo_tree [] demo_rb.
Proof.
  split; [|done]. split; [cbn; repeat constructor; set_solver|].
  repeat (constructor; [split; [split; [by split | first [by left | by right]] | by vm_compute]|]). constructor.
Qed.

Lemma demo_rb_tree : rb_tree demo_tree.
Proof. split; [done|]. exists 1%nat. repeat constructor. Qed.

Lemma rb_insert_correct_witness :
  exists s' T before after, (rb_link_node 24 (cptr demo_hole) DR;; rb_insert_color 24) demo_rb = Ret tt s' /\
    holds T [] s' /\ rb_tree T /\ (height T <= 2 * Nat.log2 (S (length (inorder T))))%nat /\
    (forall t, inorder (plug demo_hole t) = before ++ inorder t ++ after) /\ inorder T = before ++ 24 :: after.
Proof.
  apply (rb_insert_correct demo_hole 24 (mkRb 0 0 0) DR [] demo_rb).
  - exact demo_holds.
  - exact demo_rb_tree.
  - by vm_compute.
  - by split.
  - cbn. set_solver.
  - done.
Defined.

Lemma rb_erase_correct_witness :
  exists s' T' before after, rb_erase 16 demo_rb = Ret tt s' /\ holds T' [] s' /\ rb_tree T' /\
    (height T' <= 2 * Nat.log2 (S (length (inorder T'))))%nat /\
    inorder demo_tree = before ++ 16 :: after /\ inorder T' = before ++ after.
Proof. apply (rb_erase_correct demo_tree 16 [] demo_rb demo_holds demo_rb_tree). cbn. set_solver. Defined.

Lemma rb_walk_correct_witness :
  rb_first demo_rb = Ret 8 demo_rb /\ rb_next 8 demo_rb = Ret 16 demo_rb /\ rb_walk demo_rb = Ret [8; 16] demo_rb.
Proof.
  destruct (rb_walk_correct demo_tree [] demo_rb demo_holds) as (H1 & H2 & H3).
  split; [exact H1|]. split; [exact (H2 [] 8 [16] eq_refl) | exact H3].
Defined.

(** A double rotation, and the walk after it. *)
Lemma demo_insert :
  (rb_link_node 24 8 DR;; rb_insert_color 24;; rb_walk) demo_rb =
  Ret [8; 24; 16] (mkRbst (list_to_map [(16, mkRb 24 0 0); (8, mkRb 24 0 0); (24, mkRb 1 16 8)]) 24).
Proof. vm_compute. reflexivity. Qed.
