(* ===== verification/PlatHist.v ===== *)
(** The latency histogram of fio: plat_val_to_idx, plat_idx_to_val and
    add_clat_percentile_sample of src/fio/stat.c, hist_sum of iolog.c.  A latency in
    nanoseconds is counted in a bucket that keeps its six bits after the first. *)
From S2P Require Import Prelude.

(** * The code *)

Definition FIO_IO_U_PLAT_BITS : Z := 6.
Definition FIO_IO_U_PLAT_VAL : Z := Z.shiftl 1 FIO_IO_U_PLAT_BITS.
Definition FIO_IO_U_PLAT_GROUP_NR : Z := 29.
Definition FIO_IO_U_PLAT_NR : Z := FIO_IO_U_PLAT_GROUP_NR * FIO_IO_U_PLAT_VAL.

(** [__builtin_clzll], of a number that is not 0. *)
Definition clzll (val : Z) : Z := 63 - Z.log2 val.

Definition plat_val_to_idx (val : Z) : Z :=
  let msb := if val =? 0 then 0 else u32 (8 * 8 - clzll val - 1) in
  if msb <=? FIO_IO_U_PLAT_BITS then u32 val else
  let error_bits := u32 (msb - FIO_IO_U_PLAT_BITS) in
  let base := u32 (Z.shiftl (error_bits + 1) FIO_IO_U_PLAT_BITS) in
  let offset := u32 (Z.land (FIO_IO_U_PLAT_VAL - 1) (Z.shiftr val error_bits)) in
  if u32 (base + offset) <? FIO_IO_U_PLAT_NR - 1 then u32 (base + offset) else FIO_IO_U_PLAT_NR - 1.

(** [1 << n] on an int: undefined from the sign bit on. *)
Definition int_bit (n : Z) : option Z := if (0 <=? n) && (n <? 31) then Some (Z.shiftl 1 n) else None.

(** The sum in double is exact and below 2^53; [(k + 0.5) * b] is [(2 * k + 1) * b / 2], and the
    result is cut to an integer.  No value stands for a failed assertion and an undefined shift. *)
Definition plat_idx_to_val (idx : Z) : option Z :=
  if negb (idx <? FIO_IO_U_PLAT_NR) then None else
  if idx <? Z.shiftl FIO_IO_U_PLAT_VAL 1 then Some idx else
  let error_bits := u32 (Z.shiftr idx FIO_IO_U_PLAT_BITS - 1) in
  base ← int_bit (u32 (error_bits + FIO_IO_U_PLAT_BITS));
  let k := idx mod FIO_IO_U_PLAT_VAL in
  width ← int_bit error_bits;
  Some ((2 * u32 base + (2 * k + 1) * width) / 2).

(** The buckets of one direction. *)
Definition add_clat_percentile_sample (io_u_plat : list Z) (nsec : Z) : option (list Z) :=
  let idx := plat_val_to_idx nsec in
  if negb (idx <? FIO_IO_U_PLAT_NR) then None else
  n ← io_u_plat !! Z.to_nat idx;
  Some (<[Z.to_nat idx := u32 (n + 1)]> io_u_plat).

(** [hist_sum] over the buckets from [j] on; the difference of two unsigned ints wraps. *)
Fixpoint hist_sum (j stride : nat) (io_u_plat : list Z) (io_u_plat_last : option (list Z)) : option Z :=
  match stride with
  | O => Some 0
  | S stride' =>
      x ← io_u_plat !! j;
      d ← (match io_u_plat_last with Some l => y ← l !! j; Some (u32 (x - y)) | None => Some x end);
      r ← hist_sum (S j) stride' io_u_plat io_u_plat_last;
      Some (u64 (d + r))
  end.

(** * Buckets *)

(** The number of bits a bucket of values from [2^7] on drops. *)
Definition drop_bits (val : Z) : Z := Z.log2 val - 6.

Lemma val_large val : 128 <= val < 2 ^ 64 ->
  let e := drop_bits val in
  1 <= e <= 57 /\ 2 ^ (e + 6) <= val < 2 ^ (e + 7) /\ 64 <= val / 2 ^ e < 128.
Proof.
  intros Hv e. assert (2 ^ Z.log2 val <= val < 2 ^ Z.succ (Z.log2 val)) as Hl by (apply Z.log2_spec; lia).
  assert (7 <= Z.log2 val) as H7 by (change 7 with (Z.log2 128); apply Z.log2_le_mono; lia).
  assert (Z.log2 val < 64) as H63 by (apply Z.log2_lt_pow2; lia).
  assert (e = Z.log2 val - 6) as He by done. replace (e + 6) with (Z.log2 val) by lia. replace (e + 7) with (Z.succ (Z.log2 val)) by lia.
  split; [lia|]. split; [done|].
  replace (Z.log2 val) with (e + 6) in Hl by lia. replace (Z.succ (e + 6)) with (e + 7) in Hl by lia.
  rewrite !Z.pow_add_r in Hl by lia. assert (0 < 2 ^ e) by (apply Z.pow_pos_nonneg; lia). split.
  - apply Z.div_le_lower_bound; lia.
  - apply Z.div_lt_upper_bound; lia.
Qed.

(** The bucket of a value: its group and its six bits. *)
Lemma val_to_idx_large val : 128 <= val < 2 ^ 64 ->
  plat_val_to_idx val = Z.min (64 * drop_bits val + val / 2 ^ drop_bits val) (FIO_IO_U_PLAT_NR - 1).
Proof.
  intros Hv. destruct (val_large val Hv) as (He & Hp & Hq). set (e := drop_bits val) in *.
  assert (Z.log2 val = e + 6) as El by (unfold e, drop_bits; lia).
  unfold plat_val_to_idx. destruct (Z.eqb_spec val 0); [lia|]. unfold clzll. rewrite El.
  replace (u32 (8 * 8 - (63 - (e + 6)) - 1)) with (e + 6) by (unfold u32; rewrite Z.mod_small; lia).
  unfold FIO_IO_U_PLAT_BITS. destruct (Z.leb_spec (e + 6) 6); [lia|].
  replace (u32 (e + 6 - 6)) with e by (unfold u32; rewrite Z.mod_small; lia).
  rewrite Z.shiftl_mul_pow2, Z.shiftr_div_pow2 by lia. change (FIO_IO_U_PLAT_VAL - 1) with (Z.ones 6).
  rewrite Z.land_comm, Z.land_ones by lia. change (2 ^ 6) with 64.
  assert ((val / 2 ^ e) mod 64 = val / 2 ^ e - 64) as -> by (rewrite <- (Z.mod_small (val / 2 ^ e - 64) 64) by lia;
    replace (val / 2 ^ e) with (val / 2 ^ e - 64 + 1 * 64) at 1 by lia; by rewrite Z.mod_add by lia).
  replace (u32 ((e + 1) * 64)) with ((e + 1) * 64) by (unfold u32; rewrite Z.mod_small; lia).
  replace (u32 (val / 2 ^ e - 64)) with (val / 2 ^ e - 64) by (unfold u32; rewrite Z.mod_small; lia).
  replace (u32 ((e + 1) * 64 + (val / 2 ^ e - 64))) with ((e + 1) * 64 + (val / 2 ^ e - 64)) by (unfold u32; rewrite Z.mod_small; lia).
  destruct (Z.ltb_spec ((e + 1) * 64 + (val / 2 ^ e - 64)) (FIO_IO_U_PLAT_NR - 1)); lia.
Qed.

Lemma val_to_idx_small val : 0 <= val < 128 -> plat_val_to_idx val = val.
Proof.
  intros Hv. unfold plat_val_to_idx, clzll. destruct (Z.eqb_spec val 0) as [->|Hne]; [done|].
  assert (Z.log2 val < 7) by (apply Z.log2_lt_pow2; lia). pose proof (Z.log2_nonneg val).
  replace (u32 (8 * 8 - (63 - Z.log2 val) - 1)) with (Z.log2 val) by (unfold u32; rewrite Z.mod_small; lia).
  unfold FIO_IO_U_PLAT_BITS. destruct (Z.leb_spec (Z.log2 val) 6); [|lia]. unfold u32. rewrite Z.mod_small; lia.
Qed.

(** The value of the bucket with group [e] and the leading bits [q]. *)
Lemma idx_to_val_large e q : 1 <= e -> 64 <= q < 128 -> 64 * e + q < FIO_IO_U_PLAT_NR ->
  plat_idx_to_val (64 * e + q) = if e <? 25 then Some (q * 2 ^ e + 2 ^ (e - 1)) else None.
Proof.
  intros He Hq Hn. unfold FIO_IO_U_PLAT_NR, FIO_IO_U_PLAT_GROUP_NR, FIO_IO_U_PLAT_VAL, FIO_IO_U_PLAT_BITS in *. change (29 * Z.shiftl 1 6) with 1856 in *.
  unfold plat_idx_to_val, FIO_IO_U_PLAT_NR, FIO_IO_U_PLAT_GROUP_NR, FIO_IO_U_PLAT_VAL, FIO_IO_U_PLAT_BITS.
  change (29 * Z.shiftl 1 6) with 1856. change (Z.shiftl (Z.shiftl 1 6) 1) with 128. change (Z.shiftl 1 6) with 64.
  destruct (Z.ltb_spec (64 * e + q) 1856); [|lia]. cbn [negb]. destruct (Z.ltb_spec (64 * e + q) 128); [lia|].
  rewrite Z.shiftr_div_pow2 by lia. change (2 ^ 6) with 64.
  assert ((64 * e + q) / 64 = e + 1) as -> by (symmetry; apply Z.div_unique with (q - 64); lia).
  assert ((64 * e + q) mod 64 = q - 64) as -> by (symmetry; apply Z.mod_unique with (e + 1); lia).
  replace (u32 (e + 1 - 1)) with e by (unfold u32; rewrite Z.mod_small; lia).
  replace (u32 (e + 6)) with (e + 6) by (unfold u32; rewrite Z.mod_small; lia). unfold int_bit.
  destruct (Z.ltb_spec e 25).
  - replace ((0 <=? e + 6) && (e + 6 <? 31)) with true by lia. replace ((0 <=? e) && (e <? 31)) with true by lia. cbn.
    rewrite !Z.shiftl_mul_pow2, !Z.mul_1_l by lia.
    replace (u32 (2 ^ (e + 6))) with (2 ^ (e + 6)) by (unfold u32; rewrite Z.mod_small; [done | split; [lia | apply Z.pow_lt_mono_r; lia]]).
    f_equal. rewrite Z.pow_add_r by lia. replace (2 ^ e) with (2 * 2 ^ (e - 1)) by (rewrite <- Z.pow_succ_r by lia; f_equal; lia).
    symmetry. apply Z.div_unique with 0; lia.
  - replace ((0 <=? e + 6) && (e + 6 <? 31)) with false by lia. done.
Qed.

(** The middle of a bucket is in it. *)
Lemma mid_in_bucket e q : 1 <= e <= 57 -> 64 <= q < 128 ->
  let r := q * 2 ^ e + 2 ^ (e - 1) in 128 <= r < 2 ^ 64 /\ drop_bits r = e /\ r / 2 ^ e = q.
Proof.
  intros He Hq r. assert (0 < 2 ^ (e - 1)) as Hpos by (apply Z.pow_pos_nonneg; lia).
  assert (2 ^ e = 2 * 2 ^ (e - 1)) as E2 by (rewrite <- Z.pow_succ_r by lia; f_equal; lia).
  assert (2 ^ (e + 6) <= r < 2 ^ (e + 7)) as Hr by (rewrite !Z.pow_add_r by lia; unfold r; rewrite E2; nia).
  assert (2 ^ 7 <= 2 ^ (e + 6)) by (apply Z.pow_le_mono_r; lia).
  assert (2 ^ (e + 7) <= 2 ^ 64) by (apply Z.pow_le_mono_r; lia).
  assert (Z.log2 r = e + 6) as El by (apply Z.log2_unique; [lia|]; by replace (Z.succ (e + 6)) with (e + 7) by lia).
  split; [lia|]. split; [unfold drop_bits; lia|]. symmetry. apply Z.div_unique with (2 ^ (e - 1)); unfold r; lia.
Qed.

Lemma idx_of e q : e <= 27 -> 64 <= q < 128 -> 64 * e + q <= FIO_IO_U_PLAT_NR - 1.
Proof. intros. change (FIO_IO_U_PLAT_NR - 1) with 1855. lia. Qed.

Lemma drop_bits_mono v w : v <= w -> drop_bits v <= drop_bits w.
Proof. intros H. unfold drop_bits. pose proof (Z.log2_le_mono v w H). lia. Qed.

Lemma val_to_idx_mono v w : 0 <= v <= w -> w < 2 ^ 64 -> plat_val_to_idx v <= plat_val_to_idx w.
Proof.
  intros Hv Hw. destruct (Z.lt_ge_cases w 128) as [Hs|Hs]; [rewrite !val_to_idx_small; lia|].
  destruct (val_large w) as (Hew & _ & Hqw); [lia|].
  destruct (Z.lt_ge_cases v 128) as [Hs'|Hs'].
  - rewrite val_to_idx_small, val_to_idx_large by lia. change (FIO_IO_U_PLAT_NR - 1) with 1855. lia.
  - rewrite !val_to_idx_large by lia. destruct (val_large v) as (Hev & _ & Hqv); [lia|].
    pose proof (drop_bits_mono v w ltac:(lia)) as Hd. destruct (Z.lt_ge_cases (drop_bits v) (drop_bits w)); [lia|].
    replace (drop_bits w) with (drop_bits v) by lia. assert (v / 2 ^ drop_bits v <= w / 2 ^ drop_bits v); [|lia].
    apply Z.div_le_mono; [apply Z.pow_pos_nonneg|]; lia.
Qed.

(** * The theorem *)

(** C32: The histogram is as accurate as documented.  Every 64 bit latency has a bucket, larger ones
    never an earlier bucket; below 2^31 ns the value of the bucket is defined, is itself counted
    in that bucket and is off by at most 1/2^7 of the latency; from 2^31 ns on (two seconds, where
    2^34 is documented) converting the bucket back shifts an int out of its range. *)
Theorem plat_histogram_accurate val :
  0 <= val < 2 ^ 64 ->
  0 <= plat_val_to_idx val < FIO_IO_U_PLAT_NR /\
  (forall val', val <= val' < 2 ^ 64 -> plat_val_to_idx val <= plat_val_to_idx val') /\
  (if val <? 2 ^ 31 then
     exists r, plat_idx_to_val (plat_val_to_idx val) = Some r /\ plat_val_to_idx r = plat_val_to_idx val /\
       Z.abs (r - val) * 2 ^ 7 <= val
   else plat_idx_to_val (plat_val_to_idx val) = None).
Proof.
  intros Hv. assert (FIO_IO_U_PLAT_NR = 1856) as EN by done.
  destruct (Z.lt_ge_cases val 128) as [Hs|Hs].
  - rewrite val_to_idx_small by lia. split; [lia|]. split; [intros v' Hv'; rewrite <- (val_to_idx_small val) by lia; apply val_to_idx_mono; lia|].
    replace (val <? 2 ^ 31) with true by lia. exists val. split; [|split; [apply val_to_idx_small; lia | lia]].
    unfold plat_idx_to_val. rewrite EN. change (Z.shiftl FIO_IO_U_PLAT_VAL 1) with 128.
    replace (val <? 1856) with true by lia. by replace (val <? 128) with true by lia.
  - destruct (val_large val) as (He & Hp & Hq); [lia|]. pose proof (val_to_idx_large val ltac:(lia)) as Ei.
    split; [rewrite Ei, EN; lia|]. split; [intros; apply val_to_idx_mono; lia|].
    set (e := drop_bits val) in *. set (q := val / 2 ^ e) in *.
    destruct (Z.ltb_spec val (2 ^ 31)) as [Hlt|Hge].
    + assert (e < 25) as He25 by (destruct (Z.lt_ge_cases e 25); [done|]; assert (2 ^ 31 <= 2 ^ (e + 6)) by (apply Z.pow_le_mono_r; lia); lia).
      rewrite Ei, Z.min_l by (apply idx_of; lia). rewrite idx_to_val_large by (rewrite ?EN; lia).
      replace (e <? 25) with true by lia. eexists. split; [reflexivity|]. destruct (mid_in_bucket e q He Hq) as (Hr & Ed & Eq).
      split; [rewrite val_to_idx_large by lia; rewrite Ed, Eq; apply Z.min_l, idx_of; lia|].
      assert (0 < 2 ^ (e - 1)) by (apply Z.pow_pos_nonneg; lia).
      assert (2 ^ e = 2 * 2 ^ (e - 1)) as E2 by (rewrite <- Z.pow_succ_r by lia; f_equal; lia).
      assert (2 ^ (e + 6) = 2 ^ 7 * 2 ^ (e - 1)) as E3 by (rewrite <- Z.pow_add_r by lia; f_equal; lia).
      pose proof (Z.div_mod val (2 ^ e) ltac:(lia)) as Hdm. pose proof (Z.mod_pos_bound val (2 ^ e) ltac:(lia)). fold q in Hdm. lia.
    + assert (25 <= e) as He25.
      { destruct (Z.lt_ge_cases e 25); [|done]. assert (2 ^ (e + 7) <= 2 ^ 31) by (apply Z.pow_le_mono_r; lia). lia. }
      rewrite Ei. destruct (Z.le_gt_cases e 27).
      * rewrite Z.min_l by (apply idx_of; lia). rewrite idx_to_val_large by (rewrite ?EN; lia). by replace (e <? 25) with false by lia.
      * rewrite Z.min_r by (change (FIO_IO_U_PLAT_NR - 1) with 1855; lia). done.
Qed.

Lemma plat_histogram_accurate_witness :
  exists r, plat_idx_to_val (plat_val_to_idx 1000000) = Some r /\ plat_val_to_idx r = plat_val_to_idx 1000000 /\
    Z.abs (r - 1000000) * 2 ^ 7 <= 1000000.
Proof. exact (proj2 (proj2 (plat_histogram_accurate 1000000 ltac:(lia)))). Defined.

(** ** Counting *)

(** Each sample counts once, in its bucket. *)
Lemma sample_counted l v l' i :
  length l = Z.to_nat FIO_IO_U_PLAT_NR -> add_clat_percentile_sample l v = Some l' ->
  l' !! i = (fun n => if decide (i = Z.to_nat (plat_val_to_idx v)) then u32 (n + 1) else n) <$> l !! i.
Proof.
  intros HL. unfold add_clat_percentile_sample. destruct (plat_val_to_idx v <? FIO_IO_U_PLAT_NR); [|done]. cbn [negb].
  destruct (l !! Z.to_nat (plat_val_to_idx v)) as [n|] eqn:E; [|done]. cbn. intros [= <-].
  destruct (decide (i = Z.to_nat (plat_val_to_idx v))) as [->|Hne].
  - rewrite list_lookup_insert_eq by (by apply lookup_lt_Some in E). by rewrite E.
  - rewrite list_lookup_insert_ne by done. by destruct (l !! i).
Qed.

Lemma sample_defined l v :
  length l = Z.to_nat FIO_IO_U_PLAT_NR -> 0 <= v < 2 ^ 64 ->
  exists l', add_clat_percentile_sample l v = Some l' /\ length l' = length l.
Proof.
  intros HL Hv. assert (0 <= plat_val_to_idx v < FIO_IO_U_PLAT_NR) as Hi.
  { destruct (Z.lt_ge_cases v 128); [rewrite val_to_idx_small by lia; change FIO_IO_U_PLAT_NR with 1856; lia|].
    destruct (val_large v) as (? & _ & ?); [lia|]. rewrite val_to_idx_large by lia. change FIO_IO_U_PLAT_NR with 1856. lia. }
  unfold add_clat_percentile_sample. replace (plat_val_to_idx v <? FIO_IO_U_PLAT_NR) with true by lia. cbn [negb].
  destruct (lookup_lt_is_Some_2 l (Z.to_nat (plat_val_to_idx v))) as [n ->]; [lia|]. eexists. split; [reflexivity|]. apply length_insert.
Qed.

(** A latency of five seconds: the shift by 32 is undefined. *)
Lemma plat_five_seconds : plat_val_to_idx 5000000000 = 1738 /\ plat_idx_to_val 1738 = None.
Proof. vm_compute. by split. Qed.
