(* ===== verification/Fifo.v ===== *)
(** The byte queue of src/fio/fifo.c, a ring buffer with free running 32 bit indices. *)
From S2P Require Import Prelude Blocks.

(** * The code of fifo.c *)

Record fifo : Type := mkFifo { fbuffer : bytes; fsize : Z; fin : Z; fout : Z }.

(** [junk] is the memory [malloc] returns. *)
Definition fifo_alloc (size : Z) (junk : bytes) : fifo := mkFifo junk size 0 0.

Definition fifo_len (f : fifo) : Z := u32 (fin f - fout f).
Definition fifo_room (f : fifo) : Z := u32 (u32 (fsize f - fin f) + fout f).

Definition fifo_put (f : fifo) (buffer : bytes) (len : Z) : option (Z * fifo) :=
  let len := Z.min len (fifo_room f) in
  let off := Z.land (fin f) (u32 (fsize f - 1)) in
  let l := Z.min len (u32 (fsize f - off)) in
  src ← copy_from buffer 0 l;
  b ← copy_to (fbuffer f) off src;
  src ← copy_from buffer l (u32 (len - l));
  b ← copy_to b 0 src;
  Some (len, mkFifo b (fsize f) (u32 (fin f + len)) (fout f)).

(** [buf] is the destination, or NULL. *)
Definition fifo_get (f : fifo) (buf : option bytes) (len : Z) : option (Z * option bytes * fifo) :=
  let len := Z.min len (u32 (fin f - fout f)) in
  buf ← (match buf with
         | Some buf =>
             let off := Z.land (fout f) (u32 (fsize f - 1)) in
             let l := Z.min len (u32 (fsize f - off)) in
             src ← copy_from (fbuffer f) off l;
             buf ← copy_to buf 0 src;
             src ← copy_from (fbuffer f) 0 (u32 (len - l));
             buf ← copy_to buf l src;
             Some (Some buf)
         | None => Some None
         end);
  let out := u32 (fout f + len) in
  Some (len, buf, if fin f =? out then mkFifo (fbuffer f) (fsize f) 0 0 else mkFifo (fbuffer f) (fsize f) (fin f) out).

(** * The buffer as a ring *)

(** The ring read from the offset [o] on. *)
Definition rot {A} (o : nat) (b : list A) : list A := drop o b ++ take o b.

Lemma length_rot {A} o (b : list A) : length (rot o b) = length b.
Proof. unfold rot. len. Qed.

Lemma rot_shift {A} o o' (b q r : list A) :
  (o < length b)%nat -> rot o b = q ++ r -> o' = ((o + length q) mod length b)%nat -> rot o' b = r ++ q.
Proof.
  intros Ho E Eo'. pose proof (length_rot o b) as HL. rewrite E, length_app in HL.
  unfold rot in E. rewrite <- (take_drop o b). set (C := take o b) in *. set (B := drop o b) in *.
  assert (length C = o) as HC by (unfold C; len). assert (length b = length C + length B)%nat as Hb by (unfold C, B; len).
  destruct (decide (length q < length B)%nat) as [Hlt|Hge].
  - rewrite Nat.mod_small in Eo' by lia. subst o'. assert (B = q ++ drop (length q) B) as EB.
    { rewrite <- (take_drop (length q) B) at 1. f_equal. apply (f_equal (take (length q))) in E.
      by rewrite take_app_le, take_app_length in E by lia. }
    assert (drop (length q) B ++ C = r) as <-.
    { apply (f_equal (drop (length q))) in E. by rewrite drop_app_le, drop_app_length in E by lia. }
    unfold rot. rewrite <- HC, drop_app_add', take_app_add' by done. rewrite EB at 2. rewrite take_app_length. by rewrite <- !app_assoc.
  - assert (o' = length q - length B)%nat as ->.
    { rewrite Eo'. replace (o + length q)%nat with (length q - length B + 1 * length b)%nat by lia.
      rewrite Nat.Div0.mod_add. apply Nat.mod_small. lia. }
    assert (q = B ++ take (length q - length B) C) as Eq.
    { apply (f_equal (take (length q))) in E. rewrite take_app_length in E. rewrite <- E at 1. by rewrite take_app_ge by lia. }
    assert (drop (length q - length B) C = r) as <-.
    { apply (f_equal (drop (length q))) in E. rewrite drop_app_length in E. by rewrite drop_app_ge in E by lia. }
    unfold rot. rewrite drop_app_le, take_app_le by lia. rewrite <- app_assoc. f_equal. by symmetry.
Qed.

(** Storing in two parts: up to the end of the buffer, and from its start. *)
Lemma rot_write o (b d : bytes) :
  (o < length b)%nat -> (length d <= length b)%nat ->
  let l := Nat.min (length d) (length b - o) in
  rot o (splice (splice b o (take l d)) 0 (drop l d)) = d ++ drop (length d) (rot o b).
Proof.
  intros Ho Hd l. set (b1 := splice b o (take l d)). assert (length b1 = length b) as Hb1 by (unfold b1; rewrite length_splice; len).
  unfold rot. destruct (decide (length d <= length b - o)%nat) as [Hs|Hs].
  - assert (l = length d) as El by lia. unfold b1. rewrite El, drop_all, splice_nil, firstn_all by done.
    rewrite drop_splice, take_splice by lia. rewrite drop_app_le by len. rewrite drop_drop. by rewrite <- app_assoc.
  - assert (l = length b - o)%nat as El by lia. rewrite El in *.
    set (d2 := drop (length b - o) d) in *.
    assert (length d2 + (length b - o) = length d)%nat as Hd2 by (unfold d2; len).
    unfold splice at 1 2. cbn [take Nat.add]. rewrite app_nil_l. rewrite (drop_app_ge d2) by lia. rewrite drop_drop.
    replace (length d2 + (o - length d2))%nat with o by lia.
    unfold b1. rewrite drop_splice by lia. rewrite (drop_ge b) by len. rewrite app_nil_r.
    rewrite drop_app_ge by len. rewrite take_app_ge by lia. rewrite take_drop_commute. replace (length d2 + (o - length d2))%nat with o by lia.
    rewrite take_splice by lia. rewrite length_drop. unfold d2 at 1. rewrite El, app_assoc, take_drop. f_equal. f_equal. lia.
Qed.

(** Reading in two parts. *)
Lemma rot_read o (b : bytes) n :
  (o < length b)%nat -> (n <= length b)%nat ->
  let l := Nat.min n (length b - o) in
  take l (drop o b) ++ take (n - l) b = take n (rot o b).
Proof.
  intros Ho Hn l. unfold rot. destruct (decide (n <= length b - o)%nat) as [Hs|Hs].
  - replace l with n by lia. rewrite Nat.sub_diag, take_0, app_nil_r. by rewrite take_app_le by len.
  - replace l with (length b - o)%nat by lia. rewrite take_app_ge by len. rewrite length_drop, take_take.
    rewrite (take_ge (drop o b)) by len. f_equal. f_equal. lia.
Qed.

(** * The queue *)

Record fifo_ok (q : bytes) (f : fifo) : Prop := {
  fo_size : exists k, 0 <= k <= 31 /\ fsize f = 2 ^ k;
  fo_buf : Z.of_nat (length (fbuffer f)) = fsize f;
  fo_out : fits 32 (fout f);
  fo_in : fin f = u32 (fout f + Z.of_nat (length q));
  fo_len : Z.of_nat (length q) <= fsize f;
  fo_data : exists r, rot (Z.to_nat (fout f mod fsize f)) (fbuffer f) = q ++ r
}.

Lemma mask_mod x n k : 0 <= k <= 31 -> n = 2 ^ k -> Z.land x (u32 (n - 1)) = x mod n.
Proof.
  intros Hk ->. assert (2 ^ k <= 2 ^ 31) by (apply Z.pow_le_mono_r; lia). assert (0 < 2 ^ k) by (apply Z.pow_pos_nonneg; lia).
  replace (u32 (2 ^ k - 1)) with (Z.ones k) by (rewrite Z.ones_equiv; unfold u32; rewrite Z.mod_small; lia). apply Z.land_ones. lia.
Qed.

Lemma u32_mod_size x n k : 0 <= k <= 31 -> n = 2 ^ k -> u32 x mod n = x mod n.
Proof. intros Hk ->. apply u32_mod_pow2. lia. Qed.

Lemma fifo_bounds q f : fifo_ok q f ->
  0 < fsize f <= 2 ^ 31 /\ fin f = u32 (fout f + Z.of_nat (length q)) /\ fifo_len f = Z.of_nat (length q) /\
  fifo_room f = fsize f - Z.of_nat (length q).
Proof.
  intros H. destruct (fo_size _ _ H) as (k & Hk & Ek). pose proof (fo_out _ _ H) as Ho. pose proof (fo_len _ _ H) as Hl. unfold fits in Ho.
  assert (2 ^ k <= 2 ^ 31) by (apply Z.pow_le_mono_r; lia). assert (0 < 2 ^ k) by (apply Z.pow_pos_nonneg; lia).
  split; [lia|]. split; [apply (fo_in _ _ H)|]. unfold fifo_len, fifo_room. rewrite (fo_in _ _ H). unfold u32. split.
  - rewrite Zminus_mod_idemp_l. rewrite Z.mod_small; lia.
  - rewrite Zplus_mod_idemp_l. replace (fsize f - (fout f + Z.of_nat (length q)) mod 2 ^ 32 + fout f) with (fsize f + fout f - (fout f + Z.of_nat (length q)) mod 2 ^ 32) by lia.
    rewrite Zminus_mod_idemp_r. rewrite Z.mod_small; lia.
Qed.

(** The offset of the free space. *)
Lemma fifo_in_off q f : fifo_ok q f ->
  Z.to_nat (fin f mod fsize f) = ((Z.to_nat (fout f mod fsize f) + length q) mod length (fbuffer f))%nat.
Proof.
  intros H. destruct (fo_size _ _ H) as (k & Hk & Ek). destruct (fifo_bounds q f H) as (Hs & -> & _ & _). pose proof (fo_buf _ _ H) as Hb.
  rewrite (u32_mod_size _ _ k) by done. pose proof (Z.mod_pos_bound (fout f) (fsize f) ltac:(lia)).
  replace (length (fbuffer f)) with (Z.to_nat (fsize f)) by lia.
  rewrite <- (Nat2Z.id (length q)) at 2. rewrite <- Z2Nat.inj_add, <- Z2Nat.inj_mod by lia. f_equal. by rewrite Z.add_mod_idemp_l by lia.
Qed.

Lemma fifo_put_run q f d len :
  fifo_ok q f -> 0 <= len <= Z.of_nat (length d) ->
  let n := Z.min len (fsize f - Z.of_nat (length q)) in
  exists f', fifo_put f d len = Some (n, f') /\ fifo_ok (q ++ take (Z.to_nat n) d) f' /\ fsize f' = fsize f.
Proof.
  intros H Hlen n. destruct (fifo_bounds q f H) as (Hs & Ein & _ & Er). destruct (fo_size _ _ H) as (k & Hk & Ek).
  pose proof (fo_buf _ _ H) as Hb. pose proof (fo_len _ _ H) as Hl. pose proof (fifo_in_off q f H) as Eo.
  unfold fifo_put. rewrite Er, (mask_mod _ _ k) by done. fold n. set (off := fin f mod fsize f) in *.
  assert (0 <= off < fsize f) as Hoff by (apply Z.mod_pos_bound; lia).
  replace (u32 (fsize f - off)) with (fsize f - off) by (unfold u32; rewrite Z.mod_small; lia).
  set (l := Z.min n (fsize f - off)). replace (u32 (n - l)) with (n - l) by (unfold u32; rewrite Z.mod_small; lia).
  set (dn := take (Z.to_nat n) d). assert (length dn = Z.to_nat n) as Hdn by (unfold dn; len).
  set (o := Z.to_nat off) in *.
  set (ln := Nat.min (length dn) (length (fbuffer f) - o)). assert (l = Z.of_nat ln) as El by lia.
  rewrite (copy_from_eq d 0 l 0 ln) by lia. cbn. rewrite drop_0.
  rewrite (copy_to_splice (fbuffer f) off o (take ln d)) by (try lia; len). cbn.
  rewrite (copy_from_eq d l (n - l) ln (Z.to_nat n - ln)) by lia. cbn.
  rewrite (copy_to_splice _ 0 0) by (rewrite ?length_splice; len). cbn.
  replace (take ln d) with (take ln dn) by (unfold dn; rewrite take_take, Nat.min_l by lia; done).
  replace (take (Z.to_nat n - ln) (drop ln d)) with (drop ln dn) by (unfold dn; by rewrite skipn_firstn_comm).
  eexists. split; [reflexivity|]. split; [|done].
  pose proof (rot_write o (fbuffer f) dn ltac:(lia) ltac:(lia)) as EW. cbn zeta in EW. fold ln in EW. set (b' := splice (splice _ _ _) _ _) in *.
  assert (length (splice (fbuffer f) o (take ln dn)) = length (fbuffer f)) as Hb1 by (apply length_splice; len).
  assert (length b' = length (fbuffer f)) as Hb' by (unfold b'; rewrite length_splice; rewrite Hb1; len).
  destruct (fo_data _ _ H) as [r Eq].
  assert (length q + length r = length (fbuffer f))%nat as Hqr by (pose proof (f_equal length Eq) as HL; rewrite length_rot, length_app in HL; lia).
  assert (rot o (fbuffer f) = r ++ q) as Er2 by (apply (rot_shift (Z.to_nat (fout f mod fsize f))); [|done|done];
    pose proof (Z.mod_pos_bound (fout f) (fsize f) ltac:(lia)); lia).
  rewrite Er2, drop_app_le, app_assoc in EW by lia.
  constructor; cbn [fsize fbuffer fin fout].
  - by exists k.
  - lia.
  - apply (fo_out _ _ H).
  - rewrite Ein, length_app, Hdn. unfold u32. rewrite Zplus_mod_idemp_l. f_equal. lia.
  - rewrite length_app. lia.
  - exists (drop (length dn) r). rewrite <- app_assoc. apply (rot_shift o _ b' (dn ++ drop (length dn) r) q); [lia | by rewrite EW|].
    rewrite length_app, length_drop, Hb', Eo. set (o1 := Z.to_nat (fout f mod fsize f)).
    assert (o1 < length (fbuffer f))%nat by (unfold o1; pose proof (Z.mod_pos_bound (fout f) (fsize f) ltac:(lia)); lia).
    rewrite Nat.Div0.add_mod_idemp_l. replace (o1 + length q + (length dn + (length r - length dn)))%nat with (o1 + 1 * length (fbuffer f))%nat by lia.
    by rewrite Nat.Div0.mod_add, Nat.mod_small.
Qed.

Lemma fifo_get_run q f buf len :
  fifo_ok q f -> 0 <= len -> (match buf with Some b => Z.min len (Z.of_nat (length q)) <= Z.of_nat (length b) | None => True end) ->
  let n := Z.to_nat (Z.min len (Z.of_nat (length q))) in
  exists f', fifo_get f buf len = Some (Z.of_nat n, (fun b => splice b 0 (take n q)) <$> buf, f') /\
    fifo_ok (drop n q) f' /\ fsize f' = fsize f.
Proof.
  intros H Hlen Hbuf n. destruct (fifo_bounds q f H) as (Hs & Ein & El & _). destruct (fo_size _ _ H) as (k & Hk & Ek).
  pose proof (fo_buf _ _ H) as Hb. pose proof (fo_len _ _ H) as Hl. pose proof (fo_out _ _ H) as Hout. unfold fits in Hout.
  destruct (fo_data _ _ H) as [r Eq]. set (o := Z.to_nat (fout f mod fsize f)) in *.
  pose proof (Z.mod_pos_bound (fout f) (fsize f) ltac:(lia)) as Hoff.
  unfold fifo_get. fold (fifo_len f). rewrite El. replace (Z.min len (Z.of_nat (length q))) with (Z.of_nat n) by lia.
  assert (exists f', (if fin f =? u32 (fout f + Z.of_nat n) then mkFifo (fbuffer f) (fsize f) 0 0
                      else mkFifo (fbuffer f) (fsize f) (fin f) (u32 (fout f + Z.of_nat n))) = f' /\
            fifo_ok (drop n q) f' /\ fsize f' = fsize f) as (f' & Ef & Hf' & Es).
  { destruct (Z.eqb_spec (fin f) (u32 (fout f + Z.of_nat n))) as [E|E]; (eexists; split; [reflexivity|]; split; [|done]).
    - assert (length q = n) as En.
      { rewrite Ein in E. unfold u32 in E. assert ((fout f + Z.of_nat (length q) - (fout f + Z.of_nat n)) mod 2 ^ 32 = 0) as E0
          by (rewrite Zminus_mod, E, Z.sub_diag; done). rewrite Z.mod_small in E0 by lia. lia. }
      rewrite drop_ge by lia. constructor; cbn; try done; try lia; [by exists k | by exists (rot 0 (fbuffer f))].
    - constructor; cbn; [by exists k | done | unfold fits, u32; apply Z.mod_pos_bound; lia | | len |].
      + rewrite Ein. unfold u32. rewrite Zplus_mod_idemp_l. f_equal. rewrite length_drop. lia.
      + exists (r ++ take n q). rewrite app_assoc.
        apply (rot_shift o _ (fbuffer f) (take n q)); [lia | by rewrite app_assoc, take_drop|].
        rewrite (u32_mod_size _ _ k) by done. rewrite length_take, Nat.min_l by lia. replace (length (fbuffer f)) with (Z.to_nat (fsize f)) by lia.
        rewrite <- (Nat2Z.id n) at 2. unfold o. rewrite <- Z2Nat.inj_add, <- Z2Nat.inj_mod by lia. f_equal. by rewrite Z.add_mod_idemp_l by lia. }
  rewrite Ef. exists f'. split; [|done]. destruct buf as [b|]; [|done].
  rewrite (mask_mod _ _ k) by done. set (off := fout f mod fsize f) in *. cbn zeta.
  assert (Z.of_nat o = off) as Ho by (unfold o; lia). clearbody off. clearbody o.
  replace (u32 (fsize f - off)) with (fsize f - off) by (unfold u32; rewrite Z.mod_small; lia).
  set (l := Nat.min n (length (fbuffer f) - o)). replace (Z.min (Z.of_nat n) (fsize f - off)) with (Z.of_nat l) by lia.
  replace (u32 (Z.of_nat n - Z.of_nat l)) with (Z.of_nat (n - l)) by (unfold u32; rewrite Z.mod_small; lia).
  rewrite (copy_from_eq (fbuffer f) off (Z.of_nat l) o l) by lia. cbn [mbind option_bind].
  rewrite (copy_to_splice b 0 0) by len. cbn [mbind option_bind].
  rewrite (copy_from_eq (fbuffer f) 0 _ 0 (n - l)) by lia. cbn [mbind option_bind]. rewrite drop_0.
  set (s1 := take l (drop o (fbuffer f))). assert (length s1 = l) as Hs1 by (unfold s1; len).
  rewrite (copy_to_splice _ _ l) by (rewrite ?length_splice; len). cbn [mbind option_bind fmap option_fmap option_map].
  do 3 f_equal. replace l with (0 + length s1)%nat at 1 by lia. rewrite splice_splice by len.
  f_equal. pose proof (rot_read o (fbuffer f) n ltac:(lia) ltac:(lia)) as ER. cbn zeta in ER. fold l in ER. fold s1 in ER.
  rewrite ER, Eq. by rewrite take_app_le by lia.
Qed.

(** ** Runs *)

Inductive fop : Type := FPut (d : bytes) (len : Z) | FGet (buf : option bytes) (len : Z).

(** The length an operation returns, and the destination after it. *)
Definition fexec (f : fifo) (o : fop) : option (fifo * (Z * option bytes)) :=
  match o with
  | FPut d len => '(n, f) ← fifo_put f d len; Some (f, (n, None))
  | FGet buf len => '(n, b, f) ← fifo_get f buf len; Some (f, (n, b))
  end.

Fixpoint fexec_all (f : fifo) (ops : list fop) : option (fifo * list (Z * option bytes)) :=
  match ops with
  | [] => Some (f, [])
  | o :: ops' => '(f, r) ← fexec f o; '(f, rs) ← fexec_all f ops'; Some (f, r :: rs)
  end.

(** The same on a queue of bytes with room for [size]. *)
Definition qexec (size : Z) (q : bytes) (o : fop) : bytes * (Z * option bytes) :=
  match o with
  | FPut d len => let n := Z.min len (size - Z.of_nat (length q)) in (q ++ take (Z.to_nat n) d, (n, None))
  | FGet buf len =>
      let n := Z.to_nat (Z.min len (Z.of_nat (length q))) in
      (drop n q, (Z.of_nat n, (fun b => splice b 0 (take n q)) <$> buf))
  end.

Fixpoint qexec_all (size : Z) (q : bytes) (ops : list fop) : bytes * list (Z * option bytes) :=
  match ops with
  | [] => (q, [])
  | o :: ops' => let '(q, r) := qexec size q o in let '(q, rs) := qexec_all size q ops' in (q, r :: rs)
  end.

(** The caller's memory holds what the length says. *)
Definition fop_legal (o : fop) : Prop :=
  match o with
  | FPut d len => 0 <= len <= Z.of_nat (length d)
  | FGet buf len => 0 <= len /\ match buf with Some b => len <= Z.of_nat (length b) | None => True end
  end.

Lemma fexec_sim q f o : fifo_ok q f -> fop_legal o ->
  exists f', fexec f o = Some (f', (qexec (fsize f) q o).2) /\ fifo_ok (qexec (fsize f) q o).1 f' /\ fsize f' = fsize f.
Proof.
  intros H. destruct o as [d len|buf len]; cbn [fop_legal fexec qexec fst snd].
  - intros Hl. destruct (fifo_put_run q f d len H Hl) as (f' & E & H' & Es). exists f'. by rewrite E.
  - intros [Hl Hb]. destruct (fifo_get_run q f buf len H Hl) as (f' & E & H' & Es); [destruct buf; [lia | done]|]. exists f'. by rewrite E.
Qed.

Lemma fexec_all_sim ops : forall q f, fifo_ok q f -> Forall fop_legal ops ->
  exists f', fexec_all f ops = Some (f', (qexec_all (fsize f) q ops).2) /\ fifo_ok (qexec_all (fsize f) q ops).1 f'.
Proof.
  induction ops as [|o ops IH]; intros q f H Hl; [by exists f|]. apply Forall_cons in Hl as [Ho Hl].
  destruct (fexec_sim q f o H Ho) as (f1 & E1 & H1 & Es). cbn [fexec_all qexec_all]. rewrite E1. cbn [mbind option_bind].
  destruct (qexec (fsize f) q o) as [q1 r1]. cbn [fst snd] in *. destruct (IH q1 f1 H1 Hl) as (f2 & E2 & H2). rewrite Es in E2, H2.
  rewrite E2. cbn [mbind option_bind]. destruct (qexec_all (fsize f) q1 ops) as [q2 rs]. by exists f2.
Qed.

(** C31: The ring buffer is a queue of bytes: on a fifo of [2^k] bytes (up to 2^31), whatever
    [malloc] left in it, every sequence of puts and gets stays inside the buffers, and returns the
    lengths and bytes of a queue that holds at most [2^k] bytes, also when the 32 bit indices
    wrap around. *)
Theorem fifo_refines k junk ops :
  0 <= k <= 31 -> Z.of_nat (length junk) = 2 ^ k -> Forall fop_legal ops ->
  exists f', fexec_all (fifo_alloc (2 ^ k) junk) ops = Some (f', (qexec_all (2 ^ k) [] ops).2) /\
    fifo_len f' = Z.of_nat (length (qexec_all (2 ^ k) [] ops).1).
Proof.
  intros Hk Hj Hl. destruct (fexec_all_sim ops [] (fifo_alloc (2 ^ k) junk)) as (f' & E & H').
  - constructor; cbn; try done; [by exists k | lia | by exists (rot 0 junk)].
  - done.
  - exists f'. split; [done|]. by destruct (fifo_bounds _ _ H') as (_ & _ & -> & _).
Qed.

Definition demo_fops : list fop :=
  [FPut [Byte.x01; Byte.x02; Byte.x03] 3; FGet (Some [Byte.x00; Byte.x00]) 2; FPut [Byte.x04; Byte.x05; Byte.x06; Byte.x07] 4;
   FGet (Some [Byte.x00; Byte.x00; Byte.x00; Byte.x00]) 4].

Lemma fifo_refines_witness :
  exists f', fexec_all (fifo_alloc 4 [Byte.xff; Byte.xff; Byte.xff; Byte.xff]) demo_fops =
    Some (f', [(3, None); (2, Some [Byte.x01; Byte.x02]); (3, None); (4, Some [Byte.x03; Byte.x04; Byte.x05; Byte.x06])]) /\
    fifo_len f' = 0.
Proof. apply (fifo_refines 2 [Byte.xff; Byte.xff; Byte.xff; Byte.xff] demo_fops); [lia | done |]. repeat constructor; cbn; lia. Defined.
