(* ===== verification/IouQueue.v ===== *)
(** The queues of I/O units of src/fio/io_u_queue.c and io_u_queue.h: a stack of free units and a
    ring of requeued ones.  Units are addresses, 0 is NULL. *)
From S2P Require Import Prelude Blocks Fifo.

(** * The code *)

Record io_u_queue : Type := mkQ { q_ios : list Z; q_nr : Z; q_max : Z }.

Definition io_u_qinit (nr : Z) : io_u_queue := mkQ (replicate (Z.to_nat nr) 0) 0 nr.

(** No value stands for an access outside the array and a failed assertion. *)
Definition io_u_qpop (q : io_u_queue) : option (Z * io_u_queue) :=
  if negb (q_nr q =? 0) then
    let next := u32 (q_nr q - 1) in
    io_u ← q_ios q !! Z.to_nat next;
    Some (io_u, mkQ (<[Z.to_nat next := 0]> (q_ios q)) next (q_max q))
  else Some (0, q).

Definition io_u_qpush (q : io_u_queue) (io_u : Z) : option io_u_queue :=
  if q_nr q <? q_max q then
    _ ← q_ios q !! Z.to_nat (q_nr q);
    Some (mkQ (<[Z.to_nat (q_nr q) := io_u]> (q_ios q)) (u32 (q_nr q + 1)) (q_max q))
  else None.

Definition io_u_qempty (q : io_u_queue) : bool := q_nr q =? 0.

Record io_u_ring : Type := mkRing { r_head : Z; r_tail : Z; r_max : Z; r_ring : list Z }.

Definition ring_round (max : Z) : Z :=
  let max := u32 (max - 1) in
  let max := Z.lor max (Z.shiftr max 1) in
  let max := Z.lor max (Z.shiftr max 2) in
  let max := Z.lor max (Z.shiftr max 4) in
  let max := Z.lor max (Z.shiftr max 8) in
  let max := Z.lor max (Z.shiftr max 16) in
  u32 (max + 1).

Definition io_u_rinit (nr : Z) : io_u_ring :=
  let max := u32 (nr + 1) in
  let max := if negb (Z.land max (u32 (max - 1)) =? 0) then ring_round max else max in
  mkRing 0 0 max (replicate (Z.to_nat max) 0).

Definition io_u_rpush (r : io_u_ring) (io_u : Z) : option io_u_ring :=
  if negb (u32 (r_head r + 1) =? r_tail r) then
    _ ← r_ring r !! Z.to_nat (r_head r);
    Some (mkRing (Z.land (u32 (r_head r + 1)) (u32 (r_max r - 1))) (r_tail r) (r_max r) (<[Z.to_nat (r_head r) := io_u]> (r_ring r)))
  else None.

Definition io_u_rpop (r : io_u_ring) : option (Z * io_u_ring) :=
  if negb (r_head r =? r_tail r) then
    io_u ← r_ring r !! Z.to_nat (r_tail r);
    Some (io_u, mkRing (r_head r) (Z.land (u32 (r_tail r + 1)) (u32 (r_max r - 1))) (r_max r) (r_ring r))
  else Some (0, r).

Definition io_u_rempty (r : io_u_ring) : bool := r_head r =? r_tail r.

(** * The size of a ring *)

(** [y] has a bit where [x] has one in the next [n]. *)
Definition smeared (x n y : Z) : Prop :=
  forall i, 0 <= i -> Z.testbit y i = true <-> exists d, 0 <= d < n /\ Z.testbit x (i + d) = true.

Lemma smear_step x n y : 0 < n -> smeared x n y -> smeared x (2 * n) (Z.lor y (Z.shiftr y n)).
Proof.
  intros Hn H i Hi. rewrite Z.lor_spec, Z.shiftr_spec, orb_true_iff, (H i Hi), (H (i + n)) by lia. split.
  - intros [(d & Hd & E)|(d & Hd & E)]; [exists d; split; [lia | done] | exists (n + d); split; [lia | by rewrite Z.add_assoc]].
  - intros (d & Hd & E). destruct (Z.lt_ge_cases d n); [left; exists d; split; [lia | done]|]. right. exists (d - n). split; [lia|]. by replace (i + n + (d - n)) with (i + d) by lia.
Qed.

Lemma smear_32 x : 0 < x < 2 ^ 32 ->
  let y := x in
  let y := Z.lor y (Z.shiftr y 1) in let y := Z.lor y (Z.shiftr y 2) in let y := Z.lor y (Z.shiftr y 4) in
  let y := Z.lor y (Z.shiftr y 8) in let y := Z.lor y (Z.shiftr y 16) in y = Z.ones (Z.log2 x + 1).
Proof.
  intros Hx y0 y1 y2 y3 y4 y5.
  assert (smeared x 1 y0) as H0.
  { intros i Hi. unfold y0. split; [intros E; exists 0; split; [lia | by rewrite Z.add_0_r] | intros (d & Hd & E)].
    by replace (i + d) with i in E by lia. }
  assert (smeared x 32 y5) as H5.
  { apply (smear_step x 16 y4), (smear_step x 8 y3), (smear_step x 4 y2), (smear_step x 2 y1), (smear_step x 1 y0); lia || done. }
  assert (Z.log2 x < 32) by (apply Z.log2_lt_pow2; lia). pose proof (Z.log2_nonneg x).
  apply Z.bits_inj'. intros i Hi. rewrite Z.testbit_ones_nonneg by lia. apply eq_true_iff_eq. rewrite (H5 i Hi), Z.ltb_lt. split.
  - intros (d & Hd & E). destruct (Z.lt_ge_cases i (Z.log2 x + 1)); [done|]. rewrite Z.bits_above_log2 in E by lia. done.
  - intros Hlt. exists (Z.log2 x - i). split; [lia|]. replace (i + (Z.log2 x - i)) with (Z.log2 x) by lia. apply Z.bit_log2. lia.
Qed.

(** Powers of two have no bit in common with the number before them. *)
Lemma pow2_test x : 0 < x -> Z.land x (x - 1) = 0 -> exists k, 0 <= k /\ x = 2 ^ k.
Proof.
  intros Hx E. exists (Z.log2 x). split; [apply Z.log2_nonneg|]. pose proof (Z.log2_spec x Hx) as [Hl _].
  destruct (Z.eq_dec x (2 ^ Z.log2 x)) as [|Hne]; [done|]. exfalso.
  assert (Z.log2 (x - 1) = Z.log2 x) as El.
  { apply Z.log2_unique; [apply Z.log2_nonneg|]. pose proof (Z.log2_spec x Hx). lia. }
  assert (Z.testbit (Z.land x (x - 1)) (Z.log2 x) = true) as Hb.
  { rewrite Z.land_spec, Z.bit_log2 by lia. rewrite <- El at 1. rewrite Z.bit_log2; [done|].
    pose proof (Z.pow_pos_nonneg 2 (Z.log2 x) ltac:(lia) (Z.log2_nonneg x)). lia. }
  by rewrite E, Z.bits_0 in Hb.
Qed.

(** The ring has a power of two of slots, more than [nr]. *)
Lemma rinit_size nr : 0 <= nr < 2 ^ 31 ->
  exists k, 0 <= k <= 31 /\ r_max (io_u_rinit nr) = 2 ^ k /\ nr < 2 ^ k.
Proof.
  intros Hnr. unfold io_u_rinit. cbn [r_max]. replace (u32 (nr + 1)) with (nr + 1) by (unfold u32; rewrite Z.mod_small; lia).
  replace (u32 (nr + 1 - 1)) with nr by (unfold u32; rewrite Z.mod_small; lia).
  destruct (Z.eqb_spec (Z.land (nr + 1) nr) 0) as [E|E]; cbn [negb].
  - destruct (pow2_test (nr + 1)) as (k & Hk & Ek); [lia | by replace (nr + 1 - 1) with nr by lia|]. exists k. split; [|lia]. split; [done|].
    destruct (Z.le_gt_cases k 31); [done|]. assert (2 ^ 32 <= 2 ^ k) by (apply Z.pow_le_mono_r; lia). lia.
  - assert (0 < nr) as H0 by (destruct (Z.eq_dec nr 0) as [->|]; [done | lia]).
    unfold ring_round. replace (u32 (nr + 1 - 1)) with nr by (unfold u32; rewrite Z.mod_small; lia).
    pose proof (smear_32 nr ltac:(lia)) as Es. cbn zeta in Es. rewrite Es. pose proof (Z.log2_nonneg nr).
    assert (Z.log2 nr < 31) by (apply Z.log2_lt_pow2; lia). pose proof (Z.log2_spec nr H0) as [_ Hl].
    exists (Z.log2 nr + 1). split; [lia|]. rewrite Z.ones_equiv. assert (2 ^ (Z.log2 nr + 1) <= 2 ^ 31) by (apply Z.pow_le_mono_r; lia).
    split; [|by replace (Z.log2 nr + 1) with (Z.succ (Z.log2 nr)) by lia].
    unfold u32. rewrite Z.mod_small; lia.
Qed.

(** * The ring is a queue *)

Record ring_ok (q : list Z) (r : io_u_ring) : Prop := {
  ro_max : exists k, 0 <= k <= 31 /\ r_max r = 2 ^ k;
  ro_ring : Z.of_nat (length (r_ring r)) = r_max r;
  ro_tail : 0 <= r_tail r < r_max r;
  ro_head : r_head r = (r_tail r + Z.of_nat (length q)) mod r_max r;
  ro_len : Z.of_nat (length q) < r_max r;
  ro_data : exists x, rot (Z.to_nat (r_tail r)) (r_ring r) = q ++ x
}.

Lemma next_slot i m k : 0 <= k <= 31 -> m = 2 ^ k -> 0 <= i < m -> Z.land (u32 (i + 1)) (u32 (m - 1)) = (i + 1) mod m.
Proof. intros Hk Em Hi. rewrite (mask_mod _ m k) by done. by apply (u32_mod_size _ m k). Qed.

Lemma ring_head q r : ring_ok q r -> 0 < r_max r <= 2 ^ 31 /\ 0 <= r_head r < r_max r /\
  (r_head r = r_tail r <-> q = []) /\ (r_head r + 1 = r_tail r -> Z.of_nat (length q) = r_max r - 1).
Proof.
  intros H. destruct (ro_max _ _ H) as (k & Hk & Ek). pose proof (ro_tail _ _ H) as Ht. pose proof (ro_len _ _ H) as Hl.
  assert (2 ^ k <= 2 ^ 31) by (apply Z.pow_le_mono_r; lia). pose proof (ro_head _ _ H) as Eh.
  assert (r_head r = if r_tail r + Z.of_nat (length q) <? r_max r then r_tail r + Z.of_nat (length q) else r_tail r + Z.of_nat (length q) - r_max r) as Ec.
  { rewrite Eh. destruct (Z.ltb_spec (r_tail r + Z.of_nat (length q)) (r_max r)); [apply Z.mod_small; lia|].
    symmetry. apply Z.mod_unique with 1; lia. }
  clear Eh. destruct (Z.ltb_spec (r_tail r + Z.of_nat (length q)) (r_max r)) as [Hc|Hc]; (split; [lia|]; split; [lia|]; split; [|lia]).
  - split; [intros E; apply nil_length_inv; lia | intros ->; cbn in Ec; lia].
  - split; [lia | intros ->; cbn in *; lia].
Qed.

Lemma rpush_run q r x : ring_ok q r -> Z.of_nat (length q) + 1 < r_max r ->
  exists r', io_u_rpush r x = Some r' /\ ring_ok (q ++ [x]) r' /\ r_max r' = r_max r.
Proof.
  intros H Hroom. destruct (ro_max _ _ H) as (k & Hk & Ek). destruct (ring_head q r H) as (Hm & Hh & _ & Hfull).
  pose proof (ro_ring _ _ H) as Hr. pose proof (ro_tail _ _ H) as Ht. destruct (ro_data _ _ H) as [y Ey].
  unfold io_u_rpush. assert (u32 (r_head r + 1) = r_head r + 1) as Eu by (unfold u32; rewrite Z.mod_small; lia).
  destruct (Z.eqb_spec (u32 (r_head r + 1)) (r_tail r)) as [E|E]; [rewrite Eu in E; lia|]. cbn [negb].
  destruct (lookup_lt_is_Some_2 (r_ring r) (Z.to_nat (r_head r))) as [z Hz]; [lia|]. rewrite Hz. cbn [mbind option_bind].
  rewrite (next_slot _ _ k) by done. eexists. split; [reflexivity|]. split; [|done].
  set (h := Z.to_nat (r_head r)) in *. set (t := Z.to_nat (r_tail r)) in *.
  assert (h = ((t + length q) mod length (r_ring r))%nat) as Eh.
  { unfold h, t. rewrite (ro_head _ _ H). replace (length (r_ring r)) with (Z.to_nat (r_max r)) by lia.
    rewrite <- (Nat2Z.id (length q)) at 2. by rewrite <- Z2Nat.inj_add, <- Z2Nat.inj_mod by lia. }
  pose proof (f_equal length Ey) as HL. rewrite length_rot, length_app in HL.
  assert (rot h (r_ring r) = y ++ q) as Er by (apply (rot_shift t); [lia | done | done]).
  destruct y as [|y0 y]; [cbn in HL; lia|].
  assert (rot h (<[h := x]> (r_ring r)) = x :: y ++ q) as Er'.
  { unfold rot in *. rewrite (drop_S _ z h Hz) in Er. injection Er as _ Er.
    rewrite (drop_S _ x h) by (apply list_lookup_insert_eq; lia). rewrite drop_insert_lt, take_insert_ge by lia. cbn. by f_equal. }
  constructor; cbn [r_max r_ring r_tail r_head].
  - by exists k.
  - by rewrite length_insert.
  - done.
  - rewrite (ro_head _ _ H), Z.add_mod_idemp_l by lia. rewrite length_app. cbn. f_equal. lia.
  - rewrite length_app. cbn. lia.
  - exists y. rewrite <- app_assoc. apply (rot_shift h _ _ (x :: y) q); [rewrite length_insert; lia | by rewrite Er'|].
    rewrite length_insert, Eh, Nat.Div0.add_mod_idemp_l. cbn [length] in *.
    replace (t + length q + S (length y))%nat with (t + 1 * length (r_ring r))%nat by lia. rewrite Nat.Div0.mod_add. symmetry. apply Nat.mod_small. lia.
Qed.

Lemma rpop_run q r : ring_ok q r ->
  exists r', io_u_rpop r = Some (hd 0 q, r') /\ ring_ok (tail q) r' /\ r_max r' = r_max r.
Proof.
  intros H. destruct (ro_max _ _ H) as (k & Hk & Ek). destruct (ring_head q r H) as (Hm & Hh & Hemp & _).
  pose proof (ro_ring _ _ H) as Hr. pose proof (ro_tail _ _ H) as Ht. destruct (ro_data _ _ H) as [y Ey].
  unfold io_u_rpop. destruct (Z.eqb_spec (r_head r) (r_tail r)) as [E|E]; cbn [negb].
  { apply Hemp in E as ->. by exists r. }
  destruct q as [|x q]; [by destruct E; apply Hemp|]. set (t := Z.to_nat (r_tail r)) in *.
  assert (r_ring r !! t = Some x) as Hx.
  { pose proof (f_equal (fun l => l !! 0%nat) Ey) as E0. cbn in E0. unfold rot in E0. rewrite lookup_app_l in E0 by len.
    by rewrite lookup_drop, Nat.add_0_r in E0. }
  rewrite Hx. cbn [mbind option_bind]. rewrite (next_slot _ _ k) by done. eexists. split; [reflexivity|]. split; [|done]. cbn [tail].
  pose proof (Z.mod_pos_bound (r_tail r + 1) (r_max r) ltac:(lia)). pose proof (ro_len _ _ H) as HL. cbn [length] in HL.
  constructor; cbn [r_max r_ring r_tail r_head].
  - by exists k.
  - done.
  - done.
  - rewrite Z.add_mod_idemp_l by lia. rewrite (ro_head _ _ H). cbn [length]. f_equal. lia.
  - lia.
  - exists (y ++ [x]). rewrite app_assoc. apply (rot_shift t _ _ [x]); [lia | done|].
    replace (length (r_ring r)) with (Z.to_nat (r_max r)) by lia. cbn [length].
    replace (t + 1)%nat with (Z.to_nat (r_tail r + 1)) by lia. by rewrite <- Z2Nat.inj_mod by lia.
Qed.

Lemma rinit_ok nr : 0 <= nr < 2 ^ 31 -> ring_ok [] (io_u_rinit nr) /\ nr < r_max (io_u_rinit nr).
Proof.
  intros Hnr. destruct (rinit_size nr Hnr) as (k & Hk & Ek & Hlt). assert (0 < 2 ^ k) by (apply Z.pow_pos_nonneg; lia).
  split; [|lia]. unfold io_u_rinit in *. cbn zeta in *. set (m := if negb _ then _ else _) in *. cbn [r_max] in *. clearbody m.
  constructor; cbn [r_max r_ring r_tail r_head length].
  - by exists k.
  - rewrite length_replicate. lia.
  - lia.
  - rewrite Z.mod_0_l; lia.
  - lia.
  - by eexists.
Qed.

(** ** Runs *)

Inductive rop : Type := RPush (io_u : Z) | RPop.

(** A pop returns the unit, or NULL. *)
Fixpoint rexec (r : io_u_ring) (ops : list rop) : option (list Z * io_u_ring) :=
  match ops with
  | [] => Some ([], r)
  | RPush x :: ops' => r ← io_u_rpush r x; rexec r ops'
  | RPop :: ops' => '(x, r) ← io_u_rpop r; '(xs, r) ← rexec r ops'; Some (x :: xs, r)
  end.

Fixpoint lexec (q : list Z) (ops : list rop) : list Z * list Z :=
  match ops with
  | [] => ([], q)
  | RPush x :: ops' => lexec (q ++ [x]) ops'
  | RPop :: ops' => let '(xs, q') := lexec (tail q) ops' in (hd 0 q :: xs, q')
  end.

(** There are never more than [nr] units in the ring: no more exist. *)
Fixpoint at_most (nr : Z) (q : list Z) (ops : list rop) : Prop :=
  match ops with
  | [] => True
  | RPush x :: ops' => Z.of_nat (length q) < nr /\ at_most nr (q ++ [x]) ops'
  | RPop :: ops' => at_most nr (tail q) ops'
  end.

Lemma rexec_sim nr ops : forall q r, ring_ok q r -> nr < r_max r -> at_most nr q ops ->
  exists r', rexec r ops = Some ((lexec q ops).1, r') /\ ring_ok (lexec q ops).2 r'.
Proof.
  induction ops as [|[x|] ops IH]; intros q r H Hnr Hops; cbn [rexec lexec at_most] in *.
  - by exists r.
  - destruct Hops as [Hlt Hops]. destruct (rpush_run q r x H) as (r1 & E & H1 & Em); [lia|]. rewrite E. cbn [mbind option_bind].
    apply IH; [done | lia | done].
  - destruct (rpop_run q r H) as (r1 & E & H1 & Em). rewrite E. cbn [mbind option_bind].
    destruct (IH (tail q) r1 H1) as (r2 & E2 & H2); [lia | done|]. rewrite E2. cbn [mbind option_bind].
    destruct (lexec (tail q) ops) as [xs q']. by exists r2.
Qed.

(** The ring of requeued I/O units is a first-in first-out queue: for every depth below 2^31,
    on the ring that [io_u_rinit] makes, every sequence of pushes and pops with at most as many
    units in the ring as the depth runs inside the array without a failed assertion, and the pops
    return the units in the order of the pushes, NULL when there is none. *)
Theorem io_u_ring_refines nr ops :
  0 <= nr < 2 ^ 31 -> at_most nr [] ops ->
  exists r', rexec (io_u_rinit nr) ops = Some ((lexec [] ops).1, r') /\ io_u_rempty r' = bool_decide ((lexec [] ops).2 = []).
Proof.
  intros Hnr Hops. destruct (rinit_ok nr Hnr) as [H0 Hlt]. destruct (rexec_sim nr ops [] _ H0 Hlt Hops) as (r' & E & H').
  exists r'. split; [done|]. destruct (ring_head _ _ H') as (_ & _ & Hemp & _). unfold io_u_rempty.
  destruct (Z.eqb_spec (r_head r') (r_tail r')) as [Eh|Eh].
  - symmetry. apply bool_decide_eq_true_2. by apply Hemp.
  - symmetry. apply bool_decide_eq_false_2. intros Eq. by apply Eh, Hemp.
Qed.

Definition demo_rops : list rop := [RPush 8; RPush 16; RPop; RPush 24; RPush 32; RPop; RPop; RPop; RPop].

Lemma io_u_ring_refines_witness :
  exists r', rexec (io_u_rinit 3) demo_rops = Some ([8; 16; 24; 32; 0], r') /\ io_u_rempty r' = true.
Proof. apply (io_u_ring_refines 3 demo_rops); [lia|]. repeat split; cbn; lia. Defined.

(** One unit more than the ring has room for: the full ring is not noticed at the end of the array,
    the index wraps onto the tail, and all units are lost. *)
Lemma ring_full_unnoticed :
  exists r', rexec (io_u_rinit 3) [RPush 8; RPush 16; RPush 24; RPush 32; RPop] = Some ([0], r') /\ io_u_rempty r' = true.
Proof. eexists. split; vm_compute; reflexivity. Qed.

(** Not at the start: one pop earlier, the assertion fails. *)
Lemma ring_full_noticed :
  rexec (io_u_rinit 3) [RPush 8; RPop; RPush 16; RPush 24; RPush 32; RPush 40] = None.
Proof. vm_compute. reflexivity. Qed.

(** * The stack of free units *)

Record stack_ok (l : list Z) (q : io_u_queue) : Prop := {
  so_max : fits 32 (q_max q);
  so_ios : Z.of_nat (length (q_ios q)) = q_max q;
  so_nr : q_nr q = Z.of_nat (length l);
  so_data : exists x, q_ios q = reverse l ++ x
}.

Lemma qinit_ok nr : fits 32 nr -> stack_ok [] (io_u_qinit nr).
Proof. intros H. unfold fits in H. constructor; cbn; [done | rewrite length_replicate; lia | done | by eexists]. Qed.

Lemma qpush_run l q x : stack_ok l q ->
  (Z.of_nat (length l) < q_max q -> exists q', io_u_qpush q x = Some q' /\ stack_ok (x :: l) q' /\ q_max q' = q_max q) /\
  (q_max q <= Z.of_nat (length l) -> io_u_qpush q x = None).
Proof.
  intros [[Hm1 Hm2] Hi Hn [y Ey]]. pose proof (f_equal length Ey) as HL. rewrite length_app, length_reverse in HL. unfold io_u_qpush. rewrite Hn. split; intros Hl.
  - replace (Z.of_nat (length l) <? q_max q) with true by lia. rewrite Nat2Z.id.
    destruct (lookup_lt_is_Some_2 (q_ios q) (length l)) as [z Hz]; [lia|]. rewrite Hz. cbn [mbind option_bind].
    eexists. split; [reflexivity|]. split; [|done]. constructor; cbn [q_max q_ios q_nr].
    + done.
    + by rewrite length_insert.
    + unfold u32. rewrite Z.mod_small by lia. cbn [length]. lia.
    + destruct y as [|y0 y]; [cbn in HL; lia|]. exists y. rewrite Ey, reverse_cons, <- app_assoc. rewrite insert_app_r_alt by (rewrite length_reverse; lia).
      by rewrite length_reverse, Nat.sub_diag.
  - by replace (Z.of_nat (length l) <? q_max q) with false by lia.
Qed.

Lemma qpop_run l q : stack_ok l q ->
  exists q', io_u_qpop q = Some (hd 0 l, q') /\ stack_ok (tail l) q' /\ q_max q' = q_max q.
Proof.
  intros [[Hm1 Hm2] Hi Hn [y Ey]]. pose proof (f_equal length Ey) as HL. rewrite length_app, length_reverse in HL. unfold io_u_qpop. rewrite Hn.
  destruct l as [|x l]; [exists q; split; [done|]; split; [by constructor; try done; exists y | done]|].
  destruct (Z.eqb_spec (Z.of_nat (length (x :: l))) 0) as [E|_]; [done|]. cbn [negb].
  replace (u32 (Z.of_nat (length (x :: l)) - 1)) with (Z.of_nat (length l)) by (unfold u32; rewrite Z.mod_small; cbn [length]; cbn [length] in HL; lia).
  rewrite Nat2Z.id. rewrite reverse_cons, <- app_assoc in Ey.
  assert (q_ios q !! length l = Some x) as Hx by (rewrite Ey, lookup_app_r by (by rewrite length_reverse); by rewrite length_reverse, Nat.sub_diag).
  rewrite Hx. cbn [mbind option_bind]. eexists. split; [reflexivity|]. split; [|done]. constructor; cbn [q_max q_ios q_nr tail].
  - done.
  - by rewrite length_insert.
  - done.
  - exists (0 :: y). rewrite Ey, insert_app_r_alt by (rewrite length_reverse; lia). by rewrite length_reverse, Nat.sub_diag.
Qed.
