(* ===== verification/IoEngine.v ===== *)
(** I/O units (src/fio/io_u.h) and what fio expects of an I/O engine
    (ioengines.h): the operations as a type class, what the core relies on as a
    second class, and the null engine (engines/null.c) as an instance of both.
    Units are known by their address. *)
From S2P Require Import Prelude.
#[local] Open Scope Z_scope.

(** A value kept in an int. *)
Definition to_int (z : Z) : Z := let w := u32 z in if w <? 2 ^ 31 then w else w - 2 ^ 32.

(** * I/O units *)

Definition IO_U_F_FREE : Z := 1.
Definition IO_U_F_FLIGHT : Z := 2.
Definition IO_U_F_NO_FILE_PUT : Z := 4.
Definition IO_U_F_IN_CUR_DEPTH : Z := 8.
Definition IO_U_F_BUSY_OK : Z := 16.
Definition IO_U_F_TRIMMED : Z := 32.
Definition IO_U_F_BARRIER : Z := 64.
Definition IO_U_F_VER_LIST : Z := 128.

(** enum fio_ddir, as numbers. *)
Definition DDIR_READ : Z := 0.
Definition DDIR_WRITE : Z := 1.
Definition DDIR_TRIM : Z := 2.
Definition DDIR_SYNC : Z := 3.
Definition DDIR_DATASYNC : Z := 4.
Definition DDIR_SYNC_FILE_RANGE : Z := 5.
Definition ddir_sync (d : Z) : bool := (d =? DDIR_SYNC) || (d =? DDIR_DATASYNC) || (d =? DDIR_SYNC_FILE_RANGE).
Definition ddir_rw (d : Z) : bool := (d =? DDIR_READ) || (d =? DDIR_WRITE) || (d =? DDIR_TRIM).

(** What end_io points to. *)
Inductive end_io_fn : Type := NoEnd | VerifySync | VerifyAsync.

Record io_u : Type := mkU {
  flags : Z;
  file : Z;                  (* 0: a null pointer *)
  ddir : Z;
  acct : Z;                  (* acct_ddir, -1: none *)
  error : Z;
  resid : Z;
  buflen : Z;
  xfer_buflen : Z;
  xfer_buf : Z;
  offset : Z;
  end_io : end_io_fn;
  ipo : bool                 (* whether it has a piece of the I/O history *)
}.

Definition acct_ddir (u : io_u) : Z := if negb (acct u =? -1) then acct u else ddir u.

Definition has (f : Z) (u : io_u) : bool := negb (Z.land (flags u) f =? 0).
Definition with_flags (f : Z) (u : io_u) : io_u :=
  mkU f (file u) (ddir u) (acct u) (error u) (resid u) (buflen u) (xfer_buflen u) (xfer_buf u) (offset u) (end_io u) (ipo u).
Definition io_u_set (f : Z) (u : io_u) : io_u := with_flags (Z.lor (flags u) f) u.
Definition io_u_clear (f : Z) (u : io_u) : io_u := with_flags (Z.land (flags u) (Z.lnot f)) u.
Definition with_result (e r : Z) (u : io_u) : io_u :=
  mkU (flags u) (file u) (ddir u) (acct u) e r (buflen u) (xfer_buflen u) (xfer_buf u) (offset u) (end_io u) (ipo u).
Definition with_file (f : Z) (u : io_u) : io_u :=
  mkU (flags u) f (ddir u) (acct u) (error u) (resid u) (buflen u) (xfer_buflen u) (xfer_buf u) (offset u) (end_io u) (ipo u).
Definition with_ddir (d a : Z) (u : io_u) : io_u :=
  mkU (flags u) (file u) d a (error u) (resid u) (buflen u) (xfer_buflen u) (xfer_buf u) (offset u) (end_io u) (ipo u).
Definition with_xfer (len buf off : Z) (u : io_u) : io_u :=
  mkU (flags u) (file u) (ddir u) (acct u) (error u) (resid u) (buflen u) len buf off (end_io u) (ipo u).
Definition with_range (off len : Z) (u : io_u) : io_u :=
  mkU (flags u) (file u) (ddir u) (acct u) (error u) (resid u) len (xfer_buflen u) (xfer_buf u) off (end_io u) (ipo u).
Definition with_end (e : end_io_fn) (u : io_u) : io_u :=
  mkU (flags u) (file u) (ddir u) (acct u) (error u) (resid u) (buflen u) (xfer_buflen u) (xfer_buf u) (offset u) e (ipo u).
Definition with_ipo (b : bool) (u : io_u) : io_u :=
  mkU (flags u) (file u) (ddir u) (acct u) (error u) (resid u) (buflen u) (xfer_buflen u) (xfer_buf u) (offset u) (end_io u) b.

(** Equal but for the result of the I/O, which is what an engine may set. *)
Definition same_io (u v : io_u) : Prop := with_result 0 0 u = with_result 0 0 v.

Lemma same_io_fields u v : same_io u v ->
  flags u = flags v /\ file u = file v /\ ddir u = ddir v /\ acct u = acct v /\ end_io u = end_io v /\ ipo u = ipo v.
Proof. unfold same_io, with_result. intros H. by injection H. Qed.

(** * Engines *)

Definition FIO_Q_COMPLETED : Z := 0.
Definition FIO_Q_QUEUED : Z := 1.
Definition FIO_Q_BUSY : Z := 2.

(** The operations of struct ioengine_ops that the core calls on units, over the
    state [E] of an engine (with what it learns from the system).  No value stands
    for an access outside an array or no return; hooks may be missing. *)
Class IoEngine (E : Type) : Type := {
  eng_queue : Z -> io_u -> E -> option (Z * io_u * E);
  eng_commit : option (E -> option (Z * E));
  eng_getevents : option (Z -> Z -> E -> option (Z * E));
  eng_event : Z -> E -> option (Z * (io_u -> io_u))
}.

(** What the core relies on.  [eng_ok depth e held]: the engine [e], set up for
    [depth] units, holds the units [held]: queue takes one more when it answers
    FIO_Q_QUEUED and none when it answers one of the other two, and getevents returns as many events as the
    event hook then gives back, each a unit that was held.  Units keep all but
    their result.  getevents is only sure to return when it is not asked to wait for
    more units than are held. *)
Class IoEngineLaws (E : Type) `{IoEngine E} : Type := {
  eng_ok : nat -> E -> list Z -> Prop;
  eng_ok_perm : forall depth e, Proper ((≡ₚ) ==> iff) (eng_ok depth e);
  eng_queue_ok : forall depth e held a u, eng_ok depth e held -> (a ∉ held) -> (length held < depth)%nat ->
    exists ret u' e', eng_queue a u e = Some (ret, u', e') /\ same_io u' u /\
      (ret = FIO_Q_COMPLETED \/ ret = FIO_Q_QUEUED \/ ret = FIO_Q_BUSY) /\
      eng_ok depth e' (if ret =? FIO_Q_QUEUED then a :: held else held);
  eng_commit_ok : forall depth e held c, eng_commit = Some c -> eng_ok depth e held ->
    exists ret e', c e = Some (ret, e') /\ eng_ok depth e' held;
  eng_getevents_ok : forall depth e held min max g, eng_getevents = Some g -> eng_ok depth e held ->
    0 <= min <= Z.of_nat (length held) -> min <= max ->
    exists r e', g min max e = Some (r, e') /\ r < 2 ^ 31 /\
      (r < 0 -> eng_ok depth e' held) /\
      (0 <= r -> exists evs rest, Z.of_nat (length evs) = r /\ held ≡ₚ evs ++ rest /\ eng_ok depth e' rest /\
         forall i a, evs !! i = Some a -> exists f, eng_event (Z.of_nat i) e' = Some (a, f) /\ forall u, same_io (f u) u)
}.
#[export] Existing Instance eng_ok_perm.

(** An engine that always makes progress: asked to wait for one, after a commit, it
    gives at least one back. *)
Class IoEngineLive (E : Type) `{IoEngineLaws E} : Type := {
  eng_live : forall depth e held min max c g, eng_commit = Some c -> eng_getevents = Some g -> eng_ok depth e held ->
    0 < min <= Z.of_nat (length held) -> min <= max ->
    exists ret e1 r e2, c e = Some (ret, e1) /\ 0 <= ret /\ g min max e1 = Some (r, e2) /\ 0 < r
}.

(** * The null engine *)

Record null_data : Type := mkNd { nd_io_us : list Z; nd_queued : Z; nd_events : Z; nd_sync : bool }.

Definition fio_null_init (iodepth : Z) : null_data :=
  if negb (iodepth =? 1) then mkNd (replicate (Z.to_nat iodepth) 0) 0 0 false else mkNd [] 0 0 true.

Definition fio_null_event (event : Z) (nd : null_data) : option (Z * (io_u -> io_u)) :=
  a ← nd_io_us nd !! Z.to_nat event; Some (a, fun u => u).

Definition fio_null_getevents (min_events max : Z) (nd : null_data) : option (Z * null_data) :=
  if negb (min_events =? 0) then Some (nd_events nd, mkNd (nd_io_us nd) (nd_queued nd) 0 (nd_sync nd))
  else Some (0, nd).

Definition fio_null_commit (nd : null_data) : option (Z * null_data) :=
  if nd_events nd =? 0 then Some (0, mkNd (nd_io_us nd) 0 (nd_queued nd) (nd_sync nd)) else Some (0, nd).

Definition fio_null_queue (a : Z) (u : io_u) (nd : null_data) : option (Z * io_u * null_data) :=
  if nd_sync nd then Some (FIO_Q_COMPLETED, u, nd)
  else if negb (nd_events nd =? 0) then Some (FIO_Q_BUSY, u, nd)
  else
    _ ← nd_io_us nd !! Z.to_nat (nd_queued nd);
    Some (FIO_Q_QUEUED, u, mkNd (<[Z.to_nat (nd_queued nd) := a]> (nd_io_us nd)) (nd_queued nd + 1) (nd_events nd) (nd_sync nd)).

#[export] Instance null_engine : IoEngine null_data := {|
  eng_queue := fio_null_queue;
  eng_commit := Some fio_null_commit;
  eng_getevents := Some fio_null_getevents;
  eng_event := fio_null_event
|}.

(** The units it holds are the first of the array, all queued or all events. *)
Record null_ok (depth : nat) (nd : null_data) (held : list Z) : Prop := {
  no_room : nd_sync nd = false -> length (nd_io_us nd) = depth;
  no_depth : Z.of_nat depth < 2 ^ 31;
  no_one : nd_queued nd = 0 \/ nd_events nd = 0;
  no_sync : nd_sync nd = true -> held = [];
  no_held : exists l x, held ≡ₚ l /\ nd_io_us nd = l ++ x /\ Z.of_nat (length l) = nd_queued nd + nd_events nd /\
    0 <= nd_queued nd /\ 0 <= nd_events nd
}.

#[export] Instance null_ok_perm depth nd : Proper ((≡ₚ) ==> iff) (null_ok depth nd).
Proof.
  assert (H : forall h k, h ≡ₚ k -> null_ok depth nd h -> null_ok depth nd k).
  { intros h k Hp [H1 H2 H3 H4 (l & x & Hl & H5)]. constructor; try done.
    - intros Hs. rewrite (H4 Hs) in Hp. symmetry in Hp. by apply Permutation_nil_r in Hp.
    - exists l, x. split; [by rewrite <- Hp|done]. }
  intros h k Hp. split; apply H; [done|by symmetry].
Qed.

Lemma null_init_ok depth : 0 < depth < 2 ^ 31 -> null_ok (Z.to_nat depth) (fio_null_init depth) [].
Proof.
  intros Hd. unfold fio_null_init. destruct (negb (depth =? 1)); constructor; cbn; try done; try lia; try (by left).
  - intros _. by rewrite length_replicate.
  - by eexists [], _.
  - by eexists [], _.
Qed.

#[export] Program Instance null_laws : IoEngineLaws null_data := {| eng_ok := null_ok |}.
Next Obligation.
  intros depth e held a u [Hroom Hd Hone Hsync (l & x & Hp & Hio & Hlen & Hq & He)] Ha Hlt.
  cbn [eng_queue null_engine]. unfold fio_null_queue. destruct (nd_sync e) eqn:Es.
  { eexists _, u, e. split; [done|]. split; [done|]. split; [unfold FIO_Q_COMPLETED, FIO_Q_BUSY; lia|]. constructor; rewrite ?Es; try done. by exists l, x. }
  destruct (Z.eqb_spec (nd_events e) 0) as [E0|E0]; cbn [negb].
  2:{ eexists _, u, e. split; [done|]. split; [done|]. split; [unfold FIO_Q_COMPLETED, FIO_Q_BUSY; lia|]. constructor; rewrite ?Es; try done. by exists l, x. }
  pose proof (Permutation_length Hp) as HL. specialize (Hroom eq_refl).
  pose proof (f_equal length Hio) as HL2. rewrite length_app in HL2.
  destruct (lookup_lt_is_Some_2 (nd_io_us e) (Z.to_nat (nd_queued e))) as [y Hy]; [lia|]. rewrite Hy. cbn [mbind option_bind].
  eexists _, u, _. split; [reflexivity|]. split; [done|]. split; [by right; left|]. constructor; cbn; try done.
  - intros _. by rewrite length_insert.
  - by right.
  - destruct x as [|x0 x]; [simpl in HL2; lia|]. exists (l ++ [a]), x. split; [rewrite Hp; apply Permutation_cons_append|].
    split; [|rewrite length_app; simpl; lia]. rewrite Hio, <- app_assoc.
    rewrite insert_app_r_alt by lia. replace (_ - _)%nat with 0%nat by lia. done.
Qed.
Next Obligation.
  intros depth e held c [= <-] [Hroom Hd Hone Hsync (l & x & Hp & Hio & Hlen & Hq & He)]. unfold fio_null_commit.
  destruct (Z.eqb_spec (nd_events e) 0) as [E0|E0].
  - eexists _, _. split; [reflexivity|]. constructor; cbn; try done; [by left|]. exists l, x. repeat split; try done; lia.
  - eexists _, _. split; [reflexivity|]. constructor; try done. by exists l, x.
Qed.
Next Obligation.
  intros depth e held min max g [= <-] [Hroom Hd Hone Hsync (l & x & Hp & Hio & Hlen & Hq & He)] Hmin Hmax.
  pose proof (Permutation_length Hp) as HL. unfold fio_null_getevents.
  destruct (Z.eqb_spec min 0) as [E0|E0]; cbn [negb].
  { eexists _, _. split; [reflexivity|]. split; [lia|]. split; [lia|]. intros _. exists [], held. split; [done|]. split; [done|].
    split; [constructor; try done; by exists l, x|]. intros i a Hi. done. }
  assert (nd_events e <= Z.of_nat depth).
  { destruct (nd_sync e) eqn:Es; [rewrite (Hsync eq_refl) in HL; simpl in *; lia|].
    specialize (Hroom eq_refl). rewrite <- Hroom, Hio, length_app. lia. }
  eexists _, _. split; [reflexivity|]. split; [lia|]. split; [lia|]. intros _.
  destruct (Z.eqb_spec (nd_events e) 0) as [Ev|Ev].
  - exists [], held. rewrite Ev. split; [done|]. split; [done|]. split; [|by intros].
    constructor; cbn; try done; [by right|]. exists l, x. repeat split; try done; lia.
  - assert (nd_queued e = 0) as Eq by lia. exists l, []. rewrite app_nil_r. split; [lia|]. split; [done|]. split.
    + constructor; cbn; try done; [by left|]. exists [], (l ++ x). split; [done|]. split; [done|]. simpl. lia.
    + intros i a Hi. exists (fun u => u). cbn [eng_event null_engine]. unfold fio_null_event. cbn [nd_io_us]. rewrite Nat2Z.id, Hio.
      rewrite (lookup_app_l_Some _ _ _ _ Hi). done.
Qed.

#[export] Instance null_live : IoEngineLive null_data.
Proof.
  constructor. intros depth e held min max c g [= <-] [= <-] [Hroom Hd Hone Hsync (l & x & Hp & Hio & Hlen & Hq & He)] Hmin Hmax.
  pose proof (Permutation_length Hp) as HL. unfold fio_null_commit, fio_null_getevents.
  replace (negb (min =? 0)) with true by (symmetry; apply negb_true_iff, Z.eqb_neq; lia).
  destruct (Z.eqb_spec (nd_events e) 0) as [E0|E0]; eexists _, _, _, _; (split; [reflexivity|]); (split; [lia|]);
    (split; [reflexivity|]); cbn; lia.
Qed.
