(* ===== verification/IoSync.v ===== *)
(** Two engines of src/fio/engines/sync.c: psync, which completes every unit at once, as
    an instance of the contract of IoEngine.v, and vsync, which gathers units for one
    readv or writev.  What system calls answer is a sequence. *)
From S2P Require Import Prelude IoEngine.
#[local] Open Scope Z_scope.

(** What calls return, with errno, and how many were made. *)
Record calls : Type := mkCalls { answer : nat -> Z * Z; made : nat }.
Definition syscall (c : calls) : Z * Z * calls := (answer c (made c), mkCalls (answer c) (S (made c))).

Definition EINVAL : Z := 22.

(** * psync *)

Definition fio_io_end (u : io_u) (ret errno : Z) : io_u :=
  if negb (ret =? to_int (xfer_buflen u)) then
    if 0 <=? ret then with_result 0 (u32 (xfer_buflen u - ret)) u
    else with_result errno (resid u) u
  else u.

(** Each of the three syncs is one call; for a range without writes it answers 0. *)
Definition do_io_u_sync (u : io_u) (c : calls) : Z * Z * io_u * calls :=
  if ddir_sync (ddir u) then
    let '(r, errno, c') := syscall c in
    (r, errno, if r <? 0 then with_result errno (resid u) u else u, c')
  else (to_int (xfer_buflen u), 0, with_result EINVAL (resid u) u, c).

(** The call answers 0 or an error number. *)
Definition do_io_u_trim (u : io_u) (c : calls) : io_u * calls :=
  let '(r, _, c') := syscall c in
  (if r =? 0 then u else with_result r (resid u) u, c').

Definition fio_psyncio_queue (a : Z) (u : io_u) (c : calls) : option (Z * io_u * calls) :=
  if (ddir u =? DDIR_READ) || (ddir u =? DDIR_WRITE) then
    let '(r, errno, c') := syscall c in Some (FIO_Q_COMPLETED, fio_io_end u (to_int r) errno, c')
  else if ddir u =? DDIR_TRIM then
    let '(u', c') := do_io_u_trim u c in Some (FIO_Q_COMPLETED, u', c')
  else
    let '(r, errno, u', c') := do_io_u_sync u c in Some (FIO_Q_COMPLETED, fio_io_end u' r errno, c').

#[export] Instance psync_engine : IoEngine calls := {|
  eng_queue := fio_psyncio_queue;
  eng_commit := None;
  eng_getevents := None;
  eng_event := fun _ _ => None
|}.

Lemma with_result_same e r u : same_io (with_result e r u) u.
Proof. done. Qed.

Lemma io_end_same u ret errno : same_io (fio_io_end u ret errno) u.
Proof. unfold fio_io_end. destruct (negb _); [|done]. destruct (0 <=? ret); apply with_result_same. Qed.

(** It never holds a unit. *)
#[export] Program Instance psync_laws : IoEngineLaws calls := {| eng_ok := fun _ _ held => held = [] |}.
Next Obligation.
  intros depth e h k Hp. cbn. split; intros ->; [by apply Permutation_nil_l in Hp|by apply Permutation_nil_r in Hp].
Qed.
Next Obligation.
  intros depth c held a u -> _ _. cbn [eng_queue psync_engine]. unfold fio_psyncio_queue, do_io_u_trim, do_io_u_sync, syscall.
  destruct (answer c (made c)) as [r errno]. destruct (_ || _).
  { eexists _, _, _. split; [reflexivity|]. split; [apply io_end_same|]. split; [by left|done]. }
  destruct (ddir u =? DDIR_TRIM).
  { eexists _, _, _. split; [reflexivity|]. split; [by destruct (r =? 0)|]. split; [by left|done]. }
  destruct (ddir_sync (ddir u)).
  - eexists _, _, _. split; [reflexivity|]. split; [|split; [by left|done]].
    unfold same_io. rewrite (io_end_same _ r errno). by destruct (r <? 0).
  - eexists _, _, _. split; [reflexivity|]. split; [|split; [by left|done]].
    unfold same_io. by rewrite (io_end_same _ _ 0).
Qed.
Next Obligation. done. Qed.
Next Obligation. done. Qed.

(** A transfer of [r] bytes leaves the rest as resid. *)
Lemma psync_transfer a u c r errno : answer c (made c) = (r, errno) -> ddir u = DDIR_READ \/ ddir u = DDIR_WRITE ->
  error u = 0 -> resid u = 0 -> xfer_buflen u < 2 ^ 31 -> 0 <= r <= xfer_buflen u ->
  exists u' c', eng_queue a u c = Some (FIO_Q_COMPLETED, u', c') /\ error u' = 0 /\ resid u' = xfer_buflen u - r /\ xfer_buflen u' = xfer_buflen u.
Proof.
  intros Hr Hd He Hre Hl Hb. cbn [eng_queue psync_engine]. unfold fio_psyncio_queue, syscall. rewrite Hr.
  replace (_ || _) with true by (destruct Hd as [->| ->]; done). eexists _, _. split; [reflexivity|].
  assert (Hi : forall z, 0 <= z < 2 ^ 31 -> to_int z = z).
  { intros z Hz. unfold to_int, u32. rewrite Z.mod_small by lia. by rewrite (proj2 (Z.ltb_lt z (2 ^ 31))) by lia. }
  rewrite Hi by lia. unfold fio_io_end. rewrite Hi by lia. destruct (Z.eqb_spec r (xfer_buflen u)); cbn [negb].
  - split; [done|]. split; [lia|done].
  - rewrite (proj2 (Z.leb_le 0 r)) by lia. cbn. split; [done|]. split; [|done]. unfold u32. rewrite Z.mod_small; lia.
Qed.

(** * vsync *)

(** [sd_results]: what was written to units that are held; [sd_iodepth]: the option. *)
Record syncio_data : Type := mkSd {
  sd_iovecs : list Z;              (* lengths *)
  sd_io_us : list Z;
  sd_queued : Z;
  sd_events : Z;
  sd_queued_bytes : Z;
  sd_last_offset : Z;
  sd_last_file : Z;
  sd_last_ddir : Z;
  sd_results : gmap Z (Z * Z);
  sd_calls : calls;
  sd_iodepth : Z
}.

Definition fio_vsyncio_init (iodepth : Z) (c : calls) : syncio_data :=
  mkSd (replicate (Z.to_nat iodepth) 0) (replicate (Z.to_nat iodepth) 0) 0 0 0 (2 ^ 64 - 1) 0 0 ∅ c iodepth.

Definition fio_vsyncio_getevents (min max : Z) (sd : syncio_data) : option (Z * syncio_data) :=
  if negb (min =? 0) then
    Some (sd_events sd, mkSd (sd_iovecs sd) (sd_io_us sd) (sd_queued sd) 0 (sd_queued_bytes sd) (sd_last_offset sd) (sd_last_file sd) (sd_last_ddir sd) (sd_results sd) (sd_calls sd) (sd_iodepth sd))
  else Some (0, sd).

Definition fio_vsyncio_event (event : Z) (sd : syncio_data) : option (Z * (io_u -> io_u)) :=
  a ← sd_io_us sd !! Z.to_nat event;
  Some (a, match sd_results sd !! a with Some (e, r) => with_result e r | None => fun u => u end).

Definition fio_vsyncio_append (u : io_u) (sd : syncio_data) : bool :=
  if ddir_sync (ddir u) then false
  else (offset u =? sd_last_offset sd) && (file u =? sd_last_file sd) && (ddir u =? sd_last_ddir sd).

Definition fio_vsyncio_set_iov (a : Z) (u : io_u) (idx queued bytes : Z) (sd : syncio_data) : option syncio_data :=
  _ ← sd_io_us sd !! Z.to_nat idx;
  Some (mkSd (<[Z.to_nat idx := xfer_buflen u]> (sd_iovecs sd)) (<[Z.to_nat idx := a]> (sd_io_us sd)) (u32 (queued + 1)) (sd_events sd)
    (u64 (bytes + xfer_buflen u)) (u64 (offset u + xfer_buflen u)) (file u) (ddir u)
    (delete a (sd_results sd)) (sd_calls sd) (sd_iodepth sd)).

Definition with_calls (c : calls) (sd : syncio_data) : syncio_data :=
  mkSd (sd_iovecs sd) (sd_io_us sd) (sd_queued sd) (sd_events sd) (sd_queued_bytes sd) (sd_last_offset sd) (sd_last_file sd) (sd_last_ddir sd) (sd_results sd) c (sd_iodepth sd).

Definition fio_vsyncio_queue (a : Z) (u : io_u) (sd : syncio_data) : option (Z * io_u * syncio_data) :=
  if negb (fio_vsyncio_append u sd) then
    if negb (sd_queued sd =? 0) then Some (FIO_Q_BUSY, u, sd)
    else if ddir_sync (ddir u) then
      let '(r, errno, u', c) := do_io_u_sync u (sd_calls sd) in Some (FIO_Q_COMPLETED, fio_io_end u' r errno, with_calls c sd)
    else sd' ← fio_vsyncio_set_iov a u 0 0 0 sd; Some (FIO_Q_QUEUED, u, sd')
  else if sd_queued sd =? sd_iodepth sd then Some (FIO_Q_BUSY, u, sd)
  else sd' ← fio_vsyncio_set_iov a u (sd_queued sd) (sd_queued sd) (sd_queued_bytes sd) sd; Some (FIO_Q_QUEUED, u, sd').

(** The loop over the units from the [i]th on: the bytes that are left and what was
    written. *)
Fixpoint vsyncio_end_loop (n i : nat) (bytes err : Z) (sd : syncio_data) (res : gmap Z (Z * Z)) : option (Z * gmap Z (Z * Z)) :=
  match n with
  | O => Some (bytes, res)
  | S n' =>
      a ← sd_io_us sd !! i; len ← sd_iovecs sd !! i;
      if bytes =? -1 then vsyncio_end_loop n' (S i) bytes err sd (<[a := (err, 0)]> res)
      else
        let this_io := if len <? u32 bytes then len else u32 bytes in
        vsyncio_end_loop n' (S i) (bytes - this_io) err sd (<[a := (0, u32 (len - this_io))]> res)
  end.

Definition fio_vsyncio_end (bytes err : Z) (sd : syncio_data) : option (Z * syncio_data) :=
  if u64 bytes =? sd_queued_bytes sd then Some (0, sd)
  else
    '(bytes, res) ← vsyncio_end_loop (Z.to_nat (sd_queued sd)) 0 bytes err sd (sd_results sd);
    let sd := mkSd (sd_iovecs sd) (sd_io_us sd) (sd_queued sd) (sd_events sd) (sd_queued_bytes sd) (sd_last_offset sd) (sd_last_file sd) (sd_last_ddir sd) res (sd_calls sd) (sd_iodepth sd) in
    Some (if bytes =? -1 then - err else 0, sd).

(** lseek, then readv or writev. *)
Definition fio_vsyncio_commit (sd : syncio_data) : option (Z * syncio_data) :=
  if sd_queued sd =? 0 then Some (0, sd)
  else
    let '(pos, errno, c) := syscall (sd_calls sd) in
    if pos =? -1 then Some (- errno, with_calls c sd)
    else
      let '(ret, errno, c) := syscall c in
      fio_vsyncio_end ret errno
        (mkSd (sd_iovecs sd) (sd_io_us sd) 0 (sd_queued sd) (sd_queued_bytes sd) (sd_last_offset sd) (sd_last_file sd) (sd_last_ddir sd) (sd_results sd) c (sd_iodepth sd)).

#[export] Instance vsync_engine : IoEngine syncio_data := {|
  eng_queue := fio_vsyncio_queue;
  eng_commit := Some fio_vsyncio_commit;
  eng_getevents := Some fio_vsyncio_getevents;
  eng_event := fio_vsyncio_event
|}.

(** The number of queued units is reset before the loop that tells each of them what
    was transferred: whatever readv and writev answer, no unit hears of it. *)
Theorem vsync_results_lost sd ret sd' : fio_vsyncio_commit sd = Some (ret, sd') -> sd_results sd' = sd_results sd.
Proof.
  unfold fio_vsyncio_commit, fio_vsyncio_end, syscall. destruct (sd_queued sd =? 0); [by intros [= _ <-]|].
  destruct (answer _ _) as [pos errno]. destruct (pos =? -1); [by intros [= _ <-]|].
  destruct (answer _ (made _)) as [r errno2]. cbn. destruct (_ =? sd_queued_bytes sd); by intros [= _ <-].
Qed.

(** Two writes of 4096 bytes each, of which the system took 1000 in all: both units
    come back complete. *)
Definition short_write (off : Z) : io_u := mkU 0 1 DDIR_WRITE (-1) 0 0 4096 4096 0 off NoEnd false.
Definition short_calls : calls := mkCalls (fun n => if (n =? 0)%nat then (0, 0) else (1000, 0)) 0.

Lemma vsync_short_write_unseen :
  (sd0 ← Some (fio_vsyncio_init 2 short_calls);
   '(_, _, sd1) ← fio_vsyncio_queue 64 (short_write 0) sd0;
   '(_, _, sd2) ← fio_vsyncio_queue 128 (short_write 4096) sd1;
   '(r, sd3) ← fio_vsyncio_commit sd2;
   '(n, sd4) ← fio_vsyncio_getevents 2 2 sd3;
   '(a, f) ← fio_vsyncio_event 0 sd4; '(b, g) ← fio_vsyncio_event 1 sd4;
   Some (r, n, a, b, resid (f (short_write 0)), resid (g (short_write 4096)), made (sd_calls sd4))) =
  Some (0, 2, 64, 128, 0, 0, 2%nat).
Proof. vm_compute. reflexivity. Qed.
