(* ===== verification/IoLife.v ===== *)
(** The life of I/O units in one job of fio: the pool and its two queues
    (src/fio/io_u.c), submission and completion through an engine (ioengines.c,
    io_u.c), what becomes of a submitted unit (backend.c, io_queue_event), the
    references of files (filesetup.c, ioengines.c) and the errors of a job
    (td_error.c).  Threads that verify asynchronously take completed units from a
    list and return them (verify.c).  Statistics, issue times and the contents of
    buffers are left out; calls of the I/O history, which IoHist.v models, are
    recorded.  The job submits inline and does not lock files. *)
From S2P Require Import Prelude IouQueue IoEngine.
#[local] Open Scope Z_scope.

(** * State *)

(** Options of the job; [ignore_error] as td_non_fatal_error completes it. *)
Record job : Type := mkJob {
  iodepth : Z;
  iodepth_batch : Z;
  iodepth_batch_complete_min : Z;
  iodepth_batch_complete_max : Z;
  iodepth_low : Z;
  latency_target : bool;
  verify_async : bool;            (* td_async_processing *)
  serialize_overlap : bool;
  nonuniform : bool;              (* the file service type has __FIO_FSERVICE_NONUNIFORM *)
  td_write : bool;
  noio : bool;                    (* the engine has FIO_NOIO *)
  continue_on_error : Z;
  ignore_error : Z -> list Z;
  fill_device : bool;
  error_dump : bool
}.

Record jfile : Type := mkJf { f_open : bool; f_closing : bool; f_done : bool; f_fd : Z; f_refs : Z; f_size : Z }.

(** Counters of a job, each one per direction. *)
Inductive counter : Type :=
| io_issues | io_issue_bytes | rate_io_issue_bytes | io_blocks | this_io_blocks | io_bytes | this_io_bytes | bytes_done.

#[global] Instance counter_eq_dec : EqDecision counter.
Proof. solve_decision. Defined.

(** Calls of the history. *)
Inductive hist_call : Type := HTrim (a len : Z) | HUnlog (a : Z) | HDone (a : Z).

Record td (E : Type) : Type := mkTd {
  units : gmap Z io_u;
  io_u_freelist : io_u_queue;
  io_u_requeues : io_u_ring;
  io_u_all : list Z;
  verify_list : list Z;
  cur_depth : Z;
  io_u_queued : Z;
  io_u_in_flight : Z;
  latency_qd : Z;
  counts : counter -> Z -> Z;
  td_error : Z;
  total_err_count : Z;
  first_error : Z;
  last_was_sync : bool;
  last_ddir : Z;
  files : gmap Z jfile;
  nr_open_files : Z;
  nr_done_files : Z;
  terminate : bool;
  stop_io : bool;
  td_done : bool;
  hist : list hist_call;
  eng : E
}.
Arguments mkTd {E}.
Arguments units {E}. Arguments io_u_freelist {E}. Arguments io_u_requeues {E}. Arguments io_u_all {E}.
Arguments verify_list {E}. Arguments cur_depth {E}. Arguments io_u_queued {E}. Arguments io_u_in_flight {E}.
Arguments latency_qd {E}. Arguments counts {E}. Arguments td_error {E}. Arguments total_err_count {E}.
Arguments first_error {E}. Arguments last_was_sync {E}. Arguments last_ddir {E}. Arguments files {E}.
Arguments nr_open_files {E}. Arguments nr_done_files {E}. Arguments terminate {E}. Arguments stop_io {E}. Arguments td_done {E}. Arguments hist {E}. Arguments eng {E}.

Section Setters.
Context {E : Type}.
Implicit Types s : td E.

(** The parts of the state that operations change together. *)
Definition set_units (m : gmap Z io_u) s : td E :=
  mkTd m (io_u_freelist s) (io_u_requeues s) (io_u_all s) (verify_list s) (cur_depth s) (io_u_queued s) (io_u_in_flight s) (latency_qd s) (counts s) (td_error s) (total_err_count s) (first_error s) (last_was_sync s) (last_ddir s) (files s) (nr_open_files s) (nr_done_files s) (terminate s) (stop_io s) (td_done s) (hist s) (eng s).
Definition set_queues (q : io_u_queue) (r : io_u_ring) (v : list Z) s : td E :=
  mkTd (units s) q r (io_u_all s) v (cur_depth s) (io_u_queued s) (io_u_in_flight s) (latency_qd s) (counts s) (td_error s) (total_err_count s) (first_error s) (last_was_sync s) (last_ddir s) (files s) (nr_open_files s) (nr_done_files s) (terminate s) (stop_io s) (td_done s) (hist s) (eng s).
Definition set_depths (c q i : Z) s : td E :=
  mkTd (units s) (io_u_freelist s) (io_u_requeues s) (io_u_all s) (verify_list s) c q i (latency_qd s) (counts s) (td_error s) (total_err_count s) (first_error s) (last_was_sync s) (last_ddir s) (files s) (nr_open_files s) (nr_done_files s) (terminate s) (stop_io s) (td_done s) (hist s) (eng s).
Definition set_counts (c : counter -> Z -> Z) s : td E :=
  mkTd (units s) (io_u_freelist s) (io_u_requeues s) (io_u_all s) (verify_list s) (cur_depth s) (io_u_queued s) (io_u_in_flight s) (latency_qd s) c (td_error s) (total_err_count s) (first_error s) (last_was_sync s) (last_ddir s) (files s) (nr_open_files s) (nr_done_files s) (terminate s) (stop_io s) (td_done s) (hist s) (eng s).
Definition set_errors (e n f : Z) s : td E :=
  mkTd (units s) (io_u_freelist s) (io_u_requeues s) (io_u_all s) (verify_list s) (cur_depth s) (io_u_queued s) (io_u_in_flight s) (latency_qd s) (counts s) e n f (last_was_sync s) (last_ddir s) (files s) (nr_open_files s) (nr_done_files s) (terminate s) (stop_io s) (td_done s) (hist s) (eng s).
Definition set_last (w : bool) (d : Z) s : td E :=
  mkTd (units s) (io_u_freelist s) (io_u_requeues s) (io_u_all s) (verify_list s) (cur_depth s) (io_u_queued s) (io_u_in_flight s) (latency_qd s) (counts s) (td_error s) (total_err_count s) (first_error s) w d (files s) (nr_open_files s) (nr_done_files s) (terminate s) (stop_io s) (td_done s) (hist s) (eng s).
Definition set_files (m : gmap Z jfile) (no nd : Z) s : td E :=
  mkTd (units s) (io_u_freelist s) (io_u_requeues s) (io_u_all s) (verify_list s) (cur_depth s) (io_u_queued s) (io_u_in_flight s) (latency_qd s) (counts s) (td_error s) (total_err_count s) (first_error s) (last_was_sync s) (last_ddir s) m no nd (terminate s) (stop_io s) (td_done s) (hist s) (eng s).
Definition set_terminate s : td E :=
  mkTd (units s) (io_u_freelist s) (io_u_requeues s) (io_u_all s) (verify_list s) (cur_depth s) (io_u_queued s) (io_u_in_flight s) (latency_qd s) (counts s) (td_error s) (total_err_count s) (first_error s) (last_was_sync s) (last_ddir s) (files s) (nr_open_files s) (nr_done_files s) true (stop_io s) (td_done s) (hist s) (eng s).
Definition set_hist (h : list hist_call) s : td E :=
  mkTd (units s) (io_u_freelist s) (io_u_requeues s) (io_u_all s) (verify_list s) (cur_depth s) (io_u_queued s) (io_u_in_flight s) (latency_qd s) (counts s) (td_error s) (total_err_count s) (first_error s) (last_was_sync s) (last_ddir s) (files s) (nr_open_files s) (nr_done_files s) (terminate s) (stop_io s) (td_done s) h (eng s).
Definition set_eng (e : E) s : td E :=
  mkTd (units s) (io_u_freelist s) (io_u_requeues s) (io_u_all s) (verify_list s) (cur_depth s) (io_u_queued s) (io_u_in_flight s) (latency_qd s) (counts s) (td_error s) (total_err_count s) (first_error s) (last_was_sync s) (last_ddir s) (files s) (nr_open_files s) (nr_done_files s) (terminate s) (stop_io s) (td_done s) (hist s) e.
End Setters.

(** * The code *)

Section Code.
Context {E : Type} `{IoEngine E}.
Variable o : job.
(** What closing a file gives (fsync and the close hook). *)
Variable close_file : Z -> Z.

Definition EIO : Z := 5.
Definition EBUSY : Z := 16.
Definition ENOSPC : Z := 28.
Definition EILSEQ : Z := 84.

Definition get_u (a : Z) : M (td E) io_u := fun s => match units s !! a with Some u => Ret u s | None => Undef s end.
Definition put_u (a : Z) (u : io_u) : M (td E) unit := modify (fun s => set_units (<[a := u]> (units s)) s).
Definition upd_u (a : Z) (f : io_u -> io_u) : M (td E) unit := u ← get_u a; put_u a (f u).
Definition get_f (f : Z) : M (td E) jfile := fun s => match files s !! f with Some r => Ret r s | None => Undef s end.
Definition put_f (f : Z) (r : jfile) : M (td E) unit := modify (fun s => set_files (<[f := r]> (files s)) (nr_open_files s) (nr_done_files s) s).
Definition assert (b : bool) : M (td E) unit := if b then mret tt else exit_ 134.
Definition when (b : bool) (m : M (td E) unit) : M (td E) unit := if b then m else mret tt.
Definition add_count (c : counter) (d n : Z) : M (td E) unit :=
  modify (fun s => set_counts (fun c' d' => if decide (c' = c) then if d' =? d then u64 (counts s c d + n) else counts s c' d' else counts s c' d') s).
Definition add_depth (n : Z) : M (td E) unit :=
  modify (fun s => set_depths (u32 (cur_depth s + n)) (io_u_queued s) (io_u_in_flight s) s).
Definition call_hist (h : hist_call) : M (td E) unit := modify (fun s => set_hist (hist s ++ [h]) s).

(** ** Errors *)

Definition td_verror (e : Z) : M (td E) unit :=
  s ← get_st; when (td_error s =? 0) (put_st (set_errors e (total_err_count s) (first_error s) s)).
Definition td_clear_error : M (td E) unit := modify (fun s => set_errors 0 (total_err_count s) (first_error s) s).

Definition ERROR_TYPE_READ_BIT : Z := 0.
Definition ERROR_TYPE_WRITE_BIT : Z := 1.
Definition ERROR_TYPE_VERIFY_BIT : Z := 2.

Definition td_error_type (d err : Z) : Z :=
  if err =? EILSEQ then ERROR_TYPE_VERIFY_BIT
  else if d =? DDIR_READ then ERROR_TYPE_READ_BIT else ERROR_TYPE_WRITE_BIT.

Definition td_non_fatal_error (etype err : Z) : bool :=
  let ign := match ignore_error o etype with [] => [EIO; EILSEQ] | l => l end in
  if Z.land (continue_on_error o) (Z.shiftl 1 etype) =? 0 then false
  else bool_decide (err ∈ ign).

Definition update_error_count (err : Z) : M (td E) unit :=
  modify (fun s => let n := u64 (total_err_count s + 1) in set_errors (td_error s) n (if n =? 1 then err else first_error s) s).

(** ** Files *)

Definition get_file (f : Z) : M (td E) unit :=
  r ← get_f f; assert (f_open r);;
  put_f f (mkJf (f_open r) (f_closing r) (f_done r) (f_fd r) (f_refs r + 1) (f_size r)).

Definition put_file (f : Z) : M (td E) Z :=
  r ← get_f f;
  if negb (f_open r) then assert (f_fd r =? -1);; mret 0
  else
    assert (negb (f_refs r =? 0));;
    let n := f_refs r - 1 in
    if negb (n =? 0) then put_f f (mkJf (f_open r) (f_closing r) (f_done r) (f_fd r) n (f_size r));; mret 0
    else
      put_f f (mkJf false (f_closing r) (f_done r) (-1) n (f_size r));;
      modify (fun s => set_files (files s) (u32 (nr_open_files s - 1)) (nr_done_files s) s);;
      mret (close_file f).

Definition put_file_log (f : Z) : M (td E) unit :=
  ret ← put_file f; when (negb (ret =? 0)) (td_verror ret).

(** [fd]: what the open hook gives, -1 when it fails; [rest_ok]: whether what follows
    the opening (advice, invalidation, hints) succeeds. *)
Definition td_io_open_file (f : Z) (fd : Z) (rest_ok : bool) : M (td E) Z :=
  r ← get_f f;
  assert (negb (f_open r));; assert (f_fd r =? -1);;
  if fd =? -1 then mret 1
  else
    put_f f (mkJf true false (f_done r) fd (f_refs r) (f_size r));;
    modify (fun s => set_files (files s) (u32 (nr_open_files s + 1)) (nr_done_files s) s);;
    get_file f;;
    if rest_ok then mret 0
    else
      r' ← get_f f;
      put_f f (mkJf (f_open r') (f_closing r') (f_done r') (-1) (f_refs r') (f_size r'));;
      mret 1.

Definition td_io_close_file (f : Z) : M (td E) Z :=
  r ← get_f f;
  put_f f (mkJf (f_open r) true (f_done r) (f_fd r) (f_refs r) (f_size r));;
  put_file f.

(** ** The pool *)

Definition push_free (a : Z) : M (td E) unit := fun s =>
  match io_u_qpush (io_u_freelist s) a with
  | Some q => Ret tt (set_queues q (io_u_requeues s) (verify_list s) s)
  | None => Exit 134 s
  end.

Definition put_io_u (a : Z) : M (td E) unit :=
  u ← get_u a;
  when (negb (file u =? 0) && negb (has IO_U_F_NO_FILE_PUT u)) (put_file_log (file u));;
  let u := io_u_set IO_U_F_FREE (with_file 0 u) in
  put_u a u;;
  when (has IO_U_F_IN_CUR_DEPTH u) (add_depth (-1));;
  push_free a.

Definition clear_io_u (a : Z) : M (td E) unit := upd_u a (io_u_clear IO_U_F_FLIGHT);; put_io_u a.

Definition push_requeue (a : Z) : M (td E) unit := fun s =>
  match io_u_rpush (io_u_requeues s) a with
  | Some r => Ret tt (set_queues (io_u_freelist s) r (verify_list s) s)
  | None => Exit 134 s
  end.

Definition requeue_io_u (a : Z) : M (td E) unit :=
  u ← get_u a;
  let d := acct_ddir u in
  let u := io_u_set IO_U_F_FREE u in
  when (has IO_U_F_FLIGHT u && ddir_rw d) (add_count io_issues d (-1));;
  let u := io_u_clear IO_U_F_FLIGHT u in
  put_u a u;;
  when (has IO_U_F_IN_CUR_DEPTH u) (add_depth (-1));;
  push_requeue a.

Definition queue_full (s : td E) : bool :=
  if io_u_qempty (io_u_freelist s) then true
  else if negb (latency_target o) then false
  else latency_qd s <=? cur_depth s.

(** [Wait]: the thread waits for a thread that verifies to return a unit. *)
Inductive got : Type := Got (a : Z) | GotNone | Wait.

Definition __get_io_u : M (td E) got :=
  s ← get_st;
  if stop_io s then mret GotNone else
  a ← (if negb (io_u_rempty (io_u_requeues s)) then
         match io_u_rpop (io_u_requeues s) with
         | Some (a, r) => put_st (set_queues (io_u_freelist s) r (verify_list s) s);; mret a
         | None => undef
         end
       else if negb (queue_full s) then
         match io_u_qpop (io_u_freelist s) with
         | Some (a, q) =>
             put_st (set_queues q (io_u_requeues s) (verify_list s) s);;
             upd_u a (fun u => with_end NoEnd (with_range (offset u) 0 (with_result (error u) 0 (with_file 0 u))));;
             mret a
         | None => undef
         end
       else mret 0);
  if negb (a =? 0) then
    u ← get_u a;
    assert (has IO_U_F_FREE u);;
    let u := io_u_clear (Z.lor IO_U_F_FREE (Z.lor IO_U_F_NO_FILE_PUT (Z.lor IO_U_F_TRIMMED (Z.lor IO_U_F_BARRIER IO_U_F_VER_LIST)))) u in
    put_u a (with_ipo false (io_u_set IO_U_F_IN_CUR_DEPTH (with_ddir (ddir u) (-1) (with_result 0 (resid u) u))));;
    add_depth 1;;
    mret (Got a)
  else if verify_async o then mret Wait else mret GotNone.

(** ** The engine *)

Definition call_commit : M (td E) Z := fun s =>
  match eng_commit with
  | None => Ret 0 s
  | Some c => match c (eng s) with Some (r, e) => Ret r (set_eng e s) | None => Undef s end
  end.

Definition td_io_commit : M (td E) Z :=
  s ← get_st;
  if (cur_depth s =? 0) || (io_u_queued s =? 0) then mret 0
  else
    ret ← call_commit;
    when (negb (ret =? 0)) (td_verror (- ret));;
    modify (fun s => set_depths (cur_depth s) 0 (u32 (io_u_in_flight s + io_u_queued s)) s);;
    mret 0.

Definition call_getevents (min max : Z) : M (td E) Z := fun s =>
  match eng_getevents with
  | None => Ret 0 s
  | Some g => match g min max (eng s) with Some (r, e) => Ret r (set_eng e s) | None => Undef s end
  end.

Definition td_io_getevents (min max : Z) : M (td E) Z :=
  s ← get_st;
  if td_done s then mret 0 else
  r ← (if (0 <? min) && (match eng_commit with Some _ => true | None => false end) then call_commit else mret 0);
  r ← (if r <? 0 then mret r
       else
         s ← get_st;
         let max := if cur_depth s <? max then cur_depth s else max in
         let max := if max <? min then min else max in
         if negb (max =? 0) then call_getevents min max else mret 0);
  (if 0 <=? r then modify (fun s => set_depths (cur_depth s) (io_u_queued s) (u32 (io_u_in_flight s - r)) s)
   else td_verror r);;
  mret r.

Definition call_queue (a : Z) : M (td E) Z := fun s =>
  match units s !! a with
  | None => Undef s
  | Some u => match eng_queue a u (eng s) with
              | Some (ret, u', e) => Ret ret (set_eng e (set_units (<[a := u']> (units s)) s))
              | None => Undef s
              end
  end.

(** fio_ro_check *)
Definition fio_ro_check (u : io_u) : M (td E) unit := assert (negb ((ddir u =? DDIR_WRITE) && negb (td_write o))).

Definition td_io_queue (a : Z) : M (td E) Z :=
  u ← get_u a;
  let d := acct_ddir u in
  let len := xfer_buflen u in
  fio_ro_check u;;
  assert (negb (has IO_U_F_FLIGHT u));;
  let u := io_u_set IO_U_F_FLIGHT u in
  f ← get_f (file u);
  assert (f_open f);;
  put_u a (with_result 0 0 u);;
  when (ddir_rw d) (add_count io_issues d 1;; add_count io_issue_bytes d len;; add_count rate_io_issue_bytes d len);;
  ret ← call_queue a;
  when ((ret =? FIO_Q_BUSY) && ddir_rw d)
    (add_count io_issues d (-1);; add_count io_issue_bytes d (- len);; add_count rate_io_issue_bytes d (- len);;
     upd_u a (io_u_clear IO_U_F_FLIGHT));;
  u ← get_u a;
  when (negb (error u =? 0)) (td_verror (error u));;
  if ret =? FIO_Q_QUEUED then
    modify (fun s => set_depths (cur_depth s) (u32 (io_u_queued s + 1)) (io_u_in_flight s) s);;
    s ← get_st;
    if iodepth_batch o <=? io_u_queued s then
      r ← td_io_commit; mret (if r <? 0 then r else ret)
    else mret ret
  else mret ret.

(** ** Completion *)

(** What verify_io_u (Verify.v) finds of a unit. *)
Variable verify_io_u : Z -> io_u -> Z.

Definition verify_io_u_async (a : Z) : M (td E) unit :=
  u ← get_u a;
  when (negb (file u =? 0)) (put_file_log (file u));;
  u ← get_u a;
  when (has IO_U_F_IN_CUR_DEPTH u) (add_depth (-1);; put_u a (io_u_clear IO_U_F_IN_CUR_DEPTH u));;
  modify (fun s => set_queues (io_u_freelist s) (io_u_requeues s) (verify_list s ++ [a]) s).

Definition unlog_io_piece (a : Z) : M (td E) unit :=
  u ← get_u a; when (ipo u) (call_hist (HUnlog a);; put_u a (with_ipo false u)).
Definition trim_io_piece (a : Z) : M (td E) unit :=
  u ← get_u a; when (ipo u) (call_hist (HTrim a (xfer_buflen u - resid u))).

(** struct io_completion_data: the error and the bytes done. *)
Definition icd : Type := Z * (Z -> Z).
Definition icd_add (c : icd) (d n : Z) : icd := (fst c, fun d' => if d' =? d then snd c d + n else snd c d').

(** The end_io hook: its result, and whether the unit is still the caller's. *)
Definition call_end_io (a : Z) : M (td E) (Z * bool) :=
  u ← get_u a;
  match end_io u with
  | NoEnd => mret (0, true)
  | VerifySync => mret (verify_io_u a u, true)
  | VerifyAsync => verify_io_u_async a;; mret (0, false)
  end.

(** What __io_u_log_error does to the job. *)
Definition io_u_log_error (u : io_u) : M (td E) unit :=
  when (negb (td_non_fatal_error (td_error_type (ddir u) (error u)) (error u) && negb (error_dump o))) (td_verror (error u)).

Definition io_completed (a : Z) (c : icd) : M (td E) (bool * icd) :=
  u ← get_u a;
  let d := ddir u in
  assert (has IO_U_F_FLIGHT u);;
  put_u a (io_u_clear (Z.lor IO_U_F_FLIGHT IO_U_F_BUSY_OK) u);;
  when (ipo u) (if negb (error u =? 0) then unlog_io_piece a else call_hist (HDone a));;
  if ddir_sync d then
    modify (fun s => set_last true (last_ddir s) s);; mret (true, c)
  else
    modify (set_last false d);;
    '(mine, c) ← (if (error u =? 0) && ddir_rw d then
        let bytes := u32 (buflen u - resid u) in
        add_count io_blocks d 1;; add_count this_io_blocks d 1;; add_count io_bytes d bytes;;
        when (negb (has IO_U_F_VER_LIST u)) (add_count this_io_bytes d bytes);;
        let c := icd_add c d bytes in
        '(ret, mine) ← call_end_io a;
        mret (mine, if negb (ret =? 0) && (fst c =? 0) then (ret, snd c) else c)
      else if negb (error u =? 0) then io_u_log_error u;; mret (true, (error u, snd c))
      else mret (true, c));
    if negb (fst c =? 0) then
      if negb (td_non_fatal_error (td_error_type d (fst c)) (fst c)) then mret (mine, c)
      else
        update_error_count (fst c);;
        td_clear_error;;
        when mine (upd_u a (fun u => with_result 0 (resid u) u));;
        mret (mine, (0, snd c))
    else mret (mine, c).

Definition call_event (i : Z) : M (td E) Z := fun s =>
  match eng_event i (eng s) with
  | None => Undef s
  | Some (a, f) => match units s !! a with
                   | Some u => Ret a (set_units (<[a := f u]> (units s)) s)
                   | None => Undef s
                   end
  end.

(** [n] events from the [i]th on. *)
Fixpoint ios_completed (n : nat) (i : Z) (c : icd) : M (td E) icd :=
  match n with
  | O => mret c
  | S n' =>
      a ← call_event i;
      '(mine, c) ← io_completed a c;
      when mine (put_io_u a);;
      ios_completed n' (i + 1) c
  end.

Definition init_icd : icd := (0, fun _ => 0).

Definition add_bytes_done (c : icd) : M (td E) unit :=
  add_count bytes_done DDIR_READ (snd c DDIR_READ);; add_count bytes_done DDIR_WRITE (snd c DDIR_WRITE);;
  add_count bytes_done DDIR_TRIM (snd c DDIR_TRIM).

Definition io_u_sync_complete (a : Z) : M (td E) Z :=
  '(mine, c) ← io_completed a init_icd;
  when mine (put_io_u a);;
  if negb (fst c =? 0) then td_verror (fst c);; mret (-1)
  else add_bytes_done c;; mret 0.

Definition io_u_queued_complete (min_evts : Z) : M (td E) Z :=
  s ← get_st;
  let min_evts := if cur_depth s <? min_evts then cur_depth s else min_evts in
  ret ← td_io_getevents min_evts (iodepth_batch_complete_max o);
  if ret <? 0 then td_verror (- ret);; mret ret
  else if ret =? 0 then mret ret
  else
    c ← ios_completed (Z.to_nat ret) 0 init_icd;
    if negb (fst c =? 0) then td_verror (fst c);; mret (-1)
    else add_bytes_done c;; mret ret.

Fixpoint quiesce_loop (fuel : nat) (completed : Z) : M (td E) Z :=
  match fuel with
  | O => fun s => Diverge s
  | S fuel' =>
      s ← get_st;
      if io_u_in_flight s =? 0 then mret completed
      else ret ← io_u_queued_complete 1; quiesce_loop fuel' (if 0 <? ret then completed + ret else completed)
  end.

Definition io_u_quiesce (fuel : nat) : M (td E) Z :=
  s ← get_st;
  when (negb (io_u_queued s =? 0) || negb (cur_depth s =? 0)) (td_io_commit;; mret tt);;
  quiesce_loop fuel 0.

(** ** What becomes of a submitted unit *)

(** Whether the loop of the job ends, and what *ret becomes. *)
Definition break_on_this_error (d ret : Z) : M (td E) (bool * Z) :=
  s ← get_st;
  if (ret <? 0) || negb (td_error s =? 0) then
    let err := if ret <? 0 then - ret else td_error s in
    let eb := td_error_type d err in
    if Z.land (continue_on_error o) (Z.shiftl 1 eb) =? 0 then mret (true, ret)
    else if td_non_fatal_error eb err then update_error_count err;; td_clear_error;; mret (false, 0)
    else if fill_device o && (err =? ENOSPC) then td_clear_error;; modify set_terminate;; mret (true, ret)
    else update_error_count err;; mret (true, ret)
  else mret (false, ret).

(** A unit that the engine completed at once: the new *ret, and whether the switch
    is left by break. *)
Definition queue_event_completed (a ret : Z) (from_verify : bool) : M (td E) (bool * Z) :=
  u ← get_u a;
  if negb (error u =? 0) then clear_io_u a;; mret (negb from_verify, - error u)
  else
    let sync_done := ret ← io_u_sync_complete a; mret ((ret <? 0) || negb from_verify, ret) in
    if negb (resid u =? 0) then
      let bytes := to_int (xfer_buflen u - resid u) in
      when (negb from_verify) (trim_io_piece a);;
      if bytes =? 0 then
        when (negb from_verify) (unlog_io_piece a);;
        td_verror EIO;; put_io_u a;; mret (true, ret)
      else
        upd_u a (fun u => with_xfer (resid u) (xfer_buf u + bytes) (u64 (offset u + bytes)) u);;
        f ← get_f (file u);
        if u64 (offset u + bytes) =? f_size f then sync_done
        else requeue_io_u a;; mret (negb from_verify, ret)
    else sync_done.

(** The result, *ret, and what is added to *bytes_issued. *)
Definition io_queue_event (a ret d : Z) (from_verify : bool) : M (td E) (bool * Z * Z) :=
  if ret =? FIO_Q_COMPLETED then
    u ← get_u a;
    let issued := if (error u =? 0) && negb (resid u =? 0) then to_int (xfer_buflen u - resid u) else 0 in
    '(brk, ret) ← queue_event_completed a ret from_verify;
    if (brk : bool) then '(b, ret) ← break_on_this_error d ret; mret (b, ret, issued) else mret (false, ret, issued)
  else if ret =? FIO_Q_QUEUED then
    u ← get_u a;
    '(b, ret) ← break_on_this_error d ret; mret (b, ret, xfer_buflen u)
  else if ret =? FIO_Q_BUSY then
    when (negb from_verify) (unlog_io_piece a);;
    requeue_io_u a;;
    ret2 ← td_io_commit;
    '(b, ret) ← break_on_this_error d (if ret2 <? 0 then ret2 else ret); mret (b, ret, 0)
  else
    assert (ret <? 0);;
    td_verror (- ret);;
    '(b, ret) ← break_on_this_error d ret; mret (b, ret, 0).

(** Whether the range of a unit meets that of one in flight. *)
Fixpoint in_flight_overlap (q : list Z) (m : gmap Z io_u) (u : io_u) : bool :=
  match q with
  | [] => false
  | b :: q' =>
      match m !! b with
      | Some v =>
          if has IO_U_F_FLIGHT v && (offset u <? u64 (offset v + buflen v)) && (offset v <? u64 (offset u + buflen u)) then true
          else in_flight_overlap q' m u
      | None => in_flight_overlap q' m u
      end
  end.

Definition io_u_submit (a : Z) : M (td E) Z :=
  u ← get_u a; s ← get_st;
  if serialize_overlap o && (1 <? cur_depth s) && in_flight_overlap (io_u_all s) (units s) u then mret FIO_Q_BUSY
  else td_io_queue a.

Fixpoint wait_loop (fuel : nat) (full : bool) (min_evts : Z) : M (td E) Z :=
  match fuel with
  | O => fun s => Diverge s
  | S fuel' =>
      ret ← io_u_queued_complete min_evts;
      s ← get_st;
      if (ret <? 0) || negb (full && (iodepth_low o <? cur_depth s)) then mret ret else wait_loop fuel' full min_evts
  end.

Definition wait_for_completions (fuel : nat) : M (td E) Z :=
  s ← get_st;
  let full := queue_full s in
  let min_evts := Z.min (iodepth_batch_complete_min o) (cur_depth s) in
  let min_evts := if (full && (min_evts =? 0)) || (iodepth_batch_complete_min o =? 0) then 1 else min_evts in
  wait_loop fuel full min_evts.

(** ** Filling a unit *)

(** A file and how it comes to be open: what td_io_open_file meets if it is not. *)
Record pick : Type := mkPick { p_file : Z; p_fd : Z; p_rest_ok : bool }.

Definition ensure_open (p : pick) : M (td E) bool :=
  r ← get_f (p_file p);
  if f_open r then mret true
  else e ← td_io_open_file (p_file p) (p_fd p) (p_rest_ok p); mret (e =? 0).

(** What get_next_verify does to the unit, for a piece at [off] of [len]; a unit that is
    submitted again keeps what it has. *)
Definition fill_verify (a : Z) (p : pick) (off len : Z) (trimmed : bool) : M (td E) bool :=
  u ← get_u a;
  if negb (file u =? 0) then mret true else
  upd_u a (fun u =>
    let u := io_u_set IO_U_F_VER_LIST (with_file (p_file p) (with_range off len u)) in
    if trimmed then io_u_set IO_U_F_TRIMMED u else u);;
  ok ← ensure_open p;
  if ok : bool then
    get_file (p_file p);;
    upd_u a (fun u => with_xfer (buflen u) 0 (offset u) (with_ddir DDIR_READ (acct u) u));; mret true
  else mret false.

(** What get_next_trim does to the unit. *)
Definition fill_trim (a : Z) (p : pick) (off len : Z) : M (td E) bool :=
  u ← get_u a;
  if negb (file u =? 0) then mret true else
  upd_u a (fun u => with_file (p_file p) (with_range off len u));;
  ok ← ensure_open p;
  if ok : bool then
    get_file (p_file p);;
    upd_u a (fun u => with_xfer (buflen u) 0 (offset u) (with_ddir DDIR_TRIM (acct u) u));; mret true
  else mret false.

(** One turn of set_io_u_file: the file, whether the rate makes the job sleep, and what
    fill_io_u (IouOffset.v) gives: a direction, an offset and a length, or nothing. *)
Record turn : Type := mkTurn { t_pick : pick; t_sleep : bool; t_fill : option (Z * Z * Z) }.

(** [stop]: what the choice of a file gives after these turns, 0 for a null pointer. *)
Fixpoint set_io_u_file (fuel : nat) (a : Z) (turns : list turn) (stop : Z) : M (td E) Z :=
  match turns with
  | [] => mret stop
  | t :: turns' =>
      let f := p_file (t_pick t) in
      ok ← ensure_open (t_pick t);
      if ok : bool then
        upd_u a (with_file f);;
        get_file f;;
        when (t_sleep t) (io_u_quiesce fuel;; mret tt);;
        match t_fill t with
        | Some (d, off, len) => upd_u a (fun u => with_range off len (with_ddir d d u));; mret 0
        | None =>
            put_file_log f;;
            td_io_close_file f;;
            upd_u a (with_file 0);;
            (if nonuniform o then mret tt
             else r ← get_f f;
                  put_f f (mkJf (f_open r) (f_closing r) true (f_fd r) (f_refs r) (f_size r));;
                  modify (fun s => set_files (files s) (nr_open_files s) (u32 (nr_done_files s + 1)) s));;
            set_io_u_file fuel a turns' stop
        end
      else set_io_u_file fuel a turns' stop
  end.

(** What is chosen for a unit: a piece to verify, a piece to trim, files to take; and the
    result of the prep hook. *)
Record choice : Type := mkChoice {
  c_verify : option (pick * Z * Z * bool);
  c_trim : option (pick * Z * Z);
  c_turns : list turn;
  c_stop : Z;
  c_prep : Z
}.

(** The unit or a null pointer or an error. *)
Inductive unit_or_err : Type := TheUnit (a : Z) | TheErr (e : Z) | MustWait.

Definition err_put (a e : Z) : M (td E) unit_or_err := put_io_u a;; mret (TheErr e).

Definition prep_or_put (a : Z) (c : choice) (e : Z) : M (td E) unit_or_err :=
  u ← get_u a;
  assert (negb (file u =? 0));;
  fio_ro_check u;;
  if c_prep c =? 0 then mret (TheUnit a) else err_put a e.

Definition get_io_u (fuel : nat) (c : choice) : M (td E) unit_or_err :=
  g ← __get_io_u;
  match g with
  | Wait => mret MustWait
  | GotNone => mret (TheErr 0)
  | Got a =>
      v ← (match c_verify c with Some (p, off, len, trimmed) => fill_verify a p off len trimmed | None => mret false end);
      if v : bool then prep_or_put a c 0 else
      t ← (match c_trim c with Some (p, off, len) => fill_trim a p off len | None => mret false end);
      if t : bool then prep_or_put a c 0 else
      u ← get_u a;
      if negb (file u =? 0) then prep_or_put a c 0 else
      r ← set_io_u_file fuel a (c_turns c) (c_stop c);
      if negb (r =? 0) then err_put a (- EBUSY) else
      u ← get_u a;
      if file u =? 0 then err_put a 0 else
      f ← get_f (file u);
      assert (f_open f);;
      if ddir_rw (ddir u) && (buflen u =? 0) && negb (noio o) then err_put a 0
      else
        put_u a (with_xfer (buflen u) 0 (offset u) u);;
        prep_or_put a c 0
  end.

(** ** Syncing a file, and the threads that verify *)

Definition fio_io_sync_done (a ret : Z) : M (td E) bool :=
  u ← get_u a;
  if ret <? 0 then td_verror (error u);; put_io_u a;; mret true
  else if ret =? FIO_Q_QUEUED then
    r ← td_io_commit;
    if negb (r =? 0) then mret true else
    r ← io_u_queued_complete 1; mret (r <? 0)
  else
    if negb (error u =? 0) then td_verror (error u);; mret true
    else r ← io_u_sync_complete a; mret (r <? 0).

Fixpoint sync_queue (fuel : nat) (a : Z) : M (td E) bool :=
  match fuel with
  | O => fun s => Diverge s
  | S fuel' =>
      ret ← td_io_queue a;
      if ret =? FIO_Q_BUSY then
        r ← td_io_commit;
        if negb (r =? 0) then mret true else sync_queue fuel' a
      else fio_io_sync_done a ret
  end.

Definition fio_io_sync (fuel : nat) (f : Z) (prep : Z) : M (td E) bool :=
  g ← __get_io_u;
  match g with
  | Got a =>
      upd_u a (fun u => with_file f (with_ddir DDIR_SYNC (acct u) u));;
      if negb (prep =? 0) then put_io_u a;; mret true else sync_queue fuel a
  | GotNone => mret true
  | Wait => fun s => Diverge s
  end.

(** The list that a thread takes. *)
Definition verify_take : M (td E) (list Z) :=
  s ← get_st; put_st (set_queues (io_u_freelist s) (io_u_requeues s) [] s);; mret (verify_list s).

(** One unit of its list: the result is what the thread goes on with. *)
Definition verify_one (a : Z) : M (td E) Z :=
  upd_u a (io_u_set IO_U_F_NO_FILE_PUT);;
  u ← get_u a;
  let ret := verify_io_u a u in
  put_io_u a;;
  if ret =? 0 then mret 0
  else if td_non_fatal_error ERROR_TYPE_VERIFY_BIT ret then update_error_count ret;; td_clear_error;; mret 0
  else mret ret.

(** The units of a job, at [addr] 0, 1, ... *)
Fixpoint init_units (n : nat) (i : nat) (addr : nat -> Z) (s : td E) : option (td E) :=
  match n with
  | O => Some s
  | S n' =>
      q ← io_u_qpush (io_u_freelist s) (addr i);
      let u := mkU IO_U_F_FREE 0 0 0 0 0 0 0 0 0 NoEnd false in
      let s := set_queues q (io_u_requeues s) (verify_list s) (set_units (<[addr i := u]> (units s)) s) in
      init_units n' (S i) addr
        (mkTd (units s) (io_u_freelist s) (io_u_requeues s) (io_u_all s ++ [addr i]) (verify_list s) (cur_depth s) (io_u_queued s) (io_u_in_flight s) (latency_qd s) (counts s) (td_error s) (total_err_count s) (first_error s) (last_was_sync s) (last_ddir s) (files s) (nr_open_files s) (nr_done_files s) (terminate s) (stop_io s) (td_done s) (hist s) (eng s))
  end.

Definition init_io_u (addr : nat -> Z) (fs : gmap Z jfile) (e : E) : option (td E) :=
  init_units (Z.to_nat (iodepth o)) 0 addr
    (mkTd ∅ (io_u_qinit (iodepth o)) (io_u_rinit (iodepth o)) [] [] 0 0 0 (iodepth o) (fun _ _ => 0) 0 0 0 false 0 fs 0 0 false false false [] e).
End Code.
