(* ===== verification/IoLifeInv.v ===== *)
(** The invariant of the life of I/O units: every unit is in exactly one place, with the
    flags of that place; the counters of the job agree with the places; a file has a
    reference for being open and one for each unit that uses it.  Every operation of
    IoLife.v keeps it. *)
From S2P Require Import Prelude IouQueue IoEngine IoLife.
#[local] Open Scope Z_scope.

(** * Flags *)

Lemma has_bit i u : 0 <= i -> has (2 ^ i) u = Z.testbit (flags u) i.
Proof.
  intros Hi. unfold has. rewrite <- Z.shiftl_1_l. destruct (Z.testbit (flags u) i) eqn:E.
  - apply negb_true_iff, Z.eqb_neq. intros H. apply (f_equal (fun z => Z.testbit z i)) in H.
    rewrite Z.land_spec, E, Z.shiftl_spec, Z.sub_diag, Z.bits_0 in H by lia. done.
  - apply negb_false_iff, Z.eqb_eq, Z.bits_inj'. intros j Hj. rewrite Z.land_spec, Z.bits_0.
    destruct (Z.eq_dec i j) as [<-|Hne]; [by rewrite E|]. rewrite Z.shiftl_1_l, Z.pow2_bits_false by lia. apply andb_false_r.
Qed.

Lemma has_set i f u : 0 <= i -> has (2 ^ i) (io_u_set f u) = has (2 ^ i) u || Z.testbit f i.
Proof. intros Hi. rewrite !has_bit by done. unfold io_u_set, with_flags. cbn [flags]. apply Z.lor_spec. Qed.

Lemma has_clear i f u : 0 <= i -> has (2 ^ i) (io_u_clear f u) = has (2 ^ i) u && negb (Z.testbit f i).
Proof. intros Hi. rewrite !has_bit by done. unfold io_u_clear, with_flags. cbn [flags]. rewrite Z.land_spec, Z.lnot_spec by done. done. Qed.

(** The four flags that places are told apart by. *)
Record uflags : Type := mkFl { fl_free : bool; fl_flight : bool; fl_noput : bool; fl_in : bool }.
Definition uf (u : io_u) : uflags :=
  mkFl (has IO_U_F_FREE u) (has IO_U_F_FLIGHT u) (has IO_U_F_NO_FILE_PUT u) (has IO_U_F_IN_CUR_DEPTH u).
Arguments uf : simpl never.

Lemma uf_set f u : uf (io_u_set f u) =
  mkFl (fl_free (uf u) || Z.testbit f 0) (fl_flight (uf u) || Z.testbit f 1) (fl_noput (uf u) || Z.testbit f 2) (fl_in (uf u) || Z.testbit f 3).
Proof.
  unfold uf. cbn [fl_free fl_flight fl_noput fl_in].
  f_equal; [apply (has_set 0)|apply (has_set 1)|apply (has_set 2)|apply (has_set 3)]; lia.
Qed.

Lemma uf_clear f u : uf (io_u_clear f u) =
  mkFl (fl_free (uf u) && negb (Z.testbit f 0)) (fl_flight (uf u) && negb (Z.testbit f 1)) (fl_noput (uf u) && negb (Z.testbit f 2)) (fl_in (uf u) && negb (Z.testbit f 3)).
Proof.
  unfold uf. cbn [fl_free fl_flight fl_noput fl_in].
  f_equal; [apply (has_clear 0)|apply (has_clear 1)|apply (has_clear 2)|apply (has_clear 3)]; lia.
Qed.

(** Evaluate the flags of a unit that was changed. *)
Ltac ucbn :=
  repeat (rewrite uf_set || rewrite uf_clear ||
    match goal with
    | |- context [uf (with_file ?f ?u)] => change (uf (with_file f u)) with (uf u)
    | |- context [uf (with_result ?e ?r ?u)] => change (uf (with_result e r u)) with (uf u)
    | |- context [uf (with_ddir ?d ?a ?u)] => change (uf (with_ddir d a u)) with (uf u)
    | |- context [uf (with_xfer ?l ?b ?z ?u)] => change (uf (with_xfer l b z u)) with (uf u)
    | |- context [uf (with_range ?z ?l ?u)] => change (uf (with_range z l u)) with (uf u)
    | |- context [uf (with_end ?e ?u)] => change (uf (with_end e u)) with (uf u)
    | |- context [uf (with_ipo ?i ?u)] => change (uf (with_ipo i u)) with (uf u)
    end); unfold IO_U_F_FREE, IO_U_F_FLIGHT, IO_U_F_NO_FILE_PUT, IO_U_F_IN_CUR_DEPTH, IO_U_F_BUSY_OK,
  IO_U_F_TRIMMED, IO_U_F_BARRIER, IO_U_F_VER_LIST; cbn;
  repeat (rewrite orb_false_r || rewrite orb_true_r || rewrite andb_false_r || rewrite andb_true_r); cbn.

Lemma uf_flags u v : flags u = flags v -> uf u = uf v.
Proof. intros H. unfold uf, has. by rewrite H. Qed.

(** * Places *)

Inductive place : Type := PFree | PReq | PVer | PEng | PMain.

Definition u_ok (p : place) (u : io_u) : Prop :=
  match p with
  | PFree => fl_free (uf u) = true /\ fl_flight (uf u) = false /\ file u = 0
  | PReq => fl_free (uf u) = true /\ fl_flight (uf u) = false /\ fl_noput (uf u) = false /\ file u <> 0
  | PVer => fl_flight (uf u) = false /\ fl_in (uf u) = false
  | PEng => fl_flight (uf u) = true /\ fl_in (uf u) = true /\ fl_noput (uf u) = false /\ file u <> 0
  | PMain => fl_in (uf u) = true /\ fl_noput (uf u) = false
  end.

Definition uat (P : io_u -> Prop) (m : gmap Z io_u) (a : Z) : Prop := exists u, m !! a = Some u /\ P u.

Lemma uat_insert P m a u l : a ∉ l -> Forall (uat P m) l -> Forall (uat P (<[a := u]> m)) l.
Proof.
  intros Ha Hl. rewrite Forall_forall in *. intros b Hb. destruct (Hl b Hb) as (v & Hv & HP).
  exists v. split; [|done]. rewrite lookup_insert_ne; [done|]. by intros ->.
Qed.

Lemma uat_same P m m' l : (forall b, b ∈ l -> m' !! b = m !! b) -> Forall (uat P m) l -> Forall (uat P m') l.
Proof.
  intros Hs Hl. rewrite Forall_forall in *. intros b Hb. destruct (Hl b Hb) as (v & Hv & HP). exists v. by rewrite Hs.
Qed.

(** How many units of a list use a file. *)
Definition uses (m : gmap Z io_u) (a f : Z) : Z := if bool_decide ((file <$> m !! a) = Some f) then 1 else 0.
Fixpoint users (m : gmap Z io_u) (l : list Z) (f : Z) : Z :=
  match l with [] => 0 | a :: l' => uses m a f + users m l' f end.

Lemma uses_nonneg m a f : 0 <= uses m a f.
Proof. unfold uses. destruct (bool_decide _); lia. Qed.

Lemma users_nonneg m l f : 0 <= users m l f.
Proof. induction l as [|a l IH]; simpl; [lia|]. pose proof (uses_nonneg m a f). lia. Qed.

Lemma users_app m l k f : users m (l ++ k) f = users m l f + users m k f.
Proof. induction l as [|a l IH]; simpl; lia. Qed.

#[global] Instance users_perm m : Proper ((≡ₚ) ==> eq ==> eq) (users m).
Proof. intros l k Hp f ? <-. induction Hp; simpl; lia. Qed.

Lemma users_same m m' l f : (forall b, b ∈ l -> m' !! b = m !! b) -> users m' l f = users m l f.
Proof.
  induction l as [|a l IH]; intros Hs; [done|]. simpl. rewrite IH by (intros b Hb; apply Hs; by right).
  unfold uses. rewrite Hs by (by left). done.
Qed.

Lemma users_insert m a u l f : a ∉ l -> users (<[a := u]> m) l f = users m l f.
Proof. intros Ha. apply users_same. intros b Hb. rewrite lookup_insert_ne; [done|]. by intros ->. Qed.

Lemma uses_insert m a u f : uses (<[a := u]> m) a f = if file u =? f then 1 else 0.
Proof.
  unfold uses. rewrite lookup_insert_eq. cbn. destruct (Z.eqb_spec (file u) f) as [->|Hne].
  - by rewrite bool_decide_eq_true_2.
  - rewrite bool_decide_eq_false_2; [done|]. congruence.
Qed.

Lemma uses_file m a u f : m !! a = Some u -> uses m a f = if file u =? f then 1 else 0.
Proof. intros Ha. rewrite <- (uses_insert m a u), insert_id by done. done. Qed.

(** * Files *)

(** [n] units use the file. *)
Definition refs_of (r : jfile) (n : Z) : Prop :=
  if f_open r then f_refs r = (if f_closing r then 0 else 1) + n /\ 0 < f_refs r
  else n = 0 /\ f_refs r = 0 /\ f_fd r = -1.

(** Files outside of [C] exist and are not closing while they are open. *)
Definition refs_ok (C : Z -> Prop) (fs : gmap Z jfile) (cnt : Z -> Z) : Prop :=
  forall f, f <> 0 -> match fs !! f with
    | Some r => refs_of r (cnt f) /\ (f_open r = true -> f_closing r = true -> C f)
    | None => cnt f = 0 /\ C f
    end.

(** * The invariant *)

Record places : Type := mkPl {
  g_free : list Z; g_req : list Z; g_vl : list Z; g_vt : list Z; g_eng : list Z; g_main : list Z
}.
Definition everywhere (G : places) : list Z := g_free G ++ g_req G ++ g_vl G ++ g_vt G ++ g_eng G ++ g_main G.
Definition referring (G : places) : list Z := g_req G ++ g_eng G ++ g_main G.

Section Inv.
Context {E : Type} {IE : IoEngine E} {IL : IoEngineLaws E}.
Variable o : job.
(** The files that do not exist or may be closing. *)
Variable C : Z -> Prop.
(** A job that does not write has no unit that writes. *)
Definition wok (u : io_u) : Prop := ddir u = DDIR_WRITE -> td_write o = true.

Record life (G : places) (s : td E) : Prop := {
  li_all : everywhere G ≡ₚ io_u_all s;
  li_nodup : NoDup (io_u_all s);
  li_nonnull : 0 ∉ io_u_all s;
  li_len : Z.of_nat (length (io_u_all s)) = iodepth o;
  li_free : stack_ok (g_free G) (io_u_freelist s);
  li_qmax : q_max (io_u_freelist s) = iodepth o;
  li_req : ring_ok (g_req G) (io_u_requeues s);
  li_rmax : iodepth o < r_max (io_u_requeues s);
  li_vl : verify_list s = g_vl G;
  li_eng : eng_ok (Z.to_nat (iodepth o)) (eng s) (g_eng G);
  li_depth : cur_depth s = Z.of_nat (length (g_eng G) + length (g_main G));
  li_flight : (io_u_queued s + io_u_in_flight s) mod 2 ^ 32 = Z.of_nat (length (g_eng G));
  li_fits : fits 32 (io_u_queued s) /\ fits 32 (io_u_in_flight s);
  li_ufree : Forall (uat (u_ok PFree) (units s)) (g_free G);
  li_ureq : Forall (uat (u_ok PReq) (units s)) (g_req G);
  li_uvl : Forall (uat (u_ok PVer) (units s)) (g_vl G);
  li_uvt : Forall (uat (u_ok PVer) (units s)) (g_vt G);
  li_ueng : Forall (uat (u_ok PEng) (units s)) (g_eng G);
  li_umain : Forall (uat (u_ok PMain) (units s)) (g_main G);
  li_ro : map_Forall (fun _ u => wok u) (units s);
  li_refs : refs_ok C (files s) (users (units s) (referring G));
  li_done : td_done s = false
}.

(** ** Files *)

(** The states that differ in the files and the errors only. *)
Definition files_only (s s' : td E) : Prop :=
  s' = set_errors (td_error s') (total_err_count s') (first_error s')
         (set_files (files s') (nr_open_files s') (nr_done_files s') s).

Lemma files_only_refl s : files_only s s.
Proof using. by destruct s. Qed.

Lemma files_only_trans s1 s2 s3 : files_only s1 s2 -> files_only s2 s3 -> files_only s1 s3.
Proof using. unfold files_only. intros H2 H3. rewrite H3 at 1. rewrite H2 at 1. reflexivity. Qed.

Lemma refs_ok_ext D fs cnt cnt' : (forall f, f <> 0 -> cnt f = cnt' f) -> refs_ok D fs cnt -> refs_ok D fs cnt'.
Proof using. intros Hc Hr f Hf. rewrite <- Hc by done. by apply Hr. Qed.

Lemma refs_insert (D D' : Z -> Prop) fs cnt f r cnt' : refs_ok D fs cnt -> refs_of r (cnt' f) -> (f_open r = true -> f_closing r = true -> D' f) ->
  (forall g, g <> f -> cnt' g = cnt g) -> (forall g, g <> f -> D g -> D' g) ->
  refs_ok D' (<[f := r]> fs) cnt'.
Proof using.
  intros Hr Hf HD Hg HDD g Hg0. destruct (decide (g = f)) as [->|Hne].
  - rewrite lookup_insert_eq. by split.
  - rewrite lookup_insert_ne, Hg by done. specialize (Hr g Hg0). destruct (fs !! g); destruct Hr as [Hr HC]; (split; [done|]); auto.
Qed.

Definition less (f : Z) (cnt : Z -> Z) : Z -> Z := fun g => if g =? f then cnt g - 1 else cnt g.
Definition more (f : Z) (cnt : Z -> Z) : Z -> Z := fun g => if g =? f then cnt g + 1 else cnt g.

Lemma less_eq f cnt : less f cnt f = cnt f - 1.
Proof using. unfold less. by rewrite Z.eqb_refl. Qed.
Lemma less_ne f cnt g : g <> f -> less f cnt g = cnt g.
Proof using. intros Hg. unfold less. by rewrite (proj2 (Z.eqb_neq g f)). Qed.
Lemma more_eq f cnt : more f cnt f = cnt f + 1.
Proof using. unfold more. by rewrite Z.eqb_refl. Qed.
Lemma more_ne f cnt g : g <> f -> more f cnt g = cnt g.
Proof using. intros Hg. unfold more. by rewrite (proj2 (Z.eqb_neq g f)). Qed.

Lemma get_f_run f r (s : td E) : files s !! f = Some r -> get_f f s = Ret r s.
Proof using. intros Hf. unfold get_f. by rewrite Hf. Qed.

Lemma get_u_run a u (s : td E) : units s !! a = Some u -> get_u a s = Ret u s.
Proof using. intros Ha. unfold get_u. by rewrite Ha. Qed.

Lemma upd_u_run a u f (s : td E) : units s !! a = Some u -> upd_u a f s = Ret tt (set_units (<[a := f u]> (units s)) s).
Proof using. intros Ha. unfold upd_u. by erewrite bind_Ret by (by apply get_u_run). Qed.

Lemma get_file_eq f r (s : td E) : files s !! f = Some r -> f_open r = true ->
  get_file f s = Ret tt (set_files (<[f := mkJf (f_open r) (f_closing r) (f_done r) (f_fd r) (f_refs r + 1) (f_size r)]> (files s)) (nr_open_files s) (nr_done_files s) s).
Proof using. intros Hf Ho. unfold get_file. erewrite bind_Ret by (by apply get_f_run). cbv beta. by rewrite Ho. Qed.

Variable close_file : Z -> Z.

(** Dropping a reference, with the counts of the result. *)
Lemma put_file_run D f s r n cnt' : files s !! f = Some r -> f_open r = true -> refs_ok D (files s) n ->
  0 < f_refs r -> (forall g, g <> f -> cnt' g = n g) -> (f_closing r = true -> D f) -> (f_refs r = 1 -> cnt' f = 0) ->
  (f_refs r <> 1 -> f_refs r - 1 = (if f_closing r then 0 else 1) + cnt' f) ->
  exists ret s', put_file close_file f s = Ret ret s' /\ files_only s s' /\ refs_ok D (files s') cnt' /\ is_Some (files s' !! f).
Proof using.
  intros Hf Ho Hn Hpos Hne HC H1 H2. unfold put_file, get_f. erewrite bind_Ret by (rewrite Hf; reflexivity); cbv beta. rewrite Ho. cbn [negb].
  unfold assert. destruct (Z.eqb_spec (f_refs r) 0) as [|_]; [lia|]. cbn [negb]. mstep. cbv zeta.
  destruct (Z.eqb_spec (f_refs r - 1) 0) as [E1|E1]; cbn [negb].
  - unfold put_f. mstep. mstep. eexists _, _. split; [reflexivity|]. split; [reflexivity|]. split; [|eexists; apply lookup_insert_eq]. cbn [files set_files].
    eapply refs_insert; [exact Hn| |done..]. unfold refs_of. cbn. split; [apply H1; lia|]. lia.
  - unfold put_f. mstep. eexists _, _. split; [reflexivity|]. split; [reflexivity|]. split; [|eexists; apply lookup_insert_eq]. cbn [files set_files].
    eapply refs_insert; [exact Hn| |intros _; exact HC|done..]. unfold refs_of. cbn. split; [apply H2; lia|lia].
Qed.

Lemma td_verror_run e s : exists s', td_verror e s = Ret tt s' /\ files_only s s' /\ files s' = files s.
Proof using. unfold td_verror. mstep. unfold when. destruct (td_error s =? 0); eexists; (split; [reflexivity|]); (split; [|done]); [reflexivity|apply files_only_refl]. Qed.

Lemma put_file_log_run D f s cnt : f <> 0 -> refs_ok D (files s) cnt -> 0 < cnt f ->
  exists s', put_file_log close_file f s = Ret tt s' /\ files_only s s' /\ refs_ok D (files s') (less f cnt).
Proof using.
  intros Hf0 Hr Hpos. pose proof (Hr f Hf0) as Hf. destruct (files s !! f) as [r|] eqn:Ef; [|lia].
  destruct Hf as [Hf HC]. unfold refs_of in Hf. destruct (f_open r) eqn:Eo; [|lia].
  destruct (put_file_run D f s r cnt (less f cnt) Ef Eo Hr) as (ret & s' & E1 & F1 & R1 & _).
  - lia.
  - apply less_ne.
  - by apply HC.
  - intros H1. rewrite less_eq. destruct (f_closing r); lia.
  - intros _. rewrite less_eq. lia.
  - unfold put_file_log. erewrite bind_Ret by exact E1. unfold when. destruct (negb (ret =? 0)).
    + destruct (td_verror_run ret s') as (s2 & E2 & F2 & F2'). rewrite E2. eexists. split; [reflexivity|].
      split; [by eapply files_only_trans|]. by rewrite F2'.
    + by exists s'.
Qed.

Lemma get_file_run D f s r cnt : files s !! f = Some r -> f_open r = true -> refs_ok D (files s) cnt -> f <> 0 ->
  exists s', get_file f s = Ret tt s' /\ files_only s s' /\ refs_ok D (files s') (more f cnt) /\
    exists r', files s' !! f = Some r' /\ f_open r' = true /\ f_closing r' = f_closing r.
Proof using.
  intros Hf Ho Hr Hf0. unfold get_file, get_f. erewrite bind_Ret by (rewrite Hf; reflexivity); cbv beta. rewrite Ho. mstep. unfold put_f.
  eexists. split; [reflexivity|]. split; [reflexivity|]. cbn [files set_files modify]. split.
  - pose proof (Hr f Hf0) as Hrf. rewrite Hf in Hrf. destruct Hrf as [Hrf HC]. unfold refs_of in Hrf. rewrite Ho in Hrf.
    eapply refs_insert; [exact Hr| |cbn; intros _; by apply HC|apply more_ne|done]. unfold refs_of. cbn. rewrite more_eq. lia.
  - eexists. split; [apply lookup_insert_eq|]. done.
Qed.

Lemma td_io_close_file_run D f s r cnt : files s !! f = Some r -> f_open r = true -> f_closing r = false ->
  refs_ok D (files s) cnt -> f <> 0 ->
  exists ret s', td_io_close_file close_file f s = Ret ret s' /\ files_only s s' /\ refs_ok (fun g => g = f \/ D g) (files s') cnt /\ is_Some (files s' !! f).
Proof using.
  intros Hf Ho Hc Hr Hf0. unfold td_io_close_file, get_f. erewrite bind_Ret by (rewrite Hf; reflexivity); cbv beta. unfold put_f. mstep.
  pose proof (Hr f Hf0) as Hrf. rewrite Hf in Hrf. destruct Hrf as [Hrf _]. unfold refs_of in Hrf. rewrite Ho, Hc in Hrf.
  set (r1 := mkJf (f_open r) true (f_done r) (f_fd r) (f_refs r) (f_size r)).
  set (s1 := set_files (<[f := r1]> (files s)) (nr_open_files s) (nr_done_files s) s).
  destruct (put_file_run (fun g => g = f \/ D g) f s1 r1 (more f cnt) cnt) as (ret & s' & E1 & F1 & R1 & S1).
  - apply lookup_insert_eq.
  - done.
  - cbn [files s1 set_files]. eapply refs_insert; [exact Hr| |by left|apply more_ne|by right]. unfold refs_of. cbn. rewrite Ho, more_eq. lia.
  - cbn. lia.
  - intros g Hg. by rewrite more_ne.
  - by left.
  - cbn. intros H1. lia.
  - cbn. intros H1. lia.
  - exists ret, s'. split; [exact E1|]. split; [|done]. eapply files_only_trans; [|exact F1]. reflexivity.
Qed.

Lemma td_io_open_file_run D f fd ok s r cnt : f <> 0 -> refs_ok D (files s) cnt -> files s !! f = Some r -> f_open r = false ->
  exists e s', td_io_open_file f fd ok s = Ret e s' /\ files_only s s' /\ refs_ok D (files s') cnt /\
    (e = 0 -> exists r', files s' !! f = Some r' /\ f_open r' = true) /\ (fd <> -1 -> ok = true -> e = 0).
Proof using.
  intros Hf0 Hr Hf Eo. pose proof (Hr _ Hf0) as Hrf. rewrite Hf in Hrf. destruct Hrf as [Hrf _]. unfold refs_of in Hrf. rewrite Eo in Hrf.
  destruct Hrf as (Hc & Hr0 & Hfd). unfold td_io_open_file.
  erewrite bind_Ret by (by apply get_f_run); cbv beta. rewrite Eo, Hfd. mstep. mstep.
  destruct (Z.eqb_spec fd (-1)) as [Efd|Efd].
  { exists 1, s. split; [done|]. split; [apply files_only_refl|]. split; [done|]. split; [lia|done]. }
  assert (R2 : forall d, refs_ok D (<[f := mkJf true false (f_done r) d (f_refs r + 1) (f_size r)]> (files s)) cnt).
  { intros d. eapply refs_insert; [exact Hr| |done..]. unfold refs_of. cbn. lia. }
  mstep. mstep. erewrite bind_Ret by (eapply get_file_eq; [cbn; apply lookup_insert_eq|done]). cbv beta. cbn [f_open f_closing f_done f_fd f_refs f_size].
  destruct ok.
  - eexists _, _. split; [reflexivity|]. split; [reflexivity|]. cbn. rewrite insert_insert_eq. split; [apply R2|].
    split; [|done]. intros _. eexists. split; [apply lookup_insert_eq|]. done.
  - erewrite bind_Ret by (eapply get_f_run; cbn; apply lookup_insert_eq). mstep.
    eexists _, _. split; [reflexivity|]. split; [reflexivity|]. cbn. rewrite !insert_insert_eq. split; [apply R2|done].
Qed.

Lemma ensure_open_run D p s cnt : p_file p <> 0 -> refs_ok D (files s) cnt -> is_Some (files s !! p_file p) ->
  exists ok s', ensure_open p s = Ret ok s' /\ files_only s s' /\ refs_ok D (files s') cnt /\
    (ok = true -> exists r, files s' !! p_file p = Some r /\ f_open r = true) /\
    (p_fd p <> -1 -> p_rest_ok p = true -> ok = true).
Proof using.
  intros Hf0 Hr [r Hf]. unfold ensure_open. erewrite bind_Ret by (by eapply get_f_run); cbv beta.
  destruct (f_open r) eqn:Eo.
  { exists true, s. split; [done|]. split; [apply files_only_refl|]. split; [done|]. split; [|done]. intros _. by exists r. }
  destruct (td_io_open_file_run D (p_file p) (p_fd p) (p_rest_ok p) s r cnt Hf0 Hr Hf Eo) as (e & s' & E1 & F1 & R1 & Ho & Hok).
  erewrite bind_Ret by exact E1. cbv beta. eexists _, _. split; [reflexivity|]. split; [done|]. split; [done|]. split.
  - intros He. apply Z.eqb_eq in He. by apply Ho.
  - intros H1 H2. by rewrite Hok.
Qed.

(** ** Moving units *)

Hypothesis Hdepth : 0 < iodepth o < 2 ^ 31.

Lemma apart G s a l : life G s -> everywhere G ≡ₚ a :: l -> (a ∉ l) /\ a <> 0.
Proof using.
  intros L Hp. pose proof (li_all _ _ L) as Ha. pose proof (li_nodup _ _ L) as Hn. rewrite <- Ha, Hp in Hn.
  apply NoDup_cons in Hn as [Hn _]. split; [done|]. intros E0. apply (li_nonnull _ _ L). rewrite <- E0, <- Ha, Hp. by left.
Qed.

Lemma apart_main fr rq vl vt en a mn s : life (mkPl fr rq vl vt en (a :: mn)) s ->
  (a ∉ fr) /\ (a ∉ rq) /\ (a ∉ vl) /\ (a ∉ vt) /\ (a ∉ en) /\ (a ∉ mn) /\ a <> 0.
Proof using.
  intros L. destruct (apart _ _ a (fr ++ rq ++ vl ++ vt ++ en ++ mn) L) as [Ha Hz]; [unfold everywhere; cbn; solve_Permutation|].
  rewrite !not_elem_of_app in Ha. destruct Ha as (A1 & A2 & A3 & A4 & A5 & A6). done.
Qed.

Lemma apart_vt fr rq vl vt en a mn s : life (mkPl fr rq vl (a :: vt) en mn) s ->
  (a ∉ fr) /\ (a ∉ rq) /\ (a ∉ vl) /\ (a ∉ vt) /\ (a ∉ en) /\ (a ∉ mn) /\ a <> 0.
Proof using.
  intros L. destruct (apart _ _ a (fr ++ rq ++ vl ++ vt ++ en ++ mn) L) as [Ha Hz]; [unfold everywhere; cbn; solve_Permutation|].
  rewrite !not_elem_of_app in Ha. destruct Ha as (A1 & A2 & A3 & A4 & A5 & A6). done.
Qed.

(** The room that is left for a unit that is not in a list. *)
Lemma life_lengths fr rq vl vt en mn s : life (mkPl fr rq vl vt en mn) s ->
  Z.of_nat (length fr + length rq + length vl + length vt + length en + length mn) = iodepth o.
Proof using.
  intros L. rewrite <- (li_len _ _ L). rewrite <- (Permutation_length (li_all _ _ L)). unfold everywhere. cbn. rewrite !length_app. lia.
Qed.

Lemma life_perm fr rq vl vt en mn vt' en' mn' s : vt ≡ₚ vt' -> en ≡ₚ en' -> mn ≡ₚ mn' ->
  life (mkPl fr rq vl vt en mn) s -> life (mkPl fr rq vl vt' en' mn') s.
Proof using.
  intros Hv He Hm []. constructor; cbn in *; try done.
  - unfold everywhere in *. cbn in *. by rewrite <- Hv, <- He, <- Hm.
  - by rewrite <- He.
  - by rewrite <- He, <- Hm.
  - by rewrite <- He.
  - by rewrite <- Hv.
  - by rewrite <- He.
  - by rewrite <- Hm.
  - eapply refs_ok_ext; [|exact li_refs0]. intros f _. unfold referring. cbn. by rewrite He, Hm.
Qed.

Lemma life_files_only G s s' : life G s -> files_only s s' -> refs_ok C (files s') (users (units s) (referring G)) -> life G s'.
Proof using. intros [] F R. unfold files_only in F. rewrite F. by constructor; cbn. Qed.

(** A new state of a unit in hand, and of the files. *)
Lemma life_main_upd fr rq vl vt en a mn s s1 u' : life (mkPl fr rq vl vt en (a :: mn)) s -> u_ok PMain u' -> wok u' -> files_only s s1 ->
  refs_ok C (files s1) (users (<[a := u']> (units s)) (rq ++ en ++ a :: mn)) ->
  life (mkPl fr rq vl vt en (a :: mn)) (set_units (<[a := u']> (units s1)) s1).
Proof using.
  intros L Hu Hw F Hr. destruct (apart_main _ _ _ _ _ _ _ _ L) as (H1 & H2 & H3 & H4 & H5 & H6 & H7).
  unfold files_only in F. rewrite F in Hr |- *. cbn [files set_files set_errors units] in Hr.
  destruct L. constructor; cbn in *; try done; try by apply uat_insert.
  - constructor; [exists u'; by rewrite lookup_insert_eq|]. apply Forall_cons in li_umain0 as [_ ?]. by apply uat_insert.
  - by apply map_Forall_insert_2.
Qed.

Lemma users_main m rq en a mn u' f : (a ∉ rq) -> (a ∉ en) -> (a ∉ mn) ->
  users (<[a := u']> m) (rq ++ en ++ a :: mn) f = users m (rq ++ en ++ mn) f + (if file u' =? f then 1 else 0).
Proof using.
  intros Hr He Hm. rewrite !users_app. simpl. rewrite !users_insert, uses_insert by done. lia.
Qed.

(** The same with the file kept. *)
Lemma life_main_same fr rq vl vt en a mn s u u' : life (mkPl fr rq vl vt en (a :: mn)) s -> units s !! a = Some u ->
  u_ok PMain u' -> file u' = file u -> ddir u' = ddir u -> life (mkPl fr rq vl vt en (a :: mn)) (set_units (<[a := u']> (units s)) s).
Proof using.
  intros L Ha Hu Hf Hd. eapply life_main_upd; [done..| |apply files_only_refl|].
  { unfold wok. rewrite Hd. exact (li_ro _ _ L a u Ha). } destruct (apart_main _ _ _ _ _ _ _ _ L) as (H1 & H2 & H3 & H4 & H5 & H6 & H7).
  eapply refs_ok_ext; [|exact (li_refs _ _ L)]. intros f _. rewrite users_main by done.
  unfold referring. cbn. rewrite !users_app. simpl. rewrite (uses_file _ _ u) by done. rewrite Hf. lia.
Qed.

(** What operations on one unit leave as it is. *)
Definition frame (a : Z) (s s' : td E) : Prop :=
  eng s' = eng s /\ (forall b, b <> a -> units s' !! b = units s !! b) /\
  io_u_queued s' = io_u_queued s /\ io_u_in_flight s' = io_u_in_flight s /\ td_done s' = td_done s /\ stop_io s' = stop_io s.

Lemma frame_trans a s1 s2 s3 : frame a s1 s2 -> frame a s2 s3 -> frame a s1 s3.
Proof using.
  intros (A1 & A2 & A3 & A4 & A5 & A6) (B1 & B2 & B3 & B4 & B5 & B6). unfold frame.
  split; [congruence|]. split; [intros b Hb; rewrite B2 by done; by apply A2|]. repeat split; congruence.
Qed.

Lemma frame_files a s s' : files_only s s' -> frame a s s'.
Proof using. intros F. unfold files_only in F. rewrite F. done. Qed.

Lemma frame_units a u s : frame a s (set_units (<[a := u]> (units s)) s).
Proof using. repeat split. intros b Hb. by apply lookup_insert_ne. Qed.

(** A unit in hand that has dropped its file goes to the free units. *)
Lemma push_free_run fr rq vl vt en a mn s : life (mkPl fr rq vl vt en (a :: mn)) s -> uat (u_ok PFree) (units s) a ->
  exists q, push_free a (set_depths (u32 (cur_depth s + -1)) (io_u_queued s) (io_u_in_flight s) s) =
      Ret tt (set_queues q (io_u_requeues s) (verify_list s) (set_depths (u32 (cur_depth s + -1)) (io_u_queued s) (io_u_in_flight s) s)) /\
    life (mkPl (a :: fr) rq vl vt en mn)
      (set_queues q (io_u_requeues s) (verify_list s) (set_depths (u32 (cur_depth s + -1)) (io_u_queued s) (io_u_in_flight s) s)).
Proof using Hdepth.
  intros L Ha. pose proof (life_lengths _ _ _ _ _ _ _ L) as HL. cbn [length] in HL.
  destruct (proj1 (qpush_run fr (io_u_freelist s) a (li_free _ _ L))) as (q & E1 & S1 & M1).
  { rewrite (li_qmax _ _ L). lia. }
  exists q. unfold push_free. cbn [io_u_freelist set_depths]. rewrite E1. split; [done|].
  destruct (apart_main _ _ _ _ _ _ _ _ L) as (H1 & H2 & H3 & H4 & H5 & H6 & H7).
  destruct L. constructor; cbn in *; try done.
  - rewrite <- li_all0. unfold everywhere. cbn. solve_Permutation.
  - by rewrite M1.
  - rewrite li_depth0. unfold u32. rewrite Z.mod_small; lia.
  - by constructor.
  - by apply Forall_cons in li_umain0 as [_ ?].
  - eapply refs_ok_ext; [|exact li_refs0]. intros f Hf0. unfold referring. cbn. rewrite !users_app. simpl.
    destruct Ha as (u & Hu & _ & _ & Hf). rewrite (uses_file _ _ u), Hf by done. destruct (Z.eqb_spec 0 f); lia.
Qed.

Lemma main_unit fr rq vl vt en a mn s : life (mkPl fr rq vl vt en (a :: mn)) s ->
  exists u, units s !! a = Some u /\ u_ok PMain u.
Proof using. intros L. pose proof (li_umain _ _ L) as Hm. by apply Forall_inv in Hm. Qed.

(** A unit in hand refers to its file. *)
Lemma main_users fr rq vl vt en a mn s u f : life (mkPl fr rq vl vt en (a :: mn)) s -> units s !! a = Some u ->
  users (units s) (rq ++ en ++ a :: mn) f = users (units s) (rq ++ en ++ mn) f + (if file u =? f then 1 else 0).
Proof using.
  intros L Ha. destruct (apart_main _ _ _ _ _ _ _ _ L) as (H1 & H2 & H3 & H4 & H5 & H6 & H7).
  rewrite <- (users_main (units s) rq en a mn u) by done. by rewrite insert_id.
Qed.

(** Dropping the file of a unit in hand, which becomes [u']. *)
Lemma drop_file_run fr rq vl vt en a mn s u u' : life (mkPl fr rq vl vt en (a :: mn)) s -> units s !! a = Some u ->
  u_ok PMain u' -> file u' = 0 -> ddir u' = ddir u ->
  exists s1, when (negb (file u =? 0)) (put_file_log close_file (file u)) s = Ret tt s1 /\ files_only s s1 /\
    life (mkPl fr rq vl vt en (a :: mn)) (set_units (<[a := u']> (units s1)) s1).
Proof using.
  intros L Ha Hu' Hf' Hd'. destruct (apart_main _ _ _ _ _ _ _ _ L) as (H1 & H2 & H3 & H4 & H5 & H6 & H7).
  pose proof (li_refs _ _ L) as Hr. unfold referring in Hr. cbn in Hr.
  unfold when. destruct (Z.eqb_spec (file u) 0) as [E0|E0]; cbn [negb].
  - exists s. split; [done|]. split; [apply files_only_refl|]. apply (life_main_same _ _ _ _ _ _ _ _ u); [done..|congruence|done].
  - destruct (put_file_log_run C (file u) s _ E0 Hr) as (s1 & E1 & F1 & R1).
    { rewrite (main_users _ _ _ _ _ _ _ _ _ _ L Ha), Z.eqb_refl. pose proof (users_nonneg (units s) (rq ++ en ++ mn) (file u)). lia. }
    exists s1. split; [done|]. split; [done|]. eapply life_main_upd; [done..| |done|].
    { unfold wok. rewrite Hd'. exact (li_ro _ _ L a u Ha). }
    eapply refs_ok_ext; [|exact R1]. intros f Hf. rewrite users_main by done. rewrite Hf'. unfold less.
    rewrite (main_users _ _ _ _ _ _ _ _ _ _ L Ha). rewrite (Z.eqb_sym f). destruct (Z.eqb_spec (file u) f), (Z.eqb_spec 0 f); lia.
Qed.

(** The state of a unit after [put_io_u]. *)
Lemma put_io_u_run fr rq vl vt en a mn s u : life (mkPl fr rq vl vt en (a :: mn)) s -> units s !! a = Some u ->
  has IO_U_F_FLIGHT u = false ->
  exists s', put_io_u close_file a s = Ret tt s' /\ life (mkPl (a :: fr) rq vl vt en mn) s' /\ frame a s s'.
Proof using Hdepth.
  intros L Ha Hfl. destruct (main_unit _ _ _ _ _ _ _ _ L) as (u0 & Hu0 & Hin & Hnp). rewrite Ha in Hu0. injection Hu0 as <-.
  set (u' := io_u_set IO_U_F_FREE (with_file 0 u)).
  assert (Hu' : u_ok PMain u' /\ u_ok PFree u').
  { unfold u', u_ok. rewrite !uf_set, !(uf_flags (with_file 0 u) u) by done. ucbn. done. }
  destruct Hu' as [Hu' Huf].
  destruct (drop_file_run _ _ _ _ _ _ _ _ u u' L Ha Hu' eq_refl eq_refl) as (s1 & E1 & F1 & L1).
  unfold put_io_u. erewrite bind_Ret by (by apply get_u_run). cbv beta.
  replace (has IO_U_F_NO_FILE_PUT u) with false by (symmetry; exact Hnp). rewrite andb_true_r.
  erewrite bind_Ret by exact E1. cbv beta zeta. fold u'. mstep.
  replace (has IO_U_F_IN_CUR_DEPTH u') with true by (symmetry; apply Hu'). cbn [when]. mstep.
  destruct (push_free_run _ _ _ _ _ _ _ _ L1) as (q & E2 & L2).
  { exists u'. split; [apply lookup_insert_eq|done]. }
  eexists. split; [exact E2|]. split; [exact L2|]. eapply frame_trans; [by apply frame_files|].
  repeat split. intros b Hb. cbn. by apply lookup_insert_ne.
Qed.

(** Parts of the state that the invariant is not about. *)
Lemma life_counts G c s : life G s -> life G (set_counts c s).
Proof using. intros []. by constructor. Qed.
Lemma life_hist G h s : life G s -> life G (set_hist h s).
Proof using. intros []. by constructor. Qed.
Lemma life_last G w d s : life G s -> life G (set_last w d s).
Proof using. intros []. by constructor. Qed.
Lemma life_errors G e n f s : life G s -> life G (set_errors e n f s).
Proof using. intros []. by constructor. Qed.
Lemma life_terminate G s : life G s -> life G (set_terminate s).
Proof using. intros []. by constructor. Qed.
Hint Resolve life_counts life_hist life_last life_errors life_terminate : nvs.

(** A unit in hand that keeps its file goes to the ring. *)
Lemma push_requeue_run fr rq vl vt en a mn s : life (mkPl fr rq vl vt en (a :: mn)) s -> uat (u_ok PReq) (units s) a ->
  exists r, push_requeue a (set_depths (u32 (cur_depth s + -1)) (io_u_queued s) (io_u_in_flight s) s) =
      Ret tt (set_queues (io_u_freelist s) r (verify_list s) (set_depths (u32 (cur_depth s + -1)) (io_u_queued s) (io_u_in_flight s) s)) /\
    life (mkPl fr (rq ++ [a]) vl vt en mn)
      (set_queues (io_u_freelist s) r (verify_list s) (set_depths (u32 (cur_depth s + -1)) (io_u_queued s) (io_u_in_flight s) s)).
Proof using Hdepth.
  intros L Ha. pose proof (life_lengths _ _ _ _ _ _ _ L) as HL. cbn [length] in HL. pose proof (li_rmax _ _ L) as Hm.
  destruct (rpush_run rq (io_u_requeues s) a (li_req _ _ L)) as (r & E1 & S1 & M1); [lia|].
  exists r. unfold push_requeue. cbn [io_u_requeues set_depths]. rewrite E1. split; [done|].
  destruct L. constructor; cbn in *; try done.
  - rewrite <- li_all0. unfold everywhere. cbn. solve_Permutation.
  - by rewrite M1.
  - rewrite li_depth0. unfold u32. rewrite Z.mod_small; lia.
  - apply Forall_app. split; [done|]. by constructor.
  - by apply Forall_cons in li_umain0 as [_ ?].
  - eapply refs_ok_ext; [|exact li_refs0]. intros f Hf0. unfold referring. cbn. rewrite !users_app. simpl. lia.
Qed.

Lemma requeue_io_u_run fr rq vl vt en a mn s u : life (mkPl fr rq vl vt en (a :: mn)) s -> units s !! a = Some u -> file u <> 0 ->
  exists s', requeue_io_u a s = Ret tt s' /\ life (mkPl fr (rq ++ [a]) vl vt en mn) s' /\ frame a s s'.
Proof using Hdepth.
  intros L Ha Hf. destruct (main_unit _ _ _ _ _ _ _ _ L) as (u0 & Hu0 & Hin & Hnp). rewrite Ha in Hu0. injection Hu0 as <-.
  unfold requeue_io_u. erewrite bind_Ret by (by apply get_u_run). cbv beta zeta.
  set (u' := io_u_clear IO_U_F_FLIGHT (io_u_set IO_U_F_FREE u)).
  assert (Hu' : u_ok PMain u' /\ u_ok PReq u') by (unfold u', u_ok; ucbn; done). destruct Hu' as [Hu' Hur].
  assert (Hc : exists c, when (has IO_U_F_FLIGHT (io_u_set IO_U_F_FREE u) && ddir_rw (acct_ddir u)) (add_count io_issues (acct_ddir u) (-1)) s = Ret tt (set_counts c s)).
  { unfold when. destruct (_ && _); [by eexists|]. exists (counts s). by destruct s. }
  destruct Hc as [c Hc]. erewrite bind_Ret by exact Hc. cbv beta. fold u'. mstep.
  replace (has IO_U_F_IN_CUR_DEPTH u') with true by (symmetry; apply Hu'). cbn [when]. mstep.
  assert (L1 : life (mkPl fr rq vl vt en (a :: mn)) (set_units (<[a := u']> (units s)) (set_counts c s))).
  { apply (life_main_same _ _ _ _ _ _ _ (set_counts c s) u u'); [by apply life_counts|done..]. }
  destruct (push_requeue_run _ _ _ _ _ _ _ _ L1) as (r & E2 & L2).
  { exists u'. split; [apply lookup_insert_eq|done]. }
  eexists. split; [exact E2|]. split; [exact L2|]. repeat split. intros b Hb. cbn. by apply lookup_insert_ne.
Qed.

(** What [__get_io_u] makes of a unit. *)
Definition fresh (u : io_u) : io_u :=
  let u := io_u_clear (Z.lor IO_U_F_FREE (Z.lor IO_U_F_NO_FILE_PUT (Z.lor IO_U_F_TRIMMED (Z.lor IO_U_F_BARRIER IO_U_F_VER_LIST)))) u in
  with_ipo false (io_u_set IO_U_F_IN_CUR_DEPTH (with_ddir (ddir u) (-1) (with_result 0 (resid u) u))).

Lemma fresh_ok u : u_ok PMain (fresh u) /\ fl_flight (uf (fresh u)) = fl_flight (uf u) /\ file (fresh u) = file u /\ ddir (fresh u) = ddir u.
Proof using. unfold fresh, u_ok. cbv zeta. ucbn. done. Qed.

(** A unit that was taken from its queue: the end of [__get_io_u]. *)
Lemma taken_run fr rq vl vt en mn a s u : fl_free (uf u) = true -> units s !! a = Some u -> a <> 0 ->
  life (mkPl fr rq vl vt en (a :: mn)) (set_depths (cur_depth s + 1) (io_u_queued s) (io_u_in_flight s) (set_units (<[a := fresh u]> (units s)) s)) ->
  exists s', (if negb (a =? 0) then
    u ← get_u a;
    assert (has IO_U_F_FREE u);;
    let u := io_u_clear (Z.lor IO_U_F_FREE (Z.lor IO_U_F_NO_FILE_PUT (Z.lor IO_U_F_TRIMMED (Z.lor IO_U_F_BARRIER IO_U_F_VER_LIST)))) u in
    put_u a (with_ipo false (io_u_set IO_U_F_IN_CUR_DEPTH (with_ddir (ddir u) (-1) (with_result 0 (resid u) u))));;
    add_depth 1;;
    mret (Got a)
  else if verify_async o then mret Wait else mret GotNone) s = Ret (Got a) s' /\
    life (mkPl fr rq vl vt en (a :: mn)) s' /\ frame a s s' /\ units s' !! a = Some (fresh u) /\ files s' = files s.
Proof using Hdepth.
  intros Hfree Ha Ha0 L. rewrite (proj2 (Z.eqb_neq a 0) Ha0). cbn [negb].
  erewrite bind_Ret by (by apply get_u_run). cbv beta. replace (has IO_U_F_FREE u) with true by (symmetry; exact Hfree). mstep. cbv zeta.
  change (with_ipo false _) with (fresh u). mstep. mstep.
  pose proof (life_lengths _ _ _ _ _ _ _ L) as HL. cbn [length] in HL. pose proof (li_depth _ _ L) as Hd. cbn in Hd.
  eexists. split; [reflexivity|]. cbn [cur_depth set_units io_u_queued io_u_in_flight].
  replace (u32 (cur_depth s + 1)) with (cur_depth s + 1) by (unfold u32; rewrite Z.mod_small; lia).
  split; [exact L|]. split; [|split; [apply lookup_insert_eq|done]]. repeat split. intros b Hb. cbn. by apply lookup_insert_ne.
Qed.

Lemma __get_io_u_run fr rq vl vt en mn s : life (mkPl fr rq vl vt en mn) s ->
  exists g s', __get_io_u o s = Ret g s' /\
    match g with
    | Got a => exists u fr' rq', (rq = a :: rq' /\ fr' = fr /\ file u <> 0 \/ rq = [] /\ rq' = [] /\ fr = a :: fr' /\ file u = 0) /\
        life (mkPl fr' rq' vl vt en (a :: mn)) s' /\ units s' !! a = Some u /\ has IO_U_F_FLIGHT u = false /\ frame a s s' /\ files s' = files s
    | _ => s' = s
    end.
Proof using Hdepth.
  intros L. unfold __get_io_u. mstep. destruct (stop_io s); [by eexists GotNone, s|].
  destruct (ring_head _ _ (li_req _ _ L)) as (_ & _ & Hemp & _). cbn in Hemp.
  unfold io_u_rempty. destruct (Z.eqb_spec (r_head (io_u_requeues s)) (r_tail (io_u_requeues s))) as [Er|Er]; cbn [negb].
  2:{ destruct rq as [|a rq]; [by destruct Er; apply Hemp|].
      destruct (rpop_run _ _ (li_req _ _ L)) as (r & E1 & R1 & M1). cbn in E1, R1. rewrite E1.
      pose proof (li_ureq _ _ L) as Hu. cbn in Hu. apply Forall_cons in Hu as [(u & Ha & Hfree & Hfl & Hnp & Hfile) Hu].
      mstep.
      destruct (fresh_ok u) as (Hm & Hfl' & Hfile' & Hdd).
      edestruct (taken_run fr rq vl vt en mn a (set_queues (io_u_freelist s) r (verify_list s) s) u) as (s' & E2 & L2 & F2 & Ha2 & Hfs); [done|done| | |].
      - pose proof (li_nonnull _ _ L) as Hn. intros ->. apply Hn. rewrite <- (li_all _ _ L). unfold everywhere. cbn. set_solver.
      - destruct (apart _ _ a (fr ++ rq ++ vl ++ vt ++ en ++ mn) L) as [Hap _]; [unfold everywhere; cbn; solve_Permutation|].
        rewrite !not_elem_of_app in Hap. destruct Hap as (A1 & A2 & A3 & A4 & A5 & A6).
        destruct L. constructor; cbn in *; try done; try by apply uat_insert.
        + rewrite <- li_all0. unfold everywhere. cbn. solve_Permutation.
        + by rewrite M1.
        + lia.
        + constructor; [exists (fresh u); by rewrite lookup_insert_eq|]. by apply uat_insert.
        + apply map_Forall_insert_2; [exact (li_ro0 a u Ha)|done].
        + eapply refs_ok_ext; [|exact li_refs0]. intros f Hf0. unfold referring. cbn. rewrite users_main by done.
          rewrite !users_app. simpl. rewrite (uses_file _ _ u) by done. cbn. lia.
      - eexists _, s'. split; [exact E2|]. exists (fresh u), fr, rq. split; [left; by rewrite Hfile'|].
        split; [done|]. split; [done|]. split; [change (fl_flight (uf (fresh u)) = false); by rewrite Hfl'|]. split; [|done]. exact F2. }
  assert (rq = []) as -> by (by apply Hemp).
  destruct (queue_full o s) eqn:Eq; cbn [negb]; [mstep; cbn; by destruct (verify_async o); eexists _, s|].
  destruct fr as [|a fr].
  { exfalso. unfold queue_full, io_u_qempty in Eq. rewrite (so_nr _ _ (li_free _ _ L)) in Eq. done. }
  destruct (qpop_run _ _ (li_free _ _ L)) as (q & E1 & R1 & M1). cbn in E1, R1. rewrite E1.
  pose proof (li_ufree _ _ L) as Hu. cbn in Hu. apply Forall_cons in Hu as [(u & Ha & Hfree & Hfl & Hfile) Hu].
  set (u1 := with_end NoEnd (with_range (offset u) 0 (with_result (error u) 0 (with_file 0 u)))).
  set (s1 := set_units (<[a := u1]> (units s)) (set_queues q (io_u_requeues s) (verify_list s) s)).
  assert (Es : (put_st (set_queues q (io_u_requeues s) (verify_list s) s);;
      upd_u a (fun u => with_end NoEnd (with_range (offset u) 0 (with_result (error u) 0 (with_file 0 u))));; mret a) s = Ret a s1).
  { mstep. erewrite bind_Ret by (by apply upd_u_run). done. }
  erewrite bind_Ret by exact Es. cbv beta.
  destruct (fresh_ok u1) as (Hm & Hfl' & Hfile' & Hdd).
  destruct (apart _ _ a (fr ++ vl ++ vt ++ en ++ mn) L) as [Hap Ha0]; [done|].
  rewrite !not_elem_of_app in Hap. destruct Hap as (A1 & A3 & A4 & A5 & A6).
  edestruct (taken_run fr [] vl vt en mn a s1 u1) as (s' & E2 & L2 & F2 & Ha2 & Hfs); [done|apply lookup_insert_eq|done| |].
  - destruct L. constructor; cbn in *; try done; try (rewrite insert_insert_eq; by apply uat_insert).
    + rewrite <- li_all0. unfold everywhere. cbn. solve_Permutation.
    + by rewrite M1.
    + lia.
    + rewrite insert_insert_eq. constructor; [exists (fresh u1); by rewrite lookup_insert_eq|]. by apply uat_insert.
    + rewrite insert_insert_eq. apply map_Forall_insert_2; [exact (li_ro0 a u Ha)|done].
    + rewrite insert_insert_eq. eapply refs_ok_ext; [|exact li_refs0]. intros f Hf0. unfold referring. cbn.
      pose proof (users_main (units s) [] en a mn (fresh u1) f (not_elem_of_nil _) A5 A6) as Hus.
      cbn [app] in Hus. change (file (fresh u1)) with 0 in Hus. rewrite (proj2 (Z.eqb_neq 0 f)) in Hus by done. lia.
  - eexists _, s'. split; [exact E2|]. exists (fresh u1), fr, []. split; [right; by rewrite Hfile'|].
    split; [done|]. split; [done|]. split; [change (fl_flight (uf (fresh u1)) = false); by rewrite Hfl'|]. split; [|done].
    eapply frame_trans; [|exact F2]. repeat split. intros b Hb. cbn. by apply lookup_insert_ne.
Qed.

(** ** The engine *)

(** What calls of the engine leave as it is. *)
Definition keeps_units (s s' : td E) : Prop :=
  units s' = units s /\ files s' = files s /\ cur_depth s' = cur_depth s /\ td_done s' = td_done s /\ stop_io s' = stop_io s.

Lemma td_verror_life G e s : life G s -> exists s', td_verror e s = Ret tt s' /\ life G s' /\ keeps_units s s' /\
  eng s' = eng s /\ io_u_queued s' = io_u_queued s /\ io_u_in_flight s' = io_u_in_flight s.
Proof using.
  intros L. destruct (td_verror_run e s) as (s' & E1 & F1 & Hf). exists s'. split; [done|]. split.
  - eapply life_files_only; [done..|]. rewrite Hf. exact (li_refs _ _ L).
  - unfold files_only in F1. rewrite F1. cbn. unfold keeps_units. by rewrite Hf.
Qed.

Lemma life_eng fr rq vl vt en mn s e : life (mkPl fr rq vl vt en mn) s -> eng_ok (Z.to_nat (iodepth o)) e en ->
  life (mkPl fr rq vl vt en mn) (set_eng e s).
Proof using. intros [] He. by constructor. Qed.

Lemma call_commit_run fr rq vl vt en mn s : life (mkPl fr rq vl vt en mn) s ->
  exists r e, call_commit s = Ret r (set_eng e s) /\ life (mkPl fr rq vl vt en mn) (set_eng e s).
Proof using.
  intros L. unfold call_commit. destruct eng_commit as [c|] eqn:Ec.
  - destruct (eng_commit_ok _ _ _ c Ec (li_eng _ _ L)) as (r & e & E1 & H1). rewrite E1. exists r, e. split; [done|]. by apply life_eng.
  - exists 0, (eng s). split; [by destruct s|]. apply life_eng; [done|]. exact (li_eng _ _ L).
Qed.

Lemma td_io_commit_run fr rq vl vt en mn s : life (mkPl fr rq vl vt en mn) s ->
  exists s', td_io_commit s = Ret 0 s' /\ life (mkPl fr rq vl vt en mn) s' /\ keeps_units s s' /\
    (cur_depth s <> 0 -> io_u_queued s' = 0).
Proof using.
  intros L. unfold td_io_commit. mstep.
  destruct (Z.eqb_spec (cur_depth s) 0) as [E0|E0]; [by exists s|]. cbn [orb].
  destruct (Z.eqb_spec (io_u_queued s) 0) as [Eq|Eq]; [by exists s|].
  destruct (call_commit_run _ _ _ _ _ _ _ L) as (r & e & E1 & L1). erewrite bind_Ret by exact E1. cbv beta.
  assert (Hv : exists s2, when (negb (r =? 0)) (td_verror (- r)) (set_eng e s) = Ret tt s2 /\ life (mkPl fr rq vl vt en mn) s2 /\
     keeps_units s s2 /\ io_u_queued s2 = io_u_queued s /\ io_u_in_flight s2 = io_u_in_flight s).
  { unfold when. destruct (negb (r =? 0)); [|by eexists].
    destruct (td_verror_life _ (- r) _ L1) as (s2 & E2 & L2 & K2 & _ & Q2 & I2). by exists s2. }
  destruct Hv as (s2 & E2 & L2 & K2 & Q2 & I2). erewrite bind_Ret by exact E2. cbv beta. mstep.
  eexists. split; [reflexivity|]. split; [|by split].
  destruct L2. constructor; cbn in *; try done.
  - rewrite <- li_flight0. unfold u32. rewrite Z.add_0_l, Z.mod_mod by lia. f_equal. lia.
  - split; [unfold fits; lia|apply u32_fits].
Qed.

(** The events that getevents has given. *)
Definition events (e : E) (evs : list Z) : Prop :=
  forall i a, evs !! i = Some a -> exists f, eng_event (Z.of_nat i) e = Some (a, f) /\ forall u, same_io (f u) u.

Lemma life_getevents fr rq vl vt en mn evs rest s e r : life (mkPl fr rq vl vt en mn) s -> en ≡ₚ evs ++ rest ->
  Z.of_nat (length evs) = r -> eng_ok (Z.to_nat (iodepth o)) e rest ->
  life (mkPl fr rq vl vt rest (evs ++ mn)) (set_depths (cur_depth s) (io_u_queued s) (u32 (io_u_in_flight s - r)) (set_eng e s)).
Proof using Hdepth.
  intros L Hp Hr He. pose proof (life_lengths _ _ _ _ _ _ _ L) as HL. pose proof (Permutation_length Hp) as HP. rewrite length_app in HP.
  destruct L. constructor; cbn in *; try done.
  - rewrite <- li_all0. unfold everywhere. cbn. rewrite Hp. solve_Permutation.
  - rewrite li_depth0, length_app. lia.
  - unfold u32. rewrite Z.add_mod_idemp_r by lia.
    replace (io_u_queued s + (io_u_in_flight s - r)) with ((io_u_queued s + io_u_in_flight s) - r) by lia.
    rewrite <- Zminus_mod_idemp_l, li_flight0, Z.mod_small; lia.
  - split; [apply li_fits0|apply u32_fits].
  - rewrite Hp in li_ueng0. by apply Forall_app in li_ueng0 as [_ ?].
  - apply Forall_app. split; [|done]. rewrite Hp in li_ueng0. apply Forall_app in li_ueng0 as [Hu _].
    eapply Forall_impl; [exact Hu|]. intros a (u & Ha & H1 & H2 & H3 & H4). by exists u.
  - eapply refs_ok_ext; [|exact li_refs0]. intros f _. unfold referring. cbn. rewrite !users_app.
    rewrite (users_perm _ _ _ Hp f f eq_refl), users_app. lia.
Qed.

Lemma td_io_getevents_run fr rq vl vt en mn s min max : life (mkPl fr rq vl vt en mn) s ->
  0 <= min <= Z.of_nat (length en) -> 0 <= max ->
  exists r s', td_io_getevents min max s = Ret r s' /\ keeps_units s s' /\ io_u_queued s' = io_u_queued s /\
    (r < 0 -> life (mkPl fr rq vl vt en mn) s') /\
    (0 <= r -> exists evs rest, Z.of_nat (length evs) = r /\ en ≡ₚ evs ++ rest /\ life (mkPl fr rq vl vt rest (evs ++ mn)) s' /\
       Forall (uat (u_ok PEng) (units s')) evs /\ events (eng s') evs).
Proof using Hdepth.
  intros L Hmin Hmax. unfold td_io_getevents. mstep.
  assert (Hnil : forall s1, life (mkPl fr rq vl vt en mn) s1 -> exists evs rest, Z.of_nat (length evs) = 0 /\ en ≡ₚ evs ++ rest /\
     life (mkPl fr rq vl vt rest (evs ++ mn)) s1 /\ Forall (uat (u_ok PEng) (units s1)) evs /\ events (eng s1) evs).
  { intros s1 L1. exists [], en. split; [done|]. split; [done|]. split; [done|]. split; [done|]. by intros i a. }
  destruct (td_done s) eqn:Ed.
  { exists 0, s. split; [done|]. split; [done|]. split; [done|]. split; [lia|]. auto. }
  assert (Hc : exists r e, (if (0 <? min) && match eng_commit with Some _ => true | None => false end then call_commit else mret 0) s = Ret r (set_eng e s) /\
     life (mkPl fr rq vl vt en mn) (set_eng e s)).
  { destruct (_ && _); [by apply call_commit_run|]. exists 0, (eng s). split; [by destruct s|]. apply life_eng; [done|]. exact (li_eng _ _ L). }
  destruct Hc as (r & e & E1 & L1). erewrite bind_Ret by exact E1. cbv beta.
  destruct (Z.ltb_spec r 0) as [Hr|Hr].
  { mstep. destruct (Z.leb_spec 0 r); [lia|]. destruct (td_verror_life _ r _ L1) as (s2 & E2 & L2 & K2 & _ & Q2 & _).
    erewrite bind_Ret by exact E2. cbv beta. exists r, s2. split; [done|]. split; [done|]. split; [done|]. split; [done|lia]. }
  set (max' := let max0 := if cur_depth s <? max then cur_depth s else max in if max0 <? min then min else max0).
  assert (Hmax' : min <= max' /\ 0 <= max').
  { unfold max'. cbv zeta. pose proof (li_depth _ _ L) as Hd. cbn in Hd. destruct (cur_depth s <? max), (Z.ltb_spec (cur_depth s) min), (Z.ltb_spec max min); lia. }
  assert (Hg : exists r2 e2, (s ← get_st;
         let max := if cur_depth s <? max then cur_depth s else max in
         let max := if max <? min then min else max in
         if negb (max =? 0) then call_getevents min max else mret 0) (set_eng e s) = Ret r2 (set_eng e2 s) /\
     (r2 < 0 -> eng_ok (Z.to_nat (iodepth o)) e2 en) /\
     (0 <= r2 -> exists evs rest, Z.of_nat (length evs) = r2 /\ en ≡ₚ evs ++ rest /\ eng_ok (Z.to_nat (iodepth o)) e2 rest /\ events e2 evs)).
  { pose proof (li_eng _ _ L1) as He. cbn in He. mstep. cbv zeta. cbn [cur_depth set_eng]. fold max'.
    assert (Hnil' : exists evs rest, Z.of_nat (length evs) = 0 /\ en ≡ₚ evs ++ rest /\ eng_ok (Z.to_nat (iodepth o)) e rest /\ events e evs).
    { exists [], en. split; [done|]. split; [done|]. split; [done|]. by intros i a. }
    destruct (negb (max' =? 0)); [|exists 0, e; by split; [|split]].
    unfold call_getevents. destruct eng_getevents as [g|] eqn:Eg; [|exists 0, e; by split; [|split]].
    destruct (eng_getevents_ok _ e en min max' g Eg He) as (r2 & e2 & E2 & _ & H1 & H2); [done|lia|]. cbn [eng set_eng]. rewrite E2.
    exists r2, e2. split; [done|]. split; [done|]. intros Hr2. destruct (H2 Hr2) as (evs & rest & A1 & A2 & A3 & A4). by exists evs, rest. }
  destruct Hg as (r2 & e2 & E2 & H1 & H2). erewrite bind_Ret by exact E2. cbv beta.
  destruct (Z.leb_spec 0 r2) as [Hr2|Hr2].
  - mstep. eexists r2, _. split; [reflexivity|]. split; [done|]. split; [done|]. split; [lia|]. intros _.
    destruct (H2 Hr2) as (evs & rest & A1 & A2 & A3 & A4). exists evs, rest. split; [done|]. split; [done|].
    split; [exact (life_getevents fr rq vl vt en mn evs rest s e2 r2 L A2 A1 A3)|]. split; [|done]. pose proof (li_ueng _ _ L) as Hu. cbn in Hu |- *.
    rewrite A2 in Hu. by apply Forall_app in Hu as [? _].
  - pose proof (life_eng _ _ _ _ _ _ _ e2 L (H1 Hr2)) as L2.
    destruct (td_verror_life _ r2 _ L2) as (s2 & E3 & L3 & K3 & _ & Q3 & _).
    erewrite bind_Ret by exact E3. cbv beta. exists r2, s2. split; [done|]. split; [done|]. split; [done|]. split; [done|lia].
Qed.

(** ** Submission *)

(** The file of a unit in hand is open. *)
Lemma main_file_open fr rq vl vt en a mn s u : life (mkPl fr rq vl vt en (a :: mn)) s -> units s !! a = Some u -> file u <> 0 ->
  exists r, files s !! file u = Some r /\ f_open r = true.
Proof using.
  intros L Ha Hf. pose proof (li_refs _ _ L _ Hf) as Hr. unfold referring in Hr. cbn [g_req g_eng g_main] in Hr.
  rewrite (main_users _ _ _ _ _ _ _ _ _ _ L Ha), Z.eqb_refl in Hr. pose proof (users_nonneg (units s) (rq ++ en ++ mn) (file u)).
  destruct (files s !! file u) as [r|]; [|lia]. exists r. split; [done|]. unfold refs_of in Hr. destruct (f_open r); [done|lia].
Qed.

(** A unit in hand that the engine takes. *)
Lemma life_queued fr rq vl vt en a mn s u e : life (mkPl fr rq vl vt en (a :: mn)) s -> units s !! a = Some u -> u_ok PEng u ->
  eng_ok (Z.to_nat (iodepth o)) e (a :: en) ->
  life (mkPl fr rq vl vt (a :: en) mn) (set_depths (cur_depth s) (u32 (io_u_queued s + 1)) (io_u_in_flight s) (set_eng e s)).
Proof using Hdepth.
  intros L Ha Hu He. pose proof (life_lengths _ _ _ _ _ _ _ L) as HL. cbn [length] in HL.
  destruct L. constructor; cbn in *; try done.
  - rewrite <- li_all0. unfold everywhere. cbn. solve_Permutation.
  - lia.
  - unfold u32. rewrite Z.add_mod_idemp_l by lia.
    replace (io_u_queued s + 1 + io_u_in_flight s) with (io_u_queued s + io_u_in_flight s + 1) by lia.
    rewrite <- Z.add_mod_idemp_l, li_flight0, Z.mod_small by lia. lia.
  - split; [apply u32_fits|apply li_fits0].
  - constructor; [by exists u|done].
  - by apply Forall_cons in li_umain0 as [_ ?].
  - eapply refs_ok_ext; [|exact li_refs0]. intros f _. unfold referring. cbn. rewrite !users_app. simpl. rewrite !users_app. simpl. lia.
Qed.

Lemma add_counts_run (b : bool) c1 d1 n1 c2 d2 n2 c3 d3 n3 (s : td E) :
  exists c, when b (add_count c1 d1 n1;; add_count c2 d2 n2;; add_count c3 d3 n3) s = Ret tt (set_counts c s).
Proof using. unfold when. destruct b; [by eexists|]. exists (counts s). by destruct s. Qed.

Lemma td_verror_eq e (s : td E) : exists x y z, td_verror e s = Ret tt (set_errors x y z s).
Proof using.
  unfold td_verror. mstep. unfold when. destruct (td_error s =? 0); [by eexists _, _, _|].
  exists (td_error s), (total_err_count s), (first_error s). by destruct s.
Qed.

Lemma when_verror_eq (b : bool) e (s : td E) : exists x y z, when b (td_verror e) s = Ret tt (set_errors x y z s).
Proof using.
  unfold when. destruct b; [apply td_verror_eq|].
  exists (td_error s), (total_err_count s), (first_error s). by destruct s.
Qed.

(** The engine's answer to a unit, with the unit as it leaves it. *)
Lemma call_queue_run fr rq vl vt en a mn s u : life (mkPl fr rq vl vt en (a :: mn)) s -> units s !! a = Some u ->
  exists ret u' e, call_queue a s = Ret ret (set_eng e (set_units (<[a := u']> (units s)) s)) /\ same_io u' u /\
    (ret = FIO_Q_COMPLETED \/ ret = FIO_Q_QUEUED \/ ret = FIO_Q_BUSY) /\
    eng_ok (Z.to_nat (iodepth o)) e (if ret =? FIO_Q_QUEUED then a :: en else en) /\
    life (mkPl fr rq vl vt en (a :: mn)) (set_units (<[a := u']> (units s)) s).
Proof using Hdepth.
  intros L Ha. destruct (apart_main _ _ _ _ _ _ _ _ L) as (_ & _ & _ & _ & H5 & _ & _).
  pose proof (life_lengths _ _ _ _ _ _ _ L) as HL. cbn [length] in HL.
  destruct (eng_queue_ok _ (eng s) en a u (li_eng _ _ L) H5) as (ret & u' & e & E1 & Hs & Hret & He); [lia|].
  unfold call_queue. rewrite Ha, E1. exists ret, u', e. split; [done|]. split; [done|]. split; [done|]. split; [done|].
  destruct (same_io_fields _ _ Hs) as (Hfl & Hfi & Hdd & _). apply (life_main_same _ _ _ _ _ _ _ _ u); [done..| |done|done].
  destruct (main_unit _ _ _ _ _ _ _ _ L) as (u0 & Hu0 & Hok). rewrite Ha in Hu0. injection Hu0 as <-.
  unfold u_ok in *. by rewrite (uf_flags _ _ Hfl).
Qed.

Lemma td_io_queue_run fr rq vl vt en a mn s u : life (mkPl fr rq vl vt en (a :: mn)) s -> units s !! a = Some u ->
  has IO_U_F_FLIGHT u = false -> file u <> 0 ->
  exists ret s', td_io_queue o a s = Ret ret s' /\ (forall b, b <> a -> units s' !! b = units s !! b) /\ td_done s' = td_done s /\ stop_io s' = stop_io s /\
    (ret = FIO_Q_QUEUED /\ life (mkPl fr rq vl vt (a :: en) mn) s' \/
     (ret = FIO_Q_COMPLETED \/ ret = FIO_Q_BUSY) /\ life (mkPl fr rq vl vt en (a :: mn)) s' /\
     exists u', units s' !! a = Some u' /\ file u' = file u /\ end_io u' = end_io u /\ (ret = FIO_Q_COMPLETED -> has IO_U_F_FLIGHT u' = true)).
Proof using Hdepth.
  intros L Ha Hfl Hf. destruct (main_unit _ _ _ _ _ _ _ _ L) as (u0 & Hu0 & Hin & Hnp). rewrite Ha in Hu0. injection Hu0 as <-.
  destruct (main_file_open _ _ _ _ _ _ _ _ _ L Ha Hf) as (r & Hr & Ho).
  unfold td_io_queue. erewrite bind_Ret by (by apply get_u_run). cbv beta zeta.
  assert (Hro : negb ((ddir u =? DDIR_WRITE) && negb (td_write o)) = true).
  { apply negb_true_iff. destruct (Z.eqb_spec (ddir u) DDIR_WRITE) as [Hd|]; [|done]. by rewrite (li_ro _ _ L a u Ha Hd). }
  unfold fio_ro_check. rewrite Hro. mstep. rewrite Hfl. mstep.
  erewrite bind_Ret by (by apply get_f_run). cbv beta. rewrite Ho. mstep. mstep.
  set (u1 := with_result 0 0 (io_u_set IO_U_F_FLIGHT u)).
  assert (Hu1 : u_ok PMain u1 /\ u_ok PEng u1) by (unfold u1, u_ok; ucbn; done). destruct Hu1 as [Hu1 Hu1e].
  pose proof (life_main_same _ _ _ _ _ _ _ _ u u1 L Ha Hu1 eq_refl eq_refl) as L1.
  set (s1 := set_units (<[a := u1]> (units s)) s) in *. fold s1.
  destruct (add_counts_run (ddir_rw (acct_ddir u)) io_issues (acct_ddir u) 1 io_issue_bytes (acct_ddir u) (xfer_buflen u) rate_io_issue_bytes (acct_ddir u) (xfer_buflen u) s1) as [c Ec].
  erewrite bind_Ret by exact Ec. cbv beta. apply (life_counts _ c) in L1.
  destruct (call_queue_run _ _ _ _ _ _ _ _ u1 L1) as (ret & u2 & e & E2 & Hs & Hret & He & L2); [apply lookup_insert_eq|].
  erewrite bind_Ret by exact E2. cbv beta. destruct (same_io_fields _ _ Hs) as (Gfl & Gfi & Gdd & Gac & Gen & Gip).
  set (s2 := set_units (<[a := u2]> (units (set_counts c s1))) (set_counts c s1)) in *.
  assert (Hu2e : u_ok PEng u2) by (unfold u_ok in *; rewrite (uf_flags _ _ Gfl), Gfi; done).
  assert (Hfr : forall b, b <> a -> units s2 !! b = units s !! b) by (intros b Hb; cbn; by rewrite !lookup_insert_ne by done).
  destruct Hret as [->|[->| ->]].
  - (* completed *)
    cbn [Z.eqb FIO_Q_BUSY FIO_Q_COMPLETED andb when]. mstep. erewrite bind_Ret by (apply get_u_run; apply lookup_insert_eq). cbv beta.
    pose proof (life_eng _ _ _ _ _ _ _ _ L2 He) as L3.
    destruct (when_verror_eq (negb (error u2 =? 0)) (error u2) (set_eng e s2)) as (x & y & z & Ev). erewrite bind_Ret by exact Ev. cbv beta. cbn [Z.eqb FIO_Q_QUEUED FIO_Q_COMPLETED].
    eexists _, _. split; [reflexivity|]. split; [done|]. split; [done|]. split; [done|]. right. split; [by left|].
    split; [by apply life_errors|]. exists u2. split; [apply lookup_insert_eq|]. split; [done|]. split; [done|]. intros _. apply Hu2e.
  - (* queued *)
    cbn [Z.eqb FIO_Q_BUSY FIO_Q_QUEUED andb when]. mstep. erewrite bind_Ret by (apply get_u_run; apply lookup_insert_eq). cbv beta.
    destruct (when_verror_eq (negb (error u2 =? 0)) (error u2) (set_eng e s2)) as (x & y & z & Ev). erewrite bind_Ret by exact Ev. cbv beta. cbn [Z.eqb FIO_Q_QUEUED Pos.eqb].
    pose proof (life_errors _ x y z _ (life_queued _ _ _ _ _ _ _ _ _ e L2 (lookup_insert_eq _ _ _) Hu2e He)) as L3.
    mstep. mstep. set (s4 := set_depths _ _ _ _).
    destruct (iodepth_batch o <=? io_u_queued s4).
    + destruct (td_io_commit_run _ _ _ _ _ _ s4 L3) as (s5 & E5 & L5 & K5 & _). erewrite bind_Ret by exact E5. cbv beta.
      eexists _, s5. split; [reflexivity|]. destruct K5 as (K1 & K2 & K3 & K4 & K5). rewrite K1, K4, K5. split; [done|]. split; [done|]. split; [done|]. by left.
    + eexists _, s4. split; [reflexivity|]. split; [done|]. split; [done|]. split; [done|]. by left.
  - (* busy *)
    cbn [Z.eqb FIO_Q_BUSY Pos.eqb andb]. pose proof (life_eng _ _ _ _ _ _ _ _ L2 He) as L3.
    assert (Hb : exists s3 u3, when (ddir_rw (acct_ddir u))
        (add_count io_issues (acct_ddir u) (-1);; add_count io_issue_bytes (acct_ddir u) (- xfer_buflen u);;
         add_count rate_io_issue_bytes (acct_ddir u) (- xfer_buflen u);; upd_u a (io_u_clear IO_U_F_FLIGHT)) (set_eng e s2) = Ret tt s3 /\
      life (mkPl fr rq vl vt en (a :: mn)) s3 /\ units s3 !! a = Some u3 /\ file u3 = file u /\ end_io u3 = end_io u /\
      (forall b, b <> a -> units s3 !! b = units s !! b) /\ td_done s3 = td_done s /\ stop_io s3 = stop_io s).
    { unfold when. destruct (ddir_rw (acct_ddir u)).
      - mstep. mstep. mstep. match goal with |- context [upd_u a _ ?x] => set (s3 := x) end.
        assert (L3' : life (mkPl fr rq vl vt en (a :: mn)) s3) by (unfold s3; by repeat apply life_counts).
        assert (H3 : units s3 !! a = Some u2) by apply lookup_insert_eq.
        eexists _, _. split; [by apply upd_u_run|]. split.
        + apply (life_main_same _ _ _ _ _ _ _ _ u2); [done..| |done|done]. unfold u_ok in *. ucbn. split; apply Hu2e.
        + split; [apply lookup_insert_eq|]. split; [done|]. split; [done|]. split; [|done].
          intros b Hb. cbn [units set_units]. rewrite lookup_insert_ne by done. by apply Hfr.
      - eexists _, u2. split; [reflexivity|]. split; [done|]. split; [apply lookup_insert_eq|]. done. }
    destruct Hb as (s3 & u3 & E3 & L3' & H3 & Hf3 & He3 & Hfr3 & Hd3 & Hst3). erewrite bind_Ret by exact E3. cbv beta.
    erewrite bind_Ret by (by apply get_u_run). cbv beta.
    destruct (when_verror_eq (negb (error u3 =? 0)) (error u3) s3) as (x & y & z & Ev). erewrite bind_Ret by exact Ev. cbv beta. cbn [Z.eqb FIO_Q_QUEUED Pos.eqb].
    eexists _, _. split; [reflexivity|]. split; [done|]. split; [done|]. split; [done|]. right. split; [by right|].
    split; [by apply life_errors|]. exists u3. done.
Qed.

(** ** Completion *)

Variable verify_io_u : Z -> io_u -> Z.

Lemma verify_io_u_async_run fr rq vl vt en a mn s u : life (mkPl fr rq vl vt en (a :: mn)) s -> units s !! a = Some u ->
  has IO_U_F_FLIGHT u = false -> file u <> 0 ->
  exists s', verify_io_u_async close_file a s = Ret tt s' /\ life (mkPl fr rq (vl ++ [a]) vt en mn) s' /\ frame a s s'.
Proof using Hdepth.
  intros L Ha Hfl Hf. destruct (main_unit _ _ _ _ _ _ _ _ L) as (u0 & Hu0 & Hin & Hnp). rewrite Ha in Hu0. injection Hu0 as <-.
  destruct (apart_main _ _ _ _ _ _ _ _ L) as (H1 & H2 & H3 & H4 & H5 & H6 & H7).
  pose proof (li_refs _ _ L) as Hr. unfold referring in Hr. cbn [g_req g_eng g_main] in Hr.
  destruct (put_file_log_run C (file u) s _ Hf Hr) as (s1 & E1 & F1 & R1).
  { rewrite (main_users _ _ _ _ _ _ _ _ _ _ L Ha), Z.eqb_refl. pose proof (users_nonneg (units s) (rq ++ en ++ mn) (file u)). lia. }
  unfold verify_io_u_async. erewrite bind_Ret by (by apply get_u_run). cbv beta. rewrite (proj2 (Z.eqb_neq _ _) Hf). cbn [negb when].
  erewrite bind_Ret by exact E1. cbv beta.
  assert (Ha1 : units s1 !! a = Some u) by (rewrite F1; exact Ha). erewrite bind_Ret by (by apply get_u_run). cbv beta.
  replace (has IO_U_F_IN_CUR_DEPTH u) with true by (symmetry; exact Hin). cbn [when].
  set (u' := io_u_clear IO_U_F_IN_CUR_DEPTH u). mstep.
  assert (Hu' : u_ok PVer u') by (unfold u', u_ok; ucbn; split; [exact Hfl|done]).
  eexists. split; [reflexivity|]. cbn [set_depths set_units units io_u_freelist io_u_requeues verify_list cur_depth io_u_queued io_u_in_flight put_u modify].
  pose proof (life_lengths _ _ _ _ _ _ _ L) as HL. cbn [length] in HL.
  split.
  - unfold files_only in F1. rewrite F1. rewrite F1 in R1. cbn [files set_files set_errors] in R1.
    destruct L. constructor; cbn in *; try done; try by apply uat_insert.
    + rewrite <- li_all0. unfold everywhere. cbn. solve_Permutation.
    + by rewrite li_vl0.
    + rewrite li_depth0. unfold u32. rewrite Z.mod_small; lia.
    + apply Forall_app. split; [by apply uat_insert|]. constructor; [|done]. exists u'. by rewrite lookup_insert_eq.
    + apply Forall_cons in li_umain0 as [_ ?]. by apply uat_insert.
    + apply map_Forall_insert_2; [exact (li_ro0 a u Ha)|done].
    + eapply refs_ok_ext; [|exact R1]. intros f _. unfold referring, less. cbn.
      rewrite users_insert by (rewrite !not_elem_of_app; done).
      rewrite !users_app. simpl. rewrite (uses_file _ _ u) by done. rewrite (Z.eqb_sym f). destruct (file u =? f); lia.
  - eapply frame_trans; [by apply frame_files|]. repeat split. intros b Hb. cbn. by apply lookup_insert_ne.
Qed.

Lemma frame_refl a s : frame a s s.
Proof using. done. Qed.

(** A step on the unit itself or on parts that the invariant is not about. *)
Lemma unlog_io_piece_run fr rq vl vt en a mn s u : life (mkPl fr rq vl vt en (a :: mn)) s -> units s !! a = Some u ->
  exists s' u', unlog_io_piece a s = Ret tt s' /\ life (mkPl fr rq vl vt en (a :: mn)) s' /\ frame a s s' /\
    units s' !! a = Some u' /\ uf u' = uf u /\ file u' = file u /\ end_io u' = end_io u /\ files s' = files s.
Proof using.
  intros L Ha. destruct (main_unit _ _ _ _ _ _ _ _ L) as (u0 & Hu0 & Hok). rewrite Ha in Hu0. injection Hu0 as <-.
  unfold unlog_io_piece. erewrite bind_Ret by (by apply get_u_run). cbv beta. unfold when. destruct (ipo u); [|by exists s, u].
  mstep. eexists _, (with_ipo false u). split; [reflexivity|]. split.
  - apply (life_main_same _ _ _ _ _ _ _ (set_hist (hist s ++ [HUnlog a]) s) u); [by apply life_hist|done..].
  - split; [|split; [apply lookup_insert_eq|done]]. repeat split. intros b Hb. cbn. by apply lookup_insert_ne.
Qed.

(** What becomes of a unit whose I/O is done: it is still in hand, out of flight, or with
    the threads that verify. *)
Definition done_with (fr rq vl vt en : list Z) (a : Z) (mn : list Z) (mine : bool) (s : td E) : Prop :=
  if mine then life (mkPl fr rq vl vt en (a :: mn)) s /\ exists u, units s !! a = Some u /\ has IO_U_F_FLIGHT u = false /\ file u <> 0
  else life (mkPl fr rq (vl ++ [a]) vt en mn) s.

Lemma done_with_errors fr rq vl vt en a mn mine x y z s : done_with fr rq vl vt en a mn mine s ->
  done_with fr rq vl vt en a mn mine (set_errors x y z s).
Proof using. destruct mine; cbn; [intros [? ?]; split; [by apply life_errors|done]|apply life_errors]. Qed.

Lemma call_end_io_run fr rq vl vt en a mn s : done_with fr rq vl vt en a mn true s ->
  exists ret mine s', call_end_io close_file verify_io_u a s = Ret (ret, mine) s' /\ frame a s s' /\ done_with fr rq vl vt en a mn mine s'.
Proof using Hdepth.
  intros (L & u & Ha & Hfl & Hf). unfold call_end_io. erewrite bind_Ret by (by apply get_u_run). cbv beta. destruct (end_io u).
  - eexists _, true, s. split; [reflexivity|]. split; [done|]. split; [done|]. by exists u.
  - eexists _, true, s. split; [reflexivity|]. split; [done|]. split; [done|]. by exists u.
  - destruct (verify_io_u_async_run _ _ _ _ _ _ _ _ _ L Ha Hfl Hf) as (s' & E1 & L1 & F1). erewrite bind_Ret by exact E1. cbv beta.
    eexists _, false, s'. split; [reflexivity|]. by split.
Qed.

(** The count of a completed transfer, and its end hook. *)
Definition transfer_done (a d : Z) (u : io_u) (c : icd) : M (td E) (bool * icd) :=
  let bytes := u32 (buflen u - resid u) in
  add_count io_blocks d 1;; add_count this_io_blocks d 1;; add_count io_bytes d bytes;;
  when (negb (has IO_U_F_VER_LIST u)) (add_count this_io_bytes d bytes);;
  let c := icd_add c d bytes in
  '(ret, mine) ← call_end_io close_file verify_io_u a;
  mret (mine, if negb (ret =? 0) && (fst c =? 0) then (ret, snd c) else c).

Lemma transfer_done_run fr rq vl vt en a d u c mn s : done_with fr rq vl vt en a mn true s ->
  exists mine c' s', transfer_done a d u c s = Ret (mine, c') s' /\ frame a s s' /\ done_with fr rq vl vt en a mn mine s'.
Proof using Hdepth.
  intros (L & Hu). unfold transfer_done. cbv zeta. mstep. mstep. mstep.
  match goal with |- context [(when ?b ?m ≫= _) ?x] => assert (Hw : exists k, when b m x = Ret tt (set_counts k x)) end.
  { unfold when. destruct (negb _); [by eexists|]. by eexists. }
  destruct Hw as [k Ek]. erewrite bind_Ret by exact Ek. cbv beta.
  match goal with |- context [(call_end_io _ _ _ ≫= _) ?x] => destruct (call_end_io_run fr rq vl vt en a mn x) as (ret & mine & s' & E1 & F1 & D1) end.
  { split; [by repeat apply life_counts|done]. }
  erewrite bind_Ret by exact E1. cbv beta iota. eexists mine, _, s'. split; [reflexivity|]. by split.
Qed.

Lemma io_completed_run fr rq vl vt en a mn s u c : life (mkPl fr rq vl vt en (a :: mn)) s -> units s !! a = Some u -> u_ok PEng u ->
  exists mine c' s', io_completed o close_file verify_io_u a c s = Ret (mine, c') s' /\ frame a s s' /\ done_with fr rq vl vt en a mn mine s'.
Proof using Hdepth.
  intros L Ha (Hfl & Hin & Hnp & Hf). unfold io_completed. erewrite bind_Ret by (by apply get_u_run). cbv beta zeta.
  replace (has IO_U_F_FLIGHT u) with true by (symmetry; exact Hfl). mstep. mstep.
  set (u1 := io_u_clear (Z.lor IO_U_F_FLIGHT IO_U_F_BUSY_OK) u).
  assert (Hu1 : u_ok PMain u1 /\ fl_flight (uf u1) = false) by (unfold u1, u_ok; ucbn; done). destruct Hu1 as [Hu1 Hfl1].
  pose proof (life_main_same _ _ _ _ _ _ _ _ u u1 L Ha Hu1 eq_refl eq_refl) as L1.
  pose proof (frame_units a u1 s) as F1.
  set (s1 := set_units (<[a := u1]> (units s)) s) in *. fold s1.
  assert (Ha1 : units s1 !! a = Some u1) by apply lookup_insert_eq.
  assert (H2 : exists s2 u2, when (ipo u) (if negb (error u =? 0) then unlog_io_piece a else call_hist (HDone a)) s1 = Ret tt s2 /\
     life (mkPl fr rq vl vt en (a :: mn)) s2 /\ frame a s s2 /\ units s2 !! a = Some u2 /\ uf u2 = uf u1 /\ file u2 = file u1 /\ end_io u2 = end_io u1).
  { unfold when. destruct (ipo u); [|by exists s1, u1]. destruct (negb (error u =? 0)).
    - destruct (unlog_io_piece_run _ _ _ _ _ _ _ _ _ L1 Ha1) as (s2 & u2 & E2 & L2 & F2 & Ha2 & A1 & A2 & A3 & _).
      exists s2, u2. split; [done|]. split; [done|]. split; [by eapply frame_trans|]. done.
    - eexists _, u1. split; [reflexivity|]. split; [by apply life_hist|]. split; [|done]. exact F1. }
  destruct H2 as (s2 & u2 & E2 & L2 & F2 & Ha2 & Huf2 & Hf2 & He2). erewrite bind_Ret by exact E2. cbv beta.
  destruct (ddir_sync (ddir u)).
  { mstep. eexists true, c, _. split; [reflexivity|]. split; [exact F2|]. split; [by apply life_last|].
    exists u2. split; [done|]. split; [change (fl_flight (uf u2) = false); by rewrite Huf2|rewrite Hf2; exact Hf]. }
  mstep. set (s3 := set_last false (ddir u) s2).
  assert (D3 : done_with fr rq vl vt en a mn true s3).
  { split; [by apply life_last|]. exists u2. split; [done|]. split; [change (fl_flight (uf u2) = false); by rewrite Huf2|rewrite Hf2; exact Hf]. }
  assert (H4 : exists mine c4 s4, (if (error u =? 0) && ddir_rw (ddir u) then transfer_done a (ddir u) u c
       else if negb (error u =? 0) then io_u_log_error o u;; mret (true, (error u, snd c)) else mret (true, c)) s3 = Ret (mine, c4) s4 /\
     frame a s3 s4 /\ done_with fr rq vl vt en a mn mine s4).
  { destruct (_ && _); [by apply transfer_done_run|]. destruct (negb (error u =? 0)); [|eexists true, _, s3; (split; [reflexivity|]); by split].
    unfold io_u_log_error. match goal with |- context [when ?b (td_verror ?e)] => destruct (when_verror_eq b e s3) as (x & y & z & E3) end.
    erewrite bind_Ret by exact E3. cbv beta. eexists true, _, _. split; [reflexivity|]. split; [done|]. by apply done_with_errors. }
  destruct H4 as (mine & c4 & s4 & E4 & F4 & D4). unfold transfer_done in E4. erewrite bind_Ret by exact E4. cbv beta iota.
  assert (F5 : frame a s s4) by (eapply frame_trans; [exact F2|exact F4]).
  destruct (negb (fst c4 =? 0)); [|exists mine, c4, s4; split; [done|]; by split].
  destruct (negb (td_non_fatal_error _ _ _)); [exists mine, c4, s4; split; [done|]; by split|]. mstep. mstep.
  match goal with |- context [(when mine _ ≫= _) ?x] => set (s5 := x) end.
  assert (D5 : done_with fr rq vl vt en a mn mine s5) by by repeat apply done_with_errors.
  destruct mine; cbn [when].
  - destruct D5 as (L5 & u5 & Ha5 & Hfl5 & Hf5). erewrite bind_Ret by (by apply upd_u_run). cbv beta.
    eexists true, _, _. split; [reflexivity|]. split; [apply (frame_trans a s s5); [exact F5|apply frame_units]|]. split.
    + apply (life_main_same _ _ _ _ _ _ _ _ u5); [done..| |done|done].
      destruct (main_unit _ _ _ _ _ _ _ _ L5) as (u0 & Hu0 & Hok). rewrite Ha5 in Hu0. by injection Hu0 as <-.
    + eexists. split; [apply lookup_insert_eq|]. done.
  - mstep. eexists false, _, s5. split; [reflexivity|]. by split.
Qed.

(** A completed unit is put back, unless the threads that verify have it. *)
Lemma finish_run fr rq vl vt en a mn mine s : done_with fr rq vl vt en a mn mine s ->
  exists fr' vl' s', when mine (put_io_u close_file a) s = Ret tt s' /\ life (mkPl fr' rq vl' vt en mn) s' /\ frame a s s'.
Proof using Hdepth.
  destruct mine; cbn [when done_with].
  - intros (L & u & Ha & Hfl & _). destruct (put_io_u_run _ _ _ _ _ _ _ _ _ L Ha Hfl) as (s' & E1 & L1 & F1). by exists (a :: fr), vl, s'.
  - intros L. by exists fr, (vl ++ [a]), s.
Qed.

(** What the completion of a list of units leaves as it is. *)
Definition frames (l : list Z) (s s' : td E) : Prop :=
  eng s' = eng s /\ (forall b, b ∉ l -> units s' !! b = units s !! b) /\
  io_u_queued s' = io_u_queued s /\ io_u_in_flight s' = io_u_in_flight s /\ td_done s' = td_done s /\ stop_io s' = stop_io s.

Lemma frames_cons a l s1 s2 s3 : frame a s1 s2 -> frames l s2 s3 -> frames (a :: l) s1 s3.
Proof using.
  intros (A1 & A2 & A3 & A4 & A5 & A6) (B1 & B2 & B3 & B4 & B5 & B6). unfold frames.
  split; [congruence|]. split; [|repeat split; congruence].
  intros b Hb. apply not_elem_of_cons in Hb as [Hb Hl]. rewrite B2 by done. by apply A2.
Qed.

Lemma ios_completed_run rq vt en mn evs : forall fr vl i c s, life (mkPl fr rq vl vt en (evs ++ mn)) s ->
  Forall (uat (u_ok PEng) (units s)) evs ->
  (forall j a, evs !! j = Some a -> exists f, eng_event (i + Z.of_nat j) (eng s) = Some (a, f) /\ forall u, same_io (f u) u) ->
  exists fr' vl' c' s', ios_completed o close_file verify_io_u (length evs) i c s = Ret c' s' /\ life (mkPl fr' rq vl' vt en mn) s' /\ frames evs s s'.
Proof using Hdepth.
  induction evs as [|a evs IH]; intros fr vl i c s L Hu He.
  { exists fr, vl, c, s. split; [done|]. by split. }
  destruct (He 0%nat a eq_refl) as (f & Ef & Hf). rewrite Z.add_0_r in Ef. apply Forall_cons in Hu as [(u & Ha & Hue) Hu].
  cbn [app] in L. destruct (apart_main _ _ _ _ _ _ _ _ L) as (_ & _ & _ & _ & _ & Hnm & _). apply not_elem_of_app in Hnm as [Hne Hnm].
  destruct (same_io_fields _ _ (Hf u)) as (Gfl & Gfi & Gdd & _).
  assert (Hue' : u_ok PEng (f u)) by (unfold u_ok in *; rewrite (uf_flags _ _ Gfl), Gfi; done).
  pose proof (life_main_same _ _ _ _ _ _ _ _ u (f u) L Ha (conj (proj1 (proj2 Hue')) (proj1 (proj2 (proj2 Hue')))) Gfi Gdd) as L1.
  cbn [length ios_completed]. unfold call_event at 1.
  erewrite bind_Ret by (rewrite Ef, Ha; reflexivity). cbv beta.
  destruct (io_completed_run _ _ _ _ _ _ _ _ (f u) c L1) as (mine & c1 & s1 & E1 & F1 & D1); [apply lookup_insert_eq|done|].
  erewrite bind_Ret by exact E1. cbv beta iota.
  destruct (finish_run _ _ _ _ _ _ _ _ _ D1) as (fr1 & vl1 & s2 & E2 & L2 & F2). erewrite bind_Ret by exact E2. cbv beta.
  pose proof (frame_trans _ _ _ _ (frame_units a (f u) s) (frame_trans _ _ _ _ F1 F2)) as F3.
  destruct F3 as (F3e & F3u & F3r). destruct (IH fr1 vl1 (i + 1) c1 s2 L2) as (fr' & vl' & c' & s' & E3 & L3 & F4).
  - eapply uat_same; [|exact Hu]. intros b Hb. apply F3u. by intros ->.
  - intros j b Hj. rewrite F3e. destruct (He (S j) b Hj) as (g & Eg & Hg). exists g. split; [|done].
    by replace (i + 1 + Z.of_nat j) with (i + Z.of_nat (S j)) by lia.
  - exists fr', vl', c', s'. split; [exact E3|]. split; [done|]. by apply (frames_cons _ _ _ s2).
Qed.

Lemma add_bytes_done_run G c s : life G s -> exists k, add_bytes_done c s = Ret tt (set_counts k s) /\ life G (set_counts k s).
Proof using. intros L. eexists. split; [reflexivity|]. by apply life_counts. Qed.

Lemma io_u_sync_complete_run fr rq vl vt en a mn s u : life (mkPl fr rq vl vt en (a :: mn)) s -> units s !! a = Some u -> u_ok PEng u ->
  exists ret fr' vl' s', io_u_sync_complete o close_file verify_io_u a s = Ret ret s' /\ life (mkPl fr' rq vl' vt en mn) s' /\ frame a s s'.
Proof using Hdepth.
  intros L Ha Hu. unfold io_u_sync_complete.
  destruct (io_completed_run _ _ _ _ _ _ _ _ _ init_icd L Ha Hu) as (mine & c1 & s1 & E1 & F1 & D1).
  erewrite bind_Ret by exact E1. cbv beta iota.
  destruct (finish_run _ _ _ _ _ _ _ _ _ D1) as (fr1 & vl1 & s2 & E2 & L2 & F2). erewrite bind_Ret by exact E2. cbv beta.
  pose proof (frame_trans _ _ _ _ F1 F2) as F3. destruct (negb (fst c1 =? 0)).
  - destruct (td_verror_eq (fst c1) s2) as (x & y & z & E3). erewrite bind_Ret by exact E3. cbv beta.
    eexists _, fr1, vl1, _. split; [reflexivity|]. split; [by apply life_errors|exact F3].
  - destruct (add_bytes_done_run _ c1 _ L2) as (k & E3 & L3). erewrite bind_Ret by exact E3. cbv beta.
    eexists _, fr1, vl1, _. split; [reflexivity|]. split; [done|exact F3].
Qed.

(** Reaping: units that were in the engine or in hand come back; the others stay. *)
Lemma io_u_queued_complete_run fr rq vl vt en mn s min_evts : life (mkPl fr rq vl vt en mn) s -> 0 <= iodepth_batch_complete_max o ->
  0 <= min_evts -> (min_evts <= Z.of_nat (length en) \/ mn = []) ->
  exists ret fr' vl' en' evs s', io_u_queued_complete o close_file verify_io_u min_evts s = Ret ret s' /\
    life (mkPl fr' rq vl' vt en' mn) s' /\ en ≡ₚ evs ++ en' /\ io_u_queued s' = io_u_queued s /\
    (forall b, b ∈ mn -> units s' !! b = units s !! b) /\ td_done s' = td_done s /\ stop_io s' = stop_io s /\
    exists r s1, td_io_getevents (if cur_depth s <? min_evts then cur_depth s else min_evts) (iodepth_batch_complete_max o) s = Ret r s1 /\
      length evs = Z.to_nat r.
Proof using Hdepth.
  intros L Hmax Hmin Hle. unfold io_u_queued_complete. mstep. cbv zeta.
  pose proof (li_depth _ _ L) as Hd. cbn in Hd.
  set (m := if cur_depth s <? min_evts then cur_depth s else min_evts).
  assert (Hm : 0 <= m <= Z.of_nat (length en)).
  { unfold m. destruct (Z.ltb_spec (cur_depth s) min_evts); destruct Hle as [Hle| ->]; cbn in Hd; lia. }
  destruct (td_io_getevents_run _ _ _ _ _ _ _ m _ L Hm Hmax) as (r & s1 & E1 & (K1 & K2 & K3 & K4 & K5) & Q1 & Hneg & Hpos).
  erewrite bind_Ret by exact E1. cbv beta. destruct (Z.ltb_spec r 0) as [Hr|Hr].
  { destruct (td_verror_eq (- r) s1) as (x & y & z & E2). erewrite bind_Ret by exact E2. cbv beta.
    exists r, fr, vl, en, [], (set_errors x y z s1). split; [done|]. split; [by apply life_errors, Hneg|]. split; [done|]. cbn. rewrite K1.
    do 4 (split; [done|]). exists r, s1. split; [exact E1|]. simpl. lia. }
  destruct (Hpos Hr) as (evs & rest & Hlen & Hp & L1 & Hu & He).
  destruct (Z.eqb_spec r 0) as [Er|Er].
  { destruct evs; [|simpl in Hlen; lia]. exists r, fr, vl, rest, [], s1. split; [done|]. split; [done|]. split; [done|]. rewrite K1.
    do 4 (split; [done|]). exists r, s1. split; [exact E1|]. simpl. lia. }
  replace (Z.to_nat r) with (length evs) by lia.
  assert (Hdis : forall b, b ∈ mn -> b ∉ evs).
  { intros b Hb Hb'. pose proof (li_nodup _ _ L1) as Hn. rewrite <- (li_all _ _ L1) in Hn. unfold everywhere in Hn. cbn in Hn.
    rewrite !app_assoc in Hn. apply NoDup_app in Hn as (_ & Hn & _). apply (Hn b); [|done]. rewrite elem_of_app. by right. }
  destruct (ios_completed_run _ _ _ _ _ _ _ 0 init_icd _ L1 Hu) as (fr' & vl' & c' & s2 & E2 & L2 & F2).
  { intros j b Hj. rewrite Z.add_0_l. by apply He. }
  destruct F2 as (_ & F2u & F2q & _ & F2d & F2s).
  assert (Hun : forall b, b ∈ mn -> units s2 !! b = units s !! b) by (intros b Hb; rewrite F2u by auto; by rewrite K1).
  erewrite bind_Ret by exact E2. cbv beta. destruct (negb (fst c' =? 0)).
  - destruct (td_verror_eq (fst c') s2) as (x & y & z & E3). erewrite bind_Ret by exact E3. cbv beta.
    eexists _, fr', vl', rest, evs, _. split; [reflexivity|]. split; [by apply life_errors|]. split; [done|]. cbn. split; [congruence|]. split; [done|]. split; [congruence|]. split; [congruence|]. exists r, s1. split; [exact E1|lia].
  - destruct (add_bytes_done_run _ c' _ L2) as (k & E3 & L3). erewrite bind_Ret by exact E3. cbv beta.
    eexists _, fr', vl', rest, evs, _. split; [reflexivity|]. split; [done|]. split; [done|]. cbn. split; [congruence|]. split; [done|]. split; [congruence|]. split; [congruence|]. exists r, s1. split; [exact E1|lia].
Qed.

(** ** Quiescing *)

(** Without queued units the number in flight is exact. *)
Lemma in_flight_exact fr rq vl vt en mn s : life (mkPl fr rq vl vt en mn) s -> io_u_queued s = 0 -> io_u_in_flight s = Z.of_nat (length en).
Proof using.
  intros L Hq. pose proof (li_flight _ _ L) as Hf. destruct (li_fits _ _ L) as [_ Hi]. cbn in Hf. rewrite Hq, Z.add_0_l, Z.mod_small in Hf by exact Hi. done.
Qed.

(** Either the loop still runs or nothing is in flight. *)
Lemma quiesce_loop_run rq vt mn fuel : forall fr vl en k s, life (mkPl fr rq vl vt en mn) s -> 0 <= iodepth_batch_complete_max o -> io_u_queued s = 0 ->
  match quiesce_loop o close_file verify_io_u fuel k s with
  | Ret n s' => exists fr' vl', life (mkPl fr' rq vl' vt [] mn) s' /\ io_u_in_flight s' = 0 /\ io_u_queued s' = 0 /\
      (forall b, b ∈ mn -> units s' !! b = units s !! b)
  | Diverge _ => True
  | _ => False
  end.
Proof using Hdepth.
  induction fuel as [|fuel IH]; intros fr vl en k s L Hmax Hq; [done|]. cbn [quiesce_loop]. mstep.
  pose proof (in_flight_exact _ _ _ _ _ _ _ L Hq) as Hi.
  destruct (Z.eqb_spec (io_u_in_flight s) 0) as [E0|E0].
  { destruct en; [|simpl in Hi; lia]. exists fr, vl. done. }
  destruct (io_u_queued_complete_run _ _ _ _ _ _ _ 1 L Hmax ltac:(lia) ltac:(left; lia)) as (ret & fr' & vl' & en' & evs & s' & E1 & L1 & Hp & Q1 & Hu1 & _).
  erewrite bind_Ret by exact E1. cbv beta.
  specialize (IH fr' vl' en' (if 0 <? ret then k + ret else k) s' L1 Hmax ltac:(congruence)).
  destruct (quiesce_loop _ _ _ _ _ _); try done. destruct IH as (fr2 & vl2 & L2 & I2 & Q2 & Hu2). exists fr2, vl2.
  split; [done|]. split; [done|]. split; [done|]. intros b Hb. rewrite Hu2 by done. by apply Hu1.
Qed.

(** What is queued is committed first. *)
Lemma quiesce_commit_run fr rq vl vt en mn s : life (mkPl fr rq vl vt en mn) s -> cur_depth s <> 0 \/ io_u_queued s = 0 ->
  exists s1, when (negb (io_u_queued s =? 0) || negb (cur_depth s =? 0)) (td_io_commit;; mret tt) s = Ret tt s1 /\
     life (mkPl fr rq vl vt en mn) s1 /\ keeps_units s s1 /\ io_u_queued s1 = 0.
Proof using.
  intros L Hc. unfold when. destruct (Z.eqb_spec (cur_depth s) 0) as [E0|E0].
  - assert (Hq : io_u_queued s = 0) by (destruct Hc; done). rewrite Hq. cbn. by exists s.
  - rewrite orb_true_r. destruct (td_io_commit_run _ _ _ _ _ _ _ L) as (s1 & E1 & L1 & K1 & Q1). exists s1.
    erewrite bind_Ret by exact E1. split; [done|]. split; [done|]. split; [done|]. by apply Q1.
Qed.

Lemma io_u_quiesce_run fr rq vl vt en mn s fuel : life (mkPl fr rq vl vt en mn) s -> 0 <= iodepth_batch_complete_max o ->
  cur_depth s <> 0 \/ io_u_queued s = 0 ->
  match io_u_quiesce o close_file verify_io_u fuel s with
  | Ret n s' => exists fr' vl', life (mkPl fr' rq vl' vt [] mn) s' /\ io_u_in_flight s' = 0 /\ io_u_queued s' = 0 /\
      (forall b, b ∈ mn -> units s' !! b = units s !! b)
  | Diverge _ => True
  | _ => False
  end.
Proof using Hdepth.
  intros L Hmax Hc. unfold io_u_quiesce. mstep.
  destruct (quiesce_commit_run _ _ _ _ _ _ _ L Hc) as (s1 & E1 & L1 & (K1 & _) & Q1). erewrite bind_Ret by exact E1. cbv beta.
  pose proof (quiesce_loop_run _ _ _ fuel _ _ _ 0 _ L1 Hmax Q1) as HQ. destruct (quiesce_loop _ _ _ _ _ _); try done.
  destruct HQ as (fr2 & vl2 & L2 & I2 & Q2 & Hu2). exists fr2, vl2. rewrite K1 in Hu2. done.
Qed.

(** ** What becomes of a submitted unit *)

Lemma break_on_this_error_run G d ret s : life G s ->
  exists b r s', break_on_this_error o d ret s = Ret (b, r) s' /\ life G s'.
Proof using.
  intros L. unfold break_on_this_error. mstep. destruct (_ || _); [|by eexists _, _, s]. cbv zeta.
  destruct (Z.land _ _ =? 0); [by eexists _, _, s|].
  destruct (td_non_fatal_error _ _ _).
  { mstep. mstep. eexists _, _, _. split; [reflexivity|]. by repeat apply life_errors. }
  destruct (fill_device o && _).
  { mstep. mstep. eexists _, _, _. split; [reflexivity|]. by apply life_terminate, life_errors. }
  mstep. eexists _, _, _. split; [reflexivity|]. by apply life_errors.
Qed.

Lemma trim_io_piece_run G a s u : life G s -> units s !! a = Some u ->
  exists h, trim_io_piece a s = Ret tt (set_hist h s) /\ life G (set_hist h s).
Proof using.
  intros L Ha. unfold trim_io_piece. erewrite bind_Ret by (by apply get_u_run). cbv beta. unfold when. destruct (ipo u).
  - eexists. split; [reflexivity|]. by apply life_hist.
  - exists (hist s). split; [by destruct s|]. by apply life_hist.
Qed.

(** A unit that was completed at once and is not an empty transfer. *)
Definition not_empty (u : io_u) : Prop := error u = 0 -> resid u <> 0 -> to_int (xfer_buflen u - resid u) <> 0.

Lemma queue_event_completed_run fr rq vl vt en a mn s u ret fv : life (mkPl fr rq vl vt en (a :: mn)) s -> units s !! a = Some u ->
  u_ok PEng u -> not_empty u ->
  exists b r fr' rq' vl' s', queue_event_completed o close_file verify_io_u a ret fv s = Ret (b, r) s' /\ life (mkPl fr' rq' vl' vt en mn) s'.
Proof using Hdepth.
  intros L Ha Hu Hne. unfold queue_event_completed. erewrite bind_Ret by (by apply get_u_run). cbv beta zeta.
  assert (Hm : forall v, flags v = flags u -> u_ok PMain v).
  { intros v Hv. unfold u_ok in *. rewrite (uf_flags _ _ Hv). destruct Hu as (_ & ? & ? & _). done. }
  destruct (Z.eqb_spec (error u) 0) as [Ee|Ee]; cbn [negb].
  2:{ set (u1 := io_u_clear IO_U_F_FLIGHT u).
      assert (Hu1 : u_ok PMain u1 /\ has IO_U_F_FLIGHT u1 = false).
      { unfold u1. split; [destruct Hu as (_ & ? & ? & _); unfold u_ok; ucbn; done|].
        change (fl_flight (uf (io_u_clear IO_U_F_FLIGHT u)) = false). ucbn. done. }
      destruct Hu1 as [Hu1 Hf1]. pose proof (life_main_same _ _ _ _ _ _ _ _ u u1 L Ha Hu1 eq_refl eq_refl) as L1.
      destruct (put_io_u_run _ _ _ _ _ _ _ _ u1 L1 (lookup_insert_eq _ _ _) Hf1) as (s' & E1 & L2 & _).
      unfold clear_io_u. erewrite bind_Ret; [|erewrite bind_Ret by (by apply upd_u_run); exact E1]. cbv beta.
      by eexists _, _, (a :: fr), rq, vl, s'. }
  assert (Hsync : forall s1 u1, life (mkPl fr rq vl vt en (a :: mn)) s1 -> units s1 !! a = Some u1 -> u_ok PEng u1 ->
    exists b r fr' rq' vl' s', (ret ← io_u_sync_complete o close_file verify_io_u a; mret ((ret <? 0) || negb fv, ret)) s1 = Ret (b, r) s' /\
      life (mkPl fr' rq' vl' vt en mn) s').
  { intros s1 u1 L1 Ha1 Hu1. destruct (io_u_sync_complete_run _ _ _ _ _ _ _ _ _ L1 Ha1 Hu1) as (r & fr' & vl' & s' & E1 & L2 & _).
    erewrite bind_Ret by exact E1. by eexists _, _, fr', rq, vl', s'. }
  destruct (Z.eqb_spec (resid u) 0) as [Er|Er]; cbn [negb]; [by apply (Hsync s u)|].
  assert (H1 : exists h, when (negb fv) (trim_io_piece a) s = Ret tt (set_hist h s) /\ life (mkPl fr rq vl vt en (a :: mn)) (set_hist h s)).
  { unfold when. destruct (negb fv); [by apply (trim_io_piece_run _ _ _ u)|]. exists (hist s). split; [by destruct s|]. by apply life_hist. }
  destruct H1 as (h & E1 & L1). erewrite bind_Ret by exact E1. cbv beta.
  destruct (Z.eqb_spec (to_int (xfer_buflen u - resid u)) 0) as [Eb|_]; [by destruct (Hne Ee Er)|].
  erewrite bind_Ret by (apply upd_u_run; exact Ha). cbv beta.
  set (u2 := with_xfer _ _ _ u). set (s2 := set_units _ _).
  assert (L2 : life (mkPl fr rq vl vt en (a :: mn)) s2).
  { apply (life_main_same _ _ _ _ _ _ _ (set_hist h s) u u2); [done|exact Ha|by apply Hm|done|done]. }
  assert (Ha2 : units s2 !! a = Some u2) by apply lookup_insert_eq.
  destruct (main_file_open _ _ _ _ _ _ _ _ u2 L2 Ha2) as (r & Hr & _); [apply Hu|].
  erewrite bind_Ret by (by apply get_f_run). cbv beta. destruct (_ =? f_size r).
  - apply (Hsync s2 u2); [done..|]. exact Hu.
  - destruct (requeue_io_u_run _ _ _ _ _ _ _ _ u2 L2 Ha2) as (s3 & E3 & L3 & _); [apply Hu|]. erewrite bind_Ret by exact E3. cbv beta.
    by eexists _, _, fr, (rq ++ [a]), vl, s3.
Qed.

Lemma queue_event_done fr rq vl vt en a mn s u d fv : life (mkPl fr rq vl vt en (a :: mn)) s -> units s !! a = Some u ->
  u_ok PEng u -> not_empty u ->
  exists x fr' rq' vl' s', io_queue_event o close_file verify_io_u a FIO_Q_COMPLETED d fv s = Ret x s' /\ life (mkPl fr' rq' vl' vt en mn) s'.
Proof using Hdepth.
  intros L Ha Hu Hne. unfold io_queue_event. cbn [Z.eqb FIO_Q_COMPLETED]. erewrite bind_Ret by (by apply get_u_run). cbv beta zeta.
  destruct (queue_event_completed_run _ _ _ _ _ _ _ _ u 0 fv L Ha Hu Hne) as (b & r & fr' & rq' & vl' & s1 & E1 & L1).
  erewrite bind_Ret by exact E1. cbv beta iota. destruct b; [|by eexists _, fr', rq', vl', s1].
  destruct (break_on_this_error_run _ d r _ L1) as (b & r' & s2 & E2 & L2). erewrite bind_Ret by exact E2. cbv beta iota.
  by eexists _, fr', rq', vl', s2.
Qed.

Lemma queue_event_queued fr rq vl vt en a mn s d fv : life (mkPl fr rq vl vt en mn) s -> a ∈ en ->
  exists x s', io_queue_event o close_file verify_io_u a FIO_Q_QUEUED d fv s = Ret x s' /\ life (mkPl fr rq vl vt en mn) s'.
Proof using.
  intros L Ha. unfold io_queue_event. cbn [Z.eqb FIO_Q_COMPLETED FIO_Q_QUEUED Pos.eqb].
  pose proof (li_ueng _ _ L) as Hu. cbn in Hu. rewrite Forall_forall in Hu. destruct (Hu a Ha) as (u & Hau & _).
  erewrite bind_Ret by (by apply get_u_run). cbv beta.
  destruct (break_on_this_error_run _ d 1 _ L) as (b & r & s1 & E1 & L1). erewrite bind_Ret by exact E1. cbv beta iota. by eexists _, s1.
Qed.

Lemma queue_event_busy fr rq vl vt en a mn s u d fv : life (mkPl fr rq vl vt en (a :: mn)) s -> units s !! a = Some u -> file u <> 0 ->
  exists x s', io_queue_event o close_file verify_io_u a FIO_Q_BUSY d fv s = Ret x s' /\ life (mkPl fr (rq ++ [a]) vl vt en mn) s'.
Proof using Hdepth.
  intros L Ha Hf. unfold io_queue_event. cbn [Z.eqb FIO_Q_COMPLETED FIO_Q_QUEUED FIO_Q_BUSY Pos.eqb].
  assert (H1 : exists s1 u1, when (negb fv) (unlog_io_piece a) s = Ret tt s1 /\ life (mkPl fr rq vl vt en (a :: mn)) s1 /\ units s1 !! a = Some u1 /\ file u1 = file u).
  { unfold when. destruct (negb fv); [|by exists s, u].
    destruct (unlog_io_piece_run _ _ _ _ _ _ _ _ _ L Ha) as (s1 & u1 & E1 & L1 & _ & Ha1 & _ & Hf1 & _). by exists s1, u1. }
  destruct H1 as (s1 & u1 & E1 & L1 & Ha1 & Hf1). erewrite bind_Ret by exact E1. cbv beta.
  destruct (requeue_io_u_run _ _ _ _ _ _ _ _ u1 L1 Ha1) as (s2 & E2 & L2 & _); [congruence|]. erewrite bind_Ret by exact E2. cbv beta.
  destruct (td_io_commit_run _ _ _ _ _ _ _ L2) as (s3 & E3 & L3 & _). erewrite bind_Ret by exact E3. cbv beta.
  destruct (break_on_this_error_run _ d (if 0 <? 0 then 0 else FIO_Q_BUSY) _ L3) as (b & r & s4 & E4 & L4).
  erewrite bind_Ret by exact E4. cbv beta iota. by eexists _, s4.
Qed.

(** ** The threads that verify *)

Lemma verify_take_run fr rq vl vt en mn s : life (mkPl fr rq vl vt en mn) s ->
  exists s', verify_take s = Ret vl s' /\ life (mkPl fr rq [] (vl ++ vt) en mn) s'.
Proof using.
  intros L. unfold verify_take. mstep. mstep. rewrite (li_vl _ _ L). eexists. split; [reflexivity|].
  destruct L. constructor; cbn in *; try done.
  - rewrite <- li_all0. unfold everywhere. cbn. solve_Permutation.
  - by apply Forall_app.
Qed.

Lemma verify_one_run fr rq vl vt en a mn s : life (mkPl fr rq vl (a :: vt) en mn) s ->
  exists r s', verify_one o close_file verify_io_u a s = Ret r s' /\ life (mkPl (a :: fr) rq vl vt en mn) s' /\ forall b, b <> a -> units s' !! b = units s !! b.
Proof using Hdepth.
  intros L. destruct (apart_vt _ _ _ _ _ _ _ _ L) as (H1 & H2 & H3 & H4 & H5 & H6 & H7).
  pose proof (li_uvt _ _ L) as Hv. cbn in Hv. apply Forall_cons in Hv as [(u & Ha & Hfl & Hin) Hv].
  unfold verify_one. erewrite bind_Ret by (by apply upd_u_run). cbv beta.
  set (u1 := io_u_set IO_U_F_NO_FILE_PUT u). set (s1 := set_units _ s).
  assert (Ha1 : units s1 !! a = Some u1) by apply lookup_insert_eq.
  erewrite bind_Ret by (by apply get_u_run). cbv beta zeta.
  set (u2 := io_u_set IO_U_F_FREE (with_file 0 u1)).
  assert (Hu : has IO_U_F_NO_FILE_PUT u1 = true /\ u_ok PFree u2 /\ has IO_U_F_IN_CUR_DEPTH u2 = false).
  { change (has IO_U_F_NO_FILE_PUT u1) with (fl_noput (uf u1)). change (has IO_U_F_IN_CUR_DEPTH u2) with (fl_in (uf u2)).
    unfold u2, u1, u_ok. ucbn. done. }
  destruct Hu as (Hn1 & Hf2 & Hi2).
  pose proof (life_lengths _ _ _ _ _ _ _ L) as HL. cbn [length] in HL.
  destruct (proj1 (qpush_run fr (io_u_freelist s) a (li_free _ _ L))) as (q & E1 & S1 & M1); [rewrite (li_qmax _ _ L); lia|].
  assert (Hput : exists s2, put_io_u close_file a s1 = Ret tt s2 /\ life (mkPl (a :: fr) rq vl vt en mn) s2 /\ forall b, b <> a -> units s2 !! b = units s !! b).
  { unfold put_io_u. erewrite bind_Ret by (by apply get_u_run). cbv beta. rewrite Hn1, andb_false_r. mstep. cbv zeta. fold u2. mstep. rewrite Hi2. mstep.
    unfold push_free. cbn [io_u_freelist set_units s1]. rewrite E1. eexists. split; [reflexivity|].
    split; [|intros b Hb; cbn; by rewrite !lookup_insert_ne by done].
    destruct L. constructor; cbn in *; try done; try (rewrite insert_insert_eq; by apply uat_insert).
    - rewrite <- li_all0. unfold everywhere. cbn. solve_Permutation.
    - by rewrite M1.
    - rewrite insert_insert_eq. constructor; [exists u2; by rewrite lookup_insert_eq|]. by apply uat_insert.
    - rewrite insert_insert_eq. apply map_Forall_insert_2; [exact (li_ro0 a u Ha)|done].
    - rewrite insert_insert_eq. eapply refs_ok_ext; [|exact li_refs0]. intros f _. unfold referring. cbn.
      rewrite users_insert; [done|]. by rewrite !not_elem_of_app. }
  destruct Hput as (s2 & E2 & L2 & Hun). erewrite bind_Ret by exact E2. cbv beta.
  destruct (verify_io_u a u1 =? 0); [by eexists _, s2|]. destruct (td_non_fatal_error _ _ _); [|by eexists _, s2].
  mstep. mstep. eexists _, _. split; [reflexivity|]. split; [by repeat apply life_errors|done].
Qed.
End Inv.
