(* ===== verification/IoLifeRun.v ===== *)
(** Whole jobs over the invariant of IoLifeInv.v: filling a unit, the steps of the main
    thread and of the threads that verify, in any order, and what holds in every state
    they reach; quiescing with an engine that makes progress; and runs that go wrong. *)
From S2P Require Import Prelude IouQueue IoEngine IoLife IoLifeInv.
#[local] Open Scope Z_scope.

Section Run.
Context {E : Type} {IE : IoEngine E} {IL : IoEngineLaws E}.
Variable o : job.
Variable close_file : Z -> Z.
Variable verify_io_u : Z -> io_u -> Z.
Hypothesis Hdepth : 0 < iodepth o < 2 ^ 31.
Hypothesis Hmax : 0 <= iodepth_batch_complete_max o.

(** [slow]: what is known of the engine when quiescing with [fuel] turns still runs. *)
Variable slow : Prop.
Variable fuel : nat.
Definition quiesce_bound : Prop := forall C fr rq vl vt en mn (s : td E), life o C (mkPl fr rq vl vt en mn) s ->
  cur_depth s <> 0 \/ io_u_queued s = 0 ->
  match io_u_quiesce o close_file verify_io_u fuel s with Diverge _ => slow | _ => True end.
Hypothesis Hslow : quiesce_bound.

Lemma life_mono (C D : Z -> Prop) G (s : td E) : (forall f, C f -> D f) -> life o C G s -> life o D G s.
Proof using.
  intros HC L. constructor; try apply L. intros f Hf. pose proof (li_refs _ _ _ _ L f Hf) as Hr.
  destruct (files s !! f); destruct Hr as [H1 H2]; split; auto.
Qed.

Lemma set_units_id a u (s : td E) : units s !! a = Some u -> set_units (<[a := u]> (units s)) s = s.
Proof using. intros Ha. rewrite insert_id by done. by destruct s. Qed.

Lemma files_only_units m (s s1 : td E) : files_only s s1 -> files_only (set_units m s) (set_units m s1).
Proof using. unfold files_only. intros F. rewrite F at 1. reflexivity. Qed.

Lemma units_files_only (s s1 : td E) : files_only s s1 -> units s1 = units s.
Proof using. unfold files_only. intros ->. reflexivity. Qed.

(** ** Filling a unit *)

(** A unit without a file that gets one, with its reference. *)
Lemma life_use C fr rq vl vt en a mn (s s3 : td E) u u1 u2 : life o C (mkPl fr rq vl vt en (a :: mn)) s -> units s !! a = Some u -> file u = 0 ->
  files_only (set_units (<[a := u1]> (units s)) s) s3 -> u_ok PMain u2 -> wok o u2 ->
  refs_ok C (files s3) (more (file u2) (users (units s) (rq ++ en ++ a :: mn))) ->
  life o C (mkPl fr rq vl vt en (a :: mn)) (set_units (<[a := u2]> (units s3)) s3).
Proof using.
  intros L Ha Hf F Hu2 Hw R. pose proof (units_files_only _ _ F) as Hun.
  set (s' := set_errors (td_error s3) (total_err_count s3) (first_error s3) (set_files (files s3) (nr_open_files s3) (nr_done_files s3) s)).
  replace (set_units (<[a := u2]> (units s3)) s3) with (set_units (<[a := u2]> (units s')) s').
  2:{ unfold files_only in F. rewrite Hun. cbn [units set_units s' set_errors set_files]. rewrite insert_insert_eq. rewrite F. reflexivity. }
  destruct (apart_main o C _ _ _ _ _ _ _ _ L) as (H1 & H2 & H3 & H4 & H5 & H6 & H7).
  eapply life_main_upd; [exact L|done|done|reflexivity|]. cbn [files s' set_errors set_files].
  eapply refs_ok_ext; [|exact R]. intros f Hf0. rewrite users_main by done. unfold more.
  rewrite (main_users o C _ _ _ _ _ _ _ _ _ _ L Ha), Hf. rewrite (proj2 (Z.eqb_neq 0 f)) by done.
  rewrite (Z.eqb_sym f). destruct (file u2 =? f); lia.
Qed.

(** A piece or file for a unit. *)
Definition pick_ok (C : Z -> Prop) (p : pick) : Prop := p_file p <> 0 /\ ~ C (p_file p).

Lemma pick_exists C fr rq vl vt en mn (s : td E) p : life o C (mkPl fr rq vl vt en mn) s -> pick_ok C p -> is_Some (files s !! p_file p).
Proof using.
  intros L [Hf HC]. pose proof (li_refs _ _ _ _ L _ Hf) as Hr. destruct (files s !! p_file p); [by eexists|]. by destruct Hr.
Qed.

(** What fill_verify and fill_trim have in common: [g] names the file, [h] ends. *)
Lemma fill_piece_run C fr rq vl vt en a mn (s : td E) u p g h : life o C (mkPl fr rq vl vt en (a :: mn)) s -> units s !! a = Some u ->
  file u = 0 -> pick_ok C p -> p_fd p <> -1 -> p_rest_ok p = true ->
  u_ok PMain (h (g u)) -> wok o (h (g u)) -> file (h (g u)) = p_file p ->
  exists s', (upd_u a g;; ok ← ensure_open p;
      if ok : bool then get_file (p_file p);; upd_u a h;; mret true else mret false) s = Ret true s' /\
    life o C (mkPl fr rq vl vt en (a :: mn)) s' /\ units s' !! a = Some (h (g u)).
Proof using.
  intros L Ha Hf Hp Hfd Hok Hu Hw Hfile. erewrite bind_Ret by (by apply upd_u_run). cbv beta.
  set (s1 := set_units (<[a := g u]> (units s)) s).
  pose proof (li_refs _ _ _ _ L) as Hr. unfold referring in Hr. cbn [g_req g_eng g_main] in Hr.
  destruct (ensure_open_run C p s1 (users (units s) (rq ++ en ++ a :: mn))) as (ok & s2 & E2 & F2 & R2 & Ho & Hok').
  { apply Hp. } { exact Hr. } { exact (pick_exists _ _ _ _ _ _ _ _ _ L Hp). }
  erewrite bind_Ret by exact E2. cbv beta. rewrite (Hok' Hfd Hok). destruct (Ho (Hok' Hfd Hok)) as (r & Hfr & Hro).
  destruct (get_file_run C (p_file p) s2 r _ Hfr Hro R2) as (s3 & E3 & F3 & R3 & _); [apply Hp|].
  erewrite bind_Ret by exact E3. cbv beta.
  assert (Ha3 : units s3 !! a = Some (g u)).
  { rewrite (units_files_only _ _ (files_only_trans _ _ _ F2 F3)). apply lookup_insert_eq. }
  erewrite bind_Ret by (by apply upd_u_run). cbv beta. eexists. split; [reflexivity|]. split; [|apply lookup_insert_eq].
  eapply (life_use C _ _ _ _ _ _ _ s s3 u (g u)); [done..|by eapply files_only_trans|done|done|]. by rewrite Hfile.
Qed.

(** Pieces whose files can be opened. *)
Definition piece_ok (C : Z -> Prop) (p : pick) : Prop := pick_ok C p /\ p_fd p <> -1 /\ p_rest_ok p = true.

Lemma fill_verify_run C fr rq vl vt en a mn (s : td E) u p off len trimmed : life o C (mkPl fr rq vl vt en (a :: mn)) s -> units s !! a = Some u ->
  has IO_U_F_FLIGHT u = false -> piece_ok C p ->
  exists s' u', fill_verify a p off len trimmed s = Ret true s' /\ life o C (mkPl fr rq vl vt en (a :: mn)) s' /\ units s' !! a = Some u' /\ file u' <> 0 /\ has IO_U_F_FLIGHT u' = false.
Proof using.
  intros L Ha Hfl (Hp & Hfd & Hrest). unfold fill_verify. erewrite bind_Ret by (by apply get_u_run). cbv beta.
  destruct (Z.eqb_spec (file u) 0) as [Hf|Hf]; cbn [negb]; [|by exists s, u].
  destruct (main_unit o _ _ _ _ _ _ _ _ _ L) as (u0 & Hu0 & Hok). rewrite Ha in Hu0. injection Hu0 as <-.
  change (fl_flight (uf u) = false) in Hfl. destruct Hok as [H1 H2].
  destruct (fill_piece_run C fr rq vl vt en a mn s u p
    (fun u => let u := io_u_set IO_U_F_VER_LIST (with_file (p_file p) (with_range off len u)) in if trimmed then io_u_set IO_U_F_TRIMMED u else u)
    (fun u => with_xfer (buflen u) 0 (offset u) (with_ddir DDIR_READ (acct u) u)) L Ha Hf Hp Hfd Hrest) as (s' & E1 & L1 & Ha1).
  - unfold u_ok. cbv zeta. destruct trimmed; ucbn; done.
  - intros ?. done.
  - by destruct trimmed.
  - eexists s', _. split; [exact E1|]. split; [done|]. split; [exact Ha1|]. split; [destruct trimmed; apply Hp|].
    match goal with |- has _ ?v = _ => change (fl_flight (uf v) = false) end. cbv zeta. destruct trimmed; ucbn; done.
Qed.

Lemma fill_trim_run C fr rq vl vt en a mn (s : td E) u p off len : life o C (mkPl fr rq vl vt en (a :: mn)) s -> units s !! a = Some u ->
  has IO_U_F_FLIGHT u = false -> piece_ok C p ->
  exists s' u', fill_trim a p off len s = Ret true s' /\ life o C (mkPl fr rq vl vt en (a :: mn)) s' /\ units s' !! a = Some u' /\ file u' <> 0 /\ has IO_U_F_FLIGHT u' = false.
Proof using.
  intros L Ha Hfl (Hp & Hfd & Hrest). unfold fill_trim. erewrite bind_Ret by (by apply get_u_run). cbv beta.
  destruct (Z.eqb_spec (file u) 0) as [Hf|Hf]; cbn [negb]; [|by exists s, u].
  destruct (main_unit o _ _ _ _ _ _ _ _ _ L) as (u0 & Hu0 & Hok). rewrite Ha in Hu0. injection Hu0 as <-.
  destruct (fill_piece_run C fr rq vl vt en a mn s u p (fun u => with_file (p_file p) (with_range off len u))
    (fun u => with_xfer (buflen u) 0 (offset u) (with_ddir DDIR_TRIM (acct u) u)) L Ha Hf Hp Hfd Hrest) as (s' & E1 & L1 & Ha1).
  - exact Hok.
  - intros ?. done.
  - done.
  - eexists s', _. split; [exact E1|]. split; [done|]. split; [exact Ha1|]. split; [apply Hp|]. exact Hfl.
Qed.

(** Outcomes: a result, or, under [D], a call that still runs. *)
Definition outcome_ok {A} (D : Prop) (Q : A -> td E -> Prop) (x : outcome (td E) A) : Prop :=
  match x with Ret a s => Q a s | Diverge _ => D | _ => False end.

Lemma outcome_bind {A B} D (Q : A -> td E -> Prop) (R : B -> td E -> Prop) (m : M (td E) A) (k : A -> M (td E) B) s :
  outcome_ok D Q (m s) -> (forall a s', Q a s' -> outcome_ok D R (k a s')) -> outcome_ok D R ((m ≫= k) s).
Proof using. intros Hm Hk. unfold mbind, M_bind. destruct (m s); cbn in *; auto. Qed.

Lemma outcome_weaken {A} (D D' : Prop) (Q Q' : A -> td E -> Prop) x : (D -> D') -> (forall a s, Q a s -> Q' a s) -> outcome_ok D Q x -> outcome_ok D' Q' x.
Proof using. destruct x; cbn; auto. Qed.

(** Dropping a reference that is not the last. *)
Lemma put_file_log_keep f r (s : td E) : files s !! f = Some r -> f_open r = true -> 1 < f_refs r ->
  put_file_log close_file f s =
    Ret tt (set_files (<[f := mkJf (f_open r) (f_closing r) (f_done r) (f_fd r) (f_refs r - 1) (f_size r)]> (files s)) (nr_open_files s) (nr_done_files s) s).
Proof using.
  intros Hf Ho Hr. unfold put_file_log, put_file. erewrite bind_Ret; [|erewrite bind_Ret by (by apply get_f_run); cbv beta; rewrite Ho; cbn [negb]].
  2:{ rewrite (proj2 (Z.eqb_neq (f_refs r) 0)) by lia. mstep. cbv zeta. rewrite (proj2 (Z.eqb_neq (f_refs r - 1) 0)) by lia. cbn [negb]. mstep. reflexivity. }
  by rewrite Ho.
Qed.

(** A file for which nothing could be filled: the unit lets it go and it is closed. *)
Lemma give_up_file_run C fr rq vl vt en a mn (s : td E) u f : life o C (mkPl fr rq vl vt en (a :: mn)) s -> units s !! a = Some u ->
  file u = f -> f <> 0 -> ~ C f ->
  exists s', (put_file_log close_file f;; td_io_close_file close_file f;; upd_u a (with_file 0);;
      (if nonuniform o then mret tt
       else r ← get_f f;
            put_f f (mkJf (f_open r) (f_closing r) true (f_fd r) (f_refs r) (f_size r));;
            modify (fun s => set_files (files s) (nr_open_files s) (u32 (nr_done_files s + 1)) s))) s = Ret tt s' /\
    life o (fun g => g = f \/ C g) (mkPl fr rq vl vt en (a :: mn)) s' /\ units s' !! a = Some (with_file 0 u).
Proof using.
  intros L Ha Hf Hf0 HC. pose proof (li_refs _ _ _ _ L) as Hr. unfold referring in Hr. cbn [g_req g_eng g_main] in Hr.
  pose proof (Hr f Hf0) as Hrf. destruct (files s !! f) as [r|] eqn:Ef; [|by destruct Hrf].
  destruct Hrf as [Hrf Hcl]. rewrite (main_users o C _ _ _ _ _ _ _ _ _ _ L Ha), Hf, Z.eqb_refl in Hrf. unfold refs_of in Hrf.
  pose proof (users_nonneg (units s) (rq ++ en ++ mn) f).
  destruct (f_open r) eqn:Eo; [|lia]. destruct (f_closing r) eqn:Ec; [by destruct HC; apply Hcl|].
  erewrite bind_Ret by (apply (put_file_log_keep f r s Ef Eo); lia). cbv beta. rewrite Eo, Ec.
  set (r1 := mkJf true false (f_done r) (f_fd r) (f_refs r - 1) (f_size r)).
  set (s1 := set_files (<[f := r1]> (files s)) (nr_open_files s) (nr_done_files s) s).
  assert (R1 : refs_ok C (files s1) (less f (users (units s) (rq ++ en ++ a :: mn)))).
  { cbn [files s1 set_files]. eapply refs_insert; [exact Hr| |done|apply less_ne|done]. unfold refs_of. cbn. rewrite less_eq.
    rewrite (main_users o C _ _ _ _ _ _ _ _ _ _ L Ha), Hf, Z.eqb_refl. lia. }
  destruct (td_io_close_file_run close_file C f s1 r1 _ (lookup_insert_eq _ _ _) eq_refl eq_refl R1 Hf0) as (ret & s2 & E2 & F2 & R2 & [r2 Ef2]).
  erewrite bind_Ret by exact E2. cbv beta.
  assert (F02 : files_only s s2) by (eapply files_only_trans; [|exact F2]; reflexivity).
  assert (Ha2 : units s2 !! a = Some u) by (rewrite (units_files_only _ _ F02); exact Ha).
  erewrite bind_Ret by (by apply upd_u_run). cbv beta.
  assert (L' : forall s3, files_only s s3 -> refs_ok (fun g => g = f \/ C g) (files s3) (less f (users (units s) (rq ++ en ++ a :: mn))) ->
     life o (fun g => g = f \/ C g) (mkPl fr rq vl vt en (a :: mn)) (set_units (<[a := with_file 0 u]> (units s3)) s3)).
  { intros s3 F3 R3. apply (life_mono C (fun g => g = f \/ C g)) in L; [|by right].
    destruct (apart_main o _ _ _ _ _ _ _ _ _ L) as (H1 & H2 & H3 & H4 & H5 & H6 & H7).
    destruct (main_unit o _ _ _ _ _ _ _ _ _ L) as (u0 & Hu0 & Hok). rewrite Ha in Hu0. injection Hu0 as <-.
    eapply life_main_upd; [exact L|exact Hok|exact (li_ro _ _ _ _ L a u Ha)|exact F3|].
    eapply refs_ok_ext; [|exact R3]. intros g Hg. rewrite users_main by done. unfold less.
    rewrite (main_users o _ _ _ _ _ _ _ _ _ _ _ L Ha), Hf. cbn [file with_file]. rewrite (proj2 (Z.eqb_neq 0 g)) by done.
    rewrite (Z.eqb_sym g). destruct (f =? g); lia. }
  destruct (nonuniform o).
  { eexists. split; [reflexivity|]. split; [by apply L'|apply lookup_insert_eq]. }
  pose proof (R2 f Hf0) as Hrf2. rewrite Ef2 in Hrf2. destruct Hrf2 as [Hrf2 _].
  erewrite bind_Ret by (apply get_f_run; exact Ef2). cbv beta. mstep.
  set (r3 := mkJf (f_open r2) (f_closing r2) true (f_fd r2) (f_refs r2) (f_size r2)).
  set (s3 := set_files (<[f := r3]> (files s2)) (nr_open_files s2) (u32 (nr_done_files s2 + 1)) s2).
  exists (set_units (<[a := with_file 0 u]> (units s3)) s3). split; [reflexivity|]. split; [|apply lookup_insert_eq]. apply L'.
  - eapply files_only_trans; [exact F02|]. reflexivity.
  - cbn [files s3 set_files]. eapply refs_insert; [exact R2|exact Hrf2|by left|done|done].
Qed.

(** One that could: the direction, the offset and the length. *)
Lemma filled_run C fr rq vl vt en a mn (s : td E) u d off len : life o C (mkPl fr rq vl vt en (a :: mn)) s -> units s !! a = Some u ->
  (d = DDIR_WRITE -> td_write o = true) ->
  life o C (mkPl fr rq vl vt en (a :: mn)) (set_units (<[a := with_range off len (with_ddir d d u)]> (units s)) s).
Proof using.
  intros L Ha Hd. destruct (main_unit o _ _ _ _ _ _ _ _ _ L) as (u0 & Hu0 & Hok). rewrite Ha in Hu0. injection Hu0 as <-.
  destruct (apart_main o _ _ _ _ _ _ _ _ _ L) as (H1 & H2 & H3 & H4 & H5 & H6 & H7).
  eapply life_main_upd; [exact L|exact Hok|exact Hd|apply files_only_refl|].
  eapply refs_ok_ext; [|exact (li_refs _ _ _ _ L)]. intros f _. unfold referring. cbn [g_req g_eng g_main].
  by rewrite users_main, (main_users o C _ _ _ _ _ _ _ _ _ _ L Ha) by done.
Qed.

Definition turn_ok (C : Z -> Prop) (t : turn) : Prop :=
  pick_ok C (t_pick t) /\ match t_fill t with Some (d, _, _) => d = DDIR_WRITE -> td_write o = true | None => True end.
Definition turns_ok (C : Z -> Prop) (ts : list turn) : Prop := Forall (turn_ok C) ts /\ NoDup (p_file ∘ t_pick <$> ts).

Lemma turns_ok_tail C t ts : turns_ok C (t :: ts) -> turns_ok (fun g => g = p_file (t_pick t) \/ C g) ts.
Proof using.
  intros [Hf Hn]. apply Forall_cons in Hf as [_ Hf]. apply NoDup_cons in Hn as [Hnt Hn]. split; [|done].
  rewrite Forall_forall in *. intros t' Ht'. destruct (Hf t' Ht') as ([H1 H2] & H3). split; [split; [done|]|done].
  intros [H4|H4]; [|done]. apply Hnt. apply list_elem_of_fmap. by exists t'.
Qed.

(** The unit in hand after the choice of a file. *)
Definition chosen rq vt a mn (stop r : Z) (s : td E) : Prop :=
  exists C fr vl en u, life o C (mkPl fr rq vl vt en (a :: mn)) s /\ units s !! a = Some u /\ has IO_U_F_FLIGHT u = false /\
    (r = 0 /\ file u <> 0 \/ r = stop /\ file u = 0).

(** One turn up to the fill. *)
Lemma turn_run C fr rq vl vt en a mn (s : td E) u t : life o C (mkPl fr rq vl vt en (a :: mn)) s -> units s !! a = Some u ->
  file u = 0 -> has IO_U_F_FLIGHT u = false -> turn_ok C t ->
  exists ok s1, ensure_open (t_pick t) s = Ret ok s1 /\
    (if ok : bool then exists s3, (upd_u a (with_file (p_file (t_pick t)));; get_file (p_file (t_pick t))) s1 = Ret tt s3 /\
        life o C (mkPl fr rq vl vt en (a :: mn)) s3 /\ units s3 !! a = Some (with_file (p_file (t_pick t)) u)
     else life o C (mkPl fr rq vl vt en (a :: mn)) s1 /\ units s1 !! a = Some u).
Proof using.
  intros L Ha Hf Hfl [Hp _]. pose proof (li_refs _ _ _ _ L) as Hr. unfold referring in Hr. cbn [g_req g_eng g_main] in Hr.
  destruct (ensure_open_run C (t_pick t) s _ (proj1 Hp) Hr (pick_exists _ _ _ _ _ _ _ _ _ L Hp)) as (ok & s1 & E1 & F1 & R1 & Ho & _).
  exists ok, s1. split; [done|]. pose proof (units_files_only _ _ F1) as Hu1. destruct ok.
  2:{ split; [|by rewrite Hu1]. eapply life_files_only; [exact L|done|done]. }
  destruct (Ho eq_refl) as (r & Hfr & Hro).
  erewrite bind_Ret by (apply upd_u_run; by rewrite Hu1). cbv beta.
  set (u1 := with_file (p_file (t_pick t)) u). set (s2 := set_units (<[a := u1]> (units s1)) s1).
  destruct (get_file_run C (p_file (t_pick t)) s2 r _ Hfr Hro R1 (proj1 Hp)) as (s3 & E3 & F3 & R3 & _).
  exists s3. split; [done|].
  assert (Ha3 : units s3 !! a = Some u1) by (rewrite (units_files_only _ _ F3); apply lookup_insert_eq).
  split; [|done]. rewrite <- (set_units_id a u1 s3) by done.
  destruct (main_unit o _ _ _ _ _ _ _ _ _ L) as (u0 & Hu0 & Hok). rewrite Ha in Hu0. injection Hu0 as <-.
  eapply (life_use C _ _ _ _ _ _ _ s s3 u u1); [done|done|done| |exact Hok|exact (li_ro _ _ _ _ L a u Ha)|exact R3].
  eapply files_only_trans; [|exact F3]. unfold s2. rewrite Hu1. by apply files_only_units.
Qed.

Lemma set_io_u_file_run rq vt a mn stop ts : forall C fr vl en (s : td E) u,
  life o C (mkPl fr rq vl vt en (a :: mn)) s -> units s !! a = Some u -> file u = 0 -> has IO_U_F_FLIGHT u = false -> turns_ok C ts ->
  outcome_ok slow (chosen rq vt a mn stop) (set_io_u_file o close_file verify_io_u fuel a ts stop s).
Proof using Hdepth Hmax Hslow.
  induction ts as [|t ts IH]; intros C fr vl en s u L Ha Hf Hfl Hts.
  { cbn. exists C, fr, vl, en, u. split; [done|]. split; [done|]. split; [done|]. by right. }
  destruct Hts as [Hall Hnd]. pose proof (Forall_inv Hall) as Ht. pose proof (turns_ok_tail C t ts (conj Hall Hnd)) as Hts'.
  destruct (turn_run C _ _ _ _ _ _ _ _ _ t L Ha Hf Hfl Ht) as (ok & s1 & E1 & Hok). cbn [set_io_u_file]. cbv zeta.
  erewrite bind_Ret by exact E1. cbv beta. destruct ok.
  2:{ destruct Hok as [L1 Ha1]. eapply IH; [|exact Ha1|done|done|exact Hts'].
      eapply life_mono; [|exact L1]. by right. }
  destruct Hok as (s3 & E3 & L3 & Ha3). set (f := p_file (t_pick t)) in *. set (u1 := with_file f u) in *.
  destruct Ht as [[Hf0 HCf] Hfill].
  assert (Hassoc : forall {B} (k : M (td E) B), (upd_u a (with_file f);; get_file f;; k) s1 = k s3).
  { intros B k. revert E3. unfold mbind, M_bind. destruct (upd_u a (with_file f) s1); [|done..]. intros E3. by rewrite E3. }
  rewrite Hassoc. clear Hassoc E3.
  assert (Hq : outcome_ok slow (fun _ s4 => exists fr4 vl4 en4, life o C (mkPl fr4 rq vl4 vt en4 (a :: mn)) s4 /\ units s4 !! a = Some u1)
     (when (t_sleep t) (io_u_quiesce o close_file verify_io_u fuel;; mret tt) s3)).
  { unfold when. destruct (t_sleep t) eqn:Es; [|by exists fr, vl, en].
    pose proof (io_u_quiesce_run o C close_file Hdepth verify_io_u _ _ _ _ _ _ _ fuel L3 Hmax) as HQ.
    assert (Hc : cur_depth s3 <> 0 \/ io_u_queued s3 = 0) by (left; rewrite (li_depth _ _ _ _ L3); cbn; lia).
    specialize (HQ Hc). pose proof (Hslow _ _ _ _ _ _ _ _ L3 Hc) as HS. unfold mbind, M_bind. destruct (io_u_quiesce _ _ _ _ _); cbn; try done.
    - destruct HQ as (fr4 & vl4 & L4 & _ & _ & Hu4). exists fr4, vl4, []. split; [done|]. rewrite Hu4 by (by left). done. }
  eapply outcome_bind; [exact Hq|]. intros [] s4 (fr4 & vl4 & en4 & L4 & Ha4). destruct (t_fill t) as [[[d off] len]|].
  - erewrite bind_Ret by (by apply upd_u_run). cbv beta. cbn. eexists C, fr4, vl4, en4, _.
    split; [by apply filled_run|]. split; [apply lookup_insert_eq|]. split; [done|]. by left.
  - destruct (give_up_file_run C _ _ _ _ _ _ _ _ u1 f L4 Ha4 eq_refl Hf0 HCf) as (s5 & E5 & L5 & Ha5).
    match goal with |- outcome_ok _ _ ?x => assert (Hx : x = set_io_u_file o close_file verify_io_u fuel a ts stop s5) end.
    { revert E5. unfold mbind, M_bind. destruct (put_file_log close_file f s4) as [x1 t1| | |]; [|done..].
      destruct (td_io_close_file close_file f t1) as [x2 t2| | |]; [|done..]. destruct (upd_u a (with_file 0) t2) as [x3 t3| | |]; [|done..].
      intros E5. by rewrite E5. }
    rewrite Hx. eapply IH; [exact L5|exact Ha5|done|done|exact Hts'].
Qed.

(** A choice for a unit. *)
Definition choice_ok (C : Z -> Prop) (c : choice) : Prop :=
  match c_verify c with Some (p, _, _, _) => piece_ok C p | None => True end /\
  match c_trim c with Some (p, _, _) => piece_ok C p | None => True end /\
  turns_ok C (c_turns c).

(** What [get_io_u] gives: a unit in hand with its file, or none. *)
Definition got_unit vt mn (x : unit_or_err) (s : td E) : Prop :=
  exists C fr rq vl en,
    match x with
    | TheUnit a => life o C (mkPl fr rq vl vt en (a :: mn)) s /\ exists u, units s !! a = Some u /\ has IO_U_F_FLIGHT u = false /\ file u <> 0
    | _ => life o C (mkPl fr rq vl vt en mn) s
    end.

Lemma err_put_run C fr rq vl vt en a mn (s : td E) u e : life o C (mkPl fr rq vl vt en (a :: mn)) s -> units s !! a = Some u ->
  has IO_U_F_FLIGHT u = false -> outcome_ok False (got_unit vt mn) (err_put close_file a e s).
Proof using Hdepth.
  intros L Ha Hfl. destruct (put_io_u_run o C close_file Hdepth _ _ _ _ _ _ _ _ _ L Ha Hfl) as (s' & E1 & L1 & _).
  unfold err_put. erewrite bind_Ret by exact E1. cbn. by exists C, (a :: fr), rq, vl, en.
Qed.

Lemma prep_or_put_run C fr rq vl vt en a mn (s : td E) u c e : life o C (mkPl fr rq vl vt en (a :: mn)) s -> units s !! a = Some u ->
  has IO_U_F_FLIGHT u = false -> file u <> 0 -> outcome_ok False (got_unit vt mn) (prep_or_put o close_file a c e s).
Proof using Hdepth.
  intros L Ha Hfl Hf. unfold prep_or_put. erewrite bind_Ret by (by apply get_u_run). cbv beta.
  rewrite (proj2 (Z.eqb_neq _ _) Hf). mstep. unfold fio_ro_check.
  assert (Hro : negb ((ddir u =? DDIR_WRITE) && negb (td_write o)) = true).
  { apply negb_true_iff. destruct (Z.eqb_spec (ddir u) DDIR_WRITE) as [Hd|]; [|done]. by rewrite (li_ro _ _ _ _ L a u Ha Hd). }
  rewrite Hro. mstep. destruct (c_prep c =? 0); [|by eapply err_put_run].
  cbn. exists C, fr, rq, vl, en. split; [done|]. by exists u.
Qed.

(** The end of [get_io_u] after a file was looked for. *)
Lemma after_file_run rq vt a mn stop c (s : td E) r : chosen rq vt a mn stop r s ->
  outcome_ok False (got_unit vt mn)
    ((if negb (r =? 0) then err_put close_file a (- EBUSY) else
      u ← get_u a;
      if file u =? 0 then err_put close_file a 0 else
      f ← get_f (file u);
      assert (f_open f);;
      if ddir_rw (ddir u) && (buflen u =? 0) && negb (noio o) then err_put close_file a 0
      else put_u a (with_xfer (buflen u) 0 (offset u) u);; prep_or_put o close_file a c 0) s).
Proof using Hdepth.
  intros (C & fr & vl & en & u & L & Ha & Hfl & Hc). destruct (Z.eqb_spec r 0) as [_|_]; cbn [negb]; [|by eapply err_put_run].
  erewrite bind_Ret by (by apply get_u_run). cbv beta. destruct (Z.eqb_spec (file u) 0) as [E0|E0]; [by eapply err_put_run|].
  destruct (main_file_open o C _ _ _ _ _ _ _ _ _ L Ha E0) as (fr0 & Hfr & Ho). erewrite bind_Ret by (by apply get_f_run). cbv beta.
  rewrite Ho. mstep. destruct (_ && _ && _); [by eapply err_put_run|]. mstep.
  eapply prep_or_put_run; [|apply lookup_insert_eq|done|done].
  destruct (main_unit o _ _ _ _ _ _ _ _ _ L) as (u0 & Hu0 & Hok). rewrite Ha in Hu0. injection Hu0 as <-.
  by eapply life_main_same.
Qed.

Lemma get_io_u_run C fr rq vl vt en mn (s : td E) c : life o C (mkPl fr rq vl vt en mn) s -> choice_ok C c ->
  outcome_ok slow (got_unit vt mn) (get_io_u o close_file verify_io_u fuel c s).
Proof using Hdepth Hmax Hslow.
  intros L (Hv & Ht & Hts). destruct (__get_io_u_run o C Hdepth _ _ _ _ _ _ _ L) as (g & s1 & E1 & Hg).
  unfold get_io_u. erewrite bind_Ret by exact E1. cbv beta. destruct g as [a| |].
  2,3: subst s1; cbn; by exists C, fr, rq, vl, en.
  destruct Hg as (u & fr' & rq' & Hwhere & L1 & Ha & Hfl & _ & _).
  assert (Hw : forall x, outcome_ok False (got_unit vt mn) x -> outcome_ok slow (got_unit vt mn) x).
  { intros x. by apply outcome_weaken. }
  destruct (c_verify c) as [[[[p off] len] trimmed]|].
  { destruct (fill_verify_run C _ _ _ _ _ _ _ _ u p off len trimmed L1 Ha Hfl Hv) as (s2 & u2 & E2 & L2 & Ha2 & Hf2 & Hfl2).
    erewrite bind_Ret by exact E2. cbv beta iota. apply Hw. by eapply prep_or_put_run. }
  mstep. cbv beta iota. destruct (c_trim c) as [[[p off] len]|].
  { destruct (fill_trim_run C _ _ _ _ _ _ _ _ u p off len L1 Ha Hfl Ht) as (s2 & u2 & E2 & L2 & Ha2 & Hf2 & Hfl2).
    erewrite bind_Ret by exact E2. cbv beta iota. apply Hw. by eapply prep_or_put_run. }
  mstep. cbv beta iota. erewrite bind_Ret by (by apply get_u_run). cbv beta. destruct (Z.eqb_spec (file u) 0) as [E0|E0]; cbn [negb].
  2:{ apply Hw. by eapply prep_or_put_run. }
  eapply outcome_bind; [by eapply set_io_u_file_run|]. intros r s2 Hc. apply Hw. by eapply after_file_run.
Qed.
End Run.
