(* ===== verification/IoLifeSys.v ===== *)
(** A whole job over the life of I/O units: the main thread, in the order of do_io and
    do_verify of src/fio/backend.c, and the threads that verify, in any interleaving.
    No run fails an assertion, loses a unit or a reference of a file, or counts a unit
    twice; with an engine that makes progress no run waits for ever; and runs that
    leave the conditions under which this holds. *)
From S2P Require Import Prelude IouQueue IoEngine IoLife IoLifeInv IoLifeRun.
#[local] Open Scope Z_scope.

(** * Threads *)

(** The main thread: between two units, with a unit to submit, or with one that was
    submitted and what came of it. *)
Inductive phase : Type := Idle | Hold (a : Z) | Submitted (a ret d : Z).

(** The lists of the threads that verify. *)
Record sys (E : Type) : Type := mkSys { s_td : td E; s_main : phase; s_threads : list (list Z) }.
Arguments mkSys {E}. Arguments s_td {E}. Arguments s_main {E}. Arguments s_threads {E}.

Inductive event : Type :=
| EGet (c : choice)                       (* get_io_u *)
| EAim (e : end_io_fn) (log : bool)       (* the end_io hook, log_io_piece *)
| EDrop                                   (* verify_state_should_stop: put_io_u *)
| ESubmit                                 (* io_u_submit *)
| EQueueEvent (from_verify : bool)        (* io_queue_event *)
| ECommit
| EReap (min : Z)                         (* io_u_queued_complete *)
| EWait                                   (* wait_for_completions *)
| EQuiesce                                (* io_u_quiesce *)
| EVTake (i : nat)                        (* a thread takes the list of units to verify *)
| EVOne (i : nat).                        (* and verifies one *)

(** A file that cannot be taken: there is none, or it is being closed. *)
Definition closing (fs : gmap Z jfile) (f : Z) : bool :=
  match fs !! f with Some r => f_open r && f_closing r | None => true end.

Definition pick_okb (fs : gmap Z jfile) (p : pick) : bool := negb (p_file p =? 0) && negb (closing fs (p_file p)).
Definition piece_okb (fs : gmap Z jfile) (p : pick) : bool := pick_okb fs p && negb (p_fd p =? -1) && p_rest_ok p.

Section Sys.
Context {E : Type} {IE : IoEngine E}.
Variable o : job.
Variable close_file : Z -> Z.
Variable verify_io_u : Z -> io_u -> Z.
Variable fuel : nat.

Definition turn_okb (fs : gmap Z jfile) (t : turn) : bool :=
  pick_okb fs (t_pick t) && match t_fill t with Some (d, _, _) => negb (d =? DDIR_WRITE) || td_write o | None => true end.

(** Files are not taken while they are being closed, nor twice for one unit; the files of
    pieces of the history can be opened. *)
Definition choice_okb (s : td E) (c : choice) : bool :=
  match c_verify c with Some (p, _, _, _) => piece_okb (files s) p | None => true end &&
  match c_trim c with Some (p, _, _) => piece_okb (files s) p | None => true end &&
  forallb (turn_okb (files s)) (c_turns c) && bool_decide (NoDup (p_file ∘ t_pick <$> c_turns c)).

(** A transfer that is not empty, unless it fails. *)
Definition not_emptyb (u : io_u) : bool := negb (error u =? 0) || (resid u =? 0) || negb (to_int (xfer_buflen u - resid u) =? 0).

(** The steps the theorems are about.  This restricts the program, which also reaches
    two kinds of steps left out here: a transfer that is reported complete and is
    empty (backend.c:491), and quiescing with units queued and none counted
    (io_u.c:648); IoLifeRuns.v shows what they lead to.  The other conditions are
    duties of the caller: the file a unit is given is not being closed, and a minimum
    is not negative. *)
Definition legal (x : event) (y : sys E) : bool :=
  let s := s_td y in
  match x with
  | EGet c => choice_okb s c
  | EQueueEvent _ => match s_main y with
                     | Submitted a ret _ => negb (ret =? FIO_Q_COMPLETED) || match units s !! a with Some u => not_emptyb u | None => false end
                     | _ => true
                     end
  | EReap min => 0 <=? min
  | EQuiesce => negb (cur_depth s =? 0) || (io_u_queued s =? 0)
  | _ => true
  end.

(** The code of an event and what its thread goes on with; no value when its thread is
    elsewhere. *)
Definition code (x : event) (ph : phase) (vs : list (list Z)) : option (M (td E) (phase * list (list Z))) :=
  match x, ph with
  | EGet c, Idle => Some (g ← get_io_u o close_file verify_io_u fuel c; mret (match g with TheUnit a => Hold a | _ => Idle end, vs))
  | EAim e log, Hold a => Some (upd_u a (fun u => with_ipo (log || ipo u) (with_end e u));; mret (Hold a, vs))
  | EDrop, Hold a => Some (put_io_u close_file a;; mret (Idle, vs))
  | ESubmit, Hold a => Some (u ← get_u a; ret ← io_u_submit o a; mret (Submitted a ret (ddir u), vs))
  | EQueueEvent fv, Submitted a ret d => Some (io_queue_event o close_file verify_io_u a ret d fv;; mret (Idle, vs))
  | ECommit, Idle => Some (td_io_commit;; mret (Idle, vs))
  | EReap min, Idle => Some (io_u_queued_complete o close_file verify_io_u min;; mret (Idle, vs))
  | EWait, Idle => Some (wait_for_completions o close_file verify_io_u fuel;; mret (Idle, vs))
  | EQuiesce, Idle => Some (io_u_quiesce o close_file verify_io_u fuel;; mret (Idle, vs))
  | EVTake i, _ => match vs !! i with
                   | Some [] => Some (l ← verify_take; mret (ph, <[i := l]> vs))
                   | _ => None
                   end
  | EVOne i, _ => match vs !! i with
                  | Some (a :: l) => Some (verify_one o close_file verify_io_u a;; mret (ph, <[i := l]> vs))
                  | _ => None
                  end
  | _, _ => None
  end.

(** A run; no value when an event is not possible or not legal. *)
Fixpoint run (xs : list event) (y : sys E) : option (outcome (td E) (sys E)) :=
  match xs with
  | [] => Some (Ret y (s_td y))
  | x :: xs' =>
      if legal x y then
        m ← code x (s_main y) (s_threads y);
        match m (s_td y) with
        | Ret (ph, vs) s => run xs' (mkSys s ph vs)
        | Exit c s => Some (Exit c s)
        | Undef s => Some (Undef s)
        | Diverge s => Some (Diverge s)
        end
      else None
  end.

(** A job at its start: its units are free, its files closed, [n] threads verify. *)
Definition start (addr : nat -> Z) (fs : gmap Z jfile) (e : E) (n : nat) : option (sys E) :=
  s ← init_io_u o addr fs e; Some (mkSys s Idle (replicate n [])).
End Sys.

(** * Safety *)

Section Safe.
Context {E : Type} {IE : IoEngine E} {IL : IoEngineLaws E}.
Variable o : job.
Variable close_file : Z -> Z.
Variable verify_io_u : Z -> io_u -> Z.
Variable fuel : nat.
Hypothesis Hdepth : 0 < iodepth o < 2 ^ 31.
Hypothesis Hmax : 0 <= iodepth_batch_complete_max o.
Hypothesis Hmin : 0 <= iodepth_batch_complete_min o.

(** What the main thread has in hand. *)
Definition main_ok (ph : phase) (en mn : list Z) (m : gmap Z io_u) : Prop :=
  match ph with
  | Idle => mn = []
  | Hold a => mn = [a] /\ uat (fun u => has IO_U_F_FLIGHT u = false /\ file u <> 0) m a
  | Submitted a ret _ =>
      ret = FIO_Q_QUEUED /\ mn = [] /\ a ∈ en \/
      ret = FIO_Q_COMPLETED /\ mn = [a] /\ uat (u_ok PEng) m a \/
      ret = FIO_Q_BUSY /\ mn = [a] /\ uat (fun u => file u <> 0) m a
  end.

Definition closed_files (s : td E) (f : Z) : Prop := closing (files s) f = true.

(** Every unit is in one place, and the units of threads are those they hold. *)
Definition sound (y : sys E) : Prop :=
  exists fr rq vl en mn, life o (closed_files (s_td y)) (mkPl fr rq vl (concat (s_threads y)) en mn) (s_td y) /\
    main_ok (s_main y) en mn (units (s_td y)).

Lemma life_closing C G (s : td E) : life o C G s -> life o (closed_files s) G s.
Proof using.
  intros L. constructor; try apply L. intros f Hf. pose proof (li_refs _ _ _ _ L f Hf) as Hr. unfold closed_files, closing.
  destruct (files s !! f) as [r|]; destruct Hr as [H1 H2]; (split; [done|]); [|done]. intros -> ->. done.
Qed.

Lemma sound_intro C fr rq vl vs en mn ph s : life o C (mkPl fr rq vl (concat vs) en mn) s -> main_ok ph en mn (units s) -> sound (mkSys s ph vs).
Proof using. intros L Hm. exists fr, rq, vl, en, mn. split; [|done]. by eapply life_closing. Qed.

Lemma pick_okb_ok s p : pick_okb (files s) p = true -> pick_ok (closed_files s) p.
Proof using.
  unfold pick_okb, pick_ok, closed_files. rewrite andb_true_iff, !negb_true_iff, Z.eqb_neq. intros [H1 H2]. split; [done|]. by rewrite H2.
Qed.

Lemma piece_okb_ok s p : piece_okb (files s) p = true -> piece_ok (closed_files s) p.
Proof using.
  unfold piece_okb, piece_ok. rewrite !andb_true_iff, negb_true_iff, Z.eqb_neq. intros [[H1 H2] H3]. split; [by apply pick_okb_ok|done].
Qed.

Lemma choice_okb_ok (s : td E) c : choice_okb o s c = true ->
  choice_ok o (closed_files s) c.
Proof using.
  unfold choice_okb. rewrite !andb_true_iff. intros [[[H1 H2] H3] H4].
  split; [|split; [|split]].
  - destruct (c_verify c) as [[[[p ?] ?] ?]|]; [|done]. by apply piece_okb_ok.
  - destruct (c_trim c) as [[[p ?] ?]|]; [|done]. by apply piece_okb_ok.
  - rewrite forallb_forall in H3. apply Forall_forall. intros t Ht. apply list_elem_of_In in Ht. specialize (H3 t Ht).
    apply andb_true_iff in H3 as [Hp Hd]. split; [by apply pick_okb_ok|]. destruct (t_fill t) as [[[d ?] ?]|]; [|done].
    intros ->. by rewrite orb_false_l in Hd.
  - by apply bool_decide_eq_true in H4.
Qed.

(** ** Submitting *)

Lemma io_u_submit_run C fr rq vl vt en a mn (s : td E) u : life o C (mkPl fr rq vl vt en (a :: mn)) s -> units s !! a = Some u ->
  has IO_U_F_FLIGHT u = false -> file u <> 0 ->
  exists ret s', io_u_submit o a s = Ret ret s' /\
    (ret = FIO_Q_QUEUED /\ life o C (mkPl fr rq vl vt (a :: en) mn) s' \/
     life o C (mkPl fr rq vl vt en (a :: mn)) s' /\
       (ret = FIO_Q_COMPLETED /\ uat (u_ok PEng) (units s') a \/ ret = FIO_Q_BUSY /\ uat (fun u => file u <> 0) (units s') a)).
Proof using Hdepth.
  intros L Ha Hfl Hf. unfold io_u_submit. erewrite bind_Ret by (by apply get_u_run). cbv beta. mstep. destruct (_ && _ && _).
  { exists FIO_Q_BUSY, s. split; [done|]. right. split; [done|]. right. split; [done|]. by exists u. }
  destruct (td_io_queue_run o C Hdepth _ _ _ _ _ _ _ _ _ L Ha Hfl Hf) as (ret & s' & E1 & _ & _ & _ & Hr).
  exists ret, s'. split; [done|]. destruct Hr as [Hr|(Hret & L' & u' & Ha' & Hf' & _ & Hfl')]; [by left|]. right. split; [done|].
  destruct (main_unit o C _ _ _ _ _ _ _ _ L') as (u0 & Hu0 & Hi & Hn). rewrite Ha' in Hu0. injection Hu0 as <-.
  destruct Hret as [->| ->]; [left|right]; (split; [done|]); exists u'; (split; [done|]); [|congruence].
  split; [by apply Hfl'|]. split; [done|]. split; [done|]. congruence.
Qed.

(** ** Waiting *)

Lemma wait_loop_run C rq vt full m : 0 <= m -> forall n fr vl en (s : td E), life o C (mkPl fr rq vl vt en []) s ->
  match wait_loop o close_file verify_io_u n full m s with
  | Ret _ s' => exists fr' vl' en', life o C (mkPl fr' rq vl' vt en' []) s'
  | Diverge _ => True
  | _ => False
  end.
Proof using Hdepth Hmax.
  intros Hm. induction n as [|n IH]; intros fr vl en s L; [done|]. cbn [wait_loop].
  destruct (io_u_queued_complete_run o C close_file Hdepth verify_io_u _ _ _ _ _ _ _ m L Hmax Hm (or_intror eq_refl)) as (ret & fr' & vl' & en' & evs & s' & E1 & L1 & _).
  erewrite bind_Ret by exact E1. cbv beta. mstep. destruct (_ || _); [by exists fr', vl', en'|]. by eapply IH.
Qed.

Lemma wait_min_nonneg (s : td E) full : 0 <= cur_depth s ->
  0 <= (if (full && (Z.min (iodepth_batch_complete_min o) (cur_depth s) =? 0)) || (iodepth_batch_complete_min o =? 0) then 1
        else Z.min (iodepth_batch_complete_min o) (cur_depth s)).
Proof using Hmin. intros Hc. destruct (_ || _); lia. Qed.

Lemma wait_for_completions_run C fr rq vl vt en (s : td E) : life o C (mkPl fr rq vl vt en []) s ->
  match wait_for_completions o close_file verify_io_u fuel s with
  | Ret _ s' => exists fr' vl' en', life o C (mkPl fr' rq vl' vt en' []) s'
  | Diverge _ => True
  | _ => False
  end.
Proof using Hdepth Hmax Hmin.
  intros L. unfold wait_for_completions. mstep. cbv zeta. eapply wait_loop_run; [|exact L].
  apply wait_min_nonneg. rewrite (li_depth _ _ _ _ L). lia.
Qed.

(** ** Events *)

(** [slow]: what is known of the engine when a wait with [fuel] turns still runs. *)
Variable slow : Prop.
Definition wait_bound : Prop := forall C fr rq vl vt en (s : td E), life o C (mkPl fr rq vl vt en []) s ->
  match wait_for_completions o close_file verify_io_u fuel s with Diverge _ => slow | _ => True end.
Hypothesis Hquiesce : quiesce_bound o close_file verify_io_u slow fuel.
Hypothesis Hwait : wait_bound.

#[local] Notation after := (fun (r : phase * list (list Z)) s => sound (mkSys s r.1 r.2)).

Lemma get_event c s vs : sound (mkSys s Idle vs) -> choice_okb o s c = true ->
  outcome_ok slow after ((g ← get_io_u o close_file verify_io_u fuel c; mret (match g with TheUnit a => Hold a | _ => Idle end, vs)) s).
Proof using Hdepth Hmax Hquiesce.
  intros (fr & rq & vl & en & mn & L & Hm) Hc. cbn in *. subst mn.
  eapply outcome_bind; [eapply get_io_u_run; [done|done|exact Hquiesce|exact L|by apply choice_okb_ok]|].
  intros g s' (C & fr' & rq' & vl' & en' & Hg). cbn. destruct g as [a| |]; [|by eapply sound_intro..].
  destruct Hg as (L' & u & Ha & Hfl & Hf). eapply sound_intro; [exact L'|]. split; [done|]. by exists u.
Qed.

Lemma aim_event e log a s vs : sound (mkSys s (Hold a) vs) ->
  outcome_ok slow after ((upd_u a (fun u => with_ipo (log || ipo u) (with_end e u));; mret (Hold a, vs)) s).
Proof using.
  intros (fr & rq & vl & en & mn & L & Hm & u & Ha & Hfl & Hf). cbn in *. subst mn.
  erewrite bind_Ret by (by apply upd_u_run). cbv beta. cbn. eapply sound_intro.
  - destruct (main_unit o _ _ _ _ _ _ _ _ _ L) as (u0 & Hu0 & Hok). rewrite Ha in Hu0. injection Hu0 as <-. by eapply life_main_same.
  - split; [done|]. eexists. split; [apply lookup_insert_eq|]. done.
Qed.

Lemma drop_event a s vs : sound (mkSys s (Hold a) vs) -> outcome_ok slow after ((put_io_u close_file a;; mret (Idle, vs)) s).
Proof using Hdepth.
  intros (fr & rq & vl & en & mn & L & Hm & u & Ha & Hfl & Hf). cbn in *. subst mn.
  destruct (put_io_u_run o _ close_file Hdepth _ _ _ _ _ _ _ _ _ L Ha Hfl) as (s' & E1 & L' & _).
  erewrite bind_Ret by exact E1. cbn. by eapply sound_intro.
Qed.

Lemma submit_event a s vs : sound (mkSys s (Hold a) vs) ->
  outcome_ok slow after ((u ← get_u a; ret ← io_u_submit o a; mret (Submitted a ret (ddir u), vs)) s).
Proof using Hdepth.
  intros (fr & rq & vl & en & mn & L & Hm & u & Ha & Hfl & Hf). cbn in *. subst mn.
  erewrite bind_Ret by (by apply get_u_run). cbv beta.
  destruct (io_u_submit_run _ _ _ _ _ _ _ _ _ u L Ha Hfl Hf) as (ret & s' & E1 & Hr). erewrite bind_Ret by exact E1. cbn.
  destruct Hr as [(-> & L')|(L' & [(-> & Hu)|(-> & Hu)])]; (eapply sound_intro; [exact L'|]).
  - left. split; [done|]. split; [done|]. by left.
  - right. left. done.
  - right. right. done.
Qed.

Lemma not_emptyb_ok u : not_emptyb u = true -> not_empty u.
Proof using.
  unfold not_emptyb, not_empty. intros H He Hr. rewrite He, (proj2 (Z.eqb_neq (resid u) 0) Hr) in H. cbn in H.
  apply negb_true_iff in H. by apply Z.eqb_neq in H.
Qed.

Lemma queue_event_event fv a ret d s vs : sound (mkSys s (Submitted a ret d) vs) -> legal o (EQueueEvent fv) (mkSys s (Submitted a ret d) vs) = true ->
  outcome_ok slow after ((io_queue_event o close_file verify_io_u a ret d fv;; mret (Idle, vs)) s).
Proof using Hdepth.
  intros (fr & rq & vl & en & mn & L & [(-> & -> & Ha)|[(-> & -> & u & Ha & Hu)|(-> & -> & u & Ha & Hf)]]) Hl; cbn [s_td s_main s_threads] in *.
  - destruct (queue_event_queued o _ close_file verify_io_u _ _ _ _ _ _ _ _ d fv L Ha) as (x & s' & E1 & L').
    erewrite bind_Ret by exact E1. cbn. by eapply sound_intro.
  - cbn in Ha. assert (Hne : not_emptyb u = true) by (cbn in Hl; by rewrite Ha in Hl).
    destruct (queue_event_done o _ close_file Hdepth verify_io_u _ _ _ _ _ _ _ _ _ d fv L Ha Hu (not_emptyb_ok _ Hne)) as (x & fr' & rq' & vl' & s' & E1 & L').
    erewrite bind_Ret by exact E1. cbn. by eapply sound_intro.
  - destruct (queue_event_busy o _ close_file Hdepth verify_io_u _ _ _ _ _ _ _ _ _ d fv L Ha Hf) as (x & s' & E1 & L').
    erewrite bind_Ret by exact E1. cbn. by eapply sound_intro.
Qed.

Lemma idle_event {A} (m : M (td E) A) s vs :
  (forall C fr rq vl en, life o C (mkPl fr rq vl (concat vs) en []) s ->
     outcome_ok slow (fun _ s' => exists fr' rq' vl' en', life o C (mkPl fr' rq' vl' (concat vs) en' []) s') (m s)) ->
  sound (mkSys s Idle vs) -> outcome_ok slow after ((m;; mret (Idle, vs)) s).
Proof using.
  intros Hm (fr & rq & vl & en & mn & L & Hmn). cbn in *. subst mn. eapply outcome_bind; [by eapply Hm|].
  intros _ s' (fr' & rq' & vl' & en' & L'). cbn. by eapply sound_intro.
Qed.

(** ** The threads that verify *)

Lemma concat_insert i (x l : list Z) vs : vs !! i = Some x -> exists k, concat vs ≡ₚ x ++ k /\ concat (<[i := l]> vs) ≡ₚ l ++ k.
Proof using.
  intros Hi. exists (concat (take i vs) ++ concat (drop (S i) vs)). split.
  - rewrite <- (take_drop_middle vs i x Hi) at 1. rewrite concat_app. cbn. solve_Permutation.
  - rewrite insert_take_drop by (by eapply lookup_lt_Some). rewrite concat_app. cbn. solve_Permutation.
Qed.

Lemma main_ok_units ph en mn m m' : main_ok ph en mn m -> (forall b, b ∈ mn -> m' !! b = m !! b) -> main_ok ph en mn m'.
Proof using.
  intros H Hs. destruct ph as [|a|a ret d]; [done| |].
  - destruct H as [-> (u & Ha & H)]. split; [done|]. exists u. by rewrite Hs by (by left).
  - destruct H as [H|[(-> & -> & u & Ha & H)|(-> & -> & u & Ha & H)]]; [by left| |].
    + right. left. split; [done|]. split; [done|]. exists u. by rewrite Hs by (by left).
    + right. right. split; [done|]. split; [done|]. exists u. by rewrite Hs by (by left).
Qed.

Lemma take_event i s ph vs : vs !! i = Some [] -> sound (mkSys s ph vs) ->
  outcome_ok slow after ((l ← verify_take; mret (ph, <[i := l]> vs)) s).
Proof using.
  intros Hi (fr & rq & vl & en & mn & L & Hm). cbn [s_td s_main s_threads] in *.
  destruct (verify_take_run o _ _ _ _ _ _ _ _ L) as (s' & E1 & L'). pose proof E1 as E1'. erewrite bind_Ret by exact E1. cbn.
  destruct (concat_insert i [] vl vs Hi) as (k & H1 & H2). eapply sound_intro.
  - eapply life_perm; [|reflexivity|reflexivity|exact L']. rewrite H1, H2. done.
  - eapply main_ok_units; [exact Hm|]. unfold verify_take in E1'. unfold mbind, M_bind in E1'. cbn in E1'. injection E1' as _ <-. done.
Qed.

Lemma one_event i a l s ph vs : vs !! i = Some (a :: l) -> sound (mkSys s ph vs) ->
  outcome_ok slow after ((verify_one o close_file verify_io_u a;; mret (ph, <[i := l]> vs)) s).
Proof using Hdepth.
  intros Hi (fr & rq & vl & en & mn & L & Hm). cbn [s_td s_main s_threads] in *.
  destruct (concat_insert i (a :: l) l vs Hi) as (k & H1 & H2).
  eapply life_perm in L; [|exact H1|reflexivity|reflexivity]. cbn in L.
  destruct (apart_vt o _ _ _ _ _ _ _ _ _ L) as (_ & _ & _ & _ & _ & Hmn & _).
  destruct (verify_one_run o _ close_file Hdepth verify_io_u _ _ _ _ _ _ _ _ L) as (r & s' & E1 & L' & Hun).
  erewrite bind_Ret by exact E1. cbn. eapply sound_intro.
  - eapply life_perm; [|reflexivity|reflexivity|exact L']. by rewrite H2.
  - eapply main_ok_units; [exact Hm|]. intros b Hb. apply Hun. by intros ->.
Qed.

Lemma event_sound x y m : sound y -> legal o x y = true -> code o close_file verify_io_u fuel x (s_main y) (s_threads y) = Some m ->
  outcome_ok slow after (m (s_td y)).
Proof using Hdepth Hmax Hmin Hquiesce Hwait.
  destruct y as [s ph vs]. cbn [s_td s_main s_threads]. intros Hs Hl Hc.
  destruct x, ph; cbn [code] in Hc; try discriminate; try (injection Hc as <-).
  - by apply get_event.
  - by apply aim_event.
  - by apply drop_event.
  - by apply submit_event.
  - by apply queue_event_event.
  - apply idle_event; [|done]. intros C fr rq vl en L. destruct (td_io_commit_run o _ _ _ _ _ _ _ _ L) as (s' & E1 & L' & _). rewrite E1. cbn. by eexists _, _, _, _.
  - apply idle_event; [|done]. intros C fr rq vl en L. cbn in Hl. apply Z.leb_le in Hl.
    destruct (io_u_queued_complete_run o C close_file Hdepth verify_io_u _ _ _ _ _ _ _ min L Hmax Hl (or_intror eq_refl)) as (ret & fr' & vl' & en' & evs & s' & E1 & L1 & _).
    rewrite E1. cbn. by eexists _, _, _, _.
  - apply idle_event; [|done]. intros C fr rq vl en L. pose proof (wait_for_completions_run _ _ _ _ _ _ _ L) as H1. pose proof (Hwait _ _ _ _ _ _ _ L) as H2.
    destruct (wait_for_completions _ _ _ _ _); cbn in *; try done. destruct H1 as (fr' & vl' & en' & L'). by eexists _, _, _, _.
  - apply idle_event; [|done]. intros C fr rq vl en L. cbn in Hl.
    assert (Hd : cur_depth s <> 0 \/ io_u_queued s = 0).
    { apply orb_true_iff in Hl as [Hl|Hl]; [left; by apply negb_true_iff, Z.eqb_neq in Hl|right; by apply Z.eqb_eq]. }
    pose proof (io_u_quiesce_run o C close_file Hdepth verify_io_u _ _ _ _ _ _ _ fuel L Hmax Hd) as H1. pose proof (Hquiesce _ _ _ _ _ _ _ _ L Hd) as H2.
    destruct (io_u_quiesce _ _ _ _ _); cbn in *; try done. destruct H1 as (fr' & vl' & L' & _). by eexists _, _, _, _.
  - destruct (vs !! i) as [[|]|] eqn:Ei; try discriminate. injection Hc as <-. by apply take_event.
  - destruct (vs !! i) as [[|]|] eqn:Ei; try discriminate. injection Hc as <-. by apply take_event.
  - destruct (vs !! i) as [[|]|] eqn:Ei; try discriminate. injection Hc as <-. by apply take_event.
  - destruct (vs !! i) as [[|a l]|] eqn:Ei; try discriminate. injection Hc as <-. by apply one_event.
  - destruct (vs !! i) as [[|a' l]|] eqn:Ei; try discriminate. injection Hc as <-. by apply one_event.
  - destruct (vs !! i) as [[|a' l]|] eqn:Ei; try discriminate. injection Hc as <-. by apply one_event.
Qed.

Lemma run_sound xs : forall y x, sound y -> run o close_file verify_io_u fuel xs y = Some x ->
  outcome_ok slow (fun y' s => s = s_td y' /\ sound y') x.
Proof using Hdepth Hmax Hmin Hquiesce Hwait.
  induction xs as [|x xs IH]; intros y r Hs Hr; cbn [run] in Hr.
  { injection Hr as <-. done. }
  destruct (legal o x y) eqn:El; [|done]. destruct (code _ _ _ _ _ _ _) as [m|] eqn:Ec; [|done]. cbn [mbind option_bind] in Hr.
  pose proof (event_sound x y m Hs El Ec) as He. destruct (m (s_td y)) as [[ph vs] s| | |]; cbn in He; [|done|done|].
  - by eapply IH.
  - by injection Hr as <-.
Qed.
End Safe.

(** * The start *)

Section Start.
Context {E : Type} {IE : IoEngine E} {IL : IoEngineLaws E}.
Variable o : job.
Variable addr : nat -> Z.
Hypothesis Hdepth : 0 < iodepth o < 2 ^ 31.

Definition new_unit : io_u := mkU IO_U_F_FREE 0 0 0 0 0 0 0 0 0 NoEnd false.
Definition set_pool (m : gmap Z io_u) (q : io_u_queue) (l : list Z) (s : td E) : td E :=
  mkTd m q (io_u_requeues s) l (verify_list s) (cur_depth s) (io_u_queued s) (io_u_in_flight s) (latency_qd s) (counts s) (td_error s) (total_err_count s) (first_error s) (last_was_sync s) (last_ddir s) (files s) (nr_open_files s) (nr_done_files s) (terminate s) (stop_io s) (td_done s) (hist s) (eng s).

Lemma init_units_run n : forall i (s : td E) l, stack_ok l (io_u_freelist s) -> Z.of_nat (length l + n) <= q_max (io_u_freelist s) ->
  exists q m, init_units n i addr s = Some (set_pool m q (io_u_all s ++ (addr <$> seq i n)) s) /\
    stack_ok (reverse (addr <$> seq i n) ++ l) q /\ q_max q = q_max (io_u_freelist s) /\
    forall a, m !! a = if bool_decide (a ∈ addr <$> seq i n) then Some new_unit else units s !! a.
Proof using.
  induction n as [|n IH]; intros i s l Hl Hr; cbn [init_units seq fmap list_fmap].
  { exists (io_u_freelist s), (units s). rewrite app_nil_r. split; [by destruct s|]. split; [done|]. split; [done|]. by intros a. }
  destruct (proj1 (qpush_run l _ (addr i) Hl)) as (q1 & E1 & S1 & M1); [lia|]. rewrite E1. cbn [mbind option_bind].
  match goal with |- context [init_units n (S i) addr ?t] => destruct (IH (S i) t (addr i :: l)) as (q & m & E2 & S2 & M2 & Hm) end.
  { exact S1. } { cbn. rewrite M1. lia. }
  exists q, m. rewrite E2. split; [|split; [|split]].
  - cbn. unfold set_pool. cbn. by rewrite <- app_assoc.
  - rewrite reverse_cons, <- app_assoc. exact S2.
  - cbn in M2. congruence.
  - intros a. rewrite Hm. cbn [units set_queues set_units]. destruct (decide (a = addr i)) as [->|Hne].
    + rewrite (bool_decide_eq_true_2 (addr i ∈ addr i :: _)) by (by left). destruct (bool_decide _); [done|]. by rewrite lookup_insert_eq.
    + rewrite lookup_insert_ne by done. assert (a ∈ addr i :: (addr <$> seq (S i) n) <-> a ∈ addr <$> seq (S i) n) as Hiff.
      { rewrite elem_of_cons. split; [intros [?|?]; done|by right]. }
      by rewrite (bool_decide_ext _ _ Hiff).
Qed.

(** Closed files. *)
Definition all_closed (fs : gmap Z jfile) : bool :=
  bool_decide (map_Forall (fun _ r => f_open r = false /\ f_refs r = 0 /\ f_fd r = -1) fs).

(** Addresses of the units: none is null and no two are equal. *)
Definition addr_ok : bool :=
  bool_decide (NoDup (addr <$> seq 0 (Z.to_nat (iodepth o)))) && bool_decide (0 ∉ addr <$> seq 0 (Z.to_nat (iodepth o))).

Lemma start_sound fs (e : E) n : addr_ok = true -> all_closed fs = true -> eng_ok (Z.to_nat (iodepth o)) e [] ->
  exists y, start o addr fs e n = Some y /\ sound o y.
Proof using Hdepth.
  intros Ha Hfs He. unfold addr_ok in Ha. apply andb_true_iff in Ha as [Hnd Hz]. apply bool_decide_eq_true in Hnd, Hz.
  apply bool_decide_eq_true in Hfs. unfold start, init_io_u.
  match goal with |- context [init_units _ _ _ ?t] => set (s0 := t) end.
  destruct (init_units_run (Z.to_nat (iodepth o)) 0 s0 []) as (q & m & E1 & S1 & M1 & Hm).
  { apply qinit_ok. unfold fits. lia. } { cbn. lia. }
  rewrite E1. cbn [mbind option_bind]. eexists. split; [reflexivity|].
  set (l := addr <$> seq 0 (Z.to_nat (iodepth o))) in *.
  apply (sound_intro o (fun f => fs !! f = None) (reverse l) [] [] _ [] []); [|done].
  assert (Hvt : concat (replicate n (@nil Z)) = []) by (induction n; done). rewrite Hvt.
  destruct (rinit_ok (iodepth o)) as [Hring Hrmax]; [lia|].
  constructor; cbn; try done; try (by constructor).
  - unfold everywhere. cbn. rewrite !app_nil_r. apply reverse_Permutation.
  - unfold l. rewrite length_fmap, length_seq. lia.
  - by rewrite app_nil_r in S1.
  - apply Forall_forall. intros a Hal. rewrite elem_of_reverse in Hal. exists new_unit. rewrite Hm, bool_decide_eq_true_2 by done. done.
  - intros a u Hau. rewrite Hm in Hau. destruct (bool_decide _); [|done]. by injection Hau as <-.
  - intros f Hf. destruct (fs !! f) as [r|] eqn:Er; [|done]. destruct (Hfs f r Er) as (H1 & H2 & H3). unfold refs_of. rewrite H1. done.
Qed.
End Start.

(** * Progress *)

Section Progress.
Context {E : Type} {IE : IoEngine E} {IL : IoEngineLaws E} {IV : IoEngineLive E}.
Variable o : job.
Variable close_file : Z -> Z.
Variable verify_io_u : Z -> io_u -> Z.
Hypothesis Hdepth : 0 < iodepth o < 2 ^ 31.
Hypothesis Hmax : 0 <= iodepth_batch_complete_max o.
Hypothesis Hmin : 0 <= iodepth_batch_complete_min o.
Hypothesis Hlow : 0 <= iodepth_low o.
(** The engine has both hooks. *)
Variables (com : E -> option (Z * E)) (gev : Z -> Z -> E -> option (Z * E)).
Hypothesis Hcom : eng_commit = Some com.
Hypothesis Hgev : eng_getevents = Some gev.

Lemma getevents_progress C fr rq vl vt en mn (s : td E) min max r s' : life o C (mkPl fr rq vl vt en mn) s ->
  0 < min <= Z.of_nat (length en) -> td_io_getevents min max s = Ret r s' -> 0 < r.
Proof using IV Hcom Hgev.
  intros L Hm. unfold td_io_getevents. mstep. rewrite (li_done _ _ _ _ L), Hcom, (proj2 (Z.ltb_lt 0 min)) by lia. cbn [andb].
  set (max1 := if cur_depth s <? max then cur_depth s else max). set (max2 := if max1 <? min then min else max1).
  assert (min <= max2) by (unfold max2; destruct (Z.ltb_spec max1 min); lia).
  destruct (eng_live (Z.to_nat (iodepth o)) (eng s) en min max2 com gev Hcom Hgev (li_eng _ _ _ _ L) Hm ltac:(done)) as (ret & e1 & r' & e2 & E1 & Hret & E2 & Hr).
  erewrite bind_Ret by (unfold call_commit; rewrite Hcom, E1; reflexivity). cbv beta.
  rewrite (proj2 (Z.ltb_ge ret 0)) by done.
  erewrite bind_Ret; [|mstep; cbv zeta; cbn [cur_depth set_eng]; fold max1; fold max2; rewrite (proj2 (Z.eqb_neq max2 0)) by lia; cbn [negb];
    unfold call_getevents; rewrite Hgev; cbn [eng set_eng]; rewrite E2; reflexivity]. cbv beta.
  rewrite (proj2 (Z.leb_le 0 r')) by lia. mstep. intros H1. injection H1 as <- _. done.
Qed.

Lemma reap_progress C fr rq vl vt en mn (s : td E) m : life o C (mkPl fr rq vl vt en mn) s -> 0 < m -> en <> [] ->
  (m <= Z.of_nat (length en) \/ mn = []) ->
  exists ret fr' vl' en' s', io_u_queued_complete o close_file verify_io_u m s = Ret ret s' /\ life o C (mkPl fr' rq vl' vt en' mn) s' /\
    (length en' < length en)%nat /\ io_u_queued s' = io_u_queued s.
Proof using IV Hdepth Hmax Hcom Hgev.
  intros L Hm Hen Hmn.
  destruct (io_u_queued_complete_run o C close_file Hdepth verify_io_u _ _ _ _ _ _ _ m L Hmax ltac:(lia) Hmn) as (ret & fr' & vl' & en' & evs & s' & E1 & L1 & Hp & Q1 & _ & _ & _ & r & s1 & E2 & Hlen).
  exists ret, fr', vl', en', s'. split; [done|]. split; [done|]. split; [|done].
  assert (0 < Z.of_nat (length en)) by (destruct en; [done|cbn; lia]).
  pose proof (li_depth _ _ _ _ L) as Hd. cbn in Hd.
  apply (getevents_progress C fr rq vl vt en mn) in E2; [|done|].
  - rewrite Hp, length_app. lia.
  - destruct (Z.ltb_spec (cur_depth s) m); [|destruct Hmn as [|Hmn]; [lia|subst mn; cbn in Hd; lia]].
    destruct Hmn as [|Hmn]; [lia|subst mn; cbn in Hd; lia].
Qed.

Lemma quiesce_loop_returns C rq vt mn fuel : forall fr vl en k (s : td E), life o C (mkPl fr rq vl vt en mn) s -> io_u_queued s = 0 ->
  (length en < fuel)%nat -> exists n s', quiesce_loop o close_file verify_io_u fuel k s = Ret n s'.
Proof using IV Hdepth Hmax Hcom Hgev.
  induction fuel as [|fuel IH]; intros fr vl en k s L Hq Hf; [lia|]. cbn [quiesce_loop]. mstep.
  pose proof (in_flight_exact _ _ _ _ _ _ _ _ _ L Hq) as Hi. destruct (Z.eqb_spec (io_u_in_flight s) 0) as [E0|E0]; [by eexists _, _|].
  destruct (reap_progress _ _ _ _ _ _ _ _ 1 L) as (ret & fr' & vl' & en' & s' & E1 & L1 & Hlt & Q1); [lia|by intros ->|left; lia|].
  erewrite bind_Ret by exact E1. cbv beta. eapply IH; [exact L1|congruence|lia].
Qed.

Lemma wait_loop_returns C rq vt full m : (full = true -> 0 < m) -> 0 <= m -> forall n fr vl en (s : td E), life o C (mkPl fr rq vl vt en []) s ->
  (length en < n)%nat -> exists r s', wait_loop o close_file verify_io_u n full m s = Ret r s'.
Proof using IV Hdepth Hmax Hlow Hcom Hgev.
  intros Hfull Hm. induction n as [|n IH]; intros fr vl en s L Hf; [lia|]. cbn [wait_loop].
  destruct (decide (full = true /\ en <> [])) as [[Ht He]|Hn].
  - destruct (reap_progress _ _ _ _ _ _ _ _ m L) as (ret & fr' & vl' & en' & s' & E1 & L1 & Hlt & Q1); [by apply Hfull|done|by right|].
    erewrite bind_Ret by exact E1. cbv beta. mstep. destruct (_ || _); [by eexists _, _|]. eapply IH; [exact L1|lia].
  - destruct (io_u_queued_complete_run o C close_file Hdepth verify_io_u _ _ _ _ _ _ _ m L Hmax Hm (or_intror eq_refl)) as (ret & fr' & vl' & en' & evs & s' & E1 & L1 & Hp & _).
    erewrite bind_Ret by exact E1. cbv beta. mstep. replace (full && (iodepth_low o <? cur_depth s')) with false; [rewrite orb_true_r; by eexists _, _|].
    symmetry. apply andb_false_iff. destruct full; [right|by left]. destruct en as [|a en]; [|by destruct Hn].
    apply Permutation_length in Hp. rewrite length_app in Hp. cbn in Hp. pose proof (li_depth _ _ _ _ L1) as Hd. cbn in Hd. apply Z.ltb_ge. lia.
Qed.

Lemma quiesce_returns fuel : iodepth o < Z.of_nat fuel -> quiesce_bound o close_file verify_io_u False fuel.
Proof using IV Hdepth Hmax Hcom Hgev.
  intros Hf C fr rq vl vt en mn s L Hc. unfold io_u_quiesce. mstep.
  destruct (quiesce_commit_run _ _ _ _ _ _ _ _ _ L Hc) as (s1 & E1 & L1 & _ & Q1). erewrite bind_Ret by exact E1. cbv beta.
  pose proof (life_lengths _ _ _ _ _ _ _ _ _ L) as HL.
  destruct (quiesce_loop_returns C _ _ _ fuel _ _ _ 0 _ L1 Q1) as (n & s' & E2); [lia|]. by rewrite E2.
Qed.

Lemma wait_returns fuel : iodepth o < Z.of_nat fuel -> wait_bound o close_file verify_io_u fuel False.
Proof using IV Hdepth Hmax Hmin Hlow Hcom Hgev.
  intros Hf C fr rq vl vt en s L. unfold wait_for_completions. mstep. cbv zeta. pose proof (life_lengths _ _ _ _ _ _ _ _ _ L) as HL.
  pose proof (li_depth _ _ _ _ L) as Hd. cbn in Hd.
  match goal with |- context [wait_loop _ _ _ _ ?f ?m _] => destruct (wait_loop_returns C rq vt f m) with (n := fuel) (fr := fr) (vl := vl) (en := en) (s := s) as (r & s' & E1) end.
  - intros ->. cbn [andb]. destruct (Z.eqb_spec (Z.min (iodepth_batch_complete_min o) (cur_depth s)) 0); cbn [orb]; [lia|]. destruct (_ =? 0); lia.
  - apply wait_min_nonneg; [done|lia].
  - done.
  - lia.
  - by rewrite E1.
Qed.
End Progress.

(** * What holds of every job *)

Section Jobs.
Context {E : Type} {IE : IoEngine E} {IL : IoEngineLaws E}.
Variable o : job.
Variable close_file : Z -> Z.
Variable verify_io_u : Z -> io_u -> Z.


Context {IV : IoEngineLive E}.

(** Every run returns. *)
Lemma job_returns com gev xs x (y : sys E) : eng_commit = Some com -> eng_getevents = Some gev ->
  0 < iodepth o < 2 ^ 31 -> 0 <= iodepth_batch_complete_max o -> 0 <= iodepth_batch_complete_min o -> 0 <= iodepth_low o ->
  sound o y -> run o close_file verify_io_u (S (Z.to_nat (iodepth o))) xs y = Some x ->
  exists y', x = Ret y' (s_td y') /\ sound o y'.
Proof using IV.
  intros Hc Hg Hd Hmax Hmin Hlow Hs Hx.
  pose proof (run_sound o close_file verify_io_u (S (Z.to_nat (iodepth o))) Hd Hmax Hmin False) as HR.
  assert (Hf : iodepth o < Z.of_nat (S (Z.to_nat (iodepth o)))) by lia.
  specialize (HR (quiesce_returns o close_file verify_io_u Hd Hmax com gev Hc Hg _ Hf)
    (wait_returns o close_file verify_io_u Hd Hmax Hmin Hlow com gev Hc Hg _ Hf) xs y x Hs Hx).
  destruct x as [y' s| | |]; cbn in HR; try done. destruct HR as [-> HR]. by exists y'.
Qed.

(** C18: over an engine that, asked to wait, after a commit gives at least one unit
    back, every such run of legal steps returns: neither io_u_quiesce nor
    wait_for_completions takes more turns than the job has units.  One of the
    conditions of a legal step is what makes this true: io_u_quiesce is entered
    with units counted in cur_depth or with none in io_u_queued.  From the other
    states, which polling with no unit due can reach, it loops for ever over the
    null engine (IoLifeRuns.polled_quiesce_hangs, io_u.c:648). *)
Theorem job_never_waits com gev addr fs (e : E) n xs x y : eng_commit = Some com -> eng_getevents = Some gev ->
  0 < iodepth o < 2 ^ 31 -> 0 <= iodepth_batch_complete_max o -> 0 <= iodepth_batch_complete_min o -> 0 <= iodepth_low o ->
  addr_ok o addr = true -> all_closed fs = true -> eng_ok (Z.to_nat (iodepth o)) e [] ->
  start o addr fs e n = Some y -> run o close_file verify_io_u (S (Z.to_nat (iodepth o))) xs y = Some x ->
  exists y', x = Ret y' (s_td y') /\ sound o y'.
Proof using IV.
  intros Hc Hg Hd Hmax Hmin Hlow Ha Hfs He Hy Hx. destruct (start_sound o addr Hd fs e n Ha Hfs He) as (y0 & Ey & Hs).
  rewrite Hy in Ey. injection Ey as <-. by eapply job_returns.
Qed.

(** Quiescing, between two units, leaves none with the engine: all are free, to be
    submitted again or with the threads that verify. *)
Theorem quiesce_empties com gev (y : sys E) fuel : eng_commit = Some com -> eng_getevents = Some gev ->
  0 < iodepth o < 2 ^ 31 -> 0 <= iodepth_batch_complete_max o -> iodepth o < Z.of_nat fuel ->
  sound o y -> s_main y = Idle -> legal o EQuiesce y = true ->
  exists k s, io_u_quiesce o close_file verify_io_u fuel (s_td y) = Ret k s /\
    cur_depth s = 0 /\ io_u_queued s = 0 /\ io_u_in_flight s = 0 /\
    exists fr rq, life o (closed_files s) (mkPl fr rq (verify_list s) (concat (s_threads y)) [] []) s.
Proof using IV.
  intros Hc Hg Hd Hmax Hf (fr & rq & vl & en & mn & L & Hm) Hi Hl. rewrite Hi in Hm. cbn in Hm. subst mn. cbn in Hl.
  assert (Hq : cur_depth (s_td y) <> 0 \/ io_u_queued (s_td y) = 0).
  { apply orb_true_iff in Hl as [Hl|Hl]; [left; by apply negb_true_iff, Z.eqb_neq in Hl|right; by apply Z.eqb_eq]. }
  pose proof (quiesce_returns o close_file verify_io_u Hd Hmax com gev Hc Hg _ Hf _ _ _ _ _ _ _ _ L Hq) as H1.
  pose proof (io_u_quiesce_run o _ close_file Hd verify_io_u _ _ _ _ _ _ _ fuel L Hmax Hq) as H2.
  destruct (io_u_quiesce _ _ _ _ _) as [k s| | |]; try done. destruct H2 as (fr' & vl' & L' & I' & Q' & _).
  exists k, s. split; [done|]. split; [by rewrite (li_depth _ _ _ _ L')|]. split; [done|]. split; [done|]. exists fr', rq.
  rewrite (li_vl _ _ _ _ L'). by eapply life_closing.
Qed.
End Jobs.
