(* ===== verification/IoLifeRuns.v ===== *)
(** Jobs that are run: the theorems of IoLifeSys.v at work over the null engine and over
    psync, and runs in which the code of src/fio/io_u.c, backend.c, ioengines.c and
    engines/sync.c does not do what it means to. *)
From S2P Require Import Prelude IouQueue IoEngine IoSync IoLife IoLifeInv IoLifeRun IoLifeSys.
#[local] Open Scope Z_scope.

(** * A job over the null engine *)

(** Three units, submitted in pairs; two files; a thread that verifies. *)
Definition demo_job : job := mkJob 3 2 1 0 0 false true false false false false 0 (fun _ => []) false false.
Definition demo_files : gmap Z jfile := <[1 := mkJf false false false (-1) 0 65536]> (<[2 := mkJf false false false (-1) 0 65536]> ∅).
Definition demo_addr (i : nat) : Z := 4096 + 64 * Z.of_nat i.
Definition demo_read (f off : Z) : choice := mkChoice None None [mkTurn (mkPick f 7 true) false (Some (DDIR_READ, off, 4096))] 0 0.
Definition demo_unit (f off : Z) : list event := [EGet (demo_read f off); EAim VerifyAsync false; ESubmit; EQueueEvent false].
Definition demo_events : list event :=
  demo_unit 1 0 ++ demo_unit 2 4096 ++ [EVTake 0; EWait] ++ demo_unit 1 8192 ++ [EQuiesce; EVTake 0; EVOne 0; EVOne 0] ++ demo_unit 1 0 ++ [EQuiesce; EVOne 0].

(** What is seen of a run: the places of units, the counts and the references. *)
Definition seen (x : option (outcome (td null_data) (sys null_data))) : option (Z * Z * Z * Z * list Z * list (list Z) * option (bool * Z)) :=
  match x with
  | Some (Ret y s) => Some (q_nr (io_u_freelist s), cur_depth s, io_u_queued s, io_u_in_flight s, verify_list s, s_threads y,
      (fun r => (f_open r, f_refs r)) <$> files s !! 1)
  | _ => None
  end.

Definition go {E} `{IoEngine E} (o : job) (e : E) (fuel : nat) (xs : list event) : option (outcome (td E) (sys E)) :=
  y ← start o demo_addr demo_files e 1; run o (fun _ => 0) (fun _ _ => 0) fuel xs y.

Definition is_run {E} (x : option (outcome (td E) (sys E))) : bool := match x with Some _ => true | None => false end.

Lemma go_run {E} `{IoEngine E} o (e : E) fuel xs : is_run (go o e fuel xs) = true ->
  exists y, start o demo_addr demo_files e 1 = Some y /\ exists x, run o (fun _ => 0) (fun _ _ => 0) fuel xs y = Some x.
Proof.
  unfold go. destruct (start _ _ _ _ _) as [y|]; [|done]. cbn [mbind option_bind]. intros Hr. exists y. split; [done|].
  destruct (run _ _ _ _ _ _) as [x|]; [by exists x|done].
Qed.

(** Every state on the way. *)
Lemma demo_seen : seen (go demo_job (fio_null_init 3) 4 demo_events) = Some (2, 0, 0, 0, [4160], [[]], Some (true, 1)).
Proof. vm_compute. reflexivity. Qed.

(** The job starts and the run is legal. *)
Lemma demo_runs : exists y, start demo_job demo_addr demo_files (fio_null_init 3) 1 = Some y /\
  exists x, run demo_job (fun _ => 0) (fun _ _ => 0) (S (Z.to_nat (iodepth demo_job))) demo_events y = Some x.
Proof. apply go_run. vm_compute. reflexivity. Qed.

Lemma job_never_waits_witness : exists y y', start demo_job demo_addr demo_files (fio_null_init 3) 1 = Some y /\
  run demo_job (fun _ => 0) (fun _ _ => 0) (S (Z.to_nat (iodepth demo_job))) demo_events y = Some (Ret y' (s_td y')) /\ sound demo_job y'.
Proof.
  destruct demo_runs as (y & Ey & x & Ex).
  destruct (job_never_waits (IE := null_engine) (IL := null_laws) (IV := null_live) demo_job (fun _ => 0) (fun _ _ => 0) fio_null_commit fio_null_getevents demo_addr demo_files (fio_null_init 3) 1 demo_events x y
    eq_refl eq_refl ltac:(cbn; lia) ltac:(cbn; lia) ltac:(cbn; lia) ltac:(cbn; lia) eq_refl eq_refl (null_init_ok 3 ltac:(lia)) Ey Ex) as (y' & Hx & Hs).
  exists y, y'. rewrite <- Hx. done.
Defined.

(** * A job over psync *)

(** The first read of 4096 bytes gives 1000, which is submitted again for the rest. *)
Definition short_reads : calls := mkCalls (fun n => match n with O => (1000, 0) | S O => (3096, 0) | _ => (-1, EIO) end) 0.
Definition sync_job (coe : Z) : job := mkJob 2 1 1 0 0 false false false false false false coe (fun _ => []) false false.
Definition plain_unit (f off : Z) : list event := [EGet (demo_read f off); ESubmit; EQueueEvent false].

Definition job_state {E} (x : option (outcome (td E) (sys E))) : option (td E) := match x with Some (Ret _ s) => Some s | _ => None end.

(** Done in two pieces, the read counts twice in the bytes issued from the third event
    on: requeue_io_u takes back that it was issued but not its bytes. *)
Lemma short_read_counts :
  (fun s => (counts s io_issues DDIR_READ, counts s io_issue_bytes DDIR_READ, counts s io_bytes DDIR_READ, q_nr (io_u_freelist s))) <$>
    job_state (go (sync_job 0) short_reads 3 (plain_unit 1 0 ++ plain_unit 1 0)) =
  Some (1, 7192, 4096, 2).
Proof. vm_compute. reflexivity. Qed.

Definition sync_events : list event := plain_unit 1 0 ++ plain_unit 1 0 ++ plain_unit 2 4096.

Lemma sync_runs : exists y, start (sync_job 0) demo_addr demo_files short_reads 1 = Some y /\
  exists x, run (sync_job 0) (fun _ => 0) (fun _ _ => 0) 3 sync_events y = Some x.
Proof. apply go_run. vm_compute. reflexivity. Qed.


(** * Runs that go wrong *)

(** ** Quiescing with units queued and none counted *)

(** With cur_depth 0 no events are asked for. *)
Lemma getevents_none {E} `{IoEngine E} max (s : td E) : cur_depth s = 0 -> fits 32 (io_u_in_flight s) -> td_done s = false -> 0 <= max ->
  td_io_getevents 0 max s = Ret 0 s.
Proof.
  intros Hc Hi Hd Hmax. unfold td_io_getevents. mstep. rewrite Hd. cbn [Z.ltb Z.compare andb]. mstep. cbn [Z.ltb Z.compare].
  assert (H0 : (if cur_depth s <? max then cur_depth s else max) = 0) by (destruct (Z.ltb_spec (cur_depth s) max); lia).
  erewrite bind_Ret; [|mstep; cbv zeta; rewrite H0; reflexivity]. cbv beta. cbn [Z.leb Z.compare]. mstep.
  rewrite Z.sub_0_r. unfold u32. rewrite Z.mod_small by exact Hi. by destruct s.
Qed.

(** So the loop of io_u_quiesce does not end. *)
Lemma quiesce_hangs {E} `{IoEngine E} o close_file verify_io_u fuel : forall k (s : td E), cur_depth s = 0 -> io_u_in_flight s <> 0 ->
  fits 32 (io_u_in_flight s) -> td_done s = false -> 0 <= iodepth_batch_complete_max o ->
  quiesce_loop o close_file verify_io_u fuel k s = Diverge s.
Proof.
  induction fuel as [|fuel IH]; intros k s Hc Hn Hi Hd Hmax; [done|]. cbn [quiesce_loop]. mstep.
  rewrite (proj2 (Z.eqb_neq _ _) Hn).
  assert (Hr : io_u_queued_complete o close_file verify_io_u 1 s = Ret 0 s).
  { unfold io_u_queued_complete. mstep. rewrite Hc. cbn [Z.ltb Z.compare]. cbv zeta.
    erewrite bind_Ret by (by apply getevents_none). reflexivity. }
  erewrite bind_Ret by exact Hr. cbv beta. by apply IH.
Qed.

(** Three units, submitted by three; a unit that waits in the engine is completed by a
    wait for one, which commits past the job: it stays counted as queued and
    io_u_in_flight wraps. *)
Definition polling_job : job := mkJob 3 3 0 0 0 false false false false false false 0 (fun _ => []) false false.
Definition polled : option (td null_data) := job_state (go polling_job (fio_null_init 3) 4 (plain_unit 1 0 ++ [EWait])).

Lemma polled_counts : (fun s => (cur_depth s, io_u_queued s, io_u_in_flight s, td_done s)) <$> polled = Some (0, 1, 2 ^ 32 - 1, false).
Proof. vm_compute. reflexivity. Qed.

(** Then io_u_quiesce, which thinktime calls next, never returns. *)
Theorem polled_quiesce_hangs s : polled = Some s -> forall fuel, io_u_quiesce polling_job (fun _ => 0) (fun _ _ => 0) fuel s = Diverge s.
Proof.
  intros Hs fuel. pose proof polled_counts as Hp. rewrite Hs in Hp. cbn [fmap option_fmap option_map] in Hp. injection Hp as H1 H2 H3 H4.
  unfold io_u_quiesce. mstep. rewrite H2. cbn [Z.eqb negb orb when].
  erewrite bind_Ret; [|unfold td_io_commit; erewrite bind_Ret; [|mstep; rewrite H1; reflexivity]; reflexivity]. cbv beta.
  apply quiesce_hangs; [done|by rewrite H3|rewrite H3; split; lia|done|cbn; lia].
Qed.

(** ** Runs that are not legal *)

(** The events one after the other, legal or not. *)
Fixpoint try {E} `{IoEngine E} (o : job) (fuel : nat) (xs : list event) (y : sys E) : option (outcome (td E) (sys E)) :=
  match xs with
  | [] => Some (Ret y (s_td y))
  | x :: xs' =>
      m ← code o (fun _ => 0) (fun _ _ => 0) fuel x (s_main y) (s_threads y);
      match m (s_td y) with
      | Ret (ph, vs) s => try o fuel xs' (mkSys s ph vs)
      | Exit c s => Some (Exit c s)
      | Undef s => Some (Undef s)
      | Diverge s => Some (Diverge s)
      end
  end.
Definition try_job {E} `{IoEngine E} (o : job) (e : E) (xs : list event) : option (outcome (td E) (sys E)) :=
  y ← start o demo_addr demo_files e 1; try o 4 xs y.
Definition exit_code {E} (x : option (outcome (td E) (sys E))) : option Z := match x with Some (Exit c _) => Some c | _ => None end.

(** A read that gives nothing, with errors of reads ignored: the unit goes back to the
    pool still in flight, and the next submission fails its assertion. *)
Definition always (r errno : Z) : calls := mkCalls (fun _ => (r, errno)) 0.

Lemma full_resid_asserts : exit_code (try_job (sync_job 1) (always 0 0) (plain_unit 1 0 ++ plain_unit 1 4096)) = Some 134.
Proof. vm_compute. reflexivity. Qed.

(** The same read with an error instead goes well. *)
Lemma failed_read_goes_on : q_nr ∘ io_u_freelist <$> job_state (try_job (sync_job 1) (always (-1) EIO) (plain_unit 1 0 ++ plain_unit 1 4096)) = Some 2.
Proof. vm_compute. reflexivity. Qed.

(** A file to verify that cannot be opened: the unit keeps the file and is submitted. *)
Lemma verify_open_fails_asserts :
  exit_code (try_job (sync_job 0) (always 4096 0) [EGet (mkChoice (Some (mkPick 1 (-1) true, 0, 4096, false)) None [] 0 0); ESubmit]) = Some 134.
Proof. vm_compute. reflexivity. Qed.

(** A file whose hints fail after it was opened stays marked as open, without a
    descriptor, and is used by the next unit. *)
Lemma failed_hints_stay_open :
  (fun s => ((fun r => (f_open r, f_fd r, f_refs r)) <$> files s !! 1, units s !! 4160 ≫= fun u => Some (file u))) <$>
    job_state (try_job (sync_job 0) (always 4096 0)
      [EGet (mkChoice None None [mkTurn (mkPick 1 7 false) false None] 0 0); EGet (demo_read 1 0)]) =
  Some (Some (true, -1, 2), Some 1).
Proof. vm_compute. reflexivity. Qed.

(** ** The final sync of a file *)

(** The files, the free units and cur_depth after a read of file 1 and its sync. *)
Definition after_sync (c : calls) : option (option (bool * Z) * Z * Z) :=
  s ← job_state (try_job (sync_job 0) c (plain_unit 1 0));
  match fio_io_sync (sync_job 0) (fun _ => 0) (fun _ _ => 0) 4 1 0 s with
  | Ret _ s' => Some ((fun r => (f_open r, f_refs r)) <$> files s' !! 1, q_nr (io_u_freelist s'), cur_depth s')
  | _ => None
  end.

(** The unit takes no reference and gives one up: the file is closed. *)
Lemma sync_closes_file : after_sync (mkCalls (fun n => if (n =? 0)%nat then (4096, 0) else (0, 0)) 0) = Some (Some (false, 0), 2, 0).
Proof. vm_compute. reflexivity. Qed.

(** When the sync fails the unit is lost. *)
Lemma failed_sync_loses_unit : after_sync (mkCalls (fun n => if (n =? 0)%nat then (4096, 0) else (-1, EIO)) 0) = Some (Some (true, 1), 1, 1).
Proof. vm_compute. reflexivity. Qed.

(** ** vsync *)

(** Four units, submitted by two: the third takes the place of the first while the first
    two wait to be reaped, and its commit sets the number of events to 1: they never
    come back. *)
Definition vsync_job : job := mkJob 4 2 1 0 0 false false false false false false 0 (fun _ => []) false false.
Definition vsync_start : syncio_data := fio_vsyncio_init 4 (mkCalls (fun n => if Nat.even n then (0, 0) else (8192, 0)) 0).
Definition vsync_events : list event := plain_unit 1 0 ++ plain_unit 1 4096 ++ plain_unit 1 8192 ++ [EReap 1].

Lemma vsync_loses_units :
  (fun s => (q_nr (io_u_freelist s), cur_depth s, sd_queued (eng s), sd_events (eng s))) <$> job_state (go vsync_job vsync_start 5 vsync_events) =
  Some (2, 2, 0, 0).
Proof. vm_compute. reflexivity. Qed.

(** Quiescing then waits for them for ever, so it is not an engine that makes progress,
    whatever is taken for [eng_ok]. *)
Definition waits {E} (x : option (outcome (td E) (sys E))) : bool := match x with Some (Diverge _) => true | _ => false end.

Lemma vsync_waits : waits (go vsync_job vsync_start 5 (vsync_events ++ [EQuiesce])) = true.
Proof. vm_compute. reflexivity. Qed.

Theorem vsync_breaks_contract (IL : IoEngineLaws syncio_data) (IV : IoEngineLive syncio_data) : ~ eng_ok 4 vsync_start [].
Proof.
  intros He. pose proof vsync_waits as Hv. revert Hv. unfold go. destruct (start _ _ _ _ _) as [y|] eqn:Ey; [|done]. cbn [mbind option_bind].
  destruct (run _ _ _ _ _ y) as [x|] eqn:Er; [|done].
  destruct (start_sound (IL := IL) vsync_job demo_addr ltac:(cbn; lia) demo_files vsync_start 1 eq_refl eq_refl He) as (y0 & Ey0 & Hs).
  rewrite Ey in Ey0. injection Ey0 as <-.
  destruct (job_returns (IE := vsync_engine) vsync_job (fun _ => 0) (fun _ _ => 0) fio_vsyncio_commit fio_vsyncio_getevents (vsync_events ++ [EQuiesce]) x y
    eq_refl eq_refl ltac:(cbn; lia) ltac:(cbn; lia) ltac:(cbn; lia) ltac:(cbn; lia) Hs Er) as (y' & -> & _).
  done.
Qed.
