(* ===== verification/Threads.v ===== *)
(** Lists of threads: counts over all of them, and one of them moving. *)
From S2P Require Import Prelude.
#[local] Open Scope Z_scope.

Section Threads.
Context {A : Type}.
Implicit Types (f : A -> Z) (l : list A).

Definition sum_threads f l : Z := foldr (fun t a => f t + a) 0 l.

Lemma sum_threads_insert f l i t t' :
  l !! i = Some t -> sum_threads f (<[i := t']> l) = sum_threads f l - f t + f t'.
Proof.
  revert i. induction l as [|x l IH]; intros [|i] H; simpl in *; [done..| |].
  - injection H as ->. lia.
  - rewrite (IH i H). lia.
Qed.

Lemma sum_threads_ge f l i t :
  (forall j u, l !! j = Some u -> 0 <= f u) -> l !! i = Some t -> f t <= sum_threads f l.
Proof.
  revert i. induction l as [|x l IH]; intros i Hf Hi; [done|]. simpl.
  assert (0 <= f x) by exact (Hf 0%nat x eq_refl).
  assert (forall j u, l !! j = Some u -> 0 <= f u) as Hf' by (intros j; exact (Hf (S j))).
  assert (forall k, (forall j u, k !! j = Some u -> 0 <= f u) -> 0 <= sum_threads f k) as Hpos.
  { clear. intros k. induction k as [|y k IH]; intros Hk; simpl; [lia|].
    pose proof (Hk 0%nat y eq_refl). specialize (IH (fun j => Hk (S j))). lia. }
  destruct i as [|i]; simpl in Hi.
  - injection Hi as ->. specialize (Hpos l Hf'). lia.
  - specialize (IH i Hf' Hi). lia.
Qed.

Lemma sum_threads_ge2 f l i j t u :
  (forall j u, l !! j = Some u -> 0 <= f u) -> l !! i = Some t -> l !! j = Some u -> i <> j ->
  f t + f u <= sum_threads f l.
Proof.
  revert i j. induction l as [|x l IH]; intros [|i] [|j] Hf Hi Hj Hne; try done; simpl in *.
  - injection Hi as ->. pose proof (sum_threads_ge f l j u (fun k => Hf (S k)) Hj). lia.
  - injection Hj as ->. pose proof (sum_threads_ge f l i t (fun k => Hf (S k)) Hi). lia.
  - specialize (IH i j (fun k => Hf (S k)) Hi Hj ltac:(lia)). pose proof (Hf 0%nat x eq_refl). lia.
Qed.

Lemma sum_threads_zero f l : (forall i t, l !! i = Some t -> f t = 0) -> sum_threads f l = 0.
Proof.
  induction l as [|x l IH]; intros H; simpl; [done|].
  rewrite (H 0%nat x eq_refl). apply (IH (fun i => H (S i))).
Qed.

Lemma sum_threads_some f l : 0 < sum_threads f l -> exists i t, l !! i = Some t /\ 0 < f t.
Proof.
  induction l as [|x l IH]; simpl; [lia|]. intros H. destruct (Z_lt_le_dec 0 (f x)) as [Hx|Hx].
  - by exists 0%nat, x.
  - destruct IH as (i & t & Hi & Ht); [unfold sum_threads in *; lia|]. by exists (S i), t.
Qed.

Lemma thread_insert_cases l i j t u :
  <[i := t]> l !! j = Some u -> (j = i /\ u = t) \/ (j <> i /\ l !! j = Some u).
Proof. rewrite list_lookup_insert_Some. naive_solver. Qed.

End Threads.
