(* ===== verification/Gettime.v ===== *)
(** Time differences of fio (src/fio/gettime.c, ntime_since to mtime_since)
    and timespec_add_msec of src/fio/time.c.  The differences are taken in
    int64_t, which the seconds of a clock never exceed, so they are exact here;
    the product of timespec_add_msec is kept at its 32 bits. *)
From S2P Require Import Prelude.
#[local] Open Scope Z_scope.

Record timespec : Type := mkTs { tv_sec : Z; tv_nsec : Z }.

Definition ntime_since (s e : timespec) : Z :=
  let sec := tv_sec e - tv_sec s in
  let nsec := tv_nsec e - tv_nsec s in
  let '(sec, nsec) :=
    if (0 <? sec) && (nsec <? 0) then (sec - 1, nsec + 1000000000) else (sec, nsec) in
  if (sec <? 0) || ((sec =? 0) && (nsec <? 0)) then 0
  else nsec + sec * 1000000000.

(** The division of the nanoseconds truncates towards zero. *)
Definition utime_since (s e : timespec) : Z :=
  let sec := tv_sec e - tv_sec s in
  let usec := Z.quot (tv_nsec e - tv_nsec s) 1000 in
  let '(sec, usec) :=
    if (0 <? sec) && (usec <? 0) then (sec - 1, usec + 1000000) else (sec, usec) in
  if (sec <? 0) || ((sec =? 0) && (usec <? 0)) then 0
  else usec + sec * 1000000.

Definition mtime_since (s e : timespec) : Z :=
  let sec := tv_sec e - tv_sec s in
  let usec := Z.quot (tv_nsec e - tv_nsec s) 1000 in
  let '(sec, usec) :=
    if (0 <? sec) && (usec <? 0) then (sec - 1, usec + 1000000) else (sec, usec) in
  if (sec <? 0) || ((sec =? 0) && (usec <? 0)) then 0
  else sec * 1000 + Z.quot usec 1000.

(** [adj_nsec] is the product of an int and an unsigned int: 32 bits. *)
Definition timespec_add_msec (ts : timespec) (msec : Z) : timespec :=
  let adj_nsec := u32 (1000000 * msec) in
  let nsec := tv_nsec ts + adj_nsec in
  let '(sec, nsec) :=
    if 1000000000 <=? adj_nsec
    then let adj_sec := adj_nsec / 1000000000 in (tv_sec ts + adj_sec, nsec - adj_sec * 1000000000)
    else (tv_sec ts, nsec) in
  if 1000000000 <=? nsec then mkTs (sec + 1) (nsec - 1000000000) else mkTs sec nsec.

(** * Reference: nanoseconds since the origin of the clock *)

Definition ts_ns (t : timespec) : Z := tv_sec t * 1000000000 + tv_nsec t.
Definition ts_ok (t : timespec) : Prop := 0 <= tv_nsec t < 1000000000.

(** Unfold, split on the guards, and leave linear arithmetic over the
    truncating divisions. *)
Ltac since_cases :=
  unfold ts_ok, ts_ns in *; repeat match goal with t : timespec |- _ => destruct t end; simpl in *;
  repeat match goal with
  | |- context [if ?b then _ else _] => destruct b eqn:?; simpl in *
  | H : (_ || _) = true |- _ => apply orb_true_iff in H; destruct H
  | H : (_ || _) = false |- _ => apply orb_false_iff in H; destruct H
  | H : (_ && _) = false |- _ => apply andb_false_iff in H; destruct H
  end; bcases; repeat split; Z.to_euclidean_division_equations; lia.

Lemma ntime_since_exact s e :
  ts_ok s -> ts_ok e -> ntime_since s e = Z.max 0 (ts_ns e - ts_ns s).
Proof. intros Hs He. unfold ntime_since. since_cases. Qed.

(** The microseconds are off by less than one: a negative difference of the
    nanoseconds is rounded up, not down. *)
Lemma utime_since_close s e :
  ts_ok s -> ts_ok e ->
  let d := Z.max 0 (ts_ns e - ts_ns s) in d - 1000 < 1000 * utime_since s e < d + 1000.
Proof. intros Hs He d. subst d. unfold utime_since. since_cases. Qed.

Lemma mtime_since_close s e :
  ts_ok s -> ts_ok e ->
  let d := Z.max 0 (ts_ns e - ts_ns s) in d - 1000000 < 1000000 * mtime_since s e < d + 1000.
Proof. intros Hs He d. subst d. unfold mtime_since. since_cases. Qed.

(** A clock that went back counts as no time. *)
Lemma mtime_since_warp s e : ts_ok s -> ts_ok e -> ts_ns e <= ts_ns s -> mtime_since s e = 0.
Proof. intros Hs He Hle. unfold mtime_since. since_cases. Qed.

(** Below 4295 milliseconds the product fits and the addition is exact. *)
Lemma timespec_add_msec_exact ts msec :
  ts_ok ts -> 0 <= msec < 4295 ->
  ts_ok (timespec_add_msec ts msec) /\ ts_ns (timespec_add_msec ts msec) = ts_ns ts + msec * 1000000.
Proof.
  intros Hts Hm. unfold timespec_add_msec. rewrite u32_small by (unfold fits; lia). since_cases.
Qed.

(** From there on it is not: five seconds move the time by 0.7 seconds. *)
Lemma timespec_add_msec_wraps :
  timespec_add_msec (mkTs 0 0) 5000 = mkTs 0 705032704.
Proof. reflexivity. Qed.
