(* ===== verification/FioMutex.v ===== *)
(** The fio_mutex (src/fio/mutex.c): a counting semaphore made of a pthread
    mutex and a condition variable.  Any number of threads run their calls of
    fio_mutex_down, fio_mutex_up, fio_mutex_down_trylock and
    fio_mutex_down_timeout interleaved at every lock, wait, wake-up and unlock.
    pthread_cond_wait releases the lock and sleeps in one step;
    pthread_cond_signal wakes one of the sleeping threads, whichever the
    scheduler picks; threads also wake up spuriously, and timed waits return
    ETIMEDOUT at any time. *)
From S2P Require Import Prelude Threads Gettime.
From stdpp Require Import relations.
#[local] Open Scope Z_scope.

Definition FIO_MUTEX_MAGIC : Z := 0x4d555445.
Definition FIO_MUTEX_LOCKED : Z := 0.
Definition FIO_MUTEX_UNLOCKED : Z := 1.
Definition ETIMEDOUT : Z := 110.

(** The mutex; [lock] is the owner of the pthread mutex. *)
Record fio_mutex : Type := mkMutex {
  lock : option nat;
  value : Z;
  waiters : Z;
  magic : Z
}.

(** __fio_mutex_init leaves [waiters] as it finds it. *)
Definition __fio_mutex_init (m : fio_mutex) (v : Z) : fio_mutex :=
  mkMutex None v (waiters m) FIO_MUTEX_MAGIC.

(** fio_mutex_init maps zeroed memory ([mmap_ok]: whether mmap and the
    pthread initialisers succeed). *)
Definition fio_mutex_init (mmap_ok init_ok : bool) (v : Z) : option fio_mutex :=
  if mmap_ok then
    if init_ok then Some (__fio_mutex_init (mkMutex None 0 0 0) v) else None
  else None.

(** The deadline fio_mutex_down_timeout computes from the time of day (in
    microseconds). *)
Definition down_deadline (tv_s tv_us msecs : Z) : timespec :=
  let t_sec := tv_s + msecs / 1000 in
  let t_nsec := tv_us * 1000 + (msecs * 1000000) mod 1000000000 in
  if 1000000000 <=? t_nsec then mkTs (t_sec + 1) (t_nsec - 1000000000) else mkTs t_sec t_nsec.

Definition mutex_timed_out (t : timespec) (now_s now_us msecs : Z) : bool :=
  msecs <=? mtime_since t (mkTs now_s (now_us * 1000)).

(** * Threads *)

Inductive call : Type :=
  | CDown | CUp | CTry | CTimed (msecs : Z).

(** A timed wait keeps its deadline and its argument. *)
Definition waitkind : Type := option (timespec * Z).

(** The control points of the four operations. *)
Inductive mpc : Type :=
  | Idle                              (* between two calls *)
  | DWant (k : waitkind)              (* down, down_timeout: at pthread_mutex_lock *)
  | DTest (k : waitkind) (ret : Z)    (* holds the lock: at the loop's test *)
  | DSleep (k : waitkind)             (* in the wait *)
  | DWoken (k : waitkind) (ret : Z)   (* woken: has to take the lock again *)
  | DReturn (ret : Z)                 (* at the unlock, then returns [ret] *)
  | TWant                             (* down_trylock: at pthread_mutex_lock *)
  | TTest                             (* holds the lock *)
  | TReturn (ret : bool)              (* at the unlock *)
  | UWant                             (* up: at pthread_mutex_lock *)
  | UTest                             (* holds the lock *)
  | UReturn (do_wake : bool)          (* at the unlock *)
  | USignal.                          (* at pthread_cond_signal *)

(** A thread with the calls it has still to make.  After a try or a timed wait
    that fails, the caller skips the call that follows.  [held] counts the
    units it took and did not give back. *)
Record mthread : Type := mkThread { pc : mpc; prog : list call; held : Z }.

Record mstate : Type := mkState {
  mutex : fio_mutex;
  threads : list mthread;
  aborted : bool                      (* an assert failed *)
}.

(** What happens next: a thread runs, with the sleeper a signal would wake and
    the time of day; or a sleeper wakes by itself; or its time is over. *)
Inductive event : Type :=
  | Run (i w : nat) (now_s now_us : Z)
  | Spurious (i : nat)
  | Timeout (i : nat).

Definition asleep (c : mpc) : bool := match c with DSleep _ => true | _ => false end.

Definition some_asleep (s : mstate) : bool := existsb (fun t => asleep (pc t)) (threads s).

Definition set_thread (i : nat) (t : mthread) (s : mstate) : mstate :=
  mkState (mutex s) (<[i := t]> (threads s)) (aborted s).
Definition set_both (m : fio_mutex) (i : nat) (t : mthread) (s : mstate) : mstate :=
  mkState m (<[i := t]> (threads s)) (aborted s).

Definition take_lock (i : nat) (m : fio_mutex) : option fio_mutex :=
  match lock m with
  | None => Some (mkMutex (Some i) (value m) (waiters m) (magic m))
  | Some _ => None
  end.
Definition unlock (m : fio_mutex) : fio_mutex := mkMutex None (value m) (waiters m) (magic m).
Definition add_waiters (d : Z) (m : fio_mutex) : fio_mutex :=
  mkMutex (lock m) (value m) (waiters m + d) (magic m).
Definition add_value (d : Z) (m : fio_mutex) : fio_mutex :=
  mkMutex (lock m) (value m + d) (waiters m) (magic m).

Definition timed (k : waitkind) : Z := match k with Some _ => 1 | None => 0 end.

(** The first control point of a call. *)
Definition enter (c : call) (now_s now_us : Z) : mpc :=
  match c with
  | CDown => DWant None
  | CUp => UWant
  | CTry => TWant
  | CTimed ms => DWant (Some (down_deadline now_s now_us ms, ms))
  end.

(** The result of the wait, after the double check of the time. *)
Definition wait_ret (k : waitkind) (r now_s now_us : Z) : Z :=
  match k with
  | Some (t, ms) => if (r =? ETIMEDOUT) && negb (mutex_timed_out t now_s now_us ms) then 0 else r
  | None => r
  end.

(** The next step of a thread at [pc t], holding what it needs. *)
Definition run_thread (i w : nat) (now_s now_us : Z) (t : mthread) (s : mstate) : option mstate :=
  let m := mutex s in
  match pc t with
  | Idle =>
      match prog t with
      | [] => None
      | c :: p =>
          if magic m =? FIO_MUTEX_MAGIC
          then Some (set_thread i (mkThread (enter c now_s now_us) p (held t)) s)
          else Some (mkState m (threads s) true)
      end
  (* down and down_timeout *)
  | DWant k =>
      m' ← take_lock i m;
      Some (set_both (add_waiters (timed k) m') i (mkThread (DTest k 0) (prog t) (held t)) s)
  | DTest k ret =>
      if negb (value m =? 0) || negb (ret =? 0) then
        let m1 := add_waiters (- timed k) m in
        if ret =? 0
        then Some (set_both (add_value (-1) m1) i (mkThread (DReturn 0) (prog t) (held t + 1)) s)
        else Some (set_both m1 i (mkThread (DReturn ret) (prog t) (held t)) s)
      else
        Some (set_both (unlock (add_waiters (1 - timed k) m)) i (mkThread (DSleep k) (prog t) (held t)) s)
  | DSleep _ => None
  | DWoken k r =>
      m' ← take_lock i m;
      Some (set_both (add_waiters (timed k - 1) m') i
              (mkThread (DTest k (wait_ret k r now_s now_us)) (prog t) (held t)) s)
  | DReturn ret =>
      Some (set_both (unlock m) i
              (mkThread Idle (if ret =? 0 then prog t else tail (prog t)) (held t)) s)
  (* down_trylock *)
  | TWant => m' ← take_lock i m; Some (set_both m' i (mkThread TTest (prog t) (held t)) s)
  | TTest =>
      if negb (value m =? 0)
      then Some (set_both (add_value (-1) m) i (mkThread (TReturn false) (prog t) (held t + 1)) s)
      else Some (set_both m i (mkThread (TReturn true) (prog t) (held t)) s)
  | TReturn ret =>
      Some (set_both (unlock m) i
              (mkThread Idle (if ret then tail (prog t) else prog t) (held t)) s)
  (* up *)
  | UWant => m' ← take_lock i m; Some (set_both m' i (mkThread UTest (prog t) (held t)) s)
  | UTest =>
      let do_wake := (value m =? 0) && negb (waiters m =? 0) in
      Some (set_both (add_value 1 m) i (mkThread (UReturn do_wake) (prog t) (held t - 1)) s)
  | UReturn do_wake =>
      Some (set_both (unlock m) i
              (mkThread (if do_wake then USignal else Idle) (prog t) (held t)) s)
  | USignal =>
      let s' := set_thread i (mkThread Idle (prog t) (held t)) s in
      if some_asleep s then
        match threads s !! w with
        | Some (mkThread (DSleep k) p h) => Some (set_thread w (mkThread (DWoken k 0) p h) s')
        | _ => None
        end
      else Some s'
  end.

Definition mstep (e : event) (s : mstate) : option mstate :=
  if aborted s then None else
  match e with
  | Run i w now_s now_us => t ← threads s !! i; run_thread i w now_s now_us t s
  | Spurious i =>
      t ← threads s !! i;
      match pc t with
      | DSleep k => Some (set_thread i (mkThread (DWoken k 0) (prog t) (held t)) s)
      | _ => None
      end
  | Timeout i =>
      t ← threads s !! i;
      match pc t with
      | DSleep (Some k) => Some (set_thread i (mkThread (DWoken (Some k) ETIMEDOUT) (prog t) (held t)) s)
      | _ => None
      end
  end.

Definition step (s s' : mstate) : Prop := exists e, mstep e s = Some s'.
Definition run_step (s s' : mstate) : Prop := exists i w a b, mstep (Run i w a b) s = Some s'.

Definition start (m : fio_mutex) (progs : list (list call)) : mstate :=
  mkState m ((fun p => mkThread Idle p 0) <$> progs) false.

(** * The invariant: one owner, exact counts *)

Definition in_cs (c : mpc) : bool :=
  match c with
  | DTest _ _ | DReturn _ | TTest | TReturn _ | UTest | UReturn _ => true
  | _ => false
  end.

(** The threads [waiters] counts. *)
Definition counted (t : mthread) : Z :=
  match pc t with
  | DSleep _ | DWoken _ _ | DTest (Some _) _ => 1
  | _ => 0
  end.

Record minv (v0 : Z) (s : mstate) : Prop := {
  mi_cs : forall i t, threads s !! i = Some t -> in_cs (pc t) = true -> lock (mutex s) = Some i;
  mi_owner : forall i, lock (mutex s) = Some i -> exists t, threads s !! i = Some t /\ in_cs (pc t) = true;
  mi_waiters : waiters (mutex s) = sum_threads counted (threads s);
  mi_value : value (mutex s) + sum_threads held (threads s) = v0;
  mi_nonneg : 0 <= value (mutex s);
  mi_magic : magic (mutex s) = FIO_MUTEX_MAGIC;
  mi_alive : aborted s = false
}.

Lemma counted_nonneg t : 0 <= counted t.
Proof. unfold counted. destruct (pc t) as [| |[]| | | | | | | | | |]; lia. Qed.

(** A thread moves and changes the mutex: what has to be in balance. *)
Lemma minv_update v0 s i t t' m' :
  minv v0 s -> threads s !! i = Some t ->
  magic m' = magic (mutex s) -> 0 <= value m' ->
  value m' + held t' = value (mutex s) + held t ->
  waiters m' - counted t' = waiters (mutex s) - counted t ->
  lock m' = (if in_cs (pc t') then Some i else if in_cs (pc t) then None else lock (mutex s)) ->
  (in_cs (pc t') = true -> in_cs (pc t) = false -> lock (mutex s) = None) ->
  minv v0 (set_both m' i t' s).
Proof.
  intros [H1 H2 H3 H4 H5 H6 H7] Hi Hm Hv Hh Hw Hl Hfree.
  assert (i < length (threads s))%nat as Hlt by by apply lookup_lt_Some in Hi.
  constructor; simpl; try done.
  - intros j u [[-> ->]|[Hne Hj]]%thread_insert_cases Hu; [by rewrite Hl, Hu|].
    pose proof (H1 j u Hj Hu) as Hlk. rewrite Hl. destruct (in_cs (pc t)) eqn:Ec.
    + pose proof (H1 i t Hi Ec). congruence.
    + destruct (in_cs (pc t')); [|done]. specialize (Hfree eq_refl eq_refl). congruence.
  - intros j Hj. rewrite Hl in Hj. destruct (in_cs (pc t')) eqn:Ec'.
    + injection Hj as <-. exists t'. by rewrite list_lookup_insert_eq.
    + destruct (in_cs (pc t)) eqn:Ec; [done|]. destruct (H2 j Hj) as (u & Hu & Hin).
      exists u. split; [|done]. rewrite list_lookup_insert_ne; [done|]. intros ->. congruence.
  - rewrite (sum_threads_insert _ _ _ _ _ Hi). lia.
  - rewrite (sum_threads_insert _ _ _ _ _ Hi). lia.
  - congruence.
Qed.

Lemma set_thread_both i t s : set_thread i t s = set_both (mutex s) i t s.
Proof. done. Qed.

Lemma take_lock_Some i m m' :
  take_lock i m = Some m' -> lock m = None /\ m' = mkMutex (Some i) (value m) (waiters m) (magic m).
Proof. unfold take_lock. destruct (lock m) eqn:E; [done|]. by intros [= <-]. Qed.

Lemma minv_start v0 m progs :
  lock m = None -> waiters m = 0 -> value m = v0 -> 0 <= v0 -> magic m = FIO_MUTEX_MAGIC ->
  minv v0 (start m progs).
Proof.
  intros Hl Hw Hv H0 Hm.
  assert (forall f, (forall p, f (mkThread Idle p 0) = 0) -> sum_threads f (threads (start m progs)) = 0) as Hs.
  { intros f Hf. unfold start, threads. clear -Hf. induction progs as [|p l IH]; [done|]. simpl. by rewrite Hf. }
  constructor; simpl; try done; try lia.
  - intros i t Ht. apply list_lookup_fmap_Some in Ht as (p & -> & _). done.
  - congruence.
  - rewrite Hw. symmetry. by apply (Hs counted).
  - pose proof (Hs held (fun _ => eq_refl)) as Hh. simpl in Hh. rewrite Hh. lia.
Qed.

(** One thread's step keeps the invariant. *)
Lemma run_thread_minv v0 i w a b t s s' :
  minv v0 s -> threads s !! i = Some t -> run_thread i w a b t s = Some s' -> minv v0 s'.
Proof.
  intros Hinv Hi H. pose proof Hinv as [H1 H2 H3 H4 H5 H6 H7].
  unfold run_thread in H. destruct t as [c p h]; simpl in H.
  assert (in_cs c = true -> lock (mutex s) = Some i) as Hown by exact (H1 i _ Hi).
  destruct c as [|k|k r|k|k r|r| | |r| | |r|].
  - destruct p as [|c p]; [done|]. rewrite H6, Z.eqb_refl in H. injection H as <-.
    rewrite set_thread_both. eapply minv_update; try done; destruct c; done.
  - destruct (take_lock i (mutex s)) as [m'|] eqn:E; [|done]. injection H as <-.
    apply take_lock_Some in E as [El ->].
    eapply minv_update; try done. unfold counted; simpl. destruct k; simpl; lia.
  - destruct (negb (value (mutex s) =? 0) || negb (r =? 0)) eqn:Eg.
    + destruct (r =? 0) eqn:Er; injection H as <-; bcases.
      * rewrite orb_false_r in Eg. bcases.
        eapply minv_update; try done; simpl; unfold counted; simpl; try lia; [destruct k; simpl; lia|by apply Hown].
      * eapply minv_update; try done; simpl; unfold counted; simpl; try lia; [destruct k; simpl; lia|by apply Hown].
    + injection H as <-. eapply minv_update; try done; simpl; unfold counted; simpl; destruct k; simpl; lia.
  - done.
  - destruct (take_lock i (mutex s)) as [m'|] eqn:E; [|done]. injection H as <-.
    apply take_lock_Some in E as [El ->].
    eapply minv_update; try done. unfold counted; simpl. destruct k; simpl; lia.
  - injection H as <-. by eapply minv_update.
  - destruct (take_lock i (mutex s)) as [m'|] eqn:E; [|done]. injection H as <-.
    apply take_lock_Some in E as [El ->]. by eapply minv_update.
  - destruct (negb (value (mutex s) =? 0)) eqn:Eg; injection H as <-; bcases;
      eapply minv_update; try done; simpl; try lia; by apply Hown.
  - injection H as <-. by eapply minv_update.
  - destruct (take_lock i (mutex s)) as [m'|] eqn:E; [|done]. injection H as <-.
    apply take_lock_Some in E as [El ->]. by eapply minv_update.
  - injection H as <-. eapply minv_update; try done; simpl; try lia; by apply Hown.
  - injection H as <-. eapply minv_update; try done; destruct r; try done; by rewrite Hown.
  - destruct (some_asleep s).
    + destruct (threads s !! w) as [[[| | |k| | | | | | | | |] pw hw]|] eqn:Ew; try done. injection H as <-.
      rewrite !set_thread_both. assert (i <> w) as Hne by (intros ->; congruence).
      assert (minv v0 (set_both (mutex s) i (mkThread Idle p h) s)) as Hs1 by by eapply minv_update.
      apply (minv_update v0 _ w (mkThread (DSleep k) pw hw)); try done.
      simpl. by rewrite list_lookup_insert_ne.
    + injection H as <-. rewrite set_thread_both. by eapply minv_update.
Qed.

Lemma step_minv v0 s s' : minv v0 s -> step s s' -> minv v0 s'.
Proof.
  intros Hinv [e H]. unfold mstep in H. rewrite (mi_alive _ _ Hinv) in H.
  destruct e as [i w a b|i|i]; destruct (threads s !! i) as [t|] eqn:Hi; try done; simpl in H.
  - by apply (run_thread_minv v0 i w a b t s).
  - destruct t as [[| | |k| | | | | | | | |] p h]; try done; simpl in H. injection H as <-.
    rewrite set_thread_both. by eapply minv_update; try apply Hinv.
  - destruct t as [[| | |[k|]| | | | | | | | |] p h]; try done; simpl in H. injection H as <-.
    rewrite set_thread_both. by eapply minv_update; try apply Hinv.
Qed.

Lemma reachable_minv v0 s s' : minv v0 s -> rtc step s s' -> minv v0 s'.
Proof. intros Hinv H. revert Hinv. induction H as [|s1 s2 s3 Hs _ IH]; [done|]. intros Hi. by apply IH, (step_minv v0 s1). Qed.

(** The semaphore counts.  From fio_mutex_init with a value of at least
    zero, whatever calls the threads make and however they interleave, wake up
    spuriously and time out: no assertion fails, one thread at a time is
    between the lock and the unlock, the value is never negative and is the
    initial value plus the units given by fio_mutex_up less those taken by the
    calls that succeeded (so with [v0] zero no down returns before an up). *)
Theorem fio_mutex_counts v0 m progs s :
  0 <= v0 -> fio_mutex_init true true v0 = Some m -> rtc step (start m progs) s ->
  aborted s = false /\ 0 <= value (mutex s) /\
  value (mutex s) = v0 - sum_threads held (threads s) /\
  waiters (mutex s) = sum_threads counted (threads s) /\
  (forall i j t u, threads s !! i = Some t -> threads s !! j = Some u ->
     in_cs (pc t) = true -> in_cs (pc u) = true -> i = j).
Proof.
  intros H0 [= <-] Hr.
  assert (minv v0 s) as [H1 H2 H3 H4 H5 H6 H7] by (eapply reachable_minv; [|exact Hr]; by apply minv_start).
  split_and!; try done; try lia.
  intros i j t u Hi Hj Ht Hu. pose proof (H1 i t Hi Ht). pose proof (H1 j u Hj Hu). congruence.
Qed.

(** * A mutex: the initial value is one, each thread gives back what it took *)

Definition acquires (c : call) : bool := match c with CUp => false | _ => true end.

(** Programs made of a down (of any kind) followed by its up. *)
Fixpoint paired (l : list call) : bool :=
  match l with
  | [] => true
  | a :: l' =>
      match l' with
      | CUp :: r => acquires a && paired r
      | _ => false
      end
  end.

Definition after_up (l : list call) : Prop := exists r, l = CUp :: r /\ paired r = true.

(** What a thread holds at each point of a paired program. *)
Definition tinv (t : mthread) : Prop :=
  match pc t with
  | Idle => (held t = 0 /\ paired (prog t) = true) \/ (held t = 1 /\ after_up (prog t))
  | DWant _ | DTest _ _ | DSleep _ | DWoken _ _ | TWant | TTest => held t = 0 /\ after_up (prog t)
  | DReturn r => held t = (if r =? 0 then 1 else 0) /\ after_up (prog t)
  | TReturn r => held t = (if r then 0 else 1) /\ after_up (prog t)
  | UWant | UTest => held t = 1 /\ paired (prog t) = true
  | UReturn _ | USignal => held t = 0 /\ paired (prog t) = true
  end.

Lemma tinv_held t : tinv t -> 0 <= held t <= 1.
Proof. unfold tinv. destruct (pc t) as [| | | | |r| | |r| | | |]; repeat case_match; naive_solver lia. Qed.

Lemma paired_cons c p : paired (c :: p) = true -> acquires c = true /\ after_up p.
Proof.
  simpl. destruct p as [|[] r]; try done. intros [Ha Hp]%andb_true_iff. split; [done|]. by exists r.
Qed.

(** A thread that will test the value: it was signalled, or is about to signal. *)
Definition will_test (c : mpc) : bool :=
  match c with
  | DWoken _ r | DTest _ r => r =? 0
  | UReturn w => w
  | USignal => true
  | _ => false
  end.

Definition pending (s : mstate) : Prop :=
  exists j u, threads s !! j = Some u /\ will_test (pc u) = true.

Record binv (s : mstate) : Prop := {
  bi_m : minv 1 s;
  bi_t : forall i t, threads s !! i = Some t -> tinv t;
  bi_p : value (mutex s) <> 0 -> some_asleep s = true -> pending s
}.

Lemma some_asleep_spec s :
  some_asleep s = true <-> exists i t, threads s !! i = Some t /\ asleep (pc t) = true.
Proof.
  unfold some_asleep. rewrite existsb_exists. split.
  - intros (t & Hin & Ht). apply list_elem_of_In, list_elem_of_lookup in Hin as [i Hi]. eauto.
  - intros (i & t & Hi & Ht). exists t. split; [|done]. by eapply list_elem_of_In, list_elem_of_lookup_2.
Qed.

(** The value and the units held make one. *)
Lemma binv_value s i t : binv s -> threads s !! i = Some t -> 0 <= value (mutex s) <= 1 - held t.
Proof.
  intros [Hm Ht _] Hi. pose proof (mi_value _ _ Hm). pose proof (mi_nonneg _ _ Hm).
  enough (held t <= sum_threads held (threads s)) by lia.
  eapply sum_threads_ge; [|done]. intros j u Hu. by apply tinv_held, (Ht j).
Qed.

(** A step of one thread keeps the wake-up that is under way, unless it was
    that thread's. *)
Lemma binv_update s i t t' m' :
  binv s -> threads s !! i = Some t -> minv 1 (set_both m' i t' s) -> tinv t' ->
  (value m' <> 0 -> asleep (pc t') = true -> asleep (pc t) = true) ->
  (value m' <> 0 -> value (mutex s) = 0 \/ will_test (pc t) = true -> some_asleep s = true ->
   will_test (pc t') = true) ->
  binv (set_both m' i t' s).
Proof.
  intros [Hm Ht Hp] Hi Hm' Ht' Hs Hw.
  assert (i < length (threads s))%nat as Hlt by by apply lookup_lt_Some in Hi.
  constructor; [done| |].
  - simpl. intros j u [[-> ->]|[Hne Hj]]%thread_insert_cases; [done|by eapply Ht].
  - simpl. intros Hv Hsl.
    assert (some_asleep s = true) as Hsl'.
    { apply some_asleep_spec in Hsl as (j & u & Hj & Hu). apply some_asleep_spec. simpl in Hj.
      apply thread_insert_cases in Hj as [[-> ->]|[Hne Hj]]; eauto. }
    destruct (decide (value (mutex s) = 0)) as [E|E].
    { exists i, t'. simpl. rewrite list_lookup_insert_eq by done. auto. }
    destruct (Hp E Hsl') as (j & u & Hj & Hu). destruct (decide (j = i)) as [->|Hne].
    + exists i, t'. simpl. rewrite list_lookup_insert_eq by done. split; [done|]. apply Hw; try done.
      right. congruence.
    + exists j, u. simpl. by rewrite list_lookup_insert_ne.
Qed.

(** The signal: the thread it wakes will test the value. *)
Lemma binv_signal s i w k p h pw hw :
  binv s -> threads s !! i = Some (mkThread USignal p h) -> threads s !! w = Some (mkThread (DSleep k) pw hw) ->
  minv 1 (set_thread w (mkThread (DWoken k 0) pw hw) (set_thread i (mkThread Idle p h) s)) ->
  binv (set_thread w (mkThread (DWoken k 0) pw hw) (set_thread i (mkThread Idle p h) s)).
Proof.
  intros [Hm Ht Hp] Hi Hw Hm'. pose proof (Ht i _ Hi) as Hti. pose proof (Ht w _ Hw) as Htw.
  constructor; [done| |].
  - simpl. intros j u [[-> ->]|[Hne [[-> ->]|[_ Hj]]%thread_insert_cases]]%thread_insert_cases;
      [exact Htw|by left|by eapply Ht].
  - intros _ _. exists w, (mkThread (DWoken k 0) pw hw). split; [|done]. simpl.
    apply list_lookup_insert_eq. rewrite length_insert. by apply lookup_lt_Some in Hw.
Qed.

Lemma run_thread_binv i w a b t s s' :
  binv s -> threads s !! i = Some t -> run_thread i w a b t s = Some s' -> binv s'.
Proof.
  intros Hb Hi H. pose proof Hb as [Hm Ht Hp].
  pose proof (run_thread_minv 1 i w a b t s s' Hm Hi H) as Hm'.
  pose proof (Ht i t Hi) as Hti. pose proof (binv_value s i t Hb Hi) as Hv.
  unfold run_thread in H. destruct t as [c p h]; simpl in H.
  destruct c as [|k|k r|k|k r|r| | |r| | |r|]; unfold tinv in Hti; simpl in Hti, Hv.
  - destruct p as [|c p]; [done|]. rewrite (mi_magic _ _ Hm), Z.eqb_refl in H. injection H as <-.
    rewrite set_thread_both. eapply binv_update; try done; [|by destruct c|naive_solver].
    destruct Hti as [[-> [Ha Hu]%paired_cons]|[-> (r & [= -> ->] & Hr)]]; [by destruct c|done].
  - destruct (take_lock i (mutex s)) as [m'|] eqn:E; [|done]. injection H as <-.
    eapply binv_update; try done.
  - destruct (negb (value (mutex s) =? 0) || negb (r =? 0)) eqn:Eg.
    + destruct (r =? 0) eqn:Er; injection H as <-; bcases.
      * rewrite orb_false_r in Eg. bcases. eapply binv_update; try done; [split; [simpl; lia|by apply Hti]|simpl; lia].
      * eapply binv_update; try done; unfold tinv; simpl; rewrite (proj2 (Z.eqb_neq _ _) Er); naive_solver.
    + injection H as <-. apply orb_false_iff in Eg as [Eg _]. bcases.
      eapply binv_update; try done; simpl; lia.
  - done.
  - destruct (take_lock i (mutex s)) as [m'|] eqn:E; [|done]. injection H as <-.
    apply take_lock_Some in E as [_ ->]. eapply binv_update; try done. simpl. intros Hn [?|Hr] _; [done|].
    bcases. subst r. by destruct k as [[]|].
  - injection H as <-. eapply binv_update; try done; [|naive_solver].
    unfold tinv; simpl. destruct Hti as [-> (q & -> & Hq)]. case_match; [right|left]; [|done].
    split; [done|]. by exists q.
  - destruct (take_lock i (mutex s)) as [m'|] eqn:E; [|done]. injection H as <-.
    apply take_lock_Some in E as [_ ->]. eapply binv_update; try done. naive_solver.
  - destruct (negb (value (mutex s) =? 0)) eqn:Eg; injection H as <-; bcases;
      (eapply binv_update; try done; first [split; [simpl; lia|by apply Hti] | simpl; intros ? [?|?]; (done || lia)]).
  - injection H as <-. eapply binv_update; try done; [|naive_solver].
    unfold tinv; simpl. destruct Hti as [-> (q & -> & Hq)]. destruct r; [left; done|right].
    split; [done|]. by exists q.
  - destruct (take_lock i (mutex s)) as [m'|] eqn:E; [|done]. injection H as <-.
    apply take_lock_Some in E as [_ ->]. eapply binv_update; try done. naive_solver.
  - injection H as <-. eapply binv_update; try done; [split; [simpl; lia|by apply Hti]|].
    simpl. intros _ _ Hs. assert (value (mutex s) = 0) as -> by lia. simpl.
    apply some_asleep_spec in Hs as (j & u & Hj & Hu).
    pose proof (sum_threads_ge counted (threads s) j u (fun _ x _ => counted_nonneg x) Hj) as Hc.
    rewrite (mi_waiters _ _ Hm). assert (counted u = 1) by (unfold counted; by destruct (pc u)).
    apply negb_true_iff, Z.eqb_neq. lia.
  - injection H as <-. destruct r; (eapply binv_update; try done; first [by left | simpl; by intros ? [?|?]]).
  - destruct (some_asleep s) eqn:Es.
    + destruct (threads s !! w) as [[[| | |k| | | | | | | | |] pw hw]|] eqn:Ew; try done. injection H as <-.
      by apply binv_signal.
    + injection H as <-. rewrite set_thread_both. eapply binv_update; try done; [by left|]. congruence.
Qed.

Lemma step_binv s s' : binv s -> step s s' -> binv s'.
Proof.
  intros Hb Hs. pose proof Hb as [Hm Ht Hp]. pose proof (step_minv 1 s s' Hm Hs) as Hm'.
  destruct Hs as [e H]. unfold mstep in H. rewrite (mi_alive _ _ Hm) in H.
  destruct e as [i w a b|i|i]; destruct (threads s !! i) as [t|] eqn:Hi; try done; simpl in H.
  - by apply (run_thread_binv i w a b t s).
  - pose proof (Ht i t Hi) as Hti.
    destruct t as [[| | |k| | | | | | | | |] p h]; try done; simpl in H. injection H as <-.
    rewrite set_thread_both. by eapply binv_update.
  - pose proof (Ht i t Hi) as Hti.
    destruct t as [[| | |[k|]| | | | | | | | |] p h]; try done; simpl in H. injection H as <-.
    rewrite set_thread_both. eapply binv_update; try done. by intros ? [?|?].
Qed.

Lemma reachable_binv s s' : binv s -> rtc step s s' -> binv s'.
Proof. intros Hinv H. revert Hinv. induction H as [|s1 s2 s3 Hs _ IH]; [done|]. intros Hi. by apply IH, (step_binv s1). Qed.

Lemma binv_start m progs :
  fio_mutex_init true true FIO_MUTEX_UNLOCKED = Some m -> Forall (fun p => paired p = true) progs ->
  binv (start m progs).
Proof.
  intros [= <-] Hp.
  assert (forall i t, threads (start (__fio_mutex_init (mkMutex None 0 0 0) FIO_MUTEX_UNLOCKED) progs) !! i = Some t ->
            pc t = Idle /\ tinv t) as Ht.
  { intros i t Hi. simpl in Hi. apply list_lookup_fmap_Some in Hi as (p & -> & Hi). split; [done|]. left. split; [done|].
    by apply (Forall_lookup_1 _ _ _ _ Hp Hi). }
  constructor; [by apply minv_start|intros i t Hi; by apply (Ht i)|].
  intros _ (i & t & Hi & Ha)%some_asleep_spec. destruct (Ht i t Hi) as [E _]. by rewrite E in Ha.
Qed.

(** * Every schedule without wake-ups of its own ends *)

(** The steps a thread can still take; a signal pays for the thread it wakes. *)
Definition pc_weight (c : mpc) : Z :=
  match c with
  | Idle => 0
  | DWant _ => 8 | DWoken _ _ => 5 | DTest _ _ => 4 | DSleep _ => 3 | DReturn _ => 2
  | TWant => 8 | TTest => 4 | TReturn _ => 2
  | UWant => 8 | UTest => 6 | UReturn _ => 5 | USignal => 4
  end.
Definition thread_weight (t : mthread) : Z := pc_weight (pc t) + 9 * Z.of_nat (length (prog t)).
Definition remaining (s : mstate) : Z := sum_threads thread_weight (threads s).

Lemma thread_weight_nonneg t : 0 <= thread_weight t.
Proof. unfold thread_weight. destruct (pc t); simpl; lia. Qed.

Lemma remaining_nonneg s : 0 <= remaining s.
Proof.
  unfold remaining, sum_threads. induction (threads s) as [|t l IH]; simpl; [lia|].
  pose proof (thread_weight_nonneg t). lia.
Qed.

Lemma remaining_update m i t t' s :
  threads s !! i = Some t -> remaining (set_both m i t' s) = remaining s - thread_weight t + thread_weight t'.
Proof. intros Hi. unfold remaining. simpl. by rewrite (sum_threads_insert _ _ _ t). Qed.

Lemma run_step_remaining v0 s s' : minv v0 s -> run_step s s' -> remaining s' < remaining s.
Proof.
  intros Hinv (i & w & a & b & H). unfold mstep in H. rewrite (mi_alive _ _ Hinv) in H.
  destruct (threads s !! i) as [t|] eqn:Hi; [|done]. simpl in H. unfold run_thread in H.
  destruct t as [c p h]; simpl in H.
  destruct c as [|k|k r|k|k r|r| | |r| | |r|].
  13: { destruct (some_asleep s).
    - destruct (threads s !! w) as [[[| | |k| | | | | | | | |] pw hw]|] eqn:Ew; try done. injection H as <-.
      rewrite !set_thread_both. assert (i <> w) as Hne by (intros ->; congruence).
      rewrite (remaining_update _ w (mkThread (DSleep k) pw hw)) by (simpl; by rewrite list_lookup_insert_ne).
      rewrite (remaining_update _ i (mkThread USignal p h)) by done. unfold thread_weight; simpl. lia.
    - injection H as <-. rewrite set_thread_both, (remaining_update _ _ _ _ _ Hi). unfold thread_weight; simpl. lia. }
  all: try (destruct (take_lock i (mutex s)) as [m'|]; [|done]; simpl in H).
  1: destruct p as [|c p]; [done|]; rewrite (mi_magic _ _ Hinv), Z.eqb_refl in H; destruct c.
  all: repeat case_match; try done; simplify_eq.
  all: rewrite ?set_thread_both, (remaining_update _ _ _ _ _ Hi); unfold thread_weight; simpl;
       repeat case_match; simpl; rewrite ?length_tl; try lia.
Qed.

Lemma run_nsteps_remaining v0 n s s' :
  minv v0 s -> nsteps run_step n s s' -> Z.of_nat n + remaining s' <= remaining s.
Proof.
  intros Hm H. revert Hm. induction H as [|n s1 s2 s3 H _ IH]; intros Hm; [lia|].
  pose proof (run_step_remaining _ _ _ Hm H). destruct H as (i & w & a & b & H).
  specialize (IH (step_minv _ _ _ Hm (ex_intro _ _ H))). lia.
Qed.

(** Where no thread can run every thread is done or asleep. *)
Lemma stuck_thread v0 s i t :
  minv v0 s -> (forall s', ~ run_step s s') -> threads s !! i = Some t ->
  (pc t = Idle /\ prog t = []) \/ asleep (pc t) = true.
Proof.
  intros Hm Hst Hi.
  assert (forall j u, threads s !! j = Some u -> forall w s', run_thread j w 0 0 u s <> Some s') as Hgo.
  { intros j u Hj w s' E. apply (Hst s'). exists j, w, 0, 0. unfold mstep. by rewrite (mi_alive _ _ Hm), Hj. }
  assert (forall j u, threads s !! j = Some u -> in_cs (pc u) = false) as Hcs.
  { intros j u Hj. specialize (Hgo j u Hj 0%nat). destruct (in_cs (pc u)) eqn:E; [|done].
    exfalso. unfold run_thread in Hgo. destruct (pc u); try done; repeat case_match; naive_solver. }
  assert (forall j, exists m', take_lock j (mutex s) = Some m') as Hlock.
  { intros j. unfold take_lock. destruct (lock (mutex s)) as [o|] eqn:E; [|eauto].
    destruct (mi_owner _ _ Hm o E) as (u & Hu & Hin). by rewrite (Hcs o u Hu) in Hin. }
  specialize (Hcs i t Hi). specialize (Hgo i t Hi). destruct (Hlock i) as [m' Hl].
  unfold run_thread in Hgo. rewrite Hl in Hgo. simpl in Hgo.
  destruct (pc t) eqn:Ep; try done; try (by right); try (exfalso; by eapply (Hgo 0%nat)).
  - destruct (prog t); [by left|]. exfalso. rewrite (mi_magic _ _ Hm), Z.eqb_refl in Hgo. by eapply (Hgo 0%nat).
  - exfalso. destruct (some_asleep s) eqn:Es; [|by eapply (Hgo 0%nat)].
    apply some_asleep_spec in Es as (j & [c p h] & Hj & Ha). destruct c; try done.
    specialize (Hgo j). rewrite Hj in Hgo. by eapply Hgo.
Qed.

Lemma binv_stuck s :
  binv s -> (forall s2, ~ run_step s s2) ->
  (forall i t, threads s !! i = Some t -> pc t = Idle /\ prog t = [] /\ held t = 0) /\
  value (mutex s) = FIO_MUTEX_UNLOCKED /\ lock (mutex s) = None.
Proof.
  intros [Hm Ht Hp] Hst. pose proof (fun i t => stuck_thread 1 s i t Hm Hst) as Hth.
  assert (forall i t, threads s !! i = Some t -> held t = 0) as Hz.
  { intros i t Hi. specialize (Ht i t Hi). unfold tinv in Ht.
    destruct (Hth i t Hi) as [[E E']|E]; [|destruct (pc t); try done; tauto].
    rewrite E, E' in Ht. destruct Ht as [[? _]|[_ (r & Hr & _)]]; done. }
  assert (value (mutex s) = 1) as Hv.
  { pose proof (mi_value _ _ Hm). rewrite (sum_threads_zero held) in *; [lia|done]. }
  assert (lock (mutex s) = None) as Hl.
  { destruct (lock (mutex s)) as [o|] eqn:E; [|done].
    destruct (mi_owner _ _ Hm o E) as (u & Hu & Hin).
    destruct (Hth o u Hu) as [[Ep _]|Ep]; [by rewrite Ep in Hin|by destruct (pc u)]. }
  split; [|done]. intros i t Hi.
  destruct (Hth i t Hi) as [[E1 E2]|Ha]; [by eauto|]. exfalso.
  destruct Hp as (j & u & Hj & Hu); [lia|by apply some_asleep_spec; eauto|].
  destruct (Hth j u Hj) as [[Ep _]|Ep]; [by rewrite Ep in Hu|by destruct (pc u)].
Qed.

(** C28: a fio_mutex excludes, and no caller waits for ever.  Any number of
    threads take a mutex that was initialised unlocked (by down, trylock or
    down_timeout, in any order and any number of times) and give it back each
    time they got it.  However they interleave, wake up spuriously and time
    out: at most one thread holds the mutex; from there on, every run of the
    threads ends within the given number of steps, and it ends only when all
    threads have made all their calls, with the mutex free again: the wake-up
    is never lost, though it is signalled after the lock is released and only
    when the value was zero. *)
Theorem fio_mutex_exclusion m progs s :
  fio_mutex_init true true FIO_MUTEX_UNLOCKED = Some m ->
  Forall (fun p => paired p = true) progs -> rtc step (start m progs) s ->
  (forall i j t u, threads s !! i = Some t -> threads s !! j = Some u ->
     held t <> 0 -> held u <> 0 -> i = j) /\
  forall n s', nsteps run_step n s s' ->
    Z.of_nat n <= remaining s /\
    ((forall s2, ~ run_step s' s2) ->
     (forall i t, threads s' !! i = Some t -> pc t = Idle /\ prog t = [] /\ held t = 0) /\
     value (mutex s') = FIO_MUTEX_UNLOCKED /\ lock (mutex s') = None).
Proof.
  intros Hi Hp Hr. pose proof (reachable_binv _ _ (binv_start m progs Hi Hp) Hr) as Hb.
  pose proof Hb as [Hm Ht _]. split.
  - intros i j t u Hti Htj Hht Hhu. destruct (decide (i = j)) as [|Hne]; [done|]. exfalso.
    pose proof (sum_threads_ge2 held (threads s) i j t u
      (fun k x Hx => proj1 (tinv_held x (Ht k x Hx))) Hti Htj Hne) as Hsum.
    pose proof (mi_value _ _ Hm). pose proof (mi_nonneg _ _ Hm).
    pose proof (tinv_held t (Ht i t Hti)). pose proof (tinv_held u (Ht j u Htj)). lia.
  - intros n s' Hn. split.
    { pose proof (run_nsteps_remaining 1 n s s' Hm Hn). pose proof (remaining_nonneg s'). lia. }
    intros Hst. assert (binv s') as Hb'.
    { apply (reachable_binv s); [done|]. apply (rtc_nsteps_2 n).
      clear -Hn. induction Hn as [|n x y z (i & w & a & b & H) _ IH]; [constructor|].
      econstructor; [by eexists|done]. }
    apply (binv_stuck s' Hb' Hst).
Qed.

(** * The deadline of a timed wait *)

(** The deadline is normalised, [msecs] milliseconds after the start. *)
Lemma down_deadline_exact s us ms :
  0 <= us < 1000000 -> 0 <= ms ->
  ts_ok (down_deadline s us ms) /\ ts_ns (down_deadline s us ms) = ts_ns (mkTs s (us * 1000)) + ms * 1000000.
Proof. intros Hus Hms. unfold down_deadline. since_cases. Qed.

(** The double check measures [msecs] from the deadline and not from the start:
    the wait is over only after twice the time asked for. *)
Lemma down_timeout_doubles s us ms now_s now_us :
  0 <= us < 1000000 -> 0 <= ms -> 0 <= now_us < 1000000 ->
  mutex_timed_out (down_deadline s us ms) now_s now_us ms = true ->
  ts_ns (mkTs s (us * 1000)) + 2 * (ms * 1000000) - 1000 < ts_ns (mkTs now_s (now_us * 1000)) \/ ms = 0.
Proof.
  intros Hus Hms Hn H. destruct (down_deadline_exact s us ms Hus Hms) as [Hok Hns].
  unfold mutex_timed_out in H. bcases.
  pose proof (mtime_since_close (down_deadline s us ms) (mkTs now_s (now_us * 1000)) Hok
    ltac:(unfold ts_ok; simpl; lia)) as Hc. simpl in Hc. rewrite Hns in Hc. lia.
Qed.

(** * The theorems at concrete inputs *)

(** Run a list of events, skipping those that cannot happen. *)
Fixpoint run_events (l : list event) (s : mstate) : mstate :=
  match l with
  | [] => s
  | e :: l' => match mstep e s with Some s' => run_events l' s' | None => run_events l' s end
  end.

Lemma run_events_rtc l s : rtc step s (run_events l s).
Proof.
  revert s. induction l as [|e l IH]; intros s; simpl; [done|].
  destruct (mstep e s) as [s'|] eqn:E; [|apply IH]. econstructor; [by exists e | apply IH].
Qed.

Definition go (i w : nat) : event := Run i w 0 0.
Definition fresh (v : Z) : fio_mutex := mkMutex None v 0 FIO_MUTEX_MAGIC.

(** Two threads wait on a locked semaphore and a third one gives two units:
    the second up finds the value at one and does not signal. *)
Definition two_waiters : mstate := start (fresh FIO_MUTEX_LOCKED) [[CDown]; [CDown]; [CUp; CUp]].
Definition lost_wakeup : list event :=
  [go 0 0; go 0 0; go 0 0; go 1 0; go 1 0; go 1 0;       (* both go to sleep *)
   go 2 0; go 2 0; go 2 0; go 2 0; go 2 0;               (* up, and wake thread 0 *)
   go 2 0; go 2 0; go 2 0; go 2 0;                       (* up again, before it runs *)
   go 0 0; go 0 0; go 0 0].                              (* thread 0 takes a unit *)

(** Used as a counter the semaphore loses a wake-up: thread 1 sleeps for ever
    though a unit is free for it. *)
Lemma fio_mutex_lost_wakeup :
  let s := run_events lost_wakeup two_waiters in
  value (mutex s) = 1 /\ pc <$> threads s = [Idle; DSleep None; Idle] /\ forall s', ~ run_step s s'.
Proof.
  assert (run_events lost_wakeup two_waiters =
    mkState (mkMutex None 1 1 FIO_MUTEX_MAGIC)
      [mkThread Idle [] 1; mkThread (DSleep None) [] 0; mkThread Idle [] (-2)] false) as -> by (vm_compute; reflexivity).
  split_and!; [reflexivity..|]. intros s' (i & w & a & b & H). destruct i as [|[|[|i]]]; done.
Qed.

Definition three_users : mstate :=
  start (fresh FIO_MUTEX_UNLOCKED) [[CDown; CUp]; [CTimed 10; CUp; CDown; CUp]; [CTry; CUp]].
(** Thread 1 sleeps while thread 0 holds the mutex, thread 2 fails to get it,
    the time of thread 1 is over but not long enough, and it sleeps again. *)
Definition contention : list event :=
  [go 0 0; go 0 0; go 0 0; go 0 0; go 1 0; go 1 0; go 1 0; go 2 0; go 2 0; go 2 0; go 2 0;
   Timeout 1; go 1 0; go 1 0].

Lemma fio_mutex_counts_witness :
  let s := run_events contention three_users in
  value (mutex s) = 0 /\ waiters (mutex s) = 1 /\
  value (mutex s) = 1 - sum_threads held (threads s).
Proof.
  intros s. split_and!; [vm_compute; reflexivity..|].
  apply (fio_mutex_counts 1 (fresh 1) [[CDown; CUp]; [CTimed 10; CUp; CDown; CUp]; [CTry; CUp]] s);
    [lia|reflexivity|apply run_events_rtc].
Defined.

Lemma fio_mutex_exclusion_witness :
  let s := run_events contention three_users in
  held <$> threads s = [1; 0; 0] /\
  forall n s', nsteps run_step n s s' -> Z.of_nat n <= 39.
Proof.
  intros s. split; [vm_compute; reflexivity|]. intros n s' Hn. replace 39 with (remaining s) by (vm_compute; reflexivity).
  apply (fio_mutex_exclusion (fresh 1) [[CDown; CUp]; [CTimed 10; CUp; CDown; CUp]; [CTry; CUp]] s) with (s' := s');
    [reflexivity|repeat constructor|apply run_events_rtc|done].
Defined.
