(* ===== verification/Flist.v ===== *)
(** The doubly linked lists of src/fio/flist.h: entries by address, each with the addresses of
    the next and the previous entry; a list is a ring through its head. *)
From S2P Require Import Prelude.

(** * The code *)

Record flist_head : Type := mkFl { fl_next : Z; fl_prev : Z }.

Definition fget (a : Z) : M (gmap Z flist_head) flist_head := fun h =>
  match h !! a with Some n => Ret n h | None => Undef h end.
Definition next (a : Z) : M (gmap Z flist_head) Z := n ← fget a; mret (fl_next n).
Definition prev (a : Z) : M (gmap Z flist_head) Z := n ← fget a; mret (fl_prev n).
Definition set_next (a p : Z) : M (gmap Z flist_head) unit := fun h =>
  match h !! a with Some n => Ret tt (<[a := mkFl p (fl_prev n)]> h) | None => Undef h end.
Definition set_prev (a p : Z) : M (gmap Z flist_head) unit := fun h =>
  match h !! a with Some n => Ret tt (<[a := mkFl (fl_next n) p]> h) | None => Undef h end.

Definition INIT_FLIST_HEAD (ptr : Z) : M (gmap Z flist_head) unit := set_next ptr ptr;; set_prev ptr ptr.

Definition __flist_add (new_entry prv nxt : Z) : M (gmap Z flist_head) unit :=
  set_prev nxt new_entry;; set_next new_entry nxt;; set_prev new_entry prv;; set_next prv new_entry.

Definition flist_add (new_entry head : Z) : M (gmap Z flist_head) unit := n ← next head; __flist_add new_entry head n.
Definition flist_add_tail (new_entry head : Z) : M (gmap Z flist_head) unit := p ← prev head; __flist_add new_entry p head.

Definition __flist_del (prv nxt : Z) : M (gmap Z flist_head) unit := set_prev nxt prv;; set_next prv nxt.

Definition flist_del (entry : Z) : M (gmap Z flist_head) unit :=
  p ← prev entry; n ← next entry; __flist_del p n;; set_next entry 0;; set_prev entry 0.

Definition flist_del_init (entry : Z) : M (gmap Z flist_head) unit :=
  p ← prev entry; n ← next entry; __flist_del p n;; INIT_FLIST_HEAD entry.

Definition flist_empty (head : Z) : M (gmap Z flist_head) bool := n ← next head; mret (n =? head).

Definition __flist_splice (lst prv nxt : Z) : M (gmap Z flist_head) unit :=
  first ← next lst;
  last ← prev lst;
  set_prev first prv;; set_next prv first;;
  set_next last nxt;; set_prev nxt last.

Definition flist_splice (lst head : Z) : M (gmap Z flist_head) unit :=
  e ← flist_empty lst;
  if negb e then n ← next head; __flist_splice lst head n else mret tt.

Definition flist_splice_tail (lst head : Z) : M (gmap Z flist_head) unit :=
  e ← flist_empty lst;
  if negb e then p ← prev head; __flist_splice lst p head else mret tt.

Definition flist_splice_tail_init (lst head : Z) : M (gmap Z flist_head) unit :=
  e ← flist_empty lst;
  if negb e then p ← prev head; __flist_splice lst p head;; INIT_FLIST_HEAD lst else mret tt.

Definition flist_splice_init (lst head : Z) : M (gmap Z flist_head) unit :=
  e ← flist_empty lst;
  if negb e then n ← next head; __flist_splice lst head n;; INIT_FLIST_HEAD lst else mret tt.

Definition flist_first_entry (head : Z) : M (gmap Z flist_head) Z := next head.

(** * Links *)

Definition nx (h : gmap Z flist_head) (a : Z) : option Z := fl_next <$> h !! a.
Definition pv (h : gmap Z flist_head) (a : Z) : option Z := fl_prev <$> h !! a.

Definition link (h : gmap Z flist_head) (a b : Z) : Prop := nx h a = Some b /\ pv h b = Some a.

Fixpoint links (h : gmap Z flist_head) (l : list Z) : Prop :=
  match l with
  | a :: ((b :: _) as l') => link h a b /\ links h l'
  | _ => True
  end.

Lemma links_app h l1 x l2 : links h (l1 ++ x :: l2) <-> links h (l1 ++ [x]) /\ links h (x :: l2).
Proof.
  induction l1 as [|a l1 IH]; [cbn; tauto|]. destruct l1 as [|b l1]; [cbn; tauto|].
  change ((a :: b :: l1) ++ x :: l2) with (a :: (b :: l1) ++ x :: l2). change ((a :: b :: l1) ++ [x]) with (a :: (b :: l1) ++ [x]).
  cbn [links app]. cbn [app] in IH. rewrite IH. tauto.
Qed.

Lemma links_cons h a b l : links h (a :: b :: l) <-> link h a b /\ links h (b :: l).
Proof. done. Qed.

(** The sources of the links of [l ++ [z]] are [l], the targets of [a :: l] are [l]. *)
Lemma links_frame h h' a l :
  (forall x, x ∈ removelast (a :: l) -> nx h' x = nx h x) -> (forall y, y ∈ l -> pv h' y = pv h y) ->
  links h (a :: l) -> links h' (a :: l).
Proof.
  revert a. induction l as [|b l IH]; intros a Hn Hp H; [done|]. destruct H as [[H1 H2] H]. split.
  - split; [rewrite Hn; [done | cbn; left] | rewrite Hp; [done | left]].
  - apply IH; [|by intros y Hy; apply Hp; right | done]. intros x Hx. apply Hn. change (removelast (a :: b :: l)) with (a :: removelast (b :: l)). by right.
Qed.

Lemma removelast_snoc {A} (l : list A) x : removelast (l ++ [x]) = l.
Proof. apply removelast_last. Qed.

(** ** Writes *)

Lemma nx_set_next h a p n x : h !! a = Some n -> nx (<[a := mkFl p (fl_prev n)]> h) x = if decide (x = a) then Some p else nx h x.
Proof.
  intros H. unfold nx. destruct (decide (x = a)) as [->|Hne]; [by rewrite lookup_insert_eq | by rewrite lookup_insert_ne].
Qed.
Lemma pv_set_next h a p n x : h !! a = Some n -> pv (<[a := mkFl p (fl_prev n)]> h) x = pv h x.
Proof.
  intros H. unfold pv. destruct (decide (x = a)) as [->|Hne]; [by rewrite lookup_insert_eq, H | by rewrite lookup_insert_ne].
Qed.

(** What a piece of code does to the links of the entries: [m] returns [v] in every heap with
    the entries [D], and the links after it are [f] and [g] of those before. *)
Definition same_out (D : list Z) (h h' : gmap Z flist_head) : Prop := forall a, a ∉ D -> h' !! a = h !! a.

Lemma set_next_run h a p : is_Some (h !! a) ->
  exists h', set_next a p h = Ret tt h' /\ (forall x, nx h' x = if decide (x = a) then Some p else nx h x) /\
    (forall x, pv h' x = pv h x) /\ same_out [a] h h' /\ (forall x, is_Some (h' !! x) <-> is_Some (h !! x)).
Proof.
  intros [n E]. unfold set_next. rewrite E. eexists. split; [reflexivity|].
  split; [intros x; by apply nx_set_next|]. split; [intros x; by apply pv_set_next|]. split.
  - intros x Hx. rewrite lookup_insert_ne; [done | set_solver].
  - intros x. destruct (decide (a = x)) as [->|]; [rewrite lookup_insert_eq; split; eauto | by rewrite lookup_insert_ne].
Qed.

Lemma set_prev_run h a p : is_Some (h !! a) ->
  exists h', set_prev a p h = Ret tt h' /\ (forall x, pv h' x = if decide (x = a) then Some p else pv h x) /\
    (forall x, nx h' x = nx h x) /\ same_out [a] h h' /\ (forall x, is_Some (h' !! x) <-> is_Some (h !! x)).
Proof.
  intros [n E]. unfold set_prev. rewrite E. eexists. split; [reflexivity|]. unfold nx, pv. repeat split.
  - intros x. destruct (decide (x = a)) as [->|Hne]; [by rewrite lookup_insert_eq | by rewrite lookup_insert_ne].
  - intros x. destruct (decide (x = a)) as [->|Hne]; [by rewrite lookup_insert_eq, E | by rewrite lookup_insert_ne].
  - intros x Hx. rewrite lookup_insert_ne; [done | set_solver].
  - destruct (decide (a = x)) as [->|]; [rewrite lookup_insert_eq; eauto | by rewrite lookup_insert_ne].
  - destruct (decide (a = x)) as [->|]; [rewrite lookup_insert_eq; eauto | by rewrite lookup_insert_ne].
Qed.

Lemma next_run h a p : nx h a = Some p -> next a h = Ret p h.
Proof. unfold nx, next, fget. intros H. munfold. destruct (h !! a); [|done]. by injection H as <-. Qed.

Lemma prev_run h a p : pv h a = Some p -> prev a h = Ret p h.
Proof. unfold pv, prev, fget. intros H. munfold. destruct (h !! a); [|done]. by injection H as <-. Qed.

Lemma nx_some h a b : nx h a = Some b -> is_Some (h !! a).
Proof. unfold nx. destruct (h !! a); [by eexists | done]. Qed.
Lemma pv_some h a b : pv h a = Some b -> is_Some (h !! a).
Proof. unfold pv. destruct (h !! a); [by eexists | done]. Qed.

(** ** Inserting, removing and splicing between two neighbours *)

Lemma decide_ne {A} (x a : Z) (p q : A) : x <> a -> (if decide (x = a) then p else q) = q.
Proof. intros H. by rewrite decide_False. Qed.

Lemma decide_refl {A} (x : Z) (p q : A) : (if decide (x = x) then p else q) = p.
Proof. by rewrite decide_True. Qed.

(** Links in parts of a list that the writes to [p] and [n] do not touch. *)
Lemma links_before h h' A p n :
  (forall z, z ∈ A -> nx h' z = nx h z) -> (forall z, z <> n -> z ∈ A ++ [p] -> pv h' z = pv h z) ->
  n ∉ tail (A ++ [p]) -> links h (A ++ [p]) -> links h' (A ++ [p]).
Proof.
  intros Hn Hp Hnn H. destruct (A ++ [p]) as [|a l] eqn:E; [done|]. revert H. apply links_frame.
  - intros z Hz. apply Hn. by rewrite <- E, removelast_snoc in Hz.
  - intros z Hz. apply Hp; [intros ->; by apply Hnn | by right].
Qed.

Lemma links_after h h' n p B :
  (forall z, z <> p -> z ∈ n :: B -> nx h' z = nx h z) -> (forall z, z ∈ B -> pv h' z = pv h z) ->
  p ∉ removelast (n :: B) -> links h (n :: B) -> links h' (n :: B).
Proof.
  intros Hn Hp Hpp. apply links_frame; [|done]. intros z Hz. apply Hn; [by intros ->|].
  clear - Hz. revert n Hz. induction B as [|b B IH]; intros n Hz; [by apply elem_of_nil in Hz|].
  change (removelast (n :: b :: B)) with (n :: removelast (b :: B)) in Hz. apply elem_of_cons in Hz as [->|Hz]; [left | right; by apply IH].
Qed.

Lemma add_between h A p n B x :
  links h (A ++ p :: n :: B) -> is_Some (h !! x) -> x ∉ A ++ p :: n :: B ->
  p ∉ A -> p ∉ removelast (n :: B) -> n ∉ tail (A ++ [p]) -> n ∉ B ->
  exists h', __flist_add x p n h = Ret tt h' /\ links h' (A ++ p :: x :: n :: B) /\ same_out [x; p; n] h h' /\
    (forall z, is_Some (h' !! z) <-> is_Some (h !! z)).
Proof.
  intros H Hx Hxn HpA HpB HnA HnB. apply links_app in H as [HA [[H1 H2] HB]].
  pose proof (nx_some _ _ _ H1) as Hp. pose proof (pv_some _ _ _ H2) as Hn.
  unfold __flist_add.
  destruct (set_prev_run h n x Hn) as (h1 & E1 & P1 & N1 & S1 & D1). rewrite (bind_Ret _ _ _ _ _ E1).
  destruct (set_next_run h1 x n) as (h2 & E2 & N2 & P2 & S2 & D2); [by apply D1|]. rewrite (bind_Ret _ _ _ _ _ E2).
  destruct (set_prev_run h2 x p) as (h3 & E3 & P3 & N3 & S3 & D3); [by apply D2, D1|]. rewrite (bind_Ret _ _ _ _ _ E3).
  destruct (set_next_run h3 p x) as (h4 & E4 & N4 & P4 & S4 & D4); [by apply D3, D2, D1|]. exists h4. split; [done|].
  assert (forall z, nx h4 z = if decide (z = p) then Some x else if decide (z = x) then Some n else nx h z) as NX
    by (intros z; by rewrite N4, N3, N2, N1).
  assert (forall z, pv h4 z = if decide (z = x) then Some p else if decide (z = n) then Some x else pv h z) as PV
    by (intros z; by rewrite P4, P3, P2, P1).
  split; [|split].
  - apply links_app. split.
    + apply (links_before h h4 A p n); [| |done|done].
      * intros z Hz. rewrite NX, !decide_ne; [done | set_solver | set_solver].
      * intros z Hz1 Hz2. rewrite PV, !decide_ne; [done | done | set_solver].
    + split; [|split].
      * split; [by rewrite NX, decide_refl | by rewrite PV, decide_refl].
      * split; [rewrite NX, decide_ne, decide_refl; [done | set_solver] | rewrite PV, decide_ne, decide_refl; [done | set_solver]].
      * apply (links_after h h4 n p B); [| |done|done].
        -- intros z Hz1 Hz2. rewrite NX, !decide_ne; [done | set_solver | done].
        -- intros z Hz. rewrite PV, !decide_ne; [done | set_solver | set_solver].
  - intros a Ha. rewrite S4, S3, S2, S1; [done | set_solver..].
  - intros z. by rewrite D4, D3, D2, D1.
Qed.

Lemma del_between h A p x n B :
  links h (A ++ p :: x :: n :: B) -> p ∉ A -> p ∉ removelast (n :: B) -> n ∉ tail (A ++ [p]) -> n ∉ B ->
  exists h', __flist_del p n h = Ret tt h' /\ links h' (A ++ p :: n :: B) /\ same_out [p; n] h h' /\
    (forall z, is_Some (h' !! z) <-> is_Some (h !! z)).
Proof.
  intros H HpA HpB HnA HnB. apply links_app in H as [HA [[H1 _] [[_ H2] HB]]].
  pose proof (nx_some _ _ _ H1) as Hp. pose proof (pv_some _ _ _ H2) as Hn.
  unfold __flist_del.
  destruct (set_prev_run h n p Hn) as (h1 & E1 & P1 & N1 & S1 & D1). rewrite (bind_Ret _ _ _ _ _ E1).
  destruct (set_next_run h1 p n) as (h2 & E2 & N2 & P2 & S2 & D2); [by apply D1|]. exists h2. split; [done|].
  assert (forall z, nx h2 z = if decide (z = p) then Some n else nx h z) as NX by (intros z; by rewrite N2, N1).
  assert (forall z, pv h2 z = if decide (z = n) then Some p else pv h z) as PV by (intros z; by rewrite P2, P1).
  split; [|split].
  - apply links_app. split.
    + apply (links_before h h2 A p n); [| |done|done].
      * intros z Hz. rewrite NX, decide_ne; [done | set_solver].
      * intros z Hz1 Hz2. by rewrite PV, decide_ne.
    + split; [split; [by rewrite NX, decide_refl | by rewrite PV, decide_refl]|].
      apply (links_after h h2 n p B); [| |done|done].
      * intros z Hz1 Hz2. by rewrite NX, decide_ne.
      * intros z Hz. rewrite PV, decide_ne; [done | set_solver].
  - intros a Ha. rewrite S2, S1; [done | set_solver..].
  - intros z. by rewrite D2, D1.
Qed.

(** * Rings *)

(** The list [l] with the head [hd]. *)
Record ring (h : gmap Z flist_head) (hd : Z) (l : list Z) : Prop := {
  rg_nodup : NoDup (hd :: l);
  rg_links : links h (hd :: l ++ [hd])
}.

Lemma links_some h a l x : links h (a :: l) -> x ∈ l -> is_Some (h !! x).
Proof.
  revert a. induction l as [|b l IH]; intros a H Hx; [by apply elem_of_nil in Hx|]. destruct H as [[_ H2] H].
  apply elem_of_cons in Hx as [->|Hx]; [by apply (pv_some _ _ a) | by apply (IH b)].
Qed.

Lemma ring_some h hd l x : ring h hd l -> x ∈ hd :: l -> is_Some (h !! x).
Proof. intros [_ H] Hx. apply (links_some _ _ _ _ H). set_solver. Qed.

Lemma ring_frame h h' hd l : (forall x, x ∈ hd :: l -> h' !! x = h !! x) -> ring h hd l -> ring h' hd l.
Proof.
  intros Hh [Hnd Hl]. split; [done|]. revert Hl. apply links_frame.
  - intros x Hx. unfold nx. rewrite Hh; [done|]. change (hd :: l ++ [hd]) with ((hd :: l) ++ [hd]) in Hx. by rewrite removelast_snoc in Hx.
  - intros x Hx. unfold pv. rewrite Hh; [done | set_solver].
Qed.

(** The first and the last entry, or the head. *)
Lemma ring_next h hd l : ring h hd l -> nx h hd = Some (List.hd hd l).
Proof. intros [_ H]. destruct l; apply H. Qed.

Lemma snoc_inv {A} (a : A) l : exists l' x, a :: l = l' ++ [x].
Proof. destruct (exists_last (l := a :: l)) as (l' & x & E); [done|]. by exists l', x. Qed.

Lemma ring_prev h hd l : ring h hd l -> pv h hd = Some (List.last l hd).
Proof.
  intros [_ H]. destruct (snoc_inv hd l) as (l' & x & E). change (hd :: l ++ [hd]) with ((hd :: l) ++ [hd]) in H. rewrite E, <- app_assoc in H.
  apply links_app in H as [_ [[_ H] _]]. rewrite H. f_equal.
  assert (List.last (hd :: l) hd = x) as <- by (rewrite E; apply List.last_last). by destruct l.
Qed.

Lemma nodup_snoc {A} (l : list A) x : NoDup (x :: l) -> NoDup (l ++ [x]).
Proof. intros H. rewrite Permutation_app_comm. exact H. Qed.

Lemma cut_eq (hd : Z) l1 A p m : hd :: l1 = A ++ [p] -> hd :: (l1 ++ m) ++ [hd] = A ++ p :: m ++ [hd].
Proof. intros E. change (A ++ p :: m ++ [hd]) with (A ++ [p] ++ m ++ [hd]). rewrite app_assoc, <- E. cbn. by rewrite <- app_assoc. Qed.

(** A ring cut between [p] and [n]. *)
Lemma ring_cut (hd : Z) (l1 l2 A : list Z) (p n : Z) (B : list Z) :
  NoDup (hd :: l1 ++ l2) -> hd :: l1 = A ++ [p] -> l2 ++ [hd] = n :: B ->
  (p ∉ A) /\ (p ∉ removelast (n :: B)) /\ (n ∉ tail (A ++ [p])) /\ (n ∉ B) /\ (p ∈ hd :: l1) /\ (n ∈ l2 ++ [hd]).
Proof.
  intros Hnd E1 E2. assert (p ∈ hd :: l1) as Hp by (rewrite E1; set_solver). assert (n ∈ l2 ++ [hd]) as Hn by (rewrite E2; left).
  rewrite <- E1, <- E2, removelast_snoc. cbn [tail].
  assert (NoDup (A ++ [p])) as HA by (rewrite <- E1; apply NoDup_cons in Hnd as [Hh Hnd]; apply NoDup_app in Hnd as (H1 & H2 & H3); constructor; set_solver).
  assert (NoDup (n :: B)) as HB by (rewrite <- E2; apply nodup_snoc; apply NoDup_cons in Hnd as [Hh Hnd]; apply NoDup_app in Hnd as (H1 & H2 & H3); constructor; set_solver).
  apply NoDup_cons in Hnd as [Hh Hnd]. apply NoDup_app in Hnd as (H1 & H2 & H3).
  apply NoDup_app in HA as (_ & HA & _). apply NoDup_cons in HB as [HB _].
  split_and!; try done; set_solver.
Qed.

Lemma ring_add h hd l1 l2 x A p n B :
  ring h hd (l1 ++ l2) -> is_Some (h !! x) -> x ∉ hd :: l1 ++ l2 -> hd :: l1 = A ++ [p] -> l2 ++ [hd] = n :: B ->
  exists h', __flist_add x p n h = Ret tt h' /\ ring h' hd (l1 ++ x :: l2) /\ same_out (x :: hd :: l1 ++ l2) h h'.
Proof.
  intros [Hnd HL] Hx Hn E1 E2. destruct (ring_cut hd l1 l2 A p n B Hnd E1 E2) as (C1 & C2 & C3 & C4 & C5 & C6).
  pose proof (fun m => cut_eq hd l1 A p m E1) as ES.
  destruct (add_between h A p n B x) as (h' & E' & HL' & Ho & _); try done.
  - rewrite <- E2, <- ES. done.
  - rewrite <- E2, <- ES. set_solver.
  - exists h'. split; [done|]. split; [split|].
    + change (hd :: l1 ++ x :: l2) with ((hd :: l1) ++ x :: l2). rewrite <- Permutation_middle. constructor; [exact Hn | exact Hnd].
    + rewrite (ES (x :: l2)). cbn [app]. by rewrite E2.
    + intros a Ha. apply Ho. set_solver.
Qed.

Lemma flist_add_run h hd l x : ring h hd l -> is_Some (h !! x) -> x ∉ hd :: l ->
  exists h', flist_add x hd h = Ret tt h' /\ ring h' hd (x :: l) /\ same_out (x :: hd :: l) h h'.
Proof.
  intros H Hx Hn. unfold flist_add. rewrite (bind_Ret _ _ _ _ _ (next_run h hd _ (ring_next _ _ _ H))).
  assert (exists B, l ++ [hd] = List.hd hd l :: B) as [B EB] by (destruct l; by eexists).
  exact (ring_add h hd [] l x [] hd _ B H Hx Hn eq_refl EB).
Qed.

Lemma last_snoc (hd : Z) l : exists A, hd :: l = A ++ [List.last l hd].
Proof.
  destruct (snoc_inv hd l) as (A & x & E). exists A. rewrite E. f_equal. f_equal.
  assert (List.last (hd :: l) hd = x) as <- by (rewrite E; apply List.last_last). by destruct l.
Qed.

Lemma flist_add_tail_run h hd l x : ring h hd l -> is_Some (h !! x) -> x ∉ hd :: l ->
  exists h', flist_add_tail x hd h = Ret tt h' /\ ring h' hd (l ++ [x]) /\ same_out (x :: hd :: l) h h'.
Proof.
  intros H Hx Hn. unfold flist_add_tail. rewrite (bind_Ret _ _ _ _ _ (prev_run h hd _ (ring_prev _ _ _ H))).
  destruct (last_snoc hd l) as [A EA]. rewrite <- (app_nil_r l) in H, Hn. 
  destruct (ring_add h hd l [] x A _ hd [] H Hx Hn EA eq_refl) as (h' & E & H' & Ho). rewrite app_nil_r in Ho. by exists h'.
Qed.

Lemma ring_del h hd l1 l2 x A p n B :
  ring h hd (l1 ++ x :: l2) -> hd :: l1 = A ++ [p] -> l2 ++ [hd] = n :: B ->
  pv h x = Some p /\ nx h x = Some n /\
  exists h', __flist_del p n h = Ret tt h' /\ ring h' hd (l1 ++ l2) /\ same_out (hd :: l1 ++ l2) h h' /\
    (forall z, is_Some (h' !! z) <-> is_Some (h !! z)).
Proof.
  intros [Hnd HL] E1 E2.
  assert (NoDup (hd :: l1 ++ l2)) as Hnd'.
  { change (hd :: l1 ++ x :: l2) with ((hd :: l1) ++ x :: l2) in Hnd. rewrite <- Permutation_middle in Hnd. by apply NoDup_cons in Hnd as [_ ?]. }
  destruct (ring_cut hd l1 l2 A p n B Hnd' E1 E2) as (C1 & C2 & C3 & C4 & C5 & C6).
  pose proof (fun m => cut_eq hd l1 A p m E1) as ES.
  rewrite (ES (x :: l2)) in HL. cbn [app] in HL. rewrite E2 in HL. pose proof HL as HL0. apply links_app in HL0 as [_ [[_ Hpx] [[Hxn _] _]]].
  split; [done|]. split; [done|]. destruct (del_between h A p x n B HL) as (h' & E' & HL' & Ho & Hd); try done.
  exists h'. split; [done|]. split; [split; [done | by rewrite ES, E2]|]. split; [|done]. intros a Ha. apply Ho. set_solver.
Qed.

Lemma hd_snoc (hd : Z) l : exists n B, l ++ [hd] = n :: B.
Proof. destruct l; by eexists _, _. Qed.

(** Both ways to delete an entry: its own links end up as [q]. *)
Lemma flist_unlink h hd l1 l2 x q : ring h hd (l1 ++ x :: l2) ->
  exists h', (p ← prev x; n ← next x; __flist_del p n;; set_next x q;; set_prev x q) h = Ret tt h' /\
    ring h' hd (l1 ++ l2) /\ h' !! x = Some (mkFl q q) /\ same_out (hd :: l1 ++ x :: l2) h h'.
Proof.
  intros H. destruct (snoc_inv hd l1) as (A & p & EA). destruct (hd_snoc hd l2) as (n & B & EB).
  destruct (ring_del h hd l1 l2 x A p n B H EA EB) as (Hp & Hn & h1 & E1 & H1 & S1 & D1).
  rewrite (bind_Ret _ _ _ _ _ (prev_run _ _ _ Hp)), (bind_Ret _ _ _ _ _ (next_run _ _ _ Hn)), (bind_Ret _ _ _ _ _ E1).
  assert (is_Some (h1 !! x)) as [y Hy] by (apply D1, (nx_some _ _ _ Hn)).
  unfold set_next, set_prev. munfold. rewrite Hy, lookup_insert_eq, insert_insert_eq. cbn. eexists. split; [reflexivity|].
  assert (x ∉ hd :: l1 ++ l2) as Hx.
  { pose proof (rg_nodup _ _ _ H) as Hnd. change (hd :: l1 ++ x :: l2) with ((hd :: l1) ++ x :: l2) in Hnd.
    rewrite <- Permutation_middle in Hnd. by apply NoDup_cons in Hnd as [? _]. }
  split; [|split].
  - revert H1. apply ring_frame. intros z Hz. rewrite lookup_insert_ne; [done | by intros ->].
  - by rewrite lookup_insert_eq.
  - intros a Ha. rewrite lookup_insert_ne by set_solver. apply S1. set_solver.
Qed.

Lemma flist_del_run h hd l1 l2 x : ring h hd (l1 ++ x :: l2) ->
  exists h', flist_del x h = Ret tt h' /\ ring h' hd (l1 ++ l2) /\ h' !! x = Some (mkFl 0 0) /\ same_out (hd :: l1 ++ x :: l2) h h'.
Proof. apply flist_unlink. Qed.

Lemma flist_del_init_run h hd l1 l2 x : ring h hd (l1 ++ x :: l2) ->
  exists h', flist_del_init x h = Ret tt h' /\ ring h' hd (l1 ++ l2) /\ h' !! x = Some (mkFl x x) /\ same_out (hd :: l1 ++ x :: l2) h h'.
Proof. apply flist_unlink. Qed.

Lemma ring_nil h x : h !! x = Some (mkFl x x) -> ring h x [].
Proof. intros E. split; [apply NoDup_singleton|]. cbn. unfold link, nx, pv. by rewrite E. Qed.

Lemma init_run h x : is_Some (h !! x) -> exists h', INIT_FLIST_HEAD x h = Ret tt h' /\ ring h' x [] /\ same_out [x] h h'.
Proof.
  intros [y Hy]. unfold INIT_FLIST_HEAD, set_next, set_prev. munfold. rewrite Hy, lookup_insert_eq, insert_insert_eq. cbn.
  eexists. split; [reflexivity|]. split; [apply ring_nil; by rewrite lookup_insert_eq|]. intros a Ha. rewrite lookup_insert_ne; [done | set_solver].
Qed.

Lemma empty_run h hd l : ring h hd l -> flist_empty hd h = Ret (bool_decide (l = [])) h.
Proof.
  intros H. unfold flist_empty. rewrite (bind_Ret _ _ _ _ _ (next_run _ _ _ (ring_next _ _ _ H))). destruct l as [|x l]; cbn [List.hd].
  - rewrite Z.eqb_refl. done.
  - pose proof (rg_nodup _ _ _ H) as Hnd. apply NoDup_cons in Hnd as [Hh _]. destruct (Z.eqb_spec x hd) as [->|]; [set_solver | done].
Qed.

Lemma splice_between h A p n B ls m :
  links h (A ++ p :: n :: B) -> ring h ls m -> m <> [] -> (forall x, x ∈ ls :: m -> x ∉ A ++ p :: n :: B) ->
  p ∉ A -> p ∉ removelast (n :: B) -> n ∉ tail (A ++ [p]) -> n ∉ B ->
  exists h', __flist_splice ls p n h = Ret tt h' /\ links h' (A ++ p :: m ++ n :: B) /\ same_out (p :: n :: m) h h' /\
    (forall z, is_Some (h' !! z) <-> is_Some (h !! z)).
Proof.
  intros H Hm Hne Hdis HpA HpB HnA HnB. apply links_app in H as [HA [[H1 H2] HB]].
  pose proof (nx_some _ _ _ H1) as Hp. pose proof (pv_some _ _ _ H2) as Hn.
  destruct m as [|f m]; [done|]. pose proof (ring_next _ _ _ Hm) as Ef. pose proof (ring_prev _ _ _ Hm) as El. cbn [List.hd] in Ef.
  destruct (snoc_inv f m) as (mi & la & Em). set (last := List.last (f :: m) ls) in *.
  assert (last = la) as El' by (unfold last; rewrite Em; apply List.last_last). rewrite El' in *. clear El' last.
  assert (f ∈ f :: m) as Hf by left. assert (la ∈ f :: m) as Hla by (rewrite Em; set_solver).
  unfold __flist_splice. rewrite (bind_Ret _ _ _ _ _ (next_run _ _ _ Ef)), (bind_Ret _ _ _ _ _ (prev_run _ _ _ El)).
  destruct (set_prev_run h f p) as (h1 & E1 & P1 & N1 & S1 & D1); [by apply (ring_some _ _ _ _ Hm); right|]. rewrite (bind_Ret _ _ _ _ _ E1).
  destruct (set_next_run h1 p f) as (h2 & E2 & N2 & P2 & S2 & D2); [by apply D1|]. rewrite (bind_Ret _ _ _ _ _ E2).
  destruct (set_next_run h2 la n) as (h3 & E3 & N3 & P3 & S3 & D3); [apply D2, D1, (ring_some _ _ _ _ Hm); by right|]. rewrite (bind_Ret _ _ _ _ _ E3).
  destruct (set_prev_run h3 n la) as (h4 & E4 & P4 & N4 & S4 & D4); [by apply D3, D2, D1|]. exists h4. split; [done|].
  assert (forall z, nx h4 z = if decide (z = la) then Some n else if decide (z = p) then Some f else nx h z) as NX
    by (intros z; by rewrite N4, N3, N2, N1).
  assert (forall z, pv h4 z = if decide (z = n) then Some la else if decide (z = f) then Some p else pv h z) as PV
    by (intros z; by rewrite P4, P3, P2, P1).
  assert (forall z, z ∈ f :: m -> (z ∉ A) /\ z <> p /\ z <> n /\ (z ∉ B)) as Hd.
  { intros z Hz. specialize (Hdis z ltac:(by right)). set_solver. }
  destruct (Hd f Hf) as (F1 & F2 & F3 & F4). destruct (Hd la Hla) as (L1 & L2 & L3 & L4).
  pose proof (rg_nodup _ _ _ Hm) as Hnd. apply NoDup_cons in Hnd as [_ Hnd].
  split; [|split].
  - apply links_app. split.
    + apply (links_before h h4 A p n); [| |done|done].
      * intros z Hz. rewrite NX, !decide_ne; [done | set_solver | set_solver].
      * intros z Hz1 Hz2. rewrite PV, !decide_ne; [done | set_solver | done].
    + change (p :: (f :: m) ++ n :: B) with (p :: f :: m ++ n :: B). split; [split|].
      * rewrite NX, decide_ne, decide_refl; [done | congruence].
      * rewrite PV, decide_ne, decide_refl; done.
      * change (f :: m ++ n :: B) with ((f :: m) ++ n :: B). rewrite Em, <- app_assoc. cbn [app]. apply links_app. split.
        -- rewrite <- Em. pose proof (rg_links _ _ _ Hm) as HL. cbn [app] in HL. apply links_cons in HL as [_ HL].
           change (f :: m ++ [ls]) with ((f :: m) ++ [ls]) in HL. rewrite Em, <- app_assoc in HL. apply links_app in HL as [HL _].
           rewrite <- Em in HL. revert HL. apply links_frame.
           ++ intros z Hz. rewrite Em, removelast_snoc in Hz. rewrite NX, !decide_ne; [done | |].
              ** intros ->. destruct (Hd p) as (_ & Hpp & _); [rewrite Em; set_solver | done].
              ** intros ->. rewrite Em in Hnd. apply NoDup_app in Hnd as (_ & Hnd & _). apply (Hnd la Hz). left.
           ++ intros z Hz. apply NoDup_cons in Hnd as [Hnd _]. rewrite PV, !decide_ne; [done | by intros -> |].
              intros ->. destruct (Hd n) as (_ & _ & Hnn & _); [by right | done].
        -- split; [split; [by rewrite NX, decide_refl | by rewrite PV, decide_refl]|].
           apply (links_after h h4 n p B); [| |done|done].
           ++ intros z Hz1 Hz2. rewrite NX, !decide_ne; [done | done | set_solver].
           ++ intros z Hz. rewrite PV, !decide_ne; [done | set_solver | set_solver].
  - intros a Ha. rewrite S4, S3, S2, S1; [done | set_solver..].
  - intros z. by rewrite D4, D3, D2, D1.
Qed.

(** The list [m] spliced into a ring between [l1] and [l2]. *)
Lemma ring_splice h hd l1 l2 ls m A p n B :
  ring h hd (l1 ++ l2) -> ring h ls m -> m <> [] -> (forall x, x ∈ ls :: m -> x ∉ hd :: l1 ++ l2) ->
  hd :: l1 = A ++ [p] -> l2 ++ [hd] = n :: B ->
  exists h', __flist_splice ls p n h = Ret tt h' /\ ring h' hd (l1 ++ m ++ l2) /\ same_out (hd :: l1 ++ m ++ l2) h h' /\
    (forall z, is_Some (h' !! z) <-> is_Some (h !! z)).
Proof.
  intros [Hnd HL] Hm Hne Hdis E1 E2. destruct (ring_cut hd l1 l2 A p n B Hnd E1 E2) as (C1 & C2 & C3 & C4 & C5 & C6).
  pose proof (fun m => cut_eq hd l1 A p m E1) as ES. pose proof (rg_nodup _ _ _ Hm) as Hndm. apply NoDup_cons in Hndm as [_ Hndm].
  destruct (splice_between h A p n B ls m) as (h' & E' & HL' & Ho & Hd); try done.
  - by rewrite <- E2, <- ES.
  - intros x Hx. rewrite <- E2, <- ES. specialize (Hdis x Hx). set_solver.
  - exists h'. split; [done|]. split; [split|].
    + apply NoDup_cons in Hnd as [Hh Hnd]. apply NoDup_app in Hnd as (N1 & N2 & N3). constructor.
      * intros Hin. apply elem_of_app in Hin as [Hin|Hin]; [set_solver|]. apply elem_of_app in Hin as [Hin|Hin]; [|set_solver].
        apply (Hdis hd); [by right | left].
      * apply NoDup_app. split; [done|]. split.
        -- intros x Hx Hin. apply elem_of_app in Hin as [Hin|Hin]; [|set_solver]. apply (Hdis x); [by right | set_solver].
        -- apply NoDup_app. split; [done|]. split; [|done]. intros x Hx Hin. apply (Hdis x); [by right | set_solver].
    + rewrite (ES (m ++ l2)). rewrite <- app_assoc, E2. done.
    + split; [|done]. intros a Ha. apply Ho. set_solver.
Qed.

Lemma splice_init_run h hd l ls m :
  ring h hd l -> ring h ls m -> (forall x, x ∈ ls :: m -> x ∉ hd :: l) ->
  exists h', flist_splice_init ls hd h = Ret tt h' /\ ring h' hd (m ++ l) /\ ring h' ls [] /\ same_out (ls :: hd :: m ++ l) h h'.
Proof.
  intros H Hm Hdis. unfold flist_splice_init. rewrite (bind_Ret _ _ _ _ _ (empty_run _ _ _ Hm)).
  destruct m as [|x m]; [by exists h|]. rewrite bool_decide_false by done. cbn [negb].
  rewrite (bind_Ret _ _ _ _ _ (next_run _ _ _ (ring_next _ _ _ H))).
  assert (exists B, l ++ [hd] = List.hd hd l :: B) as [B EB] by (destruct l; by eexists).
  destruct (ring_splice h hd [] l ls (x :: m) [] hd (List.hd hd l) B H Hm) as (h1 & E1 & H1 & S1 & D1); try done.
  rewrite (bind_Ret _ _ _ _ _ E1). destruct (init_run h1 ls) as (h2 & E2 & H2 & S2); [apply D1, (ring_some _ _ _ _ Hm); left|].
  exists h2. split; [done|]. split; [|split; [done|]].
  - revert H1. apply ring_frame. intros z Hz. apply S2. intros Hin. apply list_elem_of_singleton in Hin as ->.
    pose proof (rg_nodup _ _ _ Hm) as Hnd. apply NoDup_cons in Hnd as [Hnd _]. specialize (Hdis ls ltac:(left)). set_solver.
  - intros a Ha. rewrite S2, S1; [done | set_solver..].
Qed.

Lemma splice_tail_init_run h hd l ls m :
  ring h hd l -> ring h ls m -> (forall x, x ∈ ls :: m -> x ∉ hd :: l) ->
  exists h', flist_splice_tail_init ls hd h = Ret tt h' /\ ring h' hd (l ++ m) /\ ring h' ls [] /\ same_out (ls :: hd :: m ++ l) h h'.
Proof.
  intros H Hm Hdis. unfold flist_splice_tail_init. rewrite (bind_Ret _ _ _ _ _ (empty_run _ _ _ Hm)).
  destruct m as [|x m]; [exists h; by rewrite app_nil_r|]. rewrite bool_decide_false by done. cbn [negb].
  rewrite (bind_Ret _ _ _ _ _ (prev_run _ _ _ (ring_prev _ _ _ H))). destruct (last_snoc hd l) as [A EA].
  assert (ring h hd (l ++ [])) as H0 by (by rewrite app_nil_r).
  destruct (ring_splice h hd l [] ls (x :: m) A (List.last l hd) hd [] H0 Hm) as (h1 & E1 & H1 & S1 & D1); try done; [by rewrite app_nil_r|].
  rewrite app_nil_r in H1, S1.
  rewrite (bind_Ret _ _ _ _ _ E1). destruct (init_run h1 ls) as (h2 & E2 & H2 & S2); [apply D1, (ring_some _ _ _ _ Hm); left|].
  exists h2. split; [done|]. split; [|split; [done|]].
  - revert H1. apply ring_frame. intros z Hz. apply S2. intros Hin. apply list_elem_of_singleton in Hin as ->.
    pose proof (rg_nodup _ _ _ Hm) as Hnd. apply NoDup_cons in Hnd as [Hnd _]. specialize (Hdis ls ltac:(left)). set_solver.
  - intros a Ha. rewrite S2, S1; [done | set_solver..].
Qed.
