(* ===== verification/FlistSort.v ===== *)
(** src/fio/lib/flist_sort.c: the merge sort of doubly linked lists.  Sorted runs are chains that
    end in NULL, kept in an array by the logarithm of their length; the last merge restores the
    ring. *)
From Stdlib Require Import Sorted.
From S2P Require Import Prelude Flist.

(** * The code *)

Definition MAX_LIST_LENGTH_BITS : Z := 20.

Definition fl_diverge {A} : M (gmap Z flist_head) A := fun h => Diverge h.

Section Code.
(** The comparison of two entries, a function of what the links are embedded in. *)
Context (cmp : Z -> Z -> Z).

(** [tail] is the address of an entry or of the local [head], whose next pointer is [hn]. *)
Definition set_tail (tail : option Z) (hn v : Z) : M (gmap Z flist_head) Z :=
  match tail with None => mret v | Some t => set_next t v;; mret hn end.
Definition tail_next (tail : option Z) (hn : Z) : M (gmap Z flist_head) Z :=
  match tail with None => mret hn | Some t => next t end.

(** The loop of [merge]; the result is [head.next]. *)
Fixpoint merge_loop (fuel : nat) (a b : Z) (tail : option Z) (hn : Z) : M (gmap Z flist_head) Z :=
  if negb (a =? 0) && negb (b =? 0) then
    match fuel with
    | O => fl_diverge
    | S fuel' =>
        '(a, b, hn) ← (if cmp a b <=? 0 then hn ← set_tail tail hn a; a ← next a; mret (a, b, hn)
                       else hn ← set_tail tail hn b; b ← next b; mret (a, b, hn));
        t ← tail_next tail hn;
        merge_loop fuel' a b (Some t) hn
    end
  else set_tail tail hn (if negb (a =? 0) then a else b).

Definition merge (a b : Z) : M (gmap Z flist_head) Z := fun h => merge_loop (size h) a b None 0 h.

(** The first loop of [merge_and_restore_back_links]; the result is [tail], [a] and [b]. *)
Fixpoint restore_merge (fuel : nat) (a b tail : Z) : M (gmap Z flist_head) (Z * Z * Z) :=
  if negb (a =? 0) && negb (b =? 0) then
    match fuel with
    | O => fl_diverge
    | S fuel' =>
        '(a, b) ← (if cmp a b <=? 0 then set_next tail a;; set_prev a tail;; a ← next a; mret (a, b)
                   else set_next tail b;; set_prev b tail;; b ← next b; mret (a, b));
        tail ← next tail;
        restore_merge fuel' a b tail
    end
  else mret (tail, a, b).

(** The second loop; the call of [cmp] has no effect on the links. *)
Fixpoint restore_rest (fuel : nat) (tail : Z) : M (gmap Z flist_head) Z :=
  n ← next tail;
  set_prev n tail;;
  tail ← next tail;
  n ← next tail;
  if n =? 0 then mret tail else
  match fuel with O => fl_diverge | S fuel' => restore_rest fuel' tail end.

Definition merge_and_restore_back_links (head a b : Z) : M (gmap Z flist_head) unit := fun h =>
  ('(tail, a, b) ← restore_merge (size h) a b head;
   set_next tail (if negb (a =? 0) then a else b);;
   tail ← restore_rest (size h) tail;
   set_next tail head;;
   set_prev head tail) h.

(** An element of the array [part], out of range is undefined. *)
Definition get_part (part : list Z) (lev : Z) : M (gmap Z flist_head) Z := fun h =>
  match part !! Z.to_nat lev with Some p => Ret p h | None => Undef h end.

(** [for (lev = 0; part[lev]; lev++)]: the result is [part], [lev] and [cur]. *)
Fixpoint carry (fuel : nat) (part : list Z) (lev cur : Z) : M (gmap Z flist_head) (list Z * Z * Z) :=
  p ← get_part part lev;
  if p =? 0 then mret (part, lev, cur) else
  match fuel with
  | O => fl_diverge
  | S fuel' => cur ← merge p cur; carry fuel' (<[Z.to_nat lev := 0]> part) (lev + 1) cur
  end.

Fixpoint sort_loop (fuel : nat) (lst : Z) (part : list Z) (max_lev : Z) : M (gmap Z flist_head) (list Z * Z) :=
  if lst =? 0 then mret (part, max_lev) else
  match fuel with
  | O => fl_diverge
  | S fuel' =>
      let cur := lst in
      lst ← next lst;
      set_next cur 0;;
      '(part, lev, cur) ← carry 21 part 0 cur;
      let lev' := if (max_lev <? lev) && (MAX_LIST_LENGTH_BITS <=? lev) then lev - 1 else lev in
      let max_lev := if max_lev <? lev then lev' else max_lev in
      get_part part lev';;
      sort_loop fuel' lst (<[Z.to_nat lev' := cur]> part) max_lev
  end.

(** [for (lev = 0; lev < max_lev; lev++)], with [n] levels left. *)
Fixpoint merge_parts (n : nat) (lev lst : Z) (part : list Z) : M (gmap Z flist_head) Z :=
  match n with
  | O => mret lst
  | S n' =>
      p ← get_part part lev;
      lst ← (if negb (p =? 0) then merge p lst else mret lst);
      merge_parts n' (lev + 1) lst part
  end.

Definition flist_sort (head : Z) : M (gmap Z flist_head) unit :=
  e ← flist_empty head;
  if (e : bool) then mret tt else
  p ← prev head;
  set_next p 0;;
  lst ← next head;
  h ← get_st;
  '(part, max_lev) ← sort_loop (size h) lst (replicate 21 0) 0;
  lst ← merge_parts (Z.to_nat max_lev) 0 0 part;
  p ← get_part part max_lev;
  merge_and_restore_back_links head p lst.
End Code.

(** * Merging lists *)

Section Lists.
Context (cmp : Z -> Z -> Z) (D : Z -> Prop).
Definition le (a b : Z) : Prop := cmp a b <= 0.
Hypothesis le_total : forall a b, D a -> D b -> le a b \/ le b a.
Hypothesis le_trans : forall a b c, D a -> D b -> D c -> le a b -> le b c -> le a c.

#[local] Instance le_dec a b : Decision (le a b).
Proof. unfold le. apply _. Defined.

(** Entries the comparison does not tell apart. *)
Definition eqv (a b : Z) : Prop := le a b /\ le b a.
#[local] Instance eqv_dec a b : Decision (eqv a b).
Proof. unfold eqv. apply _. Defined.

Fixpoint lmerge (l1 l2 : list Z) : list Z :=
  let fix go l2 :=
    match l1, l2 with
    | [], _ => l2
    | _, [] => l1
    | a :: l1', b :: l2' => if decide (le a b) then a :: lmerge l1' l2 else b :: go l2'
    end in go l2.

Lemma lmerge_nil_l l : lmerge [] l = l.
Proof. by destruct l. Qed.
Lemma lmerge_nil_r l : lmerge l [] = l.
Proof. by destruct l. Qed.
Lemma lmerge_cons a l1 b l2 :
  lmerge (a :: l1) (b :: l2) = if decide (le a b) then a :: lmerge l1 (b :: l2) else b :: lmerge (a :: l1) l2.
Proof. done. Qed.

(** The same entries, those that are equivalent in the same order. *)
Definition steq (l1 l2 : list Z) : Prop := l1 ≡ₚ l2 /\ forall x, D x -> filter (eqv x) l1 = filter (eqv x) l2.

#[local] Instance steq_equiv : Equivalence steq.
Proof.
  split.
  - by intros l.
  - intros l1 l2 [H1 H2]. split; [done|]. intros x Hx. symmetry. auto.
  - intros l1 l2 l3 [H1 H2] [H3 H4]. split; [by transitivity l2|]. intros x Hx. rewrite H2; auto.
Qed.

#[local] Instance steq_app : Proper (steq ==> steq ==> steq) (@app Z).
Proof. intros l1 l1' [H1 H2] l2 l2' [H3 H4]. split; [by rewrite H1, H3|]. intros x Hx. rewrite !filter_app, H2, H4; auto. Qed.

#[local] Instance steq_cons a : Proper (steq ==> steq) (cons a).
Proof. intros l l' H. change (steq ([a] ++ l) ([a] ++ l')). by rewrite H. Qed.

Definition sorted (l : list Z) : Prop := StronglySorted le l /\ Forall D l.

(** An entry below a sorted list passes it. *)
Lemma steq_swap b l : D b -> Forall D l -> Forall (fun a => ~ le a b) l -> steq (b :: l) (l ++ [b]).
Proof.
  intros Hb HD Hl. split; [apply Permutation_cons_append|]. intros x Hx. rewrite filter_app, !filter_cons, filter_nil.
  destruct (decide (eqv x b)) as [[E1 E2]|E]; [|by rewrite app_nil_r].
  assert (filter (eqv x) l = []) as ->; [|done]. clear - Hl HD Hx Hb E1 E2 le_trans. induction l as [|a l IH]; [done|].
  apply Forall_cons in Hl as [Ha Hl]. apply Forall_cons in HD as [Da HD]. rewrite filter_cons, decide_False; [by apply IH|].
  intros [E3 E4]. apply Ha. by apply (le_trans a x b).
Qed.

Lemma lmerge_steq l1 : forall l2, sorted l1 -> Forall D l2 -> steq (lmerge l1 l2) (l1 ++ l2).
Proof.
  induction l1 as [|a l1 IH1]; intros l2; [by rewrite lmerge_nil_l|]. induction l2 as [|b l2 IH2]; intros [H1 D1] D2; [by rewrite lmerge_nil_r, app_nil_r|].
  apply StronglySorted_inv in H1 as [H1 Ha]. apply Forall_cons in D1 as [Da D1]. rewrite lmerge_cons. destruct (decide (le a b)) as [Hab|Hab].
  - apply steq_cons, IH1; [by split | done].
  - apply Forall_cons in D2 as [Db D2]. rewrite IH2; [|by split; [constructor|constructor] | done].
    change (steq ((b :: a :: l1) ++ l2) ((a :: l1) ++ [b] ++ l2)). rewrite app_assoc. apply steq_app; [|done].
    apply steq_swap; [done | by constructor|]. apply Forall_forall. intros x Hx Hxb. apply Hab.
    apply elem_of_cons in Hx as [->|Hx]; [done|]. rewrite Forall_forall in Ha, D1. apply (le_trans a x b); auto.
Qed.

Lemma lmerge_sorted l1 : forall l2, sorted l1 -> sorted l2 -> sorted (lmerge l1 l2).
Proof.
  induction l1 as [|a l1 IH1]; intros l2; [by rewrite lmerge_nil_l|]. induction l2 as [|b l2 IH2]; intros H1 H2; [by rewrite lmerge_nil_r|].
  pose proof H1 as [S1 D1]. pose proof H2 as [S2 D2]. apply StronglySorted_inv in S1 as [S1 Ha]. apply StronglySorted_inv in S2 as [S2 Hb].
  apply Forall_cons in D1 as [Da D1]. apply Forall_cons in D2 as [Db D2]. rewrite lmerge_cons. destruct (decide (le a b)) as [Hab|Hab].
  - assert (sorted l1) as Hs1 by (by split). destruct (IH1 (b :: l2) Hs1 H2) as [S D0]. split; [|by constructor]. constructor; [done|].
    rewrite (proj1 (lmerge_steq l1 (b :: l2) Hs1 (proj2 H2))). apply Forall_app. split; [done|]. constructor; [done|].
    rewrite Forall_forall in Hb, D2 |- *. intros x Hx. apply (le_trans a b x); auto.
  - assert (sorted l2) as Hs2 by (by split). destruct (IH2 H1 Hs2) as [S D0]. split; [|by constructor]. constructor; [done|].
    rewrite (proj1 (lmerge_steq (a :: l1) l2 H1 D2)). assert (le b a) as Hba by (destruct (le_total a b); done).
    apply Forall_app. split; [|done]. constructor; [done|]. rewrite Forall_forall in Ha, D1 |- *. intros x Hx. apply (le_trans b a x); auto.
Qed.
End Lists.

(** * Chains *)

(** The entries [l], linked by their next pointers from [p] to NULL. *)
Fixpoint chain (h : gmap Z flist_head) (p : Z) (l : list Z) : Prop :=
  match l with
  | [] => p = 0
  | x :: l' => p = x /\ x <> 0 /\ exists q, nx h x = Some q /\ chain h q l'
  end.

Definition chain_head (l : list Z) : Z := List.hd 0 l.

Lemma chain_ptr h p l : chain h p l -> p = chain_head l.
Proof. destruct l; [done | by intros [-> _]]. Qed.

Lemma chain_frame h h' p l : (forall x, x ∈ l -> nx h' x = nx h x) -> chain h p l -> chain h' p l.
Proof.
  revert p. induction l as [|x l IH]; intros p Hh H; [done|]. destruct H as (-> & Hx & q & Hq & H). split; [done|]. split; [done|].
  exists q. split; [rewrite Hh; [done | left]|]. apply IH; [|done]. intros y Hy. apply Hh. by right.
Qed.

Lemma chain_some h p l x : chain h p l -> x ∈ l -> is_Some (h !! x).
Proof.
  revert p. induction l as [|y l IH]; intros p H Hx; [by apply elem_of_nil in Hx|]. destruct H as (-> & _ & q & Hq & H).
  apply elem_of_cons in Hx as [->|Hx]; [by apply (nx_some _ _ q) | by apply (IH q)].
Qed.

Lemma chain_nonzero h p l : chain h p l -> (p =? 0) = bool_decide (l = []).
Proof. destruct l as [|x l]; [by intros -> | intros (-> & Hx & _)]. by apply Z.eqb_neq. Qed.

Lemma size_entries (h : gmap Z flist_head) l : NoDup l -> (forall x, x ∈ l -> is_Some (h !! x)) -> (length l <= size h)%nat.
Proof.
  intros Hnd Hl. rewrite <- (size_list_to_set (C := gset Z)) by done. rewrite <- size_dom. apply subseteq_size.
  intros x Hx. apply elem_of_list_to_set in Hx. by apply elem_of_dom, Hl.
Qed.

Lemma same_out_nx D h h' x : same_out D h h' -> x ∉ D -> nx h' x = nx h x.
Proof. intros H Hx. unfold nx. by rewrite H. Qed.

Section Merge.
Context (cmp : Z -> Z -> Z).

(** Where the next pointer that the merge fills is. *)
Definition tail_is (tail : option Z) (hn : Z) (h : gmap Z flist_head) (v : Z) : Prop :=
  match tail with None => hn = v | Some t => nx h t = Some v end.
Definition tail_out (tail : option Z) (l : list Z) (h : gmap Z flist_head) : Prop :=
  match tail with None => True | Some t => (t ∉ l) /\ is_Some (h !! t) end.
Definition tail_list (tail : option Z) : list Z := match tail with None => [] | Some t => [t] end.

Lemma set_tail_run tail hn v l h : tail_out tail l h ->
  exists hn' h', set_tail tail hn v h = Ret hn' h' /\ tail_is tail hn' h' v /\ (tail <> None -> hn' = hn) /\
    same_out (tail_list tail) h h' /\ (forall x, x ∈ l -> nx h' x = nx h x) /\ (forall x, pv h' x = pv h x) /\
    (forall x, is_Some (h' !! x) <-> is_Some (h !! x)).
Proof.
  intros Ht. destruct tail as [t|]; cbn [set_tail].
  - destruct Ht as [Hl Hs]. destruct (set_next_run h t v Hs) as (h' & E & N & P & S & Dm). exists hn, h'. rewrite (bind_Ret _ _ _ _ _ E).
    split; [done|]. split; [cbn; by rewrite N, decide_refl|]. split; [done|]. split; [done|]. split; [|done].
    intros x Hx. rewrite N, decide_ne; [done | by intros ->].
  - exists v, h. by repeat split.
Qed.

Lemma take_run {R} tail hn h z q l (F : Z -> Z -> R) :
  tail_out tail l h -> z ∈ l -> nx h z = Some q ->
  exists hn1 h1, (hn ← set_tail tail hn z; q ← next z; mret (F q hn)) h = Ret (F q hn1) h1 /\
    tail_next tail hn1 h1 = Ret z h1 /\ tail_is tail hn1 h1 z /\ (tail <> None -> hn1 = hn) /\
    same_out (tail_list tail) h h1 /\ (forall x, x ∈ l -> nx h1 x = nx h x) /\ (forall x, pv h1 x = pv h x) /\
    (forall x, is_Some (h1 !! x) <-> is_Some (h !! x)).
Proof.
  intros Ht Hz Hq. destruct (set_tail_run tail hn z l h Ht) as (hn1 & h1 & E & T1 & T2 & S & N & P & Dm).
  exists hn1, h1. rewrite (bind_Ret _ _ _ _ _ E). assert (nx h1 z = Some q) as Hq1 by (by rewrite N).
  rewrite (bind_Ret _ _ _ _ _ (next_run _ _ _ Hq1)). split; [done|]. split; [|done].
  destruct tail as [t|]; cbn in T1 |- *; [by apply next_run | by rewrite T1].
Qed.

(** What a merge into [tail] leaves. *)
Definition merged (tail : option Z) (hn hn' : Z) (l used : list Z) (h h' : gmap Z flist_head) : Prop :=
  tail_is tail hn' h' (chain_head l) /\ (tail <> None -> hn' = hn) /\ chain h' (chain_head l) l /\
  same_out (tail_list tail ++ used) h h' /\ (forall x, pv h' x = pv h x) /\ (forall x, is_Some (h' !! x) <-> is_Some (h !! x)).

Lemma merge_end tail hn h p l : chain h p l -> tail_out tail l h ->
  exists hn' h', set_tail tail hn p h = Ret hn' h' /\ merged tail hn hn' l l h h'.
Proof.
  intros Hp Ht. destruct (set_tail_run tail hn p l h Ht) as (hn' & h' & E & T1 & T2 & S & N & P & Dm).
  exists hn', h'. split; [done|]. pose proof (chain_ptr _ _ _ Hp) as Ep. subst p. split; [done|]. split; [done|]. split; [by apply (chain_frame h)|].
  split; [|done]. intros x Hx. apply S. set_solver.
Qed.

(** A merge that goes on after the entry [z]. *)
Lemma merged_cons tail hn hn1 hn2 z l used used' h h1 h2 :
  z <> 0 -> tail_out tail (z :: used) h -> (z ∉ used) ->
  tail_is tail hn1 h1 z -> (tail <> None -> hn1 = hn) -> same_out (tail_list tail) h h1 -> (forall x, pv h1 x = pv h x) ->
  (forall x, is_Some (h1 !! x) <-> is_Some (h !! x)) ->
  merged (Some z) hn1 hn2 l used h1 h2 -> used' ≡ₚ z :: used -> merged tail hn hn2 (z :: l) used' h h2.
Proof.
  intros Hz0 Ht Hz T1 T2 S1 P1 D1 (T3 & T4 & C & S2 & P2 & D2) Hu. specialize (T4 ltac:(done)). subst hn2.
  split; [|split; [done|]; split; [|split; [|split]]].
  - destruct tail as [t|]; cbn in *; [|done]. destruct Ht as [Ht _]. rewrite (same_out_nx _ _ _ t S2); [done | set_solver].
  - cbn in T3. cbn. split; [done|]. split; [done|]. by exists (chain_head l).
  - intros x Hx. rewrite Hu in Hx. rewrite S2, S1; [done | set_solver | set_solver].
  - intros x. by rewrite P2, P1.
  - intros x. by rewrite D2, D1.
Qed.

Lemma merge_loop_run fuel : forall h a b tail hn la lb,
  chain h a la -> chain h b lb -> NoDup (la ++ lb) -> tail_out tail (la ++ lb) h -> (length la + length lb <= fuel)%nat ->
  exists hn' h', merge_loop cmp fuel a b tail hn h = Ret hn' h' /\ merged tail hn hn' (lmerge cmp la lb) (la ++ lb) h h'.
Proof.
  induction fuel as [|fuel IH]; intros h a b tail hn la lb Ha Hb Hnd Ht Hf;
    cbn [merge_loop]; rewrite (chain_nonzero _ _ _ Ha), (chain_nonzero _ _ _ Hb);
    (destruct la as [|x la]; [rewrite lmerge_nil_l; by apply merge_end|]);
    (destruct lb as [|y lb]; [rewrite lmerge_nil_r, app_nil_r in *; by apply merge_end|]); [cbn in Hf; lia|].
  cbn [bool_decide negb andb]. rewrite !bool_decide_false by done. cbn [negb andb].
  destruct Ha as (-> & Hx0 & q & Hq & Ha). destruct Hb as (-> & Hy0 & r & Hr & Hb). rewrite lmerge_cons.
  pose proof Hnd as Hnd0. cbn [app] in Hnd0. apply NoDup_cons in Hnd0 as [Hx Hnd1].
  assert ((y ∉ x :: la ++ lb) /\ NoDup (x :: la ++ lb)) as [Hy Hnd2].
  { change (x :: la ++ y :: lb) with ((x :: la) ++ y :: lb) in Hnd. rewrite <- Permutation_middle in Hnd. by apply NoDup_cons in Hnd. }
  unfold le. destruct (Z.leb_spec (cmp x y) 0) as [Hle|Hgt].
  - rewrite decide_True by done.
    destruct (take_run tail hn h x q ((x :: la) ++ y :: lb) (fun q hn => (q, y, hn)) Ht ltac:(left) Hq) as (hn1 & h1 & E1 & E2 & T1 & T2 & S & N & P & Dm).
    rewrite (bind_Ret _ _ _ _ _ E1). cbv beta iota. rewrite (bind_Ret _ _ _ _ _ E2).
    destruct (IH h1 q y (Some x) hn1 la (y :: lb)) as (hn2 & h2 & E3 & HM).
    + apply (chain_frame h); [intros z Hz; apply N; set_solver | done].
    + apply (chain_frame h); [intros z Hz; apply N; set_solver|]. split; [done|]. split; [done|]. by exists r.
    + done.
    + split; [done|]. apply Dm. by apply (nx_some _ _ q).
    + cbn in Hf |- *. lia.
    + exists hn2, h2. split; [exact E3|]. by apply (merged_cons tail hn hn1 hn2 x _ (la ++ y :: lb) _ h h1 h2).
  - rewrite decide_False by lia.
    destruct (take_run tail hn h y r ((x :: la) ++ y :: lb) (fun r hn => (x, r, hn)) Ht ltac:(set_solver) Hr) as (hn1 & h1 & E1 & E2 & T1 & T2 & S & N & P & Dm).
    rewrite (bind_Ret _ _ _ _ _ E1). cbv beta iota. rewrite (bind_Ret _ _ _ _ _ E2).
    destruct (IH h1 x r (Some y) hn1 (x :: la) lb) as (hn2 & h2 & E3 & HM).
    + apply (chain_frame h); [intros z Hz; apply N; set_solver|]. split; [done|]. split; [done|]. by exists q.
    + apply (chain_frame h); [intros z Hz; apply N; set_solver | done].
    + done.
    + split; [done|]. apply Dm. by apply (nx_some _ _ r).
    + cbn in Hf |- *. lia.
    + exists hn2, h2. split; [exact E3|]. apply (merged_cons tail hn hn1 hn2 y _ ((x :: la) ++ lb) _ h h1 h2); try done.
      * destruct tail as [t|]; [|done]. destruct Ht as [Ht Hts]. split; [set_solver | done].
      * by rewrite <- Permutation_middle.
Qed.

Lemma merge_run h a b la lb :
  chain h a la -> chain h b lb -> NoDup (la ++ lb) ->
  exists h', merge cmp a b h = Ret (chain_head (lmerge cmp la lb)) h' /\ chain h' (chain_head (lmerge cmp la lb)) (lmerge cmp la lb) /\
    same_out (la ++ lb) h h' /\ (forall x, pv h' x = pv h x) /\ (forall x, is_Some (h' !! x) <-> is_Some (h !! x)).
Proof.
  intros Ha Hb Hnd. destruct (merge_loop_run (size h) h a b None 0 la lb Ha Hb Hnd I) as (hn & h' & E & T & _ & C & S & P & Dm).
  - rewrite <- length_app. apply size_entries; [done|]. intros x Hx. apply elem_of_app in Hx as [Hx|Hx]; [by apply (chain_some h a la) | by apply (chain_some h b lb)].
  - cbn in T. subst hn. by exists h'.
Qed.

(** ** The last merge *)

Lemma links_keep h h' A t :
  (forall x, x ∈ A -> nx h' x = nx h x) -> (forall x, pv h' x = pv h x) -> links h (A ++ [t]) -> links h' (A ++ [t]).
Proof.
  intros Hn Hp. destruct (A ++ [t]) as [|a l] eqn:E; [done|]. apply links_frame; [|by intros y _].
  intros x Hx. apply Hn. by rewrite <- E, removelast_snoc in Hx.
Qed.

Lemma restore_take {R} h A t z q (F : Z -> R) :
  links h (A ++ [t]) -> is_Some (h !! t) -> nx h z = Some q -> NoDup (A ++ [t; z]) ->
  exists h', (set_next t z;; set_prev z t;; q ← next z; mret (F q)) h = Ret (F q) h' /\ nx h' t = Some z /\
    links h' ((A ++ [t]) ++ [z]) /\ (forall x, x <> t -> nx h' x = nx h x) /\ same_out [t; z] h h' /\
    (forall x, is_Some (h' !! x) <-> is_Some (h !! x)).
Proof.
  intros HL Ht Hq Hnd. apply NoDup_app in Hnd as (_ & HA & Hnd). apply NoDup_cons in Hnd as [Htz _].
  assert (z <> t) as Hzt by set_solver. assert (z ∉ A) as HzA by (intros Hin; apply (HA z Hin); set_solver).
  assert (t ∉ A) as HtA by (intros Hin; apply (HA t Hin); set_solver).
  destruct (set_next_run h t z Ht) as (h1 & E1 & N1 & P1 & S1 & D1). rewrite (bind_Ret _ _ _ _ _ E1).
  destruct (set_prev_run h1 z t) as (h2 & E2 & P2 & N2 & S2 & D2); [apply D1; by apply (nx_some _ _ q)|]. rewrite (bind_Ret _ _ _ _ _ E2).
  assert (forall x, x <> t -> nx h2 x = nx h x) as N by (intros x Hx; by rewrite N2, N1, decide_ne).
  assert (nx h2 z = Some q) as Hq2 by (by rewrite N). rewrite (bind_Ret _ _ _ _ _ (next_run _ _ _ Hq2)).
  exists h2. split; [done|]. split; [by rewrite N2, N1, decide_refl|]. split; [|split; [done|]; split].
  - rewrite <- app_assoc. apply links_app. split.
    + apply (links_before h h2 A t z); [| | |done].
      * intros y Hy. apply N. by intros ->.
      * intros y Hy _. by rewrite P2, P1, decide_ne.
      * intros Hin. assert (z ∈ A ++ [t]) as Hin' by (destruct (A ++ [t]); [done | by right]). set_solver.
    + split; [|done]. split; [by rewrite N2, N1, decide_refl | by rewrite P2, decide_refl].
  - intros x Hx. rewrite S2, S1; [done | set_solver..].
  - intros x. by rewrite D2, D1.
Qed.

Lemma restore_merge_run fuel : forall h A t a b la lb,
  links h (A ++ [t]) -> is_Some (h !! t) -> chain h a la -> chain h b lb -> NoDup (A ++ t :: la ++ lb) -> (length la + length lb <= fuel)%nat ->
  exists h' A' t' a' b' la' lb', restore_merge cmp fuel a b t h = Ret (t', a', b') h' /\ (la' = [] \/ lb' = []) /\ (la ++ lb <> [] -> la' ++ lb' <> []) /\
    A' ++ t' :: lmerge cmp la' lb' = A ++ t :: lmerge cmp la lb /\ links h' (A' ++ [t']) /\ is_Some (h' !! t') /\
    chain h' a' la' /\ chain h' b' lb' /\ A' ++ t' :: la' ++ lb' ≡ₚ A ++ t :: la ++ lb /\ same_out (A ++ t :: la ++ lb) h h' /\
    (forall x, is_Some (h' !! x) <-> is_Some (h !! x)).
Proof.
  induction fuel as [|fuel IH]; intros h A t a b la lb HL Ht Ha Hb Hnd Hf;
    cbn [restore_merge]; rewrite (chain_nonzero _ _ _ Ha), (chain_nonzero _ _ _ Hb);
    (destruct la as [|x la]; [exists h, A, t, a, b, [], lb; by repeat (split; [first [done | by left | by right]|])|]);
    (destruct lb as [|y lb]; [exists h, A, t, a, b, (x :: la), []; by repeat (split; [first [done | by left | by right]|])|]); [cbn in Hf; lia|].
  rewrite !bool_decide_false by done. cbn [negb andb].
  destruct Ha as (-> & Hx0 & q & Hq & Ha). destruct Hb as (-> & Hy0 & r & Hr & Hb). rewrite lmerge_cons.
  assert (forall z l, t :: (x :: la) ++ y :: lb ≡ₚ t :: z :: l -> NoDup (A ++ [t; z])) as Hndz.
  { intros z l E. rewrite E in Hnd. change (A ++ t :: z :: l) with (A ++ [t; z] ++ l) in Hnd. rewrite app_assoc in Hnd.
    by apply NoDup_app in Hnd as (? & _ & _). }
  assert (forall z, z ∈ la ++ lb \/ z = x \/ z = y -> z <> t) as Hnt.
  { intros z Hz ->. apply NoDup_app in Hnd as (_ & _ & Hnd). apply NoDup_cons in Hnd as [Hnd _]. set_solver. }
  unfold le. destruct (Z.leb_spec (cmp x y) 0) as [Hle|Hgt].
  - rewrite decide_True by done.
    destruct (restore_take h A t x q (fun q => (q, y)) HL Ht Hq) as (h1 & E1 & E2 & HL1 & N1 & S1 & D1); [by apply (Hndz x (la ++ y :: lb))|].
    rewrite (bind_Ret _ _ _ _ _ E1). cbv beta iota. rewrite (bind_Ret _ _ _ _ _ (next_run _ _ _ E2)).
    destruct (IH h1 (A ++ [t]) x q y la (y :: lb)) as (h2 & A' & t' & a' & b' & la' & lb' & E3 & Hor & Hne & Eq & HL2 & Hs & Ha' & Hb' & Hpm & S2 & D2).
    + done.
    + apply D1. by apply (nx_some _ _ q).
    + apply (chain_frame h); [intros z Hz; apply N1, Hnt; set_solver | done].
    + apply (chain_frame h); [intros z Hz; apply N1, Hnt; set_solver|]. split; [done|]. split; [done|]. by exists r.
    + by rewrite <- app_assoc.
    + cbn in Hf |- *. lia.
    + exists h2, A', t', a', b', la', lb'. rewrite <- app_assoc in Eq, Hpm, S2. split; [done|]. split; [done|]. split; [intros _; apply Hne; by try destruct la|]. split; [done|].
      split; [done|]. split; [done|]. split; [done|]. split; [done|]. split; [done|]. split; [|intros z; by rewrite D2, D1].
      intros z Hz. rewrite S2, S1; [done | set_solver | set_solver].
  - rewrite decide_False by lia. assert (t :: (x :: la) ++ y :: lb ≡ₚ t :: y :: x :: la ++ lb) as Hpy by (by rewrite <- Permutation_middle).
    destruct (restore_take h A t y r (fun r => (x, r)) HL Ht Hr) as (h1 & E1 & E2 & HL1 & N1 & S1 & D1); [by apply (Hndz y (x :: la ++ lb))|].
    rewrite (bind_Ret _ _ _ _ _ E1). cbv beta iota. rewrite (bind_Ret _ _ _ _ _ (next_run _ _ _ E2)).
    destruct (IH h1 (A ++ [t]) y x r (x :: la) lb) as (h2 & A' & t' & a' & b' & la' & lb' & E3 & Hor & Hne & Eq & HL2 & Hs & Ha' & Hb' & Hpm & S2 & D2).
    + done.
    + apply D1. by apply (nx_some _ _ r).
    + apply (chain_frame h); [intros z Hz; apply N1, Hnt; set_solver|]. split; [done|]. split; [done|]. by exists q.
    + apply (chain_frame h); [intros z Hz; apply N1, Hnt; set_solver | done].
    + rewrite <- app_assoc. cbn [app] in *. by rewrite <- Hpy.
    + cbn in Hf |- *. lia.
    + exists h2, A', t', a', b', la', lb'. rewrite <- app_assoc in Eq, Hpm, S2. cbn [app] in *. split; [done|]. split; [done|]. split; [intros _; apply Hne; by try destruct la|]. split; [done|].
      split; [done|]. split; [done|]. split; [done|]. split; [done|]. split; [by rewrite Hpy|]. split; [|intros z; by rewrite D2, D1].
      intros z Hz. rewrite Hpy in Hz. rewrite S2, S1; [done | set_solver | set_solver].
Qed.

Lemma restore_rest_run fuel : forall h A t rest q,
  links h (A ++ [t]) -> nx h t = Some q -> chain h q rest -> rest <> [] -> NoDup (A ++ t :: rest) -> (length rest <= S fuel)%nat ->
  exists h' l z, restore_rest fuel t h = Ret z h' /\ t :: rest = l ++ [z] /\ links h' (A ++ t :: rest) /\ same_out (t :: rest) h h' /\
    (forall x, is_Some (h' !! x) <-> is_Some (h !! x)).
Proof.
  induction fuel as [|fuel IH]; intros h A t rest q HL Hq Hc Hne Hnd Hf; (destruct rest as [|x rest]; [done|]);
    destruct Hc as (-> & Hx0 & r & Hr & Hc); cbn [restore_rest]; rewrite (bind_Ret _ _ _ _ _ (next_run _ _ _ Hq));
    (destruct (set_prev_run h x t) as (h1 & E1 & P1 & N1 & S1 & D1); [by apply (nx_some _ _ r)|]); rewrite (bind_Ret _ _ _ _ _ E1);
    (assert (nx h1 t = Some x) as Hq1 by (by rewrite N1)); (assert (nx h1 x = Some r) as Hr1 by (by rewrite N1));
    rewrite (bind_Ret _ _ _ _ _ (next_run _ _ _ Hq1)), (bind_Ret _ _ _ _ _ (next_run _ _ _ Hr1));
    (assert (links h1 ((A ++ [t]) ++ [x])) as HL1;
     [rewrite <- app_assoc; apply links_app; split; [|split; [split; [done | by rewrite P1, decide_refl] | done]];
      apply (links_before h h1 A t x); [intros z _; apply N1 | intros z Hz _; by rewrite P1, decide_ne | | done];
      intros Hin; assert (x ∈ A ++ [t]) as Hin' by (destruct (A ++ [t]); [done | by right]);
      change (A ++ t :: x :: rest) with (A ++ [t] ++ x :: rest) in Hnd; rewrite app_assoc in Hnd;
      apply NoDup_app in Hnd as (_ & Hnd & _); apply (Hnd x Hin'); left|]);
    (assert (same_out (t :: x :: rest) h h1) as S1' by (intros z Hz; apply S1; set_solver));
    rewrite (chain_nonzero _ _ _ Hc); (destruct rest as [|y rest];
     [exists h1, [t], x; split; [done|]; split; [done|]; split; [by rewrite <- app_assoc in HL1 | done]|]).
  { cbn in Hf. lia. }
  rewrite bool_decide_false by done.
  destruct (IH h1 (A ++ [t]) x (y :: rest) r) as (h2 & l & z & E2 & El & HL2 & S2 & D2); try done.
  - apply (chain_frame h); [|done]. intros z Hz. apply N1.
  - by rewrite <- app_assoc.
  - cbn in Hf |- *. lia.
  - exists h2, (t :: l), z. split; [done|]. split; [by rewrite El|]. rewrite <- app_assoc in HL2. split; [done|].
    split; [|intros w; by rewrite D2, D1]. intros w Hw. rewrite S2, S1'; [done | done | set_solver].
Qed.

Lemma restore_run h head a b la lb :
  is_Some (h !! head) -> chain h a la -> chain h b lb -> la ++ lb <> [] -> NoDup (head :: la ++ lb) ->
  exists h', merge_and_restore_back_links cmp head a b h = Ret tt h' /\ ring h' head (lmerge cmp la lb) /\ same_out (head :: la ++ lb) h h'.
Proof.
  intros Hh Ha Hb Hne Hnd.
  assert (length la + length lb <= size h)%nat as Hsz.
  { apply NoDup_cons in Hnd as [_ Hnd]. rewrite <- length_app. apply size_entries; [done|].
    intros x Hx. apply elem_of_app in Hx as [Hx|Hx]; [by apply (chain_some h a la) | by apply (chain_some h b lb)]. }
  unfold merge_and_restore_back_links.
  destruct (restore_merge_run (size h) h [] head a b la lb) as (h1 & A & t & a' & b' & la' & lb' & E1 & Hor & Hne' & Eq & HL & Hs & Ha' & Hb' & Hpm & S1 & D1); try done.
  specialize (Hne' Hne). rewrite (bind_Ret _ _ _ _ _ E1). cbv beta iota. cbn [app] in Eq, Hpm, S1.
  assert (exists p, (if negb (a' =? 0) then a' else b') = p /\ chain h1 p (lmerge cmp la' lb')) as (p & -> & Hp).
  { rewrite (chain_nonzero _ _ _ Ha'). destruct Hor as [->| ->]; [rewrite lmerge_nil_l; by exists b'|]. rewrite lmerge_nil_r.
    destruct la' as [|x la']; [done | by exists a']. }
  assert (lmerge cmp la' lb' = la' ++ lb') as Epm by (destruct Hor as [->| ->]; by rewrite ?lmerge_nil_l, ?lmerge_nil_r, ?app_nil_r).
  rewrite Epm in *. set (rest := la' ++ lb') in *.
  assert (NoDup (A ++ t :: rest)) as Hnd1 by (by rewrite Hpm).
  assert (length (A ++ t :: rest) = length (head :: la ++ lb)) as HLn by (by rewrite Hpm).
  destruct (set_next_run h1 t p Hs) as (h2 & E2 & N2 & P2 & S2 & D2). rewrite (bind_Ret _ _ _ _ _ E2).
  assert ((t ∉ A) /\ (t ∉ rest)) as [HtA Htr].
  { apply NoDup_app in Hnd1 as (_ & HA & Hnd2). apply NoDup_cons in Hnd2 as [? _]. split; [|done]. intros Hin. apply (HA t Hin). left. }
  destruct (restore_rest_run (size h) h2 A t rest p) as (h3 & l & z & E3 & El & HL3 & S3 & D3); try done.
  - apply (links_keep h1); [|done|done]. intros x Hx. rewrite N2, decide_ne; [done | by intros ->].
  - by rewrite N2, decide_refl.
  - apply (chain_frame h1); [|done]. intros x Hx. rewrite N2, decide_ne; [done | by intros ->].
  - rewrite length_app in HLn. cbn in HLn. rewrite length_app in HLn. lia.
  - rewrite (bind_Ret _ _ _ _ _ E3). assert (A ++ t :: rest = (A ++ l) ++ [z]) as Ez by (by rewrite El, app_assoc).
    assert (is_Some (h3 !! z)) as Hz3.
    { apply D3, D2, D1. assert (z ∈ head :: la ++ lb) as Hin by (rewrite <- Hpm, Ez; set_solver).
      apply elem_of_cons in Hin as [->|Hin]; [done|]. apply elem_of_app in Hin as [Hin|Hin]; [by apply (chain_some h a la) | by apply (chain_some h b lb)]. }
    destruct (set_next_run h3 z head Hz3) as (h4 & E4 & N4 & P4 & S4 & D4). rewrite (bind_Ret _ _ _ _ _ E4).
    destruct (set_prev_run h4 head z) as (h5 & E5 & P5 & N5 & S5 & D5); [by apply D4, D3, D2, D1|].
    exists h5. split; [done|]. assert (head :: lmerge cmp la lb = (A ++ l) ++ [z]) as Ehd by (by rewrite <- Eq, Ez).
    rewrite Ez in HL3, Hnd1. apply NoDup_app in Hnd1 as (HndA & HzA & _).
    split; [split|].
    + rewrite Ehd. apply NoDup_app. split; [done|]. split; [done | apply NoDup_singleton].
    + change (head :: lmerge cmp la lb ++ [head]) with ((head :: lmerge cmp la lb) ++ [head]). rewrite Ehd, <- app_assoc. apply links_app. split.
      * apply (links_before h3 h5 (A ++ l) z head); [| | |done].
        -- intros x Hx. rewrite N5, N4, decide_ne; [done|]. intros ->. apply (HzA z Hx). left.
        -- intros x Hx _. by rewrite P5, decide_ne, P4.
        -- rewrite <- Ehd. cbn [tail]. pose proof Hnd as Hnd'. apply NoDup_cons in Hnd' as [Hhd _].
           intros Hin. apply Hhd. assert (head :: lmerge cmp la lb ≡ₚ head :: la ++ lb) as Hpp by (rewrite <- Eq; exact Hpm).
           apply Permutation_cons_inv in Hpp. by rewrite <- Hpp.
      * split; [|done]. split; [by rewrite N5, N4, decide_refl | by rewrite P5, decide_refl].
    + intros x Hx. assert (x ∉ A ++ t :: rest) as Hx' by (by rewrite Hpm).
      rewrite S5, S4, S3, S2, S1; [done | done | set_solver | set_solver | | set_solver].
      rewrite Ez in Hx'. set_solver.
Qed.
End Merge.

(** * The runs in the array *)

Section Sort.
Context (cmp : Z -> Z -> Z) (D : Z -> Prop).
Hypothesis le_total : forall a b, D a -> D b -> le cmp a b \/ le cmp b a.
Hypothesis le_trans : forall a b c, D a -> D b -> D c -> le cmp a b -> le cmp b c -> le cmp a c.
#[local] Existing Instance steq_equiv.
#[local] Existing Instance steq_app.

(** The entries of the runs, the first ones in the highest level. *)
Definition entries (P : list (list Z)) : list Z := concat (reverse P).

Lemma entries_cons m P : entries (m :: P) = entries P ++ m.
Proof. unfold entries. rewrite reverse_cons, concat_app. cbn. by rewrite app_nil_r. Qed.

Lemma entries_app P1 P2 : entries (P1 ++ P2) = entries P2 ++ entries P1.
Proof. unfold entries. by rewrite reverse_app, concat_app. Qed.

Lemma entries_empty n : entries (replicate n []) = [].
Proof. induction n as [|n IH]; [done|]. cbn [replicate]. by rewrite entries_cons, IH. Qed.

Lemma entries_elem P m x : m ∈ P -> x ∈ m -> x ∈ entries P.
Proof.
  induction P as [|m' P IH]; intros Hm Hx; [by apply elem_of_nil in Hm|]. rewrite entries_cons. apply elem_of_app.
  apply elem_of_cons in Hm as [->|Hm]; [by right | left; by apply IH].
Qed.

(** What a phase of the sort leaves alone. *)
Definition kept_heap (used : list Z) (h h' : gmap Z flist_head) : Prop :=
  same_out used h h' /\ (forall x, pv h' x = pv h x) /\ (forall x, is_Some (h' !! x) <-> is_Some (h !! x)).

Lemma kept_refl used h : kept_heap used h h.
Proof. done. Qed.

Lemma kept_trans used1 used2 used h1 h2 h3 :
  kept_heap used1 h1 h2 -> kept_heap used2 h2 h3 -> (forall x, x ∉ used -> (x ∉ used1) /\ (x ∉ used2)) -> kept_heap used h1 h3.
Proof.
  intros (S1 & P1 & D1) (S2 & P2 & D2) Hu. split; [|split].
  - intros x Hx. destruct (Hu x Hx). by rewrite S2, S1.
  - intros x. by rewrite P2, P1.
  - intros x. by rewrite D2, D1.
Qed.

Lemma kept_chains used h h' ps P :
  kept_heap used h h' -> (forall m x, m ∈ P -> x ∈ m -> x ∉ used) -> Forall2 (chain h) ps P -> Forall2 (chain h') ps P.
Proof.
  intros (S & _ & _) Hd H. induction H as [|p m ps P Hp H IH]; constructor.
  - apply (chain_frame h); [|done]. intros x Hx. apply (same_out_nx used); [done|]. apply (Hd m); [left | done].
  - apply IH. intros m' x Hm' Hx. apply (Hd m'); [by right | done].
Qed.

Lemma merge_kept h a b la lb :
  chain h a la -> chain h b lb -> NoDup (la ++ lb) -> sorted cmp D la -> sorted cmp D lb ->
  exists h' c, merge cmp a b h = Ret (chain_head c) h' /\ chain h' (chain_head c) c /\ sorted cmp D c /\ steq cmp D c (la ++ lb) /\ kept_heap (la ++ lb) h h'.
Proof.
  intros Ha Hb Hnd Sa Sb. destruct (merge_run cmp h a b la lb Ha Hb Hnd) as (h' & E & C & S & P & Dm).
  exists h', (lmerge cmp la lb). split; [done|]. split; [done|]. split; [by apply lmerge_sorted|]. split; [|by split].
  apply lmerge_steq; [done | done | apply Sb].
Qed.

Lemma get_part_run part lev p h : part !! Z.to_nat lev = Some p -> get_part part lev h = Ret p h.
Proof. intros E. unfold get_part. by rewrite E. Qed.

Lemma carry_run Q : forall fuel n h qs cur c,
  [] ∈ Q -> (length Q <= fuel)%nat -> Forall2 (chain h) qs Q -> Forall (sorted cmp D) Q -> chain h cur c -> sorted cmp D c -> NoDup (entries Q ++ c) ->
  exists h' ms Q' qs' c', carry cmp fuel (replicate n 0 ++ qs) (Z.of_nat n) cur h =
      Ret (replicate (n + length ms) 0 ++ 0 :: qs', Z.of_nat (n + length ms), chain_head c') h' /\
    Q = ms ++ [] :: Q' /\ Forall2 (chain h') qs' Q' /\ chain h' (chain_head c') c' /\ sorted cmp D c' /\
    steq cmp D c' (entries ms ++ c) /\ kept_heap (entries ms ++ c) h h'.
Proof.
  induction Q as [|m Q IH]; intros fuel n h qs cur c Hin Hf HF HS Hc Sc Hnd; [by apply elem_of_nil in Hin|].
  apply Forall2_cons_inv_r in HF as (q & qs' & Hq & HF & ->). apply Forall_cons in HS as [Sm HS].
  assert (get_part (replicate n 0 ++ q :: qs') (Z.of_nat n) h = Ret q h) as Eg.
  { apply get_part_run. rewrite Nat2Z.id, lookup_app_r by (by rewrite length_replicate). by rewrite length_replicate, Nat.sub_diag. }
  destruct m as [|x m].
  { cbn in Hq. subst q. exists h, [], Q, qs', c. rewrite Nat.add_0_r, (chain_ptr _ _ _ Hc).
    split; [destruct fuel; cbn [carry]; by rewrite (bind_Ret _ _ _ _ _ Eg)|].
    split; [done|]. split; [done|]. split; [by rewrite <- (chain_ptr _ _ _ Hc)|]. split; [done|]. split; [done | apply kept_refl]. }
  destruct fuel as [|fuel]; [cbn in Hf; lia|]. cbn [carry]. rewrite (bind_Ret _ _ _ _ _ Eg). rewrite (chain_nonzero _ _ _ Hq), bool_decide_false by done.
  rewrite entries_cons, <- app_assoc in Hnd. pose proof Hnd as Hnd'. apply NoDup_app in Hnd' as (_ & Hdis & Hnd2).
  destruct (merge_kept h q cur (x :: m) c Hq Hc Hnd2 Sm Sc) as (h1 & c1 & E1 & C1 & S1 & EQ1 & K1). rewrite (bind_Ret _ _ _ _ _ E1).
  replace (<[Z.to_nat (Z.of_nat n):=0]> (replicate n 0 ++ q :: qs')) with (replicate (S n) 0 ++ qs')
    by (rewrite Nat2Z.id, insert_app_r_alt by (by rewrite length_replicate); rewrite length_replicate, Nat.sub_diag; cbn [insert list_insert];
        rewrite replicate_S_end, <- app_assoc; done).
  replace (Z.of_nat n + 1) with (Z.of_nat (S n)) by lia.
  destruct (IH fuel (S n) h1 qs' (chain_head c1) c1) as (h2 & ms & Q' & qs2 & c' & E2 & EQ & HF2 & C2 & S2 & EQ2 & K2); try done.
  - apply elem_of_cons in Hin as [Hin|Hin]; done.
  - cbn in Hf. lia.
  - apply (kept_chains _ h h1 _ _ K1); [|done]. intros m' z Hm' Hz Hin'. apply (Hdis z); [by apply (entries_elem Q m') | done].
  - by rewrite (proj1 EQ1).
  - exists h2, ((x :: m) :: ms), Q', qs2, c'. cbn [length]. replace (n + S (length ms))%nat with (S n + length ms)%nat by lia.
    split; [done|]. split; [by rewrite EQ|]. split; [done|]. split; [done|]. split; [done|]. rewrite entries_cons, <- app_assoc. split.
    + rewrite EQ2. by rewrite EQ1.
    + apply (kept_trans ((x :: m) ++ c) (entries ms ++ c1) _ h h1 h2 K1 K2). intros z Hz. rewrite (proj1 EQ1). set_solver.
Qed.

(** The array between two rounds. *)
Record parts_ok (h : gmap Z flist_head) (part : list Z) (P : list (list Z)) (max_lev : Z) : Prop := {
  po_len : length P = 21%nat;
  po_chains : Forall2 (chain h) part P;
  po_sorted : Forall (sorted cmp D) P;
  po_max : 0 <= max_lev <= 19;
  po_above : forall i, (Z.to_nat max_lev < i < 21)%nat -> P !! i = Some []
}.

Lemma lookup_replicate_app {A} n (x y : A) l i : (n <= i)%nat -> (replicate n x ++ y :: l) !! i = (y :: l) !! (i - n)%nat.
Proof. intros H. rewrite lookup_app_r by (by rewrite length_replicate). by rewrite length_replicate. Qed.

Lemma insert_replicate_app {A} n (x y z : A) l : <[n := z]> (replicate n x ++ y :: l) = replicate n x ++ z :: l.
Proof. rewrite insert_app_r_alt by (by rewrite length_replicate). by rewrite length_replicate, Nat.sub_diag. Qed.

(** A run goes to its level, or to the last but one when all are taken. *)
Lemma place_run h part P max_lev (ms Q' : list (list Z)) (qs' : list Z) c cur :
  parts_ok h part P max_lev -> forall h', P = ms ++ [] :: Q' -> Forall2 (chain h') qs' Q' -> chain h' cur c -> sorted cmp D c ->
  let lev := Z.of_nat (length ms) in
  let lev' := if (max_lev <? lev) && (MAX_LIST_LENGTH_BITS <=? lev) then lev - 1 else lev in
  let max' := if max_lev <? lev then lev' else max_lev in
  let part' := replicate (length ms) 0 ++ 0 :: qs' in
  is_Some (part' !! Z.to_nat lev') /\
  exists P', parts_ok h' (<[Z.to_nat lev' := cur]> part') P' max' /\ entries P' = entries Q' ++ c.
Proof.
  intros [HL HF HS Hm Hab] h' EP HF' Hc Sc lev lev' max' part'.
  rewrite EP in HS. apply Forall_app in HS as [_ HS]. apply Forall_cons in HS as [_ HS].
  rewrite EP in HL. rewrite length_app in HL. cbn [length] in HL.
  assert (forall n, Forall (sorted cmp D) (replicate n [])) as Hrep by (intros n; apply Forall_replicate; split; constructor).
  assert (forall n, Forall2 (chain h') (replicate n 0) (replicate n [])) as Hrep2 by (intros n; by apply Forall2_replicate).
  unfold MAX_LIST_LENGTH_BITS in *. destruct (decide (length ms = 20)%nat) as [Hl|Hl].
  - assert (Q' = []) as -> by (apply nil_length_inv; lia). apply Forall2_nil_inv_r in HF' as ->.
    assert (lev' = 19) as El by (unfold lev', lev; replace ((max_lev <? Z.of_nat (length ms)) && (20 <=? Z.of_nat (length ms))) with true by lia; lia).
    assert (max' = 19) as Em by (unfold max', lev; replace (max_lev <? Z.of_nat (length ms)) with true by lia; done).
    rewrite El, Em. unfold part'. rewrite Hl. split; [by eexists|]. exists (replicate 19 [] ++ [c; []]). split.
    + constructor; [done | | | lia |].
      * change (<[Z.to_nat 19:=cur]> (replicate 20 0 ++ [0])) with (replicate 19 0 ++ [cur; 0]). apply Forall2_app; [apply Hrep2|]. by repeat constructor.
      * apply Forall_app. split; [apply Hrep|]. constructor; [exact Sc|]. constructor; [split; constructor | constructor].
      * intros i Hi. assert (i = 20%nat) as -> by lia. done.
    + rewrite entries_app, entries_empty, app_nil_r. unfold entries. cbn. by rewrite app_nil_r.
  - assert (lev' = lev) as El by (unfold lev', lev; replace (20 <=? Z.of_nat (length ms)) with false by lia; by rewrite andb_false_r).
    rewrite El. unfold lev, part'. rewrite Nat2Z.id, insert_replicate_app. split.
    { rewrite lookup_replicate_app by lia. rewrite Nat.sub_diag. by eexists. }
    exists (replicate (length ms) [] ++ c :: Q'). split.
    + assert (0 <= max' <= 19 /\ max_lev <= max' /\ lev <= max') as (Hm1 & Hm2 & Hm3)
        by (unfold max'; rewrite El; destruct (Z.ltb_spec max_lev lev); lia).
      constructor; [by rewrite length_app, length_replicate; cbn; lia | | | done |].
      * apply Forall2_app; [apply Hrep2 | by constructor].
      * apply Forall_app. split; [apply Hrep | by constructor].
      * intros i Hi. rewrite lookup_replicate_app by lia. rewrite <- (Hab i) by lia. rewrite EP, lookup_app_r by lia.
        destruct (i - length ms)%nat as [|j] eqn:Ei; [lia | done].
    + rewrite entries_app, entries_empty, app_nil_r. apply entries_cons.
Qed.

Lemma sort_loop_run l : forall fuel h lst part P max_lev,
  parts_ok h part P max_lev -> chain h lst l -> Forall D l -> NoDup (entries P ++ l) -> (length l <= fuel)%nat ->
  exists h' part' P' max', sort_loop cmp fuel lst part max_lev h = Ret (part', max') h' /\ parts_ok h' part' P' max' /\
    steq cmp D (entries P') (entries P ++ l) /\ kept_heap (entries P ++ l) h h'.
Proof.
  induction l as [|x l IH]; intros fuel h lst part P max_lev HP Hc HD Hnd Hf.
  - cbn in Hc. subst lst. exists h, part, P, max_lev. split; [by destruct fuel|]. split; [done|]. rewrite app_nil_r. split; [done | apply kept_refl].
  - destruct Hc as (-> & Hx0 & q & Hq & Hc). destruct fuel as [|fuel]; [cbn in Hf; lia|]. cbn [sort_loop].
    destruct (Z.eqb_spec x 0); [done|]. rewrite (bind_Ret _ _ _ _ _ (next_run _ _ _ Hq)).
    apply Forall_cons in HD as [Dx HD].
    destruct (set_next_run h x 0) as (h1 & E1 & N1 & P1 & S1 & D1); [by apply (nx_some _ _ q)|]. rewrite (bind_Ret _ _ _ _ _ E1).
    assert ((x ∉ entries P) /\ (x ∉ l) /\ NoDup (entries P ++ [x]) /\ NoDup (entries P ++ l)) as (Hx1 & Hx2 & Hnd1 & Hnd2).
    { pose proof Hnd as Hnd0. rewrite <- Permutation_middle in Hnd0. apply NoDup_cons in Hnd0 as [Hx Hnd0]. split; [set_solver|]. split; [set_solver|].
      split; [|done]. change (entries P ++ x :: l) with (entries P ++ [x] ++ l) in Hnd. rewrite app_assoc in Hnd. by apply NoDup_app in Hnd as (? & _ & _). }
    assert (kept_heap [x] h h1) as K1 by done.
    assert (Forall2 (chain h1) part P) as HF1.
    { apply (kept_chains [x] h h1 _ _ K1); [|apply (po_chains _ _ _ _ HP)]. intros m z Hm Hz Hin. apply list_elem_of_singleton in Hin as ->.
      apply Hx1. by apply (entries_elem P m). }
    destruct (carry_run P 21 0 h1 part x [x]) as (h2 & ms & Q' & qs' & c & E2 & EP & HF2 & C2 & Sc & EQ2 & K2).
    + apply list_elem_of_lookup. exists 20%nat. apply (po_above _ _ _ _ HP). pose proof (po_max _ _ _ _ HP). lia.
    + rewrite (po_len _ _ _ _ HP). lia.
    + done.
    + apply (po_sorted _ _ _ _ HP).
    + split; [done|]. split; [done|]. exists 0. split; [by rewrite N1, decide_refl | done].
    + split; [repeat constructor | by constructor].
    + done.
    + cbn [replicate app Nat.add] in E2. rewrite (bind_Ret _ _ _ _ _ E2). cbv beta iota.
      destruct (place_run h part P max_lev ms Q' qs' c (chain_head c) HP h2 EP HF2 C2 Sc) as ([p Hp] & P' & HP' & EP').
      rewrite (bind_Ret _ _ _ _ _ (get_part_run _ _ p h2 Hp)).
      assert (steq cmp D (entries P') (entries P ++ [x])) as EQ.
      { rewrite EP', EQ2, EP, entries_app, entries_cons, app_nil_r. by rewrite <- !app_assoc. }
      assert (forall z, z ∈ entries ms -> z ∈ entries P) as Hms by (intros z Hz; rewrite EP, entries_app; apply elem_of_app; by right).
      destruct (IH fuel h2 q _ P' _ HP') as (h3 & part' & P2 & max' & E3 & HP2 & EQ3 & K3).
      * apply (chain_frame h); [|done]. intros z Hz. rewrite (same_out_nx _ _ _ z (proj1 K2)).
        -- rewrite N1, decide_ne; [done | by intros ->].
        -- intros Hin. apply NoDup_app in Hnd2 as (_ & Hd & _). apply elem_of_app in Hin as [Hin|Hin].
           ++ by apply (Hd z); [apply Hms|].
           ++ apply list_elem_of_singleton in Hin as ->. done.
      * done.
      * rewrite (proj1 EQ), <- app_assoc. done.
      * cbn in Hf. lia.
      * exists h3, part', P2, max'. split; [done|]. split; [done|]. split; [rewrite EQ3, EQ; by rewrite <- app_assoc|].
        apply (kept_trans (entries P ++ [x]) (entries P' ++ l) _ h h2 h3); [| done |].
        -- apply (kept_trans [x] (entries ms ++ [x]) _ h h1 h2 K1 K2). intros z Hz.
           rewrite not_elem_of_app in Hz. destruct Hz as [Hz1 Hz2]. split; [done|]. apply not_elem_of_app. split; [|done]. intros Hin. by apply Hz1, Hms.
        -- intros z Hz. rewrite not_elem_of_app, not_elem_of_cons in Hz. destruct Hz as (Hz1 & Hz2 & Hz3).
           rewrite (proj1 EQ), !not_elem_of_app, not_elem_of_cons. split_and!; try done; apply not_elem_of_nil.
Qed.

Lemma merge_parts_none h lst r lev part : chain h lst r -> sorted cmp D r ->
  exists h' r', merge_parts cmp 0 lev lst part h = Ret (chain_head r') h' /\ chain h' (chain_head r') r' /\ sorted cmp D r' /\
    steq cmp D r' (entries [] ++ r) /\ kept_heap (entries [] ++ r) h h'.
Proof.
  intros Hr Sr. pose proof (chain_ptr _ _ _ Hr) as E. subst lst. exists h, r. split; [done|]. split; [done|]. split; [done|].
  split; [reflexivity | apply kept_refl].
Qed.

Lemma merge_parts_run Q : forall n h ps0 qs lst r,
  Forall2 (chain h) qs Q -> Forall (sorted cmp D) Q -> (n <= length Q)%nat ->
  chain h lst r -> sorted cmp D r -> NoDup (entries Q ++ r) ->
  exists h' r', merge_parts cmp n (Z.of_nat (length ps0)) lst (ps0 ++ qs) h = Ret (chain_head r') h' /\ chain h' (chain_head r') r' /\ sorted cmp D r' /\
    steq cmp D r' (entries (take n Q) ++ r) /\ kept_heap (entries (take n Q) ++ r) h h'.
Proof.
  induction Q as [|m Q IH]; intros n h ps0 qs lst r HF HS Hn Hr Sr Hnd.
  - cbn in Hn. assert (n = 0%nat) as -> by lia. by apply merge_parts_none.
  - destruct n as [|n]; [by apply merge_parts_none|].
    apply Forall2_cons_inv_r in HF as (q & qs' & Hq & HF & ->). apply Forall_cons in HS as [Sm HS]. cbn [merge_parts take].
    assert (get_part (ps0 ++ q :: qs') (Z.of_nat (length ps0)) h = Ret q h) as Eg.
    { apply get_part_run. rewrite Nat2Z.id, lookup_app_r, Nat.sub_diag by lia. done. }
    rewrite (bind_Ret _ _ _ _ _ Eg). rewrite entries_cons, <- app_assoc in Hnd.
    pose proof Hnd as Hnd'. apply NoDup_app in Hnd' as (_ & Hdis & Hnd2).
    assert (exists h1 r1, (if negb (q =? 0) then merge cmp q lst else mret lst) h = Ret (chain_head r1) h1 /\ chain h1 (chain_head r1) r1 /\ sorted cmp D r1 /\
              steq cmp D r1 (m ++ r) /\ kept_heap (m ++ r) h h1) as (h1 & r1 & E1 & C1 & S1 & EQ1 & K1).
    { rewrite (chain_nonzero _ _ _ Hq). destruct m as [|x m].
      - exists h, r. cbn. pose proof (chain_ptr _ _ _ Hr) as E. subst lst. split; [done|]. split; [done|]. split; [done|]. split; [done | apply kept_refl].
      - rewrite bool_decide_false by done. by apply merge_kept. }
    rewrite (bind_Ret _ _ _ _ _ E1). replace (Z.of_nat (length ps0) + 1) with (Z.of_nat (length (ps0 ++ [q]))) by (rewrite length_app; cbn; lia).
    replace (ps0 ++ q :: qs') with ((ps0 ++ [q]) ++ qs') by (by rewrite <- app_assoc).
    destruct (IH n h1 (ps0 ++ [q]) qs' (chain_head r1) r1) as (h2 & r2 & E2 & C2 & S2 & EQ2 & K2); try done.
    + apply (kept_chains _ h h1 _ _ K1); [|done]. intros m' z Hm' Hz Hin'. apply (Hdis z); [by apply (entries_elem Q m') | done].
    + cbn in Hn. lia.
    + by rewrite (proj1 EQ1).
    + exists h2, r2. split; [done|]. split; [done|]. split; [done|]. rewrite entries_cons, <- app_assoc. split; [by rewrite EQ2, EQ1|].
      apply (kept_trans (m ++ r) (entries (take n Q) ++ r1) _ h h1 h2 K1 K2). intros z Hz. rewrite (proj1 EQ1).
      rewrite !not_elem_of_app in *. tauto.
Qed.

(** ** The sort *)

(** A ring cut open at its end. *)
Lemma ring_open h head l : ring h head l -> l <> [] -> (forall x, x ∈ l -> x <> 0) ->
  exists h', set_next (List.last l head) 0 h = Ret tt h' /\ nx h' head = Some (chain_head l) /\ chain h' (chain_head l) l /\ same_out l h h' /\
    (forall x, is_Some (h' !! x) <-> is_Some (h !! x)).
Proof.
  intros H Hne H0. destruct (last_snoc head l) as [A EA]. destruct A as [|a A]; [injection EA as EA ->; done|]. injection EA as <- EA.
  set (z := List.last l head) in *. clearbody z. pose proof (rg_nodup _ _ _ H) as Hnd. apply NoDup_cons in Hnd as [Hh Hnd]. rewrite EA in Hnd.
  apply NoDup_app in Hnd as (_ & HA & _).
  assert (z ∈ l) as Hz by (rewrite EA; set_solver). destruct (set_next_run h z 0) as (h' & E & N & _ & S & Dm); [apply (ring_some _ _ _ _ H); by right|].
  exists h'. split; [done|]. assert (head <> z) as Hhz by (by intros ->).
  split; [rewrite N, decide_ne by done; rewrite (ring_next _ _ _ H); by destruct l|]. split; [|split; [intros x Hx; apply S; set_solver | done]].
  pose proof (rg_links _ _ _ H) as HL. rewrite EA, <- app_assoc in HL. rewrite EA in H0 |- *. clear EA H Hh Hz Hne Hhz E S Dm.
  assert (nx h' z = Some 0) as Nz by (by rewrite N, decide_refl).
  assert (forall e p, links h (p :: A ++ [z; e]) -> chain h' (chain_head (A ++ [z])) (A ++ [z])) as Hgen; [|by apply (Hgen head head)].
  clear HL. intros e. induction A as [|x A IH]; intros p HL.
  - split; [done|]. split; [apply H0; set_solver|]. by exists 0.
  - destruct HL as [_ HL]. split; [done|]. split; [apply H0; set_solver|]. exists (chain_head (A ++ [z])). split.
    + rewrite N, decide_ne; [|intros ->; apply (HA z); [left | left]]. destruct A as [|y A]; apply HL.
    + apply (IH ltac:(intros y Hy; apply H0; set_solver) ltac:(intros y Hy; apply HA; by right) x HL).
Qed.

Lemma flist_sort_run h head l :
  ring h head l -> (forall x, x ∈ l -> x <> 0) -> Forall D l ->
  exists h' l', flist_sort cmp head h = Ret tt h' /\ ring h' head l' /\ StronglySorted (le cmp) l' /\ steq cmp D l' l /\ same_out (head :: l) h h'.
Proof.
  intros H H0 HD. unfold flist_sort. rewrite (bind_Ret _ _ _ _ _ (empty_run _ _ _ H)).
  destruct (decide (l = [])) as [->|Hne]; [exists h, []; rewrite bool_decide_true by done; split; [done|]; split; [done|]; split; [constructor | done]|].
  rewrite bool_decide_false by done. rewrite (bind_Ret _ _ _ _ _ (prev_run _ _ _ (ring_prev _ _ _ H))).
  destruct (ring_open h head l H Hne H0) as (h1 & E1 & N1 & C1 & S1 & D1). rewrite (bind_Ret _ _ _ _ _ E1), (bind_Ret _ _ _ _ _ (next_run _ _ _ N1)).
  rewrite (bind_Ret _ _ h1 h1 h1) by done. pose proof (rg_nodup _ _ _ H) as Hnd. pose proof Hnd as Hnd0. apply NoDup_cons in Hnd0 as [Hhl Hndl].
  destruct (sort_loop_run l (size h1) h1 (chain_head l) (replicate 21 0) (replicate 21 []) 0) as (h2 & part & P & max & E2 & HP & EQ & K2).
  { constructor; [done | by apply Forall2_replicate | apply Forall_replicate; split; constructor | lia |].
    intros i Hi. apply lookup_replicate. split; [done | lia]. }
  { done. }
  { done. }
  { by rewrite entries_empty. }
  { apply size_entries; [done|]. intros x Hx. by apply (chain_some _ _ _ _ C1). }
  rewrite (bind_Ret _ _ _ _ _ E2). cbv beta iota. rewrite entries_empty in EQ, K2. cbn [app] in EQ, K2.
  destruct HP as [HL HF HS Hm Hab]. set (n := Z.to_nat max) in *.
  destruct (lookup_lt_is_Some_2 P n) as [m Hm0]; [lia|]. destruct (Forall2_lookup_r _ _ _ _ _ HF Hm0) as (p & Hp & Cm).
  assert (entries P = m ++ entries (take n P)) as Esp.
  { rewrite <- (take_drop (S n) P) at 1. rewrite entries_app. rewrite (take_S_r _ _ _ Hm0), entries_app, entries_cons. cbn.
    assert (drop (S n) P = replicate (length P - S n) []) as ->; [|by rewrite entries_empty].
    apply list_eq. intros i. rewrite lookup_drop. destruct (decide (S n + i < 21)%nat) as [Hi|Hi].
    - rewrite Hab by lia. symmetry. apply lookup_replicate. split; [done | lia].
    - rewrite lookup_ge_None_2 by lia. symmetry. apply lookup_ge_None_2. rewrite length_replicate. lia. }
  assert (NoDup (entries P)) as HndP by (by rewrite (proj1 EQ)).
  destruct (merge_parts_run P n h2 [] part 0 []) as (h3 & r & E3 & C3 & S3 & EQ3 & K3); try done.
  { lia. }
  { split; constructor. }
  { by rewrite app_nil_r. }
  cbn [length app] in E3. change (Z.of_nat 0) with 0 in E3. rewrite (bind_Ret _ _ _ _ _ E3), (bind_Ret _ _ _ _ _ (get_part_run _ _ p h3 Hp)).
  rewrite app_nil_r in EQ3, K3.
  assert (m ++ r ≡ₚ l) as Hpm by (rewrite (proj1 EQ3), <- Esp; apply EQ).
  assert (sorted cmp D m) as Sm by (by apply (Forall_lookup_1 _ _ _ _ HS Hm0)).
  assert (Forall2 (chain h3) [p] [m]) as HF3.
  { apply (kept_chains (entries (take n P)) h2); [done | | by repeat constructor]. intros m' z Hm' Hz Hin. apply list_elem_of_singleton in Hm' as ->.
    rewrite Esp in HndP. apply NoDup_app in HndP as (_ & Hd & _). by apply (Hd z). }
  assert (chain h3 p m) as Cm3 by (by inversion HF3).
  destruct (restore_run cmp h3 head p (chain_head r) m r) as (h4 & E4 & R4 & S4); try done.
  { apply (proj2 (proj2 K3)), (proj2 (proj2 K2)), D1, (ring_some _ _ _ _ H). left. }
  { intros E. rewrite E in Hpm. symmetry in Hpm. by apply Permutation_nil_r in Hpm. }
  { rewrite Hpm. done. }
  exists h4, (lmerge cmp m r). split; [done|]. split; [done|].
  split; [by apply (lmerge_sorted cmp D le_total le_trans m r Sm S3)|]. split.
  - rewrite (lmerge_steq cmp D le_trans m r Sm (proj2 S3)), EQ3, <- Esp. done.
  - intros x Hx. rewrite not_elem_of_cons in Hx. destruct Hx as [Hx1 Hx2].
    rewrite S4 by (rewrite Hpm, not_elem_of_cons; done). rewrite (proj1 K3) by (rewrite <- (proj1 EQ3); intros Hin; apply Hx2; rewrite <- Hpm; set_solver).
    rewrite (proj1 K2) by done. by apply S1.
Qed.
End Sort.
