(* ===== verification/FlistRun.v ===== *)
(** What the lists of flist.h promise: any number of lists at once, under initialisation,
    insertion, removal, splicing and sorting. *)
From Stdlib Require Import Sorted.
From S2P Require Import Prelude Flist FlistSort.

(** * Sorting *)

Definition cmp_total (cmp : Z -> Z -> Z) (l : list Z) : Prop := forall a b, a ∈ l -> b ∈ l -> cmp a b <= 0 \/ cmp b a <= 0.
Definition cmp_trans (cmp : Z -> Z -> Z) (l : list Z) : Prop :=
  forall a b c, a ∈ l -> b ∈ l -> c ∈ l -> cmp a b <= 0 -> cmp b c <= 0 -> cmp a c <= 0.

(** [l'] is [l] sorted: in order, the same entries, and those that [cmp] does not tell lists_apart
    in the order they had. *)
Definition stable_sort_of (cmp : Z -> Z -> Z) (l l' : list Z) : Prop :=
  StronglySorted (fun a b => cmp a b <= 0) l' /\ l' ≡ₚ l /\
  forall x, x ∈ l -> filter (fun y => cmp x y <= 0 /\ cmp y x <= 0) l' = filter (fun y => cmp x y <= 0 /\ cmp y x <= 0) l.

Lemma sort_run cmp h head l :
  ring h head l -> (forall x, x ∈ l -> x <> 0) -> cmp_total cmp l -> cmp_trans cmp l ->
  exists h' l', flist_sort cmp head h = Ret tt h' /\ ring h' head l' /\ stable_sort_of cmp l l' /\ same_out (head :: l) h h'.
Proof.
  intros H H0 Ht Hr.
  destruct (flist_sort_run cmp (fun x => x ∈ l)) with (h := h) (head := head) (l := l) as (h' & l' & E & R & S & (P & F) & O); try done.
  - by apply Forall_forall.
  - exists h', l'. split; [done|]. split; [done|]. split; [|done]. split; [exact S|]. split; [done|]. intros x Hx.
    specialize (F x Hx). unfold eqv, le in F. etransitivity; [|etransitivity; [exact F|]]; apply list_filter_iff; tauto.
Qed.

(** C21: [flist_sort] sorts a list of any length in place and is stable: for a comparison that is
    total and transitive on the entries it returns, the list is again a doubly linked ring
    through its head, with the same entries in order, equivalent ones in their old order, and no
    other memory is written. *)
Theorem flist_sort_correct cmp h head l :
  ring h head l -> (forall x, x ∈ l -> x <> 0) -> cmp_total cmp l -> cmp_trans cmp l ->
  exists h' l', flist_sort cmp head h = Ret tt h' /\ ring h' head l' /\ stable_sort_of cmp l l' /\ same_out (head :: l) h h'.
Proof. apply sort_run. Qed.

(** * Many lists *)

(** The lists by their heads, with no entry in two of them. *)
Definition lists_apart (L : gmap Z (list Z)) : Prop :=
  forall hd l hd' l' x, L !! hd = Some l -> L !! hd' = Some l' -> hd <> hd' -> x ∈ hd :: l -> x ∉ hd' :: l'.

Record rep (h : gmap Z flist_head) (L : gmap Z (list Z)) : Prop := {
  rp_ring : forall hd l, L !! hd = Some l -> ring h hd l;
  rp_null : forall hd l x, L !! hd = Some l -> x ∈ hd :: l -> x <> 0;
  rp_apart : lists_apart L
}.

(** An entry that is in no list. *)
Definition unused (L : gmap Z (list Z)) (x : Z) : Prop := forall hd l, L !! hd = Some l -> x ∉ hd :: l.

Lemma apart_insert L hd l :
  lists_apart L -> (forall x hd2 l2, x ∈ hd :: l -> hd2 <> hd -> L !! hd2 = Some l2 -> x ∉ hd2 :: l2) -> lists_apart (<[hd := l]> L).
Proof.
  intros HA Hn hd1 l1 hd2 l2 x. rewrite !lookup_insert_Some. intros [[<- <-]|[Hne1 H1]] [[<- <-]|[Hne2 H2]] Hne Hx; try done.
  - by apply (Hn x).
  - intros Hx2. by apply (Hn x hd1 l1 Hx2).
  - by apply (HA hd1 l1 hd2 l2 x).
Qed.

(** One list changes, within its memory and that of unused entries. *)
Lemma rep_one h h' L hd l l' U :
  rep h L -> ring h' hd l' -> same_out U h h' -> L !! hd = Some l \/ (l = [] /\ unused L hd) ->
  (forall x, x ∈ U ++ hd :: l' -> x ∈ hd :: l \/ unused L x) -> (forall x, x ∈ hd :: l' -> x <> 0) -> rep h' (<[hd := l']> L).
Proof.
  intros [H1 H2 H3] Hr HS Hhd HU H0.
  assert (forall x hd2 l2, x ∈ U ++ hd :: l' -> hd2 <> hd -> L !! hd2 = Some l2 -> x ∉ hd2 :: l2) as Hout.
  { intros x hd2 l2 Hx Hne HL. destruct (HU x Hx) as [Hin|Hun]; [|by apply (Hun _ _ HL)].
    destruct Hhd as [Hhd|[-> Hun]]; [by apply (H3 hd l hd2 l2 x)|]. apply list_elem_of_singleton in Hin as ->. by apply (Hun _ _ HL). }
  constructor.
  - intros hd2 l2 HL. apply lookup_insert_Some in HL as [[<- <-]|[Hne HL]]; [done|]. apply (ring_frame h); [|by apply H1].
    intros x Hx. apply HS. intros Hin. apply (Hout x hd2 l2); [set_solver | done | done | done].
  - intros hd2 l2 x HL. apply lookup_insert_Some in HL as [[<- <-]|[Hne HL]]; [apply H0 | by apply H2].
  - apply apart_insert; [done|]. intros x hd2 l2 Hx. apply Hout. set_solver.
Qed.

Lemma run_false (m : M (gmap Z flist_head) unit) h h' : m h = Ret tt h' -> (m;; mret false) h = Ret false h'.
Proof. intros E. by rewrite (bind_Ret _ _ _ _ _ E). Qed.

Lemma rep_unlinked h h' L hd l1 l2 x :
  rep h L -> L !! hd = Some (l1 ++ x :: l2) -> ring h' hd (l1 ++ l2) -> same_out (hd :: l1 ++ x :: l2) h h' ->
  rep h' (<[hd := l1 ++ l2]> L) /\ unused (<[hd := l1 ++ l2]> L) x.
Proof.
  intros H HL Hr HS. pose proof (rg_nodup _ _ _ (rp_ring _ _ H _ _ HL)) as Hnd. split.
  - apply (rep_one h h' L hd (l1 ++ x :: l2) _ (hd :: l1 ++ x :: l2)); [done | done | done | by left | set_solver |].
    intros y Hy. apply (rp_null _ _ H hd _ y HL). set_solver.
  - intros hd2 l2' HL2. apply lookup_insert_Some in HL2 as [[<- <-]|[Hne HL2]].
    + change (hd :: l1 ++ x :: l2) with ((hd :: l1) ++ x :: l2) in Hnd. rewrite <- Permutation_middle in Hnd. by apply NoDup_cons in Hnd as [? _].
    + apply (rp_apart _ _ H hd _ hd2 l2' x HL HL2 Hne). set_solver.
Qed.

(** A splice: the head of the one list is empty after it, the other list has the entries of both. *)
Lemma rep_spliced h h' L ls m hd l l' :
  rep h L -> ls <> hd -> L !! ls = Some m -> L !! hd = Some l -> l' ≡ₚ m ++ l ->
  ring h' hd l' -> ring h' ls [] -> same_out (ls :: hd :: m ++ l) h h' -> rep h' (<[hd := l']> (<[ls := []]> L)).
Proof.
  intros [H1 H2 H3] Hne Hls Hhd Hp R1 R2 HS.
  assert (forall x, x ∈ hd :: l' -> x ∈ hd :: l \/ x ∈ m) as Hin by (intros x Hx; rewrite Hp in Hx; set_solver).
  pose proof (rg_nodup _ _ _ (H1 _ _ Hls)) as Hnd. apply NoDup_cons in Hnd as [Hnd _].
  assert (lists_apart (<[ls := []]> L)) as A1.
  { apply apart_insert; [done|]. intros x hd2 l2 Hx Hne2 HL2. apply list_elem_of_singleton in Hx as ->. apply (H3 ls m hd2 l2 ls); try done. left. }
  constructor.
  - intros hd2 l2 HL. apply lookup_insert_Some in HL as [[<- <-]|[Hne2 HL]]; [done|]. apply lookup_insert_Some in HL as [[<- <-]|[Hne3 HL]]; [done|].
    apply (ring_frame h); [|by apply H1]. intros x Hx. apply HS. intros Hx2.
    assert (x ∈ ls :: m \/ x ∈ hd :: l) as [Hx3|Hx3] by set_solver; [by apply (H3 ls m hd2 l2 x) | by apply (H3 hd l hd2 l2 x)].
  - intros hd2 l2 x HL Hx. apply lookup_insert_Some in HL as [[<- <-]|[Hne2 HL]].
    + destruct (Hin x Hx) as [Hx'|Hx']; [by apply (H2 hd l) | apply (H2 ls m); [done | by right]].
    + apply lookup_insert_Some in HL as [[<- <-]|[Hne3 HL]]; [apply (H2 ls m); set_solver | by apply (H2 hd2 l2)].
  - apply apart_insert; [done|]. intros x hd2 l2 Hx Hne2 HL. apply lookup_insert_Some in HL as [[<- <-]|[Hne3 HL]].
    + intros Hx2. apply list_elem_of_singleton in Hx2 as ->. destruct (Hin ls Hx) as [Hx'|Hx']; [|done]. apply (H3 hd l ls m ls); try done. left.
    + destruct (Hin x Hx) as [Hx'|Hx']; [apply (H3 hd l hd2 l2 x); [done | done | congruence | done] | apply (H3 ls m hd2 l2 x); [done | done | congruence | by right]].
Qed.

(** * Operations *)

Inductive lop : Type :=
  | LInit (x : Z) | LAdd (x hd : Z) | LAddTail (x hd : Z) | LDel (x : Z) | LDelInit (x : Z)
  | LSpliceInit (ls hd : Z) | LSpliceTailInit (ls hd : Z) | LSort (hd : Z) | LEmpty (hd : Z).

Section Runs.
Context (cmp : Z -> Z -> Z).
Hypothesis Htotal : forall l, cmp_total cmp l.
Hypothesis Htrans : forall l, cmp_trans cmp l.

Definition list_exec (o : lop) : M (gmap Z flist_head) bool :=
  match o with
  | LInit x => INIT_FLIST_HEAD x;; mret false
  | LAdd x hd => flist_add x hd;; mret false
  | LAddTail x hd => flist_add_tail x hd;; mret false
  | LDel x => flist_del x;; mret false
  | LDelInit x => flist_del_init x;; mret false
  | LSpliceInit ls hd => flist_splice_init ls hd;; mret false
  | LSpliceTailInit ls hd => flist_splice_tail_init ls hd;; mret false
  | LSort hd => flist_sort cmp hd;; mret false
  | LEmpty hd => flist_empty hd
  end.

(** What an operation does to the lists, and its answer. *)
Inductive lstep : lop -> gmap Z (list Z) -> gmap Z (list Z) -> bool -> Prop :=
  | s_init x L : unused L x -> lstep (LInit x) L (<[x := []]> L) false
  | s_add x hd l L : L !! hd = Some l -> unused L x -> lstep (LAdd x hd) L (<[hd := x :: l]> L) false
  | s_add_tail x hd l L : L !! hd = Some l -> unused L x -> lstep (LAddTail x hd) L (<[hd := l ++ [x]]> L) false
  | s_del x hd l1 l2 L : L !! hd = Some (l1 ++ x :: l2) -> lstep (LDel x) L (<[hd := l1 ++ l2]> L) false
  | s_del_init x hd l1 l2 L : L !! hd = Some (l1 ++ x :: l2) -> lstep (LDelInit x) L (<[x := []]> (<[hd := l1 ++ l2]> L)) false
  | s_splice ls m hd l L : ls <> hd -> L !! ls = Some m -> L !! hd = Some l ->
      lstep (LSpliceInit ls hd) L (<[hd := m ++ l]> (<[ls := []]> L)) false
  | s_splice_tail ls m hd l L : ls <> hd -> L !! ls = Some m -> L !! hd = Some l ->
      lstep (LSpliceTailInit ls hd) L (<[hd := l ++ m]> (<[ls := []]> L)) false
  | s_sort hd l l' L : L !! hd = Some l -> stable_sort_of cmp l l' -> lstep (LSort hd) L (<[hd := l']> L) false
  | s_empty hd l L : L !! hd = Some l -> lstep (LEmpty hd) L L (bool_decide (l = [])).

(** When an operation may be called: on entries that are in memory and in no list, on entries of a
    list, on heads. *)
Definition llegal (o : lop) (h : gmap Z flist_head) (L : gmap Z (list Z)) : Prop :=
  match o with
  | LInit x => unused L x /\ x <> 0 /\ is_Some (h !! x)
  | LAdd x hd | LAddTail x hd => is_Some (L !! hd) /\ unused L x /\ x <> 0 /\ is_Some (h !! x)
  | LDel x | LDelInit x => exists hd l, L !! hd = Some l /\ x ∈ l
  | LSpliceInit ls hd | LSpliceTailInit ls hd => ls <> hd /\ is_Some (L !! ls) /\ is_Some (L !! hd)
  | LSort hd | LEmpty hd => is_Some (L !! hd)
  end.

Lemma list_sim o h L : rep h L -> llegal o h L ->
  exists h' L' r, list_exec o h = Ret r h' /\ lstep o L L' r /\ rep h' L'.
Proof.
  intros H. destruct o as [x|x hd|x hd|x|x|ls hd|ls hd|hd|hd]; cbn [llegal list_exec].
  - intros (Hu & Hx & Hs). destruct (init_run h x Hs) as (h' & E & R & S). exists h', (<[x := []]> L), false.
    split; [by apply run_false|]. split; [by constructor|]. apply (rep_one h h' L x [] [] [x]); try done; [by right | set_solver | set_solver].
  - intros ([l Hl] & Hu & Hx & Hs). destruct (flist_add_run h hd l x (rp_ring _ _ H _ _ Hl) Hs (Hu _ _ Hl)) as (h' & E & R & S).
    exists h', (<[hd := x :: l]> L), false. split; [by apply run_false|]. split; [by constructor|].
    apply (rep_one h h' L hd l _ _ H R S); [by left | intros y Hy; destruct (decide (y = x)) as [->|]; [by right | left; set_solver]|].
    intros y Hy. destruct (decide (y = x)) as [->|]; [done|]. apply (rp_null _ _ H hd l); [done | set_solver].
  - intros ([l Hl] & Hu & Hx & Hs). destruct (flist_add_tail_run h hd l x (rp_ring _ _ H _ _ Hl) Hs (Hu _ _ Hl)) as (h' & E & R & S).
    exists h', (<[hd := l ++ [x]]> L), false. split; [by apply run_false|]. split; [by constructor|].
    apply (rep_one h h' L hd l _ _ H R S); [by left | intros y Hy; destruct (decide (y = x)) as [->|]; [by right | left; set_solver]|].
    intros y Hy. destruct (decide (y = x)) as [->|]; [done|]. apply (rp_null _ _ H hd l); [done | set_solver].
  - intros (hd & l & Hl & Hx). apply list_elem_of_split in Hx as (l1 & l2 & ->).
    destruct (flist_del_run h hd l1 l2 x (rp_ring _ _ H _ _ Hl)) as (h' & E & R & _ & S).
    exists h', (<[hd := l1 ++ l2]> L), false. split; [by apply run_false|]. split; [by econstructor|]. by apply (rep_unlinked h h' L hd l1 l2 x).
  - intros (hd & l & Hl & Hx). apply list_elem_of_split in Hx as (l1 & l2 & ->).
    destruct (flist_del_init_run h hd l1 l2 x (rp_ring _ _ H _ _ Hl)) as (h' & E & R & Ex & S).
    exists h', (<[x := []]> (<[hd := l1 ++ l2]> L)), false. split; [by apply run_false|]. split; [by econstructor|].
    destruct (rep_unlinked h h' L hd l1 l2 x H Hl R S) as [H' Hu].
    apply (rep_one h' h' _ x [] [] []); [done | by apply ring_nil | done | by right | set_solver |].
    intros y Hy. apply list_elem_of_singleton in Hy as ->. apply (rp_null _ _ H hd _ x Hl). set_solver.
  - intros (Hne & [m Hm] & [l Hl]). destruct (splice_init_run h hd l ls m) as (h' & E & R1 & R2 & S).
    { by apply (rp_ring _ _ H). } { by apply (rp_ring _ _ H). } { intros x Hx. by apply (rp_apart _ _ H ls m hd l x). }
    exists h', (<[hd := m ++ l]> (<[ls := []]> L)), false. split; [by apply run_false|]. split; [by constructor|].
    by apply (rep_spliced h h' L ls m hd l (m ++ l)).
  - intros (Hne & [m Hm] & [l Hl]). destruct (splice_tail_init_run h hd l ls m) as (h' & E & R1 & R2 & S).
    { by apply (rp_ring _ _ H). } { by apply (rp_ring _ _ H). } { intros x Hx. by apply (rp_apart _ _ H ls m hd l x). }
    exists h', (<[hd := l ++ m]> (<[ls := []]> L)), false. split; [by apply run_false|]. split; [by constructor|].
    apply (rep_spliced h h' L ls m hd l (l ++ m)); try done. apply Permutation_app_comm.
  - intros [l Hl]. destruct (sort_run cmp h hd l (rp_ring _ _ H _ _ Hl)) as (h' & l' & E & R & Hst & S); try done.
    { intros x Hx. apply (rp_null _ _ H hd l); [done | by right]. }
    exists h', (<[hd := l']> L), false. split; [by apply run_false|]. split; [by econstructor|]. destruct Hst as (_ & Hp & _).
    apply (rep_one h h' L hd l l' (hd :: l)); [done | done | done | by left | |].
    + intros x Hx. left. rewrite Hp in Hx. set_solver.
    + intros x Hx. rewrite Hp in Hx. by apply (rp_null _ _ H hd l).
  - intros [l Hl]. exists h, L, (bool_decide (l = [])). split; [by apply empty_run, (rp_ring _ _ H)|]. split; [by constructor | done].
Qed.
End Runs.

(** ** Runs *)

Fixpoint list_exec_all (cmp : Z -> Z -> Z) (ops : list lop) : M (gmap Z flist_head) (list bool) :=
  match ops with [] => mret [] | o :: ops' => r ← list_exec cmp o; rs ← list_exec_all cmp ops'; mret (r :: rs) end.

Inductive lsteps (cmp : Z -> Z -> Z) : list lop -> gmap Z (list Z) -> gmap Z (list Z) -> list bool -> Prop :=
  | ls_nil L : lsteps cmp [] L L []
  | ls_cons o ops L L1 L2 r rs : lstep cmp o L L1 r -> lsteps cmp ops L1 L2 rs -> lsteps cmp (o :: ops) L L2 (r :: rs).

(** Every operation may be called when its turn comes. *)
Fixpoint llegal_all (cmp : Z -> Z -> Z) (ops : list lop) (h : gmap Z flist_head) (L : gmap Z (list Z)) : Prop :=
  match ops with
  | [] => True
  | o :: ops' => llegal o h L /\ forall h' L' r, list_exec cmp o h = Ret r h' -> lstep cmp o L L' r -> llegal_all cmp ops' h' L'
  end.

(** C22: The links implement lists: in a memory that holds any number of lists lists_apart from each
    other, every sequence of initialisations, insertions at both ends, removals, splices, sorts and
    tests returns, and the memory after it holds the lists that the same steps on sequences give,
    with the same answers; a sort is stable. *)
Theorem flist_refines cmp ops : (forall l, cmp_total cmp l) -> (forall l, cmp_trans cmp l) -> forall h L,
  rep h L -> llegal_all cmp ops h L ->
  exists h' L' rs, list_exec_all cmp ops h = Ret rs h' /\ lsteps cmp ops L L' rs /\ rep h' L'.
Proof.
  intros Ht Hr. induction ops as [|o ops IH]; intros h L H Hl; [exists h, L, []; by split; [|split; [constructor|]]|].
  destruct Hl as [Ho Hl]. destruct (list_sim cmp Ht Hr o h L H Ho) as (h1 & L1 & r & E1 & S1 & H1).
  destruct (IH h1 L1 H1 (Hl h1 L1 r E1 S1)) as (h2 & L2 & rs & E2 & S2 & H2).
  exists h2, L2, (r :: rs). cbn [list_exec_all]. rewrite (bind_Ret _ _ _ _ _ E1), (bind_Ret _ _ _ _ _ E2). split; [done|]. split; [by econstructor | done].
Qed.

(** ** Examples *)

(** Entries compared by address; the list 32, 16, 24 with the head 8. *)
Definition addr_cmp (a b : Z) : Z := a - b.
Definition demo_ring : gmap Z flist_head :=
  list_to_map [(8, mkFl 32 24); (32, mkFl 16 8); (16, mkFl 24 32); (24, mkFl 8 16)].

Lemma addr_total l : cmp_total addr_cmp l.
Proof. intros a b _ _. unfold addr_cmp. lia. Qed.
Lemma addr_trans l : cmp_trans addr_cmp l.
Proof. intros a b c _ _ _. unfold addr_cmp. lia. Qed.

Lemma demo_ring_ok : ring demo_ring 8 [32; 16; 24].
Proof. split; [repeat (constructor; [set_solver|]); constructor|]. repeat split; by vm_compute. Qed.

Lemma flist_sort_correct_witness :
  exists h' l', flist_sort addr_cmp 8 demo_ring = Ret tt h' /\ ring h' 8 l' /\ stable_sort_of addr_cmp [32; 16; 24] l' /\
    same_out [8; 32; 16; 24] demo_ring h'.
Proof.
  apply (flist_sort_correct addr_cmp demo_ring 8 [32; 16; 24] demo_ring_ok); [set_solver | apply addr_total | apply addr_trans].
Defined.

Lemma demo_sorted :
  (flist_sort addr_cmp 8;; mapM next [8; 16; 24; 32]) demo_ring = Ret [16; 24; 32; 8] (list_to_map [(8, mkFl 16 32); (16, mkFl 24 8); (24, mkFl 32 16); (32, mkFl 8 24)]).
Proof. vm_compute. reflexivity. Qed.

Definition demo_nodes : gmap Z flist_head := list_to_map [(8, mkFl 0 0); (16, mkFl 0 0)].
Definition demo_lops : list lop := [LInit 8; LAddTail 16 8; LEmpty 8].

Lemma demo_lops_legal : llegal_all addr_cmp demo_lops demo_nodes ∅.
Proof.
  split; [split; [by intros hd l E; rewrite lookup_empty in E | split; [done | by eexists]]|]. intros h1 L1 r1 E1 S1. vm_compute in E1. injection E1 as _ <-.
  inversion S1; subst. split.
  { split; [by rewrite lookup_insert_eq|]. split; [|split; [done | by eexists]].
    intros hd l E. apply lookup_insert_Some in E as [[<- <-]|[_ E]]; [set_solver | by rewrite lookup_empty in E]. }
  intros h2 L2 r2 E2 S2. inversion S2; subst. split; [|done]. cbn. by rewrite lookup_insert_eq.
Qed.

Lemma flist_refines_witness :
  exists h' L' rs, list_exec_all addr_cmp demo_lops demo_nodes = Ret rs h' /\ lsteps addr_cmp demo_lops ∅ L' rs /\ rep h' L'.
Proof.
  apply (flist_refines addr_cmp demo_lops addr_total addr_trans demo_nodes ∅); [|apply demo_lops_legal].
  split; [by intros hd l E; rewrite lookup_empty in E | by intros hd l x E; rewrite lookup_empty in E | by intros hd l hd' l' x E; rewrite lookup_empty in E].
Defined.
