(* ===== verification/FileHash.v ===== *)
(** The table of open files (src/fio/filehash.c) with its use by
    file_lookup_open and generic_close_file, and the registry of allocated file
    names (src/fio/filesetup.c, __is_already_allocated to
    free_already_allocated): a list of names behind a bloom filter.  A struct
    fio_file is named by the address of its hash_list member, a struct
    file_name by that of its list member.  Every operation is one critical
    section of [hash_lock] (FioMutex shows that it excludes), so a sequence of
    operations is any interleaving of them. *)
From S2P Require Import Prelude Bloom Flist FlistSort FlistRun.
#[local] Open Scope Z_scope.

Definition HASH_BUCKETS : Z := 512.
Definition HASH_MASK : Z := HASH_BUCKETS - 1.
Definition BLOOM_SIZE : Z := 16 * 1024 * 1024.
Definition FIO_FILE_hashed : Z := Z.shiftl 1 5.

Record fio_file : Type := mkFile {
  file_name : option bytes;          (* None: a null pointer *)
  fd : Z;
  shadow_fd : Z;
  flags : Z
}.

Record fhash : Type := mkFh {
  nodes : gmap Z flist_head;         (* the buckets and the hash_list members *)
  files : gmap Z fio_file;
  file_hash : Z;                     (* the address of the buckets *)
  hash_lock : option bool;           (* None: a null pointer; whether it is free *)
  file_bloom : option bloom;
  fn_nodes : gmap Z flist_head;      (* filename_list and the list members *)
  fn_names : gmap Z bytes            (* the names of the struct file_name *)
}.

Definition set_nodes (h : gmap Z flist_head) (s : fhash) : fhash :=
  mkFh h (files s) (file_hash s) (hash_lock s) (file_bloom s) (fn_nodes s) (fn_names s).
Definition set_files (m : gmap Z fio_file) (s : fhash) : fhash :=
  mkFh (nodes s) m (file_hash s) (hash_lock s) (file_bloom s) (fn_nodes s) (fn_names s).
Definition set_lock (l : option bool) (s : fhash) : fhash :=
  mkFh (nodes s) (files s) (file_hash s) l (file_bloom s) (fn_nodes s) (fn_names s).
Definition set_bloom (b : option bloom) (s : fhash) : fhash :=
  mkFh (nodes s) (files s) (file_hash s) (hash_lock s) b (fn_nodes s) (fn_names s).
Definition set_fn_nodes (h : gmap Z flist_head) (s : fhash) : fhash :=
  mkFh (nodes s) (files s) (file_hash s) (hash_lock s) (file_bloom s) h (fn_names s).
Definition set_fn_names (m : gmap Z bytes) (s : fhash) : fhash :=
  mkFh (nodes s) (files s) (file_hash s) (hash_lock s) (file_bloom s) (fn_nodes s) m.

Definition on_list {A} (m : M (gmap Z flist_head) A) : M fhash A := zoom nodes set_nodes m.
Definition on_names {A} (m : M (gmap Z flist_head) A) : M fhash A := zoom fn_nodes set_fn_nodes m.

Definition fio_file_hashed (f : fio_file) : bool := negb (Z.land (flags f) FIO_FILE_hashed =? 0).
Definition fio_file_set_hashed (f : fio_file) : fio_file :=
  mkFile (file_name f) (fd f) (shadow_fd f) (Z.lor (flags f) FIO_FILE_hashed).
Definition fio_file_clear_hashed (f : fio_file) : fio_file :=
  mkFile (file_name f) (fd f) (shadow_fd f) (Z.land (flags f) (Z.lnot FIO_FILE_hashed)).
Definition set_fds (f : fio_file) (d sd : Z) : fio_file := mkFile (file_name f) d sd (flags f).

Definition get_fh (f : Z) : M fhash fio_file := fun s =>
  match files s !! f with Some r => Ret r s | None => Undef s end.
Definition put_file (f : Z) (r : fio_file) : M fhash unit := modify (fun s => set_files (<[f := r]> (files s)) s).
Definition the {A} (o : option A) : M fhash A := match o with Some a => mret a | None => undef end.

(** A failed assertion ends the process. *)
Definition assert_fh (b : bool) : M fhash unit := if b then mret tt else exit_ 134.

(** The lock: one thread that waits for itself waits for ever. *)
Definition fio_mutex_down_hash : M fhash unit := fun s =>
  match hash_lock s with
  | None => Undef s
  | Some true => Ret tt (set_lock (Some false) s)
  | Some false => Diverge s
  end.
Definition fio_mutex_up_hash : M fhash unit := fun s =>
  match hash_lock s with None => Undef s | Some _ => Ret tt (set_lock (Some true) s) end.

Definition fio_file_hash_lock : M fhash unit := s ← get_st;
  match hash_lock s with Some _ => fio_mutex_down_hash | None => mret tt end.
Definition fio_file_hash_unlock : M fhash unit := s ← get_st;
  match hash_lock s with Some _ => fio_mutex_up_hash | None => mret tt end.

Definition hash (name : bytes) : option Z := h ← jhash (c_str name) 0; Some (Z.land h HASH_MASK).
Definition bucket_at (base i : Z) : Z := base + 16 * i.

(** The loop of __lookup_file_hash from the entry [n] on. *)
Fixpoint lookup_loop (fuel : nat) (n bucket : Z) (name : bytes) : M fhash Z :=
  match fuel with
  | O => fun s => Diverge s
  | S fuel' =>
      if n =? bucket then mret 0
      else
        f ← get_fh n;
        match file_name f with
        | Some fn =>
            if bool_decide (c_str fn = c_str name)
            then assert_fh (negb (fd f =? -1));; mret n
            else n' ← on_list (next n); lookup_loop fuel' n' bucket name
        | None => n' ← on_list (next n); lookup_loop fuel' n' bucket name
        end
  end.

Definition __lookup_file_hash (name : bytes) : M fhash Z :=
  s ← get_st;
  h ← the (hash name);
  let bucket := bucket_at (file_hash s) h in
  n ← on_list (next bucket);
  lookup_loop (S (size (nodes s))) n bucket name.

Definition lookup_file_hash (name : bytes) : M fhash Z :=
  fio_mutex_down_hash;; f ← __lookup_file_hash name; fio_mutex_up_hash;; mret f.

Definition remove_file_hash (f : Z) : M fhash unit :=
  fio_mutex_down_hash;;
  r ← get_fh f;
  (if fio_file_hashed r then
     e ← on_list (flist_empty f);
     assert_fh (negb e);;
     on_list (flist_del_init f);;
     put_file f (fio_file_clear_hashed r)
   else mret tt);;
  fio_mutex_up_hash.

(** The alias, or 0. *)
Definition add_file_hash (f : Z) : M fhash Z :=
  r ← get_fh f;
  if fio_file_hashed r then mret 0
  else
    on_list (INIT_FLIST_HEAD f);;
    fio_mutex_down_hash;;
    name ← the (file_name r);
    alias ← __lookup_file_hash name;
    (if alias =? 0 then
       put_file f (fio_file_set_hashed r);;
       h ← the (hash name);
       s ← get_st;
       on_list (flist_add_tail f (bucket_at (file_hash s) h))
     else mret tt);;
    fio_mutex_up_hash;;
    mret alias.

Definition file_bloom_exists (fname : bytes) (set : bool) : M fhash bool :=
  s ← get_st;
  b ← the (file_bloom s);
  rb ← the (bloom_string b (c_str fname) set);
  modify (set_bloom (Some rb.2));; mret rb.1.

(** [a]: what smalloc returned for the buckets, with its memory cleared. *)
Fixpoint init_buckets (n : nat) (a : Z) : M fhash unit :=
  match n with
  | O => mret tt
  | S n' => init_buckets n' a;; on_list (INIT_FLIST_HEAD (bucket_at a (Z.of_nat n')))
  end.
Definition bucket_addrs (a : Z) : list Z := (fun i => bucket_at a (Z.of_nat i)) <$> seq 0 512.
Definition smalloc_buckets (a : Z) : M fhash unit := modify (fun s =>
  mkFh (if a =? 0 then nodes s else foldr (fun p h => <[p := mkFl 0 0]> h) (nodes s) (bucket_addrs a))
    (files s) a (hash_lock s) (file_bloom s) (fn_nodes s) (fn_names s)).

Definition file_hash_init (a : Z) : M fhash unit :=
  smalloc_buckets a;;
  init_buckets 512 a;;
  modify (set_lock (Some true));;
  modify (set_bloom (Some (bloom_new BLOOM_SIZE))).

(** The number of buckets in use, over which a message is printed. *)
Fixpoint count_buckets (n : nat) (a : Z) : M fhash Z :=
  match n with
  | O => mret 0
  | S n' =>
      c ← count_buckets n' a;
      e ← on_list (flist_empty (bucket_at a (Z.of_nat n')));
      mret (if (e : bool) then c else c + 1)
  end.

Definition file_hash_exit : M fhash Z :=
  fio_mutex_down_hash;;
  s ← get_st;
  has_entries ← count_buckets 512 (file_hash s);
  fio_mutex_up_hash;;
  modify (fun s => mkFh (foldr (fun p h => delete p h) (nodes s) (bucket_addrs (file_hash s)))
                     (files s) 0 None None (fn_nodes s) (fn_names s));;
  mret has_entries.

(** * filesetup.c: opening and closing *)

(** [newfd]: what open returned. *)
Definition file_lookup_open (f : Z) (newfd : Z) : M fhash bool :=
  r ← get_fh f;
  name ← the (file_name r);
  f' ← lookup_file_hash name;
  let from_hash := negb (f' =? 0) in
  r ← get_fh f;
  put_file f (set_fds r newfd (shadow_fd r));;
  mret from_hash.

(** [err]: what close of the descriptor left in errno, 0 for success. *)
Definition generic_close_file (f : Z) (err : Z) : M fhash Z :=
  remove_file_hash f;;
  r ← get_fh f;
  put_file f (set_fds r (-1) (if shadow_fd r =? -1 then shadow_fd r else -1));;
  mret err.

(** alloc_new_file, with the name add_file gives it; [f]: what smalloc
    returned, with its memory cleared. *)
Definition alloc_new_file (f : Z) (name : bytes) : M fhash unit :=
  modify (fun s => set_files (<[f := mkFile (Some (c_str name)) (-1) (-1) 0]> (files s))
                     (set_nodes (<[f := mkFl 0 0]> (nodes s)) s)).

(** What close_and_free_files does with a file that is closed. *)
Definition free_file (f : Z) : M fhash unit :=
  remove_file_hash f;;
  modify (fun s => set_files (delete f (files s)) (set_nodes (delete f (nodes s)) s)).

(** * filesetup.c: the registry of allocated names *)

(** The address of filename_list. *)
Definition filename_list : Z := 8.

Fixpoint allocated_loop (fuel : nat) (entry : Z) (fname : bytes) : M fhash bool :=
  match fuel with
  | O => fun s => Diverge s
  | S fuel' =>
      if entry =? filename_list then mret false
      else
        s ← get_st;
        fn ← the (fn_names s !! entry);
        if bool_decide (c_str fn = c_str fname) then mret true
        else n' ← on_names (next entry); allocated_loop fuel' n' fname
  end.

Definition __is_already_allocated (fname : bytes) (set : bool) : M fhash bool :=
  ret ← file_bloom_exists fname set;
  if negb ret then mret ret
  else
    n ← on_names (next filename_list);
    s ← get_st;
    allocated_loop (S (size (fn_nodes s))) n fname.

Definition is_already_allocated (fname : bytes) : M fhash bool :=
  fio_file_hash_lock;; ret ← __is_already_allocated fname false; fio_file_hash_unlock;; mret ret.

(** [fn]: what malloc returned. *)
Definition set_already_allocated (fname : bytes) (fn : Z) : M fhash unit :=
  modify (fun s => set_fn_names (<[fn := c_str fname]> (fn_names s)) (set_fn_nodes (<[fn := mkFl 0 0]> (fn_nodes s)) s));;
  fio_file_hash_lock;;
  ret ← __is_already_allocated fname true;
  (if (ret : bool) then mret tt else on_names (flist_add_tail fn filename_list));;
  fio_file_hash_unlock;;
  if (ret : bool)
  then modify (fun s => set_fn_names (delete fn (fn_names s)) (set_fn_nodes (delete fn (fn_nodes s)) s))
  else mret tt.

(** flist_for_each_safe reads the next entry before the body frees this one. *)
Fixpoint free_loop (fuel : nat) (entry : Z) : M fhash unit :=
  match fuel with
  | O => fun s => Diverge s
  | S fuel' =>
      if entry =? filename_list then mret tt
      else
        tmp ← on_names (next entry);
        on_names (flist_del entry);;
        modify (fun s => set_fn_names (delete entry (fn_names s)) (set_fn_nodes (delete entry (fn_nodes s)) s));;
        free_loop fuel' tmp
  end.

Definition free_already_allocated : M fhash unit :=
  e ← on_names (flist_empty filename_list);
  if (e : bool) then mret tt
  else
    fio_file_hash_lock;;
    n ← on_names (next filename_list);
    s ← get_st;
    free_loop (S (size (fn_nodes s))) n;;
    fio_file_hash_unlock.

(** * The invariant of the table *)

Abbreviation short_name nm := (Z.of_nat (length (c_str nm)) < 2 ^ 31).

Lemma hashed_set f : fio_file_hashed (fio_file_set_hashed f) = true.
Proof.
  unfold fio_file_hashed. simpl. apply negb_true_iff, Z.eqb_neq. intros E.
  assert (Z.testbit (Z.land (Z.lor (flags f) FIO_FILE_hashed) FIO_FILE_hashed) 5 = Z.testbit 0 5) as H by congruence.
  rewrite Z.land_spec, Z.lor_spec in H. simpl in H. by rewrite orb_true_r in H.
Qed.

Lemma hashed_clear f : fio_file_hashed (fio_file_clear_hashed f) = false.
Proof.
  unfold fio_file_hashed. simpl. apply negb_false_iff, Z.eqb_eq.
  rewrite <- Z.land_assoc. change (Z.land (Z.lnot FIO_FILE_hashed) FIO_FILE_hashed) with 0. apply Z.land_0_r.
Qed.

Lemma hash_total nm : short_name nm -> exists i, hash nm = Some i /\ 0 <= i < HASH_BUCKETS.
Proof.
  intros H. destruct (jhash_total (c_str nm) 0) as [h Hh]; [lia|]. exists (Z.land h HASH_MASK).
  unfold hash. rewrite Hh. split; [done|]. change HASH_MASK with (Z.ones 9). rewrite Z.land_ones by lia.
  change HASH_BUCKETS with (2 ^ 9). apply Z.mod_pos_bound. lia.
Qed.

(** The hash is of the C string. *)
Lemma hash_cstr a b : c_str a = c_str b -> hash a = hash b.
Proof. unfold hash. by intros ->. Qed.

(** A file in bucket [i] of the table [T] of names. *)
Definition filed (s : fhash) (T : gmap bytes Z) (i f : Z) : Prop :=
  exists r nm, files s !! f = Some r /\ fio_file_hashed r = true /\ fd r <> -1 /\
    file_name r = Some nm /\ hash nm = Some i /\ T !! c_str nm = Some f.

Definition is_bucket (base a : Z) : Prop := exists i, 0 <= i < HASH_BUCKETS /\ a = bucket_at base i.

(** The buckets [L] hold the files of the table [T], each in the bucket of its
    name. *)
Record tab_inv (s : fhash) (L : gmap Z (list Z)) (T : gmap bytes Z) : Prop := {
  ti_rep : rep (nodes s) L;
  ti_heads : forall a, is_Some (L !! a) <-> is_bucket (file_hash s) a;
  ti_in : forall i l f, L !! bucket_at (file_hash s) i = Some l -> f ∈ l -> filed s T i f;
  ti_all : forall nm f, T !! nm = Some f ->
    exists i l r n, hash n = Some i /\ nm = c_str n /\ files s !! f = Some r /\ file_name r = Some n /\
      fio_file_hashed r = true /\ L !! bucket_at (file_hash s) i = Some l /\ f ∈ l;
  ti_hashed : forall f r, files s !! f = Some r -> fio_file_hashed r = true ->
    exists nm, file_name r = Some nm /\ T !! c_str nm = Some f;
  ti_files : forall f r, files s !! f = Some r ->
    f <> 0 /\ is_Some (nodes s !! f) /\ ~ is_bucket (file_hash s) f /\
    match file_name r with Some nm => short_name nm | None => True end
}.

(** The file a name stands for, 0 for none. *)
Definition found (T : gmap bytes Z) (nm : bytes) : Z := default 0 (T !! c_str nm).

Lemma on_list_run {A} (m : M (gmap Z flist_head) A) s a h :
  m (nodes s) = Ret a h -> on_list m s = Ret a (set_nodes h s).
Proof. intros E. unfold on_list, zoom. by rewrite E. Qed.

Lemma set_nodes_id s : set_nodes (nodes s) s = s.
Proof. by destruct s. Qed.
Lemma on_list_read {A} (m : M (gmap Z flist_head) A) s a :
  m (nodes s) = Ret a (nodes s) -> on_list m s = Ret a s.
Proof. intros E. rewrite (on_list_run m s a _ E). by rewrite set_nodes_id. Qed.

(** The walk over a bucket finds the first entry with the name. *)
Lemma lookup_loop_run s bucket name l : forall fuel n,
  links (nodes s) (n :: tail (l ++ [bucket])) -> l ++ [bucket] = n :: tail (l ++ [bucket]) ->
  (forall f, f ∈ l -> f <> bucket /\ exists r nm, files s !! f = Some r /\ file_name r = Some nm /\ fd r <> -1) ->
  (length l < fuel)%nat ->
  exists p, lookup_loop fuel n bucket name s = Ret p s /\
    ((exists r nm, p ∈ l /\ files s !! p = Some r /\ file_name r = Some nm /\ c_str nm = c_str name) \/
     (p = 0 /\ forall f r nm, f ∈ l -> files s !! f = Some r -> file_name r = Some nm -> c_str nm <> c_str name)).
Proof.
  induction l as [|x l IH]; intros fuel n Hl E Hf Hfuel; (destruct fuel as [|fuel]; [simpl in Hfuel; lia|]).
  - simpl in E. injection E as <-. simpl. rewrite Z.eqb_refl. exists 0. split; [done|]. right. set_solver.
  - simpl in E, Hl. injection E as <-. destruct (Hf x ltac:(left)) as (Hne & r & nm & Hr & Hnm & Hfd).
    simpl. rewrite (proj2 (Z.eqb_neq _ _) Hne).
    assert (get_fh x s = Ret r s) as Eg by (unfold get_fh; by rewrite Hr).
    rewrite (bind_Ret _ _ _ _ _ Eg). rewrite Hnm.
    destruct (bool_decide_reflect (c_str nm = c_str name)) as [Eq|Eq].
    + unfold assert_fh. rewrite (proj2 (Z.eqb_neq _ _) Hfd). exists x. split; [done|]. left.
      exists r, nm. split_and!; try done. left.
    + destruct (hd_snoc bucket l) as (y & B & EB). rewrite EB in Hl.
      destruct Hl as [[Hnx _] Hl]. rewrite (bind_Ret _ _ _ _ _ (on_list_read _ s y (next_run _ _ _ Hnx))).
      destruct (IH fuel y) as (p & Ep & Hp).
      { rewrite EB. simpl. exact Hl. } { by rewrite EB. } { intros f Hin. apply Hf. by right. } { simpl in Hfuel. lia. }
      exists p. split; [done|]. destruct Hp as [(r' & nm' & Hin & H)|[-> Hno]].
      * left. exists r', nm'. split; [by right|done].
      * right. split; [done|]. intros f r' nm' [->|Hin]%elem_of_cons Hr' Hnm'; [congruence|by eapply Hno].
Qed.

Lemma ring_length h hd l : ring h hd l -> (length l < size h)%nat.
Proof.
  intros H. pose proof (size_entries h (hd :: l) (rg_nodup _ _ _ H) (fun x => ring_some h hd l x H)).
  simpl in *. lia.
Qed.

Lemma bucket_inj base i j : bucket_at base i = bucket_at base j -> i = j.
Proof. unfold bucket_at. lia. Qed.

Lemma tab_bucket s L T i :
  tab_inv s L T -> 0 <= i < HASH_BUCKETS -> exists l, L !! bucket_at (file_hash s) i = Some l.
Proof. intros H Hi. by apply (ti_heads _ _ _ H); exists i. Qed.

Lemma tab_lookup s L T nm :
  tab_inv s L T -> short_name nm -> __lookup_file_hash nm s = Ret (found T nm) s.
Proof.
  intros H Hnm. destruct (hash_total nm Hnm) as (i & Hh & Hi).
  destruct (tab_bucket _ _ _ i H Hi) as [l Hl]. pose proof (rp_ring _ _ (ti_rep _ _ _ H) _ _ Hl) as Hr.
  unfold __lookup_file_hash. rewrite Hh. mstep. cbv beta. mstep. cbv beta zeta.
  erewrite bind_Ret by (apply on_list_read, next_run, (ring_next _ _ _ Hr)). 
  destruct (lookup_loop_run s (bucket_at (file_hash s) i) nm l (S (size (nodes s))) (List.hd (bucket_at (file_hash s) i) l))
    as (p & Ep & Hp).
  - pose proof (rg_links _ _ _ Hr) as Hk. simpl in Hk. destruct l as [|x l]; [exact I|]. by destruct Hk.
  - by destruct l.
  - intros f Hf. destruct (ti_in _ _ _ H i l f Hl Hf) as (r & n & Hfr & _ & Hfd & Hn & _). split; [|by eauto].
    intros ->. pose proof (rg_nodup _ _ _ Hr) as Hnd. apply NoDup_cons in Hnd as [? _]. done.
  - pose proof (ring_length _ _ _ Hr). lia.
  - rewrite Ep. f_equal. unfold found. destruct Hp as [(r & n & Hin & Hfr & Hn & Hc)|[-> Hno]].
    + destruct (ti_in _ _ _ H i l p Hl Hin) as (r' & n' & Hfr' & _ & _ & Hn' & _ & HT).
      assert (r' = r) as -> by congruence. assert (n' = n) as -> by congruence. rewrite <- Hc, HT. done.
    + destruct (T !! c_str nm) as [f|] eqn:ET; [|done]. exfalso.
      destruct (ti_all _ _ _ H _ _ ET) as (j & l' & r & n & Hj & Hc & Hfr & Hn & _ & Hl' & Hin).
      assert (j = i) as -> by (pose proof (hash_cstr n nm (eq_sym Hc)); congruence).
      assert (l' = l) as -> by congruence. by apply (Hno f r n).
Qed.

(** A file that is not hashed is in no bucket. *)
Lemma tab_unused s L T f r :
  tab_inv s L T -> files s !! f = Some r -> fio_file_hashed r = false -> unused L f.
Proof.
  intros H Hf Hh hd l Hl Hin. destruct (proj1 (ti_heads _ _ _ H hd) ltac:(by eexists)) as (i & Hi & ->).
  apply elem_of_cons in Hin as [->|Hin].
  - apply (ti_files _ _ _ H _ _ Hf). by exists i.
  - destruct (ti_in _ _ _ H i l f Hl Hin) as (r' & _ & Hr' & Hh' & _). congruence.
Qed.

(** The table depends on the nodes of its lists, and on the files. *)
Lemma tab_nodes s L T h f r :
  tab_inv s L T -> files s !! f = Some r -> fio_file_hashed r = false -> same_out [f] (nodes s) h ->
  is_Some (h !! f) -> tab_inv (set_nodes h s) L T.
Proof.
  intros H Hf Hh Hs Hn. pose proof (tab_unused _ _ _ _ _ H Hf Hh) as Hu. destruct H as [[R1 R2 R3] H2 H3 H4 H5 H6].
  constructor; try done.
  - constructor; try done. intros hd l Hl. apply (ring_frame (nodes s)); [|by apply R1]. intros x Hx. apply Hs.
    intros Hxf. apply list_elem_of_singleton in Hxf as ->. by apply (Hu hd l Hl).
  - intros g r' Hg. destruct (H6 g r' Hg) as (H0 & H1 & H7). split_and!; try done; try tauto. simpl.
    destruct (decide (g = f)) as [->|Hne]; [done|]. rewrite Hs; [done|]. set_solver.
Qed.

(** Only the hashed bit, the name and a descriptor that is not -1 matter. *)
Lemma tab_fds s L T f r d sd :
  tab_inv s L T -> files s !! f = Some r -> (fio_file_hashed r = true -> d <> -1) ->
  tab_inv (set_files (<[f := set_fds r d sd]> (files s)) s) L T.
Proof.
  intros [H1 H2 H3 H4 H5 H6] Hf Hd. constructor; try done; simpl.
  - intros i l g Hl Hg. destruct (H3 i l g Hl Hg) as (r' & nm & Hr & Hh & Hfd & Hn & Hi & HT).
    destruct (decide (g = f)) as [->|Hne].
    + assert (r' = r) as -> by congruence. exists (set_fds r d sd), nm. simpl. rewrite lookup_insert_eq.
      split_and!; try done. by apply Hd.
    + exists r', nm. simpl. by rewrite lookup_insert_ne.
  - intros nm g HT. destruct (H4 nm g HT) as (i & l & r' & n & Hi & Hc & Hr & Hn & Hh & Hl & Hin).
    destruct (decide (g = f)) as [->|Hne].
    + assert (r' = r) as -> by congruence. exists i, l, (set_fds r d sd), n. rewrite lookup_insert_eq. done.
    + exists i, l, r', n. by rewrite lookup_insert_ne.
  - intros g r' [[<- <-]|[Hne Hg]]%lookup_insert_Some Hh; [by apply (H5 f r)|by apply (H5 g)].
  - intros g r' [[<- <-]|[Hne Hg]]%lookup_insert_Some; [exact (H6 f r Hf)|by apply H6].
Qed.

(** A new file at the end of its bucket. *)
Lemma tab_added s L T f r nm i l h :
  tab_inv s L T -> files s !! f = Some r -> fio_file_hashed r = false -> fd r <> -1 -> file_name r = Some nm ->
  T !! c_str nm = None -> hash nm = Some i -> L !! bucket_at (file_hash s) i = Some l ->
  rep h (<[bucket_at (file_hash s) i := l ++ [f]]> L) -> (forall a, is_Some (nodes s !! a) -> is_Some (h !! a)) ->
  tab_inv (set_nodes h (set_files (<[f := fio_file_set_hashed r]> (files s)) s))
    (<[bucket_at (file_hash s) i := l ++ [f]]> L) (<[c_str nm := f]> T).
Proof.
  intros H Hf Hh Hfd Hnm HT Hi Hl Hrep Hsome. pose proof (tab_unused _ _ _ _ _ H Hf Hh) as Hu.
  destruct H as [H1 H2 H3 H4 H5 H6]. constructor; simpl; try done.
  - intros a. rewrite <- H2. destruct (decide (a = bucket_at (file_hash s) i)) as [->|Hne].
    + rewrite lookup_insert_eq, Hl. split; by eexists.
    + by rewrite lookup_insert_ne.
  - assert (forall j k g, L !! bucket_at (file_hash s) j = Some k -> g ∈ k ->
      filed (set_nodes h (set_files (<[f := fio_file_set_hashed r]> (files s)) s)) (<[c_str nm := f]> T) j g) as Hold.
    { intros j k g Hk Hg. destruct (H3 j k g Hk Hg) as (r' & n & Hr & Hh' & Hd & Hn & Hj & HTg).
      exists r', n. simpl. rewrite lookup_insert_ne by congruence. split_and!; try done.
      rewrite lookup_insert_ne; [done|]. congruence. }
    intros j k g [[Eb <-]|[Hne Hk]]%lookup_insert_Some Hg; [|by eapply Hold].
    apply bucket_inj in Eb as <-. apply elem_of_app in Hg as [Hg|Hg]; [by eapply Hold|].
    apply list_elem_of_singleton in Hg as ->.
    exists (fio_file_set_hashed r), nm. simpl. rewrite !lookup_insert_eq. split_and!; try done. apply hashed_set.
  - intros n g [[<- <-]|[Hne Hg]]%lookup_insert_Some.
    + exists i, (l ++ [f]), (fio_file_set_hashed r), nm. rewrite !lookup_insert_eq. split_and!; try done; [apply hashed_set|set_solver].
    + destruct (H4 n g Hg) as (j & k & r' & m & Hj & Hc & Hr & Hm & Hh' & Hk & Hin).
      assert (f <> g) by congruence. destruct (decide (j = i)) as [->|Hji].
      * exists i, (l ++ [f]), r', m. rewrite lookup_insert_eq, lookup_insert_ne by done. split_and!; try done. set_solver.
      * exists j, k, r', m. rewrite !lookup_insert_ne; [done|by intros ?%bucket_inj|done].
  - intros g r' [[<- <-]|[Hne Hg]]%lookup_insert_Some Hh'.
    + exists nm. by rewrite lookup_insert_eq.
    + destruct (H5 g r' Hg Hh') as (n & Hn & HTn). exists n. rewrite lookup_insert_ne; [done|]. congruence.
  - intros g r' [[<- <-]|[Hne Hg]]%lookup_insert_Some.
    + destruct (H6 f r Hf) as (? & ? & ? & ?). split_and!; try done. by apply Hsome.
    + destruct (H6 g r' Hg) as (? & ? & ? & ?). split_and!; try done. by apply Hsome.
Qed.

(** A file leaves its bucket. *)
Lemma tab_removed s L T f r nm i l1 l2 h :
  tab_inv s L T -> files s !! f = Some r -> fio_file_hashed r = true -> file_name r = Some nm ->
  T !! c_str nm = Some f -> hash nm = Some i -> L !! bucket_at (file_hash s) i = Some (l1 ++ f :: l2) ->
  rep h (<[bucket_at (file_hash s) i := l1 ++ l2]> L) ->
  unused (<[bucket_at (file_hash s) i := l1 ++ l2]> L) f ->
  (forall a, is_Some (nodes s !! a) -> is_Some (h !! a)) ->
  tab_inv (set_files (<[f := fio_file_clear_hashed r]> (files s)) (set_nodes h s))
    (<[bucket_at (file_hash s) i := l1 ++ l2]> L) (delete (c_str nm) T).
Proof.
  intros [H1 H2 H3 H4 H5 H6] Hf Hh Hnm HT Hi Hl Hrep Hun Hsome.
  set (hd := bucket_at (file_hash s) i) in *. set (L' := <[hd := l1 ++ l2]> L) in *.
  assert (forall j k, L' !! bucket_at (file_hash s) j = Some k -> (f ∉ k) /\ (forall g, g ∈ k ->
     exists k', L !! bucket_at (file_hash s) j = Some k' /\ g ∈ k')) as HL.
  { intros j k Hk. split; [intros Hin; apply (Hun _ _ Hk); by right|]. intros g Hg.
    apply lookup_insert_Some in Hk as [[Eb <-]|[Hne Hk]]; [|by eauto].
    rewrite <- Eb. exists (l1 ++ f :: l2). split; [done|]. set_solver. }
  constructor; simpl; try done.
  - intros a. rewrite <- H2. unfold L'. destruct (decide (a = hd)) as [->|Hne].
    + rewrite lookup_insert_eq, Hl. split; by eexists.
    + by rewrite lookup_insert_ne.
  - intros j k g Hk Hg. destruct (HL j k Hk) as [Hnf Hin]. destruct (Hin g Hg) as (k' & Hk' & Hg').
    assert (g <> f) by congruence.
    destruct (H3 j k' g Hk' Hg') as (r' & n & Hr & Hh' & Hd & Hn & Hj & HTg).
    exists r', n. simpl. rewrite lookup_insert_ne by done. split_and!; try done.
    rewrite lookup_delete_ne; [done|]. congruence.
  - intros n g [Hne Hg]%lookup_delete_Some.
    destruct (H4 n g Hg) as (j & k & r' & m & Hj & Hc & Hr & Hm & Hh' & Hk & Hin).
    assert (f <> g) as Hfg by congruence. destruct (decide (j = i)) as [->|Hji].
    + exists i, (l1 ++ l2), r', m. unfold L'. rewrite lookup_insert_eq, lookup_insert_ne by done.
      split_and!; try done. assert (k = l1 ++ f :: l2) as -> by (unfold hd in *; congruence). set_solver.
    + exists j, k, r', m. unfold L', hd. rewrite !lookup_insert_ne; [done|by intros ?%bucket_inj|done].
  - intros g r' [[<- <-]|[Hne Hg]]%lookup_insert_Some Hh'; [by rewrite hashed_clear in Hh'|].
    destruct (H5 g r' Hg Hh') as (n & Hn & HTn). exists n. rewrite lookup_delete_ne; [done|]. congruence.
  - intros g r' [[<- <-]|[Hne Hg]]%lookup_insert_Some.
    + destruct (H6 f r Hf) as (? & ? & ? & ?). split_and!; try done. by apply Hsome.
    + destruct (H6 g r' Hg) as (? & ? & ? & ?). split_and!; try done. by apply Hsome.
Qed.

(** An entry of a list is not empty as a head. *)
Lemma entry_not_empty h hd l1 f l2 : ring h hd (l1 ++ f :: l2) -> flist_empty f h = Ret false h.
Proof.
  intros H. destruct (snoc_inv hd l1) as (A & p & EA). destruct (hd_snoc hd l2) as (n & B & EB).
  destruct (ring_del h hd l1 l2 f A p n B H EA EB) as (_ & Hn & _).
  unfold flist_empty. rewrite (bind_Ret _ _ _ _ _ (next_run _ _ _ Hn)).
  destruct (Z.eqb_spec n f) as [->|]; [|done]. exfalso.
  pose proof (rg_nodup _ _ _ H) as Hnd. change (hd :: l1 ++ f :: l2) with ((hd :: l1) ++ f :: l2) in Hnd.
  apply NoDup_app in Hnd as (_ & Hd & Hnd2). apply NoDup_cons in Hnd2 as [Hnf _].
  assert (f ∈ l2 ++ [hd]) as Hin by (rewrite EB; left). apply elem_of_app in Hin as [?|Hin]; [done|].
  apply list_elem_of_singleton in Hin as ->. by apply (Hd hd); left.
Qed.

Lemma same_out_some D h h' :
  same_out D h h' -> (forall x, x ∈ D -> is_Some (h' !! x)) -> forall a, is_Some (h !! a) -> is_Some (h' !! a).
Proof.
  intros Hs HD a Ha. destruct (decide (a ∈ D)) as [Hin|Hin]; [by apply HD|]. by rewrite Hs.
Qed.

(** * The operations on the table *)

(** The state with other nodes and files, and the lock free. *)
Definition upd (h : gmap Z flist_head) (F : gmap Z fio_file) (s : fhash) : fhash :=
  mkFh h F (file_hash s) (Some true) (file_bloom s) (fn_nodes s) (fn_names s).

Lemma tab_same s s' L T :
  nodes s' = nodes s -> files s' = files s -> file_hash s' = file_hash s -> tab_inv s L T -> tab_inv s' L T.
Proof.
  intros En Ef Eb [H1 H2 H3 H4 H5 H6]. constructor; try (rewrite ?En, ?Ef, ?Eb; done).
  - rewrite Eb. intros i l f Hl Hf. destruct (H3 i l f Hl Hf) as (r & nm & H). exists r, nm. by rewrite Ef.
Qed.

(** The table without the file [f] of name [nm]. *)
Definition drop_file (T : gmap bytes Z) (nm : bytes) (f : Z) : gmap bytes Z :=
  if decide (T !! nm = Some f) then delete nm T else T.

Lemma lock_run s : hash_lock s = Some true -> fio_mutex_down_hash s = Ret tt (set_lock (Some false) s).
Proof. intros E. unfold fio_mutex_down_hash. by rewrite E. Qed.

Lemma get_fh_run s f r : files s !! f = Some r -> get_fh f s = Ret r s.
Proof. intros E. unfold get_fh. by rewrite E. Qed.

Lemma remove_run s L T f r nm :
  tab_inv s L T -> hash_lock s = Some true -> files s !! f = Some r -> file_name r = Some nm ->
  exists L' h fl, let r' := mkFile (Some nm) (fd r) (shadow_fd r) fl in
    remove_file_hash f s = Ret tt (upd h (<[f := r']> (files s)) s) /\
    tab_inv (upd h (<[f := r']> (files s)) s) L' (drop_file T (c_str nm) f) /\ fio_file_hashed r' = false.
Proof.
  intros H Hlk Hf Hnm. unfold remove_file_hash. rewrite (bind_Ret _ _ _ _ _ (lock_run s Hlk)). cbv beta.
  set (s1 := set_lock (Some false) s). rewrite (bind_Ret _ _ _ _ _ (get_fh_run s1 f r Hf)). cbv beta.
  destruct (fio_file_hashed r) eqn:Hh.
  - destruct (ti_hashed _ _ _ H f r Hf Hh) as (n & Hn & HT). assert (n = nm) as -> by congruence.
    destruct (ti_all _ _ _ H _ _ HT) as (i & l & r' & n & Hi & Hc & Hr & Hn' & _ & Hl & Hin).
    assert (r' = r) as -> by congruence. assert (n = nm) as -> by congruence.
    apply list_elem_of_split in Hin as (l1 & l2 & ->).
    pose proof (rp_ring _ _ (ti_rep _ _ _ H) _ _ Hl) as Hring.
    destruct (flist_del_init_run _ _ _ _ _ Hring) as (h & Eh & Rh & Hx & Sh).
    destruct (rep_unlinked _ _ _ _ _ _ _ (ti_rep _ _ _ H) Hl Rh Sh) as [Hrep Hun].
    assert (forall a, is_Some (nodes s !! a) -> is_Some (h !! a)) as Hsome.
    { apply (same_out_some _ _ _ Sh). intros x Hxin. destruct (decide (x = f)) as [->|Hne]; [by eexists|].
      apply (ring_some _ _ _ x Rh). set_solver. }
    exists (<[bucket_at (file_hash s) i := l1 ++ l2]> L), h, (flags (fio_file_clear_hashed r)). cbv zeta.
    rewrite <- Hnm. change (mkFile (file_name r) (fd r) (shadow_fd r) (flags (fio_file_clear_hashed r))) with (fio_file_clear_hashed r).
    split_and!; [| |apply hashed_clear].
    + rewrite (bind_Ret _ _ s1 tt (set_files (<[f := fio_file_clear_hashed r]> (files s)) (set_nodes h s1))); [reflexivity|].
      erewrite bind_Ret by (apply on_list_read, (entry_not_empty _ _ _ _ _ Hring)). cbv beta. cbn [negb assert_fh].
      erewrite bind_Ret by reflexivity. cbv beta.
      erewrite bind_Ret by (apply on_list_run; exact Eh). reflexivity.
    + unfold drop_file. rewrite decide_True by done.
      eapply tab_same; [..|eapply (tab_removed s L T f r nm i l1 l2 h)]; try done.
  - exists L, (nodes s), (flags r). cbv zeta. rewrite <- Hnm.
    replace (mkFile (file_name r) (fd r) (shadow_fd r) (flags r)) with r by (by destruct r).
    split_and!; [| |done].
    + unfold upd. rewrite insert_id by done. by erewrite bind_Ret by reflexivity.
    + unfold drop_file. rewrite decide_False.
      * eapply tab_same; [..|exact H]; try done. simpl. by rewrite insert_id.
      * intros HT. destruct (ti_all _ _ _ H _ _ HT) as (_ & _ & r' & _ & _ & _ & Hr & _ & Hh' & _). congruence.
Qed.

Lemma lookup_run s L T nm :
  tab_inv s L T -> hash_lock s = Some true -> short_name nm -> lookup_file_hash nm s = Ret (found T nm) s.
Proof.
  intros H Hlk Hn. unfold lookup_file_hash. rewrite (bind_Ret _ _ _ _ _ (lock_run s Hlk)). cbv beta.
  erewrite bind_Ret by (apply (tab_lookup _ L T); [by apply (tab_same s)|done]). cbv beta.
  erewrite bind_Ret by reflexivity. destruct s; simpl in *; by subst.
Qed.

Lemma found_zero s L T nm : tab_inv s L T -> found T nm = 0 <-> T !! c_str nm = None.
Proof.
  intros H. unfold found. destruct (T !! c_str nm) as [f|] eqn:E; [|done]. simpl. split; [|done]. intros ->.
  destruct (ti_all _ _ _ H _ _ E) as (_ & _ & r & _ & _ & _ & Hr & _). by destruct (ti_files _ _ _ H _ _ Hr).
Qed.

Lemma add_hash_run s L T f r nm :
  tab_inv s L T -> hash_lock s = Some true -> files s !! f = Some r -> file_name r = Some nm -> fd r <> -1 ->
  let g := found T nm in
  exists L' h F, add_file_hash f s = Ret (if g =? f then 0 else g) (upd h F s) /\
    tab_inv (upd h F s) L' (if g =? 0 then <[c_str nm := f]> T else T) /\
    (forall x, x <> f -> F !! x = files s !! x) /\
    exists fl, F !! f = Some (mkFile (Some nm) (fd r) (shadow_fd r) fl).
Proof.
  intros H Hlk Hf Hnm Hfd g. unfold add_file_hash.
  rewrite (bind_Ret _ _ _ _ _ (get_fh_run s f r Hf)). cbv beta.
  assert (short_name nm) as Hsh.
  { destruct (ti_files _ _ _ H f r Hf) as (_ & _ & _ & Hs). by rewrite Hnm in Hs. }
  destruct (ti_files _ _ _ H f r Hf) as (Hf0 & Hfn & Hfb & _).
  destruct (fio_file_hashed r) eqn:Hh.
  - destruct (ti_hashed _ _ _ H f r Hf Hh) as (n & Hn & HT). assert (n = nm) as -> by congruence.
    assert (g = f) as -> by (unfold g, found; by rewrite HT). rewrite Z.eqb_refl, (proj2 (Z.eqb_neq _ _) Hf0).
    exists L, (nodes s), (files s). split_and!; try done.
    + unfold upd. by destruct s; simpl in *; subst.
    + by apply (tab_same s).
    + exists (flags r). rewrite Hf, <- Hnm. by destruct r.
  - destruct (init_run (nodes s) f Hfn) as (h0 & E0 & R0 & S0).
    erewrite bind_Ret by (apply on_list_run; exact E0). cbv beta.
    erewrite bind_Ret by (apply lock_run; exact Hlk). cbv beta.
    set (s1 := set_lock (Some false) (set_nodes h0 s)). rewrite Hnm. erewrite bind_Ret by reflexivity. cbv beta.
    assert (is_Some (h0 !! f)) as Hf1 by (apply (ring_some h0 f [] f R0); left).
    assert (tab_inv s1 L T) as H1 by (eapply tab_same; [..|by eapply (tab_nodes s L T h0 f r)]; done).
    erewrite bind_Ret by (by apply (tab_lookup _ L T)). cbv beta. fold g.
    assert (g <> f) as Hgf.
    { unfold g, found. destruct (T !! c_str nm) as [x|] eqn:E; simpl; [|done]. intros ->.
      destruct (ti_all _ _ _ H _ _ E) as (_ & _ & r' & _ & _ & _ & Hr & _ & Hh' & _). congruence. }
    rewrite (proj2 (Z.eqb_neq _ _) Hgf). destruct (Z.eqb_spec g 0) as [Eg|Eg].
    + assert (T !! c_str nm = None) as HT by by apply (found_zero s L T nm H).
      destruct (hash_total nm Hsh) as (i & Hi & Hib). destruct (tab_bucket _ _ _ i H1 Hib) as [l Hl].
      pose proof (tab_unused s1 L T f r H1 Hf Hh) as Hu.
      destruct (flist_add_tail_run h0 (bucket_at (file_hash s) i) l f (rp_ring _ _ (ti_rep _ _ _ H1) _ _ Hl) Hf1 (Hu _ _ Hl))
        as (h & E & R & S).
      exists (<[bucket_at (file_hash s) i := l ++ [f]]> L), h, (<[f := fio_file_set_hashed r]> (files s)).
      split_and!.
      * rewrite (bind_Ret _ _ s1 tt (set_nodes h (set_files (<[f := fio_file_set_hashed r]> (files s)) s1))); [reflexivity|].
        erewrite bind_Ret by reflexivity. cbv beta. rewrite Hi.
        erewrite bind_Ret by reflexivity. cbv beta. erewrite bind_Ret by reflexivity. cbv beta.
        apply on_list_run. exact E.
      * eapply tab_same; [..|eapply (tab_added s1 L T f r nm i l h)]; try done.
        -- apply (rep_one h0 h L _ l _ (f :: bucket_at (file_hash s) i :: l) (ti_rep _ _ _ H1) R S); [by left| |].
           ++ intros x Hx. destruct (decide (x = f)) as [->|]; [by right|left; set_solver].
           ++ intros x Hx. destruct (decide (x = f)) as [->|]; [done|].
              apply (rp_null _ _ (ti_rep _ _ _ H1) _ _ x Hl). set_solver.
        -- apply (same_out_some _ _ _ S). intros x Hx. apply (ring_some _ _ _ x R). set_solver.
      * intros x Hx. by rewrite lookup_insert_ne.
      * exists (flags (fio_file_set_hashed r)). rewrite lookup_insert_eq. unfold fio_file_set_hashed. by rewrite Hnm.
    + exists L, h0, (files s). split_and!; try done.
      * by apply (tab_same s1).
      * exists (flags r). rewrite Hf, <- Hnm. by destruct r.
Qed.

(** * The registry of names *)

(** The list holds the names [A] in order, and the filter has seen them all. *)
Record reg_core (s : fhash) (l : list Z) (A : list bytes) : Prop := {
  rc_ring : ring (fn_nodes s) filename_list l;
  rc_names : Forall2 (fun x nm => fn_names s !! x = Some nm) l A;
  rc_cstr : forall nm, nm ∈ A -> c_str nm = nm;
  rc_bloom : exists b ds, file_bloom s = Some b /\ bloom_inv BLOOM_SIZE b ds /\ forall nm, nm ∈ A -> nm ∈ ds
}.

(** Each name is there once, and nothing else is allocated. *)
Record reg_inv (s : fhash) (l : list Z) (A : list bytes) : Prop := {
  ri_core : reg_core s l A;
  ri_nodup : NoDup A;
  ri_nodes : forall x, is_Some (fn_nodes s !! x) <-> x ∈ filename_list :: l;
  ri_alloc : forall x, is_Some (fn_names s !! x) <-> x ∈ l
}.

Lemma c_str_twice nm : c_str (c_str nm) = c_str nm.
Proof. apply c_str_id, c_str_no_nul. Qed.

Lemma on_names_run {A} (m : M (gmap Z flist_head) A) s a h :
  m (fn_nodes s) = Ret a h -> on_names m s = Ret a (set_fn_nodes h s).
Proof. intros E. unfold on_names, zoom. by rewrite E. Qed.
Lemma on_names_read {A} (m : M (gmap Z flist_head) A) s a :
  m (fn_nodes s) = Ret a (fn_nodes s) -> on_names m s = Ret a s.
Proof. intros E. rewrite (on_names_run m s a _ E). by destruct s. Qed.

(** What the filter answers, and its new state. *)
Lemma bloom_exists_run s l A nm set :
  reg_core s l A -> short_name nm ->
  exists r b ds, file_bloom_exists nm set s = Ret r (set_bloom (Some b) s) /\ bloom_inv BLOOM_SIZE b ds /\
    (forall n, n ∈ A -> n ∈ ds) /\ (set = true -> c_str nm ∈ ds) /\ (c_str nm ∈ A -> r = true) /\
    (set = false -> set_bloom (Some b) s = s).
Proof.
  intros H Hs. destruct (rc_bloom _ _ _ H) as (b & ds & Hb & Hinv & Hds).
  destruct (bloom_check_run BLOOM_SIZE b ds (c_str nm) ltac:(done) Hinv Hs) as (r & b' & E1 & E2 & Hinv' & Hr).
  unfold file_bloom_exists. erewrite bind_Ret by reflexivity. cbv beta. rewrite Hb.
  erewrite bind_Ret by reflexivity. cbv beta. unfold bloom_string. destruct set.
  - rewrite E2. exists r, b', (c_str nm :: ds). split_and!; try done; set_solver.
  - rewrite E1. exists r, b, ds. split_and!; try done; [intros Hin; by apply Hr, Hds|].
    intros _. destruct s; simpl in *; by subst.
Qed.

Lemma allocated_loop_run s fname l A : forall fuel n,
  links (fn_nodes s) (n :: tail (l ++ [filename_list])) -> l ++ [filename_list] = n :: tail (l ++ [filename_list]) ->
  filename_list ∉ l -> Forall2 (fun x nm => fn_names s !! x = Some nm) l A -> (forall nm, nm ∈ A -> c_str nm = nm) ->
  (length l < fuel)%nat ->
  allocated_loop fuel n fname s = Ret (bool_decide (c_str fname ∈ A)) s.
Proof.
  intros fuel n Hl E Hnf HF. revert fuel n Hl E Hnf. induction HF as [|x nm l A Hx HF IH];
    intros fuel n Hl E Hnf HA Hfuel; (destruct fuel as [|fuel]; [simpl in Hfuel; lia|]).
  - simpl in E. injection E as <-. simpl. done.
  - simpl in E, Hl. injection E as <-. cbn [allocated_loop].
    rewrite (proj2 (Z.eqb_neq x filename_list)) by set_solver.
    erewrite bind_Ret by reflexivity. cbv beta. rewrite Hx. erewrite bind_Ret by reflexivity. cbv beta.
    rewrite (HA nm) by left.
    destruct (bool_decide_reflect (nm = c_str fname)) as [Eq|Eq].
    + rewrite bool_decide_true by (rewrite Eq; left). done.
    + destruct (hd_snoc filename_list l) as (y & B & EB). rewrite EB in Hl. destruct Hl as [[Hnx _] Hl].
      rewrite (bind_Ret _ _ _ _ _ (on_names_read _ s y (next_run _ _ _ Hnx))). rewrite (IH fuel y).
      * f_equal. apply bool_decide_ext. set_solver.
      * rewrite EB. exact Hl.
      * by rewrite EB.
      * set_solver.
      * set_solver.
      * simpl in Hfuel. lia.
Qed.

Lemma allocated_run s l A nm set :
  reg_core s l A -> short_name nm ->
  exists b ds, __is_already_allocated nm set s = Ret (bool_decide (c_str nm ∈ A)) (set_bloom (Some b) s) /\
    bloom_inv BLOOM_SIZE b ds /\ (forall n, n ∈ A -> n ∈ ds) /\ (set = true -> c_str nm ∈ ds) /\
    (set = false -> set_bloom (Some b) s = s).
Proof.
  intros H Hs. destruct (bloom_exists_run s l A nm set H Hs) as (r & b & ds & E & Hinv & Hds & Hset & Hr & Hid).
  exists b, ds. split; [|done]. unfold __is_already_allocated. rewrite (bind_Ret _ _ _ _ _ E). cbv beta.
  destruct r; cbn [negb].
  - pose proof (rc_ring _ _ _ H) as Hring. pose proof Hring as [Hnd Hk].
    erewrite bind_Ret by (apply on_names_read, next_run, (ring_next _ _ _ Hring)). cbv beta.
    erewrite bind_Ret by reflexivity. cbv beta.
    apply (allocated_loop_run (set_bloom (Some b) s) nm l A).
    + simpl in Hk. destruct l as [|x l']; [exact I|]. by destruct Hk.
    + by destruct l.
    + by apply NoDup_cons in Hnd as [? _].
    + apply H.
    + apply H.
    + pose proof (ring_length _ _ _ Hring). simpl. lia.
  - rewrite bool_decide_false; [done|]. intros Hin. by specialize (Hr Hin).
Qed.

Lemma hash_lock_run s : hash_lock s = Some true -> fio_file_hash_lock s = Ret tt (set_lock (Some false) s).
Proof. intros E. unfold fio_file_hash_lock. erewrite bind_Ret by reflexivity. rewrite E. by apply lock_run. Qed.

Lemma hash_unlock_run s b : hash_lock s = Some b -> fio_file_hash_unlock s = Ret tt (set_lock (Some true) s).
Proof.
  intros E. unfold fio_file_hash_unlock. erewrite bind_Ret by reflexivity. rewrite E.
  unfold fio_mutex_up_hash. by rewrite E.
Qed.

Lemma reg_same s s' l A :
  fn_nodes s' = fn_nodes s -> fn_names s' = fn_names s -> file_bloom s' = file_bloom s -> reg_inv s l A -> reg_inv s' l A.
Proof. intros E1 E2 E3 [[H1 H2 H3 H4] H5 H6 H7]. repeat (constructor; try (by rewrite ?E1, ?E2, ?E3)). Qed.

Lemma is_allocated_run s l A nm :
  reg_inv s l A -> hash_lock s = Some true -> short_name nm ->
  is_already_allocated nm s = Ret (bool_decide (c_str nm ∈ A)) s.
Proof.
  intros H Hlk Hs. unfold is_already_allocated. rewrite (bind_Ret _ _ _ _ _ (hash_lock_run s Hlk)). cbv beta.
  set (s1 := set_lock (Some false) s). assert (reg_inv s1 l A) as H1 by by apply (reg_same s).
  destruct (allocated_run s1 l A nm false (ri_core _ _ _ H1) Hs) as (b & ds & E & _ & _ & _ & Hid).
  rewrite (Hid eq_refl) in E. rewrite (bind_Ret _ _ _ _ _ E). cbv beta.
  rewrite (bind_Ret _ _ _ _ _ (hash_unlock_run s1 false eq_refl)). destruct s; simpl in *; by subst.
Qed.

(** The state with another registry, and the lock free. *)
Definition updr (h : gmap Z flist_head) (N : gmap Z bytes) (b : option bloom) (s : fhash) : fhash :=
  mkFh (nodes s) (files s) (file_hash s) (Some true) b h N.

Definition add_name (A : list bytes) (nm : bytes) : list bytes := if decide (nm ∈ A) then A else A ++ [nm].

(** A bigger registry: a node at the end, with a name it did not have. *)
Lemma reg_added s l A fn nm b ds h :
  reg_inv s l A -> fn ∉ filename_list :: l -> nm ∉ A -> c_str nm = nm ->
  ring h filename_list (l ++ [fn]) -> same_out (fn :: filename_list :: l) (<[fn := mkFl 0 0]> (fn_nodes s)) h ->
  bloom_inv BLOOM_SIZE b ds -> (forall n, n ∈ A ++ [nm] -> n ∈ ds) ->
  reg_inv (updr h (<[fn := nm]> (fn_names s)) (Some b) s) (l ++ [fn]) (A ++ [nm]).
Proof.
  intros [[H1 H2 H4 H7] H3 H5 H6] Hnf Hnm Hc Hr HS Hb Hds.
  constructor; [constructor| | |]; simpl; try done.
  - apply Forall2_app; [|by repeat constructor; rewrite lookup_insert_eq].
    apply Forall2_same_length_lookup_2; [by eapply Forall2_length|]. intros i x y Hi Hy.
    rewrite lookup_insert_ne; [by apply (Forall2_lookup_lr _ _ _ _ _ _ H2 Hi Hy)|]. intros ->.
    apply Hnf. right. by eapply list_elem_of_lookup_2.
  - set_solver.
  - by exists b, ds.
  - apply NoDup_app. split_and!; [done|set_solver|apply NoDup_singleton].
  - intros x. split.
    + intros Hx. destruct (decide (x ∈ filename_list :: l ++ [fn])) as [|Hne]; [done|]. exfalso.
      rewrite HS in Hx by set_solver. rewrite lookup_insert_ne in Hx by set_solver. apply H5 in Hx. set_solver.
    + intros Hx. by apply (ring_some _ _ _ x Hr).
  - intros x. destruct (decide (x = fn)) as [->|Hne].
    + rewrite lookup_insert_eq. split; [set_solver|by eexists].
    + rewrite lookup_insert_ne, H6 by done. set_solver.
Qed.

Lemma reg_bloom s l A b ds :
  reg_inv s l A -> bloom_inv BLOOM_SIZE b ds -> (forall n, n ∈ A -> n ∈ ds) ->
  reg_inv (updr (fn_nodes s) (fn_names s) (Some b) s) l A.
Proof. intros [[H1 H2 H4 H7] H3 H5 H6] Hb Hds. constructor; [constructor|..]; try done. by exists b, ds. Qed.

(** A node outside the list says nothing of it. *)
Lemma reg_core_frame s l A fn nd nm :
  reg_core s l A -> fn ∉ filename_list :: l ->
  reg_core (set_fn_names (<[fn := nm]> (fn_names s)) (set_fn_nodes (<[fn := nd]> (fn_nodes s)) s)) l A.
Proof.
  intros [H1 H2 H3 H4] Hn. constructor; simpl; try done.
  - apply (ring_frame (fn_nodes s)); [|done]. intros x Hx. rewrite lookup_insert_ne; [done|]. by intros ->.
  - apply Forall2_same_length_lookup_2; [by eapply Forall2_length|]. intros i x y Hi Hy.
    rewrite lookup_insert_ne; [by apply (Forall2_lookup_lr _ _ _ _ _ _ H2 Hi Hy)|]. intros ->.
    apply Hn. right. by eapply list_elem_of_lookup_2.
Qed.

Lemma delete_fresh {V} (m : gmap Z V) k v : m !! k = None -> delete k (<[k := v]> m) = m.
Proof. intros E. by rewrite delete_insert_eq, delete_id. Qed.

Lemma set_allocated_run s l A nm fn :
  reg_inv s l A -> hash_lock s = Some true -> short_name nm -> fn ∉ filename_list :: l ->
  exists h N b l', set_already_allocated nm fn s = Ret tt (updr h N b s) /\
    reg_inv (updr h N b s) l' (add_name A (c_str nm)).
Proof.
  intros H Hlk Hs Hfn. unfold set_already_allocated. erewrite bind_Ret by reflexivity. cbv beta.
  erewrite bind_Ret by (apply hash_lock_run; exact Hlk). cbv beta.
  set (s1 := set_lock (Some false) _).
  assert (reg_core s1 l A) as H1.
  { destruct (reg_core_frame s l A fn (mkFl 0 0) (c_str nm) (ri_core _ _ _ H) Hfn). by constructor. }
  destruct (allocated_run s1 l A nm true H1 Hs) as (b & ds & E & Hb & Hds & Hin & _).
  rewrite (bind_Ret _ _ _ _ _ E). cbv beta. unfold add_name.
  assert (fn_nodes s !! fn = None) as Hn1.
  { apply eq_None_not_Some. by rewrite (ri_nodes _ _ _ H). }
  assert (fn_names s !! fn = None) as Hn2.
  { apply eq_None_not_Some. rewrite (ri_alloc _ _ _ H). set_solver. }
  destruct (decide (c_str nm ∈ A)) as [Hin'|Hin'].
  - rewrite bool_decide_true by done. exists (fn_nodes s), (fn_names s), (Some b), l.
    erewrite bind_Ret by reflexivity. cbv beta.
    erewrite bind_Ret by (apply (hash_unlock_run _ false); reflexivity). cbv beta. split; [|by eapply reg_bloom].
    unfold modify. simpl. rewrite !delete_fresh by done. done.
  - rewrite bool_decide_false by done.
    destruct (flist_add_tail_run (fn_nodes s1) filename_list l fn (rc_ring _ _ _ H1)) as (h & Eh & R & S).
    { simpl. rewrite lookup_insert_eq. by eexists. } { done. }
    exists h, (<[fn := c_str nm]> (fn_names s)), (Some b), (l ++ [fn]). split.
    + rewrite (bind_Ret _ _ _ tt (set_fn_nodes h (set_bloom (Some b) s1))) by (apply on_names_run; exact Eh). cbv beta.
      erewrite bind_Ret by (apply (hash_unlock_run _ false); reflexivity). done.
    + apply (reg_added s l A fn (c_str nm) b ds h); try done; [apply c_str_twice|].
      intros n [?|Hn]%elem_of_app; [by apply Hds|]. apply list_elem_of_singleton in Hn as ->. by apply Hin.
Qed.

(** The loop that empties the list frees every node and name of it. *)
Lemma free_loop_run l : forall fuel s,
  ring (fn_nodes s) filename_list l -> (length l < fuel)%nat ->
  (forall x, is_Some (fn_nodes s !! x) <-> x ∈ filename_list :: l) -> (forall x, is_Some (fn_names s !! x) <-> x ∈ l) ->
  exists h N, free_loop fuel (List.hd filename_list l) s = Ret tt (set_fn_names N (set_fn_nodes h s)) /\
    ring h filename_list [] /\ (forall x, is_Some (h !! x) <-> x = filename_list) /\ (forall x, N !! x = None).
Proof.
  induction l as [|x l IH]; intros fuel s Hr Hfuel Hn Ha; (destruct fuel as [|fuel]; [simpl in Hfuel; lia|]); cbn [List.hd].
  - exists (fn_nodes s), (fn_names s). split; [by destruct s|]. split_and!; try done.
    + intros x. rewrite Hn. set_solver.
    + intros x. apply eq_None_not_Some. rewrite Ha. set_solver.
  - pose proof (rg_nodup _ _ _ Hr) as Hnd. cbn [free_loop].
    assert (x <> filename_list) as Hx by (apply NoDup_cons in Hnd as [? _]; set_solver).
    rewrite (proj2 (Z.eqb_neq _ _) Hx).
    destruct (ring_del (fn_nodes s) filename_list [] l x [] filename_list (List.hd filename_list l) (tail (l ++ [filename_list])))
      as (_ & Hnx & _); [done|done|by destruct l|].
    erewrite bind_Ret by (apply on_names_read, next_run, Hnx). cbv beta.
    destruct (flist_del_run _ _ [] l x Hr) as (h & Eh & Rh & _ & Sh).
    erewrite bind_Ret by (apply on_names_run; exact Eh). cbv beta. erewrite bind_Ret by reflexivity. cbv beta.
    edestruct (IH fuel) as (h' & N' & E & R' & D' & A'); cycle 4.
    + exists h', N'. split; [|done]. etrans; [exact E|]. done.
    + simpl. apply (ring_frame h); [|done]. intros y Hy. rewrite lookup_delete_ne; [done|]. intros ->.
      apply NoDup_cons in Hnd as [_ Hnd]. apply NoDup_cons in Hnd as [Hnd _]. set_solver.
    + simpl in Hfuel. lia.
    + intros y. simpl. destruct (decide (y = x)) as [->|Hy].
      { rewrite lookup_delete_eq. split; [by intros []|]. intros Hin. exfalso.
        apply NoDup_cons in Hnd as [? Hnd]. apply NoDup_cons in Hnd as [Hnd _]. set_solver. }
      rewrite lookup_delete_ne by done. split.
      * intros Hsm. destruct (decide (y ∈ filename_list :: [] ++ x :: l)) as [Hin|Hin]; [set_solver|].
        rewrite Sh in Hsm by done. apply Hn in Hsm. set_solver.
      * intros Hin. by apply (ring_some _ _ _ y Rh).
    + intros y. simpl. destruct (decide (y = x)) as [->|Hy].
      { rewrite lookup_delete_eq. split; [by intros []|]. intros Hin. exfalso.
        apply NoDup_cons in Hnd as [_ Hnd]. apply NoDup_cons in Hnd as [Hnd _]. done. }
      rewrite lookup_delete_ne, Ha by done. set_solver.
Qed.

Lemma free_allocated_run s l A :
  reg_inv s l A -> hash_lock s = Some true ->
  exists h N, free_already_allocated s = Ret tt (updr h N (file_bloom s) s) /\
    reg_inv (updr h N (file_bloom s) s) [] [].
Proof.
  intros H Hlk. pose proof (rc_ring _ _ _ (ri_core _ _ _ H)) as Hr. unfold free_already_allocated.
  erewrite bind_Ret by (apply on_names_read, (empty_run _ _ _ Hr)). cbv beta.
  destruct (rc_bloom _ _ _ (ri_core _ _ _ H)) as (b & ds & Hb & Hbi & _).
  destruct (bool_decide_reflect (l = [])) as [->|Hne].
  - exists (fn_nodes s), (fn_names s). split; [destruct s; simpl in *; by subst|].
    assert (A = []) as -> by (pose proof (rc_names _ _ _ (ri_core _ _ _ H)) as HF; by inversion HF).
    by apply (reg_same s).
  - erewrite bind_Ret by (apply hash_lock_run; exact Hlk). cbv beta.
    erewrite bind_Ret by (apply on_names_read, next_run, (ring_next _ _ _ Hr)). cbv beta.
    erewrite bind_Ret by reflexivity. cbv beta.
    destruct (free_loop_run l (S (size (fn_nodes s))) (set_lock (Some false) s)) as (h & N & E & R & D & HN).
    { done. } { pose proof (ring_length _ _ _ Hr). lia. } { apply H. } { apply H. }
    simpl in E. exists h, N. split.
    + erewrite bind_Ret by exact E. cbv beta. erewrite (hash_unlock_run _ false) by reflexivity. done.
    + constructor; [constructor|..]; simpl; try done; try (by constructor); try set_solver.
      intros x. rewrite HN. split; [by intros []|set_solver].
Qed.

(** * Runs *)

Inductive fop : Type :=
  | ONew (f : Z) (name : bytes) | OFree (f : Z)
  | OAdd (f : Z) | ORemove (f : Z) | OLookup (name : bytes)
  | OOpen (f newfd : Z) | OClose (f err : Z)
  | OIsAlloc (name : bytes) | OSetAlloc (name : bytes) (fn : Z) | OFreeAlloc.

Definition fexec (o : fop) : M fhash Z :=
  match o with
  | ONew f name => alloc_new_file f name;; mret 0
  | OFree f => free_file f;; mret 0
  | OAdd f => add_file_hash f
  | ORemove f => remove_file_hash f;; mret 0
  | OLookup name => lookup_file_hash name
  | OOpen f newfd => b ← file_lookup_open f newfd; mret (Z.b2z b)
  | OClose f err => generic_close_file f err
  | OIsAlloc name => b ← is_already_allocated name; mret (Z.b2z b)
  | OSetAlloc name fn => set_already_allocated name fn;; mret 0
  | OFreeAlloc => free_already_allocated;; mret 0
  end.

(** The specification: the name of each file, the open file of each name, and
    the names registered. *)
Record fspec : Type := mkSpec { sp_name : gmap Z bytes; sp_open : gmap bytes Z; sp_reg : list bytes }.

Definition sp_drop (f : Z) (a : fspec) : gmap bytes Z :=
  match sp_name a !! f with Some nm => drop_file (sp_open a) nm f | None => sp_open a end.

Definition fstep (o : fop) (a : fspec) : Z * fspec :=
  match o with
  | ONew f name => (0, mkSpec (<[f := c_str name]> (sp_name a)) (sp_open a) (sp_reg a))
  | OFree f => (0, mkSpec (delete f (sp_name a)) (sp_drop f a) (sp_reg a))
  | OAdd f =>
      let nm := default [] (sp_name a !! f) in
      match sp_open a !! nm with
      | Some g => (if g =? f then 0 else g, a)
      | None => (0, mkSpec (sp_name a) (<[nm := f]> (sp_open a)) (sp_reg a))
      end
  | ORemove f => (0, mkSpec (sp_name a) (sp_drop f a) (sp_reg a))
  | OLookup name => (default 0 (sp_open a !! c_str name), a)
  | OOpen f _ => (Z.b2z (bool_decide (is_Some (sp_open a !! default [] (sp_name a !! f)))), a)
  | OClose f err => (err, mkSpec (sp_name a) (sp_drop f a) (sp_reg a))
  | OIsAlloc name => (Z.b2z (bool_decide (c_str name ∈ sp_reg a)), a)
  | OSetAlloc name _ => (0, mkSpec (sp_name a) (sp_open a) (add_name (sp_reg a) (c_str name)))
  | OFreeAlloc => (0, mkSpec (sp_name a) (sp_open a) [])
  end.

Definition names_agree (F : gmap Z fio_file) (N : gmap Z bytes) : Prop := forall f,
  match F !! f with
  | Some r => exists nm, file_name r = Some nm /\ c_str nm = nm /\ N !! f = Some nm
  | None => N !! f = None
  end.

Definition fsim (s : fhash) (a : fspec) : Prop :=
  exists L l, tab_inv s L (sp_open a) /\ reg_inv s l (sp_reg a) /\ hash_lock s = Some true /\
    names_agree (files s) (sp_name a).

(** When an operation may be called: memory that is new, names that fit, files
    that exist; only an open file is hashed, and it keeps a descriptor. *)
Definition flegal (o : fop) (s : fhash) : Prop :=
  match o with
  | ONew f name => f <> 0 /\ nodes s !! f = None /\ short_name name
  | OFree f | ORemove f | OClose f _ => is_Some (files s !! f)
  | OAdd f => exists r, files s !! f = Some r /\ fd r <> -1
  | OLookup name | OIsAlloc name => short_name name
  | OOpen f d => exists r, files s !! f = Some r /\ (fio_file_hashed r = true -> d <> -1)
  | OSetAlloc name fn => short_name name /\ fn_nodes s !! fn = None
  | OFreeAlloc => True
  end.

Lemma agree_name F N f r : names_agree F N -> F !! f = Some r ->
  exists nm, file_name r = Some nm /\ c_str nm = nm /\ N !! f = Some nm.
Proof. intros H E. specialize (H f). by rewrite E in H. Qed.

Lemma agree_insert F N f r nm :
  names_agree F N -> file_name r = Some nm -> c_str nm = nm -> names_agree (<[f := r]> F) (<[f := nm]> N).
Proof.
  intros H E Hc g. destruct (decide (g = f)) as [->|Hne].
  - rewrite !lookup_insert_eq. by exists nm.
  - rewrite !lookup_insert_ne by done. apply H.
Qed.

Lemma agree_update F N f r r' :
  names_agree F N -> F !! f = Some r -> file_name r' = file_name r -> names_agree (<[f := r']> F) N.
Proof.
  intros H Hf E. destruct (agree_name _ _ _ _ H Hf) as (nm & En & Ec & EN).
  rewrite <- (insert_id N f nm EN). apply agree_insert; [done|congruence|done].
Qed.

Lemma agree_delete F N f : names_agree F N -> names_agree (delete f F) (delete f N).
Proof.
  intros H g. destruct (decide (g = f)) as [->|Hne].
  - by rewrite !lookup_delete_eq.
  - rewrite !lookup_delete_ne by done. apply H.
Qed.

Lemma tab_new s L T f nm :
  tab_inv s L T -> f <> 0 -> nodes s !! f = None -> short_name nm ->
  tab_inv (set_files (<[f := mkFile (Some nm) (-1) (-1) 0]> (files s)) (set_nodes (<[f := mkFl 0 0]> (nodes s)) s)) L T.
Proof.
  intros [[R1 R2 R3] H2 H3 H4 H5 H6] Hf0 Hn Hs.
  assert (forall x, is_Some (nodes s !! x) -> x <> f) as Hx by (intros x [? E] ->; congruence).
  assert (forall g r, files s !! g = Some r -> g <> f) as Hg by (intros g r E; apply Hx; by apply (H6 g r)).
  constructor; simpl; try done.
  - constructor; try done. intros hd l Hl. apply (ring_frame (nodes s)); [|by apply R1].
    intros x Hin. rewrite lookup_insert_ne; [done|]. apply not_eq_sym, Hx. by apply (ring_some _ hd l x (R1 _ _ Hl)).
  - intros i l g Hl Hin. destruct (H3 i l g Hl Hin) as (r & n & Hr & H). exists r, n. simpl.
    rewrite lookup_insert_ne; [done|]. by apply not_eq_sym, (Hg g r).
  - intros n g HT. destruct (H4 n g HT) as (i & l & r & m & Hi & Hc & Hr & H). exists i, l, r, m.
    rewrite lookup_insert_ne; [done|]. by apply not_eq_sym, (Hg g r).
  - intros g r [[<- <-]|[Hne Hr]]%lookup_insert_Some Hh; [done|by apply (H5 g)].
  - intros g r [[<- <-]|[Hne Hr]]%lookup_insert_Some.
    + split_and!; try done; [rewrite lookup_insert_eq; by eexists|].
      intros Hb. apply (Hx f); [|done]. apply H2 in Hb as [l Hl]. apply (ring_some _ f l f (R1 _ _ Hl)). left.
    + destruct (H6 g r Hr) as (? & ? & ? & ?). split_and!; try done. rewrite lookup_insert_ne; [done|done].
Qed.

Lemma tab_del s L T f r :
  tab_inv s L T -> files s !! f = Some r -> fio_file_hashed r = false ->
  tab_inv (set_files (delete f (files s)) (set_nodes (delete f (nodes s)) s)) L T.
Proof.
  intros H Hf Hh. pose proof (tab_unused _ _ _ _ _ H Hf Hh) as Hu. destruct H as [[R1 R2 R3] H2 H3 H4 H5 H6].
  constructor; simpl; try done.
  - constructor; try done. intros hd l Hl. apply (ring_frame (nodes s)); [|by apply R1].
    intros x Hin. rewrite lookup_delete_ne; [done|]. intros ->. by apply (Hu hd l Hl).
  - intros i l g Hl Hin. destruct (H3 i l g Hl Hin) as (r' & n & Hr & Hh' & H). exists r', n. simpl.
    rewrite lookup_delete_ne; [done|]. congruence.
  - intros n g HT. destruct (H4 n g HT) as (i & l & r' & m & Hi & Hc & Hr & Hm & Hh' & H). exists i, l, r', m.
    rewrite lookup_delete_ne; [done|]. congruence.
  - intros g r' [Hne Hr]%lookup_delete_Some Hh'. by apply (H5 g r').
  - intros g r' [Hne Hr]%lookup_delete_Some. destruct (H6 g r' Hr) as (? & ? & ? & ?). split_and!; try done.
    by rewrite lookup_delete_ne.
Qed.

Lemma drop_sim s a L l f r :
  tab_inv s L (sp_open a) -> reg_inv s l (sp_reg a) -> hash_lock s = Some true ->
  names_agree (files s) (sp_name a) -> files s !! f = Some r ->
  exists s' r', remove_file_hash f s = Ret tt s' /\ fsim s' (mkSpec (sp_name a) (sp_drop f a) (sp_reg a)) /\
    files s' !! f = Some r' /\ fio_file_hashed r' = false /\ file_name r' = file_name r.
Proof.
  intros Ht Hr Hlk Hn Hf. destruct (agree_name _ _ _ _ Hn Hf) as (nm & En & Ec & EN).
  destruct (remove_run s L _ f r nm Ht Hlk Hf En) as (L' & h & fl & E & Ht' & Hh).
  exists (upd h (<[f := mkFile (Some nm) (fd r) (shadow_fd r) fl]> (files s)) s).
  eexists. split; [done|]. split; [|split_and!; [by simpl; rewrite lookup_insert_eq|done|done]].
  exists L', l. split_and!; simpl; try done.
  - unfold sp_drop. rewrite EN. by rewrite Ec in Ht'.
  - by apply (reg_same s).
  - by apply (agree_update _ _ f r).
Qed.

Lemma ft_exec_sim o s a :
  fsim s a -> flegal o s -> exists s', fexec o s = Ret (fstep o a).1 s' /\ fsim s' (fstep o a).2.
Proof.
  intros (L & l & Ht & Hr & Hlk & Hn) Hleg. destruct o as [f nm|f|f|f|nm|f d|f e|nm|nm fn|]; simpl in Hleg.
  - destruct Hleg as (Hf0 & Hfn & Hs). eexists. split; [reflexivity|]. exists L, l. split_and!; simpl; try done.
    + apply tab_new; try done. by rewrite c_str_twice.
    + by apply (reg_same s).
    + apply agree_insert; try done. apply c_str_twice.
  - destruct Hleg as [r Hf]. destruct (drop_sim s a L l f r) as (s' & r' & E & (L' & l' & Ht' & Hr' & Hlk' & Hn') & Hf' & Hh & _); try done.
    eexists. split; [cbn [fexec]; unfold free_file; erewrite bind_Ret; [reflexivity|]; erewrite bind_Ret by exact E; reflexivity|].
    exists L', l'. split_and!; simpl; try done; [by eapply tab_del|by apply (reg_same s')|by apply agree_delete].
  - destruct Hleg as (r & Hf & Hfd). destruct (agree_name _ _ _ _ Hn Hf) as (nm & En & Ec & EN).
    destruct (add_hash_run s L _ f r nm Ht Hlk Hf En Hfd) as (L' & h & F & E & Ht' & HF & fl & Hfl).
    assert (names_agree F (sp_name a)) as Hn'.
    { intros g. destruct (decide (g = f)) as [->|Hne]; [rewrite Hfl; by exists nm|]. rewrite HF by done. apply Hn. }
    exists (upd h F s). unfold fstep. rewrite EN. simpl default.
    pose proof (found_zero s L _ nm Ht) as Hz. rewrite Ec in *. unfold found in *. rewrite Ec in *.
    destruct (sp_open a !! nm) as [g|] eqn:EO; cbn [default from_option id fst snd] in *.
    + rewrite (proj2 (Z.eqb_neq g 0)) in Ht' by naive_solver. split; [done|].
      exists L', l. split_and!; simpl; try done. by apply (reg_same s).
    + destruct (ti_files _ _ _ Ht f r Hf) as (Hf0 & _). rewrite (proj2 (Z.eqb_neq 0 f)) in E by done.
      split; [done|]. exists L', l. split_and!; simpl; try done. by apply (reg_same s).
  - destruct Hleg as [r Hf]. destruct (drop_sim s a L l f r) as (s' & r' & E & Hs' & _); try done.
    exists s'. split; [|done]. cbn [fexec]; by rewrite (bind_Ret _ _ _ _ _ E).
  - exists s. split; [|by exists L, l]. cbn [fexec]. by rewrite (lookup_run s L _ nm Ht Hlk).
  - destruct Hleg as (r & Hf & Hd). destruct (agree_name _ _ _ _ Hn Hf) as (nm & En & Ec & EN).
    assert (short_name nm) as Hs. { destruct (ti_files _ _ _ Ht f r Hf) as (_ & _ & _ & Hs). by rewrite En in Hs. }
    eexists. split.
    + cbn [fexec]. unfold file_lookup_open. erewrite bind_Ret; [reflexivity|].
      erewrite bind_Ret by (apply get_fh_run; exact Hf). cbv beta. rewrite En. erewrite bind_Ret by reflexivity. cbv beta.
      erewrite bind_Ret by (by apply (lookup_run s L (sp_open a))). cbv beta.
      erewrite bind_Ret by (apply get_fh_run; exact Hf). cbv beta. erewrite bind_Ret by reflexivity. cbv beta.
      cbn [fstep fst]. rewrite EN. simpl default. f_equal.
      pose proof (found_zero s L _ nm Ht) as Hz. rewrite Ec in Hz.
      destruct (Z.eqb_spec (found (sp_open a) nm) 0) as [E0|E0].
      * rewrite bool_decide_false; [done|]. rewrite (proj1 Hz E0). by intros [].
      * rewrite bool_decide_true; [done|]. apply not_eq_None_Some. naive_solver.
    + exists L, l. split_and!; simpl; try done; [by apply tab_fds|by apply (reg_same s)|by apply (agree_update _ _ f r)].
  - destruct Hleg as [r Hf].
    destruct (drop_sim s a L l f r) as (s' & r' & E & (L' & l' & Ht' & Hr' & Hlk' & Hn') & Hf' & Hh & En); try done.
    eexists. split.
    + cbn [fexec]. unfold generic_close_file. erewrite bind_Ret by exact E. cbv beta.
      erewrite bind_Ret by (apply get_fh_run; exact Hf'). cbv beta. erewrite bind_Ret by reflexivity. reflexivity.
    + exists L', l'. split_and!; simpl; try done; [apply tab_fds; try done; congruence|by apply (reg_same s')|by apply (agree_update _ _ f r')].
  - exists s. split; [|by exists L, l]. cbn [fexec]. by rewrite (bind_Ret _ _ _ _ _ (is_allocated_run s l _ nm Hr Hlk Hleg)).
  - destruct Hleg as [Hs Hfn].
    destruct (set_allocated_run s l _ nm fn Hr Hlk Hs) as (h & N & b & l' & E & Hr').
    { rewrite <- (ri_nodes _ _ _ Hr). rewrite Hfn. by intros []. }
    exists (updr h N b s). split; [cbn [fexec]; by rewrite (bind_Ret _ _ _ _ _ E)|].
    exists L, l'. split_and!; simpl; try done. by apply (tab_same s).
  - destruct (free_allocated_run s l _ Hr Hlk) as (h & N & E & Hr').
    eexists. split; [cbn [fexec]; by rewrite (bind_Ret _ _ _ _ _ E)|].
    exists L, []. split_and!; simpl; try done. by apply (tab_same s).
Qed.

Fixpoint fexec_all (ops : list fop) : M fhash (list Z) :=
  match ops with [] => mret [] | o :: ops' => r ← fexec o; rs ← fexec_all ops'; mret (r :: rs) end.
Fixpoint fsteps (ops : list fop) (a : fspec) : list Z * fspec :=
  match ops with
  | [] => ([], a)
  | o :: ops' => let '(r, a1) := fstep o a in let '(rs, a2) := fsteps ops' a1 in (r :: rs, a2)
  end.
Fixpoint flegal_all (ops : list fop) (s : fhash) : Prop :=
  match ops with
  | [] => True
  | o :: ops' => flegal o s /\ forall r s', fexec o s = Ret r s' -> flegal_all ops' s'
  end.

Lemma ft_exec_all_sim ops : forall s a,
  fsim s a -> flegal_all ops s ->
  exists s', fexec_all ops s = Ret (fsteps ops a).1 s' /\ fsim s' (fsteps ops a).2.
Proof.
  induction ops as [|o ops IH]; intros s a Hs Hl; [by exists s|]. destruct Hl as [Hl Hrest].
  destruct (ft_exec_sim o s a Hs Hl) as (s1 & E1 & Hs1). destruct (IH s1 _ Hs1 (Hrest _ _ E1)) as (s2 & E2 & Hs2).
  exists s2. simpl. destruct (fstep o a) as [r a1]. simpl in *. destruct (fsteps ops a1) as [rs a2]. simpl in *.
  split; [|done]. rewrite (bind_Ret _ _ _ _ _ E1). cbv beta. by rewrite (bind_Ret _ _ _ _ _ E2).
Qed.

(** * Initialisation and exit *)

(** Before file_hash_init: the static list head, and nothing else. *)
Definition blank : fhash := mkFh ∅ ∅ 0 None None {[filename_list := mkFl filename_list filename_list]} ∅.

Lemma init_buckets_dom a n s s' :
  init_buckets n a s = Ret tt s' -> forall x, is_Some (nodes s' !! x) <-> is_Some (nodes s !! x).
Proof.
  revert s'. induction n as [|n IH]; intros s' E x; [by injection E as <-|]. cbn [init_buckets] in E.
  unfold mbind, M_bind in E. destruct (init_buckets n a s) as [[] s1| | |] eqn:E1; try done.
  rewrite <- (IH s1 eq_refl x). unfold on_list, zoom in E.
  destruct (INIT_FLIST_HEAD (bucket_at a (Z.of_nat n)) (nodes s1)) as [[] h| | |] eqn:E2; try done.
  injection E as <-. simpl. unfold INIT_FLIST_HEAD, set_next, set_prev in E2. munfold.
  destruct (nodes s1 !! bucket_at a (Z.of_nat n)) as [y|] eqn:Ey; [|done]. rewrite lookup_insert_eq in E2.
  injection E2 as <-. destruct (decide (x = bucket_at a (Z.of_nat n))) as [->|Hne].
  - rewrite lookup_insert_eq, Ey. split; by eexists.
  - by rewrite !lookup_insert_ne.
Qed.

Lemma init_buckets_run a n : forall s,
  (forall i, 0 <= i < Z.of_nat n -> is_Some (nodes s !! bucket_at a i)) ->
  exists h, init_buckets n a s = Ret tt (set_nodes h s) /\
    forall i, 0 <= i < Z.of_nat n -> h !! bucket_at a i = Some (mkFl (bucket_at a i) (bucket_at a i)).
Proof.
  induction n as [|n IH]; intros s Hs.
  - exists (nodes s). split; [by destruct s|]. lia.
  - destruct (IH s) as (h & E & Hh); [intros i Hi; apply Hs; lia|].
    assert (is_Some (h !! bucket_at a (Z.of_nat n))) as Hn.
    { pose proof (init_buckets_dom a n s _ E) as Hd. simpl in Hd. apply Hd, Hs. lia. }
    cbn [init_buckets]. rewrite (bind_Ret _ _ _ _ _ E). cbv beta.
    destruct (init_run h _ Hn) as (h' & E' & R' & S'). exists h'. split; [by erewrite on_list_run by exact E'|].
    intros i Hi. destruct (decide (i = Z.of_nat n)) as [->|Hne].
    + pose proof (ring_next _ _ _ R') as Hx. pose proof (ring_prev _ _ _ R') as Hp. unfold nx, pv in *. simpl in *.
      destruct (h' !! bucket_at a (Z.of_nat n)) as [[x y]|]; naive_solver.
    + rewrite S'; [apply Hh; lia|]. intros Hin. apply list_elem_of_singleton, bucket_inj in Hin. lia.
Qed.

Definition empty_buckets (a : Z) : gmap Z (list Z) := list_to_map ((fun p => (p, [])) <$> bucket_addrs a).

Lemma bucket_addrs_spec a x : x ∈ bucket_addrs a <-> is_bucket a x.
Proof.
  unfold bucket_addrs, is_bucket. rewrite list_elem_of_fmap. split.
  - intros (i & -> & Hi). apply elem_of_seq in Hi. exists (Z.of_nat i). split; [|done]. unfold HASH_BUCKETS. lia.
  - intros (i & Hi & ->). exists (Z.to_nat i). unfold HASH_BUCKETS in Hi. rewrite Z2Nat.id by lia. split; [done|].
    apply elem_of_seq. lia.
Qed.

Lemma empty_buckets_lookup a x l : empty_buckets a !! x = Some l <-> is_bucket a x /\ l = [].
Proof.
  unfold empty_buckets. rewrite <- bucket_addrs_spec. split.
  - intros H. apply elem_of_list_to_map_2, list_elem_of_fmap in H as (p & [= -> ->] & Hp). done.
  - intros [Hx ->]. apply elem_of_list_to_map_1.
    + assert (forall l : list Z, ((fun p => (p, [] : list Z)) <$> l).*1 = l) as ->.
      { intros l. induction l as [|y l IH]; [done|]. rewrite !fmap_cons. by f_equal. }
      apply NoDup_fmap_2_strong; [|apply NoDup_seq]. intros i j _ _ E. apply bucket_inj in E. lia.
    + apply list_elem_of_fmap. by exists x.
Qed.

Lemma foldr_alloc (l : list Z) (h : gmap Z flist_head) x :
  foldr (fun p h => <[p := mkFl 0 0]> h) h l !! x = if decide (x ∈ l) then Some (mkFl 0 0) else h !! x.
Proof.
  induction l as [|p l IH]; [by rewrite decide_False by set_solver|]. cbn [foldr].
  destruct (decide (x = p)) as [->|Hne].
  - rewrite lookup_insert_eq, decide_True by left. done.
  - rewrite lookup_insert_ne, IH by done. repeat case_decide; set_solver.
Qed.

Lemma hash_init_run a : 0 < a -> exists s, file_hash_init a blank = Ret tt s /\ fsim s (mkSpec ∅ ∅ []).
Proof.
  intros Ha. unfold file_hash_init. erewrite bind_Ret by reflexivity. cbv beta.
  edestruct (init_buckets_run a 512) as (h & E & Hh); cycle 1.
  - rewrite (bind_Ret _ _ _ _ _ E). cbv beta. erewrite bind_Ret by reflexivity. cbv beta.
    eexists. split; [reflexivity|]. exists (empty_buckets a), []. split_and!; simpl; try done.
    + constructor; simpl; try done.
      * constructor.
        -- intros hd l [(i & Hi & ->) ->]%empty_buckets_lookup. apply ring_nil, Hh. unfold HASH_BUCKETS in Hi. lia.
        -- intros hd l x [(i & Hi & ->) ->]%empty_buckets_lookup Hx. apply list_elem_of_singleton in Hx as ->.
           unfold bucket_at. lia.
        -- intros hd l hd' l' x [_ ->]%empty_buckets_lookup [_ ->]%empty_buckets_lookup Hne Hx Hx'.
           apply list_elem_of_singleton in Hx, Hx'. congruence.
      * intros x. split; [intros [l [H _]%empty_buckets_lookup]; done|]. intros H. exists []. by apply empty_buckets_lookup.
      * intros i l f [_ ->]%empty_buckets_lookup Hin. by apply not_elem_of_nil in Hin.
    + constructor; [constructor|..]; simpl.
      * apply ring_nil. by rewrite lookup_singleton_eq.
      * constructor.
      * intros nm Hin. by apply not_elem_of_nil in Hin.
      * exists (bloom_new BLOOM_SIZE), []. split_and!; [done|by apply bloom_new_inv|done].
      * constructor.
      * intros x. rewrite lookup_singleton_is_Some, list_elem_of_singleton. done.
      * intros x. rewrite lookup_empty. split; [by intros []|]. intros Hin. by apply not_elem_of_nil in Hin.
  - intros i Hi. cbn [nodes blank]. rewrite (proj2 (Z.eqb_neq a 0)) by lia. rewrite foldr_alloc, decide_True; [by eexists|].
    apply bucket_addrs_spec. exists i. split; [|done]. unfold HASH_BUCKETS. lia.
Qed.

Lemma count_buckets_run s L T n :
  tab_inv s L T -> Z.of_nat n <= HASH_BUCKETS ->
  exists c, count_buckets n (file_hash s) s = Ret c s /\ 0 <= c /\
    (c = 0 <-> forall i l, 0 <= i < Z.of_nat n -> L !! bucket_at (file_hash s) i = Some l -> l = []).
Proof.
  intros H. induction n as [|n IH]; intros Hn; [exists 0; split_and!; try done; split; [intros _ i l Hi; lia|done]|].
  destruct IH as (c & E & Hc & Hz); [lia|]. cbn [count_buckets]. rewrite (bind_Ret _ _ _ _ _ E). cbv beta.
  destruct (tab_bucket s L T (Z.of_nat n) H) as [l Hl]; [lia|].
  erewrite bind_Ret by (apply on_list_read, empty_run, (rp_ring _ _ (ti_rep _ _ _ H) _ _ Hl)). cbv beta.
  eexists. split; [reflexivity|]. destruct (bool_decide_reflect (l = [])) as [->|Hne].
  - split; [done|]. rewrite Hz. split; intros Hall i l Hi Hil.
    + destruct (decide (i = Z.of_nat n)) as [->|]; [congruence|]. apply (Hall i); [lia|done].
    + apply (Hall i); [lia|done].
  - split; [lia|]. split; [lia|]. intros Hall. destruct Hne. apply (Hall (Z.of_nat n)); [lia|done].
Qed.

(** The buckets are empty exactly when no file is open. *)
Lemma hash_exit_run s a : fsim s a -> exists n s', file_hash_exit s = Ret n s' /\ (n = 0 <-> sp_open a = ∅).
Proof.
  intros (L & l & Ht & Hr & Hlk & Hn). unfold file_hash_exit.
  rewrite (bind_Ret _ _ _ _ _ (lock_run s Hlk)). cbv beta. erewrite bind_Ret by reflexivity. cbv beta.
  set (s1 := set_lock (Some false) s). assert (tab_inv s1 L (sp_open a)) as Ht1 by by apply (tab_same s).
  destruct (count_buckets_run s1 L _ 512 Ht1) as (c & E & Hc & Hz); [done|]. change (Z.of_nat 512) with HASH_BUCKETS in Hz. rewrite (bind_Ret _ _ _ _ _ E). cbv beta.
  erewrite bind_Ret by reflexivity. cbv beta. erewrite bind_Ret by reflexivity. exists c. eexists. split; [reflexivity|].
  rewrite Hz. split.
  - intros Hall. apply map_empty. intros nm. destruct (sp_open a !! nm) as [f|] eqn:EO; [|done]. exfalso.
    destruct (ti_all _ _ _ Ht1 _ _ EO) as (i & k & _ & m & Hi & _ & _ & _ & _ & Hk & Hin).
    assert (is_bucket (file_hash s1) (bucket_at (file_hash s1) i)) as (j & Hj & Ej) by (apply (ti_heads _ _ _ Ht1); by eexists).
    apply bucket_inj in Ej as ->. rewrite (Hall j k Hj Hk) in Hin. by apply not_elem_of_nil in Hin.
  - intros HO i k Hi Hk. destruct k as [|f k]; [done|]. exfalso.
    destruct (ti_in _ _ _ Ht1 i _ f Hk ltac:(left)) as (_ & nm & _ & _ & _ & _ & _ & HT). by rewrite HO in HT.
Qed.

(** C29: the table of open files and the registry of allocated names do what
    they promise.  After file_hash_init, over any legal sequence of allocating,
    opening, hashing, looking up, closing and freeing files and of querying,
    registering and freeing names: every call returns (no failed assertion, no
    access to freed memory, no endless walk of a bucket) with the answer of the
    specification, in which a name has at most one open file, add_file_hash
    returns the file already open under the name and otherwise enters the new
    one, and a name is registered once and found until the registry is freed,
    although the list of names is only searched when the bloom filter knows the
    name.  At the end file_hash_exit complains exactly when a file is open. *)
Theorem file_table_refines a ops :
  0 < a ->
  (forall s, file_hash_init a blank = Ret tt s -> flegal_all ops s) ->
  exists s, (file_hash_init a;; fexec_all ops) blank = Ret (fsteps ops (mkSpec ∅ ∅ [])).1 s /\
    fsim s (fsteps ops (mkSpec ∅ ∅ [])).2 /\
    exists n s', file_hash_exit s = Ret n s' /\ (n = 0 <-> sp_open (fsteps ops (mkSpec ∅ ∅ [])).2 = ∅).
Proof.
  intros Ha Hleg. destruct (hash_init_run a Ha) as (s0 & E0 & H0).
  destruct (ft_exec_all_sim ops s0 _ H0 (Hleg s0 E0)) as (s & E & Hs).
  exists s. split; [by rewrite (bind_Ret _ _ _ _ _ E0)|]. split; [done|]. by apply hash_exit_run.
Qed.

(** * The theorem at a concrete input *)

Definition flegalb (o : fop) (s : fhash) : bool :=
  match o with
  | ONew f name => negb (f =? 0) && bool_decide (nodes s !! f = None) && (Z.of_nat (length (c_str name)) <? 2 ^ 31)
  | OFree f | ORemove f | OClose f _ => bool_decide (is_Some (files s !! f))
  | OAdd f => match files s !! f with Some r => negb (fd r =? -1) | None => false end
  | OLookup name | OIsAlloc name => Z.of_nat (length (c_str name)) <? 2 ^ 31
  | OOpen f d => match files s !! f with Some r => negb (fio_file_hashed r) || negb (d =? -1) | None => false end
  | OSetAlloc name fn => (Z.of_nat (length (c_str name)) <? 2 ^ 31) && bool_decide (fn_nodes s !! fn = None)
  | OFreeAlloc => true
  end.

Lemma flegalb_ok o s : flegalb o s = true -> flegal o s.
Proof.
  destruct o as [f nm|f|f|f|nm|f d|f e|nm|nm fn|]; simpl; intros H; bcases;
    repeat match goal with
    | H : bool_decide _ = true |- _ => apply bool_decide_eq_true in H
    | H : context [match files s !! f with _ => _ end] |- _ => destruct (files s !! f) as [r|] eqn:E; [|done]
    end; bcases; try done.
  - by exists r.
  - exists r. split; [done|]. intros Hh. rewrite Hh in H. simpl in H. by bcases.
Qed.

Fixpoint flegal_run (ops : list fop) (s : fhash) : bool :=
  match ops with
  | [] => true
  | o :: ops' => flegalb o s && match fexec o s with Ret _ s' => flegal_run ops' s' | _ => false end
  end.

Lemma flegal_run_ok ops : forall s, flegal_run ops s = true -> flegal_all ops s.
Proof.
  induction ops as [|o ops IH]; intros s H; [done|]. simpl in H. apply andb_true_iff in H as [H1 H2].
  split; [by apply flegalb_ok|]. intros r s' E. rewrite E in H2. by apply IH.
Qed.

(** Two files of one name: the second one finds the first. *)
Definition fname_a : bytes := [Byte.x61; Byte.x62].
Definition demo_fops : list fop :=
  [ONew 9000 fname_a; OIsAlloc fname_a; OSetAlloc fname_a 16; OIsAlloc fname_a; OSetAlloc fname_a 24;
   OOpen 9000 3; OAdd 9000; ONew 9200 fname_a; OOpen 9200 4; OAdd 9200; OLookup fname_a; OClose 9000 0;
   OAdd 9200; OLookup fname_a; OFree 9000; OFree 9200; OFreeAlloc; OIsAlloc fname_a].

Lemma file_table_refines_witness :
  (fsteps demo_fops (mkSpec ∅ ∅ [])).1 = [0; 0; 0; 1; 0; 0; 0; 0; 1; 9000; 9000; 0; 0; 9200; 0; 0; 0; 0] /\
  exists s, (file_hash_init 64;; fexec_all demo_fops) blank = Ret (fsteps demo_fops (mkSpec ∅ ∅ [])).1 s.
Proof.
  split; [vm_compute; reflexivity|].
  destruct (file_table_refines 64 demo_fops) as (s & E & _); [lia| |by exists s].
  intros s E. apply flegal_run_ok.
  assert (match file_hash_init 64 blank with Ret _ s => flegal_run demo_fops s | _ => false end = true) as H
    by (vm_compute; reflexivity).
  rewrite E in H. exact H.
Defined.
