(* ===== verification/FileLock.v ===== *)
(** The locks on file names (src/fio/filelock.c): fio_lock_file,
    fio_trylock_file and fio_unlock_file over a pool of MAX_FILELOCKS reference
    counted locks, with the calls of any number of threads interleaved.  What
    the code does between fio_mutex_down and fio_mutex_up of fld->lock is one
    step (FioMutex shows that the mutex excludes), and so is an operation on the
    mutex of one lock; the two lists are those of FlistRun, kept as lists of the
    indices into ffs. *)
From S2P Require Import Prelude Threads Bloom.
From stdpp Require Import relations.
#[local] Open Scope Z_scope.

Definition MAX_FILELOCKS : nat := 128.

Record fio_filelock : Type := mkFf {
  ff_hash : Z;
  ff_value : Z;                    (* the value of its fio_mutex *)
  references : Z
}.

Record filelock_data : Type := mkFld {
  ffs : list fio_filelock;
  used : list nat;                 (* fld->list *)
  free_list : list nat
}.

(** The hash of a name: names are shorter than 2^32. *)
Definition lock_hash (fname : bytes) : Z := default 0 (jhash (c_str fname) 0).

Definition put_filelock (k : nat) (d : filelock_data) : filelock_data :=
  mkFld (ffs d) (used d) (k :: free_list d).

Definition __get_filelock (d : filelock_data) : option (nat * filelock_data) :=
  match free_list d with
  | [] => None
  | k :: r => Some (k, mkFld (ffs d) (used d) r)
  end.

Definition fio_hash_find (d : filelock_data) (h : Z) : option nat :=
  List.find (fun k => match ffs d !! k with Some f => ff_hash f =? h | None => false end) (used d).

(** The end of fio_hash_get for a lock from the free list. *)
Definition claim_filelock (k : nat) (h : Z) (d : filelock_data) : filelock_data :=
  mkFld (alter (fun f => mkFf h (ff_value f) 0) k (ffs d)) (k :: used d) (free_list d).

(** fio_hash_get up to the first look at the free list; [None] when that is
    empty: the caller fails (trylock) or sleeps and tries again. *)
Definition fio_hash_get (h : Z) (d : filelock_data) : option (nat * filelock_data) :=
  match fio_hash_find d h with
  | Some k => Some (k, d)
  | None => '(k, d') ← __get_filelock d; Some (k, claim_filelock k h d')
  end.

(** The rest of fio_hash_get after the main lock was dropped. *)
Definition fio_hash_get_retry (h : Z) (d : filelock_data) : option (nat * filelock_data) :=
  '(k, d') ← __get_filelock d;
  match fio_hash_find d' h with
  | Some k' => Some (k', put_filelock k d')
  | None => Some (k, claim_filelock k h d')
  end.

Definition add_refs (k : nat) (z : Z) (d : filelock_data) : filelock_data :=
  mkFld (alter (fun f => mkFf (ff_hash f) (ff_value f) (references f + z)) k (ffs d)) (used d) (free_list d).
Definition add_val (k : nat) (z : Z) (d : filelock_data) : filelock_data :=
  mkFld (alter (fun f => mkFf (ff_hash f) (ff_value f + z) (references f)) k (ffs d)) (used d) (free_list d).

(** fio_unlock_file; a name that is not found is reported and ignored. *)
Definition fio_unlock_file (h : Z) (d : filelock_data) : filelock_data :=
  match fio_hash_find d h with
  | None => d
  | Some k =>
      let d1 := add_val k 1 (add_refs k (-1) d) in
      match ffs d1 !! k with
      | Some f => if references f =? 0
                  then put_filelock k (mkFld (ffs d1) (filter (fun j => j <> k) (used d1)) (free_list d1))
                  else d1
      | None => d1
      end
  end.

Definition fio_filelock_init : filelock_data :=
  mkFld (replicate MAX_FILELOCKS (mkFf 0 1 0)) [] (seq 0 MAX_FILELOCKS).

(** * Threads *)

Inductive lcall : Type := CLock (n : bytes) | CTryLock (n : bytes) | CUnlock (n : bytes).

(** The control points of __fio_lock_file. *)
Inductive lpc : Type :=
  | LIdle
  | LRetry (h : Z)                 (* asleep in get_filelock *)
  | LDown (k : nat)                (* at fio_mutex_down of lock [k] *)
  | LTry (k : nat)                 (* at fio_mutex_down_trylock *)
  | LTryFail (k : nat).            (* it failed: before the main lock is taken again *)

(** A thread, its calls to come (a failed trylock skips the unlock after it),
    and the lock it owns. *)
Record lthread : Type := mkLt { lpc_of : lpc; lprog : list lcall; owned : option nat }.

Record lstate : Type := mkLs {
  fld : filelock_data;
  lthreads : list lthread;
  laborted : bool                  (* assert(!trylock) failed *)
}.

Definition set_lt (d : filelock_data) (i : nat) (t : lthread) (s : lstate) : lstate :=
  mkLs d (<[i := t]> (lthreads s)) (laborted s).

Definition value_of (d : filelock_data) (k : nat) : Z := from_option ff_value 0 (ffs d !! k).
Definition refs_of (d : filelock_data) (k : nat) : Z := from_option references 0 (ffs d !! k).

Definition run_lthread (i : nat) (t : lthread) (s : lstate) : option lstate :=
  let d := fld s in
  match lpc_of t with
  | LIdle =>
      match lprog t with
      | [] => None
      | CLock n :: p =>
          match fio_hash_get (lock_hash n) d with
          | Some (k, d') => Some (set_lt (add_refs k 1 d') i (mkLt (LDown k) p (owned t)) s)
          | None => Some (set_lt d i (mkLt (LRetry (lock_hash n)) p (owned t)) s)
          end
      | CTryLock n :: p =>
          match fio_hash_get (lock_hash n) d with
          | Some (k, d') => Some (set_lt (add_refs k 1 d') i (mkLt (LTry k) p (owned t)) s)
          | None => Some (mkLs d (lthreads s) true)
          end
      | CUnlock n :: p => Some (set_lt (fio_unlock_file (lock_hash n) d) i (mkLt LIdle p None) s)
      end
  | LRetry h =>
      '(k, d') ← fio_hash_get_retry h d;
      Some (set_lt (add_refs k 1 d') i (mkLt (LDown k) (lprog t) (owned t)) s)
  | LDown k =>
      if value_of d k =? 0 then None
      else Some (set_lt (add_val k (-1) d) i (mkLt LIdle (lprog t) (Some k)) s)
  | LTry k =>
      if value_of d k =? 0 then Some (set_lt d i (mkLt (LTryFail k) (lprog t) (owned t)) s)
      else Some (set_lt (add_val k (-1) d) i (mkLt LIdle (lprog t) (Some k)) s)
  | LTryFail k =>
      if refs_of d k =? 1 then Some (set_lt d i (mkLt (LDown k) (lprog t) (owned t)) s)
      else Some (set_lt (add_refs k (-1) d) i (mkLt LIdle (tail (lprog t)) (owned t)) s)
  end.

Definition lstep (s s' : lstate) : Prop :=
  laborted s = false /\ exists i t, lthreads s !! i = Some t /\ run_lthread i t s = Some s'.

Definition lstart (progs : list (list lcall)) : lstate :=
  mkLs fio_filelock_init ((fun p => mkLt LIdle p None) <$> progs) false.

(** * The invariant *)

(** Programs made of a lock or trylock of a name followed by its unlock. *)
Fixpoint lpaired (l : list lcall) : bool :=
  match l with
  | [] => true
  | a :: l' =>
      match l' with
      | CUnlock m :: r =>
          match a with CLock n | CTryLock n => bool_decide (n = m) && lpaired r | CUnlock _ => false end
      | _ => false
      end
  end.

(** The lock a thread refers to, and the hash it uses it for. *)
Definition tref (t : lthread) : option nat :=
  match lpc_of t with
  | LDown k | LTry k | LTryFail k => Some k
  | _ => owned t
  end.
Definition thash (t : lthread) : option Z :=
  match lprog t with CUnlock n :: _ => Some (lock_hash n) | _ => None end.

Definition refers (k : nat) (t : lthread) : Z := if decide (tref t = Some k) then 1 else 0.
Definition owns (k : nat) (t : lthread) : Z := if decide (owned t = Some k) then 1 else 0.

Definition after_unlock (l : list lcall) : Prop := exists n r, l = CUnlock n :: r /\ lpaired r = true.

Definition ltinv (t : lthread) : Prop :=
  match lpc_of t with
  | LIdle => (owned t = None /\ lpaired (lprog t) = true) \/ (is_Some (owned t) /\ after_unlock (lprog t))
  | LRetry h => owned t = None /\ after_unlock (lprog t) /\ thash t = Some h
  | LDown _ | LTry _ | LTryFail _ => owned t = None /\ after_unlock (lprog t)
  end.

(** The pool and the threads agree: every lock is in one list, a hash is in use
    once, references and values count the threads, and who refers to a lock
    uses it for its hash. *)
Record lcore (d : filelock_data) (ths : list lthread) : Prop := {
  lc_perm : used d ++ free_list d ≡ₚ seq 0 MAX_FILELOCKS;
  lc_len : length (ffs d) = MAX_FILELOCKS;
  lc_hash : forall k k' f f', k ∈ used d -> k' ∈ used d ->
    ffs d !! k = Some f -> ffs d !! k' = Some f' -> ff_hash f = ff_hash f' -> k = k';
  lc_refs : forall k f, k ∈ used d -> ffs d !! k = Some f -> references f = sum_threads (refers k) ths;
  lc_val : forall k f, ffs d !! k = Some f -> ff_value f = 1 - sum_threads (owns k) ths /\ 0 <= ff_value f;
  lc_thread : forall i t, ths !! i = Some t -> ltinv t;
  lc_ref : forall i t k, ths !! i = Some t -> tref t = Some k ->
    k ∈ used d /\ exists f, ffs d !! k = Some f /\ thash t = Some (ff_hash f)
}.

(** A lock in use is referred to. *)
Definition lpos (d : filelock_data) : Prop := forall k f, k ∈ used d -> ffs d !! k = Some f -> 1 <= references f.

Definition linv (s : lstate) : Prop := lcore (fld s) (lthreads s) /\ lpos (fld s).

Lemma lookup_used d ths k : lcore d ths -> k ∈ used d -> exists f, ffs d !! k = Some f.
Proof.
  intros H Hk. apply lookup_lt_is_Some_2. rewrite (lc_len _ _ H).
  assert (k ∈ seq 0 MAX_FILELOCKS) as Hs by (rewrite <- (lc_perm _ _ H); set_solver).
  apply elem_of_seq in Hs. lia.
Qed.

Lemma used_nodup d ths : lcore d ths -> NoDup (used d ++ free_list d).
Proof. intros H. rewrite (lc_perm _ _ H). apply NoDup_seq. Qed.

(** Counters of lock [k] change. *)
Definition adj (k : nat) (r v : Z) (d : filelock_data) : filelock_data :=
  mkFld (alter (fun f => mkFf (ff_hash f) (ff_value f + v) (references f + r)) k (ffs d)) (used d) (free_list d).

Lemma add_refs_adj k z d : add_refs k z d = adj k z 0 d.
Proof. unfold add_refs, adj. f_equal. apply list_alter_ext; [|done]. intros [] _. simpl. by rewrite Z.add_0_r. Qed.
Lemma add_val_adj k z d : add_val k z d = adj k 0 z d.
Proof. unfold add_val, adj. f_equal. apply list_alter_ext; [|done]. intros [] _. simpl. by rewrite Z.add_0_r. Qed.

Lemma adj_lookup k r v d j :
  ffs (adj k r v d) !! j = if decide (j = k) then (fun f => mkFf (ff_hash f) (ff_value f + v) (references f + r)) <$> ffs d !! j
                           else ffs d !! j.
Proof.
  simpl. case_decide as E; [subst; by rewrite list_lookup_alter_eq|by rewrite list_lookup_alter_ne].
Qed.

Lemma adj_hash k r v d j f : ffs (adj k r v d) !! j = Some f -> exists f0, ffs d !! j = Some f0 /\ ff_hash f0 = ff_hash f.
Proof.
  rewrite adj_lookup. case_decide; [|by eauto]. destruct (ffs d !! j) as [f0|]; [|done]. intros [= <-]. by exists f0.
Qed.

(** A thread moves and the counters of one lock follow. *)
Lemma lcore_update d ths i t t' k r v :
  lcore d ths -> ths !! i = Some t -> ltinv t' ->
  (forall j, refers j t' = refers j t + if decide (j = k) then r else 0) ->
  (forall j, owns j t' = owns j t - if decide (j = k) then v else 0) ->
  (forall f, ffs d !! k = Some f -> 0 <= ff_value f + v) ->
  (forall j, tref t' = Some j -> j ∈ used d /\ exists f, ffs d !! j = Some f /\ thash t' = Some (ff_hash f)) ->
  lcore (adj k r v d) (<[i := t']> ths).
Proof.
  intros [H1 H2 H3 H4 H5 H6 H7] Hi Ht' Hr Ho Hv Href. constructor; try done.
  - simpl. by rewrite length_alter.
  - intros j j' f f' Hj Hj' (g & Hg & <-)%adj_hash (g' & Hg' & <-)%adj_hash. by apply H3.
  - intros j f Hj Hf. simpl in Hj. rewrite (sum_threads_insert _ _ _ t) by done.
    rewrite adj_lookup in Hf. specialize (Hr j). case_decide.
    + destruct (ffs d !! j) as [g|] eqn:Eg; [|done]. injection Hf as <-. simpl.
      rewrite (H4 j g Hj Eg). lia.
    + rewrite (H4 j f Hj Hf). lia.
  - intros j f Hf. rewrite (sum_threads_insert _ _ _ t) by done.
    rewrite adj_lookup in Hf. specialize (Ho j). case_decide.
    + destruct (ffs d !! j) as [g|] eqn:Eg; [|done]. injection Hf as <-. simpl. subst j.
      destruct (H5 k g Eg). specialize (Hv g Eg). lia.
    + destruct (H5 j f Hf). lia.
  - intros j u [[-> ->]|[_ Hj]]%thread_insert_cases; [done|by eapply H6].
  - intros j u k' Hju Hk'. assert (k' ∈ used d /\ exists f, ffs d !! k' = Some f /\ thash u = Some (ff_hash f)) as (Hu & f & Hf & Hth).
    { apply thread_insert_cases in Hju as [[-> ->]|[_ Hj]]; [by apply Href|by eapply H7]. }
    split; [done|]. rewrite adj_lookup. case_decide; [|by eauto]. rewrite Hf. simpl. by eexists.
Qed.

Lemma fio_hash_find_spec d h :
  match fio_hash_find d h with
  | Some k => k ∈ used d /\ exists f, ffs d !! k = Some f /\ ff_hash f = h
  | None => forall k f, k ∈ used d -> ffs d !! k = Some f -> ff_hash f <> h
  end.
Proof.
  unfold fio_hash_find. destruct (List.find _ _) as [k|] eqn:E.
  - apply List.find_some in E as [Hin E]. apply list_elem_of_In in Hin. split; [done|].
    destruct (ffs d !! k) as [f|]; [|done]. bcases. by exists f.
  - intros k f Hk Hf Hh. apply list_elem_of_In in Hk. pose proof (List.find_none _ _ E k Hk) as Hn. simpl in Hn.
    rewrite Hf in Hn. by bcases.
Qed.

(** No thread refers to a free lock. *)
Lemma refers_free d ths k : lcore d ths -> k ∉ used d -> sum_threads (refers k) ths = 0.
Proof.
  intros H Hk. apply sum_threads_zero. intros i t Hi. unfold refers. case_decide as E; [|done].
  by destruct (lc_ref _ _ H i t k Hi E).
Qed.

(** The first free lock is put to use for a hash that is not in use. *)
Lemma claim_core d ths k r h :
  lcore d ths -> free_list d = k :: r -> (forall j f, j ∈ used d -> ffs d !! j = Some f -> ff_hash f <> h) ->
  let d' := claim_filelock k h (mkFld (ffs d) (used d) r) in
  lcore d' ths /\ k ∈ used d' /\ (exists f, ffs d' !! k = Some f /\ ff_hash f = h) /\
  (forall j f, j ∈ used d' -> j <> k -> ffs d' !! j = Some f -> j ∈ used d /\ ffs d !! j = Some f).
Proof.
  intros H Hfr Hh d'. pose proof (used_nodup d ths H) as Hnd. rewrite Hfr in Hnd.
  assert (k ∉ used d) as Hk by (apply NoDup_app in Hnd as (_ & Hd & _); intros Hin; apply (Hd k Hin); left).
  assert (exists f, ffs d !! k = Some f) as [f0 Hf0].
  { apply lookup_lt_is_Some_2. rewrite (lc_len _ _ H).
    assert (k ∈ seq 0 MAX_FILELOCKS) as Hs by (rewrite <- (lc_perm _ _ H), Hfr; set_solver). apply elem_of_seq in Hs. lia. }
  assert (forall j, ffs d' !! j = if decide (j = k) then Some (mkFf h (ff_value f0) 0) else ffs d !! j) as HL.
  { intros j. simpl. case_decide as E; [subst; by rewrite list_lookup_alter_eq, Hf0|by rewrite list_lookup_alter_ne]. }
  split_and!; [|simpl; left|exists (mkFf h (ff_value f0) 0); rewrite HL; by rewrite decide_True|].
  - pose proof H as [H1 H2 H3 H4 H5 H6 H7]. constructor; try done.
    + simpl. rewrite <- H1, Hfr. apply Permutation_middle.
    + simpl. by rewrite length_alter.
    + intros j j' f f' Hj Hj'. simpl in Hj, Hj'. rewrite !HL. do 2 case_decide; subst; try done.
      * intros [= <-] Hf' E. exfalso. apply (Hh j' f'); [set_solver|done|by rewrite <- E].
      * intros Hf [= <-] E. exfalso. apply (Hh j f); [set_solver|done|by rewrite E].
      * intros Hf Hf' E. apply (H3 j j' f f'); set_solver.
    + intros j f Hj. simpl in Hj. rewrite HL. case_decide as E.
      * intros [= <-]. subst j. simpl. symmetry. by apply (refers_free d ths).
      * apply H4. set_solver.
    + intros j f. rewrite HL. case_decide as E; [|apply H5]. intros [= <-]. subst j. exact (H5 k f0 Hf0).
    + intros i t j Hi Hj. destruct (H7 i t j Hi Hj) as (Hu & f & Hf & Ht). split; [simpl; by right|].
      exists f. rewrite HL, decide_False by (intros ->; done). done.
  - intros j f Hj Hne. simpl in Hj. rewrite HL, decide_False by done. intros Hf. split; [set_solver|done].
Qed.

(** What fio_hash_get promises: a lock in use for the hash, the others as they
    were. *)
Definition got (d : filelock_data) (ths : list lthread) (h : Z) (k : nat) (d' : filelock_data) : Prop :=
  lcore d' ths /\ k ∈ used d' /\ (exists f, ffs d' !! k = Some f /\ ff_hash f = h) /\
  (forall j f, j ∈ used d' -> j <> k -> ffs d' !! j = Some f -> j ∈ used d /\ ffs d !! j = Some f).

Lemma hash_get_got d ths h k d' : lcore d ths -> fio_hash_get h d = Some (k, d') -> got d ths h k d'.
Proof.
  intros H. unfold fio_hash_get. pose proof (fio_hash_find_spec d h) as Hfind.
  destruct (fio_hash_find d h) as [j|].
  - intros [= <- <-]. destruct Hfind as (Hj & f & Hf & Hh). split_and!; try done. by exists f.
  - unfold __get_filelock. destruct (free_list d) as [|j r] eqn:Hfr; [done|]. intros [= <- <-].
    by apply claim_core.
Qed.

Lemma hash_get_retry_got d ths h k d' : lcore d ths -> fio_hash_get_retry h d = Some (k, d') -> got d ths h k d'.
Proof.
  intros H. unfold fio_hash_get_retry, __get_filelock. destruct (free_list d) as [|j r] eqn:Hfr; [done|]. simpl.
  pose proof (fio_hash_find_spec (mkFld (ffs d) (used d) r) h) as Hfind.
  destruct (fio_hash_find _ h) as [j'|].
  - intros [= <- <-]. unfold put_filelock; simpl. rewrite <- Hfr. destruct d as [fs u fr]; simpl in *.
    destruct Hfind as (Hj & f & Hf & Hh). split_and!; try done. by exists f.
  - intros [= <- <-]. by apply claim_core.
Qed.

Lemma hash_get_none h d : fio_hash_get h d = None -> free_list d = [].
Proof.
  unfold fio_hash_get, __get_filelock. destruct (fio_hash_find d h); [done|]. by destruct (free_list d).
Qed.
Lemma hash_get_retry_none h d : fio_hash_get_retry h d = None -> free_list d = [].
Proof.
  unfold fio_hash_get_retry, __get_filelock. destruct (free_list d); [done|]. simpl. by destruct (fio_hash_find _ h).
Qed.

Lemma refers_same j t t' : tref t' = tref t -> refers j t' = refers j t.
Proof. unfold refers. by intros ->. Qed.
Lemma owns_same j t t' : owned t' = owned t -> owns j t' = owns j t.
Proof. unfold owns. by intros ->. Qed.
Lemma refers_nonneg j t : 0 <= refers j t.
Proof. unfold refers. by case_decide. Qed.
Lemma owns_nonneg j t : 0 <= owns j t.
Proof. unfold owns. by case_decide. Qed.

(** A thread that referred to no lock refers to [k] from now on. *)
Lemma ref_inv d ths h k d' i t t' :
  got d ths h k d' -> lpos d -> ths !! i = Some t -> tref t = None -> tref t' = Some k -> owned t' = owned t ->
  thash t' = Some h -> ltinv t' ->
  lcore (add_refs k 1 d') (<[i := t']> ths) /\ lpos (add_refs k 1 d').
Proof.
  intros (H & Hk & (f & Hf & Hh) & Hold) Hpos Hi Ht Ht' Ho Hth Hinv. rewrite add_refs_adj. split.
  - eapply (lcore_update d' ths i t t' k 1 0); try done.
    + intros j. unfold refers. rewrite Ht, Ht'. repeat case_decide; naive_solver.
    + intros j. rewrite (owns_same j t t') by done. case_decide; lia.
    + intros f' Hf'. destruct (lc_val _ _ H k f' Hf'). lia.
    + intros j Hj. rewrite Ht' in Hj. injection Hj as <-. split; [done|]. exists f. by rewrite Hth, Hh.
  - intros j g Hj Hg. simpl in Hj. rewrite adj_lookup in Hg. case_decide as E.
    + subst j. rewrite Hf in Hg. injection Hg as <-. simpl. rewrite (lc_refs _ _ H k f Hk Hf).
      pose proof (sum_threads_ge (refers k) ths i t (fun _ x _ => refers_nonneg k x) Hi). pose proof (refers_nonneg k t). lia.
    + destruct (Hold j g Hj E Hg). by apply (Hpos j g).
Qed.

(** A thread moves and neither refers to another lock nor owns another. *)
Lemma move_inv d ths i t t' :
  lcore d ths -> ths !! i = Some t -> tref t' = tref t -> owned t' = owned t -> (is_Some (tref t) -> thash t' = thash t) -> ltinv t' ->
  lcore d (<[i := t']> ths).
Proof.
  intros H Hi Ht Ho Hth Hinv.
  assert (lcore (adj 0 0 0 d) (<[i := t']> ths)) as Hc.
  { eapply (lcore_update d ths i t t' 0 0 0); try done.
    - intros j. rewrite (refers_same j t t') by done. case_decide; lia.
    - intros j. rewrite (owns_same j t t') by done. case_decide; lia.
    - intros f Hf. destruct (lc_val _ _ H 0%nat f Hf). lia.
    - intros j Hj. rewrite Ht in Hj. rewrite Hth by by eexists. by apply (lc_ref _ _ H i t). }
  replace d with (adj 0 0 0 d); [done|]. unfold adj. destruct d as [fs u fr]; simpl. f_equal.
  apply list_eq. intros j. destruct (decide (j = 0%nat)) as [->|Hne].
  - rewrite list_lookup_alter_eq. destruct (fs !! 0%nat) as [[]|]; simpl; [|done]. by rewrite !Z.add_0_r.
  - by rewrite list_lookup_alter_ne.
Qed.

(** A thread takes the lock it refers to. *)
Lemma take_inv d ths i t p k :
  lcore d ths -> lpos d -> ths !! i = Some t -> tref t = Some k -> owned t = None -> after_unlock p -> p = lprog t ->
  value_of d k <> 0 ->
  lcore (add_val k (-1) d) (<[i := mkLt LIdle p (Some k)]> ths) /\ lpos (add_val k (-1) d).
Proof.
  intros H Hpos Hi Ht Ho Hp -> Hv. rewrite add_val_adj. split.
  - eapply (lcore_update d ths i t _ k 0 (-1)); try done.
    + right. by split; [eexists|].
    + intros j. unfold refers. rewrite Ht. simpl. repeat case_decide; naive_solver.
    + intros j. unfold owns. rewrite Ho. simpl. repeat case_decide; naive_solver.
    + intros f Hf. destruct (lc_val _ _ H k f Hf). unfold value_of in Hv. rewrite Hf in Hv. simpl in Hv. lia.
    + intros j [= <-]. destruct (lc_ref _ _ H i t k Hi Ht) as (? & f & ? & Hth). split; [done|]. by exists f.
  - intros j g Hj Hg. simpl in Hj. rewrite adj_lookup in Hg. case_decide; [|by apply (Hpos j)].
    destruct (ffs d !! j) as [f|] eqn:Ef; [|done]. injection Hg as <-. simpl. rewrite Z.add_0_r. by apply (Hpos j).
Qed.

(** A reference is dropped and it was not the last one. *)
Lemma unref_inv d ths i t t' k :
  lcore d ths -> lpos d -> ths !! i = Some t -> tref t = Some k -> owned t = None -> tref t' = None -> owned t' = None ->
  ltinv t' -> refs_of d k <> 1 ->
  lcore (add_refs k (-1) d) (<[i := t']> ths) /\ lpos (add_refs k (-1) d).
Proof.
  intros H Hpos Hi Ht Ho Ht' Ho' Hinv Hr. rewrite add_refs_adj. split.
  - eapply (lcore_update d ths i t t' k (-1) 0); try done.
    + intros j. unfold refers. rewrite Ht, Ht'. repeat case_decide; naive_solver.
    + intros j. rewrite (owns_same j t t') by congruence. case_decide; lia.
    + intros f Hf. destruct (lc_val _ _ H k f Hf). lia.
    + congruence.
  - intros j g Hj Hg. simpl in Hj. rewrite adj_lookup in Hg. case_decide as E; [|by apply (Hpos j)].
    destruct (ffs d !! j) as [f|] eqn:Ef; [|done]. injection Hg as <-. simpl. pose proof (Hpos j f Hj Ef).
    unfold refs_of in Hr. subst j. rewrite Ef in Hr. simpl in Hr. lia.
Qed.

(** A lock without references goes back to the free list. *)
Lemma put_core d ths k :
  lcore d ths -> k ∈ used d -> refs_of d k = 0 ->
  lcore (put_filelock k (mkFld (ffs d) (filter (fun j => j <> k) (used d)) (free_list d))) ths.
Proof.
  intros H Hk Hr. destruct (lookup_used d ths k H Hk) as [f0 Hf0].
  assert (sum_threads (refers k) ths = 0) as Hz.
  { unfold refs_of in Hr. rewrite Hf0 in Hr. simpl in Hr. rewrite <- (lc_refs _ _ H k f0 Hk Hf0). done. }
  pose proof (used_nodup d ths H) as Hnd. apply NoDup_app in Hnd as (Hndu & _ & _).
  destruct H as [H1 H2 H3 H4 H5 H6 H7]. constructor; simpl; try done.
  - rewrite <- H1, <- Permutation_middle. change (k :: filter _ (used d) ++ free_list d) with ((k :: filter (fun j => j <> k) (used d)) ++ free_list d).
    apply Permutation_app_tail. symmetry. apply NoDup_Permutation; [done| |].
    + apply NoDup_cons. split; [rewrite list_elem_of_filter; tauto|by apply NoDup_filter].
    + intros j. rewrite elem_of_cons, list_elem_of_filter. destruct (decide (j = k)) as [->|]; tauto.
  - intros j j' f f' [_ Hj]%list_elem_of_filter [_ Hj']%list_elem_of_filter. by apply H3.
  - intros j f [_ Hj]%list_elem_of_filter. by apply H4.
  - intros i t j Hi Hj. destruct (H7 i t j Hi Hj) as (Hu & f & Hf & Hth). split; [|by eauto].
    apply list_elem_of_filter. split; [|done]. intros ->.
    pose proof (sum_threads_ge (refers k) ths i t (fun _ x _ => refers_nonneg k x) Hi) as Hge.
    unfold refers in Hge at 1. rewrite decide_True in Hge by done. lia.
Qed.

(** The owner of the lock for a hash unlocks it. *)
Lemma unlock_inv d ths i n p k :
  lcore d ths -> lpos d -> ths !! i = Some (mkLt LIdle (CUnlock n :: p) (Some k)) -> lpaired p = true ->
  lcore (fio_unlock_file (lock_hash n) d) (<[i := mkLt LIdle p None]> ths) /\ lpos (fio_unlock_file (lock_hash n) d).
Proof.
  intros H Hpos Hi Hp. destruct (lc_ref _ _ H i _ k Hi eq_refl) as (Hk & f & Hf & Hth). injection Hth as Hth.
  assert (fio_hash_find d (lock_hash n) = Some k) as Hfind.
  { pose proof (fio_hash_find_spec d (lock_hash n)) as Hs. destruct (fio_hash_find d (lock_hash n)) as [j|].
    - destruct Hs as (Hj & g & Hg & Hh). f_equal. apply (lc_hash _ _ H j k g f); congruence.
    - by destruct (Hs k f Hk Hf). }
  assert (add_val k 1 (add_refs k (-1) d) = adj k (-1) 1 d) as Eadj.
  { unfold add_val, add_refs, adj. simpl. f_equal. apply list_eq. intros j. destruct (decide (j = k)) as [->|Hne].
    - rewrite !list_lookup_alter_eq. by destruct (ffs d !! k) as [[]|].
    - by rewrite !list_lookup_alter_ne. }
  assert (lcore (adj k (-1) 1 d) (<[i := mkLt LIdle p None]> ths)) as Hc.
  { eapply (lcore_update d ths i _ _ k (-1) 1); [done|exact Hi|by left|..].
    - intros j. unfold refers. simpl. unfold tref in *; simpl in *; repeat case_decide; simplify_eq; (lia || congruence).
    - intros j. unfold owns. simpl. unfold tref in *; simpl in *; repeat case_decide; simplify_eq; (lia || congruence).
    - intros g Hg. destruct (lc_val _ _ H k g Hg). lia.
    - done. }
  unfold fio_unlock_file. rewrite Hfind, Eadj. rewrite adj_lookup, decide_True, Hf by done. cbn [fmap option_fmap option_map references].
  pose proof (Hpos k f Hk Hf) as Hpk.
  destruct (Z.eqb_spec (references f + -1) 0) as [E|E].
  - split.
    + apply (put_core (adj k (-1) 1 d)); [done|done|]. unfold refs_of. rewrite adj_lookup, decide_True, Hf by done. done.
    + intros j g Hj Hg. simpl in Hj. apply list_elem_of_filter in Hj as [Hne Hj]. cbn [ffs put_filelock] in Hg.
      rewrite adj_lookup, decide_False in Hg by done. by apply (Hpos j).
  - split; [done|]. intros j g Hj Hg. simpl in Hj. rewrite adj_lookup in Hg. case_decide; [|by apply (Hpos j)].
    subst j. rewrite Hf in Hg. injection Hg as <-. simpl. lia.
Qed.

Lemma lpaired_cons c p :
  lpaired (c :: p) = true -> exists n r, (c = CLock n \/ c = CTryLock n) /\ p = CUnlock n :: r /\ lpaired r = true.
Proof.
  simpl. destruct p as [|[] r]; try done.
  destruct c as [m|m|m]; try done; intros [E%bool_decide_eq_true Hr]%andb_true_iff; subst; eauto 10.
Qed.

Lemma lstep_inv s s' : linv s -> lstep s s' -> linv s'.
Proof.
  intros [Hc Hp] (Hab & i & t & Hi & H). pose proof (lc_thread _ _ Hc i t Hi) as Hti.
  unfold run_lthread in H. destruct t as [c p o]; unfold ltinv in Hti; simpl in H, Hti.
  destruct c as [|h|k|k|k].
  - destruct p as [|c p]; [done|]. destruct Hti as [[-> Hpr]|[[k ->] (n & r & [= -> ->] & Hr)]].
    + apply lpaired_cons in Hpr as (n & r & Hcall & -> & Hr).
      assert (after_unlock (CUnlock n :: r)) as Hau by by exists n, r.
      destruct Hcall as [-> | ->]; destruct (fio_hash_get (lock_hash n) (fld s)) as [[k d']|] eqn:Eg; injection H as <-; unfold linv; simpl.
      * eapply ref_inv; [by eapply hash_get_got|done|exact Hi|done..].
      * split; [|done]. eapply move_inv; [done|exact Hi|done|done|by intros []|done].
      * eapply ref_inv; [by eapply hash_get_got|done|exact Hi|done..].
      * done.
    + injection H as <-. by apply (unlock_inv _ _ i n r k).
  - destruct (fio_hash_get_retry h (fld s)) as [[k d']|] eqn:Eg; [|done]. injection H as <-.
    destruct Hti as (-> & Hau & Hth). eapply ref_inv; [by eapply hash_get_retry_got|done|exact Hi|done..].
  - destruct (Z.eqb_spec (value_of (fld s) k) 0) as [|Hv]; [done|]. injection H as <-. destruct Hti as [-> Hau].
    by eapply take_inv.
  - destruct Hti as [-> Hau]. destruct (Z.eqb_spec (value_of (fld s) k) 0) as [Hv|Hv]; injection H as <-.
    + split; [|done]. by eapply move_inv.
    + by eapply take_inv.
  - destruct Hti as [-> Hau]. destruct (Z.eqb_spec (refs_of (fld s) k) 1) as [Hv|Hv]; injection H as <-.
    + split; [|done]. by eapply move_inv.
    + eapply unref_inv; [done|done|exact Hi|done|done|done|done| |done]. left. split; [done|]. by destruct Hau as (n & r & -> & Hr).
Qed.

Lemma linv_start progs : Forall (fun p => lpaired p = true) progs -> linv (lstart progs).
Proof.
  intros Hp.
  assert (forall i t, lthreads (lstart progs) !! i = Some t -> t = mkLt LIdle (lprog t) None /\ ltinv t) as Ht.
  { intros i t Hi. simpl in Hi. apply list_lookup_fmap_Some in Hi as (p & -> & Hi). split; [done|]. left.
    split; [done|]. by apply (Forall_lookup_1 _ _ _ _ Hp Hi). }
  split.
  - constructor; try (simpl; set_solver).
    + intros k f Hf. rewrite sum_threads_zero.
      * unfold lstart, fio_filelock_init in Hf. cbn [fld ffs] in Hf. apply lookup_replicate in Hf as [-> _]. done.
      * intros i t Hi. destruct (Ht i t Hi) as [-> _]. done.
    + intros i t k Hi. destruct (Ht i t Hi) as [-> _]. done.
  - intros k f Hk. simpl in Hk. set_solver.
Qed.

Lemma reachable_linv s s' : linv s -> rtc lstep s s' -> linv s'.
Proof. intros Hinv H. revert Hinv. induction H as [|s1 s2 s3 Hs _ IH]; [done|]. intros Hi. by apply IH, (lstep_inv s1). Qed.

(** * Every run ends, with all locks given back *)

Definition lpc_weight (c : lpc) : Z :=
  match c with LIdle => 0 | LRetry _ => 4 | LDown _ => 1 | LTry _ => 3 | LTryFail _ => 2 end.
Definition lt_weight (t : lthread) : Z := lpc_weight (lpc_of t) + 5 * Z.of_nat (length (lprog t)).
Definition lremaining (s : lstate) : Z :=
  sum_threads lt_weight (lthreads s) + (if laborted s then 0 else 1).

Lemma lstep_remaining s s' : lstep s s' -> lremaining s' < lremaining s.
Proof.
  intros (Hab & i & t & Hi & H). unfold lremaining. rewrite Hab.
  pose proof (fun t' => sum_threads_insert lt_weight (lthreads s) i t t' Hi) as Hs.
  unfold run_lthread in H. destruct t as [c p o]; simpl in H.
  destruct c as [|h|k|k|k]; [destruct p as [|[] p]; [done|..]|destruct (fio_hash_get_retry _ _) as [[]|]; [simpl in H|done]|..];
    repeat case_match; simplify_eq; cbn [lthreads laborted set_lt]; rewrite ?Hab, ?Hs;
    set (W := sum_threads lt_weight (lthreads s)); unfold lt_weight; simpl; rewrite ?length_tl; lia.
Qed.

Lemma lremaining_nonneg s : 0 <= lremaining s.
Proof.
  unfold lremaining, sum_threads. assert (0 <= if laborted s then 0 else 1) by by destruct (laborted s).
  induction (lthreads s) as [|t l IH]; simpl; [lia|].
  assert (0 <= lt_weight t) by (unfold lt_weight; destruct (lpc_of t); simpl; lia). lia.
Qed.

Lemma lnsteps_remaining n s s' : nsteps lstep n s s' -> Z.of_nat n + lremaining s' <= lremaining s.
Proof. induction 1 as [|n s1 s2 s3 H _ IH]; [lia|]. apply lstep_remaining in H. lia. Qed.

Lemma can_step s i t s' :
  (forall s2, ~ lstep s s2) -> laborted s = false -> lthreads s !! i = Some t -> run_lthread i t s <> Some s'.
Proof. intros Hst Hab Hi E. apply (Hst s'). split; [done|]. by exists i, t. Qed.

(** Where no thread can step, one that owns nothing is done, and one that waits
    for a lock waits for an owner, which can step. *)
Lemma lstuck_idle s i t :
  linv s -> (forall s2, ~ lstep s s2) -> laborted s = false -> lthreads s !! i = Some t ->
  owned t = None /\ tref t = None /\ (lpc_of t = LIdle -> lprog t = []).
Proof.
  intros [Hc Hp] Hst Hab Hi.
  assert (forall j u, lthreads s !! j = Some u -> owned u = None) as Hown.
  { intros j u Hj. pose proof (fun s' => can_step s j u s' Hst Hab Hj) as Hgo.
    pose proof (lc_thread _ _ Hc j u Hj) as Hu. unfold ltinv in Hu. unfold run_lthread in Hgo.
    destruct (lpc_of u) eqn:Ep; try tauto. destruct Hu as [[? _]|[_ (n & r & E & _)]]; [done|].
    rewrite E in Hgo. by destruct (Hgo _ eq_refl). }
  split; [by apply (Hown i)|]. pose proof (fun s' => can_step s i t s' Hst Hab Hi) as Hgo.
  unfold run_lthread in Hgo. unfold tref. destruct (lpc_of t) eqn:Ep.
  - split; [by apply (Hown i)|]. intros _. destruct (lprog t) as [|[] p]; [done|exfalso..];
      repeat case_match; by eapply Hgo.
  - split; [by apply (Hown i)|done].
  - exfalso. destruct (Z.eqb_spec (value_of (fld s) k) 0) as [Hv|Hv]; [|by eapply Hgo].
    destruct (lc_ref _ _ Hc i t k Hi) as (_ & f & Hf & _); [unfold tref; by rewrite Ep|].
    unfold value_of in Hv. rewrite Hf in Hv. simpl in Hv. destruct (lc_val _ _ Hc k f Hf) as [Hval _].
    destruct (sum_threads_some (owns k) (lthreads s)) as (j & u & Hj & Hu); [lia|].
    unfold owns in Hu. rewrite (Hown j u Hj) in Hu. simpl in Hu. lia.
  - exfalso. case_match; by eapply Hgo.
  - exfalso. case_match; by eapply Hgo.
Qed.

Lemma lstuck s :
  linv s -> (forall s2, ~ lstep s s2) -> laborted s = false ->
  (forall i t, lthreads s !! i = Some t -> lpc_of t = LIdle /\ lprog t = []) /\
  used (fld s) = [] /\ free_list (fld s) ≡ₚ seq 0 MAX_FILELOCKS.
Proof.
  intros Hinv Hst Hab. pose proof (fun i t => lstuck_idle s i t Hinv Hst Hab) as Hid. destruct Hinv as [Hc Hp].
  assert (used (fld s) = []) as Hu.
  { destruct (used (fld s)) as [|k l] eqn:Eu; [done|]. exfalso.
    assert (k ∈ used (fld s)) as Hk by (rewrite Eu; left). destruct (lookup_used _ _ k Hc Hk) as [f Hf].
    pose proof (Hp k f Hk Hf) as H1. rewrite (lc_refs _ _ Hc k f Hk Hf) in H1.
    destruct (sum_threads_some (refers k) (lthreads s)) as (j & u & Hj & Hu); [lia|].
    destruct (Hid j u Hj) as (_ & E & _). unfold refers in Hu. rewrite E in Hu. simpl in Hu. lia. }
  pose proof (lc_perm _ _ Hc) as Hperm. rewrite Hu in Hperm. simpl in Hperm. split_and!; try done.
  intros i t Hi. destruct (Hid i t Hi) as (Ho & Ht & Hprog).
  pose proof (fun s' => can_step s i t s' Hst Hab Hi) as Hgo. unfold run_lthread in Hgo. unfold tref in Ht.
  destruct (lpc_of t) eqn:Ep; try done; [by split; [|apply Hprog]|]. exfalso.
  destruct (fio_hash_get_retry h (fld s)) as [[k d']|] eqn:Eg; [by eapply Hgo|].
  apply hash_get_retry_none in Eg. rewrite Eg in Hperm. by apply Permutation_nil_l in Hperm.
Qed.

(** fio_filelock_exit removes the locks of the free list; a lock still in use
    fails its assertion. *)
Definition fio_filelock_exit (d : filelock_data) : option (list nat) :=
  match used d with [] => Some (free_list d) | _ => None end.

Lemma omap_tref_cons x l : omap tref (x :: l) = match tref x with Some k => k :: omap tref l | None => omap tref l end.
Proof. done. Qed.

Lemma omap_length_le (l : list lthread) : (length (omap tref l) <= length l)%nat.
Proof. induction l as [|y l IH]; [done|]. rewrite omap_tref_cons. destruct (tref y); simpl length; lia. Qed.

Lemma omap_length_lt (l : list lthread) i t :
  l !! i = Some t -> tref t = None -> (length (omap tref l) < length l)%nat.
Proof.
  revert i. induction l as [|x l IH]; intros i Hi Ht; [done|]. rewrite omap_tref_cons.
  destruct i as [|i]; simpl in Hi.
  - injection Hi as ->. rewrite Ht. pose proof (omap_length_le l). simpl length. lia.
  - specialize (IH i Hi Ht). destruct (tref x); simpl length; lia.
Qed.

(** With a thread that refers to no lock, the locks in use are fewer than the
    threads. *)
Lemma used_lt_threads s i t :
  linv s -> lthreads s !! i = Some t -> tref t = None -> (length (used (fld s)) < length (lthreads s))%nat.
Proof.
  intros [Hc Hp] Hi Ht. pose proof (omap_length_lt (lthreads s) i t Hi Ht) as Hlt.
  enough (length (used (fld s)) <= length (omap tref (lthreads s)))%nat by lia.
  apply submseteq_length, NoDup_submseteq.
  { pose proof (used_nodup _ _ Hc) as Hnd. by apply NoDup_app in Hnd as (? & _). }
  intros k Hk. destruct (lookup_used _ _ k Hc Hk) as [f Hf]. pose proof (Hp k f Hk Hf) as H1.
  rewrite (lc_refs _ _ Hc k f Hk Hf) in H1.
  destruct (sum_threads_some (refers k) (lthreads s)) as (j & u & Hj & Hu); [lia|].
  apply list_elem_of_omap. exists u. split; [by eapply list_elem_of_lookup_2|].
  unfold refers in Hu. case_decide; [done|lia].
Qed.

Lemma lstep_no_abort s s' :
  linv s -> (length (lthreads s) <= MAX_FILELOCKS)%nat -> lstep s s' ->
  laborted s' = false /\ length (lthreads s') = length (lthreads s).
Proof.
  intros Hinv Hlen (Hab & i & t & Hi & H). pose proof Hinv as [Hc _].
  pose proof (lc_thread _ _ Hc i t Hi) as Hti. unfold run_lthread in H. destruct t as [c p o]; unfold ltinv in Hti; simpl in H, Hti.
  destruct c as [|h|k|k|k]; [|destruct (fio_hash_get_retry _ _) as [[]|]; [simpl in H|done]|..];
    try (repeat case_match; simplify_eq; simpl; rewrite ?length_insert; done).
  destruct p as [|[n|n|n] p]; [done|..]; try (repeat case_match; simplify_eq; simpl; rewrite ?length_insert; done).
  destruct (fio_hash_get (lock_hash n) (fld s)) as [[k d']|] eqn:Eg;
    [injection H as <-; simpl; by rewrite length_insert|]. exfalso.
  apply hash_get_none in Eg. pose proof (lc_perm _ _ Hc) as Hperm. rewrite Eg, app_nil_r in Hperm.
  apply Permutation_length in Hperm. rewrite length_seq in Hperm.
  destruct Hti as [[-> _]|[_ (m & r & [=] & _)]].
  pose proof (used_lt_threads s i _ Hinv Hi eq_refl). lia.
Qed.

(** The owners of locks for one hash are one thread. *)
Lemma owners_unique d ths i j t u k k' n r m q :
  lcore d ths -> ths !! i = Some t -> ths !! j = Some u -> owned t = Some k -> owned u = Some k' ->
  lprog t = CUnlock n :: r -> lprog u = CUnlock m :: q -> lock_hash n = lock_hash m -> i = j.
Proof.
  intros Hc Hi Hj Ht Hu Ept Epu Hh.
  assert (forall l x z, ths !! l = Some x -> owned x = Some z -> tref x = Some z) as Href.
  { intros l x z Hx Ho. pose proof (lc_thread _ _ Hc l x Hx) as Hinv. unfold ltinv in Hinv. unfold tref.
    destruct (lpc_of x); naive_solver. }
  destruct (lc_ref _ _ Hc i t k Hi (Href i t k Hi Ht)) as (Hk & f & Hf & Hth).
  destruct (lc_ref _ _ Hc j u k' Hj (Href j u k' Hj Hu)) as (Hk' & f' & Hf' & Hth').
  unfold thash in Hth, Hth'. rewrite Ept in Hth. rewrite Epu in Hth'.
  assert (k = k') as <- by (apply (lc_hash _ _ Hc k k' f f'); try done; congruence).
  destruct (decide (i = j)) as [|Hne]; [done|]. exfalso.
  pose proof (sum_threads_ge2 (owns k) ths i j t u (fun _ x _ => owns_nonneg k x) Hi Hj Hne) as Hs.
  unfold owns in Hs at 1 2. rewrite Ht, Hu, !decide_True in Hs by done.
  destruct (lc_val _ _ Hc k f Hf). lia.
Qed.

(** C30: the file locks exclude, and are all given back.  Any number of threads
    lock names (fio_lock_file, or fio_trylock_file followed by the unlock only
    when it succeeded) and unlock them, interleaved.  Two threads never hold
    locks of the same name; with at most MAX_FILELOCKS threads the assertion of
    __fio_lock_file does not fail; from any point on every run ends within the
    given number of steps, and where no thread can go on (and no assertion has
    failed) all have made all their calls and every lock is back on the free
    list, so that the assertion of fio_filelock_exit holds. *)
Theorem file_lock_correct progs s :
  Forall (fun p => lpaired p = true) progs -> rtc lstep (lstart progs) s ->
  (forall i j t u n r m q, lthreads s !! i = Some t -> lthreads s !! j = Some u ->
     is_Some (owned t) -> is_Some (owned u) -> lprog t = CUnlock n :: r -> lprog u = CUnlock m :: q ->
     lock_hash n = lock_hash m -> i = j) /\
  ((length progs <= MAX_FILELOCKS)%nat -> laborted s = false) /\
  forall n s', nsteps lstep n s s' ->
    Z.of_nat n <= lremaining s /\
    ((forall s2, ~ lstep s' s2) -> laborted s' = false ->
     (forall i t, lthreads s' !! i = Some t -> lpc_of t = LIdle /\ lprog t = []) /\
     exists removed, fio_filelock_exit (fld s') = Some removed /\ removed ≡ₚ seq 0 MAX_FILELOCKS).
Proof.
  intros Hp Hr. pose proof (reachable_linv _ _ (linv_start progs Hp) Hr) as Hinv. split_and!.
  - intros i j t u n r m q Hi Hj [k Ht] [k' Hu] Ept Epu Hh. destruct Hinv as [Hc _].
    by apply (owners_unique (fld s) (lthreads s) i j t u k k' n r m q).
  - intros Hlen. assert (laborted s = false /\ length (lthreads s) = length progs) as [? _]; [|done].
    clear Hinv. pose proof (linv_start progs Hp) as Hinv.
    assert (laborted (lstart progs) = false /\ length (lthreads (lstart progs)) = length progs) as H0
      by (split; [done|simpl; apply length_fmap]).
    revert Hinv H0. induction Hr as [|s1 s2 s3 Hs _ IH]; [done|]. intros Hinv [Hab Hl].
    destruct (lstep_no_abort s1 s2 Hinv ltac:(lia) Hs). apply IH; [by apply (lstep_inv s1)|]. split; [done|lia].
  - intros n s' Hn. split.
    { pose proof (lnsteps_remaining n s s' Hn). pose proof (lremaining_nonneg s'). lia. }
    intros Hst Hab. assert (linv s') as Hinv' by (apply (reachable_linv s); [done|by apply (rtc_nsteps_2 n)]).
    destruct (lstuck s' Hinv' Hst Hab) as (Hall & Hu & Hf). split; [done|].
    exists (free_list (fld s')). unfold fio_filelock_exit. by rewrite Hu.
Qed.

(** * Concrete runs *)

(** Run the threads in the given order, skipping those that cannot move. *)
Fixpoint lrun (l : list nat) (s : lstate) : lstate :=
  match l with
  | [] => s
  | i :: l' =>
      match (if laborted s then None else t ← lthreads s !! i; run_lthread i t s) with
      | Some s' => lrun l' s'
      | None => lrun l' s
      end
  end.

Lemma lrun_rtc l s : rtc lstep s (lrun l s).
Proof.
  revert s. induction l as [|i l IH]; intros s; simpl; [done|].
  destruct (laborted s) eqn:Hab; [apply IH|]. destruct (lthreads s !! i) as [t|] eqn:Hi; [|apply IH]. simpl.
  destruct (run_lthread i t s) as [s'|] eqn:E; [|apply IH].
  econstructor; [split; [done|by exists i, t]|apply IH].
Qed.

Definition name_of (n : nat) : bytes := [Byte.x61; default NUL (Byte.of_N (N.of_nat (n + 1)))].

(** Two threads contend for a name: the trylock of the second fails. *)
Definition two_lockers : list (list lcall) :=
  [[CLock (name_of 0); CUnlock (name_of 0)];
   [CTryLock (name_of 0); CUnlock (name_of 0); CLock (name_of 1); CUnlock (name_of 1)]].

Lemma file_lock_correct_witness :
  let s := lrun [0; 0; 1; 1; 1]%nat (lstart two_lockers) in
  owned <$> lthreads s = [Some 0%nat; None] /\ laborted s = false /\
  forall n s', nsteps lstep n s s' -> Z.of_nat n <= 16.
Proof.
  intros s. destruct (file_lock_correct two_lockers s) as (_ & Hab & Hrun); [repeat constructor|apply lrun_rtc|].
  split_and!; [vm_compute; reflexivity|apply Hab; vm_compute; lia|].
  intros n s' Hn. replace 16 with (lremaining s) by (vm_compute; reflexivity). by apply (Hrun n s').
Defined.

(** With all locks in use fio_trylock_file fails an assertion (its caller asked
    for a failure to be reported). *)
Definition crowd : list (list lcall) :=
  ((fun n => [CLock (name_of n); CUnlock (name_of n)]) <$> seq 0 MAX_FILELOCKS) ++
  [[CTryLock (name_of 200); CUnlock (name_of 200)]].

Lemma trylock_aborts : laborted (lrun (seq 0 129 ++ [0]%nat) (lstart crowd)) = true.
Proof. vm_compute. reflexivity. Qed.

(** Names that the hash confuses share a lock: a thread waits for another that
    locked a different file. *)
Definition long_name (b : byte) : bytes := Byte.x61 :: b :: replicate 12 Byte.x63.
Lemma names_share_lock :
  long_name Byte.x61 <> long_name Byte.x62 /\ lock_hash (long_name Byte.x61) = lock_hash (long_name Byte.x62).
Proof. split; [done|vm_compute; reflexivity]. Qed.
