(* ===== verification/NetCmd.v ===== *)
(** The wire protocol between fio's client and server (src/fio/server.c): a
    command is a header of 24 bytes, little endian, with a checksum of its own
    and one of the payload; payloads are cut into fragments of 1024 bytes.  The
    two ends of a socket are the bytes written and the bytes to be read, with
    what the calls of writev and recv return as lists of events: any number of
    bytes, EAGAIN or EINTR, an error or the end of the stream.  Allocations
    succeed and exit_backend is not set. *)
From S2P Require Import Prelude Blocks Crc.
#[local] Open Scope Z_scope.

Definition FIO_SERVER_VER : Z := 65.
Definition FIO_SERVER_MAX_FRAGMENT_PDU : Z := 1024.
Definition FIO_SERVER_MAX_CMD_MB : Z := 2048.
Definition FIO_NET_CMD_JOB : Z := 3.
Definition FIO_NET_CMD_TEXT : Z := 5.
Definition FIO_NET_CMD_F_MORE : Z := 1.
Definition sizeof_net_cmd : Z := 24.
Definition FIO_NET_CMD_CRC_SZ : Z := sizeof_net_cmd - 2 * 2.

(** The header, in the byte order of the host. *)
Record fio_net_cmd : Type := mkCmd {
  version : Z; opcode : Z; cmd_flags : Z; tag : Z; pdu_len : Z; cmd_crc16 : Z; pdu_crc16 : Z
}.

(** The checksummed part of the header, and the whole of it, in memory. *)
Definition cmd_head (c : fio_net_cmd) : bytes :=
  le_split 2 (version c) ++ le_split 2 (opcode c) ++ le_split 4 (cmd_flags c) ++ le_split 8 (tag c) ++
  le_split 4 (pdu_len c).
Definition cmd_bytes (c : fio_net_cmd) : bytes :=
  cmd_head c ++ le_split 2 (cmd_crc16 c) ++ le_split 2 (pdu_crc16 c).
Definition field (raw : bytes) (off n : nat) : Z := le_combine (take n (drop off raw)).
Definition cmd_of_bytes (raw : bytes) : fio_net_cmd :=
  mkCmd (field raw 0 2) (field raw 2 2) (field raw 4 4) (field raw 8 8) (field raw 16 4)
    (field raw 20 2) (field raw 22 2).

(** * Sending *)

Inductive wevent : Type := WSent (n : nat) | WAgain | WFail.

Record wsock : Type := mkW { tx : bytes; wevents : list wevent }.

(** Past the bytes that were written; [None] when that is past the array. *)
Fixpoint iov_advance (ret : nat) (iov : list bytes) : option (list bytes) :=
  match ret with
  | O => Some iov
  | _ =>
      match iov with
      | [] => None
      | b :: iov' => if (length b <=? ret)%nat then iov_advance (ret - length b) iov' else Some (drop ret b :: iov')
      end
  end.

(** The loop of fio_sendv_data: [iov] is the array from the pointer on, [count]
    is never changed.  [None]: an access outside the array, or no return. *)
Fixpoint sendv_loop (evs : list wevent) (iov : list bytes) (count : nat) (total_len : nat) (out : bytes) :
    option (Z * wsock) :=
  match evs with
  | [] => None
  | WAgain :: evs' => sendv_loop evs' iov count total_len out
  | WFail :: evs' => Some (if (total_len =? 0)%nat then 0 else 1, mkW out evs')
  | WSent n :: evs' =>
      if (length iov <? count)%nat then None
      else
        let data := concat (take count iov) in
        let ret := Nat.min n (length data) in
        if (ret =? 0)%nat then Some (if (total_len =? 0)%nat then 0 else 1, mkW out evs')
        else
          let out := out ++ take ret data in
          let total_len := (total_len - ret)%nat in
          if (total_len =? 0)%nat then Some (0, mkW out evs')
          else iov ← iov_advance ret iov; sendv_loop evs' iov count total_len out
  end.

Definition iov_total_len (iov : list bytes) (count : nat) : nat := length (concat (take count iov)).

Definition fio_sendv_data (sk : wsock) (iov : list bytes) (count : nat) : option (Z * wsock) :=
  sendv_loop (wevents sk) iov count (iov_total_len iov count) (tx sk).

(** The assertion on the length; [None] when it fails. *)
Definition fio_send_data (sk : wsock) (p : bytes) : option (Z * wsock) :=
  if Z.of_nat (length p) <=? sizeof_net_cmd + FIO_SERVER_MAX_FRAGMENT_PDU
  then fio_sendv_data sk [p] 1 else None.

Definition __fio_init_net_cmd (op : Z) (plen : Z) (tg : Z) : fio_net_cmd :=
  mkCmd FIO_SERVER_VER (u16 op) 0 (u64 tg) (u32 plen) 0 0.

Definition set_flags (c : fio_net_cmd) (f : Z) : fio_net_cmd :=
  mkCmd (version c) (opcode c) f (tag c) (pdu_len c) (cmd_crc16 c) (pdu_crc16 c).

(** The checksums of the header and of [pdu_len] bytes at [pdu]. *)
Definition fio_net_cmd_crc_pdu (c : fio_net_cmd) (pdu : bytes) : option fio_net_cmd :=
  hc ← fio_crc16 (cmd_head c);
  p ← copy_from pdu 0 (pdu_len c);
  pc ← fio_crc16 p;
  Some (mkCmd (version c) (opcode c) (cmd_flags c) (tag c) (pdu_len c) (u16 hc) (u16 pc)).

(** The loop of fio_net_send_cmd over the rest [buf] of the payload. *)
Fixpoint send_cmd_loop (fuel : nat) (sk : wsock) (op : Z) (buf : bytes) (tg : Z) : option (Z * wsock) :=
  match fuel with
  | O => None
  | S fuel' =>
      let size := Z.of_nat (length buf) in
      let this_len := if FIO_SERVER_MAX_FRAGMENT_PDU <? size then FIO_SERVER_MAX_FRAGMENT_PDU else size in
      let c := __fio_init_net_cmd op this_len tg in
      let c := if this_len <? size then set_flags c FIO_NET_CMD_F_MORE else c in
      let payload := take (Z.to_nat this_len) buf in
      c ← fio_net_cmd_crc_pdu c payload;
      '(ret, sk) ← fio_send_data sk (cmd_bytes c ++ payload);
      let buf := drop (Z.to_nat this_len) buf in
      if negb (ret =? 0) then Some (ret, sk)
      else match buf with [] => Some (ret, sk) | _ => send_cmd_loop fuel' sk op buf tg end
  end.

Definition fio_net_send_cmd (sk : wsock) (op : Z) (buf : bytes) (tg : Z) : option (Z * wsock) :=
  send_cmd_loop (S (length buf)) sk op buf tg.

(** A command without payload. *)
Definition fio_net_send_simple_stack_cmd (sk : wsock) (op tg : Z) : option (Z * wsock) :=
  c ← fio_net_cmd_crc_pdu (__fio_init_net_cmd op 0 tg) [];
  fio_send_data sk (cmd_bytes c).

(** The loop of fio_send_cmd_ext_pdu: header and payload are two entries of an
    array, and [flags] are those of the caller. *)
Fixpoint ext_pdu_loop (fuel : nat) (sk : wsock) (op : Z) (buf : bytes) (tg flags : Z) : option (Z * wsock) :=
  match fuel with
  | O => None
  | S fuel' =>
      let size := Z.of_nat (length buf) in
      let this_len := if FIO_SERVER_MAX_FRAGMENT_PDU <? size then FIO_SERVER_MAX_FRAGMENT_PDU else size in
      let this_flags := if this_len <? size then Z.lor flags FIO_NET_CMD_F_MORE else flags in
      c ← fio_net_cmd_crc_pdu (set_flags (__fio_init_net_cmd op this_len tg) this_flags) buf;
      '(ret, sk) ← fio_sendv_data sk [cmd_bytes c; take (Z.to_nat this_len) buf] 2;
      let buf := drop (Z.to_nat this_len) buf in
      if negb (ret =? 0) then Some (ret, sk)
      else match buf with [] => Some (ret, sk) | _ => ext_pdu_loop fuel' sk op buf tg flags end
  end.

Definition fio_send_cmd_ext_pdu (sk : wsock) (op : Z) (buf : bytes) (tg flags : Z) : option (Z * wsock) :=
  ext_pdu_loop (S (length buf)) sk op buf tg flags.

(** * Receiving *)

Inductive revent : Type := RGot (n : nat) | RAgain | REof | RFail.

Record rsock : Type := mkR { rx : bytes; revents : list revent }.

(** The loop of fio_recv_data; a recv that has nothing to read yet waits.
    [None]: no more events, the call does not return. *)
Fixpoint recv_loop (evs : list revent) (rxb : bytes) (len : nat) (wait : bool) (got : bytes) :
    option (Z * bytes * rsock) :=
  match evs with
  | [] => None
  | RAgain :: evs' =>
      if wait then recv_loop evs' rxb len wait got
      else Some (if (len =? 0)%nat then 0 else -1, got, mkR rxb evs')
  | REof :: evs' | RFail :: evs' => Some (if (len =? 0)%nat then 0 else -1, got, mkR rxb evs')
  | RGot n :: evs' =>
      let ret := Nat.min n (Nat.min len (length rxb)) in
      let got := got ++ take ret rxb in
      let rxb := drop ret rxb in
      let len := (len - ret)%nat in
      if (len =? 0)%nat then Some (0, got, mkR rxb evs') else recv_loop evs' rxb len wait got
  end.

Definition fio_recv_data (sk : rsock) (len : Z) (wait : bool) : option (Z * bytes * rsock) :=
  recv_loop (revents sk) (rx sk) (Z.to_nat len) wait [].

(** The header from the wire, checked; the result is 0 when it is good. *)
Definition verify_convert_cmd (raw : bytes) : option (Z * fio_net_cmd) :=
  let c := cmd_of_bytes raw in
  h ← copy_from raw 0 FIO_NET_CMD_CRC_SZ;
  crc ← fio_crc16 h;
  if negb (u16 crc =? cmd_crc16 c) then Some (1, c)
  else if negb (version c =? FIO_SERVER_VER) then Some (1, c)
  else if FIO_SERVER_MAX_FRAGMENT_PDU <? pdu_len c then Some (1, c)
  else Some (0, c).

(** A command under construction: its header and its payload, with one byte more
    than the payload ([junk]: what the new memory holds). *)
Definition cmdbuf : Type := fio_net_cmd * bytes.

Definition add_pdu_len (c : fio_net_cmd) (n : Z) : fio_net_cmd :=
  mkCmd (version c) (opcode c) (cmd_flags c) (tag c) (u32 (pdu_len c + n)) (cmd_crc16 c) (pdu_crc16 c).

Section Recv.
Context (junk : byte).

(** The memory after realloc: the first fragment makes room for a NUL. *)
Definition grow (st : option cmdbuf) (cmd : fio_net_cmd) : cmdbuf :=
  match st with
  | None => (cmd, replicate (Z.to_nat (pdu_len cmd) + 1) junk)
  | Some (c, b) => (c, b ++ replicate (Z.to_nat (pdu_len cmd)) junk)
  end.

(** The loop of fio_net_recv_cmd: the result, the command so far (none before
    the first header) and the socket. *)
Fixpoint recv_frags (fuel : nat) (sk : rsock) (wait : bool) (st : option cmdbuf) (pdu_offset cmd_size : Z) :
    option (Z * option cmdbuf * rsock) :=
  match fuel with
  | O => None
  | S fuel' =>
      '(ret, raw, sk) ← fio_recv_data sk sizeof_net_cmd wait;
      if negb (ret =? 0) then Some (ret, st, sk)
      else
        '(ret, cmd) ← verify_convert_cmd raw;
        if negb (ret =? 0) then Some (ret, st, sk)
        else
          let cmd_size := match st with None => sizeof_net_cmd + pdu_len cmd + 1 | Some _ => cmd_size + pdu_len cmd end in
          if FIO_SERVER_MAX_CMD_MB * 1024 <? cmd_size / 1024 then Some (1, st, sk)
          else
            let '(c, b) := grow st cmd in
            if match st with None => false | Some _ => negb (opcode c =? opcode cmd) end then Some (1, Some (c, b), sk)
            else if pdu_len cmd =? 0 then Some (0, Some (c, b), sk)
            else
              '(ret, data, sk) ← fio_recv_data sk (pdu_len cmd) wait;
              if negb (ret =? 0) then Some (ret, Some (c, b), sk)
              else
                b ← copy_to b pdu_offset data;
                crc ← fio_crc16 data;
                if negb (u16 crc =? pdu_crc16 cmd) then Some (1, Some (c, b), sk)
                else
                  let c := match st with None => c | Some _ => add_pdu_len c (pdu_len cmd) end in
                  if negb (Z.land (cmd_flags cmd) FIO_NET_CMD_F_MORE =? 0)
                  then recv_frags fuel' sk wait (Some (c, b)) (pdu_offset + pdu_len cmd) cmd_size
                  else Some (0, Some (c, b), sk)
  end.

Definition s32 (z : Z) : Z := if z <? 2 ^ 31 then z else z - 2 ^ 32.

(** Text is terminated at the length it says it has: no value when that is
    outside the memory of the command. *)
Definition terminate_text (c : fio_net_cmd) (b : bytes) : option bytes :=
  if pdu_len c =? 0 then Some b
  else if opcode c =? FIO_NET_CMD_TEXT then
    l ← copy_from b 4 4; copy_to b (24 + le_combine l) [NUL]
  else if opcode c =? FIO_NET_CMD_JOB then
    l ← copy_from b 0 4; copy_to b (8 + s32 (le_combine l)) [NUL]
  else Some b.

(** The command received, or none. *)
Definition fio_net_recv_cmd (sk : rsock) (wait : bool) : option (option cmdbuf * rsock) :=
  '(ret, st, sk) ← recv_frags (S (length (revents sk))) sk wait None 0 0;
  if negb (ret =? 0) then Some (None, sk)
  else
    match st with
    | None => Some (None, sk)
    | Some (c, b) =>
        b ← terminate_text c b;
        Some (Some (set_flags c (Z.land (cmd_flags c) (u32 (Z.lnot FIO_NET_CMD_F_MORE))), b), sk)
    end.
End Recv.

(** * Frames *)

Definition crc16v (b : bytes) : Z := crc_lsb 0xA001 0 b.

Lemma crc16_total b : fio_crc16 b = Some (crc16v b).
Proof. apply crc_tables_run. Qed.

Lemma crc16_range b : 0 <= crc16v b < 2 ^ 16.
Proof. unfold crc16v, crc_lsb. apply (feed_range 16 (lsb_bit 0xA001)); [by apply lsb_good|lia]. Qed.

Lemma u16_crc b : u16 (crc16v b) = crc16v b.
Proof. apply Z.mod_small, crc16_range. Qed.

(** The header of the frame of a chunk of the payload. *)
Definition frame_cmd (op tg : Z) (chunk : bytes) (more : bool) : fio_net_cmd :=
  let c := mkCmd FIO_SERVER_VER op (if more then FIO_NET_CMD_F_MORE else 0) tg (Z.of_nat (length chunk)) 0 0 in
  mkCmd FIO_SERVER_VER op (if more then FIO_NET_CMD_F_MORE else 0) tg (Z.of_nat (length chunk))
    (crc16v (cmd_head c)) (crc16v chunk).
Definition frame (op tg : Z) (chunk : bytes) (more : bool) : bytes := cmd_bytes (frame_cmd op tg chunk more) ++ chunk.

(** The bytes of a command on the wire. *)
Inductive wire (op tg : Z) : bytes -> bytes -> Prop :=
  | wire_last buf : Z.of_nat (length buf) <= 1024 -> wire op tg buf (frame op tg buf false)
  | wire_more chunk rest w : length chunk = 1024%nat -> rest <> [] -> wire op tg rest w ->
      wire op tg (chunk ++ rest) (frame op tg chunk true ++ w).

(** The number of bytes of a command with [n] bytes of payload. *)
Definition wire_size (n : nat) : Z := Z.of_nat n + 24 * Z.max 1 ((Z.of_nat n + 1023) / 1024).

Lemma length_cmd_head c : length (cmd_head c) = 20%nat.
Proof. unfold cmd_head. by rewrite !length_app, !length_le_split. Qed.
Lemma length_cmd_bytes c : length (cmd_bytes c) = 24%nat.
Proof. unfold cmd_bytes. by rewrite !length_app, !length_le_split, length_cmd_head. Qed.

Lemma wire_length op tg buf w : wire op tg buf w -> Z.of_nat (length w) = wire_size (length buf).
Proof.
  unfold wire_size. induction 1 as [buf Hb|chunk rest w Hc Hr _ IH].
  - unfold frame. rewrite length_app, length_cmd_bytes.
    assert ((Z.of_nat (length buf) + 1023) / 1024 <= 1).
    { assert ((Z.of_nat (length buf) + 1023) / 1024 < 2); [|lia]. apply Z.div_lt_upper_bound; lia. }
    lia.
  - unfold frame. rewrite !length_app, length_cmd_bytes, Hc, !Nat2Z.inj_add, IH.
    assert (0 < Z.of_nat (length rest)) by (destruct rest; [done|simpl length; lia]).
    replace (Z.of_nat 1024 + Z.of_nat (length rest) + 1023) with ((Z.of_nat (length rest) + 1023) + 1 * 1024) by lia.
    rewrite Z.div_add by lia.
    assert (1 <= (Z.of_nat (length rest) + 1023) / 1024) by (apply Z.div_le_lower_bound; lia). lia.
Qed.

Definition op_ok (op : Z) : Prop := 0 <= op < 2 ^ 16.
Definition tag_ok (tg : Z) : Prop := 0 <= tg < 2 ^ 64.

Lemma field_skip k v (r : bytes) off n : (k <= off)%nat -> field (le_split k v ++ r) off n = field r (off - k) n.
Proof. intros H. unfold field. rewrite drop_app_ge by (rewrite length_le_split; lia). by rewrite length_le_split. Qed.

Lemma field_here k v (r : bytes) : 0 <= v < 2 ^ (Z.of_nat k * 8) -> field (le_split k v ++ r) 0 k = v.
Proof.
  intros Hv. unfold field. rewrite drop_0, take_app_le, take_ge by (rewrite length_le_split; lia).
  rewrite le_combine_split. by apply Z.mod_small.
Qed.

(** A header with another checksum of the payload. *)
Definition with_pdu_crc (pc : Z) (c : fio_net_cmd) : fio_net_cmd :=
  mkCmd (version c) (opcode c) (cmd_flags c) (tag c) (pdu_len c) (cmd_crc16 c) pc.

Lemma own_pdu_crc op tg chunk more : with_pdu_crc (crc16v chunk) (frame_cmd op tg chunk more) = frame_cmd op tg chunk more.
Proof. unfold with_pdu_crc, frame_cmd. cbn [version opcode cmd_flags tag pdu_len cmd_crc16]. reflexivity. Qed.

Lemma cmd_of_frame op tg chunk more pc :
  op_ok op -> tag_ok tg -> Z.of_nat (length chunk) <= 1024 -> 0 <= pc < 2 ^ 16 ->
  let c := with_pdu_crc pc (frame_cmd op tg chunk more) in cmd_of_bytes (cmd_bytes c) = c.
Proof.
  intros Hop Htg Hl Hpc0 c. unfold op_ok, tag_ok in *.
  assert (0 <= cmd_flags c < 2 ^ 32) by (unfold c; simpl; destruct more; unfold FIO_NET_CMD_F_MORE; lia).
  assert (0 <= cmd_crc16 c < 2 ^ 16) by apply crc16_range.
  assert (version c = 65 /\ opcode c = op /\ tag c = tg /\ pdu_len c = Z.of_nat (length chunk) /\ pdu_crc16 c = pc)
    as (Hv & Ho & Ht & Hp & Hpc) by done.
  clearbody c. unfold cmd_of_bytes, cmd_bytes, cmd_head. rewrite <- !app_assoc, <- (app_nil_r (le_split 2 (pdu_crc16 c))).
  destruct c; cbn [version opcode cmd_flags tag pdu_len cmd_crc16 pdu_crc16] in *.
  f_equal; (repeat (rewrite field_skip by lia; simpl Nat.sub)); apply field_here; simpl; lia.
Qed.

Lemma head_of_frame op tg chunk more :
  cmd_head (frame_cmd op tg chunk more) =
  cmd_head (mkCmd FIO_SERVER_VER op (if more then FIO_NET_CMD_F_MORE else 0) tg (Z.of_nat (length chunk)) 0 0).
Proof. done. Qed.

Lemma copy_head c (r : bytes) : copy_from (cmd_bytes c ++ r) 0 FIO_NET_CMD_CRC_SZ = Some (cmd_head c).
Proof.
  unfold cmd_bytes. rewrite <- app_assoc.
  apply (copy_from_mid [] (cmd_head c) _ 0 FIO_NET_CMD_CRC_SZ 0 20); by rewrite ?length_cmd_head.
Qed.

Lemma verify_frame_crc op tg chunk more pc :
  op_ok op -> tag_ok tg -> Z.of_nat (length chunk) <= 1024 -> 0 <= pc < 2 ^ 16 ->
  let c := with_pdu_crc pc (frame_cmd op tg chunk more) in verify_convert_cmd (cmd_bytes c) = Some (0, c).
Proof.
  intros Hop Htg Hl Hpc c. unfold verify_convert_cmd, c. rewrite cmd_of_frame by done.
  rewrite <- (app_nil_r (cmd_bytes _)) at 1. rewrite copy_head. obind.
  change (cmd_head (with_pdu_crc pc (frame_cmd op tg chunk more))) with (cmd_head (frame_cmd op tg chunk more)).
  rewrite crc16_total, head_of_frame. obind. cbn [cmd_crc16 version pdu_len frame_cmd with_pdu_crc]. rewrite u16_crc, Z.eqb_refl. simpl negb.
  cbv iota. rewrite (proj2 (Z.ltb_ge _ _)) by (unfold FIO_SERVER_MAX_FRAGMENT_PDU; lia). done.
Qed.

Lemma verify_frame op tg chunk more :
  op_ok op -> tag_ok tg -> Z.of_nat (length chunk) <= 1024 ->
  verify_convert_cmd (cmd_bytes (frame_cmd op tg chunk more)) = Some (0, frame_cmd op tg chunk more).
Proof.
  intros Hop Htg Hl. rewrite <- (own_pdu_crc op tg chunk more). by apply (verify_frame_crc op tg chunk more); [..|apply crc16_range].
Qed.

(** ** Sending *)

(** Writes that make progress, or are to be repeated. *)
Definition wgood (e : wevent) : Prop := match e with WSent n => (0 < n)%nat | WAgain => True | WFail => False end.
Fixpoint wcount (evs : list wevent) : nat :=
  match evs with [] => 0 | WSent _ :: evs' => S (wcount evs') | _ :: evs' => wcount evs' end.

Lemma send_one_run evs : forall p out,
  Forall wgood evs -> (0 < length p <= wcount evs)%nat ->
  exists evs', sendv_loop evs [p] 1 (length p) out = Some (0, mkW (out ++ p) evs') /\
    Forall wgood evs' /\ (wcount evs <= wcount evs' + length p)%nat.
Proof.
  induction evs as [|e evs IH]; intros p out Hg Hc; [simpl in Hc; lia|].
  apply Forall_cons in Hg as [He Hg]. destruct e as [n| |]; [| |done].
  - cbn [wcount] in *. cbn [sendv_loop]. cbn [length Nat.ltb Nat.leb take concat]. rewrite app_nil_r. simpl in He.
    set (ret := Nat.min n (length p)). assert (0 < ret <= length p)%nat as Hr by (unfold ret; lia).
    rewrite (proj2 (Nat.eqb_neq ret 0)) by lia. destruct (Nat.eqb_spec (length p - ret) 0) as [E|E].
    + exists evs. rewrite take_ge by lia. split_and!; [done|done|lia].
    + destruct ret as [|r] eqn:Er; [lia|]. cbn [iov_advance]. rewrite (proj2 (Nat.leb_gt _ _)) by lia. obind.
      assert (length p - S r = length (drop (S r) p))%nat as -> by (by rewrite length_drop).
      destruct (IH (drop (S r) p) (out ++ take (S r) p)) as (evs' & E' & Hg' & Hc').
      { done. } { rewrite length_drop. lia. }
      exists evs'. split_and!; [|done|rewrite length_drop in Hc'; lia].
      rewrite E'. by rewrite <- app_assoc, take_drop.
  - cbn [wcount sendv_loop] in *. by apply IH.
Qed.

Lemma crc_frame op tg chunk (more : bool) (r : bytes) :
  op_ok op -> tag_ok tg -> Z.of_nat (length chunk) <= 1024 ->
  fio_net_cmd_crc_pdu (set_flags (__fio_init_net_cmd op (Z.of_nat (length chunk)) tg) (if more then FIO_NET_CMD_F_MORE else 0)) (chunk ++ r) =
  Some (frame_cmd op tg chunk more).
Proof.
  intros Hop Htg Hl. unfold fio_net_cmd_crc_pdu, __fio_init_net_cmd, set_flags.
  cbn [version opcode cmd_flags tag pdu_len cmd_crc16 pdu_crc16].
  assert (u16 op = op) as -> by (by apply Z.mod_small).
  assert (u64 tg = tg) as -> by (by apply Z.mod_small). rewrite u32_small by (unfold fits; lia).
  rewrite crc16_total. obind.
  change (chunk ++ r) with ([] ++ chunk ++ r).
  rewrite (copy_from_mid [] chunk r 0 (Z.of_nat (length chunk)) 0 (length chunk)) by (done || (simpl; lia)).
  obind. rewrite drop_0, take_ge, crc16_total by lia. obind. by rewrite !u16_crc.
Qed.

Lemma send_data_run sk p :
  Forall wgood (wevents sk) -> (0 < length p)%nat -> Z.of_nat (length p) <= 1048 -> (length p <= wcount (wevents sk))%nat ->
  exists evs', fio_send_data sk p = Some (0, mkW (tx sk ++ p) evs') /\
    Forall wgood evs' /\ (wcount (wevents sk) <= wcount evs' + length p)%nat.
Proof.
  intros Hg Hp Hl Hc. unfold fio_send_data, fio_sendv_data, iov_total_len.
  rewrite (proj2 (Z.leb_le _ _)) by (unfold sizeof_net_cmd, FIO_SERVER_MAX_FRAGMENT_PDU; lia).
  cbn [take concat]. rewrite app_nil_r. by apply send_one_run.
Qed.

Lemma send_cmd_run op tg : op_ok op -> tag_ok tg -> forall fuel buf sk,
  (length buf < fuel)%nat -> Forall wgood (wevents sk) -> wire_size (length buf) <= Z.of_nat (wcount (wevents sk)) ->
  exists w evs', wire op tg buf w /\ send_cmd_loop fuel sk op buf tg = Some (0, mkW (tx sk ++ w) evs') /\
    Forall wgood evs' /\ (wcount (wevents sk) <= wcount evs' + length w)%nat.
Proof.
  intros Hop Htg. induction fuel as [|fuel IH]; intros buf sk Hf Hg Hc; [lia|]. cbn [send_cmd_loop].
  destruct (Z.ltb_spec FIO_SERVER_MAX_FRAGMENT_PDU (Z.of_nat (length buf))) as [Hbig|Hsmall];
    unfold FIO_SERVER_MAX_FRAGMENT_PDU in *.
  - set (chunk := take (Z.to_nat 1024) buf). assert (length chunk = 1024%nat) as Hlc by (unfold chunk; rewrite length_take; lia).
    rewrite (proj2 (Z.ltb_lt _ _)) by lia.
    assert (exists rest, buf = chunk ++ rest /\ rest = drop (Z.to_nat 1024) buf) as (rest & Eb & Er)
      by (exists (drop (Z.to_nat 1024) buf); split; [symmetry; apply take_drop|done]).
    rewrite <- Er. assert (length buf = 1024 + length rest)%nat as Hlb by (rewrite Eb at 1; rewrite length_app; lia).
    assert (rest <> []) as Hne by (intros ->; simpl in Hlb; lia).
    pose proof (crc_frame op tg chunk true [] Hop Htg ltac:(lia)) as Ecrc. rewrite app_nil_r, Hlc in Ecrc.
    change (Z.of_nat 1024) with 1024 in Ecrc. rewrite Ecrc. obind.
    fold (frame op tg chunk true).
    assert (length (frame op tg chunk true) = 1048%nat) as Hfl by (unfold frame; rewrite length_app, length_cmd_bytes; lia).
    assert (wire_size (length buf) = 1048 + wire_size (length rest)) as Hws.
    { unfold wire_size. rewrite Hlb, Nat2Z.inj_add.
      replace (Z.of_nat 1024 + Z.of_nat (length rest) + 1023) with ((Z.of_nat (length rest) + 1023) + 1 * 1024) by lia.
      rewrite Z.div_add by lia. assert (0 < Z.of_nat (length rest)) by (destruct rest; [done|simpl length; lia]).
      assert (1 <= (Z.of_nat (length rest) + 1023) / 1024) by (apply Z.div_le_lower_bound; lia). lia. }
    assert (0 <= wire_size (length rest)) by (unfold wire_size; lia).
    destruct (send_data_run sk (frame op tg chunk true)) as (evs1 & E1 & Hg1 & Hc1); [done|lia|lia|lia|].
    rewrite E1. obind. cbv beta iota zeta. change (negb (0 =? 0)) with false. cbv iota.
    destruct (IH rest (mkW (tx sk ++ frame op tg chunk true) evs1)) as (w & evs' & Hw & Es & Hg' & Hc'); [lia|done|simpl; lia|].
    exists (frame op tg chunk true ++ w), evs'. split_and!.
    + rewrite Eb. by apply wire_more.
    + destruct rest; [done|]. rewrite Es. simpl. by rewrite <- app_assoc.
    + done.
    + simpl in Hc'. rewrite length_app. lia.
  - rewrite Z.ltb_irrefl. rewrite Nat2Z.id. rewrite (take_ge buf) by lia. rewrite drop_ge by lia.
    pose proof (crc_frame op tg buf false [] Hop Htg ltac:(lia)) as Ecrc. rewrite app_nil_r in Ecrc.
    assert (fio_net_cmd_crc_pdu (__fio_init_net_cmd op (Z.of_nat (length buf)) tg) buf = Some (frame_cmd op tg buf false))
      as -> by exact Ecrc. obind.
    fold (frame op tg buf false).
    assert (wire op tg buf (frame op tg buf false)) as Hw by by apply wire_last.
    pose proof (wire_length _ _ _ _ Hw) as Hwl.
    assert (length (frame op tg buf false) = 24 + length buf)%nat as Hfl by (unfold frame; rewrite length_app, length_cmd_bytes; lia).
    destruct (send_data_run sk (frame op tg buf false)) as (evs1 & E1 & Hg1 & Hc1); [done|lia|lia|lia|].
    rewrite E1. simpl. by exists (frame op tg buf false), evs1.
Qed.

(** ** Receiving *)

(** Reads that make progress, or are to be repeated when the caller waits. *)
Definition rgood (wait : bool) (e : revent) : Prop :=
  match e with RGot n => (0 < n)%nat | RAgain => wait = true | _ => False end.
Fixpoint rcount (evs : list revent) : nat :=
  match evs with [] => 0 | RGot _ :: evs' => S (rcount evs') | _ :: evs' => rcount evs' end.

Lemma recv_loop_run wait evs : forall a r got,
  Forall (rgood wait) evs -> (0 < length a <= rcount evs)%nat ->
  exists evs', recv_loop evs (a ++ r) (length a) wait got = Some (0, got ++ a, mkR r evs') /\
    Forall (rgood wait) evs' /\ (rcount evs <= rcount evs' + length a)%nat /\ (length evs' < length evs)%nat.
Proof.
  induction evs as [|e evs IH]; intros a r got Hg Hc; [simpl in Hc; lia|].
  apply Forall_cons in Hg as [He Hg]. destruct e as [n| | |]; [| |done|done]; cbn [rcount recv_loop] in *.
  - simpl in He. rewrite length_app.
    set (ret := Nat.min n (Nat.min (length a) (length a + length r))).
    assert (0 < ret <= length a)%nat as Hr by (unfold ret; lia).
    rewrite take_app_le, drop_app_le by lia.
    destruct (Nat.eqb_spec (length a - ret) 0) as [E|E].
    + exists evs. rewrite take_ge, drop_ge by lia. split_and!; [done|done|lia|simpl; lia].
    + assert (length a - ret = length (drop ret a))%nat as -> by (by rewrite length_drop).
      destruct (IH (drop ret a) r (got ++ take ret a)) as (evs' & E' & Hg' & Hc' & Hl'); [done|rewrite length_drop; lia|].
      rewrite length_drop in Hc'. exists evs'. split_and!; [|done|lia|simpl; lia].
      rewrite E'. by rewrite <- app_assoc, take_drop.
  - simpl in He. subst wait. destruct (IH a r got Hg Hc) as (evs' & E' & Hg' & Hc' & Hl').
    exists evs'. split_and!; [done|done|done|simpl; lia].
Qed.

Lemma recv_data_run sk wait n a r :
  Forall (rgood wait) (revents sk) -> rx sk = a ++ r -> Z.of_nat (length a) = n -> 0 < n -> (length a <= rcount (revents sk))%nat ->
  exists evs', fio_recv_data sk n wait = Some (0, a, mkR r evs') /\
    Forall (rgood wait) evs' /\ (rcount (revents sk) <= rcount evs' + length a)%nat /\ (length evs' < length (revents sk))%nat.
Proof.
  intros Hg Hrx Hn Hn0 Hc. unfold fio_recv_data. rewrite Hrx, <- Hn, Nat2Z.id. apply recv_loop_run; [done|lia].
Qed.

(** The next fragment is taken from the socket into the memory of the command. *)
Lemma wire_frame op tg buf w : wire op tg buf w ->
  exists chunk rest w' more, buf = chunk ++ rest /\ w = frame op tg chunk more ++ w' /\ Z.of_nat (length chunk) <= 1024 /\
    ((more = false /\ rest = [] /\ w' = []) \/ (more = true /\ wire op tg rest w' /\ chunk <> [] /\ rest <> [])).
Proof.
  intros H. destruct H as [buf Hb|chunk rest w Hc Hr Hw].
  - exists buf, [], [], false. rewrite !app_nil_r. split_and!; try done. by left.
  - exists chunk, rest, w, true. split_and!; try done; [lia|]. right. split_and!; try done. by intros ->.
Qed.

Definition base_cmd (op tg n : Z) (c : fio_net_cmd) : Prop :=
  version c = FIO_SERVER_VER /\ opcode c = op /\ tag c = tg /\ pdu_len c = n /\
  (cmd_flags c = 0 \/ cmd_flags c = FIO_NET_CMD_F_MORE).

(** What the loop has so far: [got] bytes of the payload and the spare one. *)
Definition so_far (op tg : Z) (got : bytes) (st : option cmdbuf) (size : Z) : Prop :=
  match st with
  | None => got = []
  | Some (c, b) => got <> [] /\ base_cmd op tg (Z.of_nat (length got)) c /\ (exists x, b = got ++ [x]) /\
                   size = 25 + Z.of_nat (length got)
  end.

Lemma grow_copy junk op tg got st size chunk more :
  so_far op tg got st size -> Z.of_nat (length (got ++ chunk)) < 2 ^ 32 ->
  exists c b x, grow junk st (frame_cmd op tg chunk more) = (c, b) /\
    (st = None \/ (opcode c = op)) /\
    copy_to b (Z.of_nat (length got)) chunk = Some ((got ++ chunk) ++ [x]) /\
    (chunk = [] -> st = None -> exists y, b = [y]) /\
    base_cmd op tg (Z.of_nat (length (got ++ chunk)))
      (match st with None => c | Some _ => add_pdu_len c (Z.of_nat (length chunk)) end).
Proof.
  intros H Hlt. destruct st as [[c b]|].
  - destruct H as (Hne & Hb & (x & ->) & _). cbn [grow frame_cmd pdu_len]. rewrite Nat2Z.id.
    exists c, ((got ++ [x]) ++ replicate (length chunk) junk).
    destruct Hb as (H1 & H2 & H3 & H4 & H5).
    assert (exists y, drop (length chunk) ([x] ++ replicate (length chunk) junk) = [y]) as [y Hy].
    { destruct chunk as [|z chunk]; [by exists x|]. exists junk. change ([x] ++ replicate (length (z :: chunk)) junk) with (x :: replicate (length (z :: chunk)) junk).
      cbn [length]. rewrite skipn_cons. rewrite replicate_S_end, drop_app_ge by (by rewrite length_replicate).
      by rewrite length_replicate, Nat.sub_diag. }
    exists y. split_and!; try done; [by right| |].
    + rewrite <- app_assoc. rewrite copy_to_prefix by (rewrite length_app, length_replicate; simpl; lia). by rewrite Hy, app_assoc.
    + unfold base_cmd, add_pdu_len; simpl. split_and!; try done. rewrite H4, length_app, Nat2Z.inj_add.
      apply u32_small. unfold fits. rewrite length_app in Hlt. lia.
  - simpl in H. subst got. cbn [grow frame_cmd pdu_len]. rewrite Nat2Z.id.
    eexists _, (replicate (length chunk + 1) junk), junk. split_and!; [done|by left| | |].
    + pose proof (copy_to_prefix [] (replicate (length chunk + 1) junk) chunk) as Hcp. simpl length in Hcp.
      change (Z.of_nat 0) with 0 in Hcp. rewrite app_nil_l in Hcp. change (Z.of_nat (length [])) with 0. rewrite Hcp by (rewrite length_replicate; lia).
      rewrite Nat.add_1_r, replicate_S_end, drop_app_ge by (by rewrite length_replicate).
      by rewrite length_replicate, Nat.sub_diag.
    + intros -> _. by exists junk.
    + unfold base_cmd; simpl. split_and!; try done. destruct more; auto.
Qed.

Lemma recv_frags_run junk wait op tg : op_ok op -> tag_ok tg -> forall fuel got buf w r sk st size,
  wire op tg buf w -> so_far op tg got st size -> (buf <> [] \/ st = None) ->
  Z.of_nat (length (got ++ buf)) <= 2 ^ 31 -> rx sk = w ++ r ->
  Forall (rgood wait) (revents sk) -> (length w <= rcount (revents sk))%nat -> (length (revents sk) < fuel)%nat ->
  exists c x evs', recv_frags junk fuel sk wait st (Z.of_nat (length got)) size = Some (0, Some (c, (got ++ buf) ++ [x]), mkR r evs') /\
    base_cmd op tg (Z.of_nat (length (got ++ buf))) c /\ Forall (rgood wait) evs' /\
    (rcount (revents sk) <= rcount evs' + length w)%nat.
Proof.
  intros Hop Htg. induction fuel as [|fuel IH]; intros got buf w r sk st size Hw Hst Hbuf Hmax Hrx Hg Hc Hf; [lia|].
  destruct (wire_frame _ _ _ _ Hw) as (chunk & rest & w' & more & -> & -> & Hl & Hcase).
  unfold frame in Hrx, Hc. rewrite !length_app, length_cmd_bytes in Hc. rewrite <- !app_assoc in Hrx.
  cbn [recv_frags].
  destruct (recv_data_run sk wait sizeof_net_cmd (cmd_bytes (frame_cmd op tg chunk more)) (chunk ++ w' ++ r))
    as (evs1 & E1 & Hg1 & Hc1 & Hl1); [done|done|by rewrite length_cmd_bytes|done|rewrite length_cmd_bytes; lia|].
  rewrite length_cmd_bytes in Hc1. rewrite E1. obind. cbv beta iota zeta. change (negb (0 =? 0)) with false. cbv iota.
  rewrite verify_frame by done. obind. cbv beta iota zeta. change (negb (0 =? 0)) with false. cbv iota.
  set (cmd := frame_cmd op tg chunk more). set (size' := match st with None => _ | Some _ => _ end).
  assert (size' = 25 + Z.of_nat (length (got ++ chunk))) as Hsz.
  { unfold size', cmd. cbn [frame_cmd pdu_len]. rewrite length_app, Nat2Z.inj_add. destruct st as [[c0 b0]|].
    - destruct Hst as (_ & _ & _ & ->). lia.
    - simpl in Hst. subst got. unfold sizeof_net_cmd. simpl length. lia. }
  rewrite !length_app, !Nat2Z.inj_add in Hmax.
  rewrite (proj2 (Z.ltb_ge _ _)).
  2: { rewrite Hsz, length_app, Nat2Z.inj_add. unfold FIO_SERVER_MAX_CMD_MB.
       assert ((25 + (Z.of_nat (length got) + Z.of_nat (length chunk))) / 1024 < 2 ^ 21 + 1); [apply Z.div_lt_upper_bound; lia|lia]. }
  destruct (grow_copy junk op tg got st size chunk more Hst) as (c & b & x & Egrow & Hopc & Ecopy & Hemp & Hbase);
    [rewrite length_app; lia|]. fold cmd in Egrow. rewrite Egrow.
  replace (match st with None => false | Some _ => negb (opcode c =? opcode cmd) end) with false.
  2: { destruct st; [|done]. destruct Hopc as [?|Hopc]; [done|]. unfold cmd. cbn [frame_cmd opcode]. by rewrite Hopc, Z.eqb_refl. }
  change (pdu_len cmd) with (Z.of_nat (length chunk)). destruct (Z.eqb_spec (Z.of_nat (length chunk)) 0) as [Ez|Ez].
  - assert (chunk = []) as -> by (destruct chunk; [done|simpl length in Ez; lia]).
    destruct Hcase as [(-> & -> & ->)|(_ & _ & ? & _)]; [|done]. destruct Hbuf as [?|Hn]; [done|].
    destruct (Hemp eq_refl Hn) as [y ->]. subst st. simpl in Hst. subst got.
    exists c, y, evs1. split_and!; [done|exact Hbase|done|simpl in *; lia].
  - destruct (recv_data_run (mkR (chunk ++ w' ++ r) evs1) wait (Z.of_nat (length chunk)) chunk (w' ++ r))
      as (evs2 & E2 & Hg2 & Hc2 & Hl2); [done|done|done|lia|simpl; lia|]. simpl in Hc2, Hl2.
    rewrite E2. obind. cbv beta iota zeta. change (negb (0 =? 0)) with false. cbv iota.
    rewrite Ecopy. obind. rewrite crc16_total. obind. rewrite u16_crc. change (pdu_crc16 cmd) with (crc16v chunk).
    rewrite Z.eqb_refl. change (negb true) with false. cbv iota.
    change (cmd_flags cmd) with (if more then FIO_NET_CMD_F_MORE else 0).
    set (c' := match st with None => c | Some _ => _ end) in *.
    destruct Hcase as [(-> & -> & ->)|(-> & Hw' & Hcne & Hrne)].
    + change (negb (Z.land 0 FIO_NET_CMD_F_MORE =? 0)) with false. cbv iota. rewrite !app_nil_r in *.
      exists c', x, evs2. split_and!; [done|done|done|]. unfold frame. rewrite length_app, length_cmd_bytes. lia.
    + change (negb (Z.land FIO_NET_CMD_F_MORE FIO_NET_CMD_F_MORE =? 0)) with true. cbv iota.
      rewrite <- Nat2Z.inj_add, <- length_app.
      destruct (IH (got ++ chunk) rest w' r (mkR (w' ++ r) evs2) (Some (c', (got ++ chunk) ++ [x])) size')
        as (c2 & x2 & evs3 & E3 & Hb3 & Hg3 & Hc3); try done.
      * split_and!; [by intros [_ ?]%app_eq_nil|done|by exists x|done].
      * by left.
      * rewrite !length_app. lia.
      * simpl. lia.
      * simpl. lia.
      * exists c2, x2, evs3. rewrite E3. rewrite <- !app_assoc in *. split_and!; try done.
        simpl in Hc3. unfold frame. rewrite !length_app, length_cmd_bytes. lia.
Qed.

(** * Whole conversations *)

(** A command to send: opcode, tag and payload.  Text and job commands say in
    their payload how long the text behind their fixed part is. *)
Definition msg : Type := Z * Z * bytes.

Definition text_ok (op : Z) (buf : bytes) : Prop :=
  buf = [] \/
  ((op = FIO_NET_CMD_TEXT -> (8 <= length buf)%nat /\ Z.of_nat (length buf) = 24 + field buf 4 4) /\
   (op = FIO_NET_CMD_JOB -> (4 <= length buf)%nat /\ Z.of_nat (length buf) = 8 + field buf 0 4)).

Definition msg_ok (m : msg) : Prop :=
  let '(op, tg, buf) := m in
  op_ok op /\ tag_ok tg /\ Z.of_nat (length buf) < 2 ^ 31 /\ text_ok op buf.

Definition is_text (op : Z) : Prop := op = FIO_NET_CMD_TEXT \/ op = FIO_NET_CMD_JOB.

(** The command that arrives: text is followed by a NUL. *)
Definition received (m : msg) (cb : cmdbuf) : Prop :=
  let '(op, tg, buf) := m in
  version cb.1 = FIO_SERVER_VER /\ opcode cb.1 = op /\ tag cb.1 = tg /\ cmd_flags cb.1 = 0 /\
  pdu_len cb.1 = Z.of_nat (length buf) /\
  exists x, cb.2 = buf ++ [x] /\ (buf <> [] -> is_text op -> x = NUL).

Fixpoint send_all (sk : wsock) (ms : list msg) : option (Z * wsock) :=
  match ms with
  | [] => Some (0, sk)
  | (op, tg, buf) :: ms' =>
      '(ret, sk) ← fio_net_send_cmd sk op buf tg;
      if negb (ret =? 0) then Some (ret, sk) else send_all sk ms'
  end.

Fixpoint recv_all (junk : byte) (n : nat) (sk : rsock) (wait : bool) : option (list (option cmdbuf) * rsock) :=
  match n with
  | O => Some ([], sk)
  | S n' => '(c, sk) ← fio_net_recv_cmd junk sk wait; '(l, sk) ← recv_all junk n' sk wait; Some (c :: l, sk)
  end.

Definition wire_total (ms : list msg) : Z := foldr (fun m a => wire_size (length m.2) + a) 0 ms.

Lemma copy_field (buf : bytes) x off n :
  (off + n <= length buf)%nat ->
  copy_from (buf ++ [x]) (Z.of_nat off) (Z.of_nat n) = Some (take n (drop off buf)).
Proof.
  intros H. change (buf ++ [x]) with ([] ++ buf ++ [x]). by apply copy_from_mid.
Qed.

Lemma copy_last (buf : bytes) x y : copy_to (buf ++ [x]) (Z.of_nat (length buf)) [y] = Some (buf ++ [y]).
Proof. rewrite copy_to_prefix by (simpl; lia). done. Qed.

Lemma terminate_run op tg buf c x :
  base_cmd op tg (Z.of_nat (length buf)) c -> Z.of_nat (length buf) < 2 ^ 31 -> text_ok op buf ->
  exists y, terminate_text c (buf ++ [x]) = Some (buf ++ [y]) /\ (buf <> [] -> is_text op -> y = NUL).
Proof.
  intros (_ & Ho & _ & Hp & _) Hlt Ht. unfold terminate_text. rewrite Ho, Hp.
  destruct Ht as [->|[Ht Hj]]; [by exists x|].
  destruct (Z.eqb_spec (Z.of_nat (length buf)) 0) as [E|E].
  { exists x. split; [done|]. intros Hne. destruct buf; [done|simpl length in E; lia]. }
  destruct (Z.eqb_spec op FIO_NET_CMD_TEXT) as [->|Hn1].
  - destruct (Ht eq_refl) as [Hl Hlen]. exists NUL. split; [|done].
    change (copy_from (buf ++ [x]) 4 4) with (copy_from (buf ++ [x]) (Z.of_nat 4) (Z.of_nat 4)).
    rewrite copy_field by lia. obind. unfold field in Hlen. rewrite <- Hlen. apply copy_last.
  - destruct (Z.eqb_spec op FIO_NET_CMD_JOB) as [->|Hn2].
    + destruct (Hj eq_refl) as [Hl Hlen]. exists NUL. split; [|done].
      change (copy_from (buf ++ [x]) 0 4) with (copy_from (buf ++ [x]) (Z.of_nat 0) (Z.of_nat 4)).
      rewrite copy_field by lia. obind. unfold field in Hlen.
      unfold s32. rewrite (proj2 (Z.ltb_lt _ _)) by lia. rewrite <- Hlen. apply copy_last.
    + exists x. split; [done|]. by intros _ [?|?].
Qed.

Lemma recv_cmd_run junk wait op tg buf w r sk :
  op_ok op -> tag_ok tg -> Z.of_nat (length buf) < 2 ^ 31 -> text_ok op buf ->
  wire op tg buf w -> rx sk = w ++ r -> Forall (rgood wait) (revents sk) -> (length w <= rcount (revents sk))%nat ->
  exists cb evs', fio_net_recv_cmd junk sk wait = Some (Some cb, mkR r evs') /\ received (op, tg, buf) cb /\
    Forall (rgood wait) evs' /\ (rcount (revents sk) <= rcount evs' + length w)%nat.
Proof.
  intros Hop Htg Hlt Ht Hw Hrx Hg Hc. unfold fio_net_recv_cmd.
  destruct (recv_frags_run junk wait op tg Hop Htg (S (length (revents sk))) [] buf w r sk None 0)
    as (c & x & evs' & E & Hb & Hg' & Hc'); try done; [by right|rewrite app_nil_l; lia|lia|].
  change (Z.of_nat (length [])) with 0 in E. rewrite app_nil_l in *. rewrite E. obind. cbv beta iota zeta.
  change (negb (0 =? 0)) with false. cbv iota.
  destruct (terminate_run op tg buf c x Hb Hlt Ht) as (y & Ey & Hy). rewrite Ey. obind.
  eexists _, evs'. split_and!; [done| |done|done]. destruct Hb as (H1 & H2 & H3 & H4 & H5).
  cbn [received fst snd version opcode tag cmd_flags pdu_len set_flags]. split_and!; try done; [|by exists y].
  destruct H5 as [-> | ->]; done.
Qed.

Lemma send_all_run ms : forall sk,
  Forall msg_ok ms -> Forall wgood (wevents sk) -> wire_total ms <= Z.of_nat (wcount (wevents sk)) ->
  exists ws evs', Forall2 (fun m w => wire m.1.1 m.1.2 m.2 w) ms ws /\
    send_all sk ms = Some (0, mkW (tx sk ++ concat ws) evs').
Proof.
  induction ms as [|[[op tg] buf] ms IH]; intros sk Hm Hg Hc.
  { exists [], (wevents sk). split; [done|]. simpl. rewrite app_nil_r. by destruct sk. }
  apply Forall_cons in Hm as [(Hop & Htg & Hl & Ht) Hm]. cbn [wire_total foldr snd] in Hc. fold (wire_total ms) in Hc.
  assert (0 <= wire_total ms) by (clear; induction ms as [|m ms IH]; simpl; unfold wire_total, wire_size in *; lia).
  destruct (send_cmd_run op tg Hop Htg (S (length buf)) buf sk) as (w & evs1 & Hw & E & Hg1 & Hc1); [lia|done|lia|].
  pose proof (wire_length _ _ _ _ Hw) as Hwl.
  destruct (IH (mkW (tx sk ++ w) evs1)) as (ws & evs' & Hws & E'); [done|done|simpl; lia|].
  exists (w :: ws), evs'. split; [by constructor|]. cbn [send_all]. unfold fio_net_send_cmd. rewrite E. obind. cbv beta iota zeta.
  change (negb (0 =? 0)) with false. cbv iota. rewrite E'. simpl. by rewrite <- app_assoc.
Qed.

Lemma recv_all_run junk wait ms ws : Forall2 (fun m w => wire m.1.1 m.1.2 m.2 w) ms ws -> forall sk,
  Forall msg_ok ms -> rx sk = concat ws -> Forall (rgood wait) (revents sk) -> (length (concat ws) <= rcount (revents sk))%nat ->
  exists l evs', recv_all junk (length ms) sk wait = Some (Some <$> l, mkR [] evs') /\ Forall2 received ms l.
Proof.
  induction 1 as [|[[op tg] buf] w ms ws Hw _ IH]; intros sk Hm Hrx Hg Hc.
  { exists [], (revents sk). split; [|done]. simpl in *. destruct sk; simpl in *; by subst. }
  apply Forall_cons in Hm as [(Hop & Htg & Hl & Ht) Hm]. simpl in Hrx, Hc, Hw. rewrite length_app in Hc.
  destruct (recv_cmd_run junk wait op tg buf w (concat ws) sk) as (cb & evs1 & E & Hr & Hg1 & Hc1); try done; [lia|].
  destruct (IH (mkR (concat ws) evs1)) as (l & evs' & E' & Hl'); [done|done|done|simpl; lia|].
  exists (cb :: l), evs'. split; [|by constructor]. cbn [recv_all length]. rewrite E. obind. cbv beta iota zeta. rewrite E'. done.
Qed.

(** C25: what one side sends, the other receives.  Any commands, with payloads of
    any length below 2 GB, sent one after the other by fio_net_send_cmd over a
    connection that takes and delivers any number of bytes at a time (with
    EINTR and EAGAIN in between), arrive complete, in order and each once:
    every call of fio_net_recv_cmd reassembles the fragments of one command,
    with its opcode, tag and payload, and text is terminated. *)
Theorem net_cmd_roundtrip junk wait ms wevs :
  Forall msg_ok ms -> Forall wgood wevs -> wire_total ms <= Z.of_nat (wcount wevs) ->
  exists sk, send_all (mkW [] wevs) ms = Some (0, sk) /\
    forall revs, Forall (rgood wait) revs -> (length (tx sk) <= rcount revs)%nat ->
      exists l evs', recv_all junk (length ms) (mkR (tx sk) revs) wait = Some (Some <$> l, mkR [] evs') /\
        Forall2 received ms l.
Proof.
  intros Hm Hg Hc. destruct (send_all_run ms (mkW [] wevs) Hm Hg Hc) as (ws & evs & Hws & E).
  eexists. split; [exact E|]. intros revs Hr Hlen. simpl in Hlen |- *.
  by apply (recv_all_run junk wait ms ws Hws (mkR (concat ws) revs)).
Qed.

(** * Damage on the way *)

Lemma length_message_bits b : length (message_bits bits_lsb b) = (8 * length b)%nat.
Proof.
  unfold message_bits. induction b as [|x b IH]; [done|]. rewrite fmap_cons, concat_cons, length_app, IH. simpl. lia.
Qed.

Lemma crc_field (h : bytes) crc (r : bytes) : length h = 20%nat -> 0 <= crc < 2 ^ 16 -> cmd_crc16 (cmd_of_bytes (h ++ le_split 2 crc ++ r)) = crc.
Proof.
  intros Hh Hc. cbn [cmd_of_bytes cmd_crc16]. unfold field. rewrite drop_app_ge by lia. rewrite Hh, Nat.sub_diag.
  by apply field_here.
Qed.

Lemma bad_header junk wait h crc (pc r : bytes) sk :
  length h = 20%nat -> length pc = 2%nat -> 0 <= crc < 2 ^ 16 -> crc16v h <> crc ->
  rx sk = h ++ le_split 2 crc ++ pc ++ r -> Forall (rgood wait) (revents sk) -> (24 <= rcount (revents sk))%nat ->
  exists evs, fio_net_recv_cmd junk sk wait = Some (None, mkR r evs).
Proof.
  intros Hh Hp Hc Hne Hrx Hg Hn. unfold fio_net_recv_cmd.
  destruct (recv_data_run sk wait sizeof_net_cmd (h ++ le_split 2 crc ++ pc) r) as (evs & E & _).
  { done. } { by rewrite Hrx, <- !app_assoc. } { by rewrite !length_app, length_le_split, Hh, Hp. } { done. }
  { rewrite !length_app, length_le_split, Hh, Hp. done. }
  exists evs. cbn [recv_frags]. rewrite E. obind. cbv beta iota zeta. change (negb (0 =? 0)) with false. cbv iota.
  unfold verify_convert_cmd. cbv zeta. rewrite crc_field by done.
  assert (copy_from (h ++ le_split 2 crc ++ pc) 0 FIO_NET_CMD_CRC_SZ = Some h) as ->.
  { pose proof (copy_from_mid [] h (le_split 2 crc ++ pc) 0 FIO_NET_CMD_CRC_SZ 0 20 eq_refl eq_refl ltac:(lia)) as Hcf.
    rewrite app_nil_l, drop_0, take_ge in Hcf by lia. done. }
  obind. rewrite crc16_total. obind. rewrite u16_crc, (proj2 (Z.eqb_neq _ _) Hne). done.
Qed.

Lemma bad_payload junk wait op tg chunk chunk' more pc (r : bytes) sk :
  op_ok op -> tag_ok tg -> (0 < length chunk)%nat -> Z.of_nat (length chunk) <= 1024 -> length chunk' = length chunk ->
  0 <= pc < 2 ^ 16 -> crc16v chunk' <> pc ->
  rx sk = cmd_bytes (with_pdu_crc pc (frame_cmd op tg chunk more)) ++ chunk' ++ r -> Forall (rgood wait) (revents sk) ->
  (24 + length chunk <= rcount (revents sk))%nat ->
  exists evs, fio_net_recv_cmd junk sk wait = Some (None, mkR r evs).
Proof.
  intros Hop Htg Hpos Hl Hlen Hpc Hne Hrx Hg Hn. unfold fio_net_recv_cmd. set (c := with_pdu_crc pc _) in *.
  destruct (recv_data_run sk wait sizeof_net_cmd (cmd_bytes c) (chunk' ++ r))
    as (evs1 & E1 & Hg1 & Hc1 & _); [done|done|by rewrite length_cmd_bytes|done|rewrite length_cmd_bytes; lia|].
  rewrite length_cmd_bytes in Hc1. cbn [recv_frags].
  rewrite E1. obind. cbv beta iota zeta. change (negb (0 =? 0)) with false. cbv iota.
  unfold c at 1. rewrite verify_frame_crc by done. fold c. obind. cbv beta iota zeta. change (negb (0 =? 0)) with false. cbv iota.
  change (pdu_len c) with (Z.of_nat (length chunk)).
  rewrite (proj2 (Z.ltb_ge _ _)).
  2: { unfold FIO_SERVER_MAX_CMD_MB, sizeof_net_cmd.
       assert ((24 + Z.of_nat (length chunk) + 1) / 1024 < 2 ^ 20); [apply Z.div_lt_upper_bound; lia|lia]. }
  cbn [grow]. rewrite (proj2 (Z.eqb_neq _ _)) by lia.
  destruct (recv_data_run (mkR (chunk' ++ r) evs1) wait (Z.of_nat (length chunk)) chunk' r)
    as (evs2 & E2 & _); [done|done|by rewrite Hlen|lia|simpl; lia|].
  rewrite E2. obind. cbv beta iota zeta. change (negb (0 =? 0)) with false. cbv iota.
  change (pdu_len c) with (Z.of_nat (length chunk)). rewrite Nat2Z.id.
  pose proof (copy_to_prefix [] (replicate (length chunk + 1) junk) chunk') as Hcp. rewrite app_nil_l in Hcp.
  change (Z.of_nat (length [])) with 0 in Hcp. rewrite Hcp by (rewrite length_replicate; lia).
  obind. rewrite crc16_total. obind. rewrite u16_crc. change (pdu_crc16 c) with pc.
  rewrite (proj2 (Z.eqb_neq _ _) Hne). by exists evs2.
Qed.

(** [d] is [b] with bits changed inside a window of at most sixteen. *)
Definition burst16 (b d : bytes) : Prop :=
  exists p x y q, x <> y /\ length x = length y /\ (length x <= 16)%nat /\
    message_bits bits_lsb b = p ++ x ++ q /\ message_bits bits_lsb d = p ++ y ++ q.

Lemma burst16_detected b d : burst16 b d -> (0 < length b)%nat /\ length d = length b /\ crc16v d <> crc16v b.
Proof.
  intros (p & x & y & q & Hxy & Hlen & H16 & Hb & Hd).
  pose proof (length_message_bits b) as L1. pose proof (length_message_bits d) as L2.
  rewrite Hb, !length_app in L1. rewrite Hd, !length_app in L2.
  assert (0 < length x)%nat by (destruct x, y; simpl in *; try done; lia).
  split; [lia|]. split; [lia|]. intros E.
  destruct (crc_bursts_run d b p y x q (not_eq_sym Hxy) (eq_sym Hlen)) as [_ Hcrc].
  destruct (Hcrc Hd Hb) as [H' _]. apply H'; [lia|]. rewrite !crc16_total. by f_equal.
Qed.

(** The damage of a frame with header [c] and payload [chunk]: a burst in the 20 bytes of
    the header before the checksums, a burst in the payload, another checksum of the
    header, another checksum of a payload that is not empty. *)
Inductive broken (c : fio_net_cmd) (chunk : bytes) : bytes -> Prop :=
  | broken_head d : burst16 (cmd_head c) d ->
      broken c chunk (d ++ le_split 2 (cmd_crc16 c) ++ le_split 2 (pdu_crc16 c))
  | broken_payload d : burst16 chunk d -> broken c chunk (cmd_bytes c ++ d)
  | broken_cmd_crc crc : 0 <= crc < 2 ^ 16 -> crc <> cmd_crc16 c ->
      broken c chunk (cmd_head c ++ le_split 2 crc ++ le_split 2 (pdu_crc16 c))
  | broken_pdu_crc pc : 0 <= pc < 2 ^ 16 -> pc <> pdu_crc16 c -> chunk <> [] ->
      broken c chunk (cmd_head c ++ le_split 2 (cmd_crc16 c) ++ le_split 2 pc ++ chunk).

(** C26: damage is noticed.  When the first frame of a command arrives with bits
    changed inside a window of at most sixteen in the 20 checksummed bytes of its header
    or in its payload, or with a checksum of the header changed, or with the checksum
    of a payload that is not empty changed, fio_net_recv_cmd returns no command.  The
    one field left out, the checksum of an empty payload, is not looked at
    ([empty_frame_crc_ignored]). *)
Theorem net_corruption_detected junk wait op tg chunk more (w r : bytes) sk :
  op_ok op -> tag_ok tg -> Z.of_nat (length chunk) <= 1024 ->
  Forall (rgood wait) (revents sk) -> (24 + length chunk <= rcount (revents sk))%nat ->
  broken (frame_cmd op tg chunk more) chunk w -> rx sk = w ++ r ->
  exists evs, fio_net_recv_cmd junk sk wait = Some (None, mkR r evs).
Proof.
  intros Hop Htg Hl Hg Hn Hbr Hrx. pose proof (crc16_range chunk) as Hc16.
  destruct Hbr as [d Hd|d Hd|crc Hc Hne|pc Hp Hne Hch]; rewrite <- !app_assoc in Hrx.
  - destruct (burst16_detected _ _ Hd) as (_ & HL & Hne). eapply bad_header; [..|exact Hrx|done|lia].
    + by rewrite HL, length_cmd_head.
    + apply length_le_split.
    + apply crc16_range.
    + by rewrite head_of_frame in Hne.
  - destruct (burst16_detected _ _ Hd) as (H0 & HL & Hne).
    apply (bad_payload junk wait op tg chunk d more (crc16v chunk) r sk); try done.
  - eapply bad_header; [apply length_cmd_head|apply length_le_split|exact Hc| |exact Hrx|done|lia].
    intros E. apply Hne. rewrite <- E, head_of_frame. unfold frame_cmd. cbn [cmd_crc16]. reflexivity.
  - apply (bad_payload junk wait op tg chunk chunk more pc r sk); try done.
    destruct chunk; [done|simpl; lia].
Qed.

(** * Concrete conversations *)

(** A job of 1500 bytes, in two fragments, and a command without payload. *)
Definition job_payload : bytes := le_split 4 1492 ++ le_split 4 1 ++ replicate 1492 Byte.x61.
Definition demo_msgs : list msg := [(FIO_NET_CMD_JOB, 77, job_payload); (1, 0, [])].
(** The connection takes 900 bytes at a time, and delivers 7. *)
Definition demo_wevents : list wevent := WAgain :: replicate 2000 (WSent 900).
Definition demo_revents : list revent := RAgain :: replicate 2000 (RGot 7).

Lemma demo_msgs_ok : Forall msg_ok demo_msgs.
Proof.
  unfold demo_msgs. apply Forall_cons. split.
  - split_and!; [split; done|split; done|vm_compute; done|]. right.
    split; intros H; [done|]. split; [vm_compute; lia|vm_compute; reflexivity].
  - apply Forall_cons. split; [|done]. split_and!; [split; done|split; done|done|by left].
Qed.

Lemma replicate_wgood n k : (0 < k)%nat -> Forall wgood (replicate n (WSent k)).
Proof. intros H. by apply Forall_replicate. Qed.
Lemma replicate_rgood w n k : (0 < k)%nat -> Forall (rgood w) (replicate n (RGot k)).
Proof. intros H. by apply Forall_replicate. Qed.

Lemma net_cmd_roundtrip_witness :
  exists sk l evs', send_all (mkW [] demo_wevents) demo_msgs = Some (0, sk) /\
    recv_all NUL 2 (mkR (tx sk) demo_revents) true = Some (Some <$> l, mkR [] evs') /\ Forall2 received demo_msgs l.
Proof.
  destruct (net_cmd_roundtrip NUL true demo_msgs demo_wevents demo_msgs_ok) as (sk & E & Hrecv).
  - apply Forall_cons. split; [done|]. apply replicate_wgood. lia.
  - vm_compute. discriminate.
  - exists sk. destruct (Hrecv demo_revents) as (l & evs' & E' & Hl).
    + apply Forall_cons. split; [done|]. apply replicate_rgood. lia.
    + assert (match send_all (mkW [] demo_wevents) demo_msgs with
              | Some (_, sk) => (length (tx sk) <=? rcount demo_revents)%nat | None => false end = true) as H
        by (vm_compute; reflexivity).
      rewrite E in H. by apply Nat.leb_le.
    + exists l, evs'. split; [exact E|]. split; [exact E'|exact Hl].
Defined.

(** One bit of the opcode flips. *)
Lemma net_corruption_detected_witness :
  let c := frame_cmd 2 5 [] false in
  let damaged := le_split 2 65 ++ le_split 2 3 ++ drop 4 (cmd_head c) in
  exists evs, fio_net_recv_cmd NUL (mkR (damaged ++ drop 20 (cmd_bytes c)) (replicate 24 (RGot 1))) true = Some (None, mkR [] evs).
Proof.
  intros c damaged.
  apply (net_corruption_detected NUL true 2 5 [] false (damaged ++ drop 20 (cmd_bytes c)) []
    (mkR (damaged ++ drop 20 (cmd_bytes c)) (replicate 24 (RGot 1)))).
  - split; done.
  - split; done.
  - done.
  - apply replicate_rgood. lia.
  - vm_compute. lia.
  - apply (broken_head c [] damaged). exists (take 16 (message_bits bits_lsb (cmd_head c))), (bits_lsb 2), (bits_lsb 3),
      (drop 24 (message_bits bits_lsb (cmd_head c))).
    split; [vm_compute; discriminate|]. split; [reflexivity|]. split; [vm_compute; lia|]. split; vm_compute; reflexivity.
  - symmetry. apply app_nil_r.
Defined.

(** * Three defects *)

(** The checksum of an empty payload is not compared: a frame without payload is taken
    with any value there. *)
Lemma empty_frame_crc_ignored :
  let c := frame_cmd 2 5 [] false in
  (fun r => fst <$> r) (fio_net_recv_cmd NUL (mkR (cmd_bytes (with_pdu_crc 4660 c)) (replicate 24 (RGot 1))) true) =
    Some (Some (with_pdu_crc 4660 c, [NUL])).
Proof. vm_compute. reflexivity. Qed.

(** The length inside a text command is not checked against the command: a good
    frame with a text length of 4096 and one byte of text makes the receiver
    write outside its memory. *)
Definition lying_text : bytes := le_split 4 0 ++ le_split 4 4096 ++ le_split 8 0 ++ le_split 8 0 ++ [Byte.x61].
Lemma recv_text_out_of_bounds :
  fio_net_recv_cmd NUL (mkR (frame FIO_NET_CMD_TEXT 0 lying_text false) (replicate 49 (RGot 1))) true = None.
Proof. vm_compute. reflexivity. Qed.

(** The number of entries is not lowered when entries are done: after a write
    that ends inside the payload, the next call of writev reads a third entry of
    an array of two. *)
Lemma sendv_count_not_lowered :
  fio_send_cmd_ext_pdu (mkW [] [WSent 25; WSent 100]) 6 [Byte.x61; Byte.x62] 0 0 = None.
Proof. vm_compute. reflexivity. Qed.

Lemma sendv_full txb n evs (a b : bytes) :
  (0 < length a)%nat -> (length a + length b <= n)%nat ->
  fio_sendv_data (mkW txb (WSent n :: evs)) [a; b] 2 = Some (0, mkW (txb ++ a ++ b) evs).
Proof.
  intros Ha Hn. unfold fio_sendv_data, iov_total_len. cbn [wevents tx sendv_loop take concat length Nat.ltb Nat.leb].
  rewrite app_nil_r, length_app, Nat.min_r by lia. rewrite (proj2 (Nat.eqb_neq _ _)) by lia.
  rewrite Nat.sub_diag, take_ge by (rewrite length_app; lia). done.
Qed.

(** With complete writes the two ways to send give the same bytes. *)
Lemma ext_pdu_same op tg : op_ok op -> tag_ok tg -> forall fuel buf sk,
  (length buf < fuel)%nat -> Forall (fun e => e = WSent 1048) (wevents sk) -> (length buf < length (wevents sk))%nat ->
  exists w evs', wire op tg buf w /\ ext_pdu_loop fuel sk op buf tg 0 = Some (0, mkW (tx sk ++ w) evs').
Proof.
  intros Hop Htg. induction fuel as [|fuel IH]; intros buf sk Hf Hg Hc; [lia|]. cbn [ext_pdu_loop].
  destruct sk as [txb evs]. cbn [wevents tx] in *. destruct evs as [|e evs]; [simpl in Hc; lia|].
  apply Forall_cons in Hg as [-> Hg]. cbn [length] in Hc.
  assert (forall chunk more, Z.of_nat (length chunk) <= 1024 ->
    fio_sendv_data (mkW txb (WSent 1048 :: evs)) [cmd_bytes (frame_cmd op tg chunk more); chunk] 2 =
    Some (0, mkW (txb ++ frame op tg chunk more) evs)) as Hsend.
  { intros chunk more Hl. apply sendv_full; rewrite length_cmd_bytes; lia. }
  destruct (Z.ltb_spec FIO_SERVER_MAX_FRAGMENT_PDU (Z.of_nat (length buf))) as [Hbig|Hsmall];
    unfold FIO_SERVER_MAX_FRAGMENT_PDU in *.
  - rewrite (proj2 (Z.ltb_lt _ _)) by lia. set (chunk := take (Z.to_nat 1024) buf). set (rest := drop (Z.to_nat 1024) buf).
    assert (length chunk = 1024%nat) as Hlc by (unfold chunk; rewrite length_take; lia).
    assert (buf = chunk ++ rest) as Eb by (symmetry; apply take_drop).
    assert (length rest = length buf - 1024)%nat as Hlr by (unfold rest; rewrite length_drop; lia).
    pose proof (crc_frame op tg chunk true rest Hop Htg ltac:(lia)) as Ecrc. rewrite <- Eb, Hlc in Ecrc.
    change (Z.of_nat 1024) with 1024 in Ecrc. cbv iota in Ecrc. change (Z.lor 0 FIO_NET_CMD_F_MORE) with FIO_NET_CMD_F_MORE.
    rewrite Ecrc. obind. rewrite (Hsend chunk true) by lia. obind. cbv beta iota zeta.
    change (negb (0 =? 0)) with false. cbv iota.
    destruct (IH rest (mkW (txb ++ frame op tg chunk true) evs)) as (w & evs' & Hw & Es); [lia|done|simpl; lia|].
    assert (rest <> []) as Hne by (intros E0; rewrite E0 in Hlr; simpl in Hlr; lia).
    exists (frame op tg chunk true ++ w), evs'. split; [rewrite Eb; by apply wire_more|].
    destruct rest; [done|]. rewrite Es. simpl. by rewrite <- app_assoc.
  - rewrite Z.ltb_irrefl, Nat2Z.id, (take_ge buf), drop_ge by lia.
    pose proof (crc_frame op tg buf false [] Hop Htg ltac:(lia)) as Ecrc. rewrite app_nil_r in Ecrc. cbv iota in Ecrc.
    rewrite Ecrc. obind. rewrite (Hsend buf false) by lia.
    exists (frame op tg buf false), evs. split; [by apply wire_last|]. done.
Qed.
