(* ===== verification/Pattern.v ===== *)
(** The buffer patterns of src/fio/lib/pattern.c: spreading a pattern over a
    buffer by doubling copies, comparing a buffer with a pattern without a loop,
    and pasting formats (the block offset, paste_blockoff of src/fio/verify.c). *)
From S2P Require Import Prelude Mem Blocks.

Definition EINVAL : Z := 22.
Definition EILSEQ : Z := 84.

(** [memcmp(a + i, b + j, n) == 0]. *)
Definition memcmp_eq (a : bytes) (i : Z) (b : bytes) (j n : Z) : option bool :=
  x ← copy_from a i n;
  y ← copy_from b j n;
  Some (bool_decide (x = y)).

(** The loop of [dup_pattern]. *)
Fixpoint dup_loop (fuel : nat) (out : bytes) (left_ len off : Z) : option bytes :=
  match fuel with
  | O => None
  | S fuel' =>
      if left_ =? 0 then Some out
      else
        src ← copy_from out 0 len;
        out ← copy_to out off src;
        let left_ := u32 (left_ - len) in
        let off := u32 (Z.shiftl off 1) in
        dup_loop fuel' out left_ (Z.min left_ off) off
  end.

Definition dup_pattern (out : bytes) (out_len pattern_len : Z) : option (Z * bytes) :=
  if out_len <=? pattern_len then Some (0, out)
  else
    let off := pattern_len in
    let left_ := out_len - off in
    out ← dup_loop (S (Z.to_nat out_len)) out left_ (Z.min left_ off) off;
    Some (0, out).

Definition cpy_pattern (pattern : bytes) (pattern_len : Z) (out : bytes) (out_len : Z) :
    option (Z * bytes) :=
  if (pattern_len =? 0) || (out_len =? 0) then Some (- EINVAL, out)
  else
    let len := Z.min pattern_len out_len in
    src ← copy_from pattern 0 len;
    out ← copy_to out 0 src;
    dup_pattern out out_len pattern_len.

Definition cmp_pattern (pattern : bytes) (pattern_size off : Z) (buf : bytes) (len : Z) : option Z :=
  same ← (if pattern_size <? len then memcmp_eq buf 0 buf pattern_size (len - pattern_size)
          else Some true);
  if negb same then Some (- EILSEQ)
  else
    let size := Z.min len (u32 (pattern_size - off)) in
    same ← (if negb (off =? 0) then memcmp_eq buf 0 pattern off size else Some true);
    if negb same then Some (- EILSEQ)
    else
      let (p, len) := if negb (off =? 0) then (size, len - size) else (0, len) in
      if negb (len =? 0) then
        let size := Z.min len (if negb (off =? 0) then off else pattern_size) in
        same ← memcmp_eq buf p pattern 0 size;
        Some (if negb same then - EILSEQ else 0)
      else Some 0.

(** * Formats *)

(** A format of a parsed pattern: where it is, and the length and the callback
    of its descriptor.  [P] is what [priv] points to. *)
Record pattern_fmt (P : Type) : Type := mkFmt {
  fmt_off : Z;
  desc_len : Z;
  desc_paste : bytes -> Z -> P -> option (Z * bytes)   (* the bytes at [buf], [len], [priv] *)
}.
Arguments mkFmt {P}.
Arguments fmt_off {P}.
Arguments desc_len {P}.
Arguments desc_paste {P}.

(** [paste_blockoff]: the offset of the block, little endian; [priv] is the
    io_u, of which only the offset is used. *)
Definition paste_blockoff (buf : bytes) (len offset : Z) : option (Z * bytes) :=
  let off := le64 (u64 offset) in
  let len := Z.min len 8 in
  src ← copy_from off 0 len;
  buf ← copy_to buf 0 src;
  Some (0, buf).

Section Paste.
Context {P : Type}.

(** [for (i = 0; i < fmt_sz; i++)] over the formats; the callback sees the
    pattern from the format's offset on. *)
Fixpoint paste_loop (pattern : bytes) (pattern_len : Z) (fmts : list (pattern_fmt P)) (priv : P) :
    option (Z * bytes) :=
  match fmts with
  | [] => Some (0, pattern)
  | f :: fmts' =>
      if pattern_len <=? fmt_off f then Some (0, pattern)
      else
        let len := Z.min (pattern_len - fmt_off f) (desc_len f) in
        tail ← copy_from pattern (fmt_off f) (Z.of_nat (length pattern) - fmt_off f);
        '(rc, tail) ← desc_paste f tail len priv;
        pattern ← copy_to pattern (fmt_off f) tail;
        if negb (rc =? 0) then Some (rc, pattern)
        else paste_loop pattern pattern_len fmts' priv
  end.

Definition paste_format_inplace (pattern : bytes) (pattern_len : Z) (fmts : list (pattern_fmt P)) (priv : P) :
    option (Z * bytes) :=
  if pattern_len =? 0 then Some (- EINVAL, pattern) else paste_loop pattern pattern_len fmts priv.

Definition paste_format (pattern : bytes) (pattern_len : Z) (fmts : list (pattern_fmt P))
    (out : bytes) (out_len : Z) (priv : P) : option (Z * bytes) :=
  if (pattern_len =? 0) || (out_len =? 0) then Some (- EINVAL, out)
  else
    let len := Z.min pattern_len out_len in
    src ← copy_from pattern 0 len;
    out ← copy_to out 0 src;
    '(rc, out) ← paste_format_inplace out len fmts priv;
    if negb (rc =? 0) then Some (rc, out) else dup_pattern out out_len pattern_len.
End Paste.

Arguments paste_loop {P} pattern pattern_len fmts priv : simpl nomatch.

(** ["ab" spread over five bytes, and compared from offset 1]. *)
Example cpy_pattern_ex :
  cpy_pattern [Byte.x61; Byte.x62] 2 (replicate 7 Byte.x00) 5 =
  Some (0, [Byte.x61; Byte.x62; Byte.x61; Byte.x62; Byte.x61; Byte.x00; Byte.x00]).
Proof. reflexivity. Qed.
Example cmp_pattern_ex :
  cmp_pattern [Byte.x61; Byte.x62] 2 1 [Byte.x62; Byte.x61; Byte.x62] 3 = Some 0 /\
  cmp_pattern [Byte.x61; Byte.x62] 2 1 [Byte.x62; Byte.x61; Byte.x61] 3 = Some (- EILSEQ).
Proof. split; reflexivity. Qed.
Example paste_format_ex :
  paste_format (replicate 10 Byte.xff) 10 [mkFmt 1 8 paste_blockoff] (replicate 12 Byte.x00) 12 0x1234 =
  Some (0, [Byte.xff; Byte.x34; Byte.x12; Byte.x00; Byte.x00; Byte.x00; Byte.x00; Byte.x00; Byte.x00;
            Byte.xff; Byte.xff; Byte.x34]).
Proof. reflexivity. Qed.

(** * What a pattern repeated without end looks like *)

Definition pat_at (pattern : bytes) (i : nat) : byte := nth (i mod length pattern) pattern NUL.

(** [n] bytes of the repeated pattern, from its byte [off] on. *)
Definition spread (pattern : bytes) (off n : nat) : bytes := (fun i => pat_at pattern (off + i)) <$> seq 0 n.

Lemma length_spread pattern off n : length (spread pattern off n) = n.
Proof. unfold spread. by rewrite length_fmap, length_seq. Qed.
#[export] Hint Rewrite length_spread : nvslen.

Lemma lookup_spread pattern off n i :
  (i < n)%nat -> spread pattern off n !! i = Some (pat_at pattern (off + i)).
Proof. intros H. unfold spread. rewrite list_lookup_fmap, lookup_seq_lt by done. done. Qed.

Lemma pat_at_add pattern i k : (0 < length pattern)%nat -> pat_at pattern (i + k * length pattern) = pat_at pattern i.
Proof. intros H. unfold pat_at. by rewrite Nat.Div0.mod_add. Qed.

Lemma lookup_pattern (pattern : bytes) i :
  (i < length pattern)%nat -> pattern !! i = Some (pat_at pattern i).
Proof.
  intros H. unfold pat_at. rewrite Nat.mod_small by done.
  destruct (lookup_lt_is_Some_2 pattern i H) as [b Hb]. rewrite Hb. f_equal. symmetry.
  by apply nth_lookup_Some.
Qed.

Lemma spread_take pattern off n k : (k <= n)%nat -> take k (spread pattern off n) = spread pattern off k.
Proof.
  intros H. apply list_eq. intros i. destruct (decide (i < k)%nat).
  - by rewrite lookup_take_lt, !lookup_spread by lia.
  - rewrite lookup_take_ge by lia. symmetry. apply lookup_ge_None. len.
Qed.

Lemma spread_app pattern off n k :
  spread pattern off n ++ spread pattern (off + n) k = spread pattern off (n + k).
Proof.
  apply list_eq. intros i. destruct (decide (i < n)%nat).
  - by rewrite lookup_app_l, !lookup_spread by len.
  - rewrite lookup_app_r by len. autorewrite with nvslen. destruct (decide (i < n + k)%nat).
    + rewrite !lookup_spread by lia. do 2 f_equal. lia.
    + rewrite !(proj2 (lookup_ge_None _ _)) by len. done.
Qed.

Lemma spread_period pattern off n k :
  (0 < length pattern)%nat -> spread pattern (off + k * length pattern) n = spread pattern off n.
Proof.
  intros H. apply list_eq. intros i. destruct (decide (i < n)%nat).
  - rewrite !lookup_spread by done. f_equal. rewrite <- (pat_at_add pattern (off + i) k) by done.
    f_equal. lia.
  - by rewrite !(proj2 (lookup_ge_None _ _)) by len.
Qed.

Lemma spread_pattern (pattern : bytes) n : (n <= length pattern)%nat -> spread pattern 0 n = take n pattern.
Proof.
  intros H. apply list_eq. intros i. destruct (decide (i < n)%nat).
  - by rewrite lookup_spread, lookup_take_lt, lookup_pattern by lia.
  - rewrite lookup_take_ge by lia. apply lookup_ge_None. len.
Qed.

(** * Spreading *)

(** The loop, entered with [k] whole copies of the pattern in front. *)
Lemma dup_loop_run pattern (rest : bytes) k n fuel :
  let l := length pattern in
  (0 < l)%nat -> (0 < k)%nat -> (k * l <= n)%nat -> (n - k * l < fuel)%nat -> Z.of_nat n < 2 ^ 32 ->
  (n - k * l <= length rest)%nat ->
  dup_loop fuel (spread pattern 0 (k * l) ++ rest) (Z.of_nat (n - k * l))
    (Z.min (Z.of_nat (n - k * l)) (Z.of_nat (k * l))) (Z.of_nat (k * l)) =
  Some (spread pattern 0 n ++ drop (n - k * l) rest).
Proof.
  intros l Hl. revert k rest. induction fuel as [|fuel IH]; intros k rest Hk Hn Hf H32 Hr; [lia|].
  cbn [dup_loop]. destruct (Z.eqb_spec (Z.of_nat (n - k * l)) 0) as [E|E].
  { replace (n - k * l)%nat with 0%nat by lia. rewrite drop_0. by replace (k * l)%nat with n by lia. }
  set (len := Nat.min (n - k * l) (k * l)).
  replace (Z.min (Z.of_nat (n - k * l)) (Z.of_nat (k * l))) with (Z.of_nat len) by lia.
  rewrite (copy_from_eq _ _ _ 0 len) by len. obind.
  rewrite drop_0, take_app_le, spread_take by len.
  rewrite (copy_to_eq _ (spread pattern 0 (k * l)) rest) by (try done; len). obind.
  rewrite <- (spread_period pattern 0 len k Hl), app_assoc. fold l.
  rewrite spread_app, length_spread. rewrite (u32_small (Z.of_nat (n - k * l) - Z.of_nat len)) by (split; lia).
  destruct (decide (k * l <= n - k * l)%nat) as [Hd|Hd].
  - replace (k * l + len)%nat with (2 * k * l)%nat by lia.
    replace (Z.of_nat (n - k * l) - Z.of_nat len) with (Z.of_nat (n - 2 * k * l)) by lia.
    rewrite (u32_small (Z.shiftl _ 1)) by (rewrite Z.shiftl_mul_pow2 by lia; split; lia).
    replace (Z.shiftl (Z.of_nat (k * l)) 1) with (Z.of_nat (2 * k * l))
      by (rewrite Z.shiftl_mul_pow2 by lia; lia).
    rewrite IH by (try done; len). rewrite drop_drop. do 3 f_equal. lia.
  - replace (k * l + len)%nat with n by lia.
    replace (Z.of_nat (n - k * l) - Z.of_nat len) with 0 by lia.
    destruct fuel as [|fuel]; [lia|]. cbn [dup_loop]. simpl. do 3 f_equal. lia.
Qed.

Lemma dup_pattern_run (q rest : bytes) n :
  (0 < length q <= n)%nat -> (n <= length q + length rest)%nat -> Z.of_nat n < 2 ^ 32 ->
  dup_pattern (q ++ rest) (Z.of_nat n) (Z.of_nat (length q)) =
  Some (0, spread q 0 n ++ drop (n - length q) rest).
Proof.
  intros Hq Hr H32. unfold dup_pattern.
  destruct (Z.leb_spec (Z.of_nat n) (Z.of_nat (length q))).
  - replace n with (length q) by lia. rewrite Nat.sub_diag, drop_0, spread_pattern by lia.
    by rewrite (take_ge q) by lia.
  - cbv zeta. pose proof (dup_loop_run q rest 1 n (S (Z.to_nat (Z.of_nat n)))) as H1. cbv zeta in H1.
    rewrite Nat.mul_1_l, spread_pattern, (take_ge q) in H1 by lia.
    replace (Z.of_nat n - Z.of_nat (length q)) with (Z.of_nat (n - length q)) by lia.
    rewrite H1 by lia. done.
Qed.

(** [cpy_pattern] fills the first [n] bytes of [out] with the repeated pattern
    and leaves the others. *)
Lemma cpy_pattern_run (pattern out : bytes) (l n : nat) :
  (0 < l <= length pattern)%nat -> (0 < n <= length out)%nat -> Z.of_nat n < 2 ^ 32 ->
  cpy_pattern pattern (Z.of_nat l) out (Z.of_nat n) =
  Some (0, spread (take l pattern) 0 n ++ drop n out).
Proof.
  intros Hl Hn H32. unfold cpy_pattern.
  rewrite !(proj2 (Z.eqb_neq _ _)) by lia. simpl orb. cbv iota zeta.
  replace (Z.min (Z.of_nat l) (Z.of_nat n)) with (Z.of_nat (Nat.min l n)) by lia.
  rewrite (copy_from_eq _ _ _ 0 (Nat.min l n)) by lia. obind. rewrite drop_0.
  rewrite copy_to_0 by len. obind. rewrite length_take, (Nat.min_l (Nat.min l n)) by lia.
  destruct (decide (l <= n)%nat).
  - rewrite (Nat.min_l l n) by lia. replace (Z.of_nat l) with (Z.of_nat (length (take l pattern))) by len.
    rewrite dup_pattern_run by len. rewrite drop_drop, length_take. do 4 f_equal. len.
  - unfold dup_pattern. rewrite (proj2 (Z.leb_le _ _)) by lia.
    rewrite Nat.min_r, spread_pattern, take_take, Nat.min_l by len. done.
Qed.

(** * Comparing *)

Lemma memcmp_eq_run (a b : bytes) (i j n : nat) :
  (i + n <= length a)%nat -> (j + n <= length b)%nat ->
  memcmp_eq a (Z.of_nat i) b (Z.of_nat j) (Z.of_nat n) =
  Some (bool_decide (take n (drop i a) = take n (drop j b))).
Proof. intros Ha Hb. unfold memcmp_eq. by rewrite !copy_from_ok by lia. Qed.

(** Equal segments, byte by byte. *)
Lemma segment_eq (a b : bytes) (i j n : nat) :
  (i + n <= length a)%nat -> (j + n <= length b)%nat ->
  take n (drop i a) = take n (drop j b) <-> forall k, (k < n)%nat -> a !! (i + k)%nat = b !! (j + k)%nat.
Proof.
  intros Ha Hb. split.
  - intros E k Hk. rewrite <- !lookup_drop. rewrite <- (lookup_take_lt (drop i a) n k Hk), E.
    by apply lookup_take_lt.
  - intros E. apply list_eq. intros k. destruct (decide (k < n)%nat) as [Hk|Hk].
    + rewrite !lookup_take_lt, !lookup_drop by done. by apply E.
    + by rewrite !lookup_take_ge by lia.
Qed.

(** A buffer that equals itself shifted by the period, and the repeated pattern
    on one period, equals it everywhere. *)
Lemma periodic_spread (pattern buf : bytes) off n :
  let l := length pattern in
  (0 < l)%nat -> (n <= length buf)%nat ->
  (forall k, (k < n - l)%nat -> buf !! k = buf !! (l + k)%nat) ->
  (forall k, (k < Nat.min l n)%nat -> buf !! k = Some (pat_at pattern (off + k))) ->
  forall k, (k < n)%nat -> buf !! k = Some (pat_at pattern (off + k)).
Proof.
  intros l Hl Hn Hself Hfirst k. induction k as [k IH] using lt_wf_ind. intros Hk.
  destruct (decide (k < l)%nat); [apply Hfirst; lia|].
  replace k with (l + (k - l))%nat at 1 by lia. rewrite <- Hself by lia. rewrite IH by lia.
  f_equal. rewrite <- (pat_at_add pattern (off + (k - l)) 1) by done. f_equal. fold l. lia.
Qed.

Lemma spread_eq_iff (pattern buf : bytes) off n :
  (n <= length buf)%nat ->
  take n buf = spread pattern off n <-> forall k, (k < n)%nat -> buf !! k = Some (pat_at pattern (off + k)).
Proof.
  intros Hn. split.
  - intros E k Hk. rewrite <- (lookup_take_lt buf n k Hk), E. by apply lookup_spread.
  - intros E. apply list_eq. intros k. destruct (decide (k < n)%nat) as [Hk|Hk].
    + rewrite lookup_take_lt, lookup_spread by done. by apply E.
    + rewrite lookup_take_ge by lia. symmetry. apply lookup_ge_None. len.
Qed.

Section Compare.
Context (pattern buf : bytes) (l : nat).
Hypothesis Hl : (0 < l <= length pattern)%nat.

(** Comparing with a part of the pattern. *)
Lemma memcmp_pattern (zi zj zn : Z) (i j n : nat) :
  zi = Z.of_nat i -> zj = Z.of_nat j -> zn = Z.of_nat n ->
  (i + n <= length buf)%nat -> (j + n <= l)%nat ->
  exists b, memcmp_eq buf zi pattern zj zn = Some b /\
    (b = true <-> forall k, (k < n)%nat -> buf !! (i + k)%nat = Some (pat_at (take l pattern) (j + k))).
Proof.
  intros -> -> -> Hi Hj. eexists. split; [apply memcmp_eq_run; lia|].
  rewrite bool_decide_eq_true, segment_eq by lia.
  assert (forall k, (k < n)%nat -> pattern !! (j + k)%nat = Some (pat_at (take l pattern) (j + k))) as E.
  { intros k Hk. rewrite <- lookup_pattern by len. by rewrite lookup_take_lt by lia. }
  split; intros H k Hk; specialize (H k Hk); rewrite E in * by done; done.
Qed.

(** The comparison with itself. *)
Lemma memcmp_self (n : nat) :
  (n <= length buf)%nat ->
  exists b, (if Z.of_nat l <? Z.of_nat n
             then memcmp_eq buf 0 buf (Z.of_nat l) (Z.of_nat n - Z.of_nat l) else Some true) = Some b /\
    (b = true <-> forall k, (k < n - l)%nat -> buf !! k = buf !! (l + k)%nat).
Proof.
  intros Hn. destruct (Z.ltb_spec (Z.of_nat l) (Z.of_nat n)).
  - replace (Z.of_nat n - Z.of_nat l) with (Z.of_nat (n - l)) by lia. eexists.
    split; [apply (memcmp_eq_run buf buf 0 l (n - l)); lia|].
    by rewrite bool_decide_eq_true, segment_eq by lia.
  - exists true. split; [done|]. split; [intros _ k ?; lia | done].
Qed.

(** The comparison with the pattern from [off] on, wrapped around once. *)
Lemma cmp_parts (off n : nat) :
  (off < l)%nat -> (n <= length buf)%nat -> Z.of_nat l < 2 ^ 32 ->
  exists rc,
    (let len := Z.of_nat n in let off := Z.of_nat off in let pattern_size := Z.of_nat l in
     let size := Z.min len (u32 (pattern_size - off)) in
     same ← (if negb (off =? 0) then memcmp_eq buf 0 pattern off size else Some true);
     if negb same then Some (- EILSEQ)
     else
       let (p, len) := if negb (off =? 0) then (size, len - size) else (0, len) in
       if negb (len =? 0) then
         let size := Z.min len (if negb (off =? 0) then off else pattern_size) in
         same ← memcmp_eq buf p pattern 0 size;
         Some (if negb same then - EILSEQ else 0)
       else Some 0) = Some rc /\ (rc = 0 \/ rc = - EILSEQ) /\
    (rc = 0 <-> forall k, (k < Nat.min l n)%nat -> buf !! k = Some (pat_at (take l pattern) (off + k))).
Proof.
  intros Ho Hn H32. cbv zeta. destruct (Z.eqb_spec (Z.of_nat off) 0) as [E|E]; simpl negb; cbv iota; obind.
  - assert (off = 0%nat) as -> by lia. cbv iota. destruct (Z.eqb_spec (Z.of_nat n) 0) as [E0|E0]; simpl negb; cbv iota.
    { exists 0. split; [done|]. split; [by left|]. split; [intros _ k ?; lia | done]. }
    replace (Z.min (Z.of_nat n) (Z.of_nat l)) with (Z.of_nat (Nat.min l n)) by lia.
    destruct (memcmp_pattern 0 0 (Z.of_nat (Nat.min l n)) 0 0 (Nat.min l n)) as (b & -> & Hb); [lia..|]. obind. cbn [Nat.add] in Hb.
    eexists. split; [done|]. unfold EILSEQ. destruct b; simpl; (split; [lia|]); rewrite <- Hb; split; (done || lia).
  - rewrite u32_small by (split; lia).
    set (s := Nat.min n (l - off)).
    replace (Z.min (Z.of_nat n) (Z.of_nat l - Z.of_nat off)) with (Z.of_nat s) by lia.
    destruct (memcmp_pattern 0 (Z.of_nat off) (Z.of_nat s) 0 off s) as (b & -> & Hb); [lia..|]. obind. cbn [Nat.add] in Hb.
    destruct b; simpl negb; cbv iota; unfold EILSEQ.
    2:{ eexists. split; [done|]. split; [by right|]. split; [lia|]. intros H. exfalso.
        assert (false = true); [|done]. apply Hb. intros k Hk. apply H. lia. }
    pose proof (proj1 Hb eq_refl) as Hs. clear Hb.
    destruct (Z.eqb_spec (Z.of_nat n - Z.of_nat s) 0) as [E0|E0]; simpl negb; cbv iota.
    { exists 0. split; [done|]. split; [by left|]. split; [intros _ k ?; apply Hs; lia | done]. }
    replace (Z.min (Z.of_nat n - Z.of_nat s) (Z.of_nat off)) with (Z.of_nat (Nat.min (n - s) off)) by lia.
    destruct (memcmp_pattern (Z.of_nat s) 0 (Z.of_nat (Nat.min (n - s) off)) s 0 (Nat.min (n - s) off)) as (b & -> & Hb); [lia..|]. obind. cbn [Nat.add] in Hb.
    eexists. split; [done|]. split; [destruct b; simpl; lia|].
    transitivity (b = true); [destruct b; simpl; split; (done || lia)|]. rewrite Hb.
    assert (forall k, pat_at (take l pattern) k = pat_at (take l pattern) (off + (s + k))) as Hp.
    { intros k. rewrite <- (pat_at_add _ k 1) by len. f_equal. len. }
    split; intros H k Hk.
    + destruct (decide (k < s)%nat); [by apply Hs|].
      replace k with (s + (k - s))%nat by lia. rewrite H by lia. by rewrite Hp.
    + rewrite Hp. apply H. lia.
Qed.

Lemma cmp_pattern_run (off n : nat) :
  (off < l)%nat -> (n <= length buf)%nat -> Z.of_nat l < 2 ^ 32 ->
  cmp_pattern pattern (Z.of_nat l) (Z.of_nat off) buf (Z.of_nat n) =
  Some (if decide (take n buf = spread (take l pattern) off n) then 0 else - EILSEQ).
Proof.
  intros Ho Hn H32. unfold cmp_pattern. destruct (memcmp_self n Hn) as (b & -> & Hb). obind.
  destruct (cmp_parts off n Ho Hn H32) as (rc & Hrc & Hv & Hp). cbv zeta in Hrc. cbv zeta.
  pose proof (spread_eq_iff (take l pattern) buf off n Hn) as Hs.
  destruct b; simpl negb; cbv iota.
  - rewrite Hrc. f_equal. pose proof (proj1 Hb eq_refl) as Hself. case_decide as Hd.
    + apply Hp. intros k Hk. apply (proj1 Hs Hd). lia.
    + destruct Hv as [->|]; [|done]. exfalso. apply Hd, Hs.
      pose proof (periodic_spread (take l pattern) buf off n) as Hper. cbv zeta in Hper.
      rewrite length_take, Nat.min_l in Hper by lia. apply Hper; [lia | done | done | by apply Hp].
  - f_equal. case_decide as Hd; [|done]. exfalso. assert (false = true); [|done]. apply Hb.
    intros k Hk. rewrite !(proj1 Hs Hd) by lia. f_equal.
    rewrite <- (pat_at_add _ (off + k) 1) by len. f_equal. len.
Qed.
End Compare.

(** Spreading and comparing patterns are exact.  cpy_pattern fills the first
    [n] bytes of the buffer with the pattern repeated without end, by its doubling
    copies, and leaves the bytes after them; cmp_pattern, which has no loop over
    the bytes, answers 0 exactly when the first [n] bytes are the repeated pattern
    from its byte [off] on, and otherwise -EILSEQ.  Neither leaves its buffers. *)
Theorem pattern_exact (pattern buf : bytes) (l off n : nat) :
  (0 < l <= length pattern)%nat -> Z.of_nat l < 2 ^ 32 -> (off < l)%nat ->
  (0 < n <= length buf)%nat -> Z.of_nat n < 2 ^ 32 ->
  cpy_pattern pattern (Z.of_nat l) buf (Z.of_nat n) =
    Some (0, spread (take l pattern) 0 n ++ drop n buf) /\
  cmp_pattern pattern (Z.of_nat l) (Z.of_nat off) buf (Z.of_nat n) =
    Some (if decide (take n buf = spread (take l pattern) off n) then 0 else - EILSEQ).
Proof.
  intros Hl H32 Ho Hn Hn32. split; [by apply cpy_pattern_run|]. apply cmp_pattern_run; lia.
Qed.

Lemma pattern_exact_witness :
  cpy_pattern [Byte.x61; Byte.x62; Byte.x63] 3 (replicate 9 Byte.x00) 8 =
    Some (0, spread [Byte.x61; Byte.x62; Byte.x63] 0 8 ++ [Byte.x00]) /\
  cmp_pattern [Byte.x61; Byte.x62; Byte.x63] 3 2 (replicate 9 Byte.x00) 8 = Some (- EILSEQ).
Proof.
  apply (pattern_exact [Byte.x61; Byte.x62; Byte.x63] (replicate 9 Byte.x00) 3 2 8); simpl; lia.
Defined.
