(* ===== verification/PatParse.v ===== *)
(** The parser of buffer patterns (src/fio/lib/pattern.c, parse_file to
    parse_and_fill_pattern) with lib/strntol.c and what it uses of strtol,
    strcasestr and sscanf.  A C string is the list of its characters; a pointer
    into it is what is left of it, and the list ends where the NUL is.  The
    reference is a sequence of items with the text and the bytes of each. *)
From S2P Require Import Prelude Crc Pattern.
#[local] Open Scope Z_scope.

(** * Characters *)

Definition is_digit (b : byte) : bool := (48 <=? ub b) && (ub b <=? 57).
Definition is_space (b : byte) : bool := (ub b =? 32) || ((9 <=? ub b) && (ub b <=? 13)).
Definition is_x (b : byte) : bool := (ub b =? 120) || (ub b =? 88).
Definition hex_val (b : byte) : option Z :=
  let c := ub b in
  if (48 <=? c) && (c <=? 57) then Some (c - 48)
  else if (97 <=? c) && (c <=? 102) then Some (c - 87)
  else if (65 <=? c) && (c <=? 70) then Some (c - 55)
  else None.
Definition is_hex (b : byte) : bool := match hex_val b with Some _ => true | None => false end.

Definition QUOTE : byte := Byte.x22.
Definition APOS : byte := Byte.x27.
Definition PERCENT : byte := Byte.x25.
Definition MINUS : byte := Byte.x2d.
Definition PLUS : byte := Byte.x2b.
Definition ZERO : byte := Byte.x30.
Definition LOWER_X : byte := Byte.x78.

(** The longest prefix of characters with [p], and the rest. *)
Fixpoint span (p : byte -> bool) (s : bytes) : bytes * bytes :=
  match s with
  | [] => ([], [])
  | b :: s' => if p b then let '(a, r) := span p s' in (b :: a, r) else ([], s)
  end.

(** * The C library *)

Definition LONG_MAX : Z := 2 ^ 63 - 1.
Definition LONG_MIN : Z := - 2 ^ 63.
Definition INT_MAX : Z := 2 ^ 31 - 1.
Definition INT_MIN : Z := - 2 ^ 31.

Definition dec_val (ds : bytes) : Z := fold_left (fun a b => 10 * a + (ub b - 48)) ds 0.

(** strtol in base 10: the value and the number of characters it used. *)
Definition strtol10 (s : bytes) : Z * nat :=
  let '(sp, r) := span is_space s in
  let '(neg, sg, r) :=
    match r with
    | b :: r' => if decide (b = MINUS) then (true, 1%nat, r') else if decide (b = PLUS) then (false, 1%nat, r') else (false, 0%nat, r)
    | [] => (false, 0%nat, r)
    end in
  let '(ds, _) := span is_digit r in
  match ds with
  | [] => (0, 0%nat)
  | _ =>
      let v := if (neg : bool) then - dec_val ds else dec_val ds in
      (Z.max LONG_MIN (Z.min LONG_MAX v), (length sp + sg + length ds)%nat)
  end.

(** lib/strntol.c: the value and the end, counted from [str]; [None] for an end
    that points into the local buffer. *)
Definition strntol (str : bytes) (sz : nat) : Z * option nat :=
  let k := length (fst (span (fun b => ub b =? 32) (take sz str))) in
  let sz := (sz - k)%nat in
  if (sz =? 0)%nat || (24 <=? sz)%nat then (0, Some 0%nat)
  else
    let '(ret, e) := strtol10 (take sz (drop k str)) in
    if (ret =? LONG_MIN) || (ret =? LONG_MAX) then (ret, None) else (ret, Some e).

(** The index of the first 0x or 0X. *)
Fixpoint find_0x (s : bytes) : option nat :=
  match s with
  | a :: ((b :: _) as s') => if decide (a = ZERO) then if is_x b then Some 0%nat else S <$> find_0x s' else S <$> find_0x s'
  | _ => None
  end.

(** sscanf(s, "0%*[xX]%*[0-9a-fA-F]%n", &num): num, 0 when it is not reached. *)
Definition sscanf_hex (s : bytes) : nat :=
  match s with
  | b :: r =>
      if decide (b = ZERO) then
        let '(xs, r2) := span is_x r in
        let '(hs, _) := span is_hex r2 in
        match xs, hs with
        | _ :: _, _ :: _ => (1 + length xs + length hs)%nat
        | _, _ => 0%nat
        end
      else 0%nat
  | [] => 0%nat
  end.

(** sscanf(s, "%<w>hhx", &c): the value when there is a digit. *)
Definition scan_hhx (w : nat) (s : bytes) : option Z :=
  match fst (span is_hex (take w s)) with
  | [] => None
  | ds => Some (u8 (fold_left (fun a b => 16 * a + default 0 (hex_val b)) ds 0))
  end.

(** * pattern.c *)

(** A parser returns the bytes it put out and the number of characters it used. *)
Definition parsed : Type := option (bytes * nat).

(** The loop over the digits; [out] is what the buffer holds. *)
Fixpoint hex_loop (out : bytes) (num : nat) (beg : bytes) : bytes * nat :=
  match out with
  | [] => ([], num)
  | o :: out' =>
      match num with
      | O => ([], 0%nat)
      | _ =>
          let w := if Nat.odd num then 1%nat else 2%nat in
          let c := match scan_hhx w beg with Some v => byte.of_Z v | None => o end in
          let '(r, n) := hex_loop out' (num - w) (drop w beg) in
          (c :: r, n)
      end
  end.

(** The loop over the bytes of a number. *)
Fixpoint dec_loop (out : bytes) (val : Z) : bytes * Z :=
  match out with
  | [] => ([], val)
  | _ :: out' =>
      if val =? 0 then ([], 0)
      else let '(r, v) := dec_loop out' (Z.shiftr val 8) in (byte.of_Z (Z.land val 0xff) :: r, v)
  end.

(** strncasecmp(&s[i], "0x", 2) == 0 *)
Definition is_0x_at (s : bytes) (i : nat) : bool :=
  match drop i s with a :: b :: _ => bool_decide (a = ZERO) && is_x b | _ => false end.

Definition parse_number (beg out : bytes) : parsed :=
  if (length out =? 0)%nat then None
  else
    let num := sscanf_hex beg in
    if (num =? 0)%nat then
      let '(lval, e) :=
        match find_0x beg with
        | Some (S n) => strntol beg (S n)
        | _ => let '(v, e) := strtol10 beg in (v, Some e)
        end in
      if (match e with Some O => true | _ => false end) || (INT_MAX <? lval) || (lval <? INT_MIN) then None
      else
        e ← e;
        if lval =? 0 then Some ([NUL], e)
        else
          let '(r, v) := dec_loop out (u32 lval) in
          if negb (v =? 0) then None else Some (r, e)
    else
      let num := (num - 2)%nat in
      let beg := drop 2 beg in
      let num := match drop num beg with
                 | _ :: _ => if is_0x_at beg (num - 1) then (num - 1)%nat else num
                 | [] => num
                 end in
      let '(r, n) := hex_loop out num beg in
      if negb (n =? 0)%nat then None else Some (r, (2 + num)%nat).

Fixpoint strchr (c : byte) (s : bytes) : option nat :=
  match s with
  | [] => None
  | b :: s' => if decide (b = c) then Some 0%nat else S <$> strchr c s'
  end.

Definition parse_string (beg out : bytes) : parsed :=
  if (length out =? 0)%nat then None
  else
    let s := drop 1 beg in
    n ← strchr QUOTE s;
    if (length out <? n)%nat then None else Some (take n s, (n + 2)%nat).

(** [read_file name n]: what opening a file and reading [n] bytes of it gives, no
    value when one of them fails. *)
Definition parse_file (read_file : bytes -> nat -> option bytes) (beg out : bytes) : parsed :=
  if (length out =? 0)%nat then None
  else
    let s := drop 1 beg in
    n ← strchr APOS s;
    data ← read_file (take n s) (length out);
    Some (data, (n + 2)%nat).

Record pattern_fmt_desc : Type := mkDesc { d_fmt : bytes; d_len : nat }.

Definition starts_with (p s : bytes) : bool := bool_decide (take (length p) s = p).

(** The position of the first descriptor that the input starts with. *)
Fixpoint find_desc (ds : list pattern_fmt_desc) (s : bytes) : option (nat * pattern_fmt_desc) :=
  match ds with
  | [] => None
  | d :: ds' => if starts_with (d_fmt d) s then Some (0%nat, d) else '(i, d') ← find_desc ds' s; Some (S i, d')
  end.

(** The bytes reserved and the descriptor; [fmt_sz]: the room for formats. *)
Definition parse_format (ds : list pattern_fmt_desc) (fmt_sz : nat) (beg out : bytes) : option (bytes * nat * nat) :=
  if (length out =? 0)%nat || (length ds =? 0)%nat || (fmt_sz =? 0)%nat then None
  else
    '(i, d) ← find_desc ds beg;
    if (length out <? d_len d)%nat then None
    else Some (replicate (d_len d) NUL, length (d_fmt d), i).

(** What comes out: the bytes and the formats with their offsets; no outer value
    when an assertion fails, no inner one for -EINVAL. *)
Definition fill_result : Type := option (option (bytes * list (nat * nat))).

(** The loop: [total] bytes are out, [out] is the rest of the buffer. *)
Fixpoint fill_loop (fuel : nat) (read_file : bytes -> nat -> option bytes) (ds : list pattern_fmt_desc)
    (beg : bytes) (in_len : nat) (out : bytes) (total : nat) (fmt_rem : nat) : fill_result :=
  match fuel with
  | O => None
  | S fuel' =>
      let c := default NUL (head beg) in
      let r : option (bytes * nat * option nat) :=
        if decide (c = APOS) then '(f, n) ← parse_file read_file beg out; Some (f, n, None)
        else if decide (c = QUOTE) then '(f, n) ← parse_string beg out; Some (f, n, None)
        else if decide (c = PERCENT) then '(f, n, i) ← parse_format ds fmt_rem beg out; Some (f, n, Some i)
        else '(f, n) ← parse_number beg out; Some (f, n, None) in
      match r with
      | None => Some None
      | Some (filled, n, fmt) =>
          let fmt_rem := match fmt with Some _ => (fmt_rem - 1)%nat | None => fmt_rem end in
          if (in_len <? n)%nat then None
          else if (length filled =? 0)%nat || (length out <? length filled)%nat then None
          else
            let in_len := (in_len - n)%nat in
            let fs := match fmt with Some i => [(i, total)] | None => [] end in
            if (in_len =? 0)%nat then Some (Some (filled, fs))
            else
              rest ← fill_loop fuel' read_file ds (drop n beg) in_len (drop (length filled) out)
                       (total + length filled) fmt_rem;
              Some (match rest with None => None | Some (b, l) => Some (filled ++ b, fs ++ l) end)
      end
  end.

Definition parse_and_fill_pattern (read_file : bytes -> nat -> option bytes) (ds : list pattern_fmt_desc)
    (input : bytes) (in_len : nat) (out : bytes) (fmt_sz : nat) : fill_result :=
  if (in_len =? 0)%nat || (length out =? 0)%nat then Some None
  else fill_loop (S (length out)) read_file ds input in_len out 0 fmt_sz.

(** * Reference: what a pattern is meant to say *)

(** The number that hexadecimal digits stand for. *)
Definition hex_num (ds : bytes) : Z := fold_left (fun a b => 16 * a + default 0 (hex_val b)) ds 0.

(** Its bytes, the highest first. *)
Definition hex_bytes (ds : bytes) : bytes :=
  rev (le_split (Nat.div2 (S (length ds))) (hex_num ds)).

(** The bytes of a 32 bit number, the lowest first, as many as it needs. *)
Definition dec_bytes (v : Z) : bytes :=
  let w := u32 v in le_split (Z.to_nat (1 + Z.log2 w / 8)) w.

Inductive item : Type :=
| IStr (s : bytes)
| IFile (name data : bytes)
| IFmt (i : nat) (d : pattern_fmt_desc)
| IDec (neg : bool) (ds : bytes)
| IHex (x : byte) (ds : bytes).

Definition print_item (it : item) : bytes :=
  match it with
  | IStr s => QUOTE :: s ++ [QUOTE]
  | IFile name _ => APOS :: name ++ [APOS]
  | IFmt _ d => d_fmt d
  | IDec neg ds => (if neg then [MINUS] else []) ++ ds
  | IHex x ds => ZERO :: x :: ds
  end.

Definition print (its : list item) : bytes := its ≫= print_item.

Definition dec_item (neg : bool) (ds : bytes) : Z := if neg then - dec_val ds else dec_val ds.

Definition fit (room : nat) (v : bytes) : option bytes :=
  if (length v <=? room)%nat then Some v else None.

(** The bytes of an item in a buffer with [room], when there is place for [fr] more
    formats; no value for an error. *)
Definition item_bytes (room fr : nat) (it : item) : option bytes :=
  match it with
  | IStr s => fit room s
  | IFile _ data => if (room =? 0)%nat then None else Some (take room data)
  | IFmt _ d => if (fr =? 0)%nat then None else fit room (replicate (d_len d) NUL)
  | IDec neg ds =>
      let v := dec_item neg ds in
      if (INT_MIN <=? v) && (v <=? INT_MAX) then fit room (dec_bytes v) else None
  | IHex _ ds => fit room (hex_bytes ds)
  end.

Definition item_fmt (it : item) : option nat := match it with IFmt i _ => Some i | _ => None end.

Fixpoint items_bytes (its : list item) (room fr total : nat) : option (bytes * list (nat * nat)) :=
  match its with
  | [] => Some ([], [])
  | it :: its' =>
      v ← item_bytes room fr it;
      '(b, l) ← items_bytes its' (room - length v)
                  (match item_fmt it with Some _ => fr - 1 | None => fr end) (total + length v);
      Some (v ++ b, match item_fmt it with Some i => [(i, total)] | None => [] end ++ l)
  end.

(** * Well formed patterns *)

Definition item_ok (read_file : bytes -> nat -> option bytes) (ds : list pattern_fmt_desc) (it : item) : Prop :=
  match it with
  | IStr s => s <> [] /\ (QUOTE ∉ s)
  | IFile name data =>
      data <> [] /\ (APOS ∉ name) /\ forall n, (0 < n)%nat -> read_file name n = Some (take n data)
  | IFmt i d => ds !! i = Some d
  | IDec _ ds => ds <> [] /\ Forall (fun b => is_digit b = true) ds
  | IHex x ds => ds <> [] /\ is_x x = true /\ Forall (fun b => is_hex b = true) ds
  end.

(** No number is followed by a decimal without a sign; a decimal is less than 24
    characters before the next 0x. *)
Definition item_sep (it : item) (its : list item) : Prop :=
  match it with
  | IDec _ _ => (match its with IDec false _ :: _ => False | _ => True end) /\
      match find_0x (print_item it ++ print its) with Some n => (n < 24)%nat | None => True end
  | IHex _ _ => match its with IDec false _ :: _ => False | _ => True end
  | _ => True
  end.

Fixpoint items_ok (read_file : bytes -> nat -> option bytes) (ds : list pattern_fmt_desc) (its : list item) : Prop :=
  match its with
  | [] => True
  | it :: its' => item_ok read_file ds it /\ item_sep it its' /\ items_ok read_file ds its'
  end.

(** Formats start with a percent sign, take room, and none starts another. *)
Definition descs_ok (ds : list pattern_fmt_desc) : Prop :=
  (forall i d, ds !! i = Some d -> head (d_fmt d) = Some PERCENT /\ (0 < d_len d)%nat) /\
  (forall i j d e, ds !! i = Some d -> ds !! j = Some e -> i <> j -> ~ d_fmt d `prefix_of` d_fmt e).

(** * Scanning *)

Definition stops (p : byte -> bool) (r : bytes) : Prop :=
  match r with b :: _ => p b = false | [] => True end.

Lemma span_app p a r : Forall (fun b => p b = true) a -> stops p r -> span p (a ++ r) = (a, r).
Proof.
  intros Ha Hr. induction Ha as [|b a Hb Ha IH]; simpl.
  - destruct r as [|b r]; [done|]. simpl in *. by rewrite Hr.
  - by rewrite Hb, IH.
Qed.

Lemma strchr_app c a r : c ∉ a -> strchr c (a ++ c :: r) = Some (length a).
Proof.
  induction a as [|b a IH]; intros Hn; simpl.
  - by rewrite decide_True.
  - apply not_elem_of_cons in Hn as [Hb Hn]. rewrite decide_False by congruence. by rewrite IH.
Qed.

(** Where [find_0x] finds it. *)
Lemma find_0x_cons a b s :
  find_0x (a :: b :: s) =
    if bool_decide (a = ZERO) && is_x b then Some 0%nat else S <$> find_0x (b :: s).
Proof.
  cbn [find_0x]. destruct (decide (a = ZERO)) as [->|Ha].
  - rewrite bool_decide_eq_true_2 by done. by destruct (is_x b).
  - by rewrite bool_decide_eq_false_2.
Qed.

Lemma find_0x_at s n : find_0x s = Some n -> exists x r, drop n s = ZERO :: x :: r /\ is_x x = true.
Proof.
  revert n. induction s as [|a s IH]; intros n Hn; [done|].
  destruct s as [|b s]; [done|]. rewrite find_0x_cons in Hn.
  destruct (bool_decide (a = ZERO) && is_x b) eqn:Hc.
  - apply andb_true_iff in Hc as [Ha Hb]; apply bool_decide_eq_true in Ha as ->. injection Hn as <-. eauto.
  - apply fmap_Some in Hn as (m & Hm & ->). by apply IH.
Qed.

Lemma find_0x_before p x r : is_x x = true ->
  exists n, find_0x (p ++ ZERO :: x :: r) = Some n /\ (n <= length p)%nat.
Proof.
  intros Hx. induction p as [|a p (n & IH & Hn)]; cbn [app].
  - rewrite find_0x_cons, Hx. eauto.
  - destruct p as [|b p]; cbn [app] in *; rewrite find_0x_cons, IH;
      destruct (_ && _); simpl; eexists; (split; [reflexivity|]); simpl in *; lia.
Qed.

Lemma find_0x_past p r n : Forall (fun b => is_x b = false) p -> stops is_x r ->
  find_0x (p ++ r) = Some n -> (length p <= n)%nat.
Proof.
  intros Hp Hr (x & t & Hd & Hx)%find_0x_at.
  destruct (decide (length p <= n)%nat) as [|Hn]; [done|exfalso].
  assert (Hl : (p ++ r) !! S n = Some x).
  { replace (S n) with (n + 1)%nat by lia. by rewrite <- lookup_drop, Hd. }
  destruct (decide (S n < length p)%nat).
  - rewrite lookup_app_l in Hl by lia. pose proof (Forall_lookup_1 _ _ _ _ Hp Hl). simpl in *. congruence.
  - rewrite lookup_app_r in Hl by lia. replace (S n - length p)%nat with 0%nat in Hl by lia.
    destruct r; simpl in *; congruence.
Qed.

(** * Decimal numbers *)

(** The printed form of a decimal. *)
Definition dec_text (neg : bool) (ds : bytes) : bytes := (if neg then [MINUS] else []) ++ ds.

Definition clamp_long (v : Z) : Z := Z.max LONG_MIN (Z.min LONG_MAX v).

Lemma digit_facts b : is_digit b = true ->
  is_space b = false /\ is_x b = false /\ is_hex b = true /\ b <> MINUS /\ b <> PLUS /\ b <> QUOTE /\ b <> APOS /\ b <> PERCENT.
Proof. destruct b; vm_compute; intros; repeat split; congruence. Qed.

Lemma strtol10_text neg ds r : ds <> [] -> Forall (fun b => is_digit b = true) ds -> stops is_digit r ->
  strtol10 (dec_text neg ds ++ r) = (clamp_long (dec_item neg ds), length (dec_text neg ds)).
Proof.
  intros Hne Hds Hr. destruct ds as [|d ds]; [done|].
  assert (Hd : is_digit d = true) by by apply Forall_inv in Hds.
  destruct (digit_facts _ Hd) as (Hs & _ & _ & Hm & Hp & _).
  unfold strtol10, dec_text, dec_item. destruct neg; cbn [app].
  - replace (span is_space (MINUS :: d :: ds ++ r)) with (@nil byte, MINUS :: d :: ds ++ r) by reflexivity.
    cbv beta iota zeta. rewrite decide_True by done. change (d :: ds ++ r) with ((d :: ds) ++ r).
    rewrite (span_app is_digit (d :: ds) r Hds Hr). done.
  - replace (span is_space (d :: ds ++ r)) with (@nil byte, d :: ds ++ r) by (cbn [span]; by rewrite Hs).
    cbv beta iota zeta. rewrite decide_False, decide_False by done. change (d :: ds ++ r) with ((d :: ds) ++ r).
    rewrite (span_app is_digit (d :: ds) r Hds Hr). done.
Qed.

Lemma strntol_text neg ds r n : ds <> [] -> Forall (fun b => is_digit b = true) ds ->
  (length (dec_text neg ds) <= n < 24)%nat -> stops is_digit (take (n - length (dec_text neg ds)) r) ->
  exists e, strntol (dec_text neg ds ++ r) n = (clamp_long (dec_item neg ds), e) /\
    (LONG_MIN < dec_item neg ds < LONG_MAX -> e = Some (length (dec_text neg ds))) /\ e <> Some 0%nat.
Proof.
  intros Hne Hds Hn Hr. unfold strntol. rewrite take_app, take_ge by lia.
  assert (Hlen : (0 < length (dec_text neg ds))%nat)
    by (unfold dec_text; rewrite length_app; destruct ds; simpl in *; [done|lia]).
  replace (span (fun b => ub b =? 32) _) with
    (@nil byte, dec_text neg ds ++ take (n - length (dec_text neg ds)) r).
  2:{ destruct ds as [|d ds]; [done|]. apply Forall_inv in Hds.
      destruct (digit_facts _ Hds) as (Hs & _). unfold dec_text. destruct neg; [done|].
      cbn [app span]. unfold is_space in Hs. apply orb_false_iff in Hs as [-> _]. done. }
  cbn [fst length]. rewrite Nat.sub_0_r, drop_0.
  replace ((n =? 0)%nat || (24 <=? n)%nat) with false
    by (symmetry; apply orb_false_iff; split; [apply Nat.eqb_neq|apply Nat.leb_gt]; lia).
  rewrite take_app, take_ge by lia.
  rewrite strtol10_text by done.
  destruct ((_ =? LONG_MIN) || _) eqn:Hc; eexists; (split; [reflexivity|]); (split; [try done|try done]).
  - intros Hv. exfalso. unfold clamp_long in Hc. apply orb_true_iff in Hc as [Hc|Hc]; apply Z.eqb_eq in Hc; lia.
  - intros H. injection H. lia.
Qed.

(** What may follow a number: no x, and no digit but that of 0x. *)
Definition sepd (r : bytes) : Prop :=
  match r with
  | [] => True
  | b :: t => is_x b = false /\ (is_hex b = true -> b = ZERO /\ exists x t', t = x :: t' /\ is_x x = true)
  end.

(** What [strtol] or [strntol] finds, as parse_number chooses between them. *)
Lemma dec_scan neg ds rest : ds <> [] -> Forall (fun b => is_digit b = true) ds -> sepd rest ->
  (match find_0x (dec_text neg ds ++ rest) with Some n => (n < 24)%nat | None => True end) ->
  exists e, (match find_0x (dec_text neg ds ++ rest) with
        | Some (S n) => strntol (dec_text neg ds ++ rest) (S n)
        | _ => let '(v, e) := strtol10 (dec_text neg ds ++ rest) in (v, Some e)
        end) = (clamp_long (dec_item neg ds), e) /\
    (LONG_MIN < dec_item neg ds < LONG_MAX -> e = Some (length (dec_text neg ds))) /\ e <> Some 0%nat.
Proof.
  intros Hne Hds Hsep H24.
  assert (Hlen : (0 < length (dec_text neg ds))%nat)
    by (unfold dec_text; rewrite length_app; destruct ds; simpl in *; [done|lia]).
  assert (Hp : Forall (fun b => is_x b = false) (dec_text neg ds)).
  { apply Forall_app. split; [by destruct neg; repeat constructor|].
    eapply Forall_impl; [exact Hds|]. intros b Hb. apply (digit_facts _ Hb). }
  assert (Hx : stops is_x rest) by (destruct rest; [done|apply Hsep]).
  destruct (find_0x _) as [n|] eqn:Hf.
  - pose proof (find_0x_past _ _ _ Hp Hx Hf) as Hge. destruct n as [|n]; [lia|].
    apply strntol_text; [done..|lia|].
    destruct rest as [|b r]; [by rewrite take_nil|].
    destruct (is_digit b) eqn:Hb.
    + destruct Hsep as [_ Hsep]. destruct Hsep as (-> & x & r' & -> & Hx'); [apply (digit_facts _ Hb)|].
      destruct (find_0x_before (dec_text neg ds) x r' Hx') as (m & Hm & Hle).
      assert (m = S n) by congruence. subst m. replace (_ - _)%nat with 0%nat by lia. done.
    + destruct (S n - _)%nat; [done|]. exact Hb.
  - rewrite strtol10_text; [|done..|].
    + eexists. split; [reflexivity|]. split; [done|]. intros H. injection H. lia.
    + destruct rest as [|b r]; [done|]. simpl. destruct (is_digit b) eqn:Hb; [|done].
      destruct Hsep as [_ Hsep]. destruct Hsep as (-> & x & r' & -> & Hx'); [apply (digit_facts _ Hb)|].
      destruct (find_0x_before (dec_text neg ds) x r' Hx') as (m & Hm & Hle). congruence.
Qed.

Lemma of_Z_land w : byte.of_Z (Z.land w 255) = byte.of_Z w.
Proof.
  apply byte.unsigned_inj. rewrite !byte.unsigned_of_Z. unfold byte.wrap.
  change 255 with (Z.ones 8). rewrite Z.land_ones, Z.mod_mod by lia. done.
Qed.

Lemma dec_loop_bytes k : forall out w, 2 ^ (8 * Z.of_nat k) <= w < 2 ^ (8 * Z.of_nat (S k)) ->
  if (S k <=? length out)%nat then dec_loop out w = (le_split (S k) w, 0) else snd (dec_loop out w) <> 0.
Proof.
  induction k as [|k IH]; intros out w Hw.
  - replace (8 * Z.of_nat 1) with 8 in Hw by lia. change (2 ^ (8 * Z.of_nat 0)) with 1 in Hw.
    destruct out as [|o out]; [simpl; lia|]. cbn [length dec_loop le_split].
    destruct (Nat.leb_spec 1 (S (length out))); [|lia].
    destruct (Z.eqb_spec w 0); [lia|]. rewrite Z.shiftr_div_pow2, Z.div_small by lia.
    rewrite of_Z_land. by destruct out.
  - assert (Hw' : 2 ^ (8 * Z.of_nat k) <= Z.shiftr w 8 < 2 ^ (8 * Z.of_nat (S k))).
    { rewrite Z.shiftr_div_pow2 by lia.
      replace (8 * Z.of_nat (S (S k))) with (8 + 8 * Z.of_nat (S k)) in Hw by lia.
      replace (8 * Z.of_nat (S k)) with (8 + 8 * Z.of_nat k) in Hw at 1 by lia.
      rewrite !Z.pow_add_r in Hw by lia. split.
      - apply Z.div_le_lower_bound; lia.
      - apply Z.div_lt_upper_bound; lia. }
    destruct out as [|o out]; [simpl; pose proof (Z.pow_pos_nonneg 2 (8 * Z.of_nat (S k))); lia|].
    specialize (IH out _ Hw'). cbn [length dec_loop].
    assert (0 < w) by (pose proof (Z.pow_pos_nonneg 2 (8 * Z.of_nat (S k))); lia).
    destruct (Z.eqb_spec w 0); [lia|]. change (S (S k) <=? S (length out))%nat with (S k <=? length out)%nat.
    destruct (S k <=? length out)%nat.
    + rewrite IH, of_Z_land. done.
    + by destruct (dec_loop out _).
Qed.

(** The bytes of a number are those that [dec_loop] puts out. *)
Lemma dec_loop_fit out v : u32 v <> 0 ->
  match fit (length out) (dec_bytes v) with
  | Some r => dec_loop out (u32 v) = (r, 0)
  | None => snd (dec_loop out (u32 v)) <> 0
  end.
Proof.
  intros Hv. unfold fit, dec_bytes. rewrite length_le_split.
  assert (Hpos : 0 < u32 v) by (pose proof (u32_fits v) as [? ?]; lia).
  pose proof (Z.log2_spec _ Hpos) as Hl. pose proof (Z.log2_nonneg (u32 v)) as Hn.
  pose proof (Z.div_mod (Z.log2 (u32 v)) 8 ltac:(lia)). pose proof (Z.mod_pos_bound (Z.log2 (u32 v)) 8 ltac:(lia)).
  assert (Hd : 0 <= Z.log2 (u32 v) / 8) by (apply Z.div_pos; lia).
  replace (Z.to_nat (1 + Z.log2 (u32 v) / 8)) with (S (Z.to_nat (Z.log2 (u32 v) / 8))) by lia.
  pose proof (dec_loop_bytes (Z.to_nat (Z.log2 (u32 v) / 8)) out (u32 v)) as HL.
  destruct (S _ <=? length out)%nat; apply HL;
    (split; [etransitivity; [|apply Hl]; apply Z.pow_le_mono_r; lia
            |eapply Z.lt_le_trans; [apply Hl|]; apply Z.pow_le_mono_r; lia]).
Qed.

(** * Hexadecimal numbers *)

Lemma hex_fold_acc ds a :
  fold_left (fun a b => 16 * a + default 0 (hex_val b)) ds a = a * 2 ^ (4 * Z.of_nat (length ds)) + hex_num ds.
Proof.
  unfold hex_num. revert a. induction ds as [|d ds IH]; intros a; [simpl; lia|].
  cbn [fold_left length]. rewrite IH, (IH (16 * 0 + _)).
  replace (4 * Z.of_nat (S (length ds))) with (4 + 4 * Z.of_nat (length ds)) by lia.
  rewrite Z.pow_add_r by lia. change (2 ^ 4) with 16. ring.
Qed.

Lemma hex_num_cons d ds : hex_num (d :: ds) = default 0 (hex_val d) * 2 ^ (4 * Z.of_nat (length ds)) + hex_num ds.
Proof. unfold hex_num at 1. cbn [fold_left]. rewrite hex_fold_acc. ring. Qed.

Lemma hex_digit_range d : is_hex d = true -> 0 <= default 0 (hex_val d) < 16.
Proof. destruct d; vm_compute; intros; (split; congruence). Qed.

Lemma hex_num_range ds : Forall (fun b => is_hex b = true) ds -> 0 <= hex_num ds < 2 ^ (4 * Z.of_nat (length ds)).
Proof.
  induction 1 as [|d ds Hd Hds IH]; [vm_compute; intuition congruence|].
  rewrite hex_num_cons. cbn [length]. pose proof (hex_digit_range _ Hd).
  replace (4 * Z.of_nat (S (length ds))) with (4 + 4 * Z.of_nat (length ds)) by lia.
  rewrite Z.pow_add_r by lia. change (2 ^ 4) with 16. nia.
Qed.

Lemma le_split_snoc k v : le_split (S k) v = le_split k v ++ [byte.of_Z (Z.shiftr v (8 * Z.of_nat k))].
Proof.
  revert v. induction k as [|k IH]; intros v; [simpl; by rewrite Z.shiftr_0_r|].
  change (le_split (S (S k)) v) with (byte.of_Z v :: le_split (S k) (Z.shiftr v 8)).
  rewrite IH, Z.shiftr_shiftr by lia. by replace (8 * Z.of_nat (S k)) with (8 + 8 * Z.of_nat k) by lia.
Qed.

(** The highest byte of a number. *)
Lemma rev_le_split_top k c v : 0 <= v < 2 ^ (8 * Z.of_nat k) ->
  rev (le_split (S k) (c * 2 ^ (8 * Z.of_nat k) + v)) = byte.of_Z c :: rev (le_split k v).
Proof.
  intros Hv. rewrite le_split_snoc, rev_app_distr. cbn [rev app]. f_equal.
  - f_equal. rewrite Z.shiftr_div_pow2, Z.div_add_l, Z.div_small by lia. lia.
  - rewrite (le_split_mod v k), (le_split_mod (_ + v) k). do 2 f_equal.
    replace (Z.of_nat k * 8) with (8 * Z.of_nat k) by lia.
    by rewrite Z.add_comm, Z.mod_add by lia.
Qed.

Lemma of_Z_u8 z : byte.of_Z (u8 z) = byte.of_Z z.
Proof.
  apply byte.unsigned_inj. rewrite !byte.unsigned_of_Z. unfold byte.wrap, u8. by rewrite Z.mod_mod.
Qed.

Lemma scan_hhx_2 a b r : is_hex a = true -> is_hex b = true ->
  scan_hhx 2 (a :: b :: r) = Some (u8 (16 * default 0 (hex_val a) + default 0 (hex_val b))).
Proof.
  intros Ha Hb. unfold scan_hhx. rewrite !firstn_cons, firstn_O. cbn [span]. rewrite Ha, Hb. reflexivity.
Qed.

Lemma scan_hhx_1 a r : is_hex a = true -> scan_hhx 1 (a :: r) = Some (u8 (default 0 (hex_val a))).
Proof. intros Ha. unfold scan_hhx. rewrite firstn_cons, firstn_O. cbn [span]. rewrite Ha. reflexivity. Qed.

Lemma hex_loop_even k : forall out ds rest, length ds = (2 * k)%nat -> Forall (fun b => is_hex b = true) ds ->
  if (k <=? length out)%nat then hex_loop out (2 * k) (ds ++ rest) = (rev (le_split k (hex_num ds)), 0%nat)
  else snd (hex_loop out (2 * k) (ds ++ rest)) <> 0%nat.
Proof.
  induction k as [|k IH]; intros out ds rest Hl Hds.
  { by destruct out, ds. }
  destruct ds as [|a [|b ds]]; [simpl in Hl; lia..|].
  apply Forall_cons in Hds as [Ha Hds]. apply Forall_cons in Hds as [Hb Hds].
  assert (Hl' : length ds = (2 * k)%nat) by (simpl in Hl; lia).
  destruct out as [|o out]; [by simpl|].
  specialize (IH out ds rest Hl' Hds). change (S k <=? length (o :: out))%nat with (k <=? length out)%nat.
  replace (2 * S k)%nat with (S (S (2 * k)))%nat by lia. cbn [hex_loop].
  replace (Nat.odd (S (S (2 * k)))) with false by (rewrite <- Nat.negb_even; cbn [Nat.even]; by rewrite Nat.even_mul).
  cbv zeta. replace (S (S (2 * k)) - 2)%nat with (2 * k)%nat by lia. cbn [app drop]. rewrite ?drop_0.
  destruct (k <=? length out)%nat.
  - rewrite IH. f_equal. rewrite !hex_num_cons. cbn [length].
    rewrite (scan_hhx_2 a b _ Ha Hb), of_Z_u8.
    replace (default 0 (hex_val a) * _ + _) with
      ((16 * default 0 (hex_val a) + default 0 (hex_val b)) * 2 ^ (8 * Z.of_nat k) + hex_num ds).
    + rewrite rev_le_split_top; [done|]. pose proof (hex_num_range _ Hds) as Hr. rewrite Hl' in Hr.
      by replace (4 * Z.of_nat (2 * k)) with (8 * Z.of_nat k) in Hr by lia.
    + rewrite Hl'. replace (4 * Z.of_nat (S (2 * k))) with (4 + 8 * Z.of_nat k) by lia.
      replace (4 * Z.of_nat (2 * k)) with (8 * Z.of_nat k) by lia.
      rewrite Z.pow_add_r by lia. change (2 ^ 4) with 16. ring.
  - by destruct (hex_loop out _ _).
Qed.

Lemma hex_loop_fit out ds rest : Forall (fun b => is_hex b = true) ds ->
  match fit (length out) (hex_bytes ds) with
  | Some r => hex_loop out (length ds) (ds ++ rest) = (r, 0%nat)
  | None => snd (hex_loop out (length ds) (ds ++ rest)) <> 0%nat
  end.
Proof.
  intros Hds. unfold fit, hex_bytes. rewrite length_rev, length_le_split.
  destruct (Nat.Even_or_Odd (length ds)) as [[k Hk]|[k Hk]].
  - rewrite Hk, <- Nat.add_1_r, Nat.mul_comm, <- (Nat.add_comm 1).
    replace (Nat.div2 (1 + k * 2)) with k by (rewrite Nat.mul_comm; symmetry; exact (Nat.div2_succ_double k)).
    rewrite Nat.mul_comm. pose proof (hex_loop_even k out ds rest Hk Hds) as H.
    by destruct (k <=? length out)%nat.
  - destruct ds as [|a ds]; [simpl in Hk; lia|]. apply Forall_cons in Hds as [Ha Hds].
    assert (Hl : length ds = (2 * k)%nat) by (simpl in Hk; lia).
    replace (S (length (a :: ds))) with (2 * S k)%nat by (simpl; lia). rewrite Nat.div2_double.
    destruct out as [|o out]; [done|]. change (S k <=? length (o :: out))%nat with (k <=? length out)%nat.
    pose proof (hex_loop_even k out ds rest Hl Hds) as H. cbn [length hex_loop]. rewrite Hl.
    replace (Nat.odd (S (2 * k))) with true by (rewrite Nat.odd_succ, Nat.even_mul; done).
    cbv zeta. replace (S (2 * k) - 1)%nat with (2 * k)%nat by lia. cbn [app drop]. rewrite ?drop_0.
    destruct (k <=? length out)%nat; [|by destruct (hex_loop out _ _)].
    rewrite H. f_equal. rewrite hex_num_cons, Hl.
    replace (4 * Z.of_nat (2 * k)) with (8 * Z.of_nat k) by lia. rewrite rev_le_split_top.
    + by rewrite (scan_hhx_1 a _ Ha), of_Z_u8.
    + pose proof (hex_num_range _ Hds) as Hr. rewrite Hl in Hr.
      by replace (4 * Z.of_nat (2 * k)) with (8 * Z.of_nat k) in Hr by lia.
Qed.

(** * One item *)

Lemma sscanf_hex_dec neg ds rest : ds <> [] -> Forall (fun b => is_digit b = true) ds -> sepd rest ->
  sscanf_hex (dec_text neg ds ++ rest) = 0%nat.
Proof.
  intros Hne Hds Hsep. unfold dec_text. destruct neg; [done|]. destruct ds as [|d ds]; [done|].
  cbn [app sscanf_hex]. destruct (decide (d = ZERO)); [|done].
  replace (span is_x (ds ++ rest)) with (@nil byte, ds ++ rest).
  { by destruct (span is_hex (ds ++ rest)). }
  destruct ds as [|d2 ds]; cbn [app span].
  - destruct rest as [|b r]; [done|]. cbn [span]. destruct Hsep as [-> _]. done.
  - apply Forall_cons in Hds as [_ Hds]. apply Forall_inv in Hds. by destruct (digit_facts _ Hds) as (_ & -> & _).
Qed.

Lemma parse_number_dec neg ds rest out fr : ds <> [] -> Forall (fun b => is_digit b = true) ds -> sepd rest ->
  (match find_0x (dec_text neg ds ++ rest) with Some n => (n < 24)%nat | None => True end) ->
  parse_number (dec_text neg ds ++ rest) out =
    v ← item_bytes (length out) fr (IDec neg ds); Some (v, length (dec_text neg ds)).
Proof.
  intros Hne Hds Hsep H24. unfold parse_number. rewrite sscanf_hex_dec by done.
  destruct (dec_scan neg ds rest Hne Hds Hsep H24) as (e & -> & He & He0). cbn [item_bytes].
  replace (match e with Some O => true | _ => false end) with false
    by (destruct e as [[|]|]; [congruence|done..]).
  cbn [Nat.eqb orb]. set (v := dec_item neg ds) in *.
  destruct out as [|o out]; [cbn [length Nat.eqb]|cbn [length Nat.eqb]].
  { destruct (_ && _); [|done]. cbn [mbind option_bind]. unfold fit.
    unfold dec_bytes. rewrite length_le_split. destruct (Nat.leb_spec (Z.to_nat (1 + Z.log2 (u32 v) / 8)) 0); [|done].
    pose proof (Z.div_pos (Z.log2 (u32 v)) 8 (Z.log2_nonneg _)). lia. }
  destruct ((INT_MIN <=? v) && (v <=? INT_MAX)) eqn:Hrange.
  2:{ replace ((INT_MAX <? clamp_long v) || (clamp_long v <? INT_MIN)) with true; [done|].
      symmetry. apply orb_true_iff. rewrite !Z.ltb_lt. unfold clamp_long, LONG_MIN, LONG_MAX, INT_MIN, INT_MAX in *.
      apply andb_false_iff in Hrange as [H|H]; apply Z.leb_gt in H; lia. }
  apply andb_true_iff in Hrange as [H1 H2]. apply Z.leb_le in H1. apply Z.leb_le in H2.
  unfold INT_MIN, INT_MAX in H1, H2.
  replace (clamp_long v) with v by (unfold clamp_long, LONG_MIN, LONG_MAX; lia).
  replace ((INT_MAX <? v) || (v <? INT_MIN)) with false
    by (symmetry; apply orb_false_iff; rewrite !Z.ltb_ge; unfold INT_MIN, INT_MAX; lia).
  rewrite He by (unfold LONG_MIN, LONG_MAX; lia). cbn [mbind option_bind].
  destruct (Z.eqb_spec v 0) as [Hv0|Hv0]; [by rewrite Hv0|].
  assert (Hu : u32 v <> 0).
  { unfold u32. intros H0. pose proof (Z.div_mod v (2 ^ 32) ltac:(lia)). lia. }
  pose proof (dec_loop_fit (o :: out) v Hu) as HL. cbn [length] in HL.
  destruct (fit _ _) as [r|]; [by rewrite HL|].
  destruct (dec_loop _ _) as [r w]. simpl in HL. simpl. by destruct (Z.eqb_spec w 0).
Qed.

Lemma hex_not_x b : is_hex b = true -> is_x b = false.
Proof. destruct b; vm_compute; congruence. Qed.

Lemma x_not_hex b : is_x b = true -> is_hex b = false.
Proof. destruct b; vm_compute; congruence. Qed.

(** What the format of sscanf finds, and after looking back. *)
Lemma hex_scan x ds rest : ds <> [] -> is_x x = true -> Forall (fun b => is_hex b = true) ds -> sepd rest ->
  exists m, sscanf_hex (ZERO :: x :: ds ++ rest) = (2 + m)%nat /\ (m <> 0)%nat /\
    match drop m (ds ++ rest) with
    | _ :: _ => if is_0x_at (ds ++ rest) (m - 1) then (m - 1)%nat else m
    | [] => m
    end = length ds.
Proof.
  intros Hne Hx Hds Hsep. cbn [sscanf_hex]. rewrite decide_True by done.
  replace (span is_x (x :: ds ++ rest)) with ([x], ds ++ rest).
  2:{ symmetry. apply (span_app is_x [x]); [by repeat constructor|].
      destruct ds as [|d ds]; [done|]. apply Forall_inv in Hds. by apply hex_not_x. }
  assert (H0 : (0 < length ds)%nat) by (destruct ds; simpl; [done|lia]).
  destruct rest as [|b r].
  { rewrite (span_app is_hex ds []) by done. exists (length ds). destruct ds; [done|].
    split; [simpl; lia|]. split; [simpl; lia|]. by rewrite drop_app_length. }
  destruct (is_hex b) eqn:Hb.
  - destruct Hsep as [_ Hs]. destruct (Hs Hb) as (-> & x' & t & -> & Hx').
    replace (ds ++ ZERO :: x' :: t) with ((ds ++ [ZERO]) ++ x' :: t) by by rewrite <- app_assoc.
    rewrite (span_app is_hex (ds ++ [ZERO]) (x' :: t));
      [|apply Forall_app; split; [done|by repeat constructor]|by apply x_not_hex].
    exists (length ds + 1)%nat. split; [|split; [lia|]].
    + destruct ds; [done|]. cbn [app length]. rewrite length_app. simpl. lia.
    + rewrite drop_app, drop_ge, length_app by (rewrite length_app; simpl; lia). cbn [app].
      replace (length ds + 1 - _)%nat with 0%nat by (simpl; lia). rewrite drop_0.
      replace (length ds + 1 - 1)%nat with (length ds) by lia. rewrite <- app_assoc. unfold is_0x_at.
      rewrite drop_app_length. cbn [app]. rewrite Hx', bool_decide_eq_true_2 by done. done.
  - rewrite (span_app is_hex ds (b :: r)) by done. exists (length ds). split; [destruct ds; simpl; [done|lia]|].
    split; [lia|]. rewrite drop_app_length.
    replace (is_0x_at _ _) with false; [done|]. unfold is_0x_at.
    destruct (drop (length ds - 1) (ds ++ b :: r)) as [|a [|c t]] eqn:Hd; [done..|].
    assert (Hc : (ds ++ b :: r) !! length ds = Some c).
    { replace (length ds) with (length ds - 1 + 1)%nat by lia. rewrite <- lookup_drop, Hd. done. }
    rewrite list_lookup_middle in Hc by done. injection Hc as <-. destruct Hsep as [-> _]. by rewrite andb_false_r.
Qed.

Lemma hex_bytes_length ds : length (hex_bytes ds) = Nat.div2 (S (length ds)).
Proof. unfold hex_bytes. by rewrite length_rev, length_le_split. Qed.

Lemma parse_number_hex x ds rest out fr : ds <> [] -> is_x x = true -> Forall (fun b => is_hex b = true) ds -> sepd rest ->
  parse_number (ZERO :: x :: ds ++ rest) out =
    v ← item_bytes (length out) fr (IHex x ds); Some (v, (2 + length ds)%nat).
Proof.
  intros Hne Hx Hds Hsep. unfold parse_number. cbn [item_bytes].
  destruct out as [|o out].
  { cbn [length Nat.eqb]. unfold fit. rewrite hex_bytes_length. destruct ds as [|? [|]]; done. }
  destruct (hex_scan x ds rest Hne Hx Hds Hsep) as (m & -> & Hm & Hback).
  cbn [length Nat.eqb Nat.add]. replace (S (S m) - 2)%nat with m by lia.
  replace (drop 2 (ZERO :: x :: ds ++ rest)) with (ds ++ rest) by done. rewrite Hback.
  pose proof (hex_loop_fit (o :: out) ds rest Hds) as HL. cbn [length] in HL.
  destruct (fit _ _) as [r|]; [by rewrite HL|].
  destruct (hex_loop _ _ _) as [r w]. simpl in HL. by destruct w.
Qed.

Section Parse.
Context (read_file : bytes -> nat -> option bytes) (ds : list pattern_fmt_desc).
Hypothesis Hds : descs_ok ds.

Lemma print_item_nonempty it : item_ok read_file ds it -> print_item it <> [].
Proof using Hds.
  destruct it as [| |i d|neg l|]; simpl; intros Hok; [done..| |destruct neg, l; simpl in *; intuition congruence|done].
  destruct Hds as [Hd _]. destruct (Hd _ _ Hok) as [Hh _]. by destruct (d_fmt d).
Qed.

Lemma sepd_print its : items_ok read_file ds its ->
  (match its with IDec false _ :: _ => False | _ => True end) -> sepd (print its).
Proof using Hds.
  destruct its as [|it its]; [done|]. intros (Hok & _ & _) Hnd. unfold print. cbn [mbind list_bind].
  destruct it as [| |i d|[|] l|x l]; simpl in *; try done; try (split; [done|]; vm_compute; congruence).
  - destruct Hds as [Hd _]. destruct (Hd _ _ Hok) as [Hh _]. destruct (d_fmt d) as [|c f]; [done|].
    injection Hh as ->. split; [done|]. vm_compute; congruence.
  - split; [done|]. intros _. split; [done|]. destruct Hok as (_ & Hx & _). eauto.
Qed.

(** A format is found as the first descriptor that the input starts with. *)
Lemma find_desc_print ds' i d rest : ds' !! i = Some d ->
  (forall j e, (j < i)%nat -> ds' !! j = Some e -> starts_with (d_fmt e) (d_fmt d ++ rest) = false) ->
  find_desc ds' (d_fmt d ++ rest) = Some (i, d).
Proof using.
  revert i. induction ds' as [|e ds' IH]; intros i Hi Hno; [done|]. cbn [find_desc].
  destruct i as [|i]; simpl in Hi.
  - injection Hi as ->. unfold starts_with. rewrite take_app_length, bool_decide_eq_true_2 by done. done.
  - rewrite (Hno 0%nat e) by (done || lia). rewrite (IH i Hi); [done|].
    intros j f Hj Hf. apply (Hno (S j)); [lia|done].
Qed.

Lemma starts_with_apart p q rest : ~ p `prefix_of` q -> ~ q `prefix_of` p -> starts_with p (q ++ rest) = false.
Proof using.
  intros Hpq Hqp. apply bool_decide_eq_false_2. intros Ht.
  assert (Hp : p `prefix_of` q ++ rest) by (exists (drop (length p) (q ++ rest)); rewrite <- (take_drop (length p) (q ++ rest)) at 1; by rewrite Ht).
  destruct Hp as [t Ht']. destruct (prefix_weak_total p q (p ++ t)); [by eexists|rewrite <- Ht'; by eexists|done..].
Qed.

Lemma parse_format_print i d rest out fr : ds !! i = Some d ->
  parse_format ds fr (d_fmt d ++ rest) out =
    v ← item_bytes (length out) fr (IFmt i d); Some (v, length (d_fmt d), i).
Proof using Hds.
  intros Hi. unfold parse_format. cbn [item_bytes]. destruct Hds as [Hd Hpre]. destruct (Hd _ _ Hi) as [_ Hlen].
  destruct out as [|o out].
  { cbn [length Nat.eqb orb]. destruct (fr =? 0)%nat; [done|]. unfold fit. rewrite length_replicate. destruct (d_len d); [lia|done]. }
  replace (length ds =? 0)%nat with false by (destruct ds; [done|done]). cbn [length Nat.eqb orb].
  destruct (fr =? 0)%nat; [done|]. rewrite (find_desc_print ds i d rest Hi).
  - cbn [mbind option_bind]. unfold fit. rewrite length_replicate.
    rewrite Nat.ltb_antisym. by destruct (d_len d <=? _)%nat.
  - intros j e Hj He. apply starts_with_apart; eapply Hpre; eauto; lia.
Qed.

(** What one round of the loop finds. *)
Definition parse_one (beg out : bytes) (fr : nat) : option (bytes * nat * option nat) :=
  let c := default NUL (head beg) in
  if decide (c = APOS) then '(f, n) ← parse_file read_file beg out; Some (f, n, None)
  else if decide (c = QUOTE) then '(f, n) ← parse_string beg out; Some (f, n, None)
  else if decide (c = PERCENT) then '(f, n, i) ← parse_format ds fr beg out; Some (f, n, Some i)
  else '(f, n) ← parse_number beg out; Some (f, n, None).

Lemma parse_one_print it its out fr : items_ok read_file ds (it :: its) ->
  parse_one (print_item it ++ print its) out fr =
    v ← item_bytes (length out) fr it; Some (v, length (print_item it), item_fmt it).
Proof using Hds.
  intros (Hok & Hsep & Hits). unfold parse_one. destruct it as [s|name data|i d|neg l|x l].
  - destruct Hok as [Hne Hq]. cbn [print_item app head default]. rewrite decide_False, decide_True by done.
    unfold parse_string. cbn [item_bytes]. unfold fit. destruct out as [|o out]; [by destruct s|].
    cbn [length Nat.eqb drop]. rewrite <- app_assoc. cbn [app]. rewrite drop_0, strchr_app by done. cbn [mbind option_bind].
    rewrite Nat.ltb_antisym. destruct (length s <=? _)%nat; [|done]. cbn [negb mbind option_bind].
    rewrite take_app_length, length_app. simpl. do 3 f_equal. lia.
  - destruct Hok as (Hne & Hq & Hread). cbn [print_item app head default]. rewrite decide_True by done.
    unfold parse_file. cbn [item_bytes]. destruct out as [|o out]; [done|].
    cbn [length Nat.eqb drop]. rewrite <- app_assoc. cbn [app]. rewrite drop_0, strchr_app by done. cbn [mbind option_bind].
    rewrite take_app_length, Hread by lia. cbn [mbind option_bind]. rewrite length_app. simpl. do 3 f_equal. lia.
  - pose proof Hds as [Hh _]. destruct (Hh _ _ Hok) as [Hc _]. cbn [print_item].
    replace (head (d_fmt d ++ print its)) with (Some PERCENT) by (destruct (d_fmt d); [done|exact (eq_sym Hc)]).
    cbn [default]. rewrite decide_False, decide_False, decide_True by done.
    rewrite (parse_format_print i d) by done. by destruct (item_bytes _ _ _).
  - destruct Hok as [Hne Hl]. destruct Hsep as [Hnd H24]. change (print_item (IDec neg l)) with (dec_text neg l) in *.
    assert (Hc : exists c, head (dec_text neg l ++ print its) = Some c /\ c <> APOS /\ c <> QUOTE /\ c <> PERCENT).
    { unfold dec_text. destruct neg; [by exists MINUS|]. destruct l as [|c l]; [done|]. exists c.
      apply Forall_inv in Hl. destruct (digit_facts _ Hl) as (_ & _ & _ & _ & _ & ? & ? & ?). done. }
    destruct Hc as (c & -> & Ha & Hq & Hp). cbn [default]. rewrite !decide_False by done.
    rewrite (parse_number_dec neg l _ out fr) by (done || by apply sepd_print). by destruct (item_bytes _ _ _).
  - destruct Hok as (Hne & Hx & Hl). cbn [print_item app head default]. rewrite !decide_False by done.
    rewrite (parse_number_hex x l _ out fr) by (done || by apply sepd_print). by destruct (item_bytes _ _ _).
Qed.

(** What comes out is not empty and fits. *)
Lemma item_bytes_room it room fr v : item_ok read_file ds it -> item_bytes room fr it = Some v ->
  (0 < length v <= room)%nat.
Proof using Hds.
  assert (Hfit : forall w, (0 < length w)%nat -> fit room w = Some v -> (0 < length v <= room)%nat).
  { intros w Hw. unfold fit. destruct (Nat.leb_spec (length w) room); [|done]. intros H'. injection H' as <-. lia. }
  destruct it as [s|name data|i d|neg l|x l]; cbn [item_bytes]; intros Hok.
  - apply Hfit. destruct s; [by destruct Hok|simpl; lia].
  - destruct (Nat.eqb_spec room 0); [done|]. intros H. injection H as <-. rewrite length_take.
    destruct Hok as [Hne _]. destruct data; [done|]. simpl. lia.
  - destruct (fr =? 0)%nat; [done|]. apply Hfit. rewrite length_replicate. by apply (proj1 Hds i d).
  - destruct (_ && _); [|done]. apply Hfit. unfold dec_bytes. rewrite length_le_split.
    pose proof (Z.div_pos (Z.log2 (u32 (dec_item neg l))) 8 (Z.log2_nonneg _)). lia.
  - apply Hfit. rewrite hex_bytes_length. destruct l as [|? [|? l]]; [by destruct Hok|simpl; lia..].
Qed.

Lemma fill_loop_print fuel : forall its in_len out total fr, items_ok read_file ds its -> its <> [] ->
  in_len = length (print its) -> (length out < fuel)%nat ->
  fill_loop fuel read_file ds (print its) in_len out total fr = Some (items_bytes its (length out) fr total).
Proof using Hds.
  induction fuel as [|fuel IH]; intros its in_len out total fr Hok Hne -> Hf; [lia|].
  destruct its as [|it its]; [done|]. cbn [fill_loop].
  change (print (it :: its)) with (print_item it ++ print its).
  fold (parse_one (print_item it ++ print its) out fr). rewrite parse_one_print by done. cbn [items_bytes].
  destruct Hok as (Hit & Hsep & Hits).
  destruct (item_bytes (length out) fr it) as [v|] eqn:Hv; [|done]. cbn [mbind option_bind].
  destruct (item_bytes_room _ _ _ _ Hit Hv) as [Hv0 Hvr].
  rewrite length_app. destruct (Nat.ltb_spec (length (print_item it) + length (print its)) (length (print_item it))); [lia|].
  replace ((length v =? 0)%nat || (length out <? length v)%nat) with false
    by (symmetry; apply orb_false_iff; split; [apply Nat.eqb_neq|apply Nat.ltb_ge]; lia).
  replace (_ + _ - _)%nat with (length (print its)) by lia.
  destruct its as [|it' its].
  { cbn [items_bytes mbind option_bind]. cbn. rewrite !app_nil_r. by destruct (item_fmt it). }
  destruct (Nat.eqb_spec (length (print (it' :: its))) 0) as [H0|H0].
  { exfalso. destruct Hits as (Hit' & _). apply print_item_nonempty in Hit'. change (print (it' :: its)) with (print_item it' ++ print its) in H0.
    rewrite length_app in H0. destruct (print_item it'); [done|simpl in H0; lia]. }
  rewrite drop_app_length. rewrite (IH (it' :: its)) by (done || rewrite length_drop; lia).
  rewrite length_drop. cbn [mbind option_bind].
  by destruct (items_bytes (it' :: its) _ _ _) as [[b l]|].
Qed.
End Parse.

(** C27: parse_and_fill_pattern on the text of a pattern gives exactly the bytes
    it stands for, and -EINVAL when one of its parts has none.  A pattern here is a
    sequence of non-empty strings in double quotes, names of non-empty readable files in
    single quotes, formats, decimal and hexadecimal numbers, in which no number is
    followed directly by an unsigned decimal, and a decimal starts less than 24
    characters before the next 0x.  (Outside of these the code behaves differently:
    an empty string or file fails an assertion, [empty_item_asserts], and a 0x further
    away makes it reject a good decimal, [far_0x_rejected].)  A decimal stands for the little endian bytes of its 32 bit two's complement,
    as many as it needs, and for an error outside the range of int; hexadecimal
    digits stand for the big endian bytes of their number, however many; a format for
    zeros, recorded with its position, and an error when there is no place to
    record it; a file for as much of it as fits; anything else that does not fit is an
    error.  On these patterns no assertion fails and the loop ends. *)
Theorem parse_pattern_correct read_file ds its out fmt_sz :
  descs_ok ds -> items_ok read_file ds its -> its <> [] -> out <> [] ->
  parse_and_fill_pattern read_file ds (print its) (length (print its)) out fmt_sz =
    Some (items_bytes its (length out) fmt_sz 0).
Proof.
  intros Hds Hok Hne Hout. unfold parse_and_fill_pattern.
  replace ((length (print its) =? 0)%nat || (length out =? 0)%nat) with false.
  { apply fill_loop_print; (done || lia). }
  symmetry. apply orb_false_iff. rewrite !Nat.eqb_neq. destruct out; [done|]. split; [|done].
  destruct its as [|it its]; [done|]. destruct Hok as [Hit _].
  pose proof (print_item_nonempty read_file ds Hds it Hit). unfold print. cbn [mbind list_bind].
  rewrite length_app. destruct (print_item it); [done|]. simpl. lia.
Qed.

(** * Instances *)

Definition ascii (s : string) : bytes := String.list_byte_of_string s.
Definition fmt_o : list pattern_fmt_desc := [mkDesc (ascii "%o") 8].
Definition no_file : bytes -> nat -> option bytes := fun _ _ => None.

(** A text as fio passes it, with 32 bytes of room and 5 formats. *)
Definition parse_text (s : bytes) : fill_result :=
  parse_and_fill_pattern no_file fmt_o s (length s) (replicate 32 Byte.xaa) 5.

Lemma fmt_o_ok : descs_ok fmt_o.
Proof.
  split.
  - intros [|i] d Hd; [|done]. injection Hd as <-. split; [done|simpl; lia].
  - intros [|i] [|j] d e Hd He Hij; try done.
Qed.

(** -100xab"1"%o"2" *)
Definition sample_items : list item :=
  [IDec true (ascii "10"); IHex LOWER_X (ascii "ab"); IStr (ascii "1"); IFmt 0 (mkDesc (ascii "%o") 8); IStr (ascii "2")].

Lemma parse_pattern_correct_witness :
  parse_text (print sample_items) =
    Some (Some (byte.of_Z <$> [0xf6; 0xff; 0xff; 0xff; 0xab; 0x31; 0; 0; 0; 0; 0; 0; 0; 0; 0x32], [(0, 6)%nat])).
Proof.
  unfold parse_text. rewrite (parse_pattern_correct no_file fmt_o sample_items).
  - vm_compute. reflexivity.
  - apply fmt_o_ok.
  - cbn [items_ok sample_items item_ok item_sep].
    repeat match goal with
    | |- _ /\ _ => split
    | |- True => exact I
    | |- _ <> [] => vm_compute; discriminate
    | |- Forall _ _ => vm_compute; repeat constructor
    | |- ~ _ => apply (bool_decide_unpack _); vm_compute; exact I
    | |- _ !! _ = _ => reflexivity
    | |- match find_0x _ with _ => _ end => vm_compute; lia
    | |- is_x _ = _ => reflexivity
    end.
  - discriminate.
  - discriminate.
Defined.

(** The examples of the comment above parse_and_fill_pattern; in the sixth the comment
    has ec where the digits are ee. *)
Lemma parse_examples :
  parse_text [MINUS; Byte.x31; Byte.x30; Byte.x32; Byte.x34] = Some (Some ([Byte.x00; Byte.xfc; Byte.xff; Byte.xff], [])) /\
  parse_text (ascii "66") = Some (Some ([Byte.x42], [])) /\
  parse_text (ascii "0xFF0X1") = Some (Some ([Byte.xff; Byte.x01], [])) /\
  parse_text (QUOTE :: ascii "123" ++ QUOTE :: ascii "0xFFeeCC") =
    Some (Some (byte.of_Z <$> [0x31; 0x32; 0x33; 0xff; 0xee; 0xcc], [])) /\
  parse_text (ascii "%o0xdeadbeef%o") =
    Some (Some (replicate 8 NUL ++ (byte.of_Z <$> [0xde; 0xad; 0xbe; 0xef]) ++ replicate 8 NUL, [(0, 0)%nat; (0, 12)%nat])).
Proof. repeat split; vm_compute; reflexivity. Qed.

(** An empty string, and hexadecimal digits that are only the 0 of the next number,
    fail the assertion that something was filled. *)
Lemma empty_item_asserts : parse_text [QUOTE; QUOTE] = None /\ parse_text (ascii "0x0x1") = None.
Proof. split; vm_compute; reflexivity. Qed.

(** A second x is taken for a digit: the byte of the buffer that it stands for keeps
    what it was. *)
Lemma double_x_keeps_byte o : parse_and_fill_pattern no_file fmt_o (ascii "0xxff") 5 [o; NUL] 5 = Some (Some ([o; Byte.xff], [])).
Proof. destruct o; vm_compute; reflexivity. Qed.

(** strntol returns an end that does not count the spaces it skipped, so that the
    number before a 0x is read again. *)
Lemma space_number_twice : parse_text (ascii " 10x1") = Some (Some ([Byte.x01; Byte.x01; Byte.x01], [])).
Proof. vm_compute. reflexivity. Qed.

(** A decimal with a 0x far behind it is an error, with no 0x it is not. *)
Lemma far_0x_rejected :
  let s := QUOTE :: ascii "abcdefghijklmnopqrstuvw" ++ [QUOTE] in
  parse_text (ascii "10" ++ s ++ ascii "0x1") = Some None /\ parse_text (ascii "10" ++ s ++ ascii "1") <> Some None.
Proof. split; vm_compute; congruence. Qed.
