(* ===== verification/Rand.v ===== *)
(** The random buffers of src/fio/lib/rand.c and rand.h: the Tausworthe
    generators, their seeding, and the filling of buffers that verify regenerates
    from the seed. *)
From S2P Require Import Prelude Blocks Pattern.

(** * The generators *)

Record taus88_state : Type := mkT88 { t88_s1 : Z; t88_s2 : Z; t88_s3 : Z }.
Record taus258_state : Type := mkT258 { t258_s1 : Z; t258_s2 : Z; t258_s3 : Z; t258_s4 : Z; t258_s5 : Z }.

(** The union of [frand_state], tagged by [use64]. *)
Inductive frand_state : Type :=
  | state32 (s : taus88_state)
  | state64 (s : taus258_state).

(** [s & c] has the width of the constant, 64 bits; [s << a] that of [s]. *)
Definition TAUSWORTHE (s a b c d : Z) : Z :=
  u32 (Z.lxor (u64 (Z.shiftl (Z.land s c) d)) (Z.shiftr (Z.lxor (u32 (Z.shiftl s a)) s) b)).

Definition __rand32 (state : taus88_state) : Z * taus88_state :=
  let s1 := TAUSWORTHE (t88_s1 state) 13 19 4294967294 12 in
  let s2 := TAUSWORTHE (t88_s2 state) 2 25 4294967288 4 in
  let s3 := TAUSWORTHE (t88_s3 state) 3 11 4294967280 17 in
  (Z.lxor (Z.lxor s1 s2) s3, mkT88 s1 s2 s3).

(** [xval = ((s << a) ^ s) >> b; s = ((s & c) << d) ^ xval]. *)
Definition taus64 (s a b c d : Z) : Z :=
  let xval := Z.shiftr (Z.lxor (u64 (Z.shiftl s a)) s) b in
  Z.lxor (u64 (Z.shiftl (Z.land s c) d)) xval.

Definition __rand64 (state : taus258_state) : Z * taus258_state :=
  let s1 := taus64 (t258_s1 state) 1 53 18446744073709551614 10 in
  let s2 := taus64 (t258_s2 state) 24 50 18446744073709551104 5 in
  let s3 := taus64 (t258_s3 state) 3 23 18446744073709547520 29 in
  let s4 := taus64 (t258_s4 state) 5 24 18446744073709420544 23 in
  let s5 := taus64 (t258_s5 state) 3 33 18446744073701163008 8 in
  (Z.lxor (Z.lxor (Z.lxor (Z.lxor s1 s2) s3) s4) s5, mkT258 s1 s2 s3 s4 s5).

Definition __rand (state : frand_state) : Z * frand_state :=
  match state with
  | state64 s => let (r, s) := __rand64 s in (r, state64 s)
  | state32 s => let (r, s) := __rand32 s in (r, state32 s)
  end.

Definition rand_max (state : frand_state) : Z :=
  match state with state64 _ => 2 ^ 64 - 1 | state32 _ => 2 ^ 32 - 1 end.

Definition __seed (x m : Z) : Z := if x <? m then u64 (x + m) else x.

(** [while (cranks--) rand(state)]. *)
Definition crank {S} (rand : S -> Z * S) (cranks : nat) (s : S) : S := Nat.iter cranks (fun s => snd (rand s)) s.

Definition LCG (x seed : Z) : Z := Z.lxor (u32 (x * 69069)) seed.
Definition LCG64 (x seed : Z) : Z := Z.lxor (u64 (x * 6906969069)) seed.

(** [2^31] and the like are exclusive ors in C. *)
Definition seed_base : Z := Z.lxor 2 31 + Z.lxor 2 17 + Z.lxor 2 7.

Definition __init_rand32 (seed : Z) : taus88_state :=
  let s1 := u32 (__seed (LCG seed_base seed) 1) in
  let s2 := u32 (__seed (LCG s1 seed) 7) in
  let s3 := u32 (__seed (LCG s2 seed) 15) in
  crank __rand32 6 (mkT88 s1 s2 s3).

Definition __init_rand64 (seed : Z) : taus258_state :=
  let s1 := __seed (LCG64 seed_base seed) 1 in
  let s2 := __seed (LCG64 s1 seed) 7 in
  let s3 := __seed (LCG64 s2 seed) 15 in
  let s4 := __seed (LCG64 s3 seed) 33 in
  let s5 := __seed (LCG64 s4 seed) 49 in
  crank __rand64 6 (mkT258 s1 s2 s3 s4 s5).

Definition init_rand_seed (seed : Z) (use64 : bool) : frand_state :=
  if negb use64 then state32 (__init_rand32 seed) else state64 (__init_rand64 seed).
Definition init_rand (use64 : bool) : frand_state :=
  if negb use64 then state32 (__init_rand32 1) else state64 (__init_rand64 1).

(** * Filling buffers *)

Definition GOLDEN_RATIO_PRIME : Z := 0x9e37fffffffc0001.

(** [while (len)]: stores of 8, 4, 2 or 1 bytes, [ptr] as an offset of [buf]. *)
Fixpoint fill_loop (fuel : nat) (buf : bytes) (ptr len seed : Z) : option bytes :=
  match fuel with
  | O => None
  | S fuel' =>
      if len =? 0 then Some buf
      else
        let this_len := if 8 <=? len then 8 else if 4 <=? len then 4 else if 2 <=? len then 2 else 1 in
        buf ← copy_to buf ptr (le_split (Z.to_nat this_len) seed);
        fill_loop fuel' buf (ptr + this_len) (u32 (len - this_len))
          (Z.shiftr (u64 (seed * GOLDEN_RATIO_PRIME)) 3)
  end.

Definition __fill_random_buf (buf : bytes) (ptr len seed : Z) : option bytes :=
  fill_loop (S (Z.to_nat len)) buf ptr len seed.

(** [r = rand; r *= rand] on a machine with longs wider than ints. *)
Definition rand_product (fs : frand_state) : Z * frand_state :=
  let (r, fs) := __rand fs in
  let (r', fs) := __rand fs in (u64 (r * r'), fs).

Definition fill_random_buf (fs : frand_state) (buf : bytes) (ptr len : Z) : option (Z * frand_state * bytes) :=
  let (r, fs) := rand_product fs in
  buf ← __fill_random_buf buf ptr len r;
  Some (r, fs, buf).

(** [cpy_pattern] or [memset] at an offset of the buffer. *)
Definition fill_plain (buf : bytes) (ptr len : Z) (pattern : bytes) (pbytes : Z) : option bytes :=
  if negb (pbytes =? 0) then
    tail ← copy_from buf ptr (Z.of_nat (length buf) - ptr);
    '(_, tail) ← cpy_pattern pattern pbytes tail len;
    copy_to buf ptr tail
  else copy_to buf ptr (replicate (Z.to_nat len) Byte.x00).

(** One turn of the loop: the buffer, [buf] as an offset, and [len]. *)
Definition percentage_step (seed percentage segment : Z) (pattern : bytes) (pbytes : Z)
    (s : bytes * Z * Z) : option (bytes * Z * Z) :=
  let '(buf, ptr, len) := s in
  let this_len := u32 (segment * u32 (100 - percentage)) / 100 in
  let this_len := if len <? this_len then len else this_len in
  buf ← __fill_random_buf buf ptr this_len seed;
  let len := u32 (len - this_len) in
  if len =? 0 then Some (buf, ptr, len)
  else
    let ptr := ptr + this_len in
    let this_len := if len <? this_len then len
                    else if len - this_len <=? 8 then len else this_len in
    buf ← fill_plain buf ptr this_len pattern pbytes;
    Some (buf, ptr + this_len, u32 (len - this_len)).

Fixpoint percentage_loop (fuel : nat) (seed percentage segment : Z) (pattern : bytes) (pbytes : Z)
    (s : bytes * Z * Z) : option bytes :=
  match fuel with
  | O => None
  | S fuel' =>
      let '(buf, _, len) := s in
      if len =? 0 then Some buf
      else
        s ← percentage_step seed percentage segment pattern pbytes s;
        percentage_loop fuel' seed percentage segment pattern pbytes s
  end.

(** [buf] is the buffer and [ptr] the offset the function is called with. *)
Definition __fill_random_buf_percentage (fuel : nat) (seed : Z) (buf : bytes) (ptr percentage segment len : Z)
    (pattern : bytes) (pbytes : Z) : option bytes :=
  if percentage =? 100 then fill_plain buf ptr len pattern pbytes
  else
    let segment := if len <? segment then len else segment in
    percentage_loop fuel seed percentage segment pattern pbytes (buf, ptr, len).

Definition fill_random_buf_percentage (fuel : nat) (fs : frand_state) (buf : bytes)
    (ptr percentage segment len : Z) (pattern : bytes) (pbytes : Z) : option (Z * frand_state * bytes) :=
  let (r, fs) := rand_product fs in
  buf ← __fill_random_buf_percentage fuel r buf ptr percentage segment len pattern pbytes;
  Some (r, fs, buf).

Example fill_ex :
  __fill_random_buf (replicate 8 Byte.xff) 1 3 0x0102 =
  Some [Byte.xff; Byte.x02; Byte.x01; Byte.x20; Byte.xff; Byte.xff; Byte.xff; Byte.xff].
Proof. vm_compute. reflexivity. Qed.

(** * What is stored *)

(** The bytes of a random chunk: a function of its length and its seed. *)
Fixpoint random_bytes (fuel len : nat) (seed : Z) : bytes :=
  match fuel with
  | O => []
  | S fuel' =>
      if (len =? 0)%nat then []
      else
        let this := if (8 <=? len)%nat then 8%nat else if (4 <=? len)%nat then 4%nat
                    else if (2 <=? len)%nat then 2%nat else 1%nat in
        le_split this seed ++
        random_bytes fuel' (len - this) (Z.shiftr (u64 (seed * GOLDEN_RATIO_PRIME)) 3)
  end.

Definition random_chunk (len : nat) (seed : Z) : bytes := random_bytes len len seed.

Lemma length_random_bytes fuel len seed : (len <= fuel)%nat -> length (random_bytes fuel len seed) = len.
Proof.
  revert len seed. induction fuel as [|fuel IH]; intros len seed H; cbn [random_bytes]; [simpl; lia|].
  destruct (Nat.eqb_spec len 0); [simpl; lia|]. cbv zeta. rewrite length_app, length_le_split, IH.
  all: destruct (Nat.leb_spec 8 len), (Nat.leb_spec 4 len), (Nat.leb_spec 2 len); lia.
Qed.

Lemma fill_loop_run fuel (buf : bytes) (ptr len : nat) seed :
  (len <= fuel)%nat -> (ptr + len <= length buf)%nat -> Z.of_nat len < 2 ^ 32 ->
  fill_loop (S fuel) buf (Z.of_nat ptr) (Z.of_nat len) seed = Some (splice buf ptr (random_bytes fuel len seed)).
Proof.
  revert buf ptr len seed. induction fuel as [|fuel IH]; intros buf ptr len seed Hf Hb H32.
  { assert (len = 0%nat) as -> by lia. cbn. by rewrite splice_nil. }
  rewrite <- Nat.add_1_r. rewrite Nat.add_1_r. cbn [random_bytes].
  remember (S fuel) as f1 eqn:Ef. cbn [fill_loop].
  destruct (Z.eqb_spec (Z.of_nat len) 0) as [E|E].
  { rewrite (proj2 (Nat.eqb_eq _ _)) by lia. by rewrite splice_nil. }
  rewrite (proj2 (Nat.eqb_neq _ _)) by lia. cbv zeta.
  set (this := if (8 <=? len)%nat then 8%nat else _).
  assert (0 < this <= len)%nat as Ht.
  { unfold this. destruct (Nat.leb_spec 8 len), (Nat.leb_spec 4 len), (Nat.leb_spec 2 len); lia. }
  assert ((if 8 <=? Z.of_nat len then 8 else if 4 <=? Z.of_nat len then 4
           else if 2 <=? Z.of_nat len then 2 else 1) = Z.of_nat this) as ->.
  { unfold this. destruct (Nat.leb_spec 8 len), (Nat.leb_spec 4 len), (Nat.leb_spec 2 len),
      (Z.leb_spec 8 (Z.of_nat len)), (Z.leb_spec 4 (Z.of_nat len)), (Z.leb_spec 2 (Z.of_nat len)); lia. }
  rewrite Nat2Z.id, (copy_to_splice _ _ ptr) by len. obind.
  rewrite u32_small by (split; lia).
  replace (Z.of_nat ptr + Z.of_nat this) with (Z.of_nat (ptr + this)) by lia.
  replace (Z.of_nat len - Z.of_nat this) with (Z.of_nat (len - this)) by lia.
  subst f1. rewrite IH by (rewrite ?length_splice; len).
  f_equal. pose proof (splice_splice buf ptr (le_split this seed)
    (random_bytes fuel (len - this) (Z.shiftr (u64 (seed * GOLDEN_RATIO_PRIME)) 3))) as Hs.
  rewrite length_le_split in Hs. apply Hs. rewrite length_random_bytes; lia.
Qed.

Lemma fill_random_run (buf : bytes) (ptr len : nat) seed :
  (ptr + len <= length buf)%nat -> Z.of_nat len < 2 ^ 32 ->
  __fill_random_buf buf (Z.of_nat ptr) (Z.of_nat len) seed = Some (splice buf ptr (random_chunk len seed)).
Proof. intros Hb H32. unfold __fill_random_buf. rewrite Nat2Z.id. by apply fill_loop_run. Qed.

(** The other chunks: the buffer's pattern, or zeros. *)
Definition plain_chunk (pattern : bytes) (pbytes len : nat) : bytes :=
  if (pbytes =? 0)%nat then replicate len Byte.x00 else spread (take pbytes pattern) 0 len.

Lemma length_plain_chunk pattern pbytes len : length (plain_chunk pattern pbytes len) = len.
Proof. unfold plain_chunk. case_match; len. Qed.

Lemma fill_plain_run (buf : bytes) (ptr len : nat) (pattern : bytes) (pbytes : nat) :
  (ptr + len <= length buf)%nat -> Z.of_nat len < 2 ^ 32 -> (pbytes <= length pattern)%nat ->
  fill_plain buf (Z.of_nat ptr) (Z.of_nat len) pattern (Z.of_nat pbytes) =
  Some (splice buf ptr (plain_chunk pattern pbytes len)).
Proof.
  intros Hb H32 Hp. unfold fill_plain, plain_chunk.
  destruct (Z.eqb_spec (Z.of_nat pbytes) 0) as [E|E]; simpl negb; cbv iota.
  - rewrite (proj2 (Nat.eqb_eq _ _)), Nat2Z.id by lia. by rewrite (copy_to_splice _ _ ptr) by len.
  - rewrite (proj2 (Nat.eqb_neq _ _)) by lia.
    rewrite (copy_from_eq _ _ _ ptr (length buf - ptr)) by lia. obind. rewrite (take_ge (drop ptr buf)) by len.
    destruct (decide (len = 0%nat)) as [->|Hl].
    + change (spread (take pbytes pattern) 0 0) with (@nil byte). rewrite splice_nil.
      unfold cpy_pattern. rewrite orb_true_r. obind. rewrite (copy_to_splice _ _ ptr) by len.
      unfold splice. rewrite length_drop, (drop_ge buf (_ + _)) by len. by rewrite app_nil_r, take_drop.
    + rewrite cpy_pattern_run by len. obind. rewrite (copy_to_splice _ _ ptr) by len.
      f_equal. unfold splice. rewrite <- app_assoc. do 2 f_equal. rewrite length_app, length_drop, length_drop, length_spread, drop_drop.
      by rewrite (drop_ge buf (ptr + (len + _))), app_nil_r by len.
Qed.

(** * The loop of __fill_random_buf_percentage *)

Section Percentage.
Context (seed percentage : Z) (segment : nat) (pattern : bytes) (pbytes : nat).
Hypothesis Hp : (pbytes <= length pattern)%nat.

(** The length of the random chunk of a segment. *)
Definition chunk_len : Z := u32 (Z.of_nat segment * u32 (100 - percentage)) / 100.

Abbreviation pstep := (percentage_step seed percentage (Z.of_nat segment) pattern (Z.of_nat pbytes)).
Abbreviation ploop := (fun fuel => percentage_loop fuel seed percentage (Z.of_nat segment) pattern (Z.of_nat pbytes)).

Lemma chunk_len_pos : 0 <= chunk_len.
Proof. apply Z.div_pos; [apply (u32_fits (Z.of_nat segment * u32 (100 - percentage))) | lia]. Qed.

(** What is stored in a turn with [len] bytes left: a random chunk made from the
    seed, and after it, when it leaves anything, as many bytes of the pattern, or
    all the rest when that is shorter or leaves at most 8 bytes. *)
Definition rand_len (len : nat) : nat := Nat.min len (Z.to_nat chunk_len).
Definition plain_len (len : nat) : nat :=
  let r := rand_len len in
  if (len - r <? r)%nat then (len - r)%nat else if (len - r - r <=? 8)%nat then (len - r)%nat else r.

Definition turn_bytes (len : nat) : bytes :=
  let r := rand_len len in
  if decide (r = len) then random_chunk r seed
  else random_chunk r seed ++ plain_chunk pattern pbytes (plain_len len).

Fixpoint mixed_bytes (fuel len : nat) : bytes :=
  match fuel with
  | O => []
  | S fuel' => if (len =? 0)%nat then [] else turn_bytes len ++ mixed_bytes fuel' (len - length (turn_bytes len))
  end.

(** One turn stores a chunk that depends on nothing in the buffer, and moves on;
    it makes progress unless the random chunk is empty and more than 8 bytes are
    left. *)
Lemma pstep_run (len : nat) :
  (0 < len)%nat -> Z.of_nat len < 2 ^ 32 ->
  let bs := turn_bytes len in
  (length bs <= len)%nat /\ (0 < chunk_len \/ Z.of_nat len <= 8 -> (0 < length bs)%nat) /\
    forall (buf : bytes) (ptr : nat), (ptr + len <= length buf)%nat ->
      exists ptr', pstep (buf, Z.of_nat ptr, Z.of_nat len) =
        Some (splice buf ptr bs, ptr', Z.of_nat (len - length bs)) /\
        ((length bs < len)%nat -> ptr' = Z.of_nat (ptr + length bs)).
Proof.
  intros Hl H32 bs. pose proof chunk_len_pos as Hc. unfold bs, turn_bytes, plain_len. clear bs.
  set (r := rand_len len). cbv zeta.
  assert ((if Z.of_nat len <? chunk_len then Z.of_nat len else chunk_len) = Z.of_nat r) as Er.
  { unfold r, rand_len. destruct (Z.ltb_spec (Z.of_nat len) chunk_len); lia. }
  assert (r <= len)%nat as Hr by (unfold r, rand_len; lia).
  assert (0 < chunk_len -> (0 < r)%nat) as Hpos by (unfold r, rand_len; lia).
  assert (length (random_chunk r seed) = r) as Hrl by by apply length_random_bytes.
  destruct (decide (r = len)) as [Heq|Hne].
  - split; [lia|]. split; [lia|]. intros buf ptr Hb. exists (Z.of_nat ptr).
    split; [|lia]. unfold percentage_step. fold chunk_len. cbv zeta. rewrite Er.
    rewrite fill_random_run by lia. obind. rewrite u32_small by (split; lia).
    rewrite (proj2 (Z.eqb_eq _ _)) by lia. do 3 f_equal. lia.
  - set (q := if (len - r <? r)%nat then (len - r)%nat else if (len - r - r <=? 8)%nat then (len - r)%nat else r).
    assert (q <= len - r)%nat as Hq.
    { unfold q. destruct (Nat.ltb_spec (len - r) r), (Nat.leb_spec (len - r - r) 8); lia. }
    rewrite length_app, length_plain_chunk, Hrl. split; [lia|]. split.
    { unfold q. destruct (Nat.ltb_spec (len - r) r), (Nat.leb_spec (len - r - r) 8); lia. }
    intros buf ptr Hb. exists (Z.of_nat (ptr + (r + q))). split; [|done].
    unfold percentage_step. fold chunk_len. cbv zeta. rewrite Er.
    rewrite fill_random_run by lia. obind. rewrite u32_small by (split; lia).
    rewrite (proj2 (Z.eqb_neq _ _)) by lia.
    assert ((if Z.of_nat len - Z.of_nat r <? Z.of_nat r then Z.of_nat len - Z.of_nat r
             else if Z.of_nat len - Z.of_nat r - Z.of_nat r <=? 8 then Z.of_nat len - Z.of_nat r
             else Z.of_nat r) = Z.of_nat q) as ->.
    { unfold q. destruct (Nat.ltb_spec (len - r) r), (Nat.leb_spec (len - r - r) 8),
        (Z.ltb_spec (Z.of_nat len - Z.of_nat r) (Z.of_nat r)),
        (Z.leb_spec (Z.of_nat len - Z.of_nat r - Z.of_nat r) 8); lia. }
    rewrite <- Nat2Z.inj_add, fill_plain_run by (rewrite ?length_splice; lia). obind.
    rewrite u32_small by (split; lia).
    pose proof (splice_splice buf ptr (random_chunk r seed) (plain_chunk pattern pbytes q)) as Hs.
    rewrite Hrl, length_plain_chunk in Hs. rewrite Hs by lia. do 2 f_equal; [f_equal|]; lia.
Qed.

Lemma ploop_run fuel (len : nat) :
  0 < chunk_len \/ Z.of_nat len <= 8 -> (len <= fuel)%nat -> Z.of_nat len < 2 ^ 32 ->
  length (mixed_bytes fuel len) = len /\
    forall (buf : bytes) (ptr : nat), (ptr + len <= length buf)%nat ->
      ploop (S fuel) (buf, Z.of_nat ptr, Z.of_nat len) = Some (splice buf ptr (mixed_bytes fuel len)).
Proof.
  revert len. induction fuel as [|fuel IH]; intros len Hc Hf H32.
  { assert (len = 0%nat) as -> by lia. split; [done|]. intros buf ptr _. simpl. by rewrite splice_nil. }
  destruct (decide (len = 0%nat)) as [->|Hl].
  { split; [done|]. intros buf ptr _. simpl. by rewrite splice_nil. }
  destruct (pstep_run len) as (Hb1 & Hb2 & Hstep); [lia | done|].
  cbn [mixed_bytes]. rewrite (proj2 (Nat.eqb_neq len 0)) by done. set (bs := turn_bytes len) in *.
  destruct (IH (len - length bs)%nat) as (Hl' & Hrun); [lia | lia | lia|].
  set (bs' := mixed_bytes fuel (len - length bs)) in *.
  split; [len|]. intros buf ptr Hb. remember (S fuel) as f1.
  cbn [percentage_loop]. rewrite (proj2 (Z.eqb_neq _ _)) by lia.
  destruct (Hstep buf ptr Hb) as (ptr' & -> & Hptr). obind.
  destruct (decide (length bs < len)%nat) as [Hlt|Hge].
  - rewrite (Hptr Hlt), Hrun by (rewrite length_splice; lia). by rewrite splice_splice by lia.
  - subst f1. cbn [percentage_loop]. replace (len - length bs)%nat with 0%nat by lia. simpl.
    assert (bs' = []) as -> by (apply nil_length_inv; lia). by rewrite app_nil_r.
Qed.

(** With an empty random chunk and more than 8 bytes left nothing changes. *)
Lemma pstep_stuck (buf : bytes) (ptr len : nat) :
  chunk_len = 0 -> 8 < Z.of_nat len < 2 ^ 32 -> (ptr + len <= length buf)%nat ->
  pstep (buf, Z.of_nat ptr, Z.of_nat len) = Some (buf, Z.of_nat ptr, Z.of_nat len).
Proof.
  intros Hc Hl Hb. unfold percentage_step. fold chunk_len. cbv zeta. rewrite Hc.
  rewrite (proj2 (Z.ltb_ge _ _)) by lia.
  rewrite (fill_random_run buf ptr 0) by lia. change (random_chunk 0 seed) with (@nil byte).
  rewrite splice_nil. obind. rewrite u32_small by (split; lia).
  rewrite (proj2 (Z.eqb_neq _ _)), (proj2 (Z.ltb_ge _ _)), (proj2 (Z.leb_gt _ _)) by lia.
  rewrite (Z.add_0_r (Z.of_nat ptr)). pose proof (fill_plain_run buf ptr 0 pattern pbytes) as Hf.
  change (Z.of_nat 0) with 0 in Hf. rewrite Hf by lia. obind.
  assert (plain_chunk pattern pbytes 0 = []) as -> by (apply nil_length_inv, length_plain_chunk).
  rewrite splice_nil, u32_small by (split; lia). do 3 f_equal; lia.
Qed.

Lemma ploop_stuck fuel (buf : bytes) (ptr len : nat) :
  chunk_len = 0 -> 8 < Z.of_nat len < 2 ^ 32 -> (ptr + len <= length buf)%nat ->
  ploop fuel (buf, Z.of_nat ptr, Z.of_nat len) = None.
Proof.
  intros Hc Hl Hb. induction fuel as [|fuel IH]; [done|]. cbn [percentage_loop].
  rewrite (proj2 (Z.eqb_neq _ _)) by lia. by rewrite pstep_stuck.
Qed.
End Percentage.

(** The bytes stored by the whole function: with 100 percent the pattern only. *)
Definition percentage_bytes (seed percentage : Z) (segment len : nat) (pattern : bytes) (pbytes : nat) : bytes :=
  if percentage =? 100 then plain_chunk pattern pbytes len
  else mixed_bytes seed percentage (Nat.min segment len) pattern pbytes len len.

(** The whole function, when it returns. *)
Lemma fill_percentage_run seed percentage (segment len : nat) (pattern : bytes) (pbytes : nat) :
  (pbytes <= length pattern)%nat -> Z.of_nat len < 2 ^ 32 ->
  percentage = 100 \/ 0 < chunk_len percentage (Nat.min segment len) \/ Z.of_nat len <= 8 ->
  let bs := percentage_bytes seed percentage segment len pattern pbytes in
  length bs = len /\ forall (buf : bytes) (ptr : nat), (ptr + len <= length buf)%nat ->
    __fill_random_buf_percentage (S len) seed buf (Z.of_nat ptr) percentage
      (Z.of_nat segment) (Z.of_nat len) pattern (Z.of_nat pbytes) = Some (splice buf ptr bs).
Proof.
  intros Hp H32 Hc bs. unfold bs, percentage_bytes, __fill_random_buf_percentage. clear bs.
  assert ((if Z.of_nat len <? Z.of_nat segment then Z.of_nat len else Z.of_nat segment) =
          Z.of_nat (Nat.min segment len)) as -> by (destruct (Z.ltb_spec (Z.of_nat len) (Z.of_nat segment)); lia).
  destruct (Z.eqb_spec percentage 100) as [E|E].
  - split; [apply length_plain_chunk|]. intros buf ptr Hb. by apply fill_plain_run.
  - apply ploop_run; [done | lia | lia | done].
Qed.

(** C40: filling a buffer with a given share of random data, on every branch.
    At 100 percent, for at most 8 bytes, and with a segment length whose random
    part is not empty, __fill_random_buf_percentage returns and has stored exactly
    the [len] bytes [percentage_bytes] in the buffer: turns of a chunk generated
    from the seed and as much of the pattern (of zeros without one), a function of
    the seed and the options alone, so that the expected data of a block can be
    regenerated from its seed.  Otherwise, with more than 8 bytes, less or more than
    100 percent and a random part that rounds to 0 bytes, it never returns. *)
Theorem fill_percentage_spec seed percentage (segment len : nat) (pattern : bytes) (pbytes : nat) :
  (pbytes <= length pattern)%nat -> Z.of_nat len < 2 ^ 32 ->
  let chunk := chunk_len percentage (Nat.min segment len) in
  let run fuel buf ptr := __fill_random_buf_percentage fuel seed buf (Z.of_nat ptr) percentage
    (Z.of_nat segment) (Z.of_nat len) pattern (Z.of_nat pbytes) in
  (percentage = 100 \/ 0 < chunk \/ Z.of_nat len <= 8 ->
   let bs := percentage_bytes seed percentage segment len pattern pbytes in
   length bs = len /\ forall (buf : bytes) (ptr : nat),
     (ptr + len <= length buf)%nat -> run (S len) buf ptr = Some (splice buf ptr bs)) /\
  (percentage <> 100 -> chunk = 0 -> 8 < Z.of_nat len -> forall fuel (buf : bytes) (ptr : nat),
     (ptr + len <= length buf)%nat -> run fuel buf ptr = None).
Proof.
  intros Hp H32 chunk run. split; [by apply fill_percentage_run|].
  intros Hne Hc Hl fuel buf ptr Hb. unfold run, __fill_random_buf_percentage.
  assert ((if Z.of_nat len <? Z.of_nat segment then Z.of_nat len else Z.of_nat segment) =
          Z.of_nat (Nat.min segment len)) as -> by (destruct (Z.ltb_spec (Z.of_nat len) (Z.of_nat segment)); lia).
  rewrite (proj2 (Z.eqb_neq _ _)) by done. by apply ploop_stuck.
Qed.

(** 200 bytes at 50 percent; 50 bytes at 99 percent. *)
Lemma fill_percentage_spec_witness :
  (let bs := percentage_bytes 7 50 200 200 [] 0 in
   length bs = 200%nat /\ forall (buf : bytes) (ptr : nat), (ptr + 200 <= length buf)%nat ->
     __fill_random_buf_percentage 201 7 buf (Z.of_nat ptr) 50 200 200 [] 0 = Some (splice buf ptr bs)) /\
  (forall fuel, __fill_random_buf_percentage fuel 7 (replicate 50 Byte.xff) 0 99 50 50 [] 0 = None).
Proof.
  split.
  - apply (fill_percentage_spec 7 50 200 200 [] 0); [simpl; lia | reflexivity | right; left; reflexivity].
  - intros fuel. apply (fill_percentage_spec 7 99 50 50 [] 0) with (ptr := 0%nat);
      (reflexivity || discriminate || simpl; lia).
Defined.

(** * The state of the generators *)

(** The states the generators need (for the 32-bit one, the erratum quoted at the
    head of rand.c): in every component some bit above the masked ones is set. *)
Definition good88 (s : taus88_state) : Prop :=
  fits 32 (t88_s1 s) /\ fits 32 (t88_s2 s) /\ fits 32 (t88_s3 s) /\
  1 < t88_s1 s /\ 7 < t88_s2 s /\ 15 < t88_s3 s.

Definition good258 (s : taus258_state) : Prop :=
  fits 64 (t258_s1 s) /\ fits 64 (t258_s2 s) /\ fits 64 (t258_s3 s) /\ fits 64 (t258_s4 s) /\
  fits 64 (t258_s5 s) /\ 2 ^ 1 <= t258_s1 s /\ 2 ^ 9 <= t258_s2 s /\ 2 ^ 12 <= t258_s3 s /\
  2 ^ 17 <= t258_s4 s /\ 2 ^ 23 <= t258_s5 s.

Lemma fits_bit w s i : fits w s -> 0 <= w <= i -> Z.testbit s i = false.
Proof. intros Hs Hi. rewrite <- (Z.mod_small s (2 ^ w)) by done. by apply Z.mod_pow2_bits_high. Qed.

Section Taus.
Context (w k a b d : Z).
Hypothesis Hk : 0 < k.
Hypothesis Ha : 0 < a <= b.
Hypothesis Hd : 0 <= d.
Hypothesis Hw : k + d + b = w.

(** One bit of a component after a step. *)
Definition taus_bit (s i : Z) : bool :=
  xorb ((k + d <=? i) && Z.testbit s (i - d))
       ((i + b <? w) && xorb (Z.testbit s (i + b - a)) (Z.testbit s (i + b))).

(** When no bit from [k] on is set after the step, none was set before it. *)
Lemma taus_bit_zero s :
  fits w s -> (forall i, k <= i < w -> taus_bit s i = false) ->
  forall j, k <= j -> Z.testbit s j = false.
Proof.
  intros Hs H j. induction j as [j IH] using (well_founded_induction (Z.lt_wf k)). intros Hj.
  destruct (Z.leb_spec w j); [apply (fits_bit w); [done | lia]|].
  destruct (Z.leb_spec (w - d) j).
  - specialize (H (j - b) ltac:(lia)). unfold taus_bit in H.
      rewrite (proj2 (Z.leb_gt _ _)), (proj2 (Z.ltb_lt _ _)) in H by lia. simpl in H.
      replace (j - b + b) with j in H by lia. rewrite (IH (j - a)) in H by lia. by destruct (Z.testbit s j).
  - specialize (H (j + d) ltac:(lia)). unfold taus_bit in H.
      rewrite (proj2 (Z.leb_le _ _)), (proj2 (Z.ltb_ge _ _)) in H by lia. simpl in H.
      replace (j + d - d) with j in H by lia. by destruct (Z.testbit s j).
Qed.

Lemma taus_keeps s t :
  fits w s -> fits w t -> (forall i, k <= i < w -> Z.testbit t i = taus_bit s i) ->
  2 ^ k <= s -> 2 ^ k <= t.
Proof.
  intros Hs Ht H Hge. destruct (Z.leb_spec (2 ^ k) t) as [|Hlt]; [done|]. exfalso.
  assert (s < 2 ^ k); [|lia]. destruct Hs as [Hs0 Hs1]. destruct (Z.eq_dec s 0) as [->|]; [lia|].
  apply Z.log2_lt_pow2; [lia|]. destruct (Z.lt_ge_cases (Z.log2 s) k) as [|Hl]; [done|]. exfalso.
  assert (Z.testbit s (Z.log2 s) = true) as Hb by (apply Z.bit_log2; lia).
  rewrite (taus_bit_zero s) in Hb; [done | by split | | done].
  intros i Hi. rewrite <- H by done. apply (fits_bit k); [|lia]. destruct Ht. by split.
Qed.
End Taus.

(** A mask of the bits from [k] on. *)
Lemma mask_bit w k i : 0 <= k <= w -> 0 <= i -> Z.testbit (2 ^ w - 2 ^ k) i = (k <=? i) && (i <? w).
Proof.
  intros Hk Hi. replace (2 ^ w - 2 ^ k) with (Z.shiftl (Z.ones (w - k)) k).
  2:{ rewrite Z.shiftl_mul_pow2, Z.ones_equiv by lia.
      replace (2 ^ w) with (2 ^ (w - k) * 2 ^ k) by (rewrite <- Z.pow_add_r by lia; f_equal; lia). lia. }
  rewrite Z.shiftl_spec by lia. destruct (Z.ltb_spec (i - k) 0).
  - rewrite Z.testbit_neg_r by lia. by rewrite (proj2 (Z.leb_gt _ _)) by lia.
  - rewrite Z.testbit_ones by lia.
    destruct (Z.leb_spec k i), (Z.ltb_spec i w), (Z.leb_spec 0 (i - k)), (Z.ltb_spec (i - k) (w - k)); (done || lia).
Qed.

(** The bits of the two forms of the step. *)
Lemma shifted_bits w v k a b d s i :
  0 < k -> 0 < a <= b -> 0 <= d -> k + d + b = w -> w <= v -> k <= i < w -> fits w s ->
  xorb (Z.testbit (Z.shiftl (Z.land s (2 ^ w - 2 ^ k)) d mod 2 ^ v) i)
       (Z.testbit (Z.shiftr (Z.lxor (Z.shiftl s a mod 2 ^ w) s) b) i) = taus_bit w k a b d s i.
Proof.
  intros Hk Ha Hd Hw Hv Hi Hs. unfold taus_bit.
  rewrite Z.shiftr_spec, Z.lxor_spec, Z.mod_pow2_bits_low, Z.shiftl_spec by lia. f_equal.
  - destruct (Z.ltb_spec (i - d) 0).
    + rewrite !Z.testbit_neg_r by lia. by rewrite andb_false_r.
    + rewrite Z.land_spec, mask_bit by lia.
      destruct (Z.leb_spec k (i - d)), (Z.ltb_spec (i - d) w), (Z.leb_spec (k + d) i); try lia;
        simpl; by rewrite ?andb_true_r, ?andb_false_r.
  - destruct (Z.ltb_spec (i + b) w).
    + rewrite Z.mod_pow2_bits_low, Z.shiftl_spec by lia. done.
    + rewrite Z.mod_pow2_bits_high, (fits_bit w s) by (done || lia). done.
Qed.

Lemma fits_lxor w x y : 0 <= w -> fits w x -> fits w y -> fits w (Z.lxor x y).
Proof.
  intros Hw Hx Hy. assert (Z.lxor x y mod 2 ^ w = Z.lxor x y) as <-; [|by apply Z.mod_pos_bound, Z.pow_pos_nonneg].
  apply Z.bits_inj'. intros i Hi. destruct (Z.ltb_spec i w).
  - by rewrite Z.mod_pow2_bits_low by lia.
  - rewrite Z.mod_pow2_bits_high, Z.lxor_spec by lia. by rewrite !(fits_bit w) by (done || lia).
Qed.

Lemma taus64_keeps k a b d s :
  0 < k -> 0 < a <= b -> 0 <= d -> k + d + b = 64 -> fits 64 s -> 2 ^ k <= s ->
  fits 64 (taus64 s a b (2 ^ 64 - 2 ^ k) d) /\ 2 ^ k <= taus64 s a b (2 ^ 64 - 2 ^ k) d.
Proof.
  intros Hk Ha Hd Hw Hs Hge. assert (fits 64 (taus64 s a b (2 ^ 64 - 2 ^ k) d)) as Hf.
  { unfold taus64. apply fits_lxor; [lia | apply u64_fits|].
    destruct (fits_lxor 64 (u64 (Z.shiftl s a)) s) as [H1 H2]; [lia | apply u64_fits | done|].
    rewrite Z.shiftr_div_pow2 by lia. split; [apply Z.div_pos; lia|].
    apply Z.le_lt_trans with (Z.lxor (u64 (Z.shiftl s a)) s); [|done]. apply Z.div_le_upper_bound; [lia|]. nia. }
  split; [done|]. apply (taus_keeps 64 k a b d Hk Ha Hd Hw s); try done.
  intros i Hi. unfold taus64. rewrite Z.lxor_spec. by apply (shifted_bits 64 64).
Qed.

Lemma taus32_keeps k a b d s :
  0 < k -> 0 < a <= b -> 0 <= d -> k + d + b = 32 -> fits 32 s -> 2 ^ k <= s ->
  fits 32 (TAUSWORTHE s a b (2 ^ 32 - 2 ^ k) d) /\ 2 ^ k <= TAUSWORTHE s a b (2 ^ 32 - 2 ^ k) d.
Proof.
  intros Hk Ha Hd Hw Hs Hge. split; [apply u32_fits|].
  apply (taus_keeps 32 k a b d Hk Ha Hd Hw s); try done; [apply u32_fits|].
  intros i Hi. unfold TAUSWORTHE, u32 at 1. rewrite Z.mod_pow2_bits_low, Z.lxor_spec by lia.
  by apply (shifted_bits 32 64).
Qed.

Lemma rand32_good s : good88 s -> good88 (snd (__rand32 s)).
Proof.
  intros (F1 & F2 & F3 & G1 & G2 & G3). unfold __rand32, good88. cbn [snd t88_s1 t88_s2 t88_s3].
  destruct (taus32_keeps 1 13 19 12 (t88_s1 s)) as [A1 B1]; try done; try lia.
  destruct (taus32_keeps 3 2 25 4 (t88_s2 s)) as [A2 B2]; try done; try lia.
  destruct (taus32_keeps 4 3 11 17 (t88_s3 s)) as [A3 B3]; try done; try lia.
  split_and!; (done || (apply Z.lt_le_trans with (2 := B1); lia) || (apply Z.lt_le_trans with (2 := B2); lia) ||
    (apply Z.lt_le_trans with (2 := B3); lia)).
Qed.

Lemma rand64_good s : good258 s -> good258 (snd (__rand64 s)).
Proof.
  intros (F1 & F2 & F3 & F4 & F5 & G1 & G2 & G3 & G4 & G5).
  unfold __rand64, good258. cbn [snd t258_s1 t258_s2 t258_s3 t258_s4 t258_s5].
  destruct (taus64_keeps 1 1 53 10 (t258_s1 s)) as [A1 B1]; try done; try lia.
  destruct (taus64_keeps 9 24 50 5 (t258_s2 s)) as [A2 B2]; try done; try lia.
  destruct (taus64_keeps 12 3 23 29 (t258_s3 s)) as [A3 B3]; try done; try lia.
  destruct (taus64_keeps 17 5 24 23 (t258_s4 s)) as [A4 B4]; try done; try lia.
  destruct (taus64_keeps 23 3 33 8 (t258_s5 s)) as [A5 B5]; try done; try lia.
Qed.

(** The generators never degenerate.  From a state whose components are above
    the bounds of the generator's theory, no number of calls of __rand32 or
    __rand64 brings a component below them (a component below its bound is stuck:
    its high bits are 0 for ever). *)
Theorem rand_never_degenerates n :
  (forall s, good88 s -> good88 (crank __rand32 n s)) /\
  (forall s, good258 s -> good258 (crank __rand64 n s)).
Proof.
  unfold crank. split; intros s Hs; induction n as [|n IH]; try done; cbn [Nat.iter].
  - by apply rand32_good.
  - by apply rand64_good.
Qed.

Lemma rand_never_degenerates_witness :
  good88 (crank __rand32 1000 (__init_rand32 1)) /\ good258 (crank __rand64 1000 (__init_rand64 1)).
Proof.
  destruct (rand_never_degenerates 1000) as [H32 H64]. split.
  - apply H32. vm_compute. repeat split; discriminate.
  - apply H64. vm_compute. repeat split; discriminate.
Defined.

(** The seeding does not ensure it: a seed for which the first component is 1
    gives a generator whose first component is 0 for ever. *)
Lemma seed_degenerate n : t88_s1 (crank __rand32 n (__init_rand32 3660656)) = 0.
Proof.
  assert (t88_s1 (__init_rand32 3660656) = 0) as H by (vm_compute; reflexivity).
  generalize dependent (__init_rand32 3660656). intros s H. unfold crank.
  induction n as [|n IH]; [done|]. change (TAUSWORTHE (t88_s1 (Nat.iter n (fun s => snd (__rand32 s)) s)) 13 19 4294967294 12 = 0).
  by rewrite IH.
Qed.
