(* ===== verification/RandFloat.v ===== *)
(** The floating point part of src/fio/lib/rand.h: a random number as a fraction of its range.
    Every double in it is a whole number over a power of two, so that arithmetic on doubles is
    arithmetic on whole numbers rounded to 53 bits, ties to even. *)
From S2P Require Import Prelude Blocks Pattern Rand.

(** * Doubles *)

(** The whole number of at most 53 bits (and a power of two) next to [x], for [0 <= x]. *)
Definition round53 (x : Z) : Z :=
  if x <? 2 ^ 53 then x else
  let e := Z.log2 x - 52 in
  let q := x / 2 ^ e in
  let r := x mod 2 ^ e in
  let h := 2 ^ (e - 1) in
  (if (r <? h) || ((r =? h) && Z.even q) then q else q + 1) * 2 ^ e.

(** [n * (r / (rand_max(state) + 1.0))] cut to an integer: [rand_max + 1.0] is [2^w]. *)
Definition rand_scaled (w n r : Z) : Z := round53 (round53 n * round53 r) / 2 ^ w.

Definition rand_width (state : frand_state) : Z := match state with state64 _ => 64 | state32 _ => 32 end.

(** [frand_copy]: the half of the union that is in use is copied with its tag. *)
Definition frand_copy (src : frand_state) : frand_state :=
  match src with
  | state64 s => state64 (mkT258 (t258_s1 s) (t258_s2 s) (t258_s3 s) (t258_s4 s) (t258_s5 s))
  | state32 s => state32 (mkT88 (t88_s1 s) (t88_s2 s) (t88_s3 s))
  end.

(** [__rand_0_1]: the double as a whole number over [2^w]. *)
Definition __rand_0_1 (state : frand_state) : Z * frand_state :=
  let (r, s) := __rand state in (round53 (round53 r + 1), s).

(** No value stands for the failed assertion.  The product keeps the sign of [end]. *)
Definition rand32_between (state : frand_state) (start end_ : Z) : option (Z * frand_state) :=
  match state with
  | state64 _ => None
  | state32 s =>
      let (r, s) := __rand32 s in
      Some (start + Z.sgn end_ * rand_scaled 32 (Z.abs end_) r, state32 s)
  end.

(** * Rounding *)

Lemma round53_small x : x < 2 ^ 53 -> round53 x = x.
Proof. intros H. unfold round53. by destruct (Z.ltb_spec x (2 ^ 53)); [|lia]. Qed.

(** The numbers a double can hold, among the whole ones. *)
Definition representable (y : Z) : Prop := exists m e, 0 <= m <= 2 ^ 53 /\ 0 <= e /\ y = m * 2 ^ e.

Lemma round53_parts x : 2 ^ 53 <= x ->
  exists e q r, 1 <= e /\ x = q * 2 ^ e + r /\ 0 <= r < 2 ^ e /\ 2 ^ 52 <= q < 2 ^ 53 /\ 2 ^ (e - 1) * 2 = 2 ^ e /\
    (round53 x = q * 2 ^ e /\ 2 * r <= 2 ^ e \/ round53 x = (q + 1) * 2 ^ e /\ 2 ^ e <= 2 * r).
Proof.
  intros Hx. assert (53 <= Z.log2 x) as Hl by (change 53 with (Z.log2 (2 ^ 53)); by apply Z.log2_le_mono).
  destruct (Z.log2_spec x ltac:(lia)) as [Hlo Hhi]. set (e := Z.log2 x - 52) in *.
  assert (0 < 2 ^ e) as He by (apply Z.pow_pos_nonneg; lia).
  assert (2 ^ Z.log2 x = 2 ^ 52 * 2 ^ e) as E1 by (rewrite <- Z.pow_add_r by lia; f_equal; lia).
  assert (2 ^ Z.succ (Z.log2 x) = 2 ^ 53 * 2 ^ e) as E2 by (rewrite <- Z.pow_add_r by lia; f_equal; lia).
  assert (2 ^ (e - 1) * 2 = 2 ^ e) as E3 by (replace e with (Z.succ (e - 1)) at 2 by lia; rewrite Z.pow_succ_r by lia; lia).
  exists e, (x / 2 ^ e), (x mod 2 ^ e). pose proof (Z.mod_pos_bound x (2 ^ e) He). pose proof (Z.div_mod x (2 ^ e) ltac:(lia)).
  split; [lia|]. split; [lia|]. split; [done|]. split; [split; [apply Z.div_le_lower_bound | apply Z.div_lt_upper_bound]; lia|].
  split; [done|]. unfold round53. destruct (Z.ltb_spec x (2 ^ 53)); [lia|]. fold e.
  destruct (Z.ltb_spec (x mod 2 ^ e) (2 ^ (e - 1))); [left; split; [done|lia]|]. cbn [orb].
  destruct (Z.eqb_spec (x mod 2 ^ e) (2 ^ (e - 1))) as [E|]; cbn [andb]; [|right; split; [done|lia]].
  destruct (Z.even _); [left; split; [done|lia] | right; split; [done|lia]].
Qed.

(** A representable number is a multiple of the spacing at [x], or below the numbers so spaced. *)
Lemma representable_grid y e : representable y -> 0 <= e -> (exists k, y = k * 2 ^ e) \/ y <= 2 ^ 52 * 2 ^ e.
Proof.
  intros (m & f & Hm & Hf & ->) He. destruct (Z.le_gt_cases e f) as [H|H].
  - left. exists (m * 2 ^ (f - e)). rewrite <- Z.mul_assoc, <- Z.pow_add_r by lia. do 2 f_equal. lia.
  - right. assert (2 ^ (f + 1) <= 2 ^ e) by (apply Z.pow_le_mono_r; lia). rewrite Z.pow_add_r in * by lia.
    assert (0 < 2 ^ f) by (apply Z.pow_pos_nonneg; lia). nia.
Qed.

Lemma round53_le x y : representable y -> x <= y -> round53 x <= y.
Proof.
  intros Hy Hxy. destruct (Z.lt_ge_cases x (2 ^ 53)) as [H|H]; [by rewrite round53_small|].
  destruct (round53_parts x H) as (e & q & r & He & Ex & Hr & Hq & _ & [[-> _]|[-> Hb]]); [lia|].
  destruct (representable_grid y e Hy ltac:(lia)) as [[k ->]|?]; [|nia]. apply Z.mul_le_mono_nonneg_r; [lia|].
  apply Z.le_succ_l, (Z.mul_lt_mono_pos_r (2 ^ e)); lia.
Qed.

Lemma round53_ge x y : representable y -> y <= x -> y <= round53 x.
Proof.
  intros Hy Hxy. destruct (Z.lt_ge_cases x (2 ^ 53)) as [H|H]; [by rewrite round53_small|].
  destruct (round53_parts x H) as (e & q & r & He & Ex & Hr & Hq & _ & [[-> _]|[-> Hb]]); [|lia].
  destruct (representable_grid y e Hy ltac:(lia)) as [[k ->]|?]; [|nia]. apply Z.mul_le_mono_nonneg_r; [lia|].
  apply Z.lt_succ_r, (Z.mul_lt_mono_pos_r (2 ^ e)); lia.
Qed.

Lemma round53_exact y : representable y -> round53 y = y.
Proof. intros H. apply Z.le_antisymm; [by apply round53_le | by apply round53_ge]. Qed.

Lemma representable_small y : 0 <= y <= 2 ^ 53 -> representable y.
Proof. intros H. exists y, 0. split; [lia|]. split; [done | lia]. Qed.

Lemma representable_scale y e : 0 <= e -> 0 <= y <= 2 ^ 53 -> representable (y * 2 ^ e).
Proof. intros H1 H2. by exists y, e. Qed.

Lemma round53_nonneg x : 0 <= x -> 0 <= round53 x.
Proof. intros H. apply round53_ge; [by apply representable_small | done]. Qed.

(** * The fraction of a range *)

(** A 32 bit random number scales a range of up to [2^53] to a number below it. *)
Lemma scaled_below n r : 0 < n <= 2 ^ 53 -> fits 32 r -> 0 <= rand_scaled 32 n r < n.
Proof.
  intros Hn Hr. unfold fits in Hr. unfold rand_scaled.
  rewrite (round53_exact n), (round53_exact r) by (apply representable_small; lia).
  split; [apply Z.div_pos; [apply round53_nonneg; lia | lia]|]. apply Z.div_lt_upper_bound; [lia|].
  destruct (Z.le_gt_cases n (2 ^ 21)) as [Hs|Hs].
  { apply Z.le_lt_trans with (n * 2 ^ 32 - n); [|lia]. apply round53_le; [apply representable_small; nia | nia]. }
  (* the number before [n * 2^32] at the spacing of its doubles *)
  set (k := Z.log2 n - 20). assert (21 <= Z.log2 n) as Hl by (change 21 with (Z.log2 (2 ^ 21)); apply Z.log2_le_mono; lia).
  destruct (Z.log2_spec n ltac:(lia)) as [Hlo Hhi].
  assert (Z.log2 n <= 53) as Hl2 by (change 53 with (Z.log2 (2 ^ 53)); apply Z.log2_le_mono; lia).
  destruct (Z.eq_dec n (2 ^ 53)) as [->|Hne].
  { apply Z.le_lt_trans with ((2 ^ 53 - 1) * 2 ^ 32); [|lia]. apply round53_le; [apply representable_scale; lia | nia]. }
  assert (Z.log2 n < 53) as Hl3 by (apply Z.log2_lt_pow2; lia).
  assert (2 ^ 32 = 2 ^ (32 - k) * 2 ^ k) as E1 by (rewrite <- Z.pow_add_r by lia; f_equal; lia).
  assert (2 ^ Z.log2 n = 2 ^ 20 * 2 ^ k) as E2 by (rewrite <- Z.pow_add_r by lia; f_equal; lia).
  assert (2 ^ Z.succ (Z.log2 n) * 2 ^ (32 - k) = 2 ^ 53) as E3 by (rewrite <- Z.pow_add_r by lia; f_equal; lia).
  assert (0 < 2 ^ k) by (apply Z.pow_pos_nonneg; lia). assert (0 < 2 ^ (32 - k)) by (apply Z.pow_pos_nonneg; lia).
  apply Z.le_lt_trans with ((n * 2 ^ (32 - k) - 1) * 2 ^ k); [|nia].
  apply round53_le; [apply representable_scale; [lia | nia]|].
  transitivity (n * (2 ^ 32 - 1)); [apply Z.mul_le_mono_nonneg_l; lia|].
  replace ((n * 2 ^ (32 - k) - 1) * 2 ^ k) with (n * (2 ^ (32 - k) * 2 ^ k) - 2 ^ k) by ring. rewrite <- E1. lia.
Qed.

(** The largest 64 bit numbers round to [2^64]: the scaled number is the whole range. *)
Lemma scaled_end n r : 0 < n <= 2 ^ 53 -> 2 ^ 64 - 2 ^ 10 <= r < 2 ^ 64 -> rand_scaled 64 n r = n.
Proof.
  intros Hn Hr. unfold rand_scaled. rewrite (round53_exact n) by (apply representable_small; lia).
  assert (round53 r = 2 ^ 64) as ->.
  { assert (Z.log2 r = 63) as El by (apply Z.log2_unique; lia). unfold round53. rewrite El.
    destruct (Z.ltb_spec r (2 ^ 53)); [lia|]. change (63 - 52) with 11. change (11 - 1) with 10.
    assert (r / 2 ^ 11 = 2 ^ 53 - 1) as Eq by (symmetry; apply (Z.div_unique r (2 ^ 11) _ (r - (2 ^ 53 - 1) * 2 ^ 11)); lia).
    pose proof (Z.div_mod r (2 ^ 11) ltac:(lia)) as Em. rewrite Eq in Em. rewrite Eq.
    destruct (Z.ltb_spec (r mod 2 ^ 11) (2 ^ 10)); [lia|]. change (Z.even (2 ^ 53 - 1)) with false. by rewrite andb_false_r. }
  rewrite round53_exact by (apply representable_scale; lia). apply Z.div_mul. lia.
Qed.

Lemma rand32_fits s : fits 32 (fst (__rand32 s)).
Proof.
  unfold __rand32, TAUSWORTHE. cbn [fst]. apply fits_lxor; [lia | apply fits_lxor; [lia | | ] | ]; apply u32_fits.
Qed.

(** [rand32_between(state, 1, n)] is between 1 and [n]. *)
Lemma rand32_between_range s n : 0 < n < 2 ^ 31 ->
  exists v, rand32_between (state32 s) 1 n = Some (v, state32 (snd (__rand32 s))) /\ 1 <= v <= n.
Proof.
  intros Hn. unfold rand32_between. pose proof (rand32_fits s) as Hr. destruct (__rand32 s) as [r s'] eqn:E. cbn [fst snd] in *.
  eexists. split; [reflexivity|]. rewrite Z.sgn_pos, Z.abs_eq by lia. pose proof (scaled_below n r ltac:(lia) Hr). lia.
Qed.

(** With another lower end the upper one is passed: [rand32_between(state, 50, 100)] can be 149. *)
Lemma rand32_between_too_large :
  fst <$> rand32_between (state32 (crank __rand32 240 (__init_rand32 1))) 50 100 = Some 149.
Proof. by vm_compute. Qed.
