(* ===== verification/IouOffset.v ===== *)
(** How fio chooses what an I/O unit reads or writes: the offset and the length of the next I/O
    (src/fio/io_u.c up to fill_io_u, with get_start_offset and fio_file_reset of filesetup.c).
    The state is what these functions change of the thread and of the file of the unit. *)
From S2P Require Import Prelude Blocks Pattern Rand RandFloat Axmap Lfsr Flist FlistSort.

(** * Data *)

Inductive fio_ddir : Type := DDIR_READ | DDIR_WRITE | DDIR_TRIM.

#[global] Instance fio_ddir_eq_dec : EqDecision fio_ddir.
Proof. solve_decision. Defined.

(** An array indexed by the direction. *)
Record per_ddir (A : Type) : Type := mkPer { per_read : A; per_write : A; per_trim : A }.
Arguments mkPer {A} _ _ _.
Arguments per_read {A} _.
Arguments per_write {A} _.
Arguments per_trim {A} _.

Definition at_ddir {A} (p : per_ddir A) (d : fio_ddir) : A :=
  match d with DDIR_READ => per_read p | DDIR_WRITE => per_write p | DDIR_TRIM => per_trim p end.
Definition upd_ddir {A} (d : fio_ddir) (v : A) (p : per_ddir A) : per_ddir A :=
  match d with
  | DDIR_READ => mkPer v (per_write p) (per_trim p)
  | DDIR_WRITE => mkPer (per_read p) v (per_trim p)
  | DDIR_TRIM => mkPer (per_read p) (per_write p) v
  end.

Inductive rand_gen : Type := FIO_RAND_GEN_TAUSWORTHE | FIO_RAND_GEN_LFSR | FIO_RAND_GEN_TAUSWORTHE64.
Inductive rand_dist : Type :=
  | FIO_RAND_DIST_RANDOM | FIO_RAND_DIST_ZIPF | FIO_RAND_DIST_PARETO | FIO_RAND_DIST_GAUSS | FIO_RAND_DIST_ZONED.
Inductive rw_seq_kind : Type := RW_SEQ_SEQ | RW_SEQ_IDENT.

Definition tausworthe (g : rand_gen) : bool :=
  match g with FIO_RAND_GEN_LFSR => false | _ => true end.

Record zone_split_index : Type := mkZsi { size_perc : Z; size_perc_prev : Z }.

(** The options and the settings of the thread that do not change while it runs. *)
Record thread_options : Type := mkTo {
  o_random : bool;                          (* td_random(td) *)
  o_random_generator : rand_gen;
  o_random_distribution : rand_dist;
  o_norandommap : bool;
  o_rw_min_bs : Z;
  o_min_bs : per_ddir Z;
  o_max_bs : per_ddir Z;
  o_ba : per_ddir Z;
  o_ba_set : bool;                          (* fio_option_is_set(o, ba) *)
  o_bssplit : per_ddir (list (Z * Z));      (* block size, percentage *)
  o_bs_unaligned : bool;
  o_bs_is_seq_rand : bool;
  o_time_based : bool;
  o_nonuniform : bool;                      (* file_service_type & __FIO_FSERVICE_NONUNIFORM *)
  o_zone_range : Z;
  o_zone_size : Z;
  o_zone_skip : Z;
  o_zone_split_nr : per_ddir Z;
  zone_state_index : per_ddir (list zone_split_index);
  o_verifysort_nr : Z;
  o_do_verify : bool;
  td_verifying : bool;                      (* runstate == TD_VERIFYING *)
  o_perc_rand : per_ddir Z;
  o_ddir_seq_nr : Z;
  o_ddir_seq_add : Z;
  o_rw_seq : rw_seq_kind;
  o_file_append : bool;
  o_start_offset : Z;
  o_start_offset_percent : Z;
  o_offset_increment : Z;
  subjob_number : Z;
  rand_seed_block_off : Z;                  (* rand_seeds[FIO_RAND_BLOCK_OFF] *)
  td_noio : bool                            (* the engine is flagged FIO_NOIO *)
}.

(** [io_axmap] and [lfsr] are there when the flags FIO_FILE_axmap and FIO_FILE_lfsr are.  They are a
    union in the source: init_random_map gives a file at most one of them. *)
Record fio_file : Type := mkFile {
  file_offset : Z;
  real_file_size : Z;
  io_size : Z;
  last_pos : per_ddir Z;
  last_start : per_ddir Z;
  io_axmap : option axmap;
  lfsr : option fio_lfsr;
  type_file : bool                          (* filetype == FIO_TYPE_FILE *)
}.

(** [rand_links] are the links of [next_rand_list] and of the [rand_off] in it, [rand_offs] the
    offsets of the latter. *)
Record gen : Type := mkGen {
  random_state : frand_state;
  zone_state : frand_state;
  seq_rand_state : per_ddir frand_state;
  bsrange_state : per_ddir frand_state;
  td_ddir_seq_nr : Z;
  zone_bytes : Z;
  io_skip_bytes : Z;
  rand_links : gmap Z flist_head;
  rand_offs : gmap Z Z;
  the_file : fio_file
}.

Definition set_random_state (r : frand_state) (s : gen) : gen :=
  mkGen r (zone_state s) (seq_rand_state s) (bsrange_state s) (td_ddir_seq_nr s) (zone_bytes s) (io_skip_bytes s)
    (rand_links s) (rand_offs s) (the_file s).
Definition set_zone_state (r : frand_state) (s : gen) : gen :=
  mkGen (random_state s) r (seq_rand_state s) (bsrange_state s) (td_ddir_seq_nr s) (zone_bytes s) (io_skip_bytes s)
    (rand_links s) (rand_offs s) (the_file s).
Definition set_seq_rand_state (d : fio_ddir) (r : frand_state) (s : gen) : gen :=
  mkGen (random_state s) (zone_state s) (upd_ddir d r (seq_rand_state s)) (bsrange_state s) (td_ddir_seq_nr s) (zone_bytes s)
    (io_skip_bytes s) (rand_links s) (rand_offs s) (the_file s).
Definition set_bsrange_state (d : fio_ddir) (r : frand_state) (s : gen) : gen :=
  mkGen (random_state s) (zone_state s) (seq_rand_state s) (upd_ddir d r (bsrange_state s)) (td_ddir_seq_nr s) (zone_bytes s)
    (io_skip_bytes s) (rand_links s) (rand_offs s) (the_file s).
Definition set_ddir_seq_nr (n : Z) (s : gen) : gen :=
  mkGen (random_state s) (zone_state s) (seq_rand_state s) (bsrange_state s) n (zone_bytes s) (io_skip_bytes s)
    (rand_links s) (rand_offs s) (the_file s).
Definition set_zone_bytes (n m : Z) (s : gen) : gen :=
  mkGen (random_state s) (zone_state s) (seq_rand_state s) (bsrange_state s) (td_ddir_seq_nr s) n m
    (rand_links s) (rand_offs s) (the_file s).
Definition set_rand_list (h : gmap Z flist_head) (m : gmap Z Z) (s : gen) : gen :=
  mkGen (random_state s) (zone_state s) (seq_rand_state s) (bsrange_state s) (td_ddir_seq_nr s) (zone_bytes s)
    (io_skip_bytes s) h m (the_file s).
Definition set_file (f : fio_file) (s : gen) : gen :=
  mkGen (random_state s) (zone_state s) (seq_rand_state s) (bsrange_state s) (td_ddir_seq_nr s) (zone_bytes s)
    (io_skip_bytes s) (rand_links s) (rand_offs s) f.

Definition with_axmap (m : axmap) (f : fio_file) : fio_file :=
  mkFile (file_offset f) (real_file_size f) (io_size f) (last_pos f) (last_start f) (Some m) (lfsr f) (type_file f).
Definition with_lfsr (l : fio_lfsr) (f : fio_file) : fio_file :=
  mkFile (file_offset f) (real_file_size f) (io_size f) (last_pos f) (last_start f) (io_axmap f) (Some l) (type_file f).
Definition with_last_pos (d : fio_ddir) (p : Z) (f : fio_file) : fio_file :=
  mkFile (file_offset f) (real_file_size f) (io_size f) (upd_ddir d p (last_pos f)) (last_start f) (io_axmap f) (lfsr f) (type_file f).
Definition with_last_start (d : fio_ddir) (p : Z) (f : fio_file) : fio_file :=
  mkFile (file_offset f) (real_file_size f) (io_size f) (last_pos f) (upd_ddir d p (last_start f)) (io_axmap f) (lfsr f) (type_file f).
Definition with_file_offset (o : Z) (f : fio_file) : fio_file :=
  mkFile o (real_file_size f) (io_size f) (last_pos f) (last_start f) (io_axmap f) (lfsr f) (type_file f).

(** What the functions read and write of an I/O unit; [u_ddir] is none for a direction that is
    not a read, write or trim. *)
Record io_u : Type := mkIou {
  u_ddir : option fio_ddir;
  u_offset : Z;
  u_buflen : Z;
  u_busy_ok : bool                          (* flags & IO_U_F_BUSY_OK *)
}.

(** * Helpers *)

Definition file_ : M gen fio_file := fun s => Ret (the_file s) s.
Definition on_file (g : fio_file -> fio_file) : M gen unit := modify (fun s => set_file (g (the_file s)) s).
Definition assert_g (b : bool) : M gen unit := if b then mret tt else exit_ 134.
(** A call of the bitmap, the shift register or an array, undefined out of bounds. *)
Definition lift_ub {A} (x : option A) : M gen A := match x with Some a => mret a | None => undef end.
Definition on_links {A} (m : M (gmap Z flist_head) A) : M gen A :=
  zoom rand_links (fun h s => set_rand_list h (rand_offs s) s) m.
Definition s32_of (z : Z) : Z := let w := u32 z in if w <? 2 ^ 31 then w else w - 2 ^ 32.
Definition NONE64 : Z := 2 ^ 64 - 1.

Definition file_randommap (o : thread_options) (f : fio_file) : option axmap :=
  if o_norandommap o then None else io_axmap f.

(** * Offsets *)

Definition random_map_free (m : axmap) (block : Z) : option bool := negb <$> axmap_isset m block.

Definition mark_random_map (o : thread_options) (u : io_u) : M gen io_u :=
  let min_bs := o_rw_min_bs o in
  guard_ub (negb (min_bs =? 0));;
  f ← file_;
  let block := u64 (u_offset u - file_offset f) / min_bs in
  let nr_blocks := u32 (u64 (u64 (u_buflen u + min_bs) - 1) / min_bs) in
  nr_blocks ← (if negb (u_busy_ok u) then
                 m ← lift_ub (io_axmap f);
                 '(m, n) ← lift_ub (axmap_set_nr m block nr_blocks);
                 on_file (with_axmap m);;
                 mret n
               else mret nr_blocks);
  mret (if u32 (nr_blocks * min_bs) <? u_buflen u then mkIou (u_ddir u) (u_offset u) (u32 (nr_blocks * min_bs)) (u_busy_ok u)
        else u).

Definition last_block (o : thread_options) (ddir : fio_ddir) : M gen Z :=
  f ← file_;
  let max_size := if real_file_size f <? io_size f then real_file_size f else io_size f in
  let max_size := if negb (o_zone_range o =? 0) then o_zone_range o else max_size in
  let max_size := if at_ddir (o_ba o) ddir <? at_ddir (o_min_bs o) ddir
                  then u64 (max_size - u32 (at_ddir (o_min_bs o) ddir - at_ddir (o_ba o) ddir)) else max_size in
  guard_ub (negb (at_ddir (o_ba o) ddir =? 0));;
  mret (max_size / at_ddir (o_ba o) ddir).

(** The functions that return 0 and store a block return it; no value stands for 1.  A double
    that is no 64 bit number cannot be converted. *)
Definition __get_next_rand_offset (o : thread_options) (lastb : Z) : M gen (option Z) :=
  b ← (if tausworthe (o_random_generator o) then
         s ← get_st;
         let (r, rs) := __rand (random_state s) in
         modify (set_random_state rs);;
         let v := rand_scaled (rand_width rs) lastb r in
         guard_ub (v <? 2 ^ 64);;
         mret (Some v)
       else
         f ← file_;
         match lfsr f with
         | None => exit_ 134
         | Some l => '(l, off) ← lift_ub (lfsr_next l); on_file (with_lfsr l);; mret off
         end);
  match b with
  | None => mret None
  | Some b =>
      f ← file_;
      match file_randommap o f with
      | None => mret (Some b)
      | Some m =>
          free ← lift_ub (random_map_free m b);
          if (free : bool) then mret (Some b) else
          '(m, b) ← lift_ub (axmap_next_free m b);
          on_file (with_axmap m);;
          mret (if b =? NONE64 then None else Some b)
      end
  end.

Definition __get_next_rand_offset_zoned (o : thread_options) (ddir : fio_ddir) : M gen (option Z) :=
  lastb ← last_block o ddir;
  if lastb =? 0 then mret None else
  if at_ddir (o_zone_split_nr o) ddir =? 0 then __get_next_rand_offset o lastb else
  s ← get_st;
  match rand32_between (zone_state s) 1 100 with
  | None => exit_ 134
  | Some (v, rs) =>
      modify (set_zone_state rs);;
      zsi ← lift_ub (at_ddir (zone_state_index o) ddir !! Z.to_nat (v - 1));
      let stotal := size_perc_prev zsi in
      let send := size_perc zsi in
      if send =? 2 ^ 32 - 1 then __get_next_rand_offset o lastb else
      let offset := if negb (stotal =? 0) then u64 (stotal * lastb) / 100 else 0 in
      r ← __get_next_rand_offset o (u64 (lastb * u32 (send - stotal)) / 100);
      mret (match r with
            | None => None
            | Some b => Some (if negb (offset =? 0) then u64 (b + offset) else b)
            end)
  end.

Definition flist_cmp (offs : gmap Z Z) (a b : Z) : Z :=
  s32_of (u64 (default 0 (offs !! a) - default 0 (offs !! b))).

Definition should_sort_io (o : thread_options) : bool :=
  if (o_verifysort_nr o =? 0) || negb (o_do_verify o) then false else
  if negb (o_random o) then false else
  if negb (td_verifying o) then false else
  if tausworthe (o_random_generator o) then false else true.

Definition should_do_random (o : thread_options) (ddir : fio_ddir) : M gen bool :=
  if at_ddir (o_perc_rand o) ddir =? 100 then mret true else
  s ← get_st;
  match rand32_between (at_ddir (seq_rand_state s) ddir) 1 100 with
  | None => exit_ 134
  | Some (v, rs) => modify (set_seq_rand_state ddir rs);; mret (v <=? at_ddir (o_perc_rand o) ddir)
  end.

Definition fio_file_reset (o : thread_options) : M gen unit :=
  on_file (fun f => mkFile (file_offset f) (real_file_size f) (io_size f)
                      (mkPer (file_offset f) (file_offset f) (file_offset f)) (mkPer NONE64 NONE64 NONE64)
                      (io_axmap f) (lfsr f) (type_file f));;
  f ← file_;
  match io_axmap f, lfsr f with
  | Some m, _ => on_file (with_axmap (axmap_reset m))
  | None, Some l => on_file (with_lfsr (lfsr_reset l (rand_seed_block_off o)).1)
  | None, None => mret tt
  end.

Section Random.
(** The distributions computed in floating point with [pow] and [log] of the C library:
    zipf_next, pareto_next and gauss_next. *)
Context (float_next : rand_dist -> M gen Z).
(** The address of [td->next_rand_list], and [malloc] of a [struct rand_off]. *)
Context (next_rand_list : Z) (malloc : gmap Z flist_head -> Z).

Definition get_off_from_method (o : thread_options) (ddir : fio_ddir) : M gen (option Z) :=
  match o_random_distribution o with
  | FIO_RAND_DIST_RANDOM =>
      lastb ← last_block o ddir;
      if lastb =? 0 then mret None else __get_next_rand_offset o lastb
  | FIO_RAND_DIST_ZONED => __get_next_rand_offset_zoned o ddir
  | d => b ← float_next d; mret (Some b)
  end.

Definition free_rand_off (r : Z) : M gen unit :=
  modify (fun s => set_rand_list (delete r (rand_links s)) (delete r (rand_offs s)) s).

(** The loop over [i < verifysort_nr]; the result is [i] and whether [ret] is 0. *)
Fixpoint rand_batch (o : thread_options) (ddir : fio_ddir) (n : nat) (i : Z) (ok : bool) : M gen (Z * bool) :=
  match n with
  | O => mret (i, ok)
  | S n' =>
      s ← get_st;
      let r := malloc (rand_links s) in
      modify (fun s => set_rand_list (<[r := mkFl 0 0]> (rand_links s)) (rand_offs s) s);;
      off ← get_off_from_method o ddir;
      match off with
      | None => free_rand_off r;; mret (i, false)
      | Some off =>
          modify (fun s => set_rand_list (rand_links s) (<[r := off]> (rand_offs s)) s);;
          on_links (flist_add r next_rand_list);;
          rand_batch o ddir n' (i + 1) true
      end
  end.

Definition fetch_rand_off : M gen (option Z) :=
  r ← on_links (flist_first_entry next_rand_list);
  on_links (flist_del r);;
  s ← get_st;
  b ← lift_ub (rand_offs s !! r);
  free_rand_off r;;
  mret (Some b).

Definition get_next_rand_offset (o : thread_options) (ddir : fio_ddir) : M gen (option Z) :=
  if negb (should_sort_io o) then get_off_from_method o ddir else
  e ← on_links (flist_empty next_rand_list);
  if negb e then fetch_rand_off else
  '(i, ok) ← rand_batch o ddir (Z.to_nat (o_verifysort_nr o)) 0 false;
  if negb ok && (i =? 0) then mret None else
  e ← on_links (flist_empty next_rand_list);
  assert_g (negb e);;
  s ← get_st;
  on_links (flist_sort (flist_cmp (rand_offs s)) next_rand_list);;
  fetch_rand_off.

Definition get_next_rand_block (o : thread_options) (ddir : fio_ddir) : M gen (option Z) :=
  b ← get_next_rand_offset o ddir;
  match b with
  | Some b => mret (Some b)
  | None =>
      if o_time_based o || o_nonuniform o then fio_file_reset o;; get_next_rand_offset o ddir
      else mret None
  end.

Definition td_min_bs (o : thread_options) : Z :=
  Z.min (per_trim (o_min_bs o)) (Z.min (per_read (o_min_bs o)) (per_write (o_min_bs o))).

Definition get_start_offset (o : thread_options) (f : fio_file) : M gen Z :=
  if o_file_append o && type_file f then mret (real_file_size f) else
  if 0 <? o_start_offset_percent o then
    let align_bs := if o_ba_set o then Z.min (per_trim (o_ba o)) (Z.min (per_read (o_ba o)) (per_write (o_ba o)))
                    else td_min_bs o in
    let offset := u64 (u64 (real_file_size f * o_start_offset_percent o) / 100 + u64 (subjob_number o * o_offset_increment o)) in
    guard_ub (negb (align_bs =? 0));;
    mret (u64 (u64 (offset / align_bs + (if negb (offset mod align_bs =? 0) then 1 else 0)) * align_bs))
  else mret (u64 (o_start_offset o + u64 (subjob_number o * o_offset_increment o))).

(** The smaller of the size of the file and of the I/O to it. *)
Definition file_end (f : fio_file) : Z := if io_size f <? real_file_size f then io_size f else real_file_size f.

Definition get_next_seq_offset (o : thread_options) (ddir : fio_ddir) : M gen (option Z) :=
  f ← file_;
  start ← get_start_offset o f;
  (if (u64 (io_size f + start) <=? at_ddir (last_pos f) ddir) && o_time_based o then
     guard_ub (negb (at_ddir (o_min_bs o) ddir =? 0));;
     let size := u64 (io_size f + io_size f mod at_ddir (o_min_bs o) ddir) in
     on_file (with_last_pos ddir (if at_ddir (last_pos f) ddir <? size then 0 else u64 (at_ddir (last_pos f) ddir - size)))
   else mret tt);;
  f ← file_;
  if at_ddir (last_pos f) ddir <? real_file_size f then
    (if (at_ddir (last_pos f) ddir =? file_offset f) && (o_ddir_seq_add o <? 0)
     then on_file (with_last_pos ddir (file_end f)) else mret tt);;
    f ← file_;
    let pos := u64 (at_ddir (last_pos f) ddir - file_offset f) in
    mret (Some
      (if negb (pos =? 0) && negb (o_ddir_seq_add o =? 0) then
         let pos := u64 (pos + o_ddir_seq_add o) in
         if real_file_size f <=? pos then
           if 0 <? o_ddir_seq_add o then file_offset f else u64 (file_end f + o_ddir_seq_add o)
         else pos
       else pos))
  else mret None.

Definition set_busy_ok (u : io_u) : io_u := mkIou (u_ddir u) (u_offset u) (u_buflen u) true.
Definition with_offset (v : Z) (u : io_u) : io_u := mkIou (u_ddir u) v (u_buflen u) (u_busy_ok u).

(** The first part of [get_next_block]: whether [ret] is 0, [b], [offset], the unit and [is_random]. *)
Definition choose_block (o : thread_options) (u : io_u) (ddir : fio_ddir) (rw_seq : bool) :
    M gen (bool * Z * Z * io_u * bool) :=
  let rand u is_random :=
    r ← get_next_rand_block o ddir;
    mret (match r with Some b => (true, b, NONE64, u, is_random) | None => (false, NONE64, NONE64, u, is_random) end) in
  let seq_or u is_random (otherwise : M gen (bool * Z * Z * io_u * bool)) :=
    r ← get_next_seq_offset o ddir;
    match r with Some offset => mret (true, NONE64, offset, u, is_random) | None => otherwise end in
  if rw_seq then
    if o_random o then
      random ← should_do_random o ddir;
      if (random : bool) then rand u true else seq_or (set_busy_ok u) false (rand (set_busy_ok u) false)
    else seq_or u false (mret (false, NONE64, NONE64, u, false))
  else
    let u := set_busy_ok u in
    match o_rw_seq o with
    | RW_SEQ_SEQ => seq_or u false (rand u false)
    | RW_SEQ_IDENT =>
        f ← file_;
        mret (true, NONE64, (if negb (at_ddir (last_start f) ddir =? NONE64) then u64 (at_ddir (last_start f) ddir - file_offset f) else 0),
              u, false)
    end.

(** Whether [ret] is 0, with the unit and [is_random]. *)
Definition get_next_block (o : thread_options) (u : io_u) (ddir : fio_ddir) (rw_seq : bool) : M gen (bool * io_u * bool) :=
  '(ok, b, offset, u, is_random) ← choose_block o u ddir rw_seq;
  mret (if negb ok then (false, u, is_random)
        else if negb (offset =? NONE64) then (true, with_offset offset u, is_random)
        else if negb (b =? NONE64) then (true, with_offset (u64 (b * at_ddir (o_ba o) ddir)) u, is_random)
        else (false, u, is_random)).

Definition __get_next_offset (o : thread_options) (u : io_u) (ddir : fio_ddir) : M gen (bool * io_u * bool) :=
  s ← get_st;
  hit ← (if negb (o_ddir_seq_nr o =? 0) then
           let n := u32 (td_ddir_seq_nr s - 1) in
           if n =? 0 then modify (set_ddir_seq_nr (o_ddir_seq_nr o));; mret true
           else modify (set_ddir_seq_nr n);; mret false
         else mret false);
  '(ok, u, is_random) ← get_next_block o u ddir hit;
  if negb ok then mret (false, u, is_random) else
  f ← file_;
  if io_size f <=? u_offset u then mret (false, u, is_random) else
  let u := with_offset (u64 (u_offset u + file_offset f)) u in
  mret (negb (real_file_size f <=? u_offset u), u, is_random).

(** * Lengths *)

Definition io_u_fits (o : thread_options) (u : io_u) (buflen : Z) : M gen bool :=
  f ← file_;
  start ← get_start_offset o f;
  mret (u64 (u_offset u + buflen) <=? u64 (io_size f + start)).

Definition is_power_of_2 (val : Z) : bool := negb (val =? 0) && (Z.land val (val - 1) =? 0).

(** The loop over the sizes of a [bssplit]: the size it stops at. *)
Fixpoint bssplit_pick (o : thread_options) (u : io_u) (r frand_max : Z) (l : list (Z * Z)) (buflen perc : Z) : M gen Z :=
  match l with
  | [] => mret buflen
  | (bs, p) :: l' =>
      let perc := perc + p in
      if perc =? 0 then mret bs else
      fits_ ← io_u_fits o u bs;
      if (r / perc <=? frand_max / 100) && fits_ then mret bs
      else bssplit_pick o u r frand_max l' bs perc
  end.

(** One round of the loop of [__get_next_buflen]. *)
Definition buflen_round (o : thread_options) (u : io_u) (ddir : fio_ddir) (minbs maxbs : Z) : M gen Z :=
  s ← get_st;
  let (r, rs) := __rand (at_ddir (bsrange_state s) ddir) in
  modify (set_bsrange_state ddir rs);;
  buflen ← (match at_ddir (o_bssplit o) ddir with
            | [] =>
                let buflen := u32 (1 + u32 (rand_scaled (rand_width rs) maxbs r)) in
                mret (if buflen <? minbs then minbs else buflen)
            | l => bssplit_pick o u r (rand_max rs) l 0 0
            end);
  if negb (o_bs_unaligned o) then
    if is_power_of_2 minbs then mret (Z.land buflen (u32 (Z.lnot (minbs - 1))))
    else guard_ub (negb (minbs =? 0));; mret (buflen - buflen mod minbs)
  else mret buflen.

Fixpoint buflen_loop (fuel : nat) (o : thread_options) (u : io_u) (ddir : fio_ddir) (minbs maxbs : Z) : M gen Z :=
  match fuel with
  | O => fun s => Diverge s
  | S fuel' =>
      buflen ← buflen_round o u ddir minbs maxbs;
      fits_ ← io_u_fits o u buflen;
      if (fits_ : bool) then mret buflen else buflen_loop fuel' o u ddir minbs maxbs
  end.

Definition __get_next_buflen (fuel : nat) (o : thread_options) (u : io_u) (ddir : fio_ddir) (is_random : bool) : M gen Z :=
  let ddir := if o_bs_is_seq_rand o then (if is_random then DDIR_WRITE else DDIR_READ) else ddir in
  let minbs := at_ddir (o_min_bs o) ddir in
  let maxbs := at_ddir (o_max_bs o) ddir in
  if minbs =? maxbs then mret minbs else
  fits_ ← io_u_fits o u minbs;
  if negb fits_ then mret 0 else buflen_loop fuel o u ddir minbs maxbs.

(** * The unit *)

Definition add_zone_bytes (n : Z) : M gen unit :=
  modify (fun s => set_zone_bytes (u64 (zone_bytes s + n)) (io_skip_bytes s) s).

(** See if it is time to switch to a new zone. *)
Definition zone_switch (o : thread_options) (ddir : fio_ddir) : M gen unit :=
  s ← get_st;
  if (o_zone_size o <=? zone_bytes s) && negb (o_zone_skip o =? 0) then
    modify (set_zone_bytes 0 (io_skip_bytes s));;
    on_file (fun f => with_file_offset (u64 (file_offset f + u64 (o_zone_range o + o_zone_skip o))) f);;
    on_file (fun f => if real_file_size f <=? file_offset f then with_file_offset (u64 (real_file_size f - file_offset f)) f else f);;
    on_file (fun f => with_last_pos ddir (file_offset f) f);;
    modify (fun s => set_zone_bytes (zone_bytes s) (u64 (io_skip_bytes s + o_zone_skip o)) s)
  else mret tt.

(** [fill_io_u] of a unit whose direction set_rw_ddir has chosen; the result says whether it
    returns 0. *)
Definition fill_io_u (fuel : nat) (o : thread_options) (u : io_u) : M gen (bool * io_u) :=
  match (if td_noio o then None else u_ddir u) with
  | None => add_zone_bytes (u_buflen u);; mret (true, u)
  | Some ddir =>
      zone_switch o ddir;;
      '(ok, u, is_random) ← __get_next_offset o u ddir;
      if negb ok then mret (false, u) else
      buflen ← __get_next_buflen fuel o u ddir is_random;
      let u := mkIou (u_ddir u) (u_offset u) buflen (u_busy_ok u) in
      if buflen =? 0 then mret (false, u) else
      f ← file_;
      if real_file_size f <? u64 (u_offset u + u_buflen u) then mret (false, u) else
      u ← (match file_randommap o f with
           | Some _ => if o_random o then mark_random_map o u else mret u
           | None => mret u
           end);
      add_zone_bytes (u_buflen u);;
      mret (true, u)
  end.

(** What [get_io_u] records of a unit it has filled. *)
Definition note_position (u : io_u) : M gen unit :=
  match u_ddir u with
  | Some ddir =>
      on_file (with_last_start ddir (u_offset u));;
      on_file (with_last_pos ddir (u64 (u_offset u + u_buflen u)))
  | None => mret tt
  end.

End Random.

(** * Setting up the random maps *)

Definition with_generator (g : rand_gen) (o : thread_options) : thread_options :=
  mkTo (o_random o) g (o_random_distribution o) (o_norandommap o) (o_rw_min_bs o) (o_min_bs o) (o_max_bs o) (o_ba o)
    (o_ba_set o) (o_bssplit o) (o_bs_unaligned o) (o_bs_is_seq_rand o) (o_time_based o) (o_nonuniform o) (o_zone_range o)
    (o_zone_size o) (o_zone_skip o) (o_zone_split_nr o) (zone_state_index o) (o_verifysort_nr o) (o_do_verify o)
    (td_verifying o) (o_perc_rand o) (o_ddir_seq_nr o) (o_ddir_seq_add o) (o_rw_seq o) (o_file_append o) (o_start_offset o)
    (o_start_offset_percent o) (o_offset_increment o) (subjob_number o) (rand_seed_block_off o) (td_noio o).

(** [gen_set] is [fio_option_is_set(&td->o, random_generator)]; the function always returns 0. *)
Definition check_rand_gen_limits (gen_set : bool) (blocks : Z) (o : thread_options) : thread_options :=
  if blocks <=? 2 ^ 32 - 1 then o else
  match o_random_generator o with
  | FIO_RAND_GEN_TAUSWORTHE => if negb gen_set then with_generator FIO_RAND_GEN_TAUSWORTHE64 o else o
  | _ => o
  end.

(** The memory of a file is cleared when it is added to the job. *)
Definition no_lfsr : fio_lfsr := mkLfsr 0 0 0 0 0 0 0 0.

(** One round of the loop of [init_random_map]: whether it goes on, and the file.  Allocation
    succeeds. *)
Definition init_file_map (softrandommap : bool) (o : thread_options) (blocks : Z) (f : fio_file) : option (bool * fio_file) :=
  match o_random_generator o with
  | FIO_RAND_GEN_LFSR =>
      '(l, ret) ← lfsr_init no_lfsr blocks (rand_seed_block_off o) 0;
      if ret =? 0 then Some (true, with_lfsr l f) else Some (softrandommap, f)
  | _ => if negb (o_norandommap o) then Some (true, with_axmap (axmap_new blocks) f) else Some (true, f)
  end.

(** The files of the job in order; the result is what the function returns.  No value stands for
    undefined behaviour. *)
Fixpoint init_files (gen_set softrandommap : bool) (o : thread_options) (fs : list fio_file) :
    option (Z * thread_options * list fio_file) :=
  match fs with
  | [] => Some (0, o, [])
  | f :: fs' =>
      if o_rw_min_bs o =? 0 then None else
      let blocks := file_end f / o_rw_min_bs o in
      let o := check_rand_gen_limits gen_set blocks o in
      '(go, f) ← init_file_map softrandommap o blocks f;
      if negb go then Some (1, o, f :: fs') else
      '(ret, o, fs') ← init_files gen_set softrandommap o fs';
      Some (ret, o, f :: fs')
  end.

Definition init_random_map (gen_set softrandommap : bool) (o : thread_options) (fs : list fio_file) :
    option (Z * thread_options * list fio_file) :=
  match o_random_distribution o with
  | FIO_RAND_DIST_RANDOM => if negb (o_random o) then Some (0, o, fs) else init_files gen_set softrandommap o fs
  | _ => Some (0, o, fs)
  end.
