(* ===== verification/IouMap.v ===== *)
(** Random jobs of fio that keep a map of the blocks they have touched, or draw them from a shift
    register, go through the blocks of a file without repetition: the offsets of io_u.c over the
    bitmap of axmap.c and the register of lfsr.c, as init_random_map of filesetup.c sets them up. *)
From S2P Require Import Prelude Blocks Pattern Rand RandFloat Axmap AxmapSpec Lfsr LfsrSpec Flist FlistSort IouOffset.

(** * Jobs *)

Section Job.
Context (float_next : rand_dist -> M gen Z) (next_rand_list : Z) (malloc : gmap Z flist_head -> Z).
Context (fuel : nat) (o : thread_options) (d : fio_ddir).

(** A unit for the direction [d] is filled and its position noted: its offset and length. *)
Definition next_io : M gen (option (Z * Z)) :=
  '(ok, u) ← fill_io_u float_next next_rand_list malloc fuel o (mkIou (Some d) 0 0 false);
  if negb ok then mret None else note_position u;; mret (Some (u_offset u, u_buflen u)).

(** Up to [k] units, as long as there are any. *)
Fixpoint io_run (k : nat) : M gen (list (Z * Z)) :=
  match k with
  | O => mret []
  | S k' =>
      r ← next_io;
      match r with None => mret [] | Some x => l ← io_run k'; mret (x :: l) end
  end.


(** A random job of blocks of one size: [bs] is every block size and the alignment of the job. *)
Record block_job (bs : Z) : Prop := {
  bj_io : td_noio o = false;
  bj_random : o_random o = true;
  bj_dist : o_random_distribution o = FIO_RAND_DIST_RANDOM;
  bj_bs : 0 < bs < 2 ^ 32;
  bj_rw_min : o_rw_min_bs o = bs;
  bj_min : at_ddir (o_min_bs o) d = bs;
  bj_max : at_ddir (o_max_bs o) d = bs;
  bj_ba : at_ddir (o_ba o) d = bs;
  bj_seq_rand : o_bs_is_seq_rand o = false;
  bj_zone : o_zone_skip o = 0 /\ o_zone_range o = 0;
  bj_perc : at_ddir (o_perc_rand o) d = 100;
  bj_seq_nr : o_ddir_seq_nr o = 1
}.

(** A file of [n] blocks, from its offset on. *)
Record block_file (bs n : Z) (f : fio_file) : Prop := {
  bf_blocks : n = file_end f / bs;
  bf_some : 1 <= n;
  bf_offset : 0 <= file_offset f;
  bf_room : file_offset f + n * bs <= real_file_size f;
  bf_size : real_file_size f < 2 ^ 64 /\ io_size f < 2 ^ 64
}.

(** The sizes of the file do not change. *)
Definition same_sizes (f f' : fio_file) : Prop :=
  file_offset f' = file_offset f /\ real_file_size f' = real_file_size f /\ io_size f' = io_size f.

Lemma block_file_same bs n f f' : same_sizes f f' -> block_file bs n f -> block_file bs n f'.
Proof. intros (E1 & E2 & E3) [? ? ? ? ?]. constructor; unfold file_end in *; rewrite ?E1, ?E2, ?E3; done. Qed.

Context (bs n : Z) (HJ : block_job bs).

Lemma file_bounds f : block_file bs n f -> n * bs <= real_file_size f /\ n * bs <= io_size f /\ n * bs < 2 ^ 64.
Proof.
  intros [E ? ? ? ?]. pose proof (bj_bs _ HJ). unfold file_end in E.
  assert (n * bs <= file_end f) by (unfold file_end; rewrite E, Z.mul_comm; apply Z.mul_div_le; lia).
  unfold file_end in *. destruct (Z.ltb_spec (io_size f) (real_file_size f)); lia.
Qed.

Lemma last_block_run s : block_file bs n (the_file s) -> last_block o d s = Ret n s.
Proof.
  intros HF. pose proof (bj_bs _ HJ). unfold last_block, file_. munfold. rewrite (proj2 (bj_zone _ HJ)), (bj_ba _ HJ), (bj_min _ HJ).
  cbn [negb Z.eqb]. rewrite Z.ltb_irrefl. destruct (Z.eqb_spec bs 0); [lia|]. cbn [negb]. f_equal.
  rewrite (bf_blocks _ _ _ HF). unfold file_end. f_equal.
  destruct (Z.ltb_spec (real_file_size (the_file s)) (io_size (the_file s))), (Z.ltb_spec (io_size (the_file s)) (real_file_size (the_file s))); lia.
Qed.

(** What marking the block [b] does to the map of the file, if there is one. *)
Definition marked (b : Z) (s s' : gen) : Prop :=
  match file_randommap o (the_file s) with
  | Some m => exists m', axmap_set_nr m b 1 = Some (m', 1) /\ s' = set_file (with_axmap m' (the_file s)) s
  | None => s' = s
  end.

(** The state after a unit for the block at [off]. *)
Definition noted (off : Z) (s : gen) : gen :=
  set_file (with_last_pos d (u64 (off + bs)) (with_last_start d off (the_file s)))
    (set_zone_bytes (u64 (zone_bytes s + bs)) (io_skip_bytes s) s).

Lemma random_choice s : should_do_random o d s = Ret true s.
Proof. unfold should_do_random. by rewrite (bj_perc _ HJ). Qed.

Lemma hit_run s (k : bool -> M gen (bool * io_u * bool)) :
  td_ddir_seq_nr s = 1 ->
  (hit ← (if negb (o_ddir_seq_nr o =? 0) then
            let m := u32 (td_ddir_seq_nr s - 1) in
            if m =? 0 then modify (set_ddir_seq_nr (o_ddir_seq_nr o));; mret true
            else modify (set_ddir_seq_nr m);; mret false
          else mret false); k hit) s = k true s.
Proof. intros E. rewrite (bj_seq_nr _ HJ), E. destruct s. cbn in E. by subst. Qed.

(** The offset of a unit whose block [get_next_rand_block] has chosen. *)
Lemma next_offset_run s u r s1 :
  td_ddir_seq_nr s = 1 -> get_next_rand_block float_next next_rand_list malloc o d s = Ret r s1 ->
  block_file bs n (the_file s1) -> match r with Some b => 0 <= b < n | None => True end ->
  __get_next_offset float_next next_rand_list malloc o u d s =
    match r with
    | Some b => Ret (true, with_offset (file_offset (the_file s1) + b * bs) u, true) s1
    | None => Ret (false, u, true) s1
    end.
Proof.
  intros E Hr HF Hb. pose proof (bj_bs _ HJ). pose proof (file_bounds _ HF). pose proof HF as [_ ? ? ? ?].
  unfold __get_next_offset, get_st. unfold mbind at 1, M_bind at 1. rewrite hit_run by done.
  unfold get_next_block, choose_block. rewrite (bj_random _ HJ). munfold. rewrite random_choice. unfold mbind, M_bind. rewrite Hr.
  destruct r as [b|]; [|done]. unfold NONE64 at 1. cbn [negb Z.eqb Pos.eqb].
  assert (0 <= b * bs < n * bs) by nia.
  rewrite Z.eqb_refl. cbn [negb]. rewrite (proj2 (Z.eqb_neq b NONE64)) by (unfold NONE64; nia). cbn [negb].
  unfold file_. rewrite (bj_ba _ HJ), (u64_small (b * bs)) by (unfold fits; lia). cbn [u_offset with_offset].
  rewrite (proj2 (Z.leb_gt _ _)) by lia. rewrite u64_small by (unfold fits; lia). rewrite (Z.add_comm (b * bs)).
  rewrite (proj2 (Z.leb_gt _ _)) by lia. done.
Qed.

Lemma buflen_run s u is_random : __get_next_buflen fuel o u d is_random s = Ret bs s.
Proof. unfold __get_next_buflen. rewrite (bj_seq_rand _ HJ), (bj_min _ HJ), (bj_max _ HJ), Z.eqb_refl. done. Qed.

Lemma zone_run s : zone_switch o d s = Ret tt s.
Proof. unfold zone_switch. munfold. rewrite (proj1 (bj_zone _ HJ)). by rewrite andb_false_r. Qed.

Lemma mark_run b s s2 m :
  block_file bs n (the_file s) -> 0 <= b < n -> file_randommap o (the_file s) = Some m -> marked b s s2 ->
  mark_random_map o (mkIou (Some d) (file_offset (the_file s) + b * bs) bs false) s =
    Ret (mkIou (Some d) (file_offset (the_file s) + b * bs) bs false) s2.
Proof.
  intros HF Hb Em Hm. pose proof (bj_bs _ HJ). pose proof (file_bounds _ HF). pose proof HF as [_ ? ? ? ?].
  unfold marked in Hm. rewrite Em in Hm. destruct Hm as (m' & Hset & ->).
  assert (io_axmap (the_file s) = Some m) as Ea by (unfold file_randommap in Em; by destruct (o_norandommap o)).
  assert (0 <= b * bs < n * bs) by nia.
  unfold mark_random_map, file_. munfold. rewrite (bj_rw_min _ HJ). cbn [u_offset u_buflen u_busy_ok negb u_ddir].
  destruct (Z.eqb_spec bs 0); [lia|]. cbn [negb]. rewrite Ea. cbn [lift_ub].
  replace (file_offset (the_file s) + b * bs - file_offset (the_file s)) with (b * bs) by lia.
  rewrite (u64_small (b * bs)) by (unfold fits; lia). rewrite Z.div_mul by lia.
  assert (u32 (u64 (u64 (bs + bs) - 1) / bs) = 1) as ->.
  { rewrite !u64_small by (rewrite ?u64_small; unfold fits; lia).
    replace ((bs + bs - 1) / bs) with 1 by (apply (Z.div_unique _ _ _ (bs - 1)); lia). done. }
  unfold lift_ub. munfold. rewrite Hset. unfold on_file. munfold. rewrite Z.mul_1_l, (u32_small bs) by (unfold fits; lia).
  by rewrite Z.ltb_irrefl.
Qed.

Lemma next_io_run s r s1 :
  td_ddir_seq_nr s = 1 -> get_next_rand_block float_next next_rand_list malloc o d s = Ret r s1 ->
  block_file bs n (the_file s1) ->
  match r with
  | Some b => forall s2, 0 <= b < n -> marked b s1 s2 ->
      next_io s = Ret (Some (file_offset (the_file s1) + b * bs, bs)) (noted (file_offset (the_file s1) + b * bs) s2)
  | None => next_io s = Ret None s1
  end.
Proof.
  intros E Hr HF. pose proof (bj_bs _ HJ). pose proof (file_bounds _ HF). pose proof HF as [_ ? ? ? ?].
  pose proof (next_offset_run s (mkIou (Some d) 0 0 false) r s1 E Hr HF) as Ho.
  unfold next_io, fill_io_u. rewrite (bj_io _ HJ). cbn [u_ddir]. destruct r as [b|].
  - intros s2 Hb Hm. specialize (Ho Hb). assert (0 <= b * bs < n * bs) by nia. unfold mbind, M_bind. rewrite zone_run, Ho. cbn [negb].
    rewrite buflen_run. cbn [u_ddir u_offset u_busy_ok with_offset u_buflen].
    rewrite (proj2 (Z.eqb_neq bs 0)) by lia. unfold file_. rewrite (u64_small (_ + bs)) by (unfold fits; nia).
    rewrite (proj2 (Z.ltb_ge _ _)) by nia.
    assert ((match file_randommap o (the_file s1) with
             | Some _ => if o_random o then mark_random_map o (mkIou (Some d) (file_offset (the_file s1) + b * bs) bs false)
                         else mret (mkIou (Some d) (file_offset (the_file s1) + b * bs) bs false)
             | None => mret (mkIou (Some d) (file_offset (the_file s1) + b * bs) bs false) end) s1 =
            Ret (mkIou (Some d) (file_offset (the_file s1) + b * bs) bs false) s2) as ->.
    { destruct (file_randommap o (the_file s1)) as [m|] eqn:Em.
      - rewrite (bj_random _ HJ). by apply (mark_run b s1 s2 m).
      - unfold marked in Hm. rewrite Em in Hm. by subst. }
    done.
  - specialize (Ho I). unfold mbind, M_bind. by rewrite zone_run, Ho.
Qed.

(** ** With a map *)

Definition full (X : gset Z) : Prop := forall c, 0 <= c < n -> c ∈ X.

(** A state of the job on the file [f0] whose map holds [X]. *)
Record map_state (f0 : fio_file) (X : gset Z) (s : gen) : Prop := {
  ms_seq : td_ddir_seq_nr s = 1;
  ms_file : same_sizes f0 (the_file s);
  ms_rand : exists g, random_state s = state32 g;
  ms_map : exists m, io_axmap (the_file s) = Some m /\ represents n m X
}.

Context (Hgen : tausworthe (o_random_generator o) = true) (Hmap : o_norandommap o = false) (Hn : n <= MAX_BITS).
Context (f0 : fio_file) (HF : block_file bs n f0).

Lemma ms_block X s : map_state f0 X s -> block_file bs n (the_file s).
Proof. intros H. by apply (block_file_same bs n f0); [apply H|]. Qed.

Lemma rand_offset_map X s : map_state f0 X s ->
  exists r s1, __get_next_rand_offset o n s = Ret r s1 /\ map_state f0 X s1 /\
    match r with Some b => 0 <= b < n /\ b ∉ X | None => full X end.
Proof.
  intros [E1 E2 [g Eg] (m & Em & HR)]. pose proof (bf_some _ _ _ HF). unfold MAX_BITS in Hn.
  unfold __get_next_rand_offset. rewrite Hgen. munfold. unfold file_, on_file, modify. rewrite Eg. cbn [__rand].
  pose proof (rand32_fits g) as Hr. destruct (__rand32 g) as [r g'] eqn:Er. cbn [fst] in Hr. cbn [rand_width].
  pose proof (scaled_below n r ltac:(lia) Hr) as Hv. set (v := rand_scaled 32 n r) in *.
  rewrite (proj2 (Z.ltb_lt v (2 ^ 64))) by lia. cbn [set_random_state the_file]. unfold file_randommap. rewrite Hmap, Em.
  unfold random_map_free, lift_ub. munfold.
  destruct (exec_sim n m X (OIsset v) HR Hv) as (m1 & a & Ei & _ & Ha). cbn [exec] in Ei.
  destruct (axmap_isset m v) as [b|] eqn:Eb; [|done]. injection Ei as <- <-. cbn [answer] in Ha. cbn [fmap option_fmap option_map].
  assert (b = bool_decide (v ∈ X)) as -> by (by destruct b, (bool_decide (v ∈ X))).
  destruct (bool_decide_reflect (v ∈ X)) as [Hin|Hout]; cbn [negb].
  - destruct (exec_sim n m X (ONext v) HR Hv) as (m2 & a2 & En & HR2 & Ha2). cbn [exec effect answer] in En, HR2, Ha2. rewrite En.
    eexists _, _. split; [reflexivity|]. split.
    { constructor; cbn; [done | done | by eexists | by eexists]. }
    destruct Ha2 as [[Ha2 Hx]|[-> Hall]]; [|done]. rewrite (proj2 (Z.eqb_neq _ _)) by (unfold NONE64; lia). done.
  - eexists _, _. split; [reflexivity|]. split; [|done]. constructor; cbn; [done | done | by eexists | by eexists].
Qed.

Definition restarts : bool := o_time_based o || o_nonuniform o.

Lemma reset_map X s : map_state f0 X s -> exists s1, fio_file_reset o s = Ret tt s1 /\ map_state f0 ∅ s1.
Proof.
  intros [E1 E2 [g Eg] (m & Em & HR)]. unfold fio_file_reset, on_file, file_. munfold. cbn [the_file set_file io_axmap lfsr].
  rewrite Em. eexists. split; [reflexivity|].
  destruct (exec_sim n m X OReset HR I) as (m1 & a & Er & HR1 & _). injection Er as <- _.
  constructor; cbn; [done | done | by eexists | by eexists].
Qed.

Lemma not_sorted : should_sort_io o = false.
Proof. unfold should_sort_io. rewrite Hgen. by destruct (_ || _), (negb (o_random o)), (negb (td_verifying o)). Qed.

Lemma next_rand_map X s : map_state f0 X s ->
  exists r s1, get_next_rand_offset float_next next_rand_list malloc o d s = Ret r s1 /\ map_state f0 X s1 /\
    match r with Some b => 0 <= b < n /\ b ∉ X | None => full X end.
Proof.
  intros HS. destruct (rand_offset_map X s HS) as (r & s1 & E & HS1 & Hr). exists r, s1. split; [|done].
  unfold get_next_rand_offset. rewrite not_sorted. cbn [negb]. unfold get_off_from_method. rewrite (bj_dist _ HJ).
  erewrite bind_Ret by (apply last_block_run; by apply (ms_block X)).
  pose proof (bf_some _ _ _ HF). by rewrite (proj2 (Z.eqb_neq n 0)) by lia.
Qed.

Lemma rand_block_map X s : map_state f0 X s ->
  exists r s1 X1, get_next_rand_block float_next next_rand_list malloc o d s = Ret r s1 /\ map_state f0 X1 s1 /\
    (X1 = X \/ full X /\ restarts = true /\ X1 = ∅) /\
    match r with Some b => 0 <= b < n /\ b ∉ X1 | None => full X /\ restarts = false end.
Proof.
  intros HS. destruct (next_rand_map X s HS) as (r & s1 & E & HS1 & Hr). unfold get_next_rand_block.
  erewrite bind_Ret by exact E. destruct r as [b|].
  { exists (Some b), s1, X. split; [done|]. split; [done|]. split; [by left | done]. }
  fold restarts. destruct restarts eqn:Er.
  - destruct (reset_map X s1 HS1) as (s2 & E2 & HS2). erewrite bind_Ret by exact E2.
    destruct (next_rand_map ∅ s2 HS2) as (r & s3 & E3 & HS3 & Hr3). rewrite E3. exists r, s3, ∅.
    split; [done|]. split; [done|]. split; [by right|]. destruct r as [b|]; [done|].
    pose proof (bf_some _ _ _ HF). specialize (Hr3 0 ltac:(lia)). set_solver.
  - exists None, s1, X. split; [done|]. split; [done|]. split; [by left | done].
Qed.

(** One unit: a block that the map does not hold yet, or the end. *)
Lemma next_io_map X s : map_state f0 X s ->
  (exists b s1 X1, 0 <= b < n /\ (b ∉ X1) /\ (X1 = X \/ full X /\ restarts = true /\ X1 = ∅) /\
     next_io s = Ret (Some (file_offset f0 + b * bs, bs)) s1 /\ map_state f0 ({[b]} ∪ X1) s1) \/
  (exists s1, full X /\ restarts = false /\ next_io s = Ret None s1 /\ map_state f0 X s1).
Proof.
  intros HS. destruct (rand_block_map X s HS) as (r & s1 & X1 & E & HS1 & HX & Hr).
  pose proof (next_io_run s r s1 (ms_seq _ _ _ HS) E (ms_block _ _ HS1)) as Hio. destruct HS1 as [F1 F2 F3 (m & Fm & HR)].
  rewrite (proj1 F2) in Hio. destruct r as [b|].
  - left. destruct Hr as [Hb Hx].
    destruct (exec_sim n m X1 (OSetNr b 1) HR) as (m1 & a & Es & HR1 & Ha).
    { split; [lia|]. cbn. set_solver. }
    cbn [exec effect answer] in Es, HR1, Ha. subst a.
    eexists b, _, X1. split; [done|]. split; [done|]. split; [done|]. split.
    + apply (Hio (set_file (with_axmap m1 (the_file s1)) s1)); [done|]. unfold marked, file_randommap. rewrite Hmap, Fm. by exists m1.
    + constructor; cbn; [done | done | done|]. exists m1. split; [done|].
      replace ({[b]} ∪ X1) with (list_to_set (seqZ b 1) ∪ X1 : gset Z) by (cbn; set_solver). done.
  - right. exists s1. destruct Hr as [H1 H2]. split; [done|]. split; [done|]. split; [done|].
    destruct HX as [->|(_ & Hr & _)]; [constructor; [done | done | done | by exists m] | congruence].
Qed.

(** ** Passes *)

(** The blocks that are left. *)
Definition left_of (X : gset Z) (l : list Z) : Prop := NoDup l /\ forall c, c ∈ l <-> 0 <= c < n /\ c ∉ X.

Lemma left_all : left_of ∅ (seqZ 0 n).
Proof. split; [apply NoDup_seqZ|]. intros c. rewrite elem_of_seqZ. set_solver by lia. Qed.

Lemma left_take X l b : left_of X l -> 0 <= b < n -> b ∉ X -> exists l', l ≡ₚ b :: l' /\ left_of ({[b]} ∪ X) l'.
Proof.
  intros [ND Hl] Hb Hx. destruct (proj1 (elem_of_Permutation l b)) as [l' Hp]; [by apply Hl|]. exists l'. split; [done|].
  rewrite Hp in ND. apply NoDup_cons in ND as [Hb' ND]. split; [done|]. intros c. rewrite elem_of_union, elem_of_singleton.
  split.
  - intros Hc. assert (c ∈ l) as [H1 H2]%Hl by (rewrite Hp; by right). split; [done|]. intros [->|?]; done.
  - intros [Hc Hx']. assert (c ∈ l) as Hc' by (apply Hl; tauto). rewrite Hp in Hc'. apply elem_of_cons in Hc' as [->|?]; tauto.
Qed.

Definition block_off (b : Z) : Z * Z := (file_offset f0 + b * bs, bs).

(** The rest of a pass: every block that is left, once. *)
Lemma rest_of_pass X l s : map_state f0 X s -> left_of X l ->
  exists l' s', io_run (length l) s = Ret (block_off <$> l') s' /\ l' ≡ₚ l /\ exists X', full X' /\ map_state f0 X' s'.
Proof.
  remember (length l) as k eqn:Ek. revert X l s Ek. induction k as [|k IH]; intros X l s Ek HS HL.
  - destruct l; [|done]. exists [], s. split; [done|]. split; [done|]. exists X. split; [|done]. intros c Hc.
    destruct (decide (c ∈ X)) as [|Hx]; [done|]. destruct HL as [_ HL]. by destruct (not_elem_of_nil c (proj2 (HL c) (conj Hc Hx))).
  - assert (~ full X) as Hnf.
    { intros Hfull. destruct l as [|c l]; [done|]. destruct HL as [_ HL]. destruct (proj1 (HL c) ltac:(left)) as [Hc Hx]. by apply Hx, Hfull. }
    destruct (next_io_map X s HS) as [(b & s1 & X1 & Hb & Hx & [->|[? _]] & E & HS1)|(? & ? & _)]; try done.
    destruct (left_take X l b HL Hb Hx) as (l1 & Hp & HL1).
    destruct (IH ({[b]} ∪ X) l1 s1) as (l' & s' & Er & Hp' & HX); [rewrite Hp in Ek; by injection Ek | done | done|].
    exists (b :: l'), s'. split; [|split; [by rewrite Hp, Hp' | done]].
    cbn [io_run]. erewrite bind_Ret by exact E. cbv beta iota. by erewrite bind_Ret by exact Er.
Qed.

(** A pass from a map that is full, for a job that restarts, or empty. *)
Lemma whole_pass X s : map_state f0 X s -> X = ∅ \/ full X /\ restarts = true ->
  exists l s', io_run (Z.to_nat n) s = Ret (block_off <$> l) s' /\ l ≡ₚ seqZ 0 n /\ exists X', full X' /\ map_state f0 X' s'.
Proof.
  intros HS HX. pose proof (bf_some _ _ _ HF).
  destruct (next_io_map X s HS) as [(b & s1 & X1 & Hb & Hx & HX1 & E & HS1)|(? & Hfull & Hr & _)].
  - assert (X1 = ∅) as -> by (destruct HX1 as [->|(? & ? & ?)], HX as [?|[? ?]]; try done; by destruct Hx; apply H0).
    destruct (left_take ∅ (seqZ 0 n) b left_all Hb Hx) as (l1 & Hp & HL1).
    destruct (rest_of_pass _ l1 s1 HS1 HL1) as (l' & s' & Er & Hp' & HX').
    exists (b :: l'), s'. split; [|split; [by rewrite Hp, Hp' | done]].
    assert (Z.to_nat n = S (length l1)) as -> by (rewrite <- (length_seqZ 0 n), Hp; done).
    cbn [io_run]. erewrite bind_Ret by exact E. cbv beta iota. by erewrite bind_Ret by exact Er.
  - destruct HX as [->|[_ ?]]; [|congruence]. specialize (Hfull 0 ltac:(lia)). set_solver.
Qed.

(** [k] passes over the file, each a run of its own. *)
Fixpoint passes (k : nat) : M gen (list (list (Z * Z))) :=
  match k with
  | O => mret []
  | S k' => l ← io_run (Z.to_nat n); ls ← passes k'; mret (l :: ls)
  end.

Lemma passes_run k : forall X s, restarts = true -> map_state f0 X s -> X = ∅ \/ full X ->
  exists ls s', passes k s = Ret ls s' /\ length ls = k /\ Forall (fun l => l ≡ₚ block_off <$> seqZ 0 n) ls.
Proof.
  induction k as [|k IH]; intros X s Hr HS HX; [by exists [], s|].
  destruct (whole_pass X s HS) as (l & s1 & E & Hp & X1 & HX1 & HS1); [tauto|].
  destruct (IH X1 s1 Hr HS1 (or_intror HX1)) as (ls & s2 & E2 & Hlen & HF2). exists ((block_off <$> l) :: ls), s2.
  split; [|split; [by cbn; rewrite Hlen | constructor; [by rewrite Hp | done]]].
  cbn [passes]. erewrite bind_Ret by exact E. by erewrite bind_Ret by exact E2.
Qed.

End Job.

(** ** With a shift register *)

Section Register.
Context (float_next : rand_dist -> M gen Z) (next_rand_list : Z) (malloc : gmap Z flist_head -> Z).
Context (fuel : nat) (o : thread_options) (d : fio_ddir) (bs n : Z) (HJ : block_job o d bs).
Context (Hgen : o_random_generator o = FIO_RAND_GEN_LFSR) (Hsort : should_sort_io o = false).
Context (f0 : fio_file) (HF : block_file bs n f0).

(** A state of the job whose file has the register [fl] and no map. *)
Record lfsr_state (fl : fio_lfsr) (s : gen) : Prop := {
  ls_seq : td_ddir_seq_nr s = 1;
  ls_file : same_sizes f0 (the_file s);
  ls_nomap : io_axmap (the_file s) = None;
  ls_lfsr : lfsr (the_file s) = Some fl
}.

Lemma ls_block fl s : lfsr_state fl s -> block_file bs n (the_file s).
Proof. intros H. by apply (block_file_same bs n f0); [apply H|]. Qed.

Lemma off_method_lfsr fl s fl' r : lfsr_state fl s -> lfsr_next fl = Some (fl', r) ->
  get_off_from_method float_next o d s = Ret r (set_file (with_lfsr fl' (the_file s)) s).
Proof.
  intros HS Hl. pose proof HS as [E1 E2 E3 E4]. unfold get_off_from_method. rewrite (bj_dist _ _ _ HJ).
  erewrite bind_Ret by (apply (last_block_run _ _ bs n HJ); by apply (ls_block fl)).
  pose proof (bf_some _ _ _ HF). rewrite (proj2 (Z.eqb_neq n 0)) by lia.
  unfold __get_next_rand_offset. rewrite Hgen. munfold. cbn [tausworthe]. unfold file_, lift_ub, on_file. munfold. rewrite E4, Hl.
  destruct r as [b|]; [|done]. unfold file_randommap. cbn. rewrite E3. by destruct (o_norandommap o).
Qed.

Lemma next_rand_lfsr fl s fl' r : lfsr_state fl s -> lfsr_next fl = Some (fl', r) ->
  exists s1, get_next_rand_offset float_next next_rand_list malloc o d s = Ret r s1 /\ lfsr_state fl' s1.
Proof.
  intros HS Hl. exists (set_file (with_lfsr fl' (the_file s)) s). split; [|destruct HS; by constructor].
  unfold get_next_rand_offset. rewrite Hsort. cbn [negb]. by apply (off_method_lfsr fl).
Qed.

Lemma rand_block_lfsr fl s fl' r : lfsr_state fl s -> lfsr_next fl = Some (fl', r) -> r <> None \/ restarts o = false ->
  exists s1, get_next_rand_block float_next next_rand_list malloc o d s = Ret r s1 /\ lfsr_state fl' s1.
Proof.
  intros HS Hl Hr. destruct (next_rand_lfsr fl s fl' r HS Hl) as (s1 & E & HS1). exists s1. split; [|done].
  unfold get_next_rand_block. erewrite bind_Ret by exact E. destruct r as [b|]; [done|]. fold (restarts o).
  destruct Hr as [?| ->]; done.
Qed.

Lemma next_io_lfsr fl s fl' r : lfsr_state fl s -> lfsr_next fl = Some (fl', r) ->
  match r with
  | Some b => 0 <= b < n -> exists s1, next_io float_next next_rand_list malloc fuel o d s = Ret (Some (block_off bs f0 b)) s1 /\ lfsr_state fl' s1
  | None => restarts o = false -> exists s1, next_io float_next next_rand_list malloc fuel o d s = Ret None s1
  end.
Proof.
  intros HS Hl. destruct r as [b|].
  - intros Hb. destruct (rand_block_lfsr fl s fl' (Some b) HS Hl ltac:(by left)) as (s1 & E & HS1).
    pose proof (next_io_run float_next next_rand_list malloc fuel o d bs n HJ s (Some b) s1 (ls_seq _ _ HS) E (ls_block _ _ HS1) s1 Hb) as Hio.
    destruct HS1 as [F1 F2 F3 F4]. rewrite (proj1 F2) in Hio. eexists. split; [apply Hio|].
    + unfold marked, file_randommap. rewrite F3. by destruct (o_norandommap o).
    + by constructor.
  - intros Hr. destruct (rand_block_lfsr fl s fl' None HS Hl ltac:(by right)) as (s1 & E & HS1).
    pose proof (next_io_run float_next next_rand_list malloc fuel o d bs n HJ s None s1 (ls_seq _ _ HS) E (ls_block _ _ HS1)) as Hio.
    exists s1. exact Hio.
Qed.

(** A run of the register is a run of the job. *)
Lemma io_run_lfsr m : forall fl s fl' l, lfsr_state fl s -> lfsr_calls m fl = Some (fl', l) -> Forall (fun b => 0 <= b < n) l ->
  exists s', io_run float_next next_rand_list malloc fuel o d m s = Ret (block_off bs f0 <$> l) s' /\ lfsr_state fl' s'.
Proof.
  induction m as [|m IH]; intros fl s fl' l HS; cbn [lfsr_calls].
  - intros [= <- <-] _. by exists s.
  - destruct (lfsr_next fl) as [[fl1 [b|]]|] eqn:El; try done.
    destruct (lfsr_calls m fl1) as [[fl2 l2]|] eqn:E2; cbn; [|done]. intros [= <- <-] [Hb Hl]%Forall_cons.
    destruct (next_io_lfsr fl s fl1 (Some b) HS El Hb) as (s1 & E & HS1). destruct (IH fl1 s1 fl2 l2 HS1 E2 Hl) as (s2 & Er & HS2).
    exists s2. split; [|done]. cbn [io_run]. erewrite bind_Ret by exact E. cbv beta iota. by erewrite bind_Ret by exact Er.
Qed.

Lemma enumerated_pass fl s : lfsr_state fl s -> enumerates n fl ->
  exists l s' fl', io_run float_next next_rand_list malloc fuel o d (Z.to_nat n) s = Ret (block_off bs f0 <$> l) s' /\ l ≡ₚ seqZ 0 n /\
    lfsr_state fl' s' /\ lfsr_calls (Z.to_nat n) fl = Some (fl', l) /\ exists fl2, lfsr_next fl' = Some (fl2, None).
Proof.
  intros HS (fl1 & l & fl2 & Hc & Hp & Hl). destruct (io_run_lfsr (Z.to_nat n) fl s fl1 l HS Hc) as (s' & E & HS').
  { apply Forall_forall. intros b Hb. rewrite Hp in Hb. apply elem_of_seqZ in Hb. lia. }
  exists l, s', fl1. repeat (split; [done|]). by exists fl2.
Qed.

(** The first unit after the end of a run, for a job that starts over: as after [lfsr_reset]. *)
Lemma restart_lfsr fl s fl' : lfsr_state fl s -> lfsr_next fl = Some (fl', None) -> restarts o = true ->
  exists s1, lfsr_state (lfsr_reset fl' (rand_seed_block_off o)).1 s1 /\
    get_next_rand_block float_next next_rand_list malloc o d s = get_next_rand_offset float_next next_rand_list malloc o d s1.
Proof.
  intros HS Hl Hr. destruct (next_rand_lfsr fl s fl' None HS Hl) as (s1 & E & [F1 F2 F3 F4]).
  unfold get_next_rand_block. erewrite bind_Ret by exact E. fold (restarts o). rewrite Hr.
  unfold fio_file_reset, on_file, file_. munfold. cbn [the_file set_file io_axmap lfsr]. rewrite F3, F4.
  eexists. split; [|reflexivity]. by constructor.
Qed.

Lemma restarted_pass fl s fl' : lfsr_state fl s -> lfsr_next fl = Some (fl', None) -> restarts o = true ->
  enumerates n (lfsr_reset fl' (rand_seed_block_off o)).1 ->
  exists l s' fl2, io_run float_next next_rand_list malloc fuel o d (Z.to_nat n) s = Ret (block_off bs f0 <$> l) s' /\ l ≡ₚ seqZ 0 n /\
    lfsr_state fl2 s' /\ lfsr_calls (Z.to_nat n) (lfsr_reset fl' (rand_seed_block_off o)).1 = Some (fl2, l) /\ exists fl3, lfsr_next fl2 = Some (fl3, None).
Proof.
  intros HS Hl Hr He. destruct (restart_lfsr fl s fl' HS Hl Hr) as (s1 & HS1 & Eb). set (fr := (lfsr_reset fl' _).1) in *.
  destruct (enumerated_pass fr s1 HS1 He) as (l & s' & fl2 & E & Hp & HS' & Hc & Hn). exists l, s', fl2. split; [|done]. rewrite <- E.
  pose proof (bf_some _ _ _ HF). destruct (Z.to_nat n) as [|k] eqn:Ek; [lia|]. cbn [io_run lfsr_calls] in *.
  destruct (lfsr_next fr) as [[fl3 [b|]]|] eqn:Er; try done. destruct (lfsr_calls k fl3) as [[? l']|] eqn:Ec; cbn in Hc; [|done].
  injection Hc as _ <-. assert (0 <= b < n) as Hb by (assert (b ∈ seqZ 0 n) as ?%elem_of_seqZ by (rewrite <- Hp; left); lia).
  destruct (rand_block_lfsr fr s1 fl3 (Some b) HS1 Er ltac:(by left)) as (s2 & E2 & HS2).
  assert (get_next_rand_block float_next next_rand_list malloc o d s = Ret (Some b) s2) as E3.
  { rewrite Eb. destruct (next_rand_lfsr fr s1 fl3 (Some b) HS1 Er) as (s3 & E4 & _). rewrite E4.
    unfold get_next_rand_block in E2. erewrite bind_Ret in E2 by exact E4. by injection E2 as <-. }
  assert (marked o b s2 s2) as Hm.
  { unfold marked, file_randommap. rewrite (ls_nomap _ _ HS2). by destruct (o_norandommap o). }
  pose proof (next_io_run float_next next_rand_list malloc fuel o d bs n HJ s (Some b) s2 (ls_seq _ _ HS) E3 (ls_block _ _ HS2) s2 Hb Hm) as I1.
  pose proof (next_io_run float_next next_rand_list malloc fuel o d bs n HJ s1 (Some b) s2 (ls_seq _ _ HS1) E2 (ls_block _ _ HS2) s2 Hb Hm) as I2.
  erewrite !bind_Ret by eassumption. done.
Qed.

Lemma plain_end w fl fl' : plain w n fl -> lfsr_next fl = Some (fl', None) -> plain w n fl'.
Proof.
  intros Hp. unfold lfsr_next. cbv zeta. destruct (_ <? _); [by intros [= <-]|]. by destruct (next_loop _ _).
Qed.

Lemma lfsr_passes w k : 3 <= w <= 48 -> n < 2 ^ w -> rand_seed_block_off o mod 2 ^ w <> 2 ^ w - 1 -> restarts o = true ->
  forall fl s, plain w n fl -> lfsr_state fl s -> enumerates n fl \/ (exists fl2, lfsr_next fl = Some (fl2, None)) ->
  exists ls s', passes float_next next_rand_list malloc fuel o d n k s = Ret ls s' /\ length ls = k /\
    Forall (fun l => l ≡ₚ block_off bs f0 <$> seqZ 0 n) ls.
Proof.
  intros Hw Hlt Hseed Hr. induction k as [|k IH]; intros fl s Hp HS He; [by exists [], s|]. pose proof (bf_some _ _ _ HF).
  assert (exists l s' fl', io_run float_next next_rand_list malloc fuel o d (Z.to_nat n) s = Ret (block_off bs f0 <$> l) s' /\
    l ≡ₚ seqZ 0 n /\ lfsr_state fl' s' /\ plain w n fl' /\ exists fl2, lfsr_next fl' = Some (fl2, None)) as (l & s1 & fl1 & E & Hl & HS1 & Hp1 & Hn1).
  { destruct He as [He|[fl2 Hn]].
    - destruct (enumerated_pass fl s HS He) as (l & s' & fl' & E & Hl & HS' & Hc & Hn'). exists l, s', fl'.
      repeat (split; [done|]). split; [by apply (plain_calls w n (Z.to_nat n) fl _ l) | done].
    - destruct (plain_reset w n fl2 (rand_seed_block_off o) Hw ltac:(lia) (plain_end _ _ _ Hp Hn)) as [_ Hre].
      destruct (Hre Hseed) as [Hp2 He2].
      destruct (restarted_pass fl s fl2 HS Hn Hr He2) as (l & s' & fl' & E & Hl & HS' & Hc & Hn'). exists l, s', fl'.
      repeat (split; [done|]). split; [by apply (plain_calls w n _ _ _ l) in Hc | done]. }
  destruct (IH fl1 s1 Hp1 HS1 (or_intror Hn1)) as (ls & s2 & E2 & Hlen & HF2). exists ((block_off bs f0 <$> l) :: ls), s2.
  split; [|split; [by cbn; rewrite Hlen | constructor; [by rewrite Hl | done]]].
  cbn [passes]. erewrite bind_Ret by exact E. by erewrite bind_Ret by exact E2.
Qed.

End Register.

(** ** Set-up *)

(** [init_random_map] may change the generator of the options, and nothing else. *)
Lemma limits_generator gen_set blocks o :
  exists g, check_rand_gen_limits gen_set blocks o = with_generator g o /\ (tausworthe (o_random_generator o) = true -> tausworthe g = true).
Proof.
  unfold check_rand_gen_limits. assert (o = with_generator (o_random_generator o) o) as E by by destruct o.
  destruct (blocks <=? 2 ^ 32 - 1); [by eexists|]. destruct (o_random_generator o) eqn:Eg; try (exists (o_random_generator o); by rewrite Eg in *).
  destruct gen_set; [exists (o_random_generator o); by rewrite Eg in * | by exists FIO_RAND_GEN_TAUSWORTHE64].
Qed.

Lemma block_job_generator g o d bs : block_job o d bs -> block_job (with_generator g o) d bs.
Proof. intros []. by constructor. Qed.

Lemma map_state_new n f s m g :
  the_file s = with_axmap m f -> td_ddir_seq_nr s = 1 -> random_state s = state32 g -> represents n m ∅ ->
  map_state n f ∅ s.
Proof. intros E1 E2 E3 HR. constructor; rewrite ?E1; [done | done | by eexists | by exists m]. Qed.

(** C19: a random job with a map of blocks goes through its file without repetition.  For every
    block size, file, seed and direction (block size and alignment the same, up to [MAX_BITS]
    blocks, the 32 bit generator, any state of it): [init_random_map] gives the file its map, and
    then [fill_io_u] returns, for as many units as the file has blocks, each block exactly once,
    with the whole block size.  After that a job that is neither time based nor serves its files
    nonuniformly gets no unit; another starts over, and every further pass has every block exactly
    once again. *)
Theorem random_map_covers float_next next_rand_list malloc fuel gen_set softrandommap o d bs n f :
  block_job o d bs -> tausworthe (o_random_generator o) = true -> o_norandommap o = false ->
  block_file bs n f -> n <= MAX_BITS ->
  exists o1 f1, init_random_map gen_set softrandommap o [f] = Some (0, o1, [f1]) /\
    forall s, the_file s = f1 -> td_ddir_seq_nr s = 1 -> (exists g, random_state s = state32 g) ->
    let blocks := (fun b => (file_offset f + b * bs, bs)) <$> seqZ 0 n in
    if restarts o then
      forall k, exists ls s', passes float_next next_rand_list malloc fuel o1 d n k s = Ret ls s' /\ length ls = k /\
        Forall (fun l => l ≡ₚ blocks) ls
    else
      exists l s' s'', io_run float_next next_rand_list malloc fuel o1 d (Z.to_nat n) s = Ret l s' /\ l ≡ₚ blocks /\
        next_io float_next next_rand_list malloc fuel o1 d s' = Ret None s''.
Proof.
  intros HJ Hg Hm HF Hn. pose proof (bj_bs _ _ _ HJ) as Hbs. destruct (limits_generator gen_set n o) as (g & Eo & Hg').
  specialize (Hg' Hg). exists (with_generator g o), (with_axmap (axmap_new n) f). split.
  { unfold init_random_map. rewrite (bj_dist _ _ _ HJ), (bj_random _ _ _ HJ). cbn [negb init_files].
    rewrite (bj_rw_min _ _ _ HJ), (proj2 (Z.eqb_neq bs 0)), <- (bf_blocks _ _ _ HF), Eo by lia. unfold init_file_map.
    cbn [with_generator o_random_generator o_norandommap]. rewrite Hm. by destruct g. }
  intros s Es Eq [gs Er] blocks. pose proof (bf_some _ _ _ HF).
  assert (map_state n f ∅ s) as HS by (apply (map_state_new n f s (axmap_new n) gs); [done | done | done | apply new_represents; lia]).
  pose proof (block_job_generator g o d bs HJ) as HJ1. change (restarts o) with (restarts (with_generator g o)).
  destruct (restarts (with_generator g o)) eqn:Ere.
  - intros k. by apply (passes_run _ _ _ _ _ _ bs n HJ1 Hg' Hm Hn f HF k ∅ s Ere HS); left.
  - destruct (whole_pass float_next next_rand_list malloc fuel _ _ bs n HJ1 Hg' Hm Hn f HF ∅ s HS) as (l & s1 & E & Hp & X1 & HX1 & HS1); [by left|].
    destruct (next_io_map float_next next_rand_list malloc fuel _ _ bs n HJ1 Hg' Hm Hn f HF X1 s1 HS1)
      as [(b & s2 & X2 & Hb & Hx & [->|(_ & ? & _)] & _)|(s2 & _ & _ & E2 & _)]; [by destruct Hx; apply HX1 | congruence|].
    eexists _, s1, s2. split; [exact E|]. split; [|done]. by rewrite Hp.
Qed.

Lemma init_map_lfsr gen_set softrandommap o d bs n f :
  block_job o d bs -> o_random_generator o = FIO_RAND_GEN_LFSR -> block_file bs n f ->
  forall r, lfsr_init no_lfsr n (rand_seed_block_off o) 0 = Some r ->
    init_random_map gen_set softrandommap o [f] =
      if r.2 =? 0 then Some (0, o, [with_lfsr r.1 f]) else Some (if softrandommap then 0 else 1, o, [f]).
Proof.
  intros HJ Hg HF [l0 r] E. pose proof (bj_bs _ _ _ HJ). unfold init_random_map. rewrite (bj_dist _ _ _ HJ), (bj_random _ _ _ HJ).
  cbn [negb init_files]. rewrite (bj_rw_min _ _ _ HJ), (proj2 (Z.eqb_neq bs 0)), <- (bf_blocks _ _ _ HF) by lia.
  unfold check_rand_gen_limits. rewrite Hg. assert ((if n <=? 2 ^ 32 - 1 then o else o) = o) as -> by by destruct (_ <=? _).
  unfold init_file_map. rewrite Hg, E. cbn. by destruct (r =? 0), softrandommap.
Qed.

(** A random job with the shift register goes through its file without repetition.  For every
    block size, file and direction (block size and alignment the same, up to [2^48] blocks) and
    every seed: [init_random_map] fails, or with softrandommap leaves the file without a register,
    exactly when the seed fills the register with ones; otherwise [fill_io_u] returns, for as many
    units as the file has blocks, each block exactly once, and then none, or, for a job that is
    time based or serves its files nonuniformly, pass after pass with every block exactly once. *)
Theorem lfsr_job_covers float_next next_rand_list malloc fuel gen_set softrandommap o d bs n f :
  block_job o d bs -> o_random_generator o = FIO_RAND_GEN_LFSR -> should_sort_io o = false ->
  block_file bs n f -> io_axmap f = None -> n < 2 ^ 48 ->
  exists w, 3 <= w <= 48 /\ n < 2 ^ w /\
    if decide (rand_seed_block_off o mod 2 ^ w = 2 ^ w - 1) then
      init_random_map gen_set softrandommap o [f] = Some (if softrandommap then 0 else 1, o, [f])
    else exists f1, init_random_map gen_set softrandommap o [f] = Some (0, o, [f1]) /\
      forall s, the_file s = f1 -> td_ddir_seq_nr s = 1 ->
      let blocks := (fun b => (file_offset f + b * bs, bs)) <$> seqZ 0 n in
      if restarts o then
        forall k, exists ls s', passes float_next next_rand_list malloc fuel o d n k s = Ret ls s' /\ length ls = k /\
          Forall (fun l => l ≡ₚ blocks) ls
      else
        exists l s' s'', io_run float_next next_rand_list malloc fuel o d (Z.to_nat n) s = Ret l s' /\ l ≡ₚ blocks /\
          next_io float_next next_rand_list malloc fuel o d s' = Ret None s''.
Proof.
  intros HJ Hg Hs HF Ha Hn. pose proof (bj_bs _ _ _ HJ) as Hbs. pose proof (bf_some _ _ _ HF) as Hn1.
  pose proof (init_map_lfsr gen_set softrandommap o d bs n f HJ Hg HF) as Hi.
  destruct (init_state no_lfsr n (rand_seed_block_off o) 0 ltac:(lia) ltac:(lia)) as (w & Hw & Hlt & _ & E).
  exists w. split; [done|]. split; [done|]. destruct (decide (_ mod _ = _)) as [Hbad|Hok].
  { rewrite decide_True in E by by right. destruct E as [fl0 E]. by rewrite (Hi _ E). }
  rewrite decide_False in E by (intros [?|?]; [lia | done]). eexists. split; [exact (Hi _ E)|]. cbn [fst].
  intros s Es Eq. destruct (init_plain no_lfsr n (rand_seed_block_off o) _ ltac:(lia) E) as (w' & Hw' & Hlt' & Hok' & Hp & He).
  set (fl0 := state _ _ _ _ _ _) in *.
  assert (lfsr_state f fl0 s) as HS by (constructor; rewrite ?Es; done).
  destruct (restarts o) eqn:Ere.
  - intros k. apply (lfsr_passes float_next next_rand_list malloc fuel o d bs n HJ Hg Hs f HF w' k Hw' Hlt' Hok' Ere fl0 s Hp HS). by left.
  - destruct (enumerated_pass float_next next_rand_list malloc fuel o d bs n HJ Hg Hs f HF fl0 s HS He) as (l & s1 & fl1 & Er & Hl & HS1 & _ & fl2 & Hn2).
    destruct (next_io_lfsr float_next next_rand_list malloc fuel o d bs n HJ Hg Hs f HF fl1 s1 fl2 None HS1 Hn2 Ere) as (s2 & E2).
    eexists _, s1, s2. split; [exact Er|]. split; [|done]. by rewrite Hl.
Qed.

(** Ten blocks of 512 bytes at an offset of 1024. *)
Definition demo_opts (g : rand_gen) (time_based : bool) : thread_options :=
  mkTo true g FIO_RAND_DIST_RANDOM false 512 (mkPer 512 512 512) (mkPer 512 512 512) (mkPer 512 512 512) false
    (mkPer [] [] []) false false time_based false 0 0 0 (mkPer 0 0 0) (mkPer [] [] []) 0 false false (mkPer 100 100 100) 1 0
    RW_SEQ_SEQ false 1024 0 0 0 77 false.
Definition demo_file : fio_file :=
  mkFile 1024 8192 5300 (mkPer 1024 1024 1024) (mkPer NONE64 NONE64 NONE64) None None true.
Definition demo_gen (f : fio_file) : gen :=
  mkGen (init_rand_seed 77 false) (init_rand_seed 1 false) (mkPer (init_rand_seed 1 false) (init_rand_seed 1 false) (init_rand_seed 1 false))
    (mkPer (init_rand_seed 1 false) (init_rand_seed 1 false) (init_rand_seed 1 false)) 1 0 0 ∅ ∅ f.
Definition no_float (_ : rand_dist) : M gen Z := undef.

Lemma demo_job g tb : block_job (demo_opts g tb) DDIR_WRITE 512.
Proof. by constructor. Qed.
Lemma demo_blocks : block_file 512 10 demo_file.
Proof. by constructor. Qed.

Lemma random_map_covers_witness :
  exists o1 f1, init_random_map false false (demo_opts FIO_RAND_GEN_TAUSWORTHE false) [demo_file] = Some (0, o1, [f1]) /\
    forall s, the_file s = f1 -> td_ddir_seq_nr s = 1 -> (exists g, random_state s = state32 g) ->
    let blocks := (fun b => (1024 + b * 512, 512)) <$> seqZ 0 10 in
      exists l s' s'', io_run no_float 0 (fun _ => 1) 0 o1 DDIR_WRITE (Z.to_nat 10) s = Ret l s' /\ l ≡ₚ blocks /\
        next_io no_float 0 (fun _ => 1) 0 o1 DDIR_WRITE s' = Ret None s''.
Proof.
  exact (random_map_covers no_float 0 (fun _ => 1) 0 false false (demo_opts FIO_RAND_GEN_TAUSWORTHE false) DDIR_WRITE 512 10 demo_file
           (demo_job _ _) eq_refl eq_refl demo_blocks ltac:(unfold MAX_BITS; lia)).
Defined.

(** A job, block by block. *)
Definition run_result {S A} (x : outcome S A) : option A := match x with Ret a _ => Some a | _ => None end.

Lemma demo_run :
  ('(_, o, fs) ← init_random_map false false (demo_opts FIO_RAND_GEN_TAUSWORTHE false) [demo_file];
   f ← head fs;
   l ← run_result (io_run no_float 0 (fun _ => 1) 0 o DDIR_WRITE 20 (demo_gen f));
   Some l.*1) =
  Some [2048; 5632; 3072; 1024; 4608; 1536; 5120; 2560; 3584; 4096].
Proof. by vm_compute. Qed.

Lemma lfsr_job_covers_witness :
  exists w, 3 <= w <= 48 /\ 10 < 2 ^ w /\
    if decide (77 mod 2 ^ w = 2 ^ w - 1) then
      init_random_map false false (demo_opts FIO_RAND_GEN_LFSR true) [demo_file] = Some (1, demo_opts FIO_RAND_GEN_LFSR true, [demo_file])
    else exists f1, init_random_map false false (demo_opts FIO_RAND_GEN_LFSR true) [demo_file] = Some (0, demo_opts FIO_RAND_GEN_LFSR true, [f1]) /\
      forall s, the_file s = f1 -> td_ddir_seq_nr s = 1 ->
      let blocks := (fun b => (1024 + b * 512, 512)) <$> seqZ 0 10 in
        forall k, exists ls s', passes no_float 0 (fun _ => 1) 0 (demo_opts FIO_RAND_GEN_LFSR true) DDIR_READ 10 k s = Ret ls s' /\ length ls = k /\
          Forall (fun l => l ≡ₚ blocks) ls.
Proof.
  exact (lfsr_job_covers no_float 0 (fun _ => 1) 0 false false (demo_opts FIO_RAND_GEN_LFSR true) DDIR_READ 512 10 demo_file
           ltac:(by constructor) eq_refl eq_refl demo_blocks eq_refl eq_refl).
Defined.

(** With a seed that fills the register and softrandommap, [init_random_map] goes on without a
    register; the first unit ends the process by a failed assertion. *)
Lemma lfsr_soft_aborts :
  let o := mkTo true FIO_RAND_GEN_LFSR FIO_RAND_DIST_RANDOM false 512 (mkPer 512 512 512) (mkPer 512 512 512) (mkPer 512 512 512) false
    (mkPer [] [] []) false false false false 0 0 0 (mkPer 0 0 0) (mkPer [] [] []) 0 false false (mkPer 100 100 100) 1 0
    RW_SEQ_SEQ false 1024 0 0 0 15 false in
  init_random_map false true o [demo_file] = Some (0, o, [demo_file]) /\
  exists s, next_io no_float 0 (fun _ => 1) 0 o DDIR_READ (demo_gen demo_file) = Exit 134 s.
Proof. split; [by vm_compute | eexists; vm_compute; reflexivity]. Qed.

(** The 64 bit generator: a number that rounds to [2^64] gives the block after the last one. *)
Lemma rand64_past_end s s1 lastb :
  random_state s = state64 s1 -> 2 ^ 64 - 2 ^ 10 <= fst (__rand64 s1) < 2 ^ 64 -> 0 < lastb <= 2 ^ 53 ->
  io_axmap (the_file s) = None ->
  exists s', __get_next_rand_offset (demo_opts FIO_RAND_GEN_TAUSWORTHE64 false) lastb s = Ret (Some lastb) s'.
Proof.
  intros Er Hr Hl Ea. unfold __get_next_rand_offset. cbn [tausworthe demo_opts o_random_generator]. munfold. rewrite Er. cbn [__rand].
  destruct (__rand64 s1) as [r s2]. cbn [fst] in Hr. cbn [rand_width]. rewrite (scaled_end lastb r Hl Hr).
  rewrite (proj2 (Z.ltb_lt _ _)) by lia. unfold file_, file_randommap. cbn. rewrite Ea. by eexists.
Qed.

(** With a map of 64 blocks that is a read out of bounds. *)
Lemma rand64_out_of_bounds :
  exists s, next_io no_float 0 (fun _ => 1) 0 (demo_opts FIO_RAND_GEN_TAUSWORTHE64 false) DDIR_READ
    (set_random_state (state64 (mkT258 9237644536971594674 123456789012345 987654321098765 192837465564738 564738291019283))
      (demo_gen (mkFile 0 40000 32768 (mkPer 0 0 0) (mkPer NONE64 NONE64 NONE64) (Some (axmap_new 64)) None true))) = Undef s.
Proof. eexists. vm_compute. reflexivity. Qed.
