(* ===== verification/IouSort.v ===== *)
(** The verification of a random job in batches that are sorted by offset: get_next_rand_offset of
    io_u.c with verifysort_nr, over the shift register and the list sort. *)
From Stdlib Require Import Sorted.
From S2P Require Import Prelude Blocks Pattern Rand RandFloat Axmap AxmapSpec Lfsr LfsrSpec Flist FlistSort FlistRun IouOffset IouMap.

(** [out] is the list [l], cut into pieces of [k] and each piece sorted. *)
Inductive batched (k : nat) : list Z -> list Z -> Prop :=
  | batched_nil : batched k [] []
  | batched_cons l c out :
      l <> [] -> c ≡ₚ take k l -> StronglySorted Z.le c -> batched k (drop k l) out -> batched k l (c ++ out).

Lemma batched_perm k l out : batched k l out -> out ≡ₚ l.
Proof. induction 1 as [|l c out _ Hc _ _ IH]; [done|]. by rewrite IH, Hc, take_drop. Qed.

Lemma calls_split a b : forall fl fl' l, lfsr_calls (a + b) fl = Some (fl', l) ->
  exists fl1, lfsr_calls a fl = Some (fl1, take a l) /\ lfsr_calls b fl1 = Some (fl', drop a l).
Proof.
  induction a as [|a IH]; intros fl fl' l; [cbn; by exists fl|]. cbn [lfsr_calls Nat.add].
  destruct (lfsr_next fl) as [[fl1 [v|]]|]; try done. destruct (lfsr_calls (a + b) fl1) as [[fl2 l2]|] eqn:E; cbn; [|done].
  intros [= <- <-]. destruct (IH _ _ _ E) as (fl3 & -> & E3). cbn. by exists fl3.
Qed.

Lemma calls_length m : forall fl fl' l, lfsr_calls m fl = Some (fl', l) -> length l = m.
Proof.
  induction m as [|m IH]; intros fl fl' l; cbn [lfsr_calls]; [by intros [= _ <-]|].
  destruct (lfsr_next fl) as [[fl1 [v|]]|]; try done. destruct (lfsr_calls m fl1) as [[fl2 l2]|] eqn:E; cbn; [|done].
  intros [= _ <-]. cbn. by rewrite (IH _ _ _ E).
Qed.

Lemma Forall2_mem {A B} (P Q : A -> B -> Prop) l k : Forall2 P l k -> (forall x y, x ∈ l -> P x y -> Q x y) -> Forall2 Q l k.
Proof.
  induction 1 as [|x y l k Hxy _ IH]; intros H; constructor; [apply H; [left | done] | apply IH; intros; apply H; [by right | done]].
Qed.

Section Sorted.
Context (float_next : rand_dist -> M gen Z) (next_rand_list : Z) (malloc : gmap Z flist_head -> Z).
(** [malloc] returns an address that is not in use and not NULL. *)
Context (Hmalloc : forall h, h !! malloc h = None /\ malloc h <> 0).
Context (fuel : nat) (o : thread_options) (d : fio_ddir) (bs n : Z) (HJ : block_job o d bs).
Context (Hgen : o_random_generator o = FIO_RAND_GEN_LFSR) (Hsort : should_sort_io o = true).
Context (f0 : fio_file) (HF : block_file bs n f0) (Hn : n <= 2 ^ 31).

(** The list holds the offsets [P], in order, at the addresses [A]. *)
Record holds (A P : list Z) (s : gen) : Prop := {
  hd_ring : ring (rand_links s) next_rand_list A;
  hd_offs : Forall2 (fun a b => rand_offs s !! a = Some b) A P;
  hd_null : Forall (fun a => a <> 0) A
}.

Lemma holds_file A P f s : holds A P s -> holds A P (set_file f s).
Proof. by intros []. Qed.

(** ** Taking the first *)

Lemma fetch_run A a P b s : holds (a :: A) (b :: P) s ->
  exists s', fetch_rand_off next_rand_list s = Ret (Some b) s' /\ holds A P s' /\ the_file s' = the_file s /\ td_ddir_seq_nr s' = td_ddir_seq_nr s.
Proof.
  intros [HR [Ha HP]%Forall2_cons_1 [Hz HN]%Forall_cons]. unfold fetch_rand_off, on_links, flist_first_entry. munfold.
  rewrite (next_run _ _ _ (ring_next _ _ _ HR)). cbn [List.hd]. cbn [rand_links set_rand_list rand_offs].
  destruct (flist_del_run (rand_links s) next_rand_list [] A a HR) as (h & E & HR' & Hx & Ho). rewrite E.
  cbn [rand_offs set_rand_list]. unfold lift_ub. rewrite Ha. munfold. unfold free_rand_off. munfold. eexists. split; [reflexivity|].
  pose proof (rg_nodup _ _ _ HR) as ND. apply NoDup_cons in ND as [Hh ND]. apply NoDup_cons in ND as [Hna _]. split; [|done].
  constructor; cbn; [|  |done].
  - apply (ring_frame h); [|done]. intros x Hx'. apply lookup_delete_ne. intros <-. apply elem_of_cons in Hx' as [->|?]; [set_solver | done].
  - apply (Forall2_mem _ _ _ _ HP). intros x y Hin Hxy. rewrite lookup_delete_ne; [done|]. intros <-. done.
Qed.

(** ** Filling *)

(** One [rand_off] more at the front of the list. *)
Lemma add_run A P b s : holds A P s ->
  let r := malloc (rand_links s) in
  exists h, flist_add r next_rand_list (<[r := mkFl 0 0]> (rand_links s)) = Ret tt h /\
    holds (r :: A) (b :: P) (set_rand_list h (<[r := b]> (rand_offs s)) s).
Proof.
  intros [HR HP HN] r. destruct (Hmalloc (rand_links s)) as [Hfree Hz]. fold r in Hfree, Hz.
  assert (forall x, x ∈ next_rand_list :: A -> x <> r) as Hne.
  { intros x Hx ->. destruct (ring_some _ _ _ _ HR Hx) as [? E]. by rewrite Hfree in E. }
  destruct (flist_add_run (<[r := mkFl 0 0]> (rand_links s)) next_rand_list A r) as (h & E & HR' & _).
  - apply (ring_frame (rand_links s)); [|done]. intros x Hx. rewrite lookup_insert_ne; [done|]. intros <-. by destruct (Hne r Hx).
  - by rewrite lookup_insert_eq; eexists.
  - intros Hx. by destruct (Hne r Hx).
  - exists h. split; [done|]. constructor; cbn; [done | | by constructor]. constructor; [by rewrite lookup_insert_eq|].
    apply (Forall2_mem _ _ _ _ HP). intros x y Hx Hxy. rewrite lookup_insert_ne; [done|]. intros <-. by destruct (Hne r); [right|].
Qed.

Lemma batch_run m : forall i ok fl fl' l A P s,
  lfsr_state f0 fl s -> lfsr_calls m fl = Some (fl', l) -> holds A P s ->
  exists s' A', lfsr_state f0 fl' s' /\ holds A' (rev l ++ P) s' /\
    forall k, rand_batch float_next next_rand_list malloc o d (m + k) i ok s =
      rand_batch float_next next_rand_list malloc o d k (i + Z.of_nat m) (if decide (m = 0%nat) then ok else true) s'.
Proof.
  induction m as [|m IH]; intros i ok fl fl' l A P s HS; cbn [lfsr_calls].
  - intros [= <- <-] HH. exists s, A. split; [done|]. split; [done|]. intros k. cbn. by rewrite Z.add_0_r.
  - destruct (lfsr_next fl) as [[fl1 [b|]]|] eqn:El; try done.
    destruct (lfsr_calls m fl1) as [[fl2 l2]|] eqn:E2; cbn; [|done]. intros [= <- <-] HH.
    destruct (add_run A P b s HH) as (h & Ea & HH1). set (r := malloc (rand_links s)) in *.
    set (s1 := set_file (with_lfsr fl1 (the_file s)) (set_rand_list h (<[r := b]> (rand_offs s)) s)).
    assert (lfsr_state f0 fl1 s1) as HS1 by (destruct HS; by constructor).
    destruct (IH (i + 1) true fl1 fl2 l2 (r :: A) (b :: P) s1 HS1 E2 (holds_file _ _ _ _ HH1)) as (s' & A' & HS' & HH' & Hk).
    exists s', A'. split; [done|]. split; [cbn [rev]; by rewrite <- app_assoc|]. intros k.
    replace (i + Z.of_nat (S m)) with (i + 1 + Z.of_nat m) by lia.
    transitivity (rand_batch float_next next_rand_list malloc o d (m + k) (i + 1) true s1); [|rewrite (Hk k); destruct (decide (S m = 0%nat)); [done | by destruct (decide (m = 0%nat))]].
    munfold. fold r.
    rewrite (off_method_lfsr float_next o d bs n HJ Hgen f0 HF fl _ fl1 (Some b)); [|destruct HS; by constructor | done].
    unfold on_links. munfold. cbn [rand_links rand_offs the_file set_file set_rand_list]. rewrite Ea. done.
Qed.

(** ** Sorting *)

Definition off_at (s : gen) (a : Z) : Z := default 0 (rand_offs s !! a).

Lemma cmp_diff s a b : 0 <= off_at s a < 2 ^ 31 -> 0 <= off_at s b < 2 ^ 31 -> flist_cmp (rand_offs s) a b = off_at s a - off_at s b.
Proof.
  unfold flist_cmp. fold (off_at s a) (off_at s b). generalize (off_at s a) (off_at s b). intros x y Hx Hy. unfold s32_of.
  destruct (Z.le_gt_cases y x).
  - rewrite u64_small, u32_small by (rewrite ?u64_small; unfold fits; lia). rewrite (proj2 (Z.ltb_lt _ _)) by lia. done.
  - assert (u64 (x - y) = x - y + 2 ^ 64) as -> by (unfold u64; symmetry; apply (Z.mod_unique _ _ (-1)); lia).
    assert (u32 (x - y + 2 ^ 64) = x - y + 2 ^ 32) as -> by (unfold u32; symmetry; apply (Z.mod_unique _ _ (2 ^ 32 - 1)); lia).
    rewrite (proj2 (Z.ltb_ge _ _)) by lia. lia.
Qed.

Lemma offs_map A P s : Forall2 (fun a b => rand_offs s !! a = Some b) A P <-> P = off_at s <$> A /\ Forall (fun a => is_Some (rand_offs s !! a)) A.
Proof.
  split.
  - induction 1 as [|a b A P E _ [-> HF']]; [done|]. unfold off_at at 2. rewrite !fmap_cons. unfold off_at at 1. rewrite E. split; [done|].
    constructor; [by rewrite E; eexists | done].
  - intros [-> HA]. induction HA as [|a A [b E] _ IH]; [constructor|]. rewrite fmap_cons. constructor; [|done]. unfold off_at. by rewrite E.
Qed.

Lemma sorted_map s A : Forall (fun a => 0 <= off_at s a < 2 ^ 31) A -> StronglySorted (fun a b => flist_cmp (rand_offs s) a b <= 0) A ->
  StronglySorted Z.le (off_at s <$> A).
Proof.
  intros HA. induction 1 as [|a A Hs IH Hall]; [constructor|]. apply Forall_cons in HA as [Ha HA]. rewrite fmap_cons. constructor; [by apply IH|].
  apply Forall_forall. intros y (b & -> & Hb)%list_elem_of_fmap. rewrite Forall_forall in Hall, HA. specialize (Hall b Hb). specialize (HA b Hb).
  rewrite cmp_diff in Hall by done. lia.
Qed.

Lemma sort_links A P s : holds A P s -> Forall (fun b => 0 <= b < n) P ->
  exists h A' P', on_links (flist_sort (flist_cmp (rand_offs s)) next_rand_list) s = Ret tt (set_rand_list h (rand_offs s) s) /\
    holds A' P' (set_rand_list h (rand_offs s) s) /\ P' ≡ₚ P /\ StronglySorted Z.le P'.
Proof.
  intros [HR HP HN] Hb. apply offs_map in HP as [EP Hsome].
  assert (Forall (fun a => 0 <= off_at s a < 2 ^ 31) A) as Hrng.
  { subst P. rewrite Forall_fmap in Hb. eapply Forall_impl; [exact Hb|]. cbn. intros a Ha. unfold compose in Ha. lia. }
  pose proof (proj1 (Forall_forall _ _) Hrng) as Hr. cbv beta in Hr.
  destruct (sort_run (flist_cmp (rand_offs s)) (rand_links s) next_rand_list A HR) as (h & A' & E & HR' & (Hs & Hp & _) & _).
  - by apply Forall_forall.
  - intros a b Ha Hb'. rewrite !cmp_diff by auto. lia.
  - intros a b c Ha Hb' Hc. rewrite !cmp_diff by auto. lia.
  - exists h, A', (off_at s <$> A'). split; [unfold on_links; munfold; by rewrite E|]. split.
    + constructor; [done | | by rewrite Hp]. apply offs_map. cbn. split; [done | by rewrite Hp].
    + split; [by rewrite Hp, EP|]. apply sorted_map; [by rewrite Hp | done].
Qed.

(** ** Batches *)

(** A register that has [R] left and then gives nothing, [j] times. *)
Definition spent (j : Z) (fl : fio_lfsr) : Prop := max_val fl < num_vals fl /\ num_vals fl + j < 2 ^ 64 /\ 0 <= num_vals fl.
Definition remains (R : list Z) (fl : fio_lfsr) : Prop :=
  exists fle, lfsr_calls (length R) fl = Some (fle, R) /\ spent (if decide (R = []) then 1 else 2) fle.

Lemma spent_next j fl : 1 <= j -> spent j fl -> exists fl', lfsr_next fl = Some (fl', None) /\ spent (j - 1) fl'.
Proof.
  intros Hj (H1 & H2 & H3). unfold lfsr_next. cbv zeta. cbn [set_num_vals max_val]. rewrite (proj2 (Z.ltb_lt _ _)) by done.
  eexists. split; [reflexivity|]. unfold spent. cbn. rewrite u64_small by (unfold fits; lia). lia.
Qed.

Lemma spent_weaken j j' fl : j' <= j -> spent j fl -> spent j' fl.
Proof. intros Hj (H1 & H2 & H3). repeat split; lia. Qed.

(** A batch that the register cannot fill ends with the [rand_off] of the failed call freed. *)
Lemma batch_end k i ok fl fl' A P s : lfsr_state f0 fl s -> lfsr_next fl = Some (fl', None) -> holds A P s ->
  exists s', rand_batch float_next next_rand_list malloc o d (S k) i ok s = Ret (i, false) s' /\ lfsr_state f0 fl' s' /\ holds A P s'.
Proof.
  intros HS Hl [HR HP HN]. cbn [rand_batch]. munfold.
  rewrite (off_method_lfsr float_next o d bs n HJ Hgen f0 HF fl _ fl' None); [|destruct HS; by constructor | done].
  unfold free_rand_off. munfold. eexists. split; [reflexivity|]. split; [destruct HS; by constructor|].
  destruct (Hmalloc (rand_links s)) as [Hfree _]. set (r := malloc _) in *.
  assert (forall x, x ∈ next_rand_list :: A -> x <> r) as Hne.
  { intros x Hx ->. destruct (ring_some _ _ _ _ HR Hx) as [? E]. by rewrite Hfree in E. }
  constructor; cbn; [| |done].
  - apply (ring_frame (rand_links s)); [|done]. intros x Hx. specialize (Hne x Hx). by rewrite lookup_delete_ne, lookup_insert_ne.
  - apply (Forall2_mem _ _ _ _ HP). intros x y Hx Hxy. rewrite lookup_delete_ne; [done|]. apply not_eq_sym, Hne. by right.
Qed.

Definition batch_size : nat := Z.to_nat (o_verifysort_nr o).

Lemma batch_pos : 0 <= o_verifysort_nr o -> (0 < batch_size)%nat.
Proof.
  intros H. unfold batch_size. unfold should_sort_io in Hsort. destruct (Z.eqb_spec (o_verifysort_nr o) 0); [done | lia].
Qed.

(** The batch that an empty list is filled with. *)
Lemma fill_batch R fl A s : R <> [] -> lfsr_state f0 fl s -> remains R fl -> holds A [] s -> 0 <= o_verifysort_nr o ->
  exists i ok s' A' fl', rand_batch float_next next_rand_list malloc o d batch_size 0 false s = Ret (i, ok) s' /\
    negb ok && (i =? 0) = false /\ lfsr_state f0 fl' s' /\ remains (drop batch_size R) fl' /\ holds A' (rev (take batch_size R)) s'.
Proof.
  intros HR HS (fle & Hc & Hsp) HH Hv. pose proof (batch_pos Hv) as Hk. rewrite decide_False in Hsp by done.
  destruct (Nat.le_gt_cases batch_size (length R)) as [Hle|Hgt].
  - replace (length R) with (batch_size + length (drop batch_size R))%nat in Hc by (rewrite length_drop; lia).
    destruct (calls_split _ _ _ _ _ Hc) as (fl1 & Hc1 & Hc2).
    destruct (batch_run batch_size 0 false fl fl1 _ A [] s HS Hc1 HH) as (s' & A' & HS' & HH' & Hrun). specialize (Hrun 0%nat).
    rewrite Nat.add_0_r in Hrun. rewrite Hrun, decide_False by lia. cbn [rand_batch]. rewrite app_nil_r in HH'.
    eexists _, _, s', A', fl1. split; [reflexivity|]. repeat (split; [done|]). split; [|done].
    exists fle. split; [done|]. apply (spent_weaken 2); [destruct (decide (drop batch_size R = [])); lia | done].
  - destruct (spent_next 2 fle ltac:(lia) Hsp) as (fl2 & Hn2 & Hsp2). rewrite take_ge, drop_ge by lia.
    destruct (batch_run (length R) 0 false fl fle R A [] s HS Hc HH) as (s1 & A' & HS1 & HH1 & Hrun).
    specialize (Hrun (S (batch_size - length R - 1))). replace (length R + S (batch_size - length R - 1))%nat with batch_size in Hrun by lia.
    rewrite app_nil_r in HH1.
    destruct (batch_end (batch_size - length R - 1) (0 + Z.of_nat (length R)) (if decide (length R = 0%nat) then false else true)
                fle fl2 A' (rev R) s1 HS1 Hn2 HH1) as (s2 & E2 & HS2 & HH2).
    rewrite Hrun, E2. eexists _, _, s2, A', fl2. split; [reflexivity|]. split; [|split; [done|split; [|done]]].
    + cbn. destruct R; [done|]. cbn. done.
    + exists fl2. split; [done|]. rewrite decide_True by done. done.
Qed.

(** ** Runs *)

(** The first offset of a list that is not empty. *)
Lemma next_pending A a P b s : holds (a :: A) (b :: P) s ->
  exists s', get_next_rand_block float_next next_rand_list malloc o d s = Ret (Some b) s' /\ holds A P s' /\
    the_file s' = the_file s /\ td_ddir_seq_nr s' = td_ddir_seq_nr s.
Proof.
  intros HH. destruct (fetch_run A a P b s HH) as (s' & E & HH' & Ef & Es). exists s'. split; [|done].
  unfold get_next_rand_block, get_next_rand_offset. rewrite Hsort. cbn [negb]. unfold on_links. munfold.
  rewrite (empty_run _ _ _ (hd_ring _ _ _ HH)). cbn [bool_decide decide]. rewrite bool_decide_false by done. cbn [negb].
  assert (set_rand_list (rand_links s) (rand_offs s) s = s) as -> by by destruct s. rewrite E. done.
Qed.

(** The offset when the list is empty: the first of the next batch, or nothing. *)
Lemma next_batch R fl A s : lfsr_state f0 fl s -> remains R fl -> Forall (fun b => 0 <= b < n) R -> holds A [] s -> 0 <= o_verifysort_nr o ->
  restarts o = false ->
  if decide (R = []) then exists s' fl', get_next_rand_block float_next next_rand_list malloc o d s = Ret None s' /\ lfsr_state f0 fl' s'
  else exists b c s' A' fl', get_next_rand_block float_next next_rand_list malloc o d s = Ret (Some b) s' /\
    b :: c ≡ₚ take batch_size R /\ StronglySorted Z.le (b :: c) /\ lfsr_state f0 fl' s' /\ remains (drop batch_size R) fl' /\ holds A' c s'.
Proof.
  intros HS HR Hb HH Hv Hre. assert (A = []) as -> by (destruct HH as [_ H _]; by apply Forall2_nil_inv_r in H).
  assert (set_rand_list (rand_links s) (rand_offs s) s = s) as Es by by destruct s.
  assert (forall r s', ('(i, ok) ← rand_batch float_next next_rand_list malloc o d batch_size 0 false;
     if negb ok && (i =? 0) then mret None else
     e ← on_links (flist_empty next_rand_list); assert_g (negb e);; s ← get_st;
     on_links (flist_sort (flist_cmp (rand_offs s)) next_rand_list);; fetch_rand_off next_rand_list) s = Ret r s' ->
     get_next_rand_block float_next next_rand_list malloc o d s = Ret r s') as Hblock.
  { intros r s' E. unfold get_next_rand_block. rewrite (bind_Ret _ _ s r s'); [by destruct r; [|fold (restarts o); rewrite Hre]|].
    unfold get_next_rand_offset. rewrite Hsort. cbn [negb]. erewrite bind_Ret; [|unfold on_links; munfold; by rewrite (empty_run _ _ _ (hd_ring _ _ _ HH)), Es].
    cbn [bool_decide decide]. rewrite bool_decide_true by done. exact E. }
  destruct (decide (R = [])) as [->|Hne].
  - destruct HR as (fle & [= <-] & Hsp). rewrite decide_True in Hsp by done. destruct (spent_next 1 fl ltac:(lia) Hsp) as (fl' & El & _).
    pose proof (batch_pos Hv). destruct batch_size as [|k]; [lia|].
    destruct (batch_end k 0 false fl fl' [] [] s HS El HH) as (s' & E & HS' & _). exists s', fl'. split; [|done]. apply Hblock.
    erewrite bind_Ret by exact E. done.
  - destruct (fill_batch R fl [] s Hne HS HR HH Hv) as (i & ok & s1 & A1 & fl1 & E1 & Hi & HS1 & HR1 & HH1).
    assert (Forall (fun b => 0 <= b < n) (rev (take batch_size R))) as Hb1 by (rewrite <- (Permutation_rev (take batch_size R)); by apply Forall_take).
    destruct (sort_links A1 _ s1 HH1 Hb1) as (h & A2 & P2 & E2 & HH2 & Hp2 & Hs2).
    assert (P2 ≡ₚ take batch_size R) as Hp by (by rewrite Hp2, <- Permutation_rev).
    pose proof (batch_pos Hv) as Hk. destruct P2 as [|b c].
    { apply Permutation_nil_l in Hp. symmetry in Hp. destruct R; [done|]. by destruct batch_size; [lia|]. }
    assert (exists a A', A2 = a :: A') as (a & A' & ->) by (destruct HH2 as [_ H _]; apply Forall2_cons_inv_r in H as (a & A' & _ & _ & ->); by eexists _, _).
    destruct (fetch_run A' a c b _ HH2) as (s3 & E3 & HH3 & Ef & Eq). exists b, c, s3, A', fl1. split; [|split; [done|split; [done|]]].
    + apply Hblock. erewrite bind_Ret by exact E1. cbv beta iota. rewrite Hi.
      erewrite bind_Ret; [|unfold on_links; munfold; by rewrite (empty_run _ _ _ (hd_ring _ _ _ HH1))].
      assert (set_rand_list (rand_links s1) (rand_offs s1) s1 = s1) as -> by by destruct s1.
      assert (A1 <> []) as HA by (intros ->; destruct HH1 as [_ H _]; apply Forall2_nil_inv_l in H; rewrite H in Hp2; by apply Permutation_nil_r in Hp2).
      rewrite bool_decide_false by done. cbn [negb assert_g]. munfold. rewrite E2. exact E3.
    + split; [destruct HS1 as [F1 F2 F3 F4]; constructor; rewrite ?Ef, ?Eq; done | done].
Qed.

(** The unit for a block that has been chosen; the list is not touched. *)
Lemma next_io_sorted s b s1 fl A P :
  td_ddir_seq_nr s = 1 -> get_next_rand_block float_next next_rand_list malloc o d s = Ret (Some b) s1 -> lfsr_state f0 fl s1 ->
  0 <= b < n -> holds A P s1 ->
  exists s2, next_io float_next next_rand_list malloc fuel o d s = Ret (Some (block_off bs f0 b)) s2 /\ lfsr_state f0 fl s2 /\ holds A P s2.
Proof.
  intros Eq E HS1 Hb HH.
  pose proof (next_io_run float_next next_rand_list malloc fuel o d bs n HJ s (Some b) s1 Eq E (ls_block bs n f0 HF _ _ HS1) s1 Hb) as Hio.
  destruct HS1 as [F1 F2 F3 F4]. rewrite (proj1 F2) in Hio. eexists. split; [apply Hio|].
  - unfold marked, file_randommap. rewrite F3. by destruct (o_norandommap o).
  - split; [by constructor|]. by destruct HH.
Qed.

Lemma sorted_run t : forall P R A fl s, t = (length P + length R)%nat -> lfsr_state f0 fl s -> remains R fl ->
  Forall (fun b => 0 <= b < n) P -> Forall (fun b => 0 <= b < n) R -> holds A P s -> 0 <= o_verifysort_nr o -> restarts o = false ->
  exists out s' s'', io_run float_next next_rand_list malloc fuel o d t s = Ret (block_off bs f0 <$> P ++ out) s' /\ batched batch_size R out /\
    next_io float_next next_rand_list malloc fuel o d s' = Ret None s''.
Proof.
  induction t as [|t IH]; intros P R A fl s Et HS HR HP HRr HH Hv Hre.
  - destruct P; [|done]. destruct R; [|done]. pose proof (next_batch [] fl A s HS HR HRr HH Hv Hre) as Hb. rewrite decide_True in Hb by done.
    destruct Hb as (s1 & fl1 & E & HS1). exists [], s, s1. split; [done|]. split; [constructor|].
    exact (next_io_run float_next next_rand_list malloc fuel o d bs n HJ s None s1 (ls_seq _ _ _ HS) E (ls_block bs n f0 HF _ _ HS1)).
  - destruct P as [|b P].
    + cbn [length Nat.add] in Et. pose proof (next_batch R fl A s HS HR HRr HH Hv Hre) as Hb. rewrite decide_False in Hb by (by intros ->).
      destruct Hb as (b & c & s1 & A1 & fl1 & E & Hp & Hs & HS1 & HR1 & HH1).
      assert (Forall (fun b => 0 <= b < n) (b :: c)) as [Hbr Hcr]%Forall_cons by (rewrite Hp; by apply Forall_take).
      destruct (next_io_sorted s b s1 fl1 A1 c (ls_seq _ _ _ HS) E HS1 Hbr HH1) as (s2 & E2 & HS2 & HH2).
      destruct (IH c (drop batch_size R) A1 fl1 s2) as (out & s3 & s4 & Er & Hout & Hend); try done; [|by apply Forall_drop|].
      { pose proof (Permutation_length Hp) as Hl. cbn in Hl. rewrite length_take in Hl. rewrite length_drop. lia. }
      exists ((b :: c) ++ out), s3, s4. split; [|split; [|done]].
      * cbn [io_run]. erewrite bind_Ret by exact E2. cbv beta iota. by erewrite bind_Ret by exact Er.
      * apply batched_cons; [by intros -> | done | done | done].
    + destruct A as [|a A]; [destruct HH as [_ H _]; by apply Forall2_nil_inv_l in H|].
      apply Forall_cons in HP as [Hbr HPr]. destruct (next_pending A a P b s HH) as (s1 & E & HH1 & Ef & Eq).
      assert (lfsr_state f0 fl s1) as HS1 by (destruct HS; constructor; rewrite ?Ef, ?Eq; done).
      destruct (next_io_sorted s b s1 fl A P (ls_seq _ _ _ HS) E HS1 Hbr HH1) as (s2 & E2 & HS2 & HH2).
      destruct (IH P R A fl s2) as (out & s3 & s4 & Er & Hout & Hend); try done; [cbn in Et; lia|].
      exists out, s3, s4. split; [|done]. cbn [io_run]. erewrite bind_Ret by exact E2. cbv beta iota. by erewrite bind_Ret by exact Er.
Qed.

End Sorted.

Lemma next_loop_num fuel : forall fl fl', next_loop fuel fl = Some fl' -> num_vals fl' = num_vals fl.
Proof.
  induction fuel as [|fuel IH]; intros fl fl'; [done|]. cbn [next_loop]. cbv zeta. destruct (next_step_frame fl) as (_ & E & _).
  destruct (_ <? _); [intros H; by rewrite (IH _ _ H), E | by intros [= <-]].
Qed.

Lemma calls_num m : forall fl fl' l, lfsr_calls m fl = Some (fl', l) -> 0 <= num_vals fl -> num_vals fl + Z.of_nat m < 2 ^ 64 ->
  num_vals fl' = num_vals fl + Z.of_nat m.
Proof.
  induction m as [|m IH]; intros fl fl' l; cbn [lfsr_calls]; [intros [= <- _]; lia|].
  destruct (lfsr_next fl) as [[fl1 [v|]]|] eqn:E; try done. destruct (lfsr_calls m fl1) as [[fl2 l2]|] eqn:E2; cbn; [|done].
  intros [= <- _] H0 H1. assert (num_vals fl1 = num_vals fl + 1) as E1.
  { unfold lfsr_next in E. cbv zeta in E. destruct (_ <? _); [done|]. destruct (next_loop _ _) as [fl3|] eqn:E3; [|done]. injection E as <- _.
    rewrite (next_loop_num _ _ _ E3). cbn. apply u64_small. unfold fits. lia. }
  rewrite (IH fl1 fl2 l2 E2); lia.
Qed.

(** C20: a random job that is verified in sorted batches.  For every block size, file of up to
    [2^31] blocks, direction, seed and batch size, with the shift register that [init_random_map]
    has set up and an empty list: [fill_io_u] returns, for as many units as the file has blocks,
    the blocks in the order of the register, cut into batches of verifysort_nr, each batch in
    ascending order of its offsets; so every block exactly once, and then none.  The list, its
    sorting and the memory of its entries are those of the code. *)
Theorem verify_batches_sorted float_next next_rand_list malloc fuel gen_set o d bs n f f1 s :
  (forall h, h !! malloc h = None /\ malloc h <> 0) ->
  block_job o d bs -> o_random_generator o = FIO_RAND_GEN_LFSR -> should_sort_io o = true -> 0 <= o_verifysort_nr o ->
  restarts o = false -> block_file bs n f -> io_axmap f = None -> n <= 2 ^ 31 ->
  init_random_map gen_set false o [f] = Some (0, o, [f1]) ->
  the_file s = f1 -> td_ddir_seq_nr s = 1 -> ring (rand_links s) next_rand_list [] ->
  exists fl fl' l out s' s'', lfsr f1 = Some fl /\ lfsr_calls (Z.to_nat n) fl = Some (fl', l) /\ l ≡ₚ seqZ 0 n /\
    batched (Z.to_nat (o_verifysort_nr o)) l out /\
    io_run float_next next_rand_list malloc fuel o d (Z.to_nat n) s = Ret ((fun b => (file_offset f + b * bs, bs)) <$> out) s' /\
    next_io float_next next_rand_list malloc fuel o d s' = Ret None s''.
Proof.
  intros Hm HJ Hg Hs Hv Hre HF Ha Hn Hi Es Eq HR. pose proof (bf_some _ _ _ HF) as Hn1.
  destruct (init_state no_lfsr n (rand_seed_block_off o) 0 ltac:(lia) ltac:(lia)) as (w & Hw & Hlt & _ & E).
  destruct (decide _) as [_|Hok] in E; [destruct E as [fl0 E]; by rewrite (init_map_lfsr gen_set false o d bs n f HJ Hg HF _ E) in Hi|].
  rewrite (init_map_lfsr gen_set false o d bs n f HJ Hg HF _ E) in Hi. cbn [fst snd Z.eqb] in Hi. injection Hi as <-.
  destruct (init_plain no_lfsr n (rand_seed_block_off o) _ ltac:(lia) E) as (_ & _ & _ & _ & _ & fl1 & l & fl2 & Hc & Hp & Hend).
  set (fl0 := state _ _ _ _ _ _) in *.
  assert (lfsr_state f fl0 s) as HS by (constructor; rewrite ?Es; done).
  pose proof (calls_length _ _ _ _ Hc) as Hlen.
  assert (remains l fl0) as Hrem.
  { exists fl1. rewrite Hlen. split; [done|]. apply (spent_weaken 2); [destruct (decide (l = [])); lia|].
    assert (num_vals fl1 = Z.of_nat (Z.to_nat n)) as En by (rewrite (calls_num _ _ _ _ Hc); [done | done | cbn; lia]).
    unfold lfsr_next in Hend. cbv zeta in Hend. cbn [max_val set_num_vals] in Hend. destruct (Z.ltb_spec (max_val fl1) (num_vals fl1)).
    - repeat split; lia.
    - by destruct (next_loop _ _). }
  assert (Forall (fun b => 0 <= b < n) l) as Hl.
  { rewrite Hp. apply Forall_forall. intros b ?%elem_of_seqZ. lia. }
  destruct (sorted_run float_next next_rand_list malloc Hm fuel o d bs n HJ Hg Hs f HF Hn (Z.to_nat n) [] l [] fl0 s)
    as (out & s' & s'' & Er & Hb & He); try done.
  by exists fl0, fl1, l, out, s', s''.
Qed.

(** Ten blocks in batches of four. *)
Definition sort_opts : thread_options :=
  mkTo true FIO_RAND_GEN_LFSR FIO_RAND_DIST_RANDOM false 512 (mkPer 512 512 512) (mkPer 512 512 512) (mkPer 512 512 512) false
    (mkPer [] [] []) false false false false 0 0 0 (mkPer 0 0 0) (mkPer [] [] []) 4 true true (mkPer 100 100 100) 1 0
    RW_SEQ_SEQ false 1024 0 0 0 77 false.

(** A [malloc] that takes the address after all that are in use. *)
Definition bump (h : gmap Z flist_head) : Z := 1 + foldr Z.max 0 (map_to_list h).*1.

Lemma max_bound (l : list Z) x : x ∈ l -> x <= foldr Z.max 0 l.
Proof. induction 1 as [x l|x y l _ IH]; cbn; lia. Qed.

Lemma bump_fresh h : h !! bump h = None /\ bump h <> 0.
Proof.
  assert (0 <= foldr Z.max 0 (map_to_list h).*1) as H0 by (induction (map_to_list h).*1; cbn; lia). split; [|unfold bump; lia].
  destruct (h !! bump h) as [x|] eqn:E; [|done]. apply elem_of_map_to_list in E.
  pose proof (max_bound (map_to_list h).*1 (bump h) ltac:(apply list_elem_of_fmap; by exists (bump h, x))) as Hb. unfold bump in Hb at 1. lia.
Qed.

Definition sort_file : fio_file :=
  match init_random_map false false sort_opts [demo_file] with Some (_, _, [f]) => f | _ => demo_file end.
Definition sort_gen : gen := set_rand_list {[4096 := mkFl 4096 4096]} ∅ (demo_gen sort_file).

Lemma verify_batches_sorted_witness :
  exists fl fl' l out s' s'', lfsr sort_file = Some fl /\ lfsr_calls (Z.to_nat 10) fl = Some (fl', l) /\ l ≡ₚ seqZ 0 10 /\
    batched (Z.to_nat 4) l out /\
    io_run no_float 4096 bump 0 sort_opts DDIR_READ (Z.to_nat 10) sort_gen = Ret ((fun b => (1024 + b * 512, 512)) <$> out) s' /\
    next_io no_float 4096 bump 0 sort_opts DDIR_READ s' = Ret None s''.
Proof.
  apply (verify_batches_sorted no_float 4096 bump 0 false sort_opts DDIR_READ 512 10 demo_file sort_file sort_gen);
    [apply bump_fresh | by constructor | done | done | done | done | apply demo_blocks | done | lia | by vm_compute | done | done|].
  split; [apply NoDup_singleton | by vm_compute].
Defined.

Lemma sort_demo_run :
  (fun l => (l : list (Z * Z)).*1) <$> run_result (io_run no_float 4096 bump 0 sort_opts DDIR_READ 20 sort_gen) =
  Some [2048; 2560; 3584; 5632; 1024; 1536; 3072; 5120; 4096; 4608].
Proof. by vm_compute. Qed.

(** The comparison cuts the difference of two 64 bit offsets to an int: a block that is more than
    [2^31] after another one counts as before it. *)
Lemma cmp_wraps : flist_cmp (<[1 := 2 ^ 31 + 1]> {[2 := 0]}) 1 2 < 0.
Proof. by vm_compute. Qed.
