(* ===== verification/IouZone.v ===== *)
(** Zoned random jobs of fio: the percentages of the zones (zone_split_ddir of options.c after its
    parser), the table of 100 entries they are looked up in (__td_zone_gen_index), and the offsets
    that __get_next_rand_offset_zoned of io_u.c draws with it. *)
From S2P Require Import Prelude Blocks Pattern Rand RandFloat Axmap Lfsr Flist FlistSort IouOffset.

(** * The code *)

Record zone_split : Type := mkZsp { zsp_access_perc : Z; zsp_size_perc : Z }.

(** [(uint8_t) -1U], a percentage that was not given. *)
Definition PERC_MISSING : Z := 255.

(** The loop that adds up the percentages: the sum and how many are missing. *)
Fixpoint perc_sum (l : list Z) : Z * Z :=
  match l with
  | [] => (0, 0)
  | p :: l' =>
      let (perc, missing) := perc_sum l' in
      if p =? PERC_MISSING then (perc, u32 (missing + 1)) else (u32 (perc + p), missing)
  end.

(** A percentage after the missing ones have been filled in. *)
Definition fill_perc (perc missing p : Z) : Z := if p =? PERC_MISSING then u8 (u32 (100 - perc) / missing) else p.

(** [zone_split_ddir] from the parsed zones to the sort; no value stands for 1. *)
Definition zone_split_check (zs : list zone_split) : option (list zone_split) :=
  let (perc, perc_missing) := perc_sum (zsp_access_perc <$> zs) in
  let (sperc, sperc_missing) := perc_sum (zsp_size_perc <$> zs) in
  if (100 <? perc) || (100 <? sperc) then None else
  if perc <? 100 then None else
  let perc := if (perc_missing =? 1) && (Nat.eqb (length zs) 1) then 100 else perc in
  let sperc := if (sperc_missing =? 1) && (Nat.eqb (length zs) 1) then 100 else sperc in
  Some ((fun z => mkZsp (fill_perc perc perc_missing (zsp_access_perc z)) (fill_perc sperc sperc_missing (zsp_size_perc z))) <$> zs).

(** The inner loop, from the entry [j] on. *)
Fixpoint gen_entries (n j : nat) (zsi : zone_split_index) (t : list zone_split_index) : option (list zone_split_index) :=
  match n with
  | O => Some t
  | S n' => if (j <? length t)%nat then gen_entries n' (S j) zsi (<[j := zsi]> t) else None
  end.

Fixpoint gen_zones (zs : list zone_split) (aprev sprev : Z) (t : list zone_split_index) : option (list zone_split_index) :=
  match zs with
  | [] => Some t
  | z :: zs' =>
      t ← gen_entries (Z.to_nat (zsp_access_perc z)) (Z.to_nat aprev) (mkZsi (u8 (sprev + zsp_size_perc z)) (u8 sprev)) t;
      gen_zones zs' (u32 (aprev + zsp_access_perc z)) (u32 (sprev + zsp_size_perc z)) t
  end.

(** [t] is what [malloc] of 100 entries holds; a store outside it is no value. *)
Definition __td_zone_gen_index (t : list zone_split_index) (zs : list zone_split) : option (list zone_split_index) := gen_zones zs 0 0 t.

(** * The table *)

(** Every zone has as many entries as its access percentage, each with its range. *)
Fixpoint zone_table (zs : list zone_split) (sprev : Z) : list zone_split_index :=
  match zs with
  | [] => []
  | z :: zs' =>
      replicate (Z.to_nat (zsp_access_perc z)) (mkZsi (sprev + zsp_size_perc z) sprev) ++ zone_table zs' (sprev + zsp_size_perc z)
  end.

Definition access_sum (zs : list zone_split) : Z := foldr Z.add 0 (zsp_access_perc <$> zs).
Definition size_sum (zs : list zone_split) : Z := foldr Z.add 0 (zsp_size_perc <$> zs).

(** Percentages that zone_split_ddir accepts. *)
Record zones_ok (zs : list zone_split) : Prop := {
  zo_access : Forall (fun z => 0 <= zsp_access_perc z) zs;
  zo_size : Forall (fun z => 0 <= zsp_size_perc z) zs;
  zo_all : access_sum zs = 100;
  zo_room : size_sum zs <= 100
}.

Lemma sum_nonneg l : Forall (fun x => 0 <= x) l -> 0 <= foldr Z.add 0 l.
Proof. induction 1; cbn; lia. Qed.

Lemma access_nonneg zs : Forall (fun z => 0 <= zsp_access_perc z) zs -> 0 <= access_sum zs.
Proof. intros H. apply sum_nonneg. by rewrite Forall_fmap. Qed.
Lemma size_nonneg zs : Forall (fun z => 0 <= zsp_size_perc z) zs -> 0 <= size_sum zs.
Proof. intros H. apply sum_nonneg. by rewrite Forall_fmap. Qed.

Lemma length_table zs : Forall (fun z => 0 <= zsp_access_perc z) zs -> forall sprev, Z.of_nat (length (zone_table zs sprev)) = access_sum zs.
Proof.
  induction 1 as [|z zs Hz Hzs IH]; intros sprev; [done|]. cbn [zone_table]. rewrite length_app, length_replicate, Nat2Z.inj_add, IH.
  unfold access_sum. cbn. lia.
Qed.

Lemma gen_entries_run n : forall j zsi t, (j + n <= length t)%nat ->
  gen_entries n j zsi t = Some (take j t ++ replicate n zsi ++ drop (j + n) t).
Proof.
  induction n as [|n IH]; intros j zsi t Hj; cbn [gen_entries].
  - rewrite Nat.add_0_r. cbn. by rewrite take_drop.
  - rewrite (proj2 (Nat.ltb_lt _ _)) by lia. rewrite IH by (rewrite length_insert; lia). f_equal.
    rewrite (take_S_r _ j zsi) by (rewrite list_lookup_insert_eq; [done | lia]).
    rewrite take_insert_ge, drop_insert_lt by lia. rewrite <- app_assoc. cbn. do 4 f_equal. lia.
Qed.

Lemma gen_zones_run zs : forall aprev sprev t,
  Forall (fun z => 0 <= zsp_access_perc z) zs -> Forall (fun z => 0 <= zsp_size_perc z) zs ->
  0 <= aprev -> 0 <= sprev -> aprev + access_sum zs <= Z.of_nat (length t) -> Z.of_nat (length t) <= 100 -> sprev + size_sum zs <= 100 ->
  gen_zones zs aprev sprev t = Some (take (Z.to_nat aprev) t ++ zone_table zs sprev ++ drop (Z.to_nat (aprev + access_sum zs)) t).
Proof.
  induction zs as [|z zs IH]; intros aprev sprev t Ha Hs H1 H2 H3 H4 H5; cbn [gen_zones zone_table].
  - unfold access_sum. cbn. rewrite Z.add_0_r, take_drop. done.
  - apply Forall_cons in Ha as [Ha0 Ha], Hs as [Hs0 Hs]. pose proof (access_nonneg _ Ha). pose proof (size_nonneg _ Hs).
    unfold access_sum, size_sum in H3, H5. cbn in H3, H5. fold (access_sum zs) in H3. fold (size_sum zs) in H5.
    rewrite gen_entries_run by lia. cbn [mbind option_bind]. unfold u8. rewrite !Z.mod_small by lia.
    rewrite !u32_small by (unfold fits; lia). set (n := Z.to_nat (zsp_access_perc z)). set (j := Z.to_nat aprev).
    set (t' := take j t ++ _). assert (length t' = length t) as Hl.
    { unfold t'. rewrite !length_app, length_take, length_replicate, length_drop. unfold j, n. lia. }
    rewrite IH by (done || lia || (rewrite Hl; lia)). f_equal.
    replace (Z.to_nat (aprev + zsp_access_perc z)) with (j + n)%nat by (unfold j, n; lia).
    assert (take (j + n) t' = take j t ++ replicate n (mkZsi (sprev + zsp_size_perc z) sprev)) as ->.
    { unfold t'. rewrite app_assoc, take_app_length'; [done|]. rewrite length_app, length_take, length_replicate. unfold j, n. lia. }
    rewrite <- !app_assoc. do 3 f_equal. unfold t'. rewrite app_assoc, drop_app_ge; rewrite length_app, length_take, length_replicate; [|unfold j, n; lia].
    rewrite drop_drop. f_equal. unfold access_sum. cbn. fold (access_sum zs). unfold j, n. lia.
Qed.

(** The entry [j] belongs to the zone that its access percentage reaches. *)
Lemma table_lookup zs : Forall (fun z => 0 <= zsp_access_perc z) zs -> forall sprev (j : nat), Z.of_nat j < access_sum zs ->
  exists i z, zs !! i = Some z /\
    access_sum (take i zs) <= Z.of_nat j < access_sum (take i zs) + zsp_access_perc z /\
    zone_table zs sprev !! j = Some (mkZsi (sprev + size_sum (take i zs) + zsp_size_perc z) (sprev + size_sum (take i zs))).
Proof.
  induction 1 as [|z zs Hz Hzs IH]; intros sprev j Hj; [unfold access_sum in Hj; cbn in Hj; lia|]. cbn [zone_table].
  destruct (Z.lt_ge_cases (Z.of_nat j) (zsp_access_perc z)) as [Hlt|Hge].
  - exists 0%nat, z. split; [done|]. unfold access_sum, size_sum. cbn. split; [lia|]. rewrite Z.add_0_r, lookup_app_l by (rewrite length_replicate; lia).
    apply lookup_replicate_2. lia.
  - unfold access_sum in Hj. cbn in Hj. fold (access_sum zs) in Hj.
    destruct (IH (sprev + zsp_size_perc z) (j - Z.to_nat (zsp_access_perc z))%nat) as (i & z' & Ei & Hi & Et); [lia|].
    exists (S i), z'. split; [done|]. unfold access_sum, size_sum. cbn. fold (access_sum (take i zs)) (size_sum (take i zs)). split; [lia|].
    rewrite lookup_app_r by (rewrite length_replicate; lia). rewrite length_replicate, Et. do 2 f_equal; lia.
Qed.

(** ** What the check accepts *)

Definition given (l : list Z) : Z := foldr Z.add 0 (filter (fun p => p <> PERC_MISSING) l).
Definition not_given (l : list Z) : Z := Z.of_nat (length (filter (fun p => p = PERC_MISSING) l)).

Lemma perc_sum_spec l : Forall (fits 8) l -> Z.of_nat (length l) <= 2 ^ 16 ->
  perc_sum l = (given l, not_given l) /\ 0 <= given l <= 256 * Z.of_nat (length l) /\ not_given l <= Z.of_nat (length l).
Proof.
  induction 1 as [|p l Hp Hl IH]; intros Hlen; [done|]. cbn [length] in Hlen. destruct IH as (E & Hg & Hm); [lia|].
  unfold fits in Hp.
  cbn [perc_sum]. rewrite E. unfold given, not_given in *. rewrite !filter_cons. destruct (Z.eqb_spec p PERC_MISSING) as [Ep|Ep].
  - rewrite decide_False, decide_True by tauto. cbn [length]. rewrite u32_small by (unfold fits; lia).
    split; [f_equal; lia | lia].
  - rewrite decide_True, decide_False by tauto. cbn [foldr length]. rewrite u32_small by (unfold fits; lia).
    split; [f_equal; lia | lia].
Qed.

(** Filling in the missing percentages adds at most what is left. *)
Lemma fill_sum perc missing q l : 0 <= q -> (forall p, fill_perc perc missing p = if p =? PERC_MISSING then q else p) ->
  foldr Z.add 0 (fill_perc perc missing <$> l) = given l + q * not_given l.
Proof.
  intros Hq Hf. unfold given, not_given. induction l as [|p l IH]; [cbn; lia|]. rewrite fmap_cons, !filter_cons, Hf. cbn [foldr]. rewrite IH.
  destruct (Z.eqb_spec p PERC_MISSING); [rewrite decide_False, decide_True by tauto | rewrite decide_True, decide_False by tauto]; cbn [foldr length]; lia.
Qed.

Lemma fill_value perc missing : 0 <= perc <= 100 -> 0 <= missing ->
  exists q, 0 <= q /\ q * missing <= 100 - perc /\ forall p, fill_perc perc missing p = if p =? PERC_MISSING then q else p.
Proof.
  intros Hp Hm. exists ((100 - perc) / missing). destruct (Z.eq_dec missing 0) as [->|Hne].
  { rewrite Z.div_0_r. split; [lia|]. split; [lia|]. intros p. unfold fill_perc. by rewrite Z.div_0_r. }
  split; [apply Z.div_pos; lia|]. split; [rewrite Z.mul_comm; apply Z.mul_div_le; lia|]. intros p. unfold fill_perc, u8.
  rewrite u32_small by (unfold fits; lia). rewrite Z.mod_small; [done|]. split; [apply Z.div_pos; lia|].
  apply Z.div_lt_upper_bound; nia.
Qed.

Lemma filled_nonneg perc missing q l : 0 <= q -> Forall (fits 8) l ->
  (forall p, fill_perc perc missing p = if p =? PERC_MISSING then q else p) -> Forall (fun p => 0 <= p) (fill_perc perc missing <$> l).
Proof.
  intros Hq Hl Hf. rewrite Forall_fmap. eapply Forall_impl; [exact Hl|]. intros p Hp. unfold compose. rewrite Hf. destruct (p =? _); [done | apply Hp].
Qed.

Lemma zones_perm zs zs' : zs ≡ₚ zs' -> zones_ok zs -> zones_ok zs'.
Proof.
  intros Hp [H1 H2 H3 H4]. unfold access_sum, size_sum in *.
  assert (forall l l1 : list Z, Permutation l l1 -> foldr Z.add 0 l = foldr Z.add 0 l1) as Hsum by (induction 1; cbn; lia).
  constructor; unfold access_sum, size_sum; rewrite <- ?Hp; try done; rewrite <- (Hsum _ _ (fmap_Permutation _ _ _ Hp)); done.
Qed.

Lemma check_ok zs zs' : Forall (fun z => fits 8 (zsp_access_perc z) /\ fits 8 (zsp_size_perc z)) zs -> Z.of_nat (length zs) <= 2 ^ 16 ->
  zone_split_check zs = Some zs' -> zones_ok zs'.
Proof.
  intros Hz Hlen. assert (Forall (fits 8) (zsp_access_perc <$> zs)) as Ha by (rewrite Forall_fmap; eapply Forall_impl; [exact Hz|]; intros z Hzz; apply Hzz).
  assert (Forall (fits 8) (zsp_size_perc <$> zs)) as Hs by (rewrite Forall_fmap; eapply Forall_impl; [exact Hz|]; intros z Hzz; apply Hzz).
  destruct (perc_sum_spec _ Ha) as (Ea & Hga & _); [by rewrite length_fmap|].
  destruct (perc_sum_spec _ Hs) as (Es & Hgs & _); [by rewrite length_fmap|].
  unfold zone_split_check. rewrite Ea, Es. set (la := zsp_access_perc <$> zs) in *. set (lz := zsp_size_perc <$> zs) in *.
  destruct (Z.ltb_spec 100 (given la)), (Z.ltb_spec 100 (given lz)); try done. cbn [orb].
  destruct (Z.ltb_spec (given la) 100); [done|]. intros [= <-].
  set (pa := if (not_given la =? 1) && (length zs =? 1)%nat then 100 else given la). set (ps := if (not_given lz =? 1) && (length zs =? 1)%nat then 100 else given lz).
  assert (pa = 100) as -> by (unfold pa; destruct (_ && _); lia).
  assert (given lz <= ps <= 100) as Hps by (unfold ps; destruct (_ && _); lia).
  destruct (fill_value 100 (not_given la) ltac:(lia) ltac:(unfold not_given; lia)) as (qa & Hqa & Hqa2 & Hfa).
  destruct (fill_value ps (not_given lz) ltac:(lia) ltac:(unfold not_given; lia)) as (qs & Hqs & Hqs2 & Hfs).
  pose proof (fill_sum _ _ _ la Hqa Hfa) as Sa. pose proof (fill_sum _ _ _ lz Hqs Hfs) as Ss.
  assert (0 <= not_given la) by (unfold not_given; lia).
  constructor.
  - pose proof (filled_nonneg _ _ _ la Hqa Ha Hfa) as Hn. unfold la in Hn. rewrite <- list_fmap_compose, Forall_fmap in Hn. by rewrite Forall_fmap.
  - pose proof (filled_nonneg _ _ _ lz Hqs Hs Hfs) as Hn. unfold lz in Hn. rewrite <- list_fmap_compose, Forall_fmap in Hn. by rewrite Forall_fmap.
  - unfold access_sum. rewrite <- list_fmap_compose. unfold la in Sa. rewrite <- list_fmap_compose in Sa. etransitivity; [exact Sa|]. fold la. nia.
  - unfold size_sum. rewrite <- list_fmap_compose. unfold lz in Ss. rewrite <- list_fmap_compose in Ss. etransitivity; [apply Z.eq_le_incl, Ss|]. fold lz. lia.
Qed.

(** * Offsets *)

(** The block a 32 bit random number draws from [n] blocks, or 0. *)
Lemma draw_run o n s g : tausworthe (o_random_generator o) = true -> file_randommap o (the_file s) = None ->
  random_state s = state32 g -> 0 <= n <= 2 ^ 53 ->
  let b := rand_scaled 32 n (__rand32 g).1 in
  __get_next_rand_offset o n s = Ret (Some b) (set_random_state (state32 (__rand32 g).2) s) /\
  0 <= b /\ (b < n \/ n = 0 /\ b = 0).
Proof.
  intros Hg Hm Er Hn. unfold __get_next_rand_offset. rewrite Hg. munfold. unfold file_. rewrite Er. cbn [__rand].
  pose proof (rand32_fits g) as Hr. destruct (__rand32 g) as [r g']. cbn [fst rand_width] in *.
  assert (0 <= rand_scaled 32 n r /\ (rand_scaled 32 n r < n \/ n = 0 /\ rand_scaled 32 n r = 0)) as Hb.
  { destruct (Z.eq_dec n 0) as [->|Hne]; [change (rand_scaled 32 0 r) with 0; lia|]. pose proof (scaled_below n r ltac:(lia) Hr). lia. }
  set (b := rand_scaled 32 n r) in *. rewrite (proj2 (Z.ltb_lt b (2 ^ 64))) by lia. cbn [the_file set_random_state]. rewrite Hm.
  split; [reflexivity | done].
Qed.

Lemma div_sum a b c l : 0 <= l -> 0 <= a -> 0 <= b -> a + b <= c -> a * l / 100 + b * l / 100 <= c * l / 100.
Proof.
  intros Hl Ha Hb Hc. pose proof (Z.div_mod (a * l) 100 ltac:(lia)). pose proof (Z.div_mod (b * l) 100 ltac:(lia)).
  pose proof (Z.mod_pos_bound (a * l) 100 ltac:(lia)). pose proof (Z.mod_pos_bound (b * l) 100 ltac:(lia)).
  apply Z.div_le_lower_bound; nia.
Qed.

(** C23: zoned random I/O.  For any zones [zs0] that zone_split_ddir accepts, filled in and put in
    any order by its sort, the table that __td_zone_gen_index builds, whatever the memory held,
    stays in its bounds and gives each zone as many of its 100 entries as its access percentage;
    and __get_next_rand_offset_zoned, with the 32 bit generators in any state, takes the entry that
    the zone generator draws (rand32_between of 1 and 100), and returns the block that the offset
    generator draws (its next number scaled) from the blocks of the zone [z] which that entry
    belongs to: a block of the zone and of the file.  A zone without blocks yields the block it
    starts at, which is outside of it, and outside of the file when all the percentages of the file
    are before it.  Both generators advance by one number and nothing else changes. *)
Theorem zoned_offsets t zs0 zs1 zs o d s lastb g g' :
  Forall (fun z => fits 8 (zsp_access_perc z) /\ fits 8 (zsp_size_perc z)) zs0 -> Z.of_nat (length zs0) <= 2 ^ 16 ->
  zone_split_check zs0 = Some zs1 -> zs1 ≡ₚ zs -> length t = 100%nat -> 1 <= lastb <= 2 ^ 53 ->
  exists table, __td_zone_gen_index t zs = Some table /\ table = zone_table zs 0 /\ length table = 100%nat /\
    (at_ddir (zone_state_index o) d = table -> at_ddir (o_zone_split_nr o) d <> 0 -> last_block o d s = Ret lastb s ->
     tausworthe (o_random_generator o) = true -> file_randommap o (the_file s) = None ->
     random_state s = state32 g -> zone_state s = state32 g' ->
     exists v i z, rand32_between (zone_state s) 1 100 = Some (v, state32 (__rand32 g').2) /\
       1 <= v <= 100 /\ zs !! i = Some z /\
       access_sum (take i zs) < v <= access_sum (take i zs) + zsp_access_perc z /\
       let first := size_sum (take i zs) * lastb / 100 in
       let blocks := zsp_size_perc z * lastb / 100 in
       let b := first + rand_scaled 32 blocks (__rand32 g).1 in
       __get_next_rand_offset_zoned o d s =
         Ret (Some b) (set_random_state (state32 (__rand32 g).2) (set_zone_state (state32 (__rand32 g').2) s)) /\
       (0 < blocks -> first <= b < first + blocks /\ b < lastb) /\
       (blocks = 0 -> b = first /\ (b < lastb \/ size_sum (take i zs) = 100))).
Proof.
  intros Hz Hlen0 Hcheck Hperm Ht Hl. destruct (zones_perm _ _ Hperm (check_ok _ _ Hz Hlen0 Hcheck)) as [Ha Hs HA HS].
  exists (zone_table zs 0). pose proof (length_table zs Ha 0) as Hlen. rewrite HA in Hlen. split; [|split; [done|split; [lia|]]].
  { unfold __td_zone_gen_index. rewrite gen_zones_run by (done || lia). rewrite HA. cbn [Z.to_nat take].
    rewrite drop_ge by (rewrite Ht; lia). by rewrite app_nil_r. }
  intros Et Hnr Hlb Hg Hm Er Ez.
  destruct (rand32_between_range g' 100 ltac:(lia)) as (v & Ev & Hv).
  destruct (table_lookup zs Ha 0 (Z.to_nat (v - 1))) as (i & z & Ei & Hi & Etab); [rewrite HA; lia|]. rewrite !Z.add_0_l in Etab.
  assert (0 <= size_sum (take i zs) /\ 0 <= zsp_size_perc z /\ size_sum (take i zs) + zsp_size_perc z <= 100) as (Hs0 & Hz0 & Hs1).
  { rewrite <- (take_drop_middle zs i z Ei) in HS, Hs. apply Forall_app in Hs as [Hs1 [Hs2 Hs3]%Forall_cons].
    unfold size_sum in HS. rewrite fmap_app, fmap_cons, sum_list_Z_app in HS. cbn in HS. pose proof (size_nonneg _ Hs1).
    pose proof (size_nonneg _ Hs3). unfold size_sum in *. lia. }
  set (S0 := size_sum (take i zs)) in *. set (sz := zsp_size_perc z) in *.
  pose proof (div_sum S0 sz 100 lastb ltac:(lia) Hs0 Hz0 Hs1) as Hd. replace (100 * lastb / 100) with lastb in Hd by (rewrite Z.mul_comm, Z.div_mul; lia).
  assert (0 <= S0 * lastb / 100) by (apply Z.div_pos; nia). assert (0 <= sz * lastb / 100) by (apply Z.div_pos; nia).
  destruct (draw_run o (sz * lastb / 100) (set_zone_state (state32 (__rand32 g').2) s) g Hg Hm Er) as (Eb & Hb0 & Hb); [lia|].
  set (b := rand_scaled 32 (sz * lastb / 100) (__rand32 g).1) in *.
  exists v, i, z. split; [by rewrite Ez|]. split; [done|]. split; [done|]. split; [lia|]. cbv zeta. fold S0 sz b. rewrite (Z.add_comm _ b). split.
  - unfold __get_next_rand_offset_zoned. erewrite bind_Ret by exact Hlb. rewrite (proj2 (Z.eqb_neq lastb 0)), (proj2 (Z.eqb_neq _ 0) Hnr) by lia.
    munfold. rewrite Ez, Ev. unfold lift_ub. rewrite Et, Etab. munfold. cbn [size_perc size_perc_prev].
    rewrite (proj2 (Z.eqb_neq (S0 + sz) (2 ^ 32 - 1))) by lia. replace (S0 + sz - S0) with sz by lia.
    rewrite (u32_small sz), (u64_small (lastb * sz)), (Z.mul_comm lastb) by (unfold fits; nia). rewrite Eb.
    rewrite (u64_small (S0 * lastb)) by (unfold fits; nia).
    destruct (Z.eqb_spec S0 0) as [E0|E0]; cbn [negb].
    + rewrite E0. cbn. by rewrite Z.add_0_r.
    + destruct (Z.eqb_spec (S0 * lastb / 100) 0) as [E1|E1]; cbn [negb]; [by rewrite E1, Z.add_0_r|].
      rewrite u64_small by (unfold fits; lia). done.
  - split; [lia|]. intros Hn. destruct Hb as [Hb|[_ Hb]]; [lia|]. rewrite Hb. split; [lia|].
    destruct (Z.eq_dec S0 100) as [->|Hne]; [by right|]. left. apply Z.div_lt_upper_bound; nia.
Qed.

Definition demo_zones : list zone_split := [mkZsp 60 10; mkZsp 30 PERC_MISSING; mkZsp 10 70].
Definition demo_zones_filled : list zone_split := [mkZsp 60 10; mkZsp 30 20; mkZsp 10 70].
Definition demo_memory : list zone_split_index := replicate 100 (mkZsi 3 7).
Definition zone_opts : thread_options :=
  mkTo true FIO_RAND_GEN_TAUSWORTHE FIO_RAND_DIST_ZONED false 512 (mkPer 512 512 512) (mkPer 512 512 512) (mkPer 512 512 512) false
    (mkPer [] [] []) false false false false 0 0 0 (mkPer 3 3 3)
    (mkPer (zone_table demo_zones_filled 0) (zone_table demo_zones_filled 0) (zone_table demo_zones_filled 0)) 0 false false
    (mkPer 100 100 100) 1 0 RW_SEQ_SEQ false 0 0 0 0 77 false.
Definition zone_gen : gen :=
  mkGen (init_rand_seed 77 false) (init_rand_seed 5 false) (mkPer (init_rand_seed 1 false) (init_rand_seed 1 false) (init_rand_seed 1 false))
    (mkPer (init_rand_seed 1 false) (init_rand_seed 1 false) (init_rand_seed 1 false)) 1 0 0 ∅ ∅
    (mkFile 0 512000 512000 (mkPer 0 0 0) (mkPer NONE64 NONE64 NONE64) None None true).

Lemma zone_last_block : last_block zone_opts DDIR_READ zone_gen = Ret 1000 zone_gen.
Proof. by vm_compute. Qed.

Lemma zoned_offsets_witness :
  let s' := set_random_state (state32 (__rand32 (__init_rand32 77)).2)
              (set_zone_state (state32 (__rand32 (__init_rand32 5)).2) zone_gen) in
  exists v i z, rand32_between (zone_state zone_gen) 1 100 = Some (v, state32 (__rand32 (__init_rand32 5)).2) /\
    1 <= v <= 100 /\ demo_zones_filled !! i = Some z /\
    access_sum (take i demo_zones_filled) < v <= access_sum (take i demo_zones_filled) + zsp_access_perc z /\
    let first := size_sum (take i demo_zones_filled) * 1000 / 100 in
    let blocks := zsp_size_perc z * 1000 / 100 in
    let b := first + rand_scaled 32 blocks (__rand32 (__init_rand32 77)).1 in
    __get_next_rand_offset_zoned zone_opts DDIR_READ zone_gen = Ret (Some b) s' /\
    (0 < blocks -> first <= b < first + blocks /\ b < 1000) /\
    (blocks = 0 -> b = first /\ (b < 1000 \/ size_sum (take i demo_zones_filled) = 100)).
Proof.
  destruct (zoned_offsets demo_memory demo_zones demo_zones_filled demo_zones_filled zone_opts DDIR_READ zone_gen 1000
              (__init_rand32 77) (__init_rand32 5)) as (table & _ & -> & _ & H);
    [repeat constructor | cbn; lia | by vm_compute | done | done | lia |].
  all: cycle -1.
  { exact (H eq_refl ltac:(discriminate) zone_last_block eq_refl eq_refl eq_refl eq_refl). }
  all: first [reflexivity | discriminate].
Defined.

(** Access percentages that are not given are never shared out: the check for a sum below 100 comes
    first. *)
Lemma access_not_shared : zone_split_check [mkZsp 60 50; mkZsp PERC_MISSING 50] = None.
Proof. by vm_compute. Qed.

(** The size of a single zone that is not given becomes 0 percent of the file. *)
Lemma single_zone_empty : zone_split_check [mkZsp 100 PERC_MISSING] = Some [mkZsp 100 0].
Proof. by vm_compute. Qed.
