(* ===== verification/IouSeq.v ===== *)
(** Sequential jobs of fio: get_next_seq_offset of io_u.c from the beginning of a file to its end,
    and what goes wrong when a job wraps around. *)
From S2P Require Import Prelude Blocks Pattern Rand RandFloat Axmap Lfsr Flist FlistSort IouOffset IouMap.

Section Seq.
Context (float_next : rand_dist -> M gen Z) (next_rand_list : Z) (malloc : gmap Z flist_head -> Z).
Context (fuel : nat) (o : thread_options) (d : fio_ddir) (bs : Z).

(** A sequential job without holes, of blocks of one size. *)
Record seq_job : Prop := {
  sj_io : td_noio o = false;
  sj_seq : o_random o = false;
  sj_time : o_time_based o = false;
  sj_add : o_ddir_seq_add o = 0;
  sj_bs : 0 < bs < 2 ^ 32;
  sj_min : at_ddir (o_min_bs o) d = bs;
  sj_max : at_ddir (o_max_bs o) d = bs;
  sj_seq_rand : o_bs_is_seq_rand o = false;
  sj_zone : o_zone_skip o = 0;
  sj_seq_nr : o_ddir_seq_nr o = 1;
  sj_start : 0 < o_start_offset_percent o -> (if o_ba_set o then Z.min (per_trim (o_ba o)) (Z.min (per_read (o_ba o)) (per_write (o_ba o))) else td_min_bs o) <> 0
}.

(** The number of blocks: those that start within the I/O size and end within the file. *)
Definition seq_blocks (f : fio_file) : Z := Z.min ((io_size f + bs - 1) / bs) ((real_file_size f - file_offset f) / bs).

Record seq_file (f : fio_file) : Prop := {
  sf_offset : 0 <= file_offset f <= real_file_size f;
  sf_io : 0 <= io_size f < 2 ^ 64 - 2 ^ 32;
  sf_real : real_file_size f < 2 ^ 64 - 2 ^ 32
}.

Context (HJ : seq_job) (f0 : fio_file) (HF : seq_file f0).

(** [k] blocks done. *)
Record seq_state (k : Z) (s : gen) : Prop := {
  ss_seq : td_ddir_seq_nr s = 1;
  ss_file : same_sizes f0 (the_file s);
  ss_pos : at_ddir (last_pos (the_file s)) d = file_offset f0 + k * bs
}.

Lemma start_run f s : exists v, get_start_offset o f s = Ret v s.
Proof.
  unfold get_start_offset. destruct (_ && _); [by eexists|]. destruct (Z.ltb_spec 0 (o_start_offset_percent o)) as [H|]; [|by eexists].
  munfold. rewrite (proj2 (Z.eqb_neq _ 0) (sj_start HJ H)). by eexists.
Qed.

Lemma seq_offset_run k s : seq_state k s -> 0 <= k -> file_offset f0 + k * bs < 2 ^ 64 ->
  get_next_seq_offset o d s = Ret (if file_offset f0 + k * bs <? real_file_size f0 then Some (k * bs) else None) s.
Proof.
  intros [E1 (Eo & Er & Ei) Ep] Hk Hfit. pose proof (sj_bs HJ). pose proof (sf_offset _ HF).
  unfold get_next_seq_offset, file_. munfold. destruct (start_run (the_file s) s) as [v ->]. rewrite (sj_time HJ), andb_false_r.
  rewrite Ep, Er. destruct (Z.ltb_spec (file_offset f0 + k * bs) (real_file_size f0)) as [Hlt|]; [|done].
  rewrite (sj_add HJ), Z.ltb_irrefl, andb_false_r. cbn [negb Z.eqb]. rewrite andb_false_r, Ep, Eo. do 2 f_equal.
  replace (file_offset f0 + k * bs - file_offset f0) with (k * bs) by lia. apply u64_small. unfold fits. nia.
Qed.

Lemma hit_seq s (c : bool -> M gen (bool * io_u * bool)) :
  td_ddir_seq_nr s = 1 ->
  (hit ← (if negb (o_ddir_seq_nr o =? 0) then
            let m := u32 (td_ddir_seq_nr s - 1) in
            if m =? 0 then modify (set_ddir_seq_nr (o_ddir_seq_nr o));; mret true
            else modify (set_ddir_seq_nr m);; mret false
          else mret false); c hit) s = c true s.
Proof. intros E. rewrite (sj_seq_nr HJ), E. destruct s. cbn in E. by subst. Qed.

Lemma blocks_bound k : 0 <= k -> k < seq_blocks f0 <-> k * bs < io_size f0 /\ file_offset f0 + (k + 1) * bs <= real_file_size f0.
Proof.
  intros Hk. pose proof (sj_bs HJ). unfold seq_blocks. rewrite Z.min_glb_lt_iff.
  assert (k < (io_size f0 + bs - 1) / bs <-> k * bs < io_size f0) as ->.
  { split; intros H'.
    - assert (k + 1 <= (io_size f0 + bs - 1) / bs) as H1 by lia.
      pose proof (Z.mul_div_le (io_size f0 + bs - 1) bs ltac:(lia)). nia.
    - apply Z.lt_le_trans with (k + 1); [lia|]. apply Z.div_le_lower_bound; lia. }
  assert (k < (real_file_size f0 - file_offset f0) / bs <-> file_offset f0 + (k + 1) * bs <= real_file_size f0) as ->; [|done].
  split; intros H'.
  - pose proof (Z.mul_div_le (real_file_size f0 - file_offset f0) bs ltac:(lia)). nia.
  - apply Z.lt_le_trans with (k + 1); [lia|]. apply Z.div_le_lower_bound; lia.
Qed.

Lemma seq_io k s : seq_state k s -> 0 <= k <= seq_blocks f0 ->
  exists s', next_io float_next next_rand_list malloc fuel o d s =
      Ret (if k <? seq_blocks f0 then Some (file_offset f0 + k * bs, bs) else None) s' /\ (k < seq_blocks f0 -> seq_state (k + 1) s').
Proof.
  intros HS Hk. pose proof HS as [E1 (Eo & Er & Ei) Ep]. pose proof (sj_bs HJ) as Hbs. pose proof (sf_offset _ HF). pose proof (sf_io _ HF). pose proof (sf_real _ HF).
  pose proof (blocks_bound k ltac:(lia)) as Hbk.
  assert (file_offset f0 + k * bs <= real_file_size f0) as Hle.
  { destruct (Z.eq_dec k 0) as [->|]; [lia|]. pose proof (proj1 (blocks_bound (k - 1) ltac:(lia)) ltac:(lia)). lia. }
  assert (__get_next_offset float_next next_rand_list malloc o (mkIou (Some d) 0 0 false) d s =
    Ret ((file_offset f0 + k * bs <? real_file_size f0) && (k * bs <? io_size f0),
         (if file_offset f0 + k * bs <? real_file_size f0
          then if k * bs <? io_size f0 then mkIou (Some d) (file_offset f0 + k * bs) 0 false else mkIou (Some d) (k * bs) 0 false
          else mkIou (Some d) 0 0 false), false) s) as Ho.
  { unfold __get_next_offset, get_st. unfold mbind at 1, M_bind at 1. rewrite hit_seq by done. unfold get_next_block, choose_block. rewrite (sj_seq HJ).
    munfold. rewrite (seq_offset_run k) by (done || lia). destruct (Z.ltb_spec (file_offset f0 + k * bs) (real_file_size f0)); [|done].
    cbn [negb]. rewrite (proj2 (Z.eqb_neq (k * bs) NONE64)) by (unfold NONE64; nia). cbn [negb]. unfold file_. cbn [u_offset with_offset]. rewrite Ei, Eo, Er.
    destruct (Z.ltb_spec (k * bs) (io_size f0)); [rewrite (proj2 (Z.leb_gt _ _)) by lia | by rewrite (proj2 (Z.leb_le _ _)) by lia].
    rewrite u64_small by (unfold fits; nia). rewrite (Z.add_comm (k * bs)), (proj2 (Z.leb_gt _ _)) by lia. done. }
  unfold next_io, fill_io_u. rewrite (sj_io HJ). cbn [u_ddir]. unfold mbind, M_bind.
  assert (zone_switch o d s = Ret tt s) as -> by (unfold zone_switch; munfold; by rewrite (sj_zone HJ), andb_false_r).
  rewrite Ho. destruct (Z.ltb_spec (file_offset f0 + k * bs) (real_file_size f0)) as [Hlt|]; cbn [andb negb].
  2: { exists s. destruct (Z.ltb_spec k (seq_blocks f0)); [lia|]. by split; [|lia]. }
  destruct (Z.ltb_spec (k * bs) (io_size f0)); cbn [negb].
  2: { exists s. destruct (Z.ltb_spec k (seq_blocks f0)); [lia|]. by split; [|lia]. }
  unfold __get_next_buflen. rewrite (sj_seq_rand HJ), (sj_min HJ), (sj_max HJ), Z.eqb_refl. cbn [mret M_ret u_ddir u_offset u_busy_ok u_buflen].
  rewrite (proj2 (Z.eqb_neq bs 0)) by lia. unfold file_. rewrite Er, (u64_small (_ + bs)) by (unfold fits; lia).
  destruct (Z.ltb_spec (real_file_size f0) (file_offset f0 + k * bs + bs)).
  { exists s. destruct (Z.ltb_spec k (seq_blocks f0)); [lia|]. by split; [|lia]. }
  rewrite (sj_seq HJ). assert (forall A (x : option A) (y : M gen io_u), (match x with Some _ => y | None => y end) = y) as Hif by by intros ? [].
  rewrite Hif. cbn [negb]. destruct (Z.ltb_spec k (seq_blocks f0)); [|lia].
  eexists. split; [reflexivity|]. intros _. constructor; cbn; [done | done|].
  replace (at_ddir _ d) with (u64 (file_offset f0 + k * bs + bs)) by by destruct d. rewrite u64_small by (unfold fits; lia). lia.
Qed.

Lemma seq_run m : forall k s, seq_state k s -> 0 <= k -> k + Z.of_nat m = seq_blocks f0 ->
  exists s', io_run float_next next_rand_list malloc fuel o d m s = Ret ((fun b => (file_offset f0 + b * bs, bs)) <$> seqZ k (Z.of_nat m)) s' /\
    seq_state (seq_blocks f0) s'.
Proof.
  induction m as [|m IH]; intros k s HS Hk Hm.
  - exists s. split; [done|]. by replace (seq_blocks f0) with k by lia.
  - destruct (seq_io k s HS ltac:(lia)) as (s1 & E & HS1). rewrite (proj2 (Z.ltb_lt _ _)) in E by lia. specialize (HS1 ltac:(lia)).
    destruct (IH (k + 1) s1 HS1) as (s2 & E2 & HS2); [lia | lia|]. exists s2. split; [|done]. cbn [io_run].
    erewrite bind_Ret by exact E. cbv beta iota. erewrite bind_Ret by exact E2.
    rewrite Nat2Z.inj_succ, (seqZ_cons k (Z.succ _)) by lia. by rewrite Z.pred_succ, fmap_cons.
Qed.

End Seq.

(** C24: a sequential job reads or writes its file from the beginning to the end.  For every block
    size, file and direction (no holes, not time based): from the start of the file [fill_io_u]
    gives, in order and each once, exactly the blocks that start within the I/O size and end within
    the file, one after the other, and then no unit. *)
Theorem seq_job_covers float_next next_rand_list malloc fuel o d bs f s :
  seq_job o d bs -> seq_file f -> the_file s = f -> td_ddir_seq_nr s = 1 -> at_ddir (last_pos f) d = file_offset f ->
  exists s' s'', io_run float_next next_rand_list malloc fuel o d (Z.to_nat (seq_blocks bs f)) s =
      Ret ((fun b => (file_offset f + b * bs, bs)) <$> seqZ 0 (seq_blocks bs f)) s' /\
    next_io float_next next_rand_list malloc fuel o d s' = Ret None s''.
Proof.
  intros HJ HF Es Eq Ep. pose proof (sj_bs _ _ _ HJ) as Hbs. pose proof (sf_offset _ HF). pose proof (sf_io _ HF).
  assert (0 <= seq_blocks bs f) as Hb0 by (unfold seq_blocks; apply Z.min_glb; apply Z.div_pos; lia).
  assert (seq_state d bs f 0 s) as HS by (constructor; rewrite ?Es; [done | done | rewrite Ep; lia]).
  destruct (seq_run float_next next_rand_list malloc fuel o d bs HJ f HF (Z.to_nat (seq_blocks bs f)) 0 s HS) as (s' & E & HS'); [lia | lia|].
  rewrite Z2Nat.id in E by done.
  destruct (seq_io float_next next_rand_list malloc fuel o d bs HJ f HF (seq_blocks bs f) s' HS' ltac:(lia)) as (s'' & E2 & _).
  rewrite Z.ltb_irrefl in E2. by exists s', s''.
Qed.

(** Blocks of 512 bytes, with the option [ddir_seq_add]. *)
Definition seq_opts (seq_add zone_range zone_size zone_skip : Z) : thread_options :=
  mkTo false FIO_RAND_GEN_TAUSWORTHE FIO_RAND_DIST_RANDOM false 512 (mkPer 512 512 512) (mkPer 512 512 512) (mkPer 512 512 512) false
    (mkPer [] [] []) false false false false zone_range zone_size zone_skip (mkPer 0 0 0) (mkPer [] [] []) 0 false false (mkPer 100 100 100) 1 seq_add
    RW_SEQ_SEQ false 1024 0 0 0 77 false.

Lemma seq_job_covers_witness :
  exists s' s'', io_run no_float 0 (fun _ => 1) 0 (seq_opts 0 0 0 0) DDIR_WRITE (Z.to_nat 11) (demo_gen demo_file) =
      Ret ((fun b => (1024 + b * 512, 512)) <$> seqZ 0 11) s' /\
    next_io no_float 0 (fun _ => 1) 0 (seq_opts 0 0 0 0) DDIR_WRITE s' = Ret None s''.
Proof. apply (seq_job_covers no_float 0 (fun _ => 1) 0 (seq_opts 0 0 0 0) DDIR_WRITE 512 demo_file (demo_gen demo_file)); by constructor. Defined.

(** * Wrapping around *)

(** A job with holes that reaches the end of the file wraps to [file_offset], which is added once
    more: it goes on at twice the offset of the file, here at 2048 instead of 1024. *)
Lemma seq_wrap_doubles_offset :
  (fun l => (l : list (Z * Z)).*1) <$> run_result (io_run no_float 0 (fun _ => 1) 0 (seq_opts 5120 0 0 0) DDIR_READ 3
     (demo_gen (mkFile 1024 8192 16384 (mkPer 1024 1024 1024) (mkPer NONE64 NONE64 NONE64) None None true))) =
  Some [1024; 6656; 2048].
Proof. by vm_compute. Qed.

(** A job that skips zones and passes the end of the file takes the difference the wrong way round:
    the offset of the file becomes a number just below [2^64], and the file gets no further unit. *)
Lemma zone_wrap_underflow :
  exists s, zone_switch (seq_opts 0 4096 0 4096) DDIR_READ
      (demo_gen (mkFile 4096 8192 8192 (mkPer 4096 4096 4096) (mkPer NONE64 NONE64 NONE64) None None true)) = Ret tt s /\
    file_offset (the_file s) = 2 ^ 64 - 4096 /\
    exists s', next_io no_float 0 (fun _ => 1) 0 (seq_opts 0 4096 1 0) DDIR_READ s = Ret None s'.
Proof. eexists. split; [vm_compute; reflexivity|]. split; [done|]. eexists. vm_compute. reflexivity. Qed.
