(* ===== verification/VerifySum.v ===== *)
(** The checksums of fio's verify step (src/fio/verify.c): for every kind, the
    fill function that writes the checksum field of a block's header and the
    verify function that compares it, and the interface [Checksum] they offer to
    the rest of verify.c.  Fields are the bytes that follow the verify header, in
    the byte order of a little endian machine. *)
From S2P Require Import Prelude Mem Blocks CrcTables Crc Md5 Sha1 Sha2 Sha256 Sha512 Sha3 XxHash.

(** [fio_crc32c] of a build without the crc32 instructions. *)
Definition fio_crc32c (buf : bytes) : option Z := crc32c_sw buf.

Section Sums.
(** What the uninitialised locals hold: the digest buffers and the memory of the
    xxhash state, and the array of the SHA-1 block function. *)
Context (stack : bytes) (array0 : list Z).

Definition fill_xxhash (field p : bytes) : option bytes :=
  let state := XXH32_init (take 16 stack) 1 in
  state ← XXH32_update XXH_littleEndian state p;
  h ← XXH32_digest XXH_littleEndian state;
  copy_to field 0 (le_split 4 h).

Definition verify_io_u_xxhash (field p : bytes) : option bool :=
  let state := XXH32_init (take 16 stack) 1 in
  state ← XXH32_update XXH_littleEndian state p;
  h ← XXH32_digest XXH_littleEndian state;
  Some (le_combine (take 4 field) =? h).

(** A context of zeros whose [sha] points to [sha]. *)
Definition sha3_zero (sha : bytes) : fio_sha3_ctx :=
  mkSha3 (replicate 25 0) 0 0 0 0 (replicate 144 Byte.x00) sha.

Definition fill_sha3 (sha3_ctx : fio_sha3_ctx) (p : bytes) : option bytes :=
  c ← fio_sha3_update sha3_ctx p;
  c ← fio_sha3_final c;
  Some (sha3_sha c).

Definition fill_sha3_224 (field p : bytes) : option bytes := fill_sha3 (fio_sha3_224_init (sha3_zero field)) p.
Definition fill_sha3_256 (field p : bytes) : option bytes := fill_sha3 (fio_sha3_256_init (sha3_zero field)) p.
Definition fill_sha3_384 (field p : bytes) : option bytes := fill_sha3 (fio_sha3_384_init (sha3_zero field)) p.
Definition fill_sha3_512 (field p : bytes) : option bytes := fill_sha3 (fio_sha3_512_init (sha3_zero field)) p.

(** [memcmp(sha, sha3_ctx->sha, sha_size)]. *)
Definition verify_io_u_sha3 (sha3_ctx : fio_sha3_ctx) (sha : bytes) (sha_size : nat) (p : bytes) :
    option bool :=
  c ← fio_sha3_update sha3_ctx p;
  c ← fio_sha3_final c;
  Some (bool_decide (take sha_size sha = take sha_size (sha3_sha c))).

Definition verify_io_u_sha3_224 (field p : bytes) : option bool :=
  verify_io_u_sha3 (fio_sha3_224_init (sha3_zero (take 28 stack))) field 28 p.
Definition verify_io_u_sha3_256 (field p : bytes) : option bool :=
  verify_io_u_sha3 (fio_sha3_256_init (sha3_zero (take 32 stack))) field 32 p.
Definition verify_io_u_sha3_384 (field p : bytes) : option bool :=
  verify_io_u_sha3 (fio_sha3_384_init (sha3_zero (take 48 stack))) field 48 p.
Definition verify_io_u_sha3_512 (field p : bytes) : option bool :=
  verify_io_u_sha3 (fio_sha3_512_init (sha3_zero (take 64 stack))) field 64 p.

Definition sha256_zero (buf : bytes) : fio_sha256_ctx := mkSha256 0 (0, 0, 0, 0, 0, 0, 0, 0) buf.

Definition fill_sha256 (field p : bytes) : option bytes :=
  c ← fio_sha256_update (fio_sha256_init (sha256_zero field)) p;
  c ← fio_sha256_final c;
  Some (sha256_buf c).

Definition verify_io_u_sha256 (field p : bytes) : option bool :=
  buf ← fill_sha256 (take 64 stack) p;
  Some (bool_decide (take 64 field = take 64 buf)).

(** The words [H] points to, in memory. *)
Definition sha1_words (h : sha1_H) : bytes :=
  let '(a, b, c, d, e) := h in
  le_split 4 a ++ le_split 4 b ++ le_split 4 c ++ le_split 4 d ++ le_split 4 e.

Definition sha1_sum (p : bytes) : option bytes :=
  c ← fio_sha1_update array0 (fio_sha1_init (mkSha1 (0, 0, 0, 0, 0) (replicate 64 Byte.x00) 0)) p;
  c ← fio_sha1_final array0 c;
  Some (sha1_words (sha1_h c)).

Definition fill_sha1 (field p : bytes) : option bytes := h ← sha1_sum p; copy_to field 0 h.
Definition verify_io_u_sha1 (field p : bytes) : option bool :=
  h ← sha1_sum p; Some (bool_decide (take 20 field = h)).

Definition fill_crc7 (field p : bytes) : option bytes := c ← fio_crc7 p; copy_to field 0 (le_split 1 c).
Definition fill_crc16 (field p : bytes) : option bytes := c ← fio_crc16 p; copy_to field 0 (le_split 2 c).
Definition fill_crc32 (field p : bytes) : option bytes := c ← fio_crc32 p; copy_to field 0 (le_split 4 c).
Definition fill_crc32c (field p : bytes) : option bytes := c ← fio_crc32c p; copy_to field 0 (le_split 4 c).
Definition fill_crc64 (field p : bytes) : option bytes := c ← fio_crc64 p; copy_to field 0 (le_split 8 c).

Definition verify_io_u_crc7 (field p : bytes) : option bool := c ← fio_crc7 p; Some (c =? le_combine (take 1 field)).
Definition verify_io_u_crc16 (field p : bytes) : option bool := c ← fio_crc16 p; Some (c =? le_combine (take 2 field)).
Definition verify_io_u_crc32 (field p : bytes) : option bool := c ← fio_crc32 p; Some (c =? le_combine (take 4 field)).
Definition verify_io_u_crc32c (field p : bytes) : option bool := c ← fio_crc32c p; Some (c =? le_combine (take 4 field)).
Definition verify_io_u_crc64 (field p : bytes) : option bool := c ← fio_crc64 p; Some (c =? le_combine (take 8 field)).

Definition md5_words (h : md5_hash) : bytes :=
  let '(a, b, c, d) := h in le_split 4 a ++ le_split 4 b ++ le_split 4 c ++ le_split 4 d.

Definition md5_sum (p : bytes) : option bytes :=
  c ← fio_md5_update (fio_md5_init (mkMd5 (0, 0, 0, 0) (replicate 64 Byte.x00) 0)) p;
  c ← fio_md5_final c;
  Some (md5_words (hash c)).

Definition fill_md5 (field p : bytes) : option bytes := h ← md5_sum p; copy_to field 0 h.
Definition verify_io_u_md5 (field p : bytes) : option bool :=
  h ← md5_sum p; Some (bool_decide (take 16 field = h)).

(** * The interface *)

(** A kind of checksum with a field of [fsz] bytes, for the data that satisfy
    [ok]: filling succeeds, keeps the size of the field, and the verify function
    accepts what was filled in, for any content of the field before. *)
Class Checksum (fsz : nat) (fill : bytes -> bytes -> option bytes)
    (check : bytes -> bytes -> option bool) (ok : bytes -> Prop) : Prop := {
  fill_accepted : forall field p, length field = fsz -> ok p ->
    exists f, fill field p = Some f /\ length f = fsz /\ check f p = Some true }.

Definition any_data (p : bytes) : Prop := Z.of_nat (length p) < 2 ^ 32 - 512.

Lemma sum_checksum fsz (sum : bytes -> option bytes) fill check (ok : bytes -> Prop) :
  (forall field p, fill field p = h ← sum p; copy_to field 0 h) ->
  (forall h p, sum p = Some h -> check h p = Some true) ->
  (forall p, ok p -> exists h, sum p = Some h /\ length h = fsz) ->
  Checksum fsz fill check ok.
Proof.
  intros Hf Hc Hs. constructor. intros field p Hl Hp. destruct (Hs p Hp) as (h & E & Hh).
  exists h. rewrite Hf, E. obind. rewrite copy_to_0, drop_ge, app_nil_r by lia. auto.
Qed.

Lemma le_checksum fsz (crc : bytes -> option Z) fill check :
  (forall field p, fill field p = c ← crc p; copy_to field 0 (le_split fsz c)) ->
  (forall field p, check field p = c ← crc p; Some (c =? le_combine (take fsz field))) ->
  (forall p, exists c, crc p = Some c /\ fits (8 * Z.of_nat fsz) c) ->
  Checksum fsz fill check any_data.
Proof.
  intros Hf Hc Hs. apply (sum_checksum fsz (fun p => le_split fsz <$> crc p)).
  - intros field p. rewrite Hf. by destruct (crc p).
  - intros h p E. rewrite Hc. destruct (Hs p) as (c & Ec & Hfit). rewrite Ec in *. injection E as <-.
    obind. rewrite take_ge by (rewrite length_le_split; lia). rewrite le_combine_split.
    rewrite Z.mod_small by (rewrite Z.mul_comm; done). by rewrite Z.eqb_refl.
  - intros p _. destruct (Hs p) as (c & -> & _). eexists. split; [done|]. apply length_le_split.
Qed.

End Sums.

(** * The kinds *)

Lemma crc_fits buffer :
  (exists c, fio_crc7 buffer = Some c /\ fits 8 c) /\ (exists c, fio_crc16 buffer = Some c /\ fits 16 c) /\
  (exists c, fio_crc32 buffer = Some c /\ fits 32 c) /\ (exists c, crc32c_sw buffer = Some c /\ fits 32 c) /\
  (exists c, fio_crc64 buffer = Some c /\ fits 64 c).
Proof.
  destruct (crc_tables_run buffer) as (-> & -> & -> & -> & ->). unfold crc_msb, crc_lsb.
  split_and!; (eexists; split; [reflexivity|]).
  - destruct (feed_range 7 (msb_bit 7 0x09) (msb_good 7 0x09 ltac:(lia) ltac:(lia) eq_refl)
      (message_bits bits_msb buffer) 0 ltac:(lia)). split; lia.
  - apply (feed_range 16), (conj (Z.le_refl 0) eq_refl). by apply lsb_good.
  - apply (feed_range 32), (conj (Z.le_refl 0) eq_refl). by apply msb_good.
  - apply (feed_range 32); [by apply lsb_good | lia].
  - apply (feed_range 64), (conj (Z.le_refl 0) eq_refl). by apply lsb_good.
Qed.

#[export] Instance crc7_checksum : Checksum 1 fill_crc7 verify_io_u_crc7 any_data.
Proof. apply (le_checksum 1 fio_crc7); [done..|]. intros p. apply (crc_fits p). Qed.
#[export] Instance crc16_checksum : Checksum 2 fill_crc16 verify_io_u_crc16 any_data.
Proof. apply (le_checksum 2 fio_crc16); [done..|]. intros p. apply (crc_fits p). Qed.
#[export] Instance crc32_checksum : Checksum 4 fill_crc32 verify_io_u_crc32 any_data.
Proof. apply (le_checksum 4 fio_crc32); [done..|]. intros p. apply (crc_fits p). Qed.
#[export] Instance crc32c_checksum : Checksum 4 fill_crc32c verify_io_u_crc32c any_data.
Proof. apply (le_checksum 4 fio_crc32c); [done..|]. intros p. apply (crc_fits p). Qed.
#[export] Instance crc64_checksum : Checksum 8 fill_crc64 verify_io_u_crc64 any_data.
Proof. apply (le_checksum 8 fio_crc64); [done..|]. intros p. apply (crc_fits p). Qed.

#[export] Instance md5_checksum : Checksum 16 fill_md5 verify_io_u_md5 any_data.
Proof.
  apply (sum_checksum 16 md5_sum); [done| |].
  - intros h p E. unfold verify_io_u_md5. rewrite E. obind.
    assert (length h = 16%nat) as Hl.
    { unfold md5_sum in E. apply bind_Some in E as (c & _ & E). apply bind_Some in E as (c' & _ & [= <-]).
      by destruct (hash c') as [[[? ?] ?] ?]. }
    by rewrite take_ge, bool_decide_true by (done || lia).
  - intros p Hp. unfold md5_sum.
    destruct (md5_update_repr _ [] p (md5_fresh_repr (replicate 64 Byte.x00) eq_refl)) as (c & E & Hr);
      [unfold any_data in Hp; lia|].
    unfold md5_fresh in E. rewrite E. obind. destruct (md5_final_digest c _ Hr) as (c' & -> & _). obind.
    eexists. split; [done|]. by destruct (hash c') as [[[? ?] ?] ?].
Qed.

Section Memory.
(** These see uninitialised memory: what it holds does not matter. *)
Context (stack : bytes) (array0 : list Z).
Hypothesis Hstack : (128 <= length stack)%nat.
Hypothesis Harray0 : length array0 = 16%nat.

Lemma sha1_checksum : Checksum 20 (fill_sha1 array0) (verify_io_u_sha1 array0) any_data.
Proof.
  apply (sum_checksum 20 (sha1_sum array0)); [done| |].
  - intros h p E. unfold verify_io_u_sha1. rewrite E. obind.
    assert (length h = 20%nat) as Hl.
    { unfold sha1_sum in E. apply bind_Some in E as (c & _ & E). apply bind_Some in E as (c' & _ & [= <-]).
      by destruct (sha1_h c') as [[[[? ?] ?] ?] ?]. }
    by rewrite take_ge, bool_decide_true by (done || lia).
  - intros p Hp. unfold sha1_sum.
    destruct (sha1_update_repr array0 Harray0 _ [] p
      (sha1_init_repr (mkSha1 (0, 0, 0, 0, 0) (replicate 64 Byte.x00) 0) eq_refl)) as (c & -> & Hr);
      [unfold any_data in Hp; lia|].
    obind. destruct (sha1_final_digest array0 Harray0 c _ Hr) as (c' & -> & _). obind.
    eexists. split; [done|]. by destruct (sha1_h c') as [[[[? ?] ?] ?] ?].
Qed.

Lemma xxh_avalanche_fits h : fits 32 (xxh_avalanche h).
Proof.
  unfold xxh_avalanche, mul32. cbv zeta. match goal with |- fits 32 (Z.lxor (u32 ?x) _) => set (y := x) end.
  pose proof (u32_fits y) as Hy. apply lxor_range; [lia | done|].
  rewrite Z.shiftr_div_pow2 by lia. destruct Hy. split; [apply Z.div_pos; lia|].
  apply Z.div_lt_upper_bound; lia.
Qed.

Lemma xxhash_checksum : Checksum 4 (fill_xxhash stack) (verify_io_u_xxhash stack) any_data.
Proof.
  assert (forall p, any_data p -> exists st, XXH32_update XXH_littleEndian (XXH32_init (take 16 stack) 1) p = Some st /\
    XXH32_digest XXH_littleEndian st = Some (xxh_ref 1 p)) as Hx.
  { intros p Hp. destruct (xxh_update_repr XXH_littleEndian 1 _ [] p (xxh_init_repr (take 16 stack) 1 ltac:(len)))
      as (st & E & Hr). exists st. split; [done|]. apply (xxh_digest_run XXH_littleEndian 1 st p Hr).
    unfold any_data in Hp. lia. }
  constructor. intros field p Hl Hp. destruct (Hx p Hp) as (st & E1 & E2). exists (le_split 4 (xxh_ref 1 p)).
  unfold fill_xxhash, verify_io_u_xxhash. cbv zeta. rewrite E1. obind. rewrite E2. obind.
  rewrite copy_to_0, length_le_split, drop_ge, app_nil_r by (rewrite ?length_le_split; lia).
  split; [done|]. split; [done|]. rewrite take_ge by by rewrite length_le_split.
  rewrite le_combine_split, Z.mod_small by apply xxh_avalanche_fits. by rewrite Z.eqb_refl.
Qed.

Lemma copy_to_length (buf : bytes) off (src buf' : bytes) : copy_to buf off src = Some buf' -> length buf' = length buf.
Proof. unfold copy_to. case_match; [|done]. intros [= <-]. bcases. len. Qed.

(** The digest of the four SHA-3 kinds, when the digest buffer has its size. *)
Lemma sha3_sum_run d (sha p : bytes) :
  In d [28; 32; 48; 64] -> length sha = Z.to_nat d -> any_data p ->
  exists c c', fio_sha3_update (fio_sha3_init (sha3_zero sha) d) p = Some c /\ fio_sha3_final c = Some c' /\
    sha3_sha c' = sha3_digest (Z.to_nat (200 - 2 * d)) (Z.to_nat d) p /\ length (sha3_sha c') = Z.to_nat d.
Proof.
  intros Hd Hl Hp. unfold any_data in Hp. set (n := Z.to_nat (200 - 2 * d)).
  assert (0 < n <= 144 /\ n mod 8 = 0)%nat as [Hn Hn8].
  { unfold n. destruct Hd as [<-|[<-|[<-|[<-|[]]]]]; vm_compute; split; lia. }
  destruct (sha3_update_repr n Hn _ [] p (sha3_init_repr (sha3_zero sha) d eq_refl Hd)) as (c & E & Hr & Hm & Hs);
    [lia|].
  cbn [fio_sha3_init md_len sha3_sha sha3_zero] in Hm, Hs.
  destruct (sha3_final_digest n c p Hn Hn8 Hr) as (c' & Hc' & Hdig);
    [rewrite Hm; destruct Hd as [<-|[<-|[<-|[<-|[]]]]]; lia |
     rewrite Hm, Hs, Hl; destruct Hd as [<-|[<-|[<-|[<-|[]]]]]; lia |].
  exists c, c'. split; [done|]. split; [done|].
  assert (length (sha3_sha c') = Z.to_nat d) as Hlen.
  { unfold fio_sha3_final in Hc'. cbv zeta in Hc'. repeat (apply bind_Some in Hc' as (? & ? & Hc')).
    injection Hc' as <-. cbn [sha3_sha]. rewrite <- Hl, <- Hs. by eapply copy_to_length. }
  split; [|done]. rewrite Hm in Hdig. rewrite <- Hdig. by rewrite take_ge by lia.
Qed.

Lemma sha3_checksum d fill check (fsz : nat) :
  In d [28; 32; 48; 64] -> fsz = Z.to_nat d ->
  (forall field p, fill field p = fill_sha3 (fio_sha3_init (sha3_zero field) d) p) ->
  (forall field p, check field p =
     verify_io_u_sha3 (fio_sha3_init (sha3_zero (take fsz stack)) d) field fsz p) ->
  Checksum fsz fill check any_data.
Proof.
  intros Hd -> Hf Hc. constructor. intros field p Hl Hp.
  assert (length (take (Z.to_nat d) stack) = Z.to_nat d) as Hl2.
  { rewrite length_take. destruct Hd as [<-|[<-|[<-|[<-|[]]]]]; lia. }
  destruct (sha3_sum_run d field p Hd Hl Hp) as (c & c' & E1 & E2 & E3 & E4).
  destruct (sha3_sum_run d _ p Hd Hl2 Hp) as (k & k' & F1 & F2 & F3 & F4).
  exists (sha3_sha c'). rewrite Hf, Hc. unfold fill_sha3, verify_io_u_sha3. rewrite E1. obind. rewrite E2. obind.
  rewrite F1. obind. rewrite F2. obind. rewrite E3, F3 in *. by rewrite bool_decide_true.
Qed.

Lemma sha3_224_checksum : Checksum 28 fill_sha3_224 (verify_io_u_sha3_224 stack) any_data.
Proof. apply (sha3_checksum 28); (done || simpl; tauto). Qed.
Lemma sha3_256_checksum : Checksum 32 fill_sha3_256 (verify_io_u_sha3_256 stack) any_data.
Proof. apply (sha3_checksum 32); (done || simpl; tauto). Qed.
Lemma sha3_384_checksum : Checksum 48 fill_sha3_384 (verify_io_u_sha3_384 stack) any_data.
Proof. apply (sha3_checksum 48); (done || simpl; tauto). Qed.
Lemma sha3_512_checksum : Checksum 64 fill_sha3_512 (verify_io_u_sha3_512 stack) any_data.
Proof. apply (sha3_checksum 64); (done || simpl; tauto). Qed.

Lemma sha256_checksum : Checksum 64 fill_sha256 (verify_io_u_sha256 stack) any_data.
Proof.
  constructor. intros field p Hl Hp. unfold any_data in Hp.
  assert (exists f, forall b : bytes, length b = 64%nat -> fill_sha256 b p = Some f /\ length f = 64%nat) as [f Hb].
  2:{ exists f. destruct (Hb field Hl) as [E Hf]. unfold verify_io_u_sha256.
      rewrite (proj1 (Hb (take 64 stack) ltac:(len))). obind. by rewrite bool_decide_true. }
  eexists. intros b Hlb. unfold fill_sha256.
  destruct (sha256_update_repr _ [] p (sha256_init_repr (sha256_zero b) Hlb)) as (c & -> & Hr); [lia|]. obind.
  destruct (sha256_final_buf c _ Hr) as (c' & -> & Hlen & Eb); [simpl; lia|]. obind.
  rewrite Eb in *. split; [reflexivity | exact Hlen].
Qed.

(** The sha512 field is filled by the data only when it has at least one block. *)
Definition one_block (p : bytes) : Prop := (128 <= length p)%nat /\ any_data p.

Lemma sha512_checksum :
  Checksum 128 fill_sha512 (verify_io_u_sha512 (take 128 stack)) one_block.
Proof.
  constructor. intros field p Hl [H1 Hp]. unfold any_data in Hp. eexists.
  split; [apply fill_sha512_run; (done || lia)|]. split.
  - pose proof (rest_lt 128 ltac:(lia) p). len.
  - unfold verify_io_u_sha512. rewrite fill_sha512_run by (done || len). obind.
    by rewrite bool_decide_true.
Qed.
End Memory.

(** * Two calls see different memory

    The stack of a write and of a later read, and the memory of their contexts, are
    not the same: the checks do not depend on them. *)
Lemma sha1_sum_value a p :
  length a = 16%nat -> any_data p -> sha1_sum a p = Some (sha1_words (absorb 64 sha1_compress sha1_iv (p ++ sha1_pad p))).
Proof.
  intros Ha Hp. unfold sha1_sum.
  destruct (sha1_update_repr a Ha _ [] p
    (sha1_init_repr (mkSha1 (0, 0, 0, 0, 0) (replicate 64 Byte.x00) 0) eq_refl)) as (c & -> & Hr);
    [unfold any_data in Hp; lia|].
  obind. destruct (sha1_final_digest a Ha c _ Hr) as (c' & -> & Hd). obind. by rewrite Hd.
Qed.

Lemma verify_xxhash_value st f p :
  (128 <= length st)%nat -> any_data p -> verify_io_u_xxhash st f p = Some (le_combine (take 4 f) =? xxh_ref 1 p).
Proof.
  intros Hs Hp. unfold verify_io_u_xxhash. cbv zeta.
  destruct (xxh_update_repr XXH_littleEndian 1 _ [] p (xxh_init_repr (take 16 st) 1 ltac:(len))) as (c & -> & Hr). obind.
  rewrite (xxh_digest_run XXH_littleEndian 1 c p Hr) by (unfold any_data in Hp; lia). done.
Qed.

Lemma fill_sha256_value p : any_data p -> exists f, forall b : bytes, length b = 64%nat -> fill_sha256 b p = Some f.
Proof.
  intros Hp. unfold any_data in Hp. eexists. intros b Hlb. unfold fill_sha256.
  destruct (sha256_update_repr _ [] p (sha256_init_repr (sha256_zero b) Hlb)) as (c & -> & Hr); [lia|]. obind.
  destruct (sha256_final_buf c _ Hr) as (c' & -> & _ & Eb); [simpl; lia|]. obind. by rewrite Eb.
Qed.

Section TwoMemories.
Context (stack stack' : bytes) (array0 array0' : list Z).
Hypothesis Hstack : (128 <= length stack)%nat.
Hypothesis Hstack' : (128 <= length stack')%nat.
Hypothesis Harray0 : length array0 = 16%nat.
Hypothesis Harray0' : length array0' = 16%nat.

Lemma verify_sha1_memory f p : any_data p -> verify_io_u_sha1 array0 f p = verify_io_u_sha1 array0' f p.
Proof. intros Hp. unfold verify_io_u_sha1. by rewrite !sha1_sum_value. Qed.

Lemma verify_xxhash_memory f p : any_data p -> verify_io_u_xxhash stack f p = verify_io_u_xxhash stack' f p.
Proof. intros Hp. by rewrite !verify_xxhash_value. Qed.

Lemma verify_sha3_memory d (f p : bytes) :
  In d [28; 32; 48; 64] -> any_data p ->
  verify_io_u_sha3 (fio_sha3_init (sha3_zero (take (Z.to_nat d) stack)) d) f (Z.to_nat d) p =
  verify_io_u_sha3 (fio_sha3_init (sha3_zero (take (Z.to_nat d) stack')) d) f (Z.to_nat d) p.
Proof.
  intros Hd Hp.
  assert (forall st : bytes, (128 <= length st)%nat -> length (take (Z.to_nat d) st) = Z.to_nat d) as Hl.
  { intros st Hs. rewrite length_take. destruct Hd as [<-|[<-|[<-|[<-|[]]]]]; lia. }
  destruct (sha3_sum_run stack array0 Hstack Harray0 d _ p Hd (Hl stack Hstack) Hp) as (c & c' & E1 & E2 & E3 & _).
  destruct (sha3_sum_run stack array0 Hstack Harray0 d _ p Hd (Hl stack' Hstack') Hp) as (k & k' & F1 & F2 & F3 & _).
  unfold verify_io_u_sha3. rewrite E1, F1. obind. rewrite E2, F2. obind. by rewrite E3, F3.
Qed.

Lemma verify_sha256_memory f p : any_data p -> verify_io_u_sha256 stack f p = verify_io_u_sha256 stack' f p.
Proof.
  intros Hp. destruct (fill_sha256_value p Hp) as [x Hx]. unfold verify_io_u_sha256. by rewrite !Hx by len.
Qed.

Lemma verify_sha512_memory f p : one_block p ->
  verify_io_u_sha512 (take 128 stack) f p = verify_io_u_sha512 (take 128 stack') f p.
Proof.
  intros [H1 Hp]. unfold any_data in Hp. unfold verify_io_u_sha512. by rewrite !fill_sha512_run by (done || lia || len).
Qed.
End TwoMemories.
