(* ===== verification/Verify.v ===== *)
(** The verify step of fio, src/fio/verify.c and verify.h: the header written in
    front of every block of a write, the loops over the blocks of a buffer that
    write and check headers and checksums, pattern verification and the check of
    trimmed blocks.  Logging and the dumps of failed blocks are left out; the
    checksums come from VerifySum.v through its interface. *)
From S2P Require Import Prelude Mem Blocks Crc Sha512 VerifySum Pattern Rand.

(** * Headers *)

Definition FIO_HDR_MAGIC : Z := 0xacca.

Inductive verify_kind : Type :=
  | VERIFY_NONE | VERIFY_HDR_ONLY | VERIFY_MD5 | VERIFY_CRC64 | VERIFY_CRC32 | VERIFY_CRC32C
  | VERIFY_CRC32C_INTEL | VERIFY_CRC16 | VERIFY_CRC7 | VERIFY_SHA256 | VERIFY_SHA512
  | VERIFY_SHA3_224 | VERIFY_SHA3_256 | VERIFY_SHA3_384 | VERIFY_SHA3_512 | VERIFY_XXHASH
  | VERIFY_SHA1 | VERIFY_PATTERN | VERIFY_PATTERN_NO_HDR | VERIFY_NULL.

#[global] Instance verify_kind_eq_dec : EqDecision verify_kind.
Proof. solve_decision. Defined.

(** The values of the enum, in order from 0. *)
Definition verify_kinds : list verify_kind :=
  [VERIFY_NONE; VERIFY_HDR_ONLY; VERIFY_MD5; VERIFY_CRC64; VERIFY_CRC32; VERIFY_CRC32C;
   VERIFY_CRC32C_INTEL; VERIFY_CRC16; VERIFY_CRC7; VERIFY_SHA256; VERIFY_SHA512;
   VERIFY_SHA3_224; VERIFY_SHA3_256; VERIFY_SHA3_384; VERIFY_SHA3_512; VERIFY_XXHASH;
   VERIFY_SHA1; VERIFY_PATTERN; VERIFY_PATTERN_NO_HDR; VERIFY_NULL].

Definition verify_of_code (z : Z) : option verify_kind :=
  if 0 <=? z then verify_kinds !! Z.to_nat z else None.

Definition verify_code (k : verify_kind) : Z :=
  match k with
  | VERIFY_NONE => 0 | VERIFY_HDR_ONLY => 1 | VERIFY_MD5 => 2 | VERIFY_CRC64 => 3 | VERIFY_CRC32 => 4
  | VERIFY_CRC32C => 5 | VERIFY_CRC32C_INTEL => 6 | VERIFY_CRC16 => 7 | VERIFY_CRC7 => 8
  | VERIFY_SHA256 => 9 | VERIFY_SHA512 => 10 | VERIFY_SHA3_224 => 11 | VERIFY_SHA3_256 => 12
  | VERIFY_SHA3_384 => 13 | VERIFY_SHA3_512 => 14 | VERIFY_XXHASH => 15 | VERIFY_SHA1 => 16
  | VERIFY_PATTERN => 17 | VERIFY_PATTERN_NO_HDR => 18 | VERIFY_NULL => 19
  end.

Record verify_header : Type := mkHdr {
  magic : Z;         (* uint16_t *)
  verify_type : Z;   (* uint16_t *)
  hlen : Z;          (* uint32_t len *)
  hrand_seed : Z;    (* uint64_t *)
  hoffset : Z;       (* uint64_t *)
  time_sec : Z;      (* uint32_t *)
  time_usec : Z;     (* uint32_t *)
  thread : Z;        (* uint16_t *)
  hnumberio : Z;     (* uint16_t *)
  hcrc32 : Z         (* uint32_t *)
}.

(** [sizeof(struct verify_header)] and the size of the fields before [crc32]. *)
Definition HDR : Z := 40.
Definition HDR_CRC : Z := 36.

(** The fields before the checksum, and the whole header, in memory. *)
Definition hdr_front (h : verify_header) : bytes :=
  le_split 2 (magic h) ++ le_split 2 (verify_type h) ++ le_split 4 (hlen h) ++ le_split 8 (hrand_seed h) ++
  le_split 8 (hoffset h) ++ le_split 4 (time_sec h) ++ le_split 4 (time_usec h) ++ le_split 2 (thread h) ++
  le_split 2 (hnumberio h).
Definition hdr_bytes (h : verify_header) : bytes := hdr_front h ++ le_split 4 (hcrc32 h).

(** [n] bytes at [i] as a number. *)
Definition field_at (b : bytes) (i n : nat) : Z := le_combine (take n (drop i b)).

Definition hdr_of_bytes (b : bytes) : verify_header :=
  mkHdr (field_at b 0 2) (field_at b 2 2) (field_at b 4 4) (field_at b 8 8) (field_at b 16 8)
    (field_at b 24 4) (field_at b 28 4) (field_at b 32 2) (field_at b 34 2) (field_at b 36 4).

(** The header at [p]. *)
Definition read_hdr (buf : bytes) (p : Z) : option verify_header :=
  b ← copy_from buf p HDR; Some (hdr_of_bytes b).

(** The size of the checksum field of a kind. *)
Definition vhdr_size (k : verify_kind) : Z :=
  match k with
  | VERIFY_NONE | VERIFY_HDR_ONLY | VERIFY_NULL | VERIFY_PATTERN | VERIFY_PATTERN_NO_HDR => 0
  | VERIFY_MD5 => 16
  | VERIFY_CRC64 => 8
  | VERIFY_CRC32C | VERIFY_CRC32 | VERIFY_CRC32C_INTEL => 4
  | VERIFY_CRC16 => 2
  | VERIFY_CRC7 => 1
  | VERIFY_SHA256 => 64
  | VERIFY_SHA512 => 128
  | VERIFY_SHA3_224 => 28
  | VERIFY_SHA3_256 => 32
  | VERIFY_SHA3_384 => 48
  | VERIFY_SHA3_512 => 64
  | VERIFY_XXHASH => 4
  | VERIFY_SHA1 => 20
  end.

(** An unknown type ends in [assert(0)]. *)
Definition __hdr_size (verify_type : Z) : option Z :=
  k ← verify_of_code verify_type;
  match k with
  | VERIFY_PATTERN_NO_HDR => Some 0
  | k => Some (vhdr_size k + HDR)
  end.

(** * The thread and the I/O unit: the fields verify.c uses *)

Record thread_options : Type := mkOpts {
  verify : verify_kind;
  verify_interval : Z;
  verify_offset : Z;
  verify_pattern : bytes;            (* char verify_pattern[MAX_PATTERN_SIZE] *)
  verify_pattern_bytes : Z;
  verify_fmt : list (pattern_fmt Z);
  compress_percentage : Z;
  buffer_pattern : bytes;
  buffer_pattern_bytes : Z;
  verify_fatal : bool;
  verifysort : bool;
  trim_zero : bool;
  time_based : bool;
  verify_only : bool;
  loops : Z
}.

Record thread_data : Type := mkTd {
  o : thread_options;
  TD_F_VER_BACKLOG : bool;
  td_write : bool;
  td_min_bs : Z;
  td_max_bs : Z;
  td_fakeio : bool;          (* td_ioengine_flagged(td, FIO_FAKEIO) *)
  thread_number : Z;
  io_issues : Z;             (* of the direction of the I/O unit *)
  verify_state : frand_state;
  terminate : bool
}.

Record io_u : Type := mkIoU {
  buf : bytes;
  buflen : Z;
  offset : Z;
  rand_seed : Z;
  numberio : Z;
  start_sec : Z;
  start_nsec : Z;
  ddir_read : bool;
  trimmed : bool;
  buf_filled_len : Z
}.

Definition with_pattern (td : thread_data) (p : bytes) : thread_data :=
  let '(mkOpts a b c _ e f g h i j k l m n q) := o td in
  mkTd (mkOpts a b c p e f g h i j k l m n q) (TD_F_VER_BACKLOG td) (td_write td) (td_min_bs td) (td_max_bs td)
    (td_fakeio td) (thread_number td) (io_issues td) (verify_state td) (terminate td).
Definition with_state (td : thread_data) (st : frand_state) : thread_data :=
  mkTd (o td) (TD_F_VER_BACKLOG td) (td_write td) (td_min_bs td) (td_max_bs td)
    (td_fakeio td) (thread_number td) (io_issues td) st (terminate td).
Definition mark_terminate (td : thread_data) : thread_data :=
  mkTd (o td) (TD_F_VER_BACKLOG td) (td_write td) (td_min_bs td) (td_max_bs td)
    (td_fakeio td) (thread_number td) (io_issues td) (verify_state td) true.
Definition with_buf (io : io_u) (b : bytes) : io_u :=
  mkIoU b (buflen io) (offset io) (rand_seed io) (numberio io) (start_sec io) (start_nsec io) (ddir_read io)
    (trimmed io) (buf_filled_len io).
Definition with_seed (io : io_u) (s : Z) : io_u :=
  mkIoU (buf io) (buflen io) (offset io) s (numberio io) (start_sec io) (start_nsec io) (ddir_read io)
    (trimmed io) (buf_filled_len io).
Definition with_filled (io : io_u) (n : Z) : io_u :=
  mkIoU (buf io) (buflen io) (offset io) (rand_seed io) (numberio io) (start_sec io) (start_nsec io)
    (ddir_read io) (trimmed io) n.
Definition with_numberio (io : io_u) (n : Z) : io_u :=
  mkIoU (buf io) (buflen io) (offset io) (rand_seed io) n (start_sec io) (start_nsec io) (ddir_read io)
    (trimmed io) (buf_filled_len io).

Definition hdr_size (td : thread_data) (buf : bytes) (p : Z) : option Z :=
  if decide (verify (o td) = VERIFY_PATTERN_NO_HDR) then Some 0
  else h ← read_hdr buf p; __hdr_size (verify_type h).

Definition get_hdr_inc (td : thread_data) (io : io_u) : Z :=
  if negb (verify_interval (o td) =? 0) && (verify_interval (o td) <=? buflen io)
  then verify_interval (o td) else u32 (buflen io).

(** Two memory areas that overlap may not be given to memcpy. *)
Definition memswp (buf : bytes) (buf1 buf2 len : Z) : option bytes :=
  if 200 <? len then None
  else if len =? 0 then Some buf
  else if Z.abs (buf1 - buf2) <? len then None
  else
    swap ← copy_from buf buf1 len;
    src ← copy_from buf buf2 len;
    buf ← copy_to buf buf1 src;
    copy_to buf buf2 swap.

(** * Writing *)

Section Verify.
(** The uninitialised memory the checksums see. *)
Context (stack : bytes) (array0 : list Z).

(** [fill_verify_pattern] at the start of the buffer. *)
Definition fill_verify_pattern (td : thread_data) (io : io_u) (len seed : Z) (use_seed : bool) :
    option (thread_data * io_u) :=
  if verify_pattern_bytes (o td) =? 0 then
    if use_seed then
      b ← __fill_random_buf_percentage (S (Z.to_nat len)) seed (buf io) 0 (compress_percentage (o td)) len len
            (buffer_pattern (o td)) (buffer_pattern_bytes (o td));
      Some (td, with_buf io b)
    else
      '(r, st, b) ← fill_random_buf_percentage (S (Z.to_nat len)) (verify_state td) (buf io) 0
            (compress_percentage (o td)) len len (buffer_pattern (o td)) (buffer_pattern_bytes (o td));
      Some (with_state td st, with_seed (with_buf io b) r)
  else if bool_decide (verify_fmt (o td) = []) && (len <=? buf_filled_len io) then Some (td, io)
  else
    '(_, b) ← paste_format (verify_pattern (o td)) (verify_pattern_bytes (o td)) (verify_fmt (o td))
          (buf io) len (offset io);
    Some (td, with_filled (with_buf io b) len).

(** [__fill_hdr]: the checksum is over the fields before it. *)
Definition new_hdr (td : thread_data) (io : io_u) (header_num header_len rand_seed crc : Z) : verify_header :=
  mkHdr FIO_HDR_MAGIC (u16 (verify_code (verify (o td)))) (u32 header_len) (u64 rand_seed)
    (u64 (offset io + u32 (header_num * verify_interval (o td)))) (u32 (start_sec io))
    (u32 (start_nsec io / 1000)) (u16 (thread_number td)) (u16 (numberio io)) crc.

Definition __fill_hdr (td : thread_data) (io : io_u) (buf : bytes) (p header_num header_len rand_seed : Z) :
    option bytes :=
  buf ← copy_to buf p (hdr_front (new_hdr td io header_num header_len rand_seed 0));
  front ← copy_from buf p HDR_CRC;
  crc ← fio_crc32c front;
  copy_to buf (p + HDR_CRC) (le_split 4 crc).

Definition fill_hdr (td : thread_data) (io : io_u) (buf : bytes) (p header_num header_len rand_seed : Z) :
    option bytes :=
  if decide (verify (o td) = VERIFY_PATTERN_NO_HDR) then Some buf
  else __fill_hdr td io buf p header_num header_len rand_seed.

(** A fill function applied to the field after the header at [p] and to the data. *)
Definition fill_field (fsz : Z) (fill : bytes -> bytes -> option bytes) (buf : bytes) (p data data_len : Z) :
    option bytes :=
  field ← copy_from buf (p + HDR) fsz;
  d ← copy_from buf data data_len;
  field ← fill field d;
  copy_to buf (p + HDR) field.

(** The switch of [populate_hdr]; the default case ends in [assert(0)]. *)
Definition fill_switch (k : verify_kind) (buf : bytes) (p data data_len : Z) : option bytes :=
  match k with
  | VERIFY_MD5 => fill_field 16 fill_md5 buf p data data_len
  | VERIFY_CRC64 => fill_field 8 fill_crc64 buf p data data_len
  | VERIFY_CRC32C | VERIFY_CRC32C_INTEL => fill_field 4 fill_crc32c buf p data data_len
  | VERIFY_CRC32 => fill_field 4 fill_crc32 buf p data data_len
  | VERIFY_CRC16 => fill_field 2 fill_crc16 buf p data data_len
  | VERIFY_CRC7 => fill_field 1 fill_crc7 buf p data data_len
  | VERIFY_SHA256 => fill_field 64 fill_sha256 buf p data data_len
  | VERIFY_SHA512 => fill_field 128 fill_sha512 buf p data data_len
  | VERIFY_SHA3_224 => fill_field 28 fill_sha3_224 buf p data data_len
  | VERIFY_SHA3_256 => fill_field 32 fill_sha3_256 buf p data data_len
  | VERIFY_SHA3_384 => fill_field 48 fill_sha3_384 buf p data data_len
  | VERIFY_SHA3_512 => fill_field 64 fill_sha3_512 buf p data data_len
  | VERIFY_XXHASH => fill_field 4 (fill_xxhash stack) buf p data data_len
  | VERIFY_SHA1 => fill_field 20 (fill_sha1 array0) buf p data data_len
  | VERIFY_HDR_ONLY | VERIFY_PATTERN | VERIFY_PATTERN_NO_HDR => Some buf
  | VERIFY_NONE | VERIFY_NULL => None
  end.

Definition populate_hdr (td : thread_data) (io : io_u) (buf : bytes) (p header_num header_len : Z) :
    option bytes :=
  buf ← fill_hdr td io buf p header_num header_len (rand_seed io);
  hs ← hdr_size td buf p;
  let data_len := u32 (header_len - hs) in
  buf ← fill_switch (verify (o td)) buf p (p + hs) data_len;
  hs ← hdr_size td buf p;
  if negb (verify_offset (o td) =? 0) && negb (hs =? 0)
  then memswp buf p (p + verify_offset (o td)) hs else Some buf.

(** [for (; p < io_u->buf + io_u->buflen; p += hdr_inc)]. *)
Fixpoint headers_loop (fuel : nat) (td : thread_data) (io : io_u) (b : bytes) (p hdr_inc header_num : Z) :
    option bytes :=
  match fuel with
  | O => None
  | S fuel' =>
      if p <? buflen io then
        b ← populate_hdr td io b p header_num hdr_inc;
        headers_loop fuel' td io b (p + hdr_inc) hdr_inc (u32 (header_num + 1))
      else Some b
  end.

Definition fill_pattern_headers (td : thread_data) (io : io_u) (seed : Z) (use_seed : bool) :
    option (thread_data * io_u) :=
  '(td, io) ← fill_verify_pattern td io (u32 (buflen io)) seed use_seed;
  let hdr_inc := get_hdr_inc td io in
  b ← headers_loop (S (Z.to_nat (buflen io))) td io (buf io) 0 hdr_inc 0;
  Some (td, with_buf io b).

Definition populate_verify_io_u (td : thread_data) (io : io_u) : option (thread_data * io_u) :=
  if decide (verify (o td) = VERIFY_NULL) then Some (td, io)
  else fill_pattern_headers td (with_numberio io (u16 (io_issues td))) 0 false.

(** * Checking *)

(** The slow path of [verify_io_u_pattern]; no value when the loop ends without a
    difference, which the code takes for unreachable. *)
Fixpoint pattern_slow (buf pattern : bytes) (start i mod_ pattern_bytes : Z) (left_ : nat) : option Z :=
  match left_ with
  | O => None
  | S left' =>
      x ← copy_from buf (start + i) 1;
      y ← copy_from pattern mod_ 1;
      if decide (x <> y) then Some EILSEQ
      else
        let mod_ := mod_ + 1 in
        pattern_slow buf pattern start (i + 1) (if mod_ =? pattern_bytes then 0 else mod_) pattern_bytes left'
  end.

(** The pattern of the options is pasted in place. *)
Definition verify_io_u_pattern (td : thread_data) (io : io_u) (p hdr_num : Z) : option (Z * thread_data) :=
  header_size ← __hdr_size (verify_code (verify (o td)));
  let pattern_size := verify_pattern_bytes (o td) in
  if pattern_size =? 0 then None
  else
    '(_, pattern) ← paste_format_inplace (verify_pattern (o td)) pattern_size (verify_fmt (o td)) (offset io);
    let td := with_pattern td pattern in
    let start := p + header_size in
    let len := u32 (get_hdr_inc td io - header_size) in
    let mod_ := u32 (u32 (get_hdr_inc td io * hdr_num) + header_size) mod pattern_size in
    tail ← copy_from (buf io) start (Z.of_nat (length (buf io)) - start);
    rc ← cmp_pattern pattern pattern_size mod_ tail len;
    if rc =? 0 then Some (0, td)
    else
      ret ← pattern_slow (buf io) pattern start 0 mod_ pattern_size (Z.to_nat len);
      Some (ret, td).

(** A verify function applied to the field after the header at [p] and to the
    data [io_u_verify_off] finds. *)
Definition verify_field (fsz : Z) (check : bytes -> bytes -> option bool) (td : thread_data) (io : io_u)
    (p hdr_num : Z) : option Z :=
  h ← read_hdr (buf io) p;
  hs ← hdr_size td (buf io) p;
  field ← copy_from (buf io) (p + HDR) fsz;
  d ← copy_from (buf io) (u32 (hdr_num * hlen h) + hs) (u32 (hlen h - hs));
  same ← check field d;
  Some (if (same : bool) then 0 else EILSEQ).

(** The switch of [verify_io_u]. *)
Definition verify_switch (verify_type : option verify_kind) (td : thread_data) (io : io_u) (p hdr_num ret : Z) :
    option (Z * thread_data) :=
  let sum fsz check := ret ← verify_field fsz check td io p hdr_num; Some (ret, td) in
  match verify_type with
  | Some VERIFY_HDR_ONLY =>
      if negb (verify_pattern_bytes (o td) =? 0) then verify_io_u_pattern td io p hdr_num else Some (ret, td)
  | Some VERIFY_MD5 => sum 16 verify_io_u_md5
  | Some VERIFY_CRC64 => sum 8 verify_io_u_crc64
  | Some VERIFY_CRC32C | Some VERIFY_CRC32C_INTEL => sum 4 verify_io_u_crc32c
  | Some VERIFY_CRC32 => sum 4 verify_io_u_crc32
  | Some VERIFY_CRC16 => sum 2 verify_io_u_crc16
  | Some VERIFY_CRC7 => sum 1 verify_io_u_crc7
  | Some VERIFY_SHA256 => sum 64 (verify_io_u_sha256 stack)
  | Some VERIFY_SHA512 => sum 128 (verify_io_u_sha512 (take 128 stack))
  | Some VERIFY_SHA3_224 => sum 28 (verify_io_u_sha3_224 stack)
  | Some VERIFY_SHA3_256 => sum 32 (verify_io_u_sha3_256 stack)
  | Some VERIFY_SHA3_384 => sum 48 (verify_io_u_sha3_384 stack)
  | Some VERIFY_SHA3_512 => sum 64 (verify_io_u_sha3_512 stack)
  | Some VERIFY_XXHASH => sum 4 (verify_io_u_xxhash stack)
  | Some VERIFY_SHA1 => sum 20 (verify_io_u_sha1 array0)
  | Some VERIFY_PATTERN | Some VERIFY_PATTERN_NO_HDR => verify_io_u_pattern td io p hdr_num
  | Some VERIFY_NONE | Some VERIFY_NULL | None => Some (EINVAL, td)
  end.

Definition check_numberio (td : thread_data) : bool :=
  td_write td && (td_min_bs td =? td_max_bs td) && negb (time_based (o td)) &&
  (negb (verify_only (o td)) || (loops (o td) =? 0)).

Definition verify_header_ (io : io_u) (td : thread_data) (p hdr_num hdr_len : Z) : option Z :=
  h ← read_hdr (buf io) p;
  if negb (magic h =? FIO_HDR_MAGIC) then Some EILSEQ
  else if negb (hlen h =? hdr_len) then Some EILSEQ
  else if negb (hrand_seed h =? rand_seed io) then Some EILSEQ
  else if negb (hoffset h =? u64 (offset io + u32 (hdr_num * verify_interval (o td)))) then Some EILSEQ
  else if check_numberio td && negb (hnumberio h =? numberio io) then Some EILSEQ
  else
    front ← copy_from (buf io) p HDR_CRC;
    crc ← fio_crc32c front;
    if negb (crc =? hcrc32 h) then Some EILSEQ else Some 0.

(** Data all of whose bytes are zero: the first 16 bytes one by one, then the data
    compared with itself shifted by 16. *)
Fixpoint zero_prefix (len : nat) (data : bytes) (p length : Z) : option (bool + Z * Z) :=
  match len with
  | O => Some (inr (p, length))
  | S len' =>
      if length =? 0 then Some (inl true)
      else
        b ← copy_from data p 1;
        if negb (le_combine b =? 0) then Some (inl false)
        else zero_prefix len' data (p + 1) (length - 1)
  end.

Definition mem_is_zero (data : bytes) (length : Z) : option bool :=
  r ← zero_prefix 16 data 0 length;
  match r with
  | inl res => Some res
  | inr (p, length) => memcmp_eq data 0 data p length
  end.

(** The result and [*offset]. *)
Fixpoint mem_is_zero_slow (data : bytes) (p offset : Z) (length : nat) : option (bool * Z) :=
  match length with
  | O => Some (true, offset)
  | S length' =>
      b ← copy_from data p 1;
      if negb (le_combine b =? 0) then Some (false, offset)
      else mem_is_zero_slow data (p + 1) (offset + 1) length'
  end.

(** The result, and the block offset reported in the message. *)
Definition verify_trimmed_io_u (td : thread_data) (io : io_u) : option (Z * option Z) :=
  if negb (trim_zero (o td)) then Some (0, None)
  else
    z ← mem_is_zero (buf io) (buflen io);
    if (z : bool) then Some (0, None)
    else
      '(_, off) ← mem_is_zero_slow (buf io) 0 0 (Z.to_nat (buflen io));
      Some (EILSEQ, Some off).

(** The loop of [verify_io_u].  A bad header returns at once ([inl]); otherwise
    the loop ends with the [ret] of its last turn ([inr]). *)
Fixpoint verify_loop (fuel : nat) (td : thread_data) (io : io_u) (p hdr_inc hdr_num ret : Z) :
    option ((Z + Z) * thread_data * io_u) :=
  match fuel with
  | O => None
  | S fuel' =>
      if p <? buflen io then
        if negb (ret =? 0) && verify_fatal (o td) then Some (inr ret, td, io)
        else
          header_size ← __hdr_size (verify_code (verify (o td)));
          b ← (if negb (verify_offset (o td) =? 0) then memswp (buf io) p (p + verify_offset (o td)) header_size
               else Some (buf io));
          let io := with_buf io b in
          io ← (if verifysort (o td) || TD_F_VER_BACKLOG td
                then seed ← copy_from (buf io) (p + 8) 8; Some (with_seed io (le_combine seed)) else Some io);
          ret ← (if decide (verify (o td) = VERIFY_PATTERN_NO_HDR) then Some ret
                 else verify_header_ io td p hdr_num hdr_inc);
          if bool_decide (verify (o td) <> VERIFY_PATTERN_NO_HDR) && negb (ret =? 0) then Some (inl ret, td, io)
          else
            kind ← (if decide (verify (o td) = VERIFY_NONE)
                    then h ← read_hdr (buf io) p; Some (verify_of_code (verify_type h))
                    else Some (Some (verify (o td))));
            '(ret, td) ← verify_switch kind td io p hdr_num ret;
            verify_loop fuel' td io (p + hdr_inc) hdr_inc (u32 (hdr_num + 1)) ret
      else Some (inr ret, td, io)
  end.

Definition verify_io_u (td : thread_data) (io : io_u) : option (Z * thread_data * io_u) :=
  if decide (verify (o td) = VERIFY_NULL) then Some (0, td, io)
  else if negb (ddir_read io) then Some (0, td, io)
  else if td_fakeio td then Some (0, td, io)
  else
    let done_ ret td io := (ret, if negb (ret =? 0) && verify_fatal (o td) then mark_terminate td else td, io) in
    if trimmed io then
      '(ret, _) ← verify_trimmed_io_u td io; Some (done_ ret td io)
    else
      '(r, td, io) ← verify_loop (S (Z.to_nat (buflen io))) td io 0 (get_hdr_inc td io) 0 0;
      Some (match r with inl ret => (ret, td, io) | inr ret => done_ ret td io end).
End Verify.

(** * Headers in memory *)

Lemma field_at_skip m v (y : bytes) i j n : i = (m + j)%nat -> field_at (le_split m v ++ y) i n = field_at y j n.
Proof. intros ->. unfold field_at. by rewrite drop_app_add' by by rewrite length_le_split. Qed.

Lemma field_at_here n v (y : bytes) : fits (8 * Z.of_nat n) v -> field_at (le_split n v ++ y) 0 n = v.
Proof.
  intros H. unfold field_at. rewrite drop_0, take_app_le, take_ge, le_combine_split by (rewrite length_le_split; lia).
  apply Z.mod_small. by rewrite Z.mul_comm.
Qed.

Lemma field_at_last n v : fits (8 * Z.of_nat n) v -> field_at (le_split n v) 0 n = v.
Proof. intros H. rewrite <- (app_nil_r (le_split n v)). by apply field_at_here. Qed.

Definition hdr_fits (h : verify_header) : Prop :=
  fits 16 (magic h) /\ fits 16 (verify_type h) /\ fits 32 (hlen h) /\ fits 64 (hrand_seed h) /\
  fits 64 (hoffset h) /\ fits 32 (time_sec h) /\ fits 32 (time_usec h) /\ fits 16 (thread h) /\
  fits 16 (hnumberio h) /\ fits 32 (hcrc32 h).

(** Read one field of a concatenation of fields. *)
Ltac read_field :=
  lazymatch goal with
  | |- field_at (le_split ?n _ ++ _) O ?n = _ => by apply field_at_here
  | |- field_at (le_split ?n _) O ?n = _ => by apply field_at_last
  | |- field_at (le_split ?m _ ++ _) ?i _ = _ =>
      let j := eval compute in (i - m)%nat in rewrite (field_at_skip m _ _ i j) by done; read_field
  end.

Lemma hdr_roundtrip h : hdr_fits h -> hdr_of_bytes (hdr_bytes h) = h.
Proof.
  intros (F1 & F2 & F3 & F4 & F5 & F6 & F7 & F8 & F9 & F10). destruct h. cbn in *.
  unfold hdr_of_bytes, hdr_bytes, hdr_front. cbn [magic verify_type hlen hrand_seed hoffset time_sec time_usec
    thread hnumberio hcrc32]. rewrite <- !app_assoc. f_equal; read_field.
Qed.

Lemma length_hdr_front h : length (hdr_front h) = 36%nat.
Proof. done. Qed.
Lemma length_hdr_bytes h : length (hdr_bytes h) = 40%nat.
Proof. done. Qed.

#[export] Hint Rewrite length_hdr_front length_hdr_bytes : nvslen.

Lemma verify_of_code_code k : verify_of_code (verify_code k) = Some k.
Proof. by destruct k. Qed.

Lemma u16_code k : u16 (verify_code k) = verify_code k.
Proof. by destruct k. Qed.

(** * One block *)

(** The sizes of the header with its checksum field. *)
Definition hsize (k : verify_kind) : nat :=
  if decide (k = VERIFY_PATTERN_NO_HDR) then 0%nat else Z.to_nat (vhdr_size k + HDR).

Lemma hdr_size_code k : __hdr_size (verify_code k) = Some (Z.of_nat (hsize k)).
Proof. by destruct k. Qed.

Lemma hsize_le k : (hsize k <= 168)%nat.
Proof. destruct k; vm_compute; lia. Qed.

(** The first [n] bytes of a block exchanged with those at [v]. *)
Definition swap_block (b : bytes) (n v : nat) : bytes :=
  take n (drop v b) ++ take (v - n) (drop n b) ++ take n b ++ drop (v + n) b.

Lemma length_swap_block (b : bytes) n v : (n <= v)%nat -> (v + n <= length b)%nat -> length (swap_block b n v) = length b.
Proof. intros H1 H2. unfold swap_block. len. Qed.

Lemma block_split4 (b : bytes) n v :
  (n <= v)%nat -> (v + n <= length b)%nat ->
  exists x m y z, b = x ++ m ++ y ++ z /\ length x = n /\ length y = n /\ length m = (v - n)%nat.
Proof.
  intros H1 H2. exists (take n b), (take (v - n) (drop n b)), (take n (drop v b)), (drop (v + n) b).
  split; [|split_and!; len]. rewrite <- (take_drop n b) at 1. f_equal.
  rewrite <- (take_drop (v - n) (drop n b)) at 1. f_equal. rewrite drop_drop.
  replace (n + (v - n))%nat with v by lia. rewrite <- (take_drop n (drop v b)) at 1. f_equal.
  by rewrite drop_drop.
Qed.

Lemma swap_block_parts (x m y z : bytes) n v :
  length x = n -> length y = n -> length m = (v - n)%nat -> (n <= v)%nat ->
  swap_block (x ++ m ++ y ++ z) n v = y ++ m ++ x ++ z.
Proof.
  intros Hx Hy Hm Hn. unfold swap_block.
  assert (drop v (x ++ m ++ y ++ z) = y ++ z) as ->.
  { rewrite app_assoc. apply drop_app_length'. len. }
  assert (drop (v + n) (x ++ m ++ y ++ z) = z) as ->.
  { rewrite !app_assoc. apply drop_app_length'. len. }
  rewrite !(take_app_length' y), (take_app_length' x), (drop_app_length' x), (take_app_length' m) by done. done.
Qed.

Lemma swap_block_twice (b : bytes) n v :
  (n <= v)%nat -> (v + n <= length b)%nat -> swap_block (swap_block b n v) n v = b.
Proof.
  intros H1 H2. destruct (block_split4 b n v H1 H2) as (x & m & y & z & -> & Hx & Hy & Hm).
  by rewrite !swap_block_parts by lia.
Qed.

Lemma memswp_block (a b c : bytes) (n v : nat) p q :
  p = Z.of_nat (length a) -> q = Z.of_nat (length a + v) -> (n <= 200)%nat -> (n <= v)%nat ->
  (v + n <= length b)%nat -> (0 < n)%nat ->
  memswp (a ++ b ++ c) p q (Z.of_nat n) = Some (a ++ swap_block b n v ++ c).
Proof.
  intros -> -> H200 H1 H2 H0. unfold memswp.
  rewrite (proj2 (Z.ltb_ge _ _)), (proj2 (Z.eqb_neq _ _)), (proj2 (Z.ltb_ge _ _)) by lia.
  destruct (block_split4 b n v H1 H2) as (x & m & y & z & -> & Hx & Hy & Hm).
  rewrite (copy_from_mid a _ c (Z.of_nat (length a)) _ 0 n), (copy_from_mid a _ c (Z.of_nat (length a + v)) _ v n) by len.
  obind.
  rewrite drop_0, (take_app_length' x) by done.
  assert (drop v (x ++ m ++ y ++ z) = y ++ z) as ->.
  { rewrite app_assoc. apply drop_app_length'. len. }
  rewrite (take_app_length' y) by done.
  rewrite (copy_to_mid a _ c _ 0 y) by len. obind.
  assert (splice (x ++ m ++ y ++ z) 0 y = y ++ m ++ y ++ z) as ->.
  { unfold splice. rewrite take_0, Nat.add_0_l, drop_app_length' by lia. done. }
  rewrite (copy_to_mid a _ c _ v x) by len. do 2 f_equal.
  rewrite swap_block_parts by done. f_equal. unfold splice.
  rewrite (app_assoc y m (y ++ z)), take_app_length' by len. rewrite <- (app_assoc y m). do 3 f_equal.
  rewrite (app_assoc (y ++ m)). apply drop_app_length'. len.
Qed.

Section Blocks.
Context (stack : bytes) (array0 : list Z).

(** What the proofs need of the uninitialised memory: its size. *)
Definition memory_ok : Prop := (128 <= length stack)%nat /\ length array0 = 16%nat.

(** The kinds with a checksum field, and their verify functions. *)
Definition sum_kind (k : verify_kind) : bool :=
  match k with
  | VERIFY_NONE | VERIFY_HDR_ONLY | VERIFY_PATTERN | VERIFY_PATTERN_NO_HDR | VERIFY_NULL => false
  | _ => true
  end.

Definition sum_check (k : verify_kind) : bytes -> bytes -> option bool :=
  match k with
  | VERIFY_MD5 => verify_io_u_md5
  | VERIFY_CRC64 => verify_io_u_crc64
  | VERIFY_CRC32C | VERIFY_CRC32C_INTEL => verify_io_u_crc32c
  | VERIFY_CRC32 => verify_io_u_crc32
  | VERIFY_CRC16 => verify_io_u_crc16
  | VERIFY_CRC7 => verify_io_u_crc7
  | VERIFY_SHA256 => verify_io_u_sha256 stack
  | VERIFY_SHA512 => verify_io_u_sha512 (take 128 stack)
  | VERIFY_SHA3_224 => verify_io_u_sha3_224 stack
  | VERIFY_SHA3_256 => verify_io_u_sha3_256 stack
  | VERIFY_SHA3_384 => verify_io_u_sha3_384 stack
  | VERIFY_SHA3_512 => verify_io_u_sha3_512 stack
  | VERIFY_XXHASH => verify_io_u_xxhash stack
  | VERIFY_SHA1 => verify_io_u_sha1 array0
  | _ => fun _ _ => Some true
  end.

(** The data a kind can protect. *)
Definition data_ok (k : verify_kind) (d : bytes) : Prop :=
  any_data d /\ (k = VERIFY_SHA512 -> (128 <= length d)%nat).

Lemma fill_field_run fsz fill check ok (a h f d c : bytes) p :
  Checksum fsz fill check ok -> length h = 40%nat -> length f = fsz -> ok d -> p = Z.of_nat (length a) ->
  exists f', length f' = fsz /\ check f' d = Some true /\
    fill_field (Z.of_nat fsz) fill (a ++ (h ++ f ++ d) ++ c) p (p + Z.of_nat (40 + fsz)) (Z.of_nat (length d)) =
    Some (a ++ (h ++ f' ++ d) ++ c).
Proof.
  intros Hsum Hh Hf Hd ->. destruct (fill_accepted f d Hf Hd) as (f' & E & Hl & Hc).
  exists f'. split; [done|]. split; [done|]. unfold fill_field, HDR.
  rewrite (copy_from_mid a _ c (Z.of_nat (length a) + 40) _ 40 fsz) by len. obind.
  rewrite (copy_from_mid a _ c _ _ (40 + fsz) (length d)) by len. obind.
  rewrite (drop_app_length' h), (take_app_length' f) by done.
  assert (drop (40 + fsz) (h ++ f ++ d) = d) as ->.
  { rewrite app_assoc. apply drop_app_length'. len. }
  rewrite (take_ge d) by lia. rewrite E. obind. rewrite (copy_to_mid a _ c _ 40 f') by len.
  do 3 f_equal. unfold splice. rewrite take_app_length' by done. do 2 f_equal.
  rewrite app_assoc. apply drop_app_length'. len.
Qed.

Lemma fill_switch_run k (a h f d c : bytes) p :
  memory_ok -> k <> VERIFY_NONE -> k <> VERIFY_NULL -> k <> VERIFY_PATTERN_NO_HDR ->
  length h = 40%nat -> length f = Z.to_nat (vhdr_size k) -> data_ok k d -> p = Z.of_nat (length a) ->
  exists f', length f' = length f /\ sum_check k f' d = Some true /\
    fill_switch stack array0 k (a ++ (h ++ f ++ d) ++ c) p (p + Z.of_nat (hsize k)) (Z.of_nat (length d)) =
    Some (a ++ (h ++ f' ++ d) ++ c).
Proof.
  intros [Hstack Harray0] H1 H2 H3 Hh Hf [Hd H512] Hp. rewrite Hf.
  destruct k; try done; try (exists f; done); unfold fill_switch, sum_check.
  - apply (fill_field_run 16 _ _ any_data); (done || apply _).
  - apply (fill_field_run 8 _ _ any_data); (done || apply _).
  - apply (fill_field_run 4 _ _ any_data); (done || apply _).
  - apply (fill_field_run 4 _ _ any_data); (done || apply _).
  - apply (fill_field_run 4 _ _ any_data); (done || apply _).
  - apply (fill_field_run 2 _ _ any_data); (done || apply _).
  - apply (fill_field_run 1 _ _ any_data); (done || apply _).
  - apply (fill_field_run 64 _ _ any_data); (done || (eapply sha256_checksum; eassumption)).
  - apply (fill_field_run 128 _ _ one_block); try done; [eapply sha512_checksum; eassumption | split; auto].
  - apply (fill_field_run 28 _ _ any_data); (done || (eapply sha3_224_checksum; eassumption)).
  - apply (fill_field_run 32 _ _ any_data); (done || (eapply sha3_256_checksum; eassumption)).
  - apply (fill_field_run 48 _ _ any_data); (done || (eapply sha3_384_checksum; eassumption)).
  - apply (fill_field_run 64 _ _ any_data); (done || (eapply sha3_512_checksum; eassumption)).
  - apply (fill_field_run 4 _ _ any_data); (done || (eapply xxhash_checksum; eassumption)).
  - apply (fill_field_run 20 _ _ any_data); (done || (eapply sha1_checksum; eassumption)).
Qed.

Lemma read_hdr_run (a x c : bytes) h p :
  hdr_fits h -> p = Z.of_nat (length a) -> read_hdr (a ++ (hdr_bytes h ++ x) ++ c) p = Some h.
Proof.
  intros Hf ->. unfold read_hdr, HDR. rewrite (copy_from_mid a _ c _ _ 0 40) by len. obind.
  rewrite drop_0, take_app_length' by done. by rewrite hdr_roundtrip.
Qed.

Lemma new_hdr_fits td io num inc seed crc : fits 32 crc -> hdr_fits (new_hdr td io num inc seed crc).
Proof. intros Hc. unfold hdr_fits, new_hdr. cbn. split_and!; auto with nvs; by split. Qed.

(** [__fill_hdr] on a block: the header with the checksum of its own front. *)
Lemma fill_hdr_run td io (a b c : bytes) p num inc seed :
  (40 <= length b)%nat -> p = Z.of_nat (length a) ->
  exists crc, let h := new_hdr td io num inc seed crc in
    fits 32 crc /\ fio_crc32c (hdr_front h) = Some crc /\
    __fill_hdr td io (a ++ b ++ c) p num inc seed = Some (a ++ (hdr_bytes h ++ drop 40 b) ++ c).
Proof.
  intros Hb ->. set (front := hdr_front (new_hdr td io num inc seed 0)).
  assert (length front = 36%nat) as Hfr by done.
  destruct (crc_fits front) as (_ & _ & _ & (crc & Ec & Hc) & _). exists crc. cbv zeta.
  split; [done|]. split; [done|]. unfold __fill_hdr, HDR_CRC, fio_crc32c. fold front.
  rewrite (copy_to_mid a b c _ 0 front) by len. obind.
  assert (splice b 0 front = front ++ drop 36 b) as -> by done.
  rewrite (copy_from_mid a _ c _ _ 0 36) by len. obind. rewrite drop_0, take_app_length' by done.
  rewrite Ec. obind. rewrite (copy_to_mid a _ c _ 36 (le_split 4 crc)) by len. do 3 f_equal.
  unfold splice. rewrite take_app_length' by done. rewrite length_le_split.
  assert (drop (36 + 4) (front ++ drop 36 b) = drop 40 b) as ->.
  { rewrite drop_app_ge by lia. rewrite drop_drop. by rewrite Hfr. }
  by rewrite app_assoc.
Qed.

Lemma hdr_size_run td io0 td0 (a x c : bytes) num inc seed crc p :
  verify (o td) = verify (o td0) -> verify (o td) <> VERIFY_PATTERN_NO_HDR -> fits 32 crc ->
  p = Z.of_nat (length a) ->
  hdr_size td (a ++ (hdr_bytes (new_hdr td0 io0 num inc seed crc) ++ x) ++ c) p =
  Some (Z.of_nat (hsize (verify (o td)))).
Proof.
  intros Hk Hne Hc Hp. unfold hdr_size. rewrite decide_False by done.
  rewrite read_hdr_run by (by apply new_hdr_fits || done). obind. cbn [verify_type new_hdr].
  by rewrite u16_code, hdr_size_code, Hk.
Qed.

(** * The layout of the blocks *)

Record layout (td : thread_data) (inc : nat) : Prop := {
  lay_none : verify (o td) <> VERIFY_NONE;
  lay_null : verify (o td) <> VERIFY_NULL;
  lay_hdr : (hsize (verify (o td)) <= inc)%nat;
  lay_inc : (0 < inc)%nat /\ Z.of_nat inc < 2 ^ 32 - 512;
  lay_swap : verify_offset (o td) = 0 \/
    (hsize (verify (o td)) <= Z.to_nat (verify_offset (o td)))%nat /\
    (Z.to_nat (verify_offset (o td)) + hsize (verify (o td)) <= inc)%nat /\ 0 <= verify_offset (o td);
  lay_data : verify (o td) = VERIFY_SHA512 -> (128 <= inc - hsize (verify (o td)))%nat
}.

(** A block with its header moved to [verify_offset]. *)
Definition moved (td : thread_data) (b : bytes) : bytes :=
  if negb (verify_offset (o td) =? 0) && negb (hsize (verify (o td)) =? 0)%nat
  then swap_block b (hsize (verify (o td))) (Z.to_nat (verify_offset (o td))) else b.

(** A block with a good header, whose checksum field is accepted or not. *)
Definition headed (td : thread_data) (io : io_u) (num inc : Z) (same : bool) (b : bytes) : Prop :=
  verify (o td) <> VERIFY_PATTERN_NO_HDR ->
  exists crc f d, let h := new_hdr td io num inc (rand_seed io) crc in
    b = hdr_bytes h ++ f ++ d /\ fits 32 crc /\ fio_crc32c (hdr_front h) = Some crc /\
    length f = Z.to_nat (vhdr_size (verify (o td))) /\ sum_check (verify (o td)) f d = Some same.

Lemma length_moved td inc (b : bytes) : layout td inc -> length b = inc -> length (moved td b) = inc.
Proof.
  intros L Hb. unfold moved. destruct (lay_swap _ _ L) as [->|(H1 & H2 & H3)]; [done|].
  case_match; [|done]. by rewrite length_swap_block by lia.
Qed.

(** The exchange of the header by both sides. *)
Lemma memswp_moved td inc (a b c : bytes) p :
  layout td inc -> length b = inc -> p = Z.of_nat (length a) ->
  (if negb (verify_offset (o td) =? 0) && negb (Z.of_nat (hsize (verify (o td))) =? 0)
   then memswp (a ++ b ++ c) p (p + verify_offset (o td)) (Z.of_nat (hsize (verify (o td))))
   else Some (a ++ b ++ c)) = Some (a ++ moved td b ++ c).
Proof.
  intros L Hb ->. unfold moved. pose proof (hsize_le (verify (o td))) as H168.
  destruct (lay_swap _ _ L) as [->|(H1 & H2 & H3)]; [done|].
  destruct (Z.eqb_spec (verify_offset (o td)) 0) as [E|E]; [done|]. simpl negb. simpl andb.
  destruct (Z.eqb_spec (Z.of_nat (hsize (verify (o td)))) 0) as [E0|E0]; simpl negb; cbv iota.
  { by rewrite (proj2 (Nat.eqb_eq _ _)) by lia. }
  rewrite (proj2 (Nat.eqb_neq _ _)) by lia. simpl negb. cbv iota.
  by rewrite (memswp_block a b c _ (Z.to_nat (verify_offset (o td)))) by lia.
Qed.

Lemma moved_moved td inc (b : bytes) : layout td inc -> length b = inc -> moved td (moved td b) = b.
Proof.
  intros L Hb. unfold moved. destruct (lay_swap _ _ L) as [->|(H1 & H2 & H3)]; [done|].
  destruct (_ && _); [|done]. apply swap_block_twice; lia.
Qed.

Lemma populate_hdr_run td io (a b c : bytes) p num inc :
  memory_ok -> layout td inc -> length b = inc -> p = Z.of_nat (length a) ->
  exists b', length b' = inc /\ headed td io num (Z.of_nat inc) true b' /\
    drop (hsize (verify (o td))) b' = drop (hsize (verify (o td))) b /\
    populate_hdr stack array0 td io (a ++ b ++ c) p num (Z.of_nat inc) = Some (a ++ moved td b' ++ c).
Proof.
  intros Hmem L Hb Hp. pose proof (lay_hdr _ _ L) as Hh. pose proof (lay_inc _ _ L) as [Hi0 Hi].
  set (k := verify (o td)) in *. unfold populate_hdr, fill_hdr. fold k.
  destruct (decide (k = VERIFY_PATTERN_NO_HDR)) as [Ek|Ek].
  - exists b. split; [done|]. split; [intros Hne; done|]. split; [done|]. obind.
    unfold hdr_size. fold k. rewrite decide_True by done. obind. rewrite Ek. cbn [fill_switch]. obind.
    unfold moved. fold k. rewrite Ek. by destruct (negb (verify_offset (o td) =? 0)).
  - assert (hsize k = 40 + Z.to_nat (vhdr_size k))%nat as Hsz.
    { unfold hsize, HDR. rewrite decide_False by done. destruct k; done. }
    destruct (fill_hdr_run td io a b c p num (Z.of_nat inc) (rand_seed io)) as (crc & Hc & Ec & ->); [lia | done|].
    obind. set (h := new_hdr td io num (Z.of_nat inc) (rand_seed io) crc) in *.
    assert (forall x, hdr_size td (a ++ (hdr_bytes h ++ x) ++ c) p = Some (Z.of_nat (hsize k))) as HS
      by (intros x; by apply hdr_size_run).
    rewrite HS. obind. set (f := take (Z.to_nat (vhdr_size k)) (drop 40 b)). set (d := drop (hsize k) b).
    assert (drop 40 b = f ++ d) as ->.
    { unfold f, d. rewrite Hsz, <- drop_drop. by rewrite take_drop. }
    assert (length f = Z.to_nat (vhdr_size k)) as Hf by (unfold f; len).
    assert (length d = inc - hsize k)%nat as Hd by (unfold d; len).
    rewrite u32_small by (split; lia).
    replace (Z.of_nat inc - Z.of_nat (hsize k)) with (Z.of_nat (length d)) by lia.
    destruct (fill_switch_run k a (hdr_bytes h) f d c p) as (f' & Hf' & Hs & ->); try done.
    { apply L. } { apply L. }
    { split; [unfold any_data; lia|]. intros E. pose proof (lay_data _ _ L E). fold k in H. lia. }
    obind. rewrite HS. obind.
    exists (hdr_bytes h ++ f' ++ d). split; [len|]. split.
    { intros _. exists crc, f', d. cbv zeta. fold h. split_and!; try done. by rewrite Hf'. }
    split.
    { rewrite app_assoc. apply drop_app_length'. len. }
    unfold k. apply (memswp_moved td inc a _ c p L); [len | done].
Qed.

(** * Reading a block back *)

(** The reader's view of a write: the same options, the same place, and the seed
    and generation of the write where they are checked. *)
Record reads (td0 : thread_data) (io0 : io_u) (td : thread_data) (io : io_u) : Prop := {
  rd_opts : o td = o td0;
  rd_offset : offset io = offset io0;
  rd_seed : verifysort (o td) || TD_F_VER_BACKLOG td = true \/ rand_seed io = rand_seed io0;
  rd_seed_fits : fits 64 (rand_seed io0);
  rd_numberio : check_numberio td = true -> numberio io = numberio io0;
  rd_numberio_fits : fits 16 (numberio io0)
}.

Lemma verify_header_run td0 io0 td io (a x c : bytes) p num inc crc :
  let h := new_hdr td0 io0 num inc (rand_seed io0) crc in
  reads td0 io0 td io -> buf io = a ++ (hdr_bytes h ++ x) ++ c -> p = Z.of_nat (length a) ->
  fits 32 crc -> fio_crc32c (hdr_front h) = Some crc -> rand_seed io = rand_seed io0 -> fits 32 inc ->
  verify_header_ io td p num inc = Some 0.
Proof.
  intros h R Hb Hp Hc Ec Hs Hi. unfold verify_header_. rewrite Hb.
  rewrite read_hdr_run by (done || by apply new_hdr_fits). obind.
  cbn [h new_hdr magic hlen hrand_seed hoffset hnumberio hcrc32].
  rewrite Z.eqb_refl. simpl negb. cbv iota.
  rewrite (u32_small inc), Z.eqb_refl by done. simpl negb. cbv iota.
  rewrite Hs, (u64_small (rand_seed io0)), Z.eqb_refl by apply R. simpl negb. cbv iota.
  rewrite (rd_offset _ _ _ _ R), (rd_opts _ _ _ _ R), Z.eqb_refl. simpl negb. cbv iota.
  assert (check_numberio td && negb (u16 (numberio io0) =? numberio io) = false) as ->.
  { destruct (check_numberio td) eqn:E; [|done]. rewrite (rd_numberio _ _ _ _ R E).
    unfold u16. rewrite Z.mod_small by apply R. by rewrite Z.eqb_refl. }
  unfold HDR_CRC. rewrite (copy_from_mid a _ c _ _ 0 36) by len. obind. rewrite drop_0.
  assert (take 36 (hdr_bytes h ++ x) = hdr_front h) as ->.
  { unfold hdr_bytes. rewrite <- app_assoc. by apply take_app_length'. }
  rewrite Ec. obind. by rewrite Z.eqb_refl.
Qed.

Lemma verify_field_run fsz check td0 io0 td io (a f d c : bytes) p num (inc : nat) crc :
  let h := new_hdr td0 io0 num (Z.of_nat inc) (rand_seed io0) crc in
  verify (o td) = verify (o td0) -> verify (o td) <> VERIFY_PATTERN_NO_HDR -> fits 32 crc ->
  buf io = a ++ (hdr_bytes h ++ f ++ d) ++ c ->
  length f = fsz -> hsize (verify (o td)) = (40 + fsz)%nat -> length (hdr_bytes h ++ f ++ d) = inc ->
  p = Z.of_nat (length a) -> p = num * Z.of_nat inc -> p < 2 ^ 32 -> Z.of_nat inc < 2 ^ 32 ->
  verify_field (Z.of_nat fsz) check td io p num =
  same ← check f d; Some (if (same : bool) then 0 else EILSEQ).
Proof.
  intros h Hk Hne Hc Hb Hf Hsz Hlen Hp Hnum H32 Hi. unfold verify_field, HDR. rewrite Hb.
  rewrite read_hdr_run by (done || by apply new_hdr_fits). obind.
  assert (forall x, hdr_size td (a ++ (hdr_bytes h ++ x) ++ c) p = Some (Z.of_nat (hsize (verify (o td))))) as HS
    by (intros x; by apply hdr_size_run).
  rewrite HS. obind. rewrite Hsz.
  cbn [h new_hdr hlen]. rewrite (u32_small (Z.of_nat inc)) by (split; lia).
  rewrite <- Hnum, (u32_small p) by (split; lia). rewrite !length_app, length_hdr_bytes in Hlen.
  rewrite u32_small by (split; lia).
  rewrite (copy_from_mid a _ c (p + 40) _ 40 fsz) by len. obind.
  rewrite (copy_from_mid a _ c _ _ (40 + fsz) (length d)) by len. obind.
  rewrite (drop_app_length' (hdr_bytes h)), (take_app_length' f) by done.
  assert (drop (40 + fsz) (hdr_bytes h ++ f ++ d) = d) as ->.
  { rewrite app_assoc. apply drop_app_length'. len. }
  by rewrite (take_ge d) by lia.
Qed.

(** * Patterns *)

Lemma copy_from_1 (l : bytes) off (i : nat) b :
  off = Z.of_nat i -> l !! i = Some b -> copy_from l off 1 = Some [b].
Proof.
  intros -> H. pose proof (lookup_lt_Some _ _ _ H). rewrite (copy_from_eq l _ _ i 1) by lia. f_equal.
  rewrite (drop_S l b i) by done. done.
Qed.

(** The slow path finds a difference when there is one: its end is unreachable. *)
Lemma pattern_slow_run (bf pattern : bytes) (l start off n i : nat) :
  (0 < l <= length pattern)%nat -> (start + i + n <= length bf)%nat ->
  ~ (forall k, (k < n)%nat -> bf !! (start + i + k)%nat = Some (pat_at (take l pattern) (off + i + k))) ->
  pattern_slow bf pattern (Z.of_nat start) (Z.of_nat i) (Z.of_nat ((off + i) mod l)) (Z.of_nat l) n = Some EILSEQ.
Proof.
  intros Hl. revert i. induction n as [|n IH]; intros i Hb Hne; [by destruct Hne; intros k ?; lia|].
  cbn [pattern_slow].
  pose proof (Nat.mod_upper_bound (off + i) l ltac:(lia)) as Hm.
  assert (pattern !! ((off + i) mod l)%nat = Some (pat_at (take l pattern) (off + i))) as Hp.
  { rewrite <- (lookup_take_lt pattern l) by done. rewrite lookup_pattern by len. f_equal. unfold pat_at.
    rewrite length_take, Nat.min_l by lia. by rewrite Nat.Div0.mod_mod. }
  destruct (lookup_lt_is_Some_2 bf (start + i)) as [x Hx]; [lia|].
  rewrite (copy_from_1 bf _ (start + i) x), (copy_from_1 pattern _ _ _ eq_refl Hp) by (done || lia). obind.
  destruct (decide (x = pat_at (take l pattern) (off + i))) as [->|Hd].
  2:{ rewrite decide_True by (intros [= E]; done). done. }
  rewrite decide_False by (intros Hq; by apply Hq). cbv zeta.
  assert ((if Z.of_nat ((off + i) mod l) + 1 =? Z.of_nat l then 0 else Z.of_nat ((off + i) mod l) + 1) =
          Z.of_nat ((off + S i) mod l)) as ->.
  { replace (off + S i)%nat with (off + i + 1)%nat by lia. rewrite (Nat.Div0.add_mod (off + i) 1 l).
    destruct (decide (l = 1)%nat) as [->|Hl1]; [done|]. rewrite (Nat.mod_small 1 l) by lia.
    destruct (Z.eqb_spec (Z.of_nat ((off + i) mod l) + 1) (Z.of_nat l)) as [E|E].
    - replace ((off + i) mod l + 1)%nat with l by lia. by rewrite Nat.Div0.mod_same.
    - rewrite (Nat.mod_small ((off + i) mod l + 1) l) by lia. lia. }
  replace (Z.of_nat i + 1) with (Z.of_nat (S i)) by lia. apply IH; [lia|].
  intros Hall. apply Hne. intros [|k] Hk.
  - by rewrite !Nat.add_0_r.
  - replace (start + i + S k)%nat with (start + S i + k)%nat by lia.
    replace (off + i + S k)%nat with (off + S i + k)%nat by lia. apply Hall. lia.
Qed.

Lemma with_pattern_same td : with_pattern td (verify_pattern (o td)) = td.
Proof. by destruct td as [[] ? ? ? ? ? ? ? ? ?]. Qed.

(** The options of the pattern: a pattern without formats. *)
Record patopts (td : thread_data) : Prop := {
  po_fmt : verify_fmt (o td) = [];
  po_size : 0 <= verify_pattern_bytes (o td) < 2 ^ 32;
  po_len : (Z.to_nat (verify_pattern_bytes (o td)) <= length (verify_pattern (o td)))%nat;
  po_kind : verify (o td) = VERIFY_PATTERN \/ verify (o td) = VERIFY_PATTERN_NO_HDR ->
    verify_pattern_bytes (o td) <> 0
}.

Definition pat_good (td : thread_data) (num inc : nat) (d : bytes) : bool :=
  bool_decide (d = spread (take (Z.to_nat (verify_pattern_bytes (o td))) (verify_pattern (o td)))
    (num * inc + hsize (verify (o td))) (inc - hsize (verify (o td)))).

Lemma spread_mod (pattern : bytes) x n :
  (0 < length pattern)%nat -> spread pattern (x mod length pattern) n = spread pattern x n.
Proof.
  intros H. rewrite (Nat.div_mod_eq x (length pattern)) at 2.
  by rewrite Nat.add_comm, Nat.mul_comm, spread_period.
Qed.

Lemma verify_io_u_pattern_run td io (a b c : bytes) p (num inc : nat) :
  patopts td -> layout td inc -> verify_pattern_bytes (o td) <> 0 -> buf io = a ++ b ++ c -> length b = inc ->
  p = Z.of_nat (length a) -> length a = (num * inc)%nat -> get_hdr_inc td io = Z.of_nat inc ->
  Z.of_nat (num * inc + inc) < 2 ^ 32 ->
  verify_io_u_pattern td io p (Z.of_nat num) =
  Some (if pat_good td num inc (drop (hsize (verify (o td))) b) then 0 else EILSEQ, td).
Proof.
  intros [Hfmt Hps Hpl _] L Hnz Hb Hlb -> Ha Hinc H32.
  pose proof (lay_hdr _ _ L) as Hh. pose proof (lay_inc _ _ L) as [Hi0 Hi].
  unfold verify_io_u_pattern. rewrite hdr_size_code. obind. set (k := verify (o td)) in *.
  set (l := Z.to_nat (verify_pattern_bytes (o td))) in *.
  replace (verify_pattern_bytes (o td)) with (Z.of_nat l) by (unfold l; lia).
  assert (0 < l)%nat as Hl by (unfold l; lia).
  rewrite (proj2 (Z.eqb_neq _ _)) by lia. unfold paste_format_inplace. rewrite (proj2 (Z.eqb_neq _ _)) by lia.
  rewrite Hfmt. cbn [paste_loop]. obind. rewrite with_pattern_same, Hinc.
  rewrite (u32_small (Z.of_nat inc - _)), (u32_small (Z.of_nat inc * Z.of_nat num)), u32_small by (split; lia).
  rewrite Hb. set (hs := hsize k) in *. set (pattern := verify_pattern (o td)) in *.
  rewrite (copy_from_eq _ _ _ (length a + hs) (length (b ++ c) - hs)) by len. obind.
  assert (take (length (b ++ c) - hs) (drop (length a + hs) (a ++ b ++ c)) = drop hs b ++ c) as ->.
  { rewrite drop_app_add', drop_app_le, take_ge by len. done. }
  replace (Z.of_nat inc - Z.of_nat hs) with (Z.of_nat (inc - hs)) by lia.
  replace ((Z.of_nat inc * Z.of_nat num + Z.of_nat hs) mod Z.of_nat l) with
    (Z.of_nat ((num * inc + hs) mod l)) by (rewrite Nat2Z.inj_mod; f_equal; lia).
  pose proof (Nat.mod_upper_bound (num * inc + hs) l ltac:(lia)) as Hm.
  rewrite cmp_pattern_run by len. obind.
  assert (length (take l pattern) = l) as Hlq by len.
  assert (spread (take l pattern) ((num * inc + hs) mod l) (inc - hs) =
          spread (take l pattern) (num * inc + hs) (inc - hs)) as Hsm.
  { pose proof (spread_mod (take l pattern) (num * inc + hs) (inc - hs)) as Hq. rewrite Hlq in Hq. by apply Hq. }
  rewrite Hsm, take_app_length' by len. unfold pat_good. fold k hs l pattern.
  destruct (decide (drop hs b = _)) as [E|E]; [by rewrite bool_decide_true|].
  rewrite bool_decide_false by done. rewrite (proj2 (Z.eqb_neq _ _)) by done.
  replace (Z.of_nat (length a) + Z.of_nat hs) with (Z.of_nat (length a + hs)) by lia. rewrite Nat2Z.id.
  pose proof (pattern_slow_run (a ++ b ++ c) pattern l (length a + hs) (num * inc + hs) (inc - hs) 0) as Hslow.
  rewrite !Nat.add_0_r in Hslow. change (Z.of_nat 0) with 0 in Hslow. rewrite Hslow; [done | lia | len |].
  intros Hall. apply E. rewrite <- (take_app_length' (drop hs b) c (inc - hs)) by len.
  apply spread_eq_iff; [len|]. intros j Hj. rewrite <- (Hall j Hj).
  rewrite <- (drop_app_le b c), lookup_drop by lia.
  rewrite (lookup_app_r a) by lia. f_equal. lia.
Qed.

(** * The verdict on a block with a good header *)

Definition verdict (td : thread_data) (num inc : nat) (same : bool) (b : bytes) : Z :=
  let pat := if pat_good td num inc (drop (hsize (verify (o td))) b) then 0 else EILSEQ in
  match verify (o td) with
  | VERIFY_HDR_ONLY => if verify_pattern_bytes (o td) =? 0 then 0 else pat
  | VERIFY_PATTERN | VERIFY_PATTERN_NO_HDR => pat
  | _ => if same then 0 else EILSEQ
  end.

Section Turn.
Context (td0 : thread_data) (io0 : io_u) (td : thread_data) (inc : nat).
Hypothesis L : layout td inc.
Hypothesis PO : patopts td.

Lemma verify_switch_run io (a b c : bytes) p (num : nat) same ret :
  reads td0 io0 td io -> headed td0 io0 (Z.of_nat num) (Z.of_nat inc) same b ->
  buf io = a ++ b ++ c -> length b = inc -> p = Z.of_nat (length a) -> length a = (num * inc)%nat ->
  get_hdr_inc td io = Z.of_nat inc -> Z.of_nat (num * inc + inc) < 2 ^ 32 -> ret = 0 \/ verify (o td) = VERIFY_PATTERN_NO_HDR ->
  verify_switch stack array0 (Some (verify (o td))) td io p (Z.of_nat num) ret =
  Some (verdict td num inc same b, td).
Proof.
  intros R Hhd Hb Hlb Hp Ha Hinc H32 Hret.
  assert (verify (o td) = verify (o td0)) as Hk by by rewrite (rd_opts _ _ _ _ R).
  pose proof (lay_inc _ _ L) as [Hi0 Hi].
  assert (verify_pattern_bytes (o td) <> 0 -> verify_io_u_pattern td io p (Z.of_nat num) =
    Some (if pat_good td num inc (drop (hsize (verify (o td))) b) then 0 else EILSEQ, td)) as Hpat
    by (intros; by apply (verify_io_u_pattern_run td io a b c)).
  assert (forall fsz check, vhdr_size (verify (o td)) = Z.of_nat fsz -> sum_check (verify (o td)) = check ->
    verify (o td) <> VERIFY_PATTERN_NO_HDR ->
    (ret ← verify_field (Z.of_nat fsz) check td io p (Z.of_nat num); Some (ret, td)) =
    Some (if same then 0 else EILSEQ, td)) as Hsum.
  { intros fsz check Hsz Hck Hne. unfold headed in Hhd. rewrite <- Hk in Hhd.
    destruct (Hhd Hne) as (crc & f & d & -> & Hc & Ec & Hf & Hs). rewrite Hsz, Nat2Z.id in Hf.
    rewrite (verify_field_run fsz check td0 io0 td io a f d c p (Z.of_nat num) inc crc); try done; try lia.
    - rewrite <- Hck, Hs. obind. done.
    - unfold hsize. rewrite decide_False by done. rewrite Hsz. unfold HDR. lia. }
  pose proof (lay_none _ _ L) as Hn1. pose proof (lay_null _ _ L) as Hn2. pose proof (po_kind _ PO) as Hpk.
  unfold verdict, verify_switch. revert Hsum Hpat Hpk Hn1 Hn2 Hret. clear.
  destruct (verify (o td)); intros Hsum Hpat Hpk Hn1 Hn2 Hret; try done.
  - destruct (Z.eqb_spec (verify_pattern_bytes (o td)) 0); simpl negb; cbv iota; [by destruct Hret as [-> | ]|by apply Hpat].
  - by apply (Hsum 16%nat).
  - by apply (Hsum 8%nat).
  - by apply (Hsum 4%nat).
  - by apply (Hsum 4%nat).
  - by apply (Hsum 4%nat).
  - by apply (Hsum 2%nat).
  - by apply (Hsum 1%nat).
  - by apply (Hsum 64%nat).
  - by apply (Hsum 128%nat).
  - by apply (Hsum 28%nat).
  - by apply (Hsum 32%nat).
  - by apply (Hsum 48%nat).
  - by apply (Hsum 64%nat).
  - by apply (Hsum 4%nat).
  - by apply (Hsum 20%nat).
  - apply Hpat. auto.
  - apply Hpat. auto.
Qed.

(** One turn of the loop on a block with a good header. *)
Lemma verify_turn fuel io (a b c : bytes) p (num : nat) same ret :
  reads td0 io0 td io -> headed td0 io0 (Z.of_nat num) (Z.of_nat inc) same b ->
  buf io = a ++ moved td b ++ c -> length b = inc -> p = Z.of_nat (length a) -> length a = (num * inc)%nat ->
  get_hdr_inc td io = Z.of_nat inc -> Z.of_nat (num * inc + inc) < 2 ^ 32 -> p < buflen io ->
  (40 <= length b)%nat \/ verifysort (o td) || TD_F_VER_BACKLOG td = false ->
  ret = 0 \/ verify_fatal (o td) = false ->
  exists io', verify_loop stack array0 (S fuel) td io p (Z.of_nat inc) (Z.of_nat num) ret =
    verify_loop stack array0 fuel td io' (p + Z.of_nat inc) (Z.of_nat inc) (u32 (Z.of_nat num + 1))
      (verdict td num inc same b) /\
    reads td0 io0 td io' /\ buf io' = a ++ b ++ c /\ buflen io' = buflen io.
Proof.
  intros R Hhd Hb Hlb Hp Ha Hinc H32 Hlt Hsort Hret. pose proof (lay_inc _ _ L) as [Hi0 Hi].
  assert (verify (o td) = verify (o td0)) as Hk by by rewrite (rd_opts _ _ _ _ R).
  cbn [verify_loop]. rewrite (proj2 (Z.ltb_lt _ _)) by done.
  assert (negb (ret =? 0) && verify_fatal (o td) = false) as ->.
  { destruct Hret as [-> | ->]; [done|apply andb_false_r]. }
  rewrite hdr_size_code. obind. rewrite Hb.
  assert ((if negb (verify_offset (o td) =? 0)
           then memswp (a ++ moved td b ++ c) p (p + verify_offset (o td)) (Z.of_nat (hsize (verify (o td))))
           else Some (a ++ moved td b ++ c)) = Some (a ++ b ++ c)) as ->.
  { pose proof (memswp_moved td inc a (moved td b) c p L (length_moved _ _ _ L Hlb) Hp) as Hm.
    rewrite (moved_moved td inc b L Hlb) in Hm.
    destruct (negb (verify_offset (o td) =? 0)); [|done]. simpl andb in Hm.
    destruct (Z.eqb_spec (Z.of_nat (hsize (verify (o td)))) 0) as [E|E]; [|done].
    simpl negb in Hm. cbv iota in Hm. by rewrite E. }
  obind. set (io1 := with_buf io (a ++ b ++ c)).
  set (sorted := verifysort (o td) || TD_F_VER_BACKLOG td) in *.
  assert (exists io2, (if sorted then seed ← copy_from (buf io1) (p + 8) 8; Some (with_seed io1 (le_combine seed))
            else Some io1) = Some io2 /\ reads td0 io0 td io2 /\ buf io2 = a ++ b ++ c /\
            buflen io2 = buflen io /\ (verify (o td) <> VERIFY_PATTERN_NO_HDR -> rand_seed io2 = rand_seed io0))
    as (io2 & -> & R2 & Hb2 & Hl2 & Hs2).
  { destruct R as [R1 R2 R3 R4 R5 R6]. fold sorted in R3. destruct sorted eqn:Es.
    - destruct Hsort as [H40|]; [|done]. cbn [io1 with_buf buf].
      rewrite (copy_from_mid a b c _ _ 8 8) by lia. obind. eexists. split; [done|].
      split; [constructor; try done; by left|]. split; [done|]. split; [done|].
      intros Hne. cbn [with_seed rand_seed]. unfold headed in Hhd. rewrite <- Hk in Hhd.
      destruct (Hhd Hne) as (crc & f & d & -> & Hc & _).
      assert (hdr_of_bytes (hdr_bytes (new_hdr td0 io0 (Z.of_nat num) (Z.of_nat inc) (rand_seed io0) crc)) =
        new_hdr td0 io0 (Z.of_nat num) (Z.of_nat inc) (rand_seed io0) crc) as Hh by (apply hdr_roundtrip; by apply new_hdr_fits).
      apply (f_equal hrand_seed) in Hh. cbn [new_hdr hrand_seed] in Hh. rewrite u64_small in Hh by done.
      rewrite <- Hh at 2. unfold hdr_of_bytes, field_at. cbn [hrand_seed].
      done.
    - exists io1. split; [done|]. split; [constructor; try done; right; by destruct R3|]. split; [done|]. split; [done|].
      intros _. by destruct R3. }
  obind.
  assert (exists ret1, (if decide (verify (o td) = VERIFY_PATTERN_NO_HDR) then Some ret
            else verify_header_ io2 td p (Z.of_nat num) (Z.of_nat inc)) = Some ret1 /\
            (ret1 = 0 \/ verify (o td) = VERIFY_PATTERN_NO_HDR)) as (ret1 & -> & Hret1).
  { case_decide as Hn; [by eauto|]. exists 0. split; [|by left]. pose proof (Hs2 Hn) as Hs3.
    unfold headed in Hhd. rewrite <- Hk in Hhd. destruct (Hhd Hn) as (crc & f & d & -> & Hc & Ec & _).
    apply (verify_header_run td0 io0 td io2 a (f ++ d) c p _ _ crc); try done. split; lia. }
  obind. assert (bool_decide (verify (o td) <> VERIFY_PATTERN_NO_HDR) && negb (ret1 =? 0) = false) as ->.
  { destruct Hret1 as [-> | ->]; [apply andb_false_r | done]. }
  rewrite decide_False by apply L. obind.
  assert (get_hdr_inc td io2 = Z.of_nat inc) as Hinc2 by (rewrite <- Hinc; unfold get_hdr_inc; by rewrite Hl2).
  rewrite (verify_switch_run io2 a b c p num same ret1) by done. obind.
  exists io2. done.
Qed.
End Turn.

(** * The loops *)

Section Loops.
Context (inc : nat).

(** The blocks [populate_hdr] makes of the blocks of a buffer, from block [num] on. *)
Fixpoint stamped (td : thread_data) (io : io_u) (num : nat) (bl bl' : list bytes) : Prop :=
  match bl, bl' with
  | [], [] => True
  | b :: bl, b' :: bl' =>
      (length b' = inc /\ headed td io (Z.of_nat num) (Z.of_nat inc) true b' /\
       drop (hsize (verify (o td))) b' = drop (hsize (verify (o td))) b) /\ stamped td io (S num) bl bl'
  | _, _ => False
  end.

Lemma headers_loop_run td io (bl : list bytes) (a c : bytes) (num fuel : nat) p :
  memory_ok -> layout td inc -> Forall (fun b => length b = inc) bl -> p = Z.of_nat (length a) -> length a = (num * inc)%nat ->
  buflen io = Z.of_nat ((num + length bl) * inc) -> (length bl < fuel)%nat ->
  Z.of_nat ((num + length bl) * inc) < 2 ^ 32 ->
  exists bl', stamped td io num bl bl' /\
    headers_loop stack array0 fuel td io (a ++ List.concat bl ++ c) p (Z.of_nat inc) (Z.of_nat num) =
    Some (a ++ List.concat (moved td <$> bl') ++ c).
Proof.
  intros Hmem L Hbl. pose proof (lay_inc _ _ L) as [Hi0 Hi].
  revert num a fuel p. induction Hbl as [|b bl Hb Hbl IH]; intros num a fuel p -> Ha Hlen Hf H32;
    (destruct fuel as [|fuel]; [simpl in Hf; lia|]); cbn [headers_loop].
  { exists []. split; [done|]. rewrite (proj2 (Z.ltb_ge _ _)) by (simpl in Hlen; lia). done. }
  cbn [length] in *. rewrite (proj2 (Z.ltb_lt _ _)) by nia.
  cbn [List.concat]. rewrite <- app_assoc.
  destruct (populate_hdr_run td io a b (List.concat bl ++ c) _ (Z.of_nat num) inc Hmem L Hb eq_refl)
    as (b' & Hb' & Hw & Hd & ->). obind.
  destruct (IH (S num) (a ++ moved td b') fuel (Z.of_nat (length a) + Z.of_nat inc)) as (bl' & Hst & E).
  - rewrite length_app, (length_moved _ _ _ L Hb'). lia.
  - rewrite length_app, (length_moved _ _ _ L Hb'). lia.
  - rewrite Hlen. f_equal. lia.
  - lia.
  - by replace (S num + length bl)%nat with (num + S (length bl))%nat by lia.
  - exists (b' :: bl'). split; [done|]. rewrite fmap_cons. cbn [List.concat].
    rewrite <- (app_assoc (moved td b')). rewrite u32_small by (split; nia).
    replace (Z.of_nat num + 1) with (Z.of_nat (S num)) by lia.
    rewrite <- app_assoc in E. rewrite E. by rewrite <- !app_assoc.
Qed.

(** The result of the loop over blocks with good headers: without [verify_fatal]
    the verdict on the last block, with it the first failure. *)
Fixpoint loop_ret (td : thread_data) (num : nat) (bl : list (bytes * bool)) (ret : Z) : Z :=
  match bl with
  | [] => ret
  | (b, same) :: bl =>
      if negb (ret =? 0) && verify_fatal (o td) then ret
      else loop_ret td (S num) bl (verdict td num inc same b)
  end.

Fixpoint all_headed (td : thread_data) (io : io_u) (num : nat) (bl : list (bytes * bool)) : Prop :=
  match bl with
  | [] => True
  | (b, same) :: bl =>
      (length b = inc /\ headed td io (Z.of_nat num) (Z.of_nat inc) same b) /\ all_headed td io (S num) bl
  end.

Lemma verify_loop_run td0 io0 td io (bl : list (bytes * bool)) (a c : bytes) (num fuel : nat) p ret :
  layout td inc -> patopts td -> reads td0 io0 td io -> all_headed td0 io0 num bl ->
  buf io = a ++ List.concat (moved td ∘ fst <$> bl) ++ c -> p = Z.of_nat (length a) -> length a = (num * inc)%nat ->
  buflen io = Z.of_nat ((num + length bl) * inc) -> (length bl < fuel)%nat ->
  get_hdr_inc td io = Z.of_nat inc -> Z.of_nat ((num + length bl) * inc) < 2 ^ 32 ->
  (40 <= inc)%nat \/ verifysort (o td) || TD_F_VER_BACKLOG td = false ->
  exists io', verify_loop stack array0 fuel td io p (Z.of_nat inc) (Z.of_nat num) ret =
    Some (inr (loop_ret td num bl ret), td, io').
Proof.
  intros L PO. pose proof (lay_inc _ _ L) as [Hi0 Hi].
  revert io num a fuel p ret. induction bl as [|[b same] bl IH]; intros io num a fuel p ret R Hall Hb -> Ha Hlen Hf Hinc H32 Hsort;
    (destruct fuel as [|fuel]; [simpl in Hf; lia|]).
  { exists io. cbn [verify_loop]. rewrite (proj2 (Z.ltb_ge _ _)) by (simpl in Hlen; lia). done. }
  cbn [length] in *. destruct Hall as [[Hlb Hhd] Hall].
  rewrite fmap_cons in Hb. cbn [List.concat compose fst] in Hb. rewrite <- app_assoc in Hb.
  cbn [loop_ret]. destruct (negb (ret =? 0) && verify_fatal (o td)) eqn:Ebreak.
  { exists io. cbn [verify_loop]. rewrite (proj2 (Z.ltb_lt _ _)) by nia. by rewrite Ebreak. }
  destruct (verify_turn td0 io0 td inc L PO fuel io a b (List.concat (moved td ∘ fst <$> bl) ++ c) (Z.of_nat (length a))
    num same ret) as (io1 & -> & R1 & Hb1 & Hl1); try done.
  { nia. } { nia. } { by rewrite Hlb. }
  { destruct (Z.eqb_spec ret 0); [by left|]. right. by destruct (verify_fatal (o td)). }
  rewrite u32_small by (split; nia). replace (Z.of_nat num + 1) with (Z.of_nat (S num)) by lia.
  apply (IH io1 (S num) (a ++ b)); try done.
  - by rewrite Hb1, <- app_assoc.
  - len.
  - len.
  - rewrite Hl1, Hlen. f_equal. lia.
  - lia.
  - rewrite <- Hinc. unfold get_hdr_inc. by rewrite Hl1.
  - by replace (S num + length bl)%nat with (num + S (length bl))%nat by lia.
Qed.
End Loops.

(** * Filling the buffer *)

(** The options of the data: a fresh buffer for a pattern; for random data a share
    of random bytes that is not rounded to nothing. *)
Record fillopts (td : thread_data) (io : io_u) (n : nat) : Prop := {
  fo_pattern : verify_pattern_bytes (o td) <> 0 -> buf_filled_len io < Z.of_nat n;
  fo_percentage : compress_percentage (o td) = 100 \/ 0 < chunk_len (compress_percentage (o td)) n \/ Z.of_nat n <= 8;
  fo_buffer : 0 <= buffer_pattern_bytes (o td) /\
    (Z.to_nat (buffer_pattern_bytes (o td)) <= length (buffer_pattern (o td)))%nat
}.

Lemma paste_format_plain {P} (pattern out : bytes) l n (priv : P) :
  0 <= l -> 0 <= n -> paste_format pattern l [] out n priv = cpy_pattern pattern l out n.
Proof.
  intros Hl Hn. unfold paste_format, cpy_pattern.
  destruct (Z.eqb_spec l 0), (Z.eqb_spec n 0); simpl orb; cbv iota; try done.
  destruct (copy_from pattern 0 (Z.min l n)); [|done]. obind.
  destruct (copy_to out 0 _); [|done]. obind. unfold paste_format_inplace.
  rewrite (proj2 (Z.eqb_neq _ _)) by lia. done.
Qed.

Lemma fill_verify_pattern_run td io (n : nat) :
  patopts td -> fillopts td io n -> (0 < n <= length (buf io))%nat -> Z.of_nat n < 2 ^ 32 -> fits 64 (rand_seed io) ->
  exists td1 io1 ds, fill_verify_pattern td io (Z.of_nat n) 0 false = Some (td1, io1) /\ o td1 = o td /\
    buf io1 = ds ++ drop n (buf io) /\ length ds = n /\
    (verify_pattern_bytes (o td) <> 0 ->
       ds = spread (take (Z.to_nat (verify_pattern_bytes (o td))) (verify_pattern (o td))) 0 n) /\
    fits 64 (rand_seed io1) /\ numberio io1 = numberio io /\ buflen io1 = buflen io /\ offset io1 = offset io.
Proof.
  intros [Hfmt Hps Hpl _] [F1 F2 [F3 F4]] Hn H32 Hseed. unfold fill_verify_pattern.
  destruct (Z.eqb_spec (verify_pattern_bytes (o td)) 0) as [E|E].
  - unfold fill_random_buf_percentage. destruct (rand_product (verify_state td)) as [r st] eqn:Er.
    assert (fits 64 r) as Hr.
    { unfold rand_product in Er. destruct (__rand (verify_state td)) as [r1 s1]. destruct (__rand s1) as [r2 s2].
      injection Er as <- _. apply u64_fits. }
    rewrite Nat2Z.id. set (pb := Z.to_nat (buffer_pattern_bytes (o td))) in *.
    replace (buffer_pattern_bytes (o td)) with (Z.of_nat pb) by (unfold pb; lia).
    destruct (fill_percentage_run r (compress_percentage (o td)) n n (buffer_pattern (o td)) pb)
      as (Hbs & Hrun); [done | done | by rewrite Nat.min_id |].
    set (bs := percentage_bytes r (compress_percentage (o td)) n n (buffer_pattern (o td)) pb) in *.
    pose proof (Hrun (buf io) 0%nat ltac:(lia)) as Hr0. change (Z.of_nat 0) with 0 in Hr0. rewrite Hr0. obind.
    exists (with_state td st), (with_seed (with_buf io (splice (buf io) 0 bs)) r), bs.
    split_and!; try done. unfold splice. cbn. by rewrite Hbs.
  - rewrite Hfmt, bool_decide_true by done. simpl andb. rewrite (proj2 (Z.leb_gt _ _)) by auto.
    rewrite paste_format_plain by lia.
    set (l := Z.to_nat (verify_pattern_bytes (o td))) in *.
    replace (verify_pattern_bytes (o td)) with (Z.of_nat l) by (unfold l; lia).
    rewrite cpy_pattern_run by (try lia; unfold l; lia). obind.
    exists td. eexists _, (spread (take l (verify_pattern (o td))) 0 n). split; [done|].
    split_and!; try done. apply length_spread.
Qed.

(** * Writing and reading back *)

Lemma chunks_blocks inc (nb : nat) (ds : bytes) :
  length ds = (nb * inc)%nat ->
  List.concat (chunks inc nb ds) = ds /\ Forall (fun b : bytes => length b = inc) (chunks inc nb ds) /\
  length (chunks inc nb ds) = nb.
Proof.
  revert ds. induction nb as [|nb IH]; intros ds Hl; [by destruct ds|].
  cbn [chunks List.concat]. destruct (IH (drop inc ds)) as (H1 & H2 & H3); [len|].
  split; [by rewrite H1, take_drop|]. split; [constructor; [len | done] | simpl; by rewrite H3].
Qed.

Lemma spread_drop (pattern : bytes) off n k : drop k (spread pattern off n) = spread pattern (off + k) (n - k).
Proof.
  apply list_eq. intros i. rewrite lookup_drop. destruct (decide (i < n - k)%nat).
  - rewrite !lookup_spread by lia. do 2 f_equal. lia.
  - rewrite !(proj2 (lookup_ge_None _ _)); [done | len | len].
Qed.

(** The blocks of a spread pattern verify. *)
Fixpoint all_pattern (td : thread_data) (inc num : nat) (bl : list bytes) : Prop :=
  match bl with
  | [] => True
  | b :: bl => (verify_pattern_bytes (o td) <> 0 ->
                pat_good td num inc (drop (hsize (verify (o td))) b) = true) /\ all_pattern td inc (S num) bl
  end.

Lemma chunks_pattern td inc (nb num : nat) (ds : bytes) :
  (hsize (verify (o td)) <= inc)%nat ->
  (verify_pattern_bytes (o td) <> 0 ->
   ds = spread (take (Z.to_nat (verify_pattern_bytes (o td))) (verify_pattern (o td))) (num * inc) (nb * inc)) ->
  all_pattern td inc num (chunks inc nb ds).
Proof.
  intros Hh. revert num ds. induction nb as [|nb IH]; intros num ds Hds; [done|]. cbn [chunks all_pattern].
  split.
  - intros Hne. rewrite (Hds Hne), spread_take by lia. unfold pat_good. apply bool_decide_eq_true.
    by rewrite spread_drop.
  - apply IH. intros Hne. rewrite (Hds Hne), spread_drop. f_equal; lia.
Qed.

Lemma stamped_verdicts td io inc num bl bl' :
  patopts td -> stamped inc td io num bl bl' -> all_pattern td inc num bl ->
  loop_ret inc td num ((fun b => (b, true)) <$> bl') 0 = 0.
Proof.
  intros PO. revert num bl. induction bl' as [|b' bl' IH]; intros num [|b bl] Hst Hall; try done.
  destruct Hst as [(_ & _ & Hd) Hst], Hall as [Hb Hall]. rewrite fmap_cons. cbn [loop_ret].
  replace (verdict td num inc true b') with 0; [by apply (IH _ bl)|].
  unfold verdict. rewrite Hd. pose proof (po_kind _ PO) as Hk.
  destruct (verify (o td)); try done; [destruct (Z.eqb_spec (verify_pattern_bytes (o td)) 0); [done|]|..];
    by rewrite Hb by auto.
Qed.

Lemma stamped_headed td io inc num bl bl' :
  stamped inc td io num bl bl' ->
  all_headed inc td io num ((fun b => (b, true)) <$> bl') /\ length bl' = length bl /\
  (moved td ∘ fst <$> ((fun b => (b, true)) <$> bl')) = moved td <$> bl'.
Proof.
  revert num bl. induction bl' as [|b' bl' IH]; intros num [|b bl] Hst; try done.
  destruct Hst as [(H1 & H2 & _) Hst]. destruct (IH _ _ Hst) as (H3 & H4 & H5).
  rewrite !fmap_cons, H5. cbn. by rewrite H4.
Qed.

(** A later read of the block. *)
Record reader (td0 : thread_data) (io0 : io_u) (td : thread_data) (io : io_u) : Prop := {
  rr_opts : o td = o td0;
  rr_offset : offset io = offset io0;
  rr_buflen : buflen io = buflen io0;
  rr_seed : verifysort (o td) || TD_F_VER_BACKLOG td = true \/ rand_seed io = rand_seed io0;
  rr_numberio : check_numberio td = true -> numberio io = numberio io0;
  rr_read : ddir_read io = true /\ trimmed io = false /\ td_fakeio td = false
}.

Lemma moved_opts td td' : o td = o td' -> moved td = moved td'.
Proof. intros H. unfold moved. by rewrite H. Qed.

Lemma layout_opts td td' inc : o td = o td' -> layout td inc -> layout td' inc.
Proof. intros H []. constructor; by rewrite <- ?H. Qed.

Lemma patopts_opts td td' : o td = o td' -> patopts td -> patopts td'.
Proof. intros H []. constructor; by rewrite <- ?H. Qed.

Lemma loop_ret_opts td td' inc num bl ret : o td = o td' -> loop_ret inc td num bl ret = loop_ret inc td' num bl ret.
Proof.
  intros H. revert num ret. induction bl as [|[b same] bl IH]; intros num ret; [done|]. cbn [loop_ret].
  unfold verdict, pat_good. by rewrite H, IH.
Qed.

Lemma length_moved_blocks td io inc num bl :
  layout td inc -> all_headed inc td io num bl ->
  length (List.concat (moved td ∘ fst <$> bl)) = (length bl * inc)%nat.
Proof.
  intros L. revert num. induction bl as [|[b same] bl IH]; intros num Hall; [done|].
  destruct Hall as [[Hb _] Hall]. rewrite fmap_cons. cbn [List.concat compose fst length].
  rewrite length_app, (length_moved _ _ _ L Hb), (IH _ Hall). lia.
Qed.

Lemma headed_seed td io io' num inc same b :
  offset io' = offset io -> rand_seed io' = rand_seed io -> numberio io' = numberio io ->
  start_sec io' = start_sec io -> start_nsec io' = start_nsec io ->
  headed td io num inc same b -> headed td io' num inc same b.
Proof. intros H1 H2 H3 H4 H5 H. unfold headed, new_hdr in *. by rewrite H1, H2, H3, H4, H5. Qed.

(** [verify_io_u] of a buffer whose blocks all have good headers. *)
Lemma verify_io_u_run td0 io0 td io inc (bl : list (bytes * bool)) (c : bytes) :
  layout td inc -> patopts td -> reader td0 io0 td io -> fits 64 (rand_seed io0) -> fits 16 (numberio io0) ->
  all_headed inc td0 io0 0 bl -> buf io = List.concat (moved td ∘ fst <$> bl) ++ c ->
  buflen io = Z.of_nat (length bl * inc) -> Z.of_nat (length bl * inc) < 2 ^ 32 ->
  get_hdr_inc td io = Z.of_nat inc -> (40 <= inc)%nat \/ verifysort (o td) || TD_F_VER_BACKLOG td = false ->
  let ret := loop_ret inc td 0 bl 0 in
  exists io', verify_io_u stack array0 td io =
    Some (ret, if negb (ret =? 0) && verify_fatal (o td) then mark_terminate td else td, io').
Proof.
  intros L PO R Hs Hn Hall Hb Hl H32 Hinc Hsort ret. destruct (rr_read _ _ _ _ R) as (Hrd & Htr & Hfk).
  pose proof (lay_inc _ _ L) as [Hi0 _].
  unfold verify_io_u. rewrite decide_False by apply L. rewrite Hrd, Htr, Hfk, Hinc. simpl negb. cbv iota.
  destruct (verify_loop_run inc td0 io0 td io bl [] c 0 (S (Z.to_nat (buflen io))) 0 0) as (io' & E); try done.
  { destruct R. by constructor. }
  { rewrite Hl, Nat2Z.id. nia. }
  change (Z.of_nat 0) with 0 in E. rewrite E. obind. by exists io'.
Qed.
End Blocks.

(** Another call sees other uninitialised memory, and checks the same. *)
Lemma sum_check_memory stack array0 stack' array0' k (f d : bytes) :
  memory_ok stack array0 -> memory_ok stack' array0' -> data_ok k d ->
  sum_check stack array0 k f d = sum_check stack' array0' k f d.
Proof.
  intros [Hs Ha] [Hs' Ha'] [Hd H512].
  destruct k; cbn [sum_check];
    lazymatch goal with |- context [stack] => idtac | |- context [array0] => idtac | _ => reflexivity end.
  - exact (verify_sha256_memory stack stack' array0 array0' Hs Hs' Ha Ha' f d Hd).
  - exact (verify_sha512_memory stack stack' array0 array0' Hs Hs' Ha Ha' f d (conj (H512 eq_refl) Hd)).
  - exact (verify_sha3_memory stack stack' array0 array0' Hs Hs' Ha Ha' 28 f d ltac:(left; reflexivity) Hd).
  - exact (verify_sha3_memory stack stack' array0 array0' Hs Hs' Ha Ha' 32 f d ltac:(right; left; reflexivity) Hd).
  - exact (verify_sha3_memory stack stack' array0 array0' Hs Hs' Ha Ha' 48 f d ltac:(right; right; left; reflexivity) Hd).
  - exact (verify_sha3_memory stack stack' array0 array0' Hs Hs' Ha Ha' 64 f d ltac:(right; right; right; left; reflexivity) Hd).
  - exact (verify_xxhash_memory stack stack' Hs Hs' f d Hd).
  - exact (verify_sha1_memory array0 array0' Ha Ha' f d Hd).
Qed.

Lemma all_headed_memory stack array0 stack' array0' td io inc num bl :
  memory_ok stack array0 -> memory_ok stack' array0' -> layout td inc ->
  all_headed stack array0 inc td io num bl -> all_headed stack' array0' inc td io num bl.
Proof.
  intros Hm Hm' L. revert num. induction bl as [|[b same] bl IH]; intros num; [done|].
  intros [[Hb Hh] Hall]. split; [|by apply IH]. split; [done|]. intros Hk.
  destruct (Hh Hk) as (crc & f & d & Eb & Hc & Hcrc & Hf & Hsum). exists crc, f, d.
  rewrite <- (sum_check_memory stack array0 stack' array0'); [done..|].
  assert (length d <= inc)%nat as Hd by (rewrite <- Hb, Eb, !length_app; lia).
  assert (length b = 40 + length f + length d)%nat as Hlb by (rewrite Eb, !length_app; cbn [length]; change (length (hdr_bytes _)) with 40%nat; lia).
  destruct (lay_inc _ _ L) as [_ Hi]. split; [unfold any_data; lia|]. intros E. pose proof (lay_data _ _ L E) as H5.
  rewrite E in *. change (hsize VERIFY_SHA512) with 168%nat in H5. change (Z.to_nat (vhdr_size VERIFY_SHA512)) with 128%nat in Hf. lia.
Qed.

(** C37: what populate_verify_io_u writes, verify_io_u accepts.  For every kind of
    checksum, header or pattern verification (sha512 with at least 128 bytes of data in a
    block, [layout]; patterns without formats, [patopts]; a buffer not yet filled with the
    pattern and a share of random data that is not rounded to nothing, [fillopts]), every
    block size and header offset that leave room for the header, and every content of the
    buffer and of the uninitialised memory that the two calls see (it may differ),
    populate_verify_io_u returns with a buffer of the same size, and verify_io_u of a
    later read of the same bytes at the same offset returns 0 and does not stop the
    thread.  Outside of these conditions good data is rejected: [sha512_small_rejected]
    and [pattern_offset_reused]. *)
Theorem verify_roundtrip stack array0 stack' array0' td io (nb inc : nat) :
  memory_ok stack array0 -> memory_ok stack' array0' ->
  layout td inc -> patopts td -> fillopts td io (nb * inc) -> fits 64 (rand_seed io) ->
  buflen io = Z.of_nat (nb * inc) -> (0 < nb)%nat -> (nb * inc <= length (buf io))%nat ->
  Z.of_nat (nb * inc) < 2 ^ 32 -> get_hdr_inc td io = Z.of_nat inc ->
  (40 <= inc)%nat \/ verifysort (o td) = false ->
  exists td1 io1, populate_verify_io_u stack array0 td io = Some (td1, io1) /\
    length (buf io1) = length (buf io) /\
    forall td2 io2, reader td1 io1 td2 io2 -> buf io2 = buf io1 ->
      (40 <= inc)%nat \/ TD_F_VER_BACKLOG td2 = false ->
      exists io3, verify_io_u stack' array0' td2 io2 = Some (0, td2, io3).
Proof.
  intros Hmem Hmem' L PO FO Hseed Hl Hnb Hbuf H32 Hinc Hsort. pose proof (lay_inc _ _ L) as [Hi0 _].
  unfold populate_verify_io_u. rewrite decide_False by apply L.
  set (io' := with_numberio io (u16 (io_issues td))).
  destruct (fill_verify_pattern_run td io' (nb * inc)) as (td1 & io1 & ds & E & Ho & Hb1 & Hds & Hpat & Hs1 & Hn1 & Hl1 & Hoff);
    [done | by destruct FO | cbn; nia | done | done |].
  unfold fill_pattern_headers. rewrite u32_small by (cbn; rewrite Hl; split; lia).
  change (buflen io') with (buflen io) in *. rewrite Hl, E. obind.
  assert (get_hdr_inc td1 io1 = Z.of_nat inc) as Hinc1 by (rewrite <- Hinc; unfold get_hdr_inc; by rewrite Ho, Hl1).
  rewrite Hinc1, Hl1, Hl, Hb1. destruct (chunks_blocks inc nb ds Hds) as (Hc1 & Hc2 & Hc3).
  pose proof (layout_opts td td1 inc (eq_sym Ho) L) as L1. pose proof (patopts_opts td td1 (eq_sym Ho) PO) as PO1.
  rewrite Nat2Z.id.
  destruct (headers_loop_run stack array0 inc td1 io1 (chunks inc nb ds) [] (drop (nb * inc) (buf io')) 0
    (S (nb * inc)) 0 Hmem L1 Hc2) as (bl' & Hstm & Eh); try done.
  { by rewrite Hl1, Hl, Hc3. } { rewrite Hc3. nia. } { by rewrite Hc3. }
  change (Z.of_nat 0) with 0 in Eh. rewrite Hc1 in Eh. cbn [app] in Eh. rewrite Eh. obind.
  destruct (stamped_headed stack array0 td1 io1 inc 0 _ _ Hstm) as (Hall & Hlen & Hmv).
  eexists td1, _. split; [done|]. split.
  { cbn [with_buf buf]. rewrite length_app, <- Hmv, (length_moved_blocks stack array0 td1 io1 inc 0 _ L1 Hall).
    rewrite length_fmap, Hlen, Hc3, length_drop. cbn. lia. }
  intros td2 io2 R Hb2 Hsort2. pose proof (rr_opts _ _ _ _ R) as Ho2. rewrite Ho in Ho2.
  pose proof (layout_opts td td2 inc (eq_sym Ho2) L) as L2. pose proof (patopts_opts td td2 (eq_sym Ho2) PO) as PO2.
  assert (reader td1 io1 td2 io2) as R' by (destruct R; by constructor).
  apply (all_headed_memory stack array0 stack' array0' td1 io1 inc) in Hall; [|done..].
  destruct (verify_io_u_run stack' array0' td1 io1 td2 io2 inc ((fun b => (b, true)) <$> bl') (drop (nb * inc) (buf io')))
    as (io3 & E3); try done.
  { rewrite Hn1. apply u16_fits. }
  { by rewrite Hb2, (moved_opts td2 td1), Hmv by congruence. }
  { by rewrite length_fmap, Hlen, Hc3, (rr_buflen _ _ _ _ R'), Hl1. }
  { by rewrite length_fmap, Hlen, Hc3. }
  { rewrite <- Hinc1. unfold get_hdr_inc. by rewrite (rr_buflen _ _ _ _ R'), Ho2, Ho. }
  { destruct Hsort, Hsort2; auto. right. rewrite Ho2, H, H0. done. }
  exists io3. rewrite E3, (loop_ret_opts td2 td1) by congruence.
  rewrite (stamped_verdicts stack array0 td1 io1 inc 0 (chunks inc nb ds) bl' PO1 Hstm); [done|].
  apply chunks_pattern; [by rewrite Ho; apply L|]. rewrite Ho. exact Hpat.
Qed.

Definition demo_opts : thread_options :=
  mkOpts VERIFY_CRC32C 128 64 [] 0 [] 0 [] 0 false false true false false 0.
Definition demo_td : thread_data := mkTd demo_opts false true 4096 4096 false 3 7 (init_rand false) false.
Definition demo_io : io_u := mkIoU (replicate 260 Byte.xaa) 256 8192 99 0 5 6000 true false 0.
Definition demo_stack : bytes := replicate 128 Byte.xcc.
Definition demo_array : list Z := replicate 16 5.

Lemma demo_layout : layout demo_td 128.
Proof.
  constructor; [discriminate | discriminate | vm_compute; lia | split; [lia | reflexivity] | | discriminate].
  right. vm_compute. repeat split; (lia || discriminate).
Qed.
Lemma demo_patopts : patopts demo_td.
Proof. constructor; cbn; try done; try lia. intros [E|E]; discriminate E. Qed.

(** Two blocks of 128 bytes under crc32c, the header moved to byte 64; the reader has a
    stack of zeros. *)
Lemma verify_roundtrip_witness :
  exists td1 io1, populate_verify_io_u demo_stack demo_array demo_td demo_io = Some (td1, io1) /\
    length (buf io1) = 260%nat /\
    forall td2 io2, reader td1 io1 td2 io2 -> buf io2 = buf io1 ->
      (40 <= 128)%nat \/ TD_F_VER_BACKLOG td2 = false ->
      exists io3, verify_io_u (replicate 128 Byte.x00) (replicate 16 0) td2 io2 = Some (0, td2, io3).
Proof.
  apply (verify_roundtrip demo_stack demo_array (replicate 128 Byte.x00) (replicate 16 0) demo_td demo_io 2 128).
  - split; [simpl; lia | reflexivity].
  - split; [simpl; lia | reflexivity].
  - apply demo_layout.
  - apply demo_patopts.
  - constructor; cbn; [intros H; by destruct H | right; left; reflexivity | lia].
  - split; [discriminate | reflexivity].
  - reflexivity.
  - lia.
  - simpl; lia.
  - reflexivity.
  - reflexivity.
  - left; lia.
Defined.

(** The reader of the write itself. *)
Example roundtrip_run :
  (r ← populate_verify_io_u demo_stack demo_array demo_td demo_io;
   v ← verify_io_u demo_stack demo_array (fst r) (snd r);
   Some (fst (fst v), bool_decide (buf (snd v) = buf (snd r)))) = Some (0, false).
Proof. vm_compute. reflexivity. Qed.

(** * Zero blocks *)

(** The index of the first byte that is not zero. *)
Fixpoint first_nonzero (l : bytes) : option nat :=
  match l with
  | [] => None
  | b :: l' => if decide (b = Byte.x00) then S <$> first_nonzero l' else Some 0%nat
  end.

Lemma byte_zero b : (le_combine [b] =? 0) = bool_decide (b = Byte.x00).
Proof. by destruct b. Qed.

Lemma first_nonzero_app (l k : bytes) :
  first_nonzero (l ++ k) = match first_nonzero l with Some i => Some i | None => Nat.add (length l) <$> first_nonzero k end.
Proof.
  induction l as [|b l IH]; simpl; [by destruct (first_nonzero k)|]. case_decide; [|done]. rewrite IH.
  destruct (first_nonzero l), (first_nonzero k); done.
Qed.

Lemma first_nonzero_None (l : bytes) : first_nonzero l = None <-> forall i, (i < length l)%nat -> l !! i = Some Byte.x00.
Proof.
  induction l as [|b l IH]; simpl; [split; [intros _ i ?; lia | done]|]. case_decide as Hb.
  - subst b. rewrite fmap_None, IH. split; intros H i Hi; [destruct i as [|i]; [done|]; apply H; lia | apply (H (S i)); lia].
  - split; [done|]. intros H. specialize (H 0%nat ltac:(lia)). injection H as ->. done.
Qed.

Lemma zero_slow_run (data : bytes) (p off n : nat) :
  (p + n <= length data)%nat ->
  mem_is_zero_slow data (Z.of_nat p) (Z.of_nat off) n =
  Some (match first_nonzero (take n (drop p data)) with
        | None => (true, Z.of_nat (off + n)) | Some i => (false, Z.of_nat (off + i)) end).
Proof.
  revert p off. induction n as [|n IH]; intros p off H; [cbn; by rewrite Nat.add_0_r|]. cbn [mem_is_zero_slow].
  destruct (lookup_lt_is_Some_2 data p) as [b Hb]; [lia|]. rewrite (copy_from_1 data _ p b) by done. obind.
  rewrite (drop_S data b p Hb), byte_zero. cbn [take first_nonzero].
  destruct (decide (b = Byte.x00)) as [->|Hne].
  - rewrite bool_decide_true by done. simpl negb. cbv iota.
    replace (Z.of_nat p + 1) with (Z.of_nat (S p)) by lia. replace (Z.of_nat off + 1) with (Z.of_nat (S off)) by lia.
    rewrite IH by lia. destruct (first_nonzero (take n (drop (S p) data))) as [i|]; cbn; do 3 f_equal; lia.
  - rewrite bool_decide_false by done. simpl negb. cbv iota. by rewrite Nat.add_0_r.
Qed.

Lemma zero_prefix_run m (data : bytes) (p n : nat) :
  (p + n <= length data)%nat ->
  zero_prefix m data (Z.of_nat p) (Z.of_nat n) =
  Some (if decide (first_nonzero (take (Nat.min m n) (drop p data)) = None)
        then (if (n <? m)%nat then inl true else inr (Z.of_nat (p + m), Z.of_nat (n - m))) else inl false).
Proof.
  revert p n. induction m as [|m IH]; intros p n H.
  { cbn. by rewrite Nat.add_0_r, Nat.sub_0_r. }
  cbn [zero_prefix]. destruct (Z.eqb_spec (Z.of_nat n) 0) as [E|E].
  { assert (n = 0%nat) as -> by lia. rewrite Nat.min_0_r. done. }
  destruct n as [|n]; [lia|]. destruct (lookup_lt_is_Some_2 data p) as [b Hb]; [lia|].
  rewrite (copy_from_1 data _ p b) by done. obind. rewrite (drop_S data b p Hb), byte_zero.
  cbn [take first_nonzero Nat.min]. destruct (decide (b = Byte.x00)) as [->|Hne].
  - rewrite bool_decide_true by done. simpl negb. cbv iota.
    replace (Z.of_nat p + 1) with (Z.of_nat (S p)) by lia. replace (Z.of_nat (S n) - 1) with (Z.of_nat n) by lia.
    rewrite IH by lia. f_equal. change (S n <? S m)%nat with (n <? m)%nat.
    destruct (first_nonzero (take (Nat.min m n) (drop (S p) data))) as [i|]; cbn [fmap option_fmap option_map].
    { by rewrite !decide_False by done. }
    rewrite !decide_True by done. destruct (n <? m)%nat; [done|]. do 2 f_equal; lia.
  - rewrite bool_decide_false by done. done.
Qed.

Lemma nth_replicate_zero i n : nth i (replicate n Byte.x00) NUL = Byte.x00.
Proof. revert i. induction n as [|n IH]; intros [|i]; simpl; try done. Qed.

Lemma mem_is_zero_run (data : bytes) (n : nat) :
  (n <= length data)%nat -> mem_is_zero data (Z.of_nat n) = Some (bool_decide (first_nonzero (take n data) = None)).
Proof.
  intros H. unfold mem_is_zero. pose proof (zero_prefix_run 16 data 0 n H) as Hz. change (Z.of_nat 0) with 0 in Hz.
  rewrite Hz. clear Hz. obind. rewrite drop_0. case_decide as Hd.
  - destruct (Nat.ltb_spec n 16) as [Hlt|Hge].
    + rewrite Nat.min_r in Hd by lia. by rewrite bool_decide_true.
    + rewrite Nat.min_l in Hd by lia. rewrite Nat.add_0_l.
      pose proof (memcmp_eq_run data data 0 16 (n - 16)) as Hm. change (Z.of_nat 0) with 0 in Hm. rewrite Hm by lia.
      f_equal. apply bool_decide_ext. rewrite segment_eq, first_nonzero_None by lia.
      rewrite first_nonzero_None in Hd. split.
      * intros Hself i Hi. rewrite length_take, Nat.min_l in Hi by lia. rewrite lookup_take_lt by lia.
        pose proof (periodic_spread (replicate 16 Byte.x00) data 0 n) as Hper. cbv zeta in Hper.
        rewrite length_replicate in Hper. rewrite (Hper ltac:(lia) ltac:(lia)); [| | |lia].
        -- f_equal. unfold pat_at. apply nth_replicate_zero.
        -- intros k Hk. apply (Hself k). lia.
        -- intros k Hk. rewrite <- (lookup_take_lt data 16 k) by lia. rewrite Hd by len.
           f_equal. unfold pat_at. symmetry. apply nth_replicate_zero.
      * intros Hall k Hk. rewrite <- (lookup_take_lt data n (0 + k)), <- (lookup_take_lt data n (16 + k)) by lia.
        by rewrite !Hall by len.
  - symmetry. f_equal. apply bool_decide_eq_false. intros Hn. apply Hd.
    rewrite first_nonzero_None in *. intros i Hi. rewrite length_take in Hi.
    rewrite lookup_take_lt by lia. rewrite <- (lookup_take_lt data n) by lia. apply Hn. len.
Qed.

(** The check of trimmed blocks is exact.  verify_trimmed_io_u, whose test
    compares the data with itself shifted by 16 bytes instead of reading every
    byte, accepts exactly the blocks all of whose bytes are zero, and reports the
    offset of the first byte that is not; without trim_zero it accepts all. *)
Theorem trimmed_exact td io (n : nat) :
  buflen io = Z.of_nat n -> (n <= length (buf io))%nat ->
  verify_trimmed_io_u td io =
  Some (if trim_zero (o td) then
          match first_nonzero (take n (buf io)) with
          | None => (0, None) | Some i => (EILSEQ, Some (Z.of_nat i)) end
        else (0, None)).
Proof.
  intros Hl Hb. unfold verify_trimmed_io_u. destruct (trim_zero (o td)); simpl negb; cbv iota; [|done].
  rewrite Hl, mem_is_zero_run by done. obind. rewrite Nat2Z.id.
  destruct (first_nonzero (take n (buf io))) as [i|] eqn:E.
  - rewrite bool_decide_false by done. pose proof (zero_slow_run (buf io) 0 0 n Hb) as Hz.
    change (Z.of_nat 0) with 0 in Hz. rewrite Hz, drop_0, E. done.
  - by rewrite bool_decide_true.
Qed.

Lemma trimmed_exact_witness :
  verify_trimmed_io_u demo_td (mkIoU (replicate 40 Byte.x00 ++ [Byte.x01; Byte.x00]) 42 0 0 0 0 0 true true 0) =
  Some (EILSEQ, Some 40).
Proof.
  apply (trimmed_exact demo_td (mkIoU (replicate 40 Byte.x00 ++ [Byte.x01; Byte.x00]) 42 0 0 0 0 0 true true 0) 42);
    [reflexivity | simpl; lia].
Defined.

(** * Corrupted blocks *)

Lemma loop_ret_last td inc num bl b same ret :
  verify_fatal (o td) = false ->
  loop_ret inc td num (bl ++ [(b, same)]) ret = verdict td (num + length bl) inc same b.
Proof.
  intros Hf. revert num ret. induction bl as [|[b0 s0] bl IH]; intros num ret; cbn [app loop_ret length].
  - rewrite Hf, andb_false_r. by rewrite Nat.add_0_r.
  - rewrite Hf, andb_false_r, IH. f_equal. lia.
Qed.

(** Without verify_fatal, verify_io_u reports the last block only.  For a read
    whose blocks all have good headers (each with its checksum accepted or not),
    it returns the verdict on the last block: a mismatch in any block before it is
    logged and then overwritten by the result of the next header check. *)
Theorem verify_last_block stack array0 td0 io0 td io inc bl b same (c : bytes) :
  layout td inc -> patopts td -> reader td0 io0 td io -> fits 64 (rand_seed io0) -> fits 16 (numberio io0) ->
  verify_fatal (o td) = false ->
  all_headed stack array0 inc td0 io0 0 (bl ++ [(b, same)]) ->
  buf io = List.concat (moved td ∘ fst <$> (bl ++ [(b, same)])) ++ c ->
  buflen io = Z.of_nat (length (bl ++ [(b, same)]) * inc) -> buflen io < 2 ^ 32 ->
  get_hdr_inc td io = Z.of_nat inc -> (40 <= inc)%nat \/ verifysort (o td) || TD_F_VER_BACKLOG td = false ->
  exists io', verify_io_u stack array0 td io = Some (verdict td (length bl) inc same b, td, io').
Proof.
  intros L PO R Hs Hn Hf Hall Hb Hl H32 Hinc Hsort. rewrite Hl in H32.
  destruct (verify_io_u_run stack array0 td0 io0 td io inc _ c L PO R Hs Hn Hall Hb Hl H32 Hinc Hsort) as (io' & E).
  exists io'. rewrite E, Hf, andb_false_r, loop_ret_last by done. done.
Qed.

(** The checksums that are CRCs, with the bit order and the width of their bursts. *)
Definition burst (k : verify_kind) (d d' : bytes) : Prop :=
  exists bits (w : nat) (p x y s : list bool),
    match k with
    | VERIFY_CRC7 => bits = bits_msb /\ w = 7%nat
    | VERIFY_CRC16 => bits = bits_lsb /\ w = 16%nat
    | VERIFY_CRC32 => bits = bits_msb /\ w = 32%nat
    | VERIFY_CRC32C | VERIFY_CRC32C_INTEL => bits = bits_lsb /\ w = 32%nat
    | VERIFY_CRC64 => bits = bits_lsb /\ w = 64%nat
    | _ => False
    end /\ x <> y /\ length x = length y /\ (length x <= w)%nat /\
    message_bits bits d = p ++ x ++ s /\ message_bits bits d' = p ++ y ++ s.

Lemma le_check_rejects fsz (crc : bytes -> option Z) (f d d' : bytes) c c' :
  crc d = Some c -> crc d' = Some c' -> crc d <> crc d' ->
  (c ← crc d; Some (c =? le_combine (take fsz f))) = Some true ->
  (c ← crc d'; Some (c =? le_combine (take fsz f))) = Some false.
Proof.
  intros -> -> Hne. obind. intros [= E%Z.eqb_eq]. f_equal. apply Z.eqb_neq. intros E'. apply Hne. congruence.
Qed.

Lemma burst_rejected stack array0 k (f d d' : bytes) :
  burst k d d' -> sum_check stack array0 k f d = Some true -> sum_check stack array0 k f d' = Some false.
Proof.
  intros (bits & w & p & x & y & s & Hk & Hne & Hlen & Hw & Hd & Hd').
  destruct (crc_bursts_run d d' p x y s Hne Hlen) as [Hm Hl].
  destruct (crc_fits d) as ((c7 & C7 & _) & (c16 & C16 & _) & (c32 & C32 & _) & (c32c & C32C & _) & (c64 & C64 & _)).
  destruct (crc_fits d') as ((e7 & E7 & _) & (e16 & E16 & _) & (e32 & E32 & _) & (e32c & E32C & _) & (e64 & E64 & _)).
  destruct k; try done; destruct Hk as [-> ->]; cbn [sum_check].
  - apply (le_check_rejects 8 fio_crc64 f d d' c64 e64); try done. by apply Hl.
  - apply (le_check_rejects 4 fio_crc32 f d d' c32 e32); try done. by apply Hm.
  - apply (le_check_rejects 4 fio_crc32c f d d' c32c e32c); try done. by apply Hl.
  - apply (le_check_rejects 4 fio_crc32c f d d' c32c e32c); try done. by apply Hl.
  - apply (le_check_rejects 2 fio_crc16 f d d' c16 e16); try done. by apply Hl.
  - apply (le_check_rejects 1 fio_crc7 f d d' c7 e7); try done. by apply Hm.
Qed.

Lemma all_headed_app stack array0 inc td io num l1 l2 :
  all_headed stack array0 inc td io num (l1 ++ l2) <->
  all_headed stack array0 inc td io num l1 /\ all_headed stack array0 inc td io (num + length l1) l2.
Proof.
  revert num. induction l1 as [|[b s] l1 IH]; intros num; cbn [app all_headed length].
  - rewrite Nat.add_0_r. tauto.
  - rewrite IH. replace (S num + length l1)%nat with (num + S (length l1))%nat by lia. tauto.
Qed.

(** A burst in the data of a good block leaves a good header and a rejected sum. *)
Lemma headed_burst stack array0 td io num inc (h d d' : bytes) :
  burst (verify (o td)) d d' -> length h = hsize (verify (o td)) ->
  headed stack array0 td io num inc true (h ++ d) -> headed stack array0 td io num inc false (h ++ d').
Proof.
  intros Hbst Hh Hhd Hne. destruct (Hhd Hne) as (crc & f & d0 & E & Hc & Ec & Hf & Hs).
  rewrite app_assoc in E. apply app_inj_1 in E as [-> ->].
  - exists crc, f, d'. cbv zeta. split; [by rewrite <- app_assoc|]. split_and!; try done.
    by apply (burst_rejected stack array0 _ f d0).
  - rewrite Hh, length_app, length_hdr_bytes, Hf. unfold hsize, HDR. rewrite decide_False by done.
    destruct (verify (o td)); done.
Qed.

Lemma loop_ret_true td inc num (bl : list bytes) :
  sum_kind (verify (o td)) = true ->
  forall rest, loop_ret inc td num (((fun b => (b, true)) <$> bl) ++ rest) 0 = loop_ret inc td (num + length bl) rest 0.
Proof.
  intros Hk rest. revert num. induction bl as [|b bl IH]; intros num; [by rewrite Nat.add_0_r|].
  rewrite fmap_cons. cbn [app loop_ret length]. assert (verdict td num inc true b = 0) as ->.
  { unfold verdict. by destruct (verify (o td)). }
  rewrite IH. f_equal. lia.
Qed.

(** C38: verify_io_u detects a burst of errors in the data of the last block.  For
    the kinds crc7, crc16, crc32, crc32c and crc64 and blocks as populate_hdr makes
    them, a change of the last block's data inside a window of bits no wider than
    the checksum makes verify_io_u return EILSEQ, and stop the thread under
    verify_fatal. *)
Theorem verify_detects_bursts stack array0 td0 io0 td io inc (bl : list bytes) (h d d' c : bytes) :
  layout td inc -> patopts td -> reader td0 io0 td io -> fits 64 (rand_seed io0) -> fits 16 (numberio io0) ->
  all_headed stack array0 inc td0 io0 0 (((fun b => (b, true)) <$> bl) ++ [(h ++ d, true)]) ->
  length h = hsize (verify (o td)) -> length d' = length d -> burst (verify (o td)) d d' ->
  buf io = List.concat (moved td <$> (bl ++ [h ++ d'])) ++ c ->
  buflen io = Z.of_nat (S (length bl) * inc) -> buflen io < 2 ^ 32 ->
  get_hdr_inc td io = Z.of_nat inc -> (40 <= inc)%nat \/ verifysort (o td) || TD_F_VER_BACKLOG td = false ->
  exists io', verify_io_u stack array0 td io =
    Some (EILSEQ, if verify_fatal (o td) then mark_terminate td else td, io').
Proof.
  intros L PO R Hs Hn Hall Hh Hd Hbst Hb Hl H32 Hinc Hsort.
  pose proof (rr_opts _ _ _ _ R) as Ho. rewrite Hl in H32.
  apply all_headed_app in Hall as [Hall [[Hlast Hhd] _]].
  set (bls := ((fun b => (b, true)) <$> bl) ++ [(h ++ d', false)]).
  assert (length bls = S (length bl)) as Hlen by (unfold bls; rewrite length_app, length_fmap; simpl; lia).
  assert (all_headed stack array0 inc td0 io0 0 bls) as Hall'.
  { apply all_headed_app. split; [done|]. split; [|done]. split; [len|].
    apply (headed_burst stack array0 td0 io0 _ _ h d d'); [by rewrite <- Ho | by rewrite <- Ho | done]. }
  destruct (verify_io_u_run stack array0 td0 io0 td io inc bls c L PO R Hs Hn Hall') as (io' & E); try done.
  - rewrite Hb. f_equal. f_equal. unfold bls. rewrite !fmap_app, <- list_fmap_compose. done.
  - by rewrite Hlen.
  - by rewrite Hlen.
  - exists io'. rewrite E. unfold bls. rewrite loop_ret_true.
    2:{ destruct Hbst as (? & ? & ? & ? & ? & ? & Hk & _). by destruct (verify (o td)). }
    cbn [loop_ret]. assert (verdict td (0 + length bl) inc false (h ++ d') = EILSEQ) as Hv.
    { unfold verdict. destruct Hbst as (? & ? & ? & ? & ? & ? & Hk & _). by destruct (verify (o td)). }
    rewrite Z.eqb_refl, Hv. done.
Qed.

(** A block of [demo_td] with the checksum of [d] and the data [d']. *)
Definition demo_head (num : Z) (d : bytes) : bytes :=
  let h := new_hdr demo_td demo_io num 128 99 0 in
  hdr_front h ++ le_split 4 (default 0 (fio_crc32c (hdr_front h))) ++ le_split 4 (default 0 (fio_crc32c d)).

Lemma demo_headed num (d d' : bytes) same :
  verify_io_u_crc32c (le_split 4 (default 0 (fio_crc32c d))) d' = Some same ->
  headed demo_stack demo_array demo_td demo_io num 128 same (demo_head num d ++ d').
Proof.
  intros Hs _. set (front := hdr_front (new_hdr demo_td demo_io num 128 99 0)).
  destruct (crc_fits front) as (_ & _ & _ & (crc & Ec & Hc) & _).
  exists crc, (le_split 4 (default 0 (fio_crc32c d))), d'. cbv zeta. split_and!; try done.
  unfold demo_head, fio_crc32c. fold front. rewrite Ec. unfold hdr_bytes. cbn [default]. by rewrite <- !app_assoc.
Qed.

Definition demo_data : bytes := replicate 84 Byte.x11.
(** [demo_data] with four bits of one byte flipped. *)
Definition demo_bad : bytes := replicate 10 Byte.x11 ++ [Byte.x1e] ++ replicate 73 Byte.x11.

Definition demo_read (blocks : list bytes) : io_u :=
  mkIoU (List.concat (moved demo_td <$> blocks)) 256 8192 99 0 0 0 true false 0.

(** A bad first block and a good last one: accepted. *)
Lemma verify_last_block_witness :
  let io := demo_read [demo_head 0 demo_data ++ demo_bad; demo_head 1 demo_data ++ demo_data] in
  exists io', verify_io_u demo_stack demo_array demo_td io = Some (0, demo_td, io').
Proof.
  apply (verify_last_block demo_stack demo_array demo_td demo_io demo_td
    (demo_read [demo_head 0 demo_data ++ demo_bad; demo_head 1 demo_data ++ demo_data]) 128
    [(demo_head 0 demo_data ++ demo_bad, false)] (demo_head 1 demo_data ++ demo_data) true []).
  - apply demo_layout.
  - apply demo_patopts.
  - constructor; try reflexivity; [right; reflexivity | repeat split].
  - split; [discriminate | reflexivity].
  - split; [discriminate | reflexivity].
  - reflexivity.
  - split; [|split; [|exact I]]; (split; [reflexivity | apply demo_headed; vm_compute; reflexivity]).
  - rewrite app_nil_r. reflexivity.
  - reflexivity.
  - reflexivity.
  - reflexivity.
  - left; lia.
Defined.

Lemma verify_detects_bursts_witness :
  let io := demo_read [demo_head 0 demo_data ++ demo_data; demo_head 1 demo_data ++ demo_bad] in
  exists io', verify_io_u demo_stack demo_array demo_td io = Some (EILSEQ, demo_td, io').
Proof.
  apply (verify_detects_bursts demo_stack demo_array demo_td demo_io demo_td
    (demo_read [demo_head 0 demo_data ++ demo_data; demo_head 1 demo_data ++ demo_bad]) 128
    [demo_head 0 demo_data ++ demo_data] (demo_head 1 demo_data) demo_data demo_bad []).
  - apply demo_layout.
  - apply demo_patopts.
  - constructor; try reflexivity; [right; reflexivity | repeat split].
  - split; [discriminate | reflexivity].
  - split; [discriminate | reflexivity].
  - split; [|split; [|exact I]]; (split; [reflexivity | apply demo_headed; vm_compute; reflexivity]).
  - reflexivity.
  - reflexivity.
  - exists bits_lsb, 32%nat, (take 80 (message_bits bits_lsb demo_data)),
      (take 8 (drop 80 (message_bits bits_lsb demo_data))), (take 8 (drop 80 (message_bits bits_lsb demo_bad))),
      (drop 88 (message_bits bits_lsb demo_data)).
    split; [split; reflexivity|]. split; [vm_compute; discriminate|]. split; [reflexivity|].
    split; [vm_compute; lia|]. split; vm_compute; reflexivity.
  - rewrite app_nil_r. reflexivity.
  - reflexivity.
  - reflexivity.
  - reflexivity.
  - left; lia.
Defined.

(** A sha512 block with less than 128 bytes of data is rejected although nothing
    changed: the part of the field the data does not fill is compared with
    uninitialised memory. *)
Example sha512_small_rejected :
  let td := mkTd (mkOpts VERIFY_SHA512 256 0 [] 0 [] 0 [] 0 false false true false false 0)
    false true 4096 4096 false 3 7 (init_rand false) false in
  let io := mkIoU (replicate 256 Byte.xaa) 256 8192 99 0 5 6000 true false 0 in
  (r ← populate_verify_io_u demo_stack demo_array td io;
   v ← verify_io_u demo_stack demo_array (fst r) (snd r); Some (fst (fst v))) = Some EILSEQ.
Proof. vm_compute. reflexivity. Qed.

(** With a pattern and a header offset, the second write from the same buffer is
    rejected: the pattern is not refilled, and the old header at the offset has
    replaced part of it. *)
Example pattern_offset_reused :
  let td := mkTd (mkOpts VERIFY_PATTERN 128 64 (replicate 3 Byte.x41) 3 [] 0 [] 0 false false true false false 0)
    false true 4096 4096 false 3 7 (init_rand false) false in
  let io := mkIoU (replicate 128 Byte.xaa) 128 8192 99 0 5 6000 true false 0 in
  let ret n := r ← n; v ← verify_io_u demo_stack demo_array (fst r) (snd r); Some (fst (fst v)) in
  let once := populate_verify_io_u demo_stack demo_array td io in
  ret once = Some 0 /\
  ret (r ← once; populate_verify_io_u demo_stack demo_array (fst r) (snd r)) = Some EILSEQ.
Proof. vm_compute. split; reflexivity. Qed.
