(* ===== verification/IoHist.v ===== *)
(** The I/O history that fio verifies against: log_io_piece, unlog_io_piece,
    trim_io_piece and prune_io_piece_log of src/fio/iolog.c, get_next_verify of verify.c
    and get_next_trim of trim.c, over the red-black tree of lib/rbtree.c.  The lists of
    flist.h are Rocq lists of their entries. *)
From S2P Require Import Prelude Rbtree RbInsert RbErase RbWalk Rand.

(** * State *)

Definition DDIR_READ : Z := 0.
Definition DDIR_TRIM : Z := 2.

Definition IP_F_ONRB : Z := 1.
Definition IP_F_ONLIST : Z := 2.
Definition IP_F_TRIMMED : Z := 4.
Definition IP_F_IN_FLIGHT : Z := 8.

(** The node of the tree is the first member: the address of a piece is that of
    its node.  Files are addresses too. *)
Record io_piece : Type := mkIpo {
  ip_file : Z;
  ip_offset : Z;
  ip_len : Z;
  ip_numberio : Z;
  ip_flags : Z
}.

(** The part of the thread data the history uses, and the allocated pieces. *)
Record hist : Type := mkHist {
  io_hist_tree : rbst;
  pieces : gmap Z io_piece;
  io_hist_list : list Z;
  io_hist_len : Z;
  trim_list : list Z;
  trim_entries : Z;
  trim_state : frand_state;
  verify_rand : frand_state;
  file_refs : gmap Z Z
}.

Record hopts : Type := mkHopts {
  verifysort : bool;
  td_random : bool;
  file_randommap : Z -> bool;
  trim_percentage : Z;
  trim_zero : bool;
  pattern_bytes : Z
}.

(** The fields of an io_u that are used; [u_trimmed] and [u_ver_list] are flags. *)
Record io_unit : Type := mkIou {
  u_file : Z;
  u_offset : Z;
  u_buflen : Z;
  u_numberio : Z;
  u_ipo : Z;
  u_xfer_buflen : Z;
  u_resid : Z;
  u_ver_list : bool;
  u_trimmed : bool;
  u_seed : Z;
  u_ddir : Z;
  u_buf : Z;
  u_xfer_buf : Z
}.

Definition set_tree (t : rbst) (s : hist) : hist :=
  mkHist t (pieces s) (io_hist_list s) (io_hist_len s) (trim_list s) (trim_entries s) (trim_state s) (verify_rand s) (file_refs s).
Definition set_pieces (m : gmap Z io_piece) (s : hist) : hist :=
  mkHist (io_hist_tree s) m (io_hist_list s) (io_hist_len s) (trim_list s) (trim_entries s) (trim_state s) (verify_rand s) (file_refs s).
Definition set_list (l : list Z) (s : hist) : hist :=
  mkHist (io_hist_tree s) (pieces s) l (io_hist_len s) (trim_list s) (trim_entries s) (trim_state s) (verify_rand s) (file_refs s).
Definition set_len (n : Z) (s : hist) : hist :=
  mkHist (io_hist_tree s) (pieces s) (io_hist_list s) n (trim_list s) (trim_entries s) (trim_state s) (verify_rand s) (file_refs s).
Definition set_trim (l : list Z) (n : Z) (s : hist) : hist :=
  mkHist (io_hist_tree s) (pieces s) (io_hist_list s) (io_hist_len s) l n (trim_state s) (verify_rand s) (file_refs s).
Definition set_trim_state (r : frand_state) (s : hist) : hist :=
  mkHist (io_hist_tree s) (pieces s) (io_hist_list s) (io_hist_len s) (trim_list s) (trim_entries s) r (verify_rand s) (file_refs s).
Definition set_verify_rand (r : frand_state) (s : hist) : hist :=
  mkHist (io_hist_tree s) (pieces s) (io_hist_list s) (io_hist_len s) (trim_list s) (trim_entries s) (trim_state s) r (file_refs s).
Definition set_refs (m : gmap Z Z) (s : hist) : hist :=
  mkHist (io_hist_tree s) (pieces s) (io_hist_list s) (io_hist_len s) (trim_list s) (trim_entries s) (trim_state s) (verify_rand s) m.

Definition on_tree {A} (m : M rbst A) : M hist A := zoom io_hist_tree set_tree m.

Definition get_ipo (p : Z) : M hist io_piece := fun s =>
  match pieces s !! p with Some q => Ret q s | None => Undef s end.
Definition set_ipo (p : Z) (q : io_piece) : M hist unit := modify (fun s => set_pieces (<[p := q]> (pieces s)) s).
Definition with_flags (f : Z -> Z) (q : io_piece) : io_piece :=
  mkIpo (ip_file q) (ip_offset q) (ip_len q) (ip_numberio q) (f (ip_flags q)).
Definition has (f flags : Z) : bool := negb (Z.land flags f =? 0).

(** [malloc] of a piece at [p], cleared by [init_ipo]. *)
Definition alloc_ipo (p : Z) : M hist unit :=
  on_tree (modify (fun t => mkRbst (<[p := mkRb 0 0 0]> (nodes t)) (rb_root t)));;
  set_ipo p (mkIpo 0 0 0 0 0).
Definition free_ipo (p : Z) : M hist unit :=
  get_ipo p;;
  modify (fun s => set_pieces (delete p (pieces s)) s);;
  on_tree (modify (fun t => mkRbst (delete p (nodes t)) (rb_root t))).

Definition add_len (d : Z) : M hist unit := modify (fun s => set_len (u64 (io_hist_len s + d)) s).

(** The reference that [get_file] takes of an open file, an int that stays far from its bound. *)
Definition get_file (f : Z) : M hist unit :=
  modify (fun s => set_refs (<[f := default 0 (file_refs s !! f) + 1]> (file_refs s)) s).

(** [assert] that fails ends the process. *)
Definition assert_h (b : bool) : M hist unit := if b then mret tt else exit_ 134.

Definition remove_trim_entry (p : Z) : M hist unit :=
  modify (fun s => if bool_decide (p ∈ trim_list s)
                   then set_trim (filter (fun x => x <> p) (trim_list s)) (u64 (trim_entries s - 1)) s else s).

(** [flist_del] of an entry of the history list; the links of any other entry are not valid. *)
Definition hist_list_del (p : Z) : M hist unit := fun s =>
  if bool_decide (p ∈ io_hist_list s) then Ret tt (set_list (filter (fun x => x <> p) (io_hist_list s)) s) else Undef s.

Definition io_u_should_trim (o : hopts) : M hist bool :=
  if trim_percentage o =? 0 then mret false else
  s ← get_st;
  let frand_max := rand_max (trim_state s) in
  let (r, st) := __rand (trim_state s) in
  modify (set_trim_state st);;
  mret (r <=? u64 (frand_max / 100 * trim_percentage o)).

(** * Logging a write *)

(** The comparison of the new piece with one of the tree: where to go on, and whether
    they overlap. *)
Definition compare_ipo (ipo q : io_piece) : dir * bool :=
  if ip_file ipo <? ip_file q then (DL, false)
  else if ip_file q <? ip_file ipo then (DR, false)
  else if ip_offset ipo <? ip_offset q then (DL, ip_offset q <? u64 (ip_offset ipo + ip_len ipo))
  else if ip_offset q <? ip_offset ipo then (DR, ip_offset ipo <? u64 (ip_offset q + ip_len q))
  else (DL, true).

(** The result of a search: an overlapping node, or the link where a leaf is. *)
Inductive slot : Type := Overlap (node : Z) | Found (parent : Z) (d : dir).

(** The loop over the links: the link is the [d] link of [parent], or the root pointer. *)
Fixpoint find_slot (fuel : nat) (ipo : io_piece) (parent : Z) (d : dir) : M hist slot :=
  cur ← on_tree (if parent =? 0 then get_root else get_child d parent);
  if cur =? 0 then mret (Found parent d) else
  match fuel with
  | O => on_tree out_of_fuel
  | S fuel' =>
      q ← get_ipo cur;
      let (d, overlap) := compare_ipo ipo q in
      if (overlap : bool) then mret (Overlap cur) else find_slot fuel' ipo cur d
  end.

(** From the label [restart] on. *)
Fixpoint sort_in (fuel : nat) (p : Z) : M hist unit :=
  ipo ← get_ipo p;
  s ← get_st;
  r ← find_slot (size (nodes (io_hist_tree s))) ipo 0 DL;
  match r with
  | Overlap parent =>
      q ← get_ipo parent;
      add_len (-1);;
      on_tree (rb_erase parent);;
      remove_trim_entry parent;;
      (if negb (has IP_F_IN_FLIGHT (ip_flags q)) then free_ipo parent else mret tt);;
      match fuel with O => on_tree out_of_fuel | S fuel' => sort_in fuel' p end
  | Found parent d =>
      on_tree (rb_link_node p parent d);;
      on_tree (rb_insert_color p);;
      ipo ← get_ipo p;
      set_ipo p (with_flags (Z.lor IP_F_ONRB) ipo);;
      add_len 1
  end.

Definition log_io_piece (o : hopts) (p : Z) (u : io_unit) : M hist io_unit :=
  alloc_ipo p;;
  set_ipo p (mkIpo (u_file u) (u_offset u) (u_buflen u) (u_numberio u) IP_F_IN_FLIGHT);;
  let u := mkIou (u_file u) (u_offset u) (u_buflen u) (u_numberio u) p (u_xfer_buflen u) (u_resid u)
             (u_ver_list u) (u_trimmed u) (u_seed u) (u_ddir u) (u_buf u) (u_xfer_buf u) in
  trim ← io_u_should_trim o;
  (if (trim : bool) then modify (fun s => set_trim (trim_list s ++ [p]) (u64 (trim_entries s + 1)) s) else mret tt);;
  if (negb (verifysort o) || negb (td_random o)) && file_randommap o (u_file u) then
    modify (fun s => set_list (io_hist_list s ++ [p]) s);;
    ipo ← get_ipo p;
    set_ipo p (with_flags (Z.lor IP_F_ONLIST) ipo);;
    add_len 1;;
    mret u
  else
    on_tree (rb_set_parent p p);;
    s ← get_st;
    sort_in (size (nodes (io_hist_tree s))) p;;
    mret u.

(** * Taking pieces out *)

(** [unlog_io_piece], apart from the block infos of the statistics. *)
Definition unlog_io_piece (u : io_unit) : M hist io_unit :=
  let p := u_ipo u in
  if p =? 0 then mret u else
  ipo ← get_ipo p;
  (if has IP_F_ONRB (ip_flags ipo) then on_tree (rb_erase p)
   else if has IP_F_ONLIST (ip_flags ipo) then hist_list_del p else mret tt);;
  free_ipo p;;
  add_len (-1);;
  mret (mkIou (u_file u) (u_offset u) (u_buflen u) (u_numberio u) 0 (u_xfer_buflen u) (u_resid u)
          (u_ver_list u) (u_trimmed u) (u_seed u) (u_ddir u) (u_buf u) (u_xfer_buf u)).

Definition trim_io_piece (u : io_unit) : M hist unit :=
  let p := u_ipo u in
  if p =? 0 then mret tt else
  ipo ← get_ipo p;
  set_ipo p (mkIpo (ip_file ipo) (ip_offset ipo) (u64 (u_xfer_buflen u - u_resid u)) (ip_numberio ipo) (ip_flags ipo)).

(** The completion of a write without error marks its piece as ready (io_completed). *)
Definition io_completed_ok (u : io_unit) : M hist unit :=
  let p := u_ipo u in
  if p =? 0 then mret tt else
  ipo ← get_ipo p;
  set_ipo p (with_flags (fun f => Z.land f (Z.lnot IP_F_IN_FLIGHT)) ipo).

Fixpoint prune_tree (fuel : nat) : M hist unit :=
  n ← on_tree rb_first;
  if n =? 0 then mret tt else
  match fuel with
  | O => on_tree out_of_fuel
  | S fuel' => on_tree (rb_erase n);; remove_trim_entry n;; add_len (-1);; free_ipo n;; prune_tree fuel'
  end.

Fixpoint prune_list (l : list Z) : M hist unit :=
  match l with
  | [] => mret tt
  | p :: l' => hist_list_del p;; remove_trim_entry p;; add_len (-1);; free_ipo p;; prune_list l'
  end.

Definition prune_io_piece_log : M hist unit :=
  s ← get_st;
  prune_tree (size (nodes (io_hist_tree s)));;
  s ← get_st;
  prune_list (io_hist_list s).

(** [get_next_verify]; [opened] and [open_r] are the state of the file and the result of
    [td_io_open_file].  The result is the return value and the io_u. *)
Definition next_piece : M hist (option (Z * io_piece)) :=
  s ← get_st;
  if negb (rb_root (io_hist_tree s) =? 0) then
    n ← on_tree rb_first;
    ipo ← get_ipo n;
    if has IP_F_IN_FLIGHT (ip_flags ipo) then mret None else
    on_tree (rb_erase n);;
    assert_h (has IP_F_ONRB (ip_flags ipo));;
    let ipo := with_flags (fun f => Z.land f (Z.lnot IP_F_ONRB)) ipo in
    set_ipo n ipo;;
    mret (Some (n, ipo))
  else
    match io_hist_list s with
    | [] => mret None
    | n :: _ =>
        ipo ← get_ipo n;
        if has IP_F_IN_FLIGHT (ip_flags ipo) then mret None else
        hist_list_del n;;
        assert_h (has IP_F_ONLIST (ip_flags ipo));;
        let ipo := with_flags (fun f => Z.land f (Z.lnot IP_F_ONLIST)) ipo in
        set_ipo n ipo;;
        mret (Some (n, ipo))
    end.

Definition get_next_verify (o : hopts) (opened : bool) (open_r : Z) (u : io_unit) : M hist (Z * io_unit) :=
  if negb (u_file u =? 0) then mret (0, u) else
  r ← next_piece;
  match r with
  | None => mret (1, u)
  | Some (p, ipo) =>
      add_len (-1);;
      let u := mkIou (ip_file ipo) (ip_offset ipo) (ip_len ipo) (ip_numberio ipo) (u_ipo u) (u_xfer_buflen u) (u_resid u)
                 true (u_trimmed u || has IP_F_TRIMMED (ip_flags ipo)) (u_seed u) (u_ddir u) (u_buf u) (u_xfer_buf u) in
      if negb opened && negb (open_r =? 0) then mret (1, u) else
      get_file (ip_file ipo);;
      let u := mkIou (u_file u) (u_offset u) (u_buflen u) (u_numberio u) (u_ipo u) (u_buflen u) (u_resid u)
                 (u_ver_list u) (u_trimmed u) (u_seed u) DDIR_READ (u_buf u) (u_buf u) in
      remove_trim_entry p;;
      free_ipo p;;
      if pattern_bytes o =? 0 then
        s ← get_st;
        let (seed, st) := rand_product (verify_rand s) in
        modify (set_verify_rand st);;
        mret (0, mkIou (u_file u) (u_offset u) (u_buflen u) (u_numberio u) (u_ipo u) (u_xfer_buflen u) (u_resid u)
                   (u_ver_list u) (u_trimmed u) seed (u_ddir u) (u_buf u) (u_xfer_buf u))
      else mret (0, u)
  end.

(** [get_next_trim] *)
Definition get_next_trim (o : hopts) (opened : bool) (open_r : Z) (u : io_unit) : M hist (bool * io_unit) :=
  if negb (u_file u =? 0) then mret (true, u) else
  s ← get_st;
  match trim_list s with
  | [] => mret (false, u)
  | p :: _ =>
      assert_h (negb (trim_entries s =? 0));;
      remove_trim_entry p;;
      ipo ← get_ipo p;
      let u := mkIou (ip_file ipo) (ip_offset ipo) (ip_len ipo) (u_numberio u) (u_ipo u) (u_xfer_buflen u) (u_resid u)
                 (u_ver_list u) (u_trimmed u) (u_seed u) (u_ddir u) (u_buf u) (u_xfer_buf u) in
      (if negb (trim_zero o) then
         (if has IP_F_ONLIST (ip_flags ipo) then hist_list_del p
          else assert_h (has IP_F_ONRB (ip_flags ipo));; on_tree (rb_erase p));;
         add_len (-1);;
         free_ipo p
       else set_ipo p (with_flags (Z.lor IP_F_TRIMMED) ipo));;
      if negb opened && negb (open_r =? 0) then mret (false, u) else
      get_file (u_file u);;
      mret (true, mkIou (u_file u) (u_offset u) (u_buflen u) (u_numberio u) (u_ipo u) (u_buflen u) (u_resid u)
                    (u_ver_list u) (u_trimmed u) (u_seed u) DDIR_TRIM (u_buf u) 0)
  end.
