(* ===== verification/IoHistSpec.v ===== *)
(** What the I/O history of fio promises: the pieces of the tree are sorted and apart
    from each other, a new write replaces exactly the pieces it overlaps, and
    verification takes the pieces in order. *)
From Stdlib Require Import Sorted.
From S2P Require Import Prelude Rbtree RbInsert RbErase RbWalk Rand IoHist.

(** * The order of pieces *)

Definition piece_fits (q : io_piece) : Prop := 0 <= ip_offset q /\ 0 <= ip_len q /\ ip_offset q + ip_len q < 2 ^ 64.

(** [q] lies wholly before [q'], or in a file before. *)
Definition before (q q' : io_piece) : Prop :=
  ip_file q < ip_file q' \/
  (ip_file q = ip_file q' /\ ip_offset q < ip_offset q' /\ ip_offset q + ip_len q <= ip_offset q').

#[global] Instance before_dec q q' : Decision (before q q').
Proof. unfold before. apply _. Defined.

(** Neither is before the other: the same start or a common byte. *)
Definition conflict (q q' : io_piece) : Prop := ~ before q q' /\ ~ before q' q.

#[global] Instance conflict_dec q q' : Decision (conflict q q').
Proof. unfold conflict. apply _. Defined.

Lemma before_trans q q' q'' : before q q' -> before q' q'' -> before q q''.
Proof. unfold before. lia. Qed.

Lemma before_irrefl q : ~ before q q.
Proof. unfold before. lia. Qed.

Lemma compare_spec n q : piece_fits n -> piece_fits q ->
  match compare_ipo n q with
  | (DL, false) => before n q
  | (DR, false) => before q n
  | (_, true) => conflict n q
  end.
Proof.
  unfold piece_fits, compare_ipo, conflict, before. intros Hn Hq.
  rewrite !u64_small by (unfold fits; lia).
  destruct (Z.ltb_spec (ip_file n) (ip_file q)), (Z.ltb_spec (ip_file q) (ip_file n)),
    (Z.ltb_spec (ip_offset n) (ip_offset q)), (Z.ltb_spec (ip_offset q) (ip_offset n)),
    (Z.ltb_spec (ip_offset q) (ip_offset n + ip_len n)), (Z.ltb_spec (ip_offset n) (ip_offset q + ip_len q)); lia.
Qed.

(** * Reading a tree *)

Lemma holds_child k c l a r R s d :
  holds (plug k (Node c l a r)) R s -> get_child d a s = Ret (match d with DL => ptr l | DR => ptr r end) s.
Proof.
  intros [[_ HA] _]. unfold get_child, rd. munfold. rewrite cells_plug in HA. cbn in HA.
  apply Forall_cons in HA as [[_ HA] _]. cbn in HA. rewrite HA. by destruct d.
Qed.

Lemma holds_wf T R s : holds T R s -> wf T.
Proof.
  intros [[HD HA] _]. apply (cells_wf T R); [done|]. eapply Forall_impl; [exact HA|]. by intros x [? _].
Qed.

(** The nodes around the hole of a context. *)
Definition around (k : list frame) (b f : list Z) : Prop := forall t, inorder (plug k t) = b ++ inorder t ++ f.

Lemma around_left k b f c a r : around k b f -> around (Fr DL c a r :: k) b (a :: inorder r ++ f).
Proof. intros H t. cbn [plug nd]. rewrite H. cbn. by rewrite <- app_assoc. Qed.

Lemma around_right k b f c l a : around k b f -> around (Fr DR c a l :: k) (b ++ inorder l ++ [a]) f.
Proof. intros H t. cbn [plug nd]. rewrite H. cbn. by rewrite <- !app_assoc. Qed.

(** The link of a hole. *)
Lemma holds_link k t d R s : holds (plug k t) R s -> link_dir k d ->
  (if cptr k =? 0 then get_root else get_child d (cptr k)) s = Ret (ptr t) s.
Proof.
  intros Hs Hd. destruct k as [|[d' c p sib] k]; cbn [cptr f_addr].
  { change (0 =? 0) with true. unfold get_root. by destruct Hs as [_ ->]. }
  cbn in Hd. subst d'. pose proof (holds_wf _ _ _ Hs) as Hwf. destruct (wf_plug _ _ Hwf) as (_ & _ & Hv).
  apply Forall_cons in Hv as [[Hp _] _]. cbn in Hp. destruct (Z.eqb_spec p 0); [lia|].
  destruct d; cbn [plug nd] in Hs; by rewrite (holds_child _ _ _ _ _ _ _ _ Hs).
Qed.

Lemma zoom_ret {A} (m : M rbst A) v s : m (io_hist_tree s) = Ret v (io_hist_tree s) -> on_tree m s = Ret v s.
Proof. intros E. unfold on_tree, zoom. rewrite E. by destruct s. Qed.

Section Search.
Context (T : tree) (s : hist) (n : io_piece).

(** The piece of a node. *)
Definition piece_at (a : Z) (P : io_piece -> Prop) : Prop := exists q, pieces s !! a = Some q /\ P q.
Definition node_before (a b : Z) : Prop := piece_at a (fun q => piece_at b (before q)).

Hypothesis Htree : holds T [] (io_hist_tree s).
Hypothesis Hn : piece_fits n.
Hypothesis Hpieces : Forall (fun a => piece_at a piece_fits) (inorder T).
Hypothesis Hsorted : StronglySorted node_before (inorder T).

(** What a search finds: a piece in conflict, or the gap where the new one belongs. *)
Definition slot_ok (r : slot) : Prop :=
  match r with
  | Overlap a => a ∈ inorder T /\ piece_at a (conflict n)
  | Found par d => exists k b f, T = plug k Leaf /\ par = cptr k /\ link_dir k d /\ around k b f /\
      Forall (fun a => piece_at a (fun q => before q n)) b /\ Forall (fun a => piece_at a (before n)) f
  end.

Lemma sorted_parts b l a r f :
  inorder T = b ++ (l ++ a :: r) ++ f ->
  Forall (fun x => node_before x a) l /\ Forall (node_before a) r.
Proof.
  intros E. rewrite E in Hsorted. clear - Hsorted. induction b as [|x b IH]; cbn in Hsorted.
  - induction l as [|y l IH]; cbn in Hsorted.
    + split; [done|]. apply StronglySorted_inv in Hsorted as [_ H]. by apply Forall_app in H as [? _].
    + apply StronglySorted_inv in Hsorted as [Hs Hy]. destruct (IH Hs) as [H1 H2]. split; [|done]. constructor; [|done].
      rewrite Forall_forall in Hy. apply Hy. set_solver.
  - apply IH. by apply StronglySorted_inv in Hsorted as [? _].
Qed.

Lemma find_slot_spec t : forall k b f fuel d,
  T = plug k t -> around k b f -> link_dir k d -> (length (inorder t) <= fuel)%nat ->
  Forall (fun a => piece_at a (fun q => before q n)) b -> Forall (fun a => piece_at a (before n)) f ->
  exists r, find_slot fuel n (cptr k) d s = Ret r s /\ slot_ok r.
Proof.
  induction t as [|c l IHl a r IHr]; intros k b f fuel d ET Hk Hd Hf Hb Hfw.
  - assert (find_slot fuel n (cptr k) d s = Ret (Found (cptr k) d) s) as E.
    { rewrite ET in Htree. pose proof (zoom_ret _ _ _ (holds_link k Leaf d [] _ Htree Hd)) as E.
      destruct fuel; cbn [find_slot]; by rewrite (bind_Ret _ _ _ _ _ E). }
    exists (Found (cptr k) d). split; [done|]. by exists k, b, f.
  - pose proof Htree as Htree'. rewrite ET in Htree'. pose proof (zoom_ret _ _ _ (holds_link k (Node c l a r) d [] _ Htree' Hd)) as E.
    assert (inorder T = b ++ (inorder l ++ a :: inorder r) ++ f) as EI by (by rewrite ET, Hk).
    cbn in Hf. rewrite length_app in Hf. cbn in Hf. destruct fuel as [|fuel]; [lia|]. cbn [find_slot].
    rewrite (bind_Ret _ _ _ _ _ E). cbn [ptr].
    pose proof (wf_addr _ _ _ _ _ (holds_wf _ _ _ Htree')) as [Ha _]. destruct (Z.eqb_spec a 0); [lia|].
    assert (piece_at a piece_fits) as (q & Hq & Hqf) by (rewrite Forall_forall in Hpieces; apply Hpieces; rewrite EI; set_solver).
    assert (get_ipo a s = Ret q s) as Eq by (unfold get_ipo; by rewrite Hq). rewrite (bind_Ret _ _ _ _ _ Eq).
    pose proof (compare_spec n q Hn Hqf) as Hcmp. destruct (sorted_parts _ _ _ _ _ EI) as [Hl Hr].
    destruct (compare_ipo n q) as [d' [|]].
    + exists (Overlap a). split; [done|]. split; [rewrite EI; set_solver|]. exists q. split; [done|]. by destruct d'.
    + destruct d'.
      * apply (IHl (Fr DL c a r :: k) b (a :: inorder r ++ f) fuel DL); [done | by apply around_left | done | lia | done|].
        constructor; [by exists q|]. apply Forall_app. split; [|done]. eapply Forall_impl; [exact Hr|].
        intros x (q1 & Hq1 & q2 & Hq2 & Hb12). rewrite Hq in Hq1. injection Hq1 as <-. exists q2. split; [done|].
        by apply (before_trans _ q).
      * apply (IHr (Fr DR c a l :: k) (b ++ inorder l ++ [a]) f fuel DR); [done | by apply around_right | done | lia | | done].
        apply Forall_app. split; [done|]. apply Forall_app. split; [|constructor; [by exists q | done]].
        eapply Forall_impl; [exact Hl|]. intros x (q1 & Hq1 & q2 & Hq2 & Hb12). rewrite Hq in Hq2. injection Hq2 as <-.
        exists q1. split; [done|]. by apply (before_trans _ q).
Qed.
End Search.

(** * The history *)

(** The trim list: allocated pieces, counted. *)
Record trim_ok (s : hist) : Prop := {
  to_nodup : NoDup (trim_list s);
  to_len : trim_entries s = u64 (Z.of_nat (length (trim_list s)));
  to_mem : forall a, a ∈ trim_list s -> is_Some (pieces s !! a)
}.

(** The state holds the pieces [l] in the tree, in order. *)
Record hist_ok (l : list (Z * io_piece)) (s : hist) : Prop := {
  ho_tree : exists T, holds T [] (io_hist_tree s) /\ rb_tree T /\ inorder T = l.*1;
  ho_pieces : Forall (fun x => pieces s !! x.1 = Some x.2 /\ has IP_F_ONRB (ip_flags x.2) = true /\ piece_fits x.2) l;
  ho_sorted : StronglySorted before l.*2;
  ho_mem : forall p, is_Some (pieces s !! p) -> p ∈ dom (nodes (io_hist_tree s)) /\ valid p;
  ho_list : io_hist_list s = [];
  ho_len : io_hist_len s = u64 (Z.of_nat (length l));
  ho_trim : trim_ok s
}.

Lemma u64_step a d : u64 (u64 a + d) = u64 (a + d).
Proof. unfold u64. by rewrite Z.add_mod_idemp_l by lia. Qed.

Lemma sorted_nodes s (l : list (Z * io_piece)) :
  Forall (fun x => pieces s !! x.1 = Some x.2) l -> StronglySorted before l.*2 -> StronglySorted (node_before s) l.*1.
Proof.
  induction l as [|[a q] l IH]; cbn; intros Hp Hs; [constructor|].
  apply Forall_cons in Hp as [Hq Hp]. apply StronglySorted_inv in Hs as [Hs Hb]. constructor; [by apply IH|].
  apply Forall_fmap. apply Forall_forall. intros [b q'] Hin. cbn.
  rewrite Forall_forall in Hp. rewrite Forall_forall in Hb. exists q. split; [done|]. exists q'. split; [by apply (Hp (b, q'))|]. apply Hb.
  by apply (list_elem_of_fmap_2 snd l (b, q')).
Qed.

(** Freeing a node outside of the tree. *)
Lemma holds_delete T R t a : holds T R t -> a ∉ (tcells 0 T ++ R).*1 -> holds T R (mkRbst (delete a (nodes t)) (rb_root t)).
Proof.
  intros [[Hnd Hall] Hr] Ha. split; [|done]. split; [done|]. apply Forall_forall. intros x Hx.
  rewrite Forall_forall in Hall. destruct (Hall x Hx) as [Hok Hl]. split; [done|]. cbn. rewrite lookup_delete_ne; [done|].
  intros ->. apply Ha. by apply list_elem_of_fmap_2.
Qed.

Lemma holds_keys T : (tcells 0 T ++ []).*1 ≡ₚ inorder T.
Proof. rewrite app_nil_r, keys_tcells. apply addrs_inorder. Qed.

Lemma holds_not_in T a : a ∉ inorder T -> a ∉ (tcells 0 T ++ []).*1.
Proof. by rewrite holds_keys. Qed.

Lemma hist_nodup l s : hist_ok l s -> NoDup l.*1.
Proof.
  intros H. destruct (ho_tree _ _ H) as (T & HT & _ & <-). by apply wf_inorder, (holds_wf _ _ _ HT).
Qed.

(** ** Taking a piece out of the tree *)

Lemma sorted_remove {A} (R : A -> A -> Prop) l1 x l2 : StronglySorted R (l1 ++ x :: l2) -> StronglySorted R (l1 ++ l2).
Proof.
  induction l1 as [|y l1 IH]; cbn; intros H; apply StronglySorted_inv in H as [H Hy]; [done|].
  constructor; [by apply IH|]. apply Forall_app in Hy as [H1 H2]. apply Forall_cons in H2 as [_ H2]. by apply Forall_app.
Qed.

(** [rb_erase] of a piece of the history, up to the length. *)
Lemma erase_hist l1 a q l2 s :
  hist_ok (l1 ++ (a, q) :: l2) s ->
  exists t, rb_erase a (io_hist_tree s) = Ret tt t /\ dom (nodes t) = dom (nodes (io_hist_tree s)) /\
    exists T, holds T [] t /\ rb_tree T /\ inorder T = (l1 ++ l2).*1.
Proof.
  intros H. pose proof (hist_nodup _ _ H) as Hnd. destruct (ho_tree _ _ H) as (T & HT & Hrb & EI).
  rewrite fmap_app in EI, Hnd. cbn in EI, Hnd.
  destruct (find_focus T a) as (k & c & l & r & ->); [rewrite EI; set_solver|].
  destruct (rb_erase_spec k c l a r [] _ HT Hrb) as (t & T' & E & Ht & Hrb' & b & f & E1 & E2).
  exists t. split; [done|]. split; [by apply (kdom_erase a _ tt)|].
  exists T'. split; [done|]. split; [done|]. rewrite EI in E1. destruct (nodup_split _ _ _ _ _ Hnd E1) as [<- <-].
  by rewrite E2, fmap_app.
Qed.


(** The state after [remove_trim_entry]. *)
Definition untrimmed (p : Z) (s : hist) : hist :=
  if bool_decide (p ∈ trim_list s)
  then set_trim (filter (fun x => x <> p) (trim_list s)) (u64 (trim_entries s - 1)) s else s.

Lemma filter_length_remove (l : list Z) p : NoDup l -> p ∈ l -> length l = S (length (filter (fun x => x <> p) l)).
Proof.
  induction 1 as [|x l Hx Hnd IH]; intros Hp; [set_solver|]. rewrite filter_cons.
  destruct (decide (x = p)) as [->|Hne].
  - rewrite decide_False by (by intros H). cbn. f_equal. f_equal. clear - Hx. induction l as [|y l IH]; [done|].
    apply not_elem_of_cons in Hx as [Hy Hx]. rewrite filter_cons, decide_True by congruence. by f_equal; apply IH.
  - rewrite decide_True by done. cbn. f_equal. apply IH. set_solver.
Qed.

Lemma untrimmed_ok p s : trim_ok s -> trim_ok (untrimmed p s).
Proof.
  intros [Hnd He Hm]. unfold untrimmed. destruct (decide (p ∈ trim_list s)) as [Hp|Hp].
  - rewrite bool_decide_true by done. split; cbn; [by apply NoDup_filter | |].
    + rewrite He, (filter_length_remove (trim_list s) p Hnd Hp), <- Z.add_opp_r, u64_step. f_equal. lia.
    + intros a Ha. apply list_elem_of_filter in Ha as [_ Ha]. by apply Hm.
  - by rewrite bool_decide_false.
Qed.

Lemma trim_ok_mono s s' :
  trim_list s' = trim_list s -> trim_entries s' = trim_entries s ->
  (forall a, a ∈ trim_list s -> is_Some (pieces s !! a) -> is_Some (pieces s' !! a)) -> trim_ok s -> trim_ok s'.
Proof. intros E1 E2 Hp [H1 H2 H3]. split; rewrite ?E1, ?E2; auto. Qed.

Lemma untrimmed_not_in p s : p ∉ trim_list (untrimmed p s).
Proof.
  unfold untrimmed. destruct (decide (p ∈ trim_list s)) as [Hp|Hp].
  - rewrite bool_decide_true by done. cbn. intros Ha. by apply list_elem_of_filter in Ha as [? _].
  - by rewrite bool_decide_false.
Qed.

Lemma untrimmed_frame p s :
  io_hist_tree (untrimmed p s) = io_hist_tree s /\ pieces (untrimmed p s) = pieces s /\
  io_hist_list (untrimmed p s) = io_hist_list s /\ io_hist_len (untrimmed p s) = io_hist_len s.
Proof. unfold untrimmed. by destruct (bool_decide _). Qed.

(** A state in which one piece has left the tree, and its memory perhaps too. *)
Lemma hist_ok_drop l1 a q l2 s s' t (fr : bool) :
  hist_ok (l1 ++ (a, q) :: l2) s -> dom (nodes t) = dom (nodes (io_hist_tree s)) ->
  (exists T, holds T [] t /\ rb_tree T /\ inorder T = (l1 ++ l2).*1) ->
  io_hist_tree s' = (if fr then mkRbst (delete a (nodes t)) (rb_root t) else t) ->
  (forall p, p <> a -> pieces s' !! p = pieces s !! p) -> (fr = true -> pieces s' !! a = None) ->
  io_hist_list s' = io_hist_list s -> io_hist_len s' = u64 (io_hist_len s - 1) -> trim_ok s' ->
  hist_ok (l1 ++ l2) s'.
Proof.
  intros H Hdom (T & HT & Hrb & EI) Et Hp Ha Hl Hlen Htrim. pose proof (hist_nodup _ _ H) as Hnd.
  rewrite fmap_app in Hnd. cbn in Hnd.
  assert (a ∉ (l1 ++ l2).*1) as Hna.
  { rewrite fmap_app. apply NoDup_app in Hnd as (_ & H1 & H2). apply NoDup_cons in H2 as [H2 _]. specialize (H1 a). set_solver. }
  constructor.
  - exists T. rewrite Et. destruct fr; [|done]. split; [|done]. apply holds_delete; [done|]. apply holds_not_in. by rewrite EI.
  - pose proof (ho_pieces _ _ H) as HP. apply Forall_app in HP as [HP1 HP2]. apply Forall_cons in HP2 as [_ HP2].
    apply Forall_forall. intros x Hx. assert (x.1 <> a) as Hxa.
    { intros E. apply Hna. rewrite <- E. by apply list_elem_of_fmap_2. }
    rewrite (Hp _ Hxa). apply elem_of_app in Hx as [Hx|Hx]; [by apply (proj1 (Forall_forall _ _) HP1) | by apply (proj1 (Forall_forall _ _) HP2)].
  - pose proof (ho_sorted _ _ H) as HS. rewrite fmap_app in *. cbn in HS. by apply sorted_remove in HS.
  - intros p Hs. destruct (decide (p = a)) as [->|Hne].
    + destruct fr; [rewrite (Ha eq_refl) in Hs; by destruct Hs|]. rewrite Et, Hdom.
      apply (ho_mem _ _ H). pose proof (ho_pieces _ _ H) as HP. apply Forall_app in HP as [_ HP].
      apply Forall_cons in HP as [[HP _] _]. exists q. exact HP.
    + rewrite (Hp p Hne) in Hs. destruct (ho_mem _ _ H p Hs) as [Hd Hv]. split; [|done]. rewrite Et.
      destruct fr; cbn; rewrite ?dom_delete_L, Hdom; set_solver.
  - rewrite Hl. apply (ho_list _ _ H).
  - rewrite Hlen, (ho_len _ _ H). rewrite !length_app. cbn.
    rewrite <- Z.add_opp_r, u64_step. f_equal. lia.
  - exact Htrim.
Qed.

(** ** Adding a piece *)

Lemma on_tree_bind {B} (m1 m2 : M rbst unit) (g : M hist B) s :
  (on_tree m1;; on_tree m2;; g) s = (on_tree (m1;; m2);; g) s.
Proof. unfold on_tree, zoom, mbind, M_bind. by destruct (m1 (io_hist_tree s)) as [? t| | |]; cbn; [destruct (m2 t)|..]. Qed.

(** The mark of a piece in the tree. *)
Definition on_rb (n : io_piece) : io_piece := with_flags (Z.lor IP_F_ONRB) n.

Lemma on_rb_flag n : has IP_F_ONRB (ip_flags (on_rb n)) = true.
Proof.
  unfold has, on_rb, with_flags. cbn [ip_flags]. apply negb_true_iff, Z.eqb_neq. intros E.
  assert (Z.testbit (Z.land (Z.lor IP_F_ONRB (ip_flags n)) IP_F_ONRB) 0 = true) as Hb.
  { by rewrite Z.land_spec, Z.lor_spec. }
  by rewrite E in Hb.
Qed.

Lemma sorted_add n l1 l2 :
  StronglySorted before (l1 ++ l2) -> Forall (fun q => before q n) l1 -> Forall (before n) l2 ->
  StronglySorted before (l1 ++ n :: l2).
Proof.
  induction l1 as [|q l1 IH]; cbn; intros Hs H1 H2; [by constructor|].
  apply StronglySorted_inv in Hs as [Hs Hq]. apply Forall_cons in H1 as [Hqn H1]. constructor; [by apply IH|].
  apply Forall_app in Hq as [Hq1 Hq2]. apply Forall_app. by split; [|constructor].
Qed.

Definition in_hist (s : hist) (x : Z * io_piece) : Prop :=
  pieces s !! x.1 = Some x.2 /\ has IP_F_ONRB (ip_flags x.2) = true /\ piece_fits x.2.

Lemma pieces_forall s (l : list (Z * io_piece)) P :
  Forall (in_hist s) l -> Forall (fun a => piece_at s a P) l.*1 -> Forall P l.*2.
Proof.
  intros Hl H. apply Forall_fmap, Forall_forall. intros x Hx. rewrite Forall_forall in Hl. destruct (Hl x Hx) as (Hx1 & _ & _).
  rewrite Forall_forall in H. destruct (H x.1 (list_elem_of_fmap_2 fst _ _ Hx)) as (q & Hq & HP).
  rewrite Hx1 in Hq. by injection Hq as <-.
Qed.

(** A link without conflicts. *)
Lemma no_conflicts l1 l2 s n :
  Forall (in_hist s) (l1 ++ l2) ->
  Forall (fun a => piece_at s a (fun q => before q n)) l1.*1 -> Forall (fun a => piece_at s a (before n)) l2.*1 ->
  Forall (fun x => ~ conflict n x.2) (l1 ++ l2).
Proof.
  intros [H1 H2]%Forall_app Hb Hf. apply (pieces_forall s l1) in Hb; [|done]. apply (pieces_forall s l2) in Hf; [|done].
  rewrite Forall_fmap in Hb, Hf. apply Forall_app. split; (eapply Forall_impl; [eassumption|]); intros x Hx [Hc1 Hc2]; cbn in Hx; tauto.
Qed.

(** A state in which the piece [p] has joined the tree. *)
Lemma hist_ok_added l1 l2 s s' p n :
  hist_ok (l1 ++ l2) s -> pieces s !! p = Some n -> p ∉ (l1 ++ l2).*1 -> piece_fits n ->
  Forall (fun q => before q n) l1.*2 -> Forall (before n) l2.*2 ->
  (exists T, holds T [] (io_hist_tree s') /\ rb_tree T /\ inorder T = l1.*1 ++ p :: l2.*1) ->
  dom (nodes (io_hist_tree s')) = dom (nodes (io_hist_tree s)) ->
  pieces s' = <[p := on_rb n]> (pieces s) -> io_hist_list s' = io_hist_list s ->
  io_hist_len s' = u64 (io_hist_len s + 1) -> trim_ok s' ->
  hist_ok (l1 ++ (p, on_rb n) :: l2) s'.
Proof.
  intros H Hp Hpl Hn H1 H2 HT Hdom Ep Hl Hlen Htrim. constructor.
  - by rewrite fmap_app.
  - assert (forall x, x ∈ l1 ++ l2 -> in_hist s' x) as Hold.
    { intros x Hx. unfold in_hist. rewrite Ep, lookup_insert_ne; [by apply (proj1 (Forall_forall _ _) (ho_pieces _ _ H))|].
      intros ->. apply Hpl. by apply list_elem_of_fmap_2. }
    apply Forall_app. split; [|constructor].
    + apply Forall_forall. intros x Hx. apply Hold. set_solver.
    + cbn. rewrite Ep, lookup_insert_eq. split; [done|]. split; [apply on_rb_flag | done].
    + apply Forall_forall. intros x Hx. apply Hold. set_solver.
  - rewrite fmap_app. cbn. pose proof (ho_sorted _ _ H) as HS. rewrite fmap_app in HS.
    by apply sorted_add.
  - intros x Hx. rewrite Hdom. apply (ho_mem _ _ H). rewrite Ep in Hx. destruct (decide (x = p)) as [->|]; [by exists n|].
    by rewrite lookup_insert_ne in Hx.
  - rewrite Hl. apply (ho_list _ _ H).
  - rewrite Hlen, (ho_len _ _ H), u64_step. f_equal. rewrite !length_app. cbn. lia.
  - exact Htrim.
Qed.

Lemma hist_ok_add l s p n k d b f :
  hist_ok l s -> pieces s !! p = Some n -> p ∉ l.*1 -> piece_fits n ->
  holds (plug k Leaf) [] (io_hist_tree s) -> rb_tree (plug k Leaf) -> inorder (plug k Leaf) = l.*1 ->
  link_dir k d -> around k b f ->
  Forall (fun a => piece_at s a (fun q => before q n)) b -> Forall (fun a => piece_at s a (before n)) f ->
  exists s' l1 l2,
    (on_tree (rb_link_node p (cptr k) d);; on_tree (rb_insert_color p);;
     ipo ← get_ipo p; set_ipo p (with_flags (Z.lor IP_F_ONRB) ipo);; add_len 1) s = Ret tt s' /\
    l = l1 ++ l2 /\ hist_ok (l1 ++ (p, on_rb n) :: l2) s' /\ pieces s' = <[p := on_rb n]> (pieces s) /\
    Forall (fun x => ~ conflict n x.2) l.
Proof.
  intros H Hp Hpl Hn HT Hrb EI Hd Hk Hb Hf.
  destruct (ho_mem _ _ H p) as [Hdom Hv]; [by exists n|]. apply elem_of_dom in Hdom as [nd0 Hnd0].
  assert (p ∉ (tcells 0 (plug k Leaf) ++ []).*1) as Hfresh by (apply holds_not_in; by rewrite EI).
  destruct (rb_insert_spec k p nd0 d [] _ HT Hrb Hnd0 Hv Hfresh Hd) as (t & T' & E & Ht & Hrb' & EI').
  rewrite on_tree_bind. assert (on_tree (rb_link_node p (cptr k) d;; rb_insert_color p) s = Ret tt (set_tree t s)) as E1.
  { unfold on_tree, zoom. by rewrite E. }
  rewrite (bind_Ret _ _ _ _ _ E1). assert (get_ipo p (set_tree t s) = Ret n (set_tree t s)) as E2 by (unfold get_ipo; cbn; by rewrite Hp).
  rewrite (bind_Ret _ _ _ _ _ E2). rewrite Hk in EI, EI'. cbn in EI, EI'. symmetry in EI.
  apply fmap_app_inv in EI as (l1 & l2 & -> & -> & ->). pose proof (ho_pieces _ _ H) as HP. apply Forall_app in HP as [HP1 HP2].
  eexists. exists l1, l2. split; [reflexivity|]. split; [done|]. split; [|split; [done | by apply (no_conflicts l1 l2 s n); [apply Forall_app|..]]].
  apply (hist_ok_added l1 l2 s _ p n); try done.
  - by apply (pieces_forall s).
  - by apply (pieces_forall s).
  - by exists T'.
  - cbn. apply (keeps_bind _ _ _ (kdom_link p (cptr k) d) (fun _ => kdom_insert p) _ tt _ E).
  - apply (trim_ok_mono s); [done | done | | apply (ho_trim _ _ H)]. intros a _ Ha. cbn. apply lookup_insert_is_Some'. by right.
Qed.

Lemma hist_lookup l s a q : hist_ok l s -> (a, q) ∈ l -> pieces s !! a = Some q.
Proof. intros H Hin. by destruct (proj1 (Forall_forall _ _) (ho_pieces _ _ H) _ Hin). Qed.

Lemma get_ipo_run s a q : pieces s !! a = Some q -> get_ipo a s = Ret q s.
Proof. intros E. unfold get_ipo. by rewrite E. Qed.

Lemma on_tree_run {A} (m : M rbst A) v t s : m (io_hist_tree s) = Ret v t -> on_tree m s = Ret v (set_tree t s).
Proof. intros E. unfold on_tree, zoom. by rewrite E. Qed.

Lemma remove_trim_run a s : remove_trim_entry a s = Ret tt (untrimmed a s).
Proof. done. Qed.

(** The state after [free]. *)
Definition freed (a : Z) (s : hist) : hist :=
  set_tree (mkRbst (delete a (nodes (io_hist_tree s))) (rb_root (io_hist_tree s))) (set_pieces (delete a (pieces s)) s).

Lemma free_run s a q : pieces s !! a = Some q -> free_ipo a s = Ret tt (freed a s).
Proof. intros E. unfold free_ipo. rewrite (bind_Ret _ _ _ _ _ (get_ipo_run s a q E)). done. Qed.

(** A piece in the way leaves the history. *)
Lemma overlap_step {B} (g : M hist B) l1 a q l2 s :
  hist_ok (l1 ++ (a, q) :: l2) s ->
  exists s', (q0 ← get_ipo a; add_len (-1);; on_tree (rb_erase a);; remove_trim_entry a;;
              (if negb (has IP_F_IN_FLIGHT (ip_flags q0)) then free_ipo a else mret tt);; g) s = g s' /\
    hist_ok (l1 ++ l2) s' /\
    pieces s' = if has IP_F_IN_FLIGHT (ip_flags q) then pieces s else delete a (pieces s).
Proof.
  intros H. assert (pieces s !! a = Some q) as Hq by (apply (hist_lookup _ _ _ _ H); set_solver).
  destruct (erase_hist l1 a q l2 s H) as (t & E & Hdom & HT).
  set (s1 := set_len (u64 (io_hist_len s + -1)) s). set (s3 := untrimmed a (set_tree t s1)).
  destruct (untrimmed_frame a (set_tree t s1)) as (F1 & F2 & F3 & F4). fold s3 in F1, F2, F3, F4. cbn in F1, F2, F3, F4.
  assert (trim_ok s3) as Htrim by (apply untrimmed_ok, (trim_ok_mono s); auto; apply (ho_trim _ _ H)).
  rewrite (bind_Ret _ _ _ _ _ (get_ipo_run s a q Hq)). rewrite (bind_Ret _ _ s tt s1) by done.
  rewrite (bind_Ret _ _ _ _ _ (on_tree_run (rb_erase a) tt t s1 E)). rewrite (bind_Ret _ _ _ _ _ (remove_trim_run a _)). fold s3.
  destruct (has IP_F_IN_FLIGHT (ip_flags q)); cbn [negb].
  - exists s3. split; [done|]. split; [|done]. apply (hist_ok_drop l1 a q l2 s s3 t false); try done. by rewrite F2.
  - assert (pieces s3 !! a = Some q) as Hq3 by (by rewrite F2). rewrite (bind_Ret _ _ _ _ _ (free_run s3 a q Hq3)).
    exists (freed a s3). split; [done|]. split; [|cbn; by rewrite F2].
    apply (hist_ok_drop l1 a q l2 s (freed a s3) t true); try done.
    + cbn. by rewrite F1.
    + intros p Hne. cbn. by rewrite F2, lookup_delete_ne.
    + intros _. cbn. by rewrite lookup_delete_eq.
    + apply (trim_ok_mono s3); [done | done | | done]. intros x Hx Hs. cbn. rewrite lookup_delete_ne; [done|].
      intros ->. by apply (untrimmed_not_in x (set_tree t s1)).
Qed.

(** * Sorting a piece in *)

(** The pieces that a new one leaves. *)
Definition kept (n : io_piece) (l : list (Z * io_piece)) : list (Z * io_piece) := filter (fun x => ~ conflict n x.2) l.

(** The memory after the new piece [p] was sorted in: the pieces in conflict that are not in
    flight are freed, all others are as before. *)
Definition replaced (p : Z) (n : io_piece) (l : list (Z * io_piece)) (s s' : hist) : Prop :=
  (forall a q, (a, q) ∈ l -> conflict n q ->
     pieces s' !! a = if has IP_F_IN_FLIGHT (ip_flags q) then Some q else None) /\
  (forall a, a <> p -> (forall q, (a, q) ∈ l -> ~ conflict n q) -> pieces s' !! a = pieces s !! a).

Lemma kept_all n l : Forall (fun x => ~ conflict n x.2) l -> kept n l = l.
Proof.
  induction 1 as [|x l Hx Hl IH]; [done|]. unfold kept. rewrite filter_cons, decide_True by done. f_equal. exact IH.
Qed.

Lemma hist_size l s : hist_ok l s -> (length l <= size (nodes (io_hist_tree s)))%nat.
Proof.
  intros H. destruct (ho_tree _ _ H) as (T & HT & _ & EI). pose proof (agree_size _ _ (proj1 HT)) as Hs.
  rewrite app_nil_r, length_tcells in Hs. by rewrite <- (length_fmap fst), <- EI, <- addrs_inorder.
Qed.

(** A search of the whole tree. *)
Lemma search_run l s n :
  hist_ok l s -> piece_fits n ->
  exists r, find_slot (size (nodes (io_hist_tree s))) n 0 DL s = Ret r s /\
    match r with
    | Overlap a => exists q l1 l2, l = l1 ++ (a, q) :: l2 /\ conflict n q
    | Found par d => exists k b f, holds (plug k Leaf) [] (io_hist_tree s) /\ rb_tree (plug k Leaf) /\
        inorder (plug k Leaf) = l.*1 /\ par = cptr k /\ link_dir k d /\ around k b f /\
        Forall (fun a => piece_at s a (fun q => before q n)) b /\ Forall (fun a => piece_at s a (before n)) f
    end.
Proof.
  intros H Hn. destruct (ho_tree _ _ H) as (T & HT & Hrb & EI).
  pose proof (hist_size l s H) as Hsz. rewrite <- (length_fmap fst), <- EI in Hsz.
  destruct (find_slot_spec T s n HT Hn) with (t := T) (k := @nil frame) (b := @nil Z) (f := @nil Z)
    (fuel := size (nodes (io_hist_tree s))) (d := DL) as (r & Er & Hr); try done.
  - rewrite EI. apply Forall_fmap. eapply Forall_impl; [exact (ho_pieces _ _ H)|]. intros [a q] (Hq & _ & Hfit). by exists q.
  - rewrite EI. apply sorted_nodes; [|apply (ho_sorted _ _ H)]. eapply Forall_impl; [exact (ho_pieces _ _ H)|]. by intros x [? _].
  - intros t. by rewrite app_nil_r.
  - exists r. split; [done|]. destruct r as [a|par d].
    + destruct Hr as [Ha (q & Hq & Hc)]. rewrite EI in Ha. apply list_elem_of_fmap in Ha as ([a' q'] & -> & Hin).
      assert (pieces s !! a' = Some q') as Hq' by (by apply (hist_lookup _ _ _ _ H)). cbn in Hq. rewrite Hq' in Hq. injection Hq as ->.
      apply list_elem_of_split in Hin as (l1 & l2 & ->). by exists q, l1, l2.
    + destruct Hr as (k & b & f & -> & -> & Hd & Hk & Hb & Hf). by exists k, b, f.
Qed.

Lemma sort_in_spec p n fuel : forall l s,
  hist_ok l s -> pieces s !! p = Some n -> p ∉ l.*1 -> piece_fits n -> (length l <= fuel)%nat ->
  exists s' l1 l2, sort_in fuel p s = Ret tt s' /\ kept n l = l1 ++ l2 /\ hist_ok (l1 ++ (p, on_rb n) :: l2) s' /\
    replaced p n l s s' /\ pieces s' !! p = Some (on_rb n).
Proof.
  induction fuel as [|fuel IH]; intros l s H Hp Hpl Hn Hf;
    destruct (search_run l s n H Hn) as (r & Er & Hr); cbn [sort_in];
    rewrite (bind_Ret _ _ _ _ _ (get_ipo_run s p n Hp)); (rewrite (bind_Ret _ _ s s s) by done); rewrite (bind_Ret _ _ _ _ _ Er);
    (destruct r as [a|par d];
     [destruct Hr as (q & l1 & l2 & -> & Hc)
     |destruct Hr as (k & b & f & HT & Hrb & EI & -> & Hd & Hk & Hb & Hfw);
      destruct (hist_ok_add l s p n k d b f H Hp Hpl Hn HT Hrb EI Hd Hk Hb Hfw) as (s' & l1 & l2 & E & El & H' & Ep & Hno);
      exists s', l1, l2; split; [exact E|]; split; [by rewrite kept_all|]; split; [done|]; split; [|by rewrite Ep, lookup_insert_eq]; split;
      [intros a q Hin Hc; by destruct (proj1 (Forall_forall _ _) Hno _ Hin) | intros a Ha _; by rewrite Ep, lookup_insert_ne]]).
  - rewrite length_app in Hf. cbn in Hf. lia.
  - destruct (overlap_step (sort_in fuel p) l1 a q l2 s H) as (s1 & E1 & H1 & Ep1). rewrite E1.
    pose proof (hist_nodup _ _ H) as Hnd. rewrite fmap_app in Hnd, Hpl. cbn in Hnd, Hpl.
    assert (p <> a) as Hpa by (intros ->; set_solver).
    assert (pieces s !! a = Some q) as Hqa by (apply (hist_lookup _ _ _ _ H); set_solver).
    assert (forall x, x <> a -> pieces s1 !! x = pieces s !! x) as Hx1.
    { intros x Hx. rewrite Ep1. destruct (has _ _); [done | by rewrite lookup_delete_ne]. }
    destruct (IH (l1 ++ l2) s1 H1) as (s' & m1 & m2 & E2 & Ek & H2 & [R1 R2] & Ep2).
    + by rewrite Hx1.
    + rewrite fmap_app. set_solver.
    + done.
    + rewrite length_app in *. cbn in Hf. lia.
    + exists s', m1, m2. split; [done|]. split.
      { rewrite <- Ek. unfold kept. rewrite !filter_app, filter_cons, decide_False; [done|]. cbn. tauto. }
      split; [done|]. split; [|done].
      assert (forall q', (a, q') ∈ l1 ++ l2 -> False) as Hna.
      { intros q' Hin. apply NoDup_app in Hnd as (_ & Hd1 & Hd2). apply NoDup_cons in Hd2 as [Hd2 _].
        apply elem_of_app in Hin as [Hin|Hin]; apply (list_elem_of_fmap_2 fst) in Hin; cbn in Hin; [by apply (Hd1 a Hin); left | done]. }
      split.
      * intros x q' Hin Hc'. destruct (decide (x = a)) as [->|Hxa].
        -- assert (q' = q) as -> by (pose proof (hist_lookup _ _ _ _ H Hin) as Hl'; rewrite Hqa in Hl'; by injection Hl').
           rewrite R2; [| done | intros q' Hin'; by destruct (Hna q')].
           rewrite Ep1. destruct (has _ _); [done | by rewrite lookup_delete_eq].
        -- apply R1; [|done]. set_solver.
      * intros x Hxp Hx. assert (x <> a) as Hxa by (intros ->; apply (Hx q); [set_solver | done]).
        rewrite R2; [by apply Hx1 | done|]. intros q' Hin'. apply Hx. set_solver.
Qed.
