(* ===== verification/IoHistRun.v ===== *)
(** Runs of the I/O history of fio: logging, completion and verification against an
    abstract history. *)
From Stdlib Require Import Sorted.
From S2P Require Import Prelude Rbtree RbInsert RbErase RbWalk Rand IoHist IoHistSpec.

(** * Logging *)

Lemma holds_write T R t a n : holds T R t -> a ∉ (tcells 0 T ++ R).*1 -> holds T R (mkRbst (<[a := n]> (nodes t)) (rb_root t)).
Proof.
  intros [[Hnd Hall] Hr] Ha. split; [|done]. split; [done|]. apply Forall_forall. intros x Hx.
  rewrite Forall_forall in Hall. destruct (Hall x Hx) as [Hok Hl]. split; [done|]. cbn. rewrite lookup_insert_ne; [done|].
  intros ->. apply Ha. by apply list_elem_of_fmap_2.
Qed.

(** A state that differs in memory outside of the tree only. *)
Lemma hist_ok_outside l s s' p :
  hist_ok l s -> p ∉ l.*1 -> valid p ->
  (exists n, io_hist_tree s' = mkRbst (<[p := n]> (nodes (io_hist_tree s))) (rb_root (io_hist_tree s))) ->
  (forall a, a <> p -> pieces s' !! a = pieces s !! a) ->
  io_hist_list s' = io_hist_list s -> io_hist_len s' = io_hist_len s -> trim_ok s' -> hist_ok l s'.
Proof.
  intros H Hpl Hv [n Et] Hp Hl Hlen Htrim. constructor.
  - destruct (ho_tree _ _ H) as (T & HT & Hrb & EI). exists T. rewrite Et. split; [|done]. apply holds_write; [done|].
    apply holds_not_in. by rewrite EI.
  - apply Forall_forall. intros x Hx. rewrite Hp; [by apply (proj1 (Forall_forall _ _) (ho_pieces _ _ H))|].
    intros <-. apply Hpl. by apply list_elem_of_fmap_2.
  - apply (ho_sorted _ _ H).
  - intros a Ha. rewrite Et. cbn. destruct (decide (a = p)) as [->|Hne]; [split; [set_solver | done]|].
    rewrite Hp in Ha by done. destruct (ho_mem _ _ H a Ha). split; [set_solver | done].
  - rewrite Hl. apply (ho_list _ _ H).
  - rewrite Hlen. apply (ho_len _ _ H).
  - exact Htrim.
Qed.

(** The piece of an io_u. *)
Definition piece_of (u : io_unit) : io_piece := mkIpo (u_file u) (u_offset u) (u_buflen u) (u_numberio u) IP_F_IN_FLIGHT.

(** The options that use the tree. *)
Definition tree_mode (o : hopts) : Prop := forall f, (negb (verifysort o) || negb (td_random o)) && file_randommap o f = false.

Lemma should_trim_run o s : exists b r, io_u_should_trim o s = Ret b (set_trim_state r s).
Proof.
  unfold io_u_should_trim. destruct (trim_percentage o =? 0).
  - exists false, (trim_state s). by destruct s.
  - munfold. destruct (__rand (trim_state s)) as [r st] eqn:E. by eexists _, st.
Qed.

(** The state in which a new piece exists and the tree is still without it. *)
Definition logging (p : Z) (u : io_unit) (r : frand_state) (trim : bool) (s : hist) : hist :=
  mkHist (mkRbst (<[p := mkRb p 0 0]> (<[p := mkRb 0 0 0]> (nodes (io_hist_tree s)))) (rb_root (io_hist_tree s)))
    (<[p := piece_of u]> (<[p := mkIpo 0 0 0 0 0]> (pieces s))) (io_hist_list s) (io_hist_len s)
    (if trim then trim_list s ++ [p] else trim_list s)
    (if trim then u64 (trim_entries s + 1) else trim_entries s) r (verify_rand s) (file_refs s).

Lemma logging_trim p u r b s : trim_ok s -> pieces s !! p = None -> trim_ok (logging p u r b s).
Proof.
  intros [H1 H2 H3] Hp. assert (p ∉ trim_list s) as Hni by (intros Hin; destruct (H3 p Hin); congruence).
  assert (forall a, a ∈ trim_list s -> is_Some (pieces (logging p u r b s) !! a)) as Hold.
  { intros a Ha. cbn. rewrite !lookup_insert_is_Some'. auto. }
  destruct b; split; cbn; try done.
  - apply NoDup_app. split; [done|]. split; [set_solver | apply NoDup_singleton].
  - rewrite H2, u64_step, length_app. f_equal. cbn. lia.
  - intros a Ha. apply elem_of_app in Ha as [Ha|Ha]; [by apply Hold|]. apply list_elem_of_singleton in Ha as ->.
    by rewrite lookup_insert_eq.
Qed.

Lemma logging_ok p u r b l s :
  hist_ok l s -> pieces s !! p = None -> valid p -> p ∉ l.*1 -> hist_ok l (logging p u r b s).
Proof.
  intros H Hp Hv Hpl. apply (hist_ok_outside l s _ p); try done.
  - exists (mkRb p 0 0). cbn. by rewrite insert_insert_eq.
  - intros a Ha. cbn. by rewrite !lookup_insert_ne.
  - apply logging_trim; [apply (ho_trim _ _ H) | done].
Qed.

Lemma log_enters o p u s :
  tree_mode o ->
  exists r b, log_io_piece o p u s =
    (sort_in (size (nodes (io_hist_tree (logging p u r b s)))) p;;
     mret (mkIou (u_file u) (u_offset u) (u_buflen u) (u_numberio u) p (u_xfer_buflen u) (u_resid u)
             (u_ver_list u) (u_trimmed u) (u_seed u) (u_ddir u) (u_buf u) (u_xfer_buf u))) (logging p u r b s).
Proof.
  intros Hm. unfold log_io_piece. set (s1 := set_pieces (<[p := piece_of u]> (<[p := mkIpo 0 0 0 0 0]> (pieces s)))
    (set_tree (mkRbst (<[p := mkRb 0 0 0]> (nodes (io_hist_tree s))) (rb_root (io_hist_tree s))) s)).
  destruct (should_trim_run o s1) as (b & r & Er). exists r, b.
  rewrite (bind_Ret _ _ s tt (set_pieces (<[p := mkIpo 0 0 0 0 0]> (pieces s))
    (set_tree (mkRbst (<[p := mkRb 0 0 0]> (nodes (io_hist_tree s))) (rb_root (io_hist_tree s))) s))) by done.
  rewrite (bind_Ret _ _ _ tt s1) by done. rewrite (bind_Ret _ _ _ _ _ Er). cbn [u_file]. rewrite Hm.
  set (s2 := mkHist (io_hist_tree s1) (pieces s1) (io_hist_list s) (io_hist_len s)
    (if b then trim_list s ++ [p] else trim_list s) (if b then u64 (trim_entries s + 1) else trim_entries s) r (verify_rand s) (file_refs s)).
  rewrite (bind_Ret _ _ _ tt s2) by (by destruct b).
  assert (on_tree (rb_set_parent p p) s2 = Ret tt (logging p u r b s)) as Ep.
  { change (logging p u r b s) with (set_tree (mkRbst (<[p := mkRb p 0 0]> (nodes (io_hist_tree s1))) (rb_root (io_hist_tree s1))) s2).
    apply on_tree_run. unfold rb_set_parent, rd, wr. munfold. unfold s2, s1. cbn. by rewrite !lookup_insert_eq. }
  by rewrite (bind_Ret _ _ _ _ _ Ep).
Qed.

(** A logged write: the pieces it overlaps go, all others stay, and it is sorted in. *)
Lemma log_step o l s p u :
  hist_ok l s -> tree_mode o -> pieces s !! p = None -> valid p -> piece_fits (piece_of u) ->
  exists s' u' l1 l2, log_io_piece o p u s = Ret u' s' /\ u_ipo u' = p /\
    kept (piece_of u) l = l1 ++ l2 /\ hist_ok (l1 ++ (p, on_rb (piece_of u)) :: l2) s' /\ replaced p (piece_of u) l s s'.
Proof.
  intros H Hm Hp Hv Hn. assert (p ∉ l.*1) as Hpl.
  { intros Hin. apply list_elem_of_fmap in Hin as ([a q] & -> & Hin). pose proof (hist_lookup _ _ _ _ H Hin) as E. cbn in Hp. by rewrite Hp in E. }
  destruct (log_enters o p u s Hm) as (r & b & E). pose proof (logging_ok p u r b l s H Hp Hv Hpl) as H1.
  destruct (sort_in_spec p (piece_of u) (size (nodes (io_hist_tree (logging p u r b s)))) l _ H1) as (s' & l1 & l2 & Es & Ek & H2 & [R1 R2] & _); try done.
  - cbn. by rewrite lookup_insert_eq.
  - by apply hist_size.
  - rewrite E, (bind_Ret _ _ _ _ _ Es). eexists s', _, l1, l2. split; [done|]. split; [done|]. split; [done|]. split; [done|]. split; [done|].
    intros a Ha Hc. rewrite (R2 a Ha Hc). cbn. by rewrite !lookup_insert_ne.
Qed.

(** * Where the new piece goes *)

(** The abstract history after a write: what is before it and what is after it stays. *)
Definition place (p : Z) (n : io_piece) (l : list (Z * io_piece)) : list (Z * io_piece) :=
  filter (fun x => before x.2 n) l ++ (p, on_rb n) :: filter (fun x => before n x.2) l.

Lemma filter_none {A} (P : A -> Prop) `{forall x, Decision (P x)} l : Forall (fun x => ~ P x) l -> filter P l = [].
Proof. induction 1 as [|x l Hx Hl IH]; [done|]. by rewrite filter_cons, decide_False. Qed.

Lemma filter_all {A} (P : A -> Prop) `{forall x, Decision (P x)} l : Forall P l -> filter P l = l.
Proof. induction 1 as [|x l Hx Hl IH]; [done|]. rewrite filter_cons, decide_True by done. by f_equal. Qed.

Lemma filter_kept (P : Z * io_piece -> Prop) `{forall x, Decision (P x)} n l :
  (forall x, P x -> ~ conflict n x.2) -> filter P (kept n l) = filter P l.
Proof.
  intros HP. unfold kept. induction l as [|x l IH]; [done|]. rewrite !filter_cons.
  destruct (decide (P x)) as [Hx|Hx].
  - rewrite decide_True by auto. rewrite filter_cons, decide_True by done. by f_equal.
  - destruct (decide (~ conflict n x.2)); [|done]. by rewrite filter_cons, decide_False.
Qed.

Lemma sorted_around {A} (R : A -> A -> Prop) l1 x l2 :
  StronglySorted R (l1 ++ x :: l2) -> Forall (fun y => R y x) l1 /\ Forall (R x) l2.
Proof.
  induction l1 as [|y l1 IH]; cbn; intros H; apply StronglySorted_inv in H as [H Hy]; [done|].
  destruct (IH H) as [H1 H2]. split; [|done]. constructor; [|done]. rewrite Forall_forall in Hy. apply Hy. set_solver.
Qed.

Lemma place_eq p n l l1 l2 :
  kept n l = l1 ++ l2 -> StronglySorted before (l1 ++ (p, on_rb n) :: l2).*2 -> l1 ++ (p, on_rb n) :: l2 = place p n l.
Proof.
  intros Ek Hs. rewrite fmap_app in Hs. cbn in Hs. apply sorted_around in Hs as [H1 H2]. rewrite Forall_fmap in H1, H2.
  unfold place. rewrite <- (filter_kept (fun x => before x.2 n) n l), <- (filter_kept (fun x => before n x.2) n l), Ek, !filter_app;
    [| intros x Hx [Ha Hb]; cbn in *; tauto | intros x Hx [Ha Hb]; cbn in *; tauto].
  assert (Forall (fun x => before x.2 n) l1) as H1' by exact H1. assert (Forall (fun x => before n x.2) l2) as H2' by exact H2.
  assert (forall q, ~ (before q n /\ before n q)) as Hxor by (intros q [Ha Hb]; exact (before_irrefl _ (before_trans _ _ _ Ha Hb))).
  rewrite (filter_all _ l1), (filter_none _ l2), (filter_none _ l1), (filter_all _ l2); try done.
  - by rewrite app_nil_r.
  - eapply Forall_impl; [exact H1'|]. intros x Hx Hy. by apply (Hxor x.2).
  - eapply Forall_impl; [exact H2'|]. intros x Hx Hy. by apply (Hxor x.2).
Qed.

(** * Completion *)

Definition ready (q : io_piece) : io_piece := with_flags (fun f => Z.land f (Z.lnot IP_F_IN_FLIGHT)) q.

(** The abstract history once the piece [p] was written. *)
Definition completed (p : Z) (l : list (Z * io_piece)) : list (Z * io_piece) :=
  (fun x => if decide (x.1 = p) then (x.1, ready x.2) else x) <$> l.

Lemma completed_fst p l : (completed p l).*1 = l.*1.
Proof. unfold completed. rewrite <- list_fmap_compose. apply list_fmap_ext. intros i x _. cbn. by destruct (decide _). Qed.

Lemma completed_sorted p l : StronglySorted before l.*2 -> StronglySorted before (completed p l).*2.
Proof.
  induction l as [|x l IH]; intros H; [done|]. rewrite fmap_cons in H. apply StronglySorted_inv in H as [H Hx].
  rewrite Forall_fmap in Hx. unfold completed in *. rewrite !fmap_cons. constructor; [by apply IH|]. rewrite !Forall_fmap. eapply Forall_impl; [exact Hx|]. intros y Hy. cbn in *.
  by destruct (decide (x.1 = p)), (decide (y.1 = p)).
Qed.

Lemma ready_onrb q : has IP_F_ONRB (ip_flags (ready q)) = has IP_F_ONRB (ip_flags q).
Proof. unfold has. cbn [ready with_flags ip_flags]. by rewrite <- Z.land_assoc. Qed.

Lemma ready_flight q : has IP_F_IN_FLIGHT (ip_flags (ready q)) = false.
Proof. unfold has. cbn [ready with_flags ip_flags]. rewrite <- Z.land_assoc. cbn. by rewrite Z.land_0_r. Qed.

Lemma complete_step l s u q :
  hist_ok l s -> pieces s !! u_ipo u = Some q ->
  exists s', io_completed_ok u s = Ret tt s' /\ hist_ok (completed (u_ipo u) l) s' /\
    pieces s' = <[u_ipo u := ready q]> (pieces s).
Proof.
  intros H Hq. destruct (ho_mem _ _ H (u_ipo u)) as [_ [Hv _]]; [by exists q|].
  unfold io_completed_ok. destruct (Z.eqb_spec (u_ipo u) 0); [lia|]. rewrite (bind_Ret _ _ _ _ _ (get_ipo_run s _ _ Hq)).
  eexists. split; [reflexivity|]. split; [|done]. constructor.
  - rewrite completed_fst. apply (ho_tree _ _ H).
  - unfold completed. apply Forall_fmap, Forall_forall. intros x Hx. destruct (proj1 (Forall_forall _ _) (ho_pieces _ _ H) _ Hx) as (E1 & E2 & E3).
    cbn. destruct (decide (x.1 = u_ipo u)) as [E|E]; cbn.
    + rewrite E in E1 |- *. rewrite Hq in E1. injection E1 as ->. rewrite lookup_insert_eq. split; [done|]. split; [|done]. rewrite <- E2. apply ready_onrb.
    + by rewrite lookup_insert_ne.
  - apply completed_sorted, (ho_sorted _ _ H).
  - cbn. intros a Ha. apply (ho_mem _ _ H). apply lookup_insert_is_Some' in Ha as [<-|Ha]; [by exists q | done].
  - apply (ho_list _ _ H).
  - unfold completed. rewrite length_fmap. apply (ho_len _ _ H).
  - apply (trim_ok_mono s); [done | done | | apply (ho_trim _ _ H)]. intros a _ Ha. cbn. apply lookup_insert_is_Some'. by right.
Qed.

(** * Verification *)

(** What [get_next_verify] fills in from a piece. *)
Definition verify_unit (q : io_piece) (seed : Z) (u : io_unit) : io_unit :=
  mkIou (ip_file q) (ip_offset q) (ip_len q) (ip_numberio q) (u_ipo u) (ip_len q) (u_resid u)
    true (u_trimmed u || has IP_F_TRIMMED (ip_flags q)) seed DDIR_READ (u_buf u) (u_buf u).

Definition off_rb (q : io_piece) : io_piece := with_flags (fun f => Z.land f (Z.lnot IP_F_ONRB)) q.

Lemma off_trimmed q : has IP_F_TRIMMED (ip_flags (off_rb q)) = has IP_F_TRIMMED (ip_flags q).
Proof. unfold has. cbn [off_rb with_flags ip_flags]. by rewrite <- Z.land_assoc. Qed.

Lemma first_run l s : hist_ok l s -> on_tree rb_first s = Ret (hd 0 l.*1) s.
Proof.
  intros H. destruct (ho_tree _ _ H) as (T & HT & _ & EI). apply zoom_ret.
  destruct (first_spec T [] _ HT) as (t & E & _). rewrite EI in E. by rewrite E, (reads_first _ _ t E).
Qed.

Lemma root_empty l s : hist_ok l s -> (rb_root (io_hist_tree s) =? 0) = bool_decide (l = []).
Proof.
  intros H. destruct (ho_tree _ _ H) as (T & HT & _ & EI). pose proof (holds_wf _ _ _ HT) as Hwf. destruct HT as [_ ->].
  destruct T as [|c t a r]; cbn in EI.
  - symmetry in EI. apply fmap_nil_inv in EI. by subst.
  - apply (wf_addr []) in Hwf as [Ha _]. cbn. rewrite bool_decide_false; [lia|]. intros ->. by destruct (inorder t).
Qed.

(** The first piece leaves the tree, unless there is none or it is in flight. *)
Lemma next_piece_none l s :
  hist_ok l s -> (match l with [] => True | (_, q) :: _ => has IP_F_IN_FLIGHT (ip_flags q) = true end) ->
  next_piece s = Ret None s.
Proof.
  intros H Hl. unfold next_piece. rewrite (bind_Ret _ _ s s s) by done. rewrite (root_empty l s H). destruct l as [|[a q] l].
  - cbn. by rewrite (ho_list _ _ H).
  - rewrite bool_decide_false by done. cbn [negb]. rewrite (bind_Ret _ _ _ _ _ (first_run _ s H)). cbn [fmap list_fmap hd fst].
    assert (pieces s !! a = Some q) as Hq by (apply (hist_lookup _ _ _ _ H); set_solver).
    rewrite (bind_Ret _ _ _ _ _ (get_ipo_run s a q Hq)). by rewrite Hl.
Qed.

Lemma next_piece_some a q l s :
  hist_ok ((a, q) :: l) s -> has IP_F_IN_FLIGHT (ip_flags q) = false ->
  exists t, next_piece s = Ret (Some (a, off_rb q)) (set_pieces (<[a := off_rb q]> (pieces s)) (set_tree t s)) /\
    dom (nodes t) = dom (nodes (io_hist_tree s)) /\ exists T, holds T [] t /\ rb_tree T /\ inorder T = l.*1.
Proof.
  intros H Hfl. destruct (erase_hist [] a q l s H) as (t & E & Hdom & HT). exists t. split; [|done].
  destruct (proj1 (Forall_cons _ _ _) (ho_pieces _ _ H)) as [(Hq & Hon & _) _]. cbn in Hq, Hon.
  unfold next_piece. rewrite (bind_Ret _ _ s s s) by done. rewrite (root_empty _ s H), bool_decide_false by done. cbn [negb].
  rewrite (bind_Ret _ _ _ _ _ (first_run _ s H)). cbn [fmap list_fmap hd fst].
  rewrite (bind_Ret _ _ _ _ _ (get_ipo_run s a q Hq)), Hfl.
  rewrite (bind_Ret _ _ _ _ _ (on_tree_run (rb_erase a) tt t s E)), Hon. done.
Qed.

(** The state after [get_next_verify] took [a]: the piece is out of the history, and its
    memory is given back unless its file could not be opened. *)
Lemma verify_state a q l s t (fr : bool) r m :
  let s1 := set_len (u64 (io_hist_len s + -1)) (set_pieces (<[a := off_rb q]> (pieces s)) (set_tree t s)) in
  hist_ok ((a, q) :: l) s -> dom (nodes t) = dom (nodes (io_hist_tree s)) ->
  (exists T, holds T [] t /\ rb_tree T /\ inorder T = l.*1) ->
  hist_ok l (if fr then set_verify_rand r (freed a (untrimmed a (set_refs m s1))) else s1).
Proof.
  intros s1 H Hdom HT. set (s2 := set_refs m s1). destruct (untrimmed_frame a s2) as (F1 & F2 & F3 & F4).
  assert (trim_ok s1) as Htr.
  { apply (trim_ok_mono s); [done | done | | apply (ho_trim _ _ H)]. intros x _ Hx. cbn. apply lookup_insert_is_Some'. by right. }
  destruct fr.
  - apply (hist_ok_drop [] a q l s _ t true); try done.
    + cbn. by rewrite F1.
    + intros p Hp. cbn. rewrite lookup_delete_ne, F2 by done. cbn. by rewrite lookup_insert_ne.
    + intros _. cbn. by rewrite lookup_delete_eq.
    + apply (trim_ok_mono (untrimmed a s2)); [done | done | | apply untrimmed_ok; by apply (trim_ok_mono s1)]. intros x Hx Hs. cbn.
      rewrite lookup_delete_ne; [done|]. intros ->. by apply (untrimmed_not_in x s2).
  - apply (hist_ok_drop [] a q l s _ t false); try done. intros p Hp. cbn. by rewrite lookup_insert_ne.
Qed.

Lemma verify_step o a q l s u open_r opened :
  hist_ok ((a, q) :: l) s -> has IP_F_IN_FLIGHT (ip_flags q) = false -> u_file u = 0 -> opened || (open_r =? 0) = true ->
  exists s' seed, get_next_verify o opened open_r u s = Ret (0, verify_unit q seed u) s' /\ hist_ok l s' /\ pieces s' = delete a (pieces s).
Proof.
  intros H Hfl Hu Hop. destruct (next_piece_some a q l s H Hfl) as (t & E & Hdom & HT).
  unfold get_next_verify. rewrite Hu. cbn [negb Z.eqb]. rewrite (bind_Ret _ _ _ _ _ E).
  set (s1 := set_len (u64 (io_hist_len s + -1)) (set_pieces (<[a := off_rb q]> (pieces s)) (set_tree t s))).
  rewrite (bind_Ret _ _ _ tt s1) by done. replace (negb opened && negb (open_r =? 0)) with false by (by destruct opened, (open_r =? 0)).
  set (m := <[ip_file q := default 0 (file_refs s1 !! ip_file q) + 1]> (file_refs s1)).
  rewrite (bind_Ret (get_file _) _ s1 tt (set_refs m s1)) by done.
  rewrite (bind_Ret _ _ _ _ _ (remove_trim_run a (set_refs m s1))). destruct (untrimmed_frame a (set_refs m s1)) as (_ & F2 & _ & _).
  assert (pieces (untrimmed a (set_refs m s1)) !! a = Some (off_rb q)) as Ha by (rewrite F2; cbn; by rewrite lookup_insert_eq).
  rewrite (bind_Ret _ _ _ _ _ (free_run _ a _ Ha)). pose proof (off_trimmed q) as Ht.
  assert (forall r, pieces (set_verify_rand r (freed a (untrimmed a (set_refs m s1)))) = delete a (pieces s)) as Hpc.
  { intros r. cbn. rewrite F2. cbn. by rewrite delete_insert_eq. }
  destruct (pattern_bytes o =? 0).
  - rewrite (bind_Ret _ _ _ (freed a (untrimmed a (set_refs m s1))) (freed a (untrimmed a (set_refs m s1)))) by done.
    destruct (rand_product _) as [seed r] eqn:Er. exists (set_verify_rand r (freed a (untrimmed a (set_refs m s1)))), seed.
    split; [|split; [exact (verify_state a q l s t true r m H Hdom HT) | apply Hpc]]. cbn. unfold verify_unit. by rewrite <- Ht.
  - set (r := verify_rand (freed a (untrimmed a (set_refs m s1)))). exists (set_verify_rand r (freed a (untrimmed a (set_refs m s1)))), (u_seed u).
    split; [|split; [exact (verify_state a q l s t true r m H Hdom HT) | apply Hpc]]. unfold verify_unit. by rewrite <- Ht.
Qed.

Lemma verify_none o l s u opened open_r :
  hist_ok l s -> u_file u = 0 ->
  (match l with [] => True | (_, q) :: _ => has IP_F_IN_FLIGHT (ip_flags q) = true end) ->
  get_next_verify o opened open_r u s = Ret (1, u) s.
Proof.
  intros H Hu Hl. unfold get_next_verify. rewrite Hu. cbn [negb Z.eqb]. by rewrite (bind_Ret _ _ _ _ _ (next_piece_none l s H Hl)).
Qed.

Lemma verify_fails o a q l s u open_r :
  hist_ok ((a, q) :: l) s -> has IP_F_IN_FLIGHT (ip_flags q) = false -> u_file u = 0 -> open_r <> 0 ->
  exists s' u', get_next_verify o false open_r u s = Ret (1, u') s' /\ hist_ok l s' /\ pieces s' !! a = Some (off_rb q).
Proof.
  intros H Hfl Hu Hop. destruct (next_piece_some a q l s H Hfl) as (t & E & Hdom & HT).
  unfold get_next_verify. rewrite Hu. cbn [negb Z.eqb]. rewrite (bind_Ret _ _ _ _ _ E).
  rewrite (bind_Ret (add_len (-1)) _ _ tt _ eq_refl). destruct (Z.eqb_spec open_r 0); [done|].
  eexists _, _. split; [reflexivity|]. split; [exact (verify_state a q l s t false (verify_rand s) ∅ H Hdom HT)|]. cbn. by rewrite lookup_insert_eq.
Qed.

(** * Whole runs *)

(** A piece or an io_u without its flags. *)
Definition bare (q : io_piece) : io_piece := mkIpo (ip_file q) (ip_offset q) (ip_len q) (ip_numberio q) 0.
Definition bare_unit (u : io_unit) : io_piece := mkIpo (u_file u) (u_offset u) (u_buflen u) (u_numberio u) 0.
Definition bares (l : list (Z * io_piece)) : list io_piece := bare <$> l.*2.

(** A write that is logged when it is issued and completes. *)
Definition write_one (o : hopts) (p : Z) (u : io_unit) : M hist unit :=
  u' ← log_io_piece o p u; io_completed_ok u'.

Fixpoint write_all (o : hopts) (ws : list (Z * io_unit)) : M hist unit :=
  match ws with [] => mret tt | (p, u) :: ws' => write_one o p u;; write_all o ws' end.

(** The addresses [malloc] returns are of memory that is not in use. *)
Fixpoint fresh_run (o : hopts) (ws : list (Z * io_unit)) (s : hist) : Prop :=
  match ws with
  | [] => True
  | (p, u) :: ws' => pieces s !! p = None /\ valid p /\ (forall s', write_one o p u s = Ret tt s' -> fresh_run o ws' s')
  end.

(** The verify loop: an io_u is filled again and again. *)
Fixpoint verify_all (o : hopts) (fuel : nat) (u : io_unit) : M hist (list io_unit) :=
  r ← get_next_verify o true 0 u;
  if r.1 =? 1 then mret [] else
  match fuel with
  | O => on_tree out_of_fuel
  | S fuel' => us ← verify_all o fuel' u; mret (r.2 :: us)
  end.

(** No write of the list touches the piece. *)
Definition untouched (ws : list (Z * io_unit)) (q : io_piece) : Prop := Forall (fun w => ~ conflict (bare_unit w.2) q) ws.

#[global] Instance untouched_dec ws q : Decision (untouched ws q).
Proof. unfold untouched. apply _. Defined.

(** The writes that no later one touches. *)
Fixpoint latest (ws : list (Z * io_unit)) : list io_piece :=
  match ws with
  | [] => []
  | w :: ws' => (if decide (untouched ws' (bare_unit w.2)) then [bare_unit w.2] else []) ++ latest ws'
  end.

Definition all_ready (l : list (Z * io_piece)) : Prop := Forall (fun x => has IP_F_IN_FLIGHT (ip_flags x.2) = false) l.

Lemma bares_kept n l : bares (kept n l) = filter (fun q => ~ conflict n q) (bares l).
Proof.
  induction l as [|x l IH]; [done|]. unfold kept, bares in *. rewrite !fmap_cons, !filter_cons.
  destruct (decide (~ conflict n x.2)) as [Hc|Hc].
  - rewrite decide_True by done. rewrite !fmap_cons. by f_equal.
  - by rewrite decide_False.
Qed.

Lemma bares_completed p l : bares (completed p l) = bares l.
Proof.
  unfold bares, completed. rewrite <- !list_fmap_compose. apply list_fmap_ext. intros i x _. cbn. by destruct (decide _).
Qed.

Lemma completed_ready p l1 q l2 : all_ready (l1 ++ l2) -> all_ready (completed p (l1 ++ (p, q) :: l2)).
Proof.
  intros H. unfold completed. apply Forall_fmap, Forall_forall. intros x Hx. cbn.
  destruct (decide (x.1 = p)) as [E|E]; [apply ready_flight|]. apply (proj1 (Forall_forall _ _) H).
  apply elem_of_app in Hx as [Hx|Hx]; [set_solver|]. apply elem_of_cons in Hx as [->|Hx]; [done | set_solver].
Qed.

Lemma write_step o l s p u :
  hist_ok l s -> all_ready l -> tree_mode o -> pieces s !! p = None -> valid p -> piece_fits (piece_of u) ->
  exists s' l', write_one o p u s = Ret tt s' /\ hist_ok l' s' /\ all_ready l' /\
    bares l' ≡ₚ bare_unit u :: filter (fun q => ~ conflict (bare_unit u) q) (bares l).
Proof.
  intros H Hr Hm Hp Hv Hn. destruct (log_step o l s p u H Hm Hp Hv Hn) as (s1 & u' & l1 & l2 & E & Eu & Ek & H1 & _).
  destruct (complete_step _ s1 u' (on_rb (piece_of u)) H1) as (s2 & E2 & H2 & _).
  { rewrite Eu. apply (hist_lookup _ _ _ _ H1). set_solver. }
  exists s2. eexists. unfold write_one. rewrite (bind_Ret _ _ _ _ _ E). split; [exact E2|]. split; [exact H2|]. rewrite Eu. split.
  - apply completed_ready. rewrite <- Ek. unfold kept. apply Forall_forall. intros x Hx. apply list_elem_of_filter in Hx as [_ Hx].
    by apply (proj1 (Forall_forall _ _) Hr).
  - rewrite bares_completed. unfold bares at 1. rewrite fmap_app. cbn. rewrite fmap_app. cbn. rewrite <- Permutation_middle.
    apply perm_skip. change (filter (fun q => ~ conflict (bare_unit u) q) (bares l)) with (filter (fun q => ~ conflict (piece_of u) q) (bares l)).
    rewrite <- (bares_kept (piece_of u) l), Ek. unfold bares. by rewrite !fmap_app.
Qed.

Lemma write_all_spec o ws : forall l s,
  hist_ok l s -> all_ready l -> tree_mode o -> Forall (fun w => piece_fits (piece_of w.2)) ws -> fresh_run o ws s ->
  exists s' l', write_all o ws s = Ret tt s' /\ hist_ok l' s' /\ all_ready l' /\
    bares l' ≡ₚ filter (untouched ws) (bares l) ++ latest ws.
Proof.
  induction ws as [|[p u] ws IH]; intros l s H Hr Hm Hn Hfr.
  - exists s, l. split; [done|]. split; [done|]. split; [done|]. cbn. rewrite app_nil_r, filter_all; [done|].
    apply Forall_forall. intros q _. constructor.
  - apply Forall_cons in Hn as [Hn0 Hn]. destruct Hfr as (Hp & Hv & Hfr).
    destruct (write_step o l s p u H Hr Hm Hp Hv Hn0) as (s1 & l1 & E1 & H1 & Hr1 & B1).
    destruct (IH l1 s1 H1 Hr1 Hm Hn (Hfr s1 E1)) as (s2 & l2 & E2 & H2 & Hr2 & B2).
    exists s2, l2. cbn [write_all]. rewrite (bind_Ret _ _ _ _ _ E1). split; [done|]. split; [done|]. split; [done|].
    rewrite B2, B1, filter_cons. cbn [latest snd].
    assert (filter (untouched ws) (filter (fun q => ~ conflict (bare_unit u) q) (bares l)) = filter (untouched ((p, u) :: ws)) (bares l)) as ->.
    { rewrite list_filter_filter. apply list_filter_iff. intros q. unfold untouched. rewrite Forall_cons. cbn. tauto. }
    destruct (decide (untouched ws (bare_unit u))); cbn; [by rewrite <- Permutation_middle | done].
Qed.

Lemma verify_all_spec o u : forall l fuel s,
  hist_ok l s -> all_ready l -> u_file u = 0 -> (length l <= fuel)%nat ->
  exists s' us, verify_all o fuel u s = Ret us s' /\ bare_unit <$> us = bares l /\ hist_ok [] s' /\
    pieces s' = foldr (fun x m => delete x.1 m) (pieces s) l.
Proof.
  induction l as [|[a q] l IH]; intros fuel s H Hr Hu Hf.
  - exists s, []. destruct fuel; cbn [verify_all]; unfold get_next_verify; rewrite Hu; cbn [negb Z.eqb];
      split; try done; munfold; by rewrite (next_piece_none [] s H).
  - apply Forall_cons in Hr as [Hq Hr]. destruct fuel as [|fuel]; [cbn in Hf; lia|].
    destruct (verify_step o a q l s u 0 true H Hq Hu eq_refl) as (s1 & seed & E1 & H1 & Ep1).
    destruct (IH fuel s1 H1 Hr Hu) as (s2 & us & E2 & Eb & H2 & Ep2); [cbn in Hf; lia|].
    exists s2, (verify_unit q seed u :: us). cbn [verify_all]. rewrite (bind_Ret _ _ _ _ _ E1). cbn [fst snd Z.eqb Pos.eqb].
    rewrite (bind_Ret _ _ _ _ _ E2). split; [done|]. split; [cbn; by f_equal|]. split; [done|].
    rewrite Ep2, Ep1. cbn. clear. induction l as [|x l IH]; [done|]. cbn. by rewrite IH, delete_delete.
Qed.

(** * Errors, short writes and the end of a job *)

Lemma unlog_step l1 q l2 s u :
  hist_ok (l1 ++ (u_ipo u, q) :: l2) s -> u_ipo u ∉ trim_list s ->
  exists s' u', unlog_io_piece u s = Ret u' s' /\ u_ipo u' = 0 /\ hist_ok (l1 ++ l2) s' /\ pieces s' = delete (u_ipo u) (pieces s).
Proof.
  intros H Htr. set (p := u_ipo u) in *. assert ((p, q) ∈ l1 ++ (p, q) :: l2) as Hin by set_solver.
  destruct (proj1 (Forall_forall _ _) (ho_pieces _ _ H) _ Hin) as (Hq & Hon & _). cbn in Hq, Hon.
  destruct (ho_mem _ _ H p) as [_ [Hv _]]; [by exists q|]. destruct (erase_hist l1 p q l2 s H) as (t & E & Hdom & HT).
  unfold unlog_io_piece. fold p. destruct (Z.eqb_spec p 0); [lia|].
  rewrite (bind_Ret _ _ _ _ _ (get_ipo_run s p q Hq)), Hon, (bind_Ret _ _ _ _ _ (on_tree_run (rb_erase p) tt t s E)).
  rewrite (bind_Ret _ _ _ _ _ (free_run (set_tree t s) p q Hq)).
  eexists _, _. split; [reflexivity|]. split; [done|]. split; [|done].
  apply (hist_ok_drop l1 p q l2 s _ t true); try done.
  - intros x Hx. cbn. by rewrite lookup_delete_ne.
  - intros _. cbn. by rewrite lookup_delete_eq.
  - apply (trim_ok_mono s); [done | done | | apply (ho_trim _ _ H)]. intros x Hx Hs. cbn. rewrite lookup_delete_ne; [done|]. congruence.
Qed.

Lemma sorted_replace {A} (R : A -> A -> Prop) l1 x y l2 :
  (forall z, R z x -> R z y) -> (forall z, R x z -> R y z) -> StronglySorted R (l1 ++ x :: l2) -> StronglySorted R (l1 ++ y :: l2).
Proof.
  intros H1 H2. induction l1 as [|z l1 IH]; cbn; intros H; apply StronglySorted_inv in H as [H Hz]; constructor.
  - done.
  - eapply Forall_impl; [exact Hz | auto].
  - by apply IH.
  - apply Forall_app in Hz as [Ha Hb]. apply Forall_cons in Hb as [Hb Hc]. apply Forall_app. split; [done|]. constructor; auto.
Qed.

(** A short write: the piece shrinks to the bytes that were written. *)
Definition shrunk (u : io_unit) (q : io_piece) : io_piece :=
  mkIpo (ip_file q) (ip_offset q) (u_xfer_buflen u - u_resid u) (ip_numberio q) (ip_flags q).

Lemma short_write_step l1 q l2 s u :
  hist_ok (l1 ++ (u_ipo u, q) :: l2) s -> 0 <= u_resid u <= u_xfer_buflen u -> u_xfer_buflen u - u_resid u <= ip_len q ->
  exists s', trim_io_piece u s = Ret tt s' /\ hist_ok (l1 ++ (u_ipo u, shrunk u q) :: l2) s'.
Proof.
  intros H Hr Hle. pose proof (hist_nodup _ _ H) as Hnd. set (p := u_ipo u) in *.
  assert ((p, q) ∈ l1 ++ (p, q) :: l2) as Hin by set_solver.
  destruct (proj1 (Forall_forall _ _) (ho_pieces _ _ H) _ Hin) as (Hq & Hon & Hfit). cbn in Hq, Hon, Hfit.
  destruct (ho_mem _ _ H p) as [_ [Hv _]]; [by exists q|]. unfold trim_io_piece. fold p. destruct (Z.eqb_spec p 0); [lia|].
  rewrite (bind_Ret _ _ _ _ _ (get_ipo_run s p q Hq)). unfold piece_fits in Hfit. rewrite u64_small by (unfold fits; lia).
  eexists. split; [reflexivity|]. change (mkIpo _ _ _ _ _) with (shrunk u q).
  assert (forall x, x ∈ l1 ++ l2 -> x.1 <> p) as Hne.
  { intros x Hx <-. rewrite fmap_app in Hnd. cbn in Hnd. rewrite <- Permutation_middle in Hnd. apply NoDup_cons in Hnd as [Hnd _]. apply Hnd.
    rewrite <- fmap_app. by apply list_elem_of_fmap_2. }
  constructor.
  - pose proof (ho_tree _ _ H) as HT. by rewrite fmap_app in *.
  - pose proof (ho_pieces _ _ H) as HP. apply Forall_forall. intros x Hx. cbn.
    assert (x = (p, shrunk u q) \/ x ∈ l1 ++ l2) as [->|Hx'] by set_solver.
    + cbn. rewrite lookup_insert_eq. split; [done|]. split; [done|]. unfold piece_fits. cbn. lia.
    + rewrite lookup_insert_ne; [apply (proj1 (Forall_forall _ _) HP); set_solver|]. intros E. by apply (Hne x).
  - pose proof (ho_sorted _ _ H) as HS. rewrite fmap_app in *. cbn in *. revert HS. unfold before.
    apply sorted_replace; intros z; cbn; lia.
  - cbn. intros a Ha. apply (ho_mem _ _ H). apply lookup_insert_is_Some' in Ha as [<-|Ha]; [by exists q | done].
  - apply (ho_list _ _ H).
  - rewrite length_app. pose proof (ho_len _ _ H) as HL. by rewrite length_app in HL.
  - apply (trim_ok_mono s); [done | done | | apply (ho_trim _ _ H)]. intros a _ Ha. cbn. apply lookup_insert_is_Some'. by right.
Qed.

Lemma prune_tree_spec : forall l fuel s,
  hist_ok l s -> (length l <= fuel)%nat -> exists s', prune_tree fuel s = Ret tt s' /\ hist_ok [] s'.
Proof.
  induction l as [|[a q] l IH]; intros fuel s H Hf.
  - exists s. split; [|done]. destruct fuel; cbn [prune_tree]; by rewrite (bind_Ret _ _ _ _ _ (first_run _ s H)).
  - destruct fuel as [|fuel]; [cbn in Hf; lia|]. cbn [prune_tree]. rewrite (bind_Ret _ _ _ _ _ (first_run _ s H)). cbn [fmap list_fmap hd fst].
    destruct (proj1 (Forall_cons _ _ _) (ho_pieces _ _ H)) as [(Hq & _ & _) _]. cbn in Hq.
    destruct (ho_mem _ _ H a) as [_ [Hv _]]; [by exists q|]. destruct (Z.eqb_spec a 0); [lia|].
    destruct (erase_hist [] a q l s H) as (t & E & Hdom & HT).
    rewrite (bind_Ret _ _ _ _ _ (on_tree_run (rb_erase a) tt t s E)), (bind_Ret _ _ _ _ _ (remove_trim_run a _)).
    set (s1 := untrimmed a (set_tree t s)). destruct (untrimmed_frame a (set_tree t s)) as (F1 & F2 & F3 & F4). fold s1 in F1, F2, F3, F4. cbn in F1, F2, F3, F4.
    set (s2 := set_len (u64 (io_hist_len s1 + -1)) s1). rewrite (bind_Ret _ _ _ tt s2) by done.
    assert (pieces s2 !! a = Some q) as Hq2 by (cbn; by rewrite F2). rewrite (bind_Ret _ _ _ _ _ (free_run s2 a q Hq2)).
    apply IH; [|cbn in Hf; lia]. apply (hist_ok_drop [] a q l s (freed a s2) t true); try done.
    + cbn. by rewrite F1.
    + intros x Hx. cbn. by rewrite F2, lookup_delete_ne.
    + intros _. cbn. by rewrite lookup_delete_eq.
    + cbn. by rewrite F4.
    + assert (trim_ok s1) as Ht by (apply untrimmed_ok, (trim_ok_mono s); auto; apply (ho_trim _ _ H)).
      apply (trim_ok_mono s1); [done | done | | done]. intros x Hx Hs. cbn. rewrite lookup_delete_ne; [done|].
      intros ->. by apply (untrimmed_not_in x (set_tree t s)).
Qed.

Lemma prune_spec l s : hist_ok l s -> exists s', prune_io_piece_log s = Ret tt s' /\ hist_ok [] s'.
Proof.
  intros H. destruct (prune_tree_spec l (size (nodes (io_hist_tree s))) s H (hist_size l s H)) as (s1 & E & H1).
  exists s1. split; [|done]. unfold prune_io_piece_log. rewrite (bind_Ret _ _ s s s) by done. rewrite (bind_Ret _ _ _ _ _ E).
  rewrite (bind_Ret _ _ s1 s1 s1) by done. by rewrite (ho_list _ _ H1).
Qed.

(** ** Trims *)

Definition mark_trimmed (q : io_piece) : io_piece := with_flags (Z.lor IP_F_TRIMMED) q.

Lemma mark_onrb q : has IP_F_ONRB (ip_flags q) = true -> has IP_F_ONRB (ip_flags (mark_trimmed q)) = true.
Proof. unfold has. cbn [mark_trimmed with_flags ip_flags]. rewrite Z.land_lor_distr_l. cbn. by rewrite Z.lor_0_l. Qed.

(** With trim_zero the piece that is trimmed stays, marked. *)
Lemma mark_step l1 a q l2 s :
  hist_ok (l1 ++ (a, q) :: l2) s -> hist_ok (l1 ++ (a, mark_trimmed q) :: l2) (set_pieces (<[a := mark_trimmed q]> (pieces s)) s).
Proof.
  intros H. pose proof (hist_nodup _ _ H) as Hnd.
  assert (forall x, x ∈ l1 ++ l2 -> x.1 <> a) as Hne.
  { intros x Hx <-. rewrite fmap_app in Hnd. cbn in Hnd. rewrite <- Permutation_middle in Hnd. apply NoDup_cons in Hnd as [Hnd _]. apply Hnd.
    rewrite <- fmap_app. by apply list_elem_of_fmap_2. }
  pose proof (ho_pieces _ _ H) as HP. rewrite Forall_forall in HP.
  destruct (HP (a, q) ltac:(set_solver)) as (Hq & Hon & Hfit). cbn in Hq, Hon, Hfit.
  constructor.
  - pose proof (ho_tree _ _ H) as HT. by rewrite fmap_app in *.
  - apply Forall_forall. intros x Hx. cbn. assert (x = (a, mark_trimmed q) \/ x ∈ l1 ++ l2) as [->|Hx'] by set_solver.
    + cbn. rewrite lookup_insert_eq. split; [done|]. split; [by apply mark_onrb | done].
    + rewrite lookup_insert_ne; [apply HP; set_solver|]. intros E. by apply (Hne x).
  - pose proof (ho_sorted _ _ H) as HS. rewrite fmap_app in *. cbn in *. revert HS. by apply sorted_replace; intros z.
  - cbn. intros x Hx. apply (ho_mem _ _ H). apply lookup_insert_is_Some' in Hx as [<-|Hx]; [by exists q | done].
  - apply (ho_list _ _ H).
  - rewrite length_app. pose proof (ho_len _ _ H) as HL. by rewrite length_app in HL.
  - apply (trim_ok_mono s); [done | done | | apply (ho_trim _ _ H)]. intros x _ Hx. cbn. apply lookup_insert_is_Some'. by right.
Qed.

(** Two states that differ in the trim list only. *)
Lemma hist_ok_trim l s s' :
  hist_ok l s -> io_hist_tree s' = io_hist_tree s -> pieces s' = pieces s -> io_hist_list s' = io_hist_list s ->
  io_hist_len s' = io_hist_len s -> trim_ok s' -> hist_ok l s'.
Proof. intros [H1 H2 H3 H4 H5 H6 H7] E1 E2 E3 E4 Ht. by constructor; rewrite ?E1, ?E2, ?E3, ?E4. Qed.

(** The memory work of [get_next_trim] for a piece of the history: it is marked, or it leaves the
    tree and its memory is given back. *)
Definition trim_memory (o : hopts) (p : Z) (q : io_piece) : M hist unit :=
  if negb (trim_zero o) then
    (if has IP_F_ONLIST (ip_flags q) then hist_list_del p
     else assert_h (has IP_F_ONRB (ip_flags q));; on_tree (rb_erase p));;
    add_len (-1);; free_ipo p
  else set_ipo p (mark_trimmed q).

Lemma trim_memory_step o l1 p q l2 s :
  hist_ok (l1 ++ (p, q) :: l2) s -> has IP_F_ONLIST (ip_flags q) = false ->
  exists s' l', trim_memory o p q (untrimmed p s) = Ret tt s' /\ hist_ok l' s'.
Proof.
  intros H Hol. set (s1 := untrimmed p s). destruct (untrimmed_frame p s) as (F1 & F2 & F3 & F4). fold s1 in F1, F2, F3, F4.
  assert (hist_ok (l1 ++ (p, q) :: l2) s1) as H1 by (apply (hist_ok_trim _ s); auto; apply untrimmed_ok, (ho_trim _ _ H)).
  assert (p ∉ trim_list s1) as Hni by apply untrimmed_not_in.
  pose proof (ho_pieces _ _ H1) as HP. rewrite Forall_forall in HP. destruct (HP (p, q) ltac:(set_solver)) as (Hq & Hon & _). cbn in Hq, Hon.
  unfold trim_memory. destruct (trim_zero o); cbn [negb].
  - eexists _, _. split; [reflexivity|]. by apply mark_step.
  - destruct (erase_hist l1 p q l2 s1 H1) as (t & E & Hdom & HT). rewrite Hol, Hon. cbn [assert_h].
    rewrite (bind_Ret (assert_h true;; on_tree (rb_erase p)) _ s1 tt (set_tree t s1)) by exact (on_tree_run (rb_erase p) tt t s1 E).
    rewrite (bind_Ret (add_len (-1)) _ _ tt (set_len (u64 (io_hist_len s1 + -1)) (set_tree t s1)) eq_refl).
    rewrite (free_run _ p q) by exact Hq. eexists _, (l1 ++ l2). split; [reflexivity|].
    apply (hist_ok_drop l1 p q l2 s1 _ t true); try done.
    + intros x Hx. cbn. by rewrite lookup_delete_ne.
    + intros _. cbn. by rewrite lookup_delete_eq.
    + apply (trim_ok_mono s1); [done | done | | apply (ho_trim _ _ H1)]. intros x Hx Hs. cbn. rewrite lookup_delete_ne; [done|]. congruence.
Qed.

Lemma trim_next_step o l1 p q l2 s u opened open_r tl :
  hist_ok (l1 ++ (p, q) :: l2) s -> has IP_F_ONLIST (ip_flags q) = false -> u_file u = 0 ->
  trim_list s = p :: tl -> Z.of_nat (length (trim_list s)) < 2 ^ 64 ->
  exists r s' l', get_next_trim o opened open_r u s = Ret r s' /\ hist_ok l' s'.
Proof.
  intros H Hol Hu Htl Hlen. unfold get_next_trim. rewrite Hu. cbn [negb Z.eqb]. rewrite (bind_Ret _ _ s s s) by done. rewrite Htl.
  assert ((trim_entries s =? 0) = false) as ->.
  { rewrite (to_len _ (ho_trim _ _ H)), (u64_small' (Z.of_nat _)) by lia. apply Z.eqb_neq. rewrite Htl. cbn [length]. lia. }
  rewrite (bind_Ret (assert_h (negb false)) _ s tt s eq_refl), (bind_Ret _ _ _ _ _ (remove_trim_run p s)).
  destruct (untrimmed_frame p s) as (_ & F2 & _). pose proof (ho_pieces _ _ H) as HP. rewrite Forall_forall in HP.
  destruct (HP (p, q) ltac:(set_solver)) as (Hq & _). cbn in Hq. rewrite <- F2 in Hq.
  rewrite (bind_Ret _ _ _ _ _ (get_ipo_run _ p q Hq)). cbv zeta.
  destruct (trim_memory_step o l1 p q l2 s H Hol) as (s2 & l' & E & H2). unfold trim_memory, mark_trimmed in E. rewrite (bind_Ret _ _ _ _ _ E).
  destruct (negb opened && negb (open_r =? 0)); [by eexists _, s2, l'|].
  eexists _, _, l'. split; [reflexivity|]. apply (hist_ok_trim l' s2); try done.
  by apply (trim_ok_mono s2); [done | done | | apply (ho_trim _ _ H2)].
Qed.

(** * Any run *)

(** What happens to the history: a write is issued, completes, is short or fails, an io_u is
    filled for verification or for a trim, the history is dropped. *)
Inductive hevent : Type :=
  | HWrite (p : Z) (u : io_unit)
  | HDone (u : io_unit)
  | HShort (u : io_unit)
  | HFail (u : io_unit)
  | HVerify (u : io_unit) (opened : bool) (open_r : Z)
  | HTrim (u : io_unit) (opened : bool) (open_r : Z)
  | HPrune.

Definition hexec (o : hopts) (e : hevent) : M hist unit :=
  match e with
  | HWrite p u => log_io_piece o p u;; mret tt
  | HDone u => io_completed_ok u
  | HShort u => trim_io_piece u
  | HFail u => unlog_io_piece u;; mret tt
  | HVerify u opened open_r => get_next_verify o opened open_r u;; mret tt
  | HTrim u opened open_r => get_next_trim o opened open_r u;; mret tt
  | HPrune => prune_io_piece_log
  end.

(** The piece is linked in the tree: a walk meets it. *)
Definition linked (p : Z) (s : hist) : Prop := exists w, rb_walk (io_hist_tree s) = Ret w (io_hist_tree s) /\ p ∈ w.

(** The events the theorem is about: memory of [malloc] is not in use, a piece that completes is
    allocated, one that is short or fails is still in the tree, one that fails is not chosen for
    trimming, and the first piece chosen for trimming is in the tree.  This restricts the program.
    It also reaches the other events: a write that fails after a later one overlapped it or when it
    was chosen for trimming (iolog.c:314 and :318), and a trim of a piece whose verification could
    not open its file (verify.c:1353); [unlog_after_overlap], [unlog_leaves_trim] and
    [trim_after_failed_open] show what happens then. *)
Definition legal (e : hevent) (s : hist) : Prop :=
  match e with
  | HWrite p u => pieces s !! p = None /\ valid p /\ piece_fits (piece_of u)
  | HDone u => is_Some (pieces s !! u_ipo u)
  | HShort u => linked (u_ipo u) s /\ 0 <= u_resid u <= u_xfer_buflen u /\
      exists q, pieces s !! u_ipo u = Some q /\ u_xfer_buflen u - u_resid u <= ip_len q
  | HFail u => linked (u_ipo u) s /\ u_ipo u ∉ trim_list s
  | HTrim u _ _ => forall p tl, u_file u = 0 -> trim_list s = p :: tl ->
      Z.of_nat (length (trim_list s)) < 2 ^ 64 /\ linked p s /\
      exists q, pieces s !! p = Some q /\ has IP_F_ONLIST (ip_flags q) = false
  | HVerify _ _ _ | HPrune => True
  end.

Inductive hist_reach (o : hopts) : hist -> Prop :=
  | reach_start s : hist_ok [] s -> hist_reach o s
  | reach_step s e s' : hist_reach o s -> legal e s -> hexec o e s = Ret tt s' -> hist_reach o s'.

Lemma linked_split l s p : hist_ok l s -> linked p s -> exists l1 q l2, l = l1 ++ (p, q) :: l2 /\ pieces s !! p = Some q.
Proof.
  intros H (w & E & Hp). destruct (ho_tree _ _ H) as (T & HT & _ & EI). rewrite (rb_walk_run T [] _ HT), EI in E. injection E as <-.
  apply list_elem_of_fmap in Hp as ([a q] & -> & Hin). pose proof (hist_lookup _ _ _ _ H Hin) as Hq.
  apply list_elem_of_split in Hin as (l1 & l2 & ->). by exists l1, q, l2.
Qed.

Lemma verify_any o l s u opened open_r :
  hist_ok l s -> exists r s' l', get_next_verify o opened open_r u s = Ret r s' /\ hist_ok l' s'.
Proof.
  intros H. destruct (decide (u_file u = 0)) as [Hu|Hu].
  2:{ exists (0, u), s, l. split; [|done]. unfold get_next_verify. by rewrite (proj2 (Z.eqb_neq _ _) Hu). }
  assert ((match l with [] => True | (_, q) :: _ => has IP_F_IN_FLIGHT (ip_flags q) = true end) ->
    get_next_verify o opened open_r u s = Ret (1, u) s) as Hnone by (by apply verify_none).
  destruct l as [|[a q] l]; [by exists (1, u), s, []; split; [apply Hnone|]|].
  destruct (has IP_F_IN_FLIGHT (ip_flags q)) eqn:Hfl; [by exists (1, u), s, ((a, q) :: l); split; [apply Hnone|]|].
  destruct (opened || (open_r =? 0)) eqn:Hop.
  - destruct (verify_step o a q l s u open_r opened) as (s' & seed & E & H' & _); try done. by eexists _, s', l.
  - apply orb_false_iff in Hop as [-> Hr]. destruct (verify_fails o a q l s u open_r) as (s' & u' & E & H' & _); try done; [lia|]. by eexists _, s', l.
Qed.

Lemma trim_any o l s u opened open_r :
  hist_ok l s -> legal (HTrim u opened open_r) s -> exists r s' l', get_next_trim o opened open_r u s = Ret r s' /\ hist_ok l' s'.
Proof.
  intros H HL. destruct (decide (u_file u = 0)) as [Hu|Hu].
  2:{ exists (true, u), s, l. split; [|done]. unfold get_next_trim. by rewrite (proj2 (Z.eqb_neq _ _) Hu). }
  destruct (trim_list s) as [|p tl] eqn:Htl.
  { exists (false, u), s, l. split; [|done]. unfold get_next_trim. rewrite Hu. cbn [negb Z.eqb]. munfold. by rewrite Htl. }
  destruct (HL p tl Hu Htl) as (Hlen & Hl & q & Hq & Hol). destruct (linked_split l s p H Hl) as (l1 & q' & l2 & -> & Hq').
  rewrite Hq in Hq'. injection Hq' as <-. by apply (trim_next_step o l1 p q l2 s u opened open_r tl).
Qed.

Lemma event_step o e l s :
  hist_ok l s -> tree_mode o -> legal e s -> exists s' l', hexec o e s = Ret tt s' /\ hist_ok l' s'.
Proof.
  intros H Hm. destruct e as [p u|u|u|u|u opened open_r|u opened open_r|]; cbn [legal hexec].
  - intros (Hp & Hv & Hn). destruct (log_step o l s p u H Hm Hp Hv Hn) as (s' & u' & l1 & l2 & E & _ & _ & H' & _).
    rewrite (bind_Ret _ _ _ _ _ E). by eexists s', _.
  - intros [q Hq]. destruct (complete_step l s u q H Hq) as (s' & E & H' & _). by eexists s', _.
  - intros (Hl & Hr & q & Hq & Hle). destruct (linked_split l s _ H Hl) as (l1 & q' & l2 & -> & Hq').
    rewrite Hq in Hq'. injection Hq' as <-. destruct (short_write_step l1 q l2 s u H Hr Hle) as (s' & E & H'). by eexists s', _.
  - intros (Hl & Htr). destruct (linked_split l s _ H Hl) as (l1 & q & l2 & -> & _).
    destruct (unlog_step l1 q l2 s u H Htr) as (s' & u' & E & _ & H' & _). rewrite (bind_Ret _ _ _ _ _ E). by eexists s', _.
  - intros _. destruct (verify_any o l s u opened open_r H) as (r & s' & l' & E & H'). rewrite (bind_Ret _ _ _ _ _ E). by exists s', l'.
  - intros HL. destruct (trim_any o l s u opened open_r H HL) as (r & s' & l' & E & H'). rewrite (bind_Ret _ _ _ _ _ E). by exists s', l'.
  - intros _. destruct (prune_spec l s H) as (s' & E & H'). by exists s', [].
Qed.

(** * The theorems *)

(** C16: In the runs that [legal] describes the history is well formed: a state that any sequence
    of such events (writes issued, completed, short and failed, verifications, trims and prunings)
    reaches from an empty history kept in the tree holds a sorted list of pieces that are apart
    from each other in a red-black tree, with the counters right, and every such event that comes
    next returns: no use of freed memory, no failed assertion, no endless loop.  Left out are the
    failure of a write whose piece a later write replaced or that was chosen for trimming, the
    completion of a freed piece, and the trim of a piece that is out of the tree. *)
Theorem history_well_formed o s :
  tree_mode o -> hist_reach o s ->
  (exists l, hist_ok l s) /\ (forall e, legal e s -> exists s', hexec o e s = Ret tt s').
Proof.
  intros Hm Hr. assert (exists l, hist_ok l s) as [l H].
  { induction Hr as [s H|s e s' _ [l H] Hl E]; [by exists [] |].
    destruct (event_step o e l s H Hm Hl) as (s1 & l1 & E1 & H1). rewrite E in E1. injection E1 as <-. by exists l1. }
  split; [by exists l|]. intros e Hl. destruct (event_step o e l s H Hm Hl) as (s' & _ & E & _). by exists s'.
Qed.

(** C15: [log_io_piece] implements the abstract history: in a state that holds the pieces [l]
    in order, with the tree in use, it returns for every new address and every write that does
    not wrap around; the tree then holds the pieces before the write, the write, and the pieces
    after it, in order; of the overlapped pieces those that are complete are freed and those in
    flight are kept in memory, and no other piece is changed.  It terminates within as many
    restarts as there are nodes. *)
Theorem log_io_piece_refines o l s p u :
  hist_ok l s -> tree_mode o -> pieces s !! p = None -> valid p -> piece_fits (piece_of u) ->
  exists s' u', log_io_piece o p u s = Ret u' s' /\ u_ipo u' = p /\
    hist_ok (place p (piece_of u) l) s' /\ replaced p (piece_of u) l s s'.
Proof.
  intros H Hm Hp Hv Hn. destruct (log_step o l s p u H Hm Hp Hv Hn) as (s' & u' & l1 & l2 & E & Eu & Ek & H' & Hrep).
  exists s', u'. split; [done|]. split; [done|]. split; [|done].
  by rewrite <- (place_eq p (piece_of u) l l1 l2 Ek (ho_sorted _ _ H')).
Qed.

(** [get_next_verify] on every branch, for an io_u without a file: with an empty history or a
    first piece in flight it returns 1 and changes nothing; otherwise the first piece leaves the
    history, and when its file is or can be opened the io_u gets the file, offset, length and number
    of the piece, which is freed; when the open fails it returns 1 and the memory of
    the piece, which is not in the history any more, stays allocated. *)
Theorem get_next_verify_correct o l s u opened open_r :
  hist_ok l s -> u_file u = 0 ->
  match l with
  | [] => get_next_verify o opened open_r u s = Ret (1, u) s
  | (a, q) :: l' =>
      if has IP_F_IN_FLIGHT (ip_flags q) then get_next_verify o opened open_r u s = Ret (1, u) s
      else if opened || (open_r =? 0) then
        exists s' seed, get_next_verify o opened open_r u s = Ret (0, verify_unit q seed u) s' /\ hist_ok l' s' /\
          pieces s' = delete a (pieces s)
      else
        exists s' u', get_next_verify o opened open_r u s = Ret (1, u') s' /\ hist_ok l' s' /\ pieces s' !! a = Some (off_rb q)
  end.
Proof.
  intros H Hu. assert ((match l with [] => True | (_, q) :: _ => has IP_F_IN_FLIGHT (ip_flags q) = true end) ->
    get_next_verify o opened open_r u s = Ret (1, u) s) as Hnone by (by apply verify_none).
  destruct l as [|[a q] l]; [by apply Hnone|]. destruct (has IP_F_IN_FLIGHT (ip_flags q)) eqn:Hfl; [by apply Hnone|].
  destruct (opened || (open_r =? 0)) eqn:Hop; [by apply verify_step|].
  apply orb_false_iff in Hop as [-> Hr]. apply verify_fails; try done. lia.
Qed.

(** C14: A job that keeps its history in the tree (it has no random map, or sorts the verification
    of random writes; not the list of sequential jobs with a map).  Of its writes, each completed
    before the next is logged and none failing or wrapping around, exactly those that no later
    write overlaps are verified, each once, with its file, offset, length and number, in ascending
    order of file and offset; then the history is empty.  Both phases return. *)
Theorem writes_verified o ws s u :
  hist_ok [] s -> tree_mode o -> Forall (fun w => piece_fits (piece_of w.2)) ws -> fresh_run o ws s -> u_file u = 0 ->
  exists s1 s2 us, write_all o ws s = Ret tt s1 /\ io_hist_len s1 = u64 (Z.of_nat (length us)) /\
    verify_all o (length us) u s1 = Ret us s2 /\ hist_ok [] s2 /\
    bare_unit <$> us ≡ₚ latest ws /\ StronglySorted before (bare_unit <$> us).
Proof.
  intros H Hm Hn Hfr Hu. destruct (write_all_spec o ws [] s H) as (s1 & l & E1 & H1 & Hr & B); [constructor | done | done | done|].
  destruct (verify_all_spec o u l (length l) s1 H1 Hr Hu (le_n _)) as (s2 & us & E2 & Eb & H2 & _).
  assert (length us = length l) as EL by (rewrite <- (length_fmap bare_unit us), Eb; unfold bares; by rewrite !length_fmap).
  exists s1, s2, us. rewrite EL. split; [done|]. split; [apply (ho_len _ _ H1)|]. split; [done|]. split; [done|]. split; [by rewrite Eb|].
  rewrite Eb. pose proof (ho_sorted _ _ H1) as HS. clear - HS. induction l as [|x l IH]; [constructor|]. cbn in *.
  apply StronglySorted_inv in HS as [HS Hx]. constructor; [by apply IH|]. apply Forall_fmap. eapply Forall_impl; [exact Hx | done].
Qed.

(** A write that ends in an error leaves the history: [unlog_io_piece] after [log_io_piece]
    removes its piece from the tree, frees it and clears the io_u's pointer to it, if it
    is not on the trim list; the history then is what the write did not overlap. *)
Theorem unlog_io_piece_correct o l s p u :
  hist_ok l s -> tree_mode o -> pieces s !! p = None -> valid p -> piece_fits (piece_of u) ->
  exists s1 u1, log_io_piece o p u s = Ret u1 s1 /\
    (p ∉ trim_list s1 -> exists s' u', unlog_io_piece u1 s1 = Ret u' s' /\ u_ipo u' = 0 /\ hist_ok (kept (piece_of u) l) s' /\
       pieces s' !! p = None).
Proof.
  intros H Hm Hp Hv Hn. destruct (log_step o l s p u H Hm Hp Hv Hn) as (s1 & u1 & l1 & l2 & E & <- & Ek & H1 & _).
  exists s1, u1. split; [done|]. intros Htr. destruct (unlog_step _ _ _ s1 u1 H1 Htr) as (s' & u' & E' & Eu & H' & Ep).
  exists s', u'. rewrite Ek, Ep, lookup_delete_eq. done.
Qed.

(** * Examples *)

Definition demo_opts : hopts := mkHopts true true (fun _ => false) 0 false 0.
Definition demo_rand : frand_state := state32 (mkT88 1 2 3).
Definition demo_hist : hist := mkHist (mkRbst ∅ 0) ∅ [] 0 [] 0 demo_rand demo_rand ∅.
(** A write of file 1 at an address range. *)
Definition demo_io (off len num : Z) : io_unit := mkIou 1 off len num 0 0 0 false false 0 0 0 0.
Definition demo_unit : io_unit := mkIou 0 0 0 0 0 0 0 false false 0 0 0 0.

Lemma demo_hist_ok : hist_ok [] demo_hist.
Proof.
  constructor; try done.
  - exists Leaf. repeat split; try done; try constructor. exists 0%nat. constructor.
  - constructor.
  - intros p [x Hx]. cbn in Hx. by rewrite lookup_empty in Hx.
  - split; [constructor | done | intros a Ha; by apply elem_of_nil in Ha].
Qed.

Lemma demo_mode : tree_mode demo_opts.
Proof. done. Qed.

(** The history with one complete piece. *)
Definition demo_piece : io_piece := mkIpo 1 0 4096 7 IP_F_ONRB.
Definition demo_hist1 : hist :=
  mkHist (mkRbst {[ 8 := mkRb 1 0 0 ]} 8) {[ 8 := demo_piece ]} [] 1 [] 0 demo_rand demo_rand ∅.

Lemma demo_hist1_ok : hist_ok [(8, demo_piece)] demo_hist1.
Proof.
  constructor; try done.
  - exists (Node Black Leaf 8 Leaf). split; [|split; [split; [done | exists 1%nat; repeat constructor] | done]].
    split; [|done]. split; [cbn; repeat constructor; set_solver|].
    apply Forall_cons. split; [|constructor]. split; [split; [by split | first [by left | by right]] | by vm_compute].
  - repeat constructor; by vm_compute.
  - repeat constructor.
  - intros p [x Hx]. unfold demo_hist1 in Hx; cbn [pieces] in Hx. apply lookup_singleton_Some in Hx as [<- _]. by vm_compute.
  - split; [constructor | done | intros a Ha; by apply elem_of_nil in Ha].
Qed.

Lemma log_io_piece_refines_witness :
  exists s' u', log_io_piece demo_opts 16 (demo_io 2048 4096 9) demo_hist1 = Ret u' s' /\ u_ipo u' = 16 /\
    hist_ok [(16, on_rb (piece_of (demo_io 2048 4096 9)))] s' /\
    replaced 16 (piece_of (demo_io 2048 4096 9)) [(8, demo_piece)] demo_hist1 s'.
Proof.
  apply (log_io_piece_refines demo_opts [(8, demo_piece)] demo_hist1 16 (demo_io 2048 4096 9) demo_hist1_ok demo_mode); by vm_compute.
Defined.

Lemma get_next_verify_correct_witness :
  exists s' seed, get_next_verify demo_opts true 0 demo_unit demo_hist1 = Ret (0, verify_unit demo_piece seed demo_unit) s' /\
    hist_ok [] s' /\ pieces s' = delete 8 (pieces demo_hist1).
Proof. exact (get_next_verify_correct demo_opts [(8, demo_piece)] demo_hist1 demo_unit true 0 demo_hist1_ok eq_refl). Defined.

Lemma unlog_io_piece_correct_witness :
  exists s1 u1, log_io_piece demo_opts 16 (demo_io 2048 4096 9) demo_hist1 = Ret u1 s1 /\
    exists s' u', unlog_io_piece u1 s1 = Ret u' s' /\ u_ipo u' = 0 /\ hist_ok [] s' /\ pieces s' !! 16 = None.
Proof.
  destruct (unlog_io_piece_correct demo_opts [(8, demo_piece)] demo_hist1 16 (demo_io 2048 4096 9) demo_hist1_ok demo_mode)
    as (s1 & u1 & E & H); [by vm_compute | by vm_compute | by vm_compute |].
  exists s1, u1. split; [exact E|]. apply H. vm_compute in E. injection E as <- <-. apply not_elem_of_nil.
Defined.

Definition demo_logged : hist :=
  match log_io_piece demo_opts 8 (demo_io 0 4096 0) demo_hist with Ret _ s => s | _ => demo_hist end.

Lemma demo_reach : hist_reach demo_opts demo_logged.
Proof.
  apply (reach_step _ demo_hist (HWrite 8 (demo_io 0 4096 0))); [apply reach_start, demo_hist_ok | by vm_compute | by vm_compute].
Qed.

Lemma history_well_formed_witness :
  (exists l, hist_ok l demo_logged) /\ exists s', hexec demo_opts (HVerify demo_unit true 0) demo_logged = Ret tt s'.
Proof.
  destruct (history_well_formed demo_opts demo_logged demo_mode demo_reach) as [H1 H2].
  split; [exact H1 | exact (H2 (HVerify demo_unit true 0) I)].
Defined.

(** Three writes, of which the second overlaps the first. *)
Definition demo_writes : list (Z * io_unit) :=
  [(8, demo_io 8192 4096 0); (16, demo_io 10240 4096 1); (24, demo_io 0 4096 2)].

Lemma demo_fresh : fresh_run demo_opts demo_writes demo_hist.
Proof.
  repeat (split; [by vm_compute|]; split; [by vm_compute|]; intros ? E; vm_compute in E; injection E as <-). done.
Qed.

Lemma writes_verified_witness :
  exists s1 s2 us, write_all demo_opts demo_writes demo_hist = Ret tt s1 /\ io_hist_len s1 = u64 (Z.of_nat (length us)) /\
    verify_all demo_opts (length us) demo_unit s1 = Ret us s2 /\ hist_ok [] s2 /\
    bare_unit <$> us ≡ₚ [bare_unit (demo_io 10240 4096 1); bare_unit (demo_io 0 4096 2)] /\
    StronglySorted before (bare_unit <$> us).
Proof.
  apply (writes_verified demo_opts demo_writes demo_hist demo_unit demo_hist_ok demo_mode); [|apply demo_fresh | done].
  repeat constructor; by vm_compute.
Defined.

(** ** Pieces that are used after they are gone *)

(** Logs two writes of the same range, the first still in flight, and lets the first fail. *)
Definition overlap_then_error : M hist (io_unit * list Z) :=
  u1 ← log_io_piece demo_opts 8 (demo_io 0 4096 0);
  log_io_piece demo_opts 16 (demo_io 0 4096 1);;
  u1 ← unlog_io_piece u1;
  walk ← on_tree rb_walk;
  mret (u1, walk).

(** The piece of the first write is out of the tree since the second was logged, but it still has
    its flag: removing it again empties the tree, and the second write is lost. *)
Lemma unlog_after_overlap :
  exists u s', overlap_then_error demo_hist = Ret (u, []) s' /\ io_hist_len s' = 0 /\ pieces s' !! 16 = Some (on_rb (piece_of (demo_io 0 4096 1))).
Proof. eexists _, _. split; [vm_compute; reflexivity|]. by vm_compute. Qed.

(** A write chosen for trimming whose verification cannot open its file: its piece is out of the
    tree, without its flag, and still on the trim list, and [get_next_trim] fails its assertion. *)
Definition failed_open_then_trim (o : hopts) : M hist (bool * io_unit) :=
  u1 ← log_io_piece o 8 (demo_io 0 4096 0); io_completed_ok u1;;
  get_next_verify o false 1 demo_unit;;
  get_next_trim o true 0 demo_unit.

Definition demo_trim_opts : hopts := mkHopts true true (fun _ => false) 100 false 0.

Lemma trim_after_failed_open : exists s', failed_open_then_trim demo_trim_opts demo_hist = Exit 134 s'.
Proof. eexists. vm_compute. reflexivity. Qed.

(** A write that was chosen for trimming and fails: its piece is freed and stays on the trim list,
    from where [get_next_trim] takes it. *)
Lemma unlog_leaves_trim :
  exists s', (u1 ← log_io_piece demo_trim_opts 8 (demo_io 0 4096 0); unlog_io_piece u1) demo_hist =
               Ret (demo_io 0 4096 0) s' /\
    pieces s' !! 8 = None /\ trim_list s' = [8] /\
    exists s'', get_next_trim demo_trim_opts true 0 demo_unit s' = Undef s''.
Proof.
  eexists. split; [vm_compute; reflexivity|]. split; [by vm_compute|]. split; [by vm_compute|]. eexists. vm_compute. reflexivity.
Qed.
